(* ===== verification/_CoqProject ===== *)
-Q . S2P
Prelude.v
Word.v
Properties.v
EvmState.v
Arith.v
Host.v
MemoryOps.v
External.v
MockedHost.v
Interpreter.v
Analysis.v
StackSafety.v
Wp.v
InstrSpec.v
InstrSafety.v
InterpSafety.v
EvmTheorems.v
Static.v
Tracing.v
Transaction.v
IntraBlockState.v
Journal.v
BlockState.v
Consensus.v
ConsensusSpec.v
Precompiled.v
PrecompiledSpec.v
EvmGlue.v
EvmGlueSpec.v
MemState.v
Rlp.v
Trie.v
Processor.v
Frames.v
MemStateSpec.v
Samples.v
TrieSpec.v
Etl.v
EtlSpec.v
StagedSync.v
StagedSyncSpec.v
Kv.v
Stages.v
StagesSpec.v
Bitmaps.v
BitmapsSpec.v
CallTraces.v
CallTracesSpec.v
Buffer.v
BufferSpec.v
HistorySpec.v
RlpDecode.v
RlpDecodeSpec.v
ChainAccess.v
ChainAccessSpec.v
Codec.v
CodecSpec.v
HashState.v
HashStateSpec.v
HashExecution.v
TxLookup.v
InterHashes.v
InterHashesSpec.v
Atomic.v
ProcessorSpec.v
ReceiptSpec.v
Blockchain.v
BlockchainSpec.v
ExecutionStage.v
ExecutionStageSpec.v
HeaderSlices.v
HeaderStages.v
HeaderLoop.v
HeaderSlicesSpec.v
HeaderLoopSpec.v
HeaderChainSpec.v
ForkMode.v
Downloader.v
ForkModeSpec.v
ForkRunSpec.v
