(* ===== verification/Prelude.v ===== *)
(** * Martinez: a verification of the execution, consensus and synchronisation core

    Martinez is an Ethereum client in Rust.  A node downloads headers and
    bodies, validates them (src/consensus), executes the transactions of each
    block with the Ethereum virtual machine (src/execution) against the state of
    the block (src/state), and writes the result to a database (src/kv) through a
    pipeline of stages (src/stagedsync, src/stages), the last of which hash the
    state into a Merkle Patricia trie (src/trie).  This library models, definition
    by definition, the parts in which a mistake changes what the chain means.

    ** Files

    Shared:
    - Prelude: machine integers as [Z] with their ranges, checked arithmetic
      ([None] is an overflow), bytes, slices with their bounds, automation.
    - Word: the 256-bit operations of the [U256] type; the signed operations of
      the i256 crate ([I256Ops], [I256Laws]) and Keccak ([Keccak]) as classes.

    The virtual machine (src/execution/evm):
    - Properties (opcode.rs, src/models/revision.rs, properties.rs,
      instruction_table.rs): opcodes, revisions and their tables.
    - EvmState (common.rs, state.rs): messages, outputs, stack, memory, the state
      of a frame, and the monad [M W] of an instruction, which reads and writes
      the frame and the world [W] of the host and can end with a status code,
      fault (a panic or an access outside the stack) or run out of fuel.
    - Arith (arithmetic.rs, bitwise.rs, boolean.rs, stack_manip.rs), MemoryOps
      (memory.rs, control.rs), External (external.rs, call.rs): one definition
      per instruction, in modules with the names of the files.
    - Host (host.rs, src/execution/tracer/mod.rs): the trait [Host] as a class;
      [HostInv] is the contract the interpreter relies on, an invariant indexed by
      the static flag and the depth of the frame.
    - Interpreter (interpreter.rs): code analysis, the check of requirements, the
      dispatch of all opcodes and the loop.
    - MockedHost (util/mocked_host.rs): a host that satisfies the contract.

    Block state and its databases (src/state):
    - IntraBlockState (intra_block_state.rs, delta.rs, object.rs, interface.rs):
      accounts, storage, journal, snapshots, substate; the database is a class
      with the methods of the trait [State].  BlockState says what finalizing a
      block state writes, for any database.
    - MemState (in_memory_state.rs, genesis.rs) and Buffer (buffer.rs, database.rs,
      src/accessors/state.rs, the unwind of src/stages/execution.rs): the two
      databases as instances of that class, the second over the tables of the
      storage engine with change sets, history and reads at a historical block.

    Transactions, encodings and consensus:
    - Transaction (src/models/transaction.rs, src/chain/intrinsic_gas.rs and
      protocol_param.rs, src/crypto/mod.rs).
    - Rlp, RlpDecode (src/models: header.rs, transaction.rs, log.rs, receipt.rs,
      bloom.rs, src/sentry: messages.rs, block_id.rs, message_decoder.rs): encodings and
      decodings, blooms, receipts and the messages of the network protocol.
    - Consensus (src/models/header.rs, block.rs, chainspec.rs, src/consensus):
      headers, chain specifications, validation, difficulty, base fee, ommers
      and rewards.  Blockchain (src/consensus/blockchain.rs): insertion of blocks
      with reorganisation over the in-memory state.

    The machine over the block state (src/execution):
    - Precompiled (precompiled.rs, src/util.rs, src/crypto/blake2.rs): the nine
      precompiled contracts.
    - EvmGlue (evmglue.rs, address.rs, analysis_cache.rs): calls and creations
      with their snapshots, the host of a frame over the block state, and the
      entry point for a transaction.  The recursion through the host is on the
      number of nested frames; 1025 are enough, because a frame at depth 1024
      does not call.
    - Processor (processor.rs, mod.rs): validation and execution of transactions
      and blocks.

    Tries (src/trie):
    - Trie (hash_builder.rs, node.rs, prefix_set.rs, util.rs) and InterHashes
      (intermediate_hashes.rs, src/stages/interhashes.rs).

    The database and the pipeline:
    - Kv (src/kv/mdbx.rs, traits.rs): the operations of the engine as a class with
      their documented behaviour, and the walks over them.  Codec (src/kv/tables.rs):
      the encodings of keys and values.  Etl (src/etl): the external sort.
    - Bitmaps (src/bitmapdb), ChainAccess (src/accessors/chain.rs and
      src/stages/sender_recovery.rs).
    - StagedSync (src/stagedsync): the loop of the pipeline as a machine of steps,
      with the trait of the stages as a record.
    - Stages (block_hashes.rs, total_gas_index.rs, total_tx_index.rs,
      stage_util.rs), CallTraces (call_trace_index.rs), HashState (hashstate.rs),
      TxLookup (tx_lookup.rs), ExecutionStage (execution.rs): the stages as
      instances of that record.

    The download of headers (src/downloader/headers_downloader):
    - HeaderSlices (headers/header.rs, header_slices.rs, header_slice_status_watch.rs,
      verification):
      the window of slices of 192 headers.  A stage keeps references to slices, so a
      slice has an identity, and slices that have left the window are kept with those
      in it; the counters of the statuses and the values last sent to waiting stages
      are state of the window.  The trait of the verifiers is a class with
      its two instances.
    - HeaderStages (stages): each stage as a function of its place (an await is a
      place), the window and what the world answers when it is polled.
    - HeaderLoop (downloader_stage_loop.rs, downloader_preverified.rs,
      downloader_linear.rs): the loop over the stages for any list of events, and the
      phases that do not follow forks.
    - ForkMode (fork_mode_stage.rs, fork_switch_command.rs, verify_link_forky_stage.rs):
      the windows of the canonical chain and of a fork.
    - Downloader (downloader_forky.rs, downloader.rs, src/stages/downloader.rs,
      src/downloader/sentry_status_provider.rs): the phase that follows forks, the
      three phases, and the stage of the pipeline with the state between its calls.

    ** What is proved

    - Analysis, StackSafety, Wp, InstrSafety, InterpSafety, EvmTheorems:
      code analysis marks exactly the valid jump destinations and its padding is
      enough; the tables agree with the properties; every instruction respects
      its declared stack effect; every iteration of the loop costs gas, so a frame
      of any code ends, without a panic, an overflow or an access outside the
      stack, and with no more gas than it was given.
    - InstrSpec: what the instructions with loops or case distinctions
      compute (EXP, SIGNEXTEND, SAR, BYTE, ADDMOD, MULMOD), the cost of memory
      expansion, and reading back what was stored.
    - Static: a static frame cannot change what the read-only methods keep.
      Tracing: tracing does not change the result of a frame.
    - Journal: reverting to a snapshot restores every read of the state, for any
      sequence of operations and nested frames.  Frames, Atomic: a call or creation
      that fails leaves the block state as it was.
    - Transaction: intrinsic gas in closed form, the signature value of EIP-155
      as an inverse pair, and which signatures pass the range check.
    - ConsensusSpec: the engine accepts exactly the headers the Yellow Paper and
      EIP-1559 describe and does not panic; ommers of accepted blocks are kin
      within six generations and their rewards are computed without underflow; the
      base fee and the effective price stay within their bounds; the revision of
      a block is the newest that is active, and the gathered fork blocks are all
      the blocks at which it can change.
    - BlockchainSpec: the canonical chain stays a chain, and a failed insertion
      changes nothing.
    - PrecompiledSpec: modular exponentiation computes what it says and is
      priced as EIP-198 and EIP-2565 say, except for exponents whose length in
      bits does not fit into a machine word, where the price overflows; BLAKE2b
      and the other contracts are total.
    - EvmGlueSpec: a storage write has the status and refund of EIP-2200,
      EIP-1283 and EIP-3529, and the refund counter does not underflow.
    - ProcessorSpec, ReceiptSpec: what executing a transaction or a block requires
      and yields, and receipts and blooms that agree with the header.
    - RlpDecodeSpec, CodecSpec: decoding inverts encoding, encodings keep the order
      of keys, signed bytes determine a message, and messages of the network protocol are
      read back.
    - MemStateSpec, BufferSpec, HistorySpec: writing a block is reading it back, the
      unwind restores what was there before, and reads at a historical block give
      the values of that block.
    - TrieSpec, InterHashesSpec: the hash builder computes the root of the trie given
      by recursion on its entries, and a full run accepts exactly the right root.
    - EtlSpec: the external sort sorts.  BitmapsSpec, CallTracesSpec: chunks cover a
      bitmap in order and an index holds what was loaded into it.
    - StagedSyncSpec, StagesSpec: the invariant of the pipeline, the completion of
      unwinds and of synchronisation, with the index stages as instances.
    - ChainAccessSpec, HashStateSpec, HashExecution, TxLookup, ExecutionStageSpec: each
      stage refines what it is to compute, and its unwind takes it back; a run of the
      execution stage refines the execution of its blocks, for every way in which it
      is cut into batches, and the hashed state follows it.
    - HeaderSlicesSpec, HeaderLoopSpec, HeaderChainSpec: whatever peers send and in
      whatever order the stages are polled, what the linear phase reports is a chain of
      valid headers after the one before it, which an unwind takes back, and what the
      preverified phase makes canonical is the listed chain.
    - ForkModeSpec, ForkRunSpec: the heavier of two chains wins, and the windows that
      are kept between calls of the stage stay well formed, their counters in
      agreement with their slices, through every run and every switch to a fork.
    Samples holds concrete chains and states for the witnesses.

    ** Conventions

    Integers are [Z] with the range of their type stated where it matters; an
    operation that can overflow is written with [checked] and its overflow is a
    fault of the model, so a theorem that excludes faults shows that the result
    does not depend on whether overflow checks are compiled in.  Hash maps and
    sets are finite maps and sets.  A Rust [Vec] is a list; the journal is kept
    newest first.

    Loops that are not structural take fuel, which is proved to be enough where a
    theorem speaks about their result.  The interpreter loop has [loop_bound], two
    more than the gas of the message, because each iteration that continues costs at
    least one unit of gas.  Loops over a table take the size of its content, loops
    that split a bitmap one more than its size, the merge of the external sort the
    number of entries ([merge_fuel]), the batches of the sender stage one per body and
    one more, the execution stage one round per block up to the last one, the cursor
    over the nodes of a trie [cursor_fuel], the square of 17 times the number of the
    nodes and two more, and its loop over siblings the length of the stack.  The stages
    of the header download run for as many rounds as their counters say, as in the code;
    the switch to a fork takes one round per block of its ranges and gives no result if
    they do not suffice.

    ** Parameters

    Code of other crates is a parameter of the definitions that use it: Keccak
    and the other hash functions (without collisions only on the keys in use, where a
    theorem needs it), signed 256-bit and arbitrary-precision arithmetic, elliptic
    curves and the recovery of senders, the LRU map, the RLP stream and its reader,
    the proof of work, the serialization of croaring bitmaps and the storage engine.
    The clock is arbitrary.  Each class has an instance next to the witnesses of the
    theorems that depend on it.

    ** Not modelled

    - The SCALE and RON codecs and the serialization of bitmaps belong to other
      crates, as do the bindings of the storage engine (src/kv) and its remote access.
    - That an incremental run of the intermediate hashes gives the root of a full run
      is not proved; the runs themselves are modelled.
    - The client of the network process and the display of the progress (src/sentry,
      src/downloader/ui, headers_ui) are asynchronous input and output; their answers are
      the events of HeaderLoop and Downloader.  That a download ends depends on the peers
      and is not stated.
    - The RPC servers (src/rpc), the command lines (src/bin) and the writing of the
      genesis header are input and output around the parts above; so are the tracer
      that prints EIP-3155 records and the utilities of the tests of the machine.
    - Files that no module declares are not part of the program: among others
      src/execution/evm.rs, src/execution/martinez-evm, src/commitment, src/changeset,
      src/dbutils, src/kv/tableobject, src/chain/validity.rs and the files of
      src/downloader that are not named above. *)
From Stdlib Require Import ZArith Lia Strings.Byte.
From stdpp Require Import base list option numbers.
#[local] Open Scope Z_scope.

Create HintDb martinez.
Create HintDb mz_rw.

(** ** Machine widths *)

(** A [w]-bit unsigned integer is a [Z] in [0, 2^w). *)
Definition uint (w z : Z) : Prop := 0 <= z < 2 ^ w.
Abbreviation word := (uint 256).
Abbreviation is_u64 := (uint 64).
Abbreviation is_address := (uint 160).

Definition i64_max : Z := 2 ^ 63 - 1.
Definition u32_max : Z := 2 ^ 32 - 1.
Definition u64_max : Z := 2 ^ 64 - 1.

#[global] Instance uint_dec w z : Decision (uint w z).
Proof. unfold uint; apply _. Defined.

(** Wrap-around to [w] bits. *)
Definition wrap (w z : Z) : Z := z mod 2 ^ w.

Lemma wrap_uint w z : 0 <= w -> uint w (wrap w z).
Proof. intros; apply Z.mod_pos_bound; lia. Qed.

Lemma wrap_small w z : uint w z -> wrap w z = z.
Proof. intros H; apply Z.mod_small, H. Qed.

Lemma wrap_wrap_le v w z : 0 <= v <= w -> wrap v (wrap w z) = wrap v z.
Proof.
  intros H. unfold wrap. replace (2 ^ w) with (2 ^ v * 2 ^ (w - v)).
  - rewrite Z.rem_mul_r by lia. rewrite Z.mul_comm, Z_mod_plus_full.
    apply Z.mod_mod; lia.
  - rewrite <- Z.pow_add_r by lia. f_equal; lia.
Qed.

Lemma uint_mono v w z : 0 <= v <= w -> uint v z -> uint w z.
Proof.
  intros H [? ?]; split; [lia|].
  eapply Z.lt_le_trans; [done|]. apply Z.pow_le_mono_r; lia.
Qed.

Lemma wrap256_word z : word (wrap 256 z).
Proof. by apply wrap_uint. Qed.

#[export] Hint Resolve wrap256_word : martinez.
#[export] Hint Extern 2 (_ <= _) => lia : martinez.
#[export] Hint Extern 2 (_ < _) => lia : martinez.

(** Numeric values of the powers of two that occur, for [lia]. *)
Lemma uint_8 z : uint 8 z <-> 0 <= z < 256.
Proof. done. Qed.

Lemma pow256_ge_pow64 : 2 ^ 64 < 2 ^ 256.
Proof. done. Qed.

(** ** Checked integer arithmetic

    [checked lo hi z] is the value of an arithmetic expression of a type
    whose range is [lo..hi]; [None] stands for overflow.  *)
Definition checked (lo hi z : Z) : option Z :=
  if (lo <=? z) && (z <=? hi) then Some z else None.

Definition i64_checked : Z -> option Z := checked (- 2 ^ 63) i64_max.
Definition i32_checked : Z -> option Z := checked (- 2 ^ 31) (2 ^ 31 - 1).
Definition u64_checked : Z -> option Z := checked 0 u64_max.
Definition usize_checked : Z -> option Z := checked 0 u64_max.
Definition u256_checked : Z -> option Z := checked 0 (2 ^ 256 - 1).

(** Subtraction at an unsigned type. *)
Definition unsigned_sub (a b : Z) : option Z :=
  if b <=? a then Some (a - b) else None.

Lemma unsigned_sub_some a b : b <= a -> unsigned_sub a b = Some (a - b).
Proof. intros. unfold unsigned_sub. by rewrite (proj2 (Z.leb_le _ _)). Qed.
Lemma unsigned_sub_inv a b c : unsigned_sub a b = Some c -> b <= a /\ c = a - b.
Proof. unfold unsigned_sub. destruct (Z.leb_spec b a); [|done]. by intros [= <-]. Qed.

Lemma checked_some lo hi z : lo <= z <= hi -> checked lo hi z = Some z.
Proof.
  intros [? ?]. unfold checked.
  by rewrite (proj2 (Z.leb_le _ _)), (proj2 (Z.leb_le _ _)).
Qed.

Lemma checked_inv lo hi z r : checked lo hi z = Some r -> r = z /\ lo <= z <= hi.
Proof.
  unfold checked. destruct (_ && _) eqn:E; [|done].
  apply andb_true_iff in E as [E1 E2].
  apply Z.leb_le in E1. apply Z.leb_le in E2. naive_solver.
Qed.

Lemma bind_Some_eq {A B} (x : A) (k : A -> option B) : (Some x ≫= k) = k x.
Proof. done. Qed.

Lemma u256_checked_some z : 0 <= z < 2 ^ 256 -> u256_checked z = Some z.
Proof. intros. apply checked_some. lia. Qed.

Lemma bind_u256 {B} z (k : Z -> option B) : 0 <= z < 2 ^ 256 -> (u256_checked z ≫= k) = k z.
Proof. intros. by rewrite u256_checked_some. Qed.

Lemma bind_sub {B} a b (k : Z -> option B) : b <= a -> (unsigned_sub a b ≫= k) = k (a - b).
Proof. intros. by rewrite unsigned_sub_some. Qed.

(** ** Bytes *)

Definition byte_val (b : byte) : Z := Z.of_N (Byte.to_N b).

(** Truncation to a byte. *)
Definition byte_of (z : Z) : byte :=
  match Byte.of_N (Z.to_N (z mod 256)) with
  | Some b => b
  | None => x00
  end.

#[global] Instance byte_eq_dec : EqDecision byte := Byte.byte_eq_dec.

Lemma byte_val_range b : 0 <= byte_val b < 256.
Proof.
  unfold byte_val. pose proof (Byte.to_N_bounded b). lia.
Qed.

Lemma byte_val_of z : byte_val (byte_of z) = z mod 256.
Proof.
  unfold byte_of, byte_val.
  pose proof (Z.mod_pos_bound z 256 ltac:(lia)).
  destruct (Byte.of_N _) as [b|] eqn:E.
  - apply Byte.to_of_N in E. rewrite E. lia.
  - apply Byte.of_N_None_iff in E. lia.
Qed.

Lemma byte_of_val b : byte_of (byte_val b) = b.
Proof.
  unfold byte_of. pose proof (byte_val_range b).
  rewrite Z.mod_small by done. unfold byte_val. rewrite N2Z.id.
  by rewrite Byte.of_to_N.
Qed.

Lemma byte_val_inj b c : byte_val b = byte_val c -> b = c.
Proof. intros H. by rewrite <- (byte_of_val b), H, byte_of_val. Qed.

(** Big-endian value of a byte string, and the [n]-byte representation. *)
Definition be_val (bs : list byte) : Z :=
  foldl (fun acc b => acc * 256 + byte_val b) 0 bs.

Fixpoint be_bytes (n : nat) (z : Z) : list byte :=
  match n with
  | O => []
  | S n => be_bytes n (z / 256) ++ [byte_of z]
  end.

Lemma be_val_snoc bs b : be_val (bs ++ [b]) = be_val bs * 256 + byte_val b.
Proof. unfold be_val. by rewrite foldl_app. Qed.

Lemma be_val_range bs : 0 <= be_val bs < 256 ^ Z.of_nat (length bs).
Proof.
  induction bs as [|b bs IH] using rev_ind; [done|].
  rewrite be_val_snoc, length_app. pose proof (byte_val_range b).
  replace (Z.of_nat (length bs + length [b])) with (Z.succ (Z.of_nat (length bs)))
    by (simpl; lia).
  rewrite Z.pow_succ_r by lia. lia.
Qed.

Lemma length_be_bytes n z : length (be_bytes n z) = n.
Proof.
  revert z. induction n as [|n IH]; intros z; simpl; [done|].
  rewrite length_app, IH. simpl. lia.
Qed.

Lemma be_val_bytes n z : be_val (be_bytes n z) = z mod 256 ^ Z.of_nat n.
Proof.
  revert z. induction n as [|n IH]; intros z.
  - simpl. by rewrite Z.mod_1_r.
  - cbn [be_bytes]. rewrite be_val_snoc, IH, byte_val_of.
    rewrite Nat2Z.inj_succ, Z.pow_succ_r by lia.
    rewrite Z.rem_mul_r by lia. lia.
Qed.

Lemma be_bytes_val bs : be_bytes (length bs) (be_val bs) = bs.
Proof.
  induction bs as [|b bs IH] using rev_ind; [done|].
  rewrite length_app, Nat.add_comm. cbn [length Nat.add be_bytes].
  rewrite be_val_snoc. pose proof (byte_val_range b).
  rewrite Z.div_add_l, (Z.div_small (byte_val b)), Z.add_0_r by lia.
  rewrite IH. f_equal. f_equal. apply byte_val_inj. rewrite byte_val_of.
  rewrite Z.add_comm, Z_mod_plus_full. by apply Z.mod_small.
Qed.

Lemma be_val_replicate0 n bs : be_val (replicate n x00 ++ bs) = be_val bs.
Proof.
  unfold be_val. rewrite foldl_app. f_equal.
  induction n as [|n IH]; [done|]. rewrite replicate_S_end, foldl_app, IH. done.
Qed.

Lemma be_val_word bs : (length bs <= 32)%nat -> word (be_val bs).
Proof.
  intros H. pose proof (be_val_range bs) as [? ?]. split; [done|].
  eapply Z.lt_le_trans; [done|].
  change (2 ^ 256) with (256 ^ 32). apply Z.pow_le_mono_r; lia.
Qed.

(** ** Slices, indexed by machine integers

    [slice l off n] is [&l[off..off + n]] and [splice l off src] is
    [l[off..off + src.len()].copy_from_slice(src)]; [None] is the panic of an
    index out of range. *)
Definition blen {A} (l : list A) : Z := Z.of_nat (length l).

Definition index {A} (l : list A) (i : Z) : option A :=
  if 0 <=? i then l !! Z.to_nat i else None.

Definition slice {A} (l : list A) (off n : Z) : option (list A) :=
  if (0 <=? off) && (0 <=? n) && (off + n <=? blen l)
  then Some (take (Z.to_nat n) (drop (Z.to_nat off) l)) else None.

Definition splice {A} (l : list A) (off : Z) (src : list A) : option (list A) :=
  if (0 <=? off) && (off + blen src <=? blen l)
  then Some (take (Z.to_nat off) l ++ src ++ drop (Z.to_nat (off + blen src)) l)
  else None.

(** [Vec::resize]. *)
Definition vec_resize {A} (l : list A) (n : Z) (x : A) : list A :=
  take (Z.to_nat n) l ++ replicate (Z.to_nat n - length l) x.

Lemma blen_nonneg {A} (l : list A) : 0 <= blen l.
Proof. unfold blen. lia. Qed.

Lemma blen_app {A} (l k : list A) : blen (l ++ k) = blen l + blen k.
Proof. unfold blen. rewrite length_app. lia. Qed.

Lemma blen_replicate {A} n (x : A) : 0 <= n -> blen (replicate (Z.to_nat n) x) = n.
Proof. intros. unfold blen. rewrite length_replicate. lia. Qed.

Lemma blen_resize {A} (l : list A) n x : 0 <= n -> blen (vec_resize l n x) = n.
Proof.
  intros. unfold blen, vec_resize.
  rewrite length_app, length_take, length_replicate. lia.
Qed.

Lemma slice_some {A} (l : list A) off n :
  0 <= off -> 0 <= n -> off + n <= blen l ->
  exists s, slice l off n = Some s /\ blen s = n.
Proof.
  intros H1 H2 H3. unfold slice.
  rewrite !(proj2 (Z.leb_le _ _)) by done. simpl. eexists; split; [done|].
  unfold blen in *. rewrite length_take, length_drop. lia.
Qed.

Lemma splice_some {A} (l : list A) off src :
  0 <= off -> off + blen src <= blen l ->
  exists s, splice l off src = Some s /\ blen s = blen l.
Proof.
  intros H1 H2. unfold splice.
  rewrite !(proj2 (Z.leb_le _ _)) by done. simpl. eexists; split; [done|].
  unfold blen in *. rewrite !length_app, length_take, length_drop. lia.
Qed.

Lemma index_some {A} (l : list A) i :
  0 <= i < blen l -> exists x, index l i = Some x.
Proof.
  intros [? ?]. unfold index. rewrite (proj2 (Z.leb_le _ _)) by done.
  apply lookup_lt_is_Some. unfold blen in *. lia.
Qed.

Lemma index_inv {A} (l : list A) i x : index l i = Some x -> 0 <= i < blen l.
Proof.
  unfold index. destruct (Z.leb_spec 0 i); [|done].
  intros Hl%lookup_lt_Some. unfold blen. lia.
Qed.

(** Reading back what [splice] wrote. *)
Lemma slice_splice {A} (l : list A) off src l' :
  splice l off src = Some l' -> slice l' off (blen src) = Some src.
Proof.
  unfold splice. destruct (_ && _) eqn:E; [|done].
  apply andb_true_iff in E as [E1%Z.leb_le E2%Z.leb_le].
  intros [= <-]. unfold slice. pose proof (blen_nonneg src).
  rewrite (proj2 (Z.leb_le 0 _)), (proj2 (Z.leb_le 0 (blen src))) by done.
  rewrite (proj2 (Z.leb_le _ _)); cbn [andb].
  - rewrite drop_app_ge; rewrite length_take.
    + unfold blen in *.
      replace (Z.to_nat off - _)%nat with 0%nat by lia.
      rewrite drop_0, take_app_le by lia. rewrite take_ge by lia. done.
    + unfold blen in *; lia.
  - unfold blen in *. rewrite !length_app, length_take, length_drop. lia.
Qed.

(** [splice] leaves the other positions alone. *)
Lemma index_splice_other {A} (l : list A) off src l' i :
  splice l off src = Some l' -> i < off \/ off + blen src <= i ->
  index l' i = index l i.
Proof.
  unfold splice. destruct (_ && _) eqn:E; [|done].
  apply andb_true_iff in E as [E1%Z.leb_le E2%Z.leb_le].
  intros [= <-] Hi. unfold index. destruct (Z.leb_spec 0 i); [|done].
  unfold blen in *. destruct Hi.
  - rewrite lookup_app_l by (rewrite length_take; lia). rewrite lookup_take. case_decide; [done|lia].
  - rewrite !lookup_app_r by (rewrite ?length_take; lia). rewrite lookup_drop, length_take.
    f_equal. lia.
Qed.

Lemma blen_splice {A} (l : list A) off src l' : splice l off src = Some l' -> blen l' = blen l.
Proof.
  intros H. unfold splice in H. destruct (_ && _) eqn:E; [|done].
  apply andb_true_iff in E as [E1%Z.leb_le E2%Z.leb_le].
  destruct (splice_some l off src) as (l2 & H2 & ?); [done..|].
  unfold splice in H2. rewrite !(proj2 (Z.leb_le _ _)) in H2 by done. simpl in H2. congruence.
Qed.

(** ** Automation *)

(** Turn boolean comparisons on [Z] into propositions. *)
Ltac zb :=
  repeat match goal with
  | H : (_ =? _) = true |- _ => apply Z.eqb_eq in H
  | H : (_ =? _) = false |- _ => apply Z.eqb_neq in H
  | H : (_ <=? _) = true |- _ => apply Z.leb_le in H
  | H : (_ <=? _) = false |- _ => apply Z.leb_gt in H
  | H : (_ <? _) = true |- _ => apply Z.ltb_lt in H
  | H : (_ <? _) = false |- _ => apply Z.ltb_ge in H
  | H : (_ && _) = true |- _ => apply andb_true_iff in H as [? ?]
  | H : (_ || _) = false |- _ => apply orb_false_iff in H as [? ?]
  | H : negb _ = true |- _ => apply negb_true_iff in H
  | H : negb _ = false |- _ => apply negb_false_iff in H
  end.

(** Case split on the next boolean test of the goal. *)
Ltac case_if :=
  match goal with
  | |- context [if ?b then _ else _] =>
      lazymatch b with
      | context [if _ then _ else _] => fail
      | _ => destruct b eqn:?; zb
      end
  end.

(** Split conjunctions and close the easy parts. *)
Ltac splits := repeat match goal with |- _ /\ _ => split end.
