(* ===== verification/Word.v ===== *)
(** Words: the 256-bit integers of the interpreter.

    [U256] is the fixed-width unsigned integer type used throughout the
    program; a value is a [Z] in [0, 2^256) and every operation below spells
    out its wrap-around or truncation.  [I256] is the sign-and-magnitude type
    of the external crate [i256]: its representation is visible in the source
    (the source builds and destructs [I256(Sign, U256)]), its conversions and
    operators are not, so they are the operations of a class whose laws state
    their documented behaviour. *)
From S2P Require Import Prelude.
From Stdlib Require Import ZArith Lia Strings.Byte.
From stdpp Require Import base list option numbers.
#[local] Open Scope Z_scope.

Module U256.

Definition ZERO : Z := 0.
Definition ONE : Z := 1.
Definition overflowing_add (a b : Z) : Z := wrap 256 (a + b).
Definition overflowing_sub (a b : Z) : Z := wrap 256 (a - b).
Definition overflowing_mul (a b : Z) : Z := wrap 256 (a * b).
Definition shl (a n : Z) : Z := wrap 256 (Z.shiftl a n).
Definition shr (a n : Z) : Z := Z.shiftr a n.
Definition not (a : Z) : Z := 2 ^ 256 - 1 - a.
Definition as_u8 (a : Z) : Z := wrap 8 a.
Definition as_u64 (a : Z) : Z := wrap 64 a.
Definition as_usize (a : Z) : Z := wrap 64 a.
Definition high (a : Z) : Z := Z.shiftr a 128.
Definition low (a : Z) : Z := wrap 128 a.
(** [None] is the panic of an array of the wrong length. *)
Definition from_be_bytes (bs : list byte) : option Z :=
  if (length bs =? 32)%nat then Some (be_val bs) else None.
Definition to_be_bytes (a : Z) : list byte := be_bytes 32 a.

Lemma as_usize_small a : uint 64 a -> as_usize a = a.
Proof. apply wrap_small. Qed.

Lemma as_u8_small a : uint 8 a -> as_u8 a = a.
Proof. apply wrap_small. Qed.

Lemma not_word a : word a -> word (not a).
Proof. unfold uint, not. lia. Qed.

Lemma not_lnot a : not a = wrap 256 (Z.lnot a) \/ ~ word a.
Proof.
  destruct (decide (word a)) as [H|H]; [left|by right].
  unfold not, wrap, Z.lnot. unfold uint in H.
  rewrite <- (Z_mod_plus_full (Z.pred (- a)) 1), Z.mod_small; lia.
Qed.

Lemma shr_word a n : word a -> 0 <= n -> word (shr a n).
Proof.
  intros [? ?] ?. unfold shr. rewrite Z.shiftr_div_pow2 by done. split.
  - apply Z.div_pos; lia.
  - apply Z.div_lt_upper_bound; nia.
Qed.

Lemma from_to_be_bytes a : word a -> from_be_bytes (to_be_bytes a) = Some a.
Proof.
  intros H. unfold from_be_bytes, to_be_bytes. rewrite length_be_bytes.
  rewrite Nat.eqb_refl, be_val_bytes. by rewrite Z.mod_small.
Qed.

End U256.

#[export] Hint Resolve U256.not_word U256.shr_word : martinez.

(** ** Bitwise operators stay within a width *)

Lemma uint_testbit w z : 0 <= w -> 0 <= z ->
  uint w z <-> (forall i, w <= i -> Z.testbit z i = false).
Proof.
  intros Hw Hz. split.
  - intros [? Hlt] i Hi. destruct (decide (z = 0)) as [->|].
    + apply Z.bits_0.
    + apply Z.bits_above_log2; [done|].
      enough (Z.log2 z < w) by lia. apply Z.log2_lt_pow2; lia.
  - intros H. split; [done|]. destruct (decide (z = 0)) as [->|]; [lia|].
    apply Z.log2_lt_pow2; [lia|].
    destruct (Z.lt_ge_cases (Z.log2 z) w) as [|Hge]; [done|].
    specialize (H _ Hge). rewrite Z.bit_log2 in H by lia. done.
Qed.

Lemma uint_land w a b : 0 <= w -> uint w a -> uint w b -> uint w (Z.land a b).
Proof.
  intros Hw Ha Hb. apply uint_testbit; [done|apply Z.land_nonneg; left; apply Ha|].
  intros i Hi. rewrite Z.land_spec.
  by rewrite (proj1 (uint_testbit w a Hw (proj1 Ha)) Ha).
Qed.

Lemma uint_lor w a b : 0 <= w -> uint w a -> uint w b -> uint w (Z.lor a b).
Proof.
  intros Hw Ha Hb.
  apply uint_testbit; [done|apply Z.lor_nonneg; split; [apply Ha|apply Hb]|].
  intros i Hi. rewrite Z.lor_spec.
  by rewrite (proj1 (uint_testbit w a Hw (proj1 Ha)) Ha),
    (proj1 (uint_testbit w b Hw (proj1 Hb)) Hb).
Qed.

Lemma uint_lxor w a b : 0 <= w -> uint w a -> uint w b -> uint w (Z.lxor a b).
Proof.
  intros Hw Ha Hb.
  apply uint_testbit; [done|apply Z.lxor_nonneg; split; intros; [apply Hb|apply Ha]|].
  intros i Hi. rewrite Z.lxor_spec.
  by rewrite (proj1 (uint_testbit w a Hw (proj1 Ha)) Ha),
    (proj1 (uint_testbit w b Hw (proj1 Hb)) Hb).
Qed.

#[export] Hint Resolve uint_land uint_lor uint_lxor : martinez.

(** ** Two's complement *)

(** The signed value of a word. *)
Definition to_signed (a : Z) : Z := if a <? 2 ^ 255 then a else a - 2 ^ 256.

Lemma to_signed_range a : word a -> - 2 ^ 255 <= to_signed a < 2 ^ 255.
Proof. unfold uint, to_signed. intros. case_if; lia. Qed.

Lemma wrap_to_signed a : word a -> wrap 256 (to_signed a) = a.
Proof.
  intros H. unfold to_signed. case_if; [by apply wrap_small|].
  unfold wrap. rewrite <- (Z_mod_plus_full _ 1). rewrite Z.mod_small; unfold uint in *; lia.
Qed.

Module I256.

Inductive Sign := Plus | Minus | NoSign.

(** [I256(pub Sign, pub U256)]. *)
Definition t : Type := Sign * Z.

Definition zero : t := (NoSign, 0).

#[global] Instance sign_eq_dec : EqDecision Sign.
Proof. solve_decision. Defined.

(** The integer that a pair stands for. *)
Definition val (x : t) : Z :=
  match x with
  | (Plus, m) => m
  | (Minus, m) => - m
  | (NoSign, _) => 0
  end.

Definition of_val (z : Z) : t :=
  (match z ?= 0 with Gt => Plus | Lt => Minus | Eq => NoSign end, Z.abs z).

Lemma val_of_val z : val (of_val z) = z.
Proof. unfold of_val, val. destruct (Z.compare_spec z 0); lia. Qed.

End I256.

(** The operations of the [i256] crate the interpreter calls. *)
Class I256Ops := {
  i256_from : Z -> I256.t;
  i256_into : I256.t -> Z;
  i256_div : I256.t -> I256.t -> I256.t;
  i256_rem : I256.t -> I256.t -> I256.t;
  i256_lt : I256.t -> I256.t -> bool;
  i256_gt : I256.t -> I256.t -> bool;
}.

(** Their documented behaviour: conversions are two's complement, the order is
    that of the integers, and every operator yields a 256-bit value. *)
Class I256Laws (ops : I256Ops) : Prop := {
  i256_from_spec a : word a -> i256_from a = I256.of_val (to_signed a);
  i256_into_spec x : 0 <= x.2 <= 2 ^ 255 -> i256_into x = wrap 256 (I256.val x);
  i256_div_word a b : word a -> word b ->
    word (i256_into (i256_div (i256_from a) (i256_from b)));
  i256_rem_word a b : word a -> word b ->
    word (i256_into (i256_rem (i256_from a) (i256_from b)));
  i256_lt_spec x y : i256_lt x y = (I256.val x <? I256.val y);
  i256_gt_spec x y : i256_gt x y = (I256.val y <? I256.val x);
}.

(** A concrete implementation, which shows the laws can hold. *)
#[export] Instance i256_model : I256Ops := {
  i256_from a := I256.of_val (to_signed a);
  i256_into x := wrap 256 (I256.val x);
  i256_div x y := I256.of_val (Z.quot (I256.val x) (I256.val y));
  i256_rem x y := I256.of_val (Z.rem (I256.val x) (I256.val y));
  i256_lt x y := I256.val x <? I256.val y;
  i256_gt x y := I256.val y <? I256.val x;
}.

#[export] Instance i256_model_laws : I256Laws i256_model.
Proof. split; simpl; auto with martinez. Qed.

(** The Keccak-256 digest, of the external crate [sha3]. *)
Class Keccak := {
  keccak_digest : list byte -> list byte;
  length_keccak_digest bs : length (keccak_digest bs) = 32%nat;
}.
