(* ===== verification/Properties.v ===== *)
(** Opcodes (src/execution/evm/opcode.rs), revisions (src/models/revision.rs) and the
    properties and tables of the instructions (src/execution/evm/instructions:
    properties.rs and instruction_table.rs).

    A [static] table is a list of 256 optional entries, built by the same
    sequence of assignments as in the source. *)
From S2P Require Import Prelude.
From Stdlib Require Import ZArith Lia.
From stdpp Require Import base list option numbers.
#[local] Open Scope Z_scope.

(** [struct OpCode(pub u8)]: any byte is an opcode, defined or not. *)
Definition OpCode : Type := Z.

Module OpCode.

Definition to_u8 (op : OpCode) : Z := op.
Definition to_usize (op : OpCode) : Z := to_u8 op.

Definition STOP : OpCode := 0x00.
Definition ADD : OpCode := 0x01.
Definition MUL : OpCode := 0x02.
Definition SUB : OpCode := 0x03.
Definition DIV : OpCode := 0x04.
Definition SDIV : OpCode := 0x05.
Definition MOD : OpCode := 0x06.
Definition SMOD : OpCode := 0x07.
Definition ADDMOD : OpCode := 0x08.
Definition MULMOD : OpCode := 0x09.
Definition EXP : OpCode := 0x0a.
Definition SIGNEXTEND : OpCode := 0x0b.
Definition LT : OpCode := 0x10.
Definition GT : OpCode := 0x11.
Definition SLT : OpCode := 0x12.
Definition SGT : OpCode := 0x13.
Definition EQ : OpCode := 0x14.
Definition ISZERO : OpCode := 0x15.
Definition AND : OpCode := 0x16.
Definition OR : OpCode := 0x17.
Definition XOR : OpCode := 0x18.
Definition NOT : OpCode := 0x19.
Definition BYTE : OpCode := 0x1a.
Definition SHL : OpCode := 0x1b.
Definition SHR : OpCode := 0x1c.
Definition SAR : OpCode := 0x1d.
Definition KECCAK256 : OpCode := 0x20.
Definition ADDRESS : OpCode := 0x30.
Definition BALANCE : OpCode := 0x31.
Definition ORIGIN : OpCode := 0x32.
Definition CALLER : OpCode := 0x33.
Definition CALLVALUE : OpCode := 0x34.
Definition CALLDATALOAD : OpCode := 0x35.
Definition CALLDATASIZE : OpCode := 0x36.
Definition CALLDATACOPY : OpCode := 0x37.
Definition CODESIZE : OpCode := 0x38.
Definition CODECOPY : OpCode := 0x39.
Definition GASPRICE : OpCode := 0x3a.
Definition EXTCODESIZE : OpCode := 0x3b.
Definition EXTCODECOPY : OpCode := 0x3c.
Definition RETURNDATASIZE : OpCode := 0x3d.
Definition RETURNDATACOPY : OpCode := 0x3e.
Definition EXTCODEHASH : OpCode := 0x3f.
Definition BLOCKHASH : OpCode := 0x40.
Definition COINBASE : OpCode := 0x41.
Definition TIMESTAMP : OpCode := 0x42.
Definition NUMBER : OpCode := 0x43.
Definition DIFFICULTY : OpCode := 0x44.
Definition GASLIMIT : OpCode := 0x45.
Definition CHAINID : OpCode := 0x46.
Definition SELFBALANCE : OpCode := 0x47.
Definition BASEFEE : OpCode := 0x48.
Definition POP : OpCode := 0x50.
Definition MLOAD : OpCode := 0x51.
Definition MSTORE : OpCode := 0x52.
Definition MSTORE8 : OpCode := 0x53.
Definition SLOAD : OpCode := 0x54.
Definition SSTORE : OpCode := 0x55.
Definition JUMP : OpCode := 0x56.
Definition JUMPI : OpCode := 0x57.
Definition PC : OpCode := 0x58.
Definition MSIZE : OpCode := 0x59.
Definition GAS : OpCode := 0x5a.
Definition JUMPDEST : OpCode := 0x5b.
Definition PUSH1 : OpCode := 0x60.
Definition PUSH2 : OpCode := 0x61.
Definition PUSH3 : OpCode := 0x62.
Definition PUSH4 : OpCode := 0x63.
Definition PUSH5 : OpCode := 0x64.
Definition PUSH6 : OpCode := 0x65.
Definition PUSH7 : OpCode := 0x66.
Definition PUSH8 : OpCode := 0x67.
Definition PUSH9 : OpCode := 0x68.
Definition PUSH10 : OpCode := 0x69.
Definition PUSH11 : OpCode := 0x6a.
Definition PUSH12 : OpCode := 0x6b.
Definition PUSH13 : OpCode := 0x6c.
Definition PUSH14 : OpCode := 0x6d.
Definition PUSH15 : OpCode := 0x6e.
Definition PUSH16 : OpCode := 0x6f.
Definition PUSH17 : OpCode := 0x70.
Definition PUSH18 : OpCode := 0x71.
Definition PUSH19 : OpCode := 0x72.
Definition PUSH20 : OpCode := 0x73.
Definition PUSH21 : OpCode := 0x74.
Definition PUSH22 : OpCode := 0x75.
Definition PUSH23 : OpCode := 0x76.
Definition PUSH24 : OpCode := 0x77.
Definition PUSH25 : OpCode := 0x78.
Definition PUSH26 : OpCode := 0x79.
Definition PUSH27 : OpCode := 0x7a.
Definition PUSH28 : OpCode := 0x7b.
Definition PUSH29 : OpCode := 0x7c.
Definition PUSH30 : OpCode := 0x7d.
Definition PUSH31 : OpCode := 0x7e.
Definition PUSH32 : OpCode := 0x7f.
Definition DUP1 : OpCode := 0x80.
Definition DUP2 : OpCode := 0x81.
Definition DUP3 : OpCode := 0x82.
Definition DUP4 : OpCode := 0x83.
Definition DUP5 : OpCode := 0x84.
Definition DUP6 : OpCode := 0x85.
Definition DUP7 : OpCode := 0x86.
Definition DUP8 : OpCode := 0x87.
Definition DUP9 : OpCode := 0x88.
Definition DUP10 : OpCode := 0x89.
Definition DUP11 : OpCode := 0x8a.
Definition DUP12 : OpCode := 0x8b.
Definition DUP13 : OpCode := 0x8c.
Definition DUP14 : OpCode := 0x8d.
Definition DUP15 : OpCode := 0x8e.
Definition DUP16 : OpCode := 0x8f.
Definition SWAP1 : OpCode := 0x90.
Definition SWAP2 : OpCode := 0x91.
Definition SWAP3 : OpCode := 0x92.
Definition SWAP4 : OpCode := 0x93.
Definition SWAP5 : OpCode := 0x94.
Definition SWAP6 : OpCode := 0x95.
Definition SWAP7 : OpCode := 0x96.
Definition SWAP8 : OpCode := 0x97.
Definition SWAP9 : OpCode := 0x98.
Definition SWAP10 : OpCode := 0x99.
Definition SWAP11 : OpCode := 0x9a.
Definition SWAP12 : OpCode := 0x9b.
Definition SWAP13 : OpCode := 0x9c.
Definition SWAP14 : OpCode := 0x9d.
Definition SWAP15 : OpCode := 0x9e.
Definition SWAP16 : OpCode := 0x9f.
Definition LOG0 : OpCode := 0xa0.
Definition LOG1 : OpCode := 0xa1.
Definition LOG2 : OpCode := 0xa2.
Definition LOG3 : OpCode := 0xa3.
Definition LOG4 : OpCode := 0xa4.
Definition CREATE : OpCode := 0xf0.
Definition CALL : OpCode := 0xf1.
Definition CALLCODE : OpCode := 0xf2.
Definition RETURN : OpCode := 0xf3.
Definition DELEGATECALL : OpCode := 0xf4.
Definition CREATE2 : OpCode := 0xf5.
Definition STATICCALL : OpCode := 0xfa.
Definition REVERT : OpCode := 0xfd.
Definition INVALID : OpCode := 0xfe.
Definition SELFDESTRUCT : OpCode := 0xff.

End OpCode.

(** ** Revisions *)

Inductive Revision :=
  | Frontier | Homestead | Tangerine | Spurious | Byzantium | Constantinople
  | Petersburg | Istanbul | Berlin | London | Shanghai.

#[global] Instance Revision_eq_dec : EqDecision Revision.
Proof. solve_decision. Defined.

Module Revision.

(** The discriminants. *)
Definition as_usize (r : Revision) : Z :=
  match r with
  | Frontier => 0 | Homestead => 1 | Tangerine => 2 | Spurious => 3
  | Byzantium => 4 | Constantinople => 5 | Petersburg => 6 | Istanbul => 7
  | Berlin => 8 | London => 9 | Shanghai => 10
  end.

Definition iter : list Revision :=
  [Frontier; Homestead; Tangerine; Spurious; Byzantium; Constantinople;
   Petersburg; Istanbul; Berlin; London; Shanghai].

Definition latest : Revision := Shanghai.
Definition len : Z := as_usize latest + 1.

(** The derived order [PartialOrd]. *)
Definition geb (a b : Revision) : bool := as_usize b <=? as_usize a.
Definition ltb (a b : Revision) : bool := as_usize a <? as_usize b.
Definition eqb (a b : Revision) : bool := as_usize a =? as_usize b.

End Revision.

Declare Scope rev_scope.
Delimit Scope rev_scope with rev.
Notation "a >=? b" := (Revision.geb a b) : rev_scope.
Notation "a <? b" := (Revision.ltb a b) : rev_scope.
Notation "a =? b" := (Revision.eqb a b) : rev_scope.

(** ** Costs and instruction properties *)

Definition COLD_SLOAD_COST : Z := 2100.
Definition COLD_ACCOUNT_ACCESS_COST : Z := 2600.
Definition WARM_STORAGE_READ_COST : Z := 100.
Definition ADDITIONAL_COLD_ACCOUNT_ACCESS_COST : Z :=
  COLD_ACCOUNT_ACCESS_COST - WARM_STORAGE_READ_COST.

Record Properties := Properties_new {
  prop_stack_height_required : Z;
  stack_height_change : Z;
}.

(** [table\[op\] = Some(v)] for each pair, in order. *)
Definition set_all {A} (table : list (option A)) (es : list (OpCode * A))
  : list (option A) :=
  foldl (fun t e => <[Z.to_nat (OpCode.to_usize e.1) := Some e.2]> t) table es.

(** [for op in a..=b { table\[op\] = Some(v) }]. *)
Definition set_range {A} (table : list (option A)) (a b : OpCode) (v : A)
  : list (option A) :=
  set_all table
    (map (fun op => (op, v)) (seqZ (OpCode.to_usize a)
                                (OpCode.to_usize b - OpCode.to_usize a + 1))).

Definition empty_table {A} : list (option A) := replicate 256 None.

Definition PROPERTIES : list (option Properties) :=
  set_all empty_table [
    (OpCode.STOP, Properties_new 0 0); (OpCode.ADD, Properties_new 2 (-1));
    (OpCode.MUL, Properties_new 2 (-1)); (OpCode.SUB, Properties_new 2 (-1));
    (OpCode.DIV, Properties_new 2 (-1)); (OpCode.SDIV, Properties_new 2 (-1));
    (OpCode.MOD, Properties_new 2 (-1)); (OpCode.SMOD, Properties_new 2 (-1));
    (OpCode.ADDMOD, Properties_new 3 (-2)); (OpCode.MULMOD, Properties_new 3 (-2));
    (OpCode.EXP, Properties_new 2 (-1)); (OpCode.SIGNEXTEND, Properties_new 2 (-1));
    (OpCode.LT, Properties_new 2 (-1)); (OpCode.GT, Properties_new 2 (-1));
    (OpCode.SLT, Properties_new 2 (-1)); (OpCode.SGT, Properties_new 2 (-1));
    (OpCode.EQ, Properties_new 2 (-1)); (OpCode.ISZERO, Properties_new 1 0);
    (OpCode.AND, Properties_new 2 (-1)); (OpCode.OR, Properties_new 2 (-1));
    (OpCode.XOR, Properties_new 2 (-1)); (OpCode.NOT, Properties_new 1 0);
    (OpCode.BYTE, Properties_new 2 (-1)); (OpCode.SHL, Properties_new 2 (-1));
    (OpCode.SHR, Properties_new 2 (-1)); (OpCode.SAR, Properties_new 2 (-1));
    (OpCode.KECCAK256, Properties_new 2 (-1)); (OpCode.ADDRESS, Properties_new 0 1);
    (OpCode.BALANCE, Properties_new 1 0); (OpCode.ORIGIN, Properties_new 0 1);
    (OpCode.CALLER, Properties_new 0 1); (OpCode.CALLVALUE, Properties_new 0 1);
    (OpCode.CALLDATALOAD, Properties_new 1 0); (OpCode.CALLDATASIZE, Properties_new 0 1);
    (OpCode.CALLDATACOPY, Properties_new 3 (-3)); (OpCode.CODESIZE, Properties_new 0 1);
    (OpCode.CODECOPY, Properties_new 3 (-3)); (OpCode.GASPRICE, Properties_new 0 1);
    (OpCode.EXTCODESIZE, Properties_new 1 0); (OpCode.EXTCODECOPY, Properties_new 4 (-4));
    (OpCode.RETURNDATASIZE, Properties_new 0 1); (OpCode.RETURNDATACOPY, Properties_new 3 (-3));
    (OpCode.EXTCODEHASH, Properties_new 1 0); (OpCode.BLOCKHASH, Properties_new 1 0);
    (OpCode.COINBASE, Properties_new 0 1); (OpCode.TIMESTAMP, Properties_new 0 1);
    (OpCode.NUMBER, Properties_new 0 1); (OpCode.DIFFICULTY, Properties_new 0 1);
    (OpCode.GASLIMIT, Properties_new 0 1); (OpCode.CHAINID, Properties_new 0 1);
    (OpCode.SELFBALANCE, Properties_new 0 1); (OpCode.BASEFEE, Properties_new 0 1);
    (OpCode.POP, Properties_new 1 (-1)); (OpCode.MLOAD, Properties_new 1 0);
    (OpCode.MSTORE, Properties_new 2 (-2)); (OpCode.MSTORE8, Properties_new 2 (-2));
    (OpCode.SLOAD, Properties_new 1 0); (OpCode.SSTORE, Properties_new 2 (-2));
    (OpCode.JUMP, Properties_new 1 (-1)); (OpCode.JUMPI, Properties_new 2 (-2));
    (OpCode.PC, Properties_new 0 1); (OpCode.MSIZE, Properties_new 0 1);
    (OpCode.GAS, Properties_new 0 1); (OpCode.JUMPDEST, Properties_new 0 0);
    (OpCode.PUSH1, Properties_new 0 1); (OpCode.PUSH2, Properties_new 0 1);
    (OpCode.PUSH3, Properties_new 0 1); (OpCode.PUSH4, Properties_new 0 1);
    (OpCode.PUSH5, Properties_new 0 1); (OpCode.PUSH6, Properties_new 0 1);
    (OpCode.PUSH7, Properties_new 0 1); (OpCode.PUSH8, Properties_new 0 1);
    (OpCode.PUSH9, Properties_new 0 1); (OpCode.PUSH10, Properties_new 0 1);
    (OpCode.PUSH11, Properties_new 0 1); (OpCode.PUSH12, Properties_new 0 1);
    (OpCode.PUSH13, Properties_new 0 1); (OpCode.PUSH14, Properties_new 0 1);
    (OpCode.PUSH15, Properties_new 0 1); (OpCode.PUSH16, Properties_new 0 1);
    (OpCode.PUSH17, Properties_new 0 1); (OpCode.PUSH18, Properties_new 0 1);
    (OpCode.PUSH19, Properties_new 0 1); (OpCode.PUSH20, Properties_new 0 1);
    (OpCode.PUSH21, Properties_new 0 1); (OpCode.PUSH22, Properties_new 0 1);
    (OpCode.PUSH23, Properties_new 0 1); (OpCode.PUSH24, Properties_new 0 1);
    (OpCode.PUSH25, Properties_new 0 1); (OpCode.PUSH26, Properties_new 0 1);
    (OpCode.PUSH27, Properties_new 0 1); (OpCode.PUSH28, Properties_new 0 1);
    (OpCode.PUSH29, Properties_new 0 1); (OpCode.PUSH30, Properties_new 0 1);
    (OpCode.PUSH31, Properties_new 0 1); (OpCode.PUSH32, Properties_new 0 1);
    (OpCode.DUP1, Properties_new 1 1); (OpCode.DUP2, Properties_new 2 1);
    (OpCode.DUP3, Properties_new 3 1); (OpCode.DUP4, Properties_new 4 1);
    (OpCode.DUP5, Properties_new 5 1); (OpCode.DUP6, Properties_new 6 1);
    (OpCode.DUP7, Properties_new 7 1); (OpCode.DUP8, Properties_new 8 1);
    (OpCode.DUP9, Properties_new 9 1); (OpCode.DUP10, Properties_new 10 1);
    (OpCode.DUP11, Properties_new 11 1); (OpCode.DUP12, Properties_new 12 1);
    (OpCode.DUP13, Properties_new 13 1); (OpCode.DUP14, Properties_new 14 1);
    (OpCode.DUP15, Properties_new 15 1); (OpCode.DUP16, Properties_new 16 1);
    (OpCode.SWAP1, Properties_new 2 0); (OpCode.SWAP2, Properties_new 3 0);
    (OpCode.SWAP3, Properties_new 4 0); (OpCode.SWAP4, Properties_new 5 0);
    (OpCode.SWAP5, Properties_new 6 0); (OpCode.SWAP6, Properties_new 7 0);
    (OpCode.SWAP7, Properties_new 8 0); (OpCode.SWAP8, Properties_new 9 0);
    (OpCode.SWAP9, Properties_new 10 0); (OpCode.SWAP10, Properties_new 11 0);
    (OpCode.SWAP11, Properties_new 12 0); (OpCode.SWAP12, Properties_new 13 0);
    (OpCode.SWAP13, Properties_new 14 0); (OpCode.SWAP14, Properties_new 15 0);
    (OpCode.SWAP15, Properties_new 16 0); (OpCode.SWAP16, Properties_new 17 0);
    (OpCode.LOG0, Properties_new 2 (-2)); (OpCode.LOG1, Properties_new 3 (-3));
    (OpCode.LOG2, Properties_new 4 (-4)); (OpCode.LOG3, Properties_new 5 (-5));
    (OpCode.LOG4, Properties_new 6 (-6)); (OpCode.CREATE, Properties_new 3 (-2));
    (OpCode.CALL, Properties_new 7 (-6)); (OpCode.CALLCODE, Properties_new 7 (-6));
    (OpCode.RETURN, Properties_new 2 (-2)); (OpCode.DELEGATECALL, Properties_new 6 (-5));
    (OpCode.CREATE2, Properties_new 4 (-3)); (OpCode.STATICCALL, Properties_new 6 (-5));
    (OpCode.REVERT, Properties_new 2 (-2)); (OpCode.INVALID, Properties_new 0 0);
    (OpCode.SELFDESTRUCT, Properties_new 1 (-1)) ].

Definition FRONTIER_GAS_COSTS : list (option Z) :=
  let table := set_all empty_table [
    (OpCode.STOP, 0); (OpCode.ADD, 3); (OpCode.MUL, 5); (OpCode.SUB, 3);
    (OpCode.DIV, 5); (OpCode.SDIV, 5); (OpCode.MOD, 5); (OpCode.SMOD, 5);
    (OpCode.ADDMOD, 8); (OpCode.MULMOD, 8); (OpCode.EXP, 10); (OpCode.SIGNEXTEND, 5);
    (OpCode.LT, 3); (OpCode.GT, 3); (OpCode.SLT, 3); (OpCode.SGT, 3);
    (OpCode.EQ, 3); (OpCode.ISZERO, 3); (OpCode.AND, 3); (OpCode.OR, 3);
    (OpCode.XOR, 3); (OpCode.NOT, 3); (OpCode.BYTE, 3); (OpCode.KECCAK256, 30);
    (OpCode.ADDRESS, 2); (OpCode.BALANCE, 20); (OpCode.ORIGIN, 2); (OpCode.CALLER, 2);
    (OpCode.CALLVALUE, 2); (OpCode.CALLDATALOAD, 3); (OpCode.CALLDATASIZE, 2); (OpCode.CALLDATACOPY, 3);
    (OpCode.CODESIZE, 2); (OpCode.CODECOPY, 3); (OpCode.GASPRICE, 2); (OpCode.EXTCODESIZE, 20);
    (OpCode.EXTCODECOPY, 20); (OpCode.BLOCKHASH, 20); (OpCode.COINBASE, 2); (OpCode.TIMESTAMP, 2);
    (OpCode.NUMBER, 2); (OpCode.DIFFICULTY, 2); (OpCode.GASLIMIT, 2); (OpCode.POP, 2);
    (OpCode.MLOAD, 3); (OpCode.MSTORE, 3); (OpCode.MSTORE8, 3); (OpCode.SLOAD, 50);
    (OpCode.SSTORE, 0); (OpCode.JUMP, 8); (OpCode.JUMPI, 10); (OpCode.PC, 2);
    (OpCode.MSIZE, 2); (OpCode.GAS, 2); (OpCode.JUMPDEST, 1) ] in
  let table := set_range table OpCode.PUSH1 OpCode.PUSH32 3 in
  let table := set_range table OpCode.DUP1 OpCode.DUP16 3 in
  let table := set_range table OpCode.SWAP1 OpCode.SWAP16 3 in
  let table := set_all table
    (imap (fun i op => (op, (1 + Z.of_nat i) * 375))
       (seqZ (OpCode.to_usize OpCode.LOG0)
          (OpCode.to_usize OpCode.LOG4 - OpCode.to_usize OpCode.LOG0 + 1))) in
  set_all table [
    (OpCode.CREATE, 32000); (OpCode.CALL, 40); (OpCode.CALLCODE, 40); (OpCode.RETURN, 0);
    (OpCode.INVALID, 0); (OpCode.SELFDESTRUCT, 0) ].

Definition HOMESTEAD_GAS_COSTS : list (option Z) :=
  set_all FRONTIER_GAS_COSTS [
    (OpCode.DELEGATECALL, 40) ].

Definition TANGERINE_GAS_COSTS : list (option Z) :=
  set_all HOMESTEAD_GAS_COSTS [
    (OpCode.BALANCE, 400); (OpCode.EXTCODESIZE, 700); (OpCode.EXTCODECOPY, 700);
    (OpCode.SLOAD, 200); (OpCode.CALL, 700); (OpCode.CALLCODE, 700);
    (OpCode.DELEGATECALL, 700); (OpCode.SELFDESTRUCT, 5000) ].

Definition SPURIOUS_GAS_COSTS : list (option Z) := TANGERINE_GAS_COSTS.

Definition BYZANTIUM_GAS_COSTS : list (option Z) :=
  set_all SPURIOUS_GAS_COSTS [
    (OpCode.RETURNDATASIZE, 2); (OpCode.RETURNDATACOPY, 3); (OpCode.STATICCALL, 700);
    (OpCode.REVERT, 0) ].

Definition CONSTANTINOPLE_GAS_COSTS : list (option Z) :=
  set_all BYZANTIUM_GAS_COSTS [
    (OpCode.SHL, 3); (OpCode.SHR, 3); (OpCode.SAR, 3);
    (OpCode.EXTCODEHASH, 400); (OpCode.CREATE2, 32000) ].

Definition PETERSBURG_GAS_COSTS : list (option Z) := CONSTANTINOPLE_GAS_COSTS.

Definition ISTANBUL_GAS_COSTS : list (option Z) :=
  set_all PETERSBURG_GAS_COSTS [
    (OpCode.BALANCE, 700); (OpCode.CHAINID, 2); (OpCode.EXTCODEHASH, 700);
    (OpCode.SELFBALANCE, 5); (OpCode.SLOAD, 800) ].

Definition BERLIN_GAS_COSTS : list (option Z) :=
  set_all ISTANBUL_GAS_COSTS [
    (OpCode.EXTCODESIZE, WARM_STORAGE_READ_COST); (OpCode.EXTCODECOPY, WARM_STORAGE_READ_COST); (OpCode.EXTCODEHASH, WARM_STORAGE_READ_COST);
    (OpCode.BALANCE, WARM_STORAGE_READ_COST); (OpCode.CALL, WARM_STORAGE_READ_COST); (OpCode.CALLCODE, WARM_STORAGE_READ_COST);
    (OpCode.DELEGATECALL, WARM_STORAGE_READ_COST); (OpCode.STATICCALL, WARM_STORAGE_READ_COST); (OpCode.SLOAD, WARM_STORAGE_READ_COST) ].

Definition LONDON_GAS_COSTS : list (option Z) :=
  set_all BERLIN_GAS_COSTS [
    (OpCode.BASEFEE, 2) ].

Definition SHANGHAI_GAS_COSTS : list (option Z) := LONDON_GAS_COSTS.

Definition gas_costs (revision : Revision) : list (option Z) :=
  match revision with
  | Frontier => FRONTIER_GAS_COSTS
  | Homestead => HOMESTEAD_GAS_COSTS
  | Tangerine => TANGERINE_GAS_COSTS
  | Spurious => SPURIOUS_GAS_COSTS
  | Byzantium => BYZANTIUM_GAS_COSTS
  | Constantinople => CONSTANTINOPLE_GAS_COSTS
  | Petersburg => PETERSBURG_GAS_COSTS
  | Istanbul => ISTANBUL_GAS_COSTS
  | Berlin => BERLIN_GAS_COSTS
  | London => LONDON_GAS_COSTS
  | Shanghai => SHANGHAI_GAS_COSTS
  end.

(** ** The instruction table *)

Record InstructionTableEntry := {
  gas_cost : Z;
  stack_height_required : Z;
  can_overflow_stack : bool;
}.

Abbreviation InstructionTable := (list (option InstructionTableEntry)).

(** One slot; the outer [None] is the panic of [PROPERTIES[opcode].unwrap()]. *)
Definition table_entry (opcode : nat) (cost : option Z)
  : option (option InstructionTableEntry) :=
  match cost with
  | None => Some None
  | Some cost =>
      p ← mjoin (PROPERTIES !! opcode);
      Some (Some {| gas_cost := cost;
                    stack_height_required := prop_stack_height_required p;
                    can_overflow_stack := 0 <? stack_height_change p |})
  end.

Definition INSTRUCTION_TABLES : option (list InstructionTable) :=
  mapM (fun revision =>
    mapM (fun e => table_entry e.1 e.2) (imap pair (gas_costs revision)))
    Revision.iter.

Definition get_instruction_table (revision : Revision) : option InstructionTable :=
  tables ← INSTRUCTION_TABLES;
  tables !! Z.to_nat (Revision.as_usize revision).
