(* ===== verification/EvmState.v ===== *)
(** Data of the interpreter: status codes, messages, the operand stack, the
    memory and the execution state, with the effect monad of the instructions
    (src/execution/evm/common.rs and state.rs). *)
From S2P Require Import Prelude Word.
From Stdlib Require Import ZArith Lia Strings.Byte.
From stdpp Require Import base list option numbers strings.
#[local] Open Scope Z_scope.

(** ** src/execution/evm/common.rs *)

Abbreviation Bytes := (list byte).
Abbreviation Address := Z (only parsing).

Inductive StatusCode :=
  | Success
  | Failure
  | Revert
  | OutOfGas
  | InvalidInstruction
  | UndefinedInstruction
  | StackOverflow
  | StackUnderflow
  | BadJumpDestination
  | InvalidMemoryAccess
  | CallDepthExceeded
  | StaticModeViolation
  | PrecompileFailure
  | ContractValidationFailure
  | ArgumentOutOfRange
  | InsufficientBalance
  | InternalError (msg : string).

#[global] Instance StatusCode_eq_dec : EqDecision StatusCode.
Proof. solve_decision. Defined.

Inductive CallKind := CallKind_Call | DelegateCall | CallCode | CallKind_Create
  | Create2 (salt : Z).

#[global] Instance CallKind_eq_dec : EqDecision CallKind.
Proof. solve_decision. Defined.

Record InterpreterMessage := {
  kind : CallKind;
  is_static : bool;
  depth : Z;
  gas : Z;
  recipient : Address;
  sender : Address;
  input_data : Bytes;
  value : Z;
  code_address : Address;
}.

Record CreateMessage := {
  cm_salt : option Z;
  cm_gas : Z;
  cm_depth : Z;
  cm_initcode : Bytes;
  cm_sender : Address;
  cm_endowment : Z;
}.

(** [impl From<CreateMessage> for InterpreterMessage]. *)
Definition message_of_create (msg : CreateMessage) : InterpreterMessage := {|
  kind := match cm_salt msg with
          | Some salt => Create2 salt
          | None => CallKind_Create
          end;
  is_static := false;
  depth := cm_depth msg;
  gas := cm_gas msg;
  recipient := 0;
  code_address := 0;
  sender := cm_sender msg;
  input_data := cm_initcode msg;
  value := cm_endowment msg;
|}.

Record Output := {
  status_code : StatusCode;
  gas_left : Z;
  output_data : Bytes;
  create_address : option Address;
}.

Record SuccessfulOutput := {
  so_reverted : bool;
  so_gas_left : Z;
  so_output_data : Bytes;
}.

(** [impl From<SuccessfulOutput> for Output]. *)
Definition output_of_successful (o : SuccessfulOutput) : Output := {|
  status_code := if so_reverted o then Revert else Success;
  gas_left := so_gas_left o;
  output_data := so_output_data o;
  create_address := None;
|}.

(** [H256 -> H160] keeps the 20 low-order bytes. *)
Definition u256_to_address (v : Z) : Address := wrap 160 v.

(** [H160 -> H256] pads with zero bytes on the left. *)
Definition address_to_u256 (v : Address) : Z := v.

Definition u256_from_slice (v : Bytes) : option Z :=
  if (length v =? 0)%nat then Some U256.ZERO
  else if (length v =? 32)%nat then U256.from_be_bytes v
  else
    (* [32 - v.len()] *)
    start ← unsigned_sub 32 (blen v);
    padded ← splice (replicate 32 x00) start v;
    U256.from_be_bytes padded.

Lemma u256_from_slice_spec v :
  (length v <= 32)%nat -> u256_from_slice v = Some (be_val v).
Proof.
  intros H. unfold u256_from_slice.
  destruct (Nat.eqb_spec (length v) 0) as [H0|H0].
  { apply nil_length_inv in H0 as ->. done. }
  destruct (Nat.eqb_spec (length v) 32) as [H1|H1].
  { unfold U256.from_be_bytes. by rewrite H1. }
  rewrite unsigned_sub_some by (unfold blen; lia). cbn [mbind option_bind].
  unfold splice. rewrite !(proj2 (Z.leb_le _ _))
    by (unfold blen; rewrite ?length_replicate; lia).
  cbn [andb].
  replace (drop _ _) with (@nil byte)
    by (symmetry; apply drop_ge; rewrite length_replicate; unfold blen; lia).
  rewrite app_nil_r, take_replicate. unfold U256.from_be_bytes.
  cbn [mbind option_bind]. rewrite length_app, length_replicate.
  replace (_ =? 32)%nat with true
    by (symmetry; apply Nat.eqb_eq; unfold blen; lia).
  by rewrite be_val_replicate0.
Qed.

Lemma u256_to_address_range v : is_address (u256_to_address v).
Proof. by apply wrap_uint. Qed.

Lemma address_to_u256_word v : is_address v -> word (address_to_u256 v).
Proof. by apply uint_mono. Qed.

#[export] Hint Resolve u256_to_address_range address_to_u256_word : martinez.

(** ** The stack: [ArrayVec<U256, STACK_SIZE>], bottom first *)

Definition STACK_SIZE : Z := 1024.

Abbreviation Stack := (list Z).

Module Stack.

Definition new : Stack := [].
Definition len (s : Stack) : Z := blen s.
Definition is_empty (s : Stack) : bool := len s =? 0.

(** [self.len() - 1 - pos]: an underflow is a panic. *)
Definition get_pos (s : Stack) (pos : Z) : option Z :=
  a ← unsigned_sub (len s) 1;
  unsigned_sub a pos.

Definition get (s : Stack) (pos : Z) : option Z :=
  p ← get_pos s pos;
  index s p.

(** Writing through the reference returned by [get_mut]. *)
Definition set (s : Stack) (pos : Z) (v : Z) : option Stack :=
  p ← get_pos s pos;
  if p <? len s then Some (<[Z.to_nat p := v]> s) else None.

(** [push_unchecked]: on a full stack the behaviour is undefined; [None]. *)
Definition push (s : Stack) (v : Z) : option Stack :=
  if len s <? STACK_SIZE then Some (s ++ [v]) else None.

(** [self.0.pop().expect("underflow")]. *)
Definition pop (s : Stack) : option (Z * Stack) :=
  match last s with
  | Some v => Some (v, take (length s - 1) s)
  | None => None
  end.

(** [self.0.swap(top, pos)]. *)
Definition swap_top (s : Stack) (pos : Z) : option Stack :=
  top ← unsigned_sub (len s) 1;
  p ← get_pos s pos;
  a ← index s top;
  b ← index s p;
  Some (<[Z.to_nat p := a]> (<[Z.to_nat top := b]> s)).

(** Effect of the operations on a stack with a known top. *)
Lemma pop_snoc s v : pop (s ++ [v]) = Some (v, s).
Proof.
  unfold pop. rewrite last_snoc, length_app. simpl.
  by rewrite take_app_le, take_ge by lia.
Qed.

Lemma get_spec s pos : 0 <= pos < len s ->
  get s pos = s !! Z.to_nat (len s - 1 - pos).
Proof.
  intros H. unfold get, get_pos, len in *.
  rewrite unsigned_sub_some by lia. cbn. rewrite unsigned_sub_some by lia. cbn.
  unfold index. by rewrite (proj2 (Z.leb_le _ _)) by lia.
Qed.

Lemma get0_snoc s v : get (s ++ [v]) 0 = Some v.
Proof.
  unfold len. rewrite get_spec; unfold len; rewrite blen_app; unfold blen; simpl;
    [|lia].
  by rewrite lookup_app_r, list_lookup_singleton_Some by lia; split; lia.
Qed.

Lemma set0_snoc s v w : set (s ++ [v]) 0 w = Some (s ++ [w]).
Proof.
  unfold set, get_pos, len. rewrite blen_app.
  pose proof (blen_nonneg s). change (blen [v]) with 1.
  rewrite unsigned_sub_some by lia. cbn. rewrite unsigned_sub_some by lia. cbn.
  rewrite (proj2 (Z.ltb_lt _ _)) by lia.
  rewrite insert_app_r_alt by (unfold blen; lia).
  by replace (Z.to_nat _ - length s)%nat with 0%nat by (unfold blen; lia).
Qed.

Lemma push_some s v : len s < STACK_SIZE -> push s v = Some (s ++ [v]).
Proof. intros. unfold push. by rewrite (proj2 (Z.ltb_lt _ _)). Qed.

(** A stack of at least one item has a top. *)
Lemma unsnoc s : 0 < len s -> exists b v, s = b ++ [v].
Proof.
  destruct s as [|v b _] using rev_ind; [done|]. eauto.
Qed.

Lemma len_snoc s v : len (s ++ [v]) = len s + 1.
Proof. unfold len. by rewrite blen_app. Qed.

End Stack.

(** ** Memory

    The capacity of the underlying buffer is not observable: [grow] is the
    final [resize]. *)
Abbreviation Memory := (list byte).

Module Memory.
Definition new : Memory := [].
Definition grow (m : Memory) (size : Z) : Memory := vec_resize m size x00.
End Memory.

(** ** The execution state *)

Record ExecutionState := {
  es_gas_left : Z;
  es_stack : Stack;
  es_memory : Memory;
  es_message : InterpreterMessage;
  es_return_data : Bytes;
  es_output_data : Bytes;
}.

Definition ExecutionState_new (message : InterpreterMessage) : ExecutionState := {|
  es_gas_left := gas message;
  es_stack := Stack.new;
  es_memory := Memory.new;
  es_message := message;
  es_return_data := [];
  es_output_data := [];
|}.

(** Field updates. *)
Definition with_gas (es : ExecutionState) (g : Z) : ExecutionState :=
  {| es_gas_left := g; es_stack := es_stack es; es_memory := es_memory es;
     es_message := es_message es; es_return_data := es_return_data es;
     es_output_data := es_output_data es |}.
Definition with_stack (es : ExecutionState) (s : Stack) : ExecutionState :=
  {| es_gas_left := es_gas_left es; es_stack := s; es_memory := es_memory es;
     es_message := es_message es; es_return_data := es_return_data es;
     es_output_data := es_output_data es |}.
Definition with_memory (es : ExecutionState) (m : Memory) : ExecutionState :=
  {| es_gas_left := es_gas_left es; es_stack := es_stack es; es_memory := m;
     es_message := es_message es; es_return_data := es_return_data es;
     es_output_data := es_output_data es |}.
Definition with_return_data (es : ExecutionState) (d : Bytes) : ExecutionState :=
  {| es_gas_left := es_gas_left es; es_stack := es_stack es; es_memory := es_memory es;
     es_message := es_message es; es_return_data := d;
     es_output_data := es_output_data es |}.
Definition with_output_data (es : ExecutionState) (d : Bytes) : ExecutionState :=
  {| es_gas_left := es_gas_left es; es_stack := es_stack es; es_memory := es_memory es;
     es_message := es_message es; es_return_data := es_return_data es;
     es_output_data := d |}.

(** ** The effect monad of the instructions

    An instruction runs on an execution state and on a world [W] (what the
    host and the tracer own).  It returns normally, returns a [StatusCode]
    through [?] (the execution state is then dropped, the effects on the world
    stay), or faults: a Rust panic, an arithmetic overflow or undefined
    behaviour.  [ROutOfFuel] belongs to the model: the bound on the number of
    iterations of the interpreter loop was too small. *)
Inductive res (W A : Type) : Type :=
  | ROk (a : A) (es : ExecutionState) (w : W)
  | RErr (c : StatusCode) (w : W)
  | RFault
  | ROutOfFuel.
Arguments ROk {W A} a es w.
Arguments RErr {W A} c w.
Arguments RFault {W A}.
Arguments ROutOfFuel {W A}.

Definition M (W A : Type) : Type := ExecutionState -> W -> res W A.

#[export] Instance M_ret W : MRet (M W) := fun A a es w => ROk a es w.
#[export] Instance M_bind W : MBind (M W) := fun A B f m es w =>
  match m es w with
  | ROk a es' w' => f a es' w'
  | RErr c w' => RErr c w'
  | RFault => RFault
  | ROutOfFuel => ROutOfFuel
  end.

Section primitives.
Context {W : Type}.

(** [return Err(c)]. *)
Definition throw {A} (c : StatusCode) : M W A := fun _ w => RErr c w.

(** A panic, an overflow or undefined behaviour. *)
Definition fault {A} : M W A := fun _ _ => RFault.

Definition lift {A} (o : option A) : M W A :=
  match o with Some a => mret a | None => fault end.

Definition gets {A} (f : ExecutionState -> A) : M W A := fun es w => ROk (f es) es w.
Definition modify (f : ExecutionState -> ExecutionState) : M W unit :=
  fun es w => ROk () (f es) w.

(** A function of [&mut state.stack]. *)
Definition on_stack (f : Stack -> option Stack) : M W unit := fun es w =>
  match f (es_stack es) with
  | Some s => ROk () (with_stack es s) w
  | None => RFault
  end.

Definition stack_pop : M W Z := fun es w =>
  match Stack.pop (es_stack es) with
  | Some (v, s) => ROk v (with_stack es s) w
  | None => RFault
  end.

Definition stack_push (v : Z) : M W unit := on_stack (fun s => Stack.push s v).
Definition stack_get (pos : Z) : M W Z :=
  s ← gets es_stack; lift (Stack.get s pos).
Definition stack_set (pos v : Z) : M W unit := on_stack (fun s => Stack.set s pos v).

(** [state.gas_left += d] at type [i64]. *)
Definition gas_add (d : Z) : M W unit :=
  g ← gets es_gas_left;
  g' ← lift (i64_checked (g + d));
  modify (fun es => with_gas es g').

(** [state.gas_left -= cost; if state.gas_left < 0 { return Err(OutOfGas) }]. *)
Definition charge (cost : Z) : M W unit :=
  gas_add (- cost);;
  g ← gets es_gas_left;
  if g <? 0 then throw OutOfGas else mret ().

(** [.map_err(|_| StatusCode::OutOfGas)?]. *)
Definition or_out_of_gas {A} (o : option A) : M W A :=
  match o with Some a => mret a | None => throw OutOfGas end.

(** Rewriting rules. *)
Lemma bind_ok {A B} (m : M W A) (k : A -> M W B) es w a es' w' :
  m es w = ROk a es' w' -> (m ≫= k) es w = k a es' w'.
Proof. intros E. unfold mbind, M_bind. by rewrite E. Qed.

Lemma bind_err {A B} (m : M W A) (k : A -> M W B) es w c w' :
  m es w = RErr c w' -> (m ≫= k) es w = RErr c w'.
Proof. intros E. unfold mbind, M_bind. by rewrite E. Qed.

Lemma stack_pop_snoc es (w : W) s v : es_stack es = s ++ [v] ->
  stack_pop es w = ROk v (with_stack es s) w.
Proof. intros E. unfold stack_pop. by rewrite E, Stack.pop_snoc. Qed.

Lemma stack_push_ok v es (w : W) : Stack.len (es_stack es) < STACK_SIZE ->
  stack_push v es w = ROk () (with_stack es (es_stack es ++ [v])) w.
Proof. intros E. unfold stack_push, on_stack. by rewrite Stack.push_some. Qed.

Lemma charge_ok c es (w : W) : 0 <= c <= es_gas_left es -> es_gas_left es <= i64_max ->
  charge c es w = ROk () (with_gas es (es_gas_left es - c)) w.
Proof.
  intros Hc Hg. unfold charge, gas_add, i64_checked, i64_max, mbind, M_bind, gets in *.
  rewrite checked_some by lia. cbn. by rewrite (proj2 (Z.ltb_ge _ _)) by lia.
Qed.

Lemma charge_err c es (w : W) :
  0 <= es_gas_left es < c -> c <= i64_max -> charge c es w = RErr OutOfGas w.
Proof.
  intros Hc Hg. unfold charge, gas_add, i64_checked, i64_max, mbind, M_bind, gets in *.
  rewrite checked_some by lia. cbn. by rewrite (proj2 (Z.ltb_lt _ _)) by lia.
Qed.

End primitives.

(** A message, for examples. *)
Definition sample_message (st : bool) (g : Z) : InterpreterMessage := {|
  kind := CallKind_Call; is_static := st; depth := 0; gas := g; recipient := 1;
  sender := 2; input_data := []; value := 0; code_address := 1;
|}.
