(* ===== verification/Arith.v ===== *)
(** Arithmetic, bitwise, comparison and stack instructions
    (src/execution/evm/instructions/arithmetic.rs, bitwise.rs, boolean.rs and
    stack_manip.rs).

    A function on [&mut Stack] is a function [Stack -> option Stack]; [None] is
    a panic. *)
From S2P Require Import Prelude Word Properties EvmState.
From Stdlib Require Import ZArith Lia Strings.Byte.
From stdpp Require Import base list option numbers.
#[local] Open Scope Z_scope.

Module arithmetic.

Definition add (stack : Stack) : option Stack :=
  '(a, stack) ← Stack.pop stack;
  '(b, stack) ← Stack.pop stack;
  Stack.push stack (U256.overflowing_add a b).

Definition mul (stack : Stack) : option Stack :=
  '(a, stack) ← Stack.pop stack;
  '(b, stack) ← Stack.pop stack;
  Stack.push stack (U256.overflowing_mul a b).

Definition sub (stack : Stack) : option Stack :=
  '(a, stack) ← Stack.pop stack;
  '(b, stack) ← Stack.pop stack;
  Stack.push stack (U256.overflowing_sub a b).

Definition div (stack : Stack) : option Stack :=
  '(a, stack) ← Stack.pop stack;
  b ← Stack.get stack 0;
  Stack.set stack 0 (if b =? 0 then U256.ZERO else a / b).

Definition modulo (stack : Stack) : option Stack :=
  '(a, stack) ← Stack.pop stack;
  b ← Stack.get stack 0;
  Stack.set stack 0 (if b =? 0 then U256.ZERO else a mod b).

Section signed.
Context `{I256Ops}.

Definition sdiv (stack : Stack) : option Stack :=
  '(a, stack) ← Stack.pop stack;
  '(b, stack) ← Stack.pop stack;
  let a := i256_from a in
  let b := i256_from b in
  let v := i256_div a b in
  Stack.push stack (i256_into v).

Definition smod (stack : Stack) : option Stack :=
  '(a, stack) ← Stack.pop stack;
  b ← Stack.get stack 0;
  if b =? 0 then Stack.set stack 0 U256.ZERO
  else
    let v := i256_rem (i256_from a) (i256_from b) in
    Stack.set stack 0 (i256_into v).

End signed.

(** The sum is taken at [U512]; [U256::try_from(..).unwrap()] panics when the
    remainder has more than 256 bits. *)
Definition addmod (stack : Stack) : option Stack :=
  '(a, stack) ← Stack.pop stack;
  '(b, stack) ← Stack.pop stack;
  '(c, stack) ← Stack.pop stack;
  v ← (if c =? 0 then Some U256.ZERO
       else s ← checked 0 (2 ^ 512 - 1) (a + b); u256_checked (s mod c));
  Stack.push stack v.

Definition mulmod (stack : Stack) : option Stack :=
  '(a, stack) ← Stack.pop stack;
  '(b, stack) ← Stack.pop stack;
  '(c, stack) ← Stack.pop stack;
  v ← (if c =? 0 then Some U256.ZERO
       else s ← checked 0 (2 ^ 512 - 1) (a * b); u256_checked (s mod c));
  Stack.push stack v.

(** [u128::leading_zeros]. *)
Definition leading_zeros128 (v : Z) : Z :=
  if v =? 0 then 128 else 127 - Z.log2 v.

(** The loop over [[value.high(), value.low()]], with the early returns. *)
Fixpoint log2floor_loop (vs : list Z) (l : Z) : Z :=
  match vs with
  | [] => l
  | v :: vs =>
      if v =? 0 then log2floor_loop vs (l - 128)
      else let l := l - leading_zeros128 v in
           if l =? 0 then l else l - 1
  end.

Definition log2floor (value : Z) : Z :=
  log2floor_loop [U256.high value; U256.low value] 256.

(** [while power > 0]; [fuel] bounds the number of iterations. *)
Fixpoint exp_loop (fuel : nat) (v base power : Z) : option Z :=
  if power <=? 0 then Some v
  else match fuel with
  | O => None
  | S fuel =>
      let v := if Z.land power 1 =? 0 then v else U256.overflowing_mul v base in
      exp_loop fuel v (U256.overflowing_mul base base) (U256.shr power 1)
  end.

Definition exp {W} (REVISION : Revision) : M W unit :=
  base ← stack_pop;
  power ← stack_pop;
  (if 0 <? power then
     let factor := if (REVISION >=? Spurious)%rev then 50 else 10 in
     let additional_gas := factor * (log2floor power / 8 + 1) in
     charge additional_gas
   else mret ());;
  v ← lift (exp_loop 256 U256.ONE base power);
  stack_push v.

Definition signextend (stack : Stack) : option Stack :=
  '(a, stack) ← Stack.pop stack;
  b ← Stack.get stack 0;
  if a <? 32 then
    bit_index ← checked 0 255 (8 * U256.as_u8 a + 7);
    let hi := U256.high b in
    let lo := U256.low b in
    let bit := negb (Z.land (if 0x7f <? bit_index then hi else lo)
                       (Z.shiftl 1 (bit_index mod 128)) =? 0) in
    mask ← unsigned_sub (U256.shl U256.ONE bit_index) U256.ONE;
    Stack.set stack 0
      (if bit then Z.lor b (U256.not mask) else Z.land b mask)
  else Some stack.

End arithmetic.

Module bitwise.

(** One iteration of the loop of [byte]; [i] and [o] are of type [u8]. *)
Definition byte_step (a b ret i : Z) : Z :=
  if (i <? 8) && (a <? 32) then
    let o := U256.as_u8 a in
    let t := wrap 8 (255 - wrap 8 (7 - i + 8 * o)) in
    let bit_mask := U256.shl U256.ONE t in
    let value := U256.shr (Z.land b bit_mask) t in
    U256.overflowing_add ret (U256.shl value i)
  else ret.

Definition byte (stack : Stack) : option Stack :=
  '(a, stack) ← Stack.pop stack;
  '(b, stack) ← Stack.pop stack;
  let ret := foldl (byte_step a b) U256.ZERO (seqZ 0 256) in
  Stack.push stack ret.

Definition shl (stack : Stack) : option Stack :=
  '(shift, stack) ← Stack.pop stack;
  value ← Stack.get stack 0;
  Stack.set stack 0
    (if (value =? 0) || (256 <=? shift) then U256.ZERO
     else U256.shl value (U256.as_u8 shift)).

Definition shr (stack : Stack) : option Stack :=
  '(shift, stack) ← Stack.pop stack;
  value ← Stack.get stack 0;
  Stack.set stack 0
    (if (value =? 0) || (256 <=? shift) then U256.ZERO
     else U256.shr value (U256.as_u8 shift)).

Definition sar `{I256Ops} (stack : Stack) : option Stack :=
  '(shift, stack) ← Stack.pop stack;
  '(v, stack) ← Stack.pop stack;
  let value := i256_from v in
  let ret :=
    if bool_decide (value = I256.zero) || (256 <=? shift) then
      match value.1 with
      | I256.Plus | I256.NoSign => U256.ZERO
      | I256.Minus => i256_into (I256.Minus, U256.ONE)
      end
    else
      let shift := U256.as_u8 shift in
      match value.1 with
      | I256.Plus | I256.NoSign => U256.shr value.2 shift
      | I256.Minus =>
          let shifted :=
            U256.overflowing_add
              (U256.shr (U256.overflowing_sub value.2 U256.ONE) shift) U256.ONE in
          i256_into (I256.Minus, shifted)
      end in
  Stack.push stack ret.

End bitwise.

Module boolean.

Definition of_bool (b : bool) : Z := if b then U256.ONE else U256.ZERO.

Definition lt (stack : Stack) : option Stack :=
  '(a, stack) ← Stack.pop stack;
  b ← Stack.get stack 0;
  Stack.set stack 0 (of_bool (a <? b)).

Definition gt (stack : Stack) : option Stack :=
  '(a, stack) ← Stack.pop stack;
  b ← Stack.get stack 0;
  Stack.set stack 0 (of_bool (b <? a)).

Definition slt `{I256Ops} (stack : Stack) : option Stack :=
  '(a, stack) ← Stack.pop stack;
  '(b, stack) ← Stack.pop stack;
  Stack.push stack (of_bool (i256_lt (i256_from a) (i256_from b))).

Definition sgt `{I256Ops} (stack : Stack) : option Stack :=
  '(a, stack) ← Stack.pop stack;
  '(b, stack) ← Stack.pop stack;
  Stack.push stack (of_bool (i256_gt (i256_from a) (i256_from b))).

Definition eq (stack : Stack) : option Stack :=
  '(a, stack) ← Stack.pop stack;
  b ← Stack.get stack 0;
  Stack.set stack 0 (of_bool (a =? b)).

Definition iszero (stack : Stack) : option Stack :=
  a ← Stack.get stack 0;
  Stack.set stack 0 (of_bool (a =? 0)).

Definition and (stack : Stack) : option Stack :=
  '(a, stack) ← Stack.pop stack;
  b ← Stack.get stack 0;
  Stack.set stack 0 (Z.land a b).

Definition or (stack : Stack) : option Stack :=
  '(a, stack) ← Stack.pop stack;
  b ← Stack.get stack 0;
  Stack.set stack 0 (Z.lor a b).

Definition xor (stack : Stack) : option Stack :=
  '(a, stack) ← Stack.pop stack;
  b ← Stack.get stack 0;
  Stack.set stack 0 (Z.lxor a b).

Definition not (stack : Stack) : option Stack :=
  v ← Stack.get stack 0;
  Stack.set stack 0 (U256.not v).

End boolean.

Module stack_manip.

(** [push::<LEN>] pushes the first [LEN] bytes of [code] and returns [LEN]. *)
Definition push (LEN : Z) (code : Bytes) (stack : Stack) : option (Z * Stack) :=
  s ← slice code 0 LEN;
  v ← u256_from_slice s;
  stack ← Stack.push stack v;
  Some (LEN, stack).

Definition push1 (v : Byte.byte) (stack : Stack) : option Stack :=
  Stack.push stack (byte_val v).

Definition push32 (code : Bytes) (stack : Stack) : option Stack :=
  s ← slice code 0 32;
  v ← U256.from_be_bytes s;
  Stack.push stack v.

Definition dup (HEIGHT : Z) (stack : Stack) : option Stack :=
  v ← Stack.get stack (HEIGHT - 1);
  Stack.push stack v.

Definition swap (HEIGHT : Z) (stack : Stack) : option Stack :=
  Stack.swap_top stack HEIGHT.

Definition pop (stack : Stack) : option Stack :=
  '(_, stack) ← Stack.pop stack;
  Some stack.

End stack_manip.
