(* ===== verification/Host.v ===== *)
(** The interface between the interpreter and its host
    (src/execution/evm/host.rs and src/execution/tracer/mod.rs).

    The traits [Host] and [Tracer] are classes over a world type [W]: a method
    on [&mut self] is a function on worlds, and [None] is a panic of the
    method.  [HostInv] is what the interpreter relies on. *)
From S2P Require Import Prelude Word Properties EvmState.
From Stdlib Require Import ZArith Lia Strings.Byte.
From stdpp Require Import base list option numbers.
#[local] Open Scope Z_scope.

Inductive AccessStatus := Cold | Warm.

Inductive StorageStatus := Unchanged | Modified | ModifiedAgain | Added | Deleted.

Record TxContext := {
  tx_gas_price : Z;
  tx_origin : Address;
  block_coinbase : Address;
  block_number : Z;
  block_timestamp : Z;
  block_gas_limit : Z;
  block_difficulty : Z;
  chain_id : Z;
  block_base_fee : Z;
}.

Inductive Call :=
  | Call_Call (message : InterpreterMessage)
  | Call_Create (message : CreateMessage).

(** [impl From<Call> for InterpreterMessage]. *)
Definition message_of_call (c : Call) : InterpreterMessage :=
  match c with
  | Call_Call message => message
  | Call_Create message => message_of_create message
  end.

Class Host (W : Type) := {
  account_exists : Address -> W -> option (bool * W);
  get_storage : Address -> Z -> W -> option (Z * W);
  set_storage : Address -> Z -> Z -> W -> option (StorageStatus * W);
  get_balance : Address -> W -> option (Z * W);
  get_code_size : Address -> W -> option (Z * W);
  get_code_hash : Address -> W -> option (Z * W);
  (** [copy_code address offset buffer]: the returned count and the buffer as
      the method leaves it. *)
  copy_code : Address -> Z -> Bytes -> W -> option ((Z * Bytes) * W);
  selfdestruct : Address -> Address -> W -> option (unit * W);
  call : Call -> W -> option (Output * W);
  get_tx_context : W -> option (TxContext * W);
  get_block_hash : Z -> W -> option (Z * W);
  emit_log : Address -> Bytes -> list Z -> W -> option (unit * W);
  access_account : Address -> W -> option (AccessStatus * W);
  access_storage : Address -> Z -> W -> option (AccessStatus * W);
}.

Class Tracer (W : Type) := {
  trace_instructions : W -> bool;
  capture_state : ExecutionState -> Z -> OpCode -> Z -> Z -> W -> W;
  capture_end : Output -> W -> W;
}.

(** The tracer that does nothing. *)
Definition NoopTracer (W : Type) : Tracer W := {|
  trace_instructions _ := false;
  capture_state _ _ _ _ _ w := w;
  capture_end _ w := w;
|}.

(** Run a host method inside an instruction. *)
Definition host {W A} (f : W -> option (A * W)) : M W A := fun es w =>
  match f w with
  | Some (a, w') => ROk a es w'
  | None => RFault
  end.

(** ** What the interpreter relies on *)

Definition tx_context_ok (c : TxContext) : Prop :=
  word (tx_gas_price c) /\ is_address (tx_origin c) /\
  is_address (block_coinbase c) /\ is_u64 (block_number c) /\
  is_u64 (block_timestamp c) /\ is_u64 (block_gas_limit c) /\
  word (block_difficulty c) /\ word (chain_id c) /\ word (block_base_fee c).

(** Byte strings are allocations, of at most [isize::MAX] bytes. *)
Definition bytes_ok (b : Bytes) : Prop := blen b <= i64_max.

Definition message_ok (m : InterpreterMessage) : Prop :=
  0 <= depth m <= 1024 /\ 0 <= gas m <= i64_max /\ is_address (recipient m) /\
  is_address (sender m) /\ bytes_ok (input_data m) /\ word (value m) /\
  is_address (code_address m).

(** The result of a call: the gas left is within the gas given. *)
Definition output_ok (given : Z) (o : Output) : Prop :=
  0 <= gas_left o <= given /\ bytes_ok (output_data o).

(** A method that keeps [P] and whose result satisfies [Q]. *)
Definition method_ok {W A} (P : W -> Prop) (Q : A -> Prop)
    (f : W -> option (A * W)) : Prop :=
  forall w, P w -> exists a w', f w = Some (a, w') /\ P w' /\ Q a.

(** The messages a frame at depth [d] may send: one level deeper, and from a
    static frame only static ones, without a value transfer. *)
Definition sends (st : bool) (d : Z) (m : InterpreterMessage) : Prop :=
  depth m = d + 1 /\ message_ok m /\ kind m <> CallKind_Create /\
  (forall salt, kind m <> Create2 salt) /\
  (st = true -> is_static m = true /\ (kind m = CallKind_Call -> value m = 0)).

Definition creates (d : Z) (m : CreateMessage) : Prop :=
  cm_depth m = d + 1 /\ cm_depth m <= 1024 /\ 0 <= cm_gas m <= i64_max /\
  bytes_ok (cm_initcode m) /\ is_address (cm_sender m) /\ word (cm_endowment m) /\
  (forall salt, cm_salt m = Some salt -> word salt).

(** [I st d] holds of a world while a frame of static mode [st] and depth [d]
    runs.  The methods that change the chain state are only required to keep
    the invariant of non-static frames. *)
Class HostInv {W} (hw : Host W) (I : bool -> Z -> W -> Prop) : Prop := {
  account_exists_ok st d a : is_address a ->
    method_ok (I st d) (fun _ => True) (account_exists a);
  get_storage_ok st d a k : is_address a -> word k ->
    method_ok (I st d) word (get_storage a k);
  set_storage_ok d a k v : is_address a -> word k -> word v ->
    method_ok (I false d) (fun _ => True) (set_storage a k v);
  get_balance_ok st d a : is_address a -> method_ok (I st d) word (get_balance a);
  get_code_size_ok st d a : is_address a -> method_ok (I st d) word (get_code_size a);
  get_code_hash_ok st d a : is_address a -> method_ok (I st d) word (get_code_hash a);
  copy_code_ok st d a off buf : is_address a -> 0 <= off ->
    method_ok (I st d)
      (fun r => 0 <= r.1 <= blen buf /\ length r.2 = length buf)
      (copy_code a off buf);
  selfdestruct_ok d a b : is_address a -> is_address b ->
    method_ok (I false d) (fun _ => True) (selfdestruct a b);
  call_ok st d m : sends st d m ->
    method_ok (I st d) (output_ok (gas m)) (call (Call_Call m));
  create_ok d m : creates d m ->
    method_ok (I false d)
      (fun o => output_ok (cm_gas m) o /\
                (status_code o = Success ->
                 exists a, create_address o = Some a /\ is_address a))
      (call (Call_Create m));
  get_tx_context_ok st d : method_ok (I st d) tx_context_ok get_tx_context;
  get_block_hash_ok st d n : is_u64 n -> method_ok (I st d) word (get_block_hash n);
  emit_log_ok d a data topics : is_address a -> Forall word topics ->
    method_ok (I false d) (fun _ => True) (emit_log a data topics);
  access_account_ok st d a : is_address a ->
    method_ok (I st d) (fun _ => True) (access_account a);
  access_storage_ok st d a k : is_address a -> word k ->
    method_ok (I st d) (fun _ => True) (access_storage a k);
}.

Class TracerInv {W} (tw : Tracer W) (I : bool -> Z -> W -> Prop) : Prop := {
  capture_state_ok st d es pc op cost dp w :
    I st d w -> I st d (capture_state es pc op cost dp w);
  capture_end_ok st d o w : I st d w -> I st d (capture_end o w);
}.

#[export] Instance NoopTracer_inv W I : TracerInv (NoopTracer W) I.
Proof. by split. Qed.
