(* ===== verification/MemoryOps.v ===== *)
(** Memory and control-flow instructions
    (src/execution/evm/instructions/memory.rs and control.rs). *)
From S2P Require Import Prelude Word Properties EvmState Host.
From Stdlib Require Import ZArith Lia Strings.Byte.
From stdpp Require Import base list option numbers.
#[local] Open Scope Z_scope.

Module memory.

Definition MAX_BUFFER_SIZE : Z := u32_max.
Definition WORD_SIZE : Z := 32.

Definition num_words (size_in_bytes : Z) : Z :=
  Z.quot (size_in_bytes + (WORD_SIZE - 1)) WORD_SIZE.

Record MemoryRegion := { offset : Z; size : Z }.

Section ops.
Context {W : Type}.

(** The expressions are of type [i64]; [false] is [Err(())]. *)
Definition grow_memory (new_size : Z) : M W bool :=
  let new_words := num_words new_size in
  m ← gets es_memory;
  let current_words := blen m / 32 in
  new_square ← lift (i64_checked (new_words * new_words));
  new_cost ← lift (i64_checked (3 * new_words + Z.quot new_square 512));
  current_square ← lift (i64_checked (current_words * current_words));
  current_cost ← lift (i64_checked (3 * current_words + Z.quot current_square 512));
  cost ← lift (i64_checked (new_cost - current_cost));
  gas_add (- cost);;
  g ← gets es_gas_left;
  if g <? 0 then mret false
  else modify (fun es =>
         with_memory es (Memory.grow (es_memory es) (new_words * WORD_SIZE)));;
       mret true.

(** [None] is [Err(())]. *)
Definition get_memory_region_u64 (offset size : Z) : M W (option MemoryRegion) :=
  if MAX_BUFFER_SIZE <? offset then mret None
  else
    new_size ← lift (usize_checked (U256.as_usize offset + size));
    m ← gets es_memory;
    let current_size := blen m in
    ok ← (if current_size <? new_size then grow_memory new_size else mret true);
    if (ok : bool)
    then mret (Some {| offset := U256.as_usize offset; size := size |})
    else mret None.

Definition get_memory_region (offset size : Z)
  : M W (option (option MemoryRegion)) :=
  if size =? 0 then mret (Some None)
  else if MAX_BUFFER_SIZE <? size then mret None
  else
    r ← get_memory_region_u64 offset (U256.as_usize size);
    mret (Some <$> r).

(** [&state.memory[region.offset..region.offset + region.size.get()]]. *)
Definition read_region (r : MemoryRegion) : M W Bytes :=
  m ← gets es_memory;
  lift (slice m (offset r) (size r)).

(** [state.memory[off..off + src.len()].copy_from_slice(src)]. *)
Definition write_memory (off : Z) (src : Bytes) : M W unit :=
  m ← gets es_memory;
  m' ← lift (splice m off src);
  modify (fun es => with_memory es m').

(** [state.memory[off..off + n].fill(0)]. *)
Definition fill0 (off n : Z) : M W unit :=
  write_memory off (replicate (Z.to_nat n) x00).

Definition mload : M W unit :=
  index ← stack_pop;
  region ← get_memory_region_u64 index 32 ≫= or_out_of_gas;
  bs ← read_region region;
  value ← lift (u256_from_slice bs);
  stack_push value.

Definition mstore : M W unit :=
  index ← stack_pop;
  value ← stack_pop;
  region ← get_memory_region_u64 index 32 ≫= or_out_of_gas;
  write_memory (offset region) (U256.to_be_bytes value).

Definition mstore8 : M W unit :=
  index ← stack_pop;
  value ← stack_pop;
  region ← get_memory_region_u64 index 1 ≫= or_out_of_gas;
  let value := Z.land (wrap 32 (U256.low value)) 0xff in
  write_memory (offset region) [byte_of value].

Definition msize : M W unit :=
  m ← gets es_memory;
  stack_push (blen m).

(** Common tail of the copy instructions: [src] to the start of the region,
    zeros after it. *)
Definition copy_padded (region : MemoryRegion) (src : Bytes) : M W unit :=
  (if 0 <? blen src then write_memory (offset region) src else mret ());;
  (if blen src <? size region
   then fill0 (offset region + blen src) (size region - blen src) else mret ()).

Definition calldatacopy : M W unit :=
  mem_index ← stack_pop;
  input_index ← stack_pop;
  size_ ← stack_pop;
  region ← get_memory_region mem_index size_ ≫= or_out_of_gas;
  match region with
  | Some region =>
      charge (num_words (size region) * 3);;
      msg ← gets es_message;
      let input_len := blen (input_data msg) in
      let src := Z.min input_len input_index in
      room ← lift (unsigned_sub input_len src);
      let copy_size := U256.as_usize (Z.min size_ room) in
      let src := U256.as_usize src in
      bs ← lift (slice (input_data msg) src copy_size);
      copy_padded region bs
  | None => mret ()
  end.

Definition keccak256 `{Keccak} : M W unit :=
  index ← stack_pop;
  size_ ← stack_pop;
  region ← get_memory_region index size_ ≫= or_out_of_gas;
  data ← match region with
         | Some region =>
             let w := num_words (size region) in
             let cost := w * 6 in
             charge cost;;
             read_region region
         | None => mret []
         end;
  v ← lift (u256_from_slice (keccak_digest data));
  stack_push v.

Definition codesize (code : Bytes) (stack : Stack) : option Stack :=
  Stack.push stack (blen code).

Definition codecopy (code : Bytes) : M W unit :=
  mem_index ← stack_pop;
  input_index ← stack_pop;
  size_ ← stack_pop;
  region ← get_memory_region mem_index size_ ≫= or_out_of_gas;
  match region with
  | Some region =>
      let src := U256.as_usize (Z.min (blen code) input_index) in
      room ← lift (unsigned_sub (blen code) src);
      let copy_size := Z.min (size region) room in
      charge (num_words (size region) * 3);;
      bs ← lift (slice code src copy_size);
      copy_padded region bs
  | None => mret ()
  end.

(** Additional charge for a cold account, from Berlin on. *)
Definition charge_cold_account `{Host W} (rev : Revision) (a : Address) (cost : Z)
  : M W unit :=
  if (rev >=? Berlin)%rev then
    s ← host (access_account a);
    match s with
    | Cold => charge cost
    | Warm => mret ()
    end
  else mret ().

Definition extcodecopy `{Host W} (rev : Revision) : M W unit :=
  addr ← stack_pop;
  let addr := u256_to_address addr in
  mem_index ← stack_pop;
  input_index ← stack_pop;
  size_ ← stack_pop;
  region ← get_memory_region mem_index size_ ≫= or_out_of_gas;
  (match region with
   | Some region => charge (num_words (size region) * 3)
   | None => mret ()
   end);;
  charge_cold_account rev addr ADDITIONAL_COLD_ACCOUNT_ACCESS_COST;;
  match region with
  | Some region =>
      let src := U256.as_usize (Z.min MAX_BUFFER_SIZE input_index) in
      let code := replicate (Z.to_nat (size region)) x00 in
      '(copied, code) ← host (copy_code addr src code);
      (* [code.truncate(copied)] *)
      let code := take (Z.to_nat copied) code in
      write_memory (offset region) code;;
      if blen code <? size region
      then fill0 (offset region + blen code) (size region - blen code)
      else mret ()
  | None => mret ()
  end.

Definition returndatasize : M W unit :=
  d ← gets es_return_data;
  stack_push (blen d).

Definition returndatacopy : M W unit :=
  mem_index ← stack_pop;
  input_index ← stack_pop;
  size_ ← stack_pop;
  region ← get_memory_region mem_index size_ ≫= or_out_of_gas;
  data ← gets es_return_data;
  if blen data <? input_index then throw InvalidMemoryAccess
  else
    let src := U256.as_usize input_index in
    end_ ← lift (usize_checked
                   (src + match region with Some r => size r | None => 0 end));
    if blen data <? end_ then throw InvalidMemoryAccess
    else match region with
    | Some region =>
        charge (num_words (size region) * 3);;
        bs ← lift (slice data src (size region));
        write_memory (offset region) bs
    | None => mret ()
    end.

Definition extcodehash `{Host W} (rev : Revision) : M W unit :=
  addr ← stack_pop;
  let addr := u256_to_address addr in
  charge_cold_account rev addr ADDITIONAL_COLD_ACCOUNT_ACCESS_COST;;
  v ← host (get_code_hash addr);
  stack_push v.

End ops.

End memory.

Module control.

Section ops.
Context {W : Type}.

Definition ret : M W unit :=
  offset ← stack_get 0;
  size ← stack_get 1;
  region ← memory.get_memory_region offset size ≫= or_out_of_gas;
  match region with
  | Some region =>
      bs ← memory.read_region region;
      modify (fun es => with_output_data es bs)
  | None => mret ()
  end.

(** [JumpdestMap(Arc<\[bool\]>)]. *)
Definition JumpdestMap_contains (map : list bool) (dst : Z) : option bool :=
  if dst <? blen map then index map (U256.as_usize dst) else Some false.

Definition op_jump (jumpdest_map : list bool) : M W Z :=
  dst ← stack_pop;
  b ← lift (JumpdestMap_contains jumpdest_map dst);
  if (b : bool) then mret (U256.as_usize dst) else throw BadJumpDestination.

Definition calldataload : M W unit :=
  index ← stack_pop;
  msg ← gets es_message;
  let input_len := blen (input_data msg) in
  v ← (if input_len <? index then mret U256.ZERO
       else
         let index_usize := U256.as_usize index in
         stop ← lift (usize_checked (index_usize + 32));
         let end_ := Z.min stop input_len in
         n ← lift (unsigned_sub end_ index_usize);
         bs ← lift (slice (input_data msg) index_usize n);
         data ← lift (splice (replicate 32 x00) 0 bs);
         lift (U256.from_be_bytes data));
  stack_push v.

Definition calldatasize : M W unit :=
  msg ← gets es_message;
  stack_push (blen (input_data msg)).

End ops.

End control.
