(* ===== verification/External.v ===== *)
(** Instructions that consult the host: environment, storage, logs, calls and
    contract creation (src/execution/evm/instructions/external.rs and
    call.rs). *)
From S2P Require Import Prelude Word Properties EvmState Host MemoryOps.
From Stdlib Require Import ZArith Lia Strings.Byte.
From stdpp Require Import base list option numbers.
#[local] Open Scope Z_scope.

Module external.

Definition origin_accessor (c : TxContext) : Z := address_to_u256 (tx_origin c).
Definition coinbase_accessor (c : TxContext) : Z := address_to_u256 (block_coinbase c).
Definition gasprice_accessor (c : TxContext) : Z := tx_gas_price c.
Definition timestamp_accessor (c : TxContext) : Z := block_timestamp c.
Definition number_accessor (c : TxContext) : Z := block_number c.
Definition gaslimit_accessor (c : TxContext) : Z := block_gas_limit c.
Definition difficulty_accessor (c : TxContext) : Z := block_difficulty c.
Definition chainid_accessor (c : TxContext) : Z := chain_id c.
Definition basefee_accessor (c : TxContext) : Z := block_base_fee c.

Section ops.
Context {W : Type} `{Host W}.

Definition address : M W unit :=
  msg ← gets es_message; stack_push (address_to_u256 (recipient msg)).

Definition caller : M W unit :=
  msg ← gets es_message; stack_push (address_to_u256 (sender msg)).

Definition callvalue : M W unit :=
  msg ← gets es_message; stack_push (value msg).

Definition balance (rev : Revision) : M W unit :=
  a ← stack_pop;
  let address := u256_to_address a in
  memory.charge_cold_account rev address ADDITIONAL_COLD_ACCOUNT_ACCESS_COST;;
  v ← host (get_balance address);
  stack_push v.

Definition extcodesize (rev : Revision) : M W unit :=
  a ← stack_pop;
  let address := u256_to_address a in
  memory.charge_cold_account rev address ADDITIONAL_COLD_ACCOUNT_ACCESS_COST;;
  v ← host (get_code_size address);
  stack_push v.

Definition push_txcontext (accessor : TxContext -> Z) : M W unit :=
  c ← host get_tx_context;
  stack_push (accessor c).

Definition selfbalance : M W unit :=
  msg ← gets es_message;
  v ← host (get_balance (recipient msg));
  stack_push v.

Definition blockhash : M W unit :=
  number ← stack_pop;
  c ← host get_tx_context;
  let upper_bound := block_number c in
  (* [upper_bound.saturating_sub(256)] *)
  let lower_bound := Z.max 0 (upper_bound - 256) in
  header ← (if number <=? u64_max then
              let n := U256.as_u64 number in
              if (lower_bound <=? n) && (n <? upper_bound)
              then host (get_block_hash n) else mret U256.ZERO
            else mret U256.ZERO);
  stack_push header.

(** [for _ in 0..num_topics { topics.push(state.stack.pop()) }]. *)
Fixpoint pop_topics (num_topics : nat) : M W (list Z) :=
  match num_topics with
  | O => mret []
  | S n => t ← stack_pop; ts ← pop_topics n; mret (t :: ts)
  end.

Definition do_log (num_topics : nat) : M W unit :=
  msg ← gets es_message;
  if is_static msg then throw StaticModeViolation
  else
    offset ← stack_pop;
    size_ ← stack_pop;
    region ← memory.get_memory_region offset size_ ≫= or_out_of_gas;
    (match region with
     | Some region => charge (memory.size region * 8)
     | None => mret ()
     end);;
    topics ← pop_topics num_topics;
    data ← match region with
           | Some region => memory.read_region region
           | None => mret []
           end;
    host (emit_log (recipient msg) data topics).

Definition sload (rev : Revision) : M W unit :=
  location ← stack_pop;
  msg ← gets es_message;
  (if (rev >=? Berlin)%rev then
     s ← host (access_storage (recipient msg) location);
     match s with
     | Cold => charge (COLD_SLOAD_COST - WARM_STORAGE_READ_COST)
     | Warm => mret ()
     end
   else mret ());;
  v ← host (get_storage (recipient msg) location);
  stack_push v.

(** The [match] on the storage status; [cost] is of type [u16]. *)
Definition sstore_cost (rev : Revision) (cost : Z) (s : StorageStatus) : option Z :=
  match s with
  | Unchanged | ModifiedAgain =>
      if (rev >=? Berlin)%rev then checked 0 65535 (cost + WARM_STORAGE_READ_COST)
      else if (rev =? Istanbul)%rev then Some 800
      else if (rev =? Constantinople)%rev then Some 200
      else Some 5000
  | Modified | Deleted =>
      if (rev >=? Berlin)%rev then
        c ← checked 0 65535 (cost + 5000);
        unsigned_sub c COLD_SLOAD_COST
      else Some 5000
  | Added => checked 0 65535 (cost + 20000)
  end.

Definition sstore (rev : Revision) : M W unit :=
  msg ← gets es_message;
  if is_static msg then throw StaticModeViolation
  else
    g ← gets es_gas_left;
    if (rev >=? Istanbul)%rev && (g <=? 2300) then throw OutOfGas
    else
      location ← stack_pop;
      value ← stack_pop;
      cost ← (if (rev >=? Berlin)%rev then
                s ← host (access_storage (recipient msg) location);
                match s with
                | Cold => mret COLD_SLOAD_COST
                | Warm => mret 0
                end
              else mret 0);
      s ← host (set_storage (recipient msg) location value);
      cost ← lift (sstore_cost rev cost s);
      charge cost.

Definition selfdestruct (rev : Revision) : M W unit :=
  msg ← gets es_message;
  if is_static msg then throw StaticModeViolation
  else
    b ← stack_pop;
    let beneficiary := u256_to_address b in
    memory.charge_cold_account rev beneficiary COLD_ACCOUNT_ACCESS_COST;;
    (if (rev >=? Tangerine)%rev then
       c ← (if (rev =? Tangerine)%rev then mret true
            else bal ← host (get_balance (recipient msg));
                 mret (negb (bal =? 0)));
       if (c : bool) then
         e ← host (account_exists beneficiary);
         if (e : bool) then mret () else charge 25000
       else mret ()
     else mret ());;
    host (Host.selfdestruct (recipient msg) beneficiary).

End ops.

End external.

Module call.

Section ops.
Context {W : Type} `{Host W}.

Definition is_call (kind : CallKind) : bool :=
  match kind with CallKind_Call => true | _ => false end.
Definition is_delegate (kind : CallKind) : bool :=
  match kind with DelegateCall => true | _ => false end.

(** [region.map(|r| memory[..].to_vec().into()).unwrap_or_default()]. *)
Definition region_data (region : option memory.MemoryRegion) : M W Bytes :=
  match region with
  | Some r => memory.read_region r
  | None => mret []
  end.

(** The gas passed to the callee, from the requested [gas] and the gas left. *)
Definition call_gas (rev : Revision) (requested : Z) : M W Z :=
  let msg_gas :=
    if requested <? i64_max then U256.as_usize requested else i64_max in
  g ← gets es_gas_left;
  if (rev >=? Tangerine)%rev then mret (Z.min msg_gas (g - Z.quot g 64))
  else if g <? msg_gas then throw OutOfGas
  else mret msg_gas.

(** The effects of a performed call on the caller. *)
Definition call_result (output_region : option memory.MemoryRegion)
    (msg_gas : Z) (result : Output) : M W unit :=
  modify (fun es => with_return_data es (output_data result));;
  stack_set 0 (match status_code result with
               | Success => U256.ONE | _ => U256.ZERO end);;
  (match output_region with
   | Some r =>
       let copy_size := Z.min (memory.size r) (blen (output_data result)) in
       if 0 <? copy_size then
         bs ← lift (slice (output_data result) 0 copy_size);
         memory.write_memory (memory.offset r) bs
       else mret ()
   | None => mret ()
   end);;
  gas_used ← lift (i64_checked (msg_gas - gas_left result));
  gas_add (- gas_used).

(** From the computation of the callee's gas to the end of [do_call!]. *)
Definition perform_call (rev : Revision) (kind : CallKind) (is_static_ : bool)
    (self : InterpreterMessage) (requested dst value_ depth_ : Z) (input : Bytes)
    (output_region : option memory.MemoryRegion) : M W unit :=
  let has_value := negb (value_ =? 0) in
  msg_gas ← call_gas rev requested;
  msg_gas ← (if has_value then
               g ← lift (i64_checked (msg_gas + 2300));
               gas_add 2300;; mret g
             else mret msg_gas);
  modify (fun es => with_return_data es []);;
  go ← (if depth self <? 1024 then
          if has_value then
            b ← host (get_balance (recipient self));
            mret (negb (b <? value_))
          else mret true
        else mret false);
  if (go : bool) then
    let msg := {|
      kind := kind;
      is_static := is_static_ || is_static self;
      depth := depth_;
      gas := msg_gas;
      recipient := if is_call kind then dst else recipient self;
      code_address := dst;
      sender := if is_delegate kind then sender self else recipient self;
      value := if is_delegate kind then value self else value_;
      input_data := input;
    |} in
    result ← host (call (Call_Call msg));
    call_result output_region msg_gas result
  else mret ().

Definition do_call (rev : Revision) (kind : CallKind) (is_static_ : bool)
  : M W unit :=
  requested ← stack_pop;
  d ← stack_pop;
  let dst := u256_to_address d in
  value_ ← (if is_static_ || is_delegate kind then mret U256.ZERO else stack_pop);
  let has_value := negb (value_ =? 0) in
  input_offset ← stack_pop;
  input_size ← stack_pop;
  output_offset ← stack_pop;
  output_size ← stack_pop;
  stack_push U256.ZERO;;
  memory.charge_cold_account rev dst ADDITIONAL_COLD_ACCOUNT_ACCESS_COST;;
  input_region ←
    memory.get_memory_region input_offset input_size ≫= or_out_of_gas;
  output_region ←
    memory.get_memory_region output_offset output_size ≫= or_out_of_gas;
  self ← gets es_message;
  depth_ ← lift (i32_checked (depth self + 1));
  input ← region_data input_region;
  let cost := if has_value then 9000 else 0 in
  cost ← (if is_call kind then
            if has_value && is_static self then throw StaticModeViolation
            else if has_value || (rev <? Spurious)%rev then
              e ← host (account_exists dst);
              mret (if (e : bool) then cost else cost + 25000)
            else mret cost
          else mret cost);
  charge cost;;
  perform_call rev kind is_static_ self requested dst value_ depth_ input output_region.

(** From the balance check to the end of [do_create!]. *)
Definition perform_create (rev : Revision) (self : InterpreterMessage)
    (endowment init_code_offset init_code_size : Z) (salt : option Z) : M W unit :=
  go ← (if depth self <? 1024 then
          if endowment =? 0 then mret true
          else b ← host (get_balance (recipient self));
               mret (negb (b <? endowment))
        else mret false);
  if (go : bool) then
    g ← gets es_gas_left;
    let msg_gas := if (rev >=? Tangerine)%rev then g - Z.quot g 64 else g in
    m ← gets es_memory;
    initcode ← (if init_code_size =? 0 then mret []
                else lift (slice m (U256.as_usize init_code_offset)
                             (U256.as_usize init_code_size)));
    depth_ ← lift (i32_checked (depth self + 1));
    let msg := {|
      cm_gas := msg_gas;
      cm_salt := salt;
      cm_initcode := initcode;
      cm_sender := recipient self;
      cm_depth := depth_;
      cm_endowment := endowment;
    |} in
    result ← host (call (Call_Create msg));
    used ← lift (i64_checked (msg_gas - gas_left result));
    gas_add (- used);;
    modify (fun es => with_return_data es (output_data result));;
    match status_code result with
    | Success =>
        a ← lift (create_address result);
        stack_set 0 (address_to_u256 a)
    | _ => mret ()
    end
  else mret ().

Definition do_create (rev : Revision) (create2 : bool) : M W unit :=
  self ← gets es_message;
  if is_static self then throw StaticModeViolation
  else
    endowment ← stack_pop;
    init_code_offset ← stack_pop;
    init_code_size ← stack_pop;
    region ←
      memory.get_memory_region init_code_offset init_code_size ≫= or_out_of_gas;
    salt ← (if create2 then
              salt ← stack_pop;
              (match region with
               | Some region => charge (memory.num_words (memory.size region) * 6)
               | None => mret ()
               end);;
              mret (Some salt)
            else mret None);
    stack_push U256.ZERO;;
    modify (fun es => with_return_data es []);;
    perform_create rev self endowment init_code_offset init_code_size salt.

End ops.

End call.
