(* ===== verification/MockedHost.v ===== *)
(** The host of the unit tests and of the standalone interpreter
    (src/execution/evm/util/mocked_host.rs), an instance of [Host] that keeps
    what the interpreter relies on. *)
From S2P Require Import Prelude Word Properties EvmState Host.
From Stdlib Require Import ZArith Lia Strings.Byte.
From stdpp Require Import base list option numbers gmap.
#[local] Open Scope Z_scope.

Module mocked_host.

Record LogRecord := {
  creator : Address;
  data : Bytes;
  topics : list Z;
}.

Record SelfdestructRecord := {
  selfdestructed : Address;
  beneficiary : Address;
}.

Record StorageValue := {
  sv_value : Z;
  dirty : bool;
  access_status : AccessStatus;
}.

Definition StorageValue_default : StorageValue :=
  {| sv_value := 0; dirty := false; access_status := Cold |}.

Record Account := {
  nonce : Z;
  code : Bytes;
  code_hash : Z;
  balance : Z;
  storage : gmap Z StorageValue;
}.

Definition Account_default : Account :=
  {| nonce := 0; code := []; code_hash := 0; balance := 0; storage := ∅ |}.

Definition MAX_RECORDED_ACCOUNT_ACCESSES : Z := 200.
Definition MAX_RECORDED_CALLS : Z := 100.

Record Records := {
  call_inputs : list Bytes;
  blockhashes : list Z;
  account_accesses : list Address;
  calls : list InterpreterMessage;
  logs : list LogRecord;
  selfdestructs : list SelfdestructRecord;
}.

Definition Records_default : Records :=
  {| call_inputs := []; blockhashes := []; account_accesses := []; calls := [];
     logs := []; selfdestructs := [] |}.

Record MockedHost := {
  accounts : gmap Address Account;
  tx_context : TxContext;
  block_hash : Z;
  call_result : Output;
  recorded : Records;
}.

Definition MockedHost_default : MockedHost := {|
  accounts := ∅;
  tx_context := {|
    tx_gas_price := 0; tx_origin := 0; block_coinbase := 0; block_number := 0;
    block_timestamp := 0; block_gas_limit := 0; block_difficulty := 0;
    chain_id := 0; block_base_fee := 0 |};
  block_hash := 0;
  call_result := {|
    status_code := Success; gas_left := 0; output_data := [];
    create_address := Some 0 |};
  recorded := Records_default;
|}.

Definition record_account_access (r : Records) (address : Address) : Records :=
  if blen (account_accesses r) <? MAX_RECORDED_ACCOUNT_ACCESSES then
    {| call_inputs := call_inputs r; blockhashes := blockhashes r;
       account_accesses := account_accesses r ++ [address]; calls := calls r;
       logs := logs r; selfdestructs := selfdestructs r |}
  else r.

Definition with_recorded (h : MockedHost) (r : Records) : MockedHost :=
  {| accounts := accounts h; tx_context := tx_context h; block_hash := block_hash h;
     call_result := call_result h; recorded := r |}.

Definition with_accounts (h : MockedHost) (a : gmap Address Account) : MockedHost :=
  {| accounts := a; tx_context := tx_context h; block_hash := block_hash h;
     call_result := call_result h; recorded := recorded h |}.

(** [self.recorded.lock().record_account_access(address)]. *)
Definition touch (h : MockedHost) (address : Address) : MockedHost :=
  with_recorded h (record_account_access (recorded h) address).

Definition account_exists (address : Address) (h : MockedHost)
  : option (bool * MockedHost) :=
  let h := touch h address in
  Some (bool_decide (is_Some (accounts h !! address)), h).

Definition get_storage (address : Address) (key : Z) (h : MockedHost)
  : option (Z * MockedHost) :=
  let h := touch h address in
  Some (default U256.ZERO (account ← accounts h !! address;
                           v ← storage account !! key; Some (sv_value v)), h).

(** [self.accounts.entry(address).or_default().storage.entry(key).or_default()]
    and the write of [value] through that reference. *)
Definition slot (h : MockedHost) (address : Address) (key : Z) : StorageValue :=
  default StorageValue_default
    (storage (default Account_default (accounts h !! address)) !! key).

Definition write_slot (h : MockedHost) (address : Address) (key : Z)
    (v : StorageValue) : MockedHost :=
  let acc := default Account_default (accounts h !! address) in
  with_accounts h (<[address := {|
    nonce := nonce acc; code := code acc; code_hash := code_hash acc;
    balance := balance acc; storage := <[key := v]> (storage acc) |}]> (accounts h)).

Definition set_storage (address : Address) (key value : Z) (h : MockedHost)
  : option (StorageStatus * MockedHost) :=
  let h := touch h address in
  let old := slot h address key in
  if sv_value old =? value then Some (Unchanged, write_slot h address key old)
  else
    let status :=
      if negb (dirty old) then
        if sv_value old =? 0 then Added
        else if negb (value =? 0) then Modified else Deleted
      else ModifiedAgain in
    Some (status, write_slot h address key
      {| sv_value := value; dirty := true; access_status := access_status old |}).

Definition get_balance (address : Address) (h : MockedHost) : option (Z * MockedHost) :=
  let h := touch h address in
  Some (default U256.ZERO (acc ← accounts h !! address; Some (balance acc)), h).

Definition get_code_size (address : Address) (h : MockedHost) : option (Z * MockedHost) :=
  let h := touch h address in
  Some (default U256.ZERO (acc ← accounts h !! address; Some (blen (code acc))), h).

Definition get_code_hash (address : Address) (h : MockedHost) : option (Z * MockedHost) :=
  let h := touch h address in
  Some (default U256.ZERO (acc ← accounts h !! address; Some (code_hash acc)), h).

Definition copy_code (address : Address) (code_offset : Z) (buffer : Bytes)
    (h : MockedHost) : option ((Z * Bytes) * MockedHost) :=
  let h := touch h address in
  match accounts h !! address with
  | None => Some ((0, buffer), h)
  | Some acc =>
      if blen (code acc) <=? code_offset then Some ((0, buffer), h)
      else
        let n := Z.min (blen buffer) (blen (code acc) - code_offset) in
        src ← slice (code acc) code_offset n;
        buffer ← splice buffer 0 src;
        Some ((n, buffer), h)
  end.

Definition selfdestruct (address beneficiary : Address) (h : MockedHost)
  : option (unit * MockedHost) :=
  let r := record_account_access (recorded h) address in
  Some ((), with_recorded h
    {| call_inputs := call_inputs r; blockhashes := blockhashes r;
       account_accesses := account_accesses r; calls := calls r; logs := logs r;
       selfdestructs := selfdestructs r ++
         [{| selfdestructed := address; beneficiary := beneficiary |}] |}).

Definition call (msg : Call) (h : MockedHost) : option (Output * MockedHost) :=
  let msg := message_of_call msg in
  let r := record_account_access (recorded h) (recipient msg) in
  let r :=
    if blen (calls r) <? MAX_RECORDED_CALLS then
      {| call_inputs := if blen (input_data msg) =? 0 then call_inputs r
                        else call_inputs r ++ [input_data msg];
         blockhashes := blockhashes r; account_accesses := account_accesses r;
         calls := calls r ++ [msg]; logs := logs r; selfdestructs := selfdestructs r |}
    else r in
  Some (call_result h, with_recorded h r).

Definition get_tx_context (h : MockedHost) : option (TxContext * MockedHost) :=
  Some (tx_context h, h).

Definition get_block_hash (block_number : Z) (h : MockedHost)
  : option (Z * MockedHost) :=
  let r := recorded h in
  Some (block_hash h, with_recorded h
    {| call_inputs := call_inputs r; blockhashes := blockhashes r ++ [block_number];
       account_accesses := account_accesses r; calls := calls r; logs := logs r;
       selfdestructs := selfdestructs r |}).

Definition emit_log (address : Address) (data : Bytes) (topics : list Z)
    (h : MockedHost) : option (unit * MockedHost) :=
  let r := recorded h in
  Some ((), with_recorded h
    {| call_inputs := call_inputs r; blockhashes := blockhashes r;
       account_accesses := account_accesses r; calls := calls r;
       logs := logs r ++ [{| creator := address; data := data; topics := topics |}];
       selfdestructs := selfdestructs r |}).

Definition access_account (address : Address) (h : MockedHost)
  : option (AccessStatus * MockedHost) :=
  let already_accessed := existsb (Z.eqb address) (account_accesses (recorded h)) in
  let h := touch h address in
  Some (if (1 <=? address) && (address <=? 9) then Warm
        else if already_accessed then Warm else Cold, h).

Definition access_storage (address : Address) (key : Z) (h : MockedHost)
  : option (AccessStatus * MockedHost) :=
  let value := slot h address key in
  Some (access_status value, write_slot h address key
    {| sv_value := sv_value value; dirty := dirty value; access_status := Warm |}).

End mocked_host.

Import mocked_host.

#[export] Instance MockedHost_Host : Host MockedHost := {|
  Host.account_exists := mocked_host.account_exists;
  Host.get_storage := mocked_host.get_storage;
  Host.set_storage := mocked_host.set_storage;
  Host.get_balance := mocked_host.get_balance;
  Host.get_code_size := mocked_host.get_code_size;
  Host.get_code_hash := mocked_host.get_code_hash;
  Host.copy_code := mocked_host.copy_code;
  Host.selfdestruct := mocked_host.selfdestruct;
  Host.call := mocked_host.call;
  Host.get_tx_context := mocked_host.get_tx_context;
  Host.get_block_hash := mocked_host.get_block_hash;
  Host.emit_log := mocked_host.emit_log;
  Host.access_account := mocked_host.access_account;
  Host.access_storage := mocked_host.access_storage;
|}.

(** ** The host keeps what the interpreter relies on *)

Record account_ok (a : Account) : Prop := {
  account_balance : word (balance a);
  account_code_hash : word (code_hash a);
  account_code : bytes_ok (code a);
  account_storage : map_Forall (fun _ v => word (sv_value v)) (storage a);
}.

Record mocked_ok (h : MockedHost) : Prop := {
  mocked_accounts : map_Forall (fun _ => account_ok) (accounts h);
  mocked_context : tx_context_ok (tx_context h);
  mocked_block_hash : word (block_hash h);
  mocked_call_result : output_ok 0 (call_result h);
  mocked_create_result : status_code (call_result h) = Success ->
    exists a, create_address (call_result h) = Some a /\ is_address a;
}.

Lemma account_default_ok : account_ok Account_default.
Proof. by split. Qed.

Lemma account_at_ok h address : mocked_ok h ->
  account_ok (default Account_default (accounts h !! address)).
Proof.
  intros []. destruct (accounts h !! address) eqn:E; simpl.
  - by eapply mocked_accounts0.
  - apply account_default_ok.
Qed.

(** Recording does not change what the interpreter reads. *)
Lemma with_recorded_ok h r : mocked_ok h -> mocked_ok (with_recorded h r).
Proof. intros []. by split. Qed.

Lemma touch_ok h a : mocked_ok h -> mocked_ok (touch h a).
Proof. apply with_recorded_ok. Qed.

Lemma slot_ok h address key : mocked_ok h -> word (sv_value (slot h address key)).
Proof.
  intros Hh. unfold slot. destruct (account_at_ok h address Hh).
  destruct (storage _ !! key) eqn:E; [|done]. by apply account_storage0 in E.
Qed.

Lemma write_slot_ok h address key v :
  mocked_ok h -> word (sv_value v) -> mocked_ok (write_slot h address key v).
Proof.
  intros Hh Hv. pose proof (account_at_ok h address Hh) as []. destruct Hh.
  split; simpl; try done. apply map_Forall_insert_2; [|done]. split; simpl; try done.
  by apply map_Forall_insert_2.
Qed.

(** Reading a field of an account that may be absent. *)
Lemma read_account_ok (f : Account -> Z) h address : mocked_ok h ->
  (forall a, account_ok a -> word (f a)) ->
  word (default U256.ZERO (acc ← accounts h !! address; Some (f acc))).
Proof.
  intros [] Hf. destruct (accounts h !! address) eqn:E; [|done]. simpl. eauto.
Qed.

Lemma code_size_word a : account_ok a -> word (blen (code a)).
Proof.
  intros []. unfold bytes_ok, i64_max, uint in *. pose proof (blen_nonneg (code a)). lia.
Qed.

Lemma get_storage_word h address key : mocked_ok h ->
  word (default U256.ZERO (account ← accounts h !! address;
                           v ← storage account !! key; Some (sv_value v))).
Proof.
  intros []. destruct (accounts h !! address) as [a|] eqn:E; [|done]. simpl.
  apply mocked_accounts0 in E as []. destruct (storage a !! key) eqn:E'; [|done].
  by apply account_storage0 in E'.
Qed.

Lemma copy_code_total h a off buf : 0 <= off -> exists n buf' h',
  copy_code a off buf h = Some ((n, buf'), h') /\ h' = touch h a /\
  0 <= n <= blen buf /\ length buf' = length buf.
Proof.
  intros Ho. pose proof (blen_nonneg buf). unfold copy_code.
  destruct (accounts _ !! a) as [acc|]; [|by eexists _, _, _].
  case_if; [by eexists _, _, _|].
  destruct (slice_some (code acc) off (Z.min (blen buf) (blen (code acc) - off)))
    as (src & Hsrc & Hl); [lia..|]. rewrite Hsrc; simpl.
  destruct (splice_some buf 0 src) as (buf' & Hb & Hl'); [lia..|]. rewrite Hb; simpl.
  eexists _, _, _. splits; [done|done|lia|lia|unfold blen in Hl'; lia].
Qed.

#[local] Hint Resolve with_recorded_ok touch_ok slot_ok write_slot_ok read_account_ok
  code_size_word get_storage_word account_balance account_code_hash : mocked.

(** A method that returns a pair at once. *)
Ltac total := intros h Hh; eexists _, _; split; [reflexivity|]; split; eauto 6 with mocked.

#[export] Instance MockedHost_inv :
  HostInv MockedHost_Host (fun _ _ => mocked_ok).
Proof.
  split.
  - intros; total.
  - intros; total.
  - intros d a k v Ha Hk Hv h Hh. simpl. unfold set_storage.
    case_if; eexists _, _; (split; [reflexivity|]); split; auto;
      eauto with mocked.
  - intros; total.
  - intros; total.
  - intros; total.
  - intros st d a off buf Ha Ho h Hh.
    destruct (copy_code_total h a off buf Ho) as (n & buf' & h' & E & -> & ? & ?).
    exists (n, buf'), (touch h a). split; [done|]. split; [by apply with_recorded_ok|done].
  - intros; total.
  - intros st d m (_ & Hm & _); total. destruct Hm as (_ & ? & _). destruct Hh.
    destruct mocked_call_result0 as [? ?]. split; [lia|done].
  - intros d m (_ & _ & ? & _); total. destruct Hh.
    destruct mocked_call_result0 as [? ?]. split; [split; [lia|done]|done].
  - intros; total. by destruct Hh.
  - intros; total. by destruct Hh.
  - intros; total.
  - intros; total.
  - intros; total. apply write_slot_ok; [done|]. simpl. by apply slot_ok.
Qed.

Lemma MockedHost_default_ok : mocked_ok MockedHost_default.
Proof.
  split; simpl; [apply map_Forall_empty| | | |].
  - unfold tx_context_ok, uint; simpl. lia.
  - done.
  - done.
  - intros _. by exists 0.
Qed.
