(* ===== verification/Interpreter.v ===== *)
(** Code analysis and the interpreter loop (src/execution/evm/interpreter.rs). *)
From S2P Require Import Prelude Word Properties EvmState Host Arith MemoryOps External.
From Stdlib Require Import ZArith Lia Strings.Byte.
From stdpp Require Import base list option numbers.
#[local] Open Scope Z_scope.

(** ** Requirements of an instruction *)

Definition check_requirements {W} (instruction_table : InstructionTable)
    (op : OpCode) : M W unit :=
  slot ← lift (index instruction_table (OpCode.to_usize op));
  match slot with
  | None => throw UndefinedInstruction
  | Some metrics =>
      charge (gas_cost metrics);;
      stack ← gets es_stack;
      let stack_size := Stack.len stack in
      if stack_size =? STACK_SIZE then
        if can_overflow_stack metrics then throw StackOverflow else mret ()
      else if stack_size <? stack_height_required metrics
      then throw StackUnderflow
      else mret ()
  end.

(** ** Code analysis *)

Record AnalyzedCode := {
  jumpdest_map : list bool;
  code : Bytes;
  padded_code : Bytes;
}.

(** The opcodes of the [PUSH1 | ... | PUSH32] arm. *)
Definition is_push (op : OpCode) : bool :=
  (OpCode.PUSH1 <=? op) && (op <=? OpCode.PUSH32).

(** Width of the instruction [op]: the increment of [i]. *)
Definition op_width (op : OpCode) : Z :=
  if is_push op then OpCode.to_usize op - OpCode.to_usize OpCode.PUSH1 + 2 else 1.

(** [while i < code.len()]; the result is the final map and the final [i]. *)
Fixpoint analyze_loop (fuel : nat) (code : Bytes) (i : Z) (map : list bool)
  : option (list bool * Z) :=
  if i <? blen code then
    match fuel with
    | O => None
    | S fuel =>
        b ← index code i;
        let opcode := byte_val b in
        let map := if opcode =? OpCode.JUMPDEST
                   then <[Z.to_nat i := true]> map else map in
        analyze_loop fuel code (i + op_width opcode) map
    end
  else Some (map, i).

Definition analyze (code : Bytes) : option AnalyzedCode :=
  '(map, i) ← analyze_loop (length code) code 0 (replicate (length code) false);
  Some {|
    jumpdest_map := map;
    code := code;
    padded_code := vec_resize code (i + 1) (byte_of (OpCode.to_u8 OpCode.STOP));
  |}.

(** ** The dispatch *)

(** What the loop does after an instruction. *)
Inductive flow := Continue (pc : Z) | Break (reverted : bool).

Section interpreter.
Context {W : Type} `{Host W, Tracer W, I256Ops, Keccak}.
Variable s : AnalyzedCode.
Variable REVISION : Revision.

(** Fall through to [pc += 1]. *)
Definition next (pc : Z) (m : M W unit) : M W flow := m;; mret (Continue (pc + 1)).

(** The arms of the [match], in order; [None] is no arm of the group. *)
Definition exec_alu (op : OpCode) (pc : Z) : option (M W flow) :=
  if op =? OpCode.STOP then Some (mret (Break false))
  else if op =? OpCode.ADD then Some (next pc (on_stack arithmetic.add))
  else if op =? OpCode.MUL then Some (next pc (on_stack arithmetic.mul))
  else if op =? OpCode.SUB then Some (next pc (on_stack arithmetic.sub))
  else if op =? OpCode.DIV then Some (next pc (on_stack arithmetic.div))
  else if op =? OpCode.SDIV then Some (next pc (on_stack arithmetic.sdiv))
  else if op =? OpCode.MOD then Some (next pc (on_stack arithmetic.modulo))
  else if op =? OpCode.SMOD then Some (next pc (on_stack arithmetic.smod))
  else if op =? OpCode.ADDMOD then Some (next pc (on_stack arithmetic.addmod))
  else if op =? OpCode.MULMOD then Some (next pc (on_stack arithmetic.mulmod))
  else if op =? OpCode.EXP then Some (next pc (arithmetic.exp REVISION))
  else if op =? OpCode.SIGNEXTEND then Some (next pc (on_stack arithmetic.signextend))
  else if op =? OpCode.LT then Some (next pc (on_stack boolean.lt))
  else if op =? OpCode.GT then Some (next pc (on_stack boolean.gt))
  else if op =? OpCode.SLT then Some (next pc (on_stack boolean.slt))
  else if op =? OpCode.SGT then Some (next pc (on_stack boolean.sgt))
  else if op =? OpCode.EQ then Some (next pc (on_stack boolean.eq))
  else if op =? OpCode.ISZERO then Some (next pc (on_stack boolean.iszero))
  else if op =? OpCode.AND then Some (next pc (on_stack boolean.and))
  else if op =? OpCode.OR then Some (next pc (on_stack boolean.or))
  else if op =? OpCode.XOR then Some (next pc (on_stack boolean.xor))
  else if op =? OpCode.NOT then Some (next pc (on_stack boolean.not))
  else if op =? OpCode.BYTE then Some (next pc (on_stack bitwise.byte))
  else if op =? OpCode.SHL then Some (next pc (on_stack bitwise.shl))
  else if op =? OpCode.SHR then Some (next pc (on_stack bitwise.shr))
  else if op =? OpCode.SAR then Some (next pc (on_stack bitwise.sar))
  else None.

Definition tx_accessor (op : OpCode) : option (TxContext -> Z) :=
  if op =? OpCode.ORIGIN then Some external.origin_accessor
  else if op =? OpCode.COINBASE then Some external.coinbase_accessor
  else if op =? OpCode.GASPRICE then Some external.gasprice_accessor
  else if op =? OpCode.TIMESTAMP then Some external.timestamp_accessor
  else if op =? OpCode.NUMBER then Some external.number_accessor
  else if op =? OpCode.DIFFICULTY then Some external.difficulty_accessor
  else if op =? OpCode.GASLIMIT then Some external.gaslimit_accessor
  else if op =? OpCode.CHAINID then Some external.chainid_accessor
  else if op =? OpCode.BASEFEE then Some external.basefee_accessor
  else None.

Definition exec_env (op : OpCode) (pc : Z) : option (M W flow) :=
  if op =? OpCode.KECCAK256 then Some (next pc memory.keccak256)
  else if op =? OpCode.ADDRESS then Some (next pc external.address)
  else if op =? OpCode.BALANCE then Some (next pc (external.balance REVISION))
  else if op =? OpCode.CALLER then Some (next pc external.caller)
  else if op =? OpCode.CALLVALUE then Some (next pc external.callvalue)
  else if op =? OpCode.CALLDATALOAD then Some (next pc control.calldataload)
  else if op =? OpCode.CALLDATASIZE then Some (next pc control.calldatasize)
  else if op =? OpCode.CALLDATACOPY then Some (next pc memory.calldatacopy)
  else if op =? OpCode.CODESIZE then Some (next pc (on_stack (memory.codesize (code s))))
  else if op =? OpCode.CODECOPY then Some (next pc (memory.codecopy (code s)))
  else if op =? OpCode.EXTCODESIZE then Some (next pc (external.extcodesize REVISION))
  else if op =? OpCode.EXTCODECOPY then Some (next pc (memory.extcodecopy REVISION))
  else if op =? OpCode.RETURNDATASIZE then Some (next pc memory.returndatasize)
  else if op =? OpCode.RETURNDATACOPY then Some (next pc memory.returndatacopy)
  else if op =? OpCode.EXTCODEHASH then Some (next pc (memory.extcodehash REVISION))
  else if op =? OpCode.BLOCKHASH then Some (next pc external.blockhash)
  else match tx_accessor op with
  | Some accessor => Some (next pc (external.push_txcontext accessor))
  | None => None
  end.

Definition jumpi (pc : Z) : M W flow :=
  c ← stack_get 1;
  if negb (c =? 0) then
    pc ← control.op_jump (jumpdest_map s);
    _ ← stack_pop;
    mret (Continue pc)
  else
    _ ← stack_pop;
    _ ← stack_pop;
    mret (Continue (pc + 1)).

Definition exec_flow (op : OpCode) (pc : Z) : option (M W flow) :=
  if op =? OpCode.SELFBALANCE then Some (next pc external.selfbalance)
  else if op =? OpCode.POP then Some (next pc (on_stack stack_manip.pop))
  else if op =? OpCode.MLOAD then Some (next pc memory.mload)
  else if op =? OpCode.MSTORE then Some (next pc memory.mstore)
  else if op =? OpCode.MSTORE8 then Some (next pc memory.mstore8)
  else if op =? OpCode.JUMP then
    Some (pc ← control.op_jump (jumpdest_map s); mret (Continue pc))
  else if op =? OpCode.JUMPI then Some (jumpi pc)
  else if op =? OpCode.PC then Some (next pc (stack_push pc))
  else if op =? OpCode.MSIZE then Some (next pc memory.msize)
  else if op =? OpCode.SLOAD then Some (next pc (external.sload REVISION))
  else if op =? OpCode.SSTORE then Some (next pc (external.sstore REVISION))
  else if op =? OpCode.GAS then
    (* [u128::try_from(state.gas_left).unwrap()] *)
    Some (next pc (g ← gets es_gas_left; g ← lift (checked 0 (2 ^ 128 - 1) g);
                   stack_push g))
  else if op =? OpCode.JUMPDEST then Some (next pc (mret ()))
  else None.

(** [&s.padded_code[pc + 1..]]. *)
Definition code_after (pc : Z) : M W Bytes :=
  lift (slice (padded_code s) (pc + 1) (blen (padded_code s) - (pc + 1))).

Definition exec_push (op : OpCode) (pc : Z) : option (M W flow) :=
  if op =? OpCode.PUSH1 then
    Some (b ← lift (index (padded_code s) (pc + 1));
          on_stack (stack_manip.push1 b);;
          mret (Continue (pc + 1 + 1)))
  else if (OpCode.PUSH2 <=? op) && (op <=? OpCode.PUSH31) then
    (* [PUSHn => pc += push::<n>(..)] for n from 2 to 31 *)
    let LEN := op - OpCode.PUSH1 + 1 in
    Some (code ← code_after pc;
          stack ← gets es_stack;
          '(n, stack) ← lift (stack_manip.push LEN code stack);
          modify (fun es => with_stack es stack);;
          mret (Continue (pc + n + 1)))
  else if op =? OpCode.PUSH32 then
    Some (code ← code_after pc;
          on_stack (stack_manip.push32 code);;
          mret (Continue (pc + 32 + 1)))
  else None.

(** [DUPn] and [SWAPn], for n from 1 to 16. *)
Definition exec_dup_swap (op : OpCode) (pc : Z) : option (M W flow) :=
  if (OpCode.DUP1 <=? op) && (op <=? OpCode.DUP16) then
    Some (next pc (on_stack (stack_manip.dup (op - OpCode.DUP1 + 1))))
  else if (OpCode.SWAP1 <=? op) && (op <=? OpCode.SWAP16) then
    Some (next pc (on_stack (stack_manip.swap (op - OpCode.SWAP1 + 1))))
  else None.

Definition exec_system (op : OpCode) (pc : Z) : option (M W flow) :=
  if (OpCode.LOG0 <=? op) && (op <=? OpCode.LOG4) then
    Some (next pc (external.do_log (Z.to_nat (op - OpCode.LOG0))))
  else if (op =? OpCode.CREATE) || (op =? OpCode.CREATE2) then
    Some (next pc (call.do_create REVISION (op =? OpCode.CREATE2)))
  else if (op =? OpCode.CALL) || (op =? OpCode.CALLCODE)
          || (op =? OpCode.DELEGATECALL) || (op =? OpCode.STATICCALL) then
    Some (next pc (call.do_call REVISION
      (if (op =? OpCode.CALL) || (op =? OpCode.STATICCALL) then CallKind_Call
       else if op =? OpCode.CALLCODE then CallCode else DelegateCall)
      (op =? OpCode.STATICCALL)))
  else if (op =? OpCode.RETURN) || (op =? OpCode.REVERT) then
    Some (control.ret;; mret (Break (op =? OpCode.REVERT)))
  else if op =? OpCode.INVALID then Some (throw InvalidInstruction)
  else if op =? OpCode.SELFDESTRUCT then
    Some (external.selfdestruct REVISION;; mret (Break false))
  else None.

(** The whole [match op]; the last arm is [unreachable!]. *)
Definition exec_op (op : OpCode) (pc : Z) : M W flow :=
  match exec_alu op pc with Some m => m | None =>
  match exec_env op pc with Some m => m | None =>
  match exec_flow op pc with Some m => m | None =>
  match exec_push op pc with Some m => m | None =>
  match exec_dup_swap op pc with Some m => m | None =>
  match exec_system op pc with Some m => m | None => fault
  end end end end end end.

(** [tracer.capture_state(&state, pc, op, cost, depth)]. *)
Definition trace_step (TRACE : bool) (pc : Z) (op : OpCode)
    (metrics : InstructionTableEntry) : M W unit :=
  if TRACE && (pc <? blen (code s)) then
    fun es w =>
      ROk () es (capture_state es pc op (gas_cost metrics)
                   (wrap 16 (depth (es_message es))) w)
  else mret ().

(** One iteration of the [loop]. *)
Definition step (TRACE : bool) (instruction_table : InstructionTable) (pc : Z)
  : M W flow :=
  b ← lift (index (padded_code s) pc);
  let op := byte_val b in
  slot ← lift (index instruction_table (OpCode.to_usize op));
  match slot with
  | None => throw UndefinedInstruction
  | Some metrics =>
      trace_step TRACE pc op metrics;;
      check_requirements instruction_table op;;
      exec_op op pc
  end.

Fixpoint execute_loop (TRACE : bool) (table : InstructionTable) (fuel : nat) (pc : Z)
  : M W bool :=
  match fuel with
  | O => fun _ _ => ROutOfFuel
  | S fuel =>
      f ← step TRACE table pc;
      match f with
      | Continue pc => execute_loop TRACE table fuel pc
      | Break reverted => mret reverted
      end
  end.

Definition execute_message (TRACE : bool) (fuel : nat) : M W SuccessfulOutput :=
  table ← lift (get_instruction_table REVISION);
  reverted ← execute_loop TRACE table fuel 0;
  g ← gets es_gas_left;
  out ← gets es_output_data;
  mret {| so_reverted := reverted; so_gas_left := g; so_output_data := out |}.

(** A number of iterations that is enough for every message. *)
Definition loop_bound (message : InterpreterMessage) : nat :=
  S (S (Z.to_nat (gas message))).

(** [AnalyzedCode::execute]; [None] is a fault of the run. *)
Definition execute (message : InterpreterMessage) (w : W) : option (Output * W) :=
  let state := ExecutionState_new message in
  match execute_message (trace_instructions w) (loop_bound message) state w with
  | ROk output _ w =>
      let output := output_of_successful output in
      Some (output, capture_end output w)
  | RErr status_code w =>
      let output := {| status_code := status_code; gas_left := 0;
                       output_data := []; create_address := None |} in
      Some (output, capture_end output w)
  | RFault | ROutOfFuel => None
  end.

End interpreter.
