(* ===== verification/Analysis.v ===== *)
(** Facts about the instruction tables of every revision, by evaluation of the tables
    (src/execution/evm/instructions/properties.rs and instruction_table.rs), and the
    correctness of the code analysis ([AnalyzedCode::analyze] of
    src/execution/evm/interpreter.rs).

    [boundary code i] is the specification of the analysis: [i] is the offset of an
    instruction when the code is decoded from its start, the data of a [PUSH] skipped. *)
From S2P Require Import Prelude Word Properties EvmState Host Interpreter.
From Stdlib Require Import ZArith Lia Strings.Byte.
From stdpp Require Import base list option numbers.
#[local] Open Scope Z_scope.

(** The instructions that end the frame. *)
Definition is_terminal (op : OpCode) : bool :=
  (op =? OpCode.STOP) || (op =? OpCode.RETURN) || (op =? OpCode.REVERT)
  || (op =? OpCode.INVALID) || (op =? OpCode.SELFDESTRUCT).

(** Least cost an instruction charges beyond its table entry. *)
Definition extra_cost (op : OpCode) : Z := if op =? OpCode.SSTORE then 100 else 0.

Definition properties_of (op : OpCode) : option Properties :=
  mjoin (PROPERTIES !! Z.to_nat op).

(** The entry of [op] is consistent with [PROPERTIES], and every instruction
    that goes on costs gas. *)
Record entry_ok (op : OpCode) (e : InstructionTableEntry) (p : Properties) : Prop := {
  entry_properties : properties_of op = Some p;
  entry_required : stack_height_required e = prop_stack_height_required p;
  entry_overflow : can_overflow_stack e = (0 <? stack_height_change p);
  entry_required_range : 0 <= prop_stack_height_required p <= 17;
  entry_change : stack_height_change p <= 1;
  entry_cost : 0 <= gas_cost e <= 32000;
  entry_progress : is_terminal op = false -> 1 <= gas_cost e + extra_cost op;
}.

Definition entry_okb (op : OpCode) (e : InstructionTableEntry) : bool :=
  match properties_of op with
  | None => false
  | Some p =>
      (stack_height_required e =? prop_stack_height_required p)
      && Bool.eqb (can_overflow_stack e) (0 <? stack_height_change p)
      && (0 <=? prop_stack_height_required p)
      && (prop_stack_height_required p <=? 17)
      && (stack_height_change p <=? 1)
      && (0 <=? gas_cost e) && (gas_cost e <=? 32000)
      && (is_terminal op || (1 <=? gas_cost e + extra_cost op))
  end.

Lemma entry_okb_spec op e : entry_okb op e = true -> exists p, entry_ok op e p.
Proof.
  unfold entry_okb. destruct (properties_of op) as [p|] eqn:Hp; [|done].
  intros H. exists p. repeat (apply andb_true_iff in H as [H ?]). zb.
  split; try done; try lia.
  - by apply Bool.eqb_prop.
  - intros Ht. rewrite Ht in *. simpl in *. zb. lia.
Qed.

Definition table_okb (t : InstructionTable) : bool :=
  (length t =? 256)%nat &&
  forallb (fun e => match e.2 with
                    | Some entry => entry_okb (Z.of_nat e.1) entry
                    | None => true
                    end) (imap pair t).

Lemma table_okb_spec t : table_okb t = true ->
  blen t = 256 /\
  forall op e, index t op = Some (Some e) -> exists p, entry_ok op e p.
Proof.
  unfold table_okb, blen. intros [Hl Hf]%andb_true_iff.
  apply Nat.eqb_eq in Hl. split; [lia|]. intros op e He.
  unfold index in He. destruct (Z.leb_spec 0 op); [|done].
  rewrite forallb_forall in Hf. apply entry_okb_spec.
  specialize (Hf (Z.to_nat op, Some e)). simpl in Hf.
  rewrite Z2Nat.id in Hf by done. apply Hf.
  apply list_elem_of_In, list_elem_of_lookup. exists (Z.to_nat op).
  by rewrite list_lookup_imap, He.
Qed.

(** The table of a revision exists (no [unwrap] of its construction panics)
    and is consistent. *)
Lemma table_spec rev : exists t, get_instruction_table rev = Some t /\
  blen t = 256 /\ forall op e, index t op = Some (Some e) -> exists p, entry_ok op e p.
Proof.
  assert (match get_instruction_table rev with
          | Some t => table_okb t | None => false end = true) as H
    by (destruct rev; vm_compute; reflexivity).
  destruct (get_instruction_table rev) as [t|]; [|done].
  exists t. split; [done|]. by apply table_okb_spec.
Qed.

(** Properties of a range of opcodes, by evaluation. *)
Lemma forall_range (P : Z -> bool) lo n :
  forallb P (seqZ lo n) = true -> forall z, lo <= z < lo + n -> P z = true.
Proof.
  rewrite forallb_forall. intros H z Hz. apply H. apply list_elem_of_In, elem_of_seqZ. lia.
Qed.

#[global] Instance Properties_eq_dec : EqDecision Properties.
Proof. solve_decision. Defined.

(** [op] has the properties [p], goes on and has no extra cost. *)
Definition plain_op (op : OpCode) (p : Properties) : bool :=
  bool_decide (properties_of op = Some p)
  && negb (is_terminal op) && (extra_cost op =? 0).

Lemma plain_op_spec op p : plain_op op p = true ->
  properties_of op = Some p /\ is_terminal op = false /\ extra_cost op = 0 /\
  op <> OpCode.STOP.
Proof.
  unfold plain_op. intros H. zb. rewrite bool_decide_eq_true in *.
  splits; try done. by intros ->.
Qed.

(** The families [PUSHn], [DUPn], [SWAPn] and [LOGn]. *)
Lemma plain_push op : OpCode.PUSH1 <= op <= OpCode.PUSH32 ->
  plain_op op (Properties_new 0 1) = true.
Proof.
  unfold OpCode.PUSH1, OpCode.PUSH32. intros.
  apply (forall_range (fun op => plain_op op (Properties_new 0 1)) 96 32);
    [vm_compute; reflexivity|lia].
Qed.

Lemma plain_dup op : OpCode.DUP1 <= op <= OpCode.DUP16 ->
  plain_op op (Properties_new (op - OpCode.DUP1 + 1) 1) = true.
Proof.
  unfold OpCode.DUP1, OpCode.DUP16. intros.
  apply (forall_range (fun op => plain_op op (Properties_new (op - 128 + 1) 1)) 128 16);
    [vm_compute; reflexivity|lia].
Qed.

Lemma plain_swap op : OpCode.SWAP1 <= op <= OpCode.SWAP16 ->
  plain_op op (Properties_new (op - OpCode.SWAP1 + 1 + 1) 0) = true.
Proof.
  unfold OpCode.SWAP1, OpCode.SWAP16. intros.
  apply (forall_range (fun op => plain_op op (Properties_new (op - 144 + 1 + 1) 0)) 144 16);
    [vm_compute; reflexivity|lia].
Qed.

Lemma plain_log op : OpCode.LOG0 <= op <= OpCode.LOG4 ->
  plain_op op (Properties_new (2 + (op - OpCode.LOG0)) (- (2 + (op - OpCode.LOG0)))) = true.
Proof.
  unfold OpCode.LOG0, OpCode.LOG4. intros.
  apply (forall_range (fun op =>
    plain_op op (Properties_new (2 + (op - 160)) (- (2 + (op - 160))))) 160 5);
    [vm_compute; reflexivity|lia].
Qed.

Inductive boundary (code : Bytes) : Z -> Prop :=
  | boundary_start : boundary code 0
  | boundary_next i b : boundary code i -> index code i = Some b ->
      boundary code (i + op_width (byte_val b)).

(** A valid jump destination. *)
Definition is_jumpdest (code : Bytes) (i : Z) : Prop :=
  boundary code i /\ exists b, index code i = Some b /\ byte_val b = OpCode.JUMPDEST.

Lemma op_width_push op : is_push op = true -> op_width op = op - OpCode.PUSH1 + 2.
Proof. intros H. unfold op_width. by rewrite H. Qed.

Lemma op_width_range op : 1 <= op_width op <= 33.
Proof.
  unfold op_width, is_push, OpCode.to_usize, OpCode.to_u8, OpCode.PUSH1, OpCode.PUSH32.
  case_if; zb; lia.
Qed.

Lemma boundary_nonneg code i : boundary code i -> 0 <= i.
Proof.
  induction 1 as [|i b _ IH _]; [done|]. pose proof (op_width_range (byte_val b)). lia.
Qed.

(** Two instructions do not overlap. *)
Lemma boundary_gap code i j b :
  boundary code i -> boundary code j -> index code i = Some b -> i < j ->
  i + op_width (byte_val b) <= j.
Proof.
  remember (Z.to_nat (i + j)) as n eqn:Hn. revert i j b Hn.
  induction n as [n IH] using lt_wf_ind. intros i j b -> Hi Hj Hb Hlt.
  pose proof (boundary_nonneg _ _ Hi).
  destruct Hj as [|j' b' Hj' Hb']; [lia|].
  pose proof (boundary_nonneg _ _ Hj'). pose proof (op_width_range (byte_val b')).
  destruct (Z.lt_trichotomy i j') as [Hc|[->|Hc]].
  - enough (i + op_width (byte_val b) <= j') by lia.
    eapply IH; [|reflexivity|done..]. lia.
  - by simplify_eq.
  - enough (j' + op_width (byte_val b') <= i) by lia.
    eapply IH; [|reflexivity|done..]. lia.
Qed.

(** The offset past the last instruction is unique. *)
Lemma boundary_end code i j :
  boundary code i -> boundary code j -> blen code <= i -> i < j -> False.
Proof.
  intros Hi Hj. destruct Hj as [|j b Hj Hb]; intros Hge Hlt.
  { pose proof (boundary_nonneg _ _ Hi). lia. }
  pose proof (index_inv _ _ _ Hb).
  pose proof (boundary_gap code j i b Hj Hi Hb ltac:(lia)). lia.
Qed.

Section loop.
Variable c : Bytes.

(** The map is final for the offsets below [i]. *)
Definition map_upto (i : Z) (map : list bool) : Prop :=
  length map = length c /\
  forall j, index map j = Some true <-> j < i /\ is_jumpdest c j.

Lemma map_upto_start : map_upto 0 (replicate (length c) false).
Proof.
  split; [by rewrite length_replicate|]. intros j. split.
  - unfold index. destruct (_ <=? _); [|done]. intros Hj.
    apply lookup_replicate in Hj as [? _]. done.
  - intros [Hj [Hb _]]. apply boundary_nonneg in Hb. lia.
Qed.

Lemma index_insert {A} (l : list A) i j (x y : A) : 0 <= i < blen l ->
  index (<[Z.to_nat i := x]> l) j = Some y <->
  (j = i /\ y = x) \/ (j <> i /\ index l j = Some y).
Proof.
  unfold index, blen. intros Hi. destruct (Z.leb_spec 0 j).
  2:{ split; [done|]. intros [[-> _]|[_ ?]]; [lia|done]. }
  rewrite list_lookup_insert_Some. naive_solver lia.
Qed.

Lemma map_upto_step i b map : boundary c i -> index c i = Some b -> map_upto i map ->
  map_upto (i + op_width (byte_val b))
    (if byte_val b =? OpCode.JUMPDEST then <[Z.to_nat i := true]> map else map).
Proof.
  intros Hi Hb [Hl Hm]. pose proof (index_inv _ _ _ Hb) as Hrange.
  pose proof (op_width_range (byte_val b)) as Hw.
  assert (forall j, j < i + op_width (byte_val b) /\ is_jumpdest c j <->
    (j < i /\ is_jumpdest c j) \/ (j = i /\ byte_val b = OpCode.JUMPDEST)) as Heq.
  { intros j. split.
    - intros [Hlt Hj]. destruct (Z.lt_trichotomy j i) as [?|[->|?]]; [by left| |].
      + right. destruct Hj as (_ & b' & ? & ?). by simplify_eq.
      + destruct Hj as [Hj _]. pose proof (boundary_gap c i j b Hi Hj Hb ltac:(lia)). lia.
    - intros [[? ?]|[-> ?]]; [split; [lia|done]|]. split; [lia|]. split; [done|eauto]. }
  split; [by case_if; rewrite ?length_insert|]. intros j. rewrite Heq.
  destruct (Z.eqb_spec (byte_val b) OpCode.JUMPDEST) as [He|He].
  - rewrite index_insert by (unfold blen in *; rewrite Hl; lia). rewrite Hm.
    split; [naive_solver|]. intros [[? ?]|[-> _]]; [right|by left].
    split; [lia|done].
  - rewrite Hm. naive_solver.
Qed.

Lemma analyze_loop_spec fuel i map :
  boundary c i -> map_upto i map -> blen c <= i + Z.of_nat fuel ->
  exists map' e, analyze_loop fuel c i map = Some (map', e) /\
    boundary c e /\ blen c <= e /\ map_upto e map' /\ (i <= blen c -> e <= blen c + 32).
Proof.
  revert i map. induction fuel as [|fuel IH]; intros i map Hi Hm Hf; simpl.
  - rewrite (proj2 (Z.ltb_ge _ _)) by lia. exists map, i. splits; try done; lia.
  - destruct (Z.ltb_spec i (blen c)) as [Hlt|Hge].
    2:{ exists map, i. splits; try done; lia. }
    pose proof (boundary_nonneg _ _ Hi).
    destruct (index_some c i) as [b Hb]; [lia|]. rewrite Hb; cbn [mbind option_bind].
    pose proof (op_width_range (byte_val b)).
    destruct (IH (i + op_width (byte_val b)) _ ltac:(by constructor)
      (map_upto_step _ _ _ Hi Hb Hm) ltac:(lia)) as (map' & e & -> & He & ? & ? & Hle).
    exists map', e. splits; try done. intros _.
    destruct (Z.le_gt_cases (i + op_width (byte_val b)) (blen c)); [by apply Hle|].
    destruct (Z.le_gt_cases e (i + op_width (byte_val b))); [lia|].
    destruct (boundary_end c (i + op_width (byte_val b)) e); try done; [|lia].
    by constructor.
Qed.

End loop.

(** What the interpreter relies on: the analysis of [c] is [s]. *)
Record analysis_of (c : Bytes) (s : AnalyzedCode) (e : Z) : Prop := {
  an_code : code s = c;
  an_padded : padded_code s = c ++ replicate (Z.to_nat (e + 1 - blen c)) x00;
  an_end : boundary c e;
  an_end_range : blen c <= e <= blen c + 32;
  an_map_len : length (jumpdest_map s) = length c;
  an_map i : index (jumpdest_map s) i = Some true <-> is_jumpdest c i;
}.

Lemma analyze_spec c : exists s e, analyze c = Some s /\ analysis_of c s e.
Proof.
  destruct (analyze_loop_spec c (length c) 0 (replicate (length c) false))
    as (m & e & Hl & He & Hge & [Hml Hm] & Hle).
  { constructor. } { apply map_upto_start. } { unfold blen. lia. }
  pose proof (blen_nonneg c).
  unfold analyze. rewrite Hl. cbn [mbind option_bind].
  eexists _, e. split; [reflexivity|]. split; cbn.
  - done.
  - unfold vec_resize. rewrite take_ge by (unfold blen in *; lia).
    do 2 f_equal. unfold blen. lia.
  - done.
  - lia.
  - done.
  - intros i. rewrite Hm. split; [by intros [_ ?]|]. intros Hj. split; [|done].
    destruct Hj as (Hb & b & Hb' & _). pose proof (index_inv _ _ _ Hb'). lia.
Qed.

Section analysis.
Context (c : Bytes) (s : AnalyzedCode) (e : Z) (Hs : analysis_of c s e).

Lemma blen_padded : blen (padded_code s) = e + 1.
Proof.
  pose proof (blen_nonneg c). destruct Hs.
  rewrite an_padded0, blen_app, blen_replicate by lia. lia.
Qed.

Lemma boundary_le pc : boundary c pc -> pc <= e.
Proof.
  intros Hpc. destruct (Z.le_gt_cases pc e); [done|]. destruct Hs.
  exfalso. eapply boundary_end; [exact an_end0|exact Hpc|lia..].
Qed.

(** The byte at an instruction boundary. *)
Lemma padded_at pc : boundary c pc -> exists b, index (padded_code s) pc = Some b /\
  (index c pc = Some b \/ (pc = e /\ b = x00)).
Proof.
  intros Hpc. pose proof (boundary_nonneg _ _ Hpc). pose proof (boundary_le pc Hpc).
  destruct (index_some (padded_code s) pc) as [b Hb]; [rewrite blen_padded; lia|].
  exists b. split; [done|]. revert Hb. unfold index.
  rewrite !(proj2 (Z.leb_le 0 pc)) by lia. destruct Hs. rewrite an_padded0.
  destruct (Z.lt_ge_cases pc (blen c)).
  - rewrite lookup_app_l by (unfold blen in *; lia). by left.
  - rewrite lookup_app_r by (unfold blen in *; lia). intros Hb.
    apply lookup_replicate in Hb as [-> _]. right. split; [|done].
    destruct (Z.eq_dec pc e); [done|]. exfalso.
    eapply boundary_end; [exact Hpc|exact an_end0|lia..].
Qed.

(** A non-STOP instruction lies inside the code, and so does the next one or
    the padding. *)
Lemma padded_next pc b : boundary c pc -> index (padded_code s) pc = Some b ->
  byte_val b <> 0 ->
  boundary c (pc + op_width (byte_val b)) /\ pc + op_width (byte_val b) <= e.
Proof.
  intros Hpc Hb Hnz. destruct (padded_at pc Hpc) as (b' & Hb' & Hc).
  assert (b' = b) as -> by congruence. destruct Hc as [Hc|[_ ->]]; [|done].
  assert (boundary c (pc + op_width (byte_val b))) by by constructor.
  split; [done|]. by apply boundary_le.
Qed.

End analysis.
