(* ===== verification/StackSafety.v ===== *)
(** Stack discipline of the pure instructions: on a stack of words that is
    high enough, each returns a stack of words whose height changes as the
    instruction's property entry says. *)
From S2P Require Import Prelude Word Properties EvmState Arith MemoryOps.
From Stdlib Require Import ZArith Lia Strings.Byte.
From stdpp Require Import base list option numbers.
#[local] Open Scope Z_scope.

Definition words (s : Stack) : Prop := Forall word s.

(** [f] needs [req] items and changes the height by [chg]. *)
Definition stack_op (req chg : Z) (f : Stack -> option Stack) : Prop :=
  forall s, words s -> req <= Stack.len s -> Stack.len s + chg <= STACK_SIZE ->
    exists s', f s = Some s' /\ words s' /\ Stack.len s' = Stack.len s + chg.

Lemma words_snoc s v : words (s ++ [v]) <-> words s /\ word v.
Proof. unfold words. by rewrite Forall_app, Forall_singleton. Qed.

Lemma words_index s i v : words s -> index s i = Some v -> word v.
Proof. unfold index. intros Hw. case_match; [|done]. by apply Forall_lookup_1. Qed.

Lemma words_get s pos : words s -> 0 <= pos < Stack.len s ->
  exists v, Stack.get s pos = Some v /\ word v.
Proof.
  intros Hw Hp. rewrite Stack.get_spec by done.
  destruct (lookup_lt_is_Some_2 s (Z.to_nat (Stack.len s - 1 - pos))) as [v Hv].
  { unfold Stack.len, blen in *. lia. }
  exists v. split; [done|]. by eapply Forall_lookup_1.
Qed.

Lemma words_set s pos v : words s -> word v -> 0 <= pos < Stack.len s ->
  exists s', Stack.set s pos v = Some s' /\ words s' /\ Stack.len s' = Stack.len s.
Proof.
  intros Hw Hv Hp. unfold Stack.set, Stack.get_pos.
  rewrite unsigned_sub_some by lia. cbn. rewrite unsigned_sub_some by lia. cbn.
  rewrite (proj2 (Z.ltb_lt _ _)) by lia. eexists; split; [done|]. split.
  - by apply Forall_insert.
  - unfold Stack.len, blen. by rewrite length_insert.
Qed.

(** Take the top of the stack apart. *)
Ltac take_top s :=
  let b := fresh "b" in let v := fresh "v" in
  destruct (Stack.unsnoc s) as (b & v & ->);
  [ lia
  | rewrite ?Stack.len_snoc in *;
    match goal with H : words _ |- _ => apply words_snoc in H as [? ?] end ].

(** Evaluate pops, reads and writes of a known top. *)
Ltac stack_eval :=
  rewrite ?Stack.pop_snoc, ?Stack.get0_snoc, ?Stack.set0_snoc;
  cbn [mbind option_bind].

(** Close a goal about the final stack. *)
Ltac stack_done :=
  rewrite ?Stack.push_some by (rewrite ?Stack.len_snoc; lia);
  eexists; split; [reflexivity|];
  rewrite ?Stack.len_snoc; split;
  [ rewrite ?words_snoc; split; [done|] | lia ].

Lemma stack_op_binary f g :
  (forall a b, word a -> word b -> word (g a b)) ->
  (forall s a b, f (s ++ [b; a]) = Stack.push s (g a b)) -> stack_op 2 (-1) f.
Proof.
  intros Hg Hf s Hw Hr Hl. take_top s. take_top b.
  rewrite <- app_assoc. cbn [app]. rewrite Hf. stack_done. by apply Hg.
Qed.

Lemma stack_op_ternary f g :
  (forall a b c, word a -> word b -> word c -> word (g a b c)) ->
  (forall s a b c, word a -> word b -> word c ->
     f (s ++ [c; b; a]) = Stack.push s (g a b c)) -> stack_op 3 (-2) f.
Proof.
  intros Hg Hf s Hw Hr Hl. take_top s. take_top b. take_top b0.
  rewrite <- !app_assoc. cbn [app]. rewrite Hf by done. stack_done. by apply Hg.
Qed.

Lemma app_two {A} (s : list A) a b : s ++ [b; a] = (s ++ [b]) ++ [a].
Proof. by rewrite <- app_assoc. Qed.

Lemma app_three {A} (s : list A) a b c : s ++ [c; b; a] = ((s ++ [c]) ++ [b]) ++ [a].
Proof. by rewrite <- !app_assoc. Qed.

(** An operation that pops one item and rewrites the top is a binary one. *)
Lemma stack_op_rewrite f g :
  (forall a b, word a -> word b -> word (g a b)) ->
  (forall s a b, f (s ++ [b; a]) = Some (s ++ [g a b])) -> stack_op 2 (-1) f.
Proof.
  intros Hg Hf s Hw Hr Hl. take_top s. take_top b.
  rewrite <- app_assoc. cbn [app]. rewrite Hf. stack_done. by apply Hg.
Qed.

Lemma stack_op_top f g :
  (forall a, word a -> word (g a)) ->
  (forall s a, f (s ++ [a]) = Some (s ++ [g a])) -> stack_op 1 0 f.
Proof.
  intros Hg Hf s Hw Hr Hl. take_top s. rewrite Hf. stack_done. by apply Hg.
Qed.

Lemma of_bool_word b : word (boolean.of_bool b).
Proof. by destruct b. Qed.
#[export] Hint Resolve of_bool_word : martinez.

(** Unfold one instruction on a stack with a known top. *)
Tactic Notation "stack_unfold" reference(f) :=
  intros; rewrite ?app_two, ?app_three; unfold f; repeat stack_eval; reflexivity.

Lemma div_word a b : word a -> word b -> word (if b =? 0 then U256.ZERO else a / b).
Proof.
  intros Ha Hb. case_if; [done|]. unfold uint in *. split.
  - apply Z.div_pos; lia.
  - apply Z.div_lt_upper_bound; nia.
Qed.

Lemma mod_word a b : word b -> word (if b =? 0 then U256.ZERO else a mod b).
Proof.
  intros Hb. case_if; [done|]. unfold uint in *.
  pose proof (Z.mod_pos_bound a b). lia.
Qed.

Lemma shl_word v n : word (U256.shl v n).
Proof. apply wrap256_word. Qed.
Lemma overflowing_add_word a b : word (U256.overflowing_add a b).
Proof. apply wrap256_word. Qed.
Lemma overflowing_sub_word a b : word (U256.overflowing_sub a b).
Proof. apply wrap256_word. Qed.
Lemma overflowing_mul_word a b : word (U256.overflowing_mul a b).
Proof. apply wrap256_word. Qed.
#[export] Hint Resolve div_word mod_word shl_word overflowing_add_word
  overflowing_sub_word overflowing_mul_word : martinez.

Section ops.
Context `{I256Laws}.

Lemma i256_into_minus_word m : 0 <= m <= 2 ^ 255 -> word (i256_into (I256.Minus, m)).
Proof. intros. rewrite i256_into_spec by done. auto with martinez. Qed.

Lemma op_add : stack_op 2 (-1) arithmetic.add.
Proof. apply (stack_op_binary _ U256.overflowing_add); [auto with martinez|stack_unfold arithmetic.add]. Qed.
Lemma op_mul : stack_op 2 (-1) arithmetic.mul.
Proof. apply (stack_op_binary _ U256.overflowing_mul); [auto with martinez|stack_unfold arithmetic.mul]. Qed.
Lemma op_sub : stack_op 2 (-1) arithmetic.sub.
Proof. apply (stack_op_binary _ U256.overflowing_sub); [auto with martinez|stack_unfold arithmetic.sub]. Qed.
Lemma op_div : stack_op 2 (-1) arithmetic.div.
Proof.
  apply (stack_op_rewrite _ (fun a b => if b =? 0 then U256.ZERO else a / b));
    [auto with martinez|stack_unfold arithmetic.div].
Qed.
Lemma op_modulo : stack_op 2 (-1) arithmetic.modulo.
Proof.
  apply (stack_op_rewrite _ (fun a b => if b =? 0 then U256.ZERO else a mod b));
    [auto with martinez|stack_unfold arithmetic.modulo].
Qed.
Lemma op_sdiv : stack_op 2 (-1) arithmetic.sdiv.
Proof.
  apply (stack_op_binary _ (fun a b => i256_into (i256_div (i256_from a) (i256_from b))));
    [intros; by apply i256_div_word|stack_unfold arithmetic.sdiv].
Qed.
Lemma op_smod : stack_op 2 (-1) arithmetic.smod.
Proof.
  apply (stack_op_rewrite _ (fun a b =>
    if b =? 0 then U256.ZERO else i256_into (i256_rem (i256_from a) (i256_from b)))).
  - intros. case_if; [done|]. by apply i256_rem_word.
  - intros. rewrite app_two. unfold arithmetic.smod. repeat stack_eval.
    case_if; stack_eval; done.
Qed.

Lemma addmod_spec s a b c : word a -> word b -> word c ->
  arithmetic.addmod (s ++ [c; b; a])
  = Stack.push s (if c =? 0 then 0 else (a + b) mod c).
Proof.
  unfold uint. intros Ha Hb Hc. rewrite app_three. unfold arithmetic.addmod.
  repeat stack_eval. case_if; [done|].
  rewrite checked_some by lia. cbn. unfold u256_checked.
  pose proof (Z.mod_pos_bound (a + b) c). by rewrite checked_some by lia.
Qed.

Lemma mulmod_spec s a b c : word a -> word b -> word c ->
  arithmetic.mulmod (s ++ [c; b; a])
  = Stack.push s (if c =? 0 then 0 else (a * b) mod c).
Proof.
  unfold uint. intros Ha Hb Hc. rewrite app_three. unfold arithmetic.mulmod.
  repeat stack_eval. case_if; [done|].
  assert (0 <= a * b <= (2 ^ 256 - 1) * (2 ^ 256 - 1)) by nia.
  rewrite checked_some by lia. cbn. unfold u256_checked.
  pose proof (Z.mod_pos_bound (a * b) c). by rewrite checked_some by lia.
Qed.

Lemma op_addmod : stack_op 3 (-2) arithmetic.addmod.
Proof.
  eapply stack_op_ternary; [|intros; by apply addmod_spec].
  intros. simpl. by apply mod_word.
Qed.
Lemma op_mulmod : stack_op 3 (-2) arithmetic.mulmod.
Proof.
  eapply stack_op_ternary; [|intros; by apply mulmod_spec].
  intros. simpl. by apply mod_word.
Qed.

Lemma op_lt : stack_op 2 (-1) boolean.lt.
Proof. eapply (stack_op_rewrite _ (fun a b => boolean.of_bool (a <? b))); [|stack_unfold boolean.lt]; auto with martinez. Qed.
Lemma op_gt : stack_op 2 (-1) boolean.gt.
Proof. eapply (stack_op_rewrite _ (fun a b => boolean.of_bool (b <? a))); [|stack_unfold boolean.gt]; auto with martinez. Qed.
Lemma op_slt : stack_op 2 (-1) boolean.slt.
Proof. eapply (stack_op_binary _ (fun a b => boolean.of_bool (i256_lt (i256_from a) (i256_from b)))); [|stack_unfold boolean.slt]; auto with martinez. Qed.
Lemma op_sgt : stack_op 2 (-1) boolean.sgt.
Proof. eapply (stack_op_binary _ (fun a b => boolean.of_bool (i256_gt (i256_from a) (i256_from b)))); [|stack_unfold boolean.sgt]; auto with martinez. Qed.
Lemma op_eq : stack_op 2 (-1) boolean.eq.
Proof. eapply (stack_op_rewrite _ (fun a b => boolean.of_bool (a =? b))); [|stack_unfold boolean.eq]; auto with martinez. Qed.
Lemma op_iszero : stack_op 1 0 boolean.iszero.
Proof. eapply (stack_op_top _ (fun a => boolean.of_bool (a =? 0))); [|stack_unfold boolean.iszero]; auto with martinez. Qed.
Lemma op_and : stack_op 2 (-1) boolean.and.
Proof. eapply (stack_op_rewrite _ Z.land); [|stack_unfold boolean.and]; auto with martinez. Qed.
Lemma op_or : stack_op 2 (-1) boolean.or.
Proof. eapply (stack_op_rewrite _ Z.lor); [|stack_unfold boolean.or]; auto with martinez. Qed.
Lemma op_xor : stack_op 2 (-1) boolean.xor.
Proof. eapply (stack_op_rewrite _ Z.lxor); [|stack_unfold boolean.xor]; auto with martinez. Qed.
Lemma op_not : stack_op 1 0 boolean.not.
Proof. eapply (stack_op_top _ U256.not); [|stack_unfold boolean.not]; auto with martinez. Qed.

Lemma op_shl : stack_op 2 (-1) bitwise.shl.
Proof.
  eapply (stack_op_rewrite _ (fun n v =>
    if (v =? 0) || (256 <=? n) then U256.ZERO else U256.shl v (U256.as_u8 n)));
    [|stack_unfold bitwise.shl].
  intros. simpl. case_if; [done|]. auto with martinez.
Qed.
Lemma op_shr : stack_op 2 (-1) bitwise.shr.
Proof.
  eapply (stack_op_rewrite _ (fun n v =>
    if (v =? 0) || (256 <=? n) then U256.ZERO else U256.shr v (U256.as_u8 n)));
    [|stack_unfold bitwise.shr].
  intros. simpl. case_if; [done|]. apply U256.shr_word; [done|].
  apply (wrap_uint 8); lia.
Qed.

Lemma byte_fold_word a b l : word (foldl (bitwise.byte_step a b) U256.ZERO l).
Proof.
  induction l as [|i l IH] using rev_ind; [done|].
  rewrite foldl_app. simpl. unfold bitwise.byte_step at 1. case_if; [|done].
  auto with martinez.
Qed.
Lemma op_byte : stack_op 2 (-1) bitwise.byte.
Proof.
  eapply (stack_op_binary _ (fun a b => foldl (bitwise.byte_step a b) U256.ZERO (seqZ 0 256)));
    [|stack_unfold bitwise.byte].
  intros. apply byte_fold_word.
Qed.

End ops.

(** ** Pushing, duplicating and swapping *)

Lemma words_push s v : words s -> word v -> Stack.len s < STACK_SIZE ->
  exists s', Stack.push s v = Some s' /\ words s' /\ Stack.len s' = Stack.len s + 1.
Proof.
  intros Hw Hv Hl. rewrite Stack.push_some by done. eexists; split; [done|].
  rewrite Stack.len_snoc, words_snoc. done.
Qed.

Lemma op_push1 b : stack_op 0 1 (stack_manip.push1 b).
Proof.
  intros s Hw Hr Hl. apply words_push; [done| |lia].
  pose proof (byte_val_range b). apply (uint_mono 8); [lia|done].
Qed.

(** [push::<LEN>] on [LEN] available bytes. *)
Lemma push_spec LEN code s : 0 <= LEN <= 32 -> LEN <= blen code -> words s ->
  Stack.len s < STACK_SIZE ->
  exists s', stack_manip.push LEN code s = Some (LEN, s') /\ words s' /\
    Stack.len s' = Stack.len s + 1.
Proof.
  intros HL Hc Hw Hl. unfold stack_manip.push.
  destruct (slice_some code 0 LEN) as (bs & -> & Hbs); [lia..|]. cbn.
  assert (length bs <= 32)%nat by (unfold blen in Hbs; lia).
  rewrite u256_from_slice_spec by done. cbn.
  destruct (words_push s (be_val bs)) as (s' & -> & ? & ?); eauto using be_val_word.
Qed.

Lemma op_push32 code : 32 <= blen code -> stack_op 0 1 (stack_manip.push32 code).
Proof.
  intros Hc s Hw Hr Hl. unfold stack_manip.push32.
  destruct (slice_some code 0 32) as (bs & -> & Hbs); [lia..|]. cbn.
  assert (length bs = 32)%nat as Hlen by (unfold blen in Hbs; lia).
  unfold U256.from_be_bytes. rewrite Hlen. cbn.
  apply words_push; [done|apply be_val_word; lia|lia].
Qed.

Lemma op_dup h : 1 <= h <= 16 -> stack_op h 1 (stack_manip.dup h).
Proof.
  intros Hh s Hw Hr Hl. unfold stack_manip.dup.
  destruct (words_get s (h - 1)) as (v & -> & Hv); [done|lia|]. cbn.
  apply words_push; [done|done|lia].
Qed.

Lemma op_swap h : 1 <= h <= 16 -> stack_op (h + 1) 0 (stack_manip.swap h).
Proof.
  intros Hh s Hw Hr Hl. unfold stack_manip.swap, Stack.swap_top, Stack.get_pos.
  rewrite unsigned_sub_some by lia. cbn. rewrite unsigned_sub_some by lia. cbn.
  destruct (index_some s (Stack.len s - 1)) as [a Ha]; [unfold Stack.len in *; lia|].
  destruct (index_some s (Stack.len s - 1 - h)) as [b Hb]; [unfold Stack.len in *; lia|].
  rewrite Ha, Hb. cbn. eexists; split; [done|]. split.
  - apply Forall_insert; [apply Forall_insert; [done|]|].
    + by eapply words_index.
    + by eapply words_index.
  - unfold Stack.len, blen. rewrite !length_insert. lia.
Qed.

Lemma op_pop : stack_op 1 (-1) stack_manip.pop.
Proof.
  intros s Hw Hr Hl. take_top s. unfold stack_manip.pop. stack_eval.
  eexists; split; [done|]. split; [done|lia].
Qed.

Lemma op_codesize code : blen code <= i64_max -> stack_op 0 1 (memory.codesize code).
Proof.
  intros Hc s Hw Hr Hl. apply words_push; [done| |lia].
  pose proof (blen_nonneg code). unfold uint, i64_max in *. lia.
Qed.
