(* ===== verification/Wp.v ===== *)
(** A weakest-precondition calculus for the instructions of a frame.

    The rules describe a state by bounds only: the height of the stack, a lower
    and an upper bound of the gas left and a lower bound of the memory size.
    Together with the well-formedness of the state and the host's invariant
    they are kept by every instruction. *)
From S2P Require Import Prelude Word Properties EvmState Host Arith MemoryOps External StackSafety.
From Stdlib Require Import ZArith Lia Strings.Byte.
From stdpp Require Import base list option numbers.
#[local] Open Scope Z_scope.

(** Largest memory: two operands of [MAX_BUFFER_SIZE], in whole words. *)
Definition max_memory : Z := 2 ^ 33.

Section wp.
Context {W : Type} (I : bool -> Z -> W -> Prop) (msg : InterpreterMessage).

(** The host's invariant, for the frame of [msg]. *)
Definition inv (w : W) : Prop := I (is_static msg) (depth msg) w.

(** The world [w] keeps the invariant, the stack has [n] words, the gas left is
    between [lo] and [hi], and the memory has at least [ml] bytes. *)
Record ok (n lo hi ml : Z) (es : ExecutionState) (w : W) : Prop := {
  ok_inv : inv w;
  ok_message : es_message es = msg;
  ok_words : words (es_stack es);
  ok_height : Stack.len (es_stack es) = n;
  ok_bound : n <= STACK_SIZE;
  ok_lo : 0 <= lo <= es_gas_left es;
  ok_hi : es_gas_left es <= hi <= i64_max;
  ok_memory : 0 <= ml <= blen (es_memory es);
  ok_memory_max : blen (es_memory es) <= max_memory;
  ok_memory_words : blen (es_memory es) mod 32 = 0;
  ok_return_data : bytes_ok (es_return_data es);
  ok_output_data : bytes_ok (es_output_data es);
}.

(** No fault; a normal return satisfies [Q], an error keeps the invariant. *)
Definition wp {A} (m : M W A) (Q : A -> ExecutionState -> W -> Prop)
    (es : ExecutionState) (w : W) : Prop :=
  match m es w with
  | ROk a es' w' => Q a es' w'
  | RErr _ w' => inv w'
  | RFault | ROutOfFuel => False
  end.

Lemma wp_mono {A} (m : M W A) (Q Q' : A -> ExecutionState -> W -> Prop) es w :
  wp m Q es w -> (forall a es' w', Q a es' w' -> Q' a es' w') -> wp m Q' es w.
Proof. unfold wp. destruct (m es w); auto. Qed.

Lemma wp_ret {A} (a : A) Q es w : Q a es w -> wp (mret a) Q es w.
Proof. done. Qed.

Lemma wp_bind {A B} (m : M W A) (k : A -> M W B) Q es w :
  wp m (fun a es' w' => wp (k a) Q es' w') es w -> wp (m ≫= k) Q es w.
Proof. unfold wp, mbind, M_bind. by destruct (m es w). Qed.

Lemma wp_throw {A} c (Q : A -> ExecutionState -> W -> Prop) n lo hi ml es w :
  ok n lo hi ml es w -> wp (throw c) Q es w.
Proof. intros []. done. Qed.

Lemma wp_lift {A} (o : option A) a Q es w :
  o = Some a -> Q a es w -> wp (lift o) Q es w.
Proof. by intros ->. Qed.

Lemma wp_gets {A} (f : ExecutionState -> A) Q es w :
  Q (f es) es w -> wp (gets f) Q es w.
Proof. done. Qed.

Lemma wp_if {A} (b : bool) (m1 m2 : M W A) Q es w :
  (b = true -> wp m1 Q es w) -> (b = false -> wp m2 Q es w) ->
  wp (if b then m1 else m2) Q es w.
Proof. destruct b; auto. Qed.

Lemma wp_message Q n lo hi ml es w :
  ok n lo hi ml es w -> Q msg es w -> wp (gets es_message) Q es w.
Proof. intros [] ?. unfold wp, gets. by rewrite ok_message0. Qed.

Lemma ok_weaken n lo hi ml lo' hi' ml' es w :
  ok n lo hi ml es w -> 0 <= lo' <= lo -> hi <= hi' <= i64_max -> 0 <= ml' <= ml ->
  ok n lo' hi' ml' es w.
Proof. intros [] ? ? ?. split; try done; lia. Qed.

(** ** Stack *)

Lemma ok_with_stack n lo hi ml es w s :
  ok n lo hi ml es w -> words s -> Stack.len s <= STACK_SIZE ->
  ok (Stack.len s) lo hi ml (with_stack es s) w.
Proof. intros [] ? ?. by split. Qed.

Lemma wp_pop n lo hi ml Q es w :
  ok n lo hi ml es w -> 0 < n ->
  (forall v es', word v -> ok (n - 1) lo hi ml es' w -> Q v es' w) ->
  wp stack_pop Q es w.
Proof.
  intros Hok Hn HQ. unfold wp, stack_pop. pose proof Hok as [].
  destruct (Stack.unsnoc (es_stack es)) as (b & v & Hs); [lia|].
  rewrite Hs in *. rewrite Stack.pop_snoc. apply words_snoc in ok_words0 as [Hw Hv].
  rewrite Stack.len_snoc in *. apply HQ; [done|].
  replace (n - 1) with (Stack.len b) by lia. apply (ok_with_stack n); [done..|lia].
Qed.

Lemma wp_on_stack req chg f n lo hi ml Q es w :
  stack_op req chg f -> ok n lo hi ml es w -> req <= n -> n + chg <= STACK_SIZE ->
  (forall es', ok (n + chg) lo hi ml es' w -> Q () es' w) ->
  wp (on_stack f) Q es w.
Proof.
  intros Hf Hok Hr Hl HQ. pose proof Hok as [].
  destruct (Hf (es_stack es)) as (s' & Hs & Hw & Hh); [done|lia..|].
  unfold wp, on_stack. rewrite Hs. apply HQ.
  replace (n + chg) with (Stack.len s') by lia. apply (ok_with_stack n); [done..|lia].
Qed.

Lemma stack_op_push v : word v -> stack_op 0 1 (fun s => Stack.push s v).
Proof. intros Hv s Hw _ Hl. apply words_push; [done|done|lia]. Qed.

Lemma wp_push v n lo hi ml Q es w :
  ok n lo hi ml es w -> word v -> n < STACK_SIZE ->
  (forall es', ok (n + 1) lo hi ml es' w -> Q () es' w) ->
  wp (stack_push v) Q es w.
Proof.
  intros Hok Hv Hn HQ. pose proof Hok as [].
  eapply wp_on_stack; [by apply stack_op_push|done| |lia|done].
  unfold Stack.len, blen in *. lia.
Qed.

Lemma wp_stack_get pos n lo hi ml Q es w :
  ok n lo hi ml es w -> 0 <= pos < n -> (forall v, word v -> Q v es w) ->
  wp (stack_get pos) Q es w.
Proof.
  intros Hok Hp HQ. pose proof Hok as []. apply wp_bind, wp_gets.
  destruct (words_get (es_stack es) pos) as (v & Hv & ?); [done|lia|].
  eapply wp_lift; [done|]. by apply HQ.
Qed.

Lemma wp_stack_set pos v n lo hi ml Q es w :
  ok n lo hi ml es w -> word v -> 0 <= pos < n ->
  (forall es', ok n lo hi ml es' w -> Q () es' w) -> wp (stack_set pos v) Q es w.
Proof.
  intros Hok Hv Hp HQ. pose proof Hok as []. unfold wp, stack_set, on_stack.
  destruct (words_set (es_stack es) pos v) as (s' & -> & ? & Hl); [done..|lia|].
  apply HQ. replace n with (Stack.len s') by lia. apply (ok_with_stack n); [done..|lia].
Qed.

(** ** Gas *)

Lemma wp_gas_add d n lo hi ml Q es w :
  ok n lo hi ml es w -> 0 <= lo + d -> hi + d <= i64_max ->
  (forall es', ok n (lo + d) (hi + d) ml es' w -> Q () es' w) ->
  wp (gas_add d) Q es w.
Proof.
  intros Hok Hlo Hhi HQ. pose proof Hok as [].
  apply wp_bind, wp_gets, wp_bind. eapply wp_lift.
  { apply checked_some. unfold i64_max in *. lia. }
  apply HQ. split; simpl; try done; lia.
Qed.

Lemma wp_charge c n lo hi ml Q es w :
  ok n lo hi ml es w -> 0 <= c <= 2 ^ 63 ->
  (forall es', ok n 0 (hi - c) ml es' w -> Q () es' w) ->
  wp (charge c) Q es w.
Proof.
  intros Hok Hc HQ. pose proof Hok as [].
  unfold charge, gas_add. apply wp_bind, wp_bind, wp_gets, wp_bind. eapply wp_lift.
  { apply checked_some. unfold i64_max in *. lia. }
  apply wp_bind, wp_gets. apply wp_if; intros Hg; zb; simpl in Hg.
  - done.
  - apply HQ. split; simpl; try done; lia.
Qed.

(** ** Host methods *)

Lemma wp_host {A} (f : W -> option (A * W)) P n lo hi ml Q es w :
  ok n lo hi ml es w -> method_ok (I (is_static msg) (depth msg)) P f ->
  (forall a w', P a -> ok n lo hi ml es w' -> Q a es w') -> wp (host f) Q es w.
Proof.
  intros Hok Hf HQ. pose proof Hok as [].
  destruct (Hf w) as (a & w' & Hw & Hi & Hp); [done|].
  unfold wp, host. rewrite Hw. apply HQ; [done|]. by split.
Qed.

(** ** Memory *)

Definition region_in (ml : Z) (r : memory.MemoryRegion) : Prop :=
  0 <= memory.offset r /\ 0 < memory.size r <= u32_max /\
  memory.offset r + memory.size r <= ml.

Lemma num_words_spec n : 0 <= n -> memory.num_words n = (n + 31) / 32.
Proof.
  intros. unfold memory.num_words, memory.WORD_SIZE.
  rewrite Z.quot_div_nonneg by lia. done.
Qed.

Lemma num_words_range n : 0 <= n <= u32_max -> 0 <= memory.num_words n <= 2 ^ 28.
Proof.
  unfold u32_max. intros. rewrite num_words_spec by lia. split.
  - apply Z.div_pos; lia.
  - apply Z.div_le_upper_bound; lia.
Qed.

(** The cost of [n] memory words. *)
Definition memory_cost (n : Z) : Z := 3 * n + Z.quot (n * n) 512.

Lemma memory_cost_mono a b : 0 <= a <= b -> memory_cost a <= memory_cost b.
Proof.
  intros. unfold memory_cost. rewrite !Z.quot_div_nonneg by nia.
  assert (a * a / 512 <= b * b / 512) by (apply Z.div_le_mono; nia). lia.
Qed.

Lemma memory_cost_range n : 0 <= n <= 2 ^ 28 -> 0 <= memory_cost n <= 2 ^ 48.
Proof.
  intros. unfold memory_cost. rewrite Z.quot_div_nonneg by nia.
  assert (0 <= n * n / 512) by (apply Z.div_pos; nia).
  assert (n * n / 512 <= 2 ^ 47) by (apply Z.div_le_upper_bound; nia). lia.
Qed.

Lemma wp_grow_memory new_size n lo hi ml Q es w :
  ok n lo hi ml es w -> blen (es_memory es) < new_size <= max_memory - 2 ->
  (forall es', ok n 0 hi new_size es' w -> Q true es' w) ->
  (forall es', Q false es' w) ->
  wp (memory.grow_memory new_size) Q es w.
Proof.
  intros Hok Hs HT HF. pose proof Hok as [].
  pose proof (blen_nonneg (es_memory es)) as Hm.
  set (nw := memory.num_words new_size). set (cw := blen (es_memory es) / 32).
  assert (nw = (new_size + 31) / 32) as Hnw by (apply num_words_spec; lia).
  assert (cw <= nw) by (rewrite Hnw; apply Z.div_le_mono; lia).
  assert (0 <= cw) by (apply Z.div_pos; lia).
  assert (nw < 2 ^ 28 + 1)
    by (rewrite Hnw; apply Z.div_lt_upper_bound; unfold max_memory in *; lia).
  assert (new_size <= nw * 32)
    by (rewrite Hnw; pose proof (Z.div_mod (new_size + 31) 32);
        pose proof (Z.mod_pos_bound (new_size + 31) 32); lia).
  pose proof (memory_cost_mono cw nw). pose proof (memory_cost_range nw).
  pose proof (memory_cost_range cw).
  unfold memory.grow_memory. fold nw.
  apply wp_bind, wp_gets. fold cw.
  do 5 (apply wp_bind; eapply wp_lift;
    [apply checked_some; fold (memory_cost nw) (memory_cost cw); unfold i64_max; nia|]).
  unfold gas_add. apply wp_bind, wp_bind, wp_gets, wp_bind.
  fold (memory_cost nw) (memory_cost cw).
  eapply wp_lift; [apply checked_some; unfold i64_max in *; lia|].
  apply wp_bind, wp_gets. apply wp_if; intros Hg; zb; simpl in Hg; [apply HF|].
  apply HT. split; simpl; try done; try lia.
  all: unfold Memory.grow; rewrite blen_resize by (unfold memory.WORD_SIZE; lia).
  all: unfold memory.WORD_SIZE, max_memory in *; try lia.
  apply Z.mod_mul. lia.
Qed.

Lemma wp_region_u64 off size n lo hi ml Q es w :
  ok n lo hi ml es w -> 0 <= off -> 0 < size <= u32_max ->
  (forall r es' ml', ok n 0 hi ml' es' w -> ml <= ml' -> region_in ml' r ->
     memory.offset r = off -> memory.size r = size -> Q r es' w) ->
  wp (memory.get_memory_region_u64 off size ≫= or_out_of_gas) Q es w.
Proof.
  intros Hok Ho Hs HQ. pose proof Hok as []. apply wp_bind.
  unfold memory.get_memory_region_u64, memory.MAX_BUFFER_SIZE.
  apply wp_if; intros Hb; zb; [by apply wp_ret; eapply wp_throw|].
  unfold u32_max in *.
  rewrite U256.as_usize_small by (unfold uint; lia).
  apply wp_bind. eapply wp_lift.
  { apply checked_some. unfold u64_max. lia. }
  apply wp_bind, wp_gets, wp_bind. apply wp_if; intros Hg; zb.
  - eapply wp_grow_memory; [done|unfold max_memory; lia| |done].
    intros es' Hes. eapply (HQ _ _ (Z.max ml (off + size))).
    + pose proof Hes as []. by split; try done; lia.
    + lia.
    + unfold region_in, u32_max; simpl; lia.
    + done.
    + done.
  - apply wp_ret, wp_ret, wp_ret. apply (HQ _ _ (Z.max ml (off + size))); try done.
    + by split; try done; lia.
    + lia.
    + unfold region_in, u32_max; simpl; lia.
Qed.

(** A region of [None] stands for an operand of size zero. *)
Definition opt_region_in (ml off size : Z) (r : option memory.MemoryRegion) : Prop :=
  match r with
  | Some r => region_in ml r /\ memory.offset r = off /\ memory.size r = size
  | None => size = 0
  end.

Lemma wp_region off size n lo hi ml Q es w :
  ok n lo hi ml es w -> word off -> word size ->
  (forall r es' ml', ok n 0 hi ml' es' w -> ml <= ml' ->
     opt_region_in ml' off size r -> Q r es' w) ->
  wp (memory.get_memory_region off size ≫= or_out_of_gas) Q es w.
Proof.
  intros Hok Ho Hs HQ. apply wp_bind. unfold memory.get_memory_region.
  apply wp_if; intros Hz; zb.
  { apply wp_ret, wp_ret. apply (HQ _ _ ml); [|lia|by subst].
    pose proof Hok as []. by eapply ok_weaken; [done|lia..]. }
  unfold memory.MAX_BUFFER_SIZE.
  apply wp_if; intros Hb; zb; [by apply wp_ret; eapply wp_throw|].
  unfold uint in *. apply wp_bind.
  rewrite U256.as_usize_small by (unfold uint, u32_max in *; lia).
  assert (wp (memory.get_memory_region_u64 off size ≫= or_out_of_gas)
            (fun r => Q (Some r)) es w) as Hwp.
  { eapply wp_region_u64; [done|lia|lia|]. intros r es' ml' ? ? ? ? ?.
    eapply HQ; [done|done|]. by simpl. }
  unfold wp, mbind, M_bind in *. destruct (memory.get_memory_region_u64 off size es w)
    as [[r|] es' w'| | |]; simpl in *; done.
Qed.

Lemma wp_read_region r n lo hi ml Q es w :
  ok n lo hi ml es w -> region_in ml r ->
  (forall bs, blen bs = memory.size r -> Q bs es w) ->
  wp (memory.read_region r) Q es w.
Proof.
  intros Hok (? & ? & ?) HQ. pose proof Hok as []. apply wp_bind, wp_gets.
  destruct (slice_some (es_memory es) (memory.offset r) (memory.size r))
    as (bs & Hbs & Hl); [lia..|].
  eapply wp_lift; [done|]. by apply HQ.
Qed.

Lemma wp_write_memory off src n lo hi ml Q es w :
  ok n lo hi ml es w -> 0 <= off -> off + blen src <= ml ->
  (forall es', ok n lo hi ml es' w -> Q () es' w) ->
  wp (memory.write_memory off src) Q es w.
Proof.
  intros Hok Ho Hs HQ. pose proof Hok as []. apply wp_bind, wp_gets, wp_bind.
  destruct (splice_some (es_memory es) off src) as (m' & Hm & Hl); [lia..|].
  eapply wp_lift; [done|]. apply HQ. split; simpl; rewrite ?Hl; done.
Qed.

Lemma wp_fill0 off k n lo hi ml Q es w :
  ok n lo hi ml es w -> 0 <= off -> 0 <= k -> off + k <= ml ->
  (forall es', ok n lo hi ml es' w -> Q () es' w) ->
  wp (memory.fill0 off k) Q es w.
Proof.
  intros. eapply wp_write_memory; eauto. rewrite blen_replicate; lia.
Qed.

Lemma wp_copy_padded r src n lo hi ml Q es w :
  ok n lo hi ml es w -> region_in ml r -> blen src <= memory.size r ->
  (forall es', ok n lo hi ml es' w -> Q () es' w) ->
  wp (memory.copy_padded r src) Q es w.
Proof.
  intros Hok (? & ? & ?) Hs HQ. pose proof (blen_nonneg src). apply wp_bind.
  assert (forall es', ok n lo hi ml es' w ->
    wp (if blen src <? memory.size r
        then memory.fill0 (memory.offset r + blen src) (memory.size r - blen src)
        else mret ()) Q es' w) as Hrest.
  { intros es' Hes. apply wp_if; intros Hb; zb; [|by apply wp_ret, HQ].
    eapply wp_fill0; [done|lia..|done]. }
  apply wp_if; intros Hb; zb; [|by apply wp_ret, Hrest].
  eapply wp_write_memory; [done|lia..|done].
Qed.

End wp.
