(* ===== verification/InstrSpec.v ===== *)
(** Functional behaviour of the instructions whose code is not a one-line formula: EXP,
    SIGNEXTEND, BYTE, SAR, SHL, SHR, and the memory (src/execution/evm/instructions):
    what an expansion costs and yields, and the round trip of [MSTORE] and [MLOAD]. *)
From S2P Require Import Prelude Word Properties EvmState Arith Host MemoryOps StackSafety Wp.
From Stdlib Require Import ZArith Zpow_facts Lia Strings.Byte.
From stdpp Require Import base list option numbers.
#[local] Open Scope Z_scope.

(** ** EXP *)

Lemma wrap_mul_wrap a b : wrap 256 (wrap 256 a * wrap 256 b) = wrap 256 (a * b).
Proof. unfold wrap. by rewrite <- Z.mul_mod. Qed.

Lemma land_1 p : Z.land p 1 = p mod 2.
Proof. change 1 with (Z.ones 1). by rewrite Z.land_ones. Qed.

(** Square-and-multiply, with the loop invariant [v * base ^ power]. *)
Lemma exp_loop_spec fuel v base power :
  0 <= power < 2 ^ Z.of_nat fuel -> word v ->
  arithmetic.exp_loop fuel v base power = Some (wrap 256 (v * base ^ power)).
Proof.
  revert v base power. induction fuel as [|fuel IH]; intros v base power Hp Hv.
  - assert (power = 0) as -> by (change (2 ^ Z.of_nat 0) with 1 in Hp; lia). simpl.
    by rewrite Z.mul_1_r, wrap_small.
  - cbn [arithmetic.exp_loop]. destruct (Z.leb_spec power 0) as [H0|H0].
    { assert (power = 0) as -> by lia. by rewrite Z.mul_1_r, wrap_small. }
    unfold U256.shr. rewrite Z.shiftr_div_pow2 by lia. change (2 ^ 1) with 2.
    rewrite Nat2Z.inj_succ, Z.pow_succ_r in Hp by lia.
    rewrite IH.
    2: { split; [apply Z.div_pos; lia|]. apply Z.div_lt_upper_bound; lia. }
    2: { case_if; auto with martinez. }
    f_equal. unfold U256.overflowing_mul. rewrite land_1.
    pose proof (Z.div_mod power 2 ltac:(lia)) as Hd.
    pose proof (Z.mod_pos_bound power 2 ltac:(lia)).
    assert (forall x y z, wrap 256 (x * wrap 256 y ^ z) = wrap 256 (x * y ^ z)) as Hpow.
    { intros x y z. unfold wrap. rewrite Z.mul_mod, Zpower_mod by lia.
      rewrite Z.mod_mod by lia. rewrite <- Zpower_mod by lia.
      by rewrite <- Z.mul_mod by lia. }
    rewrite Hpow, <- Z.pow_2_r, <- Z.pow_mul_r by (try apply Z.div_pos; lia).
    case_if.
    + by replace (2 * (power / 2)) with power by lia.
    + rewrite Hd at 2. replace (power mod 2) with 1 by lia.
      rewrite Z.pow_add_r, Z.pow_1_r by (try apply Z.mul_nonneg_nonneg; try apply Z.div_pos; lia).
      unfold wrap. rewrite Z.mul_mod, Z.mod_mod by lia.
      rewrite <- Z.mul_mod by lia. f_equal. ring.
Qed.

Lemma high_low b : b = U256.high b * 2 ^ 128 + U256.low b.
Proof.
  unfold U256.high, U256.low, wrap. rewrite Z.shiftr_div_pow2 by lia.
  pose proof (Z.div_mod b (2 ^ 128)). lia.
Qed.

Lemma log2floor_spec p : 0 < p < 2 ^ 256 -> arithmetic.log2floor p = Z.log2 p.
Proof.
  intros Hp. unfold arithmetic.log2floor. cbn [arithmetic.log2floor_loop].
  unfold arithmetic.leading_zeros128.
  pose proof (high_low p) as Hhl.
  assert (0 <= U256.low p < 2 ^ 128) by (apply Z.mod_pos_bound; lia).
  assert (0 <= U256.high p < 2 ^ 128).
  { unfold U256.high. rewrite Z.shiftr_div_pow2 by lia. split.
    - apply Z.div_pos; lia.
    - apply Z.div_lt_upper_bound; lia. }
  pose proof (Z.log2_nonneg (U256.high p)).
  pose proof (Z.log2_nonneg (U256.low p)).
  destruct (Z.eqb_spec (U256.high p) 0) as [Hz|Hz].
  - assert (p = U256.low p) as Hl by lia. rewrite <- Hl in *.
    rewrite (proj2 (Z.eqb_neq p 0)) by lia.
    rewrite (proj2 (Z.eqb_neq _ 0)) by lia. lia.
  - rewrite (proj2 (Z.eqb_neq (256 - (127 - _)) 0)) by lia.
    assert (Z.log2 p = Z.log2 (U256.high p) + 128); [|lia].
    unfold U256.high. rewrite Z.log2_shiftr by lia.
    assert (128 <= Z.log2 p); [|lia].
    apply Z.log2_le_pow2; nia.
Qed.

Lemma log2floor_range p : 0 < p < 2 ^ 256 -> 0 <= arithmetic.log2floor p <= 255.
Proof.
  intros Hp. rewrite log2floor_spec by done. split; [apply Z.log2_nonneg|].
  assert (Z.log2 p < 256) by (apply Z.log2_lt_pow2; lia). lia.
Qed.

(** ** SAR *)

Lemma shiftr_neg m n : 0 < m -> 0 <= n -> Z.shiftr (- m) n = - (Z.shiftr (m - 1) n + 1).
Proof.
  intros Hm Hn. rewrite !Z.shiftr_div_pow2 by done.
  pose proof (Z.pow_pos_nonneg 2 n ltac:(lia) Hn).
  symmetry. apply Z.div_unique with (r := 2 ^ n - 1 - (m - 1) mod 2 ^ n).
  - pose proof (Z.mod_pos_bound (m - 1) (2 ^ n)). lia.
  - pose proof (Z.div_mod (m - 1) (2 ^ n)). lia.
Qed.

Lemma shiftr_large v n : - 2 ^ 255 <= v < 2 ^ 255 -> 256 <= n ->
  Z.shiftr v n = if v <? 0 then -1 else 0.
Proof.
  intros Hv Hn. rewrite Z.shiftr_div_pow2 by lia.
  assert (2 ^ 256 <= 2 ^ n) by (apply Z.pow_le_mono_r; lia).
  case_if; symmetry.
  - apply Z.div_unique with (r := v + 2 ^ n); lia.
  - apply Z.div_unique with (r := v); lia.
Qed.

Section sar.
Context `{I256Laws}.

Lemma sar_stack_spec s shift v : word shift -> word v ->
  bitwise.sar (s ++ [v; shift])
  = Stack.push s (wrap 256 (Z.shiftr (to_signed v) shift)).
Proof.
  intros Hs Hv. rewrite app_two. unfold bitwise.sar. repeat stack_eval. f_equal.
  rewrite i256_from_spec by done. pose proof (to_signed_range v Hv) as Hr.
  set (z := to_signed v) in *. unfold I256.of_val, I256.zero.
  destruct (Z.compare_spec z 0) as [Hz|Hz|Hz]; cbn [fst snd].
  - rewrite Hz, bool_decide_eq_true_2 by done. cbn [orb]. by rewrite Z.shiftr_0_l.
  - rewrite bool_decide_eq_false_2 by congruence. cbn [orb].
    assert (0 <= shift) by apply Hs.
    destruct (Z.leb_spec 256 shift) as [Hl|Hl].
    + rewrite i256_into_spec by (simpl; unfold U256.ONE; lia).
      rewrite shiftr_large by lia.
      by rewrite (proj2 (Z.ltb_lt _ _)).
    + rewrite U256.as_u8_small by (unfold uint; lia).
      rewrite Z.abs_neq by lia. unfold U256.overflowing_sub, U256.ONE, U256.shr.
      rewrite wrap_small by (unfold uint; lia).
      assert (0 <= Z.shiftr (- z - 1) shift < 2 ^ 255).
      { rewrite Z.shiftr_div_pow2 by lia. split; [apply Z.div_pos; lia|].
        apply Z.div_lt_upper_bound; [lia|].
        pose proof (Z.pow_pos_nonneg 2 shift ltac:(lia) ltac:(lia)). nia. }
      unfold U256.overflowing_add. rewrite wrap_small by (unfold uint; lia).
      rewrite i256_into_spec by (cbn [snd]; lia). f_equal. cbn [I256.val].
      rewrite <- (Z.opp_involutive z) at 2. rewrite shiftr_neg by lia. done.
  - rewrite bool_decide_eq_false_2 by congruence. cbn [orb].
    assert (0 <= shift) by apply Hs.
    destruct (Z.leb_spec 256 shift) as [Hl|Hl].
    + rewrite shiftr_large by lia. by rewrite (proj2 (Z.ltb_ge _ _)) by lia.
    + rewrite U256.as_u8_small by (unfold uint; lia).
      rewrite Z.abs_eq by lia. symmetry. apply wrap_small.
      apply (U256.shr_word z shift); [unfold uint; lia|lia].
Qed.

Lemma op_sar : stack_op 2 (-1) bitwise.sar.
Proof.
  intros s Hw Hr Hl. take_top s. take_top b. rewrite <- app_two.
  rewrite sar_stack_spec by done. stack_done. auto with martinez.
Qed.

End sar.

(** ** SIGNEXTEND *)

(** The signed value of the [k] low-order bits. *)
Definition sext (k b : Z) : Z :=
  let m := b mod 2 ^ k in if m <? 2 ^ (k - 1) then m else m - 2 ^ k.

Lemma land_pow2_testbit x n : 0 <= n ->
  negb (Z.land x (Z.shiftl 1 n) =? 0) = Z.testbit x n.
Proof.
  intros Hn. rewrite Z.shiftl_1_l. destruct (Z.testbit x n) eqn:E.
  - apply negb_true_iff, Z.eqb_neq. intros H0.
    assert (Z.testbit (Z.land x (2 ^ n)) n = true) as Hb.
    { by rewrite Z.land_spec, E, Z.pow2_bits_true. }
    by rewrite H0, Z.bits_0 in Hb.
  - apply negb_false_iff, Z.eqb_eq. apply Z.bits_inj'. intros i Hi.
    rewrite Z.land_spec, Z.bits_0, Z.pow2_bits_eqb by done.
    destruct (Z.eqb_spec n i) as [<-|]; [by rewrite E|apply andb_false_r].
Qed.

Lemma half_testbit b n : 0 <= n < 256 ->
  Z.testbit (if 127 <? n then U256.high b else U256.low b) (n mod 128) = Z.testbit b n.
Proof.
  intros Hn. case_if.
  - unfold U256.high. rewrite Z.shiftr_spec by (apply Z.mod_pos_bound; lia).
    f_equal. rewrite <- (Z_mod_plus_full n (-1)), Z.mod_small; lia.
  - unfold U256.low, wrap. rewrite (Z.mod_small n) by lia.
    by rewrite Z.mod_pow2_bits_low by lia.
Qed.

Lemma mod_pow2_succ b n : 0 <= n ->
  b mod 2 ^ (n + 1) = b mod 2 ^ n + (if Z.testbit b n then 2 ^ n else 0).
Proof.
  intros Hn. rewrite Z.pow_add_r, Z.rem_mul_r by lia.
  change (2 ^ 1) with 2. rewrite <- Z.testbit_spec' by done.
  destruct (Z.testbit b n); cbn [Z.b2z]; lia.
Qed.

Lemma lor_not_mask b n : word b -> 0 <= n < 256 ->
  Z.lor b (U256.not (2 ^ n - 1)) = wrap 256 (b mod 2 ^ n - 2 ^ n).
Proof.
  intros Hb Hn. pose proof (Z.pow_pos_nonneg 2 n ltac:(lia) ltac:(lia)).
  assert (2 ^ n < 2 ^ 256) by (apply Z.pow_lt_mono_r; lia).
  assert (U256.not (2 ^ n - 1) = wrap 256 (Z.lnot (Z.ones n))) as ->.
  { rewrite Z.ones_equiv.
    destruct (U256.not_lnot (2 ^ n - 1)) as [->|Hnw].
    - f_equal; f_equal; lia.
    - destruct Hnw. unfold uint. lia. }
  apply Z.bits_inj'. intros i Hi. unfold wrap.
  replace (b mod 2 ^ n - 2 ^ n) with (Z.lor (b mod 2 ^ n) (Z.lnot (Z.ones n))).
  - rewrite Z.lor_spec. destruct (Z.lt_ge_cases i 256) as [Hlt|Hge].
    + rewrite !Z.mod_pow2_bits_low, Z.lor_spec, Z.lnot_spec by lia.
      destruct (Z.lt_ge_cases i n).
      * by rewrite Z.mod_pow2_bits_low by lia.
      * rewrite (Z.ones_spec_high n i) by lia. by rewrite !orb_true_r.
    + rewrite !Z.mod_pow2_bits_high by lia.
      by rewrite (proj1 (uint_testbit 256 b ltac:(lia) (proj1 Hb)) Hb).
  - rewrite <- Z.lxor_lor, <- Z.add_nocarry_lxor.
    1: unfold Z.lnot; rewrite Z.ones_equiv; lia.
    all: apply Z.bits_inj'; intros j Hj; rewrite Z.land_spec, Z.lnot_spec, Z.bits_0 by done;
      (destruct (Z.lt_ge_cases j n);
       [by rewrite Z.ones_spec_low, andb_false_r by lia
       |by rewrite Z.mod_pow2_bits_high by lia]).
Qed.

Lemma land_mask b n : 0 <= n -> Z.land b (2 ^ n - 1) = b mod 2 ^ n.
Proof.
  intros. rewrite <- Z.land_ones, Z.ones_equiv by done. f_equal; lia.
Qed.

Lemma signextend_spec s a b : word a -> word b ->
  arithmetic.signextend (s ++ [b; a])
  = Some (s ++ [if a <? 32 then wrap 256 (sext (8 * a + 8) b) else b]).
Proof.
  intros Ha Hb. rewrite app_two. unfold arithmetic.signextend. repeat stack_eval.
  case_if; [|done]. assert (0 <= a) by apply Ha.
  rewrite U256.as_u8_small, checked_some by (unfold uint; lia). cbn [mbind option_bind].
  set (n := 8 * a + 7). assert (0 <= n < 256) by lia.
  assert (2 ^ n < 2 ^ 256) by (apply Z.pow_lt_mono_r; lia).
  pose proof (Z.pow_pos_nonneg 2 n ltac:(lia) ltac:(lia)).
  rewrite land_pow2_testbit by (apply Z.mod_pos_bound; lia).
  rewrite half_testbit by done.
  unfold U256.shl, U256.ONE. rewrite Z.shiftl_1_l, wrap_small by (unfold uint; lia).
  rewrite unsigned_sub_some by lia. cbn [mbind option_bind].
  rewrite Stack.set0_snoc. do 3 f_equal. unfold sext.
  replace (8 * a + 8) with (n + 1) by lia. rewrite Z.add_simpl_r, mod_pow2_succ by lia.
  pose proof (Z.mod_pos_bound b (2 ^ n) ltac:(lia)).
  destruct (Z.testbit b n).
  - rewrite (proj2 (Z.ltb_ge _ _)) by lia. rewrite lor_not_mask by done. f_equal.
    rewrite Z.pow_add_r by lia. lia.
  - rewrite Z.add_0_r, (proj2 (Z.ltb_lt _ _)) by lia.
    rewrite land_mask by lia. symmetry. apply wrap_small. unfold uint; lia.
Qed.

Lemma op_signextend : stack_op 2 (-1) arithmetic.signextend.
Proof.
  intros s Hw Hr Hl. take_top s. take_top b. rewrite <- app_two.
  rewrite signextend_spec by done. stack_done.
  case_if; auto with martinez.
Qed.

(** ** BYTE *)

Lemma byte_step_spec a b ret i : 0 <= a < 32 -> 0 <= i < 8 -> word b ->
  0 <= ret < 2 ^ i ->
  bitwise.byte_step a b ret i
  = ret + (if Z.testbit b (248 - 8 * a + i) then 2 ^ i else 0).
Proof.
  intros Ha Hi Hb Hr. unfold bitwise.byte_step.
  rewrite !(proj2 (Z.ltb_lt _ _)) by lia. cbn [andb].
  rewrite (U256.as_u8_small a) by (unfold uint; lia).
  rewrite (wrap_small 8 (7 - i + 8 * a)), (wrap_small 8) by (unfold uint; lia).
  replace (255 - (7 - i + 8 * a)) with (248 - 8 * a + i) by lia.
  set (t := 248 - 8 * a + i).
  assert (2 ^ t < 2 ^ 256) by (apply Z.pow_lt_mono_r; lia).
  assert (2 ^ i <= 2 ^ 7) by (apply Z.pow_le_mono_r; lia).
  pose proof (Z.pow_pos_nonneg 2 t ltac:(lia) ltac:(lia)).
  unfold U256.shl at 2, U256.ONE. rewrite Z.shiftl_1_l, wrap_small by (unfold uint; lia).
  assert (U256.shr (Z.land b (2 ^ t)) t = if Z.testbit b t then 1 else 0) as ->.
  { unfold U256.shr. apply Z.bits_inj'. intros j Hj.
    rewrite Z.shiftr_spec, Z.land_spec, Z.pow2_bits_eqb by lia.
    destruct (Z.eqb_spec t (j + t)) as [He|He].
    - assert (j = 0) as -> by lia. rewrite Z.add_0_l, andb_true_r.
      by destruct (Z.testbit b t).
    - rewrite andb_false_r. symmetry.
      destruct (Z.testbit b t); [|apply Z.bits_0].
      apply (Z.bits_above_log2 1); simpl; lia. }
  unfold U256.shl, U256.overflowing_add.
  destruct (Z.testbit b t).
  - rewrite Z.shiftl_1_l, (wrap_small 256 (2 ^ i)) by (unfold uint; lia).
    apply wrap_small. unfold uint; lia.
  - rewrite Z.shiftl_0_l. change (wrap 256 0) with 0. rewrite Z.add_0_r.
    apply wrap_small. unfold uint; lia.
Qed.

Lemma byte_fold_low a b k : 0 <= a < 32 -> word b -> (k <= 8)%nat ->
  foldl (bitwise.byte_step a b) U256.ZERO (seqZ 0 (Z.of_nat k))
  = (b / 2 ^ (248 - 8 * a)) mod 2 ^ Z.of_nat k.
Proof.
  intros Ha Hb. induction k as [|k IH]; intros Hk.
  { simpl. by rewrite Z.mod_1_r. }
  rewrite seqZ_S, foldl_app, IH by lia. cbn [foldl]. rewrite Z.add_0_l, Nat2Z.inj_succ.
  rewrite byte_step_spec; [|done|lia|done|apply Z.mod_pos_bound; lia].
  unfold Z.succ. rewrite mod_pow2_succ by lia. f_equal.
  rewrite <- Z.shiftr_div_pow2, Z.shiftr_spec by lia.
  by replace (Z.of_nat k + (248 - 8 * a)) with (248 - 8 * a + Z.of_nat k) by lia.
Qed.

Lemma byte_fold_idle a b ret l :
  (32 <= a \/ Forall (fun i => 8 <= i) l) -> foldl (bitwise.byte_step a b) ret l = ret.
Proof.
  intros Hl. induction l as [|i l IH] in ret, Hl |- *; [done|]. cbn [foldl].
  assert (bitwise.byte_step a b ret i = ret) as ->.
  { unfold bitwise.byte_step. destruct Hl as [Hl|Hl].
    - by rewrite (proj2 (Z.ltb_ge a 32)), andb_false_r.
    - inversion Hl; subst. by rewrite (proj2 (Z.ltb_ge i 8)). }
  apply IH. destruct Hl as [|Hl]; [by left|right]. by inversion Hl.
Qed.

Lemma byte_stack_spec s a b : word a -> word b ->
  bitwise.byte (s ++ [b; a])
  = Stack.push s (if a <? 32 then (b / 256 ^ (31 - a)) mod 256 else 0).
Proof.
  intros Ha Hb. rewrite app_two. unfold bitwise.byte. repeat stack_eval. f_equal.
  assert (0 <= a) by apply Ha. case_if.
  - change 256 with (8 + 248) at 1. rewrite seqZ_app, foldl_app by lia.
    change 8 with (Z.of_nat 8) at 1. rewrite (byte_fold_low a b 8) by (done || lia).
    rewrite byte_fold_idle.
    + replace (256 ^ (31 - a)) with (2 ^ (248 - 8 * a)); [done|].
      change 256 with (2 ^ 8). rewrite <- Z.pow_mul_r by lia. f_equal. lia.
    + right. apply Forall_forall. intros i Hi%list_elem_of_In%elem_of_seqZ. lia.
  - apply byte_fold_idle. by left.
Qed.

(** ** The instructions, as functions of their operands *)

(** Number of bytes of a positive word. *)
Definition byte_length (v : Z) : Z := if v =? 0 then 0 else Z.log2 v / 8 + 1.

(** Gas of [EXP] beyond its table entry. *)
Definition exp_gas (rev : Revision) (power : Z) : Z :=
  (if (rev >=? Spurious)%rev then 50 else 10) * byte_length power.

(** [EXP] pops the base and the exponent and pushes [base ^ power] modulo
    2^256; it charges 10 gas (50 from Spurious Dragon on) for every byte of the
    exponent, and is out of gas exactly when that is more than what is left. *)
Theorem exp_correct {W} rev es (w : W) s base power :
  es_stack es = s ++ [power; base] -> Stack.len s < STACK_SIZE ->
  word base -> word power -> 0 <= es_gas_left es <= i64_max ->
  arithmetic.exp rev es w =
  if es_gas_left es <? exp_gas rev power then RErr OutOfGas w
  else ROk () (with_stack (with_gas es (es_gas_left es - exp_gas rev power))
                 (s ++ [wrap 256 (base ^ power)])) w.
Proof.
  intros Es Hs Hb Hp Hg. rewrite app_two in Es. unfold arithmetic.exp.
  erewrite bind_ok by by apply stack_pop_snoc.
  erewrite bind_ok by by apply stack_pop_snoc.
  rewrite exp_loop_spec by done. rewrite Z.mul_1_l.
  match goal with |- (_ ≫= ?f) _ _ = _ => set (k := f) end.
  assert (forall g, k () (with_gas (with_stack (with_stack es (s ++ [power])) s) g) w =
    ROk () (with_stack (with_gas es g) (s ++ [wrap 256 (base ^ power)])) w) as Hk.
  { intros g. subst k. cbn [lift mret M_ret]. erewrite bind_ok by done.
    by rewrite stack_push_ok. }
  clearbody k. unfold exp_gas, byte_length, uint in *.
  destruct (Z.ltb_spec 0 power) as [Hpos|Hz].
  - rewrite (proj2 (Z.eqb_neq _ _)) by lia.
    pose proof (log2floor_range power ltac:(lia)) as Hlog.
    rewrite log2floor_spec in * by lia.
    assert (0 <= Z.log2 power / 8 <= 255).
    { split; [apply Z.div_pos; lia|apply Z.div_le_upper_bound; lia]. }
    set (cost := _ * (Z.log2 power / 8 + 1)).
    assert (0 <= cost <= 50 * 256) by (subst cost; case_if; lia). clearbody cost.
    destruct (Z.ltb_spec (es_gas_left es) cost).
    + erewrite bind_err; [done|]. apply charge_err; simpl; unfold i64_max; lia.
    + erewrite bind_ok; [|apply charge_ok; simpl; lia]. apply Hk.
  - rewrite (proj2 (Z.eqb_eq power 0)), Z.mul_0_r, (proj2 (Z.ltb_ge _ _)), Z.sub_0_r by lia.
    erewrite bind_ok by done. apply (Hk (es_gas_left es)).
Qed.

Lemma exp_correct_witness :
  arithmetic.exp London
    (with_stack (ExecutionState_new (sample_message false 1000)) [300; 3]) () =
  ROk () (with_stack (with_gas (ExecutionState_new (sample_message false 1000)) 900)
            [wrap 256 (3 ^ 300)]) ().
Proof.
  apply (exp_correct London
    (with_stack (ExecutionState_new (sample_message false 1000)) [300; 3]) () [] 3 300);
    unfold uint, i64_max; simpl; try done; lia.
Defined.

(** [SAR] is the arithmetic right shift of the two's complement value, for
    every shift amount, 256 and more included. *)
Theorem sar_correct `{I256Laws} s shift v : word shift -> word v ->
  bitwise.sar (s ++ [v; shift])
  = Stack.push s (wrap 256 (Z.shiftr (to_signed v) shift)).
Proof. apply sar_stack_spec. Qed.

Lemma sar_correct_witness :
  bitwise.sar (H := i256_model) ([] ++ [2 ^ 256 - 5; 1]) = Some [2 ^ 256 - 3].
Proof. rewrite sar_correct by by unfold uint. vm_compute. reflexivity. Defined.

(** [SIGNEXTEND] extends the sign bit of the [a + 1] low-order bytes of the
    value, and leaves the value alone when [a] is 32 or more. *)
Theorem signextend_correct s a b : word a -> word b ->
  arithmetic.signextend (s ++ [b; a])
  = Some (s ++ [if a <? 32 then wrap 256 (sext (8 * a + 8) b) else b]).
Proof. apply signextend_spec. Qed.

Lemma signextend_correct_witness :
  arithmetic.signextend ([] ++ [0x80; 0]) = Some [2 ^ 256 - 128].
Proof. rewrite signextend_correct by by unfold uint. vm_compute. reflexivity. Defined.

(** [BYTE] selects the byte of index [a], counted from the most significant
    one: the loop over 256 positions computes one division and one remainder. *)
Theorem byte_correct s a b : word a -> word b ->
  bitwise.byte (s ++ [b; a])
  = Stack.push s (if a <? 32 then (b / 256 ^ (31 - a)) mod 256 else 0).
Proof. apply byte_stack_spec. Qed.

Lemma byte_correct_witness : bitwise.byte ([] ++ [0x1234; 30]) = Some [0x12].
Proof. rewrite byte_correct by by unfold uint. vm_compute. reflexivity. Defined.

(** [ADDMOD] and [MULMOD] do not wrap: the sum and the product are reduced
    as integers, the conversion back to 256 bits never panics, and the result
    for a zero modulus is zero. *)
Theorem modular_correct s a b c : word a -> word b -> word c ->
  arithmetic.addmod (s ++ [c; b; a]) = Stack.push s (if c =? 0 then 0 else (a + b) mod c) /\
  arithmetic.mulmod (s ++ [c; b; a]) = Stack.push s (if c =? 0 then 0 else (a * b) mod c).
Proof. intros. split; [by apply addmod_spec|by apply mulmod_spec]. Qed.

Lemma modular_correct_witness :
  arithmetic.addmod ([] ++ [7; 2 ^ 256 - 1; 2 ^ 256 - 1]) = Some [2].
Proof.
  rewrite (proj1 (modular_correct [] (2 ^ 256 - 1) (2 ^ 256 - 1) 7
    ltac:(unfold uint; lia) ltac:(unfold uint; lia) ltac:(unfold uint; lia))).
  vm_compute. reflexivity.
Defined.

(** The memory is a whole number of words, within the addressable range. *)
Definition memory_ok (m : Memory) : Prop :=
  blen m mod 32 = 0 /\ blen m <= max_memory.

(** The memory that covers [new_size] bytes, and its price. *)
Definition expanded (m : Memory) (new_size : Z) : Memory :=
  if blen m <? new_size then m ++ replicate (Z.to_nat (memory.num_words new_size * 32 - blen m)) x00
  else m.

Definition expansion_cost (m : Memory) (new_size : Z) : Z :=
  if blen m <? new_size
  then memory_cost (memory.num_words new_size) - memory_cost (blen m / 32) else 0.

Lemma num_words_bounds n : 0 <= n -> n <= memory.num_words n * 32 < n + 32.
Proof.
  intros. rewrite num_words_spec by done.
  pose proof (Z.div_mod (n + 31) 32). pose proof (Z.mod_pos_bound (n + 31) 32). lia.
Qed.

Lemma blen_expanded m n : 0 <= n ->
  blen (expanded m n) = if blen m <? n then memory.num_words n * 32 else blen m.
Proof.
  intros Hn. unfold expanded. case_if; [|done].
  pose proof (num_words_bounds n Hn). rewrite blen_app, blen_replicate; lia.
Qed.

Lemma expanded_ok m n : memory_ok m -> 0 <= n <= max_memory ->
  memory_ok (expanded m n) /\ n <= blen (expanded m n).
Proof.
  intros [Hm Hx] Hn. unfold memory_ok. rewrite blen_expanded by lia.
  pose proof (num_words_bounds n). case_if; [|lia].
  split; [|lia]. split; [apply Z.mod_mul; lia|].
  enough (memory.num_words n <= 2 ^ 28) by (unfold max_memory; lia).
  rewrite num_words_spec by lia. unfold max_memory in *.
  enough ((n + 31) / 32 < 2 ^ 28 + 1) by lia. apply Z.div_lt_upper_bound; lia.
Qed.

Lemma expansion_cost_nonneg m n : 0 <= n -> 0 <= expansion_cost m n.
Proof.
  intros Hn. unfold expansion_cost. case_if; [|done]. pose proof (blen_nonneg m).
  pose proof (num_words_bounds n Hn).
  enough (memory_cost (blen m / 32) <= memory_cost (memory.num_words n)) by lia.
  apply memory_cost_mono. split; [apply Z.div_pos; lia|].
  apply Z.div_le_upper_bound; lia.
Qed.

(** Where an expansion stops does not depend on the steps it is made in: the
    prices of two successive expansions add up. *)
Lemma expansion_cost_add m a b : 0 <= a <= b -> memory_ok m ->
  expansion_cost m a + expansion_cost (expanded m a) b = expansion_cost m b.
Proof.
  intros Hab [Hm _]. unfold expansion_cost at 2 3. rewrite blen_expanded by lia.
  unfold expansion_cost.
  pose proof (num_words_bounds a). pose proof (num_words_bounds b).
  destruct (Z.ltb_spec (blen m) a).
  - destruct (Z.ltb_spec (blen m) b); [|lia].
    destruct (Z.ltb_spec (memory.num_words a * 32) b).
    + rewrite Z.div_mul by lia. lia.
    + replace (memory.num_words b) with (memory.num_words a) by lia. lia.
  - destruct (Z.ltb_spec (blen m) b); lia.
Qed.

Lemma expanded_twice m a b : 0 <= a <= b -> expanded (expanded m a) b = expanded m b.
Proof.
  intros Hab. unfold expanded at 1. rewrite blen_expanded by lia.
  pose proof (num_words_bounds a). pose proof (num_words_bounds b).
  unfold expanded. destruct (Z.ltb_spec (blen m) a).
  - rewrite (proj2 (Z.ltb_lt (blen m) b)) by lia.
    destruct (Z.ltb_spec (memory.num_words a * 32) b).
    + rewrite <- app_assoc, <- replicate_add. do 2 f_equal. lia.
    + replace (memory.num_words b) with (memory.num_words a) by lia. done.
  - by destruct (Z.ltb_spec (blen m) b).
Qed.

Section spec.
Context {W : Type}.

(** Access to [size] bytes at [offset]: out of gas, or the memory is expanded
    with zeros and the price is paid. *)
Lemma get_memory_region_u64_spec off size (es : ExecutionState) (w : W) :
  memory_ok (es_memory es) -> 0 <= off <= u32_max -> 0 < size <= u32_max ->
  0 <= es_gas_left es <= i64_max ->
  let cost := expansion_cost (es_memory es) (off + size) in
  (memory.get_memory_region_u64 off size ≫= or_out_of_gas) es w =
  if es_gas_left es <? cost then RErr OutOfGas w
  else ROk {| memory.offset := off; memory.size := size |}
         (with_memory (with_gas es (es_gas_left es - cost))
            (expanded (es_memory es) (off + size))) w.
Proof.
  intros [Hm Hmax] Ho Hsz Hg cost. unfold memory.get_memory_region_u64, memory.MAX_BUFFER_SIZE.
  unfold mbind, M_bind. rewrite (proj2 (Z.ltb_ge _ _)) by lia.
  unfold u32_max, max_memory in *.
  rewrite !U256.as_usize_small by (unfold uint; lia).
  unfold usize_checked. rewrite checked_some by (unfold u64_max; lia). cbn [lift mret M_ret].
  unfold gets. cbn. subst cost. unfold expansion_cost, expanded.
  destruct (Z.ltb_spec (blen (es_memory es)) (off + size)) as [Hlt|Hge].
  2:{ cbn. rewrite (proj2 (Z.ltb_ge _ _)) by lia. rewrite Z.sub_0_r. by destruct es. }
  pose proof (num_words_bounds (off + size) ltac:(lia)) as Hnw.
  pose proof (blen_nonneg (es_memory es)) as Hl.
  set (nw := memory.num_words (off + size)) in *. set (cw := blen (es_memory es) / 32).
  assert (0 <= cw <= nw) as Hcw.
  { split; [apply Z.div_pos; lia|apply Z.div_le_upper_bound; lia]. }
  assert (nw <= 2 ^ 28) by lia.
  pose proof (memory_cost_range nw). pose proof (memory_cost_range cw).
  pose proof (memory_cost_mono cw nw).
  unfold memory.grow_memory, gas_add, mbind, M_bind, gets. cbn beta zeta. fold nw cw.
  unfold i64_checked, lift, mret, M_ret. unfold i64_max in *.
  fold (memory_cost nw) (memory_cost cw).
  rewrite (checked_some _ _ (nw * nw)), (checked_some _ _ (cw * cw)) by nia.
  cbn beta iota. fold (memory_cost nw) (memory_cost cw).
  rewrite !checked_some by lia. cbn beta iota.
  destruct (Z.ltb_spec (es_gas_left es) (memory_cost nw - memory_cost cw)).
  - cbn. by rewrite (proj2 (Z.ltb_lt _ _)) by lia.
  - cbn. rewrite (proj2 (Z.ltb_ge _ _)) by lia. cbn.
    repeat f_equal. unfold Memory.grow, vec_resize, memory.WORD_SIZE.
    rewrite take_ge by (unfold blen in *; lia). do 2 f_equal. unfold blen. lia.
Qed.


Lemma region_ok off size es (w : W) :
  memory_ok (es_memory es) -> 0 <= off <= u32_max -> 0 < size <= u32_max ->
  0 <= es_gas_left es <= i64_max ->
  expansion_cost (es_memory es) (off + size) <= es_gas_left es ->
  (memory.get_memory_region_u64 off size ≫= or_out_of_gas) es w =
  ROk {| memory.offset := off; memory.size := size |}
    (with_memory (with_gas es (es_gas_left es - expansion_cost (es_memory es) (off + size)))
       (expanded (es_memory es) (off + size))) w.
Proof.
  intros Hm Ho Hsz Hg Hc. rewrite get_memory_region_u64_spec by done.
  by rewrite (proj2 (Z.ltb_ge _ _)) by lia.
Qed.

Section word_access.
Context (es : ExecutionState) (w : W) (s : Stack) (off : Z).
Hypothesis Hm : memory_ok (es_memory es).
Hypothesis Hoff : 0 <= off <= u32_max.
Hypothesis Hg : 0 <= es_gas_left es <= i64_max.
Hypothesis Hcost : expansion_cost (es_memory es) (off + 32) <= es_gas_left es.

Lemma mstore_ok v : es_stack es = s ++ [v; off] ->
  exists m', splice (expanded (es_memory es) (off + 32)) off (U256.to_be_bytes v) = Some m' /\
    memory.mstore es w =
    ROk () (with_memory (with_stack
      (with_gas es (es_gas_left es - expansion_cost (es_memory es) (off + 32))) s) m') w.
Proof.
  intros Es. rewrite app_two in Es.
  destruct (expanded_ok (es_memory es) (off + 32)) as [_ Hlen];
    [done|unfold max_memory, u32_max in *; lia|].
  destruct (splice_some (expanded (es_memory es) (off + 32)) off (U256.to_be_bytes v))
    as (m' & Hs & Hl); [lia|unfold U256.to_be_bytes, blen in *; rewrite length_be_bytes; lia|].
  exists m'. split; [done|]. unfold memory.mstore.
  erewrite bind_ok by by apply stack_pop_snoc.
  erewrite bind_ok by by apply stack_pop_snoc.
  erewrite bind_ok by (apply region_ok; cbn; done || (unfold u32_max; lia)).
  revert Hs. generalize (U256.to_be_bytes v) as bs. intros bs Hs.
  unfold memory.write_memory, mbind, M_bind, gets. cbn. by rewrite Hs.
Qed.

Lemma mload_ok bs : es_stack es = s ++ [off] -> Stack.len s < STACK_SIZE ->
  slice (expanded (es_memory es) (off + 32)) off 32 = Some bs ->
  memory.mload es w =
    ROk () (with_stack (with_memory
      (with_gas es (es_gas_left es - expansion_cost (es_memory es) (off + 32)))
      (expanded (es_memory es) (off + 32))) (s ++ [be_val bs])) w.
Proof.
  intros Es Hlen Hbs. unfold memory.mload.
  erewrite bind_ok by by apply stack_pop_snoc.
  erewrite bind_ok by (apply region_ok; cbn; done || (unfold u32_max; lia)).
  erewrite bind_ok; [|unfold memory.read_region, mbind, M_bind, gets; cbn; by rewrite Hbs].
  rewrite u256_from_slice_spec.
  2:{ revert Hbs. unfold slice. case_if; [|done]. intros [= <-]. rewrite length_take. lia. }
  cbn [lift mret M_ret]. erewrite bind_ok by done. by rewrite stack_push_ok.
Qed.

End word_access.
End spec.

(** Accessing memory charges exactly the price of the words that are added,
    and the total depends on the furthest byte only: an access followed by a
    further one costs as much as the further one alone and leaves the same
    memory. *)
Theorem expansion_path_independent {W} a sa b sb es (w : W) :
  memory_ok (es_memory es) -> 0 <= es_gas_left es <= i64_max ->
  0 <= a <= u32_max -> 0 < sa <= u32_max -> 0 <= b <= u32_max -> 0 < sb <= u32_max ->
  a + sa <= b + sb ->
  expansion_cost (es_memory es) (b + sb) <= es_gas_left es ->
  (_ ← memory.get_memory_region_u64 a sa ≫= or_out_of_gas;
   memory.get_memory_region_u64 b sb ≫= or_out_of_gas) es w =
  (memory.get_memory_region_u64 b sb ≫= or_out_of_gas) es w.
Proof.
  intros Hm Hg Ha Hsa Hb Hsb Hle Hcost.
  pose proof (expansion_cost_add (es_memory es) (a + sa) (b + sb) ltac:(lia) Hm) as Hadd.
  pose proof (expansion_cost_nonneg (es_memory es) (a + sa) ltac:(lia)).
  pose proof (expansion_cost_nonneg (expanded (es_memory es) (a + sa)) (b + sb) ltac:(lia)).
  destruct (expanded_ok (es_memory es) (a + sa)) as [Hm' _];
    [done|unfold max_memory, u32_max in *; lia|].
  erewrite bind_ok by (apply region_ok; try done; lia).
  rewrite !region_ok; simpl; try done; try lia.
  f_equal. rewrite <- Z.sub_add_distr, Hadd. unfold with_memory, with_gas. simpl. f_equal.
  apply expanded_twice. lia.
Qed.

Lemma expansion_path_independent_witness :
  (_ ← memory.get_memory_region_u64 0 32 ≫= or_out_of_gas;
   memory.get_memory_region_u64 1000 32 ≫= or_out_of_gas)
    (ExecutionState_new (sample_message false 100000)) () =
  (memory.get_memory_region_u64 1000 32 ≫= or_out_of_gas)
    (ExecutionState_new (sample_message false 100000)) ().
Proof.
  apply (expansion_path_independent 0 32 1000 32); unfold u32_max, i64_max; try (simpl; lia).
  - by split.
  - vm_compute. discriminate.
Defined.

(** A word written by [MSTORE] is read back by [MLOAD] at the same offset,
    for the price of one expansion, and no other byte of the memory changes. *)
Theorem mstore_mload {W} es (w : W) s off v :
  es_stack es = s ++ [off; v; off] -> Stack.len s < STACK_SIZE -> word v ->
  0 <= off <= u32_max -> memory_ok (es_memory es) -> 0 <= es_gas_left es <= i64_max ->
  expansion_cost (es_memory es) (off + 32) <= es_gas_left es ->
  exists m',
    (memory.mstore;; memory.mload) es w =
    ROk () (with_memory (with_stack
      (with_gas es (es_gas_left es - expansion_cost (es_memory es) (off + 32)))
      (s ++ [v])) m') w /\
    forall i, i < off \/ off + 32 <= i ->
      index m' i = index (expanded (es_memory es) (off + 32)) i.
Proof.
  intros Es Hlen Hv Hoff Hm Hg Hcost.
  pose proof (expansion_cost_nonneg (es_memory es) (off + 32) ltac:(lia)) as Hnn.
  destruct (mstore_ok es w (s ++ [off]) off) with (v := v) as (m' & Hs & Hst); try done.
  { by rewrite Es, <- app_assoc. }
  destruct (expanded_ok (es_memory es) (off + 32)) as [Hme Hl];
    [done|unfold max_memory, u32_max in *; lia|].
  pose proof (blen_splice _ _ _ _ Hs) as Hbl.
  assert (blen (U256.to_be_bytes v) = 32) as H32
    by (unfold blen, U256.to_be_bytes; by rewrite length_be_bytes).
  assert (expansion_cost m' (off + 32) = 0) as Hc0
    by (unfold expansion_cost; by rewrite (proj2 (Z.ltb_ge _ _)) by lia).
  assert (expanded m' (off + 32) = m') as He0
    by (unfold expanded; by rewrite (proj2 (Z.ltb_ge _ _)) by lia).
  exists m'. split.
  - erewrite bind_ok by exact Hst.
    erewrite (mload_ok _ _ s off) with (bs := U256.to_be_bytes v); simpl; try done.
    + f_equal. rewrite Hc0, Z.sub_0_r, He0. unfold U256.to_be_bytes.
      rewrite be_val_bytes. unfold with_stack, with_memory, with_gas. simpl.
      do 3 f_equal. rewrite Z.mod_small; [done|exact Hv].
    + unfold memory_ok in *. by rewrite Hbl.
    + lia.
    + lia.
    + rewrite He0, <- H32. by eapply slice_splice.
  - intros i Hi. eapply index_splice_other; [done|lia].
Qed.

Lemma mstore_mload_witness : exists m',
  (memory.mstore;; memory.mload)
    (with_stack (ExecutionState_new (sample_message false 100)) [7; 64; 5; 64]) () =
  ROk () (with_memory (with_stack (with_gas
    (ExecutionState_new (sample_message false 100)) 91) [7; 5]) m') ().
Proof.
  destruct (mstore_mload
    (with_stack (ExecutionState_new (sample_message false 100)) [7; 64; 5; 64]) ()
    [7] 64 5) as (m' & Hm & _); try (unfold u32_max, i64_max; simpl; lia); try done.
  by exists m'.
Defined.
