(* ===== verification/InstrSafety.v ===== *)
(** Safety of every instruction: from a well-formed state whose stack is high
    enough, an instruction does not fault, keeps the state well-formed and the
    host's invariant, changes the stack height as declared and never increases
    the gas left. *)
From S2P Require Import Prelude Word Properties EvmState Host Arith MemoryOps External StackSafety InstrSpec Wp.
From Stdlib Require Import ZArith Lia Strings.Byte.
From stdpp Require Import base list option numbers.
#[local] Open Scope Z_scope.

Section safety.
Context {W : Type} `{Host W} {I : bool -> Z -> W -> Prop} `{!HostInv _ I}.
Context `{I256Laws, Keccak}.
Context (msg : InterpreterMessage) (Hmsg : message_ok msg).

Abbreviation ok := (ok I msg).
Abbreviation wp := (wp I msg).
Abbreviation inv := (inv I msg).

(** The instruction [m] needs [req] items, changes the height by [chg] and
    costs at least [loss]. *)
Definition ispec (req chg loss : Z) (m : M W unit) : Prop :=
  forall n lo hi ml es w, ok n lo hi ml es w -> req <= n -> n + chg <= STACK_SIZE ->
    wp m (fun _ es' w' => exists lo' hi' ml',
            ok (n + chg) lo' hi' ml' es' w' /\ hi' <= hi - loss) es w.

Lemma ispec_stack req chg f : stack_op req chg f -> ispec req chg 0 (on_stack f).
Proof.
  intros Hf n lo hi ml es w Hok Hr Hl.
  eapply wp_on_stack; [done|done|lia|lia|]. intros es' Hes.
  exists lo, hi, ml. split; [done|lia].
Qed.

(** Finish an instruction: the heights agree and the gas did not grow. *)
Lemma ispec_done n n' lo hi hi0 ml loss (es : ExecutionState) w :
  ok n lo hi ml es w -> n = n' -> hi <= hi0 - loss ->
  exists lo' hi' ml', ok n' lo' hi' ml' es w /\ hi' <= hi0 - loss.
Proof. intros Hok <- Hhi. by exists lo, hi, ml. Qed.

Lemma msg_recipient : is_address (recipient msg).
Proof. apply Hmsg. Qed.
Lemma msg_sender : is_address (sender msg).
Proof. apply Hmsg. Qed.
Lemma msg_value : word (value msg).
Proof. apply Hmsg. Qed.
Lemma msg_input : bytes_ok (input_data msg).
Proof. apply Hmsg. Qed.

Lemma bytes_word b : bytes_ok b -> word (blen b).
Proof.
  intros Hb. pose proof (blen_nonneg b). unfold bytes_ok, i64_max, uint in *. lia.
Qed.

Lemma zero_word : word U256.ZERO.
Proof. done. Qed.

Lemma as_u64_range a : is_u64 (U256.as_u64 a).
Proof. by apply wrap_uint. Qed.

#[local] Hint Resolve msg_recipient msg_sender msg_value msg_input bytes_word
  zero_word as_u64_range u256_to_address_range address_to_u256_word : martinez.

Lemma word_nonneg v : word v -> 0 <= v.
Proof. by intros []. Qed.

(** Solve a side condition of a rule. *)
Ltac side :=
  try match goal with
      | |- ok _ _ _ _ _ _ => eassumption
      | |- region_in _ _ => eassumption
      | |- uint _ _ => solve [eauto with martinez]
      | |- bytes_ok _ => solve [eauto with martinez]
      | |- _ => first [lia | by apply word_nonneg | unfold u32_max, COLD_SLOAD_COST, WARM_STORAGE_READ_COST; lia]
      end.

(** One step of symbolic execution. *)
Ltac wstep :=
  cbv beta zeta;
  lazymatch goal with
  | |- Wp.wp _ _ (memory.get_memory_region _ _ ≫= or_out_of_gas) _ _ _ =>
      let r := fresh "r" in let Hreg := fresh "Hreg" in
      eapply wp_region; [side|side|side|intros r ? ? ? ? Hreg]
  | |- Wp.wp _ _ (memory.get_memory_region_u64 _ _ ≫= or_out_of_gas) _ _ _ =>
      let r := fresh "r" in let Hreg := fresh "Hreg" in
      eapply wp_region_u64; [side|side|side|intros r ? ? ? ? Hreg ? ?]
  | |- Wp.wp _ _ (_ ≫= _) _ _ _ => apply wp_bind
  | |- Wp.wp _ _ (mret _) _ _ _ => apply wp_ret
  | |- Wp.wp _ _ (throw _) _ _ _ => eapply wp_throw; side
  | |- Wp.wp _ _ stack_pop _ _ _ => eapply wp_pop; [side|side|intros ? ? ? ?]
  | |- Wp.wp _ _ (stack_push _) _ _ _ => eapply wp_push; [side|side|side|intros ? ?]
  | |- Wp.wp _ _ (stack_get _) _ _ _ => eapply wp_stack_get; [side|side|intros ? ?]
  | |- Wp.wp _ _ (stack_set _ _) _ _ _ => eapply wp_stack_set; [side|side|side|intros ? ?]
  | |- Wp.wp _ _ (charge _) _ _ _ => eapply wp_charge; [side|side|intros ? ?]
  | |- Wp.wp _ _ (gets es_message) _ _ _ => eapply wp_message; side
  | |- Wp.wp _ _ (gets _) _ _ _ => apply wp_gets
  | |- Wp.wp _ _ (memory.read_region _) _ _ _ => eapply wp_read_region; [side|side|intros ? ?]
  | |- Wp.wp _ _ (memory.write_memory _ _) _ _ _ => eapply wp_write_memory; [side|side|side|intros ? ?]
  | |- Wp.wp _ _ (memory.fill0 _ _) _ _ _ => eapply wp_fill0; [side|side|side|side|intros ? ?]
  | |- Wp.wp _ _ (memory.copy_padded _ _) _ _ _ => eapply wp_copy_padded; [side|side|side|intros ? ?]
  | |- Wp.wp _ _ (if _ then _ else _) _ _ _ => apply wp_if; intros ?; try discriminate; zb
  | |- exists _ _ _, Wp.ok _ _ _ _ _ _ _ _ /\ _ => eapply ispec_done; side
  end.

Ltac start f := intros n lo hi ml es w Hok Hr Hl; unfold f.
Ltac wgo := repeat wstep.

(** ** Arithmetic and environment *)

Lemma spec_exp rev : ispec 2 (-1) 0 (arithmetic.exp rev).
Proof.
  start @arithmetic.exp. do 4 wstep.
  assert (forall es' lo' hi', ok (n - 1 - 1) lo' hi' ml es' w -> hi' <= hi ->
    wp (lift (arithmetic.exp_loop 256 U256.ONE v v0) ≫= stack_push)
      (fun _ es' w' => exists lo' hi' ml',
         ok (n + -1) lo' hi' ml' es' w' /\ hi' <= hi - 0) es' w) as Hrest.
  { intros. wstep. eapply wp_lift.
    - by apply exp_loop_spec.
    - wgo. }
  do 2 wstep; [|wstep; by eapply Hrest].
  pose proof (log2floor_range v0) as Hlog.
  assert (0 <= arithmetic.log2floor v0 / 8 <= 255).
  { unfold uint in *. split; [apply Z.div_pos; lia|].
    apply Z.div_le_upper_bound; lia. }
  wstep; [destruct (_ >=? _)%rev; lia|].
  eapply Hrest; [done|]. destruct (_ >=? _)%rev; lia.
Qed.

Lemma wp_charge_cold_account rev a c n lo hi ml Q es w :
  ok n lo hi ml es w -> is_address a -> 0 <= c <= 65535 ->
  (forall es' w' hi', ok n 0 hi' ml es' w' -> hi' <= hi -> Q () es' w') ->
  wp (memory.charge_cold_account rev a c) Q es w.
Proof.
  intros Hok Ha Hc HQ. unfold memory.charge_cold_account.
  assert (ok n 0 hi ml es w) by (destruct Hok; by split; try done; lia).
  wstep; [|wstep; eapply HQ; [done|lia]].
  wstep. eapply wp_host; [done|by apply access_account_ok|].
  intros [] w' _ Hw.
  - wstep. eapply HQ; [done|lia].
  - wstep. eapply HQ; [done|lia].
Qed.

Lemma cold_account_cost :
  0 <= ADDITIONAL_COLD_ACCOUNT_ACCESS_COST <= 65535 /\
  0 <= COLD_ACCOUNT_ACCESS_COST <= 65535.
Proof. unfold ADDITIONAL_COLD_ACCOUNT_ACCESS_COST, COLD_ACCOUNT_ACCESS_COST, WARM_STORAGE_READ_COST; lia. Qed.

Ltac cold :=
  eapply wp_charge_cold_account; [side|side|apply cold_account_cost|intros ? ? ? ? ?].

(** Call a host method with its law. *)
Tactic Notation "method" constr(law) :=
  eapply wp_host; [eassumption|eapply law; solve [eauto with martinez]|intros ? ? ? ?].

Lemma spec_address : ispec 0 1 0 external.address.
Proof. start @external.address. wgo. Qed.
Lemma spec_caller : ispec 0 1 0 external.caller.
Proof. start @external.caller. wgo. Qed.
Lemma spec_callvalue : ispec 0 1 0 external.callvalue.
Proof. start @external.callvalue. wgo. Qed.
Lemma spec_calldatasize : ispec 0 1 0 control.calldatasize.
Proof. start @control.calldatasize. wgo. Qed.
Lemma spec_returndatasize : ispec 0 1 0 memory.returndatasize.
Proof. start @memory.returndatasize. pose proof (ok_return_data _ _ _ _ _ _ _ _ Hok). wgo. Qed.
Lemma spec_msize : ispec 0 1 0 memory.msize.
Proof.
  start @memory.msize. pose proof Hok as []. do 2 wstep.
  assert (word (blen (es_memory es))) by (unfold uint, max_memory in *; lia). wgo.
Qed.

Lemma spec_balance rev : ispec 1 0 0 (external.balance rev).
Proof. start @external.balance. do 3 wstep. cold. wstep. method get_balance_ok. wgo. Qed.
Lemma spec_extcodesize rev : ispec 1 0 0 (external.extcodesize rev).
Proof. start @external.extcodesize. do 3 wstep. cold. wstep. method get_code_size_ok. wgo. Qed.
Lemma spec_extcodehash rev : ispec 1 0 0 (memory.extcodehash rev).
Proof. start @memory.extcodehash. do 3 wstep. cold. wstep. method get_code_hash_ok. wgo. Qed.
Lemma spec_selfbalance : ispec 0 1 0 external.selfbalance.
Proof. start @external.selfbalance. do 3 wstep. method get_balance_ok. wgo. Qed.

Lemma spec_push_txcontext acc : (forall c, tx_context_ok c -> word (acc c)) ->
  ispec 0 1 0 (external.push_txcontext acc).
Proof.
  intros Hacc. start @external.push_txcontext. wstep. method get_tx_context_ok. wgo.
Qed.

Lemma spec_blockhash : ispec 1 0 0 external.blockhash.
Proof.
  start @external.blockhash. do 3 wstep. method get_tx_context_ok. do 2 wstep.
  - wstep; [|wgo]. method get_block_hash_ok. wgo.
  - wgo.
Qed.

(** ** Memory and calldata *)

#[local] Hint Resolve word_nonneg : martinez.

Lemma region_size ml off size r : opt_region_in ml off size (Some r) ->
  0 <= memory.num_words (memory.size r) * 6 <= 2 ^ 31.
Proof.
  intros [(_ & Hs & _) _]. pose proof (num_words_range (memory.size r)). lia.
Qed.

Lemma region_size3 ml off size r : opt_region_in ml off size (Some r) ->
  0 <= memory.num_words (memory.size r) * 3 <= 2 ^ 31.
Proof. intros Hr%region_size. lia. Qed.

Lemma spec_mload : ispec 1 0 0 memory.mload.
Proof.
  start @memory.mload. wgo. eapply wp_lift; [apply u256_from_slice_spec; unfold blen in *; lia|].
  assert (word (be_val bs)) by (apply be_val_word; unfold blen in *; lia). wgo.
Qed.

Lemma spec_mstore : ispec 2 (-2) 0 memory.mstore.
Proof.
  start @memory.mstore. do 6 wstep.
  destruct Hreg as (? & ? & ?). wstep; [|wgo].
  unfold U256.to_be_bytes, blen. rewrite length_be_bytes. lia.
Qed.

Lemma spec_mstore8 : ispec 2 (-2) 0 memory.mstore8.
Proof.
  start @memory.mstore8. do 6 wstep.
  destruct Hreg as (? & ? & ?). wstep; [|wgo]. change (blen [_]) with 1. lia.
Qed.

Lemma spec_calldatacopy : ispec 3 (-3) 0 memory.calldatacopy.
Proof.
  start @memory.calldatacopy. wgo.
  destruct r as [r|]; [|wgo]. pose proof (region_size3 _ _ _ _ Hreg). do 2 wstep.
  destruct Hreg as (Hr' & Hoff & Hsz). do 2 wstep. wstep.
  pose proof msg_input as Hin. pose proof (blen_nonneg (input_data msg)).
  unfold bytes_ok, i64_max in Hin.
  assert (0 <= v0) by by apply word_nonneg.
  assert (0 < memory.size r <= u32_max) by apply Hr'. unfold u32_max in *.
  eapply wp_lift; [apply unsigned_sub_some; lia|].
  rewrite !U256.as_usize_small by (unfold uint; lia). wstep.
  destruct (slice_some (input_data msg) (Z.min (blen (input_data msg)) v0)
    (Z.min v1 (blen (input_data msg) - Z.min (blen (input_data msg)) v0)))
    as (bs & Hbs & Hlen); [lia..|].
  eapply wp_lift; [done|]. wstep. wgo.
Qed.

Lemma spec_codecopy code : bytes_ok code -> ispec 3 (-3) 0 (memory.codecopy code).
Proof.
  intros Hc. start @memory.codecopy. wgo.
  destruct r as [r|]; [|wgo].
  pose proof (region_size3 _ _ _ _ Hreg). destruct Hreg as (Hr' & Hoff & Hsz).
  pose proof (blen_nonneg code). unfold bytes_ok, i64_max in Hc.
  assert (0 <= v0) by by apply word_nonneg.
  assert (0 < memory.size r <= u32_max) by apply Hr'. unfold u32_max in *.
  wstep. rewrite U256.as_usize_small by (unfold uint; lia).
  eapply wp_lift; [apply unsigned_sub_some; lia|]. do 3 wstep.
  destruct (slice_some code (Z.min (blen code) v0)
    (Z.min (memory.size r) (blen code - Z.min (blen code) v0)))
    as (bs & Hbs & Hlen); [lia..|].
  eapply wp_lift; [done|]. wstep. wgo.
Qed.

Lemma spec_keccak256 : ispec 2 (-1) 0 memory.keccak256.
Proof.
  start @memory.keccak256. wgo.
  assert (forall bs es' hi', ok (n - 1 - 1) 0 hi' ml' es' w -> hi' <= hi ->
    wp (lift (u256_from_slice (keccak_digest bs)) ≫= stack_push)
      (fun _ es' w' => exists lo' hi' ml',
         ok (n + -1) lo' hi' ml' es' w' /\ hi' <= hi - 0) es' w) as Hrest.
  { intros. wstep. eapply wp_lift.
    - apply u256_from_slice_spec. rewrite length_keccak_digest. lia.
    - assert (word (be_val (keccak_digest bs)))
        by (apply be_val_word; rewrite length_keccak_digest; lia). wgo. }
  destruct r as [r|]; [|wstep; by eapply Hrest].
  pose proof (region_size _ _ _ _ Hreg). do 2 wstep.
  wstep; [apply Hreg|]. eapply Hrest; [done|lia].
Qed.

Lemma spec_returndatacopy : ispec 3 (-3) 0 memory.returndatacopy.
Proof.
  start @memory.returndatacopy. do 10 wstep.
  assert (bytes_ok (es_return_data es'2)) as Hrd by (eapply ok_return_data; eassumption).
  unfold bytes_ok, i64_max in Hrd. wstep; [wgo|].
  assert (0 <= v0) by by apply word_nonneg.
  rewrite U256.as_usize_small by (unfold uint; lia).
  assert (0 <= match r with Some r => memory.size r | None => 0 end <= u32_max) as Hsz.
  { destruct r as [r|]; [|done]. destruct Hreg as [(_ & ? & _) _]. lia. }
  unfold u32_max in Hsz.
  wstep. eapply wp_lift; [apply checked_some; unfold u64_max; lia|].
  wstep; [wgo|]. destruct r as [r|]; [|wgo].
  pose proof (region_size3 _ _ _ _ Hreg). destruct Hreg as (Hr' & Hoff & Hs').
  do 3 wstep.
  destruct (slice_some (es_return_data es'2) v0 (memory.size r)) as (bs & Hbs & Hlen);
    [lia..|].
  eapply wp_lift; [done|]. destruct Hr' as (? & ? & ?). wgo.
Qed.

Lemma spec_calldataload : ispec 1 0 0 control.calldataload.
Proof.
  start @control.calldataload. do 4 wstep. pose proof msg_input as Hin.
  pose proof (blen_nonneg (input_data msg)). unfold bytes_ok, i64_max in Hin.
  assert (0 <= v) by by apply word_nonneg.
  do 2 wstep; [wgo|].
  rewrite U256.as_usize_small by (unfold uint; lia).
  wstep. eapply wp_lift; [apply checked_some; unfold u64_max; lia|].
  wstep. eapply wp_lift; [apply unsigned_sub_some; lia|].
  destruct (slice_some (input_data msg) v (Z.min (v + 32) (blen (input_data msg)) - v))
    as (bs & Hbs & Hlen); [lia..|].
  wstep. eapply wp_lift; [done|]. pose proof (blen_nonneg bs).
  destruct (splice_some (replicate 32 x00) 0 bs) as (data & Hd & Hld);
    [lia|change (blen (replicate 32 x00)) with 32; lia|].
  change (blen (replicate 32 x00)) with 32 in Hld.
  wstep. eapply wp_lift; [done|].
  assert (length data = 32%nat) as Hlen32 by (unfold blen in Hld; lia).
  eapply wp_lift; [unfold U256.from_be_bytes; by rewrite Hlen32|].
  assert (word (be_val data)) by (apply be_val_word; lia). wgo.
Qed.

Lemma spec_extcodecopy rev : ispec 4 (-4) 0 (memory.extcodecopy rev).
Proof.
  start @memory.extcodecopy. wgo.
  assert (forall es' hi', ok (n - 1 - 1 - 1 - 1) 0 hi' ml' es' w -> hi' <= hi ->
    wp (memory.charge_cold_account rev (u256_to_address v)
          ADDITIONAL_COLD_ACCOUNT_ACCESS_COST;;
        match r with
        | Some region =>
            let src := U256.as_usize (Z.min memory.MAX_BUFFER_SIZE v1) in
            let code := replicate (Z.to_nat (memory.size region)) x00 in
            '(copied, code) ← host (copy_code (u256_to_address v) src code);
            let code := take (Z.to_nat copied) code in
            memory.write_memory (memory.offset region) code;;
            if blen code <? memory.size region
            then memory.fill0 (memory.offset region + blen code)
                   (memory.size region - blen code)
            else mret ()
        | None => mret ()
        end)
      (fun _ es' w' => exists lo' hi' ml',
         ok (n + -4) lo' hi' ml' es' w' /\ hi' <= hi - 0) es' w) as Hrest.
  { intros. wstep. cold. destruct r as [r|]; [|wgo]. cbv zeta. wstep.
    destruct Hreg as ((? & ? & ?) & ? & ?).
    eapply wp_host; [done|apply copy_code_ok; [by auto with martinez|]|].
    { apply (wrap_uint 64). lia. }
    intros [copied code] w'' [Hc Hl'] Hw''. simpl in Hc, Hl'.
    rewrite blen_replicate in Hc by lia. rewrite length_replicate in Hl'.
    assert (blen (take (Z.to_nat copied) code) = copied) as Hlen.
    { unfold blen. rewrite length_take. lia. }
    wgo. }
  destruct r as [r|]; [|wstep; eapply Hrest; [done|lia]].
  pose proof (region_size3 _ _ _ _ Hreg). wstep. eapply Hrest; [done|lia].
Qed.

(** ** Control, logs and storage *)

Lemma spec_ret : ispec 2 0 0 control.ret.
Proof.
  start @control.ret. wgo. destruct r as [r|]; [|wgo].
  wstep. wstep; [apply Hreg|]. unfold Wp.wp, modify.
  eapply (ispec_done n _ 0 hi hi ml'); [|lia|lia].
  assert (blen bs <= u32_max) by (destruct Hreg as [(_ & ? & _) _]; lia).
  match goal with H : Wp.ok _ _ _ _ _ ml' _ _ |- _ => destruct H end.
  split; try done; simpl; try lia.
  unfold bytes_ok, u32_max, i64_max in *. lia.
Qed.

Lemma wp_op_jump map n lo hi ml Q es w :
  ok n lo hi ml es w -> 0 < n -> blen map <= i64_max ->
  (forall pc es', index map pc = Some true -> ok (n - 1) lo hi ml es' w -> Q pc es' w) ->
  wp (control.op_jump map) Q es w.
Proof.
  intros Hok Hn Hm HQ. unfold control.op_jump, control.JumpdestMap_contains. do 2 wstep.
  assert (0 <= v) by by apply word_nonneg. wstep.
  destruct (Z.ltb_spec v (blen map)) as [Hlt|Hge].
  - rewrite U256.as_usize_small by (unfold uint, i64_max in *; lia).
    destruct (index_some map v) as [b Hb]; [lia|].
    eapply wp_lift; [done|]. destruct b; [|wgo]. wstep. by eapply HQ.
  - eapply wp_lift; [done|]. wgo.
Qed.

Lemma wp_pop_topics k n lo hi ml Q es w :
  ok n lo hi ml es w -> Z.of_nat k <= n ->
  (forall ts es', Forall word ts -> ok (n - Z.of_nat k) lo hi ml es' w -> Q ts es' w) ->
  wp (external.pop_topics k) Q es w.
Proof.
  revert n Q es. induction k as [|k IH]; intros n Q es Hok Hk HQ; cbn [external.pop_topics].
  - wstep. apply HQ; [done|]. by replace (n - Z.of_nat 0) with n by lia.
  - wgo. eapply IH; [done|lia|]. intros ts es2 Hts Hes. wstep. apply HQ.
    + by constructor.
    + by replace (n - Z.of_nat (S k)) with (n - 1 - Z.of_nat k) by lia.
Qed.

(** A method that changes the chain state, in a frame that is not static. *)
Ltac mutator law :=
  eapply wp_host; [eassumption
    |match goal with H : is_static _ = false |- _ => rewrite H end;
     apply law; solve [eauto with martinez]
    |intros ? ? _ ?].

Lemma spec_do_log k : (k <= 4)%nat ->
  ispec (2 + Z.of_nat k) (- 2 - Z.of_nat k) 0 (external.do_log k).
Proof.
  intros Hk. start @external.do_log. do 3 wstep; [wgo|]. wgo.
  assert (forall es2 hi2, ok (n - 1 - 1) 0 hi2 ml' es2 w -> hi2 <= hi ->
    wp (topics ← external.pop_topics k;
        data ← match r with
               | Some region => memory.read_region region
               | None => mret []
               end;
        host (emit_log (recipient msg) data topics))
      (fun _ es' w' => exists lo' hi' ml',
         ok (n + (- 2 - Z.of_nat k)) lo' hi' ml' es' w' /\ hi' <= hi - 0) es2 w) as Hrest.
  { intros es2 hi2 Hes2 Hhi2. wstep. eapply wp_pop_topics; [done|lia|].
    intros ts es3 Hts Hes. wstep.
    assert (forall data, wp (host (emit_log (recipient msg) data ts))
      (fun _ es' w' => exists lo' hi' ml',
         ok (n + (- 2 - Z.of_nat k)) lo' hi' ml' es' w' /\ hi' <= hi - 0) es3 w).
    { intros data. mutator emit_log_ok. wgo. }
    destruct r as [r|]; [wstep; [apply Hreg|done]|by wstep]. }
  destruct r as [r|]; [|wstep; eapply Hrest; [done|lia]].
  assert (0 < memory.size r <= 2 ^ 32 - 1) by apply Hreg.
  wstep. eapply Hrest; [done|lia].
Qed.

Lemma spec_sload rev : ispec 1 0 0 (external.sload rev).
Proof.
  start @external.sload. do 5 wstep.
  assert (forall es2 w' lo' hi2, ok (n - 1) lo' hi2 ml es2 w' -> hi2 <= hi ->
    wp (host (get_storage (recipient msg) v) ≫= stack_push)
      (fun _ es' w' => exists lo' hi' ml',
         ok (n + 0) lo' hi' ml' es' w' /\ hi' <= hi - 0) es2 w') as Hrest.
  { intros. wstep. method get_storage_ok. wgo. }
  wstep; [|wstep; eapply Hrest; [done|lia]].
  wstep. method access_storage_ok.
  destruct a; wstep; (eapply Hrest; [done|unfold COLD_SLOAD_COST, WARM_STORAGE_READ_COST; lia]).
Qed.

Lemma sstore_cost_spec rev cost s : cost = 0 \/ cost = COLD_SLOAD_COST ->
  exists c, external.sstore_cost rev cost s = Some c /\ 100 <= c <= 65535.
Proof.
  unfold COLD_SLOAD_COST. intros [-> | ->];
  destruct s, rev; (eexists; split; [vm_compute; reflexivity|lia]).
Qed.

Lemma spec_sstore rev : ispec 2 (-2) 100 (external.sstore rev).
Proof.
  start @external.sstore. do 3 wstep; [wgo|]. do 3 wstep; [wgo|]. do 5 wstep.
  assert (forall w' cost, cost = 0 \/ cost = COLD_SLOAD_COST ->
    ok (n - 1 - 1) lo hi ml es'0 w' ->
    wp (s ← host (set_storage (recipient msg) v v0);
        cost ← lift (external.sstore_cost rev cost s); charge cost)
      (fun _ es' w' => exists lo' hi' ml',
         ok (n + -2) lo' hi' ml' es' w' /\ hi' <= hi - 100) es'0 w') as Hrest.
  { intros w' cost Hc Hes. wstep. mutator set_storage_ok.
    destruct (sstore_cost_spec rev cost a Hc) as (c & Hcs & Hr').
    wstep. eapply wp_lift; [done|]. wgo. }
  wstep; [|wstep; apply Hrest; [by left|done]].
  wstep. method access_storage_ok. destruct a; wstep; apply Hrest; auto.
Qed.

Lemma spec_selfdestruct rev : ispec 1 (-1) 0 (external.selfdestruct rev).
Proof.
  start @external.selfdestruct. do 3 wstep; [wgo|]. do 3 wstep. cold. wstep.
  assert (forall es2 w' hi2, ok (n - 1) 0 hi2 ml es2 w' -> hi2 <= hi ->
    wp (host (Host.selfdestruct (recipient msg) (u256_to_address v)))
      (fun _ es' w' => exists lo' hi' ml',
         ok (n + -1) lo' hi' ml' es' w' /\ hi' <= hi - 0) es2 w') as Hrest.
  { intros. mutator selfdestruct_ok. wgo. }
  wstep; [|wstep; by eapply Hrest].
  assert (forall es2 w2, ok (n - 1) 0 hi' ml es2 w2 -> forall c : bool,
    wp (if c then e ← host (account_exists (u256_to_address v));
          if (e : bool) then mret () else charge 25000 else mret ())
      (fun _ es' w' => wp (host (Host.selfdestruct (recipient msg) (u256_to_address v)))
      (fun _ es' w' => exists lo' hi' ml',
         ok (n + -1) lo' hi' ml' es' w' /\ hi' <= hi - 0) es' w') es2 w2) as Hmid.
  { intros es2 w2 Hes c. wstep; [|wstep; by eapply Hrest].
    wstep. method account_exists_ok. wstep.
    - wstep. by eapply Hrest.
    - wstep. eapply Hrest; [done|lia]. }
  wstep. wstep; [wstep; exact (Hmid _ _ ltac:(eassumption) true)|].
  wstep. method get_balance_ok. wstep. exact (Hmid _ _ ltac:(eassumption) (negb (a =? 0))).
Qed.

(** ** Calls *)

Lemma wp_set_return_data d n lo hi ml (Q : unit -> ExecutionState -> W -> Prop) es w :
  ok n lo hi ml es w -> bytes_ok d ->
  (forall es', ok n lo hi ml es' w -> Q () es' w) ->
  wp (modify (fun es => with_return_data es d)) Q es w.
Proof. intros [] Hd HQ. apply HQ. by split. Qed.

Lemma wp_call_gas rev requested n lo hi ml Q es w :
  ok n lo hi ml es w -> word requested ->
  (forall v, 0 <= v <= hi -> ok n v hi ml es w -> Q v es w) ->
  wp (call.call_gas rev requested) Q es w.
Proof.
  intros Hok Hreq HQ. unfold call.call_gas. pose proof Hok as [].
  set (mg := if requested <? i64_max then U256.as_usize requested else i64_max).
  assert (0 <= mg).
  { subst mg. case_if; [|by unfold i64_max]. apply (wrap_uint 64). lia. }
  assert (0 <= Z.quot (es_gas_left es) 64 <= es_gas_left es).
  { rewrite Z.quot_div_nonneg by lia. split; [apply Z.div_pos; lia|].
    apply Z.div_le_upper_bound; lia. }
  wgo; [apply HQ|eapply HQ]; try lia; split; try done; lia.
Qed.

Lemma wp_call_result r off size mg result n lo hi ml Q es w :
  ok n lo hi ml es w -> 0 < n -> opt_region_in ml off size r ->
  0 <= mg <= lo -> output_ok mg result ->
  (forall es' lo' hi', ok n lo' hi' ml es' w -> hi' <= hi -> Q () es' w) ->
  wp (call.call_result r mg result) Q es w.
Proof.
  intros Hok Hn Hreg Hmg [Hg Hb] HQ. unfold call.call_result. pose proof Hok as [].
  wstep. eapply wp_set_return_data; [done|done|]. intros es1 Hes1. wstep.
  eapply wp_stack_set; [done|by destruct (status_code result)|lia|]. intros es2 Hes2.
  wstep.
  assert (forall es3, ok n lo hi ml es3 w ->
    wp (gas_used ← lift (i64_checked (mg - gas_left result)); gas_add (- gas_used))
      Q es3 w) as Hrest.
  { intros es3 Hes3. wstep. eapply wp_lift; [apply checked_some; unfold i64_max in *; lia|].
    eapply wp_gas_add; [done|lia|lia|]. intros es4 Hes4. eapply HQ; [done|lia]. }
  destruct r as [r|]; [|wstep; by apply Hrest].
  destruct Hreg as ((? & ? & ?) & ? & ?). pose proof (blen_nonneg (output_data result)).
  wstep; [|wstep; by apply Hrest].
  destruct (slice_some (output_data result) 0
    (Z.min (memory.size r) (blen (output_data result)))) as (bs & Hbs & Hl); [lia..|].
  wstep. eapply wp_lift; [done|]. wstep. by apply Hrest.
Qed.

(** The messages of [do_call!] respect the static mode of the frame. *)
Lemma call_sends kind st dst v mg input :
  (kind = CallKind_Call \/ kind = CallCode \/ kind = DelegateCall) ->
  is_address dst -> word v -> 0 <= mg <= i64_max -> bytes_ok input ->
  depth msg < 1024 ->
  (is_static msg = true -> kind = CallKind_Call -> v = 0) ->
  sends (is_static msg) (depth msg) {|
    kind := kind; is_static := st || is_static msg; depth := depth msg + 1;
    gas := mg;
    recipient := if call.is_call kind then dst else recipient msg;
    code_address := dst;
    sender := if call.is_delegate kind then sender msg else recipient msg;
    value := if call.is_delegate kind then value msg else v;
    input_data := input |}.
Proof.
  intros Hk Hd Hv Hg Hi Hdep Hst. destruct Hmsg as (? & ? & ? & ? & ? & ? & ?).
  split; [done|]. split.
  { split; [simpl; lia|]. split; [done|].
    destruct Hk as [->|[->| ->]]; simpl; by splits. }
  split; [by destruct Hk as [->|[->| ->]]|].
  split; [by destruct Hk as [->|[->| ->]]|].
  intros Hs. simpl. rewrite Hs, orb_true_r. split; [done|].
  intros ->. simpl. by apply Hst.
Qed.

Lemma wp_perform_call rev kind st requested dst v input r off size n lo hi ml Q es w :
  ok n lo hi ml es w -> 0 < n ->
  (kind = CallKind_Call \/ kind = CallCode \/ kind = DelegateCall) ->
  word requested -> is_address dst -> word v -> bytes_ok input ->
  (is_static msg = true -> kind = CallKind_Call -> v = 0) ->
  opt_region_in ml off size r -> (v <> 0 -> hi + 2300 <= i64_max) ->
  (forall es' w' lo' hi', ok n lo' hi' ml es' w' ->
     hi' <= hi + (if v =? 0 then 0 else 2300) -> Q () es' w') ->
  wp (call.perform_call rev kind st msg requested dst v (depth msg + 1) input r) Q es w.
Proof.
  intros Hok Hn Hk Hreq Hd Hv Hi Hst Hreg Hhi HQ. unfold call.perform_call.
  wstep. eapply wp_call_gas; [done|done|]. intros mg Hmg Hok1.
  assert (forall es1 mg1 hi1, ok n mg1 hi1 ml es1 w -> 0 <= mg1 ->
    hi1 <= hi + (if v =? 0 then 0 else 2300) ->
    wp (modify (fun es => with_return_data es []);;
        go ← (if depth msg <? 1024 then
                if negb (v =? 0) then
                  b ← host (get_balance (recipient msg)); mret (negb (b <? v))
                else mret true
              else mret false);
        if (go : bool) then
          result ← host (call (Call_Call {|
            EvmState.kind := kind; is_static := st || is_static msg;
            depth := depth msg + 1; gas := mg1;
            recipient := if call.is_call kind then dst else recipient msg;
            sender := if call.is_delegate kind then sender msg else recipient msg;
            input_data := input;
            value := if call.is_delegate kind then value msg else v;
            code_address := dst |}));
          call.call_result r mg1 result
        else mret ()) Q es1 w) as Hrest.
  { intros es1 mg1 hi1 Hes1 Hmg1 Hhi1. wstep.
    eapply wp_set_return_data; [done|by unfold bytes_ok|]. intros es2 Hes2.
    assert (forall w2, ok n mg1 hi1 ml es2 w2 -> depth msg < 1024 ->
      wp (result ← host (call (Call_Call {|
            EvmState.kind := kind; is_static := st || is_static msg;
            depth := depth msg + 1; gas := mg1;
            recipient := if call.is_call kind then dst else recipient msg;
            sender := if call.is_delegate kind then sender msg else recipient msg;
            input_data := input;
            value := if call.is_delegate kind then value msg else v;
            code_address := dst |}));
          call.call_result r mg1 result) Q es2 w2) as Hcall.
    { intros w2 Hw2 Hdep. wstep. pose proof Hw2 as [].
      eapply wp_host; [done|apply call_ok, call_sends; (done || lia)|].
      intros result w3 Hres Hw3. eapply wp_call_result; [done|done|done|lia|done|].
      intros es3 lo3 hi3 Hes3 Hhi3. eapply HQ; [done|lia]. }
    do 2 wstep.
    - wstep.
      + wstep. method get_balance_ok. do 2 wstep; [by apply Hcall|].
        wstep. by eapply HQ.
      + wstep. apply (Hcall w); assumption.
    - do 2 wstep. by eapply HQ. }
  do 2 wstep.
  - wstep. eapply wp_lift; [apply checked_some; unfold i64_max in *; lia|].
    wstep. eapply wp_gas_add; [done|lia|lia|]. intros es1 Hes1. wstep.
    eapply Hrest; [done|lia|]. rewrite (proj2 (Z.eqb_neq _ _)) by done. lia.
  - wstep. eapply Hrest; [done|lia|]. subst. simpl. lia.
Qed.

Lemma wp_region_data r off size n lo hi ml Q es w :
  ok n lo hi ml es w -> opt_region_in ml off size r ->
  (forall bs, bytes_ok bs -> Q bs es w) -> wp (call.region_data r) Q es w.
Proof.
  intros Hok Hreg HQ. unfold call.region_data. destruct r as [r|].
  - wstep; [apply Hreg|]. apply HQ. destruct Hreg as [(_ & ? & _) _].
    unfold bytes_ok, i64_max, u32_max in *. lia.
  - wstep. by apply HQ.
Qed.

Lemma opt_region_mono ml ml' off size r :
  opt_region_in ml off size r -> ml <= ml' -> opt_region_in ml' off size r.
Proof.
  intros Hr Hm. destruct r as [r|]; [|done]. destruct Hr as ((? & ? & ?) & ? & ?).
  split; [|done]. unfold region_in. lia.
Qed.

(** The part of [do_call!] after the operands have been popped. *)
Lemma wp_do_call_rest rev kind st requested d v ioff isize ooff osize n lo hi ml
    (hi0 : Z) es w :
  ok n lo hi ml es w -> n < STACK_SIZE -> 0 <= n ->
  (kind = CallKind_Call \/ kind = CallCode \/ kind = DelegateCall) ->
  word requested -> word v -> word ioff -> word isize -> word ooff -> word osize ->
  hi <= hi0 ->
  wp (stack_push U256.ZERO;;
      memory.charge_cold_account rev (u256_to_address d) ADDITIONAL_COLD_ACCOUNT_ACCESS_COST;;
      input_region ← memory.get_memory_region ioff isize ≫= or_out_of_gas;
      output_region ← memory.get_memory_region ooff osize ≫= or_out_of_gas;
      self ← gets es_message;
      depth_ ← lift (i32_checked (depth self + 1));
      input ← call.region_data input_region;
      cost ← (if call.is_call kind then
                if negb (v =? 0) && is_static self then throw StaticModeViolation
                else if negb (v =? 0) || (rev <? Spurious)%rev then
                  e ← host (account_exists (u256_to_address d));
                  mret (if (e : bool) then if negb (v =? 0) then 9000 else 0
                        else (if negb (v =? 0) then 9000 else 0) + 25000)
                else mret (if negb (v =? 0) then 9000 else 0)
              else mret (if negb (v =? 0) then 9000 else 0));
      charge cost;;
      call.perform_call rev kind st self requested (u256_to_address d) v depth_ input
        output_region)
    (fun _ es' w' => exists lo' hi' ml',
       ok (n + 1) lo' hi' ml' es' w' /\ hi' <= hi0 - 0) es w.
Proof.
  intros Hok Hn0 Hn Hk Hreq Hv Hio His Hoo Hos Hhi0.
  do 3 wstep. cold. wgo.
  destruct Hmsg as (Hdepth & _).
  eapply wp_lift; [apply checked_some; lia|]. wstep.
  eapply wp_region_data; [done|by eapply opt_region_mono|]. intros input Hinput.
  assert (forall w2 cost, ok (n + 1) 0 hi' ml'0 es'2 w2 ->
    (if negb (v =? 0) then 9000 else 0) <= cost <= 34000 ->
    (is_static msg = true -> kind = CallKind_Call -> v = 0) ->
    wp (charge cost;; call.perform_call rev kind st msg requested (u256_to_address d) v
          (depth msg + 1) input r0)
      (fun _ es' w' => exists lo' hi' ml',
         ok (n + 1) lo' hi' ml' es' w' /\ hi' <= hi0 - 0) es'2 w2) as Hrest.
  { intros w2 cost Hw2 Hcost Hst. pose proof Hw2 as [].
    assert (0 <= cost) by (destruct (negb _); lia).
    do 2 wstep. eapply wp_perform_call; [done|lia|done|done|by auto with martinez|done|done|done|done| |].
    - intros Hv0. rewrite (proj2 (Z.eqb_neq _ _)) in Hcost by done. simpl in Hcost. lia.
    - intros es3 w3 lo3 hi3 Hes3 Hhi3. eapply ispec_done; [done|lia|].
      destruct (v =? 0); simpl in *; lia. }
  assert (0 <= (if negb (v =? 0) then 9000 else 0) <= 9000) by (destruct (negb _); lia).
  wstep. wstep; [wstep|].
  - wgo.
  - assert (is_static msg = true -> kind = CallKind_Call -> v = 0) as Hst.
    { intros Hs _. match goal with H : _ && _ = false |- _ => rewrite Hs, andb_true_r in H end.
      by zb. }
    wstep; [|wstep; apply (Hrest w'); (done || lia)].
    wstep. method account_exists_ok. wstep. apply (Hrest w'0); [done| |done].
    destruct a; lia.
  - wstep. apply (Hrest w'); [done|lia|].
    intros _ ->. done.
Qed.

Lemma spec_do_call rev kind st :
  (kind = CallKind_Call \/ kind = CallCode \/ kind = DelegateCall) ->
  (if st || call.is_delegate kind then ispec 6 (-5) 0 else ispec 7 (-6) 0)
    (call.do_call rev kind st).
Proof.
  intros Hk. destruct (st || call.is_delegate kind) eqn:E;
    start @call.do_call; do 4 wstep; rewrite E.
  - do 10 wstep. eapply wp_mono.
    + eapply (wp_do_call_rest rev kind st _ _ _ _ _ _ _ _ _ _ _ hi); try done; lia.
    + intros _ es2 w2 (? & ? & ? & ? & ?). eapply ispec_done; [done|lia|lia].
  - do 10 wstep. eapply wp_mono.
    + eapply (wp_do_call_rest rev kind st _ _ _ _ _ _ _ _ _ _ _ hi); try done; lia.
    + intros _ es2 w2 (? & ? & ? & ? & ?). eapply ispec_done; [done|lia|lia].
Qed.

(** ** Contract creation *)

Lemma wp_perform_create rev endowment off size salt r n lo hi ml hi0 es w :
  ok n lo hi ml es w -> 0 < n -> is_static msg = false -> word endowment ->
  (forall s, salt = Some s -> word s) -> opt_region_in ml off size r ->
  hi <= hi0 ->
  wp (call.perform_create rev msg endowment off size salt)
    (fun _ es' w' => exists lo' hi' ml',
       ok n lo' hi' ml' es' w' /\ hi' <= hi0 - 0) es w.
Proof.
  intros Hok Hn Hst He Hsalt Hreg Hhi0. unfold call.perform_create.
  assert (forall w2 (go : bool), ok n lo hi ml es w2 -> (go = true -> depth msg < 1024) ->
    wp (if go then
      g ← gets es_gas_left;
      let msg_gas := if (rev >=? Tangerine)%rev then g - Z.quot g 64 else g in
      m ← gets es_memory;
      initcode ← (if size =? 0 then mret []
                  else lift (slice m (U256.as_usize off) (U256.as_usize size)));
      depth_ ← lift (i32_checked (depth msg + 1));
      result ← host (call (Call_Create {|
        cm_salt := salt; cm_gas := msg_gas; cm_depth := depth_;
        cm_initcode := initcode; cm_sender := recipient msg;
        cm_endowment := endowment |}));
      used ← lift (i64_checked (msg_gas - gas_left result));
      gas_add (- used);;
      modify (fun es => with_return_data es (output_data result));;
      match status_code result with
      | Success => a ← lift (create_address result); stack_set 0 (address_to_u256 a)
      | _ => mret ()
      end
    else mret ())
    (fun _ es' w' => exists lo' hi' ml',
       ok n lo' hi' ml' es' w' /\ hi' <= hi0 - 0) es w2) as Hrest.
  { intros w2 go Hw2 Hdep. wstep; [|wgo].
    specialize (Hdep ltac:(assumption)). pose proof Hw2 as [].
    do 2 wstep. cbv zeta.
    set (mg := if (rev >=? Tangerine)%rev then _ else _).
    assert (0 <= mg <= es_gas_left es) as Hmg.
    { subst mg. destruct (rev >=? Tangerine)%rev; [|lia].
      rewrite Z.quot_div_nonneg by lia.
      assert (0 <= es_gas_left es / 64) by (apply Z.div_pos; lia).
      assert (es_gas_left es / 64 <= es_gas_left es) by (apply Z.div_le_upper_bound; lia).
      lia. }
    clearbody mg. do 3 wstep.
    assert (forall initcode, bytes_ok initcode ->
      wp (depth_ ← lift (i32_checked (depth msg + 1));
          result ← host (call (Call_Create {|
            cm_salt := salt; cm_gas := mg; cm_depth := depth_;
            cm_initcode := initcode; cm_sender := recipient msg;
            cm_endowment := endowment |}));
          used ← lift (i64_checked (mg - gas_left result));
          gas_add (- used);;
          modify (fun es => with_return_data es (output_data result));;
          match status_code result with
          | Success => a ← lift (create_address result); stack_set 0 (address_to_u256 a)
          | _ => mret ()
          end)
        (fun _ es' w' => exists lo' hi' ml',
           ok n lo' hi' ml' es' w' /\ hi' <= hi0 - 0) es w2) as Hcall.
    { intros initcode Hinit. destruct Hmsg as (Hdepth & _). wstep.
      eapply wp_lift; [apply checked_some; lia|]. wstep.
      eapply wp_host; [done|rewrite Hst; apply create_ok|].
      { unfold creates; simpl. splits; try done; try lia. apply msg_recipient. }
      intros result w3 [[Hg Hb] Hsucc] Hw3. wstep. simpl in Hg.
      eapply wp_lift; [apply checked_some; unfold i64_max in *; lia|]. wstep.
      assert (ok n (es_gas_left es) hi ml es w3) as Hw4
        by (destruct Hw3; by split; try done; lia).
      eapply wp_gas_add; [exact Hw4|lia|lia|]. intros es4 Hes4. wstep.
      eapply wp_set_return_data; [done|done|]. intros es5 Hes5.
      destruct (status_code result) eqn:Esc; try (wstep; eapply ispec_done; [done|lia|lia]).
      destruct Hsucc as (a & Ha & Hav); [done|].
      wstep. eapply wp_lift; [done|]. wgo. }
    wstep.
    - wstep. by apply Hcall.
    - destruct r as [r|]; [|by destruct Hreg]. destruct Hreg as ((? & ? & ?) & ? & ?).
      unfold max_memory, u32_max in *.
      rewrite !U256.as_usize_small by (unfold uint; lia).
      destruct (slice_some (es_memory es) off size) as (bs & Hbs & Hl); [lia..|].
      eapply wp_lift; [done|]. apply Hcall. unfold bytes_ok, i64_max. lia. }
  wstep. wstep; [wstep|].
  - wstep. by apply (Hrest w true).
  - wstep. method get_balance_ok. wstep. by apply (Hrest w' (negb (a <? endowment))).
  - wstep. by apply (Hrest w false).
Qed.

Lemma spec_do_create rev (c2 : bool) :
  (if c2 then ispec 4 (-3) 0 else ispec 3 (-2) 0) (call.do_create rev c2).
Proof.
  destruct c2; start @call.do_create; (do 3 wstep; [wgo|]); do 8 wstep.
  - do 3 wstep.
    assert (forall es2 hi2, ok (n - 1 - 1 - 1 - 1) 0 hi2 ml' es2 w -> hi2 <= hi ->
      wp (mret (Some v2))
        (fun salt es' w' => wp (stack_push U256.ZERO;;
           modify (fun es => with_return_data es []);;
           call.perform_create rev msg v v0 v1 salt)
        (fun _ es' w' => exists lo' hi' ml',
           ok (n + -3) lo' hi' ml' es' w' /\ hi' <= hi - 0) es' w') es2 w) as Hrest.
    { intros es2 hi2 Hes2 Hhi2. do 4 wstep.
      eapply wp_set_return_data; [done|by unfold bytes_ok|]. intros es3 Hes3.
      replace (n + -3) with (n - 1 - 1 - 1 - 1 + 1) by lia.
      eapply wp_perform_create; [done|lia|done|done| |done|lia]. by intros ? [= <-]. }
    wstep. destruct r as [r|]; [|wstep; eapply Hrest; [done|lia]].
    pose proof (region_size _ _ _ _ Hreg). wstep. eapply Hrest; [done|lia].
  - do 5 wstep.
    eapply wp_set_return_data; [done|by unfold bytes_ok|]. intros es3 Hes3.
    replace (n + -2) with (n - 1 - 1 - 1 + 1) by lia.
    eapply wp_perform_create; [done|lia|done|done|done|done|lia].
Qed.

End safety.
