(* ===== verification/InterpSafety.v ===== *)
(** Safety and termination of the interpreter loop
    (src/execution/evm/interpreter.rs): the dispatch of an instruction, one
    iteration of the loop and the whole run of a frame. *)
From S2P Require Import Prelude Word Properties EvmState Host Arith MemoryOps External Interpreter Analysis StackSafety InstrSpec Wp InstrSafety.
From Stdlib Require Import ZArith Lia Strings.Byte.
From stdpp Require Import base list option numbers.
#[local] Open Scope Z_scope.

Section interp.
Context {W : Type} `{Host W, Tracer W} {I : bool -> Z -> W -> Prop}.
Context `{!HostInv _ I, !TracerInv _ I, I256Laws, Keccak}.
Context (msg : InterpreterMessage) (Hmsg : message_ok msg).
Context (c : Bytes) (s : AnalyzedCode) (e : Z) (Hs : analysis_of c s e) (Hc : bytes_ok c).
Context (rev : Revision).

Abbreviation ok := (ok I msg).
Abbreviation wp := (wp I msg).
Abbreviation inv := (inv I msg).
Abbreviation ispec := (ispec (I := I) msg).

(** After the instruction [op]: the state is well-formed, [loss] gas is gone,
    and an instruction that goes on has changed the height by [chg] and reached
    another instruction boundary. *)
Definition flow_post (op : OpCode) (n chg hi loss : Z) (f : flow)
    (es : ExecutionState) (w : W) : Prop :=
  match f with
  | Continue pc =>
      is_terminal op = false /\ boundary c pc /\
      exists lo' hi' ml', ok (n + chg) lo' hi' ml' es w /\ hi' <= hi - loss
  | Break _ => exists n' lo' hi' ml', ok n' lo' hi' ml' es w /\ hi' <= hi
  end.

(** The instruction [m] of the opcode [op] at [pc] behaves as [PROPERTIES]
    declares. *)
Definition op_spec (op : OpCode) (m : M W flow) : Prop :=
  forall p n lo hi ml es w,
    properties_of op = Some p -> ok n lo hi ml es w ->
    prop_stack_height_required p <= n ->
    n + stack_height_change p <= STACK_SIZE ->
    wp m (flow_post op n (stack_height_change p) hi (extra_cost op)) es w.

Lemma op_spec_next op pc m req chg loss :
  ispec req chg loss m -> is_terminal op = false -> boundary c (pc + 1) ->
  properties_of op = Some (Properties_new req chg) -> extra_cost op <= loss ->
  op_spec op (next pc m).
Proof.
  intros Hm Ht Hb Hp Hl p n lo hi ml es w Hp' Hok Hreq Hchg. simplify_eq. simpl in *.
  apply wp_bind. eapply wp_mono; [by eapply Hm|].
  intros [] es' w' (lo' & hi' & ml' & Hok' & Hhi). apply wp_ret. split; [done|].
  split; [done|]. exists lo', hi', ml'. split; [done|lia].
Qed.

Lemma code_bytes : bytes_ok (code s).
Proof.
  by rewrite (an_code _ _ _ Hs).
Qed.

Lemma code_len : blen (code s) <= i64_max.
Proof. exact code_bytes. Qed.

Lemma map_bytes : blen (jumpdest_map s) <= i64_max.
Proof.
  unfold blen. rewrite (an_map_len _ _ _ Hs). unfold bytes_ok, i64_max, blen in *. lia.
Qed.

Lemma spec_gas : ispec 0 1 0
  (g ← gets es_gas_left; g ← lift (checked 0 (2 ^ 128 - 1) g); stack_push g).
Proof.
  intros n lo hi ml es w Hok Hr Hl. apply wp_bind, wp_gets, wp_bind. pose proof Hok as [].
  eapply wp_lift; [apply checked_some; unfold i64_max in *; lia|].
  eapply wp_push; [done|unfold uint, i64_max in *; lia|lia|].
  intros es' Hes'. exists lo, hi, ml. split; [done|lia].
Qed.

Lemma spec_mret : ispec 0 0 0 (mret ()).
Proof.
  intros n lo hi ml es w Hok Hr Hl. apply wp_ret. exists lo, hi, ml.
  rewrite Z.add_0_r. split; [done|lia].
Qed.

Lemma spec_pc pc : 0 <= pc <= u64_max -> ispec 0 1 0 (stack_push pc).
Proof.
  intros Hpc n lo hi ml es w Hok Hr Hl.
  eapply wp_push; [done|unfold uint, u64_max in *; lia|lia|].
  intros es' Hes'. exists lo, hi, ml. split; [done|lia].
Qed.

Lemma spec_tx_accessor op acc : tx_accessor op = Some acc ->
  ispec 0 1 0 (external.push_txcontext acc).
Proof.
  intros Ha. apply spec_push_txcontext. intros ctx Hctx. revert Ha.
  unfold tx_accessor. destruct Hctx as (? & ? & ? & ? & ? & ? & ? & ? & ?).
  repeat (case_if; [intros [= <-]; first [done
    | by apply (uint_mono 160 256) | by apply (uint_mono 64 256)]|]). done.
Qed.

Lemma tx_accessor_properties op acc : tx_accessor op = Some acc ->
  properties_of op = Some (Properties_new 0 1) /\ is_terminal op = false /\
  extra_cost op <= 0 /\ op <> OpCode.STOP /\ op_width op = 1.
Proof. unfold tx_accessor. by repeat (case_if; [subst; intros _|]). Qed.

#[local] Hint Resolve ispec_stack code_bytes code_len map_bytes msg_recipient : instr.
#[local] Hint Resolve op_add op_mul op_sub op_div op_sdiv op_modulo op_smod op_addmod
  op_mulmod op_signextend op_lt op_gt op_slt op_sgt op_eq op_iszero op_and op_or op_xor
  op_not op_byte op_shl op_shr op_sar op_pop op_codesize op_push1 op_dup op_swap : instr.
#[local] Hint Resolve spec_exp spec_keccak256 spec_address spec_balance spec_caller
  spec_callvalue spec_calldataload spec_calldatasize spec_calldatacopy spec_codecopy
  spec_extcodesize spec_extcodecopy spec_returndatasize spec_returndatacopy
  spec_extcodehash spec_blockhash spec_selfbalance spec_mload spec_mstore spec_mstore8
  spec_msize spec_sload spec_sstore spec_gas spec_mret : instr.

(** Where control goes after the instruction [op] at [pc]. *)
Abbreviation falls_to op pc :=
  (op <> OpCode.STOP -> boundary c (pc + op_width op)) (only parsing).

(** An arm that falls through to [pc + 1]. *)
Ltac arm Hb :=
  intros [= <-]; subst;
  eapply op_spec_next;
    [solve [eauto with instr] | reflexivity | apply Hb; discriminate
    | vm_compute; reflexivity | vm_compute; discriminate].

Lemma exec_alu_spec op pc m :
  exec_alu rev op pc = Some m -> falls_to op pc -> op_spec op m.
Proof.
  intros Hm Hb. revert Hm. unfold exec_alu.
  case_if; [|repeat (case_if; [arm Hb|]); done].
  intros [= <-] p n lo hi ml es w Hp Hok _ _. apply wp_ret. exists n, lo, hi, ml.
  split; [done|lia].
Qed.

Lemma exec_env_spec op pc m :
  exec_env s rev op pc = Some m -> falls_to op pc -> op_spec op m.
Proof.
  intros Hm Hb. revert Hm. unfold exec_env. repeat (case_if; [arm Hb|]).
  destruct (tx_accessor op) as [acc|] eqn:Ha; [|done]. intros [= <-].
  destruct (tx_accessor_properties _ _ Ha) as (Hp & Ht & Hx & Hst & Hw).
  eapply op_spec_next; [by eapply spec_tx_accessor|done| |done|done].
  rewrite <- Hw. by apply Hb.
Qed.
Lemma jump_target pc : index (jumpdest_map s) pc = Some true -> boundary c pc.
Proof. intros Hi. apply (an_map _ _ _ Hs) in Hi. apply Hi. Qed.

Lemma jump_spec : op_spec OpCode.JUMP
  (pc ← control.op_jump (jumpdest_map s); mret (Continue pc)).
Proof.
  intros p n lo hi ml es w [= <-] Hok Hreq Hchg. simpl in *. apply wp_bind.
  eapply wp_op_jump; [done|lia|apply map_bytes|]. intros pc es' Hpc Hok'. apply wp_ret.
  split; [done|]. split; [by apply jump_target|].
  exists lo, hi, ml. split; [done|]. unfold extra_cost. simpl. lia.
Qed.

Lemma jumpi_spec pc : boundary c (pc + 1) -> op_spec OpCode.JUMPI (jumpi s pc).
Proof.
  intros Hb p n lo hi ml es w [= <-] Hok Hreq Hchg. simpl in *.
  unfold jumpi. apply wp_bind. eapply wp_stack_get; [done|lia|]. intros v Hv.
  apply wp_if; intros _; apply wp_bind.
  - eapply wp_op_jump; [done|lia|apply map_bytes|]. intros pc' es' Hpc Hok'.
    apply wp_bind. eapply wp_pop; [done|lia|]. intros v' es2 _ Hes2. apply wp_ret.
    split; [done|]. split; [by apply jump_target|].
    exists lo, hi, ml. split; [by replace (n + -2) with (n - 1 - 1) by lia|].
    unfold extra_cost. simpl. lia.
  - eapply wp_pop; [done|lia|]. intros v1 es1 _ Hes1. apply wp_bind.
    eapply wp_pop; [done|lia|]. intros v' es2 _ Hes2. apply wp_ret.
    split; [done|]. split; [done|].
    exists lo, hi, ml. split; [by replace (n + -2) with (n - 1 - 1) by lia|].
    unfold extra_cost. simpl. lia.
Qed.

Lemma exec_flow_spec op pc m : boundary c pc ->
  exec_flow s rev op pc = Some m -> falls_to op pc -> op_spec op m.
Proof.
  intros Hpc Hm Hb. revert Hm.
  assert (0 <= pc <= u64_max).
  { pose proof (boundary_nonneg _ _ Hpc). pose proof (boundary_le _ _ _ Hs _ Hpc).
    pose proof (an_end_range _ _ _ Hs). unfold u64_max, bytes_ok, i64_max in *. lia. }
  pose proof (spec_pc pc ltac:(done)).
  unfold exec_flow. do 5 (case_if; [arm Hb|]).
  case_if; [intros [= <-]; subst; apply jump_spec|].
  case_if; [intros [= <-]; subst; apply jumpi_spec, Hb; discriminate|].
  repeat (case_if; [arm Hb|]). done.
Qed.
(** The data of a [PUSH] is inside the padded code. *)
Lemma code_after_spec op pc (Q : Bytes -> ExecutionState -> W -> Prop) es w :
  boundary c pc -> boundary c (pc + op_width op) ->
  (forall bs, blen bs = e - pc -> op_width op - 1 <= blen bs -> Q bs es w) ->
  wp (code_after s pc) Q es w.
Proof.
  intros Hpc Hb HQ. pose proof (boundary_nonneg _ _ Hpc).
  pose proof (boundary_le _ _ _ Hs _ Hb). pose proof (op_width_range op).
  pose proof (blen_padded _ _ _ Hs) as Hlen. unfold code_after.
  destruct (slice_some (padded_code s) (pc + 1) (blen (padded_code s) - (pc + 1)))
    as (bs & Hbs & Hl); [lia..|].
  eapply wp_lift; [done|]. apply HQ; lia.
Qed.

Lemma push_properties op : OpCode.PUSH1 <= op <= OpCode.PUSH32 ->
  properties_of op = Some (Properties_new 0 1) /\ is_terminal op = false /\
  extra_cost op = 0 /\ op_width op = op - OpCode.PUSH1 + 2 /\ op <> OpCode.STOP.
Proof.
  intros Hop. destruct (plain_op_spec _ _ (plain_push op Hop)) as (? & ? & ? & ?).
  splits; try done. apply op_width_push. unfold is_push.
  by rewrite !(proj2 (Z.leb_le _ _)) by lia.
Qed.

Lemma push_post op pc n lo hi ml es w : OpCode.PUSH1 <= op <= OpCode.PUSH32 ->
  boundary c (pc + op_width op) -> ok (n + 1) lo hi ml es w ->
  flow_post op n 1 hi (extra_cost op)
    (Continue (pc + (op - OpCode.PUSH1 + 1) + 1)) es w.
Proof.
  intros Hop Hb Hok. destruct (push_properties op Hop) as (_ & Ht & -> & Hw & _).
  split; [done|]. split.
  - rewrite Hw in Hb. by replace (pc + _ + 1) with (pc + (op - OpCode.PUSH1 + 2)) by lia.
  - exists lo, hi, ml. split; [done|lia].
Qed.

Lemma exec_push_spec op pc m : boundary c pc ->
  exec_push s op pc = Some m -> falls_to op pc -> op_spec op m.
Proof.
  intros Hpc Hm Hb p n lo hi ml es w Hp Hok Hreq Hchg.
  assert (OpCode.PUSH1 <= op <= OpCode.PUSH32) as Hop.
  { revert Hm. unfold exec_push, OpCode.PUSH1, OpCode.PUSH2, OpCode.PUSH31,
      OpCode.PUSH32. repeat case_if; intros; try done; lia. }
  destruct (push_properties op Hop) as (Hp' & Ht & Hx & Hw & Hnz).
  simplify_eq. simpl in *. specialize (Hb Hnz).
  pose proof (boundary_nonneg _ _ Hpc). pose proof (boundary_le _ _ _ Hs _ Hb).
  revert Hm. unfold exec_push. case_if; [|case_if; [|case_if; [|done]]];
    intros [= <-]; apply wp_bind.
  - destruct (index_some (padded_code s) (pc + 1)) as [b Hbyte].
    { rewrite (blen_padded _ _ _ Hs). lia. }
    eapply wp_lift; [done|]. apply wp_bind.
    eapply wp_on_stack; [apply op_push1|done|done|done|]. intros es' Hes. apply wp_ret.
    subst op. by apply (push_post OpCode.PUSH1 pc n lo hi ml).
  - eapply code_after_spec; [done|exact Hb|]. intros bs Hbs Hlen. apply wp_bind, wp_gets.
    apply wp_bind. pose proof Hok as [].
    unfold OpCode.PUSH1, OpCode.PUSH2, OpCode.PUSH31, OpCode.PUSH32 in *.
    destruct (push_spec (op - 96 + 1) bs (es_stack es)) as (s' & Hs' & Hw' & Hl'); [lia|lia|done|lia|].
    eapply wp_lift; [exact Hs'|]. apply wp_bind. unfold modify. apply wp_ret.
    apply (push_post op pc n lo hi ml);
      [unfold OpCode.PUSH1, OpCode.PUSH32; lia|done|].
    replace (n + 1) with (Stack.len s') by lia. eapply ok_with_stack; [done|done|lia].
  - eapply code_after_spec; [done|exact Hb|]. intros bs Hbs Hlen. apply wp_bind. subst op.
    eapply wp_on_stack; [apply op_push32|done|done|done|].
    { change (op_width OpCode.PUSH32) with 33 in Hlen. lia. }
    intros es' Hes. apply wp_ret. by apply (push_post OpCode.PUSH32 pc n lo hi ml).
Qed.
(** An arm of one of the opcode families, all of width one. *)
Lemma op_spec_plain op pc m req chg : ispec req chg 0 m ->
  plain_op op (Properties_new req chg) = true -> is_push op = false ->
  falls_to op pc -> op_spec op (next pc m).
Proof.
  intros Hm Hop Hnp Hb. destruct (plain_op_spec _ _ Hop) as (? & ? & ? & ?).
  eapply op_spec_next; [done|done| |done|lia].
  replace 1 with (op_width op) by (unfold op_width; by rewrite Hnp). by apply Hb.
Qed.

Lemma not_push op : op < OpCode.PUSH1 \/ OpCode.PUSH32 < op -> is_push op = false.
Proof.
  intros [Hlt|Hgt]; unfold is_push; apply andb_false_iff.
  - left. by apply Z.leb_gt.
  - right. by apply Z.leb_gt.
Qed.

Lemma exec_dup_swap_spec op pc m :
  exec_dup_swap op pc = Some m -> falls_to op pc -> op_spec op m.
Proof.
  intros Hm Hb. revert Hm. unfold exec_dup_swap.
  case_if; [|case_if; [|done]]; intros [= <-].
  - eapply op_spec_plain; [apply ispec_stack, op_dup|by apply plain_dup| |done];
      [|apply not_push]; unfold OpCode.DUP1, OpCode.DUP16, OpCode.PUSH32 in *; lia.
  - eapply op_spec_plain; [apply ispec_stack, op_swap|by apply plain_swap| |done];
      [|apply not_push]; unfold OpCode.SWAP1, OpCode.SWAP16, OpCode.PUSH32 in *; lia.
Qed.

(** An arm that ends the frame. *)
Lemma op_spec_break op m req chg b : ispec req chg 0 m -> chg <= 0 ->
  option_map prop_stack_height_required (properties_of op) = Some req ->
  op_spec op (m;; mret (Break b)).
Proof.
  intros Hm Hc' Hp p n lo hi ml es w Hp' Hok Hreq Hchg.
  rewrite Hp' in Hp. injection Hp as <-. pose proof Hok as [].
  apply wp_bind. eapply wp_mono; [eapply Hm; [done|done|lia]|].
  intros _ es' w' (? & ? & ? & ? & ?). apply wp_ret.
  do 4 eexists. split; [done|lia].
Qed.

Lemma spec_call_kind op st kind pc :
  (kind = CallKind_Call \/ kind = CallCode \/ kind = DelegateCall) ->
  plain_op op (if st || call.is_delegate kind then Properties_new 6 (-5)
               else Properties_new 7 (-6)) = true ->
  is_push op = false -> falls_to op pc ->
  op_spec op (next pc (call.do_call rev kind st)).
Proof.
  intros Hk Hp Hnp Hb. pose proof (spec_do_call msg Hmsg rev kind st Hk) as Hspec.
  destruct (st || _); eapply op_spec_plain; done.
Qed.

Lemma spec_create_kind op (c2 : bool) pc :
  plain_op op (if c2 then Properties_new 4 (-3) else Properties_new 3 (-2)) = true ->
  is_push op = false -> falls_to op pc ->
  op_spec op (next pc (call.do_create rev c2)).
Proof.
  intros Hp Hnp Hb. pose proof (spec_do_create msg Hmsg rev c2) as Hspec.
  destruct c2; eapply op_spec_plain; done.
Qed.

(** Split on the opcodes of an arm. *)
Ltac orb_cases :=
  repeat match goal with H : _ || _ = true |- _ => apply orb_true_iff in H as [?|?] end;
  zb; match goal with H : ?op = _ |- _ => subst op end.

Lemma exec_system_spec op pc m :
  exec_system rev op pc = Some m -> falls_to op pc -> op_spec op m.
Proof.
  intros Hm Hb. revert Hm. unfold exec_system. case_if; [intros [= <-]|].
  { unfold OpCode.LOG0, OpCode.LOG4 in *.
    eapply op_spec_plain; [|by apply plain_log|apply not_push|done].
    - replace (- _) with (- 2 - Z.of_nat (Z.to_nat (op - 160))) by (unfold OpCode.LOG0; lia).
      replace (2 + _) with (2 + Z.of_nat (Z.to_nat (op - 160))) by (unfold OpCode.LOG0; lia).
      by apply spec_do_log; [|lia].
    - unfold OpCode.PUSH32. lia. }
  case_if; [intros [= <-]|].
  { orb_cases; by apply spec_create_kind; [vm_compute|..]. }
  case_if; [intros [= <-]|].
  { orb_cases; apply spec_call_kind; try done; vm_compute; auto. }
  case_if; [intros [= <-]|].
  { apply (op_spec_break _ _ 2 0); [by apply spec_ret|done|].
    orb_cases; vm_compute; reflexivity. }
  case_if; [intros [= <-]|].
  { intros p n lo hi ml es w _ Hok _ _. by eapply wp_throw. }
  case_if; [intros [= <-]|done]. subst op.
  by apply (op_spec_break _ _ 1 (-1)); [apply spec_selfdestruct|..].
Qed.
Definition is_some {A} (o : option A) : bool := match o with Some _ => true | None => false end.

(** [op] has an arm in the dispatch. *)
Definition has_arm (op : OpCode) (pc : Z) : bool :=
  is_some (exec_alu (W := W) rev op pc) || is_some (exec_env (W := W) s rev op pc)
  || is_some (exec_flow (W := W) s rev op pc) || is_some (exec_push (W := W) s op pc)
  || is_some (exec_dup_swap (W := W) op pc) || is_some (exec_system (W := W) rev op pc).

(** Every opcode that has properties has an arm. *)
Lemma dispatched op pc : 0 <= op < 256 -> is_some (properties_of op) = true ->
  has_arm op pc = true.
Proof.
  intros Hop. rewrite <- implb_true_iff.
  apply (forall_range (fun op => implb (is_some (properties_of op)) (has_arm op pc)) 0 256);
    [vm_compute; reflexivity|lia].
Qed.

Lemma exec_op_spec op pc : 0 <= op < 256 -> is_some (properties_of op) = true ->
  boundary c pc -> falls_to op pc -> op_spec op (exec_op s rev op pc).
Proof.
  intros Hop Hp Hpc Hb. pose proof (dispatched op pc Hop Hp) as Hd.
  unfold has_arm in Hd. unfold exec_op.
  destruct (exec_alu _ _ _) eqn:E; [by eapply exec_alu_spec|].
  destruct (exec_env _ _ _ _) eqn:?; [by eapply exec_env_spec|].
  destruct (exec_flow _ _ _ _) eqn:?; [by eapply exec_flow_spec|].
  destruct (exec_push _ _ _) eqn:?; [by eapply exec_push_spec|].
  destruct (exec_dup_swap _ _) eqn:?; [by eapply exec_dup_swap_spec|].
  destruct (exec_system _ _ _) eqn:?; [by eapply exec_system_spec|done].
Qed.

(** [check_requirements] establishes what the instruction needs. *)
Lemma check_requirements_spec t op entry p n lo hi ml Q es w :
  index t op = Some (Some entry) -> entry_ok op entry p -> ok n lo hi ml es w ->
  (forall es' w', ok n 0 (hi - gas_cost entry) ml es' w' ->
     prop_stack_height_required p <= n -> n + stack_height_change p <= STACK_SIZE ->
     Q () es' w') ->
  wp (check_requirements t op) Q es w.
Proof.
  intros Ht [] Hok HQ. unfold check_requirements, OpCode.to_usize, OpCode.to_u8.
  apply wp_bind. eapply wp_lift; [done|]. apply wp_bind.
  eapply wp_charge; [done|lia|]. intros es' Hes. apply wp_bind, wp_gets.
  pose proof Hes as []. rewrite ok_height, entry_required, entry_overflow.
  unfold STACK_SIZE in *. apply wp_if; intros Hn; zb; apply wp_if; intros Ho; zb;
    try (by eapply wp_throw); apply wp_ret, HQ; try done; lia.
Qed.

Lemma trace_step_spec TRACE pc op entry n lo hi ml Q es w :
  ok n lo hi ml es w -> (forall w', ok n lo hi ml es w' -> Q () es w') ->
  wp (trace_step s TRACE pc op entry) Q es w.
Proof.
  intros Hok HQ. unfold trace_step. apply wp_if; intros _; [|by apply HQ].
  apply HQ. destruct Hok. split; try done. unfold Wp.inv in *. by apply capture_state_ok.
Qed.

(** The loop invariant: at an instruction boundary, with at most [hi] gas. *)
Definition running (hi : Z) (es : ExecutionState) (w : W) : Prop :=
  exists n lo ml, ok n lo hi ml es w.

Definition table_ok (t : InstructionTable) : Prop :=
  blen t = 256 /\ forall op e, index t op = Some (Some e) -> exists p, entry_ok op e p.

Lemma step_spec TRACE t pc hi es w :
  table_ok t -> boundary c pc -> running hi es w ->
  wp (step s rev TRACE t pc) (fun f es' w' =>
    match f with
    | Continue pc' => boundary c pc' /\ running (hi - 1) es' w'
    | Break _ => running hi es' w'
    end) es w.
Proof.
  intros [Hlen Ht] Hpc (n & lo & ml & Hok). unfold step.
  destruct (padded_at _ _ _ Hs pc Hpc) as (b & Hb & _).
  pose proof (byte_val_range b). unfold OpCode.to_usize, OpCode.to_u8.
  destruct (index_some t (byte_val b)) as [slot Hslot]; [lia|].
  apply wp_bind. eapply wp_lift; [done|]. apply wp_bind. eapply wp_lift; [done|].
  destruct slot as [entry|]; [|by eapply wp_throw].
  destruct (Ht _ _ Hslot) as [p Hp]. apply wp_bind.
  eapply trace_step_spec; [done|]. intros w1 Hok1. apply wp_bind.
  eapply check_requirements_spec; [done|done|done|]. intros es2 w2 Hok2 Hreq Hchg.
  pose proof Hok1 as []. pose proof Hp as []. eapply wp_mono.
  - eapply exec_op_spec; [done|by rewrite entry_properties|done| |done|done|done|done].
    intros Hnz. by apply (padded_next _ _ _ Hs).
  - intros [pc'|r] es3 w3; simpl.
    + intros (Hterm & Hpc' & lo' & hi' & ml' & Hok' & Hhi). split; [done|].
      specialize (entry_progress Hterm). pose proof Hok' as [].
      eexists _, lo', ml'. eapply ok_weaken; [done|lia..].
    + intros (n' & lo' & hi' & ml' & Hok' & Hhi). pose proof Hok' as [].
      eexists n', lo', ml'. eapply ok_weaken; [done|lia..].
Qed.

Lemma execute_loop_spec TRACE t fuel pc hi es w :
  table_ok t -> boundary c pc -> running hi es w -> hi < Z.of_nat fuel ->
  wp (execute_loop s rev TRACE t fuel pc) (fun _ => running hi) es w.
Proof.
  intros Ht. revert pc hi es w. induction fuel as [|fuel IH]; intros pc hi es w Hpc Hr Hf.
  { destruct Hr as (? & ? & ? & []). lia. }
  apply wp_bind. eapply wp_mono; [by eapply step_spec|].
  intros [pc'|r] es' w'; simpl; [|by intros ?; apply wp_ret].
  intros [Hpc' Hr']. eapply wp_mono; [eapply IH; [done|done|lia]|].
  intros _ es2 w2 (n & lo & ml & Hok). pose proof Hok as []. destruct Hr as (? & ? & ? & []).
  exists n, lo, ml. eapply ok_weaken; [done|lia..].
Qed.

Lemma ok_start w : inv w -> ok 0 0 (gas msg) 0 (ExecutionState_new msg) w.
Proof.
  intros Hi. destruct Hmsg as (? & ? & _).
  split; simpl; try done; try lia; unfold blen; simpl; try lia.
  all: unfold STACK_SIZE, max_memory, bytes_ok, i64_max; simpl; try done; try lia.
  constructor.
Qed.

Lemma running_start w : inv w -> running (gas msg) (ExecutionState_new msg) w.
Proof. intros Hi. exists 0, 0, 0. by apply ok_start. Qed.

Lemma execute_message_spec TRACE w : inv w ->
  wp (execute_message s rev TRACE (loop_bound msg)) (fun o es' w' =>
    inv w' /\ 0 <= so_gas_left o <= gas msg /\ bytes_ok (so_output_data o))
    (ExecutionState_new msg) w.
Proof.
  intros Hi. unfold execute_message. destruct (table_spec rev) as (t & Ht & Htok).
  apply wp_bind. eapply wp_lift; [done|]. apply wp_bind. eapply wp_mono.
  - eapply execute_loop_spec; [done|constructor|by apply running_start|].
    destruct Hmsg as (_ & ? & _). unfold loop_bound. lia.
  - intros r es w' (n & lo & ml & []). apply wp_bind, wp_gets, wp_bind, wp_gets, wp_ret.
    split; [exact ok_inv|]. split; [simpl; lia|exact ok_output_data].
Qed.

(** A frame runs to its end and returns an output. *)
Lemma execute_spec w : inv w -> exists o w',
  execute s rev msg w = Some (o, w') /\ inv w' /\
  0 <= gas_left o <= gas msg /\ bytes_ok (output_data o).
Proof.
  intros Hi. pose proof (execute_message_spec (trace_instructions w) w Hi) as Hx.
  unfold Wp.wp in Hx. unfold execute.
  destruct (execute_message _ _ _ _ _ _) as [o es' w'|st w'| |]; [| |done..].
  - destruct Hx as (Hw & Hg & Hb). eexists _, _. split; [done|].
    split; [unfold Wp.inv in *; by apply capture_end_ok|]. done.
  - destruct Hmsg as (_ & ? & _). eexists _, _. split; [done|].
    split; [unfold Wp.inv in *; by apply capture_end_ok|]. simpl. split; [lia|done].
Qed.
End interp.
