(* ===== verification/EvmTheorems.v ===== *)
(** The theorems on a whole frame of the interpreter: totality, gas, the
    invariant of every reachable state, and isolation of static frames. *)
From S2P Require Import Prelude Word Properties EvmState Host Arith MemoryOps External MockedHost Interpreter Analysis StackSafety InstrSpec Wp InstrSafety InterpSafety.
From Stdlib Require Import ZArith Lia Strings.Byte.
From stdpp Require Import base list option numbers gmap.
#[local] Open Scope Z_scope.

(** A digest function, for examples. *)
Definition zero_digest : Keccak := {|
  keccak_digest _ := replicate 32 x00;
  length_keccak_digest _ := eq_refl;
|}.

(** [PUSH1 5; PUSH1 0; SSTORE; PUSH1 0; SLOAD; PUSH1 9; JUMP; JUMPDEST]. *)
Definition sample_code : Bytes :=
  map byte_of [0x60; 5; 0x60; 0; 0x55; 0x60; 0; 0x54; 0x60; 11; 0x56; 0x5b].

Definition sample_mocked : mocked_host.MockedHost := mocked_host.MockedHost_default.

Lemma sample_message_ok st g : 0 <= g <= i64_max -> message_ok (sample_message st g).
Proof.
  unfold message_ok, bytes_ok, uint, i64_max; simpl. unfold blen; simpl. lia.
Qed.

(** ** Code analysis *)


(** The padded code is the code followed by [STOP]s, at every instruction
    boundary there is an instruction to read, and with it all its push data and
    the next instruction. *)
Theorem analyze_padding c : exists s, analyze c = Some s /\ code s = c /\
  (exists n, padded_code s = c ++ replicate n x00 /\ (1 <= n <= 33)%nat) /\
  forall pc, boundary c pc -> exists b, index (padded_code s) pc = Some b /\
    (byte_val b <> OpCode.STOP ->
     pc + op_width (byte_val b) < blen (padded_code s)).
Proof.
  destruct (analyze_spec c) as (s & e & Hs & Han). exists s. split; [done|].
  pose proof Han as []. split; [done|]. split.
  - exists (Z.to_nat (e + 1 - blen c)). split; [done|lia].
  - intros pc Hpc. destruct (padded_at _ _ _ Han pc Hpc) as (b & Hb & _).
    exists b. split; [done|]. intros Hnz.
    destruct (padded_next _ _ _ Han pc b Hpc Hb Hnz) as [_ ?].
    rewrite (blen_padded _ _ _ Han). lia.
Qed.

(** Every revision has an instruction table (no [unwrap] of its
    construction panics) of 256 slots, its entries agree with [PROPERTIES], and
    the instructions that do not end the frame cost gas. *)
Theorem instruction_table_ok rev : exists t, get_instruction_table rev = Some t /\
  blen t = 256 /\ forall op e, index t op = Some (Some e) -> exists p, entry_ok op e p.
Proof. apply table_spec. Qed.

(** ** Runs of a frame *)

(** [n] iterations of the loop, each of which goes on. *)
Inductive iterations {W} `{Host W, Tracer W, I256Ops, Keccak} (s : AnalyzedCode)
    (rev : Revision) (TRACE : bool) (t : InstructionTable)
  : nat -> Z -> ExecutionState -> W -> Z -> ExecutionState -> W -> Prop :=
  | iterations_none pc es w : iterations s rev TRACE t 0 pc es w pc es w
  | iterations_more n pc es w pc1 es1 w1 pc2 es2 w2 :
      iterations s rev TRACE t n pc es w pc1 es1 w1 ->
      step s rev TRACE t pc1 es1 w1 = ROk (Continue pc2) es2 w2 ->
      iterations s rev TRACE t (S n) pc es w pc2 es2 w2.

Section runs.
Context {W : Type} `{Host W, Tracer W} {I : bool -> Z -> W -> Prop}.
Context `{!HostInv _ I, !TracerInv _ I, I256Laws, Keccak}.

(** C1: the interpreter is total.  On any code and any well-formed message, with
    a host that keeps its contract, the frame ends after at most
    [loop_bound] iterations without a panic, an overflow or an unchecked access
    outside the stack; the gas left is within the gas of the message and the
    host's invariant is kept. *)
Theorem execute_total c rev msg w :
  bytes_ok c -> message_ok msg -> I (is_static msg) (depth msg) w ->
  exists s o w', analyze c = Some s /\ execute s rev msg w = Some (o, w') /\
    I (is_static msg) (depth msg) w' /\
    0 <= gas_left o <= gas msg /\ bytes_ok (output_data o).
Proof.
  intros Hc Hmsg Hw. destruct (analyze_spec c) as (s & e & Hs & Han).
  destruct (execute_spec msg Hmsg c s e Han Hc rev w Hw) as (o & w' & ? & ? & ? & ?).
  exists s, o, w'. splits; first [assumption | lia].
Qed.

Lemma iterations_running c s e rev TRACE t msg n pc es w w0 :
  analysis_of c s e -> bytes_ok c -> message_ok msg -> get_instruction_table rev = Some t ->
  I (is_static msg) (depth msg) w0 ->
  iterations s rev TRACE t n 0 (ExecutionState_new msg) w0 pc es w ->
  boundary c pc /\ running (I := I) msg (gas msg - Z.of_nat n) es w.
Proof.
  intros Han Hc Hmsg Ht Hw Hit. destruct (table_spec rev) as (t' & Ht' & Htab).
  assert (t' = t) as -> by congruence. clear Ht Ht'.
  remember (ExecutionState_new msg) as es0 eqn:Hes0. remember 0 as pc0 eqn:Hpc0.
  induction Hit as [|n pc es w0 pc1 es1 w1 pc2 es2 w2 Hit IH Hstep]; subst.
  - split; [constructor|]. rewrite Z.sub_0_r. by apply running_start.
  - destruct IH as [Hpc Hr]; [done..|].
    pose proof (step_spec msg Hmsg c s e Han Hc rev TRACE t pc1 _ es1 w1 Htab Hpc Hr) as Hsp.
    unfold wp in Hsp. rewrite Hstep in Hsp. destruct Hsp as [? Hr']. split; [done|].
    by replace (gas msg - Z.of_nat (S n)) with (gas msg - Z.of_nat n - 1) by lia.
Qed.

(** C34: the invariant of the loop.  After any number of iterations the program
    counter is at an instruction boundary, the stack holds at most 1024 words,
    the memory is a whole number of words, every iteration has cost at least
    one unit of gas, and the next iteration does not fault. *)
Theorem reachable_invariant c s rev TRACE t msg n pc es w w0 :
  analyze c = Some s -> bytes_ok c -> message_ok msg ->
  get_instruction_table rev = Some t -> I (is_static msg) (depth msg) w0 ->
  iterations s rev TRACE t n 0 (ExecutionState_new msg) w0 pc es w ->
  boundary c pc /\ words (es_stack es) /\ Stack.len (es_stack es) <= STACK_SIZE /\
  memory_ok (es_memory es) /\ 0 <= es_gas_left es /\
  es_gas_left es + Z.of_nat n <= gas msg /\
  step s rev TRACE t pc es w <> RFault.
Proof.
  intros Hs Hc Hmsg Ht Hw Hit. destruct (analyze_spec c) as (s' & e & Hs' & Han).
  assert (s' = s) as -> by congruence.
  destruct (iterations_running c s e rev TRACE t msg n pc es w w0) as [Hpc Hr];
    [assumption..|].
  destruct (table_spec rev) as (t' & Ht' & Htab).
  assert (t' = t) as -> by congruence. clear Ht Ht'.
  pose proof (step_spec msg Hmsg c s e Han Hc rev TRACE t pc _ es w Htab Hpc Hr) as Hsp.
  destruct Hr as (m & lo & ml & []). unfold memory_ok.
  splits; try assumption; try lia. intros Hf. unfold wp in Hsp. rewrite Hf in Hsp.
  exact Hsp.
Qed.

(** Dispatch agrees with [PROPERTIES].  From a state whose stack satisfies
    the declared requirements, the arm of an opcode neither panics nor leaves
    the stack bounds; if it goes on, the stack height has changed by the
    declared amount and the next program counter is an instruction boundary. *)
Theorem exec_op_properties c s rev msg op p b pc es w n lo hi ml :
  analyze c = Some s -> bytes_ok c -> message_ok msg ->
  properties_of op = Some p -> boundary c pc ->
  index (padded_code s) pc = Some b -> byte_val b = op ->
  ok I msg n lo hi ml es w ->
  prop_stack_height_required p <= n -> n + stack_height_change p <= STACK_SIZE ->
  match exec_op s rev op pc es w with
  | ROk (Continue pc') es' w' =>
      boundary c pc' /\
      Stack.len (es_stack es') = Stack.len (es_stack es) + stack_height_change p /\
      es_gas_left es' <= hi
  | ROk (Break _) es' w' => es_gas_left es' <= hi
  | RErr _ w' => inv I msg w'
  | RFault | ROutOfFuel => False
  end.
Proof.
  intros Hs Hc Hmsg Hp Hpc Hb <- Hok Hreq Hchg.
  destruct (analyze_spec c) as (s' & e & Hs' & Han). assert (s' = s) as -> by congruence.
  pose proof (byte_val_range b).
  pose proof (exec_op_spec msg Hmsg c s e Han Hc rev (byte_val b) pc) as Hsp.
  specialize (Hsp ltac:(lia) ltac:(by rewrite Hp) Hpc).
  specialize (Hsp ltac:(intros Hnz; by apply (padded_next _ _ _ Han))).
  specialize (Hsp p n lo hi ml es w Hp Hok Hreq Hchg). unfold wp in Hsp.
  assert (0 <= extra_cost (byte_val b)) by (unfold extra_cost; by case_if).
  destruct (exec_op s rev (byte_val b) pc es w) as [[pc'|r] es' w'|st w'| |];
    [| |exact Hsp..].
  - destruct Hsp as (_ & ? & lo' & hi' & ml' & [] & ?). destruct Hok.
    split; [done|]. split; [congruence|lia].
  - destruct Hsp as (? & lo' & hi' & ml' & [] & ?). lia.
Qed.

End runs.

(** ** Instances on the mocked host *)

Section examples.
Import mocked_host.
#[local] Existing Instances NoopTracer zero_digest.

Definition sample_analysis : AnalyzedCode :=
  default (Build_AnalyzedCode [] [] []) (analyze sample_code).
Definition sample_table : InstructionTable :=
  default [] (get_instruction_table London).

Lemma sample_code_ok : bytes_ok sample_code.
Proof. unfold bytes_ok, i64_max. vm_compute. discriminate. Qed.

Lemma execute_total_witness : exists s o w',
  analyze sample_code = Some s /\
  execute s London (sample_message false 50000) sample_mocked = Some (o, w') /\
  mocked_ok w' /\ 0 <= gas_left o <= 50000.
Proof.
  destruct (execute_total (I := fun _ _ => mocked_ok) sample_code London
    (sample_message false 50000) sample_mocked) as (s & o & w' & Hs & Hx & Hi & Hg & _).
  - apply sample_code_ok.
  - apply sample_message_ok. unfold i64_max. lia.
  - apply MockedHost_default_ok.
  - exists s, o, w'. repeat (split; [assumption|]). exact Hg.
Defined.

(** The run stores 5 at location 0, loads it back and ends at the [STOP] after
    the jump. *)
Example sample_run :
  option_map (fun r => (status_code r.1, gas_left r.1,
      mocked_host.get_storage 1 0 r.2 ≫= fun x => Some x.1))
    (execute sample_analysis London (sample_message false 50000) sample_mocked)
  = Some (Success, 27779, Some 5).
Proof. vm_compute. reflexivity. Qed.

(** The states after one and after two iterations. *)
Definition sample_state (g : Z) (stack : Stack) : ExecutionState :=
  with_stack (with_gas (ExecutionState_new (sample_message false 50000)) g) stack.

Lemma sample_iterations :
  iterations sample_analysis London false sample_table 2
    0 (ExecutionState_new (sample_message false 50000)) sample_mocked
    4 (sample_state 49994 [5; 0]) sample_mocked.
Proof.
  apply iterations_more with 2 (sample_state 49997 [5]) sample_mocked;
    [|vm_compute; reflexivity].
  apply iterations_more with 0 (sample_state 50000 []) sample_mocked;
    [apply iterations_none|vm_compute; reflexivity].
Qed.

Lemma reachable_invariant_witness :
  boundary sample_code 4 /\
  step sample_analysis London false sample_table 4 (sample_state 49994 [5; 0]) sample_mocked
  <> RFault.
Proof.
  destruct (reachable_invariant (I := fun _ _ => mocked_ok) sample_code sample_analysis London
    false sample_table (sample_message false 50000) 2 4 (sample_state 49994 [5; 0])
    sample_mocked sample_mocked
    ltac:(vm_compute; reflexivity) sample_code_ok
    (sample_message_ok false 50000 ltac:(unfold i64_max; lia))
    ltac:(vm_compute; reflexivity) MockedHost_default_ok sample_iterations)
    as (Hpc & _ & _ & _ & _ & _ & Hf).
  split; [exact Hpc|exact Hf].
Defined.

Lemma exec_op_properties_witness :
  match exec_op (W := MockedHost) sample_analysis London OpCode.PUSH1 0
          (ExecutionState_new (sample_message false 50000)) sample_mocked with
  | ROk (Continue pc') es' w' => boundary sample_code pc' /\ Stack.len (es_stack es') = 1
  | _ => False
  end.
Proof.
  pose proof (exec_op_properties (I := fun _ _ => mocked_ok) sample_code sample_analysis London
    (sample_message false 50000) OpCode.PUSH1 (Properties_new 0 1) (byte_of 0x60) 0
    (ExecutionState_new (sample_message false 50000)) sample_mocked 0 0 50000 0
    ltac:(vm_compute; reflexivity) sample_code_ok
    (sample_message_ok false 50000 ltac:(unfold i64_max; lia))
    ltac:(vm_compute; reflexivity) (boundary_start _) ltac:(vm_compute; reflexivity)
    ltac:(vm_compute; reflexivity)
    (ok_start _ (sample_message_ok false 50000 ltac:(unfold i64_max; lia)) _
       MockedHost_default_ok)
    ltac:(simpl; lia) ltac:(unfold STACK_SIZE; simpl; lia)) as Hx.
  revert Hx. destruct (exec_op _ _ _ _ _ _) as [[pc'|r] es' w'| | |] eqn:E.
  - intros (Hpc & Hh & _). split; [exact Hpc|exact Hh].
  - vm_compute in E. discriminate.
  - vm_compute in E. discriminate.
  - intros [].
  - intros [].
Defined.

End examples.
