(* ===== verification/Static.v ===== *)
(** Isolation of static frames (the [is_static] flag of a message).

    A property of the world that the read-only methods of the host and its
    static calls keep is kept by a whole static frame: no instruction of it
    reaches [set_storage], [emit_log], [selfdestruct] or a contract creation. *)
From S2P Require Import Prelude Word Properties EvmState Host MockedHost Interpreter Analysis Wp InterpSafety EvmTheorems.
From Stdlib Require Import ZArith Lia Strings.Byte.
From stdpp Require Import base list option numbers gmap.
#[local] Open Scope Z_scope.

(** From worlds in [P], the method keeps [R]. *)
Definition keeps {W A} (P R : W -> Prop) (f : W -> option (A * W)) : Prop :=
  forall w a w', P w -> R w -> f w = Some (a, w') -> R w'.

Class ReadOnly {W} (hw : Host W) (tw : Tracer W) (I : bool -> Z -> W -> Prop)
    (R : W -> Prop) : Prop := {
  account_exists_ro d a : is_address a -> keeps (I true d) R (account_exists a);
  get_storage_ro d a k : is_address a -> word k -> keeps (I true d) R (get_storage a k);
  get_balance_ro d a : is_address a -> keeps (I true d) R (get_balance a);
  get_code_size_ro d a : is_address a -> keeps (I true d) R (get_code_size a);
  get_code_hash_ro d a : is_address a -> keeps (I true d) R (get_code_hash a);
  copy_code_ro d a off buf : is_address a -> 0 <= off ->
    keeps (I true d) R (copy_code a off buf);
  call_ro d m : sends true d m -> keeps (I true d) R (call (Call_Call m));
  get_tx_context_ro d : keeps (I true d) R get_tx_context;
  get_block_hash_ro d n : is_u64 n -> keeps (I true d) R (get_block_hash n);
  access_account_ro d a : is_address a -> keeps (I true d) R (access_account a);
  access_storage_ro d a k : is_address a -> word k ->
    keeps (I true d) R (access_storage a k);
  capture_state_ro es pc op cost dp w : R w -> R (capture_state es pc op cost dp w);
  capture_end_ro o w : R w -> R (capture_end o w);
}.

(** The invariant with the property added for static frames. *)
Definition and_static {W} (I : bool -> Z -> W -> Prop) (R : W -> Prop)
    (st : bool) (d : Z) (w : W) : Prop := I st d w /\ (st = true -> R w).

Lemma method_static {W A} (I : bool -> Z -> W -> Prop) R st d (Q : A -> Prop) f :
  method_ok (I st d) Q f -> (st = true -> keeps (I true d) R f) ->
  method_ok (and_static I R st d) Q f.
Proof.
  intros Hf Hk w [Hi Hr]. destruct (Hf w Hi) as (a & w' & Hw & Hi' & Ha).
  exists a, w'. split; [done|]. split; [|done]. split; [done|].
  intros ->. by eapply Hk; [..|apply Hr|].
Qed.

Section static.
Context {W : Type} {hw : Host W} {tw : Tracer W} {I : bool -> Z -> W -> Prop}.
Context {R : W -> Prop} `{!HostInv hw I, !TracerInv tw I, HRO : !ReadOnly hw tw I R}.

#[local] Instance and_static_host : HostInv hw (and_static I R).
Proof.
  split; intros; apply method_static; try discriminate;
    try (intros ->); eauto using account_exists_ok, get_storage_ok,
    set_storage_ok, get_balance_ok, get_code_size_ok, get_code_hash_ok, copy_code_ok,
    selfdestruct_ok, call_ok, create_ok, get_tx_context_ok, get_block_hash_ok,
    emit_log_ok, access_account_ok, access_storage_ok.
  all: try (by eapply get_storage_ro); try (by eapply access_storage_ro).
  all: first [by apply account_exists_ro | by apply get_balance_ro
    | by apply get_code_size_ro | by apply get_code_hash_ro | by apply copy_code_ro
    | by apply call_ro | by apply get_tx_context_ro | by apply get_block_hash_ro
    | by apply access_account_ro].
Qed.

#[local] Instance and_static_tracer : TracerInv tw (and_static I R).
Proof.
  split.
  - intros st d es pc op cost dp w [Hi Hr]. split; [by apply capture_state_ok|].
    intros ->. by apply capture_state_ro, Hr.
  - intros st d o w [Hi Hr]. split; [by apply capture_end_ok|].
    intros ->. by apply capture_end_ro, Hr.
Qed.

Context `{I256Laws, Keccak}.

(** C35: a static frame changes nothing that the read-only methods of the host
    keep, whatever its code does: it ends, and the property holds after it. *)
Theorem static_isolation c rev msg w :
  bytes_ok c -> message_ok msg -> is_static msg = true ->
  I true (depth msg) w -> R w ->
  exists s o w', analyze c = Some s /\ execute s rev msg w = Some (o, w') /\ R w'.
Proof.
  intros Hc Hmsg Hst Hi Hr. destruct (analyze_spec c) as (s & e & Hs & Han).
  destruct (execute_spec (I := and_static I R) msg Hmsg c s e Han Hc rev w)
    as (o & w' & Hx & [_ Hr'] & _).
  { unfold inv. rewrite Hst. by split. }
  exists s, o, w'. split; [exact Hs|]. split; [exact Hx|]. by apply Hr'.
Qed.

End static.

(** ** The mocked host *)

Section mocked.
Import mocked_host.

(** What an observer sees of the chain state: balances, codes, storage values,
    logs and self-destructions. *)
Record same_state (h0 h : MockedHost) : Prop := {
  same_storage a k : sv_value (slot h a k) = sv_value (slot h0 a k);
  same_balance a : balance (default Account_default (accounts h !! a))
                   = balance (default Account_default (accounts h0 !! a));
  same_code a : mocked_host.code (default Account_default (accounts h !! a))
                = mocked_host.code (default Account_default (accounts h0 !! a));
  same_logs : logs (recorded h) = logs (recorded h0);
  same_selfdestructs : selfdestructs (recorded h) = selfdestructs (recorded h0);
}.

Lemma same_state_recorded h0 h r : same_state h0 h ->
  logs r = logs (recorded h) -> selfdestructs r = selfdestructs (recorded h) ->
  same_state h0 (with_recorded h r).
Proof. intros [] Hl Hs. split; simpl; try done; congruence. Qed.

Lemma record_access_logs r a :
  logs (record_account_access r a) = logs r /\
  selfdestructs (record_account_access r a) = selfdestructs r.
Proof. unfold record_account_access. by case_if. Qed.

Lemma same_state_touch h0 h a : same_state h0 h -> same_state h0 (touch h a).
Proof. intros Hh. apply same_state_recorded; [done|apply record_access_logs..]. Qed.

Lemma same_state_write h0 h a k v : same_state h0 h ->
  sv_value v = sv_value (slot h a k) -> same_state h0 (write_slot h a k v).
Proof.
  intros [] Hv. split; simpl; try done.
  - intros a' k'. rewrite <- same_storage0. unfold slot, write_slot; simpl.
    destruct (decide (a = a')) as [<-|]; [|by rewrite lookup_insert_ne].
    rewrite lookup_insert_eq. simpl.
    destruct (decide (k = k')) as [<-|]; [|by rewrite lookup_insert_ne].
    rewrite lookup_insert_eq. done.
  - intros a'. rewrite <- same_balance0.
    destruct (decide (a = a')) as [<-|]; [|by rewrite lookup_insert_ne].
    by rewrite lookup_insert_eq.
  - intros a'. rewrite <- same_code0.
    destruct (decide (a = a')) as [<-|]; [|by rewrite lookup_insert_ne].
    by rewrite lookup_insert_eq.
Qed.

#[local] Existing Instances NoopTracer zero_digest.

#[local] Instance MockedHost_read_only h0 :
  ReadOnly MockedHost_Host (NoopTracer _) (fun _ _ => mocked_ok) (same_state h0).
Proof.
  split; try (intros; done); intros; intros h r h' Hok Hh; simpl;
    try (intros [= <- <-]; by apply same_state_touch).
  - destruct (copy_code_total h a off buf) as (n & buf' & h2 & -> & -> & _); [done|].
    intros [= <- <-]. by apply same_state_touch.
  - intros [= <- <-]. apply same_state_recorded; [done|..]; case_if; simpl;
      apply record_access_logs.
  - by intros [= <- <-].
  - intros [= <- <-]. by apply same_state_recorded.
  - intros [= <- <-]. by apply same_state_write.
Qed.

(** The same code that stores in a plain frame leaves the storage alone in a
    static one. *)
Lemma static_isolation_witness : exists s o w',
  analyze sample_code = Some s /\
  execute s London (sample_message true 50000) sample_mocked = Some (o, w') /\
  same_state sample_mocked w'.
Proof.
  apply (static_isolation (I := fun _ _ => mocked_ok) (R := same_state sample_mocked)
    sample_code London (sample_message true 50000) sample_mocked).
  - apply sample_code_ok.
  - apply sample_message_ok. unfold i64_max. lia.
  - reflexivity.
  - apply MockedHost_default_ok.
  - by split.
Defined.

End mocked.
