(* ===== verification/Tracing.v ===== *)
(** Tracing does not interfere with execution (src/execution/tracer/mod.rs and
    the [TRACE] parameter of the interpreter loop).

    The world of a traced run is a pair of the host's world and the tracer's
    state.  Every instruction on pairs is simulated by the same instruction on
    the host's world alone. *)
From S2P Require Import Prelude Word Properties EvmState Host Arith MemoryOps External MockedHost Interpreter EvmTheorems.
From Stdlib Require Import ZArith Lia Strings.Byte.
From stdpp Require Import base list option numbers gmap.
#[local] Open Scope Z_scope.

Section tracing.
Context {W T : Type} (hw : Host W) (tw : Tracer T).
Context `{I256Ops, Keccak}.

Definition on_fst {A} (f : W -> option (A * W)) : W * T -> option (A * (W * T)) :=
  fun p => match f p.1 with
           | Some (a, w) => Some (a, (w, p.2))
           | None => None
           end.

(** The host beside a tracer. *)
#[local] Instance traced_host : Host (W * T) := {|
  account_exists a := on_fst (account_exists a);
  get_storage a k := on_fst (get_storage a k);
  set_storage a k v := on_fst (set_storage a k v);
  get_balance a := on_fst (get_balance a);
  get_code_size a := on_fst (get_code_size a);
  get_code_hash a := on_fst (get_code_hash a);
  copy_code a off buf := on_fst (copy_code a off buf);
  selfdestruct a b := on_fst (selfdestruct a b);
  call c := on_fst (call c);
  get_tx_context := on_fst get_tx_context;
  get_block_hash n := on_fst (get_block_hash n);
  emit_log a d t := on_fst (emit_log a d t);
  access_account a := on_fst (access_account a);
  access_storage a k := on_fst (access_storage a k);
|}.

#[local] Instance traced_tracer : Tracer (W * T) := {|
  trace_instructions p := trace_instructions p.2;
  capture_state es pc op cost dp p := (p.1, capture_state es pc op cost dp p.2);
  capture_end o p := (p.1, capture_end o p.2);
|}.

(** The same result, up to the tracer's state. *)
Definition same_res {A} (r : res (W * T) A) (r' : res W A) : Prop :=
  match r, r' with
  | ROk a es p, ROk a' es' w => a = a' /\ es = es' /\ p.1 = w
  | RErr c p, RErr c' w => c = c' /\ p.1 = w
  | RFault, RFault => True
  | ROutOfFuel, ROutOfFuel => True
  | _, _ => False
  end.

Definition sim {A} (m : M (W * T) A) (m' : M W A) : Prop :=
  forall es p, same_res (m es p) (m' es p.1).

Lemma sim_bind {A B} (m : M (W * T) A) m' (k : A -> M (W * T) B) k' :
  sim m m' -> (forall a, sim (k a) (k' a)) -> sim (m ≫= k) (m' ≫= k').
Proof.
  intros Hm Hk es p. specialize (Hm es p). unfold mbind, M_bind.
  destruct (m es p), (m' es p.1); simpl in *; try done.
  destruct Hm as (-> & -> & <-). apply Hk.
Qed.

Lemma sim_ret {A} (a : A) : sim (mret a) (mret a).
Proof. by intros es p. Qed.
Lemma sim_throw {A} c : sim (throw (A := A) c) (throw c).
Proof. by intros es p. Qed.
Lemma sim_fault {A} : sim (fault (A := A)) fault.
Proof. by intros es p. Qed.
Lemma sim_lift {A} (o : option A) : sim (lift o) (lift o).
Proof. by destruct o; intros es p. Qed.
Lemma sim_gets {A} (f : ExecutionState -> A) : sim (gets f) (gets f).
Proof. by intros es p. Qed.
Lemma sim_modify f : sim (modify f) (modify f).
Proof. by intros es p. Qed.
Lemma sim_on_stack f : sim (on_stack f) (on_stack f).
Proof. intros es p. unfold on_stack. by destruct (f _). Qed.
Lemma sim_stack_pop : sim stack_pop stack_pop.
Proof. intros es p. unfold stack_pop. by destruct (Stack.pop _) as [[]|]. Qed.

Lemma sim_host {A} (f : W -> option (A * W)) : sim (host (on_fst f)) (host f).
Proof. intros es p. unfold host, on_fst. by destruct (f p.1) as [[]|]. Qed.

Lemma sim_or_out_of_gas {A} (o : option A) : sim (or_out_of_gas o) (or_out_of_gas o).
Proof. destruct o; [apply sim_ret|apply sim_throw]. Qed.

(** Follow the structure of an instruction. *)
Ltac sim_step :=
  cbv beta zeta;
  lazymatch goal with
  | |- sim (_ ≫= _) _ => apply sim_bind; [|intros ?]
  | |- sim (mret _) _ => apply sim_ret
  | |- sim (throw _) _ => apply sim_throw
  | |- sim fault _ => apply sim_fault
  | |- sim (lift _) _ => apply sim_lift
  | |- sim (gets _) _ => apply sim_gets
  | |- sim (modify _) _ => apply sim_modify
  | |- sim (on_stack _) _ => apply sim_on_stack
  | |- sim (stack_push _) _ => apply sim_on_stack
  | |- sim (stack_set _ _) _ => apply sim_on_stack
  | |- sim stack_pop _ => apply sim_stack_pop
  | |- sim (host _) _ => apply sim_host
  | |- sim (or_out_of_gas _) _ => apply sim_or_out_of_gas
  | |- sim (match ?x with _ => _ end) _ => destruct x
  | |- _ => solve [auto with sim]
  end.
Ltac sim_tac f := intros; unfold f; repeat sim_step.

Create HintDb sim.

Lemma sim_stack_get n : sim (stack_get n) (stack_get n).
Proof. sim_tac @stack_get. Qed.
Lemma sim_gas_add d : sim (gas_add d) (gas_add d).
Proof. sim_tac @gas_add. Qed.
#[local] Hint Resolve sim_stack_get sim_gas_add : sim.
Lemma sim_charge c : sim (charge c) (charge c).
Proof. sim_tac @charge. Qed.
#[local] Hint Resolve sim_charge : sim.
Lemma sim_grow_memory n : sim (memory.grow_memory n) (memory.grow_memory n).
Proof. sim_tac @memory.grow_memory. Qed.
#[local] Hint Resolve sim_grow_memory : sim.
Lemma sim_region_u64 a b :
  sim (memory.get_memory_region_u64 a b) (memory.get_memory_region_u64 a b).
Proof. sim_tac @memory.get_memory_region_u64. Qed.
#[local] Hint Resolve sim_region_u64 : sim.
Lemma sim_region a b : sim (memory.get_memory_region a b) (memory.get_memory_region a b).
Proof. sim_tac @memory.get_memory_region. Qed.
Lemma sim_read_region r : sim (memory.read_region r) (memory.read_region r).
Proof. sim_tac @memory.read_region. Qed.
Lemma sim_write_memory o b : sim (memory.write_memory o b) (memory.write_memory o b).
Proof. sim_tac @memory.write_memory. Qed.
#[local] Hint Resolve sim_region sim_read_region sim_write_memory : sim.
Lemma sim_fill0 a b : sim (memory.fill0 a b) (memory.fill0 a b).
Proof. sim_tac @memory.fill0. Qed.
#[local] Hint Resolve sim_fill0 : sim.
Lemma sim_copy_padded a b : sim (memory.copy_padded a b) (memory.copy_padded a b).
Proof. sim_tac @memory.copy_padded. Qed.
Lemma sim_cold rev a c :
  sim (memory.charge_cold_account rev a c) (memory.charge_cold_account rev a c).
Proof. sim_tac @memory.charge_cold_account. Qed.
#[local] Hint Resolve sim_copy_padded sim_cold : sim.

(** ** Instructions *)

Lemma sim_exp rev : sim (arithmetic.exp rev) (arithmetic.exp rev).
Proof. sim_tac @arithmetic.exp. Qed.
Lemma sim_mload : sim memory.mload memory.mload.
Proof. sim_tac @memory.mload. Qed.
Lemma sim_mstore : sim memory.mstore memory.mstore.
Proof. sim_tac @memory.mstore. Qed.
Lemma sim_mstore8 : sim memory.mstore8 memory.mstore8.
Proof. sim_tac @memory.mstore8. Qed.
Lemma sim_msize : sim memory.msize memory.msize.
Proof. sim_tac @memory.msize. Qed.
Lemma sim_calldatacopy : sim memory.calldatacopy memory.calldatacopy.
Proof. sim_tac @memory.calldatacopy. Qed.
Lemma sim_keccak256 : sim memory.keccak256 memory.keccak256.
Proof. sim_tac @memory.keccak256. Qed.
Lemma sim_codecopy c : sim (memory.codecopy c) (memory.codecopy c).
Proof. sim_tac @memory.codecopy. Qed.
Lemma sim_extcodecopy rev : sim (memory.extcodecopy rev) (memory.extcodecopy rev).
Proof. sim_tac @memory.extcodecopy. Qed.
Lemma sim_returndatasize : sim memory.returndatasize memory.returndatasize.
Proof. sim_tac @memory.returndatasize. Qed.
Lemma sim_returndatacopy : sim memory.returndatacopy memory.returndatacopy.
Proof. sim_tac @memory.returndatacopy. Qed.
Lemma sim_extcodehash rev : sim (memory.extcodehash rev) (memory.extcodehash rev).
Proof. sim_tac @memory.extcodehash. Qed.
Lemma sim_ret' : sim control.ret control.ret.
Proof. sim_tac @control.ret. Qed.
Lemma sim_op_jump m : sim (control.op_jump m) (control.op_jump m).
Proof. sim_tac @control.op_jump. Qed.
Lemma sim_calldataload : sim control.calldataload control.calldataload.
Proof. sim_tac @control.calldataload. Qed.
Lemma sim_calldatasize : sim control.calldatasize control.calldatasize.
Proof. sim_tac @control.calldatasize. Qed.
#[local] Hint Resolve sim_exp sim_mload sim_mstore sim_mstore8 sim_msize sim_calldatacopy
  sim_keccak256 sim_codecopy sim_extcodecopy sim_returndatasize sim_returndatacopy
  sim_extcodehash sim_ret' sim_op_jump sim_calldataload sim_calldatasize : sim.

Lemma sim_address : sim external.address external.address.
Proof. sim_tac @external.address. Qed.
Lemma sim_caller : sim external.caller external.caller.
Proof. sim_tac @external.caller. Qed.
Lemma sim_callvalue : sim external.callvalue external.callvalue.
Proof. sim_tac @external.callvalue. Qed.
Lemma sim_balance rev : sim (external.balance rev) (external.balance rev).
Proof. sim_tac @external.balance. Qed.
Lemma sim_extcodesize rev : sim (external.extcodesize rev) (external.extcodesize rev).
Proof. sim_tac @external.extcodesize. Qed.
Lemma sim_push_txcontext f : sim (external.push_txcontext f) (external.push_txcontext f).
Proof. sim_tac @external.push_txcontext. Qed.
Lemma sim_selfbalance : sim external.selfbalance external.selfbalance.
Proof. sim_tac @external.selfbalance. Qed.
Lemma sim_blockhash : sim external.blockhash external.blockhash.
Proof. sim_tac @external.blockhash. Qed.
Lemma sim_pop_topics n : sim (external.pop_topics n) (external.pop_topics n).
Proof. induction n; simpl; repeat sim_step. Qed.
#[local] Hint Resolve sim_address sim_caller sim_callvalue sim_balance sim_extcodesize
  sim_push_txcontext sim_selfbalance sim_blockhash sim_pop_topics : sim.
Lemma sim_do_log n : sim (external.do_log n) (external.do_log n).
Proof. sim_tac @external.do_log. Qed.
Lemma sim_sload rev : sim (external.sload rev) (external.sload rev).
Proof. sim_tac @external.sload. Qed.
Lemma sim_sstore rev : sim (external.sstore rev) (external.sstore rev).
Proof. sim_tac @external.sstore. Qed.
Lemma sim_selfdestruct rev : sim (external.selfdestruct rev) (external.selfdestruct rev).
Proof. sim_tac @external.selfdestruct. Qed.
Lemma sim_region_data r : sim (call.region_data r) (call.region_data r).
Proof. sim_tac @call.region_data. Qed.
Lemma sim_call_gas rev g : sim (call.call_gas rev g) (call.call_gas rev g).
Proof. sim_tac @call.call_gas. Qed.
Lemma sim_call_result r g o : sim (call.call_result r g o) (call.call_result r g o).
Proof. sim_tac @call.call_result. Qed.
#[local] Hint Resolve sim_do_log sim_sload sim_sstore sim_selfdestruct sim_region_data
  sim_call_gas sim_call_result : sim.
Lemma sim_perform_call rev k st m g d v dp i r :
  sim (call.perform_call rev k st m g d v dp i r) (call.perform_call rev k st m g d v dp i r).
Proof. sim_tac @call.perform_call. Qed.
Lemma sim_perform_create rev m v o z s :
  sim (call.perform_create rev m v o z s) (call.perform_create rev m v o z s).
Proof. sim_tac @call.perform_create. Qed.
#[local] Hint Resolve sim_perform_call sim_perform_create : sim.
Lemma sim_do_call rev k st : sim (call.do_call rev k st) (call.do_call rev k st).
Proof. sim_tac @call.do_call. Qed.
Lemma sim_do_create rev c2 : sim (call.do_create rev c2) (call.do_create rev c2).
Proof. sim_tac @call.do_create. Qed.
#[local] Hint Resolve sim_do_call sim_do_create : sim.

(** ** The loop *)

Variable s : AnalyzedCode.
Variable rev : Revision.

Definition sim_opt {A} (o : option (M (W * T) A)) (o' : option (M W A)) : Prop :=
  match o, o' with
  | Some m, Some m' => sim m m'
  | None, None => True
  | _, _ => False
  end.

Lemma sim_next pc m m' : sim m m' -> sim (next pc m) (next pc m').
Proof. intros Hm. unfold next. apply sim_bind; [done|]. intros. apply sim_ret. Qed.

Lemma sim_jumpi pc : sim (jumpi s pc) (jumpi s pc).
Proof. sim_tac @jumpi. Qed.
Lemma sim_code_after pc : sim (code_after s pc) (code_after s pc).
Proof. sim_tac @code_after. Qed.
#[local] Hint Resolve sim_jumpi sim_code_after : sim.

(** An arm of the dispatch. *)
Ltac arms := repeat (case_if; [simpl; try apply sim_next; repeat sim_step|]).

Lemma sim_exec_op op pc : sim (exec_op s rev op pc) (exec_op s rev op pc).
Proof.
  assert (sim_opt (exec_alu rev op pc) (exec_alu rev op pc)) as H1
    by (unfold exec_alu; arms; done).
  assert (sim_opt (exec_env s rev op pc) (exec_env s rev op pc)) as H2.
  { unfold exec_env. arms. destruct (tx_accessor op); [|done]. simpl.
    apply sim_next. repeat sim_step. }
  assert (sim_opt (exec_flow s rev op pc) (exec_flow s rev op pc)) as H3
    by (unfold exec_flow; arms; done).
  assert (sim_opt (exec_push s op pc) (exec_push s op pc)) as H4
    by (unfold exec_push; arms; done).
  assert (sim_opt (exec_dup_swap op pc) (exec_dup_swap op pc)) as H5
    by (unfold exec_dup_swap; arms; done).
  assert (sim_opt (exec_system rev op pc) (exec_system rev op pc)) as H6
    by (unfold exec_system; arms; done).
  unfold exec_op. revert H1 H2 H3 H4 H5 H6. unfold sim_opt.
  do 6 (case_match; case_match; try done; intros ?; try assumption).
Qed.

#[local] Instance untraced : Tracer W := NoopTracer W.

Lemma sim_trace_step b b' pc op e : sim (trace_step s b pc op e) (trace_step s b' pc op e).
Proof. intros es p. unfold trace_step. by repeat case_if. Qed.

Lemma sim_check_requirements t op :
  sim (check_requirements t op) (check_requirements t op).
Proof. sim_tac @check_requirements. Qed.

Lemma sim_loop b b' t fuel pc :
  sim (execute_loop s rev b t fuel pc) (execute_loop s rev b' t fuel pc).
Proof.
  revert pc. induction fuel as [|fuel IH]; intros pc; simpl; [by intros es p|].
  apply sim_bind.
  - unfold step. repeat sim_step; auto using sim_trace_step, sim_check_requirements, sim_exec_op.
  - intros [|]; [apply IH|apply sim_ret].
Qed.

(** Tracing is transparent.  With any tracer, with per-instruction tracing
    or without, a frame returns the same output and leaves the host in the same
    state as a run with the tracer that does nothing. *)
Theorem tracing_transparent msg w t :
  option_map (fun r => (r.1, r.2.1)) (execute s rev msg (w, t))
  = execute (H0 := untraced) s rev msg w.
Proof.
  unfold execute.
  assert (same_res
    (execute_message s rev (trace_instructions (w, t)) (loop_bound msg)
       (ExecutionState_new msg) (w, t))
    (execute_message s rev (trace_instructions w) (loop_bound msg)
       (ExecutionState_new msg) w)) as Hr.
  { refine ((_ : sim _ _) _ (w, t)). unfold execute_message.
    repeat sim_step. apply sim_loop. }
  destruct (execute_message _ _ _ _ _ (w, t)), (execute_message _ _ _ _ _ w);
    simpl in *; try done.
  - by destruct Hr as (-> & -> & <-).
  - by destruct Hr as (-> & <-).
Qed.

End tracing.
