(* ===== verification/Transaction.v ===== *)
(** Transactions: their accessors, prices, replay-protected signature values
    and intrinsic gas (src/models/transaction.rs, src/chain/intrinsic_gas.rs and
    src/chain/protocol_param.rs). *)
From S2P Require Import Prelude Word EvmState.
From Stdlib Require Import ZArith Lia Strings.Byte.
From stdpp Require Import base list option numbers.
#[local] Open Scope Z_scope.

(** ** The fee schedule *)

Module fee.
Definition G_SLOAD_TANGERINE_WHISTLE : Z := 200.
Definition G_SLOAD_ISTANBUL : Z := 800.
Definition WARM_STORAGE_READ_COST : Z := 100.
Definition COLD_SLOAD_COST : Z := 2100.
Definition ACCESS_LIST_STORAGE_KEY_COST : Z := 1900.
Definition ACCESS_LIST_ADDRESS_COST : Z := 2400.
Definition G_SSET : Z := 20000.
Definition G_SRESET : Z := 5000.
Definition R_SCLEAR : Z := 15000.
Definition R_SELF_DESTRUCT : Z := 24000.
Definition G_CODE_DEPOSIT : Z := 200.
Definition G_TX_CREATE : Z := 32000.
Definition G_TX_DATA_ZERO : Z := 4.
Definition G_TX_DATA_NON_ZERO_FRONTIER : Z := 68.
Definition G_TX_DATA_NON_ZERO_ISTANBUL : Z := 16.
Definition G_TRANSACTION : Z := 21000.
End fee.

Module param.
Definition ETHER : Z := 10 ^ 18.
Definition MAX_CODE_SIZE : Z := 0x6000.
Definition BLOCK_REWARD_FRONTIER : Z := 5 * ETHER.
Definition BLOCK_REWARD_BYZANTIUM : Z := 3 * ETHER.
Definition BLOCK_REWARD_CONSTANTINOPLE : Z := 2 * ETHER.
Definition G_QUAD_DIVISOR_BYZANTIUM : Z := 20.
Definition G_QUAD_DIVISOR_BERLIN : Z := 3.
Definition MAX_REFUND_QUOTIENT_FRONTIER : Z := 2.
Definition MAX_REFUND_QUOTIENT_LONDON : Z := 5.
Definition INITIAL_BASE_FEE : Z := 1000000000.
Definition BASE_FEE_MAX_CHANGE_DENOMINATOR : Z := 8.
Definition ELASTICITY_MULTIPLIER : Z := 2.
End param.

(** ** Signature values *)

Record YParityAndChainId := {
  odd_y_parity : bool;
  yp_chain_id : option Z;
}.

Definition from_v (v : Z) : option YParityAndChainId :=
  if (v =? 27) || (v =? 28) then
    Some {| odd_y_parity := v =? 28; yp_chain_id := None |}
  else if 35 <=? v then
    let w := v - 35 in
    Some {| odd_y_parity := negb (w mod 2 =? 0);
            yp_chain_id := Some (Z.shiftr w 1) |}
  else None.

(** [chain_id.0 * 2 + 35 + odd_y_parity as u64]; [None] is an overflow. *)
Definition to_v (y : YParityAndChainId) : option Z :=
  match yp_chain_id y with
  | Some chain_id =>
      d ← u64_checked (chain_id * 2);
      d ← u64_checked (d + 35);
      u64_checked (d + Z.b2z (odd_y_parity y))
  | None => u64_checked (27 + Z.b2z (odd_y_parity y))
  end.

(** The order of the curve secp256k1. *)
Definition UPPER : Z :=
  0xfffffffffffffffffffffffffffffffebaaedce6af48a03bbfd25e8cd0364141.

Definition is_valid_signature (r s : Z) : bool :=
  if (r =? 0) || (s =? 0) then false
  else if (UPPER <=? r) && (UPPER <=? s) then false
  else true.

Record MessageSignature := {
  sig_odd_y_parity : bool;
  sig_r : Z;
  sig_s : Z;
}.

Definition MessageSignature_new (odd_y_parity : bool) (r s : Z) : option MessageSignature :=
  if is_valid_signature r s then
    Some {| sig_odd_y_parity := odd_y_parity; sig_r := r; sig_s := s |}
  else None.

Definition HALF_N : Z :=
  0x7fffffffffffffffffffffffffffffff5d576e7357a4501ddfe92f46681b20a0.

Definition malleable (sig : MessageSignature) : bool := HALF_N <? sig_s sig.

Definition is_low_s (sig : MessageSignature) : bool := sig_s sig <=? HALF_N.

(** ** Messages *)

Inductive TxType := TxLegacy | TxEIP2930 | TxEIP1559.

(** [TryFrom<u8>]; [None] is the decoding error. *)
Definition TxType_try_from (orig : Z) : option TxType :=
  if orig =? 0 then Some TxLegacy
  else if orig =? 1 then Some TxEIP2930
  else if orig =? 2 then Some TxEIP1559
  else None.

Inductive TransactionAction := ActionCall (address : Address) | ActionCreate.

Record AccessListItem := {
  item_address : Address;
  slots : list Z;
}.

Inductive Message :=
  | Legacy (chain_id : option Z) (nonce gas_price gas_limit : Z)
      (action : TransactionAction) (value : Z) (input : Bytes)
  | EIP2930 (chain_id : Z) (nonce gas_price gas_limit : Z)
      (action : TransactionAction) (value : Z) (input : Bytes)
      (access_list : list AccessListItem)
  | EIP1559 (chain_id : Z) (nonce max_priority_fee_per_gas max_fee_per_gas gas_limit : Z)
      (action : TransactionAction) (value : Z) (input : Bytes)
      (access_list : list AccessListItem).

Record MessageWithSignature := {
  message : Message;
  signature : MessageSignature;
}.

Record MessageWithSender := {
  sent_message : Message;
  sender : Address;
}.

#[global] Instance MessageSignature_eq_dec : EqDecision MessageSignature.
Proof. solve_decision. Defined.
#[global] Instance TransactionAction_eq_dec : EqDecision TransactionAction.
Proof. solve_decision. Defined.
#[global] Instance AccessListItem_eq_dec : EqDecision AccessListItem.
Proof. solve_decision. Defined.
#[global] Instance Message_eq_dec : EqDecision Message.
Proof. solve_decision. Defined.
#[global] Instance MessageWithSignature_eq_dec : EqDecision MessageWithSignature.
Proof. solve_decision. Defined.

Module txn.

Definition tx_type (t : Message) : TxType :=
  match t with
  | Legacy _ _ _ _ _ _ _ => TxLegacy
  | EIP2930 _ _ _ _ _ _ _ _ => TxEIP2930
  | EIP1559 _ _ _ _ _ _ _ _ _ => TxEIP1559
  end.

Definition chain_id (t : Message) : option Z :=
  match t with
  | Legacy c _ _ _ _ _ _ => c
  | EIP2930 c _ _ _ _ _ _ _ => Some c
  | EIP1559 c _ _ _ _ _ _ _ _ => Some c
  end.

Definition nonce (t : Message) : Z :=
  match t with
  | Legacy _ n _ _ _ _ _ => n
  | EIP2930 _ n _ _ _ _ _ _ => n
  | EIP1559 _ n _ _ _ _ _ _ _ => n
  end.

Definition max_priority_fee_per_gas (t : Message) : Z :=
  match t with
  | Legacy _ _ p _ _ _ _ => p
  | EIP2930 _ _ p _ _ _ _ _ => p
  | EIP1559 _ _ p _ _ _ _ _ _ => p
  end.

Definition max_fee_per_gas (t : Message) : Z :=
  match t with
  | Legacy _ _ p _ _ _ _ => p
  | EIP2930 _ _ p _ _ _ _ _ => p
  | EIP1559 _ _ _ m _ _ _ _ _ => m
  end.

Definition gas_limit (t : Message) : Z :=
  match t with
  | Legacy _ _ _ g _ _ _ => g
  | EIP2930 _ _ _ g _ _ _ _ => g
  | EIP1559 _ _ _ _ g _ _ _ _ => g
  end.

Definition action (t : Message) : TransactionAction :=
  match t with
  | Legacy _ _ _ _ a _ _ => a
  | EIP2930 _ _ _ _ a _ _ _ => a
  | EIP1559 _ _ _ _ _ a _ _ _ => a
  end.

Definition value (t : Message) : Z :=
  match t with
  | Legacy _ _ _ _ _ v _ => v
  | EIP2930 _ _ _ _ _ v _ _ => v
  | EIP1559 _ _ _ _ _ _ v _ _ => v
  end.

Definition input (t : Message) : Bytes :=
  match t with
  | Legacy _ _ _ _ _ _ i => i
  | EIP2930 _ _ _ _ _ _ i _ => i
  | EIP1559 _ _ _ _ _ _ _ i _ => i
  end.

Definition access_list (t : Message) : list AccessListItem :=
  match t with
  | Legacy _ _ _ _ _ _ _ => []
  | EIP2930 _ _ _ _ _ _ _ l => l
  | EIP1559 _ _ _ _ _ _ _ _ l => l
  end.

(** The [assert!] and the subtraction panic below the base fee. *)
Definition priority_fee_per_gas (t : Message) (base_fee_per_gas : Z) : option Z :=
  if base_fee_per_gas <=? max_fee_per_gas t then
    d ← unsigned_sub (max_fee_per_gas t) base_fee_per_gas;
    Some (Z.min (max_priority_fee_per_gas t) d)
  else None.

Definition effective_gas_price (t : Message) (base_fee_per_gas : Z) : option Z :=
  p ← priority_fee_per_gas t base_fee_per_gas;
  u256_checked (p + base_fee_per_gas).

End txn.

(** ** Intrinsic gas *)

Definition u128_checked : Z -> option Z := checked 0 (2 ^ 128 - 1).

(** [for e in &*txn.access_list() { gas += .. }]. *)
Fixpoint slots_gas (gas : Z) (l : list AccessListItem) : option Z :=
  match l with
  | [] => Some gas
  | e :: l =>
      c ← u128_checked (blen (slots e) * fee.ACCESS_LIST_STORAGE_KEY_COST);
      gas ← u128_checked (gas + c);
      slots_gas gas l
  end.

(** [None] is an overflow of [u128]. *)
Definition intrinsic_gas (t : Message) (homestead istanbul : bool) : option Z :=
  let gas := fee.G_TRANSACTION in
  gas ← (match txn.action t with
         | ActionCreate =>
             if homestead then u128_checked (gas + fee.G_TX_CREATE) else Some gas
         | ActionCall _ => Some gas
         end);
  c ← u128_checked (blen (txn.access_list t) * fee.ACCESS_LIST_ADDRESS_COST);
  gas ← u128_checked (gas + c);
  gas ← slots_gas gas (txn.access_list t);
  if blen (txn.input t) =? 0 then Some gas
  else
    let non_zero_bytes := blen (filter (fun c => byte_val c <> 0) (txn.input t)) in
    let non_zero_gas :=
      if istanbul then fee.G_TX_DATA_NON_ZERO_ISTANBUL
      else fee.G_TX_DATA_NON_ZERO_FRONTIER in
    c ← u128_checked (non_zero_bytes * non_zero_gas);
    gas ← u128_checked (gas + c);
    zero_bytes ← unsigned_sub (blen (txn.input t)) non_zero_bytes;
    c ← u128_checked (zero_bytes * fee.G_TX_DATA_ZERO);
    u128_checked (gas + c).

(** ** Properties *)

Lemma u64_checked_some z : 0 <= z <= u64_max -> u64_checked z = Some z.
Proof. apply checked_some. Qed.

(** The signature value of EIP-155 determines the parity and the chain id,
    and the other way round: [to_v] and [from_v] are inverse to each other on
    all values of [v] that are not rejected. *)
Theorem signature_v_roundtrip v : is_u64 v ->
  (forall y, from_v v = Some y -> to_v y = Some v) /\
  (forall y c, yp_chain_id y = Some c -> 0 <= c -> to_v y = Some v -> from_v v = Some y) /\
  (forall y, yp_chain_id y = None -> to_v y = Some v -> from_v v = Some y).
Proof.
  unfold is_u64, uint. intros Hv. splits.
  - intros y. unfold from_v. case_if.
    + intros [= <-]. unfold to_v. simpl. apply orb_true_iff in Heqb as [E|E]; zb; subst; done.
    + case_if; [|done]. intros [= <-]. unfold to_v. simpl.
      rewrite Z.shiftr_div_pow2 by lia. change (2 ^ 1) with 2.
      pose proof (Z.div_mod (v - 35) 2). pose proof (Z.mod_pos_bound (v - 35) 2).
      rewrite !u64_checked_some by (unfold u64_max; lia). simpl.
      rewrite !u64_checked_some by (unfold u64_max; lia). simpl.
      destruct (Z.eqb_spec ((v - 35) mod 2) 0); simpl;
        rewrite u64_checked_some by (unfold u64_max; lia); f_equal; lia.
  - intros [o c'] c. unfold to_v. simpl. intros -> Hc.
    intros H. destruct (u64_checked (c * 2)) as [d|] eqn:E1; [|done]. simpl in H.
    apply checked_inv in E1 as [-> ?].
    destruct (u64_checked (c * 2 + 35)) as [d|] eqn:E2; [|done]. simpl in H.
    apply checked_inv in E2 as [-> ?]. apply checked_inv in H as [-> ?].
    unfold from_v. destruct o; simpl.
    + rewrite !(proj2 (Z.eqb_neq _ _)) by lia. simpl. rewrite (proj2 (Z.leb_le _ _)) by lia.
      replace (c * 2 + 35 + 1 - 35) with (1 + c * 2) by lia.
      rewrite Z_mod_plus_full, Z.shiftr_div_pow2 by lia. change (2 ^ 1) with 2.
      by rewrite Z.div_add by lia.
    + rewrite !(proj2 (Z.eqb_neq _ _)) by lia. simpl. rewrite (proj2 (Z.leb_le _ _)) by lia.
      replace (c * 2 + 35 + 0 - 35) with (0 + c * 2) by lia.
      rewrite Z_mod_plus_full, Z.shiftr_div_pow2 by lia. change (2 ^ 1) with 2.
      by rewrite Z.div_add by lia.
  - intros [o c]. simpl. intros ->. unfold to_v. destruct o; by intros [= <-].
Qed.

Lemma signature_v_roundtrip_witness :
  from_v 38 = Some {| odd_y_parity := true; yp_chain_id := Some 1 |}.
Proof.
  apply (proj1 (proj2 (signature_v_roundtrip 38 ltac:(unfold uint; lia)))
    {| odd_y_parity := true; yp_chain_id := Some 1 |} 1); [reflexivity|lia|reflexivity].
Defined.

(** ** Intrinsic gas in closed form *)

Definition slot_count (l : list AccessListItem) : Z :=
  Z.of_nat (sum_list_with (fun e => length (slots e)) l).

(** The lengths of the lists and byte strings of a message that is in memory. *)
Definition in_memory (t : Message) : Prop :=
  blen (txn.input t) <= i64_max /\ blen (txn.access_list t) <= i64_max /\
  slot_count (txn.access_list t) <= i64_max.

Definition zero_bytes (bs : Bytes) : Z := blen (filter (fun c => byte_val c = 0) bs).
Definition non_zero_bytes (bs : Bytes) : Z := blen (filter (fun c => byte_val c <> 0) bs).

Lemma u128_checked_some z : 0 <= z < 2 ^ 100 -> u128_checked z = Some z.
Proof.
  intros. apply checked_some. assert (2 ^ 100 < 2 ^ 128) by done. lia.
Qed.

Lemma bind_u128 {B} z (k : Z -> option B) : 0 <= z < 2 ^ 100 -> (u128_checked z ≫= k) = k z.
Proof. intros. by rewrite u128_checked_some. Qed.

Lemma slots_gas_sum gas l : 0 <= gas <= 2 ^ 90 -> slot_count l <= i64_max ->
  slots_gas gas l = Some (gas + slot_count l * fee.ACCESS_LIST_STORAGE_KEY_COST).
Proof.
  intros Hg Hl. cut (forall k, 0 <= k -> k + slot_count l <= i64_max ->
    slots_gas (gas + k * fee.ACCESS_LIST_STORAGE_KEY_COST) l =
    Some (gas + (k + slot_count l) * fee.ACCESS_LIST_STORAGE_KEY_COST)).
  { intros H. specialize (H 0). rewrite Z.mul_0_l, Z.add_0_r, Z.add_0_l in H. apply H; lia. }
  clear Hl. unfold i64_max, slot_count, fee.ACCESS_LIST_STORAGE_KEY_COST.
  induction l as [|e l IH]; intros k Hk Hl; simpl in *.
  - by rewrite Z.add_0_r.
  - unfold blen, fee.ACCESS_LIST_STORAGE_KEY_COST.
    rewrite bind_u128 by lia. rewrite bind_u128 by lia.
    rewrite <- Z.add_assoc, <- Z.mul_add_distr_r, IH by lia. f_equal. lia.
Qed.

Lemma zero_non_zero_bytes bs : zero_bytes bs + non_zero_bytes bs = blen bs.
Proof.
  unfold zero_bytes, non_zero_bytes, blen. induction bs as [|b bs IH]; [done|].
  rewrite !filter_cons. destruct (decide (byte_val b = 0)), (decide (byte_val b <> 0));
    simpl; try lia; tauto.
Qed.

(** The intrinsic gas of a transaction is the sum of the base charge, the
    creation charge (from Homestead on), the charges per address and per
    storage key of the access list and the charges per zero and non-zero byte
    of the input (cheaper from Istanbul on); the [u128] accumulator does not
    overflow. *)
Theorem intrinsic_gas_formula t homestead istanbul : in_memory t ->
  intrinsic_gas t homestead istanbul = Some
    (fee.G_TRANSACTION +
     (if bool_decide (txn.action t = ActionCreate) && homestead then fee.G_TX_CREATE else 0) +
     blen (txn.access_list t) * fee.ACCESS_LIST_ADDRESS_COST +
     slot_count (txn.access_list t) * fee.ACCESS_LIST_STORAGE_KEY_COST +
     non_zero_bytes (txn.input t) *
       (if istanbul then fee.G_TX_DATA_NON_ZERO_ISTANBUL
        else fee.G_TX_DATA_NON_ZERO_FRONTIER) +
     zero_bytes (txn.input t) * fee.G_TX_DATA_ZERO).
Proof.
  intros (Hi & Ha & Hs).
  pose proof (zero_non_zero_bytes (txn.input t)) as Hz.
  pose proof (blen_nonneg (txn.access_list t)).
  assert (0 <= slot_count (txn.access_list t)) by (unfold slot_count; lia).
  assert (0 <= zero_bytes (txn.input t)) by apply blen_nonneg.
  assert (0 <= non_zero_bytes (txn.input t)) by apply blen_nonneg.
  unfold intrinsic_gas. fold (non_zero_bytes (txn.input t)). unfold i64_max in *.
  set (base := fee.G_TRANSACTION +
    (if bool_decide (txn.action t = ActionCreate) && homestead then fee.G_TX_CREATE else 0)).
  replace (match txn.action t with ActionCall _ => _ | ActionCreate => _ end) with (Some base);
    [|unfold base; destruct (txn.action t), homestead; vm_compute; reflexivity].
  assert (0 <= base <= 53000) by (unfold base; case_if; vm_compute; split; discriminate).
  generalize dependent base. intros base Hb. rewrite bind_Some_eq.
  unfold fee.ACCESS_LIST_ADDRESS_COST.
  rewrite bind_u128 by lia. rewrite bind_u128 by lia.
  rewrite slots_gas_sum, bind_Some_eq by (unfold i64_max; lia).
  unfold fee.ACCESS_LIST_STORAGE_KEY_COST, fee.G_TX_DATA_ZERO.
  assert (16 <= (if istanbul then fee.G_TX_DATA_NON_ZERO_ISTANBUL
                 else fee.G_TX_DATA_NON_ZERO_FRONTIER) <= 68) as Hn
    by (destruct istanbul; vm_compute; split; discriminate).
  generalize dependent (if istanbul then fee.G_TX_DATA_NON_ZERO_ISTANBUL
                 else fee.G_TX_DATA_NON_ZERO_FRONTIER). intros ng Hn.
  case_if.
  - f_equal. assert (zero_bytes (txn.input t) = 0 /\ non_zero_bytes (txn.input t) = 0)
      as [-> ->] by lia. lia.
  - rewrite bind_u128 by nia. rewrite bind_u128 by nia.
    rewrite unsigned_sub_some, bind_Some_eq by lia. rewrite bind_u128 by lia.
    rewrite u128_checked_some by nia. f_equal. lia.
Qed.

Lemma intrinsic_gas_formula_witness :
  intrinsic_gas (EIP2930 1 0 0 0 ActionCreate 0 [x00; x01; x02]
    [{| item_address := 5; slots := [1; 2] |}]) true true =
  Some (21000 + 32000 + 2400 + 3800 + 32 + 4).
Proof.
  apply (intrinsic_gas_formula (EIP2930 1 0 0 0 ActionCreate 0 [x00; x01; x02]
    [{| item_address := 5; slots := [1; 2] |}]) true true).
  vm_compute. splits; discriminate.
Defined.

(** ** Signatures out of range *)

(** The range of [r] and [s] that the signature scheme defines. *)
Definition in_curve_order (r s : Z) : Prop := 0 < r < UPPER /\ 0 < s < UPPER.

(** A signature is accepted when at least one of [r] and [s] is below the
    order of the curve and neither is zero.  So all signatures in range are
    accepted, and also those with exactly one component out of range, which the
    signature scheme excludes. *)
Theorem signature_acceptance r s odd : word r -> word s ->
  (MessageSignature_new odd r s =
     Some {| sig_odd_y_parity := odd; sig_r := r; sig_s := s |} <->
   in_curve_order r s \/ (0 < r < UPPER /\ UPPER <= s) \/ (UPPER <= r /\ 0 < s < UPPER)) /\
  (MessageSignature_new odd r s = None <->
   r = 0 \/ s = 0 \/ (UPPER <= r /\ UPPER <= s)).
Proof.
  unfold uint, in_curve_order, MessageSignature_new, is_valid_signature.
  assert (0 < UPPER) by done. generalize dependent UPPER. intros U HU Hr Hs.
  destruct (Z.eqb_spec r 0), (Z.eqb_spec s 0), (Z.leb_spec U r), (Z.leb_spec U s);
    simpl; (split; split); intros; try done; try lia.
Qed.

Lemma signature_acceptance_witness :
  MessageSignature_new false UPPER 1 =
    Some {| sig_odd_y_parity := false; sig_r := UPPER; sig_s := 1 |} /\
  ~ in_curve_order UPPER 1.
Proof.
  split.
  - apply (proj1 (signature_acceptance UPPER 1 false ltac:(done) ltac:(done))).
    right; right. done.
  - intros [[_ H] _]. by apply Z.lt_irrefl in H.
Defined.
