(* ===== verification/IntraBlockState.v ===== *)
(** The state of a block under execution, with its undo journal
    (src/state/intra_block_state.rs, delta.rs, object.rs and interface.rs).

    The database below is a parameter: the trait [State] is a class over a type
    [DB].  A method on [&mut self] is a function on states in a monad with two
    failures, an error of the database and a panic.  The journal, a [Vec] used
    as a stack, is a list with the newest delta first. *)
From S2P Require Import Prelude Word EvmState Host.
From Stdlib Require Import ZArith Lia Strings.Byte.
From stdpp Require Import base list option numbers gmap.
#[local] Open Scope Z_scope.

(** Keccak-256 of the empty string. *)
Definition EMPTY_HASH : Z :=
  0xc5d2460186f7233c927e7db2dcc703c0e500b653ca82273b7bfad8045d85a470.

Record Account := {
  nonce : Z;
  balance : Z;
  code_hash : Z;
}.

Definition Account_default : Account :=
  {| nonce := 0; balance := 0; code_hash := EMPTY_HASH |}.

#[global] Instance Account_eq_dec : EqDecision Account.
Proof. solve_decision. Defined.

Record Log := {
  log_address : Address;
  log_topics : list Z;
  log_data : Bytes;
}.

Record Object := {
  initial : option Account;
  current : option Account;
}.

Record CommittedValue := {
  cv_initial : Z;
  cv_original : Z;
}.

Record Storage := {
  st_committed : gmap Z CommittedValue;
  st_current : gmap Z Z;
}.

Definition Storage_default : Storage := {| st_committed := ∅; st_current := ∅ |}.

(** The methods of the trait [State] that the block state calls.  A result of
    [None] is [Err]. *)
Class State (DB : Type) := {
  read_account : DB -> Address -> option (option Account);
  read_code : DB -> Z -> option Bytes;
  read_storage : DB -> Address -> Z -> option Z;
  erase_storage : Address -> DB -> option DB;
  begin_block : Z -> DB -> DB;
  update_account : Address -> option Account -> option Account -> DB -> DB;
  update_code : Z -> Bytes -> DB -> option DB;
  update_storage : Address -> Z -> Z -> Z -> DB -> option DB;
}.

Inductive Delta :=
  | Create (address : Address)
  | Update (address : Address) (previous : Object)
  | UpdateBalance (address : Address) (previous : Z)
  | Incarnation (address : Address)
  | Selfdestruct (address : Address)
  | Touch (address : Address)
  | StorageChange (address : Address) (key previous : Z)
  | StorageWipe (address : Address) (storage : Storage)
  | StorageCreate (address : Address)
  | StorageAccess (address : Address) (key : Z)
  | AccountAccess (address : Address).

Record Snapshot := {
  journal_size : Z;
  log_size : Z;
  snap_refund : Z;
}.

Record IntraBlockState (DB : Type) := {
  db : DB;
  objects : gmap Address Object;
  storage : gmap Address Storage;
  incarnations : gmap Address Z;
  existing_code : gmap Z Bytes;
  new_code : gmap Z Bytes;
  journal : list Delta;
  self_destructs : gset Address;
  logs : list Log;
  touched : gset Address;
  refund : Z;
  accessed_addresses : gset Address;
  accessed_storage_keys : gmap Address (gset Z);
}.
Arguments db {DB} _.
Arguments objects {DB} _.
Arguments storage {DB} _.
Arguments incarnations {DB} _.
Arguments existing_code {DB} _.
Arguments new_code {DB} _.
Arguments journal {DB} _.
Arguments self_destructs {DB} _.
Arguments logs {DB} _.
Arguments touched {DB} _.
Arguments refund {DB} _.
Arguments accessed_addresses {DB} _.
Arguments accessed_storage_keys {DB} _.

(** Field updates. *)
Section updates.
Context {DB : Type} (s : IntraBlockState DB).
Definition with_objects (v : gmap Address Object) : IntraBlockState DB :=
  Build_IntraBlockState DB (db s) v (storage s) (incarnations s) (existing_code s)
    (new_code s) (journal s) (self_destructs s) (logs s) (touched s) (refund s)
    (accessed_addresses s) (accessed_storage_keys s).
Definition with_storage (v : gmap Address Storage) : IntraBlockState DB :=
  Build_IntraBlockState DB (db s) (objects s) v (incarnations s) (existing_code s)
    (new_code s) (journal s) (self_destructs s) (logs s) (touched s) (refund s)
    (accessed_addresses s) (accessed_storage_keys s).
Definition with_incarnations (v : gmap Address Z) : IntraBlockState DB :=
  Build_IntraBlockState DB (db s) (objects s) (storage s) v (existing_code s)
    (new_code s) (journal s) (self_destructs s) (logs s) (touched s) (refund s)
    (accessed_addresses s) (accessed_storage_keys s).
Definition with_existing_code (v : gmap Z Bytes) : IntraBlockState DB :=
  Build_IntraBlockState DB (db s) (objects s) (storage s) (incarnations s) v
    (new_code s) (journal s) (self_destructs s) (logs s) (touched s) (refund s)
    (accessed_addresses s) (accessed_storage_keys s).
Definition with_new_code (v : gmap Z Bytes) : IntraBlockState DB :=
  Build_IntraBlockState DB (db s) (objects s) (storage s) (incarnations s)
    (existing_code s) v (journal s) (self_destructs s) (logs s) (touched s) (refund s)
    (accessed_addresses s) (accessed_storage_keys s).
Definition with_journal (v : list Delta) : IntraBlockState DB :=
  Build_IntraBlockState DB (db s) (objects s) (storage s) (incarnations s)
    (existing_code s) (new_code s) v (self_destructs s) (logs s) (touched s) (refund s)
    (accessed_addresses s) (accessed_storage_keys s).
Definition with_self_destructs (v : gset Address) : IntraBlockState DB :=
  Build_IntraBlockState DB (db s) (objects s) (storage s) (incarnations s)
    (existing_code s) (new_code s) (journal s) v (logs s) (touched s) (refund s)
    (accessed_addresses s) (accessed_storage_keys s).
Definition with_logs (v : list Log) : IntraBlockState DB :=
  Build_IntraBlockState DB (db s) (objects s) (storage s) (incarnations s)
    (existing_code s) (new_code s) (journal s) (self_destructs s) v (touched s) (refund s)
    (accessed_addresses s) (accessed_storage_keys s).
Definition with_touched (v : gset Address) : IntraBlockState DB :=
  Build_IntraBlockState DB (db s) (objects s) (storage s) (incarnations s)
    (existing_code s) (new_code s) (journal s) (self_destructs s) (logs s) v (refund s)
    (accessed_addresses s) (accessed_storage_keys s).
Definition with_refund (v : Z) : IntraBlockState DB :=
  Build_IntraBlockState DB (db s) (objects s) (storage s) (incarnations s)
    (existing_code s) (new_code s) (journal s) (self_destructs s) (logs s) (touched s) v
    (accessed_addresses s) (accessed_storage_keys s).
Definition with_accessed_addresses (v : gset Address) : IntraBlockState DB :=
  Build_IntraBlockState DB (db s) (objects s) (storage s) (incarnations s)
    (existing_code s) (new_code s) (journal s) (self_destructs s) (logs s) (touched s)
    (refund s) v (accessed_storage_keys s).
Definition with_accessed_storage_keys (v : gmap Address (gset Z)) : IntraBlockState DB :=
  Build_IntraBlockState DB (db s) (objects s) (storage s) (incarnations s)
    (existing_code s) (new_code s) (journal s) (self_destructs s) (logs s) (touched s)
    (refund s) (accessed_addresses s) v.
End updates.

(** ** The effect monad *)

Inductive outcome (S A : Type) : Type :=
  | Done (a : A) (s : S)
  | Failed
  | Panicked.
Arguments Done {S A} a s.
Arguments Failed {S A}.
Arguments Panicked {S A}.

Definition SM (S A : Type) : Type := S -> outcome S A.

#[export] Instance SM_ret S : MRet (SM S) := fun A a s => Done a s.
#[export] Instance SM_bind S : MBind (SM S) := fun A B f m s =>
  match m s with
  | Done a s' => f a s'
  | Failed => Failed
  | Panicked => Panicked
  end.

Section monad.
Context {S : Type}.
Definition s_get {A} (f : S -> A) : SM S A := fun s => Done (f s) s.
Definition s_modify (f : S -> S) : SM S unit := fun s => Done () (f s).
(** [r?]. *)
Definition s_try {A} (r : option A) : SM S A := fun s =>
  match r with Some a => Done a s | None => Failed end.
(** [r.unwrap()], and checked arithmetic. *)
Definition s_unwrap {A} (r : option A) : SM S A := fun s =>
  match r with Some a => Done a s | None => Panicked end.
Definition s_panic {A} : SM S A := fun _ => Panicked.
End monad.

Lemma s_bind_done {S A B} (m : SM S A) (k : A -> SM S B) s r s2 :
  (m ≫= k) s = Done r s2 <-> exists a s1, m s = Done a s1 /\ k a s1 = Done r s2.
Proof.
  unfold mbind, SM_bind. split.
  - destruct (m s) as [a s1| |]; [|done..]. eauto.
  - by intros (a & s1 & -> & ?).
Qed.

(** ** Operations *)

Module ibs.

Section ops.
Context {DB : Type} `{State DB, Keccak}.

Abbreviation IBS := (IntraBlockState DB).

Definition new (d : DB) : IBS :=
  Build_IntraBlockState DB d ∅ ∅ ∅ ∅ ∅ [] ∅ [] ∅ 0 ∅ ∅.

(** [self.journal.push(d)]. *)
Definition push (d : Delta) : SM IBS unit :=
  s_modify (fun s => with_journal s (d :: journal s)).

(** Write an object back through the reference of [get_object]. *)
Definition put_object (address : Address) (o : Object) : SM IBS unit :=
  s_modify (fun s => with_objects s (<[address := o]> (objects s))).

Definition get_object (address : Address) : SM IBS (option Object) :=
  s ← s_get id;
  match objects s !! address with
  | Some o => mret (Some o)
  | None =>
      accdata ← s_try (read_account (db s) address);
      match accdata with
      | Some account =>
          let o := {| initial := Some account; current := Some account |} in
          put_object address o;; mret (Some o)
      | None => mret None
      end
  end.

Definition ensure_object (address : Address) : SM IBS unit :=
  obj ← get_object address;
  match obj with
  | Some obj =>
      match current obj with
      | None =>
          push (Update address obj);;
          put_object address {| initial := initial obj; current := Some Account_default |}
      | Some _ => mret ()
      end
  | None =>
      push (Create address);;
      put_object address {| initial := None; current := Some Account_default |}
  end.

Definition get_or_create_object (address : Address) : SM IBS Object :=
  ensure_object address;;
  s ← s_get id;
  s_unwrap (objects s !! address).

(** The current account of an address, if any. *)
Definition get_current (address : Address) : SM IBS (option Account) :=
  obj ← get_object address;
  mret (obj ≫= current).

Definition exists_ (address : Address) : SM IBS bool :=
  acc ← get_current address;
  mret (bool_decide (is_Some acc)).

Definition is_dead (address : Address) : SM IBS bool :=
  acc ← get_current address;
  mret (match acc with
        | Some current =>
            (code_hash current =? EMPTY_HASH) && (nonce current =? 0) && (balance current =? 0)
        | None => true
        end).

(** [*self.incarnations.entry(address).or_default() += 1]. *)
Definition bump_incarnation (address : Address) : SM IBS unit :=
  s ← s_get id;
  n ← s_unwrap (u64_checked (default 0 (incarnations s !! address) + 1));
  s_modify (fun s => with_incarnations s (<[address := n]> (incarnations s))).

Definition create_contract (address : Address) : SM IBS unit :=
  prev ← get_object address;
  let initial_ := prev ≫= initial in
  let current_ :=
    {| nonce := 0;
       balance := default 0 (o ← prev; a ← current o; Some (balance a));
       code_hash := EMPTY_HASH |} in
  push (match prev with
        | Some prev => Update address prev
        | None => Create address
        end);;
  bump_incarnation address;;
  push (Incarnation address);;
  put_object address {| initial := initial_; current := Some current_ |};;
  s ← s_get id;
  match storage s !! address with
  | Some removed =>
      s_modify (fun s => with_storage s (delete address (storage s)));;
      push (StorageWipe address removed)
  | None => push (StorageCreate address)
  end.

Definition destruct_ (address : Address) : SM IBS unit :=
  bump_incarnation address;;
  s_modify (fun s => with_storage s (delete address (storage s)));;
  obj ← get_object address;
  match obj with
  | Some obj => put_object address {| initial := initial obj; current := None |}
  | None => mret ()
  end.

Definition record_selfdestruct (address : Address) : SM IBS unit :=
  s ← s_get id;
  if decide (address ∈ self_destructs s) then mret ()
  else
    s_modify (fun s => with_self_destructs s ({[address]} ∪ self_destructs s));;
    push (Selfdestruct address).

(** [for x in xs { f(x)?; }]. *)
Fixpoint for_each {A} (f : A -> SM IBS unit) (xs : list A) : SM IBS unit :=
  match xs with
  | [] => mret ()
  | x :: xs => f x;; for_each f xs
  end.

Definition destruct_selfdestructs : SM IBS unit :=
  s ← s_get id;
  for_each destruct_ (elements (self_destructs s)).

Definition destruct_touched_dead : SM IBS unit :=
  s ← s_get id;
  for_each (fun address =>
    dead ← is_dead address;
    if (dead : bool) then destruct_ address else mret ()) (elements (touched s)).

Definition number_of_self_destructs (s : IBS) : Z := Z.of_nat (size (self_destructs s)).

Definition get_balance (address : Address) : SM IBS Z :=
  acc ← get_current address;
  mret (default U256.ZERO (balance <$> acc)).

Definition RIPEMD_ADDRESS : Address := 3.

Definition touch (address : Address) : SM IBS unit :=
  s ← s_get id;
  if decide (address ∈ touched s) then mret ()
  else
    s_modify (fun s => with_touched s ({[address]} ∪ touched s));;
    if address =? RIPEMD_ADDRESS then mret () else push (Touch address).

(** The common body of [set_balance], [add_to_balance] and
    [subtract_from_balance]; [f] is [None] on an overflow. *)
Definition update_balance (address : Address) (f : Z -> option Z) : SM IBS unit :=
  obj ← get_or_create_object address;
  current_ ← s_unwrap (current obj);
  push (UpdateBalance address (balance current_));;
  v ← s_unwrap (f (balance current_));
  put_object address {|
    initial := initial obj;
    current := Some {| nonce := nonce current_; balance := v;
                       code_hash := code_hash current_ |} |};;
  touch address.

Definition set_balance (address : Address) (value : Z) : SM IBS unit :=
  update_balance address (fun _ => Some value).
Definition add_to_balance (address : Address) (addend : Z) : SM IBS unit :=
  update_balance address (fun b => u256_checked (b + addend)).
Definition subtract_from_balance (address : Address) (subtrahend : Z) : SM IBS unit :=
  update_balance address (fun b => u256_checked (b - subtrahend)).

Definition get_nonce (address : Address) : SM IBS Z :=
  acc ← get_current address;
  mret (default 0 (nonce <$> acc)).

Definition set_nonce (address : Address) (n : Z) : SM IBS unit :=
  obj ← get_or_create_object address;
  push (Update address obj);;
  current_ ← s_unwrap (current obj);
  put_object address {|
    initial := initial obj;
    current := Some {| nonce := n; balance := balance current_;
                       code_hash := code_hash current_ |} |}.

Definition get_code (address : Address) : SM IBS (option Bytes) :=
  acc ← get_current address;
  match acc with
  | Some current =>
      let code_hash := code_hash current in
      if negb (code_hash =? EMPTY_HASH) then
        s ← s_get id;
        match new_code s !! code_hash with
        | Some code => mret (Some code)
        | None =>
            match existing_code s !! code_hash with
            | Some code => mret (Some code)
            | None =>
                code ← s_try (read_code (db s) code_hash);
                s_modify (fun s =>
                  with_existing_code s (<[code_hash := code]> (existing_code s)));;
                mret (Some code)
            end
        end
      else mret None
  | None => mret None
  end.

Definition get_code_hash (address : Address) : SM IBS Z :=
  acc ← get_current address;
  mret (default EMPTY_HASH (code_hash <$> acc)).

Definition set_code (address : Address) (code : Bytes) : SM IBS unit :=
  obj ← get_or_create_object address;
  push (Update address obj);;
  current_ ← s_unwrap (current obj);
  let h := be_val (keccak_digest code) in
  put_object address {|
    initial := initial obj;
    current := Some {| nonce := nonce current_; balance := balance current_;
                       code_hash := h |} |};;
  s ← s_get id;
  match new_code s !! h with
  | Some _ => mret ()
  | None => s_modify (fun s => with_new_code s (<[h := code]> (new_code s)))
  end.

Definition access_account (address : Address) : SM IBS AccessStatus :=
  s ← s_get id;
  if decide (address ∈ accessed_addresses s) then mret Warm
  else
    s_modify (fun s =>
      with_accessed_addresses s ({[address]} ∪ accessed_addresses s));;
    push (AccountAccess address);;
    mret Cold.

(** The keys accessed at an address. *)
Definition keys_at (s : IBS) (address : Address) : gset Z :=
  default ∅ (accessed_storage_keys s !! address).

Definition access_storage (address : Address) (key : Z) : SM IBS AccessStatus :=
  s ← s_get id;
  let keys := keys_at s address in
  s_modify (fun s => with_accessed_storage_keys s
    (<[address := {[key]} ∪ keys]> (accessed_storage_keys s)));;
  if decide (key ∈ keys) then mret Warm
  else push (StorageAccess address key);; mret Cold.

(** [self.storage.entry(address).or_default()]. *)
Definition storage_at (s : IBS) (address : Address) : Storage :=
  default Storage_default (storage s !! address).

Definition put_storage (address : Address) (v : Storage) : SM IBS unit :=
  s_modify (fun s => with_storage s (<[address := v]> (storage s))).

Definition get_storage (address : Address) (key : Z) (original : bool) : SM IBS Z :=
  obj ← get_object address;
  match obj with
  | Some obj =>
      match current obj with
      | Some _ =>
          s ← s_get id;
          let st := storage_at s address in
          put_storage address st;;
          match (if original then None else st_current st !! key) with
          | Some v => mret v
          | None =>
              match st_committed st !! key with
              | Some v => mret (cv_original v)
              | None =>
                  if bool_decide (initial obj = None)
                     || bool_decide (is_Some (incarnations s !! address))
                  then mret U256.ZERO
                  else
                    val ← s_try (read_storage (db s) address key);
                    put_storage address {|
                      st_committed :=
                        <[key := {| cv_initial := val; cv_original := val |}]>
                          (st_committed st);
                      st_current := st_current st |};;
                    mret val
              end
          end
      | None => mret U256.ZERO
      end
  | None => mret U256.ZERO
  end.

Definition get_current_storage (address : Address) (key : Z) : SM IBS Z :=
  get_storage address key false.
Definition get_original_storage (address : Address) (key : Z) : SM IBS Z :=
  get_storage address key true.

Definition insert_current (st : Storage) (key value : Z) : Storage :=
  {| st_committed := st_committed st; st_current := <[key := value]> (st_current st) |}.

Definition set_storage (address : Address) (key value : Z) : SM IBS unit :=
  previous ← get_current_storage address key;
  if previous =? value then mret ()
  else
    s ← s_get id;
    put_storage address (insert_current (storage_at s address) key value);;
    push (StorageChange address key previous).

(** ** The journal *)

(** [Delta::revert]. *)
Definition revert (d : Delta) : SM IBS unit :=
  match d with
  | Create address =>
      s_modify (fun s => with_objects s (delete address (objects s)))
  | Update address previous => put_object address previous
  | UpdateBalance address previous =>
      s ← s_get id;
      o ← s_unwrap (objects s !! address);
      a ← s_unwrap (current o);
      put_object address {|
        initial := initial o;
        current := Some {| nonce := nonce a; balance := previous;
                           code_hash := code_hash a |} |}
  | Incarnation address =>
      s ← s_get id;
      n ← s_unwrap (incarnations s !! address);
      n ← s_unwrap (unsigned_sub n 1);
      s_modify (fun s => with_incarnations s
        (if n =? 0 then delete address (incarnations s)
         else <[address := n]> (incarnations s)))
  | Selfdestruct address =>
      s_modify (fun s => with_self_destructs s (self_destructs s ∖ {[address]}))
  | Touch address => s_modify (fun s => with_touched s (touched s ∖ {[address]}))
  | StorageChange address key previous =>
      s ← s_get id;
      put_storage address (insert_current (storage_at s address) key previous)
  | StorageWipe address st => put_storage address st
  | StorageCreate address =>
      s_modify (fun s => with_storage s (delete address (storage s)))
  | StorageAccess address key =>
      s_modify (fun s => with_accessed_storage_keys s
        (<[address := keys_at s address ∖ {[key]}]> (accessed_storage_keys s)))
  | AccountAccess address =>
      s_modify (fun s => with_accessed_addresses s (accessed_addresses s ∖ {[address]}))
  end.

Definition take_snapshot (s : IBS) : Snapshot := {|
  journal_size := blen (journal s);
  log_size := blen (logs s);
  snap_refund := refund s;
|}.

(** [self.journal.pop().unwrap().revert(self)]. *)
Definition pop_revert : SM IBS unit :=
  s ← s_get id;
  match journal s with
  | [] => s_panic
  | d :: ds => s_modify (fun s => with_journal s ds);; revert d
  end.

Fixpoint pop_reverts (n : nat) : SM IBS unit :=
  match n with
  | O => mret ()
  | S n => pop_revert;; pop_reverts n
  end.

Definition revert_to_snapshot (snapshot : Snapshot) : SM IBS unit :=
  s ← s_get id;
  n ← s_unwrap (unsigned_sub (blen (journal s)) (journal_size snapshot));
  pop_reverts (Z.to_nat n);;
  s_modify (fun s => with_logs s (take (Z.to_nat (log_size snapshot)) (logs s)));;
  s_modify (fun s => with_refund s (snap_refund snapshot)).

(** ** Ends of a transaction and of a block *)

Definition finalize_storage (st : Storage) : Storage := {|
  st_committed := map_fold (fun key val committed =>
    <[key := {| cv_initial := default 0 (cv_initial <$> committed !! key);
                cv_original := val |}]> committed) (st_committed st) (st_current st);
  st_current := ∅;
|}.

Definition finalize_transaction : SM IBS unit :=
  s_modify (fun s => with_storage s (finalize_storage <$> storage s)).

Definition clear_journal_and_substate : SM IBS unit :=
  s_modify (fun s =>
    Build_IntraBlockState DB (db s) (objects s) (storage s) (incarnations s)
      (existing_code s) (new_code s) [] ∅ [] ∅ 0 ∅ ∅).

Definition add_log (log : Log) : SM IBS unit :=
  s_modify (fun s => with_logs s (logs s ++ [log])).

Definition add_refund (addend : Z) : SM IBS unit :=
  s ← s_get id;
  r ← s_unwrap (u64_checked (refund s + addend));
  s_modify (fun s => with_refund s r).

Definition subtract_refund (subtrahend : Z) : SM IBS unit :=
  s ← s_get id;
  r ← s_unwrap (unsigned_sub (refund s) subtrahend);
  s_modify (fun s => with_refund s r).

Definition get_refund (s : IBS) : Z := refund s.

(** [for x in xs] over the database, with [?]. *)
Fixpoint db_for_each {A} (f : A -> DB -> option DB) (xs : list A) (d : DB) : option DB :=
  match xs with
  | [] => Some d
  | x :: xs => d ← f x d; db_for_each f xs d
  end.

Definition write_to_db (block_number : Z) (s : IBS) : option DB :=
  let d := begin_block block_number (db s) in
  d ← db_for_each (fun e d => if 0 <? e.2 then erase_storage e.1 d else Some d)
        (map_to_list (incarnations s)) d;
  d ← db_for_each (fun e d =>
        match objects s !! e.1 ≫= current with
        | Some _ =>
            db_for_each (fun kv d =>
              update_storage e.1 kv.1 (cv_initial kv.2) (cv_original kv.2) d)
              (map_to_list (st_committed e.2)) d
        | None => Some d
        end) (map_to_list (storage s)) d;
  d ← db_for_each (fun e d =>
        Some (update_account e.1 (initial e.2) (current e.2) d))
        (map_to_list (objects s)) d;
  db_for_each (fun e d => update_code e.1 e.2 d) (map_to_list (new_code s)) d.

End ops.

End ibs.
