(* ===== verification/Journal.v ===== *)
(** The undo journal restores the state (src/state/intra_block_state.rs and
    delta.rs).

    Reads fill caches that a revert leaves in place, so a revert does not give
    back the same record.  [restored s s'] says that [s'] is [s] up to cached
    reads of the database; every read of the block state returns the same on
    both. *)
From S2P Require Import Prelude Word EvmState Host IntraBlockState.
From Stdlib Require Import ZArith Lia Strings.Byte.
From stdpp Require Import base list option numbers gmap.
#[local] Open Scope Z_scope.
Import ibs.

Section journal.
Context {DB : Type} `{State DB, Keccak}.

Abbreviation IBS := (IntraBlockState DB).
Implicit Types (s r : IBS) (a k v : Z).

Definition committed_at s a k : option CommittedValue := st_committed (storage_at s a) !! k.
Definition current_at s a k : option Z := st_current (storage_at s a) !! k.

(** The storage of [a] is the one of the database. *)
Definition from_db s a : bool :=
  match read_account (db s) a, incarnations s !! a with
  | Some (Some _), None => true
  | _, _ => false
  end.

(** The value of [k] at the beginning of the transaction. *)
Definition original_is s a k v : Prop :=
  match committed_at s a k with
  | Some c => v = cv_original c
  | None => if from_db s a then read_storage (db s) a k = Some v else v = 0
  end.

Record restored s s' : Prop := {
  res_db : db s' = db s;
  res_objects a : objects s' !! a = objects s !! a \/
    (objects s !! a = None /\ exists acc, read_account (db s) a = Some (Some acc) /\
     objects s' !! a = Some {| initial := Some acc; current := Some acc |});
  res_incarnations : incarnations s' = incarnations s;
  res_committed a k : committed_at s' a k = committed_at s a k \/
    (committed_at s a k = None /\ from_db s a = true /\ exists v,
     read_storage (db s) a k = Some v /\
     committed_at s' a k = Some {| cv_initial := v; cv_original := v |});
  res_current a k : current_at s' a k = current_at s a k \/
    (current_at s a k = None /\ exists v,
     original_is s a k v /\ current_at s' a k = Some v);
  res_cached a k : current_at s a k = None -> is_Some (current_at s' a k) ->
    from_db s a = true -> is_Some (committed_at s' a k);
  res_self_destructs : self_destructs s' = self_destructs s;
  res_touched a : a <> RIPEMD_ADDRESS -> a ∈ touched s' <-> a ∈ touched s;
  res_accessed : accessed_addresses s' = accessed_addresses s;
  res_keys a : keys_at s' a = keys_at s a;
}.

(** Initial values are those of the database, and incarnations count from one. *)
Record wf s : Prop := {
  wf_initial a o : objects s !! a = Some o -> read_account (db s) a = Some (initial o);
  wf_incarnations a n : incarnations s !! a = Some n -> 1 <= n;
}.

Lemma from_db_eq s s' a : restored s s' -> from_db s' a = from_db s a.
Proof. intros []. unfold from_db. by rewrite res_db0, res_incarnations0. Qed.

Lemma original_restored s s' a k v :
  restored s s' -> original_is s a k v <-> original_is s' a k v.
Proof.
  intros Hr. pose proof (from_db_eq s s' a Hr) as Hf. destruct Hr.
  unfold original_is. rewrite Hf, res_db0.
  destruct (res_committed0 a k) as [->|(-> & -> & v' & Hv & ->)]; [done|].
  simpl. rewrite Hv. split; congruence.
Qed.

(** Nothing new is cached. *)
Lemma cached_same (c c' : option Z) (P : Prop) : c' = c -> c = None -> is_Some c' -> P.
Proof. by intros -> -> [? ?]. Qed.

Ltac not_cached := first [by left | intros; by eapply cached_same].

Lemma restored_refl s : restored s s.
Proof. split; try done; intros; not_cached. Qed.

Lemma restored_trans s1 s2 s3 : restored s1 s2 -> restored s2 s3 -> restored s1 s3.
Proof.
  intros H12 H23. pose proof H12 as []. pose proof H23 as []. split; try congruence.
  - intros a. destruct (res_objects0 a) as [E1|(E1 & acc & Ha & E1')],
      (res_objects1 a) as [E2|(E2 & acc' & Ha' & E2')].
    + left. congruence.
    + right. split; [congruence|]. exists acc'. by rewrite <- res_db0.
    + right. split; [done|]. exists acc. by rewrite E2.
    + congruence.
  - intros a k. pose proof (from_db_eq _ _ a H12) as Hf.
    destruct (res_committed0 a k) as [E1|(E1 & F1 & v & Ha & E1')],
      (res_committed1 a k) as [E2|(E2 & F2 & v' & Ha' & E2')].
    + left. congruence.
    + right. split; [congruence|]. split; [congruence|]. exists v'. by rewrite <- res_db0.
    + right. split; [done|]. split; [done|]. exists v. by rewrite E2.
    + congruence.
  - intros a k. destruct (res_current0 a k) as [E1|(E1 & v & Hv & E1')],
      (res_current1 a k) as [E2|(E2 & v' & Hv' & E2')].
    + left. congruence.
    + right. split; [congruence|]. exists v'. split; [|done]. by eapply original_restored.
    + right. split; [done|]. exists v. by rewrite E2.
    + congruence.
  - intros a k Hn H3 Hf. pose proof (from_db_eq _ _ a H12) as Hf2.
    destruct (current_at s2 a k) eqn:E; [|apply res_cached1; congruence].
    destruct (res_committed1 a k) as [->|(Hc & _)]; [by apply res_cached0; rewrite ?E|].
    destruct (res_cached0 a k) as [? Hc']; [done|by rewrite E|done|congruence].
  - intros a Ha. by rewrite res_touched1, res_touched0.
Qed.

#[export] Instance restored_preorder : PreOrder restored.
Proof. split; [exact restored_refl|exact restored_trans]. Qed.

Lemma restored_wf s s' : restored s s' -> wf s -> wf s'.
Proof.
  intros [] []. split.
  - intros a o. rewrite res_db0.
    destruct (res_objects0 a) as [->|(_ & acc & Ha & ->)]; [apply wf_initial0|].
    intros [= <-]. done.
  - intros a n. rewrite res_incarnations0. apply wf_incarnations0.
Qed.

(** The relation does not look at the journal, the logs, the refund and the
    code caches. *)
Record same_core s s' : Prop := {
  core_db : db s' = db s;
  core_objects : objects s' = objects s;
  core_storage : storage s' = storage s;
  core_incarnations : incarnations s' = incarnations s;
  core_self_destructs : self_destructs s' = self_destructs s;
  core_touched : touched s' = touched s;
  core_accessed : accessed_addresses s' = accessed_addresses s;
  core_keys : accessed_storage_keys s' = accessed_storage_keys s;
}.

Lemma same_core_restored s s' : same_core s s' -> restored s s'.
Proof.
  intros []. split; try done; unfold committed_at, current_at, storage_at, keys_at;
    rewrite ?core_objects0, ?core_storage0, ?core_touched0, ?core_keys0; try done;
    intros; not_cached.
Qed.

(** ** Reverting a list of deltas *)

Definition reverts (ds : list Delta) : SM IBS unit := for_each revert ds.

Definition mono (ds : list Delta) : Prop := forall s s' r,
  restored s s' -> reverts ds s = Done () r ->
  exists r', reverts ds s' = Done () r' /\ restored r r'.

Lemma reverts_app ds1 ds2 s r :
  reverts (ds1 ++ ds2) s = Done () r <->
  exists s1, reverts ds1 s = Done () s1 /\ reverts ds2 s1 = Done () r.
Proof.
  unfold reverts. induction ds1 as [|d ds1 IH] in s |- *; simpl.
  - split; [eauto|]. by intros (s1 & [= <-] & ?).
  - rewrite s_bind_done. setoid_rewrite s_bind_done. split.
    + intros ([] & s1 & Hd & (s2 & ? & ?)%IH). exists s2. split; [|done]. eauto.
    + intros (s2 & ([] & s1 & Hd & ?) & ?). exists (), s1. split; [done|]. apply IH. eauto.
Qed.

Lemma mono_nil : mono [].
Proof. intros s s' r Hr [= <-]. by exists s'. Qed.

Lemma mono_app ds1 ds2 : mono ds1 -> mono ds2 -> mono (ds1 ++ ds2).
Proof.
  intros H1 H2 s s' r Hs (s1 & Hs1 & Hr)%reverts_app.
  destruct (H1 s s' s1 Hs Hs1) as (s1' & Hs1' & Hs1r).
  destruct (H2 s1 s1' r Hs1r Hr) as (r' & Hr' & ?).
  exists r'. split; [|done]. apply reverts_app. eauto.
Qed.

Lemma mono_cons d ds : mono [d] -> mono ds -> mono (d :: ds).
Proof. apply (mono_app [d] ds). Qed.

Lemma mono_one d :
  (forall s s' r, restored s s' -> revert d s = Done () r ->
     exists r', revert d s' = Done () r' /\ restored r r') -> mono [d].
Proof.
  intros Hd s s' r Hs Hr. unfold reverts in *. simpl in *.
  apply s_bind_done in Hr as ([] & s1 & Hs1 & [= <-]).
  destruct (Hd s s' s1 Hs Hs1) as (r' & Hr' & ?). exists r'. split; [|done].
  apply s_bind_done. by exists (), r'.
Qed.

(** ** Congruence of the updates *)

Lemma restored_put_object s s' a o : restored s s' ->
  restored (with_objects s (<[a := o]> (objects s)))
           (with_objects s' (<[a := o]> (objects s'))).
Proof.
  intros []. split; try done. intros a'. simpl. destruct (decide (a = a')) as [<-|].
  - left. by rewrite !lookup_insert_eq.
  - by rewrite !lookup_insert_ne.
Qed.

Lemma restored_delete_object s s' a : restored s s' ->
  restored (with_objects s (delete a (objects s)))
           (with_objects s' (delete a (objects s'))).
Proof.
  intros []. split; try done. intros a'. simpl. destruct (decide (a = a')) as [<-|].
  - left. by rewrite !lookup_delete_eq.
  - by rewrite !lookup_delete_ne.
Qed.

(** The storage of one address. *)
Lemma storage_at_put s a st a' :
  storage_at (with_storage s (<[a := st]> (storage s))) a' =
  if decide (a = a') then st else storage_at s a'.
Proof.
  unfold storage_at. simpl. case_decide; subst.
  - by rewrite lookup_insert_eq.
  - by rewrite lookup_insert_ne.
Qed.

Lemma storage_at_delete s a a' :
  storage_at (with_storage s (delete a (storage s))) a' =
  if decide (a = a') then Storage_default else storage_at s a'.
Proof.
  unfold storage_at. simpl. case_decide; subst.
  - by rewrite lookup_delete_eq.
  - by rewrite lookup_delete_ne.
Qed.

(** Two states that agree on the storage of [a] after an update of it. *)
Lemma restored_with_storage s s' a m m' : restored s s' ->
  (forall a', a' <> a -> default Storage_default (m !! a') = storage_at s a') ->
  (forall a', a' <> a -> default Storage_default (m' !! a') = storage_at s' a') ->
  (forall k, let c := st_committed (default Storage_default (m !! a)) !! k in
             let c' := st_committed (default Storage_default (m' !! a)) !! k in
     c' = c \/ (c = None /\ from_db s a = true /\ exists v,
       read_storage (db s) a k = Some v /\
       c' = Some {| cv_initial := v; cv_original := v |})) ->
  (forall k, let c := st_current (default Storage_default (m !! a)) !! k in
             let c' := st_current (default Storage_default (m' !! a)) !! k in
     c' = c \/ (c = None /\ (exists v, original_is (with_storage s m) a k v /\ c' = Some v) /\
       (from_db s a = true ->
        is_Some (st_committed (default Storage_default (m' !! a)) !! k)))) ->
  restored (with_storage s m) (with_storage s' m').
Proof.
  intros [] Hm Hm' Hc Hu. split; try done.
  - intros a' k. unfold committed_at, storage_at. simpl.
    destruct (decide (a' = a)) as [->|Hne]; [apply Hc|]. rewrite Hm, Hm' by done.
    apply res_committed0.
  - intros a' k. destruct (decide (a' = a)) as [->|Hne].
    { destruct (Hu k) as [?|(? & ? & _)]; [by left|by right]. }
    unfold current_at, original_is, committed_at, storage_at. simpl. rewrite Hm, Hm' by done.
    apply res_current0.
  - intros a' k. destruct (decide (a' = a)) as [->|Hne].
    { destruct (Hu k) as [E|(_ & _ & Hk)]; [intros H1 H2; exact (cached_same _ _ _ E H1 H2)|by intros _ _]. }
    unfold current_at, committed_at, storage_at. simpl. rewrite Hm, Hm' by done.
    apply res_cached0.
Qed.

Lemma restored_put_storage s s' a st : restored s s' ->
  restored (with_storage s (<[a := st]> (storage s)))
           (with_storage s' (<[a := st]> (storage s'))).
Proof.
  intros Hr. apply (restored_with_storage _ _ a); [done|..].
  - intros a' Ha. by rewrite lookup_insert_ne.
  - intros a' Ha. by rewrite lookup_insert_ne.
  - intros k. left. by rewrite !lookup_insert_eq.
  - intros k. left. by rewrite !lookup_insert_eq.
Qed.

Lemma restored_delete_storage s s' a : restored s s' ->
  restored (with_storage s (delete a (storage s)))
           (with_storage s' (delete a (storage s'))).
Proof.
  intros Hr. apply (restored_with_storage _ _ a); [done|..].
  - intros a' Ha. by rewrite lookup_delete_ne.
  - intros a' Ha. by rewrite lookup_delete_ne.
  - intros k. left. by rewrite !lookup_delete_eq.
  - intros k. left. by rewrite !lookup_delete_eq.
Qed.

(** ** Reverting is a congruence *)

Lemma mono_create a : mono [Create a].
Proof.
  apply mono_one. intros s s' r Hs [= <-]. eexists. split; [done|].
  by apply restored_delete_object.
Qed.

Lemma mono_update a o : mono [Update a o].
Proof.
  apply mono_one. intros s s' r Hs [= <-]. eexists. split; [done|].
  by apply restored_put_object.
Qed.

Lemma mono_update_balance a v : mono [UpdateBalance a v].
Proof.
  apply mono_one. intros s s' r Hs. simpl. unfold mbind, SM_bind, s_get, s_unwrap. simpl.
  destruct (objects s !! a) as [o|] eqn:Ho; [|done].
  destruct (res_objects _ _ Hs a) as [->|(? & _)]; [rewrite Ho|congruence].
  destruct (current o); [|done]. intros [= <-]. eexists. split; [done|].
  by apply restored_put_object.
Qed.

Lemma mono_selfdestruct a : mono [Selfdestruct a].
Proof.
  apply mono_one. intros s s' r Hs [= <-]. eexists. split; [done|].
  destruct Hs. split; try done. simpl. congruence.
Qed.

Lemma mono_touch a : mono [Touch a].
Proof.
  apply mono_one. intros s s' r Hs [= <-]. eexists. split; [done|].
  destruct Hs. split; try done. intros a' Ha. simpl.
  rewrite !elem_of_difference, res_touched0; done.
Qed.

Lemma mono_account_access a : mono [AccountAccess a].
Proof.
  apply mono_one. intros s s' r Hs [= <-]. eexists. split; [done|].
  destruct Hs. split; try done. simpl. congruence.
Qed.

Lemma mono_storage_access a k : mono [StorageAccess a k].
Proof.
  apply mono_one. intros s s' r Hs [= <-]. eexists. split; [done|].
  destruct Hs. split; try done. intros a'. unfold keys_at in *. simpl.
  destruct (decide (a = a')) as [<-|].
  - rewrite !lookup_insert_eq. simpl. by rewrite res_keys0.
  - rewrite !lookup_insert_ne by done. apply res_keys0.
Qed.

Lemma original_insert_current s a k' v' k v :
  original_is (with_storage s
    (<[a := insert_current (storage_at s a) k' v']> (storage s))) a k v <->
  original_is s a k v.
Proof. unfold original_is, committed_at. by rewrite storage_at_put, decide_True. Qed.

Lemma mono_storage_change a k v : mono [StorageChange a k v].
Proof.
  apply mono_one. intros s s' r Hs [= <-]. eexists. split; [done|].
  apply (restored_with_storage _ _ a); [done|..].
  - intros a' Ha. by rewrite lookup_insert_ne.
  - intros a' Ha. by rewrite lookup_insert_ne.
  - intros k'. rewrite !lookup_insert_eq. simpl. apply (res_committed _ _ Hs a k').
  - intros k'. rewrite !lookup_insert_eq. simpl.
    destruct (decide (k = k')) as [<-|]; [left; by rewrite !lookup_insert_eq|].
    rewrite !lookup_insert_ne by done.
    destruct (res_current _ _ Hs a k') as [E|(E & v' & Hv & E')]; [by left|].
    right. split; [done|]. split; [|apply (res_cached _ _ Hs a k'); by rewrite ?E'].
    exists v'. split; [|done]. by apply original_insert_current.
Qed.
(** Changing the incarnation of [a] is a congruence where the storage of [a]
    is the same on both sides. *)
Lemma restored_incarnation s s' a m : restored s s' ->
  storage_at s' a = storage_at s a ->
  (forall a', a' <> a -> m !! a' = incarnations s !! a') ->
  restored (with_incarnations s m) (with_incarnations s' m).
Proof.
  intros Hr Ha Hm. pose proof Hr as []. split; try done.
  - intros a' k. destruct (decide (a' = a)) as [->|Hne].
    { left. unfold committed_at, storage_at in *. simpl. by rewrite Ha. }
    destruct (res_committed0 a' k) as [?|(? & Hf & ?)]; [by left|]. right.
    split; [done|]. split; [|done]. revert Hf. unfold from_db. simpl. by rewrite Hm.
  - intros a' k. destruct (decide (a' = a)) as [->|Hne].
    { left. unfold current_at, storage_at in *. simpl. by rewrite Ha. }
    destruct (res_current0 a' k) as [?|(? & v & Ho & ?)]; [by left|]. right.
    split; [done|]. exists v. split; [|done]. revert Ho.
    unfold original_is, from_db, committed_at. simpl. by rewrite Hm.
  - intros a' k. destruct (decide (a' = a)) as [->|Hne].
    { unfold current_at, storage_at in *. simpl. rewrite Ha. intros ? ?. by eapply cached_same. }
    intros Hn Hs Hf. apply (res_cached0 a' k Hn Hs). revert Hf. unfold from_db. simpl.
    by rewrite Hm.
Qed.

(** Dropping or restoring the storage of [a] and undoing its incarnation. *)
Lemma mono_create_block d a :
  d = StorageCreate a \/ (exists st, d = StorageWipe a st) -> mono [d; Incarnation a].
Proof.
  intros Hd s s' r Hs Hr. unfold reverts in *. simpl in *.
  apply s_bind_done in Hr as ([] & s1 & Hs1 & Hr).
  assert (exists s1', revert d s' = Done () s1' /\ restored s1 s1' /\
            storage_at s1' a = storage_at s1 a) as (s1' & Hs1' & Hrs & Hat).
  { destruct Hd as [->|[st ->]]; injection Hs1 as <-; eexists; (split; [done|]).
    - split; [by apply restored_delete_storage|]. by rewrite !storage_at_delete, !decide_True.
    - split; [by apply restored_put_storage|]. by rewrite !storage_at_put, !decide_True. }
  apply s_bind_done in Hr as ([] & s2 & Hs2 & [= <-]).
  pose proof (res_incarnations _ _ Hrs) as Hinc.
  assert (exists s2', revert (Incarnation a) s1' = Done () s2' /\ restored s2 s2')
    as (s2' & Hs2' & Hr2).
  { revert Hs2. simpl. unfold mbind, SM_bind, s_get, s_unwrap, s_modify. simpl.
    rewrite Hinc. destruct (incarnations s1 !! a) as [n|]; [|done].
    destruct (unsigned_sub n 1) as [n'|]; [|done]. intros [= <-]. eexists. split; [done|].
    rewrite Hinc. apply (restored_incarnation _ _ a); [done..|].
    intros a' Ha'. case_if; [by rewrite lookup_delete_ne|by rewrite lookup_insert_ne]. }
  exists s2'. split; [|done]. apply s_bind_done. exists (), s1'. split; [done|].
  apply s_bind_done. by exists (), s2'.
Qed.

(** ** Operations that the journal undoes *)

(** [s] is reached from [s0] by an operation that journals [ds]. *)
Record undoable s0 s (ds : list Delta) : Prop := {
  un_journal : journal s = ds ++ journal s0;
  un_mono : mono ds;
  un_restore : exists r, reverts ds s = Done () r /\ restored s0 r;
  un_logs : exists l, logs s = logs s0 ++ l;
  un_wf : wf s;
}.

Lemma undoable_refl s : wf s -> undoable s s [].
Proof.
  intros Hw. split; try done; [apply mono_nil| |].
  - exists s. split; [done|reflexivity].
  - exists []. by rewrite app_nil_r.
Qed.

Lemma undoable_trans s0 s1 s2 ds1 ds2 :
  undoable s0 s1 ds1 -> undoable s1 s2 ds2 -> undoable s0 s2 (ds2 ++ ds1).
Proof.
  intros [J1 M1 (r1 & R1 & Q1) (l1 & L1) W1] [J2 M2 (r2 & R2 & Q2) (l2 & L2) W2]. split.
  - by rewrite J2, J1, app_assoc.
  - by apply mono_app.
  - destruct (M1 s1 r2 r1 Q2 R1) as (r3 & R3 & Q3). exists r3. split.
    + apply reverts_app. eauto.
    + by etrans.
  - exists (l1 ++ l2). by rewrite L2, L1, app_assoc.
  - done.
Qed.

(** Nothing but caches, logs, the refund and the code maps changed. *)
Lemma undoable_cached s0 s : journal s = journal s0 -> restored s0 s ->
  (exists l, logs s = logs s0 ++ l) -> wf s0 -> undoable s0 s [].
Proof.
  intros Hj Hr Hl Hw. split; try done; [apply mono_nil| |by eapply restored_wf].
  exists s. by split.
Qed.

Definition undo {A} (m : SM IBS A) s0 : Prop :=
  forall x s, m s0 = Done x s -> exists ds, undoable s0 s ds.

Lemma undo_bind {A B} (m : SM IBS A) (f : A -> SM IBS B) s0 :
  undo m s0 -> (forall x s1, m s0 = Done x s1 -> wf s1 -> undo (f x) s1) ->
  undo (m ≫= f) s0.
Proof.
  intros Hm Hf b s (a & s1 & Hs1 & Hs)%s_bind_done.
  destruct (Hm a s1 Hs1) as [ds1 U1]. destruct (Hf a s1 Hs1 (un_wf _ _ _ U1) b s Hs) as [ds2 U2].
  exists (ds2 ++ ds1). by eapply undoable_trans.
Qed.

Lemma undo_ret {A} (x : A) s : wf s -> undo (mret x) s.
Proof. intros Hw a s' [= _ <-]. exists []. by apply undoable_refl. Qed.

Lemma undo_get {A} (f : IBS -> A) s : wf s -> undo (s_get f) s.
Proof. intros Hw a s' [= _ <-]. exists []. by apply undoable_refl. Qed.

Lemma undo_unwrap {A} (o : option A) s : wf s -> undo (s_unwrap o) s.
Proof.
  intros Hw a s'. unfold s_unwrap. destruct o; [|done]. intros [= _ <-].
  exists []. by apply undoable_refl.
Qed.

(** What the operations on objects leave behind. *)
Lemma get_object_done a s o s' : wf s -> get_object a s = Done o s' ->
  restored s s' /\ journal s' = journal s /\ logs s' = logs s /\
  objects s' !! a = o /\ (o = None -> read_account (db s) a = Some None) /\
  (forall obj, o = Some obj -> read_account (db s) a = Some (initial obj)) /\
  storage s' = storage s /\ incarnations s' = incarnations s /\ db s' = db s.
Proof.
  intros Hw. unfold get_object, mbind, SM_bind, s_get, s_try. simpl.
  destruct (objects s !! a) as [obj|] eqn:Ho.
  { intros [= <- <-]. splits; try done. intros ? [= <-]. by apply (wf_initial s Hw). }
  destruct (read_account (db s) a) as [[acc|]|] eqn:Ha; simpl; [| |done].
  - intros [= <- <-]. splits; try done; simpl.
    + split; try done; try (by left); try (intros; not_cached).
      intros a'. simpl. destruct (decide (a = a')) as [<-|].
      * right. split; [done|]. exists acc. by rewrite lookup_insert_eq.
      * left. by rewrite lookup_insert_ne.
    + by rewrite lookup_insert_eq.
    + by intros ? [= <-].
  - intros [= <- <-]. splits; try done.
Qed.

Lemma undo_get_object a s : wf s -> undo (get_object a) s.
Proof.
  intros Hw o s' Ho. destruct (get_object_done a s o s' Hw Ho) as (? & ? & Hl & _).
  exists []. apply undoable_cached; try done. exists []. by rewrite Hl, app_nil_r.
Qed.

Lemma undo_one d s0 s r : journal s = d :: journal s0 -> logs s = logs s0 -> wf s ->
  mono [d] -> revert d s = Done () r -> restored s0 r -> undoable s0 s [d].
Proof.
  intros Hj Hl Hw Hm Hr Hres. split; try done.
  - exists r. split; [|done]. unfold reverts. simpl. apply s_bind_done.
    by exists (), r.
  - exists []. by rewrite Hl, app_nil_r.
Qed.

(** A state that differs in the objects only, and not observably. *)
Lemma restored_objects_eq s m : (forall a, m !! a = objects s !! a) ->
  restored s (with_objects s m).
Proof.
  intros Hm. split; try done; intros; not_cached.
Qed.

Lemma restored_journal s r j : restored s r -> restored s (with_journal r j).
Proof. intros Hr. etrans; [done|]. by apply same_core_restored. Qed.

Lemma restored_journal_objects s j m : (forall a, m !! a = objects s !! a) ->
  restored s (with_objects (with_journal s j) m).
Proof.
  intros Hm. transitivity (with_objects s m); [by apply restored_objects_eq|].
  by apply same_core_restored.
Qed.

Lemma wf_put_object s a o : wf s -> read_account (db s) a = Some (initial o) ->
  wf (with_objects s (<[a := o]> (objects s))).
Proof.
  intros [] Ho. split; [|done]. intros a' o'. simpl.
  rewrite lookup_insert_Some. intros [[<- <-]|[_ ?]]; [done|]. by apply wf_initial0.
Qed.

Lemma wf_journal s j : wf s -> wf (with_journal s j).
Proof. intros []. by split. Qed.

(** Journal the previous object of [a] and write another. *)
Lemma undoable_update s a o o' : wf s -> objects s !! a = Some o ->
  initial o' = initial o ->
  undoable s (with_objects (with_journal s (Update a o :: journal s))
                (<[a := o']> (objects s))) [Update a o].
Proof.
  intros Hw Ho Hi. eapply undo_one; [done|done| |apply mono_update|done|].
  - apply (wf_put_object (with_journal s _)); [by apply wf_journal|].
    rewrite Hi. by apply (wf_initial s Hw).
  - simpl. apply (restored_journal_objects s). intros a'. simpl.
    rewrite insert_insert_eq. by rewrite insert_id.
Qed.

Lemma undoable_create s a acc : wf s -> objects s !! a = None ->
  read_account (db s) a = Some None ->
  undoable s (with_objects (with_journal s (Create a :: journal s))
                (<[a := {| initial := None; current := Some acc |}]> (objects s))) [Create a].
Proof.
  intros Hw Ho Ha. eapply undo_one; [done|done| |apply mono_create|done|].
  - apply (wf_put_object (with_journal s _)); [by apply wf_journal|done].
  - simpl. apply (restored_journal_objects s). intros a'. simpl.
    by rewrite delete_insert_id.
Qed.

Lemma undo_ensure_object a s : wf s -> undo (ensure_object a) s.
Proof.
  intros Hw. unfold ensure_object. apply undo_bind; [by apply undo_get_object|].
  intros o s1 Ho Hw1. destruct (get_object_done a s o s1 Hw Ho) as
    (_ & _ & _ & Ho1 & Hnone & _ & _ & _ & Hdb).
  destruct o as [o|].
  - destruct (current o); [by apply undo_ret|]. intros [] s2 [= <-].
    exists [Update a o]. by apply undoable_update.
  - intros [] s2 [= <-]. exists [Create a]. apply undoable_create; try done.
    rewrite Hdb. by apply Hnone.
Qed.

Lemma ensure_object_done a s s' : ensure_object a s = Done () s' ->
  exists o acc, objects s' !! a = Some o /\ current o = Some acc.
Proof.
  unfold ensure_object. intros (o & s1 & Ho & Hs)%s_bind_done.
  destruct o as [o|].
  - assert (objects s1 !! a = Some o) as Ho1.
    { revert Ho. unfold get_object, mbind, SM_bind, s_get, s_try. simpl.
      destruct (objects s !! a) as [o'|] eqn:E; [intros [= -> <-]; done|].
      destruct (read_account (db s) a) as [[acc|]|]; simpl; intros [= <- <-].
      simpl. by rewrite lookup_insert_eq. }
    destruct (current o) as [acc|] eqn:Hc.
    + injection Hs as <-. by exists o, acc.
    + injection Hs as <-. eexists _, _. simpl. rewrite lookup_insert_eq. by split.
  - injection Hs as <-. eexists _, _. simpl. rewrite lookup_insert_eq. by split.
Qed.

Lemma undo_get_or_create a s : wf s -> undo (get_or_create_object a) s.
Proof.
  intros Hw. apply undo_bind; [by apply undo_ensure_object|]. intros [] s1 _ Hw1.
  apply undo_bind; [by apply undo_get|]. intros s2 s3 [= <- <-] _. by apply undo_unwrap.
Qed.

Lemma get_or_create_done a s o s' : get_or_create_object a s = Done o s' ->
  objects s' !! a = Some o /\ is_Some (current o).
Proof.
  intros ([] & s1 & Hs1 & Hs)%s_bind_done.
  destruct (ensure_object_done _ _ _ Hs1) as (o' & acc & Ho & Hc).
  revert Hs. unfold mbind, SM_bind, s_get, s_unwrap. simpl. rewrite Ho.
  intros [= <- <-]. by rewrite Ho.
Qed.

Lemma undoable_update_balance s a o acc b : wf s -> objects s !! a = Some o ->
  current o = Some acc ->
  undoable s (with_objects (with_journal s (UpdateBalance a (balance acc) :: journal s))
    (<[a := {| initial := initial o;
               current := Some {| nonce := nonce acc; balance := b;
                                  code_hash := code_hash acc |} |}]> (objects s)))
    [UpdateBalance a (balance acc)].
Proof.
  intros Hw Ho Hc. eapply undo_one; [done|done| |apply mono_update_balance| |].
  - apply (wf_put_object (with_journal s _)); [by apply wf_journal|].
    simpl. by apply (wf_initial s Hw).
  - simpl. unfold mbind, SM_bind, s_get, s_unwrap. simpl. rewrite lookup_insert_eq. done.
  - simpl. apply (restored_journal_objects s). intros a'. simpl. rewrite insert_insert_eq.
    destruct (decide (a = a')) as [<-|]; [|by rewrite lookup_insert_ne].
    rewrite lookup_insert_eq, Ho. by destruct o as [i c], acc; simpl in *; subst c.
Qed.

(** Set updates: what was inserted was not there. *)
Lemma undo_touch a s : wf s -> undo (touch a) s.
Proof.
  intros Hw [] s'. unfold touch, mbind, SM_bind, s_get. simpl.
  case_decide as Ha.
  { intros [= <-]. exists []. by apply undoable_refl. }
  unfold s_modify, push. simpl. destruct (Z.eqb_spec a RIPEMD_ADDRESS) as [->|Hne].
  - intros [= <-]. exists []. apply undoable_cached; try done.
    + split; try done; try (intros; not_cached). intros a' Ha'. simpl. set_solver.
    + exists []. by rewrite app_nil_r.
  - intros [= <-]. exists [Touch a]. eapply undo_one; [done|done| |apply mono_touch|done|].
    + destruct Hw. by split.
    + split; try done; try (intros; not_cached). intros a' Ha'. simpl. set_solver.
Qed.

Lemma undo_update_balance a f s : wf s -> undo (update_balance a f) s.
Proof.
  intros Hw. unfold update_balance. apply undo_bind; [by apply undo_get_or_create|].
  intros o s1 Ho Hw1. apply get_or_create_done in Ho as [Ho [acc Hc]]. rewrite Hc.
  apply undo_bind; [by apply undo_unwrap|]. intros acc' s2 [= <- <-] _.
  intros [] s' Hs. apply s_bind_done in Hs as ([] & s2 & [= <-] & Hs).
  apply s_bind_done in Hs as (v & s3 & Hv & Hs). unfold s_unwrap in Hv.
  destruct (f (balance acc)) as [v'|]; [|done]. injection Hv as <- <-.
  apply s_bind_done in Hs as ([] & s4 & [= <-] & Hs).
  pose proof (undoable_update_balance s1 a o acc v' Hw1 Ho Hc) as U.
  destruct (undo_touch a _ (un_wf _ _ _ U) () s' Hs) as [ds U'].
  eexists. by eapply undoable_trans.
Qed.

Lemma undo_set_nonce a n s : wf s -> undo (set_nonce a n) s.
Proof.
  intros Hw. unfold set_nonce. apply undo_bind; [by apply undo_get_or_create|].
  intros o s1 Ho Hw1. apply get_or_create_done in Ho as [Ho [acc Hc]]. rewrite Hc.
  intros [] s' [= <-]. exists [Update a o]. by apply undoable_update.
Qed.

Lemma undo_set_code a c s : wf s -> undo (set_code a c) s.
Proof.
  intros Hw. unfold set_code. apply undo_bind; [by apply undo_get_or_create|].
  intros o s1 Ho Hw1. apply get_or_create_done in Ho as [Ho [acc Hc]]. rewrite Hc.
  intros [] s' Hs. apply s_bind_done in Hs as ([] & s2 & [= <-] & Hs).
  apply s_bind_done in Hs as (acc' & s3 & [= <- <-] & Hs).
  apply s_bind_done in Hs as ([] & s4 & [= <-] & Hs).
  apply s_bind_done in Hs as (s5 & s6 & [= <- <-] & Hs).
  match type of Hs with context [new_code ?s0] => set (t := s0) in * end.
  assert (undoable s1 t [Update a o]) as U by by apply undoable_update.
  assert (undoable t s' []) as U'.
  { destruct (new_code t !! _); injection Hs as <-; [by apply undoable_refl, U|].
    apply undoable_cached; [done|by apply same_core_restored| |apply U].
    exists []. by rewrite app_nil_r. }
  eexists. by eapply undoable_trans.
Qed.

Lemma undo_record_selfdestruct a s : wf s -> undo (record_selfdestruct a) s.
Proof.
  intros Hw [] s'. unfold record_selfdestruct, mbind, SM_bind, s_get. simpl.
  case_decide as Ha.
  { intros [= <-]. exists []. by apply undoable_refl. }
  intros [= <-]. exists [Selfdestruct a].
  eapply undo_one; [done|done| |apply mono_selfdestruct|done|].
  - destruct Hw. by split.
  - split; try done; try (intros; not_cached). simpl. set_solver.
Qed.

Lemma undo_access_account a s : wf s -> undo (access_account a) s.
Proof.
  intros Hw x s'. unfold access_account, mbind, SM_bind, s_get. simpl.
  case_decide as Ha.
  { intros [= _ <-]. exists []. by apply undoable_refl. }
  intros [= _ <-]. exists [AccountAccess a].
  eapply undo_one; [done|done| |apply mono_account_access|done|].
  - destruct Hw. by split.
  - split; try done; try (intros; not_cached). simpl. set_solver.
Qed.

Lemma keys_at_insert s a ks a' :
  keys_at (with_accessed_storage_keys s (<[a := ks]> (accessed_storage_keys s))) a' =
  if decide (a = a') then ks else keys_at s a'.
Proof.
  unfold keys_at. simpl. case_decide; subst.
  - by rewrite lookup_insert_eq.
  - by rewrite lookup_insert_ne.
Qed.

Lemma restored_keys s m : (forall a, default ∅ (m !! a) = keys_at s a) ->
  restored s (with_accessed_storage_keys s m).
Proof. intros Hm. split; try done; intros; not_cached. Qed.

Lemma undo_access_storage a k s : wf s -> undo (access_storage a k) s.
Proof.
  intros Hw x s'. unfold access_storage, mbind, SM_bind, s_get, s_modify. simpl.
  case_decide as Ha.
  - intros [= _ <-]. exists []. apply undoable_cached; try done.
    + apply restored_keys. intros a'. pose proof (keys_at_insert s a ({[k]} ∪ keys_at s a) a') as E.
      unfold keys_at in E at 1. simpl in E. rewrite E. case_decide; subst; set_solver.
    + exists []. by rewrite app_nil_r.
  - intros [= _ <-]. exists [StorageAccess a k].
    eapply undo_one; [done|done| |apply mono_storage_access|done|].
    + destruct Hw. by split.
    + split; try done; try (intros; not_cached). intros a'. unfold keys_at in *. simpl.
      rewrite insert_insert_eq. destruct (decide (a = a')) as [<-|].
      * rewrite !lookup_insert_eq. simpl. set_solver.
      * by rewrite lookup_insert_ne.
Qed.

Lemma undo_add_log l s : wf s -> undo (add_log l) s.
Proof.
  intros Hw [] s' [= <-]. exists []. apply undoable_cached; try done.
  - by apply same_core_restored.
  - by exists [l].
Qed.

Lemma undo_refund n s : wf s -> undo (s_modify (fun s => with_refund s n)) s.
Proof.
  intros Hw [] s' [= <-]. exists []. apply undoable_cached; try done.
  - by apply same_core_restored.
  - exists []. by rewrite app_nil_r.
Qed.

Lemma undo_add_refund n s : wf s -> undo (add_refund n) s.
Proof.
  intros Hw. apply undo_bind; [by apply undo_get|]. intros s1 s2 _ Hw2.
  apply undo_bind; [by apply undo_unwrap|]. intros r s3 _ Hw3. by apply undo_refund.
Qed.

Lemma undo_subtract_refund n s : wf s -> undo (subtract_refund n) s.
Proof.
  intros Hw. apply undo_bind; [by apply undo_get|]. intros s1 s2 _ Hw2.
  apply undo_bind; [by apply undo_unwrap|]. intros r s3 _ Hw3. by apply undo_refund.
Qed.

(** ** Storage *)

(** The object of an address, cached or not. *)
Definition effective s a : option Object :=
  match objects s !! a with
  | Some o => Some o
  | None =>
      match read_account (db s) a with
      | Some (Some acc) => Some {| initial := Some acc; current := Some acc |}
      | _ => None
      end
  end.

Definition account_of s a : option Account := effective s a ≫= current.

(** What a read of the storage of an existing account returns. *)
Definition storage_read s a k (original : bool) v : Prop :=
  match (if original then None else current_at s a k) with
  | Some x => v = x
  | None => original_is s a k v
  end.

Lemma effective_restored s s' a : restored s s' -> effective s' a = effective s a.
Proof.
  intros []. unfold effective. rewrite res_db0.
  destruct (res_objects0 a) as [->|(-> & acc & -> & ->)]; done.
Qed.

Lemma original_fun s a k v v' : original_is s a k v -> original_is s a k v' -> v = v'.
Proof.
  unfold original_is. destruct (committed_at s a k), (from_db s a); congruence.
Qed.

Lemma storage_read_fun s a k b v v' :
  storage_read s a k b v -> storage_read s a k b v' -> v = v'.
Proof.
  unfold storage_read. destruct (if b then None else _); [congruence|apply original_fun].
Qed.

Lemma storage_read_restored s s' a k b v : restored s s' ->
  storage_read s a k b v <-> storage_read s' a k b v.
Proof.
  intros Hr. unfold storage_read. destruct b; [by apply original_restored|].
  destruct (res_current _ _ Hr a k) as [->|(-> & v' & Hv & ->)].
  - destruct (current_at s a k); [done|by apply original_restored].
  - split; [|by intros ->]. intros Hv'. by eapply original_fun.
Qed.

Lemma get_object_effective a s o s' : get_object a s = Done o s' -> o = effective s a.
Proof.
  unfold get_object, effective, mbind, SM_bind, s_get, s_try. simpl.
  destruct (objects s !! a); [by intros [= <- _]|].
  destruct (read_account (db s) a) as [[]|]; simpl; [by intros [= <- _]..|done].
Qed.

Lemma restored_storage_eq s m :
  (forall a, default Storage_default (m !! a) = storage_at s a) ->
  restored s (with_storage s m).
Proof.
  intros Hm. split; try done; intros; try not_cached;
    unfold committed_at, current_at, storage_at in *; simpl in *; rewrite Hm in *; not_cached.
Qed.

Lemma restored_reinsert s a :
  restored s (with_storage s (<[a := storage_at s a]> (storage s))).
Proof.
  apply restored_storage_eq. intros a'. pose proof (storage_at_put s a (storage_at s a) a') as E.
  unfold storage_at in E at 1. simpl in E. rewrite E. by case_decide; subst.
Qed.

Lemma restored_cache s a k v : committed_at s a k = None -> from_db s a = true ->
  read_storage (db s) a k = Some v ->
  restored s (with_storage s (<[a := {|
    st_committed := <[k := {| cv_initial := v; cv_original := v |}]>
                      (st_committed (storage_at s a));
    st_current := st_current (storage_at s a) |}]> (storage s))).
Proof.
  intros Hc Hf Hv. split; try done; try (intros; not_cached); intros a' k';
    unfold committed_at, current_at; rewrite storage_at_put; case_decide as Ha;
    try (intros; not_cached); subst a'; simpl; try (intros; not_cached).
  destruct (decide (k = k')) as [<-|]; [|left; by rewrite lookup_insert_ne].
  right. split; [done|]. split; [done|]. exists v. by rewrite lookup_insert_eq.
Qed.

Lemma get_storage_done a k b s v s' : wf s -> get_storage a k b s = Done v s' ->
  restored s s' /\ journal s' = journal s /\ logs s' = logs s /\
  match account_of s a with
  | Some _ => storage_read s a k b v
  | None => v = 0
  end.
Proof.
  intros Hw. unfold get_storage. intros (o & s1 & Ho & Hs)%s_bind_done.
  destruct (get_object_done a s o s1 Hw Ho) as (Hr & Hj & Hl & Ho1 & Hn & Hi & Hst & Hinc & Hdb).
  apply get_object_effective in Ho. unfold account_of. rewrite <- Ho.
  destruct o as [o|]; [|injection Hs as <- <-; by splits].
  simpl. destruct (current o) as [acc|] eqn:Hc; [|injection Hs as <- <-; by splits].
  apply s_bind_done in Hs as (s1' & s1'' & [= <- <-] & Hs).
  apply s_bind_done in Hs as ([] & s2 & [= <-] & Hs).
  pose proof (restored_reinsert s1 a) as Hre.
  assert (restored s (with_storage s1 (<[a:=storage_at s1 a]> (storage s1)))) as Hr2 by by etrans.
  rewrite (storage_read_restored s s1) by done. unfold storage_read, current_at.
  destruct (if b then None else _) as [x|]; [by injection Hs as <- <-|].
  unfold original_is, committed_at.
  destruct (st_committed (storage_at s1 a) !! k) as [cv|] eqn:Hcv; [by injection Hs as <- <-|].
  assert (from_db s1 a = negb (bool_decide (initial o = None)
            || bool_decide (is_Some (incarnations s1 !! a)))) as Hf.
  { unfold from_db. rewrite Hdb, (Hi o eq_refl).
    destruct (initial o), (incarnations s1 !! a); done. }
  simpl in Hs. rewrite Hf. destruct (_ || _); simpl in *; [by injection Hs as <- <-|].
  apply s_bind_done in Hs as (val & s3 & Hval & Hs). unfold s_try in Hval.
  destruct (read_storage (db s1) a k) as [val'|] eqn:Hrd; [|done].
  injection Hval as <- <-. injection Hs as <- <-. simpl.
  splits; try done. etrans; [exact Hr|]. rewrite insert_insert_eq.
  by apply (restored_cache s1 a k).
Qed.

(** A slot of an account of the database that was read is in a cache. *)
Lemma get_storage_cached a k b s v s' : wf s -> get_storage a k b s = Done v s' ->
  is_Some (account_of s a) -> current_at s' a k = None -> from_db s' a = true ->
  is_Some (committed_at s' a k).
Proof.
  intros Hw. unfold get_storage. intros (o & s1 & Ho & Hs)%s_bind_done Hacc.
  destruct (get_object_done a s o s1 Hw Ho) as (_ & _ & _ & _ & _ & Hi & _ & _ & Hdb).
  apply get_object_effective in Ho. unfold account_of in Hacc. rewrite <- Ho in Hacc.
  destruct o as [o|]; [|by destruct Hacc]. simpl in Hacc.
  destruct (current o) as [acc|]; [|by destruct Hacc].
  apply s_bind_done in Hs as (s1' & s1'' & [= <- <-] & Hs).
  apply s_bind_done in Hs as ([] & s2 & [= <-] & Hs).
  unfold current_at, committed_at.
  destruct (st_current (storage_at s1 a) !! k) as [x|] eqn:Hx,
    (st_committed (storage_at s1 a) !! k) as [cv|] eqn:Hcv; destruct b; unfold id in *;
    try (injection Hs as <- <-; rewrite storage_at_put, decide_True, ?Hx, ?Hcv by done; done);
    (destruct (_ || _) eqn:Hb;
      [injection Hs as <- <-; intros _; unfold from_db; simpl; rewrite Hdb, (Hi o eq_refl);
       by destruct (initial o), (incarnations s1 !! a)|]);
    apply s_bind_done in Hs as (val & s3 & Hval & Hs);
    unfold s_try in Hval; destruct (read_storage (db _) a k) as [val'|]; try done;
    injection Hval as <- <-; injection Hs as <- <-;
    rewrite storage_at_put, decide_True by done; simpl; rewrite lookup_insert_eq; by eexists.
Qed.

Lemma undo_get_storage a k b s : wf s -> undo (get_storage a k b) s.
Proof.
  intros Hw v s' Hs. destruct (get_storage_done _ _ _ _ _ _ Hw Hs) as (? & ? & Hl & _).
  exists []. apply undoable_cached; try done. exists []. by rewrite Hl, app_nil_r.
Qed.

(** Writing back the value that was read. *)
Lemma restored_write_back s a k v prev m : storage_read s a k false prev ->
  (current_at s a k = None -> from_db s a = true -> is_Some (committed_at s a k)) ->
  (forall a', default Storage_default (m !! a') =
     if decide (a = a') then insert_current (insert_current (storage_at s a) k v) k prev
     else storage_at s a') ->
  restored s (with_storage s m).
Proof.
  intros Hv Hck Hm.
  assert (forall a', storage_at (with_storage s m) a' = if decide (a = a')
    then insert_current (insert_current (storage_at s a) k v) k prev
    else storage_at s a') as E by exact Hm.
  split; try done; intros a'; try not_cached; intros k'.
  - left. unfold committed_at. rewrite E. by case_decide; subst.
  - unfold current_at. rewrite E. case_decide; subst; [|by left]. simpl.
    destruct (decide (k = k')) as [<-|]; [|left; by rewrite !lookup_insert_ne].
    rewrite lookup_insert_eq. unfold storage_read, current_at in Hv.
    destruct (st_current (storage_at s a') !! k) as [x|]; [left; congruence|].
    right. split; [done|]. by exists prev.
  - unfold current_at, committed_at. rewrite E. case_decide; subst; [|intros; not_cached]. simpl.
    destruct (decide (k = k')) as [<-|]; [|rewrite !lookup_insert_ne by done; intros; not_cached].
    intros Hn _ Hf. by apply Hck.
Qed.

Lemma undo_set_storage a k v s : wf s -> is_Some (account_of s a) ->
  undo (set_storage a k v) s.
Proof.
  intros Hw [acc Hacc]. unfold set_storage. apply undo_bind; [by apply undo_get_storage|].
  intros prev s1 Hs1 Hw1. destruct (get_storage_done a k false s prev s1 Hw Hs1) as (Hr & _ & _ & Hv).
  rewrite Hacc in Hv. rewrite (storage_read_restored s s1) in Hv by done.
  case_if; [by apply undo_ret|]. intros [] s2 Hs.
  apply s_bind_done in Hs as (s3 & s4 & [= <- <-] & Hs).
  apply s_bind_done in Hs as ([] & s5 & [= <-] & [= <-]).
  exists [StorageChange a k prev].
  eapply undo_one; [done|done| |apply mono_storage_change|done|].
  { destruct Hw1. by split. }
  match goal with |- restored _ (with_storage ?t ?m) => transitivity (with_storage s1 m) end;
    [|by apply same_core_restored].
  apply (restored_write_back s1 a k v prev); [done|
    apply (get_storage_cached a k false s prev s1 Hw Hs1); by rewrite Hacc|].
  intros a'. simpl.
  rewrite insert_insert_eq. pose proof (storage_at_put s1 a) as E.
  unfold storage_at in E at 1. simpl in E. rewrite E. case_decide; [|done].
  unfold id. f_equal. unfold storage_at at 1. simpl. by rewrite lookup_insert_eq.
Qed.

(** ** Contract creation *)

(** The object delta of [create_contract]. *)
Definition object_delta a (prev : option Object) : Delta :=
  match prev with Some prev => Update a prev | None => Create a end.

Lemma revert_object_delta s a prev o : objects s !! a = prev ->
  forall t : IBS, objects t = <[a := o]> (objects s) ->
  exists m, revert (object_delta a prev) t = Done () (with_objects t m) /\ m = objects s.
Proof.
  intros Ho t Ht. destruct prev; simpl; eexists; (split; [done|]); rewrite Ht.
  - by rewrite insert_insert_eq, insert_id.
  - by rewrite delete_insert_id.
Qed.

Lemma mono_object_delta a prev : mono [object_delta a prev].
Proof. destruct prev; [apply mono_update|apply mono_create]. Qed.

(** Undoing an incarnation. *)
Lemma revert_incarnation s a n (t : IBS) : wf s ->
  u64_checked (default 0 (incarnations s !! a) + 1) = Some n ->
  incarnations t = <[a := n]> (incarnations s) ->
  revert (Incarnation a) t = Done () (with_incarnations t (incarnations s)).
Proof.
  intros Hw Hn Ht. apply checked_inv in Hn as [-> Hn].
  simpl. unfold mbind, SM_bind, s_get, s_unwrap, s_modify. simpl. rewrite Ht, lookup_insert_eq.
  destruct (incarnations s !! a) as [n|] eqn:E; simpl.
  - assert (1 <= n) by by eapply wf_incarnations.
    rewrite unsigned_sub_some by lia. simpl. rewrite (proj2 (Z.eqb_neq _ _)) by lia.
    rewrite Ht, insert_insert_eq. replace (n + 1 - 1) with n by lia. by rewrite insert_id.
  - simpl. rewrite Ht. by rewrite delete_insert_id.
Qed.

Lemma wf_create s a prev acc n : wf s ->
  read_account (db s) a = Some (prev ≫= initial) ->
  u64_checked (default 0 (incarnations s !! a) + 1) = Some n ->
  forall t : IBS, db t = db s ->
    objects t = <[a := {| initial := prev ≫= initial; current := Some acc |}]> (objects s) ->
    incarnations t = <[a := n]> (incarnations s) -> wf t.
Proof.
  intros Hw Ha Hn t Hdb Ho Hi. split.
  - intros a' o'. rewrite Ho, Hdb, lookup_insert_Some.
    intros [[<- <-]|[_ ?]]; [done|by apply (wf_initial s Hw)].
  - intros a' n'. rewrite Hi, lookup_insert_Some.
    intros [[<- <-]|[_ ?]]; [|by eapply wf_incarnations].
    apply checked_inv in Hn as [-> _].
    destruct (incarnations s !! a) as [m|] eqn:E; simpl; [|lia].
    assert (1 <= m) by by eapply wf_incarnations. lia.
Qed.

(** The storage delta of [create_contract]. *)
Definition storage_delta a (removed : option Storage) : Delta :=
  match removed with Some st => StorageWipe a st | None => StorageCreate a end.

Lemma revert_storage_delta s a (t : IBS) : storage t = delete a (storage s) ->
  exists m, revert (storage_delta a (storage s !! a)) t = Done () (with_storage t m) /\
    m = storage s.
Proof.
  intros Ht. destruct (storage s !! a) as [st|] eqn:E; simpl; eexists; (split; [done|]);
    rewrite Ht.
  - by rewrite insert_delete_id.
  - by rewrite delete_delete_eq, delete_id.
Qed.

Lemma undo_create_contract a s : wf s -> undo (create_contract a) s.
Proof.
  intros Hw. unfold create_contract. apply undo_bind; [by apply undo_get_object|].
  intros prev s1 Hp Hw1.
  destruct (get_object_done a s prev s1 Hw Hp) as (_ & _ & _ & Ho & Hn & Hi & _ & _ & Hdb).
  assert (read_account (db s1) a = Some (prev ≫= initial)) as Ha.
  { rewrite Hdb. destruct prev as [o|]; simpl; [by rewrite (Hi o)|by apply Hn]. }
  intros [] s' Hs. apply s_bind_done in Hs as ([] & s2 & [= <-] & Hs).
  apply s_bind_done in Hs as ([] & s3 & Hb & Hs).
  unfold bump_incarnation, mbind, SM_bind, s_get, s_unwrap in Hb. simpl in Hb.
  destruct (u64_checked _) as [n|] eqn:Hn'; [|done]. injection Hb as <-.
  apply s_bind_done in Hs as ([] & s4 & [= <-] & Hs).
  apply s_bind_done in Hs as ([] & s5 & [= <-] & Hs).
  apply s_bind_done in Hs as (s6 & s7 & [= <- <-] & Hs).
  set (acc := {| nonce := 0; balance := _; code_hash := _ |}) in Hs.
  assert (db s' = db s1 /\ logs s' = logs s1 /\ self_destructs s' = self_destructs s1 /\
    touched s' = touched s1 /\ accessed_addresses s' = accessed_addresses s1 /\
    accessed_storage_keys s' = accessed_storage_keys s1 /\
    incarnations s' = <[a := n]> (incarnations s1) /\
    objects s' = <[a := {| initial := prev ≫= initial; current := Some acc |}]> (objects s1) /\
    storage s' = delete a (storage s1) /\
    journal s' = [storage_delta a (storage s1 !! a); Incarnation a; object_delta a prev]
                 ++ journal s1)
    as (Edb & El & Es & Et & Ea & Ek & Ei & Eo & Est & Ej).
  { simpl in Hs. destruct (storage s1 !! a) as [st|] eqn:E; injection Hs as <-; simpl;
      splits; try done. by rewrite delete_id. }
  clear Hs. eexists. split; [exact Ej| | | |].
  - apply (mono_app [_; _] [_]); [|apply mono_object_delta]. apply mono_create_block.
    unfold storage_delta. destruct (storage s1 !! a); eauto.
  - destruct (revert_storage_delta s1 a s' Est) as (m & Hr1 & ->).
    pose proof (revert_incarnation s1 a n (with_storage s' (storage s1)) Hw1 Hn' Ei) as Hr2.
    destruct (revert_object_delta s1 a prev _ Ho
      (with_incarnations (with_storage s' (storage s1)) (incarnations s1)) Eo) as (m & Hr3 & ->).
    eexists. split.
    + unfold reverts. cbn [for_each]. apply s_bind_done. eexists (), _. split; [exact Hr1|].
      apply s_bind_done. eexists (), _. split; [exact Hr2|].
      apply s_bind_done. eexists (), _. split; [exact Hr3|done].
    + by apply same_core_restored.
  - exists []. by rewrite El, app_nil_r.
  - by eapply (wf_create s1 a prev acc n).
Qed.

(** ** Reverting to a snapshot *)

(** A revert does not look at the journal, the logs and the refund. *)
Lemma revert_frame d s r : revert d s = Done () r ->
  journal r = journal s /\ logs r = logs s /\ refund r = refund s /\
  forall j, revert d (with_journal s j) = Done () (with_journal r j).
Proof.
  destruct d as [a|a o|a v|a|a|a|a k v|a st|a|a k|a]; simpl; try (by intros [= <-]);
    unfold mbind, SM_bind, s_get, s_unwrap, s_modify; simpl.
  - destruct (objects s !! a) as [o|]; [|done]. destruct (current o); [|done].
    by intros [= <-].
  - destruct (incarnations s !! a) as [n|]; [|done]. destruct (unsigned_sub n 1); [|done].
    by intros [= <-].
Qed.

Lemma pop_reverts_spec ds s j r : journal s = ds ++ j -> reverts ds s = Done () r ->
  pop_reverts (length ds) s = Done () (with_journal r j) /\
  logs r = logs s /\ refund r = refund s.
Proof.
  revert s r. induction ds as [|d ds IH]; intros s r Hj.
  - simpl in Hj. intros [= <-]. simpl. split; [|done]. rewrite <- Hj. by destruct s.
  - intros ([] & s1 & Hd & Hr)%s_bind_done.
    destruct (revert_frame d s s1 Hd) as (_ & Hl & Hf & Hjr).
    assert (reverts ds (with_journal s1 (ds ++ j)) = Done () (with_journal r (ds ++ j)) /\
            logs r = logs s1 /\ refund r = refund s1) as (Hr' & Hl' & Hf').
    { clear - Hr. generalize (ds ++ j) as j'. revert s1 Hr.
      unfold reverts. induction ds as [|d ds IH]; intros s1 Hr j'; simpl in *.
      - by injection Hr as <-.
      - apply s_bind_done in Hr as ([] & s2 & Hd & Hr).
        destruct (revert_frame d s1 s2 Hd) as (_ & ? & ? & Hj).
        destruct (IH s2 Hr j') as (? & ? & ?). split; [|split; congruence].
        apply s_bind_done. exists (), (with_journal s2 j'). by split. }
    destruct (IH (with_journal s1 (ds ++ j)) (with_journal r (ds ++ j)) eq_refl Hr')
      as (Hp & _). split; [|split; congruence].
    simpl. apply s_bind_done. exists (), (with_journal s1 (ds ++ j)). split.
    + unfold pop_revert, mbind, SM_bind, s_get. simpl. rewrite Hj. simpl. apply Hjr.
    + exact Hp.
Qed.

Lemma revert_undoable s s' ds : undoable s s' ds ->
  exists r, revert_to_snapshot (take_snapshot s) s' = Done () r /\ restored s r /\
    journal r = journal s /\ logs r = logs s /\ refund r = refund s.
Proof.
  intros [Hj _ (r & Hr & Hres) (l & Hl) _].
  destruct (pop_reverts_spec ds s' (journal s) r Hj Hr) as (Hp & Hlr & _).
  assert (blen (journal s') - blen (journal s) = Z.of_nat (length ds)) as Hn.
  { rewrite Hj, blen_app. unfold blen. lia. }
  exists (with_refund (with_logs (with_journal r (journal s))
    (take (Z.to_nat (blen (logs s))) (logs r))) (refund s)). split; [|split].
  - unfold revert_to_snapshot, take_snapshot, mbind, SM_bind, s_get, s_unwrap. simpl.
    rewrite unsigned_sub_some by lia. rewrite Hn, Nat2Z.id, Hp. simpl. reflexivity.
  - etrans; [exact Hres|]. by apply same_core_restored.
  - split; [done|]. split; [|done]. simpl. rewrite Hlr, Hl. unfold blen.
    by rewrite Nat2Z.id, take_app_length.
Qed.

(** The operations of a transaction. *)
Inductive Op :=
  | OpExists (a : Address) | OpIsDead (a : Address)
  | OpCreateContract (a : Address) | OpRecordSelfdestruct (a : Address)
  | OpGetBalance (a : Address) | OpSetBalance (a : Address) (v : Z)
  | OpAddToBalance (a : Address) (v : Z) | OpSubtractFromBalance (a : Address) (v : Z)
  | OpTouch (a : Address) | OpGetNonce (a : Address) | OpSetNonce (a : Address) (n : Z)
  | OpGetCode (a : Address) | OpGetCodeHash (a : Address)
  | OpSetCode (a : Address) (c : Bytes) | OpAccessAccount (a : Address)
  | OpAccessStorage (a : Address) (k : Z) | OpGetCurrentStorage (a : Address) (k : Z)
  | OpGetOriginalStorage (a : Address) (k : Z) | OpSetStorage (a : Address) (k v : Z)
  | OpAddLog (l : Log) | OpAddRefund (n : Z) | OpSubtractRefund (n : Z).

Definition run_op (op : Op) : SM IBS unit :=
  match op with
  | OpExists a => exists_ a;; mret ()
  | OpIsDead a => is_dead a;; mret ()
  | OpCreateContract a => create_contract a
  | OpRecordSelfdestruct a => record_selfdestruct a
  | OpGetBalance a => get_balance a;; mret ()
  | OpSetBalance a v => set_balance a v
  | OpAddToBalance a v => add_to_balance a v
  | OpSubtractFromBalance a v => subtract_from_balance a v
  | OpTouch a => touch a
  | OpGetNonce a => get_nonce a;; mret ()
  | OpSetNonce a n => set_nonce a n
  | OpGetCode a => get_code a;; mret ()
  | OpGetCodeHash a => get_code_hash a;; mret ()
  | OpSetCode a c => set_code a c
  | OpAccessAccount a => access_account a;; mret ()
  | OpAccessStorage a k => access_storage a k;; mret ()
  | OpGetCurrentStorage a k => get_current_storage a k;; mret ()
  | OpGetOriginalStorage a k => get_original_storage a k;; mret ()
  | OpSetStorage a k v => set_storage a k v
  | OpAddLog l => add_log l
  | OpAddRefund n => add_refund n
  | OpSubtractRefund n => subtract_refund n
  end.

(** A contract writes to its own storage, so the account exists. *)
Definition op_allowed (op : Op) s : Prop :=
  match op with OpSetStorage a _ _ => is_Some (account_of s a) | _ => True end.

(** A frame: operations and sub-frames that may be reverted. *)
Inductive frame : IBS -> IBS -> Prop :=
  | frame_start s : frame s s
  | frame_op s s1 s2 op :
      frame s s1 -> op_allowed op s1 -> run_op op s1 = Done () s2 -> frame s s2
  | frame_reverted s s1 s2 s3 :
      frame s s1 -> frame s1 s2 ->
      revert_to_snapshot (take_snapshot s1) s2 = Done () s3 -> frame s s3.

Lemma undo_map {A B} (m : SM IBS A) (f : A -> B) s : wf s -> undo m s ->
  undo (x ← m; mret (f x)) s.
Proof. intros Hw Hm. apply undo_bind; [done|]. intros x s1 _ Hw1. by apply undo_ret. Qed.

Lemma undo_get_current a s : wf s -> undo (get_current a) s.
Proof. intros Hw. apply undo_map; [done|by apply undo_get_object]. Qed.

Lemma undo_get_code a s : wf s -> undo (get_code a) s.
Proof.
  intros Hw. unfold get_code. apply undo_bind; [by apply undo_get_current|].
  intros [acc|] s1 _ Hw1; [|by apply undo_ret]. case_if; [|by apply undo_ret].
  apply undo_bind; [by apply undo_get|]. intros s2 s3 [= <- <-] _.
  case_match; [by apply undo_ret|]. case_match; [by apply undo_ret|].
  intros c s' (code & s2 & Hc & Hs)%s_bind_done. unfold s_try in Hc. simpl in Hc.
  destruct (read_code _ _); [|done]. injection Hc as <- <-. injection Hs as <- <-.
  exists []. apply undoable_cached; [done|by apply same_core_restored| |done].
  exists []. by rewrite app_nil_r.
Qed.

Lemma undo_op op s : wf s -> op_allowed op s -> undo (run_op op) s.
Proof.
  intros Hw Ho. destruct op; simpl in *;
    try (apply (undo_map _ (fun _ => ())); [done|]);
    unfold exists_, is_dead, get_balance, get_nonce, get_code_hash;
    try (apply undo_map; [done|]);
    eauto using undo_get_current, undo_create_contract, undo_record_selfdestruct,
      undo_update_balance, undo_touch, undo_set_nonce, undo_get_code, undo_set_code,
      undo_access_account, undo_access_storage, undo_get_storage, undo_set_storage,
      undo_add_log, undo_add_refund, undo_subtract_refund.
Qed.

Lemma frame_undoable s s' : frame s s' -> wf s -> exists ds, undoable s s' ds.
Proof.
  induction 1 as [s|s s1 s2 op _ IH Ha Hop|s s1 s2 s3 _ IH1 _ IH2 Hrev]; intros Hw.
  - exists []. by apply undoable_refl.
  - destruct (IH Hw) as [ds U]. destruct (undo_op op s1 (un_wf _ _ _ U) Ha () s2 Hop) as [ds' U'].
    eexists. by eapply undoable_trans.
  - destruct (IH1 Hw) as [ds1 U1]. destruct (IH2 (un_wf _ _ _ U1)) as [ds2 U2].
    destruct (revert_undoable s1 s2 ds2 U2) as (r & Hr & Hres & Hj & Hl & _).
    assert (r = s3) as -> by congruence.
    assert (undoable s1 s3 []) as U3.
    { apply undoable_cached; [done|done| |by apply (un_wf _ _ _ U1)].
      exists []. by rewrite Hl, app_nil_r. }
    eexists. by eapply undoable_trans.
Qed.

(** ** Reads of a restored state *)

Lemma get_object_restored a s r o s1 : restored s r -> get_object a s = Done o s1 ->
  exists r1, get_object a r = Done o r1.
Proof.
  intros Hr Hs. pose proof (get_object_effective a s o s1 Hs) as Ho.
  rewrite <- (effective_restored s r a Hr) in Ho. revert Hs Ho.
  unfold get_object, effective, mbind, SM_bind, s_get, s_try. simpl.
  rewrite (res_db _ _ Hr).
  destruct (res_objects _ _ Hr a) as [->|(-> & acc & -> & ->)].
  - destruct (objects s !! a); [intros _ ->; by eexists|].
    destruct (read_account (db s) a) as [[]|]; simpl; [intros _ ->; by eexists..|done].
  - intros _ ->. by eexists.
Qed.

Lemma get_current_restored {A} (f : option Account -> A) a s r y s1 : restored s r ->
  (x ← get_current a; mret (f x)) s = Done y s1 ->
  exists r1, (x ← get_current a; mret (f x)) r = Done y r1.
Proof.
  intros Hr (x & s2 & (o & s3 & Ho & [= <- <-])%s_bind_done & [= <- <-])%s_bind_done.
  destruct (get_object_restored a s r o s3 Hr Ho) as [r1 Hr1]. exists r1.
  apply s_bind_done. exists (o ≫= current), r1. split; [|done].
  apply s_bind_done. by exists o, r1.
Qed.

Lemma bind_exists {A B} (m : SM IBS A) (f : A -> SM IBS B) s x s1 y :
  m s = Done x s1 -> (exists s', f x s1 = Done y s') -> exists s', (m ≫= f) s = Done y s'.
Proof. intros Hm [s' Hf]. exists s'. apply s_bind_done. eauto. Qed.

(** A storage read succeeds as soon as its value is known. *)
Lemma get_storage_total a k b s v : wf s -> (exists o s1, get_object a s = Done o s1) ->
  match account_of s a with
  | Some _ => storage_read s a k b v
  | None => v = 0
  end -> exists s', get_storage a k b s = Done v s'.
Proof.
  intros Hw (o & s1 & Ho) Hv.
  destruct (get_object_done a s o s1 Hw Ho) as (Hr & _ & _ & _ & _ & Hi & _ & _ & Hdb).
  pose proof (get_object_effective a s o s1 Ho) as He. unfold account_of in Hv.
  rewrite <- He in Hv. unfold get_storage.
  apply (bind_exists _ _ _ _ _ _ Ho).
  destruct o as [o|]; simpl in Hv; [|subst v; by eexists].
  destruct (current o); [|subst v; by eexists].
  rewrite (storage_read_restored s s1) in Hv by done.
  unfold storage_read, current_at, original_is, committed_at in Hv.
  unfold mbind, SM_bind, s_get, put_storage, s_modify, s_try. simpl.
  destruct (if b then None else _); [subst; by eexists|].
  destruct (st_committed (storage_at s1 a) !! k); [subst; by eexists|].
  assert (from_db s1 a = negb (bool_decide (initial o = None)
            || bool_decide (is_Some (incarnations s1 !! a)))) as Hf.
  { unfold from_db. rewrite Hdb, (Hi o eq_refl).
    destruct (initial o), (incarnations s1 !! a); done. }
  rewrite Hf in Hv. destruct (_ || _); simpl in *; [subst; by eexists|].
  rewrite Hv. by eexists.
Qed.

Lemma get_storage_restored a k b s r v s1 : wf s -> restored s r ->
  get_storage a k b s = Done v s1 -> exists r1, get_storage a k b r = Done v r1.
Proof.
  intros Hw Hr Hs. apply get_storage_total; [by eapply restored_wf| |].
  - unfold get_storage in Hs. apply s_bind_done in Hs as (o & s2 & Ho & _).
    destruct (get_object_restored a s r o s2 Hr Ho). eauto.
  - destruct (get_storage_done a k b s v s1 Hw Hs) as (_ & _ & _ & Hv).
    unfold account_of in *. rewrite (effective_restored s r) by done.
    destruct (effective s a ≫= current); [|done]. by apply (storage_read_restored s r).
Qed.

(** [r] answers every read as [s] does. *)
Record same_reads s r : Prop := {
  sr_exists a b s1 : exists_ a s = Done b s1 -> exists r1, exists_ a r = Done b r1;
  sr_dead a b s1 : is_dead a s = Done b s1 -> exists r1, is_dead a r = Done b r1;
  sr_balance a v s1 : get_balance a s = Done v s1 -> exists r1, get_balance a r = Done v r1;
  sr_nonce a v s1 : get_nonce a s = Done v s1 -> exists r1, get_nonce a r = Done v r1;
  sr_code_hash a v s1 :
    get_code_hash a s = Done v s1 -> exists r1, get_code_hash a r = Done v r1;
  sr_current_storage a k v s1 : get_current_storage a k s = Done v s1 ->
    exists r1, get_current_storage a k r = Done v r1;
  sr_original_storage a k v s1 : get_original_storage a k s = Done v s1 ->
    exists r1, get_original_storage a k r = Done v r1;
  sr_self_destructs : self_destructs r = self_destructs s;
  sr_accessed_addresses : accessed_addresses r = accessed_addresses s;
  sr_accessed_keys a : keys_at r a = keys_at s a;
  sr_touched a : a <> RIPEMD_ADDRESS -> a ∈ touched r <-> a ∈ touched s;
  sr_incarnations : incarnations r = incarnations s;
}.

Lemma restored_reads s r : wf s -> restored s r -> same_reads s r.
Proof.
  intros Hw Hr. split; try apply Hr; intros *;
    try (by apply get_current_restored); by apply get_storage_restored.
Qed.
End journal.


(** ** An example *)

(** A database of accounts with empty storage that ignores writes. *)
#[local] Instance accounts_state : State (gmap Address Account) := {|
  read_account d a := Some (d !! a);
  read_code _ _ := None;
  read_storage _ _ _ := Some 0;
  erase_storage _ d := Some d;
  begin_block _ d := d;
  update_account a _ c d := partial_alter (fun _ => c) a d;
  update_code _ _ d := Some d;
  update_storage _ _ _ _ d := Some d;
|}.

#[local] Instance zero_keccak : Keccak := {|
  keccak_digest _ := replicate 32 x00;
  length_keccak_digest _ := eq_refl;
|}.

Definition sample_db : gmap Address Account :=
  {[ 5 := {| nonce := 1; balance := 100; code_hash := EMPTY_HASH |} ]}.

Definition sample_start : IntraBlockState (gmap Address Account) := new sample_db.

(** The state after an operation. *)
Definition after (op : Op) (s : IntraBlockState (gmap Address Account))
  : IntraBlockState (gmap Address Account) :=
  match run_op op s with Done _ s => s | _ => s end.

Definition sample_paid : IntraBlockState (gmap Address Account) :=
  after (OpSetBalance 6 42) sample_start.
Definition sample_stored : IntraBlockState (gmap Address Account) :=
  after (OpSetStorage 5 1 7) sample_paid.
Definition sample_end : IntraBlockState (gmap Address Account) :=
  after (OpCreateContract 5) sample_stored.

Lemma sample_start_wf : wf sample_start.
Proof. split; [by intros a o Ho|by intros a n Hn]. Qed.

