(* ===== verification/BlockState.v ===== *)
(** What the block state knows about its database over a whole block: the
    values it reports to the database as initial are those of the database.

    [block_step] is anything the processor does to the block state between its
    creation and [write_to_db]: frames of the virtual machine, with reverted
    sub-frames, and the ends of transactions.  [faithful] is an invariant of all
    of them. *)
From S2P Require Import Prelude Word EvmState Host IntraBlockState Journal.
From Stdlib Require Import ZArith Lia Strings.Byte.
From stdpp Require Import base list option numbers gmap relations.
#[local] Open Scope Z_scope.
Import ibs.

Section block.
Context {DB : Type} `{State DB, Keccak}.

Abbreviation IBS := (IntraBlockState DB).
Implicit Types (s r : IBS) (a k v : Z).

Inductive block_step : IBS -> IBS -> Prop :=
  | step_frame s s' : frame s s' -> block_step s s'
  | step_selfdestructs s s' : destruct_selfdestructs s = Done () s' -> block_step s s'
  | step_touched s s' : destruct_touched_dead s = Done () s' -> block_step s s'
  | step_finalize s s' : finalize_transaction s = Done () s' -> block_step s s'
  | step_clear s s' : clear_journal_and_substate s = Done () s' -> block_step s s'.

Definition block_run : IBS -> IBS -> Prop := rtc block_step.

(** [d0] is the database at the beginning of the block. *)
Context (d0 : DB).

Record faithful s : Prop := {
  fa_wf : wf s;
  fa_db : db s = d0;
  fa_initial a k c : committed_at s a k = Some c -> from_db s a = true ->
    read_storage (db s) a k = Some (cv_initial c);
  fa_fresh a k c : committed_at s a k = Some c -> from_db s a = false -> cv_initial c = 0;
  fa_cached a k : is_Some (current_at s a k) -> from_db s a = true ->
    is_Some (committed_at s a k);
  fa_clean a k c : objects s !! a = None -> committed_at s a k = Some c ->
    cv_original c = cv_initial c;
  fa_unwritten a k v : objects s !! a = None -> current_at s a k = Some v ->
    original_is s a k v;
  fa_dead a o : objects s !! a = Some o -> current o = None -> is_Some (incarnations s !! a);
  fa_incarnated a : objects s !! a = None -> is_Some (incarnations s !! a) ->
    read_account (db s) a = Some None;
}.

(** The invariant is kept by a revert. *)
Lemma faithful_restored s s' : restored s s' -> faithful s -> faithful s'.
Proof.
  intros Hr Hf. pose proof (restored_wf _ _ Hr (fa_wf _ Hf)) as Hw.
  assert (forall a, objects s' !! a = None -> objects s !! a = None) as Ho.
  { intros a. by destruct (res_objects _ _ Hr a) as [->|(? & ? & _ & ->)]. }
  pose proof (fun a => from_db_eq s s' a Hr) as Hdb.
  pose proof (res_db _ _ Hr) as Hdb0. destruct Hf. split; [done|congruence|..].
  - intros a k c. rewrite Hdb, (res_db _ _ Hr).
    destruct (res_committed _ _ Hr a k) as [->|(_ & _ & v & Hv & ->)]; [eauto|].
    by intros [= <-].
  - intros a k c. rewrite Hdb.
    destruct (res_committed _ _ Hr a k) as [->|(_ & Hf & v & Hv & ->)]; [eauto|congruence].
  - intros a k Hc. rewrite Hdb. intros Hf. destruct (current_at s a k) eqn:E.
    + destruct (res_committed _ _ Hr a k) as [->|(_ & _ & v & _ & ->)]; [|by eexists].
      apply fa_cached0; [by rewrite E|done].
    + by apply (res_cached _ _ Hr a k).
  - intros a k c Hn. apply Ho in Hn.
    destruct (res_committed _ _ Hr a k) as [->|(_ & _ & v & _ & ->)]; [eauto|].
    by intros [= <-].
  - intros a k v Hn%Ho Hc. apply (original_restored s s' a k v Hr).
    destruct (res_current _ _ Hr a k) as [E|(_ & v' & Hv & E)]; [|congruence].
    apply fa_unwritten0; congruence.
  - intros a o. rewrite (res_incarnations _ _ Hr).
    destruct (res_objects _ _ Hr a) as [->|(_ & acc & _ & ->)]; [eauto|].
    by intros [= <-].
  - intros a Hn%Ho. rewrite (res_incarnations _ _ Hr), (res_db _ _ Hr). eauto.
Qed.

(** ** Operations that leave storage alone *)

Record quiet s s' : Prop := {
  qu_db : db s' = db s;
  qu_storage : storage s' = storage s;
  qu_incarnations : incarnations s' = incarnations s;
  qu_objects a : objects s' !! a = None -> objects s !! a = None;
  qu_dead a o : objects s' !! a = Some o -> current o = None -> objects s !! a = Some o;
}.

#[export] Instance quiet_preorder : PreOrder quiet.
Proof.
  split; [by split|]. intros s1 s2 s3 [] []. split; try congruence.
  - intros a Ha. by apply qu_objects0, qu_objects1.
  - intros a o Ho Hc. apply qu_dead0; [|done]. by apply qu_dead1.
Qed.

Lemma faithful_quiet s s' : quiet s s' -> wf s' -> faithful s -> faithful s'.
Proof.
  intros [] Hw []. 
  assert (forall a, from_db s' a = from_db s a) as Hf.
  { intros a. unfold from_db. by rewrite qu_db0, qu_incarnations0. }
  assert (forall a k, committed_at s' a k = committed_at s a k) as Hc.
  { intros a k. unfold committed_at, storage_at. by rewrite qu_storage0. }
  assert (forall a k, current_at s' a k = current_at s a k) as Hu.
  { intros a k. unfold current_at, storage_at. by rewrite qu_storage0. }
  split; [done|congruence|intros *; rewrite ?Hc, ?Hu, ?Hf, ?qu_db0, ?qu_incarnations0..]; try by eauto.
  - intros Hn%qu_objects0 Hv. pose proof (fa_unwritten0 a k v Hn Hv) as Ho.
    unfold original_is in *. by rewrite Hc, Hf, qu_db0.
Qed.

Definition quiets {A} (m : SM IBS A) : Prop := forall s x s', m s = Done x s' -> quiet s s'.

Lemma quiets_bind {A B} (m : SM IBS A) (f : A -> SM IBS B) :
  quiets m -> (forall x, quiets (f x)) -> quiets (m ≫= f).
Proof.
  intros Hm Hf s x s' (y & s1 & H1 & H2)%s_bind_done. etrans; [by eapply Hm|by eapply Hf].
Qed.

Lemma quiets_ret {A} (x : A) : quiets (mret x).
Proof. by intros s y s' [= <- <-]. Qed.

Lemma quiets_get {A} (f : IBS -> A) : quiets (s_get f).
Proof. by intros s y s' [= <- <-]. Qed.

Lemma quiets_unwrap {A} (o : option A) : quiets (s_unwrap o).
Proof. intros s y s'. unfold s_unwrap. destruct o; [|done]. by intros [= <- <-]. Qed.

Lemma quiets_try {A} (o : option A) : quiets (s_try o).
Proof. intros s y s'. unfold s_try. destruct o; [|done]. by intros [= <- <-]. Qed.

Lemma quiets_put_object a o : is_Some (current o) -> quiets (put_object a o).
Proof.
  intros [c Hc] s [] s' [= <-]. split; try done; simpl.
  - intros a'. rewrite lookup_insert_None. tauto.
  - intros a' o'. rewrite lookup_insert_Some. intros [[-> <-]|[_ ?]]; [congruence|done].
Qed.

(** A change of another field. *)
Lemma quiets_modify (f : IBS -> IBS) : (forall s, db (f s) = db s) ->
  (forall s, storage (f s) = storage s) -> (forall s, incarnations (f s) = incarnations s) ->
  (forall s, objects (f s) = objects s) -> quiets (s_modify f).
Proof. intros Hd Hs Hi Ho s [] s' [= <-]. split; intros *; rewrite ?Ho; done. Qed.

Lemma quiets_push d : quiets (push d).
Proof. by apply quiets_modify. Qed.

Create HintDb quiets.
#[local] Hint Resolve quiets_ret quiets_get quiets_unwrap quiets_try quiets_push : quiets.
#[local] Hint Extern 1 (quiets (put_object _ _)) =>
  apply quiets_put_object; simpl; eexists; reflexivity : quiets.
#[local] Hint Extern 1 (quiets (s_modify _)) => apply quiets_modify; done : quiets.

Ltac quiet := repeat first
  [ apply quiets_bind; [|intros ?] | solve [eauto 2 with quiets] | case_match | progress simpl ].

Lemma quiets_get_object a : quiets (get_object a).
Proof. unfold get_object. quiet. Qed.
#[local] Hint Resolve quiets_get_object : quiets.

Lemma quiets_ensure_object a : quiets (ensure_object a).
Proof. unfold ensure_object. quiet. Qed.
#[local] Hint Resolve quiets_ensure_object : quiets.

Lemma quiets_touch a : quiets (touch a).
Proof. unfold touch. quiet. Qed.
#[local] Hint Resolve quiets_touch : quiets.

Lemma quiets_update_balance a f : quiets (update_balance a f).
Proof. unfold update_balance, get_or_create_object. quiet. Qed.

Lemma quiets_set_nonce a n : quiets (set_nonce a n).
Proof. unfold set_nonce, get_or_create_object. quiet. Qed.

Lemma quiets_set_code a c : quiets (set_code a c).
Proof. unfold set_code, get_or_create_object. quiet. Qed.

Lemma quiets_get_current a : quiets (get_current a).
Proof. unfold get_current. quiet. Qed.
#[local] Hint Resolve quiets_update_balance quiets_set_nonce quiets_set_code
  quiets_get_current : quiets.

Lemma quiets_get_code a : quiets (get_code a).
Proof. unfold get_code. quiet. Qed.
#[local] Hint Resolve quiets_get_code : quiets.

(** The operations of a frame that touch storage or incarnations. *)
Definition storage_op (op : Op) : bool :=
  match op with
  | OpCreateContract _ | OpGetCurrentStorage _ _ | OpGetOriginalStorage _ _
  | OpSetStorage _ _ _ => true
  | _ => false
  end.

Lemma quiets_op op : storage_op op = false -> quiets (run_op op).
Proof.
  destruct op; intros Hop; try discriminate Hop; simpl;
    unfold exists_, is_dead, get_balance, get_nonce, get_code_hash, set_balance,
      add_to_balance, subtract_from_balance, record_selfdestruct, access_account,
      access_storage, add_log, add_refund, subtract_refund; quiet.
Qed.

(** ** Storage *)

Lemma faithful_insert_current s a k v : faithful s -> is_Some (objects s !! a) ->
  (from_db s a = true -> is_Some (committed_at s a k)) ->
  faithful (with_storage s (<[a := insert_current (storage_at s a) k v]> (storage s))).
Proof.
  intros Hf Ho Hk. set (s' := with_storage _ _).
  assert (forall a' k', committed_at s' a' k' = committed_at s a' k') as Hc.
  { intros a' k'. unfold committed_at, s'. rewrite storage_at_put. by case_decide; subst. }
  assert (forall a' k', (a', k') <> (a, k) -> current_at s' a' k' = current_at s a' k') as Hu.
  { intros a' k' Hne. unfold current_at, s'. rewrite storage_at_put. case_decide; subst; [|done].
    simpl. rewrite lookup_insert_ne; [done|congruence]. }
  destruct Hf. destruct fa_wf0. split; [by split|done|intros a' k'; rewrite ?Hc; try apply Hk..].
  - intros c. apply fa_initial0.
  - intros c. apply fa_fresh0.
  - destruct (decide ((a', k') = (a, k))) as [[= -> ->]|Hne]; [by intros _|].
    rewrite Hu by done. apply fa_cached0.
  - intros c. apply fa_clean0.
  - intros v' Hn. assert (a' <> a) as Hne by (intros ->; simpl in Hn; rewrite Hn in Ho; by destruct Ho).
    rewrite Hu by congruence. intros Hv. pose proof (fa_unwritten0 a' k' v' Hn Hv) as Hor.
    unfold original_is in *. by rewrite Hc.
  - apply fa_dead0.
  - apply fa_incarnated0; assumption.
Qed.

Lemma faithful_set_storage a k v s s' : faithful s -> is_Some (account_of s a) ->
  set_storage a k v s = Done () s' -> faithful s'.
Proof.
  intros Hf Hacc (prev & s1 & H1 & Hs)%s_bind_done.
  destruct (get_storage_done a k false s prev s1 (fa_wf _ Hf) H1) as (Hr & _).
  pose proof (faithful_restored _ _ Hr Hf) as Hf1.
  destruct (prev =? v); [by injection Hs as <-|].
  apply s_bind_done in Hs as (s2 & s3 & [= <- <-] & Hs).
  apply s_bind_done in Hs as ([] & s4 & [= <-] & [= <-]). unfold id.
  eapply faithful_quiet; [| |apply (faithful_insert_current s1 a k v)]; [by split| |done|..].
  - destruct (fa_wf _ Hf1). by split.
  - unfold get_current_storage, get_storage in H1. apply s_bind_done in H1 as (o & s2 & Ho & H1).
    destruct (get_object_done a s o s2 (fa_wf _ Hf) Ho) as (_ & _ & _ & Ho2 & _).
    apply get_object_effective in Ho. unfold account_of in Hacc. rewrite <- Ho in Hacc.
    destruct o as [o|]; [|by destruct Hacc]. simpl in Hacc.
    destruct (res_objects _ _ Hr a) as [E|(_ & acc & _ & E)]; [|by rewrite E].
    destruct (objects s1 !! a) eqn:E1; [by eexists|exfalso].
    destruct (current o); [|by destruct Hacc].
    apply s_bind_done in H1 as (? & ? & [= <- <-] & H1).
    apply s_bind_done in H1 as ([] & ? & [= <-] & H1).
    assert (objects s1 = objects s2) as Eo; [|congruence].
    repeat case_match; try (by injection H1 as <- <-).
    apply s_bind_done in H1 as (val & s3 & Hval & H1). unfold s_try in Hval.
    destruct (read_storage _ _ _); [|done]. injection Hval as <- <-. by injection H1 as <- <-.
  - intros Hd. destruct (current_at s1 a k) eqn:E.
    + apply (fa_cached _ Hf1); [by rewrite E|done].
    + by apply (get_storage_cached a k false s prev s1 (fa_wf _ Hf) H1).
Qed.

(** The storage of [a] is dropped and its incarnation goes up. *)
Lemma faithful_wiped s s' a n : faithful s -> db s' = db s ->
  storage s' = delete a (storage s) -> incarnations s' = <[a := n]> (incarnations s) -> 1 <= n ->
  (forall a', a' <> a -> objects s' !! a' = objects s !! a') ->
  read_account (db s) a = Some (objects s' !! a ≫= initial) -> faithful s'.
Proof.
  intros Hf Hdb Hst Hi Hn Ho Ha.
  assert (forall a' k, committed_at s' a' k = if decide (a = a') then None else committed_at s a' k)
    as Hc.
  { intros a' k. pose proof (storage_at_delete s a a') as E. unfold committed_at, storage_at in *.
    simpl in E. rewrite Hst, E. by case_decide. }
  assert (forall a' k, current_at s' a' k = if decide (a = a') then None else current_at s a' k)
    as Hu.
  { intros a' k. pose proof (storage_at_delete s a a') as E. unfold current_at, storage_at in *.
    simpl in E. rewrite Hst, E. by case_decide. }
  assert (forall a', a' <> a -> from_db s' a' = from_db s a') as Hd.
  { intros a' Hne. unfold from_db. by rewrite Hdb, Hi, lookup_insert_ne by done. }
  destruct Hf. destruct fa_wf0. split; [split|congruence|intros a'..].
  - intros a' o. rewrite Hdb. destruct (decide (a' = a)) as [->|]; [|rewrite Ho by done; apply wf_initial].
    intros E. rewrite E in Ha. done.
  - intros a' m. rewrite Hi, lookup_insert_Some. intros [[_ <-]|[_ ?]]; [done|eauto].
  - intros k c. rewrite Hc. case_decide; [done|]. rewrite Hd, Hdb by done. apply fa_initial0.
  - intros k c. rewrite Hc. case_decide; [done|]. rewrite Hd by done. apply fa_fresh0.
  - intros k. rewrite Hu, Hc. case_decide; [by intros []|]. rewrite Hd by done. apply fa_cached0.
  - intros k c. rewrite Hc. case_decide; [done|]. rewrite Ho by done. apply fa_clean0.
  - intros k v. unfold original_is. rewrite Hu, Hc. case_decide; [done|].
    rewrite Ho, Hd, Hdb by done. apply fa_unwritten0.
  - intros o. rewrite Hi. destruct (decide (a' = a)) as [->|]; [by rewrite lookup_insert_eq|].
    rewrite Ho, lookup_insert_ne by done. apply fa_dead0.
  - rewrite Hi, Hdb. destruct (decide (a' = a)) as [->|]; [intros E _; by rewrite E in Ha|].
    rewrite Ho, lookup_insert_ne by done. apply fa_incarnated0.
Qed.

Lemma bump_done a s s' : wf s -> bump_incarnation a s = Done () s' ->
  exists n, 1 <= n /\ s' = with_incarnations s (<[a := n]> (incarnations s)).
Proof.
  intros Hw (s0 & s1 & [= <- <-] & Hs)%s_bind_done.
  apply s_bind_done in Hs as (n & s2 & Hn & [= <-]). unfold s_unwrap, id in Hn.
  destruct (u64_checked _) as [m|] eqn:E; [|done]. injection Hn as <- <-.
  exists m. split; [|done]. apply checked_inv in E as [-> _].
  destruct (incarnations s !! a) as [i|] eqn:Ei; simpl; [|lia].
  pose proof (wf_incarnations s Hw a i Ei). lia.
Qed.

Lemma get_object_other a s o s' : get_object a s = Done o s' ->
  forall a', a' <> a -> objects s' !! a' = objects s !! a'.
Proof.
  unfold get_object, mbind, SM_bind, s_get, s_try. simpl.
  destruct (objects s !! a); [by intros [= <- <-]|].
  destruct (read_account (db s) a) as [[acc|]|]; simpl; [| |done]; intros [= <- <-]; [|done].
  intros a' Hne. simpl. by rewrite lookup_insert_ne.
Qed.

Lemma faithful_destruct a s s' : faithful s -> destruct_ a s = Done () s' -> faithful s'.
Proof.
  intros Hf ([] & s1 & Hb & Hs)%s_bind_done.
  destruct (bump_done a s s1 (fa_wf _ Hf) Hb) as (n & Hn & ->).
  apply s_bind_done in Hs as ([] & s2 & [= <-] & Hs).
  apply s_bind_done in Hs as (o & s3 & Ho & Hs). set (t := with_storage _ _) in Ho.
  assert (wf t) as Hw.
  { destruct (fa_wf _ Hf). split; [done|]. intros a' m. simpl. rewrite lookup_insert_Some.
    intros [[_ <-]|[_ ?]]; [done|eauto]. }
  destruct (get_object_done a t o s3 Hw Ho) as (Hr & _ & _ & Ho3 & Hnone & Hsome & Hst & Hi & Hdb).
  assert (forall a', a' <> a -> objects s3 !! a' = objects s !! a') as Hother.
  { intros a' Hne. by rewrite (get_object_other a t o s3 Ho). }
  destruct o as [o|].
  - injection Hs as <-. apply (faithful_wiped s _ a n); try done.
    + intros a' Hne. simpl. by rewrite lookup_insert_ne, Hother.
    + simpl. rewrite lookup_insert_eq. exact (Hsome o eq_refl).
  - injection Hs as <-. apply (faithful_wiped s _ a n); try done.
    rewrite Ho3. by apply Hnone.
Qed.

Lemma faithful_create a s s' : faithful s -> create_contract a s = Done () s' -> faithful s'.
Proof.
  intros Hf (o & s1 & Ho & Hs)%s_bind_done.
  destruct (get_object_done a s o s1 (fa_wf _ Hf) Ho)
    as (Hr & _ & _ & Ho1 & Hnone & Hsome & Hst & Hi & Hdb).
  pose proof (faithful_restored _ _ Hr Hf) as Hf1.
  apply s_bind_done in Hs as ([] & s2 & [= <-] & Hs).
  set (t := with_journal _ _) in Hs.
  assert (wf t) as Hw by (destruct (fa_wf _ Hf1); by split).
  apply s_bind_done in Hs as ([] & s3 & Hb & Hs).
  destruct (bump_done a t s3 Hw Hb) as (n & Hn & ->).
  apply s_bind_done in Hs as ([] & s4 & [= <-] & Hs).
  apply s_bind_done in Hs as ([] & s5 & [= <-] & Hs).
  apply s_bind_done in Hs as (s6 & s7 & [= <- <-] & Hs).
  assert (read_account (db s1) a = Some (o ≫= initial)) as Ha.
  { rewrite Hdb. destruct o; [by apply Hsome|by apply Hnone]. }
  match type of Hs with
  | match storage ?x !! a with _ => _ end _ = _ => change (storage x) with (storage s1) in Hs
  end.
  destruct (storage s1 !! a) eqn:E.
  - apply s_bind_done in Hs as ([] & s8 & [= <-] & [= <-]).
    apply (faithful_wiped s1 _ a n); try done; simpl; [|by rewrite lookup_insert_eq].
    intros a' Hne. by rewrite lookup_insert_ne.
  - injection Hs as <-. apply (faithful_wiped s1 _ a n); try done; simpl;
      [|intros a' Hne; by rewrite lookup_insert_ne|by rewrite lookup_insert_eq].
    symmetry. by apply delete_id.
Qed.

Lemma faithful_op op s s' : faithful s -> op_allowed op s -> run_op op s = Done () s' ->
  faithful s'.
Proof.
  intros Hf Ha Hop. pose proof (fa_wf _ Hf) as Hw. destruct (storage_op op) eqn:E.
  - destruct op; try discriminate E; simpl in *.
    + by eapply faithful_create.
    + apply s_bind_done in Hop as (v & s1 & H1 & [= <-]).
      eapply faithful_restored; [|done]. by eapply get_storage_done.
    + apply s_bind_done in Hop as (v & s1 & H1 & [= <-]).
      eapply faithful_restored; [|done]. by eapply get_storage_done.
    + by eapply faithful_set_storage.
  - destruct (undo_op op s Hw Ha () s' Hop) as [ds U].
    eapply faithful_quiet; [by eapply quiets_op|by apply (un_wf _ _ _ U)|done].
Qed.

Lemma faithful_frame s s' : frame s s' -> faithful s -> faithful s'.
Proof.
  induction 1 as [s|s s1 s2 op _ IH Ha Hop|s s1 s2 s3 _ IH1 Hfr IH2 Hrev]; intros Hf; [done|..].
  - exact (faithful_op op s1 s2 (IH Hf) Ha Hop).
  - destruct (frame_undoable s1 s2 Hfr (fa_wf _ (IH1 Hf))) as [ds U].
    destruct (revert_undoable s1 s2 ds U) as (r & Hr & Hres & _).
    assert (r = s3) as -> by congruence. exact (faithful_restored s1 s3 Hres (IH1 Hf)).
Qed.

(** ** Ends of transactions *)

Lemma finalize_lookup st k : st_committed (finalize_storage st) !! k =
  match st_current st !! k with
  | Some v => Some {| cv_initial := default 0 (cv_initial <$> st_committed st !! k);
                      cv_original := v |}
  | None => st_committed st !! k
  end.
Proof.
  unfold finalize_storage. simpl. generalize (st_current st) (st_committed st). clear st.
  intros cur com. apply (map_fold_weak_ind (fun acc m => acc !! k =
    match m !! k with Some v => Some {| cv_initial := default 0 (cv_initial <$> com !! k);
      cv_original := v |} | None => com !! k end)).
  - by rewrite lookup_empty.
  - intros k' v m acc Hk' IH. destruct (decide (k' = k)) as [->|Hne].
    + rewrite !lookup_insert_eq. rewrite Hk' in IH. by rewrite IH.
    + by rewrite !lookup_insert_ne.
Qed.

Lemma storage_at_finalize s a :
  storage_at (with_storage s (finalize_storage <$> storage s)) a = finalize_storage (storage_at s a).
Proof. unfold storage_at. simpl. rewrite lookup_fmap. by destruct (storage s !! a). Qed.

Lemma committed_finalize s a k :
  committed_at (with_storage s (finalize_storage <$> storage s)) a k =
  match current_at s a k with
  | Some v => Some {| cv_initial := default 0 (cv_initial <$> committed_at s a k);
                      cv_original := v |}
  | None => committed_at s a k
  end.
Proof. unfold committed_at, current_at. by rewrite storage_at_finalize, finalize_lookup. Qed.

Lemma faithful_finalize s : faithful s ->
  faithful (with_storage s (finalize_storage <$> storage s)).
Proof.
  intros []. set (s' := with_storage _ _). pose proof (committed_finalize s) as Hc. fold s' in Hc.
  assert (forall a k, current_at s' a k = None) as Hu.
  { intros a k. unfold current_at, s'. by rewrite storage_at_finalize. }
  destruct fa_wf0. split; [by split|done|intros a k; rewrite ?Hc, ?Hu; try by intros []..].
  - intros c E Hd. destruct (current_at s a k) as [v|] eqn:Ev; [|by apply fa_initial0].
    injection E as <-. destruct (fa_cached0 a k) as [c Hcc]; [by rewrite Ev|done|].
    rewrite Hcc. simpl. by apply fa_initial0.
  - intros c E Hd. destruct (current_at s a k) as [v|] eqn:Ev; [|by eapply fa_fresh0].
    injection E as <-. simpl. destruct (committed_at s a k) eqn:Ec; simpl; [|done].
    by eapply fa_fresh0.
  - intros c Hn E. destruct (current_at s a k) as [v|] eqn:Ev; [|by eapply fa_clean0].
    injection E as <-. simpl. pose proof (fa_unwritten0 a k v Hn Ev) as Ho. unfold original_is in Ho.
    destruct (committed_at s a k) as [c|] eqn:Ec; simpl.
    + rewrite Ho. by eapply fa_clean0.
    + destruct (from_db s a) eqn:Ed; [|done].
      destruct (fa_cached0 a k) as [c Hcc]; [by rewrite Ev|done|congruence].
  - apply fa_dead0.
  - apply fa_incarnated0. assumption.
Qed.

Lemma for_each_inv {A} (P : IBS -> Prop) (f : A -> SM IBS unit) (l : list A) s s' :
  (forall x s s', x ∈ l -> P s -> f x s = Done () s' -> P s') ->
  P s -> for_each f l s = Done () s' -> P s'.
Proof.
  intros Hf. revert s. induction l as [|x l IH]; intros s Hs; simpl.
  - by intros [= <-].
  - intros ([] & s1 & H1 & H2)%s_bind_done. apply (IH (fun y s s' Hy => Hf y s s' ltac:(set_solver)) s1);
      [|done]. eapply Hf; [|done|done]. set_solver.
Qed.

Lemma faithful_step s s' : block_step s s' -> faithful s -> faithful s'.
Proof.
  intros Hs Hf. destruct Hs as [s s' Hs|s s' Hs|s s' Hs|s s' Hs|s s' Hs].
  - by eapply faithful_frame.
  - apply s_bind_done in Hs as (s0 & s1 & [= <- <-] & Hs).
    eapply for_each_inv; [|exact Hf|exact Hs]. intros a t t' _. apply faithful_destruct.
  - apply s_bind_done in Hs as (s0 & s1 & [= <- <-] & Hs).
    eapply for_each_inv; [|exact Hf|exact Hs]. intros a t t' _ Ht (d & t1 & H1 & H2)%s_bind_done.
    assert (faithful t1) as Ht1.
    { eapply (faithful_op (OpIsDead a)); [exact Ht|done|]. simpl. apply s_bind_done. eauto. }
    destruct d; [by eapply faithful_destruct|by injection H2 as <-].
  - injection Hs as <-. by apply faithful_finalize.
  - injection Hs as <-. destruct (fa_wf _ Hf). apply (faithful_quiet s); [by split|by split|done].
Qed.

Lemma faithful_run s s' : block_run s s' -> faithful s -> faithful s'.
Proof. induction 1; eauto using faithful_step. Qed.

Lemma faithful_new : faithful (new d0).
Proof.
  split; [by split|done|..]; intros *; unfold committed_at, current_at, storage_at; simpl;
    rewrite ?lookup_empty; try done; by intros [].
Qed.

(** Every transaction was finalized. *)
Definition finalized s : Prop := forall a k, current_at s a k = None.

Lemma finalize_finalized s s' : finalize_transaction s = Done () s' -> finalized s'.
Proof. intros [= <-] a k. unfold current_at. by rewrite storage_at_finalize. Qed.

Lemma get_current_account a s x s1 : get_current a s = Done x s1 -> x = account_of s a.
Proof.
  intros (o & s2 & Ho & [= <- <-])%s_bind_done. unfold account_of.
  by rewrite (get_object_effective _ _ _ _ Ho).
Qed.

(** *** What writing the block state leaves in the database *)

(** The committed slots that are written: those of live accounts. *)
Definition live_slot s (x : Address * Z) : option CommittedValue :=
  match objects s !! x.1 ≫= current with
  | Some _ => committed_at s x.1 x.2
  | None => None
  end.

(** The storage of an account is erased before. *)
Definition wiped s a : bool := bool_decide (is_Some (incarnations s !! a)).

Definition end_value s (x : Address * Z) (old : Z) : Z :=
  match live_slot s x with
  | Some c => cv_original c
  | None => if wiped s x.1 then 0 else old
  end.

(** [old] is what the database holds, and nothing if there is no account. *)
Definition stored a k (old : Z) : Prop :=
  read_storage d0 a k = Some old /\ (read_account d0 a = Some None -> old = 0) /\ is_Some (read_account d0 a).

(** The initial value of a slot is the one left after the erasure. *)
Lemma initial_left s a k c old : faithful s -> stored a k old -> committed_at s a k = Some c ->
  cv_initial c = if wiped s a then 0 else old.
Proof.
  intros Hf (Hr & Ho & [acc Ha]) Hc. pose proof (fa_db _ Hf) as Hd. unfold wiped.
  destruct (from_db s a) eqn:Ed.
  - pose proof (fa_initial _ Hf a k c Hc Ed) as Hi. rewrite Hd, Hr in Hi. injection Hi as ->.
    unfold from_db in Ed. rewrite Hd in Ed. by destruct (read_account d0 a) as [[]|], (incarnations s !! a).
  - rewrite (fa_fresh _ Hf a k c Hc Ed). unfold from_db in Ed. rewrite Hd, Ha in Ed.
    destruct acc; destruct (incarnations s !! a); try done. symmetry. by apply Ho.
Qed.

(** At the end of a transaction the value left is the one that the block state reads. *)
Lemma end_value_original s a k old : faithful s -> stored a k old ->
  match account_of s a with
  | Some _ => original_is s a k (end_value s (a, k) old)
  | None => end_value s (a, k) old = 0
  end.
Proof.
  intros Hf Hst. pose proof Hst as (Hr & Ho & [acc Ha]). pose proof (fa_db _ Hf) as Hd.
  unfold end_value, live_slot, account_of, effective, wiped. simpl.
  destruct (objects s !! a) as [o|] eqn:Eo; simpl.
  - destruct (current o) as [x|] eqn:Ec.
    + unfold original_is, from_db. rewrite Hd, Ha. destruct (committed_at s a k) as [c|]; [done|].
      destruct acc, (incarnations s !! a); simpl; try done. by rewrite Ho.
    + by destruct (fa_dead _ Hf a o Eo Ec) as [i ->].
  - rewrite Hd, Ha. destruct acc as [x|]; simpl.
    + unfold original_is, from_db. rewrite Hd, Ha.
      destruct (incarnations s !! a) as [i|] eqn:Ei; simpl.
      { pose proof (fa_incarnated _ Hf a Eo) as Hi. rewrite Ei, Hd, Ha in Hi. by specialize (Hi ltac:(by eexists)). }
      destruct (committed_at s a k) as [c|] eqn:Ec; [|done].
      rewrite (fa_clean _ Hf a k c Eo Ec), (initial_left s a k c old Hf Hst Ec). unfold wiped. by rewrite Ei.
    + destruct (incarnations s !! a); simpl; [done|]. by apply Ho.
Qed.

End block.
