(* ===== verification/Consensus.v ===== *)
(** Block headers, chain specifications and the consensus engine
    (src/models/header.rs, block.rs and chainspec.rs, src/consensus/mod.rs,
    base.rs, ethash/mod.rs and ethash/difficulty.rs).

    A fallible function returns [result]: a value, an error, or a panic.  The
    arithmetic of [u64], [u128] and [U256] is checked, an overflow being a
    panic.  The chain database is a class of the two readers the engine calls;
    the RLP codec, the trie root and the proof-of-work function are classes of
    functions of other crates. *)
From S2P Require Import Prelude Word Properties EvmState Transaction.
From Stdlib Require Import ZArith Lia Strings.Byte.
From stdpp Require Import base list option numbers gmap.
#[local] Open Scope Z_scope.

(** ** Headers and blocks *)

Module header.

Record BlockHeader := {
  parent_hash : Z;
  ommers_hash : Z;
  beneficiary : Address;
  state_root : Z;
  transactions_root : Z;
  receipts_root : Z;
  logs_bloom : Z;
  difficulty : Z;
  number : Z;
  gas_limit : Z;
  gas_used : Z;
  timestamp : Z;
  extra_data : Bytes;
  mix_hash : Z;
  nonce : Z;
  base_fee_per_gas : option Z;
}.

#[global] Instance BlockHeader_eq_dec : EqDecision BlockHeader.
Proof. solve_decision. Defined.

(** The ranges of the fields. *)
Definition wf (h : BlockHeader) : Prop :=
  is_u64 (number h) /\ is_u64 (gas_limit h) /\ is_u64 (gas_used h) /\
  is_u64 (timestamp h) /\ word (difficulty h) /\
  match base_fee_per_gas h with Some f => word f | None => True end.

End header.
Export (hints) header.
Abbreviation BlockHeader := header.BlockHeader.

Module partial.

Record PartialHeader := {
  parent_hash : Z;
  beneficiary : Address;
  state_root : Z;
  receipts_root : Z;
  logs_bloom : Z;
  difficulty : Z;
  number : Z;
  gas_limit : Z;
  gas_used : Z;
  timestamp : Z;
  extra_data : Bytes;
  mix_hash : Z;
  nonce : Z;
  base_fee_per_gas : option Z;
}.

(** [From<BlockHeader> for PartialHeader]. *)
Definition of_header (h : BlockHeader) : PartialHeader := {|
  parent_hash := header.parent_hash h;
  beneficiary := header.beneficiary h;
  state_root := header.state_root h;
  receipts_root := header.receipts_root h;
  logs_bloom := header.logs_bloom h;
  difficulty := header.difficulty h;
  number := header.number h;
  gas_limit := header.gas_limit h;
  gas_used := header.gas_used h;
  timestamp := header.timestamp h;
  extra_data := header.extra_data h;
  mix_hash := header.mix_hash h;
  nonce := header.nonce h;
  base_fee_per_gas := header.base_fee_per_gas h;
|}.

(** [BlockHeader::new]. *)
Definition to_header (p : PartialHeader) (ommers_hash transactions_root : Z) : BlockHeader := {|
  header.parent_hash := parent_hash p;
  header.ommers_hash := ommers_hash;
  header.beneficiary := beneficiary p;
  header.state_root := state_root p;
  header.transactions_root := transactions_root;
  header.receipts_root := receipts_root p;
  header.logs_bloom := logs_bloom p;
  header.difficulty := difficulty p;
  header.number := number p;
  header.gas_limit := gas_limit p;
  header.gas_used := gas_used p;
  header.timestamp := timestamp p;
  header.extra_data := extra_data p;
  header.mix_hash := mix_hash p;
  header.nonce := nonce p;
  header.base_fee_per_gas := base_fee_per_gas p;
|}.

End partial.
Abbreviation PartialHeader := partial.PartialHeader.

Record Block := {
  block_header : BlockHeader;
  block_transactions : list MessageWithSignature;
  block_ommers : list BlockHeader;
}.

Record BlockBody := {
  body_transactions : list MessageWithSignature;
  body_ommers : list BlockHeader;
}.

(** RLP encodings and the root of the ordered trie. *)
Class Codec := {
  rlp_encode_list : list BlockHeader -> Bytes;
  trie_encode : MessageWithSignature -> Bytes;
  ordered_trie_root : list Bytes -> Z;
}.

Section block.
Context `{Keccak} `{Codec}.

Definition Block_ommers_hash (ommers : list BlockHeader) : Z :=
  be_val (keccak_digest (rlp_encode_list ommers)).

Definition Block_transactions_root (l : list MessageWithSignature) : Z :=
  ordered_trie_root (trie_encode <$> l).

Definition Block_new (partial_header : PartialHeader)
    (transactions : list MessageWithSignature) (ommers : list BlockHeader) : Block := {|
  block_header := partial.to_header partial_header (Block_ommers_hash ommers)
    (Block_transactions_root transactions);
  block_transactions := transactions;
  block_ommers := ommers;
|}.

End block.

(** ** Errors *)

Inductive ValidationError :=
  | FutureBlock (now got : Z)
  | WrongStateRoot (expected got : Z)
  | WrongOmmersHash (expected got : Z)
  | WrongTransactionsRoot (expected got : Z)
  | WrongReceiptsRoot (expected got : Z)
  | WrongLogsBloom (expected got : Z)
  | UnknownParent
  | WrongDifficulty
  | GasAboveLimit (used limit : Z)
  | InvalidGasLimit
  | InvalidTimestamp (parent current : Z)
  | ExtraDataTooLong
  | WrongDaoExtraData
  | WrongBaseFee (expected got : option Z)
  | InvalidSeal
  | MissingSender
  | SenderNoEOA (sender : Address)
  | WrongNonce (account : Address) (expected got : Z)
  | IntrinsicGas
  | InsufficientFunds (account : Address) (available required : Z)
  | BlockGasLimitExceeded (available required : Z)
  | MaxFeeLessThanBase
  | MaxPriorityFeeGreaterThanMax
  | TooManyOmmers
  | InvalidOmmerHeader
  | NotAnOmmer
  | DuplicateOmmer
  | WrongBlockGas (expected got : Z) (transactions : list (Z * Z))
  | InvalidSignature
  | WrongChainId
  | UnsupportedTransactionType.

(** [anyhow::Error]: a validation error, an error of the database or of the
    system clock, the error of [engine_factory], or an error with a context: a
    validation error, or a message with the index of a transaction or the number
    of a block. *)
Inductive error :=
  | Validation (e : ValidationError)
  | StateError
  | ClockError
  | UnsupportedEngine
  | Context (context : ValidationError) (cause : error)
  | AtTransaction (index : Z) (cause : error)
  | AtBlock (number : Z) (cause : error).

Inductive result (A : Type) :=
  | ROk (a : A)
  | RErr (e : error)
  | RPanic.
Arguments ROk {A} _.
Arguments RErr {A} _.
Arguments RPanic {A}.

#[global] Instance result_ret : MRet result := fun A x => ROk x.
#[global] Instance result_bind : MBind result := fun A B k m =>
  match m with
  | ROk a => k a
  | RErr e => RErr e
  | RPanic => RPanic
  end.

Definition fail {A} (e : ValidationError) : result A := RErr (Validation e).

(** An arithmetic expression or [unwrap]. *)
Definition or_panic {A} (x : option A) : result A :=
  match x with Some a => ROk a | None => RPanic end.

(** A reader of the database. *)
Definition or_state_error {A} (x : option A) : result A :=
  match x with Some a => ROk a | None => RErr StateError end.

(** [ok_or(e)?]. *)
Definition ok_or {A} (x : option A) (e : ValidationError) : result A :=
  match x with Some a => ROk a | None => fail e end.

(** [.context(c)?]. *)
Definition context {A} (c : ValidationError) (m : result A) : result A :=
  match m with RErr e => RErr (Context c e) | _ => m end.

(** [return Err(..)] when the test holds. *)
Definition guard_err (b : bool) (e : ValidationError) : result unit :=
  if b then fail e else ROk tt.

(** ** Chain specifications

    A [BTreeMap] is the list of its entries in the order of the keys. *)

Abbreviation BTreeMap K V := (list (K * V)).

Definition btree_sorted {V} (m : BTreeMap Z V) : Prop :=
  forall i j a b, (i < j)%nat -> m !! i = Some a -> m !! j = Some b -> a.1 < b.1.

Record DifficultyBomb := { delays : BTreeMap Z Z }.

Definition get_delay_to (b : DifficultyBomb) (block_number : Z) : Z :=
  default 0 (last (omap (fun '(activation, delay_to) =>
    if activation <=? block_number then Some delay_to else None) (delays b))).

Definition switch_is_active (switch : option Z) (block_number : Z) : bool :=
  default u64_max switch <=? block_number.

Record Upgrades := {
  homestead : option Z;
  tangerine : option Z;
  spurious : option Z;
  byzantium : option Z;
  constantinople : option Z;
  petersburg : option Z;
  istanbul : option Z;
  berlin : option Z;
  london : option Z;
}.

Inductive ModExpVersion := ModExp198 | ModExp2565.

Inductive Precompile :=
  | EcRecover (base word : Z)
  | Sha256 (base word : Z)
  | Ripemd160 (base word : Z)
  | PrecompileIdentity (base word : Z)
  | ModExp (version : ModExpVersion)
  | AltBn128Add (price : Z)
  | AltBn128Mul (price : Z)
  | AltBn128Pairing (base pair : Z)
  | Blake2F (gas_per_round : Z).

Inductive Contract :=
  | ContractCode (code : Bytes)
  | ContractPrecompile (p : Precompile).

Record Params := {
  params_chain_id : Z;
  params_network_id : Z;
  min_gas_limit : Z;
}.

Inductive SealVerificationParams :=
  | SealClique (period epoch : Z)
  | SealEthash (duration_limit : Z) (block_reward : BTreeMap Z Z)
      (homestead_formula byzantium_formula : option Z)
      (difficulty_bomb : option DifficultyBomb) (skip_pow_verification : bool).

Record ConsensusParams := {
  seal_verification : SealVerificationParams;
  consensus_eip1559_block : option Z;
}.

(** The fields of a chain specification that consensus and execution read. *)
Record ChainSpec := {
  consensus : ConsensusParams;
  upgrades : Upgrades;
  params : Params;
  contracts : BTreeMap Z (gmap Address Contract);
  balances : BTreeMap Z (gmap Address Z);
}.

Record BlockExecutionSpec := {
  spec_revision : Revision;
  active_transitions : list Revision;
  spec_params : Params;
  system_contract_changes : gmap Address Contract;
  balance_changes : gmap Address Z;
}.

(** The array of forks, newest first. *)
Definition forks (u : Upgrades) : list (option Z * Revision) :=
  [(london u, London); (berlin u, Berlin); (istanbul u, Istanbul);
   (petersburg u, Petersburg); (constantinople u, Constantinople);
   (byzantium u, Byzantium); (spurious u, Spurious);
   (tangerine u, Tangerine); (homestead u, Homestead)].

(** The loop over the forks, which is left at the first active one. *)
Fixpoint select_fork (l : list (option Z * Revision)) (block_number : Z)
    (revision : Revision) (active : list Revision) : Revision * list Revision :=
  match l with
  | [] => (revision, active)
  | (Some fork_block, r) :: l =>
      if fork_block <=? block_number then
        (if Revision.eqb revision Frontier then r else revision,
         if block_number =? fork_block then r :: active else active)
      else select_fork l block_number revision active
  | (None, _) :: l => select_fork l block_number revision active
  end.

Definition btree_get {V} (m : BTreeMap Z V) (k : Z) : option V :=
  snd <$> head (filter (fun e => e.1 = k) m).

Definition collect_block_spec (c : ChainSpec) (block_number : Z) : BlockExecutionSpec :=
  let '(revision, active) := select_fork (forks (upgrades c)) block_number Frontier [] in {|
    spec_revision := revision;
    active_transitions := active;
    spec_params := params c;
    system_contract_changes :=
      foldl (fun acc '(bn, cs) => if bn <=? block_number then cs ∪ acc else acc)
        ∅ (contracts c);
    balance_changes := default ∅ (btree_get (balances c) block_number);
  |}.

(** [SealVerificationParams::gather_forks]. *)
Definition seal_gather_forks (p : SealVerificationParams) : gset Z :=
  match p with
  | SealEthash _ block_reward homestead_formula byzantium_formula difficulty_bomb _ =>
      list_to_set (block_reward.*1 ++ option_list homestead_formula ++
        option_list byzantium_formula ++
        default [] ((fun v => (delays v).*1) <$> difficulty_bomb))
  | SealClique _ _ => ∅
  end.

Definition gather_forks (c : ChainSpec) : gset Z :=
  let u := upgrades c in
  (list_to_set (omap id [homestead u; tangerine u; spurious u; byzantium u;
     constantinople u; petersburg u; istanbul u; berlin u; london u]) ∪
   list_to_set (option_list (consensus_eip1559_block (consensus c))) ∪
   seal_gather_forks (seal_verification (consensus c)) ∪
   list_to_set (contracts c).*1 ∪ list_to_set (balances c).*1) ∖ {[ 0 ]}.

(** ** Difficulty *)

Definition MIN_DIFFICULTY : Z := 131072.

Record BlockDifficultyBombData := { delay_to : Z }.

(** [U256::ONE << n]; a shift by the width or more overflows. *)
Definition one_shl (n : Z) : option Z := if n <? 256 then Some (Z.shiftl 1 n) else None.

Definition canonical_difficulty (block_number block_timestamp parent_difficulty
    parent_timestamp : Z) (parent_has_uncles byzantium_formula homestead_formula : bool)
    (difficulty_bomb : option BlockDifficultyBombData) : option Z :=
  let x := Z.shiftr parent_difficulty 11 in
  difficulty ← (
    if byzantium_formula then
      c ← u256_checked (x * 99);
      difficulty ← unsigned_sub parent_difficulty c;
      let y := if parent_has_uncles then 2 else 1 in
      t ← unsigned_sub block_timestamp parent_timestamp;
      let z := t / 9 in
      if z <? 99 + y then
        c ← u256_checked ((99 + y - z) * x);
        u256_checked (difficulty + c)
      else Some difficulty
    else if homestead_formula then
      c ← u256_checked (x * 99);
      difficulty ← unsigned_sub parent_difficulty c;
      t ← unsigned_sub block_timestamp parent_timestamp;
      let z := t / 10 in
      if z <? 100 then
        c ← u256_checked ((100 - z) * x);
        u256_checked (difficulty + c)
      else Some difficulty
    else
      t ← unsigned_sub block_timestamp parent_timestamp;
      if t <? 13 then u256_checked (parent_difficulty + x)
      else unsigned_sub parent_difficulty x);
  difficulty ← (
    match difficulty_bomb with
    | Some bomb_config =>
        let n := Z.max 0 (block_number - delay_to bomb_config) / 100000 in
        if 2 <=? n then
          e ← one_shl (n - 2);
          u256_checked (difficulty + e)
        else Some difficulty
    | None => Some difficulty
    end);
  Some (Z.max difficulty MIN_DIFFICULTY).

(** ** The common part of the engines *)

(** The methods of the trait [State] that validation calls; [None] is [Err]. *)
Class ChainState (DB : Type) := {
  read_header : DB -> Z -> Z -> option (option BlockHeader);
  read_body : DB -> Z -> Z -> option (option BlockBody);
}.

Record ConsensusEngineBase := {
  chain_id : Z;
  eip1559_block : option Z;
}.

Definition pre_validate_transaction (t : Message) (canonical_chain_id : Z)
    (base_fee_per_gas : option Z) : option ValidationError :=
  if (match txn.chain_id t with
      | Some chain_id => negb (chain_id =? canonical_chain_id)
      | None => false
      end) then Some WrongChainId
  else if (match base_fee_per_gas with
           | Some base_fee_per_gas => txn.max_fee_per_gas t <? base_fee_per_gas
           | None => false
           end) then Some MaxFeeLessThanBase
  else if txn.max_fee_per_gas t <? txn.max_priority_fee_per_gas t then
    Some MaxPriorityFeeGreaterThanMax
  else None.

(** Division at [U256]. *)
Definition u256_div (a b : Z) : option Z := if b =? 0 then None else Some (a / b).

Definition expected_base_fee_per_gas (self : ConsensusEngineBase)
    (header parent : BlockHeader) : option (option Z) :=
  match eip1559_block self with
  | None => Some None
  | Some fork_block =>
      if header.number header <? fork_block then Some None
      else if header.number header =? fork_block then Some (Some param.INITIAL_BASE_FEE)
      else
        let parent_gas_target := header.gas_limit parent / param.ELASTICITY_MULTIPLIER in
        parent_base_fee_per_gas ← header.base_fee_per_gas parent;
        if header.gas_used parent =? parent_gas_target then
          Some (Some parent_base_fee_per_gas)
        else if parent_gas_target <? header.gas_used parent then
          gas_used_delta ← unsigned_sub (header.gas_used parent) parent_gas_target;
          m ← u256_checked (parent_base_fee_per_gas * gas_used_delta);
          d ← u256_div m parent_gas_target;
          d ← u256_div d param.BASE_FEE_MAX_CHANGE_DENOMINATOR;
          let base_fee_per_gas_delta := Z.max 1 d in
          r ← u256_checked (parent_base_fee_per_gas + base_fee_per_gas_delta);
          Some (Some r)
        else
          gas_used_delta ← unsigned_sub parent_gas_target (header.gas_used parent);
          m ← u256_checked (parent_base_fee_per_gas * gas_used_delta);
          d ← u256_div m parent_gas_target;
          base_fee_per_gas_delta ← u256_div d param.BASE_FEE_MAX_CHANGE_DENOMINATOR;
          Some (Some (Z.max 0 (parent_base_fee_per_gas - base_fee_per_gas_delta)))
  end.

(** The system clock is [now], [None] before the epoch. *)
Definition validate_block_header (now : option Z) (self : ConsensusEngineBase)
    (header parent : BlockHeader) (with_future_timestamp_check : bool) : result unit :=
  _ ← (if with_future_timestamp_check then
         match now with
         | None => RErr ClockError
         | Some now =>
             guard_err (now <? header.timestamp header)
               (FutureBlock now (header.timestamp header))
         end
       else ROk tt);
  _ ← guard_err (header.gas_limit header <? header.gas_used header)
        (GasAboveLimit (header.gas_used header) (header.gas_limit header));
  _ ← guard_err (header.gas_limit header <? 5000) InvalidGasLimit;
  _ ← guard_err (i64_max <? header.gas_limit header) InvalidGasLimit;
  _ ← guard_err (32 <? blen (header.extra_data header)) ExtraDataTooLong;
  _ ← guard_err (header.timestamp header <=? header.timestamp parent)
        (InvalidTimestamp (header.timestamp parent) (header.timestamp header));
  parent_gas_limit ← (
    match eip1559_block self with
    | Some fork_block =>
        if fork_block =? header.number header then
          or_panic (u64_checked (header.gas_limit parent * param.ELASTICITY_MULTIPLIER))
        else ROk (header.gas_limit parent)
    | None => ROk (header.gas_limit parent)
    end);
  gas_delta ← or_panic (
    if parent_gas_limit <? header.gas_limit header
    then unsigned_sub (header.gas_limit header) parent_gas_limit
    else unsigned_sub parent_gas_limit (header.gas_limit header));
  _ ← guard_err (parent_gas_limit / 1024 <=? gas_delta) InvalidGasLimit;
  expected ← or_panic (expected_base_fee_per_gas self header parent);
  guard_err (negb (bool_decide (header.base_fee_per_gas header = expected)))
    (WrongBaseFee expected (header.base_fee_per_gas header)).

Section engine.
Context {DB : Type} `{ChainState DB} (now : option Z) (self : ConsensusEngineBase) (state : DB).

Definition get_parent_header (header : BlockHeader) : result (option BlockHeader) :=
  match unsigned_sub (header.number header) 1 with
  | Some parent_number =>
      or_state_error (read_header state parent_number (header.parent_hash header))
  | None => ROk None
  end.

(** Returns the answer and the ommers collected on the way. *)
Fixpoint is_kin (branch_header mainline_header : BlockHeader) (mainline_hash : Z)
    (n : nat) (old_ommers : list BlockHeader) : result (bool * list BlockHeader) :=
  match n with
  | O => ROk (false, old_ommers)
  | S n' =>
      if decide (branch_header = mainline_header) then ROk (false, old_ommers)
      else
        body ← or_state_error (read_body state (header.number mainline_header) mainline_hash);
        match body with
        | None => ROk (false, old_ommers)
        | Some mainline_body =>
            let old_ommers := old_ommers ++ body_ommers mainline_body in
            mainline_parent ← get_parent_header mainline_header;
            branch_parent ← get_parent_header branch_header;
            match mainline_parent with
            | None => ROk (false, old_ommers)
            | Some mainline_parent =>
                if (match branch_parent with
                    | Some branch_parent => bool_decide (branch_parent = mainline_parent)
                    | None => false
                    end) then ROk (true, old_ommers)
                else is_kin branch_header mainline_parent (header.parent_hash mainline_header)
                       n' old_ommers
            end
        end
  end.

(** The body of the loop over the ommers. *)
Definition validate_ommer (header parent ommer : BlockHeader) : result unit :=
  ommer_parent ← get_parent_header ommer;
  ommer_parent ← ok_or ommer_parent UnknownParent;
  _ ← context InvalidOmmerHeader (validate_block_header now self ommer ommer_parent false);
  kin ← is_kin ommer parent (header.parent_hash header) 6 [];
  if negb kin.1 then fail NotAnOmmer
  else guard_err (existsb (fun oo => bool_decide (oo = ommer)) kin.2) DuplicateOmmer.

Fixpoint for_each {A} (f : A -> result unit) (l : list A) : result unit :=
  match l with
  | [] => ROk tt
  | x :: l => _ ← f x; for_each f l
  end.

Definition pre_validate_block `{Keccak} `{Codec} (block : Block) : result unit :=
  let header := block_header block in
  let expected_ommers_hash := Block_ommers_hash (block_ommers block) in
  _ ← guard_err (negb (header.ommers_hash header =? expected_ommers_hash))
        (WrongOmmersHash expected_ommers_hash (header.ommers_hash header));
  let expected_transactions_root := Block_transactions_root (block_transactions block) in
  _ ← guard_err (negb (header.transactions_root header =? expected_transactions_root))
        (WrongTransactionsRoot expected_transactions_root (header.transactions_root header));
  _ ← guard_err (2 <? blen (block_ommers block)) TooManyOmmers;
  _ ← (if blen (block_ommers block) =? 2 then
         o0 ← or_panic (block_ommers block !! 0%nat);
         o1 ← or_panic (block_ommers block !! 1%nat);
         guard_err (bool_decide (o0 = o1)) DuplicateOmmer
       else ROk tt);
  parent ← get_parent_header header;
  parent ← ok_or parent UnknownParent;
  _ ← for_each (validate_ommer header parent) (block_ommers block);
  for_each (fun t =>
      match pre_validate_transaction (message t) (chain_id self)
              (header.base_fee_per_gas header) with
      | Some e => fail e
      | None => ROk tt
      end) (block_transactions block).

End engine.

(** ** Ethash *)

(** Keccak-256 of the RLP encoding of the empty list. *)
Definition EMPTY_LIST_HASH : Z :=
  0x1dcc4de8dec75d7aab85b567b6ccd41ad312451b948a7413f0a142fd40d49347.

Module ethash.

Record Ethash := {
  base : ConsensusEngineBase;
  duration_limit : Z;
  block_reward : BTreeMap Z Z;
  homestead_formula : option Z;
  byzantium_formula : option Z;
  difficulty_bomb : option DifficultyBomb;
  skip_pow_verification : bool;
}.

(** The proof of work: [hashimoto] of the light DAG of a block number gives the
    mix hash and the final hash; [cross_boundary] is the target of a difficulty. *)
Class ProofOfWork := {
  hashimoto : Z -> Z -> Z -> Z * Z;
  cross_boundary : Z -> Z;
  truncated_hash : BlockHeader -> Z;
}.

Inductive FinalizationChange := Reward (address : Address) (amount : Z).

Section ethash.
Context {DB : Type} `{ChainState DB} (now : option Z) (self : Ethash) (state : DB).

Definition ethash_pre_validate_block `{Keccak} `{Codec} (block : Block) : result unit :=
  pre_validate_block now (base self) state block.

Definition ethash_validate_block_header (header : BlockHeader) (with_future_timestamp_check : bool)
    : result unit :=
  parent ← get_parent_header state header;
  parent ← ok_or parent UnknownParent;
  _ ← validate_block_header now (base self) header parent with_future_timestamp_check;
  let parent_has_uncles := negb (header.ommers_hash parent =? EMPTY_LIST_HASH) in
  difficulty ← or_panic (canonical_difficulty
    (header.number header) (header.timestamp header)
    (header.difficulty parent) (header.timestamp parent)
    parent_has_uncles
    (switch_is_active (byzantium_formula self) (header.number header))
    (switch_is_active (homestead_formula self) (header.number header))
    ((fun b => {| delay_to := get_delay_to b (header.number header) |}) <$> difficulty_bomb self));
  guard_err (negb (difficulty =? header.difficulty header)) WrongDifficulty.

Definition validate_seal `{ProofOfWork} (header : BlockHeader) : result unit :=
  if negb (skip_pow_verification self) then
    let '(mixh, final_hash) :=
      hashimoto (header.number header) (truncated_hash header) (header.nonce header) in
    if negb (mixh =? header.mix_hash header) then fail InvalidSeal
    else guard_err (cross_boundary (header.difficulty header) <? final_hash) InvalidSeal
  else ROk tt.

Definition reward_of (revision : Revision) : Z :=
  if Revision.geb revision Constantinople then param.BLOCK_REWARD_CONSTANTINOPLE
  else if Revision.geb revision Byzantium then param.BLOCK_REWARD_BYZANTIUM
  else param.BLOCK_REWARD_FRONTIER.

(** The loop over the ommers: the changes in order and the miner's reward. *)
Fixpoint ommer_rewards (block_number block_reward miner_reward : Z)
    (changes : list FinalizationChange) (ommers : list BlockHeader)
    : option (list FinalizationChange * Z) :=
  match ommers with
  | [] => Some (changes, miner_reward)
  | ommer :: ommers =>
      s ← u64_checked (8 + header.number ommer);
      d ← unsigned_sub s block_number;
      m ← u256_checked (d * block_reward);
      let ommer_reward := Z.shiftr m 3 in
      miner_reward ← u128_checked (miner_reward + block_reward / 32);
      ommer_rewards block_number block_reward miner_reward
        (changes ++ [Reward (header.beneficiary ommer) ommer_reward]) ommers
  end.

Definition finalize (header : PartialHeader) (ommers : list BlockHeader) (revision : Revision)
    : result (list FinalizationChange) :=
  let block_reward := reward_of revision in
  '(changes, miner_reward) ← or_panic
    (ommer_rewards (partial.number header) block_reward block_reward [] ommers);
  ROk (changes ++ [Reward (partial.beneficiary header) miner_reward]).

Definition get_beneficiary (header : BlockHeader) : result Address :=
  ROk (header.beneficiary header).

End ethash.

(** [None] is the error of an unsupported engine. *)
Definition engine_factory (c : ChainSpec) : option Ethash :=
  match seal_verification (consensus c) with
  | SealEthash duration_limit block_reward homestead_formula byzantium_formula
      difficulty_bomb skip_pow_verification =>
      Some {| base := {| chain_id := params_chain_id (params c);
                         eip1559_block := consensus_eip1559_block (consensus c) |};
              duration_limit := duration_limit;
              block_reward := block_reward;
              homestead_formula := homestead_formula;
              byzantium_formula := byzantium_formula;
              difficulty_bomb := difficulty_bomb;
              skip_pow_verification := skip_pow_verification |}
  | SealClique _ _ => None
  end.

End ethash.
