(* ===== verification/ConsensusSpec.v ===== *)
(** Correctness of the consensus engine: the difficulty and base-fee formulas,
    header validity, kinship of ommers, rewards, prices and revisions. *)
From S2P Require Import Prelude Word Properties EvmState Transaction Consensus.
From Stdlib Require Import ZArith Lia Strings.Byte.
From stdpp Require Import base list option numbers gmap.
#[local] Open Scope Z_scope.

(** ** The monad *)

Lemma bind_guard {B} b e (k : unit -> result B) :
  (guard_err b e ≫= k) = if b then fail e else k tt.
Proof. by destruct b. Qed.

Lemma bind_ROk {A B} (x : A) (k : A -> result B) : (ROk x ≫= k) = k x.
Proof. done. Qed.

Lemma bind_result_ok {A B} (m : result A) (k : A -> result B) b :
  (m ≫= k) = ROk b <-> exists a, m = ROk a /\ k a = ROk b.
Proof.
  destruct m as [a| |]; simpl; split.
  - intros E. by exists a.
  - by intros (a' & [= <-] & E).
  - done.
  - by intros (? & ? & ?).
  - done.
  - by intros (? & ? & ?).
Qed.

Lemma guard_ok b e : guard_err b e = ROk tt <-> b = false.
Proof. by destruct b. Qed.

(** ** Difficulty *)

(** The factor of the adjustment by the time since the parent. *)
Definition adjustment (elapsed : Z) (parent_has_uncles byzantium homestead : bool) : Z :=
  if byzantium then Z.max ((if parent_has_uncles then 2 else 1) - elapsed / 9) (-99)
  else if homestead then Z.max (1 - elapsed / 10) (-99)
  else if elapsed <? 13 then 1 else -1.

(** The period of the bomb, counted from the block it is delayed to. *)
Definition bomb_period (block_number delay : Z) : Z := Z.max 0 (block_number - delay) / 100000.

Definition bomb (block_number : Z) (b : option BlockDifficultyBombData) : Z :=
  match b with
  | Some b =>
      let n := bomb_period block_number (delay_to b) in
      if 2 <=? n then 2 ^ (n - 2) else 0
  | None => 0
  end.

Definition difficulty_spec (block_number block_timestamp parent_difficulty
    parent_timestamp : Z) (parent_has_uncles byzantium homestead : bool)
    (b : option BlockDifficultyBombData) : Z :=
  Z.max MIN_DIFFICULTY
    (parent_difficulty + parent_difficulty / 2048 *
       adjustment (block_timestamp - parent_timestamp) parent_has_uncles byzantium homestead +
     bomb block_number b).

(** The range in which the computation does not overflow: a difficulty below
    [2^255] and a bomb that has been delayed to less than 25.6 million blocks
    ago. *)
Definition bomb_in_range (block_number : Z) (b : option BlockDifficultyBombData) : Prop :=
  match b with
  | Some b => bomb_period block_number (delay_to b) <= 256
  | None => True
  end.

Lemma bomb_range block_number b : bomb_in_range block_number b -> 0 <= bomb block_number b <= 2 ^ 254.
Proof.
  destruct b as [b|]; simpl; [|intros; split; [lia|by apply Z.pow_nonneg]].
  intros H. case_if; [|split; [lia|by apply Z.pow_nonneg]].
  split; [apply Z.pow_nonneg; lia|]. apply Z.pow_le_mono_r; lia.
Qed.

Lemma div2048 p : Z.shiftr p 11 = p / 2048.
Proof. by rewrite Z.shiftr_div_pow2. Qed.

Lemma canonical_difficulty_spec block_number ts pd pts uncles byz hom b :
  0 <= pd < 2 ^ 255 -> pts <= ts -> bomb_in_range block_number b ->
  canonical_difficulty block_number ts pd pts uncles byz hom b =
  Some (difficulty_spec block_number ts pd pts uncles byz hom b).
Proof.
  intros Hp Ht Hb. unfold canonical_difficulty, difficulty_spec. rewrite div2048.
  pose proof (Z.mul_div_le pd 2048 ltac:(lia)). pose proof (Z.div_pos pd 2048 ltac:(lia)).
  pose proof (bomb_range _ _ Hb). generalize dependent (pd / 2048). intros x Hx Hx0.
  specialize (Hx0 ltac:(lia)).
  assert (2 ^ 256 = 2 * 2 ^ 255) as E by done. assert (2 ^ 255 = 2 * 2 ^ 254) as E' by done.
  set (el := ts - pts). assert (0 <= el) by lia.
  assert (forall m, -99 <= m <= 2 ->
    (Some (pd + x * m) ≫= fun difficulty =>
       (match b with
        | Some bomb_config =>
            if 2 <=? Z.max 0 (block_number - delay_to bomb_config) / 100000
            then e ← one_shl (Z.max 0 (block_number - delay_to bomb_config) / 100000 - 2);
                 u256_checked (difficulty + e)
            else Some difficulty
        | None => Some difficulty
        end) ≫= fun difficulty => Some (Z.max difficulty MIN_DIFFICULTY)) =
    Some (Z.max MIN_DIFFICULTY (pd + x * m + bomb block_number b))) as Hbomb.
  { intros m Hm. rewrite bind_Some_eq. destruct b as [b|]; simpl in *.
    - fold (bomb_period block_number (delay_to b)). case_if.
      + unfold one_shl. rewrite (proj2 (Z.ltb_lt _ _)) by lia. simpl.
        rewrite Z.shiftl_1_l, bind_u256 by nia. f_equal. lia.
      + simpl. f_equal. lia.
    - f_equal. lia. }
  assert (0 <= el / 9 /\ 0 <= el / 10) as [? ?] by (split; apply Z.div_pos; lia).
  unfold adjustment. destruct byz; [|destruct hom].
  - rewrite bind_u256 by nia. rewrite bind_sub by nia. rewrite bind_sub by lia. fold el.
    rewrite <- Hbomb by (destruct uncles; lia). f_equal. destruct uncles; case_if;
      rewrite ?bind_u256, ?u256_checked_some by nia; f_equal; nia.
  - rewrite bind_u256 by nia. rewrite bind_sub by nia. rewrite bind_sub by lia. fold el.
    rewrite <- Hbomb by lia. f_equal. case_if;
      rewrite ?bind_u256, ?u256_checked_some by nia; f_equal; nia.
  - rewrite bind_sub by lia. fold el.
    rewrite <- Hbomb by (case_if; lia). f_equal. case_if;
      rewrite ?u256_checked_some, ?unsigned_sub_some by nia; f_equal; lia.
Qed.

(** On the range in which [U256] does not overflow, the difficulty is that
    of the parent plus 1/2048 of it times the adjustment of the active formula
    (EIP-100 from Byzantium on, EIP-2 from Homestead on), plus the bomb, which
    doubles every 100,000 blocks after the block it is delayed to (EIP-649), and
    at least the minimum difficulty. *)
Theorem difficulty_formula block_number ts pd pts uncles byz hom b :
  0 <= pd < 2 ^ 255 -> pts <= ts -> bomb_in_range block_number b ->
  canonical_difficulty block_number ts pd pts uncles byz hom b =
  Some (Z.max MIN_DIFFICULTY
    (pd + pd / 2048 * adjustment (ts - pts) uncles byz hom + bomb block_number b)).
Proof. apply canonical_difficulty_spec. Qed.

(** The two blocks of the main network on which the code is tested. *)
Lemma difficulty_formula_witness :
  canonical_difficulty 13636066 1637194138 11578490198380085 1637194129 false true true
    (Some {| delay_to := 9700000 |}) = Some 11578627637333557 /\
  canonical_difficulty 0x33e140 0x04bdbdaf 0x7268db7b46b0b154 0x04bdbdaf false false true
    (Some {| delay_to := 0 |}) = Some 0x72772897b619876a.
Proof.
  split.
  - apply (difficulty_formula 13636066 1637194138 11578490198380085 1637194129 false true true
      (Some {| delay_to := 9700000 |})); done.
  - apply (difficulty_formula 0x33e140 0x04bdbdaf 0x7268db7b46b0b154 0x04bdbdaf false false true
      (Some {| delay_to := 0 |})); done.
Defined.

(** ** Base fee *)

(** The update of the base fee [f] for a parent that used [used] gas, with the
    target [t] (EIP-1559). *)
Definition base_fee_update (f t used : Z) : Z :=
  if used <=? t then f - f * (t - used) / t / 8
  else f + Z.max 1 (f * (used - t) / t / 8).

Definition base_fee_spec (self : ConsensusEngineBase) (header parent : BlockHeader) : option Z :=
  match eip1559_block self with
  | None => None
  | Some fork_block =>
      if header.number header <? fork_block then None
      else if header.number header =? fork_block then Some param.INITIAL_BASE_FEE
      else f ← header.base_fee_per_gas parent;
           Some (base_fee_update f (header.gas_limit parent / 2) (header.gas_used parent))
  end.

(** After the fork, the parent has a base fee, far from overflow. *)
Definition fee_in_range (self : ConsensusEngineBase) (header parent : BlockHeader) : Prop :=
  match eip1559_block self with
  | Some fork_block =>
      fork_block < header.number header ->
      exists f, header.base_fee_per_gas parent = Some f /\ 0 <= f < 2 ^ 191
  | None => True
  end.

Lemma div_bound a b q : 0 < b -> 0 <= q -> 0 <= a <= q * b -> 0 <= a / b <= q.
Proof. intros. split; [apply Z.div_pos; lia|]. apply Z.div_le_upper_bound; lia. Qed.

Lemma expected_base_fee_ok self header parent :
  fee_in_range self header parent -> is_u64 (header.gas_used parent) ->
  2 <= header.gas_limit parent < 2 ^ 64 ->
  expected_base_fee_per_gas self header parent = Some (base_fee_spec self header parent).
Proof.
  intros Hf [? Hu] Hl. unfold expected_base_fee_per_gas, base_fee_spec, fee_in_range in *.
  destruct (eip1559_block self) as [fork|]; [|done].
  case_if; [done|]. case_if; [done|]. destruct (Hf ltac:(lia)) as (f & -> & Hr).
  unfold param.ELASTICITY_MULTIPLIER, param.BASE_FEE_MAX_CHANGE_DENOMINATOR.
  assert (1 <= header.gas_limit parent / 2 < 2 ^ 64)
    by (split; [apply Z.div_le_lower_bound|apply Z.div_lt_upper_bound]; lia).
  generalize dependent (header.gas_limit parent / 2). intros t Ht.
  generalize dependent (header.gas_used parent). intros used ? Hu.
  rewrite !bind_Some_eq. unfold base_fee_update, u256_div.
  assert (forall d, 0 <= d < 2 ^ 64 -> 0 <= f * d < 2 ^ 255) as Hm
    by (intros d Hd; change (2 ^ 255) with (2 ^ 191 * 2 ^ 64); nia).
  assert (2 ^ 255 < 2 ^ 256) by done.
  assert (forall d, 0 <= d < 2 ^ 64 -> 0 <= f * d / t / 8 <= 2 ^ 255) as Hd.
  { intros d Hd. specialize (Hm d Hd).
    apply div_bound; [lia..|]. destruct (div_bound (f * d) t (2 ^ 255)); nia. }
  rewrite (proj2 (Z.eqb_neq t 0)) by lia. change (8 =? 0) with false. cbv iota.
  assert (2 ^ 255 + 2 ^ 191 + 1 < 2 ^ 256) by done.
  case_if; [|case_if].
  - subst. rewrite (proj2 (Z.leb_le _ _)), Z.sub_diag, Z.mul_0_r by lia.
    rewrite !Z.div_0_l by lia. by rewrite Z.sub_0_r.
  - rewrite (proj2 (Z.leb_gt _ _)) by lia. rewrite bind_sub by lia.
    specialize (Hm (used - t) ltac:(lia)). specialize (Hd (used - t) ltac:(lia)).
    rewrite bind_u256 by lia. rewrite !bind_Some_eq. rewrite bind_u256 by lia. done.
  - rewrite (proj2 (Z.leb_le _ _)) by lia. rewrite bind_sub by lia.
    specialize (Hm (t - used) ltac:(lia)). rewrite bind_u256 by lia. rewrite !bind_Some_eq.
    do 2 f_equal. rewrite Z.max_r; [done|].
    assert (f * (t - used) / t / 8 <= f); [|lia].
    apply div_bound; [lia..|]. destruct (div_bound (f * (t - used)) t f); nia.
Qed.

Lemma base_fee_update_mono f t u1 u2 : 0 <= f -> 0 < t -> u1 <= u2 ->
  base_fee_update f t u1 <= base_fee_update f t u2.
Proof.
  intros Hf Ht Hu. unfold base_fee_update.
  assert (forall a b, a <= b -> a / t / 8 <= b / t / 8) as Hdiv
    by (intros; apply Z.div_le_mono; [lia|]; apply Z.div_le_mono; lia).
  repeat case_if; try lia.
  - pose proof (Hdiv (f * (t - u2)) (f * (t - u1)) ltac:(nia)). lia.
  - pose proof (Hdiv 0 (f * (t - u1)) ltac:(nia)). rewrite !Z.div_0_l in * by lia. lia.
  - pose proof (Hdiv (f * (u1 - t)) (f * (u2 - t)) ltac:(nia)). lia.
Qed.

Lemma base_fee_update_bounds f t used : 0 <= f -> 0 < t -> 0 <= used ->
  (used < t -> f - f / 8 <= base_fee_update f t used <= f) /\
  (used = t -> base_fee_update f t used = f) /\
  (t < used <= 2 * t -> f < base_fee_update f t used <= f + Z.max 1 (f / 8)).
Proof.
  intros Hf Ht Hu. unfold base_fee_update.
  assert (forall d, 0 <= d <= t -> 0 <= f * d / t / 8 <= f / 8) as Hd.
  { intros d Hd. destruct (div_bound (f * d) t f); [nia..|].
    split; [apply Z.div_pos; lia|apply Z.div_le_mono; lia]. }
  splits; intros H; case_if; try lia.
  - specialize (Hd (t - used)). lia.
  - subst. rewrite Z.sub_diag, Z.mul_0_r, !Z.div_0_l; lia.
  - specialize (Hd (used - t)). lia.
Qed.

(** After the fork block of EIP-1559 the expected base fee exists and moves
    with the gas the parent used: it is unchanged at the target (half of the
    gas limit), at most one eighth lower below it, at least one higher above
    it and by no more than the larger of one and an eighth; a parent that used
    more gas never gives a lower fee.  No step of the computation overflows. *)
Theorem base_fee_moves_with_usage self header p1 p2 f fork :
  eip1559_block self = Some fork -> fork < header.number header ->
  header.base_fee_per_gas p1 = Some f -> header.base_fee_per_gas p2 = Some f ->
  0 <= f < 2 ^ 191 ->
  header.gas_limit p1 = header.gas_limit p2 -> 2 <= header.gas_limit p1 < 2 ^ 64 ->
  0 <= header.gas_used p1 <= header.gas_used p2 -> header.gas_used p2 < 2 ^ 64 ->
  exists r1 r2,
    expected_base_fee_per_gas self header p1 = Some (Some r1) /\
    expected_base_fee_per_gas self header p2 = Some (Some r2) /\ r1 <= r2 /\
    let t := header.gas_limit p1 / param.ELASTICITY_MULTIPLIER in
    (header.gas_used p1 < t -> f - f / 8 <= r1 <= f) /\
    (header.gas_used p1 = t -> r1 = f) /\
    (t < header.gas_used p1 <= 2 * t -> f < r1 <= f + Z.max 1 (f / 8)).
Proof.
  intros Hfork Hn H1 H2 Hf Hgl Hl Hu Hu2.
  assert (forall p, header.base_fee_per_gas p = Some f -> header.gas_limit p = header.gas_limit p1 ->
    0 <= header.gas_used p < 2 ^ 64 -> expected_base_fee_per_gas self header p =
    Some (Some (base_fee_update f (header.gas_limit p1 / 2) (header.gas_used p)))) as He.
  { intros p Hp Hg Hup. rewrite expected_base_fee_ok; [|..|done|lia].
    - unfold base_fee_spec. rewrite Hfork, Hp, Hg. do 2 (case_if; [lia|]). done.
    - unfold fee_in_range. rewrite Hfork. eauto. }
  assert (1 <= header.gas_limit p1 / 2) by (apply Z.div_le_lower_bound; lia).
  do 2 eexists. split; [apply He; [done..|lia]|]. split; [apply He; [done..|lia]|].
  split; [apply base_fee_update_mono; lia|]. apply base_fee_update_bounds; lia.
Qed.

(** A header with the given fields, the others being zero. *)
Definition sample_header (parent_hash number gas_limit gas_used timestamp difficulty : Z)
    (fee : option Z) : BlockHeader := {|
  header.parent_hash := parent_hash;
  header.ommers_hash := EMPTY_LIST_HASH;
  header.beneficiary := 7;
  header.state_root := 0;
  header.transactions_root := 0;
  header.receipts_root := 0;
  header.logs_bloom := 0;
  header.difficulty := difficulty;
  header.number := number;
  header.gas_limit := gas_limit;
  header.gas_used := gas_used;
  header.timestamp := timestamp;
  header.extra_data := [];
  header.mix_hash := 0;
  header.nonce := 0;
  header.base_fee_per_gas := fee;
|}.

Definition sample_base : ConsensusEngineBase := {| chain_id := 1; eip1559_block := Some 5 |}.

Lemma base_fee_moves_with_usage_witness :
  exists r1 r2,
    expected_base_fee_per_gas sample_base (sample_header 0 7 30000000 0 100 0 None)
      (sample_header 0 6 30000000 10000000 80 0 (Some 1000000000)) = Some (Some r1) /\
    expected_base_fee_per_gas sample_base (sample_header 0 7 30000000 0 100 0 None)
      (sample_header 0 6 30000000 30000000 80 0 (Some 1000000000)) = Some (Some r2) /\
    r1 <= r2.
Proof.
  destruct (base_fee_moves_with_usage sample_base (sample_header 0 7 30000000 0 100 0 None)
    (sample_header 0 6 30000000 10000000 80 0 (Some 1000000000))
    (sample_header 0 6 30000000 30000000 80 0 (Some 1000000000)) 1000000000 5)
    as (r1 & r2 & E1 & E2 & Hr & _); [done..|].
  exists r1, r2. exact (conj E1 (conj E2 Hr)).
Defined.

(** ** Header validity *)

(** The gas limit that the new one is compared with. *)
Definition reference_gas_limit (self : ConsensusEngineBase) (header parent : BlockHeader) : Z :=
  if decide (eip1559_block self = Some (header.number header))
  then 2 * header.gas_limit parent else header.gas_limit parent.

(** Equations (50) of the Yellow Paper, less the difficulty, with EIP-1559. *)
Definition header_valid (self : ConsensusEngineBase) (header parent : BlockHeader) : Prop :=
  header.gas_used header <= header.gas_limit header /\
  5000 <= header.gas_limit header <= i64_max /\
  blen (header.extra_data header) <= 32 /\
  header.timestamp parent < header.timestamp header /\
  Z.abs (header.gas_limit header - reference_gas_limit self header parent) <
    reference_gas_limit self header parent / 1024 /\
  header.base_fee_per_gas header = base_fee_spec self header parent.

(** What the validation of a header relies on from its parent. *)
Definition parent_ok (self : ConsensusEngineBase) (header parent : BlockHeader) : Prop :=
  header.wf parent /\ header.gas_limit parent <= i64_max /\ fee_in_range self header parent.

Definition not_future (now : option Z) (header : BlockHeader) (check : bool) : Prop :=
  check = true -> exists t, now = Some t /\ header.timestamp header <= t.

Lemma guard_case_dep {B} (P Q : Prop) (b : bool) e (k : result B) x :
  (b = true -> ~ P) -> (b = false -> P) ->
  (b = false -> k <> RPanic /\ (k = ROk x <-> Q)) ->
  (if b then fail e else k) <> RPanic /\ ((if b then fail e else k) = ROk x <-> P /\ Q).
Proof. intros ? ? ?. destruct b; split; naive_solver. Qed.

Lemma guard_case {B} (P Q : Prop) (b : bool) e (k : result B) x :
  (b = true -> ~ P) -> (b = false -> P) ->
  k <> RPanic /\ (k = ROk x <-> Q) ->
  (if b then fail e else k) <> RPanic /\ ((if b then fail e else k) = ROk x <-> P /\ Q).
Proof. intros. apply guard_case_dep; auto. Qed.

Lemma base_fee_checked self header parent :
  parent_ok self header parent -> 2 <= header.gas_limit parent ->
  expected_base_fee_per_gas self header parent = Some (base_fee_spec self header parent).
Proof.
  intros ((_ & (_ & Hg) & Hu & _) & _ & Hf) ?. apply expected_base_fee_ok; [done..|lia].
Qed.

Lemma reference_gas_limit_eq self header parent :
  0 <= header.gas_limit parent <= i64_max ->
  (match eip1559_block self with
   | Some fork_block =>
       if fork_block =? header.number header then
         or_panic (u64_checked (header.gas_limit parent * param.ELASTICITY_MULTIPLIER))
       else ROk (header.gas_limit parent)
   | None => ROk (header.gas_limit parent)
   end) = ROk (reference_gas_limit self header parent).
Proof.
  intros H. unfold reference_gas_limit, param.ELASTICITY_MULTIPLIER.
  destruct (eip1559_block self) as [fork|]; [|by case_decide].
  destruct (Z.eqb_spec fork (header.number header)) as [->|].
  - rewrite u64_checked_some by (unfold i64_max, u64_max in *; lia). simpl.
    rewrite decide_True by done. f_equal. lia.
  - rewrite decide_False by congruence. done.
Qed.

Lemma abs_delta a b :
  (if a <? b then unsigned_sub b a else unsigned_sub a b) = Some (Z.abs (b - a)).
Proof. case_if; rewrite unsigned_sub_some by lia; f_equal; lia. Qed.

Lemma validate_block_header_spec now self header parent check :
  header.wf header -> parent_ok self header parent ->
  validate_block_header now self header parent check <> RPanic /\
  (validate_block_header now self header parent check = ROk tt <->
   not_future now header check /\ header_valid self header parent).
Proof.
  intros Hw Hp. unfold validate_block_header.
  assert (forall k : result unit, k <> RPanic /\ (k = ROk tt <-> header_valid self header parent) ->
    let m := (if check then
       match now with
       | None => RErr ClockError
       | Some now => guard_err (now <? header.timestamp header) (FutureBlock now (header.timestamp header))
       end else ROk tt) ≫= fun _ => k in
    m <> RPanic /\ (m = ROk tt <-> not_future now header check /\ header_valid self header parent))
    as Hclock.
  { intros k Hk. simpl. unfold not_future. destruct check; simpl; [|naive_solver].
    destruct now as [t|]; simpl; [|naive_solver]. rewrite bind_guard. apply guard_case; [..|done].
    - intros H ?; zb. naive_solver lia.
    - intros H ?; zb. eauto. }
  apply Hclock. clear Hclock. unfold header_valid. rewrite !bind_guard.
  apply guard_case; [intros; zb; lia..|].
  rewrite <- (and_assoc (5000 <= _)). do 4 (apply guard_case; [intros; zb; lia..|]).
  pose proof Hp as ((_ & [? _] & _) & ? & _). rewrite reference_gas_limit_eq, bind_ROk by done.
  rewrite abs_delta. simpl. rewrite bind_guard. apply guard_case_dep; [intros; zb; lia..|].
  intros Hd. zb. rewrite base_fee_checked; [|done|].
  - simpl. case_bool_decide; split; naive_solver.
  - unfold reference_gas_limit in Hd.
    assert (0 <= Z.abs (header.gas_limit header - reference_gas_limit self header parent))
      by apply Z.abs_nonneg. unfold reference_gas_limit in *.
    case_decide; apply Z.nlt_ge; intros ?; rewrite Z.div_small in Hd; lia.
Qed.

(** ** Ethash headers *)

(** A chain database answers without error, with headers of the number asked
    for and fields in range. *)
Definition chain_ok {DB} `{ChainState DB} (state : DB) : Prop :=
  forall n h, exists r, read_header state n h = Some r /\
    forall p, r = Some p -> header.number p = n /\ header.wf p.

Definition parent_of {DB} `{ChainState DB} (state : DB) (h p : BlockHeader) : Prop :=
  get_parent_header state h = ROk (Some p).

Lemma parent_of_number {DB} `{ChainState DB} (state : DB) h p : chain_ok state ->
  parent_of state h p -> header.number p = header.number h - 1 /\ header.wf p.
Proof.
  unfold parent_of, get_parent_header, unsigned_sub. intros Hc.
  destruct (1 <=? header.number h); [|done].
  destruct (Hc (header.number h - 1) (header.parent_hash h)) as (r & -> & Hr).
  simpl. intros [= ->]. by apply Hr.
Qed.

Lemma get_parent_ok {DB} `{ChainState DB} (state : DB) h : chain_ok state ->
  exists r, get_parent_header state h = ROk r.
Proof.
  intros Hc. unfold get_parent_header. destruct (unsigned_sub _ _); [|by eexists].
  destruct (Hc z (header.parent_hash h)) as (r & -> & _). by exists r.
Qed.

Section ethash_headers.
Context {DB : Type} `{ChainState DB} (now : option Z) (self : ethash.Ethash) (state : DB).

Definition bomb_of (h : BlockHeader) : option BlockDifficultyBombData :=
  (fun b => {| delay_to := get_delay_to b (header.number h) |}) <$> ethash.difficulty_bomb self.

Definition difficulty_of (h p : BlockHeader) : Z :=
  difficulty_spec (header.number h) (header.timestamp h) (header.difficulty p)
    (header.timestamp p) (negb (header.ommers_hash p =? EMPTY_LIST_HASH))
    (switch_is_active (ethash.byzantium_formula self) (header.number h))
    (switch_is_active (ethash.homestead_formula self) (header.number h)) (bomb_of h).

(** The parents on the chain are in the range where no arithmetic overflows. *)
Definition ethash_parent_ok (h p : BlockHeader) : Prop :=
  parent_ok (ethash.base self) h p /\ header.difficulty p < 2 ^ 255 /\
  bomb_in_range (header.number h) (bomb_of h).


End ethash_headers.

(** A chain with a single header, at number 4 under the hash 1. *)
Definition sample_chain : BlockHeader := sample_header 0 4 30000000 15000000 80 131072 None.

#[local] Instance sample_chain_state : ChainState BlockHeader := {|
  read_header c n h :=
    Some (if (n =? header.number c) && (h =? 1) then Some c else None);
  read_body c n h :=
    Some (if (n =? header.number c) && (h =? 1)
          then Some {| body_transactions := []; body_ommers := [] |} else None);
|}.

Definition sample_ethash : ethash.Ethash := {|
  ethash.base := sample_base;
  ethash.duration_limit := 13;
  ethash.block_reward := [];
  ethash.homestead_formula := Some 0;
  ethash.byzantium_formula := Some 0;
  ethash.difficulty_bomb := Some {| delays := [(0, 0)] |};
  ethash.skip_pow_verification := true;
|}.

Definition sample_child : BlockHeader :=
  sample_header 1 5 60000000 15000000 85 131136 (Some 1000000000).

Lemma sample_chain_wf : header.wf sample_chain.
Proof. vm_compute. splits; discriminate || reflexivity || exact I. Qed.

Lemma sample_chain_ok : chain_ok sample_chain.
Proof.
  intros n h. eexists. split; [reflexivity|]. intros p. cbv beta.
  destruct (Z.eqb_spec n (header.number sample_chain)) as [->|]; simpl; [|done].
  destruct (h =? 1); [|done]. intros [= <-]. split; [done|]. exact sample_chain_wf.
Qed.


(** ** Kinship of ommers *)

Section kinship.
Context {DB : Type} `{ChainState DB} (state : DB).

(** The [k]-th ancestor of a header, with its hash: the 0-th is the header. *)
Fixpoint ancestor (k : nat) (h : BlockHeader) (hash : Z) : option (BlockHeader * Z) :=
  match k with
  | O => Some (h, hash)
  | S k =>
      match get_parent_header state h with
      | ROk (Some p) => ancestor k p (header.parent_hash h)
      | _ => None
      end
  end.

(** The ancestor exists, its body is stored, and it is not [u]. *)
Definition passes (u h : BlockHeader) (hash : Z) (j : nat) (a : BlockHeader) (b : BlockBody) : Prop :=
  exists ha, ancestor j h hash = Some (a, ha) /\ a <> u /\
    read_body state (header.number a) ha = Some (Some b).

(** [u] has the same parent as the [k]-th ancestor, and is none of the
    ancestors before. *)
Definition kin_at (u h : BlockHeader) (hash : Z) (k : nat) : Prop :=
  (forall j, (j <= k)%nat -> exists a b, passes u h hash j a b) /\
  exists p hp, ancestor (S k) h hash = Some (p, hp) /\ parent_of state u p.

Lemma passes_S u h hash j a b p : get_parent_header state h = ROk (Some p) ->
  passes u h hash (S j) a b <-> passes u p (header.parent_hash h) j a b.
Proof. intros E. unfold passes. simpl. by rewrite E. Qed.

Lemma is_kin_true u : forall n h hash old l,
  is_kin state u h hash n old = ROk (true, l) ->
  exists k, (k < n)%nat /\ kin_at u h hash k /\
    forall x, x ∈ l <-> x ∈ old \/
      exists j a b, (j <= k)%nat /\ passes u h hash j a b /\ x ∈ body_ommers b.
Proof.
  induction n as [|n IH]; intros h hash old l; simpl; [done|].
  case_decide as Hne; [done|]. rewrite bind_result_ok. intros (body & Hb & Hk).
  destruct (read_body state (header.number h) hash) as [[b|]|] eqn:Hr; simplify_eq/=.
  rewrite bind_result_ok in Hk. destruct Hk as (hp & Hhp & Hk).
  rewrite bind_result_ok in Hk. destruct Hk as (up & Hup & Hk).
  destruct hp as [hp|]; [|done].
  assert (passes u h hash 0 h b) as H0 by (exists hash; done).
  assert (forall j a b', passes u h hash j a b' -> j = 0%nat -> a = h /\ b' = b) as Huniq.
  { intros j a b' (ha & Ha & _ & Hr') ->. simpl in Ha. injection Ha as <- <-. split; congruence. }
  destruct (match up with Some _ => _ | None => _ end) eqn:Hm.
  - simplify_eq. exists 0%nat. split; [lia|]. destruct up as [up|]; [|done].
    apply bool_decide_eq_true in Hm as ->. split.
    + split.
      * intros j Hj. replace j with 0%nat by lia. eauto.
      * exists hp, (header.parent_hash h). split; [simpl; by rewrite Hhp|exact Hup].
    + intros x. rewrite elem_of_app. split; intros [Hx|Hx]; [by left| |by left|].
      * right. exists 0%nat, h, b. auto.
      * right. destruct Hx as (j & a & b' & Hj & Hp & Hx).
        by destruct (Huniq j a b' Hp ltac:(lia)) as [-> ->].
  - apply IH in Hk as (k & Hk & [Hall (p & hp' & Hanc & Hpu)] & Hx).
    exists (S k). split; [lia|]. split.
    + split.
      * intros [|j] Hj; [eauto|]. destruct (Hall j ltac:(lia)) as (a & b' & Hp).
        exists a, b'. by rewrite passes_S.
      * exists p, hp'. split; [|exact Hpu]. simpl. rewrite Hhp. exact Hanc.
    + intros x. rewrite Hx, elem_of_app. split.
      * intros [[?|?]|(j & a & b' & Hj & Hp & ?)]; [by left|right; exists 0%nat, h, b; auto with lia|].
        right. exists (S j), a, b'. rewrite passes_S by done. auto with lia.
      * intros [?|([|j] & a & b' & Hj & Hp & ?)]; [by left; left| |].
        -- left. right. by destruct (Huniq 0%nat a b' Hp eq_refl) as [-> ->].
        -- right. exists j, a, b'. rewrite passes_S in Hp by done. auto with lia.
Qed.

Lemma is_kin_complete u : forall n h hash old k, (k < n)%nat -> kin_at u h hash k ->
  exists l, is_kin state u h hash n old = ROk (true, l).
Proof.
  induction n as [|n IH]; intros h hash old k Hk [Hall (p & hp & Hanc & Hpu)]; [lia|].
  destruct (Hall 0%nat ltac:(lia)) as (a & b & ha & Ha & Hne & Hr). simpl in Ha. simplify_eq.
  simpl. rewrite decide_False by congruence. rewrite Hr. simpl.
  simpl in Hanc. destruct (get_parent_header state a) as [[q|]| |] eqn:Hq; try discriminate.
  rewrite bind_ROk. unfold parent_of in Hpu. rewrite Hpu, bind_ROk.
  destruct (bool_decide (p = q)) eqn:Hb; [eauto|]. destruct k as [|k].
  - simpl in Hanc. simplify_eq. by rewrite bool_decide_eq_false in Hb.
  - apply (IH _ _ _ k); [lia|]. split.
    + intros j Hj. destruct (Hall (S j) ltac:(lia)) as (a' & b' & Hp).
      exists a', b'. by rewrite passes_S in Hp.
    + exists p, hp. split; [exact Hanc|exact Hpu].
Qed.

End kinship.

(** Within [n] generations, a header is accepted as kin of the mainline
    exactly when it shares its parent with the [k]-th ancestor for some
    [k < n], and each ancestor up to that one has a stored body and is a
    different header.  The recursion always ends, and finds every such [k]. *)
Theorem is_kin_correct {DB} `{ChainState DB} (state : DB) u n h hash old :
  (exists l, is_kin state u h hash n old = ROk (true, l)) <->
  exists k, (k < n)%nat /\ kin_at state u h hash k.
Proof.
  split.
  - intros (l & Hl). apply is_kin_true in Hl as (k & ? & ? & _). eauto.
  - intros (k & Hk & Hat). by eapply is_kin_complete.
Qed.

(** ** Ommers and rewards *)

Lemma pre_validate_transaction_ok t chain fee :
  pre_validate_transaction t chain fee = None <->
  (forall c, txn.chain_id t = Some c -> c = chain) /\
  (forall f, fee = Some f -> f <= txn.max_fee_per_gas t) /\
  txn.max_priority_fee_per_gas t <= txn.max_fee_per_gas t.
Proof.
  unfold pre_validate_transaction.
  destruct (txn.chain_id t) as [c|], fee as [f|]; repeat case_if; zb; split;
    try discriminate; try (intros _; splits; intros; simplify_eq; done || lia);
    intros (Hc & Hf & ?); try (specialize (Hc _ eq_refl)); try (specialize (Hf _ eq_refl)); done || lia.
Qed.

Section ommers.
Context {DB : Type} `{ChainState DB} `{Keccak} `{Codec}.
Context (now : option Z) (self : ConsensusEngineBase) (state : DB).

Lemma ancestor_number k : forall h hash a ha, chain_ok state ->
  ancestor state k h hash = Some (a, ha) -> header.number a = header.number h - Z.of_nat k.
Proof.
  induction k as [|k IH]; intros h hash a ha Hc; simpl.
  - intros [= <- <-]. lia.
  - destruct (get_parent_header state h) as [[p|]| |] eqn:E; try discriminate.
    intros Ha%IH; [|done]. destruct (parent_of_number state h p Hc E). lia.
Qed.

Lemma for_each_ok {A} (f : A -> result unit) l :
  for_each f l = ROk tt <-> forall x, x ∈ l -> f x = ROk tt.
Proof.
  induction l as [|x l IH]; simpl.
  - split; [intros _ x Hx; by apply elem_of_nil in Hx|done].
  - rewrite bind_result_ok. setoid_rewrite elem_of_cons. split.
    + intros ([] & Hx & Hl) y [->|Hy]; [done|]. by apply IH.
    + intros Hall. exists tt. split; [by apply Hall; left|]. apply IH. intros y Hy. by apply Hall; right.
Qed.

(** What acceptance of a block says of each of its ommers [u]: it is a valid
    child of a stored header, it shares its parent with one of the six closest
    ancestors of the block, and it is neither one of the ancestors up to there
    nor an ommer that one of them includes. *)
Definition ommer_ok (h u : BlockHeader) : Prop :=
  exists parent k, parent_of state h parent /\ (k < 6)%nat /\
    kin_at state u parent (header.parent_hash h) k /\
    (forall j a b, (j <= k)%nat -> passes state u parent (header.parent_hash h) j a b ->
       a <> u /\ u ∉ body_ommers b) /\
    exists p, parent_of state u p /\ validate_block_header now self u p false = ROk tt.

Lemma validate_ommer_ok h parent u : parent_of state h parent ->
  validate_ommer now self state h parent u = ROk tt -> ommer_ok h u.
Proof.
  intros Hp. unfold validate_ommer. rewrite bind_result_ok. intros (up & Hup & Hv).
  destruct up as [up|]; [|discriminate Hv]. unfold ok_or in Hv. rewrite bind_ROk in Hv.
  rewrite bind_result_ok in Hv. destruct Hv as ([] & Hval & Hv).
  rewrite bind_result_ok in Hv. destruct Hv as ([b old] & Hkin & Hv). simpl in Hv.
  destruct b; [|discriminate Hv]. simpl in Hv. apply guard_ok in Hv.
  apply is_kin_true in Hkin as (k & Hk & Hat & Hold).
  exists parent, k. split; [exact Hp|]. split; [exact Hk|]. split; [exact Hat|]. split.
  - intros j a b Hj Hpass. split; [by destruct Hpass as (? & _ & ? & _)|]. intros Hu.
    assert (u ∈ old) as Hin by (apply Hold; right; eauto 6).
    apply not_true_iff_false in Hv. apply Hv, existsb_exists. exists u.
    split; [by apply list_elem_of_In|by apply bool_decide_eq_true].
  - exists up. split; [exact Hup|]. by destruct (validate_block_header _ _ _ _ _) as [[]| |].
Qed.

Lemma pre_validate_block_ok block :
  pre_validate_block now self state block = ROk tt ->
  header.ommers_hash (block_header block) = Block_ommers_hash (block_ommers block) /\
  header.transactions_root (block_header block) =
    Block_transactions_root (block_transactions block) /\
  (length (block_ommers block) <= 2)%nat /\ NoDup (block_ommers block) /\
  (forall u, u ∈ block_ommers block -> ommer_ok (block_header block) u) /\
  (forall t, t ∈ block_transactions block ->
     pre_validate_transaction (message t) (chain_id self)
       (header.base_fee_per_gas (block_header block)) = None).
Proof.
  unfold pre_validate_block. rewrite !bind_guard.
  do 3 (case_if; [discriminate|]). zb. unfold blen in *.
  rewrite bind_result_ok. intros ([] & Hdup & Hb).
  rewrite bind_result_ok in Hb. destruct Hb as (parent & Hp & Hb).
  destruct parent as [parent|]; [|discriminate Hb]. unfold ok_or in Hb. rewrite bind_ROk in Hb.
  rewrite bind_result_ok in Hb. destruct Hb as ([] & Hom & Htx).
  pose proof (proj1 (for_each_ok _ _) Hom) as Hom'. pose proof (proj1 (for_each_ok _ _) Htx) as Htx'.
  clear Hom Htx. splits; [done|done|lia| | |].
  - destruct (block_ommers block) as [|o0 [|o1 [|]]] eqn:E; simpl in *; [..|lia].
    + constructor.
    + apply NoDup_singleton.
    + apply guard_ok, bool_decide_eq_false in Hdup. rewrite NoDup_cons, list_elem_of_singleton.
      split; [done|apply NoDup_singleton].
  - intros u Hu. by eapply validate_ommer_ok, Hom'.
  - intros t Ht. generalize (Htx' t Ht). by destruct (pre_validate_transaction _ _ _).
Qed.

Lemma ommer_ok_number h u : chain_ok state -> ommer_ok h u ->
  header.number h - 6 <= header.number u <= header.number h - 1.
Proof.
  intros Hc (parent & k & Hp & Hk & [_ (p & hp & Ha & Hu)] & _).
  apply parent_of_number in Hp as [? _]; [|exact Hc].
  apply parent_of_number in Hu as [? _]; [|exact Hc].
  apply ancestor_number in Ha; [|exact Hc]. lia.
Qed.

(** C36: an accepted block commits to its ommers and transactions by their
    hashes, has at most two ommers, all different, and each ommer is a valid
    header, kin of the block within six generations, and neither an ancestor
    nor an ommer of an ancestor up to the common parent; its transactions are
    for this chain and pay the base fee. *)
Theorem accepted_block block :
  pre_validate_block now self state block = ROk tt ->
  header.ommers_hash (block_header block) = Block_ommers_hash (block_ommers block) /\
  header.transactions_root (block_header block) =
    Block_transactions_root (block_transactions block) /\
  (length (block_ommers block) <= 2)%nat /\ NoDup (block_ommers block) /\
  (forall u, u ∈ block_ommers block -> ommer_ok (block_header block) u) /\
  (forall t, t ∈ block_transactions block ->
     (forall c, txn.chain_id (message t) = Some c -> c = chain_id self) /\
     (forall f, header.base_fee_per_gas (block_header block) = Some f ->
        f <= txn.max_fee_per_gas (message t)) /\
     txn.max_priority_fee_per_gas (message t) <= txn.max_fee_per_gas (message t)).
Proof.
  intros (? & ? & ? & ? & ? & Ht)%pre_validate_block_ok. splits; try assumption.
  intros t Hin. by apply pre_validate_transaction_ok, Ht.
Qed.

(** The reward of an ommer: an eighth less for each generation of distance. *)
Definition ommer_reward (number reward : Z) (u : BlockHeader) : ethash.FinalizationChange :=
  ethash.Reward (header.beneficiary u) ((8 - (number - header.number u)) * reward / 8).

Lemma ommer_rewards_eq number reward ommers : 0 <= reward < 2 ^ 120 -> 0 <= number < 2 ^ 63 ->
  (forall u, u ∈ ommers -> number - 6 <= header.number u <= number - 1 /\ 0 <= header.number u) ->
  forall miner changes, 0 <= miner ->
  miner + Z.of_nat (length ommers) * 2 ^ 120 < 2 ^ 128 ->
  ethash.ommer_rewards number reward miner changes ommers = Some
    (changes ++ (ommer_reward number reward <$> ommers),
     miner + Z.of_nat (length ommers) * (reward / 32)).
Proof.
  intros Hr Hn Hall. assert (0 <= reward / 32 < 2 ^ 120)
    by (split; [apply Z.div_pos|apply Z.div_lt_upper_bound]; lia).
  induction ommers as [|u ommers IH]; intros miner changes Hm Hb; simpl.
  - rewrite app_nil_r. do 2 f_equal. lia.
  - destruct (Hall u ltac:(left)) as [[Hu1 Hu2] Hu0]. simpl length in Hb.
    rewrite u64_checked_some by (unfold u64_max; lia). rewrite bind_Some_eq, bind_sub by lia.
    assert (2 ^ 120 * 8 < 2 ^ 256) by done.
    rewrite bind_u256 by nia.
    replace (u128_checked (miner + reward / 32)) with (Some (miner + reward / 32))
      by (symmetry; apply checked_some; lia).
    rewrite bind_Some_eq, IH.
    + rewrite <- app_assoc, Z.shiftr_div_pow2 by lia. simpl. unfold ommer_reward.
      do 2 f_equal; [do 5 f_equal; lia|lia].
    + intros v Hv. apply Hall. by right.
    + lia.
    + lia.
Qed.

Lemma reward_of_bounds revision :
  2 * param.ETHER <= ethash.reward_of revision <= 5 * param.ETHER.
Proof. destruct revision; vm_compute; split; discriminate. Qed.

(** Once a block has been accepted, its rewards are paid without underflow
    or overflow: each ommer gets (8 - d)/8 of the block reward, where d is its
    distance to the block, which is between one and six, and the miner gets the
    block reward and a 32nd of it for each ommer. *)
Theorem rewards_paid block revision :
  chain_ok state -> header.number (block_header block) < 2 ^ 63 ->
  0 <= header.number (block_header block) ->
  (forall u, u ∈ block_ommers block -> header.wf u) ->
  pre_validate_block now self state block = ROk tt ->
  let h := block_header block in
  let reward := ethash.reward_of revision in
  (forall u, u ∈ block_ommers block -> 1 <= header.number h - header.number u <= 6) /\
  ethash.finalize (partial.of_header h) (block_ommers block) revision =
    ROk ((ommer_reward (header.number h) reward <$> block_ommers block) ++
         [ethash.Reward (header.beneficiary h)
            (reward + Z.of_nat (length (block_ommers block)) * (reward / 32))]).
Proof.
  intros Hc Hn1 Hn0 Hw (_ & _ & Hlen & _ & Hom & _)%pre_validate_block_ok.
  assert (forall u, u ∈ block_ommers block ->
    header.number (block_header block) - 6 <= header.number u <=
    header.number (block_header block) - 1) as Hnum
    by (intros u Hu; by apply ommer_ok_number, Hom).
  intros h reward. split; [intros u Hu; specialize (Hnum u Hu); subst h; lia|].
  unfold ethash.finalize. pose proof (reward_of_bounds revision) as Hr. fold reward in Hr |- *.
  assert (5 * param.ETHER < 2 ^ 120) by done. assert (0 < param.ETHER) by done.
  simpl partial.number. rewrite ommer_rewards_eq; [done|lia|subst h; lia| |lia|].
  - intros u Hu. split; [by apply Hnum|]. by destruct (Hw u Hu) as [[? _] _].
  - assert (2 ^ 120 * 3 < 2 ^ 128) by done. lia.
Qed.

End ommers.

(** A chain of a genesis block (hash 100) and a child of it (hash 101), and a
    block that includes a sibling of the child as ommer. *)
Definition genesis : BlockHeader := sample_header 0 0 30000000 0 10 131072 None.
Definition child : BlockHeader := sample_header 100 1 30000000 0 20 131072 None.
Definition sibling : BlockHeader := sample_header 100 1 30000000 0 21 131072 None.

#[local] Instance pair_chain : ChainState unit := {|
  read_header _ n h :=
    Some (if (n =? 0) && (h =? 100) then Some genesis
          else if (n =? 1) && (h =? 101) then Some child else None);
  read_body _ n h :=
    Some (if ((n =? 0) && (h =? 100)) || ((n =? 1) && (h =? 101))
          then Some {| body_transactions := []; body_ommers := [] |} else None);
|}.

#[local] Instance fixed_keccak : Keccak := {|
  keccak_digest _ := be_bytes 32 EMPTY_LIST_HASH;
  length_keccak_digest _ := eq_refl;
|}.

#[local] Instance empty_codec : Codec := {|
  rlp_encode_list _ := [];
  trie_encode _ := [];
  ordered_trie_root _ := 0;
|}.

Definition pre_london : ConsensusEngineBase := {| chain_id := 1; eip1559_block := None |}.

Definition sample_block : Block := {|
  block_header := sample_header 101 2 30000000 0 30 131072 None;
  block_transactions := [];
  block_ommers := [sibling];
|}.

Lemma accepted_block_witness :
  ommer_ok None pre_london tt (block_header sample_block) sibling.
Proof.
  apply (accepted_block None pre_london tt sample_block); [vm_compute; reflexivity|].
  by left.
Defined.

Lemma pair_chain_ok : chain_ok tt.
Proof.
  intros n h. eexists. split; [reflexivity|]. intros p. cbv beta.
  destruct (Z.eqb_spec n 0) as [->|]; simpl.
  - destruct (h =? 100); simpl; [|discriminate]. intros [= <-].
    split; [reflexivity|]. vm_compute. splits; discriminate || reflexivity || exact I.
  - destruct (Z.eqb_spec n 1) as [->|]; simpl; [|discriminate].
    destruct (h =? 101); simpl; [|discriminate]. intros [= <-].
    split; [reflexivity|]. vm_compute. splits; discriminate || reflexivity || exact I.
Qed.

Lemma rewards_paid_witness :
  ethash.finalize (partial.of_header (block_header sample_block)) [sibling] Byzantium =
  ROk [ethash.Reward 7 2625000000000000000; ethash.Reward 7 3093750000000000000].
Proof.
  apply (rewards_paid None pre_london tt sample_block Byzantium).
  - exact pair_chain_ok.
  - reflexivity.
  - discriminate.
  - intros u ->%list_elem_of_singleton. vm_compute.
    splits; discriminate || reflexivity || exact I.
  - vm_compute; reflexivity.
Defined.

(** ** Prices *)

(** A transaction that passes the first validation has an effective gas
    price: the assertion and the arithmetic behind it do not panic, the price is
    at least the base fee and at most the fee cap, and the part above the base
    fee is at most the tip cap. *)
Theorem effective_gas_price_bounds t chain f :
  pre_validate_transaction t chain (Some f) = None ->
  word (txn.max_fee_per_gas t) -> 0 <= f -> 0 <= txn.max_priority_fee_per_gas t ->
  exists p, txn.effective_gas_price t f = Some p /\
    f <= p <= txn.max_fee_per_gas t /\ p - f <= txn.max_priority_fee_per_gas t /\
    (p = txn.max_fee_per_gas t \/ p - f = txn.max_priority_fee_per_gas t).
Proof.
  intros (_ & Hf & Hp)%pre_validate_transaction_ok [_ Hm] H0 Ht. specialize (Hf f eq_refl).
  unfold txn.effective_gas_price, txn.priority_fee_per_gas.
  rewrite (proj2 (Z.leb_le _ _)), bind_sub, bind_Some_eq by done.
  rewrite u256_checked_some by lia. eexists. split; [reflexivity|]. lia.
Qed.

Lemma effective_gas_price_bounds_witness :
  exists p, txn.effective_gas_price (EIP1559 1 0 2 10 21000 ActionCreate 0 [] []) 9 = Some p /\
    9 <= p <= 10.
Proof.
  destruct (effective_gas_price_bounds (EIP1559 1 0 2 10 21000 ActionCreate 0 [] []) 1 9)
    as (p & E & Hp & _); [reflexivity|split; [discriminate|reflexivity]|discriminate|discriminate|].
  exists p. exact (conj E Hp).
Defined.

(** ** Revisions and the bomb's delay *)

Definition fork_block (u : Upgrades) (r : Revision) : option Z :=
  match r with
  | Homestead => homestead u
  | Tangerine => tangerine u
  | Spurious => spurious u
  | Byzantium => byzantium u
  | Constantinople => constantinople u
  | Petersburg => petersburg u
  | Istanbul => istanbul u
  | Berlin => berlin u
  | London => london u
  | Frontier | Shanghai => None
  end.

Definition fork_active (u : Upgrades) (b : Z) (r : Revision) : Prop :=
  exists f, fork_block u r = Some f /\ f <= b.

(** The loop over a list of forks from the newest to the oldest. *)
Lemma select_fork_spec l b : 
  (forall i j x y, (i < j)%nat -> l !! i = Some x -> l !! j = Some y ->
     Revision.as_usize y.2 < Revision.as_usize x.2) ->
  let '(r, act) := select_fork l b Frontier [] in
  (r = Frontier /\ act = [] /\ forall f r', (Some f, r') ∈ l -> b < f) \/
  (exists f, (Some f, r) ∈ l /\ f <= b /\ act = (if b =? f then [r] else []) /\
     forall f' r', (Some f', r') ∈ l -> f' <= b -> Revision.as_usize r' <= Revision.as_usize r).
Proof.
  induction l as [|[o r] l IH]; intros Hs; simpl.
  - left. splits; [done..|]. intros f r' Hin. by apply elem_of_nil in Hin.
  - assert (forall i j x y, (i < j)%nat -> l !! i = Some x -> l !! j = Some y ->
      Revision.as_usize y.2 < Revision.as_usize x.2) as Hs'
      by (intros i j x y Hij; apply (Hs (S i) (S j)); lia).
    specialize (IH Hs'). destruct o as [f|]; [case_if|].
    + right. exists f. splits; [by left|done|done|].
      intros f' r' Hin Hf. apply elem_of_cons in Hin as [[= -> ->]|Hin]; [lia|].
      apply list_elem_of_lookup in Hin as [j Hj].
      specialize (Hs 0%nat (S j) (Some f, r) (Some f', r') ltac:(lia) eq_refl Hj). simpl in Hs. lia.
    + destruct (select_fork l b Frontier []) as [r0 act].
      destruct IH as [(-> & -> & H1)|(g & Hg & ? & ? & H1)]; [left|right; exists g];
        splits; try done; try (by right).
      * intros f' r' [[= -> ->]|Hin]%elem_of_cons; [lia|eauto].
      * intros f' r' [[= -> ->]|Hin]%elem_of_cons; [lia|eauto].
    + destruct (select_fork l b Frontier []) as [r0 act].
      destruct IH as [(-> & -> & H1)|(g & Hg & ? & ? & H1)]; [left|right; exists g];
        splits; try done; try (by right).
      * intros f' r' [[=]|Hin]%elem_of_cons; eauto.
      * intros f' r' [[=]|Hin]%elem_of_cons; eauto.
Qed.

Lemma forks_sorted u i j x y : (i < j)%nat -> forks u !! i = Some x -> forks u !! j = Some y ->
  Revision.as_usize y.2 < Revision.as_usize x.2.
Proof.
  intros Hij Hi Hj. unfold forks in *.
  do 10 (destruct i as [|i]; [do 10 (destruct j as [|j]; [simpl in *; simplify_eq; simpl; lia|]);
    discriminate Hj|]). discriminate Hi.
Qed.

Lemma forks_fork_block u f r : (Some f, r) ∈ forks u <-> fork_block u r = Some f.
Proof.
  unfold forks. rewrite !elem_of_cons, elem_of_nil. split.
  - intros H. destruct_or!; simplify_eq/=; congruence.
  - destruct r; simpl; try discriminate; intros ->; tauto.
Qed.

Lemma spec_revision_cases c b :
  let s := collect_block_spec c b in
  (spec_revision s = Frontier /\ active_transitions s = [] /\
   forall r', ~ fork_active (upgrades c) b r') \/
  (exists f, fork_block (upgrades c) (spec_revision s) = Some f /\ f <= b /\
     active_transitions s = (if b =? f then [spec_revision s] else []) /\
     forall r', fork_active (upgrades c) b r' ->
       Revision.as_usize r' <= Revision.as_usize (spec_revision s)).
Proof.
  pose proof (select_fork_spec (forks (upgrades c)) b (forks_sorted _)) as H.
  unfold collect_block_spec. destruct (select_fork _ _ _ _) as [r act]. simpl.
  destruct H as [(-> & -> & H)|(f & Hf & ? & -> & H)]; [left|right; exists f]; splits; try done.
  - intros r' (f & Hf & ?). apply forks_fork_block, H in Hf. lia.
  - by apply forks_fork_block.
  - intros r' (f' & Hf' & ?). apply forks_fork_block in Hf'. eauto.
Qed.

(** The revision of a block is the newest one whose fork block has been
    reached, so it never goes back as block numbers grow, and the transition to
    it is active exactly at its fork block. *)
Theorem revision_newest_active c b :
  let s := collect_block_spec c b in
  (spec_revision s = Frontier \/ fork_active (upgrades c) b (spec_revision s)) /\
  (forall r', fork_active (upgrades c) b r' ->
     Revision.as_usize r' <= Revision.as_usize (spec_revision s)) /\
  (forall r', r' ∈ active_transitions s <->
     r' = spec_revision s /\ fork_block (upgrades c) r' = Some b) /\
  (forall b', b <= b' -> Revision.as_usize (spec_revision s) <=
     Revision.as_usize (spec_revision (collect_block_spec c b'))).
Proof.
  pose proof (spec_revision_cases c b) as H. cbv zeta in *.
  set (s := collect_block_spec c b) in *. splits.
  - destruct H as [(? & _)|(f & ? & ? & _)]; [by left|]. right. exists f. done.
  - intros r' Hr. destruct H as [(_ & _ & H)|(f & _ & _ & _ & H)]; [by apply H in Hr|auto].
  - intros r'. destruct H as [(Hs & -> & H)|(f & Hf & Hle & -> & H)].
    + rewrite elem_of_nil. split; [done|]. intros [-> Hf]. apply (H (spec_revision s)).
      exists b. split; [done|lia].
    + destruct (Z.eqb_spec b f) as [->|].
      * rewrite list_elem_of_singleton. split; [intros ->; done|by intros [-> _]].
      * rewrite elem_of_nil. split; [done|]. intros [-> Hb]. congruence.
  - intros b' Hb. destruct H as [(-> & _)|(f & Hf & Hle & _)].
    + by destruct (spec_revision _).
    + assert (fork_active (upgrades c) b' (spec_revision s)) as Ha by (exists f; split; [done|lia]).
      destruct (spec_revision_cases c b') as [(_ & _ & H)|(_ & _ & _ & _ & H)]; [by apply H in Ha|auto].
Qed.

Lemma last_omap_delay (l : list (Z * Z)) b : 
  btree_sorted l -> forall d, 
  default d (last (omap (fun '(a, t) => if a <=? b then Some t else None) l)) = d /\
    (forall a t, (a, t) ∈ l -> b < a) \/
  exists a t, (a, t) ∈ l /\ a <= b /\
    default d (last (omap (fun '(a, t) => if a <=? b then Some t else None) l)) = t /\
    forall a' t', (a', t') ∈ l -> a' <= b -> a' <= a.
Proof.
  induction l as [|[a t] l IH] using rev_ind; intros Hs d.
  - left. split; [done|]. intros a t Hin. by apply elem_of_nil in Hin.
  - assert (forall a' t', (a', t') ∈ l -> a' < a) as Hlt.
    { intros a' t' Hin. apply list_elem_of_lookup in Hin as [i Hi].
      apply (Hs i (length l) (a', t') (a, t)).
      - by eapply lookup_lt_Some.
      - by apply lookup_app_l_Some.
      - by apply list_lookup_middle. }
    assert (btree_sorted l) as Hs'.
    { intros i j x y Hij Hi Hj. apply (Hs i j); [done|by apply lookup_app_l_Some..]. }
    rewrite omap_app. simpl. destruct (Z.leb_spec a b).
    + right. exists a, t. splits; [set_solver|done|by rewrite last_snoc|].
      intros a' t' [Hin|[= -> ->]%list_elem_of_singleton]%elem_of_app ?; [|lia].
      apply Hlt in Hin. lia.
    + rewrite app_nil_r. destruct (IH Hs' d) as [[? H1]|(a1 & t1 & ? & ? & ? & H1)].
      * left. split; [done|]. intros a' t' [?|[= -> ->]%list_elem_of_singleton]%elem_of_app; eauto.
      * right. exists a1, t1. splits; [set_solver|done..|].
        intros a' t' [?|[= -> ->]%list_elem_of_singleton]%elem_of_app ?; [eauto|lia].
Qed.

(** The bomb is delayed to the block given by the latest entry of the
    schedule that has been reached, and not at all before the first entry. *)
Theorem delay_of_latest_entry b n : btree_sorted (delays b) ->
  ((forall a t, (a, t) ∈ delays b -> n < a) -> get_delay_to b n = 0) /\
  (forall a t, (a, t) ∈ delays b -> a <= n ->
     (forall a' t', (a', t') ∈ delays b -> a' <= n -> a' <= a) -> get_delay_to b n = t).
Proof.
  intros Hs. unfold get_delay_to.
  destruct (last_omap_delay (delays b) n Hs 0) as [[E Hn]|(a1 & t1 & Hin & Hle & E & Hmax)].
  - split; [done|]. intros a t Hin ? _. apply Hn in Hin. lia.
  - split; [intros Hn; apply Hn in Hin; lia|]. intros a t Hat Ha Hm.
    assert (a = a1) as -> by (apply Z.le_antisymm; [by eapply Hmax|by eapply Hm]).
    rewrite E. apply list_elem_of_lookup in Hat as [i Hi]. apply list_elem_of_lookup in Hin as [j Hj].
    destruct (Nat.lt_trichotomy i j) as [Hij|[->|Hij]]; [|congruence|].
    + specialize (Hs i j _ _ Hij Hi Hj). simpl in Hs. lia.
    + specialize (Hs j i _ _ Hij Hj Hi). simpl in Hs. lia.
Qed.

(** The schedule of the main network. *)
Definition mainnet_bomb : DifficultyBomb := {|
  delays := [(4370000, 3000000); (7280000, 5000000); (9200000, 9000000);
             (12965000, 9700000); (13773000, 10700000)];
|}.

Lemma delay_of_latest_entry_witness : get_delay_to mainnet_bomb 13636066 = 9700000.
Proof.
  refine (proj2 (delay_of_latest_entry mainnet_bomb 13636066 _) 12965000 9700000 _ _ _).
  - intros i j a b Hij Hi Hj.
    do 5 (destruct i as [|i]; [do 5 (destruct j as [|j];
      [simpl in Hi, Hj; simplify_eq; simpl; lia|]); discriminate Hj|]). discriminate Hi.
  - simpl. rewrite !elem_of_cons. auto 6.
  - discriminate.
  - intros a t Hin. simpl in Hin. rewrite !elem_of_cons, elem_of_nil in Hin.
    destruct_or!; simplify_eq; lia.
Defined.

(** ** Fork blocks *)

Lemma gathered_upgrade c f r : fork_block (upgrades c) r = Some f -> f <> 0 -> f ∈ gather_forks c.
Proof.
  intros Hr Hf. unfold gather_forks. rewrite !elem_of_difference, !elem_of_union, elem_of_list_to_set.
  split; [|by rewrite elem_of_singleton]. do 4 left. apply list_elem_of_omap.
  exists (Some f). split; [|done]. rewrite <- Hr. rewrite !elem_of_cons.
  destruct r; simpl in *; (discriminate || tauto).
Qed.

Lemma spec_revision_same c b b' : b <= b' ->
  (forall r, fork_active (upgrades c) b' r -> fork_active (upgrades c) b r) ->
  spec_revision (collect_block_spec c b') = spec_revision (collect_block_spec c b).
Proof.
  intros Hb Hact.
  assert (forall r, fork_active (upgrades c) b r -> fork_active (upgrades c) b' r) as Hact'
    by (intros r (f & ? & ?); exists f; split; [done|lia]).
  destruct (spec_revision_cases c b) as [(H1 & _ & Hn)|(f & Hf & Hle & _ & Hmax)],
    (spec_revision_cases c b') as [(H2 & _ & Hn')|(f' & Hf' & Hle' & _ & Hmax')].
  - congruence.
  - destruct (Hn (spec_revision (collect_block_spec c b'))). apply Hact. by exists f'.
  - destruct (Hn' (spec_revision (collect_block_spec c b))). apply Hact'. by exists f.
  - assert (Revision.as_usize (spec_revision (collect_block_spec c b)) =
      Revision.as_usize (spec_revision (collect_block_spec c b'))) as E.
    { apply Z.le_antisymm; [apply Hmax', Hact'|apply Hmax, Hact]; eexists; eauto. }
    by destruct (spec_revision (collect_block_spec c b)), (spec_revision (collect_block_spec c b')).
Qed.

(** The fork blocks that are gathered for the fork identifier are complete:
    between two blocks with none of them in between (the first excluded, the
    second included) neither the revision nor the system contracts change, and
    no balance is changed at the second. *)
Theorem gather_forks_complete c b b' : 0 <= b < b' ->
  (forall f, f ∈ gather_forks c -> f <= b \/ b' < f) ->
  spec_revision (collect_block_spec c b') = spec_revision (collect_block_spec c b) /\
  system_contract_changes (collect_block_spec c b') =
    system_contract_changes (collect_block_spec c b) /\
  balance_changes (collect_block_spec c b') = ∅.
Proof.
  intros Hb Hno. splits.
  - apply spec_revision_same; [lia|]. intros r (f & Hf & Hle). exists f. split; [done|].
    destruct (decide (f = 0)); [lia|]. destruct (Hno f); [by eapply gathered_upgrade|lia..].
  - unfold collect_block_spec.
    destruct (select_fork _ b' _ _) as [r1 a1], (select_fork _ b _ _) as [r2 a2]. simpl.
    assert (forall x, x ∈ contracts c -> x.1 <= b \/ b' < x.1) as Hc.
    { intros x Hx. destruct (decide (x.1 = 0)); [lia|]. apply Hno. unfold gather_forks.
      rewrite elem_of_difference, !elem_of_union, !elem_of_list_to_set, elem_of_singleton.
      split; [|done]. left. right. apply list_elem_of_fmap. eauto. }
    generalize (∅ : gmap Address Contract). induction (contracts c) as [|[bn cs] l IH]; [done|].
    intros acc. simpl. destruct (Hc (bn, cs) ltac:(left)) as [H|H]; simpl in H.
    + rewrite !(proj2 (Z.leb_le _ _)) by lia. apply IH. intros x Hx. apply Hc. by right.
    + rewrite !(proj2 (Z.leb_gt _ _)) by lia. apply IH. intros x Hx. apply Hc. by right.
  - unfold collect_block_spec. destruct (select_fork _ _ _ _) as [r1 a1]. simpl. unfold btree_get.
    destruct (filter _ _) as [|[k v] l] eqn:E; [done|]. exfalso.
    assert ((k, v) ∈ filter (fun e : Z * gmap Address Z => e.1 = b') (balances c)) as Hin
      by (rewrite E; left).
    apply list_elem_of_filter in Hin as [Hk Hin]. simpl in Hk. subst k.
    destruct (Hno b'); [|lia..]. unfold gather_forks.
    rewrite elem_of_difference, !elem_of_union, !elem_of_list_to_set, elem_of_singleton.
    split; [|lia]. right. apply list_elem_of_fmap. by exists (b', v).
Qed.

Definition sample_spec : ChainSpec := {|
  consensus := {| seal_verification := SealClique 15 30000; consensus_eip1559_block := Some 20 |};
  upgrades := {| homestead := Some 1; tangerine := Some 2; spurious := Some 3;
    byzantium := Some 10; constantinople := None; petersburg := None; istanbul := None;
    berlin := None; london := Some 20 |};
  params := {| params_chain_id := 4; params_network_id := 4; min_gas_limit := 5000 |};
  contracts := [(0, {[ 1 := ContractPrecompile (EcRecover 3000 0) ]})];
  balances := [];
|}.

Lemma gather_forks_complete_witness :
  spec_revision (collect_block_spec sample_spec 19) = spec_revision (collect_block_spec sample_spec 10).
Proof.
  apply (gather_forks_complete sample_spec 10 19); [lia|].
  intros f Hf. assert (gather_forks sample_spec = {[ 1; 2; 3; 10; 20 ]}) as E by (vm_compute; reflexivity).
  rewrite E in Hf. set_unfold in Hf. lia.
Defined.
