(* ===== verification/Precompiled.v ===== *)
(** The precompiled contracts (src/execution/precompiled.rs), byte padding
    (src/util.rs) and the BLAKE2b compression function (src/crypto/blake2.rs).

    A contract has a gas function and a run function.  [None] inside is the
    [None] of the code (no price, or failure of the contract); the outer [None]
    is a panic or an overflow.  The hash functions, the elliptic curves and the
    arbitrary-precision integers of other crates are classes. *)
From S2P Require Import Prelude Word Properties EvmState Transaction.
From Stdlib Require Import ZArith Lia Strings.Byte.
From stdpp Require Import base list option numbers.
#[local] Open Scope Z_scope.

(** ** Padding *)

Definition pad (LEFT : bool) (buffer : Bytes) (min_size : Z) : option Bytes :=
  if min_size <=? blen buffer then Some buffer
  else
    point ← (if LEFT then unsigned_sub min_size (blen buffer) else Some 0);
    splice (replicate (Z.to_nat min_size) x00) point buffer.

Definition left_pad (buffer : Bytes) (min_size : Z) : option Bytes := pad true buffer min_size.
Definition right_pad (buffer : Bytes) (min_size : Z) : option Bytes := pad false buffer min_size.

(** ** BLAKE2b *)

Module blake2.

Definition SIGMA : list (list Z) :=
  [[0; 1; 2; 3; 4; 5; 6; 7; 8; 9; 10; 11; 12; 13; 14; 15];
   [14; 10; 4; 8; 9; 15; 13; 6; 1; 12; 0; 2; 11; 7; 5; 3];
   [11; 8; 12; 0; 5; 2; 15; 13; 10; 14; 3; 6; 7; 1; 9; 4];
   [7; 9; 3; 1; 13; 12; 11; 14; 2; 6; 5; 10; 4; 0; 15; 8];
   [9; 0; 5; 7; 2; 4; 10; 15; 14; 1; 11; 12; 6; 8; 3; 13];
   [2; 12; 6; 10; 0; 11; 8; 3; 4; 13; 7; 5; 15; 14; 1; 9];
   [12; 5; 1; 15; 14; 13; 4; 10; 0; 7; 6; 3; 9; 2; 8; 11];
   [13; 11; 7; 14; 12; 1; 3; 9; 5; 0; 15; 4; 8; 6; 2; 10];
   [6; 15; 14; 9; 11; 3; 0; 8; 12; 2; 13; 7; 1; 4; 10; 5];
   [10; 2; 8; 4; 7; 6; 1; 5; 15; 11; 9; 14; 3; 12; 13; 0]].

Definition IV : list Z :=
  [0x6a09e667f3bcc908; 0xbb67ae8584caa73b; 0x3c6ef372fe94f82b; 0xa54ff53a5f1d36f1;
   0x510e527fade682d1; 0x9b05688c2b3e6c1f; 0x1f83d9abfb41bd6b; 0x5be0cd19137e2179].

Definition rotate_right (x n : Z) : Z :=
  Z.lor (Z.shiftr x n) (wrap 64 (Z.shiftl x (64 - n))).

(** [v[i] = x]. *)
Definition set_at (v : list Z) (i x : Z) : option (list Z) :=
  if (0 <=? i) && (i <? blen v) then Some (<[Z.to_nat i := x]> v) else None.

(** [v[d] = (v[d] ^ v[a]).rotate_right(n)]. *)
Definition xor_rotate (v : list Z) (d a n : Z) : option (list Z) :=
  x ← index v d;
  y ← index v a;
  set_at v d (rotate_right (Z.lxor x y) n).

(** [v[a] = v[a].wrapping_add(v[b]).wrapping_add(x)]. *)
Definition add_into (v : list Z) (a b x : Z) : option (list Z) :=
  p ← index v a;
  q ← index v b;
  set_at v a (wrap 64 (wrap 64 (p + q) + x)).

Definition g (v : list Z) (a b c d x y : Z) : option (list Z) :=
  v ← add_into v a b x;
  v ← xor_rotate v d a 32;
  v ← add_into v c d 0;
  v ← xor_rotate v b c 24;
  v ← add_into v a b y;
  v ← xor_rotate v d a 16;
  v ← add_into v c d 0;
  xor_rotate v b c 63.

(** [g(v, a, b, c, d, m[s[i]], m[s[i + 1]])]. *)
Definition mix (m s : list Z) (i a b c d : Z) (v : list Z) : option (list Z) :=
  j ← index s i;
  k ← index s (i + 1);
  x ← index m j;
  y ← index m k;
  g v a b c d x y.

Definition round (m : list Z) (i : Z) (v : list Z) : option (list Z) :=
  s ← index SIGMA (i mod 10);
  v ← mix m s 0 0 4 8 12 v;
  v ← mix m s 2 1 5 9 13 v;
  v ← mix m s 4 2 6 10 14 v;
  v ← mix m s 6 3 7 11 15 v;
  v ← mix m s 8 0 5 10 15 v;
  v ← mix m s 10 1 6 11 12 v;
  v ← mix m s 12 2 7 8 13 v;
  mix m s 14 3 4 9 14 v.

(** [for i in 0..rounds]: [n] rounds are left, [i] is the index of the next. *)
Fixpoint rounds_loop (m : list Z) (n : nat) (i : Z) (v : list Z) : option (list Z) :=
  match n with
  | O => Some v
  | S n => v ← round m i v; rounds_loop m n (i + 1) v
  end.

(** [v[i] = f(v[i])]. *)
Definition update_at (v : list Z) (i : Z) (f : Z -> Z) : option (list Z) :=
  x ← index v i; set_at v i (f x).

(** [for i in 0..8 { h[i] ^= v[i] ^ v[i + 8]; }]. *)
Fixpoint feed_forward (h v : list Z) (n : nat) (i : Z) : option (list Z) :=
  match n with
  | O => Some h
  | S n =>
      x ← index v i;
      y ← index v (i + 8);
      h ← update_at h i (fun z => Z.lxor z (Z.lxor x y));
      feed_forward h v n (i + 1)
  end.

Definition compress (h m t : list Z) (f : bool) (rounds : Z) : option (list Z) :=
  v ← splice (replicate 16 0) 0 h;
  v ← splice v (blen h) IV;
  t0 ← index t 0;
  v ← update_at v 12 (fun x => Z.lxor x t0);
  t1 ← index t 1;
  v ← update_at v 13 (fun x => Z.lxor x t1);
  v ← (if f then update_at v 14 (fun x => 2 ^ 64 - 1 - x) else Some v);
  v ← rounds_loop m (Z.to_nat rounds) 0 v;
  feed_forward h v 8 0.

End blake2.

Definition le_val (bs : Bytes) : Z := be_val (rev bs).
Definition le_bytes (n : nat) (z : Z) : Bytes := rev (be_bytes n z).

(** Words of eight bytes, little-endian. *)
Fixpoint le_words (n : nat) (buf : Bytes) (ctr : Z) : option (list Z) :=
  match n with
  | O => Some []
  | S n =>
      w ← slice buf (ctr * 8) 8;
      ws ← le_words n buf (ctr + 1);
      Some (le_val w :: ws)
  end.

Definition BLAKE2_F_ARG_LEN : Z := 213.

Definition blake2_f_gas (input : Bytes) (rev : Revision) : option (option Z) :=
  if blen input <? 4 then Some (Some 0)
  else
    b ← slice input 0 4;
    Some (Some (be_val b)).

Definition blake2_f_run (input : Bytes) : option (option Bytes) :=
  if negb (blen input =? BLAKE2_F_ARG_LEN) then Some None
  else
    rounds_buf ← slice input 0 4;
    let rounds := be_val rounds_buf in
    h_buf ← slice input 4 64;
    h ← le_words 8 h_buf 0;
    m_buf ← slice input 68 128;
    m ← le_words 16 m_buf 0;
    t_0 ← le_val <$> slice input 196 8;
    t_1 ← le_val <$> slice input 204 8;
    flag ← index input 212;
    let run f :=
      h ← blake2.compress h m [t_0; t_1] f rounds;
      Some (Some (concat (le_bytes 8 <$> h))) in
    if byte_val flag =? 1 then run true
    else if byte_val flag =? 0 then run false
    else Some None.

(** ** Functions of other crates *)

Class Hashes := {
  sha256_digest : Bytes -> Bytes;
  ripemd160_digest : Bytes -> Bytes;
  length_ripemd160_digest bs : length (ripemd160_digest bs) = 20%nat;
}.

(** Recovery of an uncompressed public key (65 bytes) from the hash of a
    message, [r], [s] and the parity. *)
Class Secp256k1 := {
  recover_ecdsa : Bytes -> Bytes -> Bytes -> bool -> option Bytes;
}.

(** The field, curve and pairing operations of substrate-bn. *)
Class AltBn128 := {
  Fq : Type;
  Fr : Type;
  Fq2 : Type;
  G1 : Type;
  G2 : Type;
  Gt : Type;
  Fq_from_slice : Bytes -> option Fq;
  Fr_from_slice : Bytes -> option Fr;
  Fq_is_zero : Fq -> bool;
  Fq_to_big_endian : Fq -> Bytes;
  length_Fq_to_big_endian x : length (Fq_to_big_endian x) = 32%nat;
  Fq2_new : Fq -> Fq -> Fq2;
  Fq2_is_zero : Fq2 -> bool;
  G1_zero : G1;
  AffineG1_new : Fq -> Fq -> option G1;
  G1_add : G1 -> G1 -> G1;
  G1_mul : G1 -> Fr -> G1;
  (** [AffineG1::from_jacobian]: the coordinates, none at infinity. *)
  AffineG1_from_jacobian : G1 -> option (Fq * Fq);
  G2_zero : G2;
  AffineG2_new : Fq2 -> Fq2 -> option G2;
  Gt_one : Gt;
  Gt_mul : Gt -> Gt -> Gt;
  Gt_eqb : Gt -> Gt -> bool;
  pairing : G1 -> G2 -> Gt;
}.

(** [BigUint] of num-bigint: a natural number; [to_bytes_be] gives its bytes
    without leading zeros, one zero byte for zero. *)
Class BigUint := {
  to_bytes_be : Z -> Bytes;
  modpow : Z -> Z -> Z -> Z;
}.

Class BigUintLaws (B : BigUint) : Prop := {
  be_val_to_bytes_be z : 0 <= z -> be_val (to_bytes_be z) = z;
  length_to_bytes_be z n : (0 < n)%nat -> 0 <= z < 256 ^ Z.of_nat n ->
    (length (to_bytes_be z) <= n)%nat;
  modpow_spec b e m : 0 <= b -> 0 <= e -> 0 < m -> modpow b e m = b ^ e mod m;
}.

(** ** Contracts *)

(** [(input.len() as u64 + 31) / 32]. *)
Definition word_gas (base word : Z) (input : Bytes) : option (option Z) :=
  n ← u64_checked (blen input + 31);
  p ← u64_checked (word * (n / 32));
  g ← u64_checked (base + p);
  Some (Some g).

Definition ecrecover_gas (input : Bytes) (rev : Revision) : option (option Z) := Some (Some 3000).
Definition sha256_gas (input : Bytes) (rev : Revision) : option (option Z) := word_gas 60 12 input.
Definition ripemd160_gas (input : Bytes) (rev : Revision) : option (option Z) :=
  word_gas 600 120 input.
Definition id_gas (input : Bytes) (rev : Revision) : option (option Z) := word_gas 15 3 input.
Definition bn_add_gas (input : Bytes) (rev : Revision) : option (option Z) :=
  Some (Some (if Revision.geb rev Istanbul then 150 else 500)).
Definition bn_mul_gas (input : Bytes) (rev : Revision) : option (option Z) :=
  Some (Some (if Revision.geb rev Istanbul then 6000 else 40000)).

Definition SNARKV_STRIDE : Z := 192.

Definition snarkv_gas (input : Bytes) (rev : Revision) : option (option Z) :=
  let k := blen input / SNARKV_STRIDE in
  if Revision.geb rev Istanbul then
    p ← u64_checked (34000 * k); g ← u64_checked (p + 45000); Some (Some g)
  else
    p ← u64_checked (80000 * k); g ← u64_checked (p + 100000); Some (Some g).

Definition id_run (input : Bytes) : option (option Bytes) := Some (Some input).

Definition sha256_run `{Hashes} (input : Bytes) : option (option Bytes) :=
  Some (Some (sha256_digest input)).

Definition ripemd160_run `{Hashes} (input : Bytes) : option (option Bytes) :=
  b ← splice (replicate 32 x00) 12 (ripemd160_digest input);
  Some (Some b).

Definition ecrecover_run_inner `{Secp256k1, Keccak} (input : Bytes) : option (option Bytes) :=
  let input := if blen input <? 128 then vec_resize input 128 x00 else input in
  v ← slice input 32 32;
  r ← slice input 64 32;
  s ← slice input 96 32;
  let v := be_val v in
  if negb (is_valid_signature (be_val r) (be_val s)) then Some None
  else if negb ((v =? 28) || (v =? 27)) then Some None
  else
    msg ← slice input 0 32;
    match recover_ecdsa msg r s (v =? 28) with
    | None => Some None
    | Some public =>
        key ← slice public 1 (blen public - 1);
        a ← slice (keccak_digest key) 12 20;
        out ← splice (replicate 32 x00) 12 a;
        Some (Some out)
    end.

Definition ecrecover_run `{Secp256k1, Keccak} (input : Bytes) : option (option Bytes) :=
  r ← ecrecover_run_inner input;
  Some (Some (default [] r)).

(** [U256 >> n] and the checked operations of [U256]. *)
Definition mult_complexity_eip198 (x : Z) : option Z :=
  x_squared ← u256_checked (x * x);
  if x <=? 64 then Some x_squared
  else if x <=? 1024 then
    p ← u256_checked (96 * x);
    s ← u256_checked (Z.shiftr x_squared 2 + p);
    unsigned_sub s 3072
  else
    p ← u256_checked (480 * x);
    s ← u256_checked (Z.shiftr x_squared 4 + p);
    unsigned_sub s 199680.

Definition mult_complexity_eip2565 (max_length : Z) : option Z :=
  s ← u256_checked (max_length + 7);
  let words := Z.shiftr s 3 in
  u256_checked (words * words).

(** [usize::try_from] and [u64::try_from]. *)
Definition try_u64 (z : Z) : option Z := if z <=? u64_max then Some z else None.

(** [256 - x.leading_zeros()]. *)
Definition bit_length (x : Z) : Z := if x =? 0 then 0 else Z.log2 x + 1.

(** The first 32 bytes of the exponent, as a number; [input] is what follows
    the three lengths. *)
Definition exp_head_of (input : Bytes) (base_len exp_len : Z) : option Z :=
  if base_len <? blen input then
    e ← usize_checked (base_len + 32);
    s ← slice input base_len (Z.min e (blen input) - base_len);
    exp_input ← right_pad s 32;
    exp_input ← (if exp_len <? 32 then
                   t ← slice exp_input 0 exp_len; left_pad t 32
                 else Some exp_input);
    h ← slice exp_input 0 32;
    Some (be_val h)
  else Some 0.

Definition adjusted_exponent_len_of (exp_len exp_head : Z) : option Z :=
  let bit_len := bit_length exp_head in
  a ← (if 32 <? exp_len then usize_checked (8 * (exp_len - 32)) else Some 0);
  a ← (if 1 <? bit_len then u256_checked (a + (bit_len - 1)) else Some a);
  Some (if a =? 0 then 1 else a).

Definition expmod_gas (input : Bytes) (rev : Revision) : option (option Z) :=
  let min_gas := if Revision.ltb rev Berlin then 0 else 200 in
  input ← right_pad input (3 * 32);
  base_len256 ← be_val <$> slice input 0 32;
  exp_len256 ← be_val <$> slice input 32 32;
  mod_len256 ← be_val <$> slice input 64 32;
  if (base_len256 =? 0) && (mod_len256 =? 0) then Some (Some min_gas)
  else
    match try_u64 base_len256, try_u64 exp_len256, try_u64 mod_len256 with
    | Some base_len, Some exp_len, Some _ =>
        let input := drop 96 input in
        exp_head ← exp_head_of input base_len exp_len;
        adjusted_exponent_len ← adjusted_exponent_len_of exp_len exp_head;
        let max_length := Z.max mod_len256 base_len256 in
        gas ← (if Revision.ltb rev Berlin then
                 c ← mult_complexity_eip198 max_length;
                 p ← u256_checked (c * adjusted_exponent_len);
                 Some (p / param.G_QUAD_DIVISOR_BYZANTIUM)
               else
                 c ← mult_complexity_eip2565 max_length;
                 p ← u256_checked (c * adjusted_exponent_len);
                 Some (p / param.G_QUAD_DIVISOR_BERLIN));
        match try_u64 gas with
        | Some gas => Some (Some (Z.max min_gas gas))
        | None => Some None
        end
    | _, _, _ => Some None
    end.

Definition expmod_run `{BigUint} (input : Bytes) : option (option Bytes) :=
  input ← right_pad input (3 * 32);
  base_len ← be_val <$> slice input 24 8;
  exponent_len ← be_val <$> slice input 56 8;
  modulus_len ← be_val <$> slice input 88 8;
  if modulus_len =? 0 then Some (Some [])
  else
    let input := drop 96 input in
    n ← usize_checked (base_len + exponent_len);
    total ← usize_checked (n + modulus_len);
    input ← right_pad input total;
    base ← be_val <$> slice input 0 base_len;
    exponent ← be_val <$> slice input base_len exponent_len;
    modulus ← be_val <$> slice input n modulus_len;
    let out := replicate (Z.to_nat modulus_len) x00 in
    if modulus =? 0 then Some (Some out)
    else
      let b := to_bytes_be (modpow base exponent modulus) in
      at_ ← unsigned_sub modulus_len (blen b);
      out ← splice out at_ b;
      Some (Some out).

(** [read_exact] of [n] bytes from the input followed by zeros without end:
    the bytes and what is left of the input. *)
Definition read_exact (r : Bytes) (n : nat) : Bytes * Bytes :=
  (take n (r ++ replicate n x00), drop n r).

Section alt_bn128.
Context `{AltBn128}.

Definition parse_fr_point (r : Bytes) : option Fr * Bytes :=
  let '(buf, r) := read_exact r 32 in (Fr_from_slice buf, r).

Definition parse_bn_point (r : Bytes) : option G1 * Bytes :=
  let '(buf, r) := read_exact r 32 in
  match Fq_from_slice buf with
  | None => (None, r)
  | Some x =>
      let '(buf, r) := read_exact r 32 in
      match Fq_from_slice buf with
      | None => (None, r)
      | Some y => (if Fq_is_zero x && Fq_is_zero y then Some G1_zero else AffineG1_new x y, r)
      end
  end.

(** The 64 bytes of a point, zero at infinity. *)
Definition point_out (p : G1) : option Bytes :=
  let out := replicate 64 x00 in
  match AffineG1_from_jacobian p with
  | Some (x, y) =>
      out ← splice out 0 (Fq_to_big_endian x);
      splice out 32 (Fq_to_big_endian y)
  | None => Some out
  end.

Definition bn_add_run (input : Bytes) : option (option Bytes) :=
  let '(a, input) := parse_bn_point input in
  match a with
  | None => Some None
  | Some a =>
      let '(b, input) := parse_bn_point input in
      match b with
      | None => Some None
      | Some b => out ← point_out (G1_add a b); Some (Some out)
      end
  end.

Definition bn_mul_run (input : Bytes) : option (option Bytes) :=
  let '(a, input) := parse_bn_point input in
  match a with
  | None => Some None
  | Some a =>
      let '(b, input) := parse_fr_point input in
      match b with
      | None => Some None
      | Some b => out ← point_out (G1_mul a b); Some (Some out)
      end
  end.

(** [Fq::from_slice(&input[at..at + 32])]. *)
Definition fq_at (input : Bytes) (at_ : Z) : option (option Fq) :=
  b ← slice input at_ 32; Some (Fq_from_slice b).

(** The pairing of the [i]-th pair of points. *)
Definition pair_at (input : Bytes) (i : Z) : option (option Gt) :=
  a_x ← fq_at input (i * 192);
  a_y ← fq_at input (i * 192 + 32);
  b_a_y ← fq_at input (i * 192 + 64);
  b_a_x ← fq_at input (i * 192 + 96);
  b_b_y ← fq_at input (i * 192 + 128);
  b_b_x ← fq_at input (i * 192 + 160);
  Some (
    a_x ← a_x; a_y ← a_y; b_a_y ← b_a_y; b_a_x ← b_a_x; b_b_y ← b_b_y; b_b_x ← b_b_x;
    let b_a := Fq2_new b_a_x b_a_y in
    let b_b := Fq2_new b_b_x b_b_y in
    b ← (if Fq2_is_zero b_a && Fq2_is_zero b_b then Some G2_zero else AffineG2_new b_a b_b);
    a ← (if Fq_is_zero a_x && Fq_is_zero a_y then Some G1_zero else AffineG1_new a_x a_y);
    Some (pairing a b)).

(** [for i in 0..k], with [n] pairs left. *)
Fixpoint pairing_loop (input : Bytes) (n : nat) (i : Z) (mul : Gt) : option (option Gt) :=
  match n with
  | O => Some (Some mul)
  | S n =>
      p ← pair_at input i;
      match p with
      | None => Some None
      | Some p => pairing_loop input n (i + 1) (Gt_mul mul p)
      end
  end.

Definition snarkv_run (input : Bytes) : option (option Bytes) :=
  if negb (blen input mod SNARKV_STRIDE =? 0) then Some None
  else
    let k := blen input / SNARKV_STRIDE in
    if blen input =? 0 then Some (Some (be_bytes 32 1))
    else
      mul ← pairing_loop input (Z.to_nat k) 0 Gt_one;
      match mul with
      | None => Some None
      | Some mul => Some (Some (be_bytes 32 (if Gt_eqb mul Gt_one then 1 else 0)))
      end.

End alt_bn128.

Definition NUM_OF_FRONTIER_CONTRACTS : Z := 4.
Definition NUM_OF_BYZANTIUM_CONTRACTS : Z := 8.
Definition NUM_OF_ISTANBUL_CONTRACTS : Z := 9.

Record Contract := {
  contract_gas : Bytes -> Revision -> option (option Z);
  contract_run : Bytes -> option (option Bytes);
}.

Definition CONTRACTS `{Hashes, Secp256k1, Keccak, BigUint, AltBn128} : list Contract :=
  [{| contract_gas := ecrecover_gas; contract_run := ecrecover_run |};
   {| contract_gas := sha256_gas; contract_run := sha256_run |};
   {| contract_gas := ripemd160_gas; contract_run := ripemd160_run |};
   {| contract_gas := id_gas; contract_run := id_run |};
   {| contract_gas := expmod_gas; contract_run := expmod_run |};
   {| contract_gas := bn_add_gas; contract_run := bn_add_run |};
   {| contract_gas := bn_mul_gas; contract_run := bn_mul_run |};
   {| contract_gas := snarkv_gas; contract_run := snarkv_run |};
   {| contract_gas := blake2_f_gas; contract_run := blake2_f_run |}].
