(* ===== verification/PrecompiledSpec.v ===== *)
(** Correctness of the precompiled contracts: BLAKE2b compression is total,
    modular exponentiation computes what it says and is priced as EIP-198 and
    EIP-2565 say. *)
From S2P Require Import Prelude Word Properties EvmState Transaction Precompiled.
From Stdlib Require Import ZArith Lia Strings.Byte.
From stdpp Require Import base list option numbers.
#[local] Open Scope Z_scope.

Lemma fmap_Some_eq {A B} (f : A -> B) (x : A) : f <$> Some x = Some (f x).
Proof. done. Qed.

(** ** BLAKE2b *)

Module blake2_spec.
Import blake2.

Lemma set_at_ok v i x : 0 <= i < blen v -> exists v', set_at v i x = Some v' /\ blen v' = blen v.
Proof.
  intros [? ?]. unfold set_at. rewrite (proj2 (Z.leb_le _ _)), (proj2 (Z.ltb_lt _ _)) by done.
  simpl. eexists. split; [done|]. unfold blen. by rewrite length_insert.
Qed.

(** A step on lists of sixteen words that does not fail. *)
Definition total16 (f : list Z -> option (list Z)) : Prop :=
  forall v, blen v = 16 -> exists v', f v = Some v' /\ blen v' = 16.

Lemma total16_bind f k : total16 f -> total16 k -> total16 (fun v => f v ≫= k).
Proof. intros Hf Hk v Hv. destruct (Hf v Hv) as (v1 & -> & H1). by apply Hk. Qed.

Lemma update_two v i j f : blen v = 16 -> 0 <= i < 16 -> 0 <= j < 16 ->
  exists v', (x ← index v i; y ← index v j; set_at v i (f x y)) = Some v' /\ blen v' = 16.
Proof.
  intros Hv Hi Hj. destruct (index_some v i) as [x ->]; [lia|].
  destruct (index_some v j) as [y ->]; [lia|]. simpl.
  destruct (set_at_ok v i (f x y)) as (v' & ? & ?); [lia|]. exists v'. split; [done|lia].
Qed.

Lemma total16_xor d a n : 0 <= d < 16 -> 0 <= a < 16 -> total16 (fun v => xor_rotate v d a n).
Proof. intros Hd Ha v Hv. by apply (update_two v d a (fun x y => rotate_right (Z.lxor x y) n)). Qed.

Lemma total16_add a b x : 0 <= a < 16 -> 0 <= b < 16 -> total16 (fun v => add_into v a b x).
Proof. intros Ha Hb v Hv. by apply (update_two v a b (fun p q => wrap 64 (wrap 64 (p + q) + x))). Qed.

Lemma total16_g a b c d x y : 0 <= a < 16 -> 0 <= b < 16 -> 0 <= c < 16 -> 0 <= d < 16 ->
  total16 (fun v => g v a b c d x y).
Proof.
  intros. unfold g. repeat (apply total16_bind; [by apply total16_add || by apply total16_xor|]).
  by apply total16_xor.
Qed.

(** A schedule: sixteen indices of message words. *)
Definition schedule (s : list Z) : Prop := blen s = 16 /\ Forall (fun i => 0 <= i < 16) s.

Lemma schedule_index s i : schedule s -> 0 <= i < 16 -> exists j, index s i = Some j /\ 0 <= j < 16.
Proof.
  intros [Hl Hs] Hi. destruct (index_some s i) as [j Hj]; [lia|]. exists j. split; [done|].
  unfold index in Hj. rewrite (proj2 (Z.leb_le _ _)) in Hj by lia.
  by apply (Forall_lookup_1 _ _ _ _ Hs Hj).
Qed.

Lemma SIGMA_schedule i : exists s, index SIGMA (i mod 10) = Some s /\ schedule s.
Proof.
  pose proof (Z.mod_pos_bound i 10 ltac:(lia)) as Hi.
  destruct (index_some SIGMA (i mod 10)) as [s Hs]; [done|]. exists s. split; [done|].
  assert (Forall schedule SIGMA) as H by (repeat constructor; try (by vm_compute); lia).
  unfold index in Hs. rewrite (proj2 (Z.leb_le _ _)) in Hs by lia.
  by apply (Forall_lookup_1 _ _ _ _ H Hs).
Qed.

Lemma total16_mix m s i a b c d : blen m = 16 -> schedule s -> 0 <= i < 15 ->
  0 <= a < 16 -> 0 <= b < 16 -> 0 <= c < 16 -> 0 <= d < 16 ->
  total16 (mix m s i a b c d).
Proof.
  intros Hm Hs Hi ? ? ? ? v Hv. unfold mix.
  destruct (schedule_index s i Hs) as (j & -> & Hj); [lia|].
  destruct (schedule_index s (i + 1) Hs) as (k & -> & Hk); [lia|]. simpl.
  destruct (index_some m j) as [x ->]; [lia|]. destruct (index_some m k) as [y ->]; [lia|].
  simpl. by apply total16_g.
Qed.

Lemma total16_round m i : blen m = 16 -> total16 (round m i).
Proof.
  intros Hm v Hv. unfold round. destruct (SIGMA_schedule i) as (s & -> & Hs). simpl. revert v Hv.
  repeat (apply total16_bind; [by apply total16_mix|]). by apply total16_mix.
Qed.

Lemma total16_rounds m n : blen m = 16 -> forall i, total16 (rounds_loop m n i).
Proof.
  intros Hm. induction n as [|n IH]; intros i v Hv; simpl; [by exists v|].
  destruct (total16_round m i Hm v Hv) as (v1 & -> & H1). by apply IH.
Qed.

Lemma update_at_ok v i f : 0 <= i < blen v -> exists v', update_at v i f = Some v' /\ blen v' = blen v.
Proof.
  intros Hi. unfold update_at. destruct (index_some v i Hi) as [x ->]. simpl. by apply set_at_ok.
Qed.

Lemma feed_forward_ok v : blen v = 16 -> forall n h i, blen h = 8 -> 0 <= i -> i + Z.of_nat n <= 8 ->
  exists h', feed_forward h v n i = Some h' /\ blen h' = 8.
Proof.
  intros Hv. induction n as [|n IH]; intros h i Hh Hi Hn; simpl; [by exists h|].
  destruct (index_some v i) as [x ->]; [lia|]. destruct (index_some v (i + 8)) as [y ->]; [lia|].
  simpl. destruct (update_at_ok h i (fun z => Z.lxor z (Z.lxor x y))) as (h' & -> & Hh'); [lia|].
  apply IH; lia.
Qed.

Lemma compress_ok h m t f rounds : blen h = 8 -> blen m = 16 -> blen t = 2 ->
  exists h', compress h m t f rounds = Some h' /\ blen h' = 8.
Proof.
  intros Hh Hm Ht. unfold compress.
  destruct (splice_some (replicate 16 0) 0 h) as (v1 & -> & H1); [done|rewrite Hh; done|].
  destruct (splice_some v1 (blen h) IV) as (v2 & E2 & H2); [lia|rewrite H1, Hh; done|]. simpl.
  rewrite E2. simpl. rewrite H1 in H2. change (blen (replicate 16 0)) with 16 in H2.
  destruct (index_some t 0) as [t0 ->]; [lia|]. simpl.
  destruct (update_at_ok v2 12 (fun x => Z.lxor x t0)) as (v3 & -> & H3); [lia|].
  destruct (index_some t 1) as [t1 ->]; [lia|]. simpl.
  destruct (update_at_ok v3 13 (fun x => Z.lxor x t1)) as (v4 & -> & H4); [lia|]. simpl.
  assert (exists v5, (if f then update_at v4 14 (fun x => 2 ^ 64 - 1 - x) else Some v4) = Some v5
    /\ blen v5 = 16) as (v5 & -> & H5).
  { destruct f; [|by exists v4; split; [done|lia]].
    destruct (update_at_ok v4 14 (fun x => 2 ^ 64 - 1 - x)) as (v5 & ? & ?); [lia|].
    exists v5. split; [done|lia]. }
  rewrite bind_Some_eq. destruct (total16_rounds m (Z.to_nat rounds) Hm 0 v5 H5) as (v6 & -> & H6).
  rewrite bind_Some_eq.
  exact (feed_forward_ok v6 H6 8 h 0 Hh ltac:(lia) ltac:(lia)).
Qed.

End blake2_spec.

Lemma le_words_ok n : forall buf ctr, 0 <= ctr -> ctr * 8 + Z.of_nat n * 8 <= blen buf ->
  exists ws, le_words n buf ctr = Some ws /\ blen ws = Z.of_nat n.
Proof.
  induction n as [|n IH]; intros buf ctr Hc Hn; simpl; [by exists []|].
  destruct (slice_some buf (ctr * 8) 8) as (w & -> & _); [lia..|]. simpl.
  destruct (IH buf (ctr + 1)) as (ws & -> & Hw); [lia..|]. simpl.
  eexists. split; [done|]. unfold blen in *. simpl. lia.
Qed.

Lemma length_concat_le_bytes h : length (concat (le_bytes 8 <$> h)) = (8 * length h)%nat.
Proof.
  induction h as [|x h IH]; [done|]. cbn [fmap list_fmap concat length].
  rewrite length_app, IH. unfold le_bytes. rewrite length_rev, length_be_bytes. lia.
Qed.

Lemma blake2_f_run_ok input : exists r, blake2_f_run input = Some r /\
  (r = None <-> blen input <> BLAKE2_F_ARG_LEN \/
     exists b, index input 212 = Some b /\ 1 < byte_val b) /\
  forall out, r = Some out -> blen out = 64.
Proof.
  unfold blake2_f_run. destruct (Z.eqb_spec (blen input) BLAKE2_F_ARG_LEN) as [Hl|Hl]; cbn [negb].
  2: { exists None. split; [done|]. split; [tauto|done]. }
  unfold BLAKE2_F_ARG_LEN in Hl.
  destruct (slice_some input 0 4) as (b0 & -> & _); [lia..|]. rewrite bind_Some_eq. cbv zeta.
  destruct (slice_some input 4 64) as (b1 & -> & H1); [lia..|]. rewrite bind_Some_eq.
  destruct (le_words_ok 8 b1 0) as (h & -> & Hh); [lia..|]. rewrite bind_Some_eq.
  destruct (slice_some input 68 128) as (b2 & -> & H2); [lia..|]. rewrite bind_Some_eq.
  destruct (le_words_ok 16 b2 0) as (m & -> & Hm); [lia..|]. rewrite bind_Some_eq.
  destruct (slice_some input 196 8) as (b3 & -> & _); [lia..|].
  destruct (slice_some input 204 8) as (b4 & -> & _); [lia..|]. rewrite !fmap_Some_eq, !bind_Some_eq.
  destruct (index_some input 212) as [flag Hf]; [lia|]. rewrite Hf, bind_Some_eq.
  assert (forall f, exists out, (h0 ← blake2.compress h m [le_val b3; le_val b4] f (be_val b0);
    Some (Some (concat (le_bytes 8 <$> h0)))) = Some (Some out) /\ blen out = 64) as Hrun.
  { intros f. destruct (blake2_spec.compress_ok h m [le_val b3; le_val b4] f (be_val b0))
      as (h' & -> & Hh'); [done..|].
    eexists. split; [done|]. unfold blen in *. rewrite length_concat_le_bytes. lia. }
  pose proof (byte_val_range flag). destruct (Z.eqb_spec (byte_val flag) 1); [|
    destruct (Z.eqb_spec (byte_val flag) 0)].
  1-2: match goal with |- context [blake2.compress _ _ _ ?f _] => destruct (Hrun f) as (out & -> & Ho) end;
    exists (Some out); split; [done|]; split; [|by intros ? [= <-]]; split; [done|];
    intros [?|(b & [= <-] & ?)]; [done|lia].
  exists None. split; [done|]. split; [|done]. split; [|done]. intros _. right. exists flag. split; [done|lia].
Qed.

(** The BLAKE2b contract is total: it fails exactly on inputs that are not
    213 bytes long or whose last byte is neither 0 nor 1, and otherwise returns
    64 bytes after any number of rounds; no index of the state, the message or
    the schedule is out of range. *)
Theorem blake2_f_total input : exists r, blake2_f_run input = Some r /\
  (r = None <-> blen input <> BLAKE2_F_ARG_LEN \/
     exists b, index input 212 = Some b /\ 1 < byte_val b) /\
  forall out, r = Some out -> blen out = 64.
Proof. apply blake2_f_run_ok. Qed.

(** A vector of EIP-152: twelve rounds on the message abc. *)
Definition blake2_input : Bytes :=
  be_bytes 4 12 ++
  be_bytes 64 0x48c9bdf267e6096a3ba7ca8485ae67bb2bf894fe72f36e3cf1361d5f3af54fa5d182e6ad7f520e511f6c3e2b8c68059b6bbd41fbabd9831f79217e1319cde05b ++
  be_bytes 3 0x616263 ++ be_bytes 125 0 ++ be_bytes 8 0x0300000000000000 ++ be_bytes 8 0 ++ [x01].

Example blake2_f_vector : blake2_f_run blake2_input = Some (Some (be_bytes 64
  0xba80a53f981c4d0d6a2797b69f12f6e94c212f14685ac4b74b12bb6fdbffa2d17d87c5392aab792dc252d5de4533cc9518d38aa8dbf1925ab92386edd4009923)).
Proof. vm_compute. reflexivity. Qed.

(** ** Modular exponentiation *)

(** The [k] bytes at [off] of the input followed by zeros, as a number. *)
Definition zbytes (l : Bytes) (off k : nat) : Bytes :=
  (fun i => default x00 (l !! i)) <$> seq off k.
Definition zread (l : Bytes) (off k : nat) : Z := be_val (zbytes l off k).

Lemma zbytes_ext l l' off off' k :
  (forall i, (i < k)%nat -> default x00 (l !! (off + i)%nat) = default x00 (l' !! (off' + i)%nat)) ->
  zbytes l off k = zbytes l' off' k.
Proof.
  intros Hl. unfold zbytes. apply list_eq. intros i. rewrite !list_lookup_fmap.
  destruct (decide (i < k)%nat) as [Hi|Hi].
  - rewrite !lookup_seq_lt by done. simpl. by rewrite Hl.
  - by rewrite !lookup_seq_ge by lia.
Qed.

Lemma zbytes_zeros l j off k : zbytes (l ++ replicate j x00) off k = zbytes l off k.
Proof.
  apply zbytes_ext. intros i _. rewrite lookup_app.
  destruct (l !! (off + i)%nat) eqn:E; [done|]. destruct (replicate j x00 !! _) eqn:E2; [|done].
  by apply lookup_replicate in E2 as [-> _].
Qed.

Lemma zbytes_drop l d off k : zbytes (drop d l) off k = zbytes l (d + off) k.
Proof. apply zbytes_ext. intros i _. rewrite lookup_drop. do 2 f_equal. lia. Qed.

Lemma length_zbytes l off k : length (zbytes l off k) = k.
Proof. unfold zbytes. by rewrite length_fmap, length_seq. Qed.

Lemma slice_zbytes l off k : 0 <= off -> 0 <= k -> off + k <= blen l ->
  slice l off k = Some (zbytes l (Z.to_nat off) (Z.to_nat k)).
Proof.
  intros Ho Hk Hl. unfold slice. rewrite !(proj2 (Z.leb_le _ _)) by lia. simpl. f_equal.
  apply list_eq. intros i. unfold zbytes. rewrite list_lookup_fmap.
  destruct (decide (i < Z.to_nat k)%nat) as [Hi|Hi].
  - rewrite lookup_take_lt, lookup_drop, lookup_seq_lt by lia. simpl.
    destruct (lookup_lt_is_Some_2 l (Z.to_nat off + i)%nat) as [b ->]; [unfold blen in Hl; lia|done].
  - rewrite lookup_seq_ge by lia. rewrite lookup_ge_None_2; [done|]. rewrite length_take. lia.
Qed.

Lemma right_pad_eq l n : 0 <= n ->
  exists j, right_pad l n = Some (l ++ replicate j x00) /\
    blen (l ++ replicate j x00) = Z.max n (blen l).
Proof.
  intros Hn. unfold right_pad, pad. destruct (Z.leb_spec n (blen l)).
  - exists 0%nat. rewrite app_nil_r. split; [done|lia].
  - rewrite bind_Some_eq. unfold splice. rewrite blen_replicate by done.
    rewrite !(proj2 (Z.leb_le _ _)) by lia. cbn [andb].
    exists (Z.to_nat n - length l)%nat. split.
    + rewrite drop_replicate.
      by replace (Z.to_nat n - Z.to_nat (0 + blen l))%nat with (Z.to_nat n - length l)%nat
        by (unfold blen; lia).
    + unfold blen in *. rewrite length_app, length_replicate. lia.
Qed.

Lemma left_pad_eq l n : 0 <= n -> blen l <= n ->
  left_pad l n = Some (replicate (Z.to_nat (n - blen l)) x00 ++ l).
Proof.
  intros Hn Hl. pose proof (blen_nonneg l). unfold left_pad, pad. destruct (Z.leb_spec n (blen l)).
  - replace (n - blen l) with 0 by lia. done.
  - rewrite unsigned_sub_some, bind_Some_eq by lia. unfold splice. rewrite blen_replicate by done.
    rewrite !(proj2 (Z.leb_le _ _)) by lia. cbn [andb].
    rewrite drop_ge by (rewrite length_replicate; unfold blen; lia).
    rewrite take_replicate, app_nil_r. by rewrite Nat.min_l by lia.
Qed.

Lemma be_bytes_0 n : be_bytes n 0 = replicate n x00.
Proof.
  induction n as [|n IH]; [done|]. cbn [be_bytes]. rewrite Z.div_0_l, IH by lia.
  by rewrite replicate_S_end.
Qed.

Lemma be_bytes_pad n bs : (length bs <= n)%nat ->
  be_bytes n (be_val bs) = replicate (n - length bs) x00 ++ bs.
Proof.
  intros H. rewrite <- (be_bytes_val (replicate (n - length bs) x00 ++ bs)).
  rewrite length_app, length_replicate, be_val_replicate0. f_equal. lia.
Qed.

Lemma be_val_zbytes l off k : 0 <= zread l off k < 256 ^ Z.of_nat k.
Proof. unfold zread. pose proof (be_val_range (zbytes l off k)). by rewrite length_zbytes in *. Qed.

(** The slices of a padded input. *)
Lemma padded_slice l j off k : 0 <= off -> 0 <= k -> off + k <= blen (l ++ replicate j x00) ->
  be_val <$> slice (l ++ replicate j x00) off k = Some (zread l (Z.to_nat off) (Z.to_nat k)).
Proof. intros. by rewrite slice_zbytes, zbytes_zeros. Qed.

Lemma padded_slice_drop l j j' off k : 0 <= off -> 0 <= k ->
  off + k <= blen (drop 96 (l ++ replicate j x00) ++ replicate j' x00) ->
  be_val <$> slice (drop 96 (l ++ replicate j x00) ++ replicate j' x00) off k =
  Some (zread l (96 + Z.to_nat off) (Z.to_nat k)).
Proof. intros. by rewrite slice_zbytes, zbytes_zeros, zbytes_drop, zbytes_zeros. Qed.

(** Modular exponentiation.  The three lengths are read from the first 96
    bytes, base, exponent and modulus from what follows, all of it as if the
    input went on with zeros; the result is [base ^ exponent mod modulus] in as
    many bytes as the modulus has, and zero if the modulus is zero. *)
Theorem expmod_run_correct {B : BigUint} {BL : BigUintLaws B} input :
  let base_len := zread input 24 8 in
  let exp_len := zread input 56 8 in
  let mod_len := zread input 88 8 in
  base_len + exp_len + mod_len <= u64_max ->
  let base := zread input 96 (Z.to_nat base_len) in
  let exponent := zread input (96 + Z.to_nat base_len) (Z.to_nat exp_len) in
  let modulus := zread input (96 + Z.to_nat (base_len + exp_len)) (Z.to_nat mod_len) in
  expmod_run input = Some (Some (be_bytes (Z.to_nat mod_len)
    (if modulus =? 0 then 0 else base ^ exponent mod modulus))).
Proof.
  intros base_len exp_len mod_len Hlen base exponent modulus. unfold expmod_run.
  destruct (right_pad_eq input (3 * 32)) as (j & -> & Hj); [lia|]. rewrite bind_Some_eq.
  rewrite !padded_slice by lia. rewrite !bind_Some_eq.
  change (Z.to_nat 24) with 24%nat. change (Z.to_nat 56) with 56%nat.
  change (Z.to_nat 88) with 88%nat. change (Z.to_nat 8) with 8%nat.
  fold base_len exp_len mod_len. cbv zeta.
  assert (0 <= base_len) by apply be_val_zbytes. assert (0 <= exp_len) by apply be_val_zbytes.
  assert (0 <= mod_len) by apply be_val_zbytes.
  destruct (Z.eqb_spec mod_len 0) as [E|E]; [by rewrite E|].
  unfold usize_checked. rewrite checked_some, bind_Some_eq by lia.
  rewrite checked_some, bind_Some_eq by lia.
  destruct (right_pad_eq (drop 96 (input ++ replicate j x00)) (base_len + exp_len + mod_len))
    as (j' & -> & Hj'); [lia|]. rewrite bind_Some_eq.
  rewrite !padded_slice_drop by lia. rewrite !bind_Some_eq.
  change (96 + Z.to_nat 0)%nat with 96%nat. fold base exponent modulus.
  destruct (Z.eqb_spec modulus 0); [by rewrite be_bytes_0|].
  assert (0 <= modulus < 256 ^ Z.of_nat (Z.to_nat mod_len)) by apply be_val_zbytes.
  rewrite modpow_spec; [|apply be_val_zbytes|apply be_val_zbytes|lia].
  pose proof (Z.mod_pos_bound (base ^ exponent) modulus ltac:(lia)).
  set (z := base ^ exponent mod modulus) in *.
  pose proof (length_to_bytes_be z (Z.to_nat mod_len) ltac:(lia) ltac:(lia)) as Hb.
  rewrite unsigned_sub_some, bind_Some_eq by (unfold blen; lia).
  unfold splice. rewrite blen_replicate by lia. rewrite !(proj2 (Z.leb_le _ _)) by (unfold blen; lia).
  cbn [andb]. rewrite bind_Some_eq. do 2 f_equal.
  pose proof (be_bytes_pad _ _ Hb) as Hp. rewrite be_val_to_bytes_be in Hp by lia. rewrite Hp.
  rewrite drop_ge by (rewrite length_replicate; unfold blen; lia).
  rewrite app_nil_r, take_replicate. f_equal. f_equal. unfold blen. lia.
Qed.

(** The bytes of a number without leading zeros. *)
Definition min_bytes (z : Z) : Bytes :=
  if z =? 0 then [x00] else be_bytes (Z.to_nat (Z.log2 z / 8 + 1)) z.

#[local] Instance big_uint : BigUint := {|
  to_bytes_be := min_bytes;
  modpow b e m := b ^ e mod m;
|}.

Lemma log2_bytes z : 0 < z -> 256 ^ (Z.log2 z / 8) <= z < 256 ^ (Z.log2 z / 8 + 1).
Proof.
  intros Hz. pose proof (Z.log2_spec z Hz) as [H1 H2]. pose proof (Z.log2_nonneg z).
  pose proof (Z.div_pos (Z.log2 z) 8 ltac:(lia) ltac:(lia)).
  pose proof (Z.mul_div_le (Z.log2 z) 8 ltac:(lia)).
  pose proof (Z.mul_succ_div_gt (Z.log2 z) 8 ltac:(lia)).
  change 256 with (2 ^ 8). rewrite <- !Z.pow_mul_r by lia. split.
  - etransitivity; [|exact H1]. apply Z.pow_le_mono_r; lia.
  - eapply Z.lt_le_trans; [exact H2|]. apply Z.pow_le_mono_r; lia.
Qed.

#[local] Instance big_uint_laws : BigUintLaws big_uint.
Proof.
  split; simpl; unfold min_bytes.
  - intros z Hz. case_if; [by subst|]. rewrite be_val_bytes. apply Z.mod_small.
    pose proof (log2_bytes z ltac:(lia)). pose proof (Z.log2_nonneg z).
    pose proof (Z.div_pos (Z.log2 z) 8). rewrite Z2Nat.id by lia. lia.
  - intros z n Hn Hz. case_if; [simpl; lia|]. rewrite length_be_bytes.
    pose proof (log2_bytes z ltac:(lia)) as [Hl _]. pose proof (Z.log2_nonneg z).
    pose proof (Z.div_pos (Z.log2 z) 8 ltac:(lia) ltac:(lia)).
    assert (Z.log2 z / 8 < Z.of_nat n); [|lia].
    apply (Z.pow_lt_mono_r_iff 256); lia.
  - done.
Qed.

(** 3 ^ 5 mod 7. *)
Definition expmod_input : Bytes :=
  be_bytes 32 1 ++ be_bytes 32 1 ++ be_bytes 32 2 ++ [x03; x05; x00; x07].

Lemma expmod_run_correct_witness : expmod_run expmod_input = Some (Some [x00; x05]).
Proof. apply (expmod_run_correct expmod_input). vm_compute. discriminate. Defined.

(** *** Gas *)

(** The number of iterations (EIP-198), at least one. *)
Definition iteration_count (exp_len exp_head : Z) : Z :=
  Z.max 1 ((if 32 <? exp_len then 8 * (exp_len - 32) else 0) + Z.max 0 (bit_length exp_head - 1)).

Definition complexity (rev : Revision) (x : Z) : Z :=
  if Revision.ltb rev Berlin then
    if x <=? 64 then x * x
    else if x <=? 1024 then x * x / 4 + 96 * x - 3072
    else x * x / 16 + 480 * x - 199680
  else ((x + 7) / 8) * ((x + 7) / 8).

Definition expmod_price (rev : Revision) (base_len exp_len mod_len exp_head : Z) : Z :=
  complexity rev (Z.max mod_len base_len) * iteration_count exp_len exp_head /
  (if Revision.ltb rev Berlin then 20 else 3).

Definition expmod_floor (rev : Revision) : Z := if Revision.ltb rev Berlin then 0 else 200.

Lemma zbytes_full l : zbytes l 0 (length l) = l.
Proof.
  apply list_eq. intros i. unfold zbytes. rewrite list_lookup_fmap.
  destruct (decide (i < length l)%nat) as [Hi|Hi].
  - rewrite lookup_seq_lt by done. simpl. by destruct (lookup_lt_is_Some_2 l i Hi) as [b ->].
  - by rewrite lookup_seq_ge, lookup_ge_None_2 by lia.
Qed.

Lemma zbytes_nested l off k m : (m <= k \/ length l <= off + k)%nat ->
  zbytes (zbytes l off k) 0 m = zbytes l off m.
Proof.
  intros H. apply zbytes_ext. intros i Hi. unfold zbytes. rewrite list_lookup_fmap.
  destruct (decide (i < k)%nat).
  - by rewrite lookup_seq_lt.
  - rewrite lookup_seq_ge by lia. by rewrite (lookup_ge_None_2 l) by lia.
Qed.

Lemma slice_whole (l : Bytes) : slice l 0 (blen l) = Some l.
Proof.
  rewrite slice_zbytes by (pose proof (blen_nonneg l); lia). unfold blen. rewrite Nat2Z.id.
  by rewrite zbytes_full.
Qed.

Lemma zread_past l off k : (length l <= off)%nat -> zread l off k = 0.
Proof.
  intros H. unfold zread. replace (zbytes l off k) with (replicate k x00).
  - rewrite <- (app_nil_r (replicate k x00)). by rewrite be_val_replicate0.
  - symmetry. apply list_eq. intros i. unfold zbytes. rewrite list_lookup_fmap.
    destruct (decide (i < k)%nat).
    + rewrite lookup_seq_lt, lookup_replicate_2 by done. simpl.
      by rewrite lookup_ge_None_2 by lia.
    + rewrite lookup_seq_ge by lia. symmetry. apply lookup_ge_None_2. rewrite length_replicate. lia.
Qed.

(** The head of the exponent of an input [l]: the first 32 bytes of it, or all. *)
Lemma exp_head_eq (l : Bytes) base_len exp_len : blen l <= i64_max -> 0 <= base_len -> 0 <= exp_len ->
  exp_head_of l base_len exp_len =
  Some (zread l (Z.to_nat base_len) (Z.to_nat (Z.min exp_len 32))).
Proof.
  intros Hl Hb He. unfold exp_head_of. destruct (Z.ltb_spec base_len (blen l)).
  2: { by rewrite zread_past by (unfold blen in *; lia). }
  unfold usize_checked. rewrite checked_some, bind_Some_eq by (unfold i64_max, u64_max in *; lia).
  rewrite slice_zbytes, bind_Some_eq by lia.
  set (k := Z.to_nat (Z.min (base_len + 32) (blen l) - base_len)).
  set (s := zbytes l (Z.to_nat base_len) k).
  destruct (right_pad_eq s 32) as (n & -> & Hn); [lia|]. rewrite bind_Some_eq.
  assert (blen s = Z.of_nat k) as Hs by (unfold s, blen; by rewrite length_zbytes).
  assert (length (s ++ replicate n x00) = 32%nat) as Hlen by (unfold blen, k in *; lia).
  assert (s ++ replicate n x00 = zbytes l (Z.to_nat base_len) 32) as ->.
  { rewrite <- (zbytes_full (s ++ replicate n x00)), Hlen, zbytes_zeros. apply zbytes_nested.
    unfold k, blen in *. lia. }
  assert (blen (zbytes l (Z.to_nat base_len) 32) = 32) as H32 by (unfold blen; by rewrite length_zbytes).
  destruct (Z.ltb_spec exp_len 32).
  - rewrite slice_zbytes, bind_Some_eq, zbytes_nested by (rewrite ?H32; lia).
    assert (blen (zbytes l (Z.to_nat base_len) (Z.to_nat exp_len)) = exp_len) as Hx
      by (unfold blen; rewrite length_zbytes; lia).
    rewrite left_pad_eq, bind_Some_eq, Hx by lia.
    set (t := replicate _ x00 ++ _).
    assert (blen t = 32) as Ht by (unfold t; rewrite blen_app, blen_replicate, Hx; lia).
    pose proof (slice_whole t) as Hw. rewrite Ht in Hw. rewrite Hw, bind_Some_eq. unfold t.
    rewrite be_val_replicate0. by rewrite Z.min_l by lia.
  - rewrite bind_Some_eq. pose proof (slice_whole (zbytes l (Z.to_nat base_len) 32)) as Hw.
    rewrite H32 in Hw. rewrite Hw, bind_Some_eq. rewrite Z.min_r by lia.
    change (Z.to_nat 32) with 32%nat. unfold zread. reflexivity.
Qed.

Lemma bit_length_range x : 0 <= x < 2 ^ 256 -> 0 <= bit_length x <= 256.
Proof.
  intros Hx. unfold bit_length. case_if; [lia|]. pose proof (Z.log2_nonneg x).
  assert (Z.log2 x < 256) by (apply Z.log2_lt_pow2; lia). lia.
Qed.

(** The longest exponent whose length in bits fits into a machine word. *)
Definition max_exp_len : Z := 2 ^ 61 + 31.

Lemma adjusted_eq exp_len exp_head : 0 <= exp_len <= max_exp_len -> 0 <= exp_head < 2 ^ 256 ->
  adjusted_exponent_len_of exp_len exp_head = Some (iteration_count exp_len exp_head).
Proof.
  intros He Hh. unfold adjusted_exponent_len_of, iteration_count, max_exp_len in *.
  pose proof (bit_length_range exp_head Hh). assert (2 ^ 64 < 2 ^ 256 - 300) by done.
  generalize dependent (bit_length exp_head). intros b Hb.
  assert ((if 32 <? exp_len then usize_checked (8 * (exp_len - 32)) else Some 0) =
    Some (if 32 <? exp_len then 8 * (exp_len - 32) else 0)) as ->
    by (case_if; [|done]; unfold usize_checked; apply checked_some; unfold u64_max; lia).
  rewrite bind_Some_eq. set (a := if 32 <? exp_len then _ else 0).
  assert (0 <= a < 2 ^ 64) by (unfold a; case_if; lia). generalize dependent a. intros a Ha.
  case_if.
  - rewrite bind_u256 by lia. f_equal. case_if; lia.
  - rewrite bind_Some_eq. f_equal. case_if; lia.
Qed.

Lemma iteration_count_range exp_len exp_head : 0 <= exp_len <= max_exp_len ->
  0 <= exp_head < 2 ^ 256 -> 1 <= iteration_count exp_len exp_head <= 2 ^ 65.
Proof.
  intros He Hh. unfold iteration_count, max_exp_len in *. pose proof (bit_length_range exp_head Hh).
  case_if; lia.
Qed.

Lemma complexity_eq rev x : 0 <= x <= u64_max ->
  (if Revision.ltb rev Berlin then mult_complexity_eip198 x else mult_complexity_eip2565 x) =
  Some (complexity rev x) /\ 0 <= complexity rev x <= 2 ^ 130.
Proof.
  unfold u64_max. intros Hx. unfold complexity. assert (2 ^ 131 < 2 ^ 256) by done.
  assert (0 <= x * x <= 2 ^ 128) by nia.
  destruct (Revision.ltb rev Berlin).
  - unfold mult_complexity_eip198. rewrite bind_u256 by lia.
    rewrite !Z.shiftr_div_pow2 by lia. change (2 ^ 2) with 4. change (2 ^ 4) with 16.
    pose proof (Z.div_pos (x * x) 4 ltac:(lia) ltac:(lia)).
    pose proof (Z.div_pos (x * x) 16 ltac:(lia) ltac:(lia)).
    pose proof (Z.mul_div_le (x * x) 4 ltac:(lia)). pose proof (Z.mul_div_le (x * x) 16 ltac:(lia)).
    repeat case_if; [split; [done|lia]|..].
    + rewrite bind_u256 by lia. rewrite bind_u256 by lia.
      rewrite unsigned_sub_some by lia. split; [done|lia].
    + rewrite bind_u256 by lia. rewrite bind_u256 by lia.
      rewrite unsigned_sub_some by lia. split; [done|lia].
  - unfold mult_complexity_eip2565. rewrite bind_u256 by lia.
    rewrite Z.shiftr_div_pow2 by lia. change (2 ^ 3) with 8. cbv zeta.
    assert (0 <= (x + 7) / 8 <= x + 7)
      by (split; [apply Z.div_pos; lia|apply Z.div_le_upper_bound; lia]).
    rewrite u256_checked_some by nia. split; [done|nia].
Qed.

(** The lengths in an input, and the head of its exponent. *)
Definition base_len_of (input : Bytes) : Z := zread input 0 32.
Definition exp_len_of (input : Bytes) : Z := zread input 32 32.
Definition mod_len_of (input : Bytes) : Z := zread input 64 32.
Definition head_of (input : Bytes) : Z :=
  zread input (96 + Z.to_nat (base_len_of input)) (Z.to_nat (Z.min (exp_len_of input) 32)).

(** The body of [expmod_gas] after the lengths have been read. *)
Lemma expmod_gas_unfold input rev : blen input <= i64_max - 96 ->
  expmod_gas input rev =
  if (base_len_of input =? 0) && (mod_len_of input =? 0) then Some (Some (expmod_floor rev))
  else match try_u64 (base_len_of input), try_u64 (exp_len_of input), try_u64 (mod_len_of input) with
       | Some _, Some _, Some _ =>
           a ← adjusted_exponent_len_of (exp_len_of input) (head_of input);
           gas ← (if Revision.ltb rev Berlin then
                    c ← mult_complexity_eip198 (Z.max (mod_len_of input) (base_len_of input));
                    p ← u256_checked (c * a); Some (p / 20)
                  else
                    c ← mult_complexity_eip2565 (Z.max (mod_len_of input) (base_len_of input));
                    p ← u256_checked (c * a); Some (p / 3));
           match try_u64 gas with
           | Some gas => Some (Some (Z.max (expmod_floor rev) gas))
           | None => Some None
           end
       | _, _, _ => Some None
       end.
Proof.
  intros Hi. unfold expmod_gas. pose proof (blen_nonneg input).
  destruct (right_pad_eq input (3 * 32)) as (j & -> & Hj); [lia|]. rewrite bind_Some_eq.
  rewrite !padded_slice by lia. rewrite !bind_Some_eq.
  change (Z.to_nat 0) with 0%nat. change (Z.to_nat 32) with 32%nat. change (Z.to_nat 64) with 64%nat.
  unfold base_len_of, exp_len_of, mod_len_of, head_of, base_len_of, exp_len_of, expmod_floor. cbv zeta.
  assert (0 <= zread input 0 32) by apply be_val_zbytes.
  assert (0 <= zread input 32 32) by apply be_val_zbytes.
  set (bl := zread input 0 32) in *. set (el := zread input 32 32) in *.
  set (ml := zread input 64 32). unfold try_u64 at 1 2 3 5 6 7.
  destruct (_ && _); [reflexivity|]. destruct (bl <=? u64_max); [|reflexivity].
  destruct (el <=? u64_max); [|reflexivity]. destruct (ml <=? u64_max); [|reflexivity].
  rewrite exp_head_eq; [|unfold blen in *; rewrite length_drop; unfold i64_max in *; lia|done|done].
  unfold zread, param.G_QUAD_DIVISOR_BYZANTIUM, param.G_QUAD_DIVISOR_BERLIN.
  rewrite zbytes_drop, zbytes_zeros, bind_Some_eq. generalize (be_val (zbytes input
    (96 + Z.to_nat bl) (Z.to_nat (Z.min el 32)))). intros h. reflexivity.
Qed.

Lemma head_of_range input : 0 <= head_of input < 2 ^ 256.
Proof.
  unfold head_of. pose proof (be_val_zbytes input (96 + Z.to_nat (base_len_of input))
    (Z.to_nat (Z.min (exp_len_of input) 32))) as [? Hr]. split; [done|].
  eapply Z.lt_le_trans; [exact Hr|]. change (2 ^ 256) with (256 ^ 32).
  apply Z.pow_le_mono_r; lia.
Qed.

(** The price of modular exponentiation is that of EIP-198 before Berlin and
    of EIP-2565 from then on, computed without overflow as long as the length
    of the exponent in bits fits into 64 bits; there is no price when a length
    or the price itself does not fit. *)
Theorem expmod_gas_formula input rev :
  blen input <= i64_max - 96 ->
  (base_len_of input <= u64_max -> mod_len_of input <= u64_max -> exp_len_of input <= u64_max ->
   exp_len_of input <= max_exp_len) ->
  expmod_gas input rev = Some (
    if (base_len_of input =? 0) && (mod_len_of input =? 0) then Some (expmod_floor rev)
    else if (u64_max <? base_len_of input) || (u64_max <? exp_len_of input)
            || (u64_max <? mod_len_of input) then None
    else
      let price := expmod_price rev (base_len_of input) (exp_len_of input) (mod_len_of input)
        (head_of input) in
      if u64_max <? price then None else Some (Z.max (expmod_floor rev) price)).
Proof.
  intros Hi He. rewrite expmod_gas_unfold by done. destruct (_ && _); [reflexivity|].
  assert (0 <= base_len_of input) by apply be_val_zbytes.
  assert (0 <= exp_len_of input) by apply be_val_zbytes.
  assert (0 <= mod_len_of input) by apply be_val_zbytes.
  unfold try_u64.
  destruct (Z.leb_spec (base_len_of input) u64_max) as [Hb|Hb];
    [rewrite (proj2 (Z.ltb_ge _ _)) by exact Hb|by rewrite (proj2 (Z.ltb_lt _ _)) by exact Hb].
  destruct (Z.leb_spec (exp_len_of input) u64_max) as [Hx|Hx];
    [rewrite (proj2 (Z.ltb_ge _ _)) by exact Hx|by rewrite (proj2 (Z.ltb_lt _ _)) by exact Hx].
  destruct (Z.leb_spec (mod_len_of input) u64_max) as [Hm|Hm];
    [rewrite (proj2 (Z.ltb_ge _ _)) by exact Hm|by rewrite (proj2 (Z.ltb_lt _ _)) by exact Hm].
  cbn [orb]. pose proof (head_of_range input) as Hh. specialize (He Hb Hm Hx).
  rewrite adjusted_eq, bind_Some_eq by (done || lia).
  pose proof (iteration_count_range (exp_len_of input) (head_of input) ltac:(lia) Hh) as Hit.
  destruct (complexity_eq rev (Z.max (mod_len_of input) (base_len_of input))) as [Hc Hr]; [lia|].
  cbv zeta. unfold expmod_price.
  generalize dependent (complexity rev (Z.max (mod_len_of input) (base_len_of input))).
  generalize dependent (iteration_count (exp_len_of input) (head_of input)). intros a Ha c Hc Hr.
  assert (0 <= c * a < 2 ^ 256) by (assert (2 ^ 130 * 2 ^ 65 < 2 ^ 256) by done; nia).
  destruct (Revision.ltb rev Berlin); rewrite Hc, bind_Some_eq, bind_u256, bind_Some_eq by done;
    rewrite Z.ltb_antisym; destruct (_ <=? _); reflexivity.
Qed.

(** The vector of the unit tests. *)
Definition expmod_vector : Bytes :=
  be_bytes 32 1 ++ be_bytes 32 32 ++ be_bytes 32 32 ++ [x03] ++
  be_bytes 32 0xfffffffffffffffffffffffffffffffffffffffffffffffffffffffefffffc2e ++
  be_bytes 32 0xfffffffffffffffffffffffffffffffffffffffffffffffffffffffefffffc2f.

Lemma expmod_gas_formula_witness : expmod_gas expmod_vector Byzantium = Some (Some 13056).
Proof.
  apply (expmod_gas_formula expmod_vector Byzantium).
  - vm_compute. discriminate.
  - intros _ _ _. vm_compute. discriminate.
Defined.

(** The multiplication [8 * (exp_len - 32)] overflows for every exponent
    length from [2^61 + 32] on that still fits into 64 bits, although all other
    inputs of the gas function are accepted: the check that makes such calls
    unaffordable is not reached. *)
Theorem expmod_gas_overflow input rev : blen input <= i64_max - 96 ->
  base_len_of input <= u64_max -> mod_len_of input <= u64_max ->
  base_len_of input <> 0 \/ mod_len_of input <> 0 ->
  max_exp_len < exp_len_of input <= u64_max ->
  expmod_gas input rev = None.
Proof.
  intros Hi Hb Hm Hn He. rewrite expmod_gas_unfold by done.
  destruct ((base_len_of input =? 0) && (mod_len_of input =? 0)) eqn:E; [zb; lia|].
  unfold try_u64 at 1 2 3. rewrite !(proj2 (Z.leb_le _ _)) by lia.
  unfold adjusted_exponent_len_of. rewrite (proj2 (Z.ltb_lt 32 _)) by (unfold max_exp_len in *; lia).
  unfold usize_checked, checked. rewrite (proj2 (Z.leb_gt (8 * _) _)); [by rewrite andb_false_r|].
  unfold max_exp_len, u64_max in *. lia.
Qed.

(** A call with an exponent of 2^61 + 32 bytes. *)
Definition huge_exponent : Bytes :=
  be_bytes 32 1 ++ be_bytes 32 (2 ^ 61 + 32) ++ be_bytes 32 1 ++ [x03].

Lemma expmod_gas_overflow_witness : expmod_gas huge_exponent Berlin = None.
Proof.
  apply (expmod_gas_overflow huge_exponent Berlin); try (vm_compute; discriminate).
  - left. vm_compute. discriminate.
  - vm_compute. split; [reflexivity|discriminate].
Defined.

(** ** All contracts *)

Section contracts.
Context `{Hashes} `{Secp256k1} `{Keccak} {B : BigUint} {BL : BigUintLaws B} `{AltBn128}.
Context (key_length : forall m r s p k, recover_ecdsa m r s p = Some k -> length k = 65%nat).

Lemma point_out_ok p : exists out, point_out p = Some out /\ length out = 64%nat.
Proof.
  unfold point_out. destruct (AffineG1_from_jacobian p) as [[x y]|]; [|by eexists].
  pose proof (length_Fq_to_big_endian x) as Hx. pose proof (length_Fq_to_big_endian y) as Hy.
  destruct (splice_some (replicate 64 x00) 0 (Fq_to_big_endian x)) as (o1 & -> & Ho1);
    [lia|unfold blen; rewrite Hx; done|]. rewrite bind_Some_eq.
  destruct (splice_some o1 32 (Fq_to_big_endian y)) as (o2 & -> & Ho2);
    [lia|rewrite Ho1; unfold blen; rewrite Hy; done|].
  exists o2. split; [done|]. rewrite Ho1 in Ho2. unfold blen in Ho2. simpl in Ho2. lia.
Qed.

Lemma pair_at_ok input i : 0 <= i -> i * 192 + 192 <= blen input ->
  exists r, pair_at input i = Some r.
Proof.
  intros Hi Hl. unfold pair_at, fq_at.
  destruct (slice_some input (i * 192) 32) as (b1 & -> & _); [lia..|].
  destruct (slice_some input (i * 192 + 32) 32) as (b2 & -> & _); [lia..|].
  destruct (slice_some input (i * 192 + 64) 32) as (b3 & -> & _); [lia..|].
  destruct (slice_some input (i * 192 + 96) 32) as (b4 & -> & _); [lia..|].
  destruct (slice_some input (i * 192 + 128) 32) as (b5 & -> & _); [lia..|].
  destruct (slice_some input (i * 192 + 160) 32) as (b6 & -> & _); [lia..|].
  by eexists.
Qed.

Lemma pairing_loop_ok input n : forall i mul, 0 <= i -> (i + Z.of_nat n) * 192 <= blen input ->
  exists r, pairing_loop input n i mul = Some r.
Proof.
  induction n as [|n IH]; intros i mul Hi Hl; simpl; [by eexists|].
  destruct (pair_at_ok input i) as [[p|] ->]; [lia..| |]; simpl; [|by eexists]. apply IH; lia.
Qed.

Lemma snarkv_run_ok input : exists r, snarkv_run input = Some r.
Proof.
  unfold snarkv_run, SNARKV_STRIDE. destruct (negb _); [by eexists|].
  destruct (blen input =? 0); [by eexists|]. pose proof (blen_nonneg input).
  pose proof (Z.mul_div_le (blen input) 192 ltac:(lia)).
  pose proof (Z.div_pos (blen input) 192 ltac:(lia) ltac:(lia)).
  destruct (pairing_loop_ok input (Z.to_nat (blen input / 192)) 0 Gt_one) as [[r|] ->];
    [lia|lia|by eexists..].
Qed.

Lemma bn_run_ok input : (exists r, bn_add_run input = Some r) /\ (exists r, bn_mul_run input = Some r).
Proof.
  unfold bn_add_run, bn_mul_run. destruct (parse_bn_point input) as [[a|] r]; [|by split; eexists].
  split.
  - destruct (parse_bn_point r) as [[b|] r']; [|by eexists].
    destruct (point_out_ok (G1_add a b)) as (out & -> & _). by eexists.
  - destruct (parse_fr_point r) as [[b|] r']; [|by eexists].
    destruct (point_out_ok (G1_mul a b)) as (out & -> & _). by eexists.
Qed.

Lemma ecrecover_run_ok input : exists out, ecrecover_run input = Some (Some out).
Proof.
  unfold ecrecover_run, ecrecover_run_inner.
  set (l := if blen input <? 128 then vec_resize input 128 x00 else input). cbv zeta.
  assert (128 <= blen l) by (unfold l; case_if; [rewrite blen_resize; lia|lia]).
  destruct (slice_some l 32 32) as (v & -> & _); [lia..|]. rewrite bind_Some_eq.
  destruct (slice_some l 64 32) as (r & -> & _); [lia..|]. rewrite bind_Some_eq.
  destruct (slice_some l 96 32) as (s & -> & _); [lia..|]. rewrite bind_Some_eq.
  destruct (negb _); [by eexists|]. destruct (negb _); [by eexists|].
  destruct (slice_some l 0 32) as (m & -> & _); [lia..|]. rewrite bind_Some_eq.
  destruct (recover_ecdsa _ _ _ _) as [k|] eqn:E; [|by eexists].
  apply key_length in E. assert (blen k = 65) as Hk by (unfold blen; lia). rewrite Hk.
  destruct (slice_some k 1 (65 - 1)) as (key & -> & _); [lia..|]. rewrite bind_Some_eq.
  pose proof (length_keccak_digest key) as Hd.
  destruct (slice_some (keccak_digest key) 12 20) as (a & -> & Ha); [lia|lia|unfold blen; lia|].
  rewrite bind_Some_eq.
  destruct (splice_some (replicate 32 x00) 12 a) as (out & -> & _); [lia|rewrite Ha; done|].
  by eexists.
Qed.

Lemma ripemd160_run_ok input : exists out, ripemd160_run input = Some (Some out).
Proof.
  unfold ripemd160_run. pose proof (length_ripemd160_digest input) as Hd.
  destruct (splice_some (replicate 32 x00) 12 (ripemd160_digest input)) as (o & -> & _);
    [lia|unfold blen; rewrite Hd; done|by eexists].
Qed.

Lemma word_gas_ok base word input : 0 <= base <= 1000 -> 0 <= word <= 1000 ->
  blen input <= 2 ^ 50 -> exists g, word_gas base word input = Some (Some g).
Proof.
  intros Hb Hw Hi. unfold word_gas. pose proof (blen_nonneg input).
  assert (0 <= (blen input + 31) / 32 <= 2 ^ 51)
    by (split; [apply Z.div_pos; lia|apply Z.div_le_upper_bound; lia]).
  assert (2 ^ 51 * 1000 < 2 ^ 62) by done.
  unfold u64_checked. rewrite checked_some, bind_Some_eq by (unfold u64_max; lia).
  rewrite checked_some, bind_Some_eq by (unfold u64_max; nia).
  rewrite checked_some, bind_Some_eq by (unfold u64_max; nia). by eexists.
Qed.

Lemma snarkv_gas_ok input rev : blen input <= 2 ^ 40 -> exists g, snarkv_gas input rev = Some (Some g).
Proof.
  intros Hi. unfold snarkv_gas, SNARKV_STRIDE, u64_checked. pose proof (blen_nonneg input).
  assert (0 <= blen input / 192 <= 2 ^ 40)
    by (split; [apply Z.div_pos; lia|apply Z.div_le_upper_bound; lia]).
  assert (2 ^ 40 * 80000 + 100000 < 2 ^ 62) by done. cbv zeta.
  case_if; rewrite checked_some, bind_Some_eq by (unfold u64_max; lia);
    rewrite checked_some, bind_Some_eq by (unfold u64_max; lia); by eexists.
Qed.

(** No precompiled contract panics on an input of up to a terabyte, apart
    from modular exponentiation, whose price and run are subject to their own
    conditions: the gas function returns, and so does the run function. *)
Theorem precompiles_total i c input rev :
  CONTRACTS !! i = Some c -> i <> 4%nat -> blen input <= 2 ^ 40 ->
  (exists g, contract_gas c input rev = Some (Some g)) /\ (exists r, contract_run c input = Some r).
Proof.
  intros Hc Hi Hl. assert (2 ^ 40 <= 2 ^ 50) by done. unfold CONTRACTS in Hc.
  destruct i as [|[|[|[|[|[|[|[|[|i]]]]]]]]]; [..|discriminate Hc];
    injection Hc as <-; cbn [contract_gas contract_run].
  - split; [by eexists|]. destruct (ecrecover_run_ok input) as [o ->]. by eexists.
  - split; [apply word_gas_ok; lia|by eexists].
  - split; [apply word_gas_ok; lia|]. destruct (ripemd160_run_ok input) as [o ->]. by eexists.
  - split; [apply word_gas_ok; lia|by eexists].
  - done.
  - split; [by eexists|apply bn_run_ok].
  - split; [by eexists|apply bn_run_ok].
  - split; [by apply snarkv_gas_ok|apply snarkv_run_ok].
  - split; [|destruct (blake2_f_run_ok input) as (r & -> & _); by eexists].
    unfold blake2_f_gas. case_if; [by eexists|].
    destruct (slice_some input 0 4) as (b & -> & _); [lia..|]. by eexists.
Qed.

End contracts.

(** *** An instance of the functions of the other crates *)

#[local] Instance sample_hashes : Hashes := {|
  sha256_digest _ := replicate 32 x00;
  ripemd160_digest _ := replicate 20 x00;
  length_ripemd160_digest _ := eq_refl;
|}.

#[local] Instance sample_secp : Secp256k1 := {|
  recover_ecdsa m r s p := Some (x04 :: replicate 64 x00);
|}.

#[local] Instance sample_keccak : Keccak := {|
  keccak_digest _ := replicate 32 x01;
  length_keccak_digest _ := eq_refl;
|}.

(** The trivial group. *)
#[local] Instance sample_bn : AltBn128 := {|
  Fq := unit; Fr := unit; Fq2 := unit; G1 := unit; G2 := unit; Gt := unit;
  Fq_from_slice _ := Some ();
  Fr_from_slice _ := Some ();
  Fq_is_zero _ := true;
  Fq_to_big_endian _ := replicate 32 x00;
  length_Fq_to_big_endian _ := eq_refl;
  Fq2_new _ _ := ();
  Fq2_is_zero _ := true;
  G1_zero := ();
  AffineG1_new _ _ := Some ();
  G1_add _ _ := ();
  G1_mul _ _ := ();
  AffineG1_from_jacobian _ := Some ((), ());
  G2_zero := ();
  AffineG2_new _ _ := Some ();
  Gt_one := ();
  Gt_mul _ _ := ();
  Gt_eqb _ _ := true;
  pairing _ _ := ();
|}.

Lemma sample_key_length m r s p k : recover_ecdsa m r s p = Some k -> length k = 65%nat.
Proof. simpl. intros E. injection E as <-. reflexivity. Qed.

Lemma precompiles_total_witness : exists r, snarkv_run (replicate 384 x00) = Some r.
Proof.
  apply (precompiles_total
    sample_key_length 7
    {| contract_gas := snarkv_gas; contract_run := snarkv_run |} (replicate 384 x00) Istanbul).
  - reflexivity.
  - discriminate.
  - vm_compute. discriminate.
Defined.
