(* ===== verification/EvmGlue.v ===== *)
(** The virtual machine over the block state (src/execution/evmglue.rs,
    address.rs and analysis_cache.rs).

    [Evm] is the mutable part of the struct of the same name: the block state,
    the cache of analyses and the tracer; the header, the specification of the
    block and the transaction are variables of the section.  The host of a frame
    calls back into [Evm::call] and [Evm::create], which run the interpreter on a
    nested frame with a new host: the recursion is on the number of frames that
    may still be nested. *)
From S2P Require Import Prelude Word Properties EvmState Host Interpreter Transaction IntraBlockState Consensus Precompiled.
From Stdlib Require Import ZArith Lia Strings.Byte.
From stdpp Require Import base list option numbers gmap.
#[local] Open Scope Z_scope.

(** ** Addresses *)

(** The RLP encoding of the pair of a caller and its nonce. *)
Class AddressCodec := { rlp_caller_nonce : Address -> Z -> Bytes }.

(** [Address::from_slice(&hash.0[12..])]. *)
Definition address_of_hash (h : Bytes) : Address := be_val (drop 12 h).

Definition create_address_of `{AddressCodec, Keccak} (caller : Address) (nonce : Z) : Address :=
  address_of_hash (keccak_digest (rlp_caller_nonce caller nonce)).

Definition create2_address `{Keccak} (caller : Address) (salt code_hash : Z) : Address :=
  address_of_hash (keccak_digest
    (byte_of 0xff :: be_bytes 20 caller ++ be_bytes 32 salt ++ be_bytes 32 code_hash)).

(** ** The cache of analyses, over the LRU map of another crate *)

Class LruCache (C : Type) := {
  lru_get : Z -> C -> option AnalyzedCode * C;
  lru_put : Z -> AnalyzedCode -> C -> C;
}.

Definition cache_get `{LruCache C} (code_hash : Z) (c : C) : option AnalyzedCode * C :=
  lru_get code_hash c.
Definition cache_put `{LruCache C} (code_hash : Z) (code : AnalyzedCode) (c : C) : C :=
  lru_put code_hash code c.

(** ** Tracing of calls *)

Inductive CodeKind := CodePrecompile | Bytecode (code : option Bytes).

Inductive TracedCall := TracedCall_Call | TracedCall_CallCode | TracedCall_DelegateCall
  | TracedCall_StaticCall.

Inductive MessageKind := MessageCreate | MessageCall (call_kind : TracedCall) (code_kind : CodeKind).

Class StartTracer (T : Type) := {
  capture_start : Z -> Address -> Address -> MessageKind -> Bytes -> Z -> Z -> T -> T;
}.

(** ** The machine *)

Record Evm (DB C T : Type) := {
  evm_state : IntraBlockState DB;
  evm_cache : C;
  evm_tracer : option T;
}.
Arguments evm_state {DB C T} _.
Arguments evm_cache {DB C T} _.
Arguments evm_tracer {DB C T} _.

Record CallResult := {
  cr_status_code : StatusCode;
  cr_gas_left : Z;
  cr_output_data : Bytes;
}.

Module evmglue.

Section evm.
Context {DB C T : Type} `{State DB} `{ChainState DB} `{Keccak} `{LruCache C}.
Context `{!StartTracer T} {TT : Tracer T} `{I256Ops}.
Context `{AddressCodec} `{Hashes} `{Secp256k1} `{BigUint} `{AltBn128}.
Context (header : PartialHeader) (block_spec : BlockExecutionSpec) (txn : MessageWithSender).
Context (beneficiary : Address).

Abbreviation E := (Evm DB C T).
Abbreviation revision := (spec_revision block_spec).

Definition with_state (e : E) (s : IntraBlockState DB) : E :=
  {| evm_state := s; evm_cache := evm_cache e; evm_tracer := evm_tracer e |}.

(** An operation of the block state. *)
Definition on_state {A} (m : SM (IntraBlockState DB) A) : SM E A := fun e =>
  match m (evm_state e) with
  | Done a s => Done a (with_state e s)
  | Failed => Failed
  | Panicked => Panicked
  end.

(** [if let Some(tracer) = &mut self.tracer { tracer.capture_start(..) }]; the
    conversions of the depth and the gas to unsigned types are checked. *)
Definition trace_start (depth : Z) (from to : Address) (k : MessageKind) (input : Bytes)
    (gas value : Z) : SM E unit := fun e =>
  match evm_tracer e with
  | None => Done () e
  | Some t =>
      if (0 <=? depth) && (depth <=? 65535) && (0 <=? gas) then
        Done () {| evm_state := evm_state e; evm_cache := evm_cache e;
                   evm_tracer := Some (capture_start depth from to k input gas value t) |}
      else Panicked
  end.

(** The tracer of the interpreter: the one of the machine, or none. *)
Definition frame_tracer : Tracer E := {|
  trace_instructions e := match evm_tracer e with Some t => trace_instructions t | None => false end;
  capture_state es pc op cost depth e :=
    {| evm_state := evm_state e; evm_cache := evm_cache e;
       evm_tracer := capture_state es pc op cost depth <$> evm_tracer e |};
  capture_end o e :=
    {| evm_state := evm_state e; evm_cache := evm_cache e;
       evm_tracer := capture_end o <$> evm_tracer e |};
|}.

Definition number_of_precompiles : Z :=
  match revision with
  | Frontier | Homestead | Tangerine | Spurious => NUM_OF_FRONTIER_CONTRACTS
  | Byzantium | Constantinople | Petersburg => NUM_OF_BYZANTIUM_CONTRACTS
  | Istanbul | Berlin | London | Shanghai => NUM_OF_ISTANBUL_CONTRACTS
  end.

Definition is_precompiled (contract : Address) : bool :=
  if contract =? 0 then false else contract <=? number_of_precompiles.

(** The analysis of a code, from the cache if its hash is known. *)
Definition analysis_for (code : Bytes) (code_hash : option Z) : SM E AnalyzedCode :=
  match code_hash with
  | Some code_hash => fun e =>
      match cache_get code_hash (evm_cache e) with
      | (Some a, c) =>
          Done a {| evm_state := evm_state e; evm_cache := c; evm_tracer := evm_tracer e |}
      | (None, c) =>
          match analyze code with
          | None => Panicked
          | Some a =>
              match cache_get code_hash (cache_put code_hash a c) with
              | (Some a, c) =>
                  Done a {| evm_state := evm_state e; evm_cache := c; evm_tracer := evm_tracer e |}
              | (None, _) => Panicked
              end
          end
      end
  | None => s_unwrap (analyze code)
  end.

(** A frame of the interpreter. *)
Definition run_frame (h : Host E) (analysis : AnalyzedCode) (msg : InterpreterMessage)
    : SM E Output := fun e =>
  match Interpreter.execute (H := h) (H0 := frame_tracer) analysis revision msg e with
  | Some (o, e) => Done o e
  | None => Panicked
  end.

(** [Evm::execute], with the host of the frame. *)
Definition evm_execute (h : Host E) (msg : InterpreterMessage) (code : Bytes)
    (code_hash : option Z) : SM E Output :=
  analysis ← analysis_for code code_hash;
  run_frame h analysis msg.

Definition with_status (res : Output) (c : StatusCode) : Output :=
  {| status_code := c; gas_left := gas_left res; output_data := output_data res;
     EvmState.create_address := EvmState.create_address res |}.

Definition with_gas_left (res : Output) (g : Z) : Output :=
  {| status_code := status_code res; gas_left := g; output_data := output_data res;
     EvmState.create_address := EvmState.create_address res |}.

(** Undo a frame that did not succeed; its gas is kept only by a revert. *)
Definition undo_failed (snapshot : Snapshot) (res : Output) : SM E Output :=
  on_state (ibs.revert_to_snapshot snapshot);;
  mret (if bool_decide (status_code res = Revert) then res else with_gas_left res 0).

(** The deployment of the code that a creation returned. *)
Definition deploy (contract_addr : Address) (res : Output) : SM E Output :=
  let code_len := blen (output_data res) in
  code_deploy_gas ← s_unwrap (u64_checked (code_len * fee.G_CODE_DEPOSIT));
  if (revision >=? London)%rev && (0 <? code_len) &&
     bool_decide (byte_val <$> index (output_data res) 0 = Some 0xEF)
  then mret (with_status res ContractValidationFailure)
  else if (revision >=? Spurious)%rev && (param.MAX_CODE_SIZE <? code_len)
  then mret (with_status res OutOfGas)
  else if (0 <=? gas_left res) && (code_deploy_gas <=? gas_left res) then
    on_state (ibs.set_code contract_addr (output_data res));;
    mret (with_gas_left res (gas_left res - code_deploy_gas))
  else if (revision >=? Homestead)%rev then mret (with_status res OutOfGas)
  else mret res.

Definition initial_output (gas : Z) : Output :=
  {| status_code := Success; gas_left := gas; output_data := [];
     EvmState.create_address := None |}.

Definition create (h : Host E) (message : CreateMessage) : SM E Output :=
  let res := initial_output (cm_gas message) in
  let value := cm_endowment message in
  balance ← on_state (ibs.get_balance (cm_sender message));
  if balance <? value then mret (with_status res InsufficientBalance)
  else
    nonce ← on_state (ibs.get_nonce (cm_sender message));
    nonce' ← s_unwrap (u64_checked (nonce + 1));
    on_state (ibs.set_nonce (cm_sender message) nonce');;
    let contract_addr :=
      match cm_salt message with
      | Some salt =>
          create2_address (cm_sender message) salt
            (be_val (keccak_digest (cm_initcode message)))
      | None => create_address_of (cm_sender message) nonce
      end in
    _ ← on_state (ibs.access_account contract_addr);
    trace_start (cm_depth message) (cm_sender message) contract_addr MessageCreate
      (cm_initcode message) (cm_gas message) value;;
    n ← on_state (ibs.get_nonce contract_addr);
    c ← (if n =? 0 then on_state (ibs.get_code_hash contract_addr) else mret EMPTY_HASH);
    if negb (n =? 0) || negb (c =? EMPTY_HASH) then
      mret (with_gas_left (with_status res InvalidInstruction) 0)
    else
      snapshot ← s_get (fun e => ibs.take_snapshot (evm_state e));
      on_state (ibs.create_contract contract_addr);;
      (if (revision >=? Spurious)%rev then on_state (ibs.set_nonce contract_addr 1) else mret ());;
      on_state (ibs.subtract_from_balance (cm_sender message) value);;
      on_state (ibs.add_to_balance contract_addr value);;
      let deploy_message :=
        {| kind := CallKind_Call;
           is_static := false;
           depth := cm_depth message;
           gas := cm_gas message;
           recipient := contract_addr;
           code_address := 0;
           EvmState.sender := cm_sender message;
           input_data := [];
           EvmState.value := cm_endowment message |} in
      res ← evm_execute h deploy_message (cm_initcode message) None;
      res ← (if bool_decide (status_code res = Success) then deploy contract_addr res else mret res);
      if bool_decide (status_code res = Success) then
        mret {| status_code := status_code res; gas_left := gas_left res;
                output_data := output_data res;
                EvmState.create_address := Some contract_addr |}
      else undo_failed snapshot res.

Definition traced_call (message : InterpreterMessage) : option TracedCall :=
  match kind message, is_static message with
  | CallKind_Call, true => Some TracedCall_StaticCall
  | CallKind_Call, false => Some TracedCall_Call
  | CallCode, _ => Some TracedCall_CallCode
  | DelegateCall, _ => Some TracedCall_DelegateCall
  | _, _ => None
  end.

(** The start of a call is traced; other kinds are [unreachable!] with a tracer. *)
Definition trace_call (message : InterpreterMessage) (precompiled : bool) : SM E unit := fun e =>
  match evm_tracer e with
  | None => Done () e
  | Some _ =>
      match traced_call message with
      | None => Panicked
      | Some k =>
          trace_start (depth message) (EvmState.sender message) (recipient message)
            (MessageCall k (if precompiled then CodePrecompile else Bytecode None))
            (input_data message) (gas message) (EvmState.value message) e
      end
  end.

(** The run of a precompiled contract. *)
Definition run_precompiled (message : InterpreterMessage) (res : Output) : SM E Output :=
  num ← s_unwrap (unsigned_sub (code_address message mod 256) 1);
  contract ← s_unwrap (index CONTRACTS num);
  let input := input_data message in
  price ← s_unwrap (contract_gas contract input revision);
  match price with
  | Some price =>
      if i64_max <? price then mret (with_status res OutOfGas)
      else if gas message <? price then mret (with_status res OutOfGas)
      else
        output ← s_unwrap (contract_run contract input);
        match output with
        | Some output =>
            mret {| status_code := Success; gas_left := gas message - price;
                    output_data := output;
                    EvmState.create_address := EvmState.create_address res |}
        | None => mret (with_status res PrecompileFailure)
        end
  | None => mret (with_status res OutOfGas)
  end.

(** The end of a call. *)
Definition finish_call (snapshot : Snapshot) (res : Output) : SM E Output :=
  if bool_decide (status_code res = Success) then mret res else undo_failed snapshot res.

Definition call (h : Host E) (message : InterpreterMessage) : SM E Output :=
  let res := initial_output (gas message) in
  let value := EvmState.value message in
  balance ← (if bool_decide (kind message = DelegateCall) then mret value
             else on_state (ibs.get_balance (EvmState.sender message)));
  if balance <? value then mret (with_status res InsufficientBalance)
  else
    let precompiled := is_precompiled (code_address message) in
    code ← (if negb precompiled then on_state (ibs.get_code (code_address message)) else mret None);
    trace_call message precompiled;;
    missing ← (if (value =? 0) && (revision >=? Spurious)%rev && negb precompiled then
                 x ← on_state (ibs.exists_ (code_address message)); mret (negb x)
               else mret false);
    if (missing : bool) then mret res
    else
      snapshot ← s_get (fun e => ibs.take_snapshot (evm_state e));
      (if bool_decide (kind message = CallKind_Call) then
         if is_static message then on_state (ibs.touch (recipient message))
         else
           on_state (ibs.subtract_from_balance (EvmState.sender message) value);;
           on_state (ibs.add_to_balance (recipient message) value)
       else mret ());;
      if precompiled then
        res ← run_precompiled message res;
        finish_call snapshot res
      else
        let code := default [] code in
        if blen code =? 0 then mret res
        else
          code_hash ← on_state (ibs.get_code_hash (code_address message));
          res ← evm_execute h message code (Some code_hash);
          finish_call snapshot res.

(** ** The host of a frame *)

(** [unwrap] of a result of the machine. *)
Definition method {A} (m : SM E A) : E -> option (A * E) := fun e =>
  match m e with Done a e => Some (a, e) | Failed | Panicked => None end.

Definition host_account_exists (address : Address) : SM E bool :=
  if (revision >=? Spurious)%rev then
    dead ← on_state (ibs.is_dead address); mret (negb dead)
  else on_state (ibs.exists_ address).

Definition sload_cost : Z :=
  if (revision >=? Berlin)%rev then fee.WARM_STORAGE_READ_COST
  else if (revision >=? Istanbul)%rev then fee.G_SLOAD_ISTANBUL
  else fee.G_SLOAD_TANGERINE_WHISTLE.

Definition sstore_reset_gas : Z :=
  if (revision >=? Berlin)%rev then fee.G_SRESET - fee.COLD_SLOAD_COST else fee.G_SRESET.

Definition sstore_clears_refund : Z :=
  if (revision >=? London)%rev then sstore_reset_gas + fee.ACCESS_LIST_STORAGE_KEY_COST
  else fee.R_SCLEAR.

Definition eip1283 : bool :=
  (revision >=? Istanbul)%rev || Revision.eqb revision Constantinople.

(** Statement sequence of a conditional. *)
Definition when_ (b : bool) (m : SM E unit) : SM E unit := if b then m else mret ().

Definition host_set_storage (address : Address) (location new_val : Z) : SM E StorageStatus :=
  current_val ← on_state (ibs.get_current_storage address location);
  if current_val =? new_val then mret Unchanged
  else
    on_state (ibs.set_storage address location new_val);;
    if negb eip1283 then
      if current_val =? 0 then mret Added
      else if new_val =? 0 then on_state (ibs.add_refund fee.R_SCLEAR);; mret Deleted
      else mret Modified
    else
      original_val ← on_state (ibs.get_original_storage address location);
      if original_val =? current_val then
        if original_val =? 0 then mret Added
        else
          when_ (new_val =? 0) (on_state (ibs.add_refund sstore_clears_refund));;
          mret Modified
      else
        when_ (negb (original_val =? 0))
          (when_ (current_val =? 0) (on_state (ibs.subtract_refund sstore_clears_refund));;
           when_ (new_val =? 0) (on_state (ibs.add_refund sstore_clears_refund)));;
        when_ (original_val =? new_val)
          (on_state (ibs.add_refund (if original_val =? 0 then fee.G_SSET - sload_cost
                                     else sstore_reset_gas - sload_cost)));;
        mret ModifiedAgain.

Definition host_get_code_size (address : Address) : SM E Z :=
  code ← on_state (ibs.get_code address);
  mret (default 0 (blen <$> code)).

Definition host_get_code_hash (address : Address) : SM E Z :=
  dead ← on_state (ibs.is_dead address);
  if (dead : bool) then mret 0 else on_state (ibs.get_code_hash address).

Definition host_copy_code (address : Address) (offset : Z) (buffer : Bytes) : SM E (Z * Bytes) :=
  code ← on_state (ibs.get_code address);
  let code := default [] code in
  if offset <? blen code then
    let copied := Z.min (blen buffer) (blen code - offset) in
    src ← s_unwrap (slice code offset copied);
    buffer ← s_unwrap (splice buffer 0 src);
    mret (copied, buffer)
  else mret (0, buffer).

Definition host_selfdestruct (address beneficiary : Address) : SM E unit :=
  on_state (ibs.record_selfdestruct address);;
  balance ← on_state (ibs.get_balance address);
  on_state (ibs.add_to_balance beneficiary balance);;
  on_state (ibs.set_balance address 0).

Definition host_get_tx_context : SM E TxContext :=
  let base_fee_per_gas := default 0 (partial.base_fee_per_gas header) in
  tx_gas_price ← s_unwrap (txn.effective_gas_price (sent_message txn) base_fee_per_gas);
  mret {| tx_gas_price := tx_gas_price;
          tx_origin := Transaction.sender txn;
          block_coinbase := beneficiary;
          block_number := partial.number header;
          block_timestamp := partial.timestamp header;
          block_gas_limit := partial.gas_limit header;
          block_difficulty := partial.difficulty header;
          Host.chain_id := params_chain_id (spec_params block_spec);
          block_base_fee := base_fee_per_gas |}.

(** [for i in 1..distance], with [n] iterations left. *)
Fixpoint hash_loop (d : DB) (base_number : Z) (n : nat) (i hash : Z) : option Z :=
  match n with
  | O => Some hash
  | S n =>
      k ← unsigned_sub base_number i;
      h ← read_header d k hash;
      h ← h;
      hash_loop d base_number n (i + 1) (header.parent_hash h)
  end.

Definition host_get_block_hash (block_number : Z) : SM E Z :=
  distance ← s_unwrap (unsigned_sub (partial.number header) block_number);
  if 256 <? distance then s_panic
  else
    d ← s_get (fun e => db (evm_state e));
    s_unwrap (hash_loop d (partial.number header) (Z.to_nat (distance - 1)) 1
                (partial.parent_hash header)).

Definition host_access_account (address : Address) : SM E AccessStatus :=
  if is_precompiled address then mret Warm else on_state (ibs.access_account address).

(** [EvmHost], with its method [call]. *)
Definition EvmHost (callee : Call -> SM E Output) : Host E := {|
  account_exists address := method (host_account_exists address);
  get_storage address location := method (on_state (ibs.get_current_storage address location));
  set_storage address location v := method (host_set_storage address location v);
  get_balance address := method (on_state (ibs.get_balance address));
  get_code_size address := method (host_get_code_size address);
  get_code_hash address := method (host_get_code_hash address);
  copy_code address offset buffer := method (host_copy_code address offset buffer);
  selfdestruct address beneficiary := method (host_selfdestruct address beneficiary);
  Host.call c := method (callee c);
  get_tx_context := method host_get_tx_context;
  get_block_hash n := method (host_get_block_hash n);
  emit_log address data topics := method (on_state (ibs.add_log
    {| log_address := address; log_topics := topics; log_data := data |}));
  access_account address := method (host_access_account address);
  access_storage address location := method (on_state (ibs.access_storage address location));
|}.

(** The method [call] of the host of a frame that may nest [n] more frames. *)
Fixpoint host_call (n : nat) (c : Call) : SM E Output :=
  match n with
  | O => s_panic
  | S n =>
      let h := EvmHost (host_call n) in
      match c with
      | Call_Create message =>
          res ← create h message;
          mret (if bool_decide (status_code res = Revert) then res
                else {| status_code := status_code res; gas_left := gas_left res;
                        output_data := []; EvmState.create_address := EvmState.create_address res |})
      | Call_Call message => call h message
      end
  end.

(** Frames are nested up to depth 1024. *)
Definition max_frames : nat := 1025.

(** [gas as i64]. *)
Definition as_i64 (gas : Z) : Z := if i64_max <? gas then gas - 2 ^ 64 else gas.

(** [execute] of the module: the machine on a transaction. *)
Definition execute (gas : Z) : SM E CallResult :=
  let h := EvmHost (host_call max_frames) in
  let gas := as_i64 gas in
  let message := sent_message txn in
  res ← (match txn.action message with
         | ActionCall to =>
             call h {| kind := CallKind_Call; is_static := false; depth := 0;
                       EvmState.sender := Transaction.sender txn;
                       input_data := txn.input message;
                       EvmState.value := txn.value message;
                       EvmState.gas := gas; recipient := to; code_address := to |}
         | ActionCreate =>
             create h {| cm_depth := 0; cm_gas := gas; cm_sender := Transaction.sender txn;
                         cm_initcode := txn.input message; cm_endowment := txn.value message;
                         cm_salt := None |}
         end);
  mret {| cr_status_code := status_code res; cr_gas_left := gas_left res;
          cr_output_data := output_data res |}.

End evm.

End evmglue.
