(* ===== verification/EvmGlueSpec.v ===== *)
(** Storage of the machine over the block state: reading back, and the status
    and refund of a write (EIP-1283, EIP-2200, EIP-3529). *)
From S2P Require Import Prelude Word Properties EvmState Host Transaction IntraBlockState Consensus Precompiled EvmGlue.
From Stdlib Require Import ZArith Lia Strings.Byte.
From stdpp Require Import base list option numbers gmap.
#[local] Open Scope Z_scope.
Import ibs.

(** ** Slots of the block state *)

Section slots.
Context {DB : Type} `{State DB} `{Keccak}.
Implicit Types s : IntraBlockState DB.

(** The value at the start of the transaction and the current value of a slot
    of a loaded account; [None] if the database fails. *)
Definition original_val (s : IntraBlockState DB) (a : Address) (k : Z) : option Z :=
  match st_committed (storage_at s a) !! k with
  | Some v => Some (cv_original v)
  | None =>
      if bool_decide (objects s !! a ≫= initial = None)
         || bool_decide (is_Some (incarnations s !! a))
      then Some 0 else read_storage (db s) a k
  end.

Definition current_val (s : IntraBlockState DB) (a : Address) (k : Z) : option Z :=
  match st_current (storage_at s a) !! k with
  | Some v => Some v
  | None => original_val s a k
  end.

(** The account is loaded and exists. *)
Definition loaded (s : IntraBlockState DB) (a : Address) : Prop :=
  is_Some (objects s !! a ≫= current).

(** States with the same slots, refund and accounts. *)
Record same_slots s s' : Prop := {
  ss_objects : objects s' = objects s;
  ss_refund : refund s' = refund s;
  ss_current : forall a k, current_val s' a k = current_val s a k;
  ss_original : forall a k, original_val s' a k = original_val s a k;
}.

Lemma same_slots_refl s : same_slots s s.
Proof. by split. Qed.

Lemma same_slots_trans s1 s2 s3 : same_slots s1 s2 -> same_slots s2 s3 -> same_slots s1 s3.
Proof. intros [] []. split; congruence. Qed.

Lemma storage_at_insert s a v a' :
  storage_at (with_storage s (<[a := v]> (storage s))) a' = if decide (a = a') then v else storage_at s a'.
Proof.
  unfold storage_at. simpl. destruct (decide (a = a')) as [->|].
  - by rewrite lookup_insert_eq.
  - by rewrite lookup_insert_ne.
Qed.

(** Writing a storage with the same values. *)
Lemma same_slots_put s a st :
  (forall k, st_current st !! k = st_current (storage_at s a) !! k) ->
  (forall k, original_val (with_storage s (<[a := st]> (storage s))) a k = original_val s a k) ->
  same_slots s (with_storage s (<[a := st]> (storage s))).
Proof.
  intros Hc Ho. assert (forall a' k, original_val (with_storage s (<[a := st]> (storage s))) a' k =
    original_val s a' k) as Ho'.
  { intros a' k. destruct (decide (a = a')) as [<-|Hne]; [apply Ho|]. unfold original_val.
    by rewrite storage_at_insert, decide_False. }
  split; [done|done| |done]. intros a' k. unfold current_val. rewrite Ho', storage_at_insert.
  destruct (decide (a = a')) as [<-|]; [|done]. by rewrite Hc.
Qed.

Lemma get_object_loaded s a : loaded s a ->
  exists o c, objects s !! a = Some o /\ current o = Some c /\ get_object a s = Done (Some o) s.
Proof.
  intros [c Hc]. destruct (objects s !! a) as [o|] eqn:E; [|done]. exists o, c.
  unfold get_object, mbind, SM_bind, s_get. simpl. by rewrite E.
Qed.

(** Reading a slot returns its value and changes no slot. *)
Lemma get_storage_spec s a k (orig : bool) v : loaded s a ->
  (if orig then original_val s a k else current_val s a k) = Some v ->
  exists s', get_storage a k orig s = Done v s' /\ same_slots s s'.
Proof.
  intros Hl Hv. destruct (get_object_loaded s a Hl) as (o & c & Ho & Hc & Hg).
  unfold get_storage, mbind, SM_bind. rewrite Hg, Hc. unfold s_get, put_storage, s_modify. simpl.
  assert (same_slots s (with_storage s (<[a := storage_at s a]> (storage s)))) as Hput.
  { apply same_slots_put; [done|]. intros k'. unfold original_val. by rewrite storage_at_insert, decide_True. }
  assert (original_val s a k = Some v -> exists s',
    match st_committed (storage_at s a) !! k with
    | Some v => mret (cv_original v)
    | None =>
        if bool_decide (initial o = None) || bool_decide (is_Some (incarnations s !! a))
        then mret U256.ZERO
        else val ← s_try (read_storage (db s) a k);
             put_storage a {| st_committed := <[k := {| cv_initial := val; cv_original := val |}]>
                                (st_committed (storage_at s a));
                              st_current := st_current (storage_at s a) |};; mret val
    end (with_storage s (<[a := storage_at s a]> (storage s))) = Done v s' /\ same_slots s s') as Horig.
  { intros Hval. pose proof Hval as Hval'. unfold original_val in Hval. rewrite Ho in Hval. simpl in Hval.
    destruct (st_committed (storage_at s a) !! k) as [w|] eqn:Hw.
    - injection Hval as <-. by eexists.
    - destruct (_ || _) eqn:Eb.
      + injection Hval as <-. by eexists.
      + unfold mbind, SM_bind, s_try. rewrite Hval. eexists. split; [reflexivity|].
        eapply same_slots_trans; [exact Hput|]. set (s0 := with_storage s _) in *.
        assert (storage_at s0 a = storage_at s a) as Hs0
          by (unfold s0; by rewrite storage_at_insert, decide_True).
        apply same_slots_put; [by rewrite Hs0|]. intros k'. unfold original_val.
        rewrite storage_at_insert, decide_True, Hs0 by done. simpl.
        destruct (decide (k = k')) as [<-|].
        * rewrite lookup_insert_eq, Hw. simpl. rewrite Ho. simpl. by rewrite Eb, Hval.
        * by rewrite lookup_insert_ne by done. }
  destruct orig; simpl in Hv |- *; [by apply Horig|].
  unfold current_val in Hv. destruct (st_current (storage_at s a) !! k) as [w|] eqn:Hw.
  - injection Hv as ->. by eexists.
  - by apply Horig.
Qed.

(** Writing a slot: it reads back, its original value stays, and so do the
    other slots. *)
Record written s s' (a : Address) (k v : Z) : Prop := {
  wr_objects : objects s' = objects s;
  wr_refund : refund s' = refund s;
  wr_current : forall a' k', current_val s' a' k' =
    if decide (a' = a /\ k' = k) then Some v else current_val s a' k';
  wr_original : forall a' k', original_val s' a' k' = original_val s a' k';
}.

Lemma set_storage_spec s a k p v : loaded s a -> current_val s a k = Some p -> p <> v ->
  exists s', set_storage a k v s = Done () s' /\ written s s' a k v.
Proof.
  intros Hl Hp Hne. destruct (get_storage_spec s a k false p Hl Hp) as (s1 & Hg & [Ho Hr Hc1 Ho1]).
  unfold set_storage, get_current_storage, mbind, SM_bind. rewrite Hg.
  rewrite (proj2 (Z.eqb_neq _ _)) by done. unfold s_get, put_storage, push, s_modify. simpl.
  eexists. split; [reflexivity|].
  assert (forall a' k', original_val (with_storage s1
    (<[a := insert_current (storage_at s1 a) k v]> (storage s1))) a' k' = original_val s1 a' k') as Hoo.
  { intros a' k'. unfold original_val. rewrite storage_at_insert.
    by destruct (decide (a = a')) as [<-|]. }
  split; simpl; [done|done| |].
  - intros a' k'. rewrite <- Hc1. unfold current_val.
    change (original_val _ a' k') with (original_val (with_storage s1
      (<[a := insert_current (storage_at s1 a) k v]> (storage s1))) a' k') at 1.
    rewrite Hoo.
    change (storage_at (with_journal _ _) a') with (storage_at (with_storage s1
      (<[a := insert_current (storage_at s1 a) k v]> (storage s1))) a').
    rewrite storage_at_insert. destruct (decide (a = a')) as [<-|Hna].
    + simpl. destruct (decide (k = k')) as [<-|Hnk].
      * rewrite lookup_insert_eq. by rewrite decide_True.
      * rewrite lookup_insert_ne by done. rewrite decide_False by naive_solver. done.
    + rewrite decide_False by naive_solver. done.
  - intros a' k'. rewrite <- Ho1, <- Hoo. done.
Qed.

End slots.

(** ** The price of a write *)

Section sstore.
Context {DB C T : Type} `{State DB} `{Keccak}.
Context (block_spec : BlockExecutionSpec).
Implicit Types e : Evm DB C T.

Abbreviation revision := (spec_revision block_spec).
Abbreviation clears := (evmglue.sstore_clears_refund block_spec).
Abbreviation metered := (evmglue.eip1283 block_spec).

(** The status of a write from [cur] to [new], where the slot had the value
    [orig] at the start of the transaction. *)
Definition status_spec (orig cur new : Z) : StorageStatus :=
  if cur =? new then Unchanged
  else if negb metered then
    if cur =? 0 then Added else if new =? 0 then Deleted else Modified
  else if orig =? cur then if orig =? 0 then Added else Modified
  else ModifiedAgain.

(** What is owed back for a slot that is cleared. *)
Definition cleared (orig v : Z) : Z := if negb (orig =? 0) && (v =? 0) then clears else 0.

(** The refund for restoring the original value. *)
Definition restored_refund (orig : Z) : Z :=
  if orig =? 0 then fee.G_SSET - evmglue.sload_cost block_spec
  else evmglue.sstore_reset_gas block_spec - evmglue.sload_cost block_spec.

Definition refund_delta (orig cur new : Z) : Z :=
  if cur =? new then 0
  else if negb metered then
    if negb (cur =? 0) && (new =? 0) then fee.R_SCLEAR else 0
  else cleared orig new - cleared orig cur + (if orig =? new then restored_refund orig else 0).

Lemma clears_range : 4800 <= clears <= 15000.
Proof.
  unfold evmglue.sstore_clears_refund, evmglue.sstore_reset_gas.
  destruct revision; vm_compute; split; discriminate.
Qed.

Lemma restored_refund_range orig : metered = true -> 2800 <= restored_refund orig <= 19900.
Proof.
  unfold restored_refund, evmglue.eip1283, evmglue.sstore_reset_gas, evmglue.sload_cost.
  destruct revision, (orig =? 0); vm_compute; (discriminate || (split; discriminate)).
Qed.

Lemma cleared_range orig v : 0 <= cleared orig v <= 15000.
Proof. unfold cleared. pose proof clears_range. case_if; lia. Qed.

Lemma refund_delta_cleared orig cur new : metered = true ->
  cleared orig new - cleared orig cur <= refund_delta orig cur new.
Proof.
  intros Hm. unfold refund_delta. rewrite Hm. destruct (Z.eqb_spec cur new) as [->|]; [lia|].
  cbn [negb]. pose proof (restored_refund_range orig Hm). case_if; lia.
Qed.

Lemma on_state_eq {A} (m : SM (IntraBlockState DB) A) e a s :
  m (evm_state e) = Done a s -> evmglue.on_state m e = Done a (evmglue.with_state e s).
Proof. intros E. unfold evmglue.on_state. by rewrite E. Qed.

Lemma bind_done {S A B} (m : SM S A) (k : A -> SM S B) s a s1 :
  m s = Done a s1 -> (m ≫= k) s = k a s1.
Proof. intros E. unfold mbind, SM_bind. by rewrite E. Qed.

(** A machine whose block state has [refund] changed by [d]. *)
Definition add_to_refund e (d : Z) : Evm DB C T :=
  evmglue.with_state e (with_refund (evm_state e) (refund (evm_state e) + d)).

Lemma add_refund_eq e d : 0 <= refund (evm_state e) + d <= u64_max ->
  evmglue.on_state (add_refund d) e = Done () (add_to_refund e d).
Proof.
  intros Hd. apply on_state_eq. unfold add_refund, mbind, SM_bind, s_get, s_unwrap. simpl.
  by rewrite u64_checked_some.
Qed.

Lemma subtract_refund_eq e d : d <= refund (evm_state e) ->
  evmglue.on_state (subtract_refund d) e = Done () (add_to_refund e (- d)).
Proof.
  intros Hd. apply on_state_eq. unfold subtract_refund, mbind, SM_bind, s_get, s_unwrap. simpl.
  by rewrite unsigned_sub_some.
Qed.

(** [refund] apart, the block states of two machines have the same slots. *)
Record settled e e' (a : Address) (k v d : Z) : Prop := {
  se_objects : objects (evm_state e') = objects (evm_state e);
  se_refund : refund (evm_state e') = refund (evm_state e) + d;
  se_current : forall a' k', current_val (evm_state e') a' k' =
    if decide (a' = a /\ k' = k) then Some v else current_val (evm_state e) a' k';
  se_original : forall a' k', original_val (evm_state e') a' k' = original_val (evm_state e) a' k';
}.

Lemma settled_add e e' a k v d d' : settled e e' a k v d ->
  settled e (add_to_refund e' d') a k v (d + d').
Proof. intros []. split; simpl; [done|lia|done|done]. Qed.

Lemma settled_same e e' a k v d s : settled e e' a k v d -> same_slots (evm_state e') s ->
  settled e (evmglue.with_state e' s) a k v d.
Proof.
  intros [S1 S2 S3 S4] [E1 E2 E3 E4]. split; simpl; [congruence|congruence| |].
  - intros a' k'. by rewrite E3, S3.
  - intros a' k'. by rewrite E4, S4.
Qed.

Lemma settled_eq e e' a k v d d' : d = d' -> settled e e' a k v d -> settled e e' a k v d'.
Proof. by intros ->. Qed.

Lemma add_to_refund_0 e : add_to_refund e 0 = e.
Proof. unfold add_to_refund, evmglue.with_state. rewrite Z.add_0_r. by destruct e as [[] ? ?]. Qed.

Lemma add_to_refund_add e d d' : add_to_refund (add_to_refund e d) d' = add_to_refund e (d + d').
Proof. unfold add_to_refund. simpl. by rewrite Z.add_assoc. Qed.

Lemma when_add e (b : bool) d : (b = true -> 0 <= refund (evm_state e) + d <= u64_max) ->
  evmglue.when_ b (evmglue.on_state (add_refund d)) e = Done () (add_to_refund e (if b then d else 0)).
Proof.
  intros Hb. destruct b; simpl; [by apply add_refund_eq, Hb|by rewrite add_to_refund_0].
Qed.

Lemma when_subtract e (b : bool) d : (b = true -> d <= refund (evm_state e)) ->
  evmglue.when_ b (evmglue.on_state (subtract_refund d)) e =
  Done () (add_to_refund e (if b then - d else 0)).
Proof.
  intros Hb. destruct b; simpl; [by apply subtract_refund_eq, Hb|by rewrite add_to_refund_0].
Qed.

(** The part of the refund that follows the clearing of the slot. *)
Lemma clear_step e orig cur new : cleared orig cur <= refund (evm_state e) <= 2 ^ 63 ->
  evmglue.when_ (negb (orig =? 0))
    (evmglue.when_ (cur =? 0) (evmglue.on_state (subtract_refund clears));;
     evmglue.when_ (new =? 0) (evmglue.on_state (add_refund clears))) e =
  Done () (add_to_refund e (cleared orig new - cleared orig cur)).
Proof.
  unfold cleared. intros Hr. pose proof clears_range. destruct (orig =? 0); cbn [negb andb] in *.
  - simpl. by rewrite add_to_refund_0.
  - unfold evmglue.when_ at 1.
    rewrite (bind_done _ _ _ _ _ (when_subtract e (cur =? 0) clears
      ltac:(intros E; rewrite E in Hr; lia))).
    rewrite when_add.
    + rewrite add_to_refund_add. do 2 f_equal. destruct (cur =? 0), (new =? 0); lia.
    + intros _. simpl. unfold u64_max. destruct (cur =? 0); lia.
Qed.

Lemma host_set_storage_spec e a k orig cur new :
  loaded (evm_state e) a -> original_val (evm_state e) a k = Some orig ->
  current_val (evm_state e) a k = Some cur -> 0 <= refund (evm_state e) <= 2 ^ 63 ->
  (metered = true -> cleared orig cur <= refund (evm_state e)) ->
  exists e', evmglue.host_set_storage block_spec a k new e = Done (status_spec orig cur new) e' /\
    settled e e' a k new (refund_delta orig cur new).
Proof.
  intros Hl Ho Hc Hr0 Hr. unfold evmglue.host_set_storage, get_current_storage.
  pose proof clears_range as Hcl.
  destruct (get_storage_spec _ a k false cur Hl Hc) as (s1 & Hg & Hs1).
  rewrite (bind_done _ _ _ _ _ (on_state_eq _ e _ _ Hg)).
  unfold status_spec, refund_delta. destruct (Z.eqb_spec cur new) as [->|Hne].
  { eexists. split; [reflexivity|]. destruct Hs1 as [E1 E2 E3 E4]. split; simpl; [done|lia| |done].
    intros a' k'. rewrite E3. case_decide as Hd; [|done]. destruct Hd as [-> ->]. done. }
  assert (loaded s1 a) as Hl1 by (unfold loaded; rewrite (ss_objects _ _ Hs1); exact Hl).
  destruct (set_storage_spec s1 a k cur new Hl1) as (s2 & Hset & [W1 W2 W3 W4]);
    [by rewrite (ss_current _ _ Hs1)|done|].
  set (e1 := evmglue.with_state e s1).
  rewrite (bind_done _ _ _ _ _ (on_state_eq _ e1 _ _ Hset)).
  set (e2 := evmglue.with_state e1 s2).
  assert (settled e e2 a k new 0) as S2.
  { destruct Hs1 as [E1 E2 E3 E4]. split; simpl; [congruence|lia| |congruence].
    intros a' k'. rewrite W3. case_decide; [done|apply E3]. }
  pose proof (se_refund _ _ _ _ _ _ S2) as R2.
  destruct metered eqn:Hm; cbn [negb].
  2: { destruct (Z.eqb_spec cur 0); cbn [negb andb]; [by eexists|].
       destruct (Z.eqb_spec new 0); [|by eexists].
       rewrite (bind_done _ _ _ _ _ (add_refund_eq e2 fee.R_SCLEAR
         ltac:(unfold fee.R_SCLEAR, u64_max; lia))).
       eexists. split; [reflexivity|]. eapply settled_eq, settled_add, S2. done. }
  specialize (Hr eq_refl). pose proof (restored_refund_range orig Hm) as Hrr.
  assert (loaded (evm_state e2) a) as Hl2 by (unfold loaded; rewrite (se_objects _ _ _ _ _ _ S2); exact Hl).
  destruct (get_storage_spec (evm_state e2) a k true orig Hl2) as (s3 & Hg3 & Hs3);
    [by rewrite (se_original _ _ _ _ _ _ S2)|].
  unfold get_original_storage. rewrite (bind_done _ _ _ _ _ (on_state_eq _ e2 _ _ Hg3)).
  set (e3 := evmglue.with_state e2 s3).
  assert (settled e e3 a k new 0) as S3 by (by apply settled_same).
  pose proof (se_refund _ _ _ _ _ _ S3) as R3. clear Hg Hset Hg3 Hs3 S2 R2.
  fold (restored_refund orig). destruct (Z.eqb_spec orig cur) as [->|Hoc].
  - rewrite (proj2 (Z.eqb_neq cur new)) by done.
    destruct (Z.eqb_spec cur 0) as [->|Hc0]; [by eexists|].
    rewrite (bind_done _ _ _ _ _ (when_add e3 (new =? 0) clears
      ltac:(intros _; unfold u64_max; lia))).
    eexists. split; [reflexivity|]. eapply settled_eq, settled_add, S3. unfold cleared.
    rewrite (proj2 (Z.eqb_neq cur 0)) by done. simpl. lia.
  - rewrite (bind_done _ _ _ _ _ (clear_step e3 orig cur new ltac:(lia))).
    rewrite (bind_done _ _ _ _ _ (when_add
      (add_to_refund e3 (cleared orig new - cleared orig cur)) (orig =? new) (restored_refund orig)
      ltac:(intros _; cbn [add_to_refund evmglue.with_state evm_state with_refund refund];
            pose proof (cleared_range orig new); pose proof (cleared_range orig cur);
            unfold u64_max; lia))).
    rewrite add_to_refund_add. eexists. split; [reflexivity|].
    eapply settled_eq, settled_add, S3. lia.
Qed.


(** A sequence of writes to a slot. *)
Fixpoint writes (a : Address) (k : Z) (vs : list Z) : SM (Evm DB C T) unit :=
  match vs with
  | [] => mret ()
  | v :: vs => _ ← evmglue.host_set_storage block_spec a k v; writes a k vs
  end.

Lemma refund_delta_range orig cur new : - 15000 <= refund_delta orig cur new <= 40000.
Proof.
  unfold refund_delta. pose proof clears_range. case_if; [lia|].
  destruct metered eqn:Hm; cbn [negb].
  - pose proof (restored_refund_range orig Hm). unfold cleared. repeat case_if; lia.
  - unfold fee.R_SCLEAR. case_if; lia.
Qed.

(** The refund beyond what is owed back for the slot does not decrease. *)
Lemma writes_spec a k orig r vs : 0 <= r -> forall e cur,
  loaded (evm_state e) a -> original_val (evm_state e) a k = Some orig ->
  current_val (evm_state e) a k = Some cur ->
  (if metered then cleared orig cur + r else r) <= refund (evm_state e) ->
  refund (evm_state e) + 40000 * Z.of_nat (length vs) <= 2 ^ 63 ->
  exists e', writes a k vs e = Done () e' /\
    current_val (evm_state e') a k = Some (default cur (last vs)) /\
    original_val (evm_state e') a k = Some orig /\
    (if metered then cleared orig (default cur (last vs)) + r else r) <= refund (evm_state e').
Proof.
  intros Hr0. induction vs as [|v vs IH]; intros e cur Hl Ho Hc Hr Hb; [by exists e|].
  simpl length in Hb. pose proof (refund_delta_range orig cur v) as Hd.
  pose proof (cleared_range orig cur).
  destruct (host_set_storage_spec e a k orig cur v Hl Ho Hc) as (e1 & He & [S1 S2 S3 S4]);
    [destruct metered; lia|intros E; rewrite E in Hr; lia|].
  simpl. rewrite (bind_done _ _ _ _ _ He).
  destruct (IH e1 v) as (e' & Hw & Hc' & Ho' & Hr').
  - unfold loaded. by rewrite S1.
  - by rewrite S4.
  - rewrite S3. by rewrite decide_True.
  - rewrite S2. destruct metered eqn:Hm.
    + pose proof (refund_delta_cleared orig cur v Hm). lia.
    + unfold refund_delta. rewrite Hm. cbn [negb]. unfold fee.R_SCLEAR. repeat case_if; lia.
  - rewrite S2. lia.
  - exists e'. split; [done|]. rewrite last_cons. by destruct (last vs).
Qed.

(** Within a transaction the refund counter never underflows.  Any sequence
    of writes to a slot, from the state in which it has its original value,
    runs without a panic, leaves the last value in the slot, and the refund is at
    the end at least what it was before the sequence. *)
Theorem refunds_never_underflow e a k orig vs :
  loaded (evm_state e) a -> original_val (evm_state e) a k = Some orig ->
  current_val (evm_state e) a k = Some orig -> 0 <= refund (evm_state e) ->
  refund (evm_state e) + 40000 * Z.of_nat (length vs) <= 2 ^ 63 ->
  exists e', writes a k vs e = Done () e' /\
    current_val (evm_state e') a k = Some (default orig (last vs)) /\
    original_val (evm_state e') a k = Some orig /\
    refund (evm_state e) <= refund (evm_state e').
Proof.
  intros Hl Ho Hc Hr Hb.
  destruct (writes_spec a k orig (refund (evm_state e)) vs Hr e orig Hl Ho Hc) as (e' & ? & ? & ? & Hr');
    [|done|].
  - unfold cleared. destruct metered; [|done]. by destruct (orig =? 0).
  - exists e'. splits; [done..|]. pose proof (cleared_range orig (default orig (last vs))).
    destruct metered; lia.
Qed.

End sstore.

(** ** An example: an account with a stored word *)

#[local] Instance word_db : State Z := {|
  read_account d a := Some None;
  read_code d h := Some [];
  read_storage d a k := Some d;
  erase_storage a d := Some d;
  begin_block n d := d;
  update_account a i c d := d;
  update_code h c d := Some d;
  update_storage a k i c d := Some d;
|}.

#[local] Instance no_keccak : Keccak := {|
  keccak_digest _ := replicate 32 x00;
  length_keccak_digest _ := eq_refl;
|}.

Definition contract_object : Object :=
  let account := {| nonce := 1; balance := 0; code_hash := 1 |} in
  {| initial := Some account; current := Some account |}.

(** The database holds the value 5 in every slot. *)
Definition sample_evm : Evm Z unit unit := {|
  evm_state := with_objects (new 5) {[ 7 := contract_object ]};
  evm_cache := ();
  evm_tracer := None;
|}.

Definition london_spec : BlockExecutionSpec := {|
  spec_revision := London;
  active_transitions := [];
  spec_params := {| params_chain_id := 1; params_network_id := 1; min_gas_limit := 5000 |};
  system_contract_changes := ∅;
  balance_changes := ∅;
|}.


(** Clearing, setting and clearing again. *)
Lemma refunds_never_underflow_witness :
  exists e', writes london_spec 7 0 [0; 3; 0] sample_evm = Done () e' /\
    current_val (evm_state e') 7 0 = Some 0.
Proof.
  destruct (refunds_never_underflow london_spec sample_evm 7 0 5 [0; 3; 0]) as (e' & E & Hc & _).
  - exists {| nonce := 1; balance := 0; code_hash := 1 |}. reflexivity.
  - reflexivity.
  - reflexivity.
  - discriminate.
  - vm_compute. discriminate.
  - exists e'. exact (conj E Hc).
Defined.
