(* ===== verification/MemState.v ===== *)
(** The state held in memory (src/state/in_memory_state.rs), the instance of
    the trait [State] that the consensus tests and the chain of
    src/consensus/blockchain.rs run on, and the initial state of a chain
    (src/state/genesis.rs).

    A [Vec] indexed by block number is a list; hash maps are finite maps.  The
    change sets of a block hold the values accounts and slots had before it. *)
From S2P Require Import Prelude Word EvmState Host Transaction IntraBlockState Consensus Precompiled.
From Stdlib Require Import ZArith Lia Strings.Byte.
From stdpp Require Import base list option numbers gmap.
#[local] Open Scope Z_scope.

(** ** Codecs of other crates *)

(** The root of the trie of a set of pairs (the triehash crate). *)
Class TrieRoot := { trie_root : list (Bytes * Bytes) -> Z }.

Record RlpAccount := {
  rlp_nonce : Z;
  rlp_balance : Z;
  rlp_storage_root : Z;
  rlp_code_hash : Z;
}.

(** RLP encodings of a byte string and of an account. *)
Class AccountCodec := {
  rlp_bytes : Bytes -> Bytes;
  rlp_account : RlpAccount -> Bytes;
}.

(** [Account::to_rlp]. *)
Definition to_rlp (a : Account) (storage_root : Z) : RlpAccount := {|
  rlp_nonce := nonce a;
  rlp_balance := balance a;
  rlp_storage_root := storage_root;
  rlp_code_hash := code_hash a;
|}.

Definition u256_to_h256 (v : Z) : Bytes := be_bytes 32 v.
Definition h256_to_u256 (v : Bytes) : Z := be_val v.

(** The bytes from the first one that is not zero. *)
Fixpoint zeroless_view (v : Bytes) : Bytes :=
  match v with
  | [] => []
  | b :: bs => if byte_val b =? 0 then zeroless_view bs else v
  end.

Definition EMPTY_ROOT : Z :=
  0x56e81f171bcc55a6ff8345e692c0f86e5b48e01b996cadc001622fb5e363b421.

(** The hash of a transaction that its sender signed. *)
Class SigningHash := { signing_hash : Message -> Bytes }.

Definition recover_sender `{SigningHash, Secp256k1, Keccak} (t : MessageWithSignature)
    : option Address :=
  let sig := signature t in
  public ← recover_ecdsa (signing_hash (message t)) (be_bytes 32 (sig_r sig))
             (be_bytes 32 (sig_s sig)) (sig_odd_y_parity sig);
  public ← slice public 1 (blen public - 1);
  Some (be_val (drop 12 (keccak_digest public))).

(** [tx.recover_sender()?] on every transaction. *)
Fixpoint recover_senders `{SigningHash, Secp256k1, Keccak} (l : list MessageWithSignature)
    : option (list MessageWithSender) :=
  match l with
  | [] => Some []
  | t :: l =>
      s ← recover_sender t;
      l ← recover_senders l;
      Some ({| sent_message := message t; sender := s |} :: l)
  end.

Record BlockBodyWithSenders := {
  with_senders_transactions : list MessageWithSender;
  with_senders_ommers : list BlockHeader;
}.

Record InMemoryState := {
  accounts : gmap Address Account;
  code : gmap Z Bytes;
  mem_storage : gmap Address (gmap Z Z);
  headers : list (gmap Z BlockHeader);
  bodies : list (gmap Z BlockBody);
  mem_difficulty : list (gmap Z Z);
  canonical_hashes : list Z;
  account_changes : gmap Z (gmap Address (option Account));
  storage_changes : gmap Z (gmap Address (gmap Z Z));
  mem_block_number : Z;
}.

Module mem.

(** The state part and the chain part of the record. *)
Definition with_world (m : InMemoryState) (a : gmap Address Account) (c : gmap Z Bytes)
    (s : gmap Address (gmap Z Z)) (ac : gmap Z (gmap Address (option Account)))
    (sc : gmap Z (gmap Address (gmap Z Z))) (n : Z) : InMemoryState := {|
  accounts := a; code := c; mem_storage := s; headers := headers m; bodies := bodies m;
  mem_difficulty := mem_difficulty m; canonical_hashes := canonical_hashes m;
  account_changes := ac; storage_changes := sc; mem_block_number := n;
|}.

Definition with_chain (m : InMemoryState) (h : list (gmap Z BlockHeader))
    (b : list (gmap Z BlockBody)) (d : list (gmap Z Z)) (c : list Z) : InMemoryState := {|
  accounts := accounts m; code := code m; mem_storage := mem_storage m; headers := h;
  bodies := b; mem_difficulty := d; canonical_hashes := c;
  account_changes := account_changes m; storage_changes := storage_changes m;
  mem_block_number := mem_block_number m;
|}.

Definition new : InMemoryState := {|
  accounts := ∅; code := ∅; mem_storage := ∅; headers := []; bodies := [];
  mem_difficulty := []; canonical_hashes := []; account_changes := ∅; storage_changes := ∅;
  mem_block_number := 0;
|}.

(** The slots of an address. *)
Definition slots_of (m : InMemoryState) (address : Address) : gmap Z Z :=
  default ∅ (mem_storage m !! address).

(** ** State roots *)

Section roots.
Context `{Keccak, TrieRoot, AccountCodec}.

Definition account_storage_root (m : InMemoryState) (address : Address) : Z :=
  match mem_storage m !! address with
  | Some storage =>
      if bool_decide (storage = ∅) then EMPTY_ROOT
      else trie_root ((fun e : Z * Z =>
             (keccak_digest (u256_to_h256 e.1), rlp_bytes (zeroless_view (u256_to_h256 e.2))))
             <$> map_to_list storage)
  | None => EMPTY_ROOT
  end.

Definition state_root_hash (m : InMemoryState) : Z :=
  if bool_decide (accounts m = ∅) then EMPTY_ROOT
  else trie_root ((fun e : Address * Account =>
         (keccak_digest (be_bytes 20 e.1),
          rlp_account (to_rlp e.2 (account_storage_root m e.1)))) <$> map_to_list (accounts m)).

End roots.

Definition number_of_accounts (m : InMemoryState) : Z := Z.of_nat (size (accounts m)).

Definition storage_size (m : InMemoryState) (address : Address) : Z :=
  match mem_storage m !! address with
  | Some storage => Z.of_nat (size storage)
  | None => 0
  end.

(** ** The chain *)

(** [canonical_hashes.len() as u64 - 1]. *)
Definition current_canonical_block (m : InMemoryState) : option Z :=
  unsigned_sub (blen (canonical_hashes m)) 1.

Definition canonical_hash (m : InMemoryState) (block_number : Z) : option Z :=
  index (canonical_hashes m) block_number.

(** [if v.len() <= n { v.resize_with(n + 1, Default::default) }]. *)
Definition grow_to {A} (v : list A) (n : Z) (x : A) : list A :=
  if blen v <=? n then vec_resize v (n + 1) x else v.

(** [v[n].insert(k, x)]. *)
Definition insert_at {A} (v : list (gmap Z A)) (n k : Z) (x : A) : list (gmap Z A) :=
  alter (insert k x) (Z.to_nat n) v.

Definition insert_block (block : Block) (hash : Z) (m : InMemoryState) : option InMemoryState :=
  let header := block_header block in
  let block_number := header.number header in
  let headers := insert_at (grow_to (headers m) block_number ∅) block_number hash header in
  let bodies := insert_at (grow_to (bodies m) block_number ∅) block_number hash
    {| body_transactions := block_transactions block; body_ommers := block_ommers block |} in
  let difficulty := grow_to (mem_difficulty m) block_number ∅ in
  let '(parent, difficulty) :=
    if block_number =? 0 then (0, difficulty)
    else
      let parents := default ∅ (index difficulty (block_number - 1)) in
      let p := default 0 (parents !! header.parent_hash header) in
      (p, insert_at difficulty (block_number - 1) (header.parent_hash header) p) in
  d ← u256_checked (parent + header.difficulty header);
  Some (with_chain m headers bodies (insert_at difficulty block_number hash d)
          (canonical_hashes m)).

Definition canonize_block (block_number block_hash : Z) (m : InMemoryState) : InMemoryState :=
  with_chain m (headers m) (bodies m) (mem_difficulty m)
    (<[Z.to_nat block_number := block_hash]> (grow_to (canonical_hashes m) block_number 0)).

Definition decanonize_block (block_number : Z) (m : InMemoryState) : InMemoryState :=
  with_chain m (headers m) (bodies m) (mem_difficulty m)
    (take (Z.to_nat block_number) (canonical_hashes m)).

Definition read_in {A} (v : list (gmap Z A)) (block_number block_hash : Z) : option A :=
  entry ← index v block_number;
  entry !! block_hash.

Definition mem_read_header (m : InMemoryState) (block_number block_hash : Z)
    : option BlockHeader := read_in (headers m) block_number block_hash.
Definition mem_read_body (m : InMemoryState) (block_number block_hash : Z)
    : option BlockBody := read_in (bodies m) block_number block_hash.
Definition total_difficulty (m : InMemoryState) (block_number block_hash : Z)
    : option Z := read_in (mem_difficulty m) block_number block_hash.

(** [None] is the error of a signature without a sender. *)
Definition read_body_with_senders `{SigningHash, Secp256k1, Keccak} (m : InMemoryState)
    (block_number block_hash : Z) : option (option BlockBodyWithSenders) :=
  match mem_read_body m block_number block_hash with
  | Some body =>
      transactions ← recover_senders (body_transactions body);
      Some (Some {| with_senders_transactions := transactions;
                    with_senders_ommers := body_ommers body |})
  | None => Some None
  end.

(** ** Reads and writes *)

Definition mem_read_account (m : InMemoryState) (address : Address) : option Account :=
  accounts m !! address.

Definition mem_read_code (m : InMemoryState) (code_hash : Z) : Bytes :=
  default [] (code m !! code_hash).

Definition mem_read_storage (m : InMemoryState) (address : Address) (location : Z) : Z :=
  default 0 (storage ← mem_storage m !! address; storage !! location).

(** [changes.entry(n).or_default().entry(a).or_default()]. *)
Definition changes_at (c : gmap Z (gmap Address (gmap Z Z))) (n : Z) (a : Address) : gmap Z Z :=
  default ∅ (default ∅ (c !! n) !! a).

Definition set_changes (c : gmap Z (gmap Address (gmap Z Z))) (n : Z) (a : Address)
    (v : gmap Z Z) : gmap Z (gmap Address (gmap Z Z)) :=
  <[n := <[a := v]> (default ∅ (c !! n))]> c.

Definition mem_erase_storage (address : Address) (m : InMemoryState) : InMemoryState :=
  let address_storage := slots_of m address in
  with_world m (accounts m) (code m) (delete address (mem_storage m)) (account_changes m)
    (if bool_decide (address_storage = ∅) then storage_changes m
     else set_changes (storage_changes m) (mem_block_number m) address
            (address_storage ∪
             changes_at (storage_changes m) (mem_block_number m) address))
    (mem_block_number m).

Definition mem_begin_block (block_number : Z) (m : InMemoryState) : InMemoryState :=
  with_world m (accounts m) (code m) (mem_storage m) (account_changes m) (storage_changes m)
    block_number.

(** Set or remove an account. *)
Definition put_account (a : Address) (v : option Account) (m : gmap Address Account)
    : gmap Address Account :=
  match v with Some v => <[a := v]> m | None => delete a m end.

Definition mem_update_account (address : Address) (initial current : option Account)
    (m : InMemoryState) : InMemoryState :=
  with_world m (put_account address current (accounts m)) (code m) (mem_storage m)
    (<[mem_block_number m :=
        <[address := initial]> (default ∅ (account_changes m !! mem_block_number m))]>
      (account_changes m))
    (storage_changes m) (mem_block_number m).

Definition mem_update_code (code_hash : Z) (c : Bytes) (m : InMemoryState) : InMemoryState :=
  with_world m (accounts m) (<[code_hash := c]> (code m)) (mem_storage m) (account_changes m)
    (storage_changes m) (mem_block_number m).

(** Set or remove a slot. *)
Definition put_slot (k v : Z) (e : gmap Z Z) : gmap Z Z :=
  if v =? 0 then delete k e else <[k := v]> e.

Definition mem_update_storage (address : Address) (location initial current : Z)
    (m : InMemoryState) : InMemoryState :=
  with_world m (accounts m) (code m)
    (<[address := put_slot location current (slots_of m address)]> (mem_storage m))
    (account_changes m)
    (set_changes (storage_changes m) (mem_block_number m) address
      (<[location := initial]>
        (changes_at (storage_changes m) (mem_block_number m) address)))
    (mem_block_number m).

(** [for (location, value) in storage]. *)
Definition unwind_slots (address : Address) (changes : gmap Z Z)
    (s : gmap Address (gmap Z Z)) : gmap Address (gmap Z Z) :=
  map_fold (fun location value s =>
    <[address := put_slot location value (default ∅ (s !! address))]> s) s changes.

Definition unwind_state_changes (block_number : Z) (m : InMemoryState) : InMemoryState :=
  with_world m
    (map_fold put_account (accounts m) (default ∅ (account_changes m !! block_number)))
    (code m)
    (map_fold unwind_slots (mem_storage m) (default ∅ (storage_changes m !! block_number)))
    (delete block_number (account_changes m))
    (delete block_number (storage_changes m))
    (mem_block_number m).

End mem.

(** ** The instances *)

#[export] Instance mem_state : State InMemoryState := {|
  read_account m a := Some (mem.mem_read_account m a);
  read_code m h := Some (mem.mem_read_code m h);
  read_storage m a k := Some (mem.mem_read_storage m a k);
  erase_storage a m := Some (mem.mem_erase_storage a m);
  begin_block n m := mem.mem_begin_block n m;
  update_account a i c m := mem.mem_update_account a i c m;
  update_code h c m := Some (mem.mem_update_code h c m);
  update_storage a k i c m := Some (mem.mem_update_storage a k i c m);
|}.

#[export] Instance mem_chain_state : ChainState InMemoryState := {|
  read_header m n h := Some (mem.mem_read_header m n h);
  read_body m n h := Some (mem.mem_read_body m n h);
|}.

(** ** The initial state of a chain *)

Definition initial_state (chain_spec : ChainSpec) : InMemoryState :=
  match btree_get (balances chain_spec) 0 with
  | Some balances =>
      foldl (fun m '(address, b) =>
        mem.mem_update_account address None
          (Some {| nonce := 0; balance := b; code_hash := EMPTY_HASH |}) m)
        mem.new (map_to_list balances)
  | None => mem.new
  end.
