(* ===== verification/Rlp.v ===== *)
(** What is appended to RLP streams, and what is encoded with them: headers, logs, blooms and
    receipts (src/models: header.rs, log.rs, bloom.rs and receipt.rs).

    The RLP stream is the one of another crate.  An encoder says which items it
    appends in which order; the bytes they become are a class.  A bloom is its 256 bytes. *)
From S2P Require Import Prelude Word EvmState Transaction IntraBlockState Consensus.
From Stdlib Require Import ZArith Lia Strings.Byte.
From stdpp Require Import base list option numbers.
#[local] Open Scope Z_scope.

(** An item, by the type of the value that is appended; [RlpRaw] and [RlpEmpty] are
    [append_raw] of an encoded item and [append_empty_data]. *)
Inductive RlpItem :=
  | RlpBool (b : bool)
  | RlpU64 (n : Z)
  | RlpU256 (n : Z)
  | RlpAddress (a : Address)
  | RlpH64 (h : Z)
  | RlpH256 (h : Z)
  | RlpBloom (b : Bytes)
  | RlpData (d : Bytes)
  | RlpRaw (d : Bytes)
  | RlpEmpty
  | RlpListOf (l : list RlpItem).

(** [RlpStream::out] of a stream to which an item was appended. *)
Class RlpStream := { rlp_out : RlpItem -> Bytes }.

(** ** Headers *)

(** The fields up to the extra data, which the two encodings of a header share. *)
Definition header_prefix (h : BlockHeader) : list RlpItem :=
  [RlpH256 (header.parent_hash h); RlpH256 (header.ommers_hash h);
   RlpAddress (header.beneficiary h); RlpH256 (header.state_root h);
   RlpH256 (header.transactions_root h); RlpH256 (header.receipts_root h);
   RlpBloom (be_bytes 256 (header.logs_bloom h)); RlpU256 (header.difficulty h);
   RlpU64 (header.number h); RlpU64 (header.gas_limit h); RlpU64 (header.gas_used h);
   RlpU64 (header.timestamp h); RlpData (header.extra_data h)].

(** [if let Some(base_fee_per_gas) = self.base_fee_per_gas { s.append(..) }]. *)
Definition base_fee_items (h : BlockHeader) : list RlpItem :=
  match header.base_fee_per_gas h with Some f => [RlpU256 f] | None => [] end.

(** [Encodable for BlockHeader]. *)
Definition header_item (h : BlockHeader) : RlpItem :=
  RlpListOf (header_prefix h ++
    [RlpH256 (header.mix_hash h); RlpH64 (header.nonce h)] ++ base_fee_items h).

(** [Encodable for TruncatedHeader]. *)
Definition truncated_item (h : BlockHeader) : RlpItem :=
  RlpListOf (header_prefix h ++ base_fee_items h).

Section hashes.
Context `{Keccak} `{RlpStream}.

Definition header_hash (h : BlockHeader) : Z := be_val (keccak_digest (rlp_out (header_item h))).

Definition header_truncated_hash (h : BlockHeader) : Z :=
  be_val (keccak_digest (rlp_out (truncated_item h))).

End hashes.

(** ** Blooms *)

Definition BLOOM_BYTE_LENGTH : Z := 256.

Definition Bloom_zero : Bytes := replicate (Z.to_nat BLOOM_BYTE_LENGTH) x00.

(** The bit that the bytes [i] and [i + 1] of a hash select. *)
Definition bloom_bit (h : Bytes) (i : Z) : option Z :=
  b1 ← index h (i + 1);
  b0 ← index h i;
  Some (Z.land (byte_val b1 + Z.shiftl (byte_val b0) 8) 0x7FF).

(** [bloom.0[BLOOM_BYTE_LENGTH - 1 - bit / 8] |= 1 << (bit % 8)]. *)
Definition bloom_set (bloom : Bytes) (bit : Z) : option Bytes :=
  i ← unsigned_sub (BLOOM_BYTE_LENGTH - 1) (bit / 8);
  b ← index bloom i;
  splice bloom i [byte_of (Z.lor (byte_val b) (Z.shiftl 1 (bit mod 8)))].

(** [for i in l]. *)
Fixpoint bloom_sets (h : Bytes) (l : list Z) (bloom : Bytes) : option Bytes :=
  match l with
  | [] => Some bloom
  | i :: l =>
      bit ← bloom_bit h i;
      bloom ← bloom_set bloom bit;
      bloom_sets h l bloom
  end.

Section bloom.
Context `{Keccak}.

Definition m3_2048 (bloom : Bytes) (x : Bytes) : option Bytes :=
  bloom_sets (keccak_digest x) [0; 2; 4] bloom.

(** [for topic in &log.topics]. *)
Fixpoint bloom_topics (topics : list Z) (bloom : Bytes) : option Bytes :=
  match topics with
  | [] => Some bloom
  | t :: topics =>
      bloom ← m3_2048 bloom (be_bytes 32 t);
      bloom_topics topics bloom
  end.

(** [for log in logs]. *)
Fixpoint bloom_logs (logs : list Log) (bloom : Bytes) : option Bytes :=
  match logs with
  | [] => Some bloom
  | l :: logs =>
      bloom ← m3_2048 bloom (be_bytes 20 (log_address l));
      bloom ← bloom_topics (log_topics l) bloom;
      bloom_logs logs bloom
  end.

Definition logs_bloom (logs : list Log) : option Bytes := bloom_logs logs Bloom_zero.

(** ** Receipts *)

Record Receipt := {
  receipt_tx_type : TxType;
  success : bool;
  receipt_gas_used : Z;
  bloom : Bytes;
  receipt_logs : list Log;
}.

Definition Receipt_new (tx_type : TxType) (success_ : bool) (cumulative_gas_used : Z)
    (logs : list Log) : option Receipt :=
  bloom_ ← logs_bloom logs;
  Some {| receipt_tx_type := tx_type; success := success_;
          receipt_gas_used := cumulative_gas_used; bloom := bloom_; receipt_logs := logs |}.

(** [Encodable for Log]. *)
Definition log_item (l : Log) : RlpItem :=
  RlpListOf [RlpAddress (log_address l); RlpListOf (RlpH256 <$> log_topics l);
             RlpData (log_data l)].

Definition receipt_fields (r : Receipt) : RlpItem :=
  RlpListOf [RlpBool (success r); RlpU64 (receipt_gas_used r); RlpBloom (bloom r);
             RlpListOf (log_item <$> receipt_logs r)].

(** [self.tx_type as u8]. *)
Definition tx_type_byte (t : TxType) : byte :=
  match t with TxLegacy => x00 | TxEIP2930 => x01 | TxEIP1559 => x02 end.

Context `{RlpStream}.

(** [Receipt::encode_inner] into a new stream: [standalone] in a trie, as a
    string item in a list. *)
Definition encode_inner (r : Receipt) (standalone : bool) : Bytes :=
  match receipt_tx_type r with
  | TxLegacy => rlp_out (receipt_fields r)
  | t =>
      let l := tx_type_byte t :: rlp_out (receipt_fields r) in
      if standalone then l else rlp_out (RlpData l)
  end.

Definition receipt_trie_encode (r : Receipt) : Bytes := encode_inner r true.
Definition receipt_rlp (r : Receipt) : Bytes := encode_inner r false.

(** [root_hash] of receipts. *)
Definition receipts_root_hash `{Codec} (receipts : list Receipt) : Z :=
  ordered_trie_root (receipt_trie_encode <$> receipts).

End bloom.
