(* ===== verification/Trie.v ===== *)
(** Merkle Patricia tries (src/trie): nodes, prefix sets, nibbles and the hash
    builder.

    Nibbles and masks are numbers; an index out of range, a shift by the width or
    a failed assertion is [None].  The callback of the hash builder is the list
    of its calls. *)
From S2P Require Import Prelude Word EvmState Rlp MemState.
From Stdlib Require Import ZArith Lia Strings.Byte.
From stdpp Require Import base list option numbers gmap.
#[local] Open Scope Z_scope.

Definition KECCAK_LENGTH : nat := 32.

(** ** util.rs *)

(** [s.starts_with(prefix)]. *)
Definition has_prefix (s prefix : list Z) : bool := bool_decide (take (length prefix) s = prefix).

(** [assert_eq!(sub & sup, sub)]. *)
Definition assert_subset (sub sup : Z) : option unit :=
  if Z.land sub sup =? sub then Some () else None.

Fixpoint prefix_length (a b : list Z) : nat :=
  match a, b with
  | x :: a, y :: b => if x =? y then S (prefix_length a b) else O
  | _, _ => O
  end.

(** ** prefix_set.rs: the [BTreeSet] is the sorted list of its elements *)

(** The order of [Vec<u8>]. *)
Fixpoint vec_lt (a b : list Z) : bool :=
  match a, b with
  | [], [] => false
  | [], _ :: _ => true
  | _ :: _, [] => false
  | x :: a, y :: b => (x <? y) || ((x =? y) && vec_lt a b)
  end.

Definition PrefixSet : Type := list (list Z).

Module prefix_set.

Definition new : PrefixSet := [].

(** [self.0.range(prefix..).next()]. *)
Fixpoint first_from (s : PrefixSet) (prefix : list Z) : option (list Z) :=
  match s with
  | [] => None
  | x :: s => if vec_lt x prefix then first_from s prefix else Some x
  end.

Definition contains (s : PrefixSet) (prefix : list Z) : bool :=
  match first_from s prefix with
  | Some x => has_prefix x prefix
  | None => false
  end.

Fixpoint insert (key : list Z) (s : PrefixSet) : PrefixSet :=
  match s with
  | [] => [key]
  | x :: s' =>
      if vec_lt key x then key :: s
      else if vec_lt x key then x :: insert key s' else s
  end.

End prefix_set.

(** ** node.rs *)

(** [u16::count_ones]. *)
Definition count_ones (m : Z) : nat :=
  length (filter (fun d => Z.testbit m (Z.of_nat d) = true) (seq 0 16)).

Record Node := {
  state_mask : Z;
  tree_mask : Z;
  hash_mask : Z;
  hashes : list Z;
  node_root_hash : option Z;
}.

Definition Node_new (state_mask tree_mask hash_mask : Z) (hashes : list Z) (root_hash : option Z)
    : option Node :=
  _ ← assert_subset tree_mask state_mask;
  _ ← assert_subset hash_mask state_mask;
  if (count_ones hash_mask =? length hashes)%nat then
    Some {| state_mask := state_mask; tree_mask := tree_mask; hash_mask := hash_mask;
            hashes := hashes; node_root_hash := root_hash |}
  else None.

Definition set_root_hash (n : Node) (root_hash : option Z) : Node :=
  {| state_mask := state_mask n; tree_mask := tree_mask n; hash_mask := hash_mask n;
     hashes := hashes n; node_root_hash := root_hash |}.

Definition marshal_node (n : Node) : Bytes :=
  be_bytes 2 (state_mask n) ++ be_bytes 2 (tree_mask n) ++ be_bytes 2 (hash_mask n) ++
  match node_root_hash n with Some h => be_bytes 32 h | None => [] end ++
  concat (be_bytes 32 <$> hashes n).

(** [n] hashes from the beginning of [v]. *)
Fixpoint read_hashes (n : nat) (v : Bytes) : list Z :=
  match n with
  | O => []
  | S n => be_val (take KECCAK_LENGTH v) :: read_hashes n (drop KECCAK_LENGTH v)
  end.

(** The outer [None] is a panic of [Node::new], the inner one the result. *)
Definition unmarshal_node (v : Bytes) : option (option Node) :=
  if (length v <? 6)%nat then Some None
  else if negb ((length v - 6) mod KECCAK_LENGTH =? 0)%nat then Some None
  else
    let state_mask := be_val (take 2 v) in
    let tree_mask := be_val (take 2 (drop 2 v)) in
    let hash_mask := be_val (take 2 (drop 4 v)) in
    let rest := drop 6 v in
    let '(root_hash, rest) :=
      if (count_ones hash_mask + 1 =? length rest / KECCAK_LENGTH)%nat
      then (Some (be_val (take KECCAK_LENGTH rest)), drop KECCAK_LENGTH rest)
      else (None, rest) in
    n ← Node_new state_mask tree_mask hash_mask
          (read_hashes (length rest / KECCAK_LENGTH) rest) root_hash;
    Some (Some n).

(** ** hash_builder.rs *)

Definition RLP_EMPTY_STRING_CODE : Z := 0x80.

(** [n << 4] at [u8]. *)
Definition shl4 (n : Z) : Z := wrap 8 (Z.shiftl n 4).

(** [x + y] at [u8]. *)
Definition u8_add (x y : Z) : option Z := checked 0 255 (x + y).

(** Pairs of nibbles as bytes; an odd nibble at the end is an index out of range. *)
Fixpoint encode_pairs (nibbles : list Z) : option Bytes :=
  match nibbles with
  | [] => Some []
  | hi :: lo :: nibbles =>
      b ← u8_add (shl4 hi) lo;
      bs ← encode_pairs nibbles;
      Some (byte_of b :: bs)
  | [_] => None
  end.

Definition encode_path (nibbles : list Z) (terminating : bool) : option Bytes :=
  let odd := negb (length nibbles mod 2 =? 0)%nat in
  let flag := (if terminating then 0x20 else 0x00) + (if odd then 0x10 else 0x00) in
  if odd then
    match nibbles with
    | n :: nibbles =>
        bs ← encode_pairs nibbles;
        Some (byte_of (Z.lor flag n) :: bs)
    | [] => None
    end
  else
    bs ← encode_pairs nibbles;
    Some (byte_of flag :: bs).

Definition wrap_hash (hash : Z) : Bytes :=
  byte_of (RLP_EMPTY_STRING_CODE + Z.of_nat KECCAK_LENGTH) :: be_bytes 32 hash.

Fixpoint pack_nibbles (nibbles : list Z) : option Bytes :=
  match nibbles with
  | [] => Some []
  | [n] => Some [byte_of (shl4 n)]
  | hi :: lo :: nibbles =>
      b ← u8_add (shl4 hi) lo;
      bs ← pack_nibbles nibbles;
      Some (byte_of b :: bs)
  end.

Definition unpack_nibbles (packed : Bytes) : list Z :=
  concat ((fun b => [Z.shiftr (byte_val b) 4; Z.land (byte_val b) 0x0F]) <$> packed).

Inductive HashBuilderValue :=
  | ValueBytes (b : Bytes)
  | ValueHash (h : Z).

Record HashBuilder := {
  node_collector : option (list (list Z * Node));
  key : list Z;
  value : HashBuilderValue;
  is_in_db_trie : bool;
  groups : list Z;
  tree_masks : list Z;
  hash_masks : list Z;
  stack : list Bytes;
  rlp_buffer : Bytes;
}.

(** [Vec::resize(n, 0)]. *)
Definition resize0 (v : list Z) (n : nat) : list Z := take n v ++ replicate (n - length v) 0.

(** [1u16 << digit]. *)
Definition bit16 (digit : Z) : option Z := if digit <? 16 then Some (Z.shiftl 1 digit) else None.

(** [v[i] |= x] and [v[i] &= !x]. *)
Definition or_at (v : list Z) (i : nat) (x : Z) : option (list Z) :=
  b ← v !! i; Some (<[i := Z.lor b x]> v).
Definition clear_at (v : list Z) (i : nat) (x : Z) : option (list Z) :=
  b ← v !! i; Some (<[i := Z.ldiff b x]> v).

Module hash_builder.

Section builder.
Context `{Keccak} `{RlpStream}.

Definition node_ref (rlp : Bytes) : Bytes :=
  if (length rlp <? KECCAK_LENGTH)%nat then rlp else wrap_hash (be_val (keccak_digest rlp)).

Definition new (collect : bool) : HashBuilder := {|
  node_collector := if collect then Some [] else None;
  key := []; value := ValueBytes []; is_in_db_trie := false; groups := []; tree_masks := [];
  hash_masks := []; stack := []; rlp_buffer := [];
|}.

Definition with_masks (h : HashBuilder) (g t m : list Z) : HashBuilder := {|
  node_collector := node_collector h; key := key h; value := value h;
  is_in_db_trie := is_in_db_trie h; groups := g; tree_masks := t; hash_masks := m;
  stack := stack h; rlp_buffer := rlp_buffer h;
|}.

(** The stack with the buffer of the last node encoded. *)
Definition with_stack (h : HashBuilder) (s : list Bytes) (b : Bytes) : HashBuilder := {|
  node_collector := node_collector h; key := key h; value := value h;
  is_in_db_trie := is_in_db_trie h; groups := groups h; tree_masks := tree_masks h;
  hash_masks := hash_masks h; stack := s; rlp_buffer := b;
|}.

Definition with_collected (h : HashBuilder) (c : list (list Z * Node)) : HashBuilder := {|
  node_collector := Some c; key := key h; value := value h;
  is_in_db_trie := is_in_db_trie h; groups := groups h; tree_masks := tree_masks h;
  hash_masks := hash_masks h; stack := stack h; rlp_buffer := rlp_buffer h;
|}.

Definition with_entry (h : HashBuilder) (k : list Z) (v : HashBuilderValue) (b : bool)
    : HashBuilder := {|
  node_collector := node_collector h; key := k; value := v;
  is_in_db_trie := b; groups := groups h; tree_masks := tree_masks h;
  hash_masks := hash_masks h; stack := stack h; rlp_buffer := rlp_buffer h;
|}.

Definition leaf_node_rlp (path : list Z) (value : Bytes) : option Bytes :=
  encoded_path ← encode_path path true;
  Some (rlp_out (RlpListOf [RlpData encoded_path; RlpData value])).

Definition extension_node_rlp (path : list Z) (child_ref : Bytes) : option Bytes :=
  encoded_path ← encode_path path false;
  Some (rlp_out (RlpListOf [RlpData encoded_path; RlpRaw child_ref])).

(** [for digit in 0..16] over the children: the items of the node and the
    references with a bit in the hash mask. *)
Fixpoint branch_items (digits : list nat) (state_mask hash_mask : Z) (children : list Bytes)
    : option (list RlpItem * list Bytes) :=
  match digits with
  | [] => Some ([], [])
  | d :: digits =>
      if Z.testbit state_mask (Z.of_nat d) then
        match children with
        | [] => None
        | c :: children =>
            '(items, hs) ← branch_items digits state_mask hash_mask children;
            Some (RlpRaw c :: items, if Z.testbit hash_mask (Z.of_nat d) then c :: hs else hs)
        end
      else
        '(items, hs) ← branch_items digits state_mask hash_mask children;
        Some (RlpEmpty :: items, hs)
  end.

Definition branch_ref (h : HashBuilder) (state_mask hash_mask : Z)
    : option (HashBuilder * list Bytes) :=
  _ ← assert_subset hash_mask state_mask;
  let n := count_ones state_mask in
  if (length (stack h) <? n)%nat then None
  else
    let first_child_idx := (length (stack h) - n)%nat in
    '(items, child_hashes) ←
      branch_items (seq 0 16) state_mask hash_mask (drop first_child_idx (stack h));
    let rlp := rlp_out (RlpListOf (items ++ [RlpEmpty])) in
    Some (with_stack h (take first_child_idx (stack h) ++ [node_ref rlp]) rlp, child_hashes).

(** [private_root_hash(false)]. *)
Definition current_root_hash (h : HashBuilder) : Z :=
  match last (stack h) with
  | None => EMPTY_ROOT
  | Some r =>
      if (length r =? KECCAK_LENGTH + 1)%nat then be_val (drop 1 r)
      else be_val (keccak_digest r)
  end.

(** The value of the current key is pushed: a leaf, or the hash of a subtree. *)
Definition push_value (h : HashBuilder) (current short_node_key : list Z)
    : option (HashBuilder * bool) :=
  match value h with
  | ValueBytes leaf_value =>
      rlp ← leaf_node_rlp short_node_key leaf_value;
      Some (with_stack h (stack h ++ [node_ref rlp]) rlp, false)
  | ValueHash hash =>
      let h := with_stack h (stack h ++ [wrap_hash hash]) (rlp_buffer h) in
      match node_collector h with
      | Some _ =>
          l ← last current;
          flag ← bit16 l;
          let i := (length current - 1)%nat in
          tree ← (if is_in_db_trie h then or_at (tree_masks h) i flag else Some (tree_masks h));
          hash ← or_at (hash_masks h) i flag;
          Some (with_masks h (groups h) tree hash, true)
      | None => Some (h, true)
      end
  end.

(** The last node becomes the child of an extension. *)
Definition extend (h : HashBuilder) (current short_node_key : list Z) (len_from : nat)
    : option HashBuilder :=
  h ← (match node_collector h with
       | Some _ =>
           if (0 <? len_from)%nat then
             d ← current !! (len_from - 1)%nat;
             flag ← bit16 d;
             hash ← clear_at (hash_masks h) (len_from - 1) flag;
             t ← tree_masks h !! (length current - 1)%nat;
             tree ← (if negb (t =? 0) then or_at (tree_masks h) (len_from - 1) flag
                     else Some (tree_masks h));
             Some (with_masks h (groups h) tree hash)
           else Some h
       | None => Some h
       end);
  stack_last ← last (stack h);
  rlp ← extension_node_rlp short_node_key stack_last;
  let h := with_stack h (removelast (stack h) ++ [node_ref rlp]) rlp in
  Some (with_masks h (groups h) (resize0 (tree_masks h) len_from) (resize0 (hash_masks h) len_from)).

(** The hashes of child references. *)
Fixpoint child_hash_values (l : list Bytes) : option (list Z) :=
  match l with
  | [] => Some []
  | c :: l =>
      if (length c =? KECCAK_LENGTH + 1)%nat then
        r ← child_hash_values l; Some (be_val (drop 1 c) :: r)
      else None
  end.

(** The branch node at [len] is complete. *)
Definition close_branch (h : HashBuilder) (current : list Z) (len : nat) : option HashBuilder :=
  group ← groups h !! len;
  mask ← hash_masks h !! len;
  '(h, child_hashes) ← branch_ref h group mask;
  match node_collector h with
  | None => Some h
  | Some collected =>
      h ← (if (0 <? len)%nat then
             d ← current !! (len - 1)%nat;
             flag ← bit16 d;
             hash ← or_at (hash_masks h) (len - 1) flag;
             Some (with_masks h (groups h) (tree_masks h) hash)
           else Some h);
      tree ← tree_masks h !! len;
      hash ← hash_masks h !! len;
      if negb (tree =? 0) || negb (hash =? 0) then
        h ← (if (0 <? len)%nat then
               d ← current !! (len - 1)%nat;
               flag ← bit16 d;
               tree ← or_at (tree_masks h) (len - 1) flag;
               Some (with_masks h (groups h) tree (hash_masks h))
             else Some h);
        hs ← child_hash_values child_hashes;
        group ← groups h !! len;
        n ← Node_new group tree hash hs None;
        let n := if (len =? 0)%nat then set_root_hash n (Some (current_root_hash h)) else n in
        Some (with_collected h (collected ++ [(take len current, n)]))
      else Some h
  end.

(** [while self.groups.last() == Some(&0) { self.groups.pop(); }]. *)
Fixpoint strip_zeros (l : list Z) : list Z :=
  match l with
  | [] => []
  | x :: l =>
      match strip_zeros l with
      | [] => if x =? 0 then [] else [x]
      | l => x :: l
      end
  end.

(** One round of the loop of [gen_struct_step]: the key of the next round, if any. *)
Definition struct_round (h : HashBuilder) (succeeding current : list Z) (build_extensions : bool)
    : option (HashBuilder * option (list Z)) :=
  let preceding_exists := negb (length (groups h) =? 0)%nat in
  let preceding_len := (length (groups h) - 1)%nat in
  let common_prefix_len := prefix_length succeeding current in
  let len := Nat.max preceding_len common_prefix_len in
  if negb (len <? length current)%nat then None
  else
    extra_digit ← current !! len;
    flag ← bit16 extra_digit;
    let g := if (length (groups h) <=? len)%nat then resize0 (groups h) (len + 1) else groups h in
    g ← or_at g len flag;
    let '(t, m) :=
      if (length (tree_masks h) <? length current)%nat
      then (resize0 (tree_masks h) (length current), resize0 (hash_masks h) (length current))
      else (tree_masks h, hash_masks h) in
    let h := with_masks h g t m in
    let succeeding_exists := negb (length succeeding =? 0)%nat in
    let open := succeeding_exists || preceding_exists in
    let len_from := if open then (len + 1)%nat else len in
    let short_node_key := drop len_from current in
    '(h, build_extensions) ←
      (if build_extensions then Some (h, true) else push_value h current short_node_key);
    h ← (if build_extensions && negb (length short_node_key =? 0)%nat
         then extend h current short_node_key len_from else Some h);
    if (preceding_len <=? common_prefix_len)%nat && succeeding_exists then Some (h, None)
    else
      h ← (if open then close_branch h current len else Some h);
      let g := resize0 (groups h) len in
      let h := with_masks h g (resize0 (tree_masks h) len) (resize0 (hash_masks h) len) in
      if (preceding_len =? 0)%nat then Some (h, None)
      else Some (with_masks h (strip_zeros g) (tree_masks h) (hash_masks h),
                 Some (take preceding_len current)).

(** The key gets shorter in every round: its length is enough fuel. *)
Fixpoint struct_loop (fuel : nat) (h : HashBuilder) (succeeding current : list Z)
    (build_extensions : bool) : option HashBuilder :=
  match fuel with
  | O => None
  | S fuel =>
      '(h, next) ← struct_round h succeeding current build_extensions;
      match next with
      | None => Some h
      | Some current => struct_loop fuel h succeeding current true
      end
  end.

Definition gen_struct_step (h : HashBuilder) (current succeeding : list Z) : option HashBuilder :=
  struct_loop (S (length current)) h succeeding current false.

Definition add_leaf (h : HashBuilder) (k : list Z) (v : Bytes) : option HashBuilder :=
  if negb (vec_lt (key h) k) then None
  else
    h ← (if (length (key h) =? 0)%nat then Some h else gen_struct_step h (key h) k);
    Some (with_entry h k (ValueBytes v) (is_in_db_trie h)).

Definition add_branch_node (h : HashBuilder) (k : list Z) (v : Z) (in_db : bool)
    : option HashBuilder :=
  if negb (vec_lt (key h) k || ((length (key h) =? 0)%nat && (length k =? 0)%nat)) then None
  else
    h ← (if negb (length (key h) =? 0)%nat then gen_struct_step h (key h) k
         else if (length k =? 0)%nat then
           Some (with_stack h (stack h ++ [wrap_hash v]) (rlp_buffer h))
         else Some h);
    Some (with_entry h k (ValueHash v) in_db).

Definition finalize (h : HashBuilder) : option HashBuilder :=
  if (length (key h) =? 0)%nat then Some h
  else
    h ← gen_struct_step h (key h) [];
    Some (with_entry h [] (ValueBytes []) (is_in_db_trie h)).

Definition root_hash (h : HashBuilder) : option (Z * HashBuilder) :=
  h ← finalize h;
  Some (current_root_hash h, h).

(** Leaves in a row. *)
Fixpoint add_leaves (h : HashBuilder) (l : list (list Z * Bytes)) : option HashBuilder :=
  match l with
  | [] => Some h
  | (k, v) :: l => h ← add_leaf h k v; add_leaves h l
  end.

End builder.

End hash_builder.
