(* ===== verification/Processor.v ===== *)
(** The execution of the transactions of a block (src/execution/processor.rs and
    src/execution/mod.rs).

    The mutable part of the processor is the machine (block state, cache of
    analyses, tracer) and the gas used so far; the engine, the header, the
    block and its specification are variables of the section.  A method returns
    [result]: a value with the new processor, an error, or a panic. *)
From S2P Require Import Prelude Word Properties EvmState Host Interpreter Transaction IntraBlockState Consensus Precompiled EvmGlue MemState Rlp.
From Stdlib Require Import ZArith Lia Strings.Byte.
From stdpp Require Import base list option numbers gmap.
#[local] Open Scope Z_scope.
Import ethash.

(** ** State and errors *)

Definition PM (S A : Type) : Type := S -> result (A * S).

#[export] Instance PM_ret S : MRet (PM S) := fun A a s => Consensus.ROk (a, s).
#[export] Instance PM_bind S : MBind (PM S) := fun A B f m s =>
  match m s with
  | Consensus.ROk (a, s) => f a s
  | Consensus.RErr e => Consensus.RErr e
  | RPanic => RPanic
  end.

Section monad.
Context {S : Type}.

(** A computation that does not use the state. *)
Definition p_lift {A} (r : result A) : PM S A := fun s => a ← r; mret (a, s).
Definition p_unwrap {A} (o : option A) : PM S A := p_lift (or_panic o).
Definition p_get {A} (f : S -> A) : PM S A := fun s => Consensus.ROk (f s, s).

(** [return Err(e)] when the test holds. *)
Definition p_guard (b : bool) (e : ValidationError) : PM S unit := p_lift (guard_err b e).

(** [.with_context(..)] of the transaction [i]. *)
Definition tx_context {A} (i : Z) (m : PM S A) : PM S A := fun s =>
  match m s with
  | Consensus.RErr e => Consensus.RErr (AtTransaction i e)
  | r => r
  end.

(** [for x in l { f(x)?; }]. *)
Fixpoint p_for {A} (f : A -> PM S unit) (l : list A) : PM S unit :=
  match l with
  | [] => mret ()
  | x :: l => f x;; p_for f l
  end.

End monad.

Record ExecutionProcessor (DB C T : Type) := {
  machine : Evm DB C T;
  cumulative_gas_used : Z;
}.
Arguments machine {DB C T} _.
Arguments cumulative_gas_used {DB C T} _.

Definition u512_checked : Z -> option Z := checked 0 (2 ^ 512 - 1).

Module processor.

Section processor.
Context {DB C T : Type} `{State DB} {CS : ChainState DB} `{Keccak} `{LruCache C}.
Context `{!StartTracer T} {TT : Tracer T} `{I256Ops}.
Context `{AddressCodec} `{Hashes} `{Secp256k1} `{BigUint} `{AltBn128}.
Context (header : PartialHeader) (block : BlockBodyWithSenders).
Context (block_spec : BlockExecutionSpec).

Abbreviation Proc := (ExecutionProcessor DB C T).
Abbreviation rev := (spec_revision block_spec).

(** [ExecutionProcessor::new]. *)
Definition new (state : DB) (tracer : option T) (analysis_cache : C) : Proc := {|
  machine := {| evm_state := ibs.new state; evm_cache := analysis_cache; evm_tracer := tracer |};
  cumulative_gas_used := 0;
|}.

(** A computation of the machine; its errors are those of the database. *)
Definition on_machine {A} (m : SM (Evm DB C T) A) : PM Proc A := fun p =>
  match m (machine p) with
  | Done a e =>
      Consensus.ROk (a, {| machine := e; cumulative_gas_used := cumulative_gas_used p |})
  | Failed => Consensus.RErr StateError
  | Panicked => RPanic
  end.

(** [self.state.f(..)]. *)
Definition on_state {A} (m : SM (IntraBlockState DB) A) : PM Proc A :=
  on_machine (evmglue.on_state m).

Definition state (p : Proc) : IntraBlockState DB := evm_state (machine p).

Definition available_gas : PM Proc Z :=
  c ← p_get cumulative_gas_used;
  p_unwrap (unsigned_sub (partial.gas_limit header) c).

Definition validate_transaction (tx : MessageWithSender) : PM Proc unit :=
  let t := sent_message tx in
  (match pre_validate_transaction t (params_chain_id (spec_params block_spec))
           (partial.base_fee_per_gas header) with
   | Some _ => p_unwrap None
   | None => mret ()
   end);;
  h ← on_state (ibs.get_code_hash (sender tx));
  p_guard (negb (h =? EMPTY_HASH)) (SenderNoEOA (sender tx));;
  expected_nonce ← on_state (ibs.get_nonce (sender tx));
  p_guard (negb (expected_nonce =? txn.nonce t))
    (WrongNonce (sender tx) expected_nonce (txn.nonce t));;
  max_gas_cost ← p_unwrap (u512_checked (txn.gas_limit t * txn.max_fee_per_gas t));
  v0 ← p_unwrap (u512_checked (max_gas_cost + txn.value t));
  available_balance ← on_state (ibs.get_balance (sender tx));
  p_guard (available_balance <? v0) (InsufficientFunds (sender tx) available_balance v0);;
  available ← available_gas;
  p_guard (available <? txn.gas_limit t) (BlockGasLimitExceeded available (txn.gas_limit t)).

(** The loops over the access list; [h256_to_u256] keeps the value of a key. *)
Fixpoint access_slots (address : Address) (keys : list Z) : PM Proc unit :=
  match keys with
  | [] => mret ()
  | k :: keys => on_state (ibs.access_storage address k);; access_slots address keys
  end.

Fixpoint access_entries (l : list AccessListItem) : PM Proc unit :=
  match l with
  | [] => mret ()
  | entry :: l =>
      on_state (ibs.access_account (item_address entry));;
      access_slots (item_address entry) (slots entry);;
      access_entries l
  end.

Definition base_fee : Z := default 0 (partial.base_fee_per_gas header).

(** The gas that is given back: what is left and the capped refund. *)
Definition refund_gas (tx : MessageWithSender) (gas_left : Z) : PM Proc Z :=
  let t := sent_message tx in
  refund ← p_get (fun p => ibs.get_refund (state p));
  refund ← (if (rev <? London)%rev then
              n ← p_get (fun p => ibs.number_of_self_destructs (state p));
              d ← p_unwrap (u64_checked (fee.R_SELF_DESTRUCT * n));
              p_unwrap (u64_checked (refund + d))
            else mret refund);
  let max_refund_quotient :=
    if (rev >=? London)%rev then param.MAX_REFUND_QUOTIENT_LONDON
    else param.MAX_REFUND_QUOTIENT_FRONTIER in
  used ← p_unwrap (unsigned_sub (txn.gas_limit t) gas_left);
  let max_refund := used / max_refund_quotient in
  let refund := Z.min refund max_refund in
  gas_left ← p_unwrap (u64_checked (gas_left + refund));
  effective_gas_price ← p_unwrap (txn.effective_gas_price t base_fee);
  amount ← p_unwrap (u256_checked (gas_left * effective_gas_price));
  on_state (ibs.add_to_balance (sender tx) amount);;
  mret gas_left.

(** Until the machine runs: payment of the gas, nonce, access lists. *)
Definition buy_gas (tx : MessageWithSender) : PM Proc unit :=
  let t := sent_message tx in
  on_state ibs.clear_journal_and_substate;;
  on_state (ibs.access_account (sender tx));;
  effective_gas_price ← p_unwrap (txn.effective_gas_price t base_fee);
  cost ← p_unwrap (u256_checked (txn.gas_limit t * effective_gas_price));
  on_state (ibs.subtract_from_balance (sender tx) cost);;
  (match txn.action t with
   | ActionCall to =>
       on_state (ibs.access_account to);;
       n ← p_unwrap (u64_checked (txn.nonce t + 1));
       on_state (ibs.set_nonce (sender tx) n)
   | ActionCreate => mret ()
   end);;
  access_entries (txn.access_list t).

(** After the machine has run: refund, the miner's award, destructions. *)
Definition settle (tx : MessageWithSender) (vm_res : CallResult) : PM Proc Receipt :=
  let t := sent_message tx in
  (* [vm_res.gas_left as u64] *)
  left ← refund_gas tx (wrap 64 (cr_gas_left vm_res));
  gas_used ← p_unwrap (unsigned_sub (txn.gas_limit t) left);
  priority_fee_per_gas ← p_unwrap (txn.priority_fee_per_gas t base_fee);
  award ← p_unwrap (u256_checked (gas_used * priority_fee_per_gas));
  on_state (ibs.add_to_balance (partial.beneficiary header) award);;
  on_state ibs.destruct_selfdestructs;;
  (if (rev >=? Spurious)%rev then on_state ibs.destruct_touched_dead else mret ());;
  on_state ibs.finalize_transaction;;
  p ← p_get id;
  cumulative ← p_unwrap (u64_checked (cumulative_gas_used p + gas_used));
  (fun p => Consensus.ROk ((), {| machine := machine p; cumulative_gas_used := cumulative |}));;
  let logs := logs (state p) in
  bloom_ ← p_unwrap (logs_bloom logs);
  mret {| receipt_tx_type := txn.tx_type t;
          success := bool_decide (cr_status_code vm_res = Success);
          receipt_gas_used := cumulative;
          bloom := bloom_;
          receipt_logs := logs |}.

Definition execute_transaction (tx : MessageWithSender) : PM Proc Receipt :=
  let t := sent_message tx in
  buy_gas tx;;
  g0 ← p_unwrap (intrinsic_gas t (rev >=? Homestead)%rev (rev >=? Istanbul)%rev);
  gas ← p_lift (ok_or (unsigned_sub (txn.gas_limit t) g0) IntrinsicGas);
  gas ← p_unwrap (u64_checked gas);
  vm_res ← on_machine
    (evmglue.execute header block_spec tx (partial.beneficiary header) gas);
  settle tx vm_res.

(** The loop over the transactions, from the one with index [i]. *)
Fixpoint execute_transactions (i : Z) (l : list MessageWithSender) : PM Proc (list Receipt) :=
  match l with
  | [] => mret []
  | tx :: l =>
      tx_context i (validate_transaction tx);;
      receipt ← execute_transaction tx;
      receipts ← execute_transactions (i + 1) l;
      mret (receipt :: receipts)
  end.

(** [for change in ..]. *)
Definition apply_change (c : FinalizationChange) : PM Proc unit :=
  match c with Reward address amount => on_state (ibs.add_to_balance address amount) end.

Definition execute_block_no_post_validation : PM Proc (list Receipt) :=
  p_for (fun '(address, balance) => on_state (ibs.set_balance address balance))
    (map_to_list (balance_changes block_spec));;
  receipts ← execute_transactions 0 (with_senders_transactions block);
  changes ← p_lift (finalize header (with_senders_ommers block) rev);
  p_for apply_change changes;;
  mret receipts.

(** The gas of each transaction, from the cumulative gas of the receipts. *)
Fixpoint gas_table (i last_gas_used : Z) (receipts : list Receipt) : option (list (Z * Z)) :=
  match receipts with
  | [] => Some []
  | r :: receipts =>
      gas_used ← unsigned_sub (receipt_gas_used r) last_gas_used;
      l ← gas_table (i + 1) (receipt_gas_used r) receipts;
      Some ((i, gas_used) :: l)
  end.

(** [bloom | r.bloom], as numbers. *)
Definition blooms (receipts : list Receipt) : Z :=
  foldl (fun b r => Z.lor b (be_val (bloom r))) 0 receipts.

Definition check_gas (receipts : list Receipt) : PM Proc unit :=
  let gas_used := default 0 (receipt_gas_used <$> last receipts) in
  if negb (gas_used =? partial.gas_used header) then
    transactions ← p_unwrap (gas_table 0 0 receipts);
    p_lift (fail (WrongBlockGas (partial.gas_used header) gas_used transactions))
  else mret ().

Context `{RlpStream} `{Codec}.

Definition check_receipts_root (receipts : list Receipt) : PM Proc unit :=
  if (rev >=? Byzantium)%rev then
    let expected := receipts_root_hash receipts in
    p_guard (negb (expected =? partial.receipts_root header))
      (WrongReceiptsRoot expected (partial.receipts_root header))
  else mret ().

(** The receipts, the database that the block was written to, the cache and the tracer. *)
Definition execute_and_write_block (p : Proc) : result (list Receipt * DB * (C * option T)) :=
  '(receipts, p) ← (
    receipts ← execute_block_no_post_validation;
    check_gas receipts;;
    check_receipts_root receipts;;
    let expected_logs_bloom := blooms receipts in
    p_guard (negb (expected_logs_bloom =? partial.logs_bloom header))
      (WrongLogsBloom expected_logs_bloom (partial.logs_bloom header));;
    mret receipts) p;
  d ← or_state_error (ibs.write_to_db (partial.number header) (state p));
  mret (receipts, d, (evm_cache (machine p), evm_tracer (machine p))).

End processor.

End processor.

Section execute_block.
Context {DB C T : Type} `{State DB} `{ChainState DB} `{Keccak} `{LruCache C}.
Context `{!StartTracer T} {TT : Tracer T} `{I256Ops}.
Context `{AddressCodec} `{Hashes} `{Secp256k1} `{BigUint} `{AltBn128} `{RlpStream} `{Codec}.

(** [execute_block]; [empty_cache] is [AnalysisCache::default()]. *)
Definition execute_block (empty_cache : C) (state : DB) (config : ChainSpec)
    (header : PartialHeader) (block : BlockBodyWithSenders) : result (list Receipt * DB) :=
  match engine_factory config with
  | None => Consensus.RErr UnsupportedEngine
  | Some engine =>
      let config := collect_block_spec config (partial.number header) in
      '(receipts, d, _) ← processor.execute_and_write_block (T := T) header block config
        (processor.new state None empty_cache);
      mret (receipts, d)
  end.

End execute_block.
