(* ===== verification/Frames.v ===== *)
(** What a frame can do to its host, whatever its code.

    A property of the world is kept by a whole frame if the methods of the host
    keep it, for the arguments a frame can pass: storage is written and contracts
    are destroyed at the address of the frame only, and calls either run the code
    of the account they go to or run for the account of the frame. *)
From S2P Require Import Prelude Word Properties EvmState Host Arith MemoryOps External Interpreter.
From Stdlib Require Import ZArith Lia Strings.Byte.
From stdpp Require Import base list option numbers gmap.
#[local] Open Scope Z_scope.

(** The method keeps [P] when it returns. *)
Definition kept {W A} (P : W -> Prop) (f : W -> option (A * W)) : Prop :=
  forall w a w', P w -> f w = Some (a, w') -> P w'.

(** Calls that the frame of [msg] sends. *)
Definition sends_from (msg : InterpreterMessage) (c : Call) : Prop :=
  match c with
  | Call_Create _ => True
  | Call_Call m =>
      (kind m = CallKind_Call /\ recipient m = code_address m) \/
      (kind m <> CallKind_Call /\ recipient m = recipient msg)
  end.

Class FrameInv {W} (hw : Host W) (tw : Tracer W) (msg : InterpreterMessage) (P : W -> Prop)
    : Prop := {
  kept_account_exists a : kept P (account_exists a);
  kept_get_storage a k : kept P (get_storage a k);
  kept_set_storage k v : kept P (set_storage (recipient msg) k v);
  kept_get_balance a : kept P (get_balance a);
  kept_get_code_size a : kept P (get_code_size a);
  kept_get_code_hash a : kept P (get_code_hash a);
  kept_copy_code a off buf : kept P (copy_code a off buf);
  kept_selfdestruct b : kept P (selfdestruct (recipient msg) b);
  kept_call c : sends_from msg c -> kept P (call c);
  kept_get_tx_context : kept P get_tx_context;
  kept_get_block_hash n : kept P (get_block_hash n);
  kept_emit_log data topics : kept P (emit_log (recipient msg) data topics);
  kept_access_account a : kept P (access_account a);
  kept_access_storage a k : kept P (access_storage a k);
  kept_capture_state es pc op cost dp w : P w -> P (capture_state es pc op cost dp w);
  kept_capture_end o w : P w -> P (capture_end o w);
}.

Section frames.
Context {W : Type} {hw : Host W} {tw : Tracer W} {msg : InterpreterMessage} {P : W -> Prop}.
Context {HF : FrameInv hw tw msg P} `{I256Ops, Keccak}.

Definition keeps {A} (m : M W A) : Prop := forall es w, es_message es = msg -> P w ->
  match m es w with
  | ROk _ es' w' => es_message es' = msg /\ P w'
  | RErr _ w' => P w'
  | RFault | ROutOfFuel => True
  end.

Lemma keeps_bind {A B} (m : M W A) (k : A -> M W B) :
  keeps m -> (forall a, keeps (k a)) -> keeps (m ≫= k).
Proof.
  intros Hm Hk es w He Hw. specialize (Hm es w He Hw). unfold mbind, M_bind.
  destruct (m es w); try done. destruct Hm. by apply Hk.
Qed.

(** Reading the message gives the message of the frame. *)
Lemma keeps_message {B} (k : InterpreterMessage -> M W B) :
  keeps (k msg) -> keeps (gets es_message ≫= k).
Proof. intros Hk es w He Hw. unfold mbind, M_bind, gets. rewrite He. by apply Hk. Qed.

Lemma keeps_ret {A} (a : A) : keeps (mret a).
Proof. by intros es w He Hw. Qed.
Lemma keeps_throw {A} c : keeps (throw (A := A) c).
Proof. by intros es w He Hw. Qed.
Lemma keeps_fault {A} : keeps (fault (A := A)).
Proof. by intros es w He Hw. Qed.
Lemma keeps_lift {A} (o : option A) : keeps (lift o).
Proof. destruct o; [apply keeps_ret|apply keeps_fault]. Qed.
Lemma keeps_gets {A} (f : ExecutionState -> A) : keeps (gets f).
Proof. by intros es w He Hw. Qed.
Lemma keeps_modify f : (forall es, es_message (f es) = es_message es) -> keeps (modify f).
Proof. intros Hf es w He Hw. unfold modify. by rewrite Hf. Qed.
Lemma keeps_on_stack f : keeps (on_stack f).
Proof. intros es w He Hw. unfold on_stack. by destruct (f _). Qed.
Lemma keeps_stack_pop : keeps stack_pop.
Proof. intros es w He Hw. unfold stack_pop. by destruct (Stack.pop _) as [[]|]. Qed.
Lemma keeps_or_out_of_gas {A} (o : option A) : keeps (or_out_of_gas o).
Proof. destruct o; [apply keeps_ret|apply keeps_throw]. Qed.

Lemma keeps_host {A} (f : W -> option (A * W)) : kept P f -> keeps (host f).
Proof.
  intros Hf es w He Hw. unfold host. destruct (f w) as [[a w']|] eqn:E; [|done].
  split; [done|]. by eapply Hf.
Qed.

Create HintDb keeps.
#[local] Hint Resolve kept_account_exists kept_get_storage kept_set_storage kept_get_balance
  kept_get_code_size kept_get_code_hash kept_copy_code kept_selfdestruct kept_get_tx_context
  kept_get_block_hash kept_emit_log kept_access_account kept_access_storage : keeps.

(** Follow the structure of an instruction. *)
Ltac keeps_step :=
  cbv beta zeta;
  lazymatch goal with
  | |- keeps (gets es_message ≫= _) => apply keeps_message
  | |- keeps (_ ≫= _) => apply keeps_bind; [|intros ?]
  | |- keeps (mret _) => apply keeps_ret
  | |- keeps (throw _) => apply keeps_throw
  | |- keeps fault => apply keeps_fault
  | |- keeps (lift _) => apply keeps_lift
  | |- keeps (gets _) => apply keeps_gets
  | |- keeps (modify _) => apply keeps_modify; reflexivity
  | |- keeps (on_stack _) => apply keeps_on_stack
  | |- keeps (stack_push _) => apply keeps_on_stack
  | |- keeps (stack_set _ _) => apply keeps_on_stack
  | |- keeps stack_pop => apply keeps_stack_pop
  | |- keeps (or_out_of_gas _) => apply keeps_or_out_of_gas
  | |- keeps (host (call _)) => apply keeps_host, kept_call
  | |- keeps (host _) => apply keeps_host; solve [eauto 3 with keeps]
  | |- keeps (match ?x with _ => _ end) => destruct x
  | |- _ => solve [auto with keeps]
  end.
Ltac keeps_tac f := intros; unfold f; repeat keeps_step.


Lemma keeps_stack_get n : keeps (stack_get n).
Proof. keeps_tac @stack_get. Qed.
Lemma keeps_gas_add d : keeps (gas_add d).
Proof. keeps_tac @gas_add. Qed.
#[local] Hint Resolve keeps_stack_get keeps_gas_add : keeps.
Lemma keeps_charge c : keeps (charge c).
Proof. keeps_tac @charge. Qed.
#[local] Hint Resolve keeps_charge : keeps.
Lemma keeps_grow_memory n : keeps (memory.grow_memory n).
Proof. keeps_tac @memory.grow_memory. Qed.
#[local] Hint Resolve keeps_grow_memory : keeps.
Lemma keeps_region_u64 a b :
  keeps (memory.get_memory_region_u64 a b).
Proof. keeps_tac @memory.get_memory_region_u64. Qed.
#[local] Hint Resolve keeps_region_u64 : keeps.
Lemma keeps_region a b : keeps (memory.get_memory_region a b).
Proof. keeps_tac @memory.get_memory_region. Qed.
Lemma keeps_read_region r : keeps (memory.read_region r).
Proof. keeps_tac @memory.read_region. Qed.
Lemma keeps_write_memory o b : keeps (memory.write_memory o b).
Proof. keeps_tac @memory.write_memory. Qed.
#[local] Hint Resolve keeps_region keeps_read_region keeps_write_memory : keeps.
Lemma keeps_fill0 a b : keeps (memory.fill0 a b).
Proof. keeps_tac @memory.fill0. Qed.
#[local] Hint Resolve keeps_fill0 : keeps.
Lemma keeps_copy_padded a b : keeps (memory.copy_padded a b).
Proof. keeps_tac @memory.copy_padded. Qed.
Lemma keeps_cold rev a c :
  keeps (memory.charge_cold_account rev a c).
Proof. keeps_tac @memory.charge_cold_account. Qed.
#[local] Hint Resolve keeps_copy_padded keeps_cold : keeps.

(** ** Instructions *)

Lemma keeps_exp rev : keeps (arithmetic.exp rev).
Proof. keeps_tac @arithmetic.exp. Qed.
Lemma keeps_mload : keeps memory.mload.
Proof. keeps_tac @memory.mload. Qed.
Lemma keeps_mstore : keeps memory.mstore.
Proof. keeps_tac @memory.mstore. Qed.
Lemma keeps_mstore8 : keeps memory.mstore8.
Proof. keeps_tac @memory.mstore8. Qed.
Lemma keeps_msize : keeps memory.msize.
Proof. keeps_tac @memory.msize. Qed.
Lemma keeps_calldatacopy : keeps memory.calldatacopy.
Proof. keeps_tac @memory.calldatacopy. Qed.
Lemma keeps_keccak256 : keeps memory.keccak256.
Proof. keeps_tac @memory.keccak256. Qed.
Lemma keeps_codecopy c : keeps (memory.codecopy c).
Proof. keeps_tac @memory.codecopy. Qed.
Lemma keeps_extcodecopy rev : keeps (memory.extcodecopy rev).
Proof. keeps_tac @memory.extcodecopy. Qed.
Lemma keeps_returndatasize : keeps memory.returndatasize.
Proof. keeps_tac @memory.returndatasize. Qed.
Lemma keeps_returndatacopy : keeps memory.returndatacopy.
Proof. keeps_tac @memory.returndatacopy. Qed.
Lemma keeps_extcodehash rev : keeps (memory.extcodehash rev).
Proof. keeps_tac @memory.extcodehash. Qed.
Lemma keeps_ret' : keeps control.ret.
Proof. keeps_tac @control.ret. Qed.
Lemma keeps_op_jump m : keeps (control.op_jump m).
Proof. keeps_tac @control.op_jump. Qed.
Lemma keeps_calldataload : keeps control.calldataload.
Proof. keeps_tac @control.calldataload. Qed.
Lemma keeps_calldatasize : keeps control.calldatasize.
Proof. keeps_tac @control.calldatasize. Qed.
#[local] Hint Resolve keeps_exp keeps_mload keeps_mstore keeps_mstore8 keeps_msize keeps_calldatacopy
  keeps_keccak256 keeps_codecopy keeps_extcodecopy keeps_returndatasize keeps_returndatacopy
  keeps_extcodehash keeps_ret' keeps_op_jump keeps_calldataload keeps_calldatasize : keeps.

Lemma keeps_address : keeps external.address.
Proof. keeps_tac @external.address. Qed.
Lemma keeps_caller : keeps external.caller.
Proof. keeps_tac @external.caller. Qed.
Lemma keeps_callvalue : keeps external.callvalue.
Proof. keeps_tac @external.callvalue. Qed.
Lemma keeps_balance rev : keeps (external.balance rev).
Proof. keeps_tac @external.balance. Qed.
Lemma keeps_extcodesize rev : keeps (external.extcodesize rev).
Proof. keeps_tac @external.extcodesize. Qed.
Lemma keeps_push_txcontext f : keeps (external.push_txcontext f).
Proof. keeps_tac @external.push_txcontext. Qed.
Lemma keeps_selfbalance : keeps external.selfbalance.
Proof. keeps_tac @external.selfbalance. Qed.
Lemma keeps_blockhash : keeps external.blockhash.
Proof. keeps_tac @external.blockhash. Qed.
Lemma keeps_pop_topics n : keeps (external.pop_topics n).
Proof. induction n; simpl; repeat keeps_step. Qed.
#[local] Hint Resolve keeps_address keeps_caller keeps_callvalue keeps_balance keeps_extcodesize
  keeps_push_txcontext keeps_selfbalance keeps_blockhash keeps_pop_topics : keeps.
Lemma keeps_do_log n : keeps (external.do_log n).
Proof. keeps_tac @external.do_log. Qed.
Lemma keeps_sload rev : keeps (external.sload rev).
Proof. keeps_tac @external.sload. Qed.
Lemma keeps_sstore rev : keeps (external.sstore rev).
Proof. keeps_tac @external.sstore. Qed.
Lemma keeps_selfdestruct rev : keeps (external.selfdestruct rev).
Proof. keeps_tac @external.selfdestruct. Qed.
Lemma keeps_region_data r : keeps (call.region_data r).
Proof. keeps_tac @call.region_data. Qed.
Lemma keeps_call_gas rev g : keeps (call.call_gas rev g).
Proof. keeps_tac @call.call_gas. Qed.
Lemma keeps_call_result r g o : keeps (call.call_result r g o).
Proof. keeps_tac @call.call_result. Qed.
#[local] Hint Resolve keeps_do_log keeps_sload keeps_sstore keeps_selfdestruct keeps_region_data
  keeps_call_gas keeps_call_result : keeps.
(** The calls of a frame run the account they go to or the frame's own. *)
Lemma sends_call k st dp g dst s v i :
  sends_from msg (Call_Call {| kind := k; is_static := st; depth := dp; gas := g;
    recipient := if call.is_call k then dst else recipient msg; code_address := dst;
    sender := s; value := v; input_data := i |}).
Proof. destruct k; first [by left|by right]. Qed.

Lemma keeps_perform_call rev k st g d v dp i r :
  keeps (call.perform_call rev k st msg g d v dp i r).
Proof. keeps_tac @call.perform_call. apply sends_call. Qed.
Lemma keeps_perform_create rev v o z s :
  keeps (call.perform_create rev msg v o z s).
Proof. keeps_tac @call.perform_create. exact I. Qed.
#[local] Hint Resolve keeps_perform_call keeps_perform_create : keeps.
Lemma keeps_do_call rev k st : keeps (call.do_call rev k st).
Proof. keeps_tac @call.do_call. Qed.
Lemma keeps_do_create rev c2 : keeps (call.do_create rev c2).
Proof. keeps_tac @call.do_create. Qed.
#[local] Hint Resolve keeps_do_call keeps_do_create : keeps.


(** ** The loop *)

Variable s : AnalyzedCode.
Variable rev : Revision.

Definition keeps_opt {A} (o : option (M W A)) : Prop := from_option keeps True o.

Lemma keeps_next pc m : keeps m -> keeps (next pc m).
Proof. intros Hm. unfold next. apply keeps_bind; [done|]. intros. apply keeps_ret. Qed.

Lemma keeps_jumpi pc : keeps (jumpi s pc).
Proof. keeps_tac @jumpi. Qed.
Lemma keeps_code_after pc : keeps (code_after s pc).
Proof. keeps_tac @code_after. Qed.
#[local] Hint Resolve keeps_jumpi keeps_code_after : keeps.

(** An arm of the dispatch. *)
Ltac arms := repeat (case_if; [simpl; try apply keeps_next; repeat keeps_step|]); try exact I.

Lemma keeps_exec_alu op pc : keeps_opt (exec_alu rev op pc).
Proof. unfold exec_alu. arms. Qed.
Lemma keeps_exec_env op pc : keeps_opt (exec_env s rev op pc).
Proof.
  unfold exec_env. arms. destruct (tx_accessor op); [|done]. simpl.
  apply keeps_next. repeat keeps_step.
Qed.
Lemma keeps_exec_flow op pc : keeps_opt (exec_flow s rev op pc).
Proof. unfold exec_flow. arms. Qed.
Lemma keeps_exec_push op pc : keeps_opt (exec_push s op pc).
Proof. unfold exec_push. arms. Qed.
Lemma keeps_exec_dup_swap op pc : keeps_opt (exec_dup_swap op pc).
Proof. unfold exec_dup_swap. arms. Qed.
Lemma keeps_exec_system op pc : keeps_opt (exec_system rev op pc).
Proof. unfold exec_system. arms. Qed.

Lemma keeps_or {A} (o : option (M W A)) m :
  keeps_opt o -> keeps m -> keeps (match o with Some m' => m' | None => m end).
Proof. by destruct o. Qed.

Lemma keeps_exec_op op pc : keeps (exec_op s rev op pc).
Proof.
  unfold exec_op. repeat apply keeps_or; auto using keeps_exec_alu, keeps_exec_env,
    keeps_exec_flow, keeps_exec_push, keeps_exec_dup_swap, keeps_exec_system, keeps_fault.
Qed.

Lemma keeps_trace_step b pc op e : keeps (trace_step s b pc op e).
Proof.
  intros es w He Hw. unfold trace_step. case_if; [|done].
  split; [done|]. by apply kept_capture_state.
Qed.

Lemma keeps_check_requirements t op : keeps (check_requirements t op).
Proof. keeps_tac @check_requirements. Qed.

Lemma keeps_loop b t fuel pc : keeps (execute_loop s rev b t fuel pc).
Proof.
  revert pc. induction fuel as [|fuel IH]; intros pc; simpl; [by intros es p|].
  apply keeps_bind.
  - unfold step. repeat keeps_step;
      auto using keeps_trace_step, keeps_check_requirements, keeps_exec_op.
  - intros [|]; [apply IH|apply keeps_ret].
Qed.

(** What the host keeps for the frame, the whole frame keeps. *)
Lemma execute_keeps w o w' : P w -> execute s rev msg w = Some (o, w') -> P w'.
Proof.
  intros Hw. unfold execute.
  assert (keeps (execute_message s rev (trace_instructions w) (loop_bound msg))) as Hk
    by (unfold execute_message; repeat keeps_step; apply keeps_loop).
  specialize (Hk (ExecutionState_new msg) w eq_refl Hw).
  destruct (execute_message _ _ _ _ _ w); [destruct Hk as [_ Hk]| |done|done];
    intros [= <- <-]; by apply kept_capture_end.
Qed.

End frames.
