(* ===== verification/MemStateSpec.v ===== *)
(** What a block leaves in the in-memory state, and its unwinding.

    A write to the state is described by its effect on every account and slot:
    the value it leaves and the value it records as the one before the block.
    Effects compose, so the effect of [write_to_db] is computed from the effects
    of its loops. *)
From S2P Require Import Prelude Word EvmState Host Transaction IntraBlockState Journal BlockState Consensus Precompiled MemState.
From Stdlib Require Import ZArith Lia Strings.Byte.
From stdpp Require Import base list option numbers gmap relations.
#[local] Open Scope Z_scope.
Import ibs mem.

Implicit Types (m d : InMemoryState) (a k v n : Z).

(** No slot holds a zero, and only accounts have storage. *)
Definition no_zero m : Prop := forall a k, slots_of m a !! k <> Some 0.

Record mem_wf m : Prop := {
  mw_no_zero : no_zero m;
  mw_orphan a k : accounts m !! a = None -> mem_read_storage m a k = 0;
}.

Definition account_change m n a : option (option Account) :=
  default ∅ (account_changes m !! n) !! a.
Definition slot_change m n a k : option Z := changes_at (storage_changes m) n a !! k.

Lemma read_slots m a k : mem_read_storage m a k = default 0 (slots_of m a !! k).
Proof. unfold mem_read_storage, slots_of. by destruct (mem_storage m !! a). Qed.

(** ** Effects *)

(** The value recorded for the beginning of the block: a given one, or the one
    the slot had. *)
Inductive mark := Init (i : Z) | Old.

Definition slot_effect : Type := option (mark * Z).
Definition account_effect : Type := option (option Account * option Account).

Record effect n d d' (ae : Address -> account_effect) (se : Address * Z -> slot_effect) : Prop := {
  ef_number : mem_block_number d' = n;
  ef_account a : accounts d' !! a = match ae a with Some (_, c) => c | None => accounts d !! a end;
  ef_account_change a : account_change d' n a =
    match ae a with Some (i, _) => Some i | None => account_change d n a end;
  ef_slot a k : mem_read_storage d' a k =
    match se (a, k) with Some (_, v) => v | None => mem_read_storage d a k end;
  ef_slot_change a k : slot_change d' n a k =
    match se (a, k) with
    | Some (Init i, _) => Some i
    | Some (Old, _) => if mem_read_storage d a k =? 0 then slot_change d n a k
                       else Some (mem_read_storage d a k)
    | None => slot_change d n a k
    end;
  ef_other b : b <> n -> account_changes d' !! b = account_changes d !! b /\
    storage_changes d' !! b = storage_changes d !! b;
  ef_zero : no_zero d -> no_zero d';
  ef_headers : headers d' = headers d;
  ef_bodies : bodies d' = bodies d;
  ef_difficulty : mem_difficulty d' = mem_difficulty d;
  ef_canonical : canonical_hashes d' = canonical_hashes d;
}.

Definition comp_slot (later earlier : slot_effect) : slot_effect :=
  match later, earlier with
  | None, e => e
  | Some (Init i, v), _ => Some (Init i, v)
  | Some (Old, v), None => Some (Old, v)
  | Some (Old, v), Some (r, u) => Some (if u =? 0 then r else Init u, v)
  end.

Definition comp_account (later earlier : account_effect) : account_effect :=
  match later with Some e => Some e | None => earlier end.

Lemma effect_trans n d1 d2 d3 ae1 ae2 se1 se2 :
  effect n d1 d2 ae1 se1 -> effect n d2 d3 ae2 se2 ->
  effect n d1 d3 (fun a => comp_account (ae2 a) (ae1 a)) (fun x => comp_slot (se2 x) (se1 x)).
Proof.
  intros [] []. split; try congruence; try by eauto.
  - intros a. rewrite ef_account1, ef_account0. unfold comp_account. by destruct (ae2 a) as [[]|].
  - intros a. rewrite ef_account_change1, ef_account_change0. unfold comp_account.
    by destruct (ae2 a) as [[]|].
  - intros a k. rewrite ef_slot1, ef_slot0. unfold comp_slot.
    destruct (se2 (a, k)) as [[[i|] v]|]; [done| |done]. by destruct (se1 (a, k)) as [[r u]|].
  - intros a k. rewrite ef_slot_change1, ef_slot_change0, ef_slot0. unfold comp_slot.
    destruct (se2 (a, k)) as [[[i|] v]|]; [done| |done].
    destruct (se1 (a, k)) as [[r u]|]; [|done]. by destruct (u =? 0).
  - intros b Hb. destruct (ef_other0 b Hb), (ef_other1 b Hb). split; congruence.
Qed.

Lemma effect_proper n d d' ae ae' se se' : (forall a, ae' a = ae a) -> (forall x, se' x = se x) ->
  effect n d d' ae se -> effect n d d' ae' se'.
Proof. intros Ha Hs []. split; intros *; rewrite ?Ha, ?Hs; by eauto. Qed.

(** The account effects of two steps of which one has none. *)
Definition no_account : Address -> account_effect := fun _ => None.
Definition no_slot : Address * Z -> slot_effect := fun _ => None.

Lemma effect_refl n d : mem_block_number d = n -> effect n d d no_account no_slot.
Proof. by split. Qed.

(** ** The effect of each write *)

Lemma changes_at_set c n a w b a' : changes_at (set_changes c n a w) b a' =
  if decide (b = n /\ a' = a) then w else changes_at c b a'.
Proof.
  unfold changes_at, set_changes. destruct (decide (b = n)) as [->|Hb].
  - rewrite lookup_insert_eq. simpl. destruct (decide (a' = a)) as [->|Ha].
    + by rewrite lookup_insert_eq, decide_True.
    + rewrite lookup_insert_ne, decide_False by naive_solver. done.
  - rewrite lookup_insert_ne, decide_False by naive_solver. done.
Qed.

Lemma slots_of_insert m a s a' :
  default ∅ (<[a := s]> (mem_storage m) !! a') = if decide (a' = a) then s else slots_of m a'.
Proof.
  destruct (decide (a' = a)) as [->|]; [by rewrite lookup_insert_eq|by rewrite lookup_insert_ne].
Qed.

Lemma put_slot_read k v e k' : default 0 (put_slot k v e !! k') =
  if decide (k' = k) then v else default 0 (e !! k').
Proof.
  unfold put_slot. destruct (Z.eqb_spec v 0) as [->|]; case_decide; subst;
    by rewrite ?lookup_delete_eq, ?lookup_delete_ne, ?lookup_insert_eq, ?lookup_insert_ne by done.
Qed.

Lemma put_slot_no_zero k v e : (forall k, e !! k <> Some 0) -> forall k', put_slot k v e !! k' <> Some 0.
Proof.
  intros He k'. unfold put_slot. destruct (Z.eqb_spec v 0).
  - rewrite lookup_delete_Some. naive_solver.
  - rewrite lookup_insert_Some. naive_solver.
Qed.

Lemma update_storage_effect n d a k i v : mem_block_number d = n ->
  effect n d (mem_update_storage a k i v d) no_account
    (fun x => if decide (x = (a, k)) then Some (Init i, v) else None).
Proof.
  intros Hn. split; try done; simpl.
  - intros a' k'. rewrite read_slots. unfold slots_of. simpl. rewrite slots_of_insert.
    rewrite read_slots. destruct (decide (a' = a)) as [->|].
    + rewrite put_slot_read. repeat case_decide; simplify_eq; done.
    + rewrite decide_False by congruence. done.
  - intros a' k'. unfold slot_change. simpl. rewrite changes_at_set, Hn.
    destruct (decide (a' = a)) as [->|].
    + rewrite decide_True by done. destruct (decide (k' = k)) as [->|].
      * rewrite lookup_insert_eq, decide_True by done. done.
      * rewrite lookup_insert_ne, decide_False by congruence. done.
    + rewrite !decide_False by naive_solver. done.
  - intros b Hb. split; [done|]. unfold set_changes. rewrite Hn. by rewrite lookup_insert_ne.
  - intros Hz a' k'. unfold slots_of. simpl. rewrite slots_of_insert. case_decide; [|apply Hz].
    apply put_slot_no_zero, Hz.
Qed.

Lemma erase_storage_effect n d a : mem_block_number d = n -> no_zero d ->
  effect n d (mem_erase_storage a d) no_account
    (fun x => if decide (x.1 = a) then Some (Old, 0) else None).
Proof.
  intros Hn Hz. split; try done; simpl.
  - intros a' k. rewrite read_slots. unfold slots_of. simpl. case_decide; subst.
    + by rewrite lookup_delete_eq.
    + rewrite lookup_delete_ne by done. by rewrite read_slots.
  - intros a' k. unfold slot_change. simpl. rewrite read_slots.
    destruct (decide (a' = a)) as [->|Hne].
    + pose proof (Hz a k) as Hk. case_bool_decide as He.
      { by rewrite He, lookup_empty. }
      rewrite changes_at_set, Hn, decide_True by done. rewrite lookup_union.
      destruct (slots_of d a !! k) as [v|]; simpl.
      * destruct (Z.eqb_spec v 0); [congruence|]. by rewrite union_Some_l.
      * by rewrite (left_id_L None union).
    + case_bool_decide; [done|]. rewrite changes_at_set, decide_False by naive_solver. done.
  - intros b Hb. split; [done|]. case_bool_decide; [done|]. unfold set_changes.
    rewrite Hn. by rewrite lookup_insert_ne.
  - intros _ a' k. unfold slots_of. simpl. destruct (decide (a' = a)) as [->|].
    + by rewrite lookup_delete_eq.
    + rewrite lookup_delete_ne by done. apply Hz.
Qed.

Lemma put_account_lookup a c (e : gmap Address Account) a' :
  put_account a c e !! a' = if decide (a' = a) then c else e !! a'.
Proof.
  unfold put_account. destruct c; case_decide; subst;
    by rewrite ?lookup_delete_eq, ?lookup_delete_ne, ?lookup_insert_eq, ?lookup_insert_ne by done.
Qed.

Lemma update_account_effect n d a i c : mem_block_number d = n ->
  effect n d (mem_update_account a i c d)
    (fun a' => if decide (a' = a) then Some (i, c) else None) no_slot.
Proof.
  intros Hn. split; try done; simpl.
  - intros a'. rewrite put_account_lookup. by case_decide.
  - intros a'. unfold account_change. simpl. rewrite Hn, lookup_insert_eq. simpl.
    case_decide; subst; by rewrite ?lookup_insert_eq, ?lookup_insert_ne by done.
  - intros b Hb. split; [|done]. rewrite Hn. by rewrite lookup_insert_ne.
Qed.

Lemma update_code_effect n d h c : mem_block_number d = n ->
  effect n d (mem_update_code h c d) no_account no_slot.
Proof. intros Hn. by split. Qed.

(** ** Loops *)

Section loops.
Context {K V : Type} `{Countable K} (n : Z).
Context (f : K * V -> InMemoryState -> option InMemoryState).

Definition loop_accounts (ae : K * V -> Address -> account_effect) (l : list (K * V)) a
    : account_effect :=
  foldr (fun y acc => comp_account acc (ae y a)) None l.

Definition loop_slots (se : K * V -> Address * Z -> slot_effect) (l : list (K * V)) x
    : slot_effect :=
  foldr (fun y acc => comp_slot acc (se y x)) None l.

Lemma effect_loop ae se l d :
  (forall x d, mem_block_number d = n -> no_zero d ->
    exists d', f x d = Some d' /\ effect n d d' (ae x) (se x)) ->
  mem_block_number d = n -> no_zero d ->
  exists d', db_for_each f l d = Some d' /\
    effect n d d' (loop_accounts ae l) (loop_slots se l).
Proof.
  intros Hf. revert d. induction l as [|x l IH]; intros d Hn Hz.
  - exists d. split; [done|]. by apply effect_refl.
  - destruct (Hf x d Hn Hz) as (d1 & H1 & E1).
    destruct (IH d1 (ef_number _ _ _ _ _ E1) (ef_zero _ _ _ _ _ E1 Hz)) as (d2 & H2 & E2).
    exists d2. simpl. rewrite H1. split; [exact H2|]. by eapply effect_trans.
Qed.

(** Effects at different keys do not meet. *)
Lemma loop_slots_keyed se l x (key : K) : NoDup l.*1 ->
  (forall y, y.1 <> key -> se y x = None) ->
  loop_slots se l x = match (list_to_map l : gmap K V) !! key with
                      | Some w => se (key, w) x
                      | None => None
                      end.
Proof.
  intros Hl Hk. induction l as [|[k' w] l IH]; [done|].
  apply NoDup_cons in Hl as [Hn Hl]. specialize (IH Hl). simpl.
  destruct (decide (k' = key)) as [->|Hne].
  - rewrite lookup_insert_eq. rewrite IH.
    rewrite (not_elem_of_list_to_map_1 l key) by done. done.
  - rewrite lookup_insert_ne by done. rewrite IH, (Hk (k', w)) by done.
    by destruct (list_to_map l !! key) as [u|]; [destruct (se (key, u) x) as [[[]]|]|].
Qed.

Lemma loop_accounts_keyed ae l a (key : K) : NoDup l.*1 ->
  (forall y, y.1 <> key -> ae y a = None) ->
  loop_accounts ae l a = match (list_to_map l : gmap K V) !! key with
                         | Some w => ae (key, w) a
                         | None => None
                         end.
Proof.
  intros Hl Hk. induction l as [|[k' w] l IH]; [done|].
  apply NoDup_cons in Hl as [Hn Hl]. specialize (IH Hl). simpl.
  destruct (decide (k' = key)) as [->|Hne].
  - rewrite lookup_insert_eq. rewrite IH.
    rewrite (not_elem_of_list_to_map_1 l key) by done. done.
  - rewrite lookup_insert_ne by done. rewrite IH, (Hk (k', w)) by done. unfold comp_account.
    by destruct (list_to_map l !! key) as [u|]; [destruct (ae (key, u) a)|].
Qed.

(** The loop over a map. *)
Lemma effect_map_loop ae se (m : gmap K V) d :
  (forall x d, mem_block_number d = n -> no_zero d ->
    exists d', f x d = Some d' /\ effect n d d' (ae x) (se x)) ->
  mem_block_number d = n -> no_zero d ->
  forall (akey : Address -> K) (skey : Address * Z -> K),
  (forall y a, y.1 <> akey a -> ae y a = None) ->
  (forall y x, y.1 <> skey x -> se y x = None) ->
  exists d', db_for_each f (map_to_list m) d = Some d' /\
    effect n d d' (fun a => w ← m !! akey a; ae (akey a, w) a)
                  (fun x => w ← m !! skey x; se (skey x, w) x).
Proof.
  intros Hf Hn Hz akey skey Ha Hs.
  destruct (effect_loop ae se (map_to_list m) d Hf Hn Hz) as (d' & Hd & E).
  exists d'. split; [done|]. pose proof (NoDup_fst_map_to_list m) as Hnd.
  eapply effect_proper; [| |exact E].
  - intros a. rewrite (loop_accounts_keyed ae _ a (akey a)), list_to_map_to_list; eauto.
  - intros x. rewrite (loop_slots_keyed se _ x (skey x)), list_to_map_to_list; eauto.
Qed.

End loops.

(** ** The end of a block *)

Section block_end.
Context `{Keccak}.
Implicit Types s : IntraBlockState InMemoryState.

Definition end_slots s (x : Address * Z) : slot_effect :=
  match live_slot s x with
  | Some c => Some (Init (cv_initial c), cv_original c)
  | None => if wiped s x.1 then Some (Old, 0) else None
  end.

Definition end_accounts s a : account_effect :=
  o ← objects s !! a; Some (initial o, current o).

Lemma write_slots_effect n a st d : mem_block_number d = n -> no_zero d ->
  exists d', db_for_each (fun kv d =>
      update_storage a kv.1 (cv_initial kv.2) (cv_original kv.2) d)
      (map_to_list (st_committed st)) d = Some d' /\
    effect n d d' no_account (fun x => if decide (x.1 = a) then
        c ← st_committed st !! x.2; Some (Init (cv_initial c), cv_original c) else None).
Proof.
  intros Hn Hz.
  destruct (effect_map_loop n (fun kv d =>
      update_storage a kv.1 (cv_initial kv.2) (cv_original kv.2) d)
    (fun _ => no_account)
    (fun kv x => if decide (x = (a, kv.1)) then Some (Init (cv_initial kv.2), cv_original kv.2)
                 else None) (st_committed st) d) with (akey := fun a => a) (skey := fun x : Address * Z => x.2)
    as (d' & Hd & E); try done.
  - intros kv d1 Hn1 _. eexists. split; [done|]. by apply update_storage_effect.
  - intros kv [a' k'] Hne. apply decide_False. simpl in *. congruence.
  - exists d'. split; [done|]. eapply effect_proper; [| |exact E].
    + intros a'. simpl. by destruct (st_committed st !! a').
    + intros [a' k']. simpl. destruct (st_committed st !! k') as [c|]; simpl; [|by case_decide].
      by repeat case_decide; simplify_eq.
Qed.

(** The loops of [write_to_db]. *)
Lemma erase_loop_effect s n d : wf s -> mem_block_number d = n -> no_zero d ->
  exists d', db_for_each (fun e d => if 0 <? e.2 then erase_storage e.1 d else Some d)
      (map_to_list (incarnations s)) d = Some d' /\
    effect n d d' no_account (fun x => if wiped s x.1 then Some (Old, 0) else None).
Proof.
  intros Hw Hn Hz.
  destruct (effect_map_loop n (fun e d => if 0 <? e.2 then erase_storage e.1 d else Some d)
    (fun _ => no_account)
    (fun e x => if decide (x.1 = e.1) then if 0 <? e.2 then Some (Old, 0) else None else None)
    (incarnations s) d) with (akey := fun a => a) (skey := fun x : Address * Z => x.1)
    as (d1 & H1 & E1); try done.
  - intros [a i] d1 Hn1 Hz1. simpl. destruct (0 <? i).
    + eexists. split; [done|]. by apply erase_storage_effect.
    + exists d1. split; [done|]. eapply effect_proper; [done| |by apply effect_refl].
      intros x. by case_decide.
  - intros e x Hne. by rewrite decide_False.
  - exists d1. split; [done|]. eapply effect_proper; [| |exact E1].
    + intros a. simpl. by destruct (incarnations s !! a).
    + intros [a k]. unfold wiped. simpl. destruct (incarnations s !! a) as [i|] eqn:Ei; [|done].
      pose proof (wf_incarnations s Hw a i Ei). simpl.
      rewrite decide_True, (proj2 (Z.ltb_lt _ _)) by (done || lia). done.
Qed.

Lemma storage_loop_effect s n d : mem_block_number d = n -> no_zero d ->
  exists d', db_for_each (fun e d => match objects s !! e.1 ≫= current with
        | Some _ => db_for_each (fun kv d =>
            update_storage e.1 kv.1 (cv_initial kv.2) (cv_original kv.2) d)
            (map_to_list (st_committed e.2)) d
        | None => Some d end) (map_to_list (storage s)) d = Some d' /\
    effect n d d' no_account (fun x =>
      c ← live_slot s x; Some (Init (cv_initial c), cv_original c)).
Proof.
  intros Hn Hz.
  destruct (effect_map_loop n (fun e d => match objects s !! e.1 ≫= current with
        | Some _ => db_for_each (fun kv d =>
            update_storage e.1 kv.1 (cv_initial kv.2) (cv_original kv.2) d)
            (map_to_list (st_committed e.2)) d
        | None => Some d end)
    (fun _ => no_account)
    (fun e x => if decide (x.1 = e.1) then match objects s !! e.1 ≫= current with
       | Some _ => c ← st_committed e.2 !! x.2; Some (Init (cv_initial c), cv_original c)
       | None => None end else None)
    (storage s) d) with (akey := fun a => a) (skey := fun x : Address * Z => x.1)
    as (d2 & H2 & E2); try done.
  - intros [a st] d1 Hn1 Hz1. simpl. destruct (objects s !! a ≫= current).
    + by apply write_slots_effect.
    + exists d1. split; [done|]. eapply effect_proper; [done| |by apply effect_refl].
      intros x. by case_decide.
  - intros e x Hne. by rewrite decide_False.
  - exists d2. split; [done|]. eapply effect_proper; [| |exact E2].
    + intros a. simpl. by destruct (storage s !! a).
    + intros [a k]. unfold live_slot, committed_at, storage_at. simpl.
      destruct (storage s !! a) as [st|]; simpl;
        [rewrite decide_True by done; by destruct (objects s !! a ≫= current)|].
      by destruct (objects s !! a ≫= current).
Qed.

Lemma account_loop_effect s n d : mem_block_number d = n -> no_zero d ->
  exists d', db_for_each (fun e d => Some (update_account e.1 (initial e.2) (current e.2) d))
      (map_to_list (objects s)) d = Some d' /\ effect n d d' (end_accounts s) no_slot.
Proof.
  intros Hn Hz.
  destruct (effect_map_loop n (fun e d => Some (update_account e.1 (initial e.2) (current e.2) d))
    (fun e a => if decide (a = e.1) then Some (initial e.2, current e.2) else None)
    (fun _ => no_slot) (objects s) d) with (akey := fun a => a) (skey := fun x : Address * Z => x.1)
    as (d3 & H3 & E3); try done.
  - intros [a o] d1 Hn1 _. eexists. split; [done|]. by apply update_account_effect.
  - intros e a Hne. by rewrite decide_False.
  - exists d3. split; [done|]. eapply effect_proper; [| |exact E3].
    + intros a. unfold end_accounts. simpl. destruct (objects s !! a); simpl; by rewrite ?decide_True.
    + intros [a k]. simpl. by destruct (objects s !! a).
Qed.

Lemma code_loop_effect s n d : mem_block_number d = n -> no_zero d ->
  exists d', db_for_each (fun e d => update_code e.1 e.2 d) (map_to_list (new_code s)) d = Some d' /\
    effect n d d' no_account no_slot.
Proof.
  intros Hn Hz.
  destruct (effect_map_loop n (fun e d => update_code e.1 e.2 d)
    (fun _ => no_account) (fun _ => no_slot) (new_code s) d)
    with (akey := fun a => a) (skey := fun x : Address * Z => x.1) as (d4 & H4 & E4); try done.
  - intros [h c] d1 Hn1 _. eexists. split; [done|]. by apply update_code_effect.
  - exists d4. split; [done|]. eapply effect_proper; [| |exact E4].
    + intros a. simpl. by destruct (new_code s !! a).
    + intros [a k]. simpl. by destruct (new_code s !! a).
Qed.

Lemma write_to_db_effect s n : no_zero (db s) -> wf s ->
  exists d, write_to_db n s = Some d /\ effect n (db s) d (end_accounts s) (end_slots s).
Proof.
  intros Hz Hw. unfold write_to_db. set (d0 := begin_block n (db s)).
  assert (effect n (db s) d0 no_account no_slot) as E0 by by split.
  destruct (erase_loop_effect s n d0 Hw eq_refl Hz) as (d1 & H1 & E1).
  destruct (storage_loop_effect s n d1 (ef_number _ _ _ _ _ E1) (ef_zero _ _ _ _ _ E1 Hz))
    as (d2 & H2 & E2).
  pose proof (effect_trans _ _ _ _ _ _ _ _ (effect_trans _ _ _ _ _ _ _ _ E0 E1) E2) as E02.
  destruct (account_loop_effect s n d2 (ef_number _ _ _ _ _ E2) (ef_zero _ _ _ _ _ E02 Hz))
    as (d3 & H3 & E3).
  pose proof (effect_trans _ _ _ _ _ _ _ _ E02 E3) as E03.
  destruct (code_loop_effect s n d3 (ef_number _ _ _ _ _ E3) (ef_zero _ _ _ _ _ E03 Hz))
    as (d4 & H4 & E4).
  pose proof (effect_trans _ _ _ _ _ _ _ _ E03 E4) as E.
  exists d4. rewrite H1, bind_Some_eq, H2, bind_Some_eq, H3, bind_Some_eq. split; [exact H4|].
  eapply effect_proper; [| |exact E].
  - intros a. by destruct (end_accounts s a) as [[]|] eqn:Ea; unfold comp_account; rewrite Ea.
  - intros x. unfold end_slots. by destruct (live_slot s x), (wiped s x.1).
Qed.

(** The loops other than the last leave the code alone. *)
Lemma db_for_each_code {A} (f : A -> InMemoryState -> option InMemoryState) l d d' :
  (forall x d d', f x d = Some d' -> code d' = code d) ->
  db_for_each f l d = Some d' -> code d' = code d.
Proof.
  intros Hf. revert d. induction l as [|x l IH]; intros d; simpl; [congruence|].
  intros (d1 & H1 & H2)%bind_Some. rewrite (IH d1 H2). by eapply Hf.
Qed.

Lemma code_loop l d d' :
  db_for_each (fun e d => update_code e.1 e.2 d) l d = Some d' -> NoDup l.*1 ->
  code d' = list_to_map l ∪ code d.
Proof.
  revert d. induction l as [|[h c] l IH]; intros d; simpl.
  - intros [= <-] _. by rewrite (left_id_L ∅ union).
  - intros Hd [Hn Hl]%NoDup_cons. rewrite (IH _ Hd Hl). simpl.
    rewrite <- insert_union_r by by apply not_elem_of_list_to_map_1. by rewrite insert_union_l.
Qed.

Lemma write_to_db_code s n d : write_to_db n s = Some d -> code d = new_code s ∪ code (db s).
Proof.
  unfold write_to_db. intros (d1 & H1 & (d2 & H2 & (d3 & H3 & H4)%bind_Some)%bind_Some)%bind_Some.
  rewrite (code_loop _ _ _ H4) by apply NoDup_fst_map_to_list. rewrite list_to_map_to_list. f_equal.
  apply db_for_each_code in H1; [|intros [] ? ?; simpl; case_match; by intros [= <-]].
  apply db_for_each_code in H3; [|intros [] ? ?; by intros [= <-]].
  apply db_for_each_code in H2; [by rewrite H3, H2, H1|].
  intros [a st] e e'. simpl. case_match; [|by intros [= <-]].
  apply db_for_each_code. by intros [] ? ? [= <-].
Qed.

(** ** What the written state contains *)

Lemma written_account s d n ae : effect n (db s) d (end_accounts s) ae ->
  forall a, accounts d !! a = account_of s a.
Proof.
  intros E a. rewrite (ef_account _ _ _ _ _ E a). unfold end_accounts, account_of, effective.
  destruct (objects s !! a) as [o|]; simpl; [done|].
  unfold mem_read_account. by destruct (accounts (db s) !! a).
Qed.

Lemma written_slot d0 s d n ae : mem_wf d0 -> faithful d0 s ->
  effect n (db s) d ae (end_slots s) -> forall a k,
  match account_of s a with
  | Some _ => original_is s a k (mem_read_storage d a k)
  | None => mem_read_storage d a k = 0
  end.
Proof.
  intros Hm Hf E a k. assert (mem_read_storage d a k = end_value s (a, k) (mem_read_storage d0 a k)) as ->.
  { rewrite (ef_slot _ _ _ _ _ E a k), (fa_db _ _ Hf). unfold end_slots, end_value.
    destruct (live_slot s (a, k)); [done|]. by destruct (wiped s _). }
  apply (end_value_original d0); [done|]. split; [done|]. split; [|by eexists].
  intros [= Ha]. apply (mw_orphan _ Hm). unfold mem_read_account in Ha. by destruct (accounts d0 !! a).
Qed.

End block_end.

(** ** Unwinding *)

Lemma unwind_accounts_lookup (c : gmap Address (option Account)) e a :
  map_fold put_account e c !! a = default (e !! a) (c !! a).
Proof.
  apply (map_fold_weak_ind (fun r c => r !! a = default (e !! a) (c !! a))).
  - by rewrite lookup_empty.
  - intros a' i c' r Hn IH. rewrite put_account_lookup. case_decide; subst.
    + by rewrite lookup_insert_eq.
    + by rewrite lookup_insert_ne.
Qed.

(** The slots of an address in a storage map. *)
Definition slot (s : gmap Address (gmap Z Z)) a k : option Z := default ∅ (s !! a) !! k.

Lemma unwind_slots_lookup a c s a' k : default 0 (slot (unwind_slots a c s) a' k) =
  if decide (a' = a) then default (default 0 (slot s a k)) (c !! k) else default 0 (slot s a' k).
Proof.
  unfold unwind_slots.
  apply (map_fold_weak_ind (fun r c => default 0 (slot r a' k) = if decide (a' = a)
    then default (default 0 (slot s a k)) (c !! k) else default 0 (slot s a' k))).
  - rewrite lookup_empty. by case_decide; subst.
  - intros k' v c' r Hn IH. unfold slot at 1. destruct (decide (a' = a)) as [->|].
    + rewrite lookup_insert_eq. simpl. rewrite put_slot_read. case_decide; subst.
      * by rewrite lookup_insert_eq.
      * by rewrite lookup_insert_ne.
    + by rewrite lookup_insert_ne.
Qed.

Lemma unwind_storage_lookup c s a k : default 0 (slot (map_fold unwind_slots s c) a k) =
  default (default 0 (slot s a k)) (default ∅ (c !! a) !! k).
Proof.
  apply (map_fold_weak_ind (fun r c => default 0 (slot r a k) =
    default (default 0 (slot s a k)) (default ∅ (c !! a) !! k))).
  - by rewrite lookup_empty.
  - intros a' x c' r Hn IH. rewrite unwind_slots_lookup. case_decide; subst.
    + rewrite lookup_insert_eq. simpl. rewrite IH, Hn. done.
    + by rewrite lookup_insert_ne.
Qed.

Lemma unwind_no_zero m n : no_zero m -> no_zero (unwind_state_changes n m).
Proof.
  intros Hz. change (forall a k, slot (map_fold unwind_slots (mem_storage m)
    (default ∅ (storage_changes m !! n))) a k <> Some 0).
  apply (map_fold_weak_ind (fun r _ => forall a k, slot r a k <> Some 0)); [apply Hz|].
  intros a c c' r _ IH. unfold unwind_slots.
  apply (map_fold_weak_ind (fun r _ => forall a k, slot r a k <> Some 0)); [done|].
  intros k v c'' r' _ IH' a' k'. unfold slot. destruct (decide (a' = a)) as [->|].
  - rewrite lookup_insert_eq. apply put_slot_no_zero, IH'.
  - rewrite lookup_insert_ne by done. apply IH'.
Qed.

(** States with the same accounts and slots, up to empty maps of slots. *)
Record same_world m m' : Prop := {
  sw_accounts : accounts m' = accounts m;
  sw_slots a : slots_of m' a = slots_of m a;
}.

#[export] Instance same_world_equiv : Equivalence same_world.
Proof.
  split; [by split|..].
  - intros m m' []. by split.
  - intros m1 m2 m3 [] []. split; [congruence|]. intros a. by rewrite sw_slots1.
Qed.

#[export] Instance state_root_proper `{Keccak, TrieRoot, AccountCodec} :
  Proper (same_world ==> eq) state_root_hash.
Proof.
  intros m m' []. unfold state_root_hash. rewrite sw_accounts0.
  assert (forall a, account_storage_root m' a = account_storage_root m a) as Hr.
  { intros a. specialize (sw_slots0 a). unfold slots_of, account_storage_root in *.
    destruct (mem_storage m !! a) as [x|], (mem_storage m' !! a) as [y|]; cbn [default id] in *.
    - by rewrite sw_slots0.
    - rewrite <- sw_slots0, bool_decide_true by reflexivity. reflexivity.
    - rewrite sw_slots0, bool_decide_true by reflexivity. reflexivity.
    - reflexivity. }
  case_bool_decide; [reflexivity|]. f_equal. apply list_fmap_ext. intros _ [a acc] _. simpl.
  by rewrite Hr.
Qed.

#[export] Instance read_storage_proper :
  Proper (same_world ==> eq ==> eq ==> eq) mem_read_storage.
Proof. intros m m' [] a _ <- k _ <-. by rewrite !read_slots, sw_slots0. Qed.

Lemma slots_of_eq m m' a : no_zero m -> no_zero m' ->
  (forall k, mem_read_storage m' a k = mem_read_storage m a k) -> slots_of m' a = slots_of m a.
Proof.
  intros Hz Hz' Hr. apply map_eq. intros k. specialize (Hr k). rewrite !read_slots in Hr.
  pose proof (Hz a k). pose proof (Hz' a k).
  destruct (slots_of m' a !! k), (slots_of m a !! k); simpl in *; congruence.
Qed.

(** The change sets of a block undo its effect, if they hold the values of
    before. *)
Lemma unwind_effect n d d' ae se : no_zero d -> effect n d d' ae se ->
  (forall a, account_change d n a = None) -> (forall a k, slot_change d n a k = None) ->
  (forall a i c, ae a = Some (i, c) -> i = accounts d !! a) ->
  (forall a k i v, se (a, k) = Some (Init i, v) -> i = mem_read_storage d a k) ->
  (forall a k v, se (a, k) = Some (Old, v) -> v = 0) ->
  same_world d (unwind_state_changes n d').
Proof.
  intros Hz E Hac Hsc Ha Hs Ho. split.
  - apply map_eq. intros a. simpl. rewrite unwind_accounts_lookup.
    pose proof (ef_account_change _ _ _ _ _ E a) as Hc. unfold account_change in Hc at 1.
    rewrite Hc, (ef_account _ _ _ _ _ E a). rewrite Hac.
    destruct (ae a) as [[i c]|] eqn:Ea; simpl; [by eapply Ha|done].
  - intros a. apply slots_of_eq; [done|apply unwind_no_zero, (ef_zero _ _ _ _ _ E), Hz|].
    intros k. rewrite (read_slots (unwind_state_changes n d')).
    change (slots_of (unwind_state_changes n d') a !! k) with
      (slot (map_fold unwind_slots (mem_storage d') (default ∅ (storage_changes d' !! n))) a k).
    rewrite unwind_storage_lookup. pose proof (ef_slot_change _ _ _ _ _ E a k) as Hc.
    unfold slot_change at 1, changes_at at 1 in Hc. rewrite Hc.
    change (default 0 (slot (mem_storage d') a k)) with (default 0 (slots_of d' a !! k)).
    rewrite <- read_slots, (ef_slot _ _ _ _ _ E a k), Hsc.
    destruct (se (a, k)) as [[[i|] v]|] eqn:Es; simpl; [by eapply Hs| |done].
    rewrite (Ho a k v Es). by destruct (Z.eqb_spec (mem_read_storage d a k) 0).
Qed.

(** The value recorded for a slot is not replaced by a later one: contracts that
    were destroyed or created in the block do not write slots that held a value
    before it. *)
Definition not_clobbered (s : IntraBlockState InMemoryState) : Prop := forall a k c,
  is_Some (incarnations s !! a) -> committed_at s a k = Some c ->
  mem_read_storage (db s) a k = 0.

Lemma faithful_initial `{Keccak} d0 s a k c : mem_wf d0 -> faithful d0 s -> not_clobbered s ->
  committed_at s a k = Some c -> cv_initial c = mem_read_storage d0 a k.
Proof.
  intros Hm Hf Hnc Hc. pose proof (fa_db _ _ Hf) as Hd.
  destruct (from_db s a) eqn:Ed.
  - pose proof (fa_initial _ _ Hf a k c Hc Ed) as Hi. rewrite Hd in Hi. by injection Hi.
  - rewrite (fa_fresh _ _ Hf a k c Hc Ed). unfold from_db in Ed. rewrite Hd in Ed. simpl in Ed.
    unfold mem_read_account in Ed. destruct (accounts d0 !! a) eqn:Ea.
    + destruct (incarnations s !! a) eqn:Ei; [|done]. rewrite <- Hd. symmetry.
      eapply Hnc; [by rewrite Ei|done].
    + symmetry. by apply (mw_orphan _ Hm).
Qed.

(** The database after a block agrees with the block state at its end.
    Whatever frames, reverts, self-destructs and transaction ends ran on the
    block state since it was created over a well-formed database, writing it
    succeeds; afterwards the database answers every account and storage read as
    the block state did, code is the new code over the old one, the database is
    well-formed again and the chain data is unchanged. *)
Theorem write_to_db_refines `{Keccak} d0 s n :
  mem_wf d0 -> block_run (ibs.new d0) s -> finalized s ->
  exists d, write_to_db n s = Some d /\ mem_wf d /\
    (forall a x s1, get_current a s = Done x s1 -> mem_read_account d a = x) /\
    (forall a k v s1, get_current_storage a k s = Done v s1 -> mem_read_storage d a k = v) /\
    (forall h, mem_read_code d h = default (mem_read_code d0 h) (new_code s !! h)) /\
    headers d = headers d0 /\ bodies d = bodies d0 /\ canonical_hashes d = canonical_hashes d0.
Proof.
  intros Hm Hrun Hfin. pose proof (faithful_run d0 _ _ Hrun (faithful_new d0)) as Hf.
  pose proof (fa_db _ _ Hf) as Hd.
  destruct (write_to_db_effect s n) as (d & Hw & E); [by rewrite Hd; apply Hm|by apply Hf|].
  pose proof (written_account s d n _ E) as Ha. pose proof (written_slot d0 s d n _ Hm Hf E) as Hs.
  pose proof E as []. rewrite Hd in *. exists d. splits; try done.
  - split; [by apply ef_zero0, Hm|]. intros a k Hn. specialize (Hs a k).
    rewrite <- Ha, Hn in Hs. done.
  - intros a x s1 Hx. apply get_current_account in Hx as ->. apply Ha.
  - intros a k v s1 Hv. destruct (get_storage_done a k false s v s1 (fa_wf _ _ Hf) Hv) as (_ & _ & _ & Hr).
    specialize (Hs a k). destruct (account_of s a); [|congruence].
    unfold storage_read in Hr. simpl in Hr. rewrite Hfin in Hr. by eapply original_fun.
  - intros h. unfold mem_read_code. rewrite (write_to_db_code s n d Hw), Hd, lookup_union.
    by destruct (new_code s !! h), (code d0 !! h).
Qed.

(** Unwinding a block restores the state before it.  If no change set exists
    for the block and no destroyed or re-created contract wrote a slot that held
    a value before the block, then unwinding what the block wrote gives back all
    accounts, all slots and with them the state root, and removes the change sets
    of the block. *)
Theorem unwind_restores `{Keccak, TrieRoot, AccountCodec} d0 s n d :
  mem_wf d0 -> block_run (ibs.new d0) s -> write_to_db n s = Some d -> not_clobbered s ->
  account_changes d0 !! n = None -> storage_changes d0 !! n = None ->
  let u := unwind_state_changes n d in
  same_world d0 u /\ state_root_hash u = state_root_hash d0 /\
  account_changes u = account_changes d0 /\ storage_changes u = storage_changes d0.
Proof.
  intros Hm Hrun Hw Hnc Hac Hsc u. pose proof (faithful_run d0 _ _ Hrun (faithful_new d0)) as Hf.
  pose proof (fa_db _ _ Hf) as Hd.
  destruct (write_to_db_effect s n) as (d' & Hw' & E); [by rewrite Hd; apply Hm|by apply Hf|].
  assert (d' = d) as -> by congruence. rewrite Hd in E.
  assert (same_world d0 u) as Hu.
  { eapply unwind_effect; [apply Hm|exact E|..].
    - intros a. unfold account_change. by rewrite Hac.
    - intros a k. unfold slot_change, changes_at. by rewrite Hsc.
    - intros a i c. unfold end_accounts. destruct (objects s !! a) as [o|] eqn:Eo; [|done].
      intros [= <- <-]. pose proof (wf_initial _ (fa_wf _ _ Hf) a o Eo) as Hi. rewrite Hd in Hi.
      by injection Hi.
    - intros a k i v. unfold end_slots, live_slot. simpl.
      destruct (objects s !! a ≫= current), (committed_at s a k) as [c|] eqn:Ec;
        try (case_match; congruence). intros [= <- <-]. by eapply faithful_initial.
    - intros a k v. unfold end_slots. destruct (live_slot s (a, k)); [done|].
      case_match; [|done]. congruence. }
  splits; [done|by rewrite Hu| |]; apply map_eq; intros b; simpl;
    (destruct (decide (b = n)) as [->|Hb]; [by rewrite lookup_delete_eq|]);
    rewrite lookup_delete_ne by done; by apply (ef_other _ _ _ _ _ E).
Qed.

(** ** Examples *)

Section examples.
#[local] Existing Instance Journal.zero_keccak.
Abbreviation IBS := (IntraBlockState InMemoryState).

(** A contract at address 5 whose slot 1 holds 7. *)
Definition contract_state : InMemoryState :=
  with_world mem.new {[ 5 := {| nonce := 1; balance := 100; code_hash := 9 |} ]} ∅
    {[ 5 := {[ 1 := 7 ]} ]} ∅ ∅ 0.

Lemma contract_state_wf : mem_wf contract_state.
Proof.
  split.
  - intros a k. unfold slots_of. simpl. destruct (decide (a = 5)) as [->|].
    + rewrite lookup_singleton_eq. simpl. rewrite lookup_singleton_Some. lia.
    + rewrite lookup_singleton_ne by done. cbn; by rewrite lookup_empty.
  - intros a k. unfold mem_read_storage. simpl. destruct (decide (a = 5)) as [->|].
    + by rewrite lookup_singleton_eq.
    + by rewrite !lookup_singleton_ne.
Qed.

(** The state after a computation that succeeds. *)
Definition run {A} (m : SM IBS A) (s : IBS) : IBS :=
  match m s with Done _ s => s | _ => s end.

Definition written_state : IBS := run (run_op (OpSetStorage 5 1 9)) (ibs.new contract_state).
Definition written_end : IBS := run finalize_transaction written_state.

Lemma written_frame : frame (ibs.new contract_state) written_state.
Proof.
  apply (frame_op _ (ibs.new contract_state) written_state (OpSetStorage 5 1 9));
    [apply frame_start|vm_compute; by eexists|vm_compute; reflexivity].
Qed.

Lemma written_run : block_run (ibs.new contract_state) written_end.
Proof.
  apply (rtc_l _ _ written_state); [apply step_frame, written_frame|].
  apply rtc_once, step_finalize. vm_compute. reflexivity.
Qed.

Lemma write_to_db_refines_witness : exists d,
  write_to_db 1 written_end = Some d /\ mem_read_storage d 5 1 = 9.
Proof.
  destruct (write_to_db_refines contract_state written_end 1) as (d & Hd & _ & _ & Hs & _).
  - exact contract_state_wf.
  - exact written_run.
  - apply (finalize_finalized written_state). vm_compute. reflexivity.
  - exists d. split; [exact Hd|].
    apply (Hs 5 1 9 (run (get_current_storage 5 1) written_end)). vm_compute. reflexivity.
Defined.

Definition written_db : InMemoryState := default mem.new (write_to_db 1 written_end).

#[local] Instance zero_trie_root : TrieRoot := {| trie_root _ := 0 |}.
#[local] Instance no_account_codec : AccountCodec := {|
  rlp_bytes b := b;
  rlp_account _ := [];
|}.

Lemma unwind_restores_witness :
  same_world contract_state (unwind_state_changes 1 written_db).
Proof.
  destruct (unwind_restores contract_state written_end 1 written_db) as [Hw _].
  - exact contract_state_wf.
  - exact written_run.
  - vm_compute. reflexivity.
  - intros a k c Hi. assert (incarnations written_end = ∅) as E by (vm_compute; reflexivity).
    rewrite E, lookup_empty in Hi. by destruct Hi.
  - vm_compute. reflexivity.
  - vm_compute. reflexivity.
  - exact Hw.
Defined.

(** A transaction destroys the contract, the next one creates it again and
    writes the same slot. *)
Definition selfdestructed : IBS := run (run_op (OpRecordSelfdestruct 5)) (ibs.new contract_state).
Definition destructed : IBS := run destruct_selfdestructs selfdestructed.
Definition destroyed : IBS := run finalize_transaction destructed.
Definition next_start : IBS := run clear_journal_and_substate destroyed.
Definition recreated : IBS := run (run_op (OpCreateContract 5)) next_start.
Definition rewritten : IBS := run (run_op (OpSetStorage 5 1 9)) recreated.
Definition recreated_end : IBS := run finalize_transaction rewritten.

Lemma recreated_run : block_run (ibs.new contract_state) recreated_end.
Proof.
  apply (rtc_l _ _ selfdestructed); [apply step_frame|].
  { apply (frame_op _ (ibs.new contract_state) selfdestructed (OpRecordSelfdestruct 5));
      [apply frame_start|exact Logic.I|vm_compute; reflexivity]. }
  apply (rtc_l _ _ destructed); [apply step_selfdestructs; vm_compute; reflexivity|].
  apply (rtc_l _ _ destroyed); [apply step_finalize; vm_compute; reflexivity|].
  apply (rtc_l _ _ next_start); [apply step_clear; vm_compute; reflexivity|].
  apply (rtc_l _ _ rewritten); [apply step_frame|apply rtc_once, step_finalize; vm_compute; reflexivity].
  apply (frame_op _ recreated rewritten (OpSetStorage 5 1 9));
    [|vm_compute; by eexists|vm_compute; reflexivity].
  apply (frame_op _ next_start recreated (OpCreateContract 5));
    [apply frame_start|exact Logic.I|vm_compute; reflexivity].
Qed.
End examples.

(** Unwinding loses slots of contracts that were destroyed and re-created in
    the block.  There is a block after which the change set holds the value the
    slot had when the contract was re-created instead of the one before the block:
    slot 1 held 7, and unwinding leaves 0. *)
Theorem unwind_loses_recreated : exists `(Keccak) (d0 d : InMemoryState) s,
  mem_wf d0 /\ block_run (ibs.new d0) s /\ finalized s /\ write_to_db 1 s = Some d /\
  account_changes d0 = ∅ /\ storage_changes d0 = ∅ /\
  mem_read_storage d0 5 1 = 7 /\ mem_read_storage (unwind_state_changes 1 d) 5 1 = 0.
Proof.
  exists Journal.zero_keccak, contract_state,
    (default mem.new (write_to_db 1 recreated_end)), recreated_end.
  split; [exact contract_state_wf|]. split; [exact recreated_run|].
  split; [apply (finalize_finalized rewritten); vm_compute; reflexivity|].
  splits; vm_compute; reflexivity.
Qed.
