(* ===== verification/Samples.v ===== *)
(** Concrete instances of the functions of other crates and a small world in
    memory, on which witnesses of the theorems evaluate. *)
From S2P Require Import Prelude Word Properties EvmState Host Interpreter Transaction IntraBlockState Consensus Precompiled PrecompiledSpec EvmGlue EvmGlueSpec MemState MemStateSpec Rlp.
From Stdlib Require Import ZArith Lia Strings.Byte.
From stdpp Require Import base list option numbers gmap.
#[local] Open Scope Z_scope.

Module samples.

(** A digest that is not constant: the value of the bytes. *)
Definition keccak : Keccak := {|
  keccak_digest bs := be_bytes 32 (be_val bs);
  length_keccak_digest bs := length_be_bytes 32 (be_val bs);
|}.

(** A cache that forgets nothing. *)
Definition lru : LruCache (gmap Z AnalyzedCode) := {|
  lru_get h c := (c !! h, c);
  lru_put h a c := <[h := a]> c;
|}.

Definition no_trace : StartTracer unit := {| capture_start _ _ _ _ _ _ _ t := t |}.

Definition address_codec : AddressCodec := {|
  rlp_caller_nonce a n := be_bytes 20 a ++ be_bytes 8 n;
|}.

Definition header : PartialHeader := {|
  partial.parent_hash := 0; partial.beneficiary := 99; partial.state_root := 0;
  partial.receipts_root := 0; partial.logs_bloom := 0; partial.difficulty := 1;
  partial.number := 1; partial.gas_limit := 1000000; partial.gas_used := 0;
  partial.timestamp := 10; partial.extra_data := []; partial.mix_hash := 0;
  partial.nonce := 0; partial.base_fee_per_gas := Some 0;
|}.

Definition payment : MessageWithSender := {|
  sent_message := Legacy None 0 1 100000 (ActionCall 17) 0 [];
  sender := 15;
|}.

(** [PUSH1 1; PUSH1 0; SSTORE; INVALID]. *)
Definition store_and_fail : Bytes := [x60; x01; x60; x00; x55; xfe].

(** [PUSH1 1; PUSH1 0; SSTORE; STOP]. *)
Definition store_one : Bytes := [x60; x01; x60; x00; x55; x00].

(** A payer at 15 and contracts at 17 and 18. *)
Definition world : InMemoryState :=
  mem.with_world mem.new
    {[ 15 := {| nonce := 0; balance := 1000000; code_hash := EMPTY_HASH |};
       17 := {| nonce := 1; balance := 0; code_hash := 9 |};
       18 := {| nonce := 1; balance := 0; code_hash := 10 |} ]}
    {[ 9 := store_and_fail; 10 := store_one ]} ∅ ∅ ∅ 0.

Definition machine : Evm InMemoryState (gmap Z AnalyzedCode) unit := {|
  evm_state := ibs.new world;
  evm_cache := ∅;
  evm_tracer := None;
|}.

Definition message : InterpreterMessage := {|
  kind := CallKind_Call; is_static := false; depth := 1; gas := 50000;
  recipient := 17; code_address := 17; EvmState.sender := 15;
  input_data := []; EvmState.value := 3;
|}.

(** A codec whose hashes and roots are all zero. *)
Definition rlp_stream : RlpStream := {| rlp_out _ := [] |}.
Definition codec : Codec := {|
  rlp_encode_list _ := []; trie_encode _ := []; ordered_trie_root _ := 0;
|}.
Definition signing : SigningHash := {| signing_hash _ := [] |}.

(** The RLP encoding. *)
Definition minimal (n : Z) : Bytes :=
  be_bytes (Z.to_nat ((Z.log2 n + 8) / 8)) n.
Definition uint (n : Z) : Bytes := if n =? 0 then [] else minimal n.
Definition with_length (offset : Z) (payload : Bytes) : Bytes :=
  let n := Z.of_nat (length payload) in
  if n <? 56 then byte_of (offset + n) :: payload
  else byte_of (offset + 55 + Z.of_nat (length (minimal n))) :: minimal n ++ payload.
Definition data (d : Bytes) : Bytes :=
  match d with
  | [b] => if byte_val b <? 128 then [b] else with_length 128 d
  | _ => with_length 128 d
  end.

Fixpoint rlp_item (i : RlpItem) : Bytes :=
  match i with
  | RlpBool b => data (uint (if b then 1 else 0))
  | RlpU64 n | RlpU256 n => data (uint n)
  | RlpAddress a => data (be_bytes 20 a)
  | RlpH64 h => data (be_bytes 8 h)
  | RlpH256 h => data (be_bytes 32 h)
  | RlpBloom b | RlpData b => data b
  | RlpRaw d => d
  | RlpEmpty => data []
  | RlpListOf l => with_length 192 (concat (map rlp_item l))
  end.

Definition rlp : RlpStream := {| rlp_out := rlp_item |}.

(** A block with one transaction, that calls the contract at 18. *)
Definition block_header : PartialHeader := {|
  partial.parent_hash := 0; partial.beneficiary := 99; partial.state_root := 0;
  partial.receipts_root := 0; partial.logs_bloom := 0; partial.difficulty := 1;
  partial.number := 1; partial.gas_limit := 1000000; partial.gas_used := 43106;
  partial.timestamp := 10; partial.extra_data := []; partial.mix_hash := 0;
  partial.nonce := 0; partial.base_fee_per_gas := Some 0;
|}.

Definition block : BlockBodyWithSenders := {|
  with_senders_transactions :=
    [{| sent_message := Legacy None 0 1 100000 (ActionCall 18) 0 []; sender := 15 |}];
  with_senders_ommers := [];
|}.

Lemma world_wf : mem_wf world.
Proof.
  split; intros a k.
  - unfold mem.slots_of. simpl. by rewrite lookup_empty.
  - intros _. unfold mem.mem_read_storage. simpl. by rewrite lookup_empty.
Qed.

End samples.
