(* ===== verification/TrieSpec.v ===== *)
(** The hash builder computes the root of the Merkle Patricia trie.

    [mpt] is the trie by recursion on the set of its entries: one entry is a leaf,
    several share a path to a branch node that splits them by their next nibble.
    The hash builder gets the entries one by one and keeps a stack of references
    and a mask of children for each open branch. *)
From S2P Require Import Prelude Word EvmState Rlp MemState Trie Samples.
From Stdlib Require Import ZArith Lia Strings.Byte.
From stdpp Require Import base list option numbers gmap sorting.
#[local] Open Scope Z_scope.

(** ** Reference *)

Abbreviation entry := (list Z * Bytes)%type.
Abbreviation prefix_length := Trie.prefix_length.

(** Where the keys of a sorted list part. *)
Definition parting (l : list entry) : nat :=
  match l, last l with
  | (k0, _) :: _, Some (k1, _) => prefix_length k0 k1
  | _, _ => O
  end.

(** The entries whose nibble at [c] is [d]. *)
Definition below (c : nat) (d : Z) (l : list entry) : list entry :=
  filter (fun e => e.1 !! c = Some d) l.

Section reference.
Context {KK : Keccak} {RS : RlpStream}.

(** The RLP of the node for the entries [l], whose keys agree up to [x]. *)
Fixpoint mpt (fuel x : nat) (l : list entry) : option Bytes :=
  match fuel with
  | O => None
  | S fuel =>
      match l with
      | [] => None
      | [(k, v)] => hash_builder.leaf_node_rlp (drop x k) v
      | (k, _) :: _ =>
          let c := parting l in
          items ← mapM (fun d : nat =>
            match below c (Z.of_nat d) l with
            | [] => Some RlpEmpty
            | g => rlp ← mpt fuel (S c) g; Some (RlpRaw (hash_builder.node_ref rlp))
            end) (seq 0 16);
          let branch := rlp_out (RlpListOf (items ++ [RlpEmpty])) in
          if (x =? c)%nat then Some branch
          else hash_builder.extension_node_rlp (take (c - x) (drop x k))
                 (hash_builder.node_ref branch)
      end
  end.

(** The root of the trie of entries with keys of length [n]. *)
Definition mpt_root (n : nat) (l : list entry) : option Z :=
  match l with
  | [] => Some EMPTY_ROOT
  | _ => rlp ← mpt (S n) 0 l; Some (be_val (keccak_digest rlp))
  end.

End reference.

(** ** Prefixes *)

Lemma prefix_length_le a b : (prefix_length a b <= length a)%nat /\ (prefix_length a b <= length b)%nat.
Proof.
  revert b. induction a as [|x a IH]; intros [|y b]; simpl; try lia.
  destruct (x =? y); [|lia]. destruct (IH b). lia.
Qed.

Lemma prefix_length_take a b n : (n <= prefix_length a b)%nat -> take n a = take n b.
Proof.
  revert b n. induction a as [|x a IH]; intros [|y b] [|n]; simpl; try done; try lia.
  destruct (Z.eqb_spec x y) as [->|]; [|lia]. intros Hn. f_equal. apply IH. lia.
Qed.

Lemma prefix_length_comm a b : prefix_length a b = prefix_length b a.
Proof.
  revert b. induction a as [|x a IH]; intros [|y b]; simpl; try done.
  rewrite (Z.eqb_sym y x). destruct (x =? y); [|done]. by rewrite IH.
Qed.

(** The prefix ends where the keys differ. *)
Lemma prefix_length_unique a b n x y : take n a = take n b ->
  a !! n = Some x -> b !! n = Some y -> x <> y -> prefix_length a b = n.
Proof.
  revert a b. induction n as [|n IH]; intros [|u a] [|w b]; simpl; try done.
  - intros _ [= ->] [= ->] Hne. by rewrite (proj2 (Z.eqb_neq _ _)).
  - intros [= -> Ht] Ha Hb Hne. rewrite Z.eqb_refl. f_equal. by apply IH.
Qed.

Lemma prefix_length_differ a b x y : a !! prefix_length a b = Some x ->
  b !! prefix_length a b = Some y -> x <> y.
Proof.
  revert b. induction a as [|u a IH]; intros [|w b]; simpl; try done.
  destruct (Z.eqb_spec u w) as [->|Hne]; simpl; [apply IH|]. intros [= ->] [= ->]. done.
Qed.

Lemma prefix_length_trunc a b n : prefix_length a (take n b) = Nat.min n (prefix_length a b).
Proof.
  revert b n. induction a as [|x a IH]; intros [|y b] [|n]; simpl; try done; try lia.
  destruct (x =? y); [|lia]. by rewrite IH.
Qed.

(** Keys of the same length in order differ, and the larger has the larger nibble. *)
Lemma vec_lt_parting a b : length a = length b -> vec_lt a b = true ->
  exists x y, a !! prefix_length a b = Some x /\ b !! prefix_length a b = Some y /\ x < y.
Proof.
  revert b. induction a as [|u a IH]; intros [|w b]; simpl; try done. intros [= Hl].
  destruct (Z.ltb_spec u w); simpl.
  - intros _. rewrite (proj2 (Z.eqb_neq _ _)) by lia. simpl. by exists u, w.
  - intros [->%Z.eqb_eq Hlt]%andb_true_iff. rewrite Z.eqb_refl. simpl. by apply IH.
Qed.

(** ** Children of a branch *)

(** A child: its nibble, its entries and its reference. *)
Record child := { digit : Z; entries : list entry; reference : Bytes }.

Definition digits_ok (ch : list child) : Prop :=
  Forall (fun c => 0 <= digit c < 16) ch /\ StronglySorted Z.lt (digit <$> ch).

Definition mask (ch : list child) : Z := foldl (fun m c => Z.lor m (Z.shiftl 1 (digit c))) 0 ch.

Lemma mask_snoc ch c : mask (ch ++ [c]) = Z.lor (mask ch) (Z.shiftl 1 (digit c)).
Proof. unfold mask. by rewrite foldl_app. Qed.

Lemma testbit_mask ch d : Forall (fun c => 0 <= digit c < 16) ch -> 0 <= d ->
  Z.testbit (mask ch) d = bool_decide (d ∈ digit <$> ch).
Proof.
  intros Hf Hd. induction ch as [|c ch IH] using rev_ind.
  { rewrite bool_decide_false by (simpl; set_solver). apply Z.testbit_0_l. }
  apply Forall_app in Hf as [Hf [Hc _]%Forall_cons].
  rewrite mask_snoc, Z.lor_spec, IH, Z.shiftl_1_l, Z.pow2_bits_eqb by (done || lia).
  rewrite fmap_app. simpl. destruct (Z.eqb_spec (digit c) d) as [<-|Hne].
  - rewrite orb_true_r. symmetry. apply bool_decide_eq_true. set_solver.
  - rewrite orb_false_r. apply bool_decide_ext. set_solver.
Qed.

Lemma mask_nonzero ch : ch <> [] -> Forall (fun c => 0 <= digit c < 16) ch -> mask ch <> 0.
Proof.
  intros Hne Hf Hz. destruct ch as [|c ch]; [done|].
  assert (0 <= digit c < 16) as Hc by by inversion Hf.
  pose proof (testbit_mask (c :: ch) (digit c) Hf ltac:(lia)) as Ht.
  rewrite Hz, Z.testbit_0_l, bool_decide_true in Ht by (simpl; set_solver). done.
Qed.

(** The items of a branch for the nibbles from [d] on. *)
Fixpoint items_from (n d : nat) (ch : list child) : list RlpItem :=
  match n with
  | O => []
  | S n =>
      match ch with
      | c :: ch' =>
          if digit c =? Z.of_nat d then RlpRaw (reference c) :: items_from n (S d) ch'
          else RlpEmpty :: items_from n (S d) ch
      | [] => RlpEmpty :: items_from n (S d) []
      end
  end.

(** The children whose nibble is [d] or larger. *)
Definition from_digit (d : nat) (ch : list child) : Prop :=
  Forall (fun c => Z.of_nat d <= digit c < 16) ch /\ StronglySorted Z.lt (digit <$> ch).

Lemma from_digit_step d c ch : from_digit d (c :: ch) -> from_digit (S (Z.to_nat (digit c))) ch.
Proof.
  intros [Hf Hs]. simpl in Hs. apply StronglySorted_inv in Hs as [Hs Hlt].
  apply Forall_cons in Hf as [Hc Hf]. split; [|done].
  rewrite Forall_fmap in Hlt. rewrite Forall_forall in Hlt, Hf |- *. intros x Hx.
  specialize (Hlt x Hx). specialize (Hf x Hx). simpl in *. lia.
Qed.

Lemma from_digit_weaken d c ch : from_digit d (c :: ch) -> digit c <> Z.of_nat d ->
  from_digit (S d) (c :: ch).
Proof.
  intros [Hf Hs] Hne. split; [|done]. pose proof Hs as Hs'. simpl in Hs'.
  apply StronglySorted_inv in Hs' as [_ Hlt]. apply Forall_cons in Hf as [Hc Hf].
  constructor; [lia|]. rewrite Forall_fmap in Hlt. rewrite Forall_forall in Hlt, Hf |- *.
  intros x Hx. specialize (Hlt x Hx). specialize (Hf x Hx). simpl in *. lia.
Qed.

Lemma from_digit_head d c ch : from_digit d (c :: ch) -> digit c = Z.of_nat d -> from_digit (S d) ch.
Proof.
  intros Hf Hd. apply from_digit_step in Hf. rewrite Hd, Nat2Z.id in Hf. done.
Qed.

(** A nibble that no child has. *)
Lemma from_digit_not d ch : from_digit (S d) ch -> Z.of_nat d ∉ digit <$> ch.
Proof.
  intros [Hf _] (x & Hd & Hx)%list_elem_of_fmap. rewrite Forall_forall in Hf.
  specialize (Hf x Hx). lia.
Qed.

(** A mask agrees with the children on the nibbles from [d] on. *)
Definition agrees (m : Z) (d : nat) (ch : list child) : Prop :=
  forall i, (d <= i < 16)%nat -> Z.testbit m (Z.of_nat i) = bool_decide (Z.of_nat i ∈ digit <$> ch).

(** The children with a bit in a mask. *)
Definition chosen (hm : Z) (ch : list child) : list child := filter (fun c => Z.testbit hm (digit c) = true) ch.

Lemma branch_items_spec n d m hm ch : (n + d = 16)%nat -> from_digit d ch -> agrees m d ch ->
  hash_builder.branch_items (seq d n) m hm (reference <$> ch) = Some (items_from n d ch, reference <$> chosen hm ch).
Proof.
  revert d ch. induction n as [|n IH]; intros d ch Hn Hf Ha.
  { destruct ch as [|c ch]; [done|]. destruct Hf as [[Hc _]%Forall_cons _]. lia. }
  cbn [seq hash_builder.branch_items].
  rewrite Ha by lia. destruct ch as [|c ch]; cbn [items_from].
  - rewrite bool_decide_false by (simpl; set_solver).
    rewrite (IH (S d) []); [done|lia| |].
    + split; constructor.
    + intros i Hi. apply Ha. lia.
  - destruct (Z.eqb_spec (digit c) (Z.of_nat d)) as [E|E].
    + rewrite bool_decide_true by (simpl; set_solver). rewrite fmap_cons. unfold chosen. rewrite filter_cons, E.
      rewrite (IH (S d) ch); [|lia|by eapply from_digit_head|].
      { destruct (Z.testbit hm (Z.of_nat d)); [by rewrite decide_True|by rewrite decide_False]. }
      intros i Hi. rewrite Ha by lia. simpl. apply bool_decide_ext.
      rewrite elem_of_cons, E. split; [|by right]. intros [?|?]; [lia|done].
    + pose proof (from_digit_weaken d c ch Hf E) as Hf'.
      rewrite bool_decide_false by (pose proof (from_digit_not d (c :: ch) Hf'); done).
      rewrite (IH (S d) (c :: ch)); [done|lia|done|]. intros i Hi. apply Ha. lia.
Qed.

Lemma digits_from ch : digits_ok ch -> from_digit 0 ch.
Proof. intros [Hf Hs]. split; [|done]. eapply Forall_impl; [done|]. simpl. lia. Qed.

Lemma mask_agrees ch : digits_ok ch -> agrees (mask ch) 0 ch.
Proof. intros [Hf _] i _. apply testbit_mask; [done|lia]. Qed.

(** A branch has as many children as its mask has bits. *)
Lemma count_mask n d m ch : (n + d = 16)%nat -> from_digit d ch -> agrees m d ch ->
  length (filter (fun i => Z.testbit m (Z.of_nat i) = true) (seq d n)) = length ch.
Proof.
  revert d ch. induction n as [|n IH]; intros d ch Hn Hf Ha; cbn [seq].
  { destruct ch as [|c ch]; [done|]. destruct Hf as [[Hc _]%Forall_cons _]. lia. }
  rewrite filter_cons, Ha by lia. destruct ch as [|c ch].
  - rewrite bool_decide_false, decide_False by (simpl; set_solver).
    apply (IH (S d) []); [lia|split; constructor|]. intros i Hi. apply Ha. lia.
  - destruct (Z.eqb_spec (digit c) (Z.of_nat d)) as [E|E].
    + rewrite bool_decide_true, decide_True by (simpl; set_solver). simpl. f_equal.
      apply IH; [lia|by eapply from_digit_head|].
      intros i Hi. rewrite Ha by lia. simpl. apply bool_decide_ext.
      rewrite elem_of_cons, E. split; [|by right]. intros [?|?]; [lia|done].
    + pose proof (from_digit_weaken d c ch Hf E) as Hf'.
      rewrite bool_decide_false by (pose proof (from_digit_not d (c :: ch) Hf'); done).
      rewrite decide_False by done. apply IH; [lia|done|]. intros i Hi. apply Ha. lia.
Qed.

Lemma count_ones_mask ch : digits_ok ch -> count_ones (mask ch) = length ch.
Proof.
  intros Hd. unfold count_ones. apply count_mask; [done|by apply digits_from|by apply mask_agrees].
Qed.

(** The children that a mask chooses are as many as its bits, if all bits are children. *)
Lemma count_ones_chosen hm ch : digits_ok ch ->
  (forall d, Z.testbit hm d = true -> exists c, c ∈ ch /\ digit c = d) -> count_ones hm = length (chosen hm ch).
Proof.
  intros [Hf Hs] Hm. unfold count_ones. apply count_mask; [done| |].
  - split.
    + apply Forall_forall. intros c [_ Hc]%list_elem_of_filter. rewrite Forall_forall in Hf. specialize (Hf c Hc). lia.
    + clear Hf Hm. unfold chosen. induction ch as [|c ch IH]; [constructor|]. simpl in Hs.
      apply StronglySorted_inv in Hs as [Hs Hlt]. rewrite filter_cons. case_decide; [|by apply IH].
      rewrite fmap_cons. constructor; [by apply IH|]. rewrite Forall_fmap, Forall_forall in Hlt |- *.
      intros x [_ Hx]%list_elem_of_filter. by apply Hlt.
  - intros i Hi. destruct (Z.testbit hm (Z.of_nat i)) eqn:E; symmetry.
    + apply bool_decide_eq_true. destruct (Hm _ E) as (c & Hc & Hd). apply list_elem_of_fmap. exists c.
      split; [done|]. apply list_elem_of_filter. by rewrite Hd.
    + apply bool_decide_eq_false. intros (c & Hd & [Hc _]%list_elem_of_filter)%list_elem_of_fmap. congruence.
Qed.

(** ** Masks *)

(** All bits of a mask satisfy a condition. *)
Definition bits_in (v : Z) (Q : Z -> Prop) : Prop := 0 <= v /\ forall d, Z.testbit v d = true -> Q d.

Definition levels_in (l : list Z) (Q : nat -> Z -> Prop) : Prop := forall i v, l !! i = Some v -> bits_in v (Q i).

Lemma bits_weaken v (Q Q' : Z -> Prop) : bits_in v Q -> (forall d, Q d -> Q' d) -> bits_in v Q'.
Proof. intros [H0 Hb] HQ. split; [done|]. intros d Hd. by apply HQ, Hb. Qed.

Lemma bits_or v d (Q : Z -> Prop) : bits_in v Q -> 0 <= d -> Q d -> bits_in (Z.lor v (Z.shiftl 1 d)) Q.
Proof.
  intros [H0 Hb] Hd Hq. rewrite Z.shiftl_1_l. split; [apply Z.lor_nonneg; split; [done|lia]|].
  intros i Hi. rewrite Z.lor_spec in Hi. apply orb_true_iff in Hi as [Hi|Hi]; [by apply Hb|].
  assert (i = d) as ->; [|done]. destruct (Z.lt_ge_cases i 0) as [Hn|Hn]; [by rewrite Z.testbit_neg_r in Hi|].
  rewrite Z.pow2_bits_eqb in Hi by lia. lia.
Qed.

Lemma bits_clear v x (Q : Z -> Prop) : bits_in v Q -> bits_in (Z.ldiff v x) Q.
Proof.
  intros [H0 Hb]. split; [apply Z.ldiff_nonneg; by left|]. intros i Hi. rewrite Z.ldiff_spec in Hi.
  apply andb_true_iff in Hi as [Hi _]. by apply Hb.
Qed.

Lemma levels_weaken l (Q Q' : nat -> Z -> Prop) : levels_in l Q ->
  (forall i d, (i < length l)%nat -> Q i d -> Q' i d) -> levels_in l Q'.
Proof.
  intros Hl HQ i v Hv. eapply bits_weaken; [by eapply Hl|]. intros d. apply HQ. by eapply lookup_lt_Some.
Qed.

Lemma levels_resize l (Q : nat -> Z -> Prop) k : levels_in l Q -> levels_in (resize0 l k) (fun i d => (i < k)%nat /\ Q i d).
Proof.
  intros Hl i v Hv. pose proof (lookup_lt_Some _ _ _ Hv) as Hi. unfold resize0 in *.
  rewrite length_app, length_take, length_replicate in Hi. apply lookup_app_Some in Hv as [Hv|[_ Hv]].
  - apply lookup_take_Some in Hv as [Hv Hk]. eapply bits_weaken; [by eapply Hl|]. done.
  - apply lookup_replicate in Hv as [-> _]. split; [done|]. intros d. by rewrite Z.testbit_0_l.
Qed.

Lemma levels_or l (Q : nat -> Z -> Prop) i d : levels_in l Q -> (i < length l)%nat -> 0 <= d -> Q i d ->
  exists l', or_at l i (Z.shiftl 1 d) = Some l' /\ levels_in l' Q /\ length l' = length l /\
    forall j, j <> i -> l' !! j = l !! j.
Proof.
  intros Hl Hi Hd Hq. destruct (lookup_lt_is_Some_2 l i Hi) as [v Hv]. unfold or_at. rewrite Hv. eexists.
  split; [done|]. split; [|split; [by rewrite length_insert|intros j Hj; by rewrite list_lookup_insert_ne by done]]. intros j w Hw. apply list_lookup_insert_Some in Hw as [(<- & <- & _)|[_ Hw]].
  - apply bits_or; [by eapply Hl|done|done].
  - by eapply Hl.
Qed.

Lemma levels_clear l (Q : nat -> Z -> Prop) i x : levels_in l Q -> (i < length l)%nat ->
  exists l', clear_at l i x = Some l' /\ levels_in l' Q /\ length l' = length l.
Proof.
  intros Hl Hi. destruct (lookup_lt_is_Some_2 l i Hi) as [v Hv]. unfold clear_at. rewrite Hv. eexists.
  split; [done|]. split; [|by rewrite length_insert]. intros j w Hw. apply list_lookup_insert_Some in Hw as [(<- & <- & _)|[_ Hw]].
  - apply bits_clear. by eapply Hl.
  - by eapply Hl.
Qed.

(** ** Paths of nibbles *)

Definition nibbles (k : list Z) : Prop := Forall (fun x => 0 <= x < 16) k.

Lemma encode_pairs_total n k : nibbles k -> length k = (2 * n)%nat ->
  is_Some (encode_pairs k).
Proof.
  revert k. induction n as [|n IH]; intros [|x [|y k]] Hk Hl; simpl in Hl; try done; try lia.
  apply Forall_cons in Hk as [Hx Hk]. apply Forall_cons in Hk as [Hy Hk]. cbn [encode_pairs].
  destruct (IH k Hk ltac:(lia)) as [bs ->].
  unfold u8_add, shl4, checked, wrap. rewrite Z.shiftl_mul_pow2 by lia.
  rewrite Z.mod_small by (change (2 ^ 4) with 16; change (2 ^ 8) with 256; lia).
  change (2 ^ 4) with 16.
  rewrite (proj2 (Z.leb_le _ _)), (proj2 (Z.leb_le _ _)) by lia. by eexists.
Qed.

Lemma encode_path_total k t : nibbles k -> is_Some (encode_path k t).
Proof.
  intros Hk. unfold encode_path. pose proof (Nat.div_mod_eq (length k) 2) as Hdm.
  pose proof (Nat.mod_upper_bound (length k) 2 ltac:(lia)) as Hlt.
  destruct (Nat.eqb_spec (length k mod 2) 0) as [E|E]; cbn [negb].
  - destruct (encode_pairs_total (length k / 2) k Hk) as [bs ->]; [lia|]. by eexists.
  - destruct k as [|x k]; [done|]. apply Forall_cons in Hk as [_ Hk]. simpl length in *.
    destruct (encode_pairs_total (S (length k) / 2) k Hk) as [bs ->]; [lia|]. by eexists.
Qed.

Lemma nibbles_drop n k : nibbles k -> nibbles (drop n k).
Proof. apply Forall_drop. Qed.

Lemma nibbles_take n k : nibbles k -> nibbles (take n k).
Proof. apply Forall_take. Qed.

(** ** A branch is the trie of the entries of its children *)

(** An entry under a child of a branch at [d]: its key has the path of the branch
    and then the nibble of the child. *)
Definition under (n d : nat) (path : list Z) (i : Z) (e : entry) : Prop :=
  length e.1 = n /\ nibbles e.1 /\ take d e.1 = path /\ e.1 !! d = Some i.

Definition family (ch : list child) : list entry := concat (entries <$> ch).

Lemma family_snoc ch c : family (ch ++ [c]) = family ch ++ entries c.
Proof. unfold family. rewrite fmap_app, concat_app. simpl. by rewrite app_nil_r. Qed.

Lemma below_all n d path i l : Forall (under n d path i) l -> below d i l = l.
Proof.
  intros Hf. unfold below. induction Hf as [|e l (_ & _ & _ & He) _ IH]; [done|].
  rewrite filter_cons, decide_True by done. by rewrite IH.
Qed.

Lemma below_none n d path i j l : Forall (under n d path i) l -> i <> j -> below d j l = [].
Proof.
  intros Hf Hne. unfold below. induction Hf as [|e l (_ & _ & _ & He) _ IH]; [done|].
  rewrite filter_cons, decide_False; [done|]. rewrite He. congruence.
Qed.

Lemma below_app d i l l' : below d i (l ++ l') = below d i l ++ below d i l'.
Proof. apply filter_app. Qed.

Section branches.
Context {KK : Keccak} {RS : RlpStream}.
Context (n : nat).

(** [r] refers to the node for [l], whose keys agree up to [x]. *)
Definition Ref (x : nat) (l : list entry) (r : Bytes) : Prop :=
  exists rlp, (forall fuel, (n - x < fuel)%nat -> mpt fuel x l = Some rlp) /\
    r = hash_builder.node_ref rlp.

Definition child_ok (d : nat) (path : list Z) (c : child) : Prop :=
  entries c <> [] /\ Forall (under n d path (digit c)) (entries c) /\
  Ref (S d) (entries c) (reference c).

Lemma below_family_not d path j ch : Forall (child_ok d path) ch -> j ∉ digit <$> ch ->
  below d j (family ch) = [].
Proof.
  induction 1 as [|c ch (_ & Hu & _) _ IH]; intros Hj; [done|].
  change (family (c :: ch)) with (entries c ++ family ch).
  rewrite fmap_cons in Hj. apply not_elem_of_cons in Hj as [Hne Hj].
  rewrite below_app, (below_none n d path (digit c)), IH; done.
Qed.

(** The items of the branch, by its mask and by its entries, are the same. *)
Lemma items_reference k d path fuel ch : (k + d = 16)%nat -> from_digit d ch ->
  forall x, Forall (child_ok x path) ch -> (n - S x < fuel)%nat ->
  forall before, (forall j, (d <= j)%nat -> below x (Z.of_nat j) before = []) ->
  mapM (fun i : nat =>
    match below x (Z.of_nat i) (before ++ family ch) with
    | [] => Some RlpEmpty
    | g => rlp ← mpt fuel (S x) g; Some (RlpRaw (hash_builder.node_ref rlp))
    end) (seq d k) = Some (items_from k d ch).
Proof.
  revert d ch. induction k as [|k IH]; intros d ch Hk Hf x Hok Hfuel before Hb; [done|].
  cbn [seq mapM]. rewrite below_app, (Hb d) by lia. cbn [app].
  destruct ch as [|c ch]; cbn [items_from].
  - change (below x (Z.of_nat d) (family [])) with (@nil entry).
    cbn [mbind option_bind]. rewrite (IH (S d) []); try done; try lia.
    + split; constructor.
    + intros j Hj. apply Hb. lia.
  - destruct (Z.eqb_spec (digit c) (Z.of_nat d)) as [E|E].
    + pose proof Hok as [(Hne & Hu & (rlp & Hm & Hr)) Hok']%Forall_cons.
      change (family (c :: ch)) with (entries c ++ family ch).
      rewrite below_app, (below_family_not x path _ ch Hok').
      2:{ apply from_digit_not. by eapply from_digit_head. }
      rewrite app_nil_r, <- E, (below_all n x path) by done.
      destruct (entries c) as [|e es] eqn:Ec; [done|].
      rewrite Hm by done. cbn [mbind option_bind]. rewrite app_assoc.
      rewrite (IH (S d) ch); [|lia|by eapply from_digit_head|done|lia|].
      { rewrite Hr. done. }
      intros j Hj. rewrite below_app, Hb by lia. cbn [app].
      apply (below_none n x path (digit c)); [done|]. lia.
    + pose proof (from_digit_weaken d c ch Hf E) as Hf'.
      rewrite (below_family_not x path) by (done || by apply from_digit_not).
      cbn [mbind option_bind]. rewrite (IH (S d) (c :: ch)); [done|lia|done|done|lia|].
      intros j Hj. apply Hb. lia.
Qed.

(** The RLP of a branch by its children. *)
Definition branch_rlp (ch : list child) : Bytes :=
  rlp_out (RlpListOf (items_from 16 0 ch ++ [RlpEmpty])).

Lemma family_under d path ch : Forall (child_ok d path) ch ->
  Forall (fun e => length e.1 = n /\ nibbles e.1 /\ take d e.1 = path) (family ch).
Proof.
  induction 1 as [|c ch (_ & Hu & _) _ IH]; [constructor|].
  change (family (c :: ch)) with (entries c ++ family ch). apply Forall_app_2; [|done].
  eapply Forall_impl; [done|]. intros e (? & ? & ? & _). done.
Qed.

(** The keys of a branch with two children part at the branch. *)
Lemma parting_family d path c0 ch c : digits_ok (c0 :: ch ++ [c]) ->
  Forall (child_ok d path) (c0 :: ch ++ [c]) ->
  exists k v rest, family (c0 :: ch ++ [c]) = (k, v) :: rest /\ rest <> [] /\ take d k = path /\
    parting (family (c0 :: ch ++ [c])) = d.
Proof.
  intros [_ Hs] Hok. apply Forall_cons in Hok as [(Hne0 & Hu0 & _) Hok].
  apply Forall_app in Hok as [_ [(Hne & Hu & _) _]%Forall_cons].
  rewrite app_comm_cons, family_snoc. change (family (c0 :: ch)) with (entries c0 ++ family ch).
  destruct (entries c0) as [|[k0 v0] es]; [done|].
  destruct (exists_last Hne) as (es' & [k1 v1] & El). rewrite El in Hu |- *.
  apply Forall_cons in Hu0 as [(_ & _ & Ht0 & Hd0) _].
  apply Forall_app in Hu as [_ [(_ & _ & Ht1 & Hd1) _]%Forall_cons].
  simpl in Ht0, Hd0, Ht1, Hd1. cbn [app].
  exists k0, v0, ((es ++ family ch) ++ es' ++ [(k1, v1)]). split_and!; [done| |done|].
  { intros Hn. apply (f_equal length) in Hn. rewrite !length_app in Hn. simpl in Hn. lia. }
  unfold parting. rewrite app_comm_cons, app_assoc, last_snoc.
  apply (prefix_length_unique _ _ _ (digit c0) (digit c)); [congruence|done|done|].
  rewrite fmap_cons, fmap_app in Hs. apply StronglySorted_inv in Hs as [_ Hlt].
  apply Forall_app in Hlt as [_ [Hlt _]%Forall_cons]. simpl in Hlt. lia.
Qed.

(** The node for the entries of a branch, from any position up to it. *)
Lemma mpt_branch d path ch c x fuel : (d < n)%nat -> ch <> [] -> digits_ok (ch ++ [c]) ->
  Forall (child_ok d path) (ch ++ [c]) -> (x <= d)%nat -> (n - x < fuel)%nat ->
  mpt fuel x (family (ch ++ [c])) =
    (if (x =? d)%nat then Some (branch_rlp (ch ++ [c]))
     else hash_builder.extension_node_rlp (drop x path)
            (hash_builder.node_ref (branch_rlp (ch ++ [c])))).
Proof.
  intros Hdn Hch Hd Hok Hx Hfuel. destruct ch as [|c0 ch]; [done|]. cbn [app] in *.
  destruct (parting_family d path c0 ch c Hd Hok) as (k & v & rest & Hfam & Hrest & Hpath & Hpart).
  destruct fuel as [|fuel]; [lia|]. destruct rest as [|e rest]; [done|].
  pose proof (items_reference 16 0 path fuel (c0 :: ch ++ [c]) eq_refl (digits_from _ Hd) d Hok
    ltac:(lia) [] ltac:(done)) as Hitems. cbn [app] in Hitems.
  rewrite Hfam in *. cbn [mpt]. rewrite Hpart. destruct e as [k' v'].
  rewrite Hitems. cbn [mbind option_bind].
  fold (branch_rlp (c0 :: ch ++ [c])). destruct (x =? d)%nat; [done|].
  rewrite take_drop_commute. replace (x + (d - x))%nat with d by lia. by rewrite Hpath.
Qed.

(** The nodes of a single entry. *)
Lemma Ref_leaf x k v rlp : hash_builder.leaf_node_rlp (drop x k) v = Some rlp ->
  Ref x [(k, v)] (hash_builder.node_ref rlp).
Proof. intros Hl. exists rlp. split; [|done]. intros [|fuel] Hf; [lia|]. done. Qed.

Lemma leaf_total k v x : nibbles k -> is_Some (hash_builder.leaf_node_rlp (drop x k) v).
Proof.
  intros Hk. unfold hash_builder.leaf_node_rlp.
  destruct (encode_path_total (drop x k) true (nibbles_drop x k Hk)) as [p ->]. by eexists.
Qed.

Lemma extension_total p r : nibbles p -> is_Some (hash_builder.extension_node_rlp p r).
Proof.
  intros Hk. unfold hash_builder.extension_node_rlp.
  destruct (encode_path_total p false Hk) as [bs ->]. by eexists.
Qed.

End branches.

(** ** The open branches of the builder *)

(** The open branches, innermost first: their depth and the children they have. *)
Abbreviation branches := (list (nat * list child)).

Fixpoint enc (os : branches) : list Z :=
  match os with
  | [] => []
  | (d, ch) :: os => resize0 (enc os) d ++ [mask ch]
  end.

Fixpoint refs_of (os : branches) : list Bytes :=
  match os with
  | [] => []
  | (d, ch) :: os => refs_of os ++ (reference <$> ch)
  end.

(** The entries under the open branches. *)
Fixpoint listed (os : branches) : list entry :=
  match os with
  | [] => []
  | (d, ch) :: os => listed os ++ family ch
  end.

(** The depth of the innermost branch is below [m]. *)
Definition within (m : nat) (os : branches) : Prop :=
  match os with [] => True | (d, _) :: _ => (d < m)%nat end.

(** A child is added to the innermost branch, or opens a branch. *)
Definition graft (os : branches) (d : nat) (c : child) : branches :=
  match os with
  | (d', ch) :: os' => if (d' =? d)%nat then (d, ch ++ [c]) :: os' else (d, [c]) :: os
  | [] => [(d, [c])]
  end.

Lemma length_resize0 v n : length (resize0 v n) = n.
Proof. unfold resize0. rewrite length_app, length_take, length_replicate. lia. Qed.

Lemma resize0_app v n w : resize0 (resize0 v n ++ w) n = resize0 v n.
Proof.
  unfold resize0 at 1. rewrite take_app_le by (rewrite length_resize0; lia).
  rewrite take_ge by (rewrite length_resize0; lia).
  rewrite length_app, length_resize0. replace (n - (n + length w))%nat with O by lia.
  by rewrite app_nil_r.
Qed.

Lemma resize0_replicate t n : resize0 (replicate t 0) n = replicate n 0.
Proof.
  unfold resize0. rewrite take_replicate, length_replicate, <- replicate_add. f_equal. lia.
Qed.

Lemma resize0_grow v n : (length v <= n)%nat -> resize0 v (n + 1) = resize0 v n ++ [0].
Proof.
  intros Hl. unfold resize0. rewrite !take_ge by lia. rewrite <- app_assoc. f_equal.
  replace (n + 1 - length v)%nat with (S (n - length v)) by lia. by rewrite replicate_S_end.
Qed.

Lemma length_enc d ch os : length (enc ((d, ch) :: os)) = S d.
Proof. simpl. rewrite length_app, length_resize0. simpl. lia. Qed.

Lemma enc_within m os : within m os -> (length (enc os) <= m)%nat.
Proof. destruct os as [|[d ch] os]; [simpl; lia|]. rewrite length_enc. simpl. lia. Qed.

Lemma or_at_end v w x : or_at (v ++ [w]) (length v) x = Some (v ++ [Z.lor w x]).
Proof.
  unfold or_at. rewrite list_lookup_middle by done. simpl. f_equal.
  rewrite insert_app_r_alt by lia. rewrite Nat.sub_diag. done.
Qed.

(** The mask of the branch that gets a child. *)
Lemma enc_graft os len c : (length (enc os) - 1 <= len)%nat ->
  (match os with (d, _) :: os' => within d os' | [] => True end) ->
  or_at (if (length (enc os) <=? len)%nat then resize0 (enc os) (len + 1) else enc os) len
    (Z.shiftl 1 (digit c)) = Some (enc (graft os len c)).
Proof.
  intros Hl Hw. destruct (Nat.leb_spec (length (enc os)) len) as [Hle|Hgt].
  - assert (enc (graft os len c) = resize0 (enc os) len ++ [mask [c]]) as ->.
    { destruct os as [|[d ch] os]; [done|]. rewrite length_enc in Hle. cbn [graft].
      rewrite (proj2 (Nat.eqb_neq _ _)) by lia. done. }
    rewrite resize0_grow by done. rewrite <- (length_resize0 (enc os) len) at 2.
    apply or_at_end.
  - destruct os as [|[d ch] os]; [simpl in Hgt; lia|]. rewrite length_enc in Hl, Hgt.
    assert (d = len) as -> by lia. cbn [graft enc]. rewrite Nat.eqb_refl. cbn [enc].
    rewrite mask_snoc. rewrite <- (length_resize0 (enc os) len) at 2. apply or_at_end.
Qed.

Lemma refs_graft os len c : refs_of (graft os len c) = refs_of os ++ [reference c].
Proof.
  destruct os as [|[d ch] os]; [done|]. cbn [graft]. destruct (d =? len)%nat; [|done].
  cbn [refs_of]. by rewrite fmap_app, app_assoc.
Qed.

Lemma listed_graft os len c : listed (graft os len c) = listed os ++ entries c.
Proof.
  destruct os as [|[d ch] os]; cbn [graft listed].
  - unfold family. simpl. by rewrite app_nil_r.
  - destruct (d =? len)%nat; cbn [listed].
    + by rewrite family_snoc, app_assoc.
    + unfold family at 2. simpl. by rewrite app_nil_r.
Qed.

(** Dropping the zeros at the end. *)
Lemma strip_zeros_replicate v x n : x <> 0 ->
  hash_builder.strip_zeros ((v ++ [x]) ++ replicate n 0) = v ++ [x].
Proof.
  intros Hx. assert (hash_builder.strip_zeros (replicate n 0) = []) as Hz.
  { induction n as [|n IH]; [done|]. simpl. by rewrite IH. }
  induction v as [|y v IH]; simpl.
  - rewrite Hz. by rewrite (proj2 (Z.eqb_neq _ _)).
  - simpl in IH. rewrite IH. by destruct v.
Qed.

Lemma sublist_inner {A} (a b l : list A) : a ++ b `sublist_of` l -> b `sublist_of` l.
Proof. intros Hs. etrans; [|exact Hs]. by apply sublist_inserts_l. Qed.

(** A branch at a depth has a child at a nibble, with a hash as its reference if [long]. *)
Definition child_at (long : bool) (os : branches) (i : nat) (d : Z) : Prop :=
  exists ch c, (i, ch) ∈ os /\ c ∈ ch /\ digit c = d /\ (long = true -> length (reference c) = 33%nat).

Lemma child_at_graft long os len c i d : child_at long os i d -> child_at long (graft os len c) i d.
Proof.
  intros (ch & c' & Hin & Hc & Hd & Hl). destruct os as [|[d' ch'] os]; [by apply elem_of_nil in Hin|].
  cbn [graft]. destruct (Nat.eqb_spec d' len) as [->|_].
  - apply elem_of_cons in Hin as [[= -> ->]|Hin].
    + exists (ch' ++ [c]), c'. split_and!; [set_solver|set_solver|done|done].
    + exists ch, c'. split_and!; [set_solver|done|done|done].
  - exists ch, c'. split_and!; [set_solver|done|done|done].
Qed.

Lemma child_at_new long os len c : (long = true -> length (reference c) = 33%nat) ->
  child_at long (graft os len c) len (digit c).
Proof.
  intros Hl. destruct os as [|[d' ch'] os]; cbn [graft]; [|destruct (d' =? len)%nat].
  - exists [c], c. split_and!; [set_solver|set_solver|done|done].
  - exists (ch' ++ [c]), c. split_and!; [set_solver|set_solver|done|done].
  - exists [c], c. split_and!; [set_solver|set_solver|done|done].
Qed.

Lemma child_at_inner long os d ch i j : (forall i ch, (i, ch) ∈ os -> (i < d)%nat) ->
  child_at long ((d, ch) :: os) i j -> if (i =? d)%nat then exists c, c ∈ ch /\ digit c = j /\
    (long = true -> length (reference c) = 33%nat) else child_at long os i j.
Proof.
  intros Hb (ch' & c & Hin & Hc & Hj & Hl). apply elem_of_cons in Hin as [[= -> ->]|Hin].
  - rewrite Nat.eqb_refl. by exists c.
  - pose proof (Hb i ch' Hin). rewrite (proj2 (Nat.eqb_neq _ _)) by lia. by exists ch', c.
Qed.

Section builder.
Context {KK : Keccak} {RS : RlpStream}.
Context (n : nat).
(** Whether nodes are collected, and the entries; the node of two entries or more has a
    hash for its reference when they are. *)
Context (col : bool) (L : list entry).
Context (wide : col = true -> forall x g rlp fuel, (2 <= length g)%nat -> g `sublist_of` L ->
  mpt fuel x g = Some rlp -> (KECCAK_LENGTH <= length rlp)%nat).

(** The open branches before the key [k]: their paths are prefixes of [k] and their
    children come before it. *)
Fixpoint open_ok (k : list Z) (os : branches) : Prop :=
  match os with
  | [] => True
  | (d, ch) :: os =>
      (d < n)%nat /\ ch <> [] /\ digits_ok ch /\ Forall (child_ok n d (take d k)) ch /\
      Forall (fun c => exists x, k !! d = Some x /\ digit c < x) ch /\
      within d os /\ open_ok k os
  end.

Definition flat (h : HashBuilder) (g : list Z) (s : list Bytes) : Prop :=
  (if col then is_Some (node_collector h) else node_collector h = None) /\ groups h = g /\ stack h = s.

(** The bits of the masks are children of the open branches, and the last branch that was
    closed. *)
Definition marks (long : bool) (os : branches) (top : option (nat * Z)) (i : nat) (d : Z) : Prop :=
  child_at long os i d \/ top = Some (i, d).

Definition masks (h : HashBuilder) (os : branches) (top : option (nat * Z)) (t : nat) : Prop :=
  length (tree_masks h) = t /\ length (hash_masks h) = t /\
  levels_in (tree_masks h) (marks false os top) /\ levels_in (hash_masks h) (marks col os top).

Definition top_of (be : bool) (m : nat) (k : list Z) : option (nat * Z) :=
  match be, m with true, S j => (fun x => (j, x)) <$> k !! j | _, _ => None end.

(** The entries [P] that come after the open branches and agree with [k] up to [m]:
    a leaf that is not pushed yet, or a branch on top of the stack. *)
Definition pending (h : HashBuilder) (k : list Z) (m : nat) (be : bool) (P : list entry)
    (base : list Bytes) : Prop :=
  P <> [] /\
  Forall (fun e => length e.1 = n /\ nibbles e.1 /\ take m e.1 = take m k) P /\
  if be then
    exists b, stack h = base ++ [hash_builder.node_ref b] /\
      (col = true -> length (hash_builder.node_ref b) = 33%nat) /\
      forall x fuel, (x <= m)%nat -> (n - x < fuel)%nat ->
        mpt fuel x P = if (x =? m)%nat then Some b
                       else hash_builder.extension_node_rlp (drop x (take m k))
                              (hash_builder.node_ref b)
  else m = n /\ exists v, P = [(k, v)] /\ stack h = base /\ value h = ValueBytes v.

Lemma strip_enc k os d : open_ok k os -> within d os ->
  hash_builder.strip_zeros (resize0 (enc os) d) = enc os.
Proof.
  intros Hok Hw. pose proof (enc_within d os Hw) as Hl. unfold resize0. rewrite take_ge by done.
  destruct os as [|[d' ch] os].
  - simpl. clear. induction (d - 0)%nat as [|j IH]; [done|]. simpl. by rewrite IH.
  - cbn [enc]. apply strip_zeros_replicate. destruct Hok as (_ & Hne & [Hd _] & _).
    by apply mask_nonzero.
Qed.

Lemma open_below k os d : open_ok k os -> within d os -> forall i ch, (i, ch) ∈ os -> (i < d)%nat.
Proof.
  revert d. induction os as [|[d' ch'] os IH]; intros d Hok Hw i ch Hin; [by apply elem_of_nil in Hin|].
  destruct Hok as (_ & _ & _ & _ & _ & Hw' & Hok). simpl in Hw.
  apply elem_of_cons in Hin as [[= -> ->]|Hin]; [done|]. pose proof (IH d' Hok Hw' i ch Hin). lia.
Qed.

Lemma node_ref_long rlp : (KECCAK_LENGTH <= length rlp)%nat -> length (hash_builder.node_ref rlp) = 33%nat.
Proof.
  intros Hl. unfold hash_builder.node_ref. rewrite (proj2 (Nat.ltb_ge _ _)) by done.
  unfold wrap_hash. cbn [length]. by rewrite length_be_bytes.
Qed.

(** The masks after a child is grafted. *)
Lemma marks_graft long os len c top i d : marks long os top i d ->
  (top = Some (i, d) -> i = len /\ d = digit c /\ (long = true -> length (reference c) = 33%nat)) ->
  marks long (graft os len c) None i d.
Proof.
  intros [Hm|Hm] Ht; left; [by apply child_at_graft|]. destruct (Ht Hm) as (-> & -> & Hl). by apply child_at_new.
Qed.

(** The masks above an extension. *)
Lemma extend_masks h os len c m k x t be (op : bool) lf : masks h os (top_of be m k) t -> digit c = x -> 0 <= x < 16 ->
  k !! len = Some x -> lf = (if op then S len else len) -> (op = false -> len = O) -> (lf < m)%nat -> (m <= t)%nat ->
  (m <= length k)%nat -> (if col then is_Some (node_collector h) else node_collector h = None) ->
  exists h1, (match node_collector h with
       | Some _ =>
           if (0 <? lf)%nat then
             d ← take m k !! (lf - 1)%nat;
             flag ← bit16 d;
             hash ← clear_at (hash_masks h) (lf - 1) flag;
             t ← tree_masks h !! (length (take m k) - 1)%nat;
             tree ← (if negb (t =? 0) then or_at (tree_masks h) (lf - 1) flag
                     else Some (tree_masks h));
             Some (hash_builder.with_masks h (groups h) tree hash)
           else Some h
       | None => Some h
       end) = Some h1 /\
    node_collector h1 = node_collector h /\ groups h1 = groups h /\ stack h1 = stack h /\
    levels_in (resize0 (tree_masks h1) lf) (marks false (graft os len c) None) /\
    levels_in (resize0 (hash_masks h1) lf) (marks col (graft os len c) None).
Proof.
  intros (Ht & Hh & Htl & Hhl) Hc Hx Hk Hlf Hop Hm Hmt Hmk Hcol.
  assert (forall long l, levels_in l (fun i d => marks long os (top_of be m k) i d \/ marks long (graft os len c) None i d) ->
    levels_in (resize0 l lf) (marks long (graft os len c) None)) as Hres.
  { intros long l Hl. apply (levels_resize _ _ lf) in Hl. eapply levels_weaken; [exact Hl|].
    intros i d _ [Hi [Hd|Hd]]; [|done]. eapply marks_graft; [exact Hd|]. unfold top_of. destruct be; [|done].
    destruct m as [|j]; [done|]. destruct (k !! j); [|done]. intros [= <- _]. lia. }
  assert (forall long l, levels_in l (marks long os (top_of be m k)) ->
    levels_in l (fun i d => marks long os (top_of be m k) i d \/ marks long (graft os len c) None i d)) as Hl0.
  { intros long l Hl. eapply levels_weaken; [exact Hl|]. intros; by left. }
  assert (exists h1, Some h = Some h1 /\ node_collector h1 = node_collector h /\ groups h1 = groups h /\ stack h1 = stack h /\
    levels_in (resize0 (tree_masks h1) lf) (marks false (graft os len c) None) /\
    levels_in (resize0 (hash_masks h1) lf) (marks col (graft os len c) None)) as Hsame.
  { exists h. split_and!; [done..| |]; by apply Hres, Hl0. }
  destruct (node_collector h) eqn:Ec; [|exact Hsame].
  destruct (Nat.ltb_spec 0 lf) as [H0|H0]; [|exact Hsame].
  destruct op; [|rewrite Hop in Hlf by done; lia]. subst lf. replace (S len - 1)%nat with len by lia.
  rewrite lookup_take_lt, Hk by lia. cbn [mbind option_bind]. unfold bit16. rewrite (proj2 (Z.ltb_lt _ _)) by lia.
  cbn [mbind option_bind]. destruct (levels_clear _ _ len (Z.shiftl 1 x) (Hl0 _ _ Hhl)) as (hm & -> & Hhm & _); [lia|].
  cbn [mbind option_bind]. rewrite length_take, Nat.min_l by lia.
  destruct (lookup_lt_is_Some_2 (tree_masks h) (m - 1) ltac:(lia)) as [v ->]. cbn [mbind option_bind].
  destruct (levels_or _ _ len x (Hl0 _ _ Htl)) as (tm & Etm & Htm & _ & _); [lia|lia|right; left; rewrite <- Hc; by apply child_at_new|].
  destruct (negb (v =? 0)); [rewrite Etm|]; cbn [mbind option_bind]; eexists;
    (split_and!; [done..| |]); apply Hres; [done|done|by apply Hl0|done].
Qed.
(** The leaf is pushed or the branch gets its extension: the top of the stack is
    the node for the pending entries from [lf] on. *)
Lemma advance h k m be P os g s t lf len (op : bool) x : length k = n -> nibbles k ->
  flat h g s -> masks h os (top_of be m k) t -> pending h k m be P (refs_of os) ->
  k !! len = Some x -> lf = (if op then S len else len) -> (op = false -> len = O) -> (len < m)%nat ->
  (m <= t)%nat -> (m <= n)%nat ->
  exists h0 be0 h1 r t1,
    (if be then Some (h, true)
     else hash_builder.push_value h (take m k) (drop lf (take m k))) = Some (h0, be0) /\
    (if be0 && negb (length (drop lf (take m k)) =? 0)%nat
     then hash_builder.extend h0 (take m k) (drop lf (take m k)) lf else Some h0) = Some h1 /\
    flat h1 g (refs_of os ++ [r]) /\
    masks h1 (graft os len {| digit := x; entries := P; reference := r |}) None t1 /\
    (lf <= t1)%nat /\ Ref n lf P r.
Proof.
  intros Hlk Hk (Hc & Hg & Hs) Hmask (Hne & _ & Hp) Hx Hlf Hop Hlm Hmt Hmn.
  assert (0 <= x < 16) as Hx16 by (unfold nibbles in Hk; rewrite Forall_lookup in Hk; eauto).
  assert (lf <= m)%nat as Hlfm by (destruct op; lia). destruct be.
  - destruct Hp as (b & Hst & Hlong & Hm). exists h, true. cbn [andb].
    rewrite length_drop, length_take.
    destruct (Nat.eqb_spec (Nat.min m (length k) - lf) 0) as [E|E]; cbn [negb].
    + exists h, (hash_builder.node_ref b), t. destruct op; [|lia]. assert (m = S len) as -> by lia.
      split_and!; try done; [..|lia|].
      * destruct Hmask as (Ht & Hh & Htl & Hhl). cbn [top_of] in Htl, Hhl. rewrite Hx in Htl, Hhl.
        split_and!; [done|done| |]; eapply levels_weaken; try done; intros i d _ Hd;
          (eapply marks_graft; [exact Hd|]); by intros [= <- <-].
      * exists b. split; [|done]. intros fuel Hf. rewrite Hm by lia.
        rewrite (proj2 (Nat.eqb_eq _ _)) by lia. done.
    + destruct (extension_total (drop lf (take m k)) (hash_builder.node_ref b)
        ltac:(apply nibbles_drop, nibbles_take, Hk)) as [rlp Hrlp].
      destruct (extend_masks h os len {| digit := x; entries := P; reference := hash_builder.node_ref rlp |} m k x t
        true op lf) as (h1 & Hh1 & Hc1 & Hg1 & Hs1 & Ht1 & Hm1); try done; try lia.
      unfold hash_builder.extend. rewrite Hh1. cbn [mbind option_bind].
      rewrite Hs1, Hst, last_snoc. cbn [mbind option_bind]. rewrite Hrlp. cbn [mbind option_bind].
      eexists _, (hash_builder.node_ref rlp), lf. split; [done|]. split; [done|].
      unfold flat, masks. split_and!; simpl; rewrite ?Hc1, ?Hg1, ?removelast_last, ?length_resize0; try done.
      exists rlp. split; [|done]. intros fuel Hf. rewrite Hm by lia.
      rewrite (proj2 (Nat.eqb_neq _ _)) by lia. done.
  - destruct Hp as (-> & v & -> & Hst & Hv). rewrite (take_ge k) by lia.
    destruct (leaf_total k v lf Hk) as [rlp Hrlp]. unfold hash_builder.push_value. rewrite Hv, Hrlp.
    cbn [mbind option_bind]. eexists _, false. cbn [andb].
    eexists _, (hash_builder.node_ref rlp), t. split; [done|]. split; [done|].
    unfold flat, masks. split_and!; simpl; rewrite ?Hst; try done; try lia; [by apply Hmask..| | |by apply Ref_leaf];
      (eapply levels_weaken; [apply Hmask|]); intros i d _ Hd; by eapply marks_graft.
Qed.

(** The pending entries are under the nibble of the key. *)
Lemma pending_child h k m be P base d x r : pending h k m be P base -> (d < m)%nat ->
  k !! d = Some x -> Ref n (S d) P r ->
  child_ok n d (take d k) {| digit := x; entries := P; reference := r |}.
Proof.
  intros (Hne & Hf & _) Hd Hx Hr. split_and!; [done| |done]. simpl.
  eapply Forall_impl; [exact Hf|]. intros e (Hl & Hn & Ht). split_and!; try done.
  - transitivity (take d (take m e.1)); [by rewrite take_take, Nat.min_l by lia|].
    rewrite Ht, take_take, Nat.min_l by lia. done.
  - transitivity (take m e.1 !! d); [by rewrite lookup_take_lt by lia|].
    rewrite Ht, lookup_take_lt by lia. done.
Qed.

Definition nested (os : branches) : Prop :=
  match os with [] => True | (d, _) :: os' => within d os' end.

Lemma open_nested k os : open_ok k os -> nested os.
Proof. destruct os as [|[d ch] os]; [done|]. intros (_ & _ & _ & _ & _ & Hw & _). done. Qed.

Lemma digits_snoc ch c : digits_ok ch -> 0 <= digit c < 16 ->
  Forall (fun c' => digit c' < digit c) ch -> digits_ok (ch ++ [c]).
Proof.
  intros [Hd1 Hd2] Hc Hlt. split; [apply Forall_app_2; auto|]. rewrite fmap_app.
  apply StronglySorted_app_2; [|done|repeat constructor].
  intros a b Ha ->%list_elem_of_singleton. apply list_elem_of_fmap in Ha as (c' & -> & Hin).
  rewrite Forall_forall in Hlt. by apply Hlt.
Qed.

(** The end of a round: the branch at [len] is closed. *)
Definition finish_round (h : HashBuilder) (current : list Z) (len preceding_len : nat) (open : bool)
    : option (HashBuilder * option (list Z)) :=
  h ← (if open then hash_builder.close_branch h current len else Some h);
  let g := resize0 (groups h) len in
  let h := hash_builder.with_masks h g (resize0 (tree_masks h) len) (resize0 (hash_masks h) len) in
  if (preceding_len =? 0)%nat then Some (h, None)
  else Some (hash_builder.with_masks h (hash_builder.strip_zeros g) (tree_masks h) (hash_masks h),
             Some (take preceding_len current)).

(** A round up to the decision whether the branch stays open. *)
Lemma round_start h k m be P os t succ len x :
  length k = n -> nibbles k -> (m <= n)%nat ->
  flat h (enc os) (stack h) -> masks h os (top_of be m k) t -> pending h k m be P (refs_of os) -> nested os ->
  len = Nat.max (length (enc os) - 1) (prefix_length succ (take m k)) -> (len < m)%nat ->
  k !! len = Some x ->
  let open := negb (length succ =? 0)%nat || negb (length (enc os) =? 0)%nat in
  exists h1 r t1,
    let c := {| digit := x; entries := P; reference := r |} in
    hash_builder.struct_round h succ (take m k) be =
      (if (length (enc os) - 1 <=? prefix_length succ (take m k))%nat &&
          negb (length succ =? 0)%nat
       then Some (h1, None)
       else finish_round h1 (take m k) len (length (enc os) - 1) open) /\
    flat h1 (enc (graft os len c)) (refs_of os ++ [r]) /\ masks h1 (graft os len c) None t1 /\
    Ref n (if open then S len else len) P r /\ ((if open then S len else len) <= t1)%nat.
Proof.
  intros Hlk Hk Hm (Hc & Hg & _) Hmask Hp Hnest Hlen Hlt Hx open.
  assert (length (take m k) = m) as Hlm by (rewrite length_take; lia).
  assert (0 <= x < 16) as Hx16 by (unfold nibbles in Hk; rewrite Forall_lookup in Hk; eauto).
  set (lf := if open then S len else len).
  set (c := {| digit := x; entries := P; reference := [] |}).
  set (t0 := if (t <? m)%nat then m else t). pose proof Hmask as (Ht & Hh & Htl & Hhl).
  set (tm := if (t <? m)%nat then resize0 (tree_masks h) m else tree_masks h).
  set (hm := if (t <? m)%nat then resize0 (hash_masks h) m else hash_masks h).
  set (h0 := hash_builder.with_masks h (enc (graft os len c)) tm hm).
  assert (m <= t0)%nat as Ht0 by (unfold t0; destruct (Nat.ltb_spec t m); lia).
  assert (masks h0 os (top_of be m k) t0) as Hm0.
  { unfold t0, h0, tm, hm. destruct (t <? m)%nat; [|done]. split_and!; simpl; rewrite ?length_resize0; try done;
      (eapply levels_weaken; [by apply levels_resize|]); by intros i d _ [_ Hd]. }
  destruct (advance h0 k m be P os (enc (graft os len c)) (stack h) t0 lf len open x)
    as (ha & bea & h1 & r & t1 & Ha & Hb & Hflat & Hmask1 & Ht1 & Hr); try done; try lia.
  { unfold open. intros [E1 E2]%orb_false_iff. apply negb_false_iff, Nat.eqb_eq in E1, E2.
    destruct succ; [|done]. simpl in Hlen. lia. }
  exists h1, r, t1. cbv zeta. split_and!; try done.
  2:{ destruct Hflat as (? & Hg1 & ?). split_and!; try done. rewrite Hg1.
      by destruct os as [|[d ch] os']; cbn [graft]; [|destruct (d =? len)%nat; cbn [enc]];
        rewrite ?mask_snoc. }
  unfold hash_builder.struct_round. rewrite Hg, <- Hlen, Hlm.
  rewrite (proj2 (Nat.ltb_lt _ _) Hlt). cbn [negb].
  rewrite lookup_take_lt, Hx by done. cbn [mbind option_bind]. unfold bit16 at 1.
  rewrite (proj2 (Z.ltb_lt _ _)) by lia. cbn [mbind option_bind].
  change (Z.shiftl 1 x) with (Z.shiftl 1 (digit c)).
  rewrite enc_graft by (done || lia). cbn [mbind option_bind]. rewrite Ht.
  assert ((if (t <? m)%nat then (resize0 (tree_masks h) m, resize0 (hash_masks h) m)
    else (tree_masks h, hash_masks h)) = (tm, hm)) as -> by (unfold tm, hm; by destruct (t <? m)%nat).
  fold h0. fold open. replace (len + 1)%nat with (S len) by lia. fold lf.
  rewrite Ha. cbn [mbind option_bind]. rewrite Hb. cbn [mbind option_bind]. done.
Qed.

Lemma subset_mask v ch : digits_ok ch -> bits_in v (fun j => exists c, c ∈ ch /\ digit c = j) ->
  assert_subset v (mask ch) = Some ().
Proof.
  intros [Hd _] [H0 Hv]. unfold assert_subset. assert (Z.land v (mask ch) = v) as ->; [|by rewrite Z.eqb_refl].
  apply Z.bits_inj'. intros j Hj. rewrite Z.land_spec. destruct (Z.testbit v j) eqn:E; [|done]. cbn [andb].
  destruct (Hv j E) as (c & Hc & <-). rewrite testbit_mask by done. apply bool_decide_eq_true.
  apply list_elem_of_fmap. eauto.
Qed.

Lemma child_hash_values_total l : Forall (fun c => length (reference c) = 33%nat) l ->
  exists hs, hash_builder.child_hash_values (reference <$> l) = Some hs /\ length hs = length l.
Proof.
  induction 1 as [|c l Hc _ (hs & IH & Hl)]; [by exists []|]. rewrite fmap_cons. cbn [hash_builder.child_hash_values].
  rewrite Hc. change (33 =? KECCAK_LENGTH + 1)%nat with true. rewrite IH. cbn [mbind option_bind].
  eexists. split; [done|]. cbn [length]. by rewrite Hl.
Qed.

(** The node of a closed branch passes the checks when it is collected. *)
Lemma node_total ch tm hm : digits_ok ch -> bits_in tm (fun j => exists c, c ∈ ch /\ digit c = j) ->
  bits_in hm (fun j => exists c, c ∈ ch /\ digit c = j /\ length (reference c) = 33%nat) ->
  exists hs nd, hash_builder.child_hash_values (reference <$> chosen hm ch) = Some hs /\
    Node_new (mask ch) tm hm hs None = Some nd.
Proof.
  intros Hd Ht Hh.
  assert (bits_in hm (fun j => exists c, c ∈ ch /\ digit c = j)) as Hh'.
  { eapply bits_weaken; [exact Hh|]. intros j (c & Hc & Hj & _). eauto. }
  destruct (child_hash_values_total (chosen hm ch)) as (hs & Hhs & Hl).
  { apply Forall_forall. intros c [Hb Hc]%list_elem_of_filter. destruct Hh as [_ Hh].
    destruct (Hh _ Hb) as (c' & Hc' & Hdig & Hlen). assert (c' = c) as ->; [|done].
    destruct Hd as [_ Hs]. clear -Hc Hc' Hdig Hs. induction ch as [|a ch IH]; [by apply elem_of_nil in Hc|].
    simpl in Hs. apply StronglySorted_inv in Hs as [Hs Hlt]. rewrite Forall_fmap, Forall_forall in Hlt.
    apply elem_of_cons in Hc as [->|Hc], Hc' as [->|Hc']; [done| | |by apply IH].
    - specialize (Hlt _ Hc'). simpl in Hlt. lia.
    - specialize (Hlt _ Hc). simpl in Hlt. lia. }
  exists hs. unfold Node_new. rewrite !subset_mask by done. cbn [mbind option_bind].
  rewrite (count_ones_chosen hm ch), Hl, Nat.eqb_refl by (try done; apply Hh'). eauto.
Qed.

Ltac open_masks := cbn [mbind option_bind tree_masks hash_masks groups hash_builder.with_masks hash_builder.with_stack].

(** Closing a branch: its children on the stack become its reference. *)
Lemma close_branch_spec h current os d ch t : digits_ok ch -> (d < t)%nat ->
  (forall i ch, (i, ch) ∈ os -> (i < d)%nat) -> (d <= length current)%nat -> nibbles current ->
  flat h (enc ((d, ch) :: os)) (refs_of ((d, ch) :: os)) -> masks h ((d, ch) :: os) None t ->
  exists h1, hash_builder.close_branch h current d = Some h1 /\
    flat h1 (enc ((d, ch) :: os)) (refs_of os ++ [hash_builder.node_ref (branch_rlp ch)]) /\
    masks h1 ((d, ch) :: os) (top_of true d current) t.
Proof.
  intros Hd Ht Hbelow Hcur Hnib (Hc & Hg & Hs) (Htt & Hht & Htl & Hhl). unfold hash_builder.close_branch.
  assert (groups h !! d = Some (mask ch)) as Hgd.
  { rewrite Hg. cbn [enc]. apply list_lookup_middle. by rewrite length_resize0. }
  rewrite Hgd. cbn [mbind option_bind].
  destruct (lookup_lt_is_Some_2 (hash_masks h) d ltac:(lia)) as [hm Hhm].
  destruct (lookup_lt_is_Some_2 (tree_masks h) d ltac:(lia)) as [tm Htm]. rewrite Hhm. cbn [mbind option_bind].
  assert (forall long v, bits_in v (marks long ((d, ch) :: os) None d) ->
    bits_in v (fun j => exists c, c ∈ ch /\ digit c = j /\ (long = true -> length (reference c) = 33%nat))) as Hin.
  { intros long v Hv. eapply bits_weaken; [exact Hv|]. intros j [Hj|?]; [|done].
    apply child_at_inner in Hj; [|done]. by rewrite Nat.eqb_refl in Hj. }
  assert (forall long v, bits_in v (marks long ((d, ch) :: os) None d) -> bits_in v (fun j => exists c, c ∈ ch /\ digit c = j)) as Hin'.
  { intros long v Hv%Hin. eapply bits_weaken; [exact Hv|]. intros j (c & ? & ? & _). eauto. }
  pose proof (Hhl d hm Hhm) as Hhb. pose proof (Htl d tm Htm) as Htb.
  unfold hash_builder.branch_ref. rewrite (subset_mask hm) by (try done; by eapply Hin'). cbn [mbind option_bind].
  rewrite count_ones_mask by done. rewrite Hs. cbn [refs_of].
  rewrite length_app, length_fmap.
  destruct (Nat.ltb_spec (length (refs_of os) + length ch) (length ch)); [lia|].
  replace (length (refs_of os) + length ch - length ch)%nat with (length (refs_of os)) by lia.
  rewrite drop_app_length, take_app_length.
  rewrite (branch_items_spec _ _ _ hm) by (done || by apply digits_from || by apply mask_agrees).
  cbn [mbind option_bind]. fold (branch_rlp ch).
  set (top := top_of true d current).
  assert (forall long l, levels_in l (marks long ((d, ch) :: os) None) -> levels_in l (marks long ((d, ch) :: os) top)) as Hw.
  { intros long l Hl. eapply levels_weaken; [exact Hl|]. intros i j _ [Hj|?]; [by left|done]. }
  cbn [node_collector hash_builder.with_stack]. destruct (node_collector h) as [collected|] eqn:Ecol.
  2:{ eexists. split; [done|]. unfold flat, masks. split_and!; try done; try by apply Hw. simpl. by rewrite Ecol. }
  assert (col = true) as Etrue by (destruct col; done).
  assert (bits_in hm (fun j => exists c, c ∈ ch /\ digit c = j /\ length (reference c) = 33%nat)) as Hh33.
  { eapply bits_weaken; [exact (Hin _ _ Hhb)|]. intros j (c & ? & ? & Hl). exists c. auto. }
  destruct (node_total ch tm hm Hd (Hin' _ _ Htb) Hh33) as (hs & nd & Hhs & Hnd).
  destruct (Nat.ltb_spec 0 d) as [H0|H0].
  - destruct (lookup_lt_is_Some_2 current (d - 1) ltac:(lia)) as [y Hy].
    assert (0 <= y < 16) as Hy16 by (unfold nibbles in Hnib; rewrite Forall_lookup in Hnib; eauto).
    assert (top = Some ((d - 1)%nat, y)) as Etop.
    { unfold top, top_of. destruct d as [|j]; [lia|]. replace (S j - 1)%nat with j in Hy |- * by lia. by rewrite Hy. }
    rewrite Hy. open_masks. unfold bit16. rewrite (proj2 (Z.ltb_lt _ _)) by lia.
    open_masks.
    destruct (levels_or _ _ (d - 1) y (Hw _ _ Hhl)) as (hl & Ehl & Hhl' & Hlen & Hother); [lia|lia|by right|].
    rewrite Ehl. open_masks.
    rewrite Htm, Hother, Hhm by lia. open_masks.
    destruct (negb (tm =? 0) || negb (hm =? 0)).
    + destruct (levels_or _ _ (d - 1) y (Hw _ _ Htl)) as (tl & Etl & Htl' & Htlen & _); [lia|lia|by right|].
      rewrite Etl. open_masks. rewrite Hhs. open_masks. rewrite Hgd.
      open_masks. rewrite Hnd. open_masks. eexists. split; [done|].
      unfold flat, masks. simpl.
      split_and!; try done; try lia; try (by apply Hw); rewrite Etrue; eauto.
    + eexists. split; [done|]. unfold flat, masks. simpl.
      split_and!; try done; try lia; try (by apply Hw); rewrite Etrue; eauto.
  - open_masks. rewrite Htm, Hhm. open_masks.
    destruct (negb (tm =? 0) || negb (hm =? 0)).
    + rewrite Hhs. open_masks. rewrite Hgd.
      open_masks. rewrite Hnd. open_masks. eexists. split; [done|].
      unfold flat, masks. simpl.
      split_and!; try done; try lia; try (by apply Hw); rewrite Etrue; eauto.
    + eexists. split; [done|]. unfold flat, masks. simpl.
      split_and!; try done; try lia; try (by apply Hw); rewrite Etrue; eauto.
Qed.

Lemma family_length d path ch P : Forall (child_ok n d path) ch -> ch <> [] -> P <> [] ->
  (2 <= length (family ch ++ P))%nat.
Proof.
  intros Hch Hne HP. destruct ch as [|c ch]; [done|]. apply Forall_cons in Hch as [(Hc & _) _].
  change (family (c :: ch)) with (entries c ++ family ch). rewrite !length_app.
  destruct (entries c); [done|]. destruct P; [done|]. simpl. lia.
Qed.

(** A branch is closed when the next key is outside it. *)
Lemma round_close h k m be P d ch os t succ :
  length k = n -> nibbles k -> (m <= n)%nat ->
  flat h (enc ((d, ch) :: os)) (stack h) -> masks h ((d, ch) :: os) (top_of be m k) t ->
  pending h k m be P (refs_of ((d, ch) :: os)) -> open_ok k ((d, ch) :: os) -> (d < m)%nat ->
  family ch ++ P `sublist_of` L -> (prefix_length succ (take m k) < d)%nat \/ succ = [] ->
  exists h1 t1,
    hash_builder.struct_round h succ (take m k) be =
      Some (h1, if (d =? 0)%nat then None else Some (take d k)) /\
    flat h1 (enc os) (stack h1) /\ masks h1 os (top_of true d k) t1 /\
    pending h1 k d true (family ch ++ P) (refs_of os).
Proof.
  intros Hlk Hk Hm Hflat Hmask Hp Hok Hdm HL Hsucc. pose proof Hok as (Hdn & Hne & Hdig & Hch & Hbefore & Hw & Hok').
  destruct (lookup_lt_is_Some_2 k d ltac:(lia)) as [x Hx].
  assert (prefix_length succ (take m k) <= d)%nat as Hcp.
  { destruct Hsucc as [?| ->]; [lia|]. simpl. lia. }
  destruct (round_start h k m be P ((d, ch) :: os) t succ d x) as (h1 & r & t1 & Hr & Hf & Hmask1 & HR & Ht1);
    try done; [rewrite length_enc; lia|].
  rewrite length_enc in Hr, HR, Ht1. rewrite orb_true_r in HR, Ht1. rewrite orb_true_r in Hr.
  replace (S d - 1)%nat with d in Hr by lia.
  assert ((d <=? prefix_length succ (take m k))%nat && negb (length succ =? 0)%nat = false) as E.
  { destruct Hsucc as [?| ->]; [|by rewrite andb_false_r]. by rewrite (proj2 (Nat.leb_gt _ _)). }
  rewrite E in Hr. clear E. set (c := {| digit := x; entries := P; reference := r |}) in *.
  assert (graft ((d, ch) :: os) d c = (d, ch ++ [c]) :: os) as Eg
    by (cbn [graft]; by rewrite Nat.eqb_refl).
  assert (refs_of ((d, ch) :: os) ++ [r] = refs_of ((d, ch ++ [c]) :: os)) as Er.
  { cbn [refs_of]. by rewrite fmap_app, app_assoc. }
  rewrite Eg, Er in Hf. rewrite Eg in Hmask1.
  assert (child_ok n d (take d k) c) as Hc by (by eapply pending_child).
  assert (Forall (child_ok n d (take d k)) (ch ++ [c])) as Hch' by (apply Forall_app_2; auto).
  assert (0 <= x < 16) as Hx16 by (unfold nibbles in Hk; rewrite Forall_lookup in Hk; eauto).
  assert (digits_ok (ch ++ [c])) as Hdig'.
  { apply digits_snoc; [done|done|]. eapply Forall_impl; [exact Hbefore|].
    intros c' (y & Hy & Hlt). simplify_eq. done. }
  pose proof (open_below k os d Hok' Hw) as Hbelow.
  destruct (close_branch_spec h1 (take m k) os d (ch ++ [c]) t1 Hdig' Ht1 Hbelow
    ltac:(rewrite length_take; lia) ltac:(by apply nibbles_take) Hf Hmask1) as (h2 & Hclose & (Hc2 & Hg2 & Hs2) & Hmask2).
  unfold finish_round in Hr. rewrite Hclose in Hr. cbn [mbind option_bind] in Hr.
  rewrite Hg2 in Hr. cbn [enc] in Hr. rewrite resize0_app in Hr.
  assert (pending h2 k d true (family ch ++ P) (refs_of os)) as Hp2.
  { assert (forall y fuel, (y <= d)%nat -> (n - y < fuel)%nat -> mpt fuel y (family ch ++ P) =
      if (y =? d)%nat then Some (branch_rlp (ch ++ [c]))
      else hash_builder.extension_node_rlp (drop y (take d k)) (hash_builder.node_ref (branch_rlp (ch ++ [c])))) as Hmpt.
    { intros y fuel Hy Hfuel. change P with (entries c). rewrite <- family_snoc. by apply (mpt_branch n). }
    destruct Hp as [HP _]. split_and!.
    - destruct P; [done|]. intros Hn. apply app_eq_nil in Hn as [_ ?]. done.
    - change P with (entries c). rewrite <- family_snoc. by eapply family_under.
    - exists (branch_rlp (ch ++ [c])). split_and!; [done| |done]. intros Hcol. apply node_ref_long.
      apply (wide Hcol d (family ch ++ P) _ (S n)); [by eapply family_length|done|].
      rewrite Hmpt by lia. by rewrite Nat.eqb_refl. }
  assert (top_of true d (take m k) = top_of true d k) as Etop.
  { unfold top_of. destruct d as [|j]; [done|]. by rewrite lookup_take_lt by lia. }
  set (h3 := hash_builder.with_masks h2 (enc os) (resize0 (tree_masks h2) d) (resize0 (hash_masks h2) d)).
  assert (masks h3 os (top_of true d k) d) as Hmask3.
  { rewrite Etop in Hmask2. destruct Hmask2 as (_ & _ & Htl & Hhl). unfold masks, h3. simpl. rewrite !length_resize0.
    split_and!; [done|done| |]; (eapply levels_weaken; [apply levels_resize; eassumption|]);
      intros i j _ [Hi [Hj|Hj]]; [left|by right|left|by right];
      apply child_at_inner in Hj; try done; by rewrite (proj2 (Nat.eqb_neq _ _)) in Hj by lia. }
  rewrite Hr. destruct (Nat.eqb_spec d 0) as [->|Hd0].
  - assert (os = []) as -> by (destruct os as [|[d' ?] ?]; [done|simpl in Hw; lia]).
    eexists h3, O. split; [done|]. split; [|split; [exact Hmask3|exact Hp2]]. by split_and!.
  - cbn [hash_builder.with_masks]. rewrite (strip_enc k) by done.
    rewrite take_take, Nat.min_l by lia. eexists h3, d. split; [done|].
    split; [|split; [exact Hmask3|exact Hp2]]. by split_and!.
Qed.

(** Open branches that are shallower than [m] depend on the key up to [m]. *)
Lemma open_transfer k k' m os : take m k = take m k' -> within m os -> open_ok k os ->
  open_ok k' os.
Proof.
  revert m. induction os as [|[d ch] os IH]; intros m Ht Hw; [done|].
  intros (Hd & Hne & Hdig & Hch & Hb & Hw' & Hok). simpl in Hw.
  assert (take d k = take d k') as Hpath.
  { transitivity (take d (take m k)); [by rewrite take_take, Nat.min_l by lia|].
    by rewrite Ht, take_take, Nat.min_l by lia. }
  assert (k !! d = k' !! d) as Hdd.
  { transitivity (take m k !! d); [by rewrite lookup_take_lt by lia|].
    by rewrite Ht, lookup_take_lt by lia. }
  split_and!; try done; [by rewrite <- Hpath|by rewrite <- Hdd|by apply (IH d)].
Qed.

(** The child at the parting of two keys leaves branches for the second key. *)
Lemma open_graft k succ os cp x y c : (cp < n)%nat -> take cp k = take cp succ ->
  k !! cp = Some x -> succ !! cp = Some y -> x < y -> 0 <= x < 16 -> digit c = x ->
  child_ok n cp (take cp k) c -> open_ok k os -> within (S cp) os ->
  open_ok succ (graft os cp c).
Proof.
  intros Hcp Ht Hx Hy Hlt H16 Hdc Hc Hok Hw.
  assert (forall os, within cp os -> open_ok k os -> open_ok succ ((cp, [c]) :: os)) as Hfresh.
  { intros os' Hw' Hok'. split_and!; try done.
    - split; repeat constructor; simpl; lia.
    - rewrite <- Ht. auto.
    - constructor; [|done]. exists y. split; [done|lia].
    - by apply (open_transfer k succ cp). }
  destruct os as [|[d ch] os]; [by apply Hfresh|]. cbn [graft].
  destruct (Nat.eqb_spec d cp) as [->|Hne]; [|apply Hfresh; [simpl in *; lia|done]].
  destruct Hok as (_ & Hne & Hdig & Hch & Hb & Hw' & Hok). split_and!; try done.
  - by destruct ch.
  - apply digits_snoc; [done|lia|]. eapply Forall_impl; [exact Hb|].
    intros c' (z & Hz & ?). simplify_eq. lia.
  - rewrite <- Ht. apply Forall_app_2; auto.
  - apply Forall_app_2; [|constructor; [|done]; exists y; split; [done|lia]].
    eapply Forall_impl; [exact Hb|]. intros c' (z & Hz & ?). simplify_eq.
    exists y. split; [done|lia].
  - by apply (open_transfer k succ cp).
Qed.

(** The step to the next key: branches that do not contain it are closed, and the
    entries up to the current key are under the branches that do. *)
Lemma loop_step k succ x y fuel : length k = n -> nibbles k ->
  take (prefix_length succ k) k = take (prefix_length succ k) succ ->
  k !! prefix_length succ k = Some x -> succ !! prefix_length succ k = Some y -> x < y ->
  forall os h m be P t, (m < fuel)%nat -> (m <= n)%nat -> (prefix_length succ k < m)%nat ->
  flat h (enc os) (stack h) -> masks h os (top_of be m k) t -> pending h k m be P (refs_of os) ->
  open_ok k os -> within m os -> listed os ++ P `sublist_of` L ->
  exists h1 os1 t1, hash_builder.struct_loop fuel h succ (take m k) be = Some h1 /\
    flat h1 (enc os1) (refs_of os1) /\ masks h1 os1 None t1 /\ open_ok succ os1 /\ listed os1 = listed os ++ P.
Proof.
  intros Hlk Hk Htake Hx Hy Hlt. set (cp := prefix_length succ k) in *.
  assert (0 <= x < 16) as Hx16 by (unfold nibbles in Hk; rewrite Forall_lookup in Hk; eauto).
  assert (succ <> []) as Hsne by (intros ->; done).
  assert (negb (length succ =? 0)%nat = true) as Hse by (by destruct succ).
  induction fuel as [|fuel IH]; intros os h m be P t Hfuel Hmn Hcp Hflat Hmask Hp Hok Hw HL0; [lia|].
  assert (prefix_length succ (take m k) = cp) as Hpl
    by (rewrite prefix_length_trunc; unfold cp in *; lia).
  destruct (decide (length (enc os) - 1 <= cp)%nat) as [Hstay|Hclose].
  - destruct (round_start h k m be P os t succ cp x) as (h1 & r & t1 & Hr & Hf & Hmask1 & HR & _);
      try done; [by eapply open_nested|rewrite Hpl; lia|].
    rewrite Hpl, Hse, (proj2 (Nat.leb_le _ _) Hstay) in Hr. rewrite Hse in HR. cbn [andb orb] in Hr, HR.
    set (c := {| digit := x; entries := P; reference := r |}) in *.
    exists h1, (graft os cp c), t1. cbn [hash_builder.struct_loop]. rewrite Hr.
    cbn [mbind option_bind]. split_and!; [done| |exact Hmask1| |apply listed_graft].
    + rewrite refs_graft. exact Hf.
    + apply (open_graft k succ os cp x y); try done; [lia|by eapply pending_child|].
      destruct os as [|[d ch] os]; [done|]. rewrite length_enc in Hstay. simpl. lia.
  - destruct os as [|[d ch] os]; [simpl in Hclose; lia|]. rewrite length_enc in Hclose.
    simpl in Hw.
    cbn [listed] in HL0. rewrite <- app_assoc in HL0.
    destruct (round_close h k m be P d ch os t succ) as (h1 & t1 & Hr & Hf & Hmask1 & Hp1); try done;
      [by eapply sublist_inner|left; lia|].
    rewrite (proj2 (Nat.eqb_neq d 0)) in Hr by lia.
    cbn [hash_builder.struct_loop]. rewrite Hr. cbn [mbind option_bind].
    destruct Hok as (_ & _ & _ & _ & _ & Hw' & Hok).
    destruct (IH os h1 d true (family ch ++ P) t1) as (h2 & os2 & t2 & Hl & Hf2 & Hmask2 & Ho2 & HL);
      try done; try lia.
    exists h2, os2, t2. split_and!; try done. rewrite HL. cbn [listed]. by rewrite app_assoc.
Qed.

(** The last step: all branches are closed, and the root is on the stack. *)
Lemma loop_finish k fuel : length k = n -> nibbles k ->
  forall os h m be P t, (m < fuel)%nat -> (0 < m <= n)%nat ->
  flat h (enc os) (stack h) -> masks h os (top_of be m k) t -> pending h k m be P (refs_of os) ->
  open_ok k os -> within m os -> listed os ++ P `sublist_of` L ->
  exists h1 r, hash_builder.struct_loop fuel h [] (take m k) be = Some h1 /\
    stack h1 = [r] /\ Ref n 0 (listed os ++ P) r.
Proof.
  intros Hlk Hk.
  induction fuel as [|fuel IH]; intros os h m be P t Hfuel Hmn Hflat Hmask Hp Hok Hw HL0; [lia|].
  cbn [hash_builder.struct_loop]. destruct os as [|[d ch] os].
  - destruct (lookup_lt_is_Some_2 k 0 ltac:(lia)) as [x Hx].
    destruct (round_start h k m be P [] t [] 0 x) as (h1 & r & t1 & Hr & Hf & _ & HR & _);
      try done; try lia.
    rewrite Hr. cbn [prefix_length length andb orb negb Nat.eqb Nat.leb Nat.sub enc finish_round mbind option_bind].
    destruct Hf as (_ & _ & Hs). by eexists _, r.
  - simpl in Hw.
    cbn [listed] in HL0. rewrite <- app_assoc in HL0.
    destruct (round_close h k m be P d ch os t []) as (h1 & t1 & Hr & Hf & Hmask1 & Hp1); try done;
      [lia|by eapply sublist_inner|by right|].
    rewrite Hr. cbn [mbind option_bind]. destruct Hok as (_ & _ & _ & _ & _ & Hw' & Hok).
    cbn [listed]. rewrite <- app_assoc.
    destruct (Nat.eqb_spec d 0) as [->|Hd0].
    + destruct os as [|[d' ch'] os]; [|simpl in Hw'; lia].
      destruct Hp1 as (_ & _ & b & Hs & _ & Hb). exists h1, (hash_builder.node_ref b).
      split_and!; [done|done|]. exists b. split; [|done]. intros f Hf'. by rewrite Hb by lia.
    + apply (IH os h1 d true (family ch ++ P) t1); try done; lia.
Qed.

Definition well_keyed (e : entry) : Prop := length e.1 = n /\ nibbles e.1.
Definition key_lt (a b : entry) : Prop := vec_lt a.1 b.1 = true.

(** The builder between two leaves: the last one is pending. *)
Definition ready (h : HashBuilder) (before : list entry) (e : entry) : Prop :=
  exists os t, flat h (enc os) (refs_of os) /\ open_ok e.1 os /\ key h = e.1 /\
    value h = ValueBytes e.2 /\ listed os = before /\ masks h os None t.

Lemma ready_pending h before e : well_keyed e -> ready h before e ->
  exists os t, flat h (enc os) (stack h) /\ masks h os None t /\ pending h e.1 n false [e] (refs_of os) /\
    open_ok e.1 os /\ within n os /\ listed os = before.
Proof.
  intros [Hl Hn] (os & t & Hf & Hok & _ & Hv & HL & Hmask). exists os, t.
  destruct Hf as (? & ? & Hs). split_and!; try done.
  - split_and!; [done| |done|exists e.2; by destruct e]. constructor; [done|constructor].
  - destruct os as [|[d ch] os]; [done|]. by destruct Hok.
Qed.

Lemma add_leaf_ready h before e e' : (0 < n)%nat -> well_keyed e -> well_keyed e' ->
  key_lt e e' -> before ++ [e] `sublist_of` L -> ready h before e ->
  exists h', hash_builder.add_leaf h e'.1 e'.2 = Some h' /\ ready h' (before ++ [e]) e'.
Proof.
  intros Hn He He' Hlt Hin Hr. pose proof Hr as (_ & _ & _ & _ & Hkey & _).
  destruct (ready_pending h before e He Hr) as (os & t & Hf & Hmask & Hp & Hok & Hw & HL).
  destruct He as [Hl Hnib], He' as [Hl' Hnib']. unfold hash_builder.add_leaf.
  rewrite Hkey, Hlt. cbn [negb].
  destruct (vec_lt_parting e.1 e'.1 ltac:(congruence) Hlt) as (x & y & Hx & Hy & Hxy).
  rewrite prefix_length_comm in Hx, Hy.
  pose proof (proj1 (lookup_lt_is_Some e.1 _) ltac:(eauto)) as Hcp.
  rewrite (proj2 (Nat.eqb_neq (length e.1) 0)) by lia. unfold hash_builder.gen_struct_step.
  destruct (loop_step e.1 e'.1 x y (S (length e.1)) Hl Hnib) with (os := os) (h := h) (m := n)
    (be := false) (P := [e]) (t := t) as (h1 & os1 & t1 & Hloop & Hf1 & Hmask1 & Hok1 & HL1); try done; try lia.
  { symmetry. by apply prefix_length_take. }
  { by rewrite HL. }
  rewrite take_ge in Hloop by lia. rewrite Hloop. cbn [mbind option_bind].
  eexists. split; [done|]. exists os1, t1. split_and!; try done. by rewrite HL1, HL.
Qed.

Lemma add_leaves_ready l : (0 < n)%nat -> forall h before e, well_keyed e -> Forall well_keyed l ->
  Sorted key_lt (e :: l) -> before ++ e :: l `sublist_of` L -> ready h before e ->
  exists h' before' e', hash_builder.add_leaves h l = Some h' /\ ready h' before' e' /\
    well_keyed e' /\ before' ++ [e'] = before ++ e :: l.
Proof.
  intros Hn. induction l as [|[k v] l IH]; intros h before e He Hl Hs Hin Hr.
  { exists h, before, e. done. }
  apply Forall_cons in Hl as [Hk Hl]. apply Sorted_inv in Hs as [Hs Hlt].
  apply HdRel_inv in Hlt. cbn [hash_builder.add_leaves].
  destruct (add_leaf_ready h before e (k, v) Hn He Hk Hlt) as (h1 & Ha & Hr1); [|done|].
  { etrans; [|exact Hin]. apply sublist_app; [done|]. apply sublist_skip, sublist_nil_l. }
  simpl in Ha. rewrite Ha. cbn [mbind option_bind].
  destruct (IH h1 (before ++ [e]) (k, v)) as (h2 & b2 & e2 & H2 & Hr2 & He2 & HL); try done; [by rewrite <- app_assoc|].
  exists h2, b2, e2. split_and!; try done. by rewrite HL, <- app_assoc.
Qed.

Lemma root_of_ref rlp h : stack h = [hash_builder.node_ref rlp] ->
  hash_builder.current_root_hash h = be_val (keccak_digest rlp).
Proof.
  intros Hs. unfold hash_builder.current_root_hash, hash_builder.node_ref in *. rewrite Hs. cbn [last].
  destruct (Nat.ltb_spec (length rlp) KECCAK_LENGTH) as [Hlt|_].
  - rewrite (proj2 (Nat.eqb_neq _ _)) by lia. done.
  - unfold wrap_hash. cbn [length]. rewrite length_be_bytes.
    change (S 32 =? KECCAK_LENGTH + 1)%nat with true. cbn [drop]. rewrite drop_0.
    rewrite be_val_bytes, Z.mod_small; [done|].
    pose proof (be_val_range (keccak_digest rlp)) as Hr. by rewrite length_keccak_digest in Hr.
Qed.

End builder.

(** The node of two entries or more is at least as long as a hash. *)
Definition wide {KK : Keccak} {RS : RlpStream} (l : list entry) : Prop := forall x g rlp fuel,
  (2 <= length g)%nat -> g `sublist_of` l -> mpt fuel x g = Some rlp -> (KECCAK_LENGTH <= length rlp)%nat.

(** Leaves, added in order, are accepted, and the root is that of the trie, whether nodes
    are collected or not. *)
Lemma builder_root {KK : Keccak} {RS : RlpStream} n col l :
  (0 < n)%nat -> Forall (well_keyed n) l -> Sorted key_lt l -> (col = true -> wide l) ->
  exists h h' r, hash_builder.add_leaves (hash_builder.new col) l = Some h /\
    hash_builder.root_hash h = Some (r, h') /\ mpt_root n l = Some r.
Proof.
  intros Hn Hl Hs Hwide. destruct l as [|[k v] l]; [by eexists _, _, _|].
  apply Forall_cons in Hl as [He Hl]. cbn [hash_builder.add_leaves].
  assert (hash_builder.add_leaf (hash_builder.new col) k v =
    Some (hash_builder.with_entry (hash_builder.new col) k (ValueBytes v) false)) as ->.
  { destruct k; [destruct He as [He _]; simpl in He; lia|]. done. }
  cbn [mbind option_bind].
  destruct (add_leaves_ready n col ((k, v) :: l) Hwide l Hn
    (hash_builder.with_entry (hash_builder.new col) k (ValueBytes v) false) [] (k, v))
    as (h & before & e & Ha & Hr & He' & HL); try done.
  { exists [], O. unfold flat, masks. simpl. split_and!; try done; [destruct col; [by eexists|done]|..];
      intros i w Hw; by rewrite lookup_nil in Hw. }
  rewrite Ha. pose proof Hr as (_ & _ & _ & _ & Hkey & _).
  destruct (ready_pending n col h before e He' Hr) as (os & t & Hf & Hmask & Hp & Hok & Hw & HL').
  destruct He' as [Hlen Hnib].
  destruct (loop_finish n col ((k, v) :: l) Hwide e.1 (S (length e.1)) Hlen Hnib os h n false [e] t)
    as (h1 & r & Hloop & Hs1 & rlp & Hm & ->); try done; try lia; [by rewrite HL', HL|].
  exists h. unfold hash_builder.root_hash, hash_builder.finalize. rewrite Hkey.
  rewrite (proj2 (Nat.eqb_neq (length e.1) 0)) by lia. unfold hash_builder.gen_struct_step.
  rewrite take_ge in Hloop by lia. rewrite Hloop. cbn [mbind option_bind].
  eexists _, _. split_and!; [done|done|]. unfold mpt_root.
  rewrite HL', HL in Hm. cbn [app] in Hm. rewrite Hm by lia. cbn [mbind option_bind]. f_equal. symmetry.
  by apply root_of_ref.
Qed.

(** C3: the hash builder is the Merkle Patricia trie: leaves with different keys of one
    length, added in order, are all accepted, and the root hash the builder gives for
    them is the root of the trie of these entries, defined by recursion on the set of
    entries and not on the order they come in. *)
Theorem hash_builder_root {KK : Keccak} {RS : RlpStream} n l :
  (0 < n)%nat -> Forall (well_keyed n) l -> Sorted key_lt l ->
  exists h h' r, hash_builder.add_leaves (hash_builder.new false) l = Some h /\
    hash_builder.root_hash h = Some (r, h') /\ mpt_root n l = Some r.
Proof. intros Hn Hl Hs. by apply builder_root. Qed.

Section sample.
Local Existing Instances samples.keccak samples.rlp.

Definition sample_leaves : list entry :=
  [([1; 2; 3; 4], [x61]); ([1; 2; 3; 5], [x62]); ([1; 2; 9; 0], [x63]); ([7; 0; 0; 0], [x64])].

Lemma hash_builder_root_witness :
  exists h h' r, hash_builder.add_leaves (hash_builder.new false) sample_leaves = Some h /\
    hash_builder.root_hash h = Some (r, h') /\ mpt_root 4 sample_leaves = Some r.
Proof.
  apply (hash_builder_root 4 sample_leaves).
  - lia.
  - repeat constructor; simpl; lia.
  - repeat constructor.
Defined.

End sample.

(** ** Prefix sets *)

Lemma has_prefix_spec s p : has_prefix s p = true <-> exists r, s = p ++ r.
Proof.
  unfold has_prefix. rewrite bool_decide_eq_true. split.
  - intros Ht. exists (drop (length p) s). by rewrite <- Ht at 1; rewrite take_drop.
  - intros [r ->]. apply take_app_length.
Qed.

Lemma vec_lt_irrefl a : vec_lt a a = false.
Proof. induction a as [|x a IH]; [done|]. simpl. by rewrite Z.ltb_irrefl, Z.eqb_refl, IH. Qed.

Lemma vec_lt_trans a b c : vec_lt a b = true -> vec_lt b c = true -> vec_lt a c = true.
Proof.
  revert b c. induction a as [|x a IH]; intros [|y b] [|z c]; simpl; try done.
  rewrite !orb_true_iff, !andb_true_iff, !Z.ltb_lt, !Z.eqb_eq.
  intros [?|[-> ?]] [?|[-> ?]]; [left; lia..|right; split; [done|by eapply IH]].
Qed.

Lemma vec_lt_total a b : vec_lt a b = false -> vec_lt b a = false -> a = b.
Proof.
  revert b. induction a as [|x a IH]; intros [|y b]; simpl; try done.
  rewrite !orb_false_iff, !andb_false_iff, !Z.ltb_ge, !Z.eqb_neq.
  intros [? [?|?]] [? [?|?]]; try lia. assert (x = y) as -> by lia. f_equal. by apply IH.
Qed.

(** A key with a prefix is not below the prefix; a key above it without the
    prefix is above all keys with it. *)
Lemma prefix_not_below p r : vec_lt (p ++ r) p = false.
Proof.
  induction p as [|x p IH]; simpl; [by destruct r|]. by rewrite Z.ltb_irrefl, Z.eqb_refl, IH.
Qed.

Lemma above_prefix x p r : vec_lt x p = false -> has_prefix x p = false ->
  vec_lt (p ++ r) x = true.
Proof.
  revert x. induction p as [|y p IH]; intros x Hlt Hp.
  { unfold has_prefix in Hp. by rewrite bool_decide_true in Hp. }
  destruct x as [|z x]; [done|]. simpl in *.
  rewrite orb_false_iff, andb_false_iff, Z.ltb_ge, Z.eqb_neq in Hlt. destruct Hlt as [Hle Hlt].
  rewrite orb_true_iff, andb_true_iff, Z.ltb_lt, Z.eqb_eq.
  destruct (decide (y = z)) as [->|]; [|left; lia]. right. split; [done|].
  destruct Hlt as [?|Hlt]; [done|]. apply IH; [done|].
  apply not_true_iff_false. intros [r' ->]%has_prefix_spec.
  apply not_true_iff_false in Hp. apply Hp. apply has_prefix_spec. by exists r'.
Qed.

Definition set_ok (s : PrefixSet) : Prop := StronglySorted (fun a b => vec_lt a b = true) s.

Lemma elem_of_insert key s x : x ∈ prefix_set.insert key s <-> x = key \/ x ∈ s.
Proof.
  induction s as [|y s IH]; simpl; [set_solver|].
  destruct (vec_lt key y) eqn:E1; [set_solver|]. destruct (vec_lt y key) eqn:E2; [set_solver|].
  pose proof (vec_lt_total _ _ E1 E2) as ->. set_solver.
Qed.

Lemma insert_ok key s : set_ok s -> set_ok (prefix_set.insert key s).
Proof.
  unfold set_ok. induction 1 as [|y s Hs IH Hy]; simpl; [repeat constructor|].
  rewrite Forall_forall in Hy. destruct (vec_lt key y) eqn:E1.
  - constructor; [by constructor; [|apply Forall_forall]|]. constructor; [done|].
    apply Forall_forall. intros z Hz. eapply vec_lt_trans; [done|]. by apply Hy.
  - destruct (vec_lt y key) eqn:E2; [|by constructor; [|apply Forall_forall]].
    constructor; [done|]. apply Forall_forall. intros z [->|Hz]%elem_of_insert; [done|by apply Hy].
Qed.

Lemma contains_spec s p : set_ok s ->
  prefix_set.contains s p = true <-> exists r, p ++ r ∈ s.
Proof.
  unfold prefix_set.contains, set_ok. induction 1 as [|y s Hs IH Hy]; cbn [prefix_set.first_from].
  { set_solver. }
  destruct (vec_lt y p) eqn:E.
  - rewrite IH. split; intros [r Hr]; exists r; [by right|].
    apply elem_of_cons in Hr as [<-|?]; [|done]. by rewrite prefix_not_below in E.
  - split.
    + intros [r ->]%has_prefix_spec. exists r. by left.
    + intros [r [<-|Hr]%elem_of_cons]; [apply has_prefix_spec; by exists r|].
      rewrite Forall_forall in Hy. specialize (Hy _ Hr).
      apply not_false_iff_true. intros Hn. pose proof (above_prefix y p r E Hn) as Ha.
      pose proof (vec_lt_trans _ _ _ Ha Hy) as Hc. by rewrite vec_lt_irrefl in Hc.
Qed.

(** A prefix set answers exactly whether it holds a key with the prefix, however
    its keys were inserted: looking only at the first key that is not below the
    prefix is enough. *)
Theorem prefix_set_contains keys p :
  prefix_set.contains (foldr prefix_set.insert prefix_set.new keys) p = true <->
  exists r, p ++ r ∈ keys.
Proof.
  assert (set_ok (foldr prefix_set.insert prefix_set.new keys) /\
    forall x, x ∈ foldr prefix_set.insert prefix_set.new keys <-> x ∈ keys) as [Hok Hin].
  { induction keys as [|k keys [IH1 IH2]]; simpl; [split; [constructor|done]|].
    split; [by apply insert_ok|]. intros x. by rewrite elem_of_insert, elem_of_cons, IH2. }
  rewrite contains_spec by done. split; intros [r Hr]; exists r; by apply Hin.
Qed.

(** ** Nodes in the database *)

Lemma read_hashes_concat hs : Forall word hs ->
  read_hashes (length hs) (concat (be_bytes 32 <$> hs)) = hs.
Proof.
  induction 1 as [|h hs Hh _ IH]; [done|]. rewrite fmap_cons. cbn [length concat read_hashes].
  rewrite take_app_length', drop_app_length' by (by rewrite length_be_bytes).
  rewrite IH, be_val_bytes, Z.mod_small; [done|exact Hh].
Qed.

Lemma length_hashes hs : length (concat (be_bytes 32 <$> hs)) = (length hs * KECCAK_LENGTH)%nat.
Proof.
  induction hs as [|h hs IH]; [done|]. rewrite fmap_cons. cbn [concat].
  rewrite length_app, length_be_bytes, IH. simpl. unfold KECCAK_LENGTH. lia.
Qed.

Lemma Node_new_count s t m hs r nd : Node_new s t m hs r = Some nd -> count_ones m = length hs.
Proof.
  unfold Node_new, assert_subset.
  destruct (Z.land t s =? t); cbn [mbind option_bind]; [|done].
  destruct (Z.land m s =? m); cbn [mbind option_bind]; [|done].
  by destruct (Nat.eqb_spec (count_ones m) (length hs)).
Qed.

(** The fields of a node at their width. *)
Definition node_typed (nd : Node) : Prop :=
  (0 <= state_mask nd < 2 ^ 16 /\ 0 <= tree_mask nd < 2 ^ 16 /\ 0 <= hash_mask nd < 2 ^ 16) /\
  Forall word (hashes nd) /\ (forall h, node_root_hash nd = Some h -> word h).

(** A node of the trie that [Node::new] accepts is read back from the database as it
    was written: the number of hashes tells whether a root hash comes first. *)
Theorem node_roundtrip nd : node_typed nd ->
  Node_new (state_mask nd) (tree_mask nd) (hash_mask nd) (hashes nd) (node_root_hash nd) = Some nd ->
  unmarshal_node (marshal_node nd) = Some (Some nd).
Proof.
  intros ((Hs & Ht & Hm) & Hh & Hr) Hnew. unfold unmarshal_node, marshal_node.
  set (root := match node_root_hash nd with Some h => be_bytes 32 h | None => [] end).
  set (body := concat (be_bytes 32 <$> hashes nd)).
  assert (length root = (if node_root_hash nd then 1 else 0) * KECCAK_LENGTH)%nat as Hlr.
  { unfold root. destruct (node_root_hash nd); [apply length_be_bytes|done]. }
  assert (length body = length (hashes nd) * KECCAK_LENGTH)%nat as Hlb by apply length_hashes.
  rewrite !length_app, !length_be_bytes.
  replace (2 + (2 + (2 + (length root + length body))) - 6)%nat
    with (length root + length body)%nat by lia.
  destruct (Nat.ltb_spec (2 + (2 + (2 + (length root + length body)))) 6); [lia|].
  rewrite Hlr, Hlb, <- Nat.mul_add_distr_r, Nat.Div0.mod_mul. cbn [Nat.eqb negb].
  rewrite take_app_length' by (by rewrite length_be_bytes).
  rewrite (drop_app_length' _ _ 2) by (by rewrite length_be_bytes).
  rewrite take_app_length' by (by rewrite length_be_bytes).
  rewrite app_assoc, (drop_app_length' _ _ 4) by (by rewrite length_app, !length_be_bytes).
  rewrite take_app_length' by (by rewrite length_be_bytes).
  rewrite app_assoc, (drop_app_length' _ _ 6) by (by rewrite !length_app, !length_be_bytes).
  rewrite !be_val_bytes, !Z.mod_small by done.
  rewrite length_app, Hlr, Hlb, <- Nat.mul_add_distr_r, Nat.div_mul by done.
  rewrite (Node_new_count _ _ _ _ _ _ Hnew).
  unfold root in *. destruct (node_root_hash nd) as [h|].
  - rewrite (proj2 (Nat.eqb_eq _ _)) by lia.
    rewrite take_app_length', drop_app_length' by (by rewrite length_be_bytes).
    rewrite be_val_bytes, Z.mod_small by (by apply Hr). rewrite Hlb, Nat.div_mul by done.
    unfold body. by rewrite read_hashes_concat, Hnew.
  - rewrite (proj2 (Nat.eqb_neq _ _)) by lia. cbn [app]. rewrite Hlb, Nat.div_mul by done.
    unfold body. by rewrite read_hashes_concat, Hnew.
Qed.

Definition sample_node : Node := {|
  state_mask := 0x0007; tree_mask := 0x0001; hash_mask := 0x0006; hashes := [5; 6];
  node_root_hash := Some 9;
|}.

Lemma node_roundtrip_witness :
  unmarshal_node (marshal_node sample_node) = Some (Some sample_node).
Proof.
  apply (node_roundtrip sample_node).
  - split_and!; simpl; try lia; [repeat constructor; done|]. intros h [= <-]. done.
  - reflexivity.
Defined.
