(* ===== verification/Etl.v ===== *)
(** External sorting of table entries (src/etl): the data providers and the
    collector.

    A temporary file is the bytes written to it; reading past its end is the error
    [None].  Creating and writing the file are taken to succeed. *)
From S2P Require Import Prelude Word EvmState.
From Stdlib Require Import ZArith Lia Strings.Byte.
From stdpp Require Import base list option numbers gmap sorting.
#[local] Open Scope Z_scope.

#[export] Program Instance byte_countable : Countable byte :=
  inj_countable Byte.to_N Byte.of_N _.
Next Obligation. intros b. apply Byte.of_to_N. Qed.

(** ** data_provider.rs *)

(** The order of [Vec<u8>]. *)
Fixpoint bytes_le (a b : Bytes) : bool :=
  match a, b with
  | [], _ => true
  | _ :: _, [] => false
  | x :: a, y :: b => (byte_val x <? byte_val y) || ((byte_val x =? byte_val y) && bytes_le a b)
  end.

Record Entry := { key : Bytes; value : Bytes }.

(** The derived [Ord]: by key, then by value. *)
Definition entry_le (e f : Entry) : bool :=
  if bytes_le (key e) (key f) then
    negb (bytes_le (key f) (key e)) || bytes_le (value e) (value f)
  else false.

Record DataProvider := {
  file : Bytes;
  len : nat;
}.

(** What is written for an entry: the lengths and the bytes. *)
Definition frame (e : Entry) : Bytes :=
  be_bytes 8 (blen (key e)) ++ be_bytes 8 (blen (value e)) ++ key e ++ value e.

Definition DataProvider_new (buffer : list Entry) : DataProvider := {|
  file := concat (frame <$> buffer);
  len := length buffer;
|}.

(** [file.read_exact] of [n] bytes. *)
Definition read_exact (n : Z) (f : Bytes) : option (Bytes * Bytes) :=
  if n <=? blen f then Some (take (Z.to_nat n) f, drop (Z.to_nat n) f) else None.

Definition to_next (p : DataProvider) : option (option Entry * DataProvider) :=
  match len p with
  | O => Some (None, p)
  | S len =>
      '(key_length, f) ← read_exact 8 (file p);
      '(value_length, f) ← read_exact 8 f;
      '(k, f) ← read_exact (be_val key_length) f;
      '(v, f) ← read_exact (be_val value_length) f;
      Some (Some {| key := k; value := v |}, {| file := f; len := len |})
  end.

(** ** collector.rs *)

Record Collector := {
  buffer_size : Z;
  data_providers : list DataProvider;
  buffer_capacity : Z;
  buffer : list Entry;
}.

(** What [iter] yields, and whether it got to the end. *)
Record Yielded := { entries : list Entry; completed : bool }.

Module collector.

Definition new (buffer_capacity : Z) : Collector := {|
  buffer_size := 0; data_providers := []; buffer_capacity := buffer_capacity; buffer := [];
|}.

(** [sort_unstable]: equal entries are not distinguishable. *)
Definition sort_unstable (l : list Entry) : list Entry := merge_sort (fun e f => entry_le e f) l.

Definition flush (c : Collector) : Collector := {|
  buffer_size := 0;
  data_providers := data_providers c ++ [DataProvider_new (sort_unstable (buffer c))];
  buffer_capacity := buffer_capacity c;
  buffer := [];
|}.

(** [None] is an overflow of the size. *)
Definition push (e : Entry) (c : Collector) : option Collector :=
  size ← u64_checked (buffer_size c + (blen (key e) + blen (value e)));
  let c := {| buffer_size := size; data_providers := data_providers c;
              buffer_capacity := buffer_capacity c; buffer := buffer c ++ [e] |} in
  Some (if buffer_capacity c <? size then flush c else c).

(** The heap of [Reverse((entry, id))]: the least item is popped. *)
Definition item_le (x y : Entry * nat) : bool :=
  if entry_le x.1 y.1 then negb (entry_le y.1 x.1) || (x.2 <=? y.2)%nat else false.

Fixpoint heap_pop (h : list (Entry * nat)) : option ((Entry * nat) * list (Entry * nat)) :=
  match h with
  | [] => None
  | x :: h =>
      match heap_pop h with
      | None => Some (x, [])
      | Some (y, h') => if item_le x y then Some (x, h) else Some (y, x :: h')
      end
  end.

(** [for (current_id, data_provider) in data_providers]: the first entry of each
    provider goes into the heap. *)
Fixpoint anchor (id : nat) (ps : list DataProvider)
    : option (list (Entry * nat) * list DataProvider) :=
  match ps with
  | [] => Some ([], [])
  | p :: ps =>
      '(e, p) ← to_next p;
      '(h, ps) ← anchor (S id) ps;
      Some (match e with Some e => (e, id) :: h | None => h end, p :: ps)
  end.

(** [while let Some(..) = heap.pop()]. *)
Fixpoint merge_loop (fuel : nat) (h : list (Entry * nat)) (ps : list DataProvider) : Yielded :=
  match fuel with
  | O => {| entries := []; completed := false |}
  | S fuel =>
      match heap_pop h with
      | None => {| entries := []; completed := true |}
      | Some ((e, id), h) =>
          let rest :=
            match p ← ps !! id; to_next p with
            | Some (next, p) =>
                merge_loop fuel (match next with Some f => (f, id) :: h | None => h end)
                  (<[id := p]> ps)
            | None => {| entries := []; completed := false |}
            end in
          {| entries := e :: entries rest; completed := completed rest |}
      end
  end.

(** All entries of the files and one round to see the end. *)
Definition merge_fuel (ps : list DataProvider) : nat := S (sum_list (len <$> ps)).

(** The generator of [iter], run to its end. *)
Definition iter (c : Collector) : Yielded :=
  match data_providers c with
  | [] => {| entries := sort_unstable (buffer c); completed := true |}
  | _ =>
      let c := if negb (buffer_size c =? 0) then flush c else c in
      match anchor 0 (data_providers c) with
      | Some (h, ps) => merge_loop (merge_fuel (data_providers c)) h ps
      | None => {| entries := []; completed := false |}
      end
  end.

(** [cursor.put] of all that is yielded into a table without duplicates. *)
Definition load (c : Collector) (table : gmap Bytes Bytes) : gmap Bytes Bytes :=
  foldl (fun t e => <[key e := value e]> t) table (entries (iter c)).

(** Entries pushed in a row. *)
Fixpoint push_all (l : list Entry) (c : Collector) : option Collector :=
  match l with
  | [] => Some c
  | e :: l => c ← push e c; push_all l c
  end.

End collector.
