(* ===== verification/EtlSpec.v ===== *)
(** External sorting is sorting: what the collector yields is the sorted list of
    what was pushed, whatever the capacity of its buffer and however many files it
    was split into. *)
From S2P Require Import Prelude Word EvmState Etl.
From Stdlib Require Import ZArith Lia Strings.Byte.
From stdpp Require Import base list option numbers gmap sorting.
#[local] Open Scope Z_scope.

(** ** The order of entries *)

Lemma bytes_le_refl a : bytes_le a a = true.
Proof. induction a as [|x a IH]; [done|]. simpl. by rewrite Z.eqb_refl, IH, orb_true_r. Qed.

Lemma bytes_le_total a b : bytes_le a b = false -> bytes_le b a = true.
Proof.
  revert b. induction a as [|x a IH]; intros [|y b]; simpl; try done.
  rewrite orb_false_iff, andb_false_iff, orb_true_iff, andb_true_iff, Z.ltb_ge, Z.ltb_lt, Z.eqb_neq, Z.eqb_eq.
  intros [? [?|?]]; [lia|]. destruct (decide (byte_val x = byte_val y)); [right; auto|lia].
Qed.

Lemma bytes_le_trans a b c : bytes_le a b = true -> bytes_le b c = true -> bytes_le a c = true.
Proof.
  revert b c. induction a as [|x a IH]; intros [|y b] [|z c]; simpl; try done.
  rewrite !orb_true_iff, !andb_true_iff, !Z.ltb_lt, !Z.eqb_eq.
  intros [?|[-> ?]] [?|[? ?]]; try (left; lia). right. split; [done|by eapply IH].
Qed.

Lemma bytes_le_antisym a b : bytes_le a b = true -> bytes_le b a = true -> a = b.
Proof.
  revert b. induction a as [|x a IH]; intros [|y b]; simpl; try done.
  rewrite !orb_true_iff, !andb_true_iff, !Z.ltb_lt, !Z.eqb_eq.
  intros [?|[Hx ?]] [?|[Hx' ?]]; try lia. f_equal; [by apply byte_val_inj|auto].
Qed.

Definition le (e f : Entry) : Prop := entry_le e f.

Lemma le_cases e f : le e f <->
  (bytes_le (key f) (key e) = false \/ (key e = key f /\ bytes_le (value e) (value f) = true)).
Proof.
  unfold le, entry_le. destruct (bytes_le (key e) (key f)) eqn:E1.
  - destruct (bytes_le (key f) (key e)) eqn:E2; simpl.
    + pose proof (bytes_le_antisym _ _ E1 E2) as ->. split; intros ?; [right; split; [done|by apply Is_true_eq_true]|].
      destruct H as [?|[_ ->]]; done.
    + split; [by left|done].
  - split; [done|]. intros [Hk|[Hk _]].
    + apply bytes_le_total in E1. congruence.
    + by rewrite Hk, bytes_le_refl in E1.
Qed.

#[global] Instance le_trans : Transitive le.
Proof.
  intros e f g. rewrite !le_cases. intros [H1|[H1 H2]] [H3|[H3 H4]].
  - left. destruct (bytes_le (key g) (key e)) eqn:E; [|done].
    pose proof (bytes_le_trans _ _ _ (bytes_le_total _ _ H3) E) as E'. congruence.
  - left. by rewrite <- H3.
  - left. by rewrite H1.
  - right. split; [congruence|by eapply bytes_le_trans].
Qed.

#[global] Instance le_total : Total le.
Proof.
  intros e f. rewrite !le_cases. destruct (bytes_le (key f) (key e)) eqn:E1; [|by left; left].
  destruct (bytes_le (key e) (key f)) eqn:E2; [|by right; left].
  pose proof (bytes_le_antisym _ _ E1 E2) as Hk.
  destruct (bytes_le (value e) (value f)) eqn:E3; [left; by right|].
  right; right. split; [done|by apply bytes_le_total].
Qed.

#[global] Instance le_antisym : AntiSymm (=) le.
Proof.
  intros [k v] [k' v']. rewrite !le_cases. simpl. intros [H1|[H1 H2]] [H3|[H3 H4]].
  - apply bytes_le_total in H1. congruence.
  - by rewrite H3, bytes_le_refl in H1.
  - by rewrite H1, bytes_le_refl in H3.
  - f_equal; [done|by apply bytes_le_antisym].
Qed.

(** The sort of the standard library. *)
Lemma sort_spec l : StronglySorted le (collector.sort_unstable l) /\ collector.sort_unstable l ≡ₚ l.
Proof.
  unfold collector.sort_unstable. split; [|apply merge_sort_Permutation].
  apply StronglySorted_merge_sort; [apply le_trans|apply le_total].
Qed.

(** A sorted permutation is the sort. *)
Lemma sorted_unique l l' : StronglySorted le l' -> l' ≡ₚ l -> l' = collector.sort_unstable l.
Proof.
  intros Hs Hp. destruct (sort_spec l) as [Hs' Hp']. apply (StronglySorted_unique le); [done|done|].
  by rewrite Hp, Hp'.
Qed.

(** ** Files *)

(** A file holds the entries that are left to read. *)
Definition holds (p : DataProvider) (l : list Entry) : Prop :=
  file p = concat (frame <$> l) /\ len p = length l.

Definition small (e : Entry) : Prop := blen (key e) < 2 ^ 64 /\ blen (value e) < 2 ^ 64.

Lemma read_exact_app a f n : blen a = n -> read_exact n (a ++ f) = Some (a, f).
Proof.
  intros <-. unfold read_exact, blen. rewrite length_app, (proj2 (Z.leb_le _ _)) by lia.
  rewrite Nat2Z.id, take_app_length, drop_app_length. done.
Qed.

Lemma to_next_holds p l : holds p l -> Forall small l ->
  match l with
  | [] => to_next p = Some (None, p)
  | e :: l => exists p', to_next p = Some (Some e, p') /\ holds p' l
  end.
Proof.
  intros [Hf Hl] Hs. unfold to_next. destruct l as [|e l]; simpl in Hl; rewrite Hl; [done|].
  apply Forall_cons in Hs as [[Hk Hv] _]. rewrite Hf, fmap_cons. cbn [concat]. unfold frame at 1.
  rewrite <- !app_assoc.
  rewrite read_exact_app by (unfold blen; by rewrite length_be_bytes). cbn [mbind option_bind].
  rewrite read_exact_app by (unfold blen; by rewrite length_be_bytes). cbn [mbind option_bind].
  rewrite !be_val_bytes. change (256 ^ Z.of_nat 8) with (2 ^ 64).
  rewrite !Z.mod_small by (unfold blen in *; lia).
  rewrite read_exact_app by done. cbn [mbind option_bind].
  rewrite read_exact_app by done. cbn [mbind option_bind].
  eexists. split; [destruct e; done|]. by split.
Qed.

(** ** The heap *)

Lemma item_le_entry x y : collector.item_le x y = true -> le x.1 y.1.
Proof. unfold collector.item_le, le. by destruct (entry_le x.1 y.1). Qed.

Lemma item_ge_entry x y : collector.item_le x y = false -> le y.1 x.1.
Proof.
  unfold collector.item_le. pose proof (le_total x.1 y.1) as Ht. unfold strict, le in *.
  destruct (entry_le x.1 y.1), (entry_le y.1 x.1); simpl; try done. by destruct Ht.
Qed.

Lemma heap_pop_spec h :
  match collector.heap_pop h with
  | None => h = []
  | Some (y, h') => h ≡ₚ y :: h' /\ Forall (fun x => le y.1 x.1) h'
  end.
Proof.
  induction h as [|x h IH]; [done|]. simpl. destruct (collector.heap_pop h) as [[y h']|].
  - destruct IH as [Hp Hy]. destruct (collector.item_le x y) eqn:E.
    + split; [done|]. rewrite Hp. apply item_le_entry in E. constructor; [done|].
      eapply Forall_impl; [done|]. intros z Hz. by etransitivity.
    + split; [by rewrite Hp, Permutation_swap|]. constructor; [by apply item_ge_entry|done].
  - by rewrite IH.
Qed.

(** ** Merging *)

(** The files [ls] behind the heap: every file that is not at its end has an entry
    in the heap, below all that is left of the file. *)
Definition merging (h : list (Entry * nat)) (ls : list (list Entry)) : Prop :=
  Forall (StronglySorted le) ls /\ NoDup h.*2 /\
  (forall id l, ls !! id = Some l -> l <> [] -> id ∈ h.*2) /\
  Forall (fun x => exists l, ls !! x.2 = Some l /\ Forall (le x.1) l) h.

(** The least of the heap is below everything. *)
Lemma merging_least e id h ls : merging ((e, id) :: h) ls ->
  Forall (fun x => le e x.1) h -> Forall (Forall (le e)) ls.
Proof.
  intros (_ & _ & Hin & Hb) Hle. apply Forall_lookup. intros i l Hl.
  destruct (decide (l = [])) as [->|Hne]; [constructor|].
  specialize (Hin i l Hl Hne). apply list_elem_of_fmap in Hin as ([f j] & Hj & Hx). simpl in Hj. subst j.
  rewrite Forall_forall in Hb. destruct (Hb _ Hx) as (l' & Hl' & Hf). simpl in *.
  rewrite Hl in Hl'. simplify_eq. assert (le e f) as Hef.
  { apply elem_of_cons in Hx as [[= <- <-]|Hx].
    - match goal with |- le ?x _ => by destruct (le_total x x) end.
    - rewrite Forall_forall in Hle. by apply (Hle (f, i)). }
  eapply Forall_impl; [exact Hf|]. intros x Hx'. by etransitivity.
Qed.

Lemma merging_perm h h' ls : h ≡ₚ h' -> merging h ls -> merging h' ls.
Proof.
  intros Hp (Hs & Hn & Hin & Hb). split_and!; [done|by rewrite <- Hp| |by rewrite <- Hp].
  intros id l Hl Hne. rewrite <- Hp. by eapply Hin.
Qed.

(** The heap after the least is popped and its file read. *)
Lemma merging_next e id h ls l : merging ((e, id) :: h) ls -> ls !! id = Some l ->
  match l with
  | [] => merging h ls
  | f :: l => merging ((f, id) :: h) (<[id := l]> ls)
  end.
Proof.
  intros (Hs & Hn & Hin & Hb) Hl. apply Forall_cons in Hb as [_ Hb].
  rewrite fmap_cons in Hn. apply NoDup_cons in Hn as [Hid Hn]. simpl in Hid. destruct l as [|f l].
  - split_and!; try done. intros i l' Hl' Hne. specialize (Hin i l' Hl' Hne).
    apply elem_of_cons in Hin as [->|?]; [|done]. simpl in *. congruence.
  - pose proof (proj1 (Forall_lookup _ _) Hs id _ Hl) as Hsl. apply StronglySorted_inv in Hsl as [Hsl Hf].
    pose proof (lookup_lt_Some _ _ _ Hl) as Hlt. split_and!.
    + by apply Forall_insert.
    + by constructor.
    + intros i l' Hl' Hne. destruct (decide (i = id)) as [->|]; [by left|].
      rewrite list_lookup_insert_ne in Hl' by done. specialize (Hin i l' Hl' Hne).
      apply elem_of_cons in Hin as [?|?]; [done|by right].
    + constructor; [exists l; by rewrite list_lookup_insert_eq|].
      rewrite Forall_forall in Hb |- *. intros [g j] Hx. destruct (Hb _ Hx) as (l' & Hl' & Hg).
      exists l'. split; [|done]. simpl in *. rewrite list_lookup_insert_ne; [done|].
      intros ->. apply Hid. apply list_elem_of_fmap. by exists (g, j).
Qed.

Lemma concat_insert (ls : list (list Entry)) id f l : ls !! id = Some (f :: l) ->
  concat ls ≡ₚ f :: concat (<[id := l]> ls).
Proof.
  revert id. induction ls as [|l' ls IH]; intros [|id]; simpl; try done.
  - intros [= ->]. done.
  - intros Hl. rewrite (IH id Hl). by rewrite <- Permutation_middle.
Qed.

Lemma holds_insert ps ls id p l : Forall2 holds ps ls -> holds p l ->
  Forall2 holds (<[id := p]> ps) (<[id := l]> ls).
Proof. intros. by apply Forall2_insert. Qed.

(** The loop yields everything, in order. *)
Lemma merge_loop_spec fuel : forall h ps ls, Forall2 holds ps ls -> Forall (Forall small) ls ->
  merging h ls -> (length h + length (concat ls) < fuel)%nat ->
  completed (collector.merge_loop fuel h ps) = true /\
  StronglySorted le (entries (collector.merge_loop fuel h ps)) /\
  entries (collector.merge_loop fuel h ps) ≡ₚ h.*1 ++ concat ls.
Proof.
  induction fuel as [|fuel IH]; intros h ps ls Hps Hsm Hm Hfuel; [lia|].
  cbn [collector.merge_loop]. pose proof (heap_pop_spec h) as Hpop.
  destruct (collector.heap_pop h) as [[[e id] h']|].
  2:{ subst h. split_and!; [done|constructor|]. simpl. symmetry.
      assert (Forall (fun l => l = []) ls) as Hnil.
      { apply Forall_lookup. intros i l Hl. destruct Hm as (_ & _ & Hin & _).
        destruct l; [done|]. specialize (Hin i _ Hl ltac:(done)). by apply elem_of_nil in Hin. }
      clear -Hnil. induction Hnil as [|l ls -> _ IH]; [done|]. done. }
  destruct Hpop as [Hp Hle]. simpl in Hle.
  pose proof (merging_perm _ _ _ Hp Hm) as Hm'. pose proof (merging_least _ _ _ _ Hm' Hle) as Hleast.
  assert (exists l, ls !! id = Some l) as [l Hl].
  { destruct Hm' as (_ & _ & _ & Hb). apply Forall_cons in Hb as [(l & Hl & _) _]. by exists l. }
  destruct (Forall2_lookup_r _ _ _ _ _ Hps Hl) as (p & Hpl & Hold). rewrite Hpl. cbn [mbind option_bind].
  pose proof (merging_next _ _ _ _ _ Hm' Hl) as Hnext.
  pose proof (to_next_holds p l Hold (proj1 (Forall_lookup _ _) Hsm id _ Hl)) as Hread.
  assert (length h = S (length h')) as Hlen by (by rewrite Hp).
  destruct l as [|f l].
  - rewrite Hread. rewrite (list_insert_id ps) by done.
    destruct (IH h' ps ls) as (Hc & Hso & Hpe); try done; [lia|]. cbn [entries completed].
    split_and!; [done| |by rewrite Hpe, Hp].
    constructor; [done|]. rewrite Hpe. apply Forall_app_2; [by rewrite Forall_fmap|by apply Forall_concat].
  - destruct Hread as (p' & -> & Hold'). pose proof (concat_insert ls id f l Hl) as Hcc.
    assert (length (concat ls) = S (length (concat (<[id := l]> ls)))) as Hlc by (by rewrite Hcc).
    pose proof (proj1 (Forall_lookup _ _) Hsm id _ Hl) as Hsl.
    apply Forall_cons in Hsl as [_ Hsl].
    destruct (IH ((f, id) :: h') (<[id := p']> ps) (<[id := l]> ls)) as (Hc & Hso & Hpe).
    + by apply holds_insert.
    + by apply Forall_insert.
    + done.
    + simpl. lia.
    + cbn [entries completed]. assert (f :: h'.*1 ++ concat (<[id := l]> ls) ≡ₚ h'.*1 ++ concat ls) as Hq
        by (rewrite Hcc; apply Permutation_middle).
      split_and!; [done| |].
      * constructor; [done|]. rewrite Hpe, fmap_cons. cbn [app fst]. rewrite Hq.
        apply Forall_app_2; [by rewrite Forall_fmap|by apply Forall_concat].
      * rewrite Hpe, fmap_cons, Hp, fmap_cons. cbn [app fst]. by rewrite Hq.
Qed.

(** The first entries of the files are the heap to begin with. *)
Lemma anchor_spec ps : forall ls id, Forall2 holds ps ls -> Forall (Forall small) ls ->
  Forall (StronglySorted le) ls ->
  exists h ps', collector.anchor id ps = Some (h, ps') /\ Forall2 holds ps' (tail <$> ls) /\
    h.*1 ++ concat (tail <$> ls) ≡ₚ concat ls /\ NoDup h.*2 /\
    (forall i l, (tail <$> ls) !! i = Some l -> l <> [] -> (id + i)%nat ∈ h.*2) /\
    Forall (fun x => exists i l, x.2 = (id + i)%nat /\ (tail <$> ls) !! i = Some l /\
                                 Forall (le x.1) l) h.
Proof.
  induction ps as [|p ps IH]; intros ls id Hps Hsm Hso.
  { apply Forall2_nil_inv_l in Hps as ->. exists [], []. split_and!; try done; try constructor. }
  apply Forall2_cons_inv_l in Hps as (l & ls' & Hp & Hps & ->).
  apply Forall_cons in Hsm as [Hsl Hsm]. apply Forall_cons in Hso as [Hol Hso].
  destruct (IH ls' (S id) Hps Hsm Hso) as (h & ps' & Ha & Hh & Hperm & Hn & Hin & Hb).
  pose proof (to_next_holds p l Hp Hsl) as Hread. cbn [collector.anchor].
  assert (forall x, x ∈ h.*2 -> (id < x)%nat) as Habove.
  { intros x ([e j] & -> & Hx)%list_elem_of_fmap. rewrite Forall_forall in Hb.
    destruct (Hb _ Hx) as (i & l' & Hi & _). simpl in *. lia. }
  assert (Forall (fun x => exists i l0, x.2 = (id + i)%nat /\ (tail l :: (tail <$> ls')) !! i = Some l0 /\
    Forall (le x.1) l0) h) as Hb'.
  { eapply Forall_impl; [exact Hb|]. intros x (i & l0 & Hi & Hl0 & Hf). exists (S i), l0.
    split_and!; [lia|done|done]. }
  assert (forall i l0, (tail l :: (tail <$> ls')) !! i = Some l0 -> l0 <> [] ->
    i <> O -> (id + i)%nat ∈ h.*2) as Hin'.
  { intros [|i] l0 Hi Hne H0; [done|]. rewrite Nat.add_succ_r. by apply (Hin i l0). }
  destruct l as [|e l].
  - rewrite Hread. cbn [mbind option_bind]. rewrite Ha. cbn [mbind option_bind].
    exists h, (p :: ps'). split_and!; try done; [by constructor|].
    intros [|i] l0 Hi Hne; [by simplify_eq/=|by apply (Hin' (S i) l0)].
  - destruct Hread as (p' & -> & Hp'). cbn [mbind option_bind]. rewrite Ha. cbn [mbind option_bind].
    exists ((e, id) :: h), (p' :: ps'). apply StronglySorted_inv in Hol as [_ Hel].
    split_and!; try done; [by constructor| | | |].
    + rewrite !fmap_cons. cbn [concat tail fst app]. rewrite <- Hperm. apply Permutation_skip.
      rewrite !app_assoc. by rewrite (Permutation_app_comm h.*1 l).
    + rewrite fmap_cons. apply NoDup_cons. split; [|done]. intros Hx%Habove. simpl in Hx. lia.
    + intros [|i] l0 Hi Hne; rewrite fmap_cons, elem_of_cons; [left; simpl; lia|right; by apply (Hin' (S i) l0)].
    + constructor; [|done]. exists O, l. split_and!; [simpl; lia|done|done].
Qed.

Lemma merge_files ps ls : Forall2 holds ps ls -> Forall (Forall small) ls ->
  Forall (StronglySorted le) ls ->
  exists h ps', collector.anchor 0 ps = Some (h, ps') /\
    let out := collector.merge_loop (collector.merge_fuel ps) h ps' in
    completed out = true /\ StronglySorted le (entries out) /\ entries out ≡ₚ concat ls.
Proof.
  intros Hps Hsm Hso. destruct (anchor_spec ps ls 0 Hps Hsm Hso) as (h & ps' & Ha & Hh & Hperm & Hn & Hin & Hb).
  exists h, ps'. split; [done|]. cbv zeta.
  assert (collector.merge_fuel ps = S (length (concat ls))) as Hfuel.
  { unfold collector.merge_fuel. f_equal. clear -Hps. induction Hps as [|p l ps ls [_ Hl] _ IH]; [done|].
    rewrite fmap_cons. simpl. rewrite length_app, Hl. by f_equal. }
  destruct (merge_loop_spec (collector.merge_fuel ps) h ps' (tail <$> ls)) as (Hc & Hs & Hp).
  - done.
  - apply Forall_fmap. eapply Forall_impl; [exact Hsm|]. intros [|? ?]; [done|]. by intros [_ ?]%Forall_cons.
  - split_and!; [|done|done|].
    + apply Forall_fmap. eapply Forall_impl; [exact Hso|]. intros [|? ?]; [done|]. by intros [? _]%StronglySorted_inv.
    + eapply Forall_impl; [exact Hb|]. intros x (i & l & Hi & ? & ?). rewrite Hi. by exists l.
  - rewrite Hfuel, <- Hperm, length_app, length_fmap. lia.
  - split_and!; [done|done|by rewrite Hp].
Qed.

(** ** Pushing *)

(** An entry with a key that, with the buffer full, does not overflow the size. *)
Definition fits (capacity : Z) (e : Entry) : Prop :=
  0 < blen (key e) /\ capacity + (blen (key e) + blen (value e)) < 2 ^ 64.

Definition entry_size (e : Entry) : Z := blen (key e) + blen (value e).

(** The collector that got the entries [l]. *)
Definition collects (c : Collector) (l : list Entry) : Prop :=
  exists ls, Forall2 holds (data_providers c) ls /\ Forall (Forall small) ls /\
    Forall (StronglySorted le) ls /\ concat ls ++ buffer c ≡ₚ l /\
    buffer_size c = foldr (fun e n => entry_size e + n) 0 (buffer c) /\
    buffer_size c <= buffer_capacity c.

Lemma sizes_snoc l e : foldr (fun e n => entry_size e + n) 0 (l ++ [e]) =
  foldr (fun e n => entry_size e + n) 0 l + entry_size e.
Proof. induction l as [|x l IH]; simpl; [lia|]. rewrite IH. lia. Qed.

Lemma sizes_zero capacity l : Forall (fits capacity) l ->
  0 <= foldr (fun e n => entry_size e + n) 0 l /\
  (foldr (fun e n => entry_size e + n) 0 l = 0 -> l = []).
Proof.
  induction 1 as [|e l [Hk _] _ [IH1 IH2]]; [done|]. simpl. unfold entry_size, blen in *.
  split; [lia|]. intros. lia.
Qed.

Lemma fits_small capacity l : 0 <= capacity -> Forall (fits capacity) l -> Forall small l.
Proof.
  intros Hc Hf. eapply Forall_impl; [exact Hf|]. intros e [? ?]. unfold small, blen in *. lia.
Qed.

Lemma flush_files c ls l : Forall2 holds (data_providers c) ls -> concat ls ++ buffer c ≡ₚ l ->
  Forall2 holds (data_providers (collector.flush c)) (ls ++ [collector.sort_unstable (buffer c)]) /\
  concat (ls ++ [collector.sort_unstable (buffer c)]) ≡ₚ l.
Proof.
  intros Hh Hp. split; [apply Forall2_app; [done|]; constructor; [done|constructor]|].
  rewrite concat_app. simpl. rewrite app_nil_r, <- Hp. f_equiv. apply sort_spec.
Qed.

Lemma push_collects capacity c e l : 0 <= capacity -> buffer_capacity c = capacity ->
  Forall (fits capacity) l -> fits capacity e -> collects c l ->
  exists c', collector.push e c = Some c' /\ buffer_capacity c' = capacity /\ collects c' (l ++ [e]).
Proof.
  intros Hc Hcap Hfl Hfe (ls & Hh & Hsm & Hso & Hp & Hsz & Hle). unfold collector.push.
  assert (Forall (fits capacity) (buffer c)) as Hfb.
  { rewrite <- Hp in Hfl. by apply Forall_app in Hfl as [_ ?]. }
  destruct (sizes_zero _ _ Hfb) as [Hpos _].
  assert (0 <= buffer_size c + entry_size e <= 2 ^ 64 - 1) as Hrange.
  { assert (0 <= entry_size e) by (unfold entry_size, blen; lia).
    assert (capacity + entry_size e < 2 ^ 64) by apply Hfe. rewrite <- Hsz in Hpos. lia. }
  fold (entry_size e). unfold u64_checked, checked.
  rewrite (proj2 (Z.leb_le _ _)), (proj2 (Z.leb_le _ _)) by (unfold u64_max; lia). cbn [andb mbind option_bind].
  cbn [buffer_capacity]. eexists. split; [done|]. set (c1 := {| buffer := buffer c ++ [e] |}).
  assert (concat ls ++ buffer c1 ≡ₚ l ++ [e]) as Hp1 by (simpl; by rewrite app_assoc, Hp).
  assert (buffer_size c1 = foldr (fun e n => entry_size e + n) 0 (buffer c1)) as Hsz1.
  { simpl. rewrite sizes_snoc, Hsz. done. }
  destruct (Z.ltb_spec (buffer_capacity c) (buffer_size c + entry_size e)) as [Hfull|Hroom].
  - split; [done|]. destruct (flush_files c1 ls (l ++ [e])) as [Hh1 Hp2]; [done|done|].
    exists (ls ++ [collector.sort_unstable (buffer c1)]). split_and!; [done| | | |done|].
    + apply Forall_app_2; [done|]. constructor; [|done].
      rewrite (proj2 (sort_spec (buffer c1))). apply (fits_small capacity); [done|].
      apply Forall_app_2; [done|]. by constructor.
    + apply Forall_app_2; [done|]. constructor; [|done]. apply sort_spec.
    + simpl. rewrite app_nil_r. exact Hp2.
    + simpl. lia.
  - split; [done|]. exists ls. split_and!; try done.
Qed.

Lemma push_all_collects capacity l : 0 <= capacity -> Forall (fits capacity) l ->
  exists c, collector.push_all l (collector.new capacity) = Some c /\ collects c l.
Proof.
  intros Hc Hf.
  assert (forall l done_ c, Forall (fits capacity) (done_ ++ l) -> buffer_capacity c = capacity ->
    collects c done_ -> exists c', collector.push_all l c = Some c' /\ collects c' (done_ ++ l)) as Hgen.
  { clear l Hf. intros l. induction l as [|e l IH]; intros pre c Hf Hcap Hcol.
    { rewrite app_nil_r. by exists c. }
    pose proof Hf as [Hpre [He _]%Forall_cons]%Forall_app.
    destruct (push_collects capacity c e pre Hc Hcap Hpre He Hcol) as (c1 & Hp & Hcap1 & Hcol1).
    cbn [collector.push_all]. rewrite Hp. cbn [mbind option_bind].
    rewrite cons_middle, app_assoc. apply IH; [by rewrite <- app_assoc|done|done]. }
  apply (Hgen l [] (collector.new capacity)); [done|done|].
  exists []. split_and!; try done; try constructor; simpl; lia.
Qed.

(** What iteration yields after entries were pushed. *)
Lemma iter_sorts capacity l : 0 <= capacity -> Forall (fits capacity) l ->
  exists c, collector.push_all l (collector.new capacity) = Some c /\
    collector.iter c = {| entries := collector.sort_unstable l; completed := true |} /\
    StronglySorted le (entries (collector.iter c)) /\ entries (collector.iter c) ≡ₚ l.
Proof.
  intros Hc Hf. destruct (push_all_collects capacity l Hc Hf) as (c & Hpush & Hcol).
  exists c. split; [done|].
  assert (completed (collector.iter c) = true /\ StronglySorted le (entries (collector.iter c)) /\
    entries (collector.iter c) ≡ₚ l) as (Hdone & Hs & Hp).
  { destruct Hcol as (ls & Hh & Hsm & Hso & Hp & Hsz & _). unfold collector.iter.
    destruct (data_providers c) as [|p ps] eqn:Eps.
    { apply Forall2_nil_inv_l in Hh as ->. simpl in Hp. rewrite <- Hp. split; [done|]. apply sort_spec. }
    assert (Forall (fits capacity) (buffer c)) as Hfb.
    { rewrite <- Hp in Hf. by apply Forall_app in Hf as [_ ?]. }
    destruct (sizes_zero _ _ Hfb) as [_ Hzero].
    destruct (Z.eqb_spec (buffer_size c) 0) as [E|E]; cbn [negb].
    - rewrite Hzero, app_nil_r in Hp by congruence. rewrite <- Eps in Hh.
      destruct (merge_files _ ls Hh Hsm Hso) as (h & ps' & -> & ? & ? & Hperm).
      split_and!; [done|done|by rewrite Hperm].
    - rewrite <- Eps in Hh. destruct (flush_files c ls l Hh Hp) as [Hh1 Hp1].
      destruct (merge_files _ _ Hh1) as (h & ps' & -> & ? & ? & Hperm).
      + apply Forall_app_2; [done|]. constructor; [|done]. rewrite (proj2 (sort_spec (buffer c))).
        by apply (fits_small capacity).
      + apply Forall_app_2; [done|]. constructor; [|done]. apply sort_spec.
      + split_and!; [done|done|by rewrite Hperm]. }
  split_and!; [|done|done]. pose proof (sorted_unique l _ Hs Hp) as He.
  destruct (collector.iter c) as [es b]. simpl in *. by subst.
Qed.

(** C14: the collector is an external merge sort: entries with a key are all accepted, in
    whatever order they are pushed and however small the buffer is, and iteration
    yields exactly them, in order, to the end; so the result does not depend on the
    capacity or on the number of files. *)
Theorem collector_sorts capacity l : 0 <= capacity -> Forall (fits capacity) l ->
  exists c, collector.push_all l (collector.new capacity) = Some c /\
    collector.iter c = {| entries := collector.sort_unstable l; completed := true |} /\
    StronglySorted le (entries (collector.iter c)) /\ entries (collector.iter c) ≡ₚ l.
Proof. apply iter_sorts. Qed.

Definition sample_entries : list Entry :=
  [{| key := [x05]; value := [x01] |}; {| key := [x02; x07]; value := [] |};
   {| key := [x02]; value := [x09] |}; {| key := [x05]; value := [x00] |};
   {| key := [x01]; value := [xff; xff] |}].

(** With a capacity of two bytes the entries are spread over several files. *)
Lemma collector_sorts_witness :
  exists c, collector.push_all sample_entries (collector.new 2) = Some c /\
    collector.iter c = {| entries := collector.sort_unstable sample_entries; completed := true |} /\
    StronglySorted le (entries (collector.iter c)) /\
    entries (collector.iter c) ≡ₚ sample_entries.
Proof.
  apply (collector_sorts 2 sample_entries).
  - lia.
  - repeat constructor.
Defined.
