(* ===== verification/StagedSync.v ===== *)
(** Staged synchronisation (src/stagedsync): the pipeline that runs the stages in
    order and unwinds them in reverse order.

    The loops of [run] are a machine of steps, one call of a stage or of the database
    each: the loops may run forever.  The database is its committed content and the
    content the open transaction sees.  The clock, failures of the storage engine and
    whatever a stage depends on besides the database are the world, a parameter.
    Logging and the timings that are only logged are left out. *)
From S2P Require Import Prelude.
From Stdlib Require Import ZArith Lia.
From stdpp Require Import base list option numbers gmap strings.
#[local] Open Scope Z_scope.

(** ** stages.rs *)

Abbreviation StageId := string.

Definition HEADERS : StageId := "Headers".
Definition BLOCK_HASHES : StageId := "BlockHashes".
Definition BODIES : StageId := "Bodies".
Definition SENDERS : StageId := "SenderRecovery".
Definition TOTAL_GAS_INDEX : StageId := "TotalGasIndex".
Definition TOTAL_TX_INDEX : StageId := "TotalTxIndex".
Definition EXECUTION : StageId := "Execution".
Definition INTERMEDIATE_HASHES : StageId := "IntermediateHashes".
Definition HASH_STATE : StageId := "HashState".
Definition ACCOUNT_HISTORY_INDEX : StageId := "AccountHistoryIndex".
Definition STORAGE_HISTORY_INDEX : StageId := "StorageHistoryIndex".
Definition LOG_INDEX : StageId := "LogIndex".
Definition CALL_TRACES : StageId := "CallTraces".
Definition TX_LOOKUP : StageId := "TxLookup".
Definition TX_POOL : StageId := "TxPool".
Definition FINISH : StageId := "Finish".

(** The table of progress, and the tables of the stages. *)
Record Db (D : Type) := {
  sync_stage : gmap string Z;
  tables : D;
}.
Arguments sync_stage {D} _.
Arguments tables {D} _.
Arguments Build_Db {D} _ _.

(** What a call of a stage ends with. *)
Inductive outcome (A : Type) :=
  | Done (a : A)
  | Error
  | Panicked.
Arguments Done {A} a.
Arguments Error {A}.
Arguments Panicked {A}.

(** ** stage.rs *)

Record StageInput := {
  restarted : bool;
  first_started_at : Z * option Z;
  previous_stage : option (StageId * Z);
  stage_progress : option Z;
}.

Record UnwindInput := {
  unwind_from : Z;
  unwind_to : Z;
}.

Inductive ExecOutput :=
  | Unwind (to : Z)
  | Progress (progress : Z) (done : bool).

(** The trait [Stage]: [W] holds what the stages keep themselves. *)
Record Stage (D W : Type) := {
  stage_id : StageId;
  stage_execute : StageInput -> Db D -> W -> outcome (ExecOutput * Db D * W);
  stage_unwind : UnwindInput -> Db D -> W -> outcome (Z * Db D * W);
}.
Arguments stage_id {D W} _.
Arguments stage_execute {D W} _ _ _ _.
Arguments stage_unwind {D W} _ _ _ _.

(** The world around the pipeline. *)
Class Environment (W : Type) := {
  now : W -> Z;                    (* [Instant::now] *)
  storage : W -> option W;         (* a call of the storage engine, which may fail *)
  sleep : Z -> W -> W;
}.

(** ** mod.rs *)

Record StagedSync (D W : Type) := {
  stages : list (Stage D W);
  min_progress_to_commit_after_stage : Z;
  max_block : option Z;
  exit_after_sync : bool;
  delay_after_sync : option Z;
}.
Arguments stages {D W} _.
Arguments min_progress_to_commit_after_stage {D W} _.
Arguments max_block {D W} _.
Arguments exit_after_sync {D W} _.
Arguments delay_after_sync {D W} _.

(** Where [run] is. *)
Inductive phase (D W : Type) :=
  | Begin (unwind_to : option Z)
      (* the head of ['run_loop] *)
  | UnwindNext (to : Z) (todo : list (Stage D W))
      (* the loop over the stages in reverse order *)
  | Unwinding (to : Z) (s : Stage D W) (todo : list (Stage D W)) (progress : Z)
      (* [while stage_progress > to] *)
  | RunNext (todo : list (Stage D W)) (previous : option (StageId * Z)) (minimum : option Z)
      (* the loop over the stages in direct order *)
  | Invoking (s : Stage D W) (todo : list (Stage D W)) (restarted : bool)
      (started : Z * option Z) (previous : option (StageId * Z)) (minimum : option Z)
      (* the loop until the stage is done *)
  | Returned
  | Failed.
Arguments Begin {D W} _.
Arguments UnwindNext {D W} _ _.
Arguments Unwinding {D W} _ _ _ _.
Arguments RunNext {D W} _ _ _.
Arguments Invoking {D W} _ _ _ _ _ _.
Arguments Returned {D W}.
Arguments Failed {D W}.

Record Machine (D W : Type) := {
  committed : Db D;
  tx : Db D;
  world : W;
  at_phase : phase D W;
}.
Arguments committed {D W} _.
Arguments tx {D W} _.
Arguments world {D W} _.
Arguments at_phase {D W} _.
Arguments Build_Machine {D W} _ _ _ _.

Module staged_sync.

Section sync.
Context {D W : Type} `{Environment W}.

Definition new : StagedSync D W := {|
  stages := []; min_progress_to_commit_after_stage := 0; max_block := None;
  exit_after_sync := false; delay_after_sync := None;
|}.

Definition push (s : Stage D W) (c : StagedSync D W) : StagedSync D W := {|
  stages := stages c ++ [s];
  min_progress_to_commit_after_stage := min_progress_to_commit_after_stage c;
  max_block := max_block c; exit_after_sync := exit_after_sync c;
  delay_after_sync := delay_after_sync c;
|}.

Definition set_max_block (v : option Z) (c : StagedSync D W) : StagedSync D W := {|
  stages := stages c;
  min_progress_to_commit_after_stage := min_progress_to_commit_after_stage c;
  max_block := v; exit_after_sync := exit_after_sync c; delay_after_sync := delay_after_sync c;
|}.

Definition set_min_progress_to_commit_after_stage (v : Z) (c : StagedSync D W)
    : StagedSync D W := {|
  stages := stages c; min_progress_to_commit_after_stage := v; max_block := max_block c;
  exit_after_sync := exit_after_sync c; delay_after_sync := delay_after_sync c;
|}.

Definition set_exit_after_sync (v : bool) (c : StagedSync D W) : StagedSync D W := {|
  stages := stages c;
  min_progress_to_commit_after_stage := min_progress_to_commit_after_stage c;
  max_block := max_block c; exit_after_sync := v; delay_after_sync := delay_after_sync c;
|}.

Definition set_delay_after_sync (v : option Z) (c : StagedSync D W) : StagedSync D W := {|
  stages := stages c;
  min_progress_to_commit_after_stage := min_progress_to_commit_after_stage c;
  max_block := max_block c; exit_after_sync := exit_after_sync c; delay_after_sync := v;
|}.

Definition get_progress (id : StageId) (db : Db D) : option Z := sync_stage db !! id.

Definition save_progress (id : StageId) (block : Z) (db : Db D) : Db D :=
  {| sync_stage := <[id := block]> (sync_stage db); tables := tables db |}.

(** A call of the storage engine, after which the machine goes on. *)
Definition call (m : Machine D W) (go : W -> Machine D W) : Machine D W :=
  match storage (world m) with
  | Some w => go w
  | None => Build_Machine (committed m) (tx m) (world m) Failed
  end.

(** [std::cmp::min] with what was the least so far. *)
Definition least (minimum : option Z) (progress : Z) : Z :=
  match minimum with Some m => Z.min m progress | None => progress end.

(** Whether the transaction is committed after a call of the stage. *)
Definition commits (c : StagedSync D W) (progress : Z) (start : option Z) : bool :=
  min_progress_to_commit_after_stage c <=? Z.max 0 (progress - default 0 start).

Definition begin_loop (c : StagedSync D W) (unwind : option Z) (m : Machine D W) : Machine D W :=
  call m (fun w =>
    Build_Machine (committed m) (committed m) w
      (match unwind with
       | Some to => UnwindNext to (reverse (stages c))
       | None => RunNext (stages c) None None
       end)).

Definition unwind_next (to : Z) (todo : list (Stage D W)) (m : Machine D W) : Machine D W :=
  call m (fun w =>
    match todo with
    | [] => Build_Machine (tx m) (tx m) w (Begin None)
    | s :: todo =>
        let progress := default 0 (get_progress (stage_id s) (tx m)) in
        Build_Machine (committed m) (tx m) w
          (if to <? progress then Unwinding to s todo progress else UnwindNext to todo)
    end).

Definition unwind_stage (to : Z) (s : Stage D W) (todo : list (Stage D W)) (progress : Z)
    (m : Machine D W) : Machine D W :=
  match stage_unwind s {| unwind_from := progress; unwind_to := to |} (tx m) (world m) with
  | Done (progress, db, w) =>
      call (Build_Machine (committed m) db w (at_phase m)) (fun w =>
        Build_Machine (committed m) (save_progress (stage_id s) progress db) w
          (if to <? progress then Unwinding to s todo progress else UnwindNext to todo))
  | _ => Build_Machine (committed m) (tx m) (world m) Failed
  end.

Definition run_next (c : StagedSync D W) (todo : list (Stage D W))
    (previous : option (StageId * Z)) (minimum : option Z) (m : Machine D W) : Machine D W :=
  call m (fun w =>
    match todo with
    | [] =>
        let stop := match minimum, max_block c with
                    | Some least, Some b => least =? b
                    | _, _ => false
                    end in
        if stop then Build_Machine (tx m) (tx m) w Returned
        else
          let w := match delay_after_sync c with Some d => sleep d w | None => w end in
          Build_Machine (tx m) (tx m) w (Begin None)
    | s :: todo =>
        Build_Machine (committed m) (tx m) w
          (Invoking s todo false (now w, get_progress (stage_id s) (tx m)) previous minimum)
    end).

(** The progress of a call is saved, and committed when it is enough. *)
Definition record_progress (c : StagedSync D W) (s : Stage D W) (todo : list (Stage D W))
    (started : Z * option Z) (previous : option (StageId * Z)) (minimum : option Z)
    (progress : Z) (done : bool) (m : Machine D W) : Machine D W :=
  call m (fun w =>
    let db := save_progress (stage_id s) progress (tx m) in
    let minimum := Some (least minimum progress) in
    let next := if done then RunNext todo (Some (stage_id s, progress)) minimum
                else Invoking s todo true started previous minimum in
    if commits c progress (started.2) then
      call (Build_Machine (committed m) db w (at_phase m)) (fun w =>      (* commit *)
        call (Build_Machine db db w (at_phase m)) (fun w =>              (* begin_mutable *)
          Build_Machine db db w next))
    else Build_Machine (committed m) db w next).

Definition invoke (c : StagedSync D W) (s : Stage D W) (todo : list (Stage D W)) (again : bool)
    (started : Z * option Z) (previous : option (StageId * Z)) (minimum : option Z)
    (m : Machine D W) : Machine D W :=
  call m (fun w =>
    let input := {| restarted := again; first_started_at := started; previous_stage := previous;
                    stage_progress := get_progress (stage_id s) (tx m) |} in
    match stage_execute s input (tx m) w with
    | Done (Progress progress done, db, w) =>
        record_progress c s todo started previous minimum progress done
          (Build_Machine (committed m) db w (at_phase m))
    | Done (Unwind to, _, w) => Build_Machine (committed m) (committed m) w (Begin (Some to))
    | _ => Build_Machine (committed m) (tx m) w Failed
    end).

Definition step (c : StagedSync D W) (m : Machine D W) : Machine D W :=
  match at_phase m with
  | Begin unwind => begin_loop c unwind m
  | UnwindNext to todo => unwind_next to todo m
  | Unwinding to s todo progress => unwind_stage to s todo progress m
  | RunNext todo previous minimum => run_next c todo previous minimum m
  | Invoking s todo again started previous minimum =>
      invoke c s todo again started previous minimum m
  | Returned | Failed => m
  end.

(** [run]: the state after [n] steps from the head of the loop. *)
Definition start (db : Db D) (w : W) : Machine D W := Build_Machine db db w (Begin None).

Definition run (c : StagedSync D W) (n : nat) (m : Machine D W) : Machine D W :=
  Nat.iter n (step c) m.

End sync.

End staged_sync.
