(* ===== verification/StagedSyncSpec.v ===== *)
(** The pipeline of stages: what holds in every reachable state, and that unwinding
    and synchronisation come to an end when the stages do their part. *)
From S2P Require Import Prelude StagedSync.
From Stdlib Require Import ZArith Lia.
From stdpp Require Import base list option numbers gmap strings.
#[local] Open Scope Z_scope.

Section pipeline.
Context {D W : Type} {EN : Environment W}.
Implicit Types (c : StagedSync D W) (s : Stage D W) (m : Machine D W) (db : Db D).

(** The states of [run]. *)
Inductive reachable c (m0 : Machine D W) : Machine D W -> Prop :=
  | reach_start : reachable c m0 m0
  | reach_step m : reachable c m0 m -> reachable c m0 (staged_sync.step c m).

(** A stage leaves the table of progress to the pipeline. *)
Definition keeps_progress s : Prop :=
  (forall i db w o db' w', stage_execute s i db w = Done (o, db', w') ->
     sync_stage db' = sync_stage db) /\
  (forall i db w p db' w', stage_unwind s i db w = Done (p, db', w') ->
     sync_stage db' = sync_stage db).

(** Stages with unique identifiers that leave the table of progress alone. *)
Definition orderly c : Prop :=
  NoDup (stage_id <$> stages c) /\ Forall keeps_progress (stages c).

Definition progress_of s db : Z := default 0 (staged_sync.get_progress (stage_id s) db).

(** What a stage is told about the stage before it. *)
Definition handed_over (before : list (Stage D W)) (previous : option (StageId * Z)) db : Prop :=
  match last before with
  | None => previous = None
  | Some s => exists p, previous = Some (stage_id s, p) /\
                staged_sync.get_progress (stage_id s) db = Some p
  end.

(** Every stage that ran got at least as far as the least progress. *)
Definition got_to (minimum : option Z) db s : Prop :=
  exists low p, minimum = Some low /\ staged_sync.get_progress (stage_id s) db = Some p /\ low <= p.

Definition phase_ok c m : Prop :=
  match at_phase m with
  | Begin _ | Failed => True
  | UnwindNext to todo =>
      exists unwound, reverse (stages c) = unwound ++ todo /\
        Forall (fun s => progress_of s (tx m) <= to) unwound
  | Unwinding to s todo progress =>
      exists unwound, reverse (stages c) = unwound ++ s :: todo /\
        Forall (fun s => progress_of s (tx m) <= to) unwound /\ to < progress
  | RunNext todo previous minimum =>
      exists before, stages c = before ++ todo /\ handed_over before previous (tx m) /\
        Forall (got_to minimum (tx m)) before
  | Invoking s todo _ _ previous minimum =>
      exists before, stages c = before ++ s :: todo /\ handed_over before previous (tx m) /\
        Forall (got_to minimum (tx m)) before
  | Returned =>
      exists b, max_block c = Some b /\
        Forall (got_to (Some b) (committed m)) (stages c)
  end.

(** ** Progress of other stages *)

Lemma get_save_eq id p db :
  staged_sync.get_progress id (staged_sync.save_progress id p db) = Some p.
Proof. apply lookup_insert_eq. Qed.

Lemma get_save_ne id id' p db : id <> id' ->
  staged_sync.get_progress id' (staged_sync.save_progress id p db) =
  staged_sync.get_progress id' db.
Proof. intros. by apply lookup_insert_ne. Qed.

Lemma get_kept id db db' : sync_stage db' = sync_stage db ->
  staged_sync.get_progress id db' = staged_sync.get_progress id db.
Proof. unfold staged_sync.get_progress. by intros ->. Qed.

(** In a list without repetition the others have other identifiers. *)
Lemma ids_ne l s l' : NoDup (stage_id <$> (l ++ s :: l')) ->
  Forall (fun s' => stage_id s <> stage_id s') (l ++ l').
Proof.
  rewrite fmap_app, fmap_cons, <- Permutation_middle, <- fmap_app. intros [Hn _]%NoDup_cons.
  apply Forall_forall. intros s' Hin He. apply Hn. rewrite He. by apply list_elem_of_fmap_2.
Qed.

Lemma orderly_reverse c l s l' : orderly c -> reverse (stages c) = l ++ s :: l' ->
  Forall (fun s' => stage_id s <> stage_id s') l /\ keeps_progress s.
Proof.
  intros [Hn Hk] Hr. assert (stages c ≡ₚ l ++ s :: l') as Hp by (by rewrite <- Hr, reverse_Permutation).
  rewrite Hp in Hn. rewrite Hp in Hk. apply ids_ne, Forall_app in Hn as [Hn _].
  apply Forall_app in Hk as [_ [Hk _]%Forall_cons]. done.
Qed.

Lemma orderly_split c l s l' : orderly c -> stages c = l ++ s :: l' ->
  Forall (fun s' => stage_id s <> stage_id s') l /\ keeps_progress s.
Proof.
  intros [Hn Hk] Hr. rewrite Hr in Hn, Hk. apply ids_ne, Forall_app in Hn as [Hn _].
  apply Forall_app in Hk as [_ [Hk _]%Forall_cons]. done.
Qed.

(** The progress of a stage is saved after a call: the others keep theirs. *)
Lemma others_keep s p db db' l : Forall (fun s' => stage_id s <> stage_id s') l ->
  sync_stage db' = sync_stage db ->
  Forall (fun s' => staged_sync.get_progress (stage_id s')
                      (staged_sync.save_progress (stage_id s) p db') =
                    staged_sync.get_progress (stage_id s') db) l.
Proof.
  intros Hne Hk. eapply Forall_impl; [exact Hne|]. intros s' Hs'. simpl.
  rewrite get_save_ne by done. by apply get_kept.
Qed.

Lemma handed_over_keep before previous db db' :
  Forall (fun s => staged_sync.get_progress (stage_id s) db' =
                   staged_sync.get_progress (stage_id s) db) before ->
  handed_over before previous db -> handed_over before previous db'.
Proof.
  intros Hf. unfold handed_over. destruct (last before) as [s|] eqn:Hl; [|done].
  apply last_Some in Hl as [l ->]. apply Forall_app in Hf as [_ [Hf _]%Forall_cons].
  intros (p & -> & Hp). exists p. by rewrite Hf.
Qed.

Lemma got_to_keep minimum minimum' db db' l :
  Forall (fun s => staged_sync.get_progress (stage_id s) db' =
                   staged_sync.get_progress (stage_id s) db) l ->
  (forall low, minimum = Some low -> exists low', minimum' = Some low' /\ low' <= low) ->
  Forall (got_to minimum db) l -> Forall (got_to minimum' db') l.
Proof.
  intros Hf Hm Hg. rewrite Forall_forall in Hf, Hg |- *. intros s Hs.
  destruct (Hg s Hs) as (low & p & -> & Hp & Hle). destruct (Hm low eq_refl) as (low' & -> & ?).
  exists low', p. rewrite (Hf s Hs). split_and!; [done|done|lia].
Qed.

(** ** Every step keeps the invariant *)

Lemma call_ok c m go : (forall w, phase_ok c (go w)) -> phase_ok c (staged_sync.call m go).
Proof. unfold staged_sync.call. intros Hgo. destruct (storage (world m)); [apply Hgo|done]. Qed.

Lemma unwind_next_ok c m to todo : phase_ok c m -> at_phase m = UnwindNext to todo ->
  phase_ok c (staged_sync.unwind_next to todo m).
Proof.
  unfold phase_ok at 1. intros Hok Hp. rewrite Hp in Hok. destruct Hok as (unwound & Hr & Hf).
  apply call_ok. intros w. destruct todo as [|s todo]; [done|]. cbv zeta.
  destruct (Z.ltb_spec to (default 0 (staged_sync.get_progress (stage_id s) (tx m)))) as [Hlt|Hle];
    unfold phase_ok; cbn [at_phase tx committed].
  - exists unwound. done.
  - exists (unwound ++ [s]). rewrite <- app_assoc. split; [done|]. apply Forall_app_2; [done|].
    by constructor.
Qed.

Lemma unwind_stage_ok c m to s todo progress : orderly c -> phase_ok c m ->
  at_phase m = Unwinding to s todo progress ->
  phase_ok c (staged_sync.unwind_stage to s todo progress m).
Proof.
  unfold phase_ok at 1. intros Ho Hok Hp. rewrite Hp in Hok. destruct Hok as (unwound & Hr & Hf & Hlt).
  unfold staged_sync.unwind_stage.
  destruct (stage_unwind s _ (tx m) (world m)) as [[[p db] w]| |] eqn:Hu; [|done|done].
  destruct (orderly_reverse _ _ _ _ Ho Hr) as [Hne [_ Hkeep]]. apply Hkeep in Hu.
  pose proof (others_keep s p (tx m) db _ Hne Hu) as Hsame.
  apply call_ok. intros w'.
  assert (Forall (fun s' => progress_of s' (staged_sync.save_progress (stage_id s) p db) <= to) unwound) as Hf'.
  { rewrite Forall_forall in Hsame, Hf |- *. intros s' Hs'. unfold progress_of.
    rewrite (Hsame s' Hs'). by apply Hf. }
  destruct (Z.ltb_spec to p) as [Hlt'|Hle]; unfold phase_ok; cbn [at_phase tx committed].
  - by exists unwound.
  - exists (unwound ++ [s]). rewrite <- app_assoc. split; [done|]. apply Forall_app_2; [done|].
    constructor; [|done]. unfold progress_of. rewrite get_save_eq. done.
Qed.

Lemma run_next_ok c m todo previous minimum : phase_ok c m ->
  at_phase m = RunNext todo previous minimum ->
  phase_ok c (staged_sync.run_next c todo previous minimum m).
Proof.
  unfold phase_ok at 1. intros Hok Hp. rewrite Hp in Hok. destruct Hok as (before & Hs & Hh & Hg).
  apply call_ok. intros w. destruct todo as [|s todo]; [|by exists before].
  rewrite app_nil_r in Hs.
  destruct minimum as [low|], (max_block c) as [b|] eqn:Hb; try done.
  destruct (Z.eqb_spec low b) as [->|]; [|done]. unfold phase_ok; cbn [at_phase tx committed].
  exists b. split; [done|by rewrite Hs].
Qed.

Lemma record_progress_ok c m s todo again started previous minimum before progress done db w :
  orderly c -> stages c = before ++ s :: todo -> handed_over before previous (tx m) ->
  Forall (got_to minimum (tx m)) before -> sync_stage db = sync_stage (tx m) ->
  phase_ok c (staged_sync.record_progress c s todo started previous minimum progress done
    (Build_Machine (committed m) db w (Invoking s todo again started previous minimum))).
Proof.
  intros Ho Hs Hh Hg Hk. destruct (orderly_split _ _ _ _ Ho Hs) as [Hne _].
  pose proof (others_keep s progress (tx m) db _ Hne Hk) as Hsame.
  set (db1 := staged_sync.save_progress (stage_id s) progress db) in *.
  assert (Forall (got_to (Some (staged_sync.least minimum progress)) db1) before) as Hg1.
  { eapply got_to_keep; [done| |exact Hg]. intros low ->. eexists. split; [done|]. simpl. lia. }
  pose proof (handed_over_keep _ _ _ _ Hsame Hh) as Hh1.
  assert (forall d w, phase_ok c (Build_Machine d db1 w
    (if (done : bool) then RunNext todo (Some (stage_id s, progress)) (Some (staged_sync.least minimum progress))
     else Invoking s todo true started previous (Some (staged_sync.least minimum progress))))) as Hnext.
  { intros d w'. destruct done; unfold phase_ok; cbn [at_phase tx].
    - exists (before ++ [s]). rewrite <- app_assoc. split_and!; [done| |].
      + unfold handed_over. rewrite last_snoc. exists progress. split; [done|apply get_save_eq].
      + apply Forall_app_2; [done|]. constructor; [|done].
        eexists _, progress. split_and!; [done|apply get_save_eq|].
        unfold staged_sync.least. destruct minimum; lia.
    - exists before. done. }
  unfold staged_sync.record_progress. cbn [tx at_phase committed]. apply call_ok. intros w1.
  destruct (staged_sync.commits c progress started.2); [|apply Hnext].
  apply call_ok. intros w2. apply call_ok. intros w3. apply Hnext.
Qed.

Lemma invoke_ok c m s todo again started previous minimum : orderly c -> phase_ok c m ->
  at_phase m = Invoking s todo again started previous minimum ->
  phase_ok c (staged_sync.invoke c s todo again started previous minimum m).
Proof.
  unfold phase_ok at 1. intros Ho Hok Hp. rewrite Hp in Hok. destruct Hok as (before & Hs & Hh & Hg).
  destruct (orderly_split _ _ _ _ Ho Hs) as [_ [Hkeep _]]. apply call_ok. intros w. rewrite Hp. cbv zeta.
  destruct (stage_execute s _ (tx m) w) as [[[[to|progress done] db] w']| |] eqn:He;
    [exact I| |exact I|exact I].
  apply Hkeep in He. by apply (record_progress_ok c m s todo again started previous minimum before).
Qed.

Lemma step_ok c m : orderly c -> phase_ok c m -> phase_ok c (staged_sync.step c m).
Proof.
  intros Ho Hok. unfold staged_sync.step. destruct (at_phase m) eqn:Hp; try done.
  - apply call_ok. intros w. destruct unwind_to as [to|]; unfold phase_ok; cbn [at_phase tx].
    + exists []. by split.
    + exists []. by split_and!.
  - by apply unwind_next_ok.
  - by apply unwind_stage_ok.
  - by apply run_next_ok.
  - by apply invoke_ok.
Qed.

Lemma reachable_ok c db w m : orderly c -> reachable c (staged_sync.start db w) m -> phase_ok c m.
Proof. intros Ho. induction 1; [done|by apply step_ok]. Qed.

(** ** Getting somewhere *)

Definition leads c m (Q : Machine D W -> Prop) : Prop := exists n, Q (staged_sync.run c n m).

Lemma leads_now c m (Q : Machine D W -> Prop) : Q m -> leads c m Q.
Proof. by exists O. Qed.

Lemma leads_step c m Q : leads c (staged_sync.step c m) Q -> leads c m Q.
Proof.
  intros [n Hq]. exists (S n). unfold staged_sync.run in *. by rewrite Nat.iter_succ_r.
Qed.

Lemma leads_trans c m R Q : leads c m R -> (forall m', R m' -> leads c m' Q) -> leads c m Q.
Proof.
  intros [n Hr] Hq. destruct (Hq _ Hr) as [n' Hq']. exists (n' + n)%nat.
  unfold staged_sync.run in *. by rewrite Nat.iter_add.
Qed.

(** The storage engine does not fail. *)
Definition reliable : Prop := forall w : W, is_Some (storage w).

Lemma call_reliable m go : reliable -> exists w, staged_sync.call m go = go w.
Proof. intros Hr. destruct (Hr (world m)) as [w Hw]. exists w. unfold staged_sync.call. by rewrite Hw. Qed.

(** A stage that is told to unwind gets back some way at least. *)
Definition retreats s : Prop := forall i db w, unwind_to i < unwind_from i ->
  exists p db' w', stage_unwind s i db w = Done (p, db', w') /\ p < unwind_from i.

Lemma unwinding_leads c m to s todo progress : reliable -> retreats s ->
  at_phase m = Unwinding to s todo progress -> to < progress ->
  leads c m (fun m' => at_phase m' = UnwindNext to todo).
Proof.
  intros Hrel Hs. remember (Z.to_nat (progress - to)) as k eqn:Hk. revert m progress Hk.
  induction k as [k IH] using lt_wf_ind. intros m progress Hk Hp Hlt. apply leads_step.
  unfold staged_sync.step. rewrite Hp. unfold staged_sync.unwind_stage.
  destruct (Hs {| unwind_from := progress; unwind_to := to |} (tx m) (world m) Hlt)
    as (p & db & w & -> & Hless). simpl in Hless.
  match goal with |- leads _ (staged_sync.call ?m ?go) _ =>
    destruct (call_reliable m go Hrel) as [w' ->] end.
  destruct (Z.ltb_spec to p) as [Hlt'|Hle].
  - eapply (IH (Z.to_nat (p - to))); [lia|done|done|done].
  - by apply leads_now.
Qed.

Lemma unwind_all_leads c to todo : reliable -> Forall retreats todo -> forall m,
  at_phase m = UnwindNext to todo ->
  leads c m (fun m' => at_phase m' = UnwindNext to []).
Proof.
  intros Hrel. induction 1 as [|s todo Hs _ IH]; intros m Hp; [by apply leads_now|].
  apply leads_step. unfold staged_sync.step. rewrite Hp. unfold staged_sync.unwind_next.
  match goal with |- leads _ (staged_sync.call ?m ?go) _ =>
    destruct (call_reliable m go Hrel) as [w ->] end. cbv zeta.
  destruct (Z.ltb_spec to (default 0 (staged_sync.get_progress (stage_id s) (tx m)))) as [Hlt|Hle].
  - eapply leads_trans; [by eapply unwinding_leads|]. done.
  - by apply IH.
Qed.

Lemma reachable_run c m0 m n : reachable c m0 m -> reachable c m0 (staged_sync.run c n m).
Proof. intros Hr. induction n as [|n IH]; [done|]. by apply reach_step. Qed.

(** Each unwind that was requested is finished and committed, and then no stage is
    ahead of the point of the unwind. *)
Lemma unwind_leads c db w m to : orderly c -> reliable -> Forall retreats (stages c) ->
  reachable c (staged_sync.start db w) m -> at_phase m = Begin (Some to) ->
  leads c m (fun m' => at_phase m' = Begin None /\
    Forall (fun s => progress_of s (committed m') <= to) (stages c)).
Proof.
  intros Ho Hrel Hret Hreach Hp.
  assert (leads c m (fun m' => at_phase m' = UnwindNext to [])) as [n Hn].
  { apply leads_step. unfold staged_sync.step. rewrite Hp. unfold staged_sync.begin_loop.
    match goal with |- leads _ (staged_sync.call ?m ?go) _ =>
      destruct (call_reliable m go Hrel) as [w' ->] end.
    apply (unwind_all_leads c to (reverse (stages c)) Hrel); [by apply Forall_reverse|done]. }
  pose proof (reachable_ok c db w _ Ho (reachable_run c _ m n Hreach)) as Hok.
  unfold phase_ok in Hok. rewrite Hn in Hok. destruct Hok as (unwound & Hr & Hf).
  rewrite app_nil_r in Hr.
  apply (leads_trans c m (fun m' => m' = staged_sync.run c n m)); [by exists n|]. intros m' ->.
  apply leads_step. unfold staged_sync.step. rewrite Hn. unfold staged_sync.unwind_next.
  match goal with |- leads _ (staged_sync.call ?m ?go) _ =>
    destruct (call_reliable m go Hrel) as [w' ->] end.
  apply leads_now. split; [done|]. cbn [committed]. rewrite <- Hr in Hf. by rewrite Forall_reverse in Hf.
Qed.

(** ** Synchronisation *)

(** A stage that works towards the block [b]: told that the stage before it is there
    (or, for the first stage, on its own) it reports that it is done at [b], or some
    progress before that.  [I] is what the stages rely on in the database. *)
Definition diligent (I : Db D -> Prop) (b : Z) (told : option (StageId * Z) -> Prop) s : Prop :=
  forall i db w, I db -> told (previous_stage i) ->
    stage_progress i = staged_sync.get_progress (stage_id s) db ->
    default 0 (stage_progress i) <= b ->
    exists q done db' w', stage_execute s i db w = Done (Progress q done, db', w') /\
      sync_stage db' = sync_stage db /\ I (staged_sync.save_progress (stage_id s) q db') /\
      (if (done : bool) then q = b else default 0 (stage_progress i) < q <= b).

Definition told_first (p : option (StageId * Z)) : Prop := p = None.
Definition told_next (b : Z) (p : option (StageId * Z)) : Prop := exists id, p = Some (id, b).

(** Another stage is where it was before, or the call did not concern it. *)
Definition same_progress id db db' : Prop :=
  forall id', id' <> id -> staged_sync.get_progress id' db' = staged_sync.get_progress id' db.

Lemma record_leads c m s todo started previous minimum progress done :
  reliable -> exists d w,
    staged_sync.record_progress c s todo started previous minimum progress done m =
    Build_Machine d (staged_sync.save_progress (stage_id s) progress (tx m)) w
      (if (done : bool)
       then RunNext todo (Some (stage_id s, progress)) (Some (staged_sync.least minimum progress))
       else Invoking s todo true started previous (Some (staged_sync.least minimum progress))).
Proof.
  intros Hrel. unfold staged_sync.record_progress.
  match goal with |- context [staged_sync.call ?m ?go] =>
    destruct (call_reliable m go Hrel) as [w ->] end. cbv zeta.
  destruct (staged_sync.commits c progress started.2); [|by eexists _, _].
  match goal with |- context [staged_sync.call ?m ?go] =>
    destruct (call_reliable m go Hrel) as [w1 ->] end.
  match goal with |- context [staged_sync.call ?m ?go] =>
    destruct (call_reliable m go Hrel) as [w2 ->] end.
  by eexists _, _.
Qed.

(** The least progress so far is [b], if nothing else was reported. *)
Definition only (b : Z) (minimum : option Z) : Prop := minimum = None \/ minimum = Some b.
Definition upto (b : Z) (minimum : option Z) : Prop := forall low, minimum = Some low -> low <= b.

Lemma only_least b minimum : only b minimum -> only b (Some (staged_sync.least minimum b)).
Proof. intros [-> | ->]; right; simpl; [done|]. by rewrite Z.min_id. Qed.

Lemma upto_least b minimum p : upto b minimum -> p <= b -> upto b (Some (staged_sync.least minimum p)).
Proof. intros Hu Hp low [= <-]. destruct minimum; simpl; lia. Qed.

(** A stage is invoked until it is done at [b]. *)
Lemma invoking_leads I c b s todo : reliable -> forall told, diligent I b told s ->
  forall m again started previous minimum, told previous ->
  at_phase m = Invoking s todo again started previous minimum -> I (tx m) ->
  progress_of s (tx m) <= b -> upto b minimum ->
  leads c m (fun m' => exists low, at_phase m' = RunNext todo (Some (stage_id s, b)) (Some low) /\
    I (tx m') /\ staged_sync.get_progress (stage_id s) (tx m') = Some b /\
    same_progress (stage_id s) (tx m) (tx m') /\ low <= b /\
    (only b minimum -> progress_of s (tx m) = b -> low = b)).
Proof.
  intros Hrel told Hd m. remember (Z.to_nat (b - progress_of s (tx m))) as k eqn:Hk. revert m Hk.
  induction k as [k IH] using lt_wf_ind.
  intros m Hk again started previous minimum Ht Hp HI Hle Hup. apply leads_step.
  unfold staged_sync.step. rewrite Hp. unfold staged_sync.invoke.
  match goal with |- leads _ (staged_sync.call ?m ?go) _ =>
    destruct (call_reliable m go Hrel) as [w ->] end. cbv zeta.
  destruct (Hd {| restarted := again; first_started_at := started; previous_stage := previous;
                  stage_progress := staged_sync.get_progress (stage_id s) (tx m) |} (tx m) w)
    as (q & fin & db & w' & -> & Hkeep & HI' & Hq); [done|done|done|done|].
  cbn [stage_progress] in Hq. fold (progress_of s (tx m)) in Hq.
  match goal with |- leads _ (staged_sync.record_progress _ _ _ _ _ _ _ _ ?mm) _ =>
    destruct (record_leads c mm s todo started previous minimum q fin Hrel) as (d & w1 & ->) end.
  cbn [tx].
  set (db1 := staged_sync.save_progress (stage_id s) q db) in *.
  assert (same_progress (stage_id s) (tx m) db1) as Hsame.
  { intros id Hid. unfold db1. rewrite get_save_ne by done. by apply get_kept. }
  assert (staged_sync.get_progress (stage_id s) db1 = Some q) as Hget by apply get_save_eq.
  destruct fin.
  - subst q. apply leads_now. exists (staged_sync.least minimum b). cbn [at_phase tx].
    split_and!; try done.
    + destruct minimum as [low|]; simpl; [|lia]. lia.
    + intros Honly _. destruct (only_least b minimum Honly) as [?|[= ?]]; done.
  - assert (progress_of s db1 = q) as Hpq by (unfold progress_of; by rewrite Hget).
    eapply leads_trans.
    { eapply (IH (Z.to_nat (b - q))); [lia|cbn [tx]; by rewrite Hpq|exact Ht|done|done| |].
      - cbn [tx]. lia.
      - apply upto_least; [done|lia]. }
    intros m' (low & Hp' & HI'' & Hg' & Hs' & Hl' & _). apply leads_now. exists low.
    split_and!; try done; [|lia]. intros id Hid. cbn [tx] in Hs'. rewrite (Hs' id Hid). by apply Hsame.
Qed.

(** The first stage works on its own, the others after the stage before them. *)
Definition lawful (I : Db D -> Prop) (b : Z) c : Prop :=
  match stages c with
  | [] => False
  | s :: rest => diligent I b told_first s /\ Forall (diligent I b (told_next b)) rest
  end.

Definition is_at (b : Z) db s : Prop := staged_sync.get_progress (stage_id s) db = Some b.

(** What the stage after [before] is told. *)
Definition told_after (b : Z) (before : list (Stage D W)) : option (StageId * Z) -> Prop :=
  match before with [] => told_first | _ => told_next b end.

Lemma lawful_split I b c before s todo : lawful I b c -> stages c = before ++ s :: todo ->
  diligent I b (told_after b before) s.
Proof.
  unfold lawful. intros Hl Hs. rewrite Hs in Hl. destruct before as [|s0 before]; [by destruct Hl|].
  destruct Hl as [_ Hl]. by apply Forall_app in Hl as [_ [Hl _]%Forall_cons].
Qed.

(** A round from the stage after [before] on. *)
Lemma round_leads I c b todo : reliable -> orderly c -> lawful I b c ->
  forall before m previous minimum, stages c = before ++ todo ->
  at_phase m = RunNext todo previous minimum -> told_after b before previous -> I (tx m) ->
  Forall (is_at b (tx m)) before -> Forall (fun s => progress_of s (tx m) <= b) todo ->
  upto b minimum -> (before <> [] -> is_Some minimum) ->
  leads c m (fun m' => exists previous' low, at_phase m' = RunNext [] previous' (Some low) /\
    I (tx m') /\ Forall (is_at b (tx m')) (stages c) /\ low <= b /\
    (only b minimum -> Forall (fun s => progress_of s (tx m) = b) todo -> low = b)).
Proof.
  intros Hrel Ho Hl. induction todo as [|s todo IH];
    intros before m previous minimum Hs Hp Ht HI Hbefore Htodo Hup Hsome.
  - rewrite app_nil_r in Hs. subst before. apply leads_now.
    destruct Hsome as [low ->]; [by intros Hn; unfold lawful in Hl; rewrite Hn in Hl|].
    exists previous, low. split_and!; try done; [by apply Hup|].
    intros [?|[= ->]] _; done.
  - apply leads_step. unfold staged_sync.step. rewrite Hp. unfold staged_sync.run_next.
    match goal with |- leads _ (staged_sync.call ?m ?go) _ =>
      destruct (call_reliable m go Hrel) as [w ->] end.
    apply Forall_cons in Htodo as [Hle Htodo].
    eapply leads_trans.
    { eapply (invoking_leads I c b s todo Hrel _ (lawful_split _ _ _ _ _ _ Hl Hs)); try done. }
    cbn [tx]. intros m' (low & Hp' & HI' & Hget & Hsame & Hlow & Hexact).
    assert (NoDup (stage_id <$> (before ++ s :: todo))) as Hn by (rewrite <- Hs; apply Ho).
    apply ids_ne, Forall_app in Hn as [Hnb Hnt].
    assert (Forall (fun s' => staged_sync.get_progress (stage_id s') (tx m') =
                              staged_sync.get_progress (stage_id s') (tx m)) todo) as Hkt.
    { eapply Forall_impl; [exact Hnt|]. intros s' Hne. apply Hsame. congruence. }
    assert (Forall (fun s' => progress_of s' (tx m') = progress_of s' (tx m)) todo) as Hkt'.
    { eapply Forall_impl; [exact Hkt|]. intros s' He. unfold progress_of. by rewrite He. }
    eapply leads_trans.
    { eapply (IH (before ++ [s])); [by rewrite <- app_assoc|exact Hp'| |exact HI'| | | |].
      - unfold told_after. destruct before; by eexists.
      - apply Forall_app_2; [|by constructor]. rewrite Forall_forall in Hbefore, Hnb |- *.
        intros s' Hin. unfold is_at. rewrite Hsame; [by apply Hbefore|]. specialize (Hnb s' Hin). congruence.
      - rewrite Forall_forall in Htodo, Hkt' |- *. intros s' Hin. rewrite Hkt' by done. by apply Htodo.
      - intros l [= <-]. done.
      - done. }
    intros m'' (previous'' & low'' & Hp'' & HI'' & Hat & Hlow'' & Hexact''). apply leads_now.
    exists previous'', low''. split_and!; try done. intros Honly [Hpb Hall]%Forall_cons.
    apply Hexact''; [right; f_equal; by apply Hexact|].
    rewrite Forall_forall in Hall, Hkt' |- *. intros s' Hin. rewrite Hkt' by done. by apply Hall.
Qed.

(** Either the round is the last one, or the next one starts. *)
Lemma round_end c m previous low b : reliable -> max_block c = Some b ->
  at_phase m = RunNext [] previous (Some low) ->
  leads c m (fun m' => tx m' = tx m /\ committed m' = tx m /\
    at_phase m' = (if low =? b then Returned else Begin None)).
Proof.
  intros Hrel Hb Hp. apply leads_step. unfold staged_sync.step. rewrite Hp.
  unfold staged_sync.run_next.
  match goal with |- leads _ (staged_sync.call ?m ?go) _ =>
    destruct (call_reliable m go Hrel) as [w ->] end. rewrite Hb. cbv zeta.
  apply leads_now. by destruct (low =? b).
Qed.

Lemma begin_leads c m : reliable -> at_phase m = Begin None ->
  leads c m (fun m' => tx m' = committed m /\ at_phase m' = RunNext (stages c) None None).
Proof.
  intros Hrel Hp. apply leads_step. unfold staged_sync.step. rewrite Hp. unfold staged_sync.begin_loop.
  match goal with |- leads _ (staged_sync.call ?m ?go) _ =>
    destruct (call_reliable m go Hrel) as [w ->] end. by apply leads_now.
Qed.

(** A whole round, from the head of the loop. *)
Lemma whole_round I c b m : reliable -> orderly c -> lawful I b c -> max_block c = Some b ->
  at_phase m = Begin None -> I (committed m) ->
  Forall (fun s => progress_of s (committed m) <= b) (stages c) ->
  leads c m (fun m' => I (committed m') /\ Forall (is_at b (committed m')) (stages c) /\
    (at_phase m' = Returned \/
     at_phase m' = Begin None /\ ~ Forall (fun s => progress_of s (committed m) = b) (stages c))).
Proof.
  intros Hrel Ho Hl Hb Hp HI Hle. eapply leads_trans; [by apply begin_leads|].
  intros m1 (Htx & Hp1). eapply leads_trans.
  { apply (round_leads I c b (stages c) Hrel Ho Hl [] m1 None None); try done; by rewrite Htx. }
  intros m2 (previous & low & Hp2 & HI2 & Hat & Hlow & Hexact).
  eapply leads_trans; [by apply (round_end c m2 previous low b)|].
  intros m3 (_ & Hc3 & Hp3). apply leads_now. rewrite Hc3. split_and!; [done|done|].
  destruct (Z.eqb_spec low b) as [->|Hne]; [by left|]. right. split; [done|].
  intros Hall. apply Hne, Hexact; [by left|]. by rewrite Htx.
Qed.

Lemma sync_leads I c b m : reliable -> orderly c -> lawful I b c -> max_block c = Some b ->
  at_phase m = Begin None -> I (committed m) ->
  Forall (fun s => progress_of s (committed m) <= b) (stages c) ->
  leads c m (fun m' => at_phase m' = Returned /\ I (committed m') /\
    Forall (is_at b (committed m')) (stages c)).
Proof.
  intros Hrel Ho Hl Hb Hp HI Hle.
  eapply leads_trans; [by apply (whole_round I c b m)|].
  intros m1 (HI1 & Hat1 & [Hret|[Hp1 _]]); [by apply leads_now|].
  assert (Forall (fun s => progress_of s (committed m1) = b) (stages c)) as Hb1.
  { eapply Forall_impl; [exact Hat1|]. intros s Hs. unfold progress_of. by rewrite Hs. }
  eapply leads_trans.
  { apply (whole_round I c b m1); try done. eapply Forall_impl; [exact Hb1|]. simpl. lia. }
  intros m2 (HI2 & Hat2 & [Hret|[_ Hn]]); [by apply leads_now|]. by destruct Hn.
Qed.

End pipeline.

(** ** Theorems *)

(** A pipeline to evaluate: two stages without tables.  The first counts up to five,
    one block in a call, the second follows; both go back one block in a call. *)
Module counting.

#[export] Instance environment : Environment unit := {|
  now _ := 0; storage w := Some w; sleep _ w := w;
|}.

Definition go_back (i : UnwindInput) (db : Db unit) (w : unit) : outcome (Z * Db unit * unit) :=
  Done (unwind_from i - 1, db, w).

Definition first : Stage unit unit := {|
  stage_id := HEADERS;
  stage_execute i db w :=
    let p := default 0 (stage_progress i) in
    Done (if p <? 5 then Progress (p + 1) (p + 1 =? 5) else Progress p true, db, w);
  stage_unwind := go_back;
|}.

(** The second asks for an unwind to block 2 when its own progress is zero. *)
Definition second : Stage unit unit := {|
  stage_id := FINISH;
  stage_execute i db w :=
    Done (match stage_progress i with
          | Some 0 => Unwind 2
          | _ => Progress (default 0 (snd <$> previous_stage i)) true
          end, db, w);
  stage_unwind := go_back;
|}.

Definition pipeline : StagedSync unit unit := {|
  stages := [first; second]; min_progress_to_commit_after_stage := 1; max_block := Some 5;
  exit_after_sync := true; delay_after_sync := None;
|}.

Definition database : Db unit :=
  Build_Db {[ HEADERS := 3; FINISH := 0 ]} tt.

Lemma pipeline_orderly : orderly pipeline.
Proof.
  split; [apply (bool_decide_unpack _); vm_compute; exact I|].
  repeat constructor; intros ? ? ? ? ? ? He; inversion He; done.
Qed.

(** The state in which the second stage has asked for an unwind. *)
Definition asked : Machine unit unit :=
  staged_sync.run pipeline 6 (staged_sync.start database tt).

Lemma asked_reachable : reachable pipeline (staged_sync.start database tt) asked.
Proof. apply reachable_run, reach_start. Qed.

End counting.

#[local] Existing Instance counting.environment.

(** C11: in every state the pipeline can get to, a stage that is invoked is told the
    identifier and the saved progress of the stage right before it, or nothing if it
    is the first; the stages behind the one that is being unwound are not ahead of
    the point of the unwind; and when [run] returns, every stage has committed
    progress of at least the last block asked for. *)
Theorem pipeline_invariant {D W : Type} {EN : Environment W} (c : StagedSync D W) db w m :
  orderly c -> reachable c (staged_sync.start db w) m -> phase_ok c m.
Proof. apply reachable_ok. Qed.

Lemma pipeline_invariant_witness :
  at_phase counting.asked = Begin (Some 2) /\ phase_ok counting.pipeline counting.asked.
Proof.
  split; [vm_compute; reflexivity|].
  apply (pipeline_invariant counting.pipeline counting.database tt counting.asked).
  - exact counting.pipeline_orderly.
  - exact counting.asked_reachable.
Defined.

(** C10: when a stage asks for an unwind, the pipeline unwinds: if the storage engine
    works and each call of a stage to unwind gets it back at least one block, then
    after finitely many steps the unwind is committed, no stage is ahead of the point
    of the unwind, and the next round begins. *)
Theorem requested_unwind_completes {D W : Type} {EN : Environment W} (c : StagedSync D W) db w m to :
  orderly c -> reliable (W := W) -> Forall retreats (stages c) ->
  reachable c (staged_sync.start db w) m -> at_phase m = Begin (Some to) ->
  exists n, let m' := staged_sync.run c n m in
    at_phase m' = Begin None /\
    Forall (fun s => progress_of s (committed m') <= to) (stages c).
Proof. apply unwind_leads. Qed.

Lemma requested_unwind_completes_witness :
  exists n, let m' := staged_sync.run counting.pipeline n counting.asked in
    at_phase m' = Begin None /\
    Forall (fun s => progress_of s (committed m') <= 2) [counting.first; counting.second].
Proof.
  apply (requested_unwind_completes counting.pipeline counting.database tt counting.asked 2).
  - exact counting.pipeline_orderly.
  - intros w. exists w. reflexivity.
  - repeat constructor; intros i db w Hi; exists (unwind_from i - 1), db, w; (split; [reflexivity|lia]).
  - exact counting.asked_reachable.
  - vm_compute. reflexivity.
Defined.
