(* ===== verification/Kv.v ===== *)
(** Tables of the storage engine (src/kv/mdbx.rs).

    The engine is another crate.  A table is a type with the operations of its
    cursors and the documented behaviour of these as laws about the content of the
    table; keys are numbers, as their encodings are big-endian and of one width.
    What a cursor stands on is the entry that was found last.  A failure of the
    engine ends a stage with an error, as any other error does; the tables leave it
    out. *)
From S2P Require Import Prelude.
From Stdlib Require Import ZArith Lia.
From stdpp Require Import base list option numbers gmap sorting.
#[local] Open Scope Z_scope.

(** The best entry, in the order [R], among those that satisfy a condition. *)
Definition is_best (R : Z -> Z -> Prop) {V} (m : gmap Z V) (P : Z -> Prop) (o : option (Z * V))
    : Prop :=
  match o with
  | Some (k, v) => m !! k = Some v /\ P k /\ forall k' v', m !! k' = Some v' -> P k' -> R k k'
  | None => forall k v, m !! k = Some v -> ~ P k
  end.

Abbreviation is_least := (is_best Z.le).
Abbreviation is_greatest := (is_best Z.ge).

Class Kv (T : Type -> Type) := {
  content {V} : T V -> gmap Z V;
  kv_get {V} : Z -> T V -> option V;                  (* [get], [seek_exact] *)
  kv_seek {V} : Z -> T V -> option (Z * V);           (* [set_range] *)
  kv_prev {V} : Z -> T V -> option (Z * V);           (* [prev] of the entry at a key *)
  kv_last {V} : T V -> option (Z * V);
  kv_put {V} : Z -> V -> T V -> T V;
  kv_append {V} : Z -> V -> T V -> option (T V);      (* fails unless the key is the last *)
  kv_delete {V} : Z -> T V -> T V;                    (* [delete_current] on the entry at a key *)
  kv_clear {V} : T V -> T V;                          (* [clear_table] *)
  kv_get_content {V} k (t : T V) : kv_get k t = content t !! k;
  kv_seek_content {V} k (t : T V) : is_least (content t) (fun k' => k <= k') (kv_seek k t);
  kv_prev_content {V} k (t : T V) : is_greatest (content t) (fun k' => k' < k) (kv_prev k t);
  kv_last_content {V} (t : T V) : is_greatest (content t) (fun _ => True) (kv_last t);
  kv_put_content {V} k v (t : T V) : content (kv_put k v t) = <[k := v]> (content t);
  kv_append_content {V} k v (t : T V) : (forall k' v', content t !! k' = Some v' -> k' < k) ->
    exists t', kv_append k v t = Some t' /\ content t' = <[k := v]> (content t);
  kv_append_fails {V} k v (t : T V) k' v' : content t !! k' = Some v' -> k <= k' ->
    kv_append k v t = None;
  kv_delete_content {V} k (t : T V) : content (kv_delete k t) = delete k (content t);
  kv_clear_content {V} (t : T V) : content (kv_clear t) = ∅;
}.

Section walks.
Context {T : Type -> Type} {KV : Kv T} {V : Type}.

(** [walk(Some(start))]: each [next] finds the least key after the current one. *)
Fixpoint walk_from (fuel : nat) (start : Z) (t : T V) : list (Z * V) :=
  match fuel with
  | O => []
  | S fuel =>
      match kv_seek start t with
      | Some (k, v) => (k, v) :: walk_from fuel (k + 1) t
      | None => []
      end
  end.

(** A table has as many entries as the walk can find. *)
Definition walk (start : Z) (t : T V) : list (Z * V) :=
  walk_from (size (content t)) start t.

(** [walk_back(None)]. *)
Fixpoint back_from (fuel : nat) (e : option (Z * V)) (t : T V) : list (Z * V) :=
  match fuel, e with
  | S fuel, Some (k, v) => (k, v) :: back_from fuel (kv_prev k t) t
  | _, _ => []
  end.

Definition walk_back (t : T V) : list (Z * V) := back_from (size (content t)) (kv_last t) t.

End walks.

(** ** Lemmas *)

(** The order of the entries of a table. *)
Definition key_lt {V} (e f : Z * V) : Prop := e.1 < f.1.

Section lemmas.
Context {T : Type -> Type} {KV : Kv T}.

Lemma seek_exact {V} k v (t : T V) : content t !! k = Some v -> kv_seek k t = Some (k, v).
Proof.
  intros Hk. pose proof (kv_seek_content k t) as Hs. destruct (kv_seek k t) as [[k' v']|].
  - destruct Hs as (Hk' & Hle & Hmin). assert (k' = k) as ->.
    { specialize (Hmin k v Hk ltac:(lia)). lia. }
    congruence.
  - destruct (Hs k v Hk). lia.
Qed.

(** Walking finds all entries from a key on, in the order of the keys. *)
Lemma walk_from_spec {V} fuel start (t : T V) :
  (size (filter (fun e => (start <= e.1)%Z) (content t)) <= fuel)%nat ->
  StronglySorted key_lt (walk_from fuel start t) /\
  forall k v, (k, v) ∈ walk_from fuel start t <-> content t !! k = Some v /\ start <= k.
Proof.
  revert start. induction fuel as [|fuel IH]; intros start Hsize; cbn [walk_from].
  - split; [constructor|]. intros k v. split; [by intros ?%elem_of_nil|]. intros [Hk Hle].
    assert (size (filter (fun e => (start <= e.1)%Z) (content t)) = O) as E by lia.
    apply map_size_empty_inv in E. exfalso.
    eapply (lookup_empty_Some (M := gmap Z) k v). rewrite <- E. by apply map_lookup_filter_Some.
  - pose proof (kv_seek_content start t) as Hs. destruct (kv_seek start t) as [[k v]|].
    + destruct Hs as (Hk & Hle & Hmin).
      destruct (IH (k + 1)) as [Hsort Hel].
      { assert (filter (fun e => (k + 1 <= e.1)%Z) (content t) =
          delete k (filter (fun e => (start <= e.1)%Z) (content t))) as ->.
        { apply map_eq. intros j. apply option_eq. intros w.
          rewrite lookup_delete_Some, !map_lookup_filter_Some. simpl. split; [intros []|intros (? & ? & ?)].
          - split_and!; [lia|done|lia].
          - split; [done|]. specialize (Hmin j w ltac:(done) ltac:(done)). lia. }
        rewrite map_size_delete_Some; [lia|]. exists v. by apply map_lookup_filter_Some. }
      split.
      * constructor; [done|]. apply Forall_forall. intros [j w] [_ Hj]%Hel. unfold key_lt. simpl. lia.
      * intros j w. rewrite elem_of_cons, Hel. split.
        -- intros [[= -> ->]|[? ?]]; [done|]. split; [done|lia].
        -- intros [Hj Hjs]. destruct (decide (j = k)) as [->|Hne]; [left; congruence|right].
           split; [done|]. specialize (Hmin j w Hj Hjs). lia.
    + split; [constructor|]. intros k v. split; [by intros ?%elem_of_nil|]. intros [Hk Hle].
      by destruct (Hs k v Hk).
Qed.

Lemma walk_spec {V} start (t : T V) :
  StronglySorted key_lt (walk start t) /\
  forall k v, (k, v) ∈ walk start t <-> content t !! k = Some v /\ start <= k.
Proof. apply walk_from_spec. apply map_size_filter. Qed.

Lemma walk_all {V} (t : T V) k v start : (forall k v, content t !! k = Some v -> start <= k) ->
  (k, v) ∈ walk start t <-> content t !! k = Some v.
Proof. intros Hs. destruct (walk_spec start t) as [_ ->]. naive_solver. Qed.

(** Walking back finds all entries, the last one first. *)
Definition key_gt {V} (e f : Z * V) : Prop := f.1 < e.1.

Lemma back_from_spec {V} fuel bound e (t : T V) :
  is_greatest (content t) (fun k => k < bound) e ->
  (size (filter (fun e => (e.1 < bound)%Z) (content t)) <= fuel)%nat ->
  StronglySorted key_gt (back_from fuel e t) /\
  forall k v, (k, v) ∈ back_from fuel e t <-> content t !! k = Some v /\ k < bound.
Proof.
  revert bound e. induction fuel as [|fuel IH]; intros bound e He Hsize; cbn [back_from].
  - split; [constructor|]. intros k v. split; [by intros ?%elem_of_nil|]. intros [Hk Hle].
    assert (size (filter (fun e => (e.1 < bound)%Z) (content t)) = O) as E by lia.
    apply map_size_empty_inv in E. exfalso.
    eapply (lookup_empty_Some (M := gmap Z) k v). rewrite <- E. by apply map_lookup_filter_Some.
  - destruct e as [[k v]|].
    + destruct He as (Hk & Hle & Hmax). destruct (IH k (kv_prev k t) (kv_prev_content k t)) as [Hsort Hel].
      { assert (filter (fun e => (e.1 < k)%Z) (content t) =
          delete k (filter (fun e => (e.1 < bound)%Z) (content t))) as ->.
        { apply map_eq. intros j. apply option_eq. intros w.
          rewrite lookup_delete_Some, !map_lookup_filter_Some. simpl. split; [intros []|intros (? & ? & ?)].
          - split_and!; [lia|done|lia].
          - split; [done|]. specialize (Hmax j w ltac:(done) ltac:(done)). lia. }
        rewrite map_size_delete_Some; [lia|]. exists v. by apply map_lookup_filter_Some. }
      split.
      * constructor; [done|]. apply Forall_forall. intros [j w] [_ Hj]%Hel. unfold key_gt. simpl. lia.
      * intros j w. rewrite elem_of_cons, Hel. split.
        -- intros [[= -> ->]|[? ?]]; [done|]. split; [done|lia].
        -- intros [Hj Hjs]. destruct (decide (j = k)) as [->|Hne]; [left; congruence|right].
           split; [done|]. specialize (Hmax j w Hj Hjs). lia.
    + split; [constructor|]. intros k v. split; [by intros ?%elem_of_nil|]. intros [Hk Hle].
      by destruct (He k v Hk).
Qed.

Lemma walk_back_spec {V} (t : T V) :
  StronglySorted key_gt (walk_back t) /\ forall k v, (k, v) ∈ walk_back t <-> content t !! k = Some v.
Proof.
  assert (exists bound, forall k v, content t !! k = Some v -> k < bound) as [bound Hb].
  { pose proof (kv_last_content t) as Hl. destruct (kv_last t) as [[k v]|].
    - exists (k + 1). intros j w Hj. destruct Hl as (_ & _ & Hmax). specialize (Hmax j w Hj I). lia.
    - exists 0. intros j w Hj. by destruct (Hl j w Hj). }
  destruct (back_from_spec (size (content t)) bound (kv_last t) t) as [Hs He].
  - pose proof (kv_last_content t) as Hl. destruct (kv_last t) as [[k v]|].
    + destruct Hl as (Hk & _ & Hmax). split_and!; [done|by eapply Hb|]. intros j w Hj _. by eapply Hmax.
    + intros j w Hj _. by destruct (Hl j w Hj).
  - apply map_size_filter.
  - split; [done|]. intros k v. unfold walk_back. rewrite He. naive_solver.
Qed.

End lemmas.

(** A table as a finite map. *)
Module map_table.

Definition pick {V} (better : Z -> Z -> bool) (P : Z -> bool) (m : gmap Z V) : option (Z * V) :=
  map_fold (fun k v best =>
    if P k then
      match best with
      | Some (k', _) => if better k k' then Some (k, v) else best
      | None => Some (k, v)
      end
    else best) None m.

Lemma pick_best {V} (R : Z -> Z -> Prop) better (P : Z -> bool) (m : gmap Z V) :
  Reflexive R -> Transitive R -> (forall k k', if (better k k' : bool) then R k k' else R k' k) ->
  is_best R m (fun k => P k = true) (pick better P m).
Proof.
  intros Hr Ht Hb. unfold pick. revert m.
  apply (map_fold_weak_ind (fun o m => is_best R m (fun k => P k = true) o)).
  { intros k v Hk. by rewrite lookup_empty in Hk. }
  intros k v m o Hk IH.
  assert (forall k' v', is_best R m (fun k => P k = true) (Some (k', v')) ->
    (P k = true -> R k' k) -> is_best R (<[k := v]> m) (fun k => P k = true) (Some (k', v'))) as Hkeep.
  { intros k' v' (Hm & Hp & Hle) HR. split_and!; [|done|].
    - rewrite lookup_insert_ne; [done|]. congruence.
    - intros j w Hj Hpj. destruct (decide (j = k)) as [->|]; [by apply HR|].
      rewrite lookup_insert_ne in Hj by done. by apply (Hle j w). }
  destruct (P k) eqn:EP.
  - assert ((forall j w, m !! j = Some w -> P j = true -> R k j) ->
      is_best R (<[k := v]> m) (fun k => P k = true) (Some (k, v))) as Hnew.
    { intros Hle. split_and!; [by rewrite lookup_insert_eq|done|]. intros j w Hj Hpj.
      destruct (decide (j = k)) as [->|]; [done|]. rewrite lookup_insert_ne in Hj by done.
      by apply (Hle j w). }
    destruct o as [[k' v']|].
    + specialize (Hb k k'). destruct (better k k'); [|by apply Hkeep].
      apply Hnew. destruct IH as (_ & _ & Hle). intros j w Hj Hpj.
      transitivity k'; [done|by apply (Hle j w)].
    + apply Hnew. intros j w Hj Hpj. by destruct (IH j w Hj).
  - destruct o as [[k' v']|]; [by apply Hkeep|]. intros j w Hj Hpj.
    destruct (decide (j = k)) as [->|]; [congruence|].
    rewrite lookup_insert_ne in Hj by done. by apply (IH j w).
Qed.

Lemma is_best_weaken (R : Z -> Z -> Prop) {V} (m : gmap Z V) (P Q : Z -> Prop) o :
  (forall k, P k <-> Q k) -> is_best R m P o -> is_best R m Q o.
Proof.
  intros Heq. destruct o as [[k v]|]; simpl.
  - intros (? & ? & Hle). split_and!; [done|by apply Heq|]. intros k' v' ? ?. eapply Hle; [done|by apply Heq].
  - intros Hn k v Hk Hq. by apply (Hn k v Hk), Heq.
Qed.

Lemma pick_least {V} (P : Z -> bool) (m : gmap Z V) :
  is_least m (fun k => P k = true) (pick Z.ltb P m).
Proof.
  apply pick_best; [intros x; lia|intros x y z; lia|]. intros k k'. destruct (Z.ltb_spec k k'); lia.
Qed.

Lemma pick_greatest {V} (P : Z -> bool) (m : gmap Z V) :
  is_greatest m (fun k => P k = true) (pick Z.gtb P m).
Proof.
  apply pick_best; [intros x; lia|intros x y z; lia|]. intros k k'.
  rewrite Z.gtb_ltb. destruct (Z.ltb_spec k' k); lia.
Qed.

Definition table (V : Type) : Type := gmap Z V.

Definition map_append {V} (k : Z) (v : V) (t : gmap Z V) : option (gmap Z V) :=
  match pick Z.ltb (Z.leb k) t with None => Some (<[k := v]> t) | Some _ => None end.

#[export] Program Instance map_kv : Kv table := {|
  content V t := t;
  kv_get V k t := (t : gmap Z V) !! k;
  kv_seek V k t := pick Z.ltb (Z.leb k) t;
  kv_prev V k t := pick Z.gtb (fun k' => k' <? k) t;
  kv_last V t := pick Z.gtb (fun _ => true) t;
  kv_put V k v t := <[k := v]> (t : gmap Z V);
  kv_append V k v t := map_append k v t;
  kv_delete V k t := delete k (t : gmap Z V);
  kv_clear V t := ∅;
|}.
Next Obligation. done. Qed.
Next Obligation. intros V k t. eapply is_best_weaken; [|apply pick_least]. intros j. apply Z.leb_le. Qed.
Next Obligation. intros V k t. eapply is_best_weaken; [|apply pick_greatest]. intros j. apply Z.ltb_lt. Qed.
Next Obligation. intros V t. eapply is_best_weaken; [|apply pick_greatest]. done. Qed.
Next Obligation. done. Qed.
Next Obligation.
  intros V k v t Hlt. unfold map_append. pose proof (pick_least (Z.leb k) (t : gmap Z V)) as Hp.
  destruct (pick Z.ltb (Z.leb k) t) as [[k' v']|]; [|by eexists].
  destruct Hp as (Hk & Hle & _). specialize (Hlt k' v' Hk). lia.
Qed.
Next Obligation.
  intros V k v t k' v' Hk Hle. unfold map_append. pose proof (pick_least (Z.leb k) (t : gmap Z V)) as Hp.
  destruct (pick Z.ltb (Z.leb k) t) as [|]; [done|]. simpl in Hp. specialize (Hp k' v' Hk). lia.
Qed.
Next Obligation. done. Qed.
Next Obligation. done. Qed.

End map_table.
