(* ===== verification/Stages.v ===== *)
(** Stages of the pipeline that keep indices (src/stages/block_hashes.rs,
    src/stages/total_gas_index.rs, src/stages/total_tx_index.rs,
    src/stages/stage_util.rs) and the last stage (bin/martinez.rs).

    A stage is an instance of the record of the trait: it reads and writes the tables
    of the transaction and keeps nothing in the world.  A panic of [unwrap] or of an
    overflow is [Panicked], an error [Error]. *)
From S2P Require Import Prelude EvmState Consensus StagedSync Kv Etl.
From Stdlib Require Import ZArith Lia Strings.Byte.
From stdpp Require Import base list option numbers gmap strings.
#[local] Open Scope Z_scope.

#[export] Instance outcome_ret : MRet outcome := fun A a => Done a.
#[export] Instance outcome_bind : MBind outcome := fun A B f m =>
  match m with Done a => f a | Error => Error | Panicked => Panicked end.

(** [unwrap] and [ok_or_else]. *)
Definition o_unwrap {A} (o : option A) : outcome A := match o with Some a => Done a | None => Panicked end.
Definition o_ok_or {A} (o : option A) : outcome A := match o with Some a => Done a | None => Error end.

(** [BodyForStorage] of models/block.rs. *)
Record BodyForStorage := {
  base_tx_id : Z;
  tx_amount : Z;
  body_uncles : list BlockHeader;
}.

Record Tables (T : Type -> Type) := {
  canonical_header : T Z;            (* number -> hash *)
  header_number : T Z;               (* hash -> number *)
  header_table : T BlockHeader;      (* (number, hash) -> header *)
  block_body : T BodyForStorage;     (* (number, hash) -> body *)
  total_gas : T Z;
  total_tx : T Z;
}.
Arguments canonical_header {T} _.
Arguments header_number {T} _.
Arguments header_table {T} _.
Arguments block_body {T} _.
Arguments total_gas {T} _.
Arguments total_tx {T} _.

(** [HeaderKey]: the number and the hash, one after the other. *)
Definition header_key (number hash : Z) : Z := number * 2 ^ 256 + hash.

Module stages.

Section stages.
Context {T : Type -> Type} {KV : Kv T} {W : Type}.

Definition with_total_gas (db : Db (Tables T)) (t : T Z) : Db (Tables T) :=
  Build_Db (sync_stage db)
    {| canonical_header := canonical_header (tables db); header_number := header_number (tables db);
       header_table := header_table (tables db); block_body := block_body (tables db);
       total_gas := t; total_tx := total_tx (tables db) |}.

Definition with_total_tx (db : Db (Tables T)) (t : T Z) : Db (Tables T) :=
  Build_Db (sync_stage db)
    {| canonical_header := canonical_header (tables db); header_number := header_number (tables db);
       header_table := header_table (tables db); block_body := block_body (tables db);
       total_gas := total_gas (tables db); total_tx := t |}.

Definition with_header_number (db : Db (Tables T)) (t : T Z) : Db (Tables T) :=
  Build_Db (sync_stage db)
    {| canonical_header := canonical_header (tables db); header_number := t;
       header_table := header_table (tables db); block_body := block_body (tables db);
       total_gas := total_gas (tables db); total_tx := total_tx (tables db) |}.

(** What a block adds to an index. *)
Definition gas_of (t : Tables T) (block_num : Z) : outcome Z :=
  canonical_hash ← o_unwrap (kv_get block_num (canonical_header t));
  header ← o_unwrap (kv_get (header_key block_num canonical_hash) (header_table t));
  Done (header.gas_used header).

Definition txs_of (t : Tables T) (block_num : Z) : outcome Z :=
  canonical_hash ← o_unwrap (kv_get block_num (canonical_header t));
  body ← o_unwrap (kv_get (header_key block_num canonical_hash) (block_body t));
  Done (tx_amount body).

(** [for block_num in starting_block..=max_block]: the total so far and the table. *)
Fixpoint accumulate (amount : Z -> outcome Z) (numbers : list Z) (total : Z) (index : T Z)
    : outcome (T Z) :=
  match numbers with
  | [] => Done index
  | n :: numbers =>
      a ← amount n;
      total ← o_unwrap (u64_checked (total + a));
      index ← o_ok_or (kv_append n total index);
      accumulate amount numbers total index
  end.

(** [a + 1..=b]. *)
Definition numbers_after (a b : Z) : list Z :=
  (fun i : nat => a + 1 + Z.of_nat i) <$> seq 0 (Z.to_nat (b - a)).

(** The body of the two index stages: the table and the amount of a block are those
    of the stage. *)
Definition index_execute (amount : Tables T -> Z -> outcome Z) (index : Tables T -> T Z)
    (write : Db (Tables T) -> T Z -> Db (Tables T))
    (input : StageInput) (db : Db (Tables T)) (w : W)
    : outcome (ExecOutput * Db (Tables T) * W) :=
  let prev_progress := default 0 (stage_progress input) in
  starting_block ← o_unwrap (u64_checked (prev_progress + 1));
  max_block ← o_ok_or (snd <$> previous_stage input);
  db ← (if starting_block <=? max_block then
          total ← o_unwrap (kv_get prev_progress (index (tables db)));
          t ← accumulate (amount (tables db)) (numbers_after prev_progress max_block) total
                (index (tables db));
          Done (write db t)
        else Done db);
  Done (Progress max_block true, db, w).

(** [while let Some((block_num, _)) = cursor.last()?]: the entries above the point of
    the unwind are deleted from the end. *)
Fixpoint truncate (fuel : nat) (to : Z) (t : T Z) : T Z :=
  match fuel with
  | O => t
  | S fuel =>
      match kv_last t with
      | Some (n, _) => if to <? n then truncate fuel to (kv_delete n t) else t
      | None => t
      end
  end.

Definition index_unwind (index : Tables T -> T Z) (write : Db (Tables T) -> T Z -> Db (Tables T))
    (input : UnwindInput) (db : Db (Tables T)) (w : W) : outcome (Z * Db (Tables T) * W) :=
  let t := index (tables db) in
  Done (unwind_to input, write db (truncate (size (content t)) (unwind_to input) t), w).

Definition TotalGasIndex : Stage (Tables T) W := {|
  stage_id := TOTAL_GAS_INDEX;
  stage_execute := index_execute gas_of total_gas with_total_gas;
  stage_unwind := index_unwind total_gas with_total_gas;
|}.

Definition TotalTxIndex : Stage (Tables T) W := {|
  stage_id := TOTAL_TX_INDEX;
  stage_execute := index_execute txs_of total_tx with_total_tx;
  stage_unwind := index_unwind total_tx with_total_tx;
|}.

(** ** block_hashes.rs *)

Definition OPTIMAL_BUFFER_CAPACITY : Z := 512000000.

(** The encoding of an entry of the table of block numbers. *)
Definition hash_entry (e : Z * Z) : Entry := {| key := be_bytes 32 e.2; value := be_bytes 8 e.1 |}.

(** [collector.load]: the entries are put in the order of the collector. *)
Definition load_hashes (l : list Entry) (t : T Z) : T Z :=
  foldl (fun t e => kv_put (be_val (key e)) (be_val (value e)) t) t l.

Definition block_hashes_execute (input : StageInput) (db : Db (Tables T)) (w : W)
    : outcome (ExecOutput * Db (Tables T) * W) :=
  let original_highest_block := default 0 (stage_progress input) in
  start ← o_unwrap (u64_checked (original_highest_block + 1));
  let walker := walk start (canonical_header (tables db)) in
  c ← o_unwrap (collector.push_all (hash_entry <$> walker) (collector.new OPTIMAL_BUFFER_CAPACITY));
  let out := collector.iter c in
  if completed out then
    Done (Progress (default original_highest_block (fst <$> last walker)) true,
          with_header_number db (load_hashes (entries out) (header_number (tables db))), w)
  else Error.

(** [seek] finds the least hash that is not below the one looked for. *)
Fixpoint forget_hashes (to : Z) (walker : list (Z * Z)) (t : T Z) : T Z :=
  match walker with
  | [] => t
  | (block_num, block_hash) :: walker =>
      if to <? block_num then
        forget_hashes to walker
          (match kv_seek block_hash t with Some (k, _) => kv_delete k t | None => t end)
      else t
  end.

Definition block_hashes_unwind (input : UnwindInput) (db : Db (Tables T)) (w : W)
    : outcome (Z * Db (Tables T) * W) :=
  Done (unwind_to input,
        with_header_number db
          (forget_hashes (unwind_to input) (walk_back (canonical_header (tables db)))
             (header_number (tables db))), w).

Definition BlockHashes : Stage (Tables T) W := {|
  stage_id := BLOCK_HASHES;
  stage_execute := block_hashes_execute;
  stage_unwind := block_hashes_unwind;
|}.

(** ** The last stage *)

Definition finish_execute (input : StageInput) (db : Db (Tables T)) (w : W)
    : outcome (ExecOutput * Db (Tables T) * W) :=
  Done (Progress (default 0 (snd <$> previous_stage input)) true, db, w).

Definition finish_unwind (input : UnwindInput) (db : Db (Tables T)) (w : W)
    : outcome (Z * Db (Tables T) * W) :=
  Done (unwind_to input, db, w).

Definition FinishStage : Stage (Tables T) W := {|
  stage_id := FINISH;
  stage_execute := finish_execute;
  stage_unwind := finish_unwind;
|}.

(** ** stage_util.rs *)

Definition should_do_clean_promotion (t : Tables T) (genesis past_progress max_block threshold : Z)
    : outcome bool :=
  current_gas ← o_ok_or (kv_get past_progress (total_gas t));
  max_gas ← o_ok_or (kv_get max_block (total_gas t));
  gas_progress ← o_ok_or (u64_checked (max_gas - current_gas));
  Done ((past_progress =? genesis) || (threshold <? gas_progress)).

End stages.

End stages.
