(* ===== verification/StagesSpec.v ===== *)
(** The stages that keep indices: they satisfy what the pipeline asks of a stage, so
    that the pipeline brings all indices to the last block. *)
From S2P Require Import Prelude EvmState Consensus StagedSync StagedSyncSpec Kv Etl EtlSpec Stages.
From Stdlib Require Import ZArith Lia Strings.Byte.
From stdpp Require Import base list option numbers gmap strings sorting.
#[local] Open Scope Z_scope.

Lemma u64_checked_ok z : 0 <= z < 2 ^ 64 -> u64_checked z = Some z.
Proof.
  intros Hz. unfold u64_checked, checked, u64_max.
  by rewrite (proj2 (Z.leb_le _ _)), (proj2 (Z.leb_le _ _)) by lia.
Qed.

(** ** Numbers *)

Lemma elem_of_numbers a b n : n ∈ stages.numbers_after a b <-> a < n <= b.
Proof.
  unfold stages.numbers_after. rewrite list_elem_of_fmap. split.
  - intros (i & -> & Hi%elem_of_seq). lia.
  - intros Hn. exists (Z.to_nat (n - a - 1)). rewrite elem_of_seq. lia.
Qed.

Lemma numbers_cons a b : a < b -> stages.numbers_after a b = a + 1 :: stages.numbers_after (a + 1) b.
Proof.
  intros Hab. unfold stages.numbers_after.
  replace (Z.to_nat (b - a)) with (S (Z.to_nat (b - (a + 1)))) by lia.
  rewrite <- cons_seq, fmap_cons. f_equal; [lia|]. rewrite <- fmap_S_seq, <- list_fmap_compose.
  apply list_fmap_ext. intros ? i _. simpl. lia.
Qed.

Lemma numbers_nil a b : b <= a -> stages.numbers_after a b = [].
Proof. intros. unfold stages.numbers_after. by replace (Z.to_nat (b - a)) with O by lia. Qed.

Lemma length_numbers a b : length (stages.numbers_after a b) = Z.to_nat (b - a).
Proof. unfold stages.numbers_after. by rewrite length_fmap, length_seq. Qed.

Lemma last_numbers a b : a < b -> last (stages.numbers_after a b) = Some b.
Proof.
  intros Hab. rewrite last_lookup, length_numbers.
  unfold stages.numbers_after. rewrite list_lookup_fmap, lookup_seq_lt by lia. simpl. f_equal. lia.
Qed.

Lemma NoDup_numbers a b : NoDup (stages.numbers_after a b).
Proof. unfold stages.numbers_after. apply NoDup_fmap_2; [intros ? ? ?; lia|apply NoDup_seq]. Qed.

(** ** Totals *)

(** The total of the amounts [f] of the blocks after genesis. *)
Fixpoint total_nat (f : Z -> Z) (g : Z) (n : nat) : Z :=
  match n with O => g | S n => total_nat f g n + f (Z.of_nat (S n)) end.
Definition total (f : Z -> Z) (g n : Z) : Z := total_nat f g (Z.to_nat n).

Lemma total_next f g n : 0 <= n -> total f g (n + 1) = total f g n + f (n + 1).
Proof.
  intros Hn. unfold total. replace (Z.to_nat (n + 1)) with (S (Z.to_nat n)) by lia. simpl.
  f_equal. f_equal. lia.
Qed.

(** Amounts of a chain up to [b] whose total does not overflow. *)
Definition summable (f : Z -> Z) (g b : Z) : Prop :=
  0 <= g /\ (forall n, 0 < n <= b -> 0 <= f n) /\ forall n, 0 <= n <= b -> total f g n < 2 ^ 64.

Lemma total_nonneg f g b n : summable f g b -> 0 <= n <= b -> 0 <= total f g n.
Proof.
  intros (Hg & Hf & _) [Hn Hb]. revert Hb. pattern n. apply natlike_ind; [| |done].
  - intros _. done.
  - intros m Hm IH Hb. rewrite <- Z.add_1_r, total_next by done.
    specialize (Hf (m + 1) ltac:(lia)). specialize (IH ltac:(lia)). lia.
Qed.

Section specs.
Context {T : Type -> Type} {KV : Kv T} {W : Type} {EN : Environment W}.

(** ** The indices *)

(** A table with an entry for each block up to [p]. *)
Definition filled (total : Z -> Z) (p : Z) (t : T Z) : Prop :=
  forall n, content t !! n = if bool_decide (0 <= n <= p) then Some (total n) else None.

Lemma filled_append f g p t : 0 <= p -> filled (total f g) p t ->
  exists t', kv_append (p + 1) (total f g (p + 1)) t = Some t' /\ filled (total f g) (p + 1) t'.
Proof.
  intros Hp Hf. destruct (kv_append_content (p + 1) (total f g (p + 1)) t) as (t' & Ha & Hc).
  { intros k v Hk. rewrite Hf in Hk. case_bool_decide; [lia|done]. }
  exists t'. split; [done|]. intros n. rewrite Hc. destruct (decide (n = p + 1)) as [->|Hne].
  - rewrite lookup_insert_eq, bool_decide_true by lia. done.
  - rewrite lookup_insert_ne, Hf by done. by rewrite (bool_decide_ext (0 <= n <= p) (0 <= n <= p + 1)) by lia.
Qed.

Lemma accumulate_filled amount f g b t p : summable f g b -> 0 <= p <= b ->
  (forall n, 0 < n <= b -> amount n = Done (f n)) -> filled (total f g) p t ->
  exists t', stages.accumulate amount (stages.numbers_after p b) (total f g p) t = Done t' /\
    filled (total f g) b t'.
Proof.
  intros Hsum Hp Hamount. remember (Z.to_nat (b - p)) as k eqn:Hk. revert p t Hp Hk.
  induction k as [|k IH]; intros p t Hp Hk Hf.
  - assert (p = b) as -> by lia. rewrite numbers_nil by lia. by exists t.
  - rewrite numbers_cons by lia. cbn [stages.accumulate]. rewrite Hamount by lia.
    cbn [mbind outcome_bind]. rewrite <- total_next by lia.
    pose proof (total_nonneg f g b (p + 1) Hsum ltac:(lia)) as H0.
    pose proof (proj2 (proj2 Hsum) (p + 1) ltac:(lia)) as H1.
    rewrite u64_checked_ok by lia. cbn [o_unwrap mbind outcome_bind].
    destruct (filled_append f g p t ltac:(lia) Hf) as (t1 & -> & Hf1).
    cbn [o_ok_or mbind outcome_bind]. apply (IH (p + 1)); [lia|lia|done].
Qed.

(** Deleting from the end. *)
Lemma truncate_filled total to fuel p t : -1 <= to <= p -> (Z.to_nat (p - to) <= fuel)%nat ->
  filled total p t -> filled total to (stages.truncate fuel to t).
Proof.
  revert p t. induction fuel as [|fuel IH]; intros p t Hto Hfuel Hf.
  { assert (to = p) as -> by lia. done. }
  cbn [stages.truncate]. pose proof (kv_last_content t) as Hlast.
  destruct (kv_last t) as [[k v]|].
  - destruct Hlast as (Hk & _ & Hmax). rewrite Hf in Hk. case_bool_decide as Hkp; [|done].
    assert (k = p) as ->.
    { assert (k >= p); [|lia]. apply (Hmax p (total p)); [|done]. rewrite Hf, bool_decide_true; [done|lia]. }
    destruct (Z.ltb_spec to p) as [Hlt|Hge]; [|by assert (to = p) as -> by lia].
    apply (IH (p - 1)); [lia|lia|]. intros n. rewrite kv_delete_content.
    destruct (decide (n = p)) as [->|Hne].
    + rewrite lookup_delete_eq, bool_decide_false by lia. done.
    + rewrite lookup_delete_ne, Hf by done.
      by rewrite (bool_decide_ext (0 <= n <= p) (0 <= n <= p - 1)) by lia.
  - assert (p < 0) as Hp.
    { destruct (decide (p < 0)); [done|]. exfalso. apply (Hlast p (total p)); [|done].
      rewrite Hf, bool_decide_true; [done|lia]. }
    assert (to = p) as -> by lia. done.
Qed.

(** A table has room for the numbers it is filled with. *)
Lemma size_bound {V} (m : gmap Z V) (l : list Z) : NoDup l -> (forall k, k ∈ l -> is_Some (m !! k)) ->
  (length l <= size m)%nat.
Proof.
  intros Hn Hin. rewrite <- (size_dom m), <- (size_list_to_set (C := gset Z) l) by done.
  apply subseteq_size. intros k Hk%elem_of_list_to_set. apply elem_of_dom. by apply Hin.
Qed.

Lemma filled_size total p to t : filled total p t -> -1 <= to -> (Z.to_nat (p - to) <= size (content t))%nat.
Proof.
  intros Hf Hto. rewrite <- (length_numbers to p). apply size_bound; [apply NoDup_numbers|].
  intros k Hk%elem_of_numbers. rewrite Hf, bool_decide_true by lia. by eexists.
Qed.

(** ** The chain and its indices *)

Section chain.
Context (b : Z) (hash gas txs : Z -> Z) (gas0 txs0 : Z).

(** A chain up to block [b]. *)
Definition chain_ok : Prop :=
  0 <= b < 2 ^ 64 - 1 /\ summable gas gas0 b /\ summable txs txs0 b /\
  (forall n, 0 <= n <= b -> 0 <= hash n < 2 ^ 256) /\
  (forall n n', 0 <= n <= b -> 0 <= n' <= b -> hash n = hash n' -> n = n').

(** The database has the chain. *)
Definition stored (t : Tables T) : Prop :=
  filled hash b (canonical_header t) /\
  (forall n, 0 < n <= b -> stages.gas_of t n = Done (gas n)) /\
  (forall n, 0 < n <= b -> stages.txs_of t n = Done (txs n)).

Definition progress_at (id : StageId) (db : Db (Tables T)) : Z :=
  default 0 (staged_sync.get_progress id db).

(** The blocks up to [p] are found by their hashes. *)
Definition hashes_known (p : Z) (t : T Z) : Prop :=
  forall n, 0 < n <= p -> content t !! hash n = Some n.

(** Each index is complete up to the progress of its stage. *)
Definition indices (db : Db (Tables T)) : Prop :=
  stored (tables db) /\
  0 <= progress_at TOTAL_GAS_INDEX db /\
  filled (total gas gas0) (progress_at TOTAL_GAS_INDEX db) (total_gas (tables db)) /\
  0 <= progress_at TOTAL_TX_INDEX db /\
  filled (total txs txs0) (progress_at TOTAL_TX_INDEX db) (total_tx (tables db)) /\
  0 <= progress_at BLOCK_HASHES db /\
  hashes_known (progress_at BLOCK_HASHES db) (header_number (tables db)).

Lemma progress_saved id p db : progress_at id (staged_sync.save_progress id p db) = p.
Proof. unfold progress_at. by rewrite get_save_eq. Qed.

Lemma progress_other id id' p db : id <> id' ->
  progress_at id' (staged_sync.save_progress id p db) = progress_at id' db.
Proof. intros. unfold progress_at. by rewrite get_save_ne. Qed.

(** An index stage runs to the block of the stage before it. *)
Lemma index_execute_spec amount index write f g i db (w : W) :
  0 <= b < 2 ^ 64 - 1 -> summable f g b -> told_next b (previous_stage i) ->
  0 <= default 0 (stage_progress i) <= b ->
  (forall n, 0 < n <= b -> amount (tables db) n = Done (f n)) ->
  filled (total f g) (default 0 (stage_progress i)) (index (tables db)) ->
  exists t', filled (total f g) b t' /\
    stages.index_execute amount index write i db w =
      Done (Progress b true, if bool_decide (default 0 (stage_progress i) = b) then db else write db t', w).
Proof.
  intros Hb Hs [id Hprev] Hp Ha Hf. unfold stages.index_execute. cbv zeta.
  rewrite u64_checked_ok by lia. cbn [o_unwrap mbind outcome_bind].
  rewrite Hprev. change (snd <$> Some (id, b)) with (Some b). cbn [o_ok_or mbind outcome_bind].
  set (p := default 0 (stage_progress i)) in *.
  destruct (accumulate_filled (amount (tables db)) f g b (index (tables db)) p Hs Hp Ha Hf)
    as (t' & Hacc & Hf').
  exists t'. split; [done|]. destruct (Z.leb_spec (p + 1) b) as [Hle|Hgt].
  - rewrite kv_get_content, Hf, bool_decide_true by lia. cbn [o_unwrap mbind outcome_bind].
    rewrite Hacc. cbn [mbind outcome_bind]. by rewrite bool_decide_false by lia.
  - cbn [mbind outcome_bind]. by rewrite bool_decide_true by lia.
Qed.

Lemma total_gas_diligent : chain_ok ->
  diligent indices b (told_next b) (stages.TotalGasIndex (W := W)).
Proof.
  intros (Hb & Hgas & _) i db w (Hst & Hp1 & Hf1 & Hp2 & Hf2 & Hp3 & Hf3) Htold Hi Hle.
  unfold progress_at in Hp1, Hf1. cbn [stage_id stages.TotalGasIndex] in Hi. rewrite <- Hi in Hp1, Hf1.
  destruct (index_execute_spec stages.gas_of total_gas stages.with_total_gas gas gas0 i db w)
    as (t & Ht & He); try done; [by apply Hst|].
  eexists b, true, _, w. split; [exact He|]. split; [by case_bool_decide|]. split; [|done].
  cbn [stage_id stages.TotalGasIndex].
  case_bool_decide as Hpb; [rewrite Hpb in Hf1|]; unfold indices;
    rewrite progress_saved, !progress_other by done; split_and!; done || lia.
Qed.

Lemma total_tx_diligent : chain_ok ->
  diligent indices b (told_next b) (stages.TotalTxIndex (W := W)).
Proof.
  intros (Hb & _ & Htxs & _) i db w (Hst & Hp1 & Hf1 & Hp2 & Hf2 & Hp3 & Hf3) Htold Hi Hle.
  unfold progress_at in Hp2, Hf2. cbn [stage_id stages.TotalTxIndex] in Hi. rewrite <- Hi in Hp2, Hf2.
  destruct (index_execute_spec stages.txs_of total_tx stages.with_total_tx txs txs0 i db w)
    as (t & Ht & He); try done; [by apply Hst|].
  eexists b, true, _, w. split; [exact He|]. split; [by case_bool_decide|]. split; [|done].
  cbn [stage_id stages.TotalTxIndex].
  case_bool_decide as Hpb; [rewrite Hpb in Hf2|]; unfold indices;
    rewrite progress_saved, !progress_other by done; split_and!; done || lia.
Qed.

Lemma finish_diligent : diligent indices b (told_next b) (stages.FinishStage (W := W)).
Proof.
  intros i db w HI [id Hprev] _ _. eexists b, true, db, w. split.
  { cbn [stage_execute stages.FinishStage]. unfold stages.finish_execute. by rewrite Hprev. }
  split; [done|]. split; [|done]. unfold indices in *. by rewrite !progress_other by done.
Qed.

(** *** Hashes of blocks *)

Lemma walk_filled p t fuel : filled hash b t -> 0 <= p <= b ->
  (Z.to_nat (b - p) <= fuel)%nat ->
  walk_from fuel (p + 1) t = (fun n => (n, hash n)) <$> stages.numbers_after p b.
Proof.
  intros Hf. revert p. induction fuel as [|fuel IH]; intros p Hp Hfuel.
  { by rewrite numbers_nil by lia. }
  cbn [walk_from]. pose proof (kv_seek_content (p + 1) t) as Hseek.
  destruct (kv_seek (p + 1) t) as [[k v]|].
  - destruct Hseek as (Hk & Hle & Hmin). rewrite Hf in Hk. case_bool_decide as Hkb; [|done].
    assert (k = p + 1) as ->.
    { assert (k <= p + 1); [|lia]. apply (Hmin (p + 1) (hash (p + 1))); [|lia].
      rewrite Hf, bool_decide_true; [done|lia]. }
    simplify_eq. rewrite numbers_cons, fmap_cons by lia. f_equal. apply IH; lia.
  - destruct (decide (p < b)) as [Hlt|Hge]; [|by rewrite numbers_nil by lia]. exfalso.
    apply (Hseek (p + 1) (hash (p + 1))); [|lia]. rewrite Hf, bool_decide_true; [done|lia].
Qed.

Lemma hash_entry_key n : 0 <= n <= b -> chain_ok ->
  be_val (key (stages.hash_entry (n, hash n))) = hash n /\
  be_val (value (stages.hash_entry (n, hash n))) = n.
Proof.
  intros Hn (Hb & _ & _ & Hh & _). cbn [stages.hash_entry key value fst snd].
  rewrite !be_val_bytes. specialize (Hh n Hn). split; apply Z.mod_small;
    change (256 ^ Z.of_nat 8) with (2 ^ 64); change (256 ^ Z.of_nat 32) with (2 ^ 256); lia.
Qed.

(** Putting entries of different blocks: each is found, the others stay. *)
Lemma load_known l t : chain_ok ->
  Forall (fun e => exists n, 0 <= n <= b /\ e = stages.hash_entry (n, hash n)) l ->
  (forall n, 0 <= n <= b -> stages.hash_entry (n, hash n) ∈ l ->
     content (stages.load_hashes l t) !! hash n = Some n) /\
  (forall n, 0 <= n <= b -> stages.hash_entry (n, hash n) ∉ l ->
     content (stages.load_hashes l t) !! hash n = content t !! hash n).
Proof.
  intros Hc Hl. pose proof Hc as (_ & _ & _ & _ & Hinj).
  induction l as [|e l IH] using rev_ind; [split; [intros n _ H; by apply elem_of_nil in H|done]|].
  apply Forall_app in Hl as [Hl [(m & Hm & ->) _]%Forall_cons].
  destruct (IH Hl) as [IH1 IH2]. unfold stages.load_hashes in *. rewrite foldl_app. cbn [foldl].
  rewrite kv_put_content. destruct (hash_entry_key m Hm Hc) as [-> ->]. split; intros n Hn Hin.
  - destruct (decide (n = m)) as [->|Hne]; [by rewrite lookup_insert_eq|].
    rewrite lookup_insert_ne by (intros He; apply Hne; symmetry; by apply Hinj).
    apply elem_of_app in Hin as [Hin|Hin%list_elem_of_singleton]; [by apply IH1|].
    pose proof (hash_entry_key n Hn Hc) as [_ H1]. pose proof (hash_entry_key m Hm Hc) as [_ H2].
    rewrite Hin in H1. congruence.
  - rewrite not_elem_of_app in Hin. destruct Hin as [Hin Hne].
    rewrite lookup_insert_ne; [by apply IH2|]. intros He. apply Hne.
    assert (n = m) as -> by (symmetry; by apply Hinj). by left.
Qed.

Lemma block_hashes_diligent : chain_ok ->
  diligent indices b (told_next b) (stages.BlockHashes (W := W)).
Proof.
  intros Hc i db w (Hst & Hp1 & Hf1 & Hp2 & Hf2 & Hp3 & Hf3) Htold Hi Hle.
  pose proof Hc as (Hb & _). destruct Hst as (Hcan & Hst2 & Hst3).
  unfold progress_at in Hp3, Hf3. cbn [stage_id stages.BlockHashes] in Hi. rewrite <- Hi in Hp3, Hf3.
  set (p := default 0 (stage_progress i)) in *.
  cbn [stage_execute stages.BlockHashes]. unfold stages.block_hashes_execute. cbv zeta. fold p.
  rewrite u64_checked_ok by lia. cbn [o_unwrap mbind outcome_bind].
  set (l := (fun n => (n, hash n)) <$> stages.numbers_after p b).
  assert (walk (p + 1) (canonical_header (tables db)) = l) as ->.
  { apply walk_filled; [done|lia|]. eapply filled_size; [done|lia]. }
  assert (Forall (fits stages.OPTIMAL_BUFFER_CAPACITY) (stages.hash_entry <$> l)) as Hfit.
  { apply Forall_fmap, Forall_true. intros e. unfold fits, blen, compose. cbn [stages.hash_entry key value].
    rewrite !length_be_bytes. unfold stages.OPTIMAL_BUFFER_CAPACITY. lia. }
  destruct (iter_sorts stages.OPTIMAL_BUFFER_CAPACITY (stages.hash_entry <$> l)) as (c & -> & Hit & _ & Hperm);
    [unfold stages.OPTIMAL_BUFFER_CAPACITY; lia|done|].
  cbn [o_unwrap mbind outcome_bind]. rewrite Hit in Hperm |- *. cbn [completed entries] in Hperm |- *.
  set (es := collector.sort_unstable (stages.hash_entry <$> l)) in *.
  assert (default p (fst <$> last l) = b) as ->.
  { unfold l. rewrite fmap_last. destruct (decide (p < b)) as [Hlt|Hge].
    - by rewrite last_numbers.
    - rewrite numbers_nil by lia. simpl. lia. }
  eexists b, true, _, w. split; [done|]. split; [done|]. split; [|done].
  cbn [stage_id stages.BlockHashes]. unfold indices.
  rewrite progress_saved, !progress_other by done. split_and!; try done; [lia|].
  intros n Hn. cbn [staged_sync.save_progress tables stages.with_header_number header_number].
  assert (forall n, stages.hash_entry (n, hash n) ∈ es <-> exists m, stages.hash_entry (n, hash n) = stages.hash_entry (m, hash m) /\ p < m <= b) as Hin.
  { intros k. rewrite Hperm. unfold l. rewrite <- list_fmap_compose, list_elem_of_fmap.
    by setoid_rewrite elem_of_numbers. }
  destruct (load_known es (header_number (tables db)) Hc) as [Hnew Hold].
  { rewrite Hperm. apply Forall_fmap. unfold l. apply Forall_fmap. apply Forall_forall.
    intros m Hm%elem_of_numbers. exists m. split; [lia|done]. }
  destruct (decide (n <= p)) as [Hnp|Hnp].
  - rewrite Hold; [by apply Hf3; lia|lia|]. rewrite Hin. intros (m & He & Hm).
    pose proof (hash_entry_key n ltac:(lia) Hc) as [_ H1]. pose proof (hash_entry_key m ltac:(lia) Hc) as [_ H2].
    rewrite He in H1. lia.
  - apply Hnew; [lia|]. apply Hin. exists n. split; [done|lia].
Qed.

End chain.

End specs.

(** ** Theorems *)

Section theorems.
Context {T : Type -> Type} {KV : Kv T} {W : Type} {EN : Environment W}.

Lemma index_keeps_progress amount index (write : Db (Tables T) -> T Z -> Db (Tables T)) i db (w : W) o db' w' :
  (forall d t, sync_stage (write d t) = sync_stage d) ->
  stages.index_execute amount index write i db w = Done (o, db', w') -> sync_stage db' = sync_stage db.
Proof.
  intros Hw. unfold stages.index_execute. cbv zeta.
  destruct (u64_checked _); [|done]. cbn [o_unwrap mbind outcome_bind].
  destruct (snd <$> previous_stage i) as [b|]; [|done]. cbn [o_ok_or mbind outcome_bind].
  destruct (_ <=? b); cbn [mbind outcome_bind]; [|by intros [= <- <- <-]].
  destruct (kv_get _ _) as [g|]; [|done]. cbn [o_unwrap mbind outcome_bind].
  destruct (stages.accumulate _ _ _ _) as [t| |]; [|done|done].
  cbn [mbind outcome_bind]. intros [= <- <- <-]. apply Hw.
Qed.

Lemma stages_keep_progress : Forall keeps_progress
  [stages.TotalGasIndex (T := T) (W := W); stages.BlockHashes; stages.TotalTxIndex; stages.FinishStage].
Proof.
  repeat constructor.
  - intros i db w o db' w'. by apply index_keeps_progress.
  - by intros ? ? ? ? ? ? [= <- <- <-].
  - intros i db w o db' w'. cbn [stage_execute stages.BlockHashes]. unfold stages.block_hashes_execute.
    cbv zeta. destruct (u64_checked _); [|done]. cbn [o_unwrap mbind outcome_bind].
    destruct (collector.push_all _ _); [|done]. cbn [o_unwrap mbind outcome_bind].
    destruct (completed _); [|done]. by intros [= <- <- <-].
  - by intros ? ? ? ? ? ? [= <- <- <-].
  - intros i db w o db' w'. by apply index_keeps_progress.
  - by intros ? ? ? ? ? ? [= <- <- <-].
  - by intros ? ? ? ? ? ? [= <- <- <-].
  - by intros ? ? ? ? ? ? [= <- <- <-].
Qed.

End theorems.

(** The stages of the node that keep indices, behind a stage that gets the headers. *)
Definition index_pipeline {T : Type -> Type} {KV : Kv T} {W : Type} (h : Stage (Tables T) W) (b : Z)
    : StagedSync (Tables T) W :=
  staged_sync.set_max_block (Some b)
    (staged_sync.push stages.FinishStage (staged_sync.push stages.TotalTxIndex
      (staged_sync.push stages.BlockHashes (staged_sync.push stages.TotalGasIndex
        (staged_sync.push h staged_sync.new))))).


(** *** A chain of three blocks *)

#[local] Existing Instance map_table.map_kv.

Module sample_index.

#[export] Instance environment : Environment unit := {|
  now _ := 0; storage w := Some w; sleep _ w := w;
|}.

Definition block_hash (n : Z) : Z := 30 - 10 * n.
Definition gas (n : Z) : Z := 21000 * n.
Definition txs (n : Z) : Z := n.

Definition header_of (n : Z) : BlockHeader := {|
  header.parent_hash := 0; header.ommers_hash := 0; header.beneficiary := 0; header.state_root := 0;
  header.transactions_root := 0; header.receipts_root := 0; header.logs_bloom := 0;
  header.difficulty := 0; header.number := n; header.gas_limit := 100000;
  header.gas_used := gas n; header.timestamp := 0; header.extra_data := [];
  header.mix_hash := 0; header.nonce := 0; header.base_fee_per_gas := None;
|}.

Definition body_of (n : Z) : BodyForStorage :=
  {| base_tx_id := 0; tx_amount := txs n; body_uncles := [] |}.

Definition by_key {V} (f : Z -> V) : gmap Z V :=
  list_to_map ((fun n => (header_key n (block_hash n), f n)) <$> [0; 1; 2]).

Definition content_at_genesis : Tables map_table.table := {|
  canonical_header := {[ 0 := block_hash 0; 1 := block_hash 1; 2 := block_hash 2 ]};
  header_number := {[ block_hash 0 := 0 ]};
  header_table := by_key header_of;
  block_body := by_key body_of;
  total_gas := {[ 0 := 0 ]};
  total_tx := {[ 0 := 0 ]};
|}.

(** The headers are there. *)
Definition headers : Stage (Tables map_table.table) unit := {|
  stage_id := HEADERS;
  stage_execute i db w := Done (Progress 2 true, db, w);
  stage_unwind i db w := Done (unwind_to i, db, w);
|}.

Definition database : Db (Tables map_table.table) := Build_Db ∅ content_at_genesis.

Lemma chain : chain_ok 2 block_hash gas txs 0 0.
Proof.
  assert (forall n, 0 <= n <= 2 -> n = 0 \/ n = 1 \/ n = 2) as H by lia.
  split; [lia|]. split_and!.
  - split_and!; [done|intros n Hn; unfold gas; lia|]. by intros n [-> | [-> | ->]]%H.
  - split_and!; [done|intros n Hn; unfold txs; lia|]. by intros n [-> | [-> | ->]]%H.
  - intros n Hn. unfold block_hash. lia.
  - intros n n' ? ?. unfold block_hash. lia.
Qed.

Lemma filled_three (f : Z -> Z) :
  filled (T := map_table.table) f 2 {[ 0 := f 0; 1 := f 1; 2 := f 2 ]}.
Proof.
  intros n. cbn [content map_table.map_kv].
  destruct (decide (n = 0)) as [->|]; [done|]. destruct (decide (n = 1)) as [->|]; [done|].
  destruct (decide (n = 2)) as [->|]; [done|].
  rewrite bool_decide_false by lia. rewrite !lookup_insert_ne by done. by rewrite lookup_singleton_ne.
Qed.

Lemma genesis_indices : indices 2 block_hash gas txs 0 0 database.
Proof.
  assert (forall n, 0 < n <= 2 -> n = 1 \/ n = 2) as H by lia.
  split; [split_and!|split_and!; try done].
  - apply filled_three.
  - intros n [-> | ->]%H; vm_compute; reflexivity.
  - intros n [-> | ->]%H; vm_compute; reflexivity.
  - intros n. change (progress_at TOTAL_GAS_INDEX database) with 0.
    destruct (decide (n = 0)) as [->|Hn]; [done|]. rewrite bool_decide_false by lia.
    by apply lookup_singleton_ne.
  - intros n. change (progress_at TOTAL_TX_INDEX database) with 0.
    destruct (decide (n = 0)) as [->|Hn]; [done|]. rewrite bool_decide_false by lia.
    by apply lookup_singleton_ne.
  - intros n Hn. change (progress_at BLOCK_HASHES database) with 0 in Hn. lia.
Qed.

Lemma headers_diligent : diligent (indices 2 block_hash gas txs 0 0) 2 told_first headers.
Proof.
  intros i db w HI _ _ _. exists 2, true, db, w. split_and!; try done.
  unfold indices in *. by rewrite !progress_other by done.
Qed.

(** The same chain with all indices. *)
Definition complete : Db (Tables map_table.table) :=
  Build_Db {[ TOTAL_GAS_INDEX := 2; BLOCK_HASHES := 2; TOTAL_TX_INDEX := 2 ]}
    {| canonical_header := canonical_header content_at_genesis;
       header_number := {[ block_hash 0 := 0; block_hash 1 := 1; block_hash 2 := 2 ]};
       header_table := by_key header_of; block_body := by_key body_of;
       total_gas := {[ 0 := total gas 0 0; 1 := total gas 0 1; 2 := total gas 0 2 ]};
       total_tx := {[ 0 := total txs 0 0; 1 := total txs 0 1; 2 := total txs 0 2 ]} |}.

Lemma complete_indices : indices 2 block_hash gas txs 0 0 complete.
Proof.
  assert (forall n, 0 < n <= 2 -> n = 1 \/ n = 2) as H by lia.
  assert (forall id, id ∈ [TOTAL_GAS_INDEX; BLOCK_HASHES; TOTAL_TX_INDEX] -> progress_at id complete = 2) as H2.
  { apply Forall_forall. by repeat constructor. }
  unfold indices. rewrite !H2 by (by repeat constructor).
  split; [split_and!|split_and!; try done].
  - apply filled_three.
  - intros n [-> | ->]%H; vm_compute; reflexivity.
  - intros n [-> | ->]%H; vm_compute; reflexivity.
  - apply (filled_three (total gas 0)).
  - apply (filled_three (total txs 0)).
  - intros n [-> | ->]%H; vm_compute; reflexivity.
Qed.

(** The headers are ahead of the hashes: block 3 is not known by its hash yet. *)
Definition headers_ahead : Db (Tables map_table.table) :=
  Build_Db {[ HEADERS := 3; BLOCK_HASHES := 2 ]}
    {| canonical_header := {[ 0 := 40; 1 := 30; 2 := 20; 3 := 10 ]};
       header_number := {[ 40 := 0; 30 := 1; 20 := 2 ]};
       header_table := ∅; block_body := ∅; total_gas := ∅; total_tx := ∅ |}.

End sample_index.

#[local] Existing Instance sample_index.environment.


(** ** Unwinding *)

Section unwinding.
Context {T : Type -> Type} {KV : Kv T} {W : Type}.
Context (b : Z) (hash gas txs : Z -> Z) (gas0 txs0 : Z).

Lemma truncate_index f p to (t : T Z) : filled f p t -> 0 <= to <= p ->
  filled f to (stages.truncate (size (content t)) to t).
Proof. intros Hf Hto. apply (truncate_filled _ _ _ p); [lia|by eapply filled_size; [|lia]|done]. Qed.

(** The blocks [m], [m - 1], ... in reverse order. *)
Definition backwards (m : Z) (k : nat) : list (Z * Z) :=
  (fun i : nat => (m - Z.of_nat i, hash (m - Z.of_nat i))) <$> seq 0 (S k).

Lemma backwards_0 m : backwards m 0 = [(m, hash m)].
Proof. unfold backwards. simpl. by rewrite Z.sub_0_r. Qed.

Lemma backwards_S m k : backwards m (S k) = (m, hash m) :: backwards (m - 1) k.
Proof.
  unfold backwards. rewrite <- (cons_seq (S k) 0), fmap_cons. f_equal; [by rewrite Z.sub_0_r|].
  rewrite <- fmap_S_seq, <- list_fmap_compose. apply list_fmap_ext. intros ? i _. unfold compose.
  by replace (m - Z.of_nat (S i)) with (m - 1 - Z.of_nat i) by lia.
Qed.

(** The walk back from the last block. *)
Lemma back_filled k n fuel (t : T Z) : filled hash b t -> n = Z.of_nat k -> n <= b -> (k < fuel)%nat ->
  back_from fuel (Some (n, hash n)) t = backwards n k.
Proof.
  intros Hf. revert n fuel. induction k as [|k IH]; intros n fuel Hn Hb Hfuel;
    (destruct fuel as [|fuel]; [lia|]); cbn [back_from];
    rewrite ?backwards_0, ?backwards_S; f_equal; pose proof (kv_prev_content n t) as Hprev.
  - destruct (kv_prev n t) as [[j v]|]; [|by destruct fuel].
    destruct Hprev as (Hj & Hlt & _). rewrite Hf in Hj. case_bool_decide; [lia|done].
  - assert (kv_prev n t = Some (n - 1, hash (n - 1))) as ->; [|apply IH; lia].
    destruct (kv_prev n t) as [[j v]|].
    + destruct Hprev as (Hj & Hlt & Hmax). rewrite Hf in Hj. case_bool_decide as Hjb; [|done].
      assert (j >= n - 1); [|by assert (j = n - 1) as -> by lia; simplify_eq].
      apply (Hmax (n - 1) (hash (n - 1))); [|lia]. rewrite Hf, bool_decide_true; [done|lia].
    + exfalso. apply (Hprev (n - 1) (hash (n - 1))); [|lia]. rewrite Hf, bool_decide_true; [done|lia].
Qed.

Lemma walk_back_filled (t : T Z) : 0 <= b -> filled hash b t ->
  walk_back t = backwards b (Z.to_nat b).
Proof.
  intros Hb Hf. unfold walk_back. pose proof (kv_last_content t) as Hlast.
  assert (kv_last t = Some (b, hash b)) as ->.
  { destruct (kv_last t) as [[j v]|].
    - destruct Hlast as (Hj & _ & Hmax). rewrite Hf in Hj. case_bool_decide as Hjb; [|done].
      assert (j >= b); [|by assert (j = b) as -> by lia; simplify_eq].
      apply (Hmax b (hash b)); [|done]. rewrite Hf, bool_decide_true; [done|lia].
    - exfalso. apply (Hlast b (hash b)); [|done]. rewrite Hf, bool_decide_true; [done|lia]. }
  apply back_filled; [done|lia|lia|].
  pose proof (filled_size hash b (-1) t Hf ltac:(lia)). lia.
Qed.

(** Known hashes are found exactly and deleted, down to the point of the unwind. *)
Lemma forget_known to k m (t : T Z) :
  (forall n n', 0 <= n <= b -> 0 <= n' <= b -> hash n = hash n' -> n = n') ->
  0 <= to -> m = Z.of_nat k -> m <= b -> to <= m ->
  (forall n, to < n <= m -> content t !! hash n = Some n) ->
  let t' := stages.forget_hashes to (backwards m k) t in
  (forall n, to < n <= m -> content t' !! hash n = None) /\
  (forall h, (forall n, to < n <= m -> h <> hash n) -> content t' !! h = content t !! h).
Proof.
  intros Hinj Hto. revert m t. induction k as [|k IH]; intros m t Hm Hb Htm Hknown.
  { rewrite backwards_0. cbn [stages.forget_hashes]. rewrite (proj2 (Z.ltb_ge _ _)) by lia.
    split; [lia|done]. }
  rewrite backwards_S. cbn [stages.forget_hashes].
  destruct (Z.ltb_spec to m) as [Hlt|Hge]; [|split; [lia|done]].
  assert (kv_seek (hash m) t = Some (hash m, m)) as ->.
  { pose proof (kv_seek_content (hash m) t) as Hs. pose proof (Hknown m ltac:(lia)) as Hk.
    destruct (kv_seek (hash m) t) as [[j v]|].
    - destruct Hs as (Hj & Hle & Hmin). specialize (Hmin (hash m) m Hk ltac:(lia)).
      assert (j = hash m) as -> by lia. by simplify_eq.
    - exfalso. by apply (Hs (hash m) m Hk). }
  destruct (IH (m - 1) (kv_delete (hash m) t)) as [IH1 IH2]; [lia|lia|lia| |].
  { intros n Hn. rewrite kv_delete_content, lookup_delete_ne; [by apply Hknown; lia|].
    intros He. apply Hinj in He; lia. }
  split.
  - intros n Hn. destruct (decide (n = m)) as [->|]; [|by apply IH1; lia].
    rewrite IH2; [by rewrite kv_delete_content, lookup_delete_eq|].
    intros n' Hn' He. apply Hinj in He; lia.
  - intros h Hh. rewrite IH2 by (intros n Hn; apply Hh; lia).
    rewrite kv_delete_content, lookup_delete_ne; [done|]. intros He. by apply (Hh m ltac:(lia)).
Qed.

End unwinding.

(** Unwinding the indices undoes them exactly: with all stages at the last block of
    the chain, each of the three stages unwinds in one call, the indices are then
    complete up to the point of the unwind, and nothing of the blocks above it is
    left in them. *)
Theorem indices_unwound {T : Type -> Type} {KV : Kv T} {W : Type} b hash gas txs gas0 txs0
    (db : Db (Tables T)) (w : W) to :
  chain_ok b hash gas txs gas0 txs0 -> indices b hash gas txs gas0 txs0 db ->
  Forall (fun id => progress_at id db = b) [TOTAL_GAS_INDEX; BLOCK_HASHES; TOTAL_TX_INDEX] ->
  0 <= to <= b ->
  Forall (fun s : Stage (Tables T) W => exists db',
    stage_unwind s {| unwind_from := b; unwind_to := to |} db w = Done (to, db', w) /\
    indices b hash gas txs gas0 txs0 (staged_sync.save_progress (stage_id s) to db'))
    [stages.TotalGasIndex; stages.BlockHashes; stages.TotalTxIndex] /\
  (forall n, to < n <= b ->
    content (stages.forget_hashes to (walk_back (canonical_header (tables db)))
      (header_number (tables db))) !! hash n = None).
Proof.
  intros (Hb & _ & _ & _ & Hinj) (Hst & Hp1 & Hf1 & Hp2 & Hf2 & Hp3 & Hf3) Hall Hto.
  apply Forall_cons in Hall as [E1 Hall]. apply Forall_cons in Hall as [E2 Hall].
  pose proof Hf1 as G1. pose proof Hf2 as G2. pose proof Hf3 as G3.
  apply Forall_cons in Hall as [E3 _]. rewrite E1 in Hf1. rewrite E2 in Hf3. rewrite E3 in Hf2.
  rewrite (walk_back_filled b hash) by (lia || apply Hst).
  destruct (forget_known b hash to (Z.to_nat b) b (header_number (tables db)) Hinj)
    as [Hnone Hrest]; try lia.
  { intros n Hn. apply Hf3. lia. }
  split; [|done]. repeat constructor.
  - eexists. split; [done|]. unfold indices. cbn [stage_id stages.TotalGasIndex].
    rewrite progress_saved, !progress_other by done.
    split_and!; try done; [lia|].
    apply (truncate_index _ b); [done|cbn [unwind_to]; lia].
  - eexists. split; [done|]. unfold indices. cbn [stage_id stages.BlockHashes].
    rewrite progress_saved, !progress_other by done.
    split_and!; try done; [lia|].
    cbn [staged_sync.save_progress stages.with_header_number tables header_number unwind_to].
    rewrite (walk_back_filled b hash) by (lia || apply Hst).
    intros n Hn. rewrite Hrest; [apply Hf3; lia|]. intros n' Hn' He. apply Hinj in He; lia.
  - eexists. split; [done|]. unfold indices. cbn [stage_id stages.TotalTxIndex].
    rewrite progress_saved, !progress_other by done.
    split_and!; try done; [lia|].
    apply (truncate_index _ b); [done|cbn [unwind_to]; lia].
Qed.

Lemma indices_unwound_witness :
  Forall (fun s : Stage (Tables map_table.table) unit => exists db',
    stage_unwind s {| unwind_from := 2; unwind_to := 1 |} sample_index.complete tt = Done (1, db', tt) /\
    indices 2 sample_index.block_hash sample_index.gas sample_index.txs 0 0
      (staged_sync.save_progress (stage_id s) 1 db'))
    [stages.TotalGasIndex; stages.BlockHashes; stages.TotalTxIndex] /\
  (forall n, 1 < n <= 2 ->
    content (stages.forget_hashes 1 (walk_back (canonical_header (tables sample_index.complete)))
      (header_number (tables sample_index.complete))) !! sample_index.block_hash n = None).
Proof.
  apply (indices_unwound 2 sample_index.block_hash sample_index.gas sample_index.txs 0 0
    sample_index.complete tt 1).
  - exact sample_index.chain.
  - exact sample_index.complete_indices.
  - repeat constructor.
  - lia.
Defined.

(** When the headers are ahead of the hashes, unwinding the hashes deletes entries it
    should keep: the cursor is moved to the hash of a block that is not in the table
    yet, stands on the next larger hash, and the entry there is deleted.  Here blocks
    0 to 2 are known by their hashes and block 3 is not; the unwind to block 1 deletes
    the entry of block 1. *)
Theorem block_hashes_unwind_loses :
  kv_get 30 (header_number (tables sample_index.headers_ahead)) = Some 1 /\
  exists db', stage_unwind (stages.BlockHashes (W := unit))
      {| unwind_from := 2; unwind_to := 1 |} sample_index.headers_ahead tt = Done (1, db', tt) /\
    kv_get 30 (header_number (tables db')) = None.
Proof. split; [reflexivity|]. eexists. split; [reflexivity|]. vm_compute. reflexivity. Qed.
