(* ===== verification/Bitmaps.v ===== *)
(** Chunked bitmaps of block numbers (src/bitmapdb/mod.rs) and the search in a history
    index (module [history_index] of src/accessors/state.rs).

    A bitmap of the croaring crate is a finite set of numbers, iterated in ascending
    order; its serialization is a parameter.  The key of a chunk is the needle followed
    by the number of the last block of the chunk. *)
From S2P Require Import Prelude EvmState Kv.
From Stdlib Require Import ZArith Lia Strings.Byte.
From stdpp Require Import base list option numbers gmap sorting.
#[local] Open Scope Z_scope.

Definition Treemap : Type := gset Z.


Definition bitmap_key (inner block_number : Z) : Z := inner * 2 ^ 64 + block_number.
Definition key_inner (k : Z) : Z := k / 2 ^ 64.
Definition key_block (k : Z) : Z := k mod 2 ^ 64.

Definition CHUNK_LIMIT : Z := 1950.

(** The serialization of a bitmap of 64-bit numbers: it can be read back, and a single
    number does not exceed a chunk. *)
Class TreemapCodec := {
  serialized_size : Treemap -> Z;
  treemap_encode : Treemap -> Bytes;
  treemap_decode : Bytes -> option Treemap;
  treemap_roundtrip b : (forall n, n ∈ b -> is_u64 n) -> treemap_decode (treemap_encode b) = Some b;
  single_fits n : serialized_size {[n]} <= CHUNK_LIMIT;
}.

Module bitmapdb.

Definition iter (b : Treemap) : list Z := merge_sort Z.le (elements b).

Fixpoint take_while (f : Z -> bool) (l : list Z) : list Z :=
  match l with
  | [] => []
  | x :: l => if f x then x :: take_while f l else []
  end.

Definition maximum (b : Treemap) : option Z := last (iter b).

Section chunks.
Context {TC : TreemapCodec} (size_limit : Z).

(** [while let Some(n) = it.peek()]: the bitmap so far and the first number that does
    not fit. *)
Fixpoint fill (it : list Z) (v : Treemap) : Treemap * option Z :=
  match it with
  | [] => (v, None)
  | n :: it =>
      let v := v ∪ {[n]} in
      if size_limit <? serialized_size v then (v ∖ {[n]}, Some n) else fill it v
  end.

(** [Chunks::next]: the chunk and the bitmap that is left. *)
Definition next (bm : Treemap) : option (Treemap * Treemap) :=
  if bool_decide (bm = ∅) then None
  else if serialized_size bm <=? size_limit then Some (bm, ∅)
  else
    match fill (iter bm) ∅ with
    | (v, Some min_n) =>
        let to_remove := take_while (fun n => n <? min_n) (iter bm) in
        Some (v, foldl (fun bm n => bm ∖ {[n]}) bm to_remove)
    | (_, None) => Some (bm, ∅)
    end.

(** All chunks; [None] is an iterator that does not end within the fuel. *)
Fixpoint chunks (fuel : nat) (bm : Treemap) : option (list Treemap) :=
  match fuel with
  | O => None
  | S fuel =>
      match next bm with
      | None => Some []
      | Some (chunk, bm) => l ← chunks fuel bm; Some (chunk :: l)
      end
  end.

(** [ChunksWithKeys]; [None] is the panic of [maximum().unwrap()]. *)
Fixpoint with_keys (l : list Treemap) : option (list (Z * Treemap)) :=
  match l with
  | [] => Some []
  | chunk :: l =>
      k ← (match l with [] => Some u64_max | _ => maximum chunk end);
      l ← with_keys l;
      Some ((k, chunk) :: l)
  end.

(** The chunks of a bitmap and their keys: a round for each number and one for the end. *)
Definition keyed_chunks (bm : Treemap) : option (list (Z * Treemap)) :=
  l ← chunks (S (size bm)) bm; with_keys l.

End chunks.

Section tables.
Context {T : Type -> Type} {KV : Kv T}.

Fixpoint collect (key to : Z) (s : list (Z * Treemap)) : Treemap :=
  match s with
  | [] => ∅
  | (k, v) :: s =>
      if key_inner k =? key then
        if to <=? key_block k then v else v ∪ collect key to s
      else ∅
  end.

Definition get (table : T Treemap) (key from to : Z) : Treemap :=
  collect key to (walk (bitmap_key key from) table).

(** [find_next_block] of accessors/state.rs. *)
Definition find_next_block (table : T Treemap) (needle block_number : Z) : option Z :=
  match kv_seek (bitmap_key needle block_number) table with
  | Some (index_key, change_blocks) =>
      if key_inner index_key =? needle
      then snd <$> list_find (fun change_block => block_number < change_block) (iter change_blocks)
      else None
  | None => None
  end.

End tables.

End bitmapdb.
