(* ===== verification/BitmapsSpec.v ===== *)
(** Chunked bitmaps: the chunks of a bitmap cover it in order, an index in chunks holds the
    numbers that were loaded into it, and the search for the next block in an index is right
    unless a chunk ends at the block. *)
From S2P Require Import Prelude EvmState Kv Bitmaps.
From Stdlib Require Import ZArith Lia Strings.Byte.
From stdpp Require Import base list option numbers gmap sorting.
#[local] Open Scope Z_scope.
Import bitmapdb.

(** ** Iteration *)

Lemma elem_of_iter b n : n ∈ iter b <-> n ∈ b.
Proof. unfold iter. by rewrite merge_sort_Permutation, elem_of_elements. Qed.

Lemma iter_sorted b : StronglySorted Z.lt (iter b).
Proof.
  assert (StronglySorted Z.le (iter b)) as Hs by (apply StronglySorted_merge_sort; apply _).
  assert (NoDup (iter b)) as Hn by (unfold iter; rewrite merge_sort_Permutation; apply NoDup_elements).
  revert Hn. induction Hs as [|x l Hs IH Hle]; intros Hn; [constructor|].
  apply NoDup_cons in Hn as [Hni Hn]. constructor; [by apply IH|].
  rewrite Forall_forall in *. intros y Hy. specialize (Hle y Hy).
  assert (x <> y) by (by intros ->). lia.
Qed.

Lemma elem_of_take_while f l n : (forall x y, x < y -> f y = true -> f x = true) -> StronglySorted Z.lt l ->
  n ∈ take_while f l <-> n ∈ l /\ f n = true.
Proof.
  intros Hf. induction 1 as [|x l Hs IH Hlt]; simpl; [by split; [intros ?%elem_of_nil|intros [?%elem_of_nil _]]|].
  rewrite Forall_forall in Hlt. destruct (f x) eqn:Hx.
  - rewrite !elem_of_cons, IH. split; [|by intuition]. intros [->|[? ?]]; by intuition.
  - split; [by intros ?%elem_of_nil|]. rewrite elem_of_cons. intros [[->|Hin] Hn]; [congruence|].
    rewrite (Hf x n (Hlt n Hin) Hn) in Hx. done.
Qed.

Lemma elem_of_below m l n : StronglySorted Z.lt l -> n ∈ take_while (fun n => n <? m) l <-> n ∈ l /\ n < m.
Proof. intros Hs. rewrite elem_of_take_while, Z.ltb_lt; [done| |done]. intros x y. rewrite !Z.ltb_lt. lia. Qed.

Lemma elem_of_up_to m l n : StronglySorted Z.lt l -> n ∈ take_while (fun n => n <=? m) l <-> n ∈ l /\ n <= m.
Proof. intros Hs. rewrite elem_of_take_while, Z.leb_le; [done| |done]. intros x y. rewrite !Z.leb_le. lia. Qed.

Lemma removed l (bm : Treemap) n : n ∈ foldl (fun bm n => bm ∖ {[n]}) bm l <-> n ∈ bm /\ n ∉ l.
Proof.
  revert bm. induction l as [|x l IH]; intros bm; simpl; [by split; [intros; split; [done|by apply not_elem_of_nil]|by intros []]|].
  rewrite IH, elem_of_difference, elem_of_singleton, not_elem_of_cons. by intuition.
Qed.

Lemma maximum_spec b m : maximum b = Some m -> m ∈ b /\ forall n, n ∈ b -> n <= m.
Proof.
  unfold maximum. intros Hm. apply last_Some in Hm as [l Hl]. split.
  - apply elem_of_iter. rewrite Hl. set_solver.
  - intros n Hn%elem_of_iter. pose proof (iter_sorted b) as Hs. rewrite Hl in Hs, Hn.
    apply elem_of_app in Hn as [Hn| ->%list_elem_of_singleton]; [|done].
    enough (n < m) by lia. apply (StronglySorted_app_1_elem_of _ _ _ n m Hs Hn). set_solver.
Qed.

Lemma maximum_some b : b <> ∅ -> is_Some (maximum b).
Proof.
  intros Hb. unfold maximum. destruct (iter b) as [|x l] eqn:E.
  - destruct Hb. apply set_eq. intros n. rewrite <- elem_of_iter, E. set_solver.
  - apply last_is_Some. done.
Qed.

Lemma StronglySorted_elem_of_lookup {A} (R : A -> A -> Prop) l i j x y :
  StronglySorted R l -> l !! i = Some x -> l !! j = Some y -> (i < j)%nat -> R x y.
Proof.
  intros Hs. revert i j. induction Hs as [|z l Hs IH Hz]; intros i j Hi Hj Hij; [done|].
  rewrite Forall_forall in Hz. destruct j as [|j]; [lia|]. destruct i as [|i]; simpl in *.
  - simplify_eq. apply Hz. by eapply list_elem_of_lookup_2.
  - apply (IH i j); [done|done|lia].
Qed.

Lemma sorted_filter {A} (R : A -> A -> Prop) (P : A -> Prop) `{!forall x, Decision (P x)} l :
  StronglySorted R l -> StronglySorted R (filter P l).
Proof.
  induction 1 as [|x l Hs IH Hle]; [constructor|]. rewrite filter_cons. case_decide; [|done].
  constructor; [done|]. rewrite Forall_forall in *. intros y [_ Hy]%list_elem_of_filter. by apply Hle.
Qed.

Lemma sorted_rev {A} (R : A -> A -> Prop) l : StronglySorted R l -> StronglySorted (fun x y => R y x) (rev l).
Proof.
  induction 1 as [|x l Hs IH Hle]; [constructor|]. simpl. apply StronglySorted_app_2; [|done|by repeat constructor].
  intros y z Hy ->%list_elem_of_singleton. rewrite list_elem_of_In, <- in_rev, <- list_elem_of_In in Hy.
  rewrite Forall_forall in Hle. by apply Hle.
Qed.

(** ** Chunks *)

(** Chunks with their keys: a key is the greatest number of its chunk, the last is
    the greatest number there is, and each key is below the numbers of the next chunks. *)
Record keyed (bm : Treemap) (l : list (Z * Treemap)) : Prop := {
  ky_cover m : m ∈ bm -> exists k c, (k, c) ∈ l /\ m ∈ c;
  ky_chunk k c : (k, c) ∈ l -> c <> ∅ /\ c ⊆ bm /\ (k = u64_max \/ k ∈ c) /\ forall m, m ∈ c -> m <= k;
  ky_last : bm <> ∅ -> exists c, (u64_max, c) ∈ l;
  ky_order : StronglySorted (fun e f => e.1 < f.1 /\ forall m, m ∈ f.2 -> e.1 < m) l;
}.

Lemma keyed_range bm l k c : (forall n, n ∈ bm -> is_u64 n) -> keyed bm l -> (k, c) ∈ l -> is_u64 k.
Proof.
  intros Hr Hk Hin. destruct (ky_chunk bm l Hk k c Hin) as (_ & Hsub & [-> |Hkc] & _); [by split|].
  apply Hr. set_solver.
Qed.

Section chunks.
Context {TC : TreemapCodec} (limit : Z).

Lemma fill_spec it v : StronglySorted Z.lt it -> (forall n, n ∈ it -> n ∉ v) ->
  match fill limit it v with
  | (v', Some m) => m ∈ it /\ forall n, n ∈ v' <-> n ∈ v \/ n ∈ it /\ n < m
  | (_, None) => True
  end.
Proof.
  intros Hs. revert v. induction Hs as [|x it Hs IH Hlt]; intros v Hv; simpl; [done|].
  rewrite Forall_forall in Hlt. destruct (limit <? serialized_size (v ∪ {[x]})).
  - split; [set_solver|]. intros n. pose proof (Hv x ltac:(set_solver)). split.
    + set_solver.
    + intros [Hn|[[->|Hn]%elem_of_cons Hx]]; [set_solver|lia|]. specialize (Hlt n Hn). lia.
  - specialize (IH (v ∪ {[x]})).
    assert (forall n, n ∈ it -> n ∉ v ∪ {[x]}) as Hv'.
    { intros n Hn. specialize (Hlt n Hn). rewrite elem_of_union, elem_of_singleton.
      intros [?| ->]; [by apply (Hv n); [set_solver|]|lia]. }
    specialize (IH Hv'). destruct (fill limit it (v ∪ {[x]})) as [v' [m|]]; [|done].
    destruct IH as [Hm Hv'']. split; [set_solver|]. intros n. rewrite Hv''.
    pose proof (Hlt m Hm). rewrite elem_of_union, elem_of_singleton, elem_of_cons.
    split; [intros [[?| ->]|[? ?]]|intros [?|[[ -> | ?] ?]]]; by intuition.
Qed.

Context (fits_limit : forall n, serialized_size {[n]} <= limit).

(** A chunk is not empty and comes before what is left. *)
Lemma next_spec bm : bm <> ∅ -> exists c rest, next limit bm = Some (c, rest) /\ c <> ∅ /\ c ∪ rest = bm /\
  forall x y, x ∈ c -> y ∈ rest -> x < y.
Proof.
  intros Hbm. unfold next. rewrite bool_decide_false by done.
  case_match; [exists bm, ∅; split_and!; [done|done|set_solver|set_solver]|].
  destruct (fill limit (iter bm) ∅) as [v [m|]] eqn:E; [|exists bm, ∅; split_and!; [done|done|set_solver|set_solver]].
  pose proof (iter_sorted bm) as Hs. pose proof (fill_spec (iter bm) ∅ Hs ltac:(set_solver)) as Hf.
  rewrite E in Hf. destruct Hf as [Hm Hv]. eexists v, _. split; [done|]. split_and!.
  - destruct (iter bm) as [|x it] eqn:Eit; [by apply elem_of_nil in Hm|]. simpl in E.
    rewrite (left_id_L ∅ union) in E. rewrite (proj2 (Z.ltb_ge _ _) (fits_limit x)) in E.
    apply StronglySorted_inv in Hs as [Hs Hlt].
    pose proof (fill_spec it {[x]} Hs) as Hf. rewrite E in Hf. rewrite Forall_forall in Hlt.
    destruct Hf as [Hm' Hv']. { intros n Hn ->%elem_of_singleton. specialize (Hlt x Hn). lia. }
    assert (x ∈ v) by (apply Hv'; set_solver). set_solver.
  - apply set_eq. intros n. rewrite elem_of_union, removed, Hv, elem_of_below, elem_of_iter by done.
    destruct (decide (n < m)); set_solver.
  - intros x y. rewrite Hv, removed, elem_of_below, !elem_of_iter by done.
    intros [?|[Hx Hxm]]; [set_solver|]. intros [Hy Hn]. destruct (Z.lt_ge_cases y m); [by destruct Hn|lia].
Qed.

Definition before (c d : Treemap) : Prop := forall x y, x ∈ c -> y ∈ d -> x < y.

Lemma chunks_spec fuel bm : (size bm < fuel)%nat -> exists l, chunks limit fuel bm = Some l /\
  ⋃ l = bm /\ Forall (fun c => c <> ∅) l /\ StronglySorted before l.
Proof.
  revert bm. induction fuel as [|fuel IH]; intros bm Hf; [lia|]. cbn [chunks].
  destruct (decide (bm = ∅)) as [->|Hbm].
  - exists []. unfold next. rewrite bool_decide_true by done. split_and!; [done|done|done|constructor].
  - destruct (next_spec bm Hbm) as (c & rest & -> & Hc & Hun & Hlt).
    destruct (IH rest) as (l & Hl & Hul & Hne & Hs).
    { assert (rest ⊂ bm); [|by enough (size rest < size bm)%nat by lia; apply subset_size].
      apply set_choose_L in Hc as [x Hx]. split; [set_solver|]. intros Hsub.
      specialize (Hlt x x Hx ltac:(set_solver)). lia. }
    exists (c :: l). simpl. rewrite Hl. split_and!; [done|by rewrite Hul|by constructor|].
    constructor; [done|]. apply Forall_forall. intros d Hd x y Hx Hy. apply Hlt; [done|].
    rewrite <- Hul. apply elem_of_union_list. by exists d.
Qed.

Lemma with_keys_spec l : Forall (fun c => c <> ∅) l -> StronglySorted before l ->
  (forall n, n ∈ ⋃ l -> is_u64 n) -> exists kl, with_keys l = Some kl /\ kl.*2 = l /\ keyed (⋃ l) kl.
Proof.
  intros Hne Hs. induction Hs as [|c l Hs IH Hlt]; intros Hr.
  { exists []. split_and!; [done|done|]. split; [set_solver|set_solver|done|constructor]. }
  apply Forall_cons in Hne as [Hc Hne].
  destruct (IH Hne) as (kl & Hkl & Hsnd & Hk); [intros n Hn; apply Hr; simpl; set_solver|].
  destruct (maximum_some c Hc) as [m Hm]. destruct (maximum_spec c m Hm) as [Hmc Hmax].
  rewrite Forall_forall in Hlt.
  assert (exists k, (match l with [] => Some u64_max | _ => maximum c end) = Some k /\
    (k = u64_max /\ l = [] \/ k = m /\ l <> [])) as (k & Ek & Hcase).
  { destruct l; [exists u64_max; by auto|exists m; split; [done|by right]]. }
  assert (forall n, n ∈ c -> n <= k) as Hkmax.
  { intros n Hn. destruct Hcase as [[-> ->]|[-> _]]; [|by apply Hmax].
    assert (is_u64 n) as [_ ?] by (apply Hr; simpl; set_solver). unfold u64_max. lia. }
  exists ((k, c) :: kl). cbn [with_keys]. rewrite Ek. simpl. rewrite Hkl. split_and!; [done|by f_equal/=|].
  destruct Hk as [Hcov Hch Hla Hor]. split.
  - intros n [Hn|Hn]%elem_of_union; [exists k, c; set_solver|]. destruct (Hcov n Hn) as (k' & c' & ? & ?).
    exists k', c'. set_solver.
  - intros k' c' [[= -> ->]|Hin]%elem_of_cons.
    + split_and!; [done|set_solver| |done]. destruct Hcase as [[-> _]|[-> _]]; by auto.
    + destruct (Hch k' c' Hin) as (? & ? & ? & ?). split_and!; [done|set_solver|done|done].
  - intros _. destruct Hcase as [[-> ->]|[_ Hl]]; [exists c; set_solver|].
    destruct Hla as [c' Hc']; [|exists c'; set_solver].
    destruct l as [|d l]; [done|]. apply Forall_cons in Hne as [Hd _]. simpl. set_solver.
  - constructor; [done|]. apply Forall_forall. intros [k' c'] Hin. simpl.
    destruct (Hch k' c' Hin) as (Hc' & _ & _ & Hle).
    assert (c' ∈ l) as Hcl by (rewrite <- Hsnd; apply list_elem_of_fmap; by exists (k', c')).
    destruct Hcase as [[_ ->]|[-> _]]; [by apply elem_of_nil in Hcl|].
    assert (forall n, n ∈ c' -> m < n) as Hmn by (intros n Hn; by apply (Hlt c' Hcl)).
    split; [|done]. apply set_choose_L in Hc' as [n Hn]. specialize (Hmn n Hn). specialize (Hle n Hn). lia.
Qed.

Lemma keyed_chunks_spec bm : (forall n, n ∈ bm -> is_u64 n) ->
  exists kl, keyed_chunks limit bm = Some kl /\ keyed bm kl.
Proof.
  intros Hr. unfold keyed_chunks. destruct (chunks_spec (S (size bm)) bm) as (l & -> & Hun & Hne & Hs); [lia|].
  simpl. destruct (with_keys_spec l Hne Hs) as (kl & Hkl & _ & Hk); [by rewrite Hun|].
  exists kl. rewrite Hun in Hk. done.
Qed.

End chunks.

(** ** Indices *)

Section index.
Context {T : Type -> Type} {KV : Kv T}.

Definition chunk_at (t : T Treemap) (needle k : Z) : option Treemap := content t !! bitmap_key needle k.

(** The index of a needle holds the numbers [blocks]. *)
Record indexed (needle : Z) (blocks : Treemap) (t : T Treemap) : Prop := {
  ix_cover m : m ∈ blocks -> exists k c, is_u64 k /\ chunk_at t needle k = Some c /\ m ∈ c;
  ix_chunk k c : is_u64 k -> chunk_at t needle k = Some c ->
    c <> ∅ /\ c ⊆ blocks /\ (k = u64_max \/ k ∈ c) /\ forall m, m ∈ c -> m <= k;
  ix_last : blocks <> ∅ -> is_Some (chunk_at t needle u64_max);
  ix_order k c k' c' m : is_u64 k -> is_u64 k' -> chunk_at t needle k = Some c ->
    chunk_at t needle k' = Some c' -> k < k' -> m ∈ c' -> k < m;
}.

Lemma bitmap_key_parts needle k : is_u64 k ->
  key_inner (bitmap_key needle k) = needle /\ key_block (bitmap_key needle k) = k.
Proof.
  unfold uint, key_inner, key_block, bitmap_key. intros Hk.
  rewrite Z.add_comm, Z.div_add, Z.div_small, Z.mod_add, Z.mod_small by lia. lia.
Qed.

Lemma bitmap_key_inj a k a' k' : is_u64 k -> is_u64 k' -> bitmap_key a k = bitmap_key a' k' -> a = a' /\ k = k'.
Proof.
  intros H1 H2 E. destruct (bitmap_key_parts a k H1), (bitmap_key_parts a' k' H2). split; congruence.
Qed.

Lemma bitmap_key_of k : bitmap_key (key_inner k) (key_block k) = k /\ is_u64 (key_block k).
Proof.
  unfold bitmap_key, key_inner, key_block. pose proof (Z.div_mod k (2 ^ 64) ltac:(lia)).
  split; [lia|]. by apply Z.mod_pos_bound.
Qed.

Lemma u64_max_u64 : is_u64 u64_max.
Proof. by split. Qed.

(** What the search finds: the first chunk that ends at the block or after it. *)
Lemma seek_chunk t needle n : is_u64 n ->
  match kv_seek (bitmap_key needle n) t with
  | Some (k, c) =>
      (key_inner k = needle /\ is_u64 (key_block k) /\ chunk_at t needle (key_block k) = Some c /\
       n <= key_block k /\
       forall k' c', is_u64 k' -> chunk_at t needle k' = Some c' -> n <= k' -> key_block k <= k') \/
      (key_inner k <> needle /\ forall k' c', is_u64 k' -> chunk_at t needle k' = Some c' -> k' < n)
  | None => forall k' c', is_u64 k' -> chunk_at t needle k' = Some c' -> k' < n
  end.
Proof.
  intros Hn. pose proof (kv_seek_content (bitmap_key needle n) t) as Hs.
  destruct (kv_seek (bitmap_key needle n) t) as [[k c]|].
  - destruct Hs as (Hk & Hle & Hmin). destruct (bitmap_key_of k) as [Ek Hkb].
    destruct (decide (key_inner k = needle)) as [E|Hne]; [left|right].
    + split_and!; [done|done|unfold chunk_at; rewrite <- E, Ek; done| |].
      * rewrite <- Ek, E in Hle. unfold bitmap_key in Hle. lia.
      * intros k' c' Hk' Hc' Hle'. specialize (Hmin (bitmap_key needle k') c' Hc').
        rewrite <- Ek, E in Hmin. unfold bitmap_key in Hmin. lia.
    + split; [done|]. intros k' c' Hk' Hc'. destruct (Z.lt_ge_cases k' n) as [|Hge]; [done|]. exfalso.
      specialize (Hmin (bitmap_key needle k') c' Hc' ltac:(unfold bitmap_key; lia)).
      rewrite <- Ek in Hle, Hmin. unfold bitmap_key, uint in *. apply Hne. lia.
  - intros k' c' Hk' Hc'. destruct (Z.lt_ge_cases k' n) as [|Hge]; [done|].
    destruct (Hs (bitmap_key needle k') c' Hc'). unfold bitmap_key. lia.
Qed.

(** The least number above [n]. *)
Definition least_above (blocks : Treemap) (n : Z) (o : option Z) : Prop :=
  match o with
  | Some m => m ∈ blocks /\ n < m /\ forall m', m' ∈ blocks -> n < m' -> m <= m'
  | None => forall m, m ∈ blocks -> m <= n
  end.

Lemma list_find_least n (l : list Z) : StronglySorted Z.lt l ->
  match snd <$> list_find (fun m => n < m) l with
  | Some m => m ∈ l /\ n < m /\ forall m', m' ∈ l -> n < m' -> m <= m'
  | None => forall m, m ∈ l -> m <= n
  end.
Proof.
  induction 1 as [|x l Hs IH Hlt]; simpl; [by intros m ?%elem_of_nil|]. rewrite Forall_forall in Hlt.
  destruct (decide (n < x)) as [Hx|Hx]; simpl.
  - split_and!; [set_solver|done|]. intros m' [->|Hin]%elem_of_cons _; [done|]. specialize (Hlt m' Hin). lia.
  - destruct (list_find (fun m => n < m) l) as [[i m]|]; simpl in *.
    + destruct IH as (Hm & Hnm & Hmin). split_and!; [set_solver|done|].
      intros m' [->|Hin]%elem_of_cons Hm'; [lia|by apply Hmin].
    + intros m [->|Hin]%elem_of_cons; [lia|by apply IH].
Qed.

Lemma find_next_least needle blocks (t : T Treemap) n : indexed needle blocks t -> is_u64 n ->
  n = u64_max \/ chunk_at t needle n = None -> least_above blocks n (find_next_block t needle n).
Proof.
  intros Hix Hn Hend. unfold find_next_block. pose proof (seek_chunk t needle n Hn) as Hs.
  assert ((forall k' c', is_u64 k' -> chunk_at t needle k' = Some c' -> k' < n) ->
    forall m, m ∈ blocks -> m <= n) as Hnone.
  { intros Hall m Hm. destruct (ix_cover _ _ _ Hix m Hm) as (k & c & Hk & Hc & Hmc).
    destruct (ix_chunk _ _ _ Hix k c Hk Hc) as (_ & _ & _ & Hle).
    specialize (Hle m Hmc). specialize (Hall k c Hk Hc). lia. }
  destruct (kv_seek (bitmap_key needle n) t) as [[k c]|]; [|exact (Hnone Hs)].
  destruct Hs as [(E & Hkb & Hc & Hle & Hmin)|[Hne Hall]].
  - rewrite (proj2 (Z.eqb_eq _ _) E). set (b := key_block k) in *.
    destruct (ix_chunk _ _ _ Hix b c Hkb Hc) as (_ & Hsub & Hend' & Hmax).
    pose proof (list_find_least n (iter c) (iter_sorted c)) as Hf.
    assert (forall m, m ∈ blocks -> n < m -> m ∈ c \/ b < m) as Hwhere.
    { intros m Hm Hlt. destruct (ix_cover _ _ _ Hix m Hm) as (k' & c' & Hk' & Hc' & Hmc).
      destruct (ix_chunk _ _ _ Hix k' c' Hk' Hc') as (_ & _ & _ & Hle'). specialize (Hle' m Hmc).
      destruct (Z.lt_trichotomy k' b) as [Hlt'|[->|Hgt]].
      - specialize (Hmin k' c' Hk' Hc'). lia.
      - left. congruence.
      - right. by eapply (ix_order _ _ _ Hix b c k' c'). }
    destruct (snd <$> list_find _ (iter c)) as [m|]; simpl.
    + destruct Hf as (Hm%elem_of_iter & Hlt & Hfirst). split_and!; [set_solver|done|].
      intros m' Hm' Hlt'. destruct (Hwhere m' Hm' Hlt') as [Hin|Hgt].
      * apply Hfirst; [by apply elem_of_iter|done].
      * specialize (Hmax m Hm). lia.
    + intros m Hm. destruct (Z.le_gt_cases m n) as [|Hgt]; [done|exfalso].
      destruct (Hwhere m Hm Hgt) as [Hin|Hb]; [specialize (Hf m (proj2 (elem_of_iter _ _) Hin)); lia|].
      assert (b <> u64_max) as Hbmax.
      { intros ->. destruct (ix_cover _ _ _ Hix m Hm) as (k' & c' & Hk' & Hc' & Hmc).
        destruct (ix_chunk _ _ _ Hix k' c' Hk' Hc') as (_ & _ & _ & Hle').
        specialize (Hle' m Hmc). destruct Hk' as [_ Hk']. unfold u64_max in *. lia. }
      destruct Hend' as [|Hbc]; [done|]. specialize (Hf b (proj2 (elem_of_iter _ _) Hbc)).
      assert (b = n) as -> by lia. destruct Hend; congruence.
  - rewrite (proj2 (Z.eqb_neq _ _) Hne). exact (Hnone Hall).
Qed.

(** At the end of a chunk the search finds nothing. *)
Lemma find_next_at_end needle blocks (t : T Treemap) n c : indexed needle blocks t -> is_u64 n ->
  n <> u64_max -> chunk_at t needle n = Some c ->
  find_next_block t needle n = None /\ exists m, m ∈ blocks /\ n < m.
Proof.
  intros Hix Hn Hne Hc. destruct (ix_chunk _ _ _ Hix n c Hn Hc) as (Hcne & Hsub & _ & Hmax). split.
  - unfold find_next_block. rewrite (seek_exact _ c _ Hc), (proj1 (bitmap_key_parts needle n Hn)), Z.eqb_refl.
    pose proof (list_find_least n (iter c) (iter_sorted c)) as Hf.
    destruct (snd <$> _) as [m|]; [|done]. destruct Hf as (Hm%elem_of_iter & Hlt & _).
    specialize (Hmax m Hm). lia.
  - destruct (ix_last _ _ _ Hix) as [d Hd]; [apply set_choose_L in Hcne as [x Hx]; set_solver|].
    destruct (ix_chunk _ _ _ Hix u64_max d u64_max_u64 Hd) as (Hdne & Hdsub & _).
    apply set_choose_L in Hdne as [m Hm]. exists m. split; [set_solver|].
    apply (ix_order _ _ _ Hix n c u64_max d m Hn u64_max_u64 Hc Hd); [|done].
    unfold uint, u64_max in *. lia.
Qed.

(** ** Loading *)

Lemma put_chunks_content needle (l : list (Z * Treemap)) (t : T Treemap) k c :
  StronglySorted (fun e f => e.1 < f.1 /\ forall m, m ∈ f.2 -> e.1 < m) l ->
  content (foldl (fun t e => kv_put (bitmap_key needle e.1) e.2 t) t l) !! bitmap_key needle k = Some c <->
  (k, c) ∈ l \/ (k ∉ l.*1 /\ content t !! bitmap_key needle k = Some c).
Proof.
  revert t. induction l as [|[k' c'] l IH]; intros t Hs; cbn [foldl fst snd].
  { split; [intros; right; split; [apply not_elem_of_nil|done]|]. intros [?%elem_of_nil|[_ ?]]; done. }
  apply StronglySorted_inv in Hs as [Hs Hlt]. rewrite IH by done. rewrite Forall_forall in Hlt.
  assert (k' ∉ l.*1) as Hni.
  { intros ([k1 c1] & E & Hin)%list_elem_of_fmap. destruct (Hlt _ Hin) as [? _]. simpl in *. lia. }
  rewrite kv_put_content, fmap_cons, not_elem_of_cons, elem_of_cons. cbn [fst].
  destruct (decide (k = k')) as [->|Hne].
  - rewrite lookup_insert_eq. split.
    + intros [Hin|[_ [= ->]]]; [left; by right|by left; left].
    + intros [[[= ->]|Hin]|[[? _] _]]; [by right|by left|done].
  - rewrite lookup_insert_ne by (unfold bitmap_key; lia). split.
    + intros [Hin|[Hni' Hc]]; [left; by right|right]. done.
    + intros [[[= -> _]|Hin]|[[_ Hni'] Hc]]; [done|by left|by right].
Qed.

(** The keys of the other needles stay. *)
Lemma put_chunks_other needle (l : list (Z * Treemap)) (t : T Treemap) a k :
  (forall e, e ∈ l -> is_u64 e.1) -> is_u64 k -> a <> needle ->
  chunk_at (foldl (fun t e => kv_put (bitmap_key needle e.1) e.2 t) t l) a k = chunk_at t a k.
Proof.
  intros Hr Hk Hne. revert t. induction l as [|e l IH]; intros t; [done|]. cbn [foldl].
  rewrite IH by set_solver. unfold chunk_at. rewrite kv_put_content, lookup_insert_ne; [done|].
  intros E. apply bitmap_key_inj in E as [? _]; [done|apply Hr; set_solver|done].
Qed.

(** New numbers, above the old ones, are merged into the last chunk. *)
Lemma load_indexed needle blocks new (t : T Treemap) kl :
  indexed needle blocks t -> new <> ∅ -> (forall n, n ∈ blocks ∪ new -> is_u64 n) ->
  (forall m n, m ∈ blocks -> n ∈ new -> m < n) ->
  keyed (new ∪ default ∅ (chunk_at t needle u64_max)) kl ->
  indexed needle (blocks ∪ new) (foldl (fun t e => kv_put (bitmap_key needle e.1) e.2 t) t kl).
Proof.
  intros Hix Hnew Hr Hlt Hk. set (old := default ∅ (chunk_at t needle u64_max)) in *.
  assert (old ⊆ blocks) as Hold.
  { subst old. destruct (chunk_at t needle u64_max) as [c|] eqn:E; simpl; [|set_solver].
    by destruct (ix_chunk _ _ _ Hix u64_max c u64_max_u64 E) as (_ & ? & _). }
  pose proof Hk as [Hcov Hch Hla Hor]. destruct Hla as [cl Hcl]; [set_solver|].
  assert (forall k c, (k, c) ∈ kl -> is_u64 k) as Hkr.
  { intros k c Hin. eapply keyed_range; [|exact Hk|exact Hin]. set_solver. }
  (* the chunks that stay end before the merged numbers *)
  assert (forall k c m, is_u64 k -> chunk_at t needle k = Some c -> k ∉ kl.*1 -> m ∈ new ∪ old -> k < m) as Hbelow.
  { intros k c m Hku Hc Hni Hm. assert (k <> u64_max) as Hkm.
    { intros ->. apply Hni. apply list_elem_of_fmap. by exists (u64_max, cl). }
    destruct (ix_chunk _ _ _ Hix k c Hku Hc) as (_ & Hsub & [?|Hkc] & _); [done|].
    apply elem_of_union in Hm as [Hm|Hm]; [by apply Hlt; [set_solver|]|].
    subst old. destruct (chunk_at t needle u64_max) as [d|] eqn:E; [|by apply not_elem_of_empty in Hm].
    apply (ix_order _ _ _ Hix k c u64_max d m Hku u64_max_u64 Hc E); [|done].
    unfold uint, u64_max in *. lia. }
  assert (forall k c, is_u64 k -> chunk_at (foldl (fun t e => kv_put (bitmap_key needle e.1) e.2 t) t kl) needle k = Some c <->
    (k, c) ∈ kl \/ (k ∉ kl.*1 /\ chunk_at t needle k = Some c)) as Hat.
  { intros k c _. unfold chunk_at. by apply put_chunks_content. }
  split.
  - intros m Hm. destruct (decide (m ∈ new ∪ old)) as [Hin|Hout].
    + destruct (Hcov m Hin) as (k & c & Hkc & Hmc). exists k, c. split_and!; [by eapply Hkr| |done].
      apply Hat; [by eapply Hkr|by left].
    + assert (m ∈ blocks) as Hmb by set_solver. destruct (ix_cover _ _ _ Hix m Hmb) as (k & c & Hku & Hc & Hmc).
      exists k, c. split_and!; [done| |done]. apply Hat; [done|]. right. split; [|done].
      intros ([k' c'] & E & Hin)%list_elem_of_fmap. simpl in E. subst k'.
      destruct (ix_chunk _ _ _ Hix k c Hku Hc) as (_ & Hsub & Hend & Hmax).
      destruct (decide (k = u64_max)) as [->|Hkm].
      { apply Hout. subst old. rewrite Hc. simpl. set_solver. }
      destruct Hend as [?|Hkc]; [done|]. destruct (Hch k c' Hin) as (_ & Hsub' & [?|Hkc'] & _); [done|].
      assert (k ∈ new ∪ old) as [Hkn|Hko]%elem_of_union by set_solver.
      { specialize (Hlt k k ltac:(set_solver) Hkn). lia. }
      subst old. destruct (chunk_at t needle u64_max) as [d|] eqn:E; [|by apply not_elem_of_empty in Hko].
      assert (k < k); [|lia]. apply (ix_order _ _ _ Hix k c u64_max d k Hku u64_max_u64 Hc E); [|done].
      unfold uint, u64_max in *. lia.
  - intros k c Hku [Hin|[Hni Hc]]%Hat; [|..|done].
    + destruct (Hch k c Hin) as (? & ? & ? & ?). split_and!; [done|set_solver|done|done].
    + destruct (ix_chunk _ _ _ Hix k c Hku Hc) as (? & ? & ? & ?). split_and!; [done|set_solver|done|done].
  - intros _. exists cl. apply Hat; [apply u64_max_u64|by left].
  - intros k c k' c' m Hku Hku' [Hin|[Hni Hc]]%Hat [Hin'|[Hni' Hc']]%Hat Hkk Hm; try done.
    + apply list_elem_of_lookup in Hin as [i Hi]. apply list_elem_of_lookup in Hin' as [j Hj].
      destruct (Nat.lt_trichotomy i j) as [Hij|[->|Hji]].
      * by apply (proj2 (StronglySorted_elem_of_lookup _ _ _ _ _ _ Hor Hi Hj Hij)).
      * simplify_eq. lia.
      * pose proof (proj1 (StronglySorted_elem_of_lookup _ _ _ _ _ _ Hor Hj Hi Hji)) as Hb. simpl in Hb. lia.
    + destruct (Hch k c Hin) as (_ & Hsub & [->|Hkc] & _); [destruct Hku'; unfold u64_max in *; lia|].
      specialize (Hbelow k' c' k Hku' Hc' Hni' ltac:(set_solver)). lia.
    + destruct (Hch k' c' Hin') as (_ & Hsub & _). apply (Hbelow k c m Hku Hc Hni). set_solver.
    + by eapply (ix_order _ _ _ Hix k c k' c').
Qed.

(** ** Reading *)

Lemma inner_sorted key from (w : list (Z * Treemap)) k c : StronglySorted key_lt ((k, c) :: w) ->
  is_u64 from -> bitmap_key key from <= k -> key_inner k <> key ->
  forall k' c', (k', c') ∈ w -> key_inner k' <> key.
Proof.
  intros [_ Hlt]%StronglySorted_inv Hf Hge Hne k' c' Hin. rewrite Forall_forall in Hlt.
  specialize (Hlt _ Hin). unfold key_lt in Hlt. simpl in Hlt.
  destruct (bitmap_key_of k) as [Ek [? ?]], (bitmap_key_of k') as [Ek' [? ?]].
  unfold bitmap_key, uint in *. lia.
Qed.

Lemma elem_of_collect key from to (w : list (Z * Treemap)) m : StronglySorted key_lt w -> is_u64 from ->
  (forall k c, (k, c) ∈ w -> bitmap_key key from <= k) ->
  m ∈ collect key to w <-> exists k c, (k, c) ∈ w /\ key_inner k = key /\ m ∈ c /\
    forall k' c', (k', c') ∈ w -> key_inner k' = key -> k' < k -> key_block k' < to.
Proof.
  intros Hs Hf. induction w as [|[k c] w IH]; intros Hge; cbn [collect].
  { split; [set_solver|]. intros (k & c & ?%elem_of_nil & _). done. }
  pose proof (StronglySorted_inv Hs) as [Hs' Hlt]. rewrite Forall_forall in Hlt.
  assert (forall k' c', (k', c') ∈ w -> k < k') as Hlt' by (intros k' c' Hin; exact (Hlt _ Hin)).
  specialize (IH Hs' ltac:(set_solver)). destruct (Z.eqb_spec (key_inner k) key) as [E|Hne].
  - destruct (Z.leb_spec to (key_block k)) as [Hle|Hgt].
    + split.
      * intros Hm. exists k, c. split_and!; [set_solver|done|done|].
        intros k' c' [[= -> ->]|Hin]%elem_of_cons _ ?; [lia|]. specialize (Hlt' _ _ Hin). lia.
      * intros (k1 & c1 & [[= -> ->]|Hin]%elem_of_cons & E1 & Hm & Hall); [done|].
        specialize (Hall k c ltac:(set_solver) E (Hlt' _ _ Hin)). lia.
    + rewrite elem_of_union, IH. split.
      * intros [Hm|(k1 & c1 & Hin & E1 & Hm & Hall)].
        -- exists k, c. split_and!; [set_solver|done|done|].
           intros k' c' [[= -> ->]|Hin]%elem_of_cons _ ?; [lia|]. specialize (Hlt' _ _ Hin). lia.
        -- exists k1, c1. split_and!; [set_solver|done|done|].
           intros k' c' [[= -> ->]|Hin']%elem_of_cons Ek' ?; [done|by eapply Hall].
      * intros (k1 & c1 & [[= -> ->]|Hin]%elem_of_cons & E1 & Hm & Hall); [by left|right].
        exists k1, c1. split_and!; [done|done|done|]. intros k' c' Hin'. apply (Hall k' c'). set_solver.
  - split; [set_solver|]. intros (k1 & c1 & [[= -> ->]|Hin]%elem_of_cons & E1 & _); [done|].
    by destruct (inner_sorted key from w k c Hs Hf (Hge k c ltac:(set_solver)) Hne k1 c1 Hin).
Qed.

Lemma get_indexed needle blocks (t : T Treemap) from to : indexed needle blocks t -> is_u64 from ->
  get t needle from to ⊆ blocks /\
  forall m, m ∈ blocks -> from <= m <= to -> m ∈ get t needle from to.
Proof.
  intros Hix Hf. unfold get. destruct (walk_spec (bitmap_key needle from) t) as [Hs Hw].
  pose proof (fun m => elem_of_collect needle from to _ m Hs Hf (fun k c Hin => proj2 (proj1 (Hw k c) Hin))) as Hel.
  split.
  - intros m (k & c & [Hk _]%Hw & E & Hm & _)%Hel. destruct (bitmap_key_of k) as [Ek Hkb].
    destruct (ix_chunk _ _ _ Hix (key_block k) c Hkb) as (_ & Hsub & _); [|set_solver].
    unfold chunk_at. by rewrite <- E, Ek.
  - intros m Hm Hr. destruct (ix_cover _ _ _ Hix m Hm) as (k & c & Hk & Hc & Hmc).
    destruct (ix_chunk _ _ _ Hix k c Hk Hc) as (_ & _ & _ & Hmax). specialize (Hmax m Hmc).
    destruct (bitmap_key_parts needle k Hk) as [E1 E2].
    apply Hel. exists (bitmap_key needle k), c. split_and!; [|done|done|].
    + apply Hw. split; [done|]. unfold bitmap_key. lia.
    + intros k' c' [Hk' _]%Hw Ek' Hlt. destruct (bitmap_key_of k') as [Ek Hkb].
      enough (key_block k' < m) by lia.
      eapply (ix_order _ _ _ Hix (key_block k') c' k c m Hkb Hk); [|done| |done].
      * unfold chunk_at. by rewrite <- Ek', Ek.
      * rewrite <- Ek, Ek' in Hlt. unfold bitmap_key in Hlt. lia.
Qed.

End index.
