(* ===== verification/CallTraces.v ===== *)
(** The index of call traces (src/stages/call_trace_index.rs).

    For each address the blocks in which it called and those in which it was called,
    as chunked bitmaps.  The entries of the table of traces are the duplicates of their
    block: the key is the block followed by the encoding of the entry. *)
From S2P Require Import Prelude Word EvmState StagedSync Kv Etl Stages Bitmaps.
From Stdlib Require Import ZArith Lia Strings.Byte.
From stdpp Require Import base list option numbers gmap sorting strings.
#[local] Open Scope Z_scope.

Record CallTraceSetEntry := {
  trace_address : Address;
  trace_from : bool;
  trace_to : bool;
}.

(** The encoding of an entry: the address and a byte of flags. *)
Definition entry_number (e : CallTraceSetEntry) : Z :=
  trace_address e * 2 ^ 8 + ((if trace_from e then 1 else 0) + (if trace_to e then 2 else 0)).

Definition call_trace_key (block_number : Z) (e : CallTraceSetEntry) : Z :=
  block_number * 2 ^ 168 + entry_number e.

Definition trace_block (k : Z) : Z := k / 2 ^ 168.

Record TraceTables (T : Type -> Type) := {
  call_trace_set : T CallTraceSetEntry;
  call_from_index : T Treemap;
  call_to_index : T Treemap;
}.
Arguments call_trace_set {T} _.
Arguments call_from_index {T} _.
Arguments call_to_index {T} _.

Module call_traces.

Section stage.
Context {T : Type -> Type} {KV : Kv T} {TC : TreemapCodec} {W : Type}.

(** What the loop over the traces changes. *)
Record Gathered := {
  froms : gmap Address Treemap;
  tos : gmap Address Treemap;
  froms_collector : Collector;
  tos_collector : Collector;
  highest_block : Z;
  last_flush : Z;
}.

(** [entry(address).or_default().add(block_number)]. *)
Definition add_block (address block_number : Z) (m : gmap Address Treemap) : gmap Address Treemap :=
  <[address := default ∅ (m !! address) ∪ {[block_number]}]> m.

Definition bitmap_entry (e : Address * Treemap) : Entry :=
  {| key := be_bytes 20 e.1; value := treemap_encode e.2 |}.

(** [flush]; [None] is an overflow in [push]. *)
Definition flush_bitmaps (src : gmap Address Treemap) (c : Collector) : option Collector :=
  collector.push_all (bitmap_entry <$> map_to_list src) c.

(** A trace of the walk. *)
Definition gather (flush_interval : Z) (block_number : Z) (e : CallTraceSetEntry) (g : Gathered)
    : outcome Gathered :=
  let froms := if trace_from e then add_block (trace_address e) block_number (froms g) else froms g in
  let tos := if trace_to e then add_block (trace_address e) block_number (tos g) else tos g in
  if highest_block g =? block_number then
    Done {| froms := froms; tos := tos; froms_collector := froms_collector g;
            tos_collector := tos_collector g; highest_block := highest_block g;
            last_flush := last_flush g |}
  else
    since ← o_unwrap (u64_checked (block_number - last_flush g));
    if flush_interval <=? since then
      fc ← o_unwrap (flush_bitmaps froms (froms_collector g));
      tc ← o_unwrap (flush_bitmaps tos (tos_collector g));
      Done {| froms := ∅; tos := ∅; froms_collector := fc; tos_collector := tc;
              highest_block := block_number; last_flush := block_number |}
    else
      Done {| froms := froms; tos := tos; froms_collector := froms_collector g;
              tos_collector := tos_collector g; highest_block := block_number;
              last_flush := last_flush g |}.

Fixpoint gather_all (flush_interval max_block : Z) (walker : list (Z * CallTraceSetEntry)) (g : Gathered)
    : outcome Gathered :=
  match walker with
  | [] => Done g
  | (k, e) :: walker =>
      if max_block <? trace_block k then Done g
      else
        g ← gather flush_interval (trace_block k) e g;
        gather_all flush_interval max_block walker g
  end.

(** *** [load_call_traces] *)

Definition decode_entry (e : Entry) : option (Address * Treemap) :=
  if blen (key e) =? 20 then
    b ← treemap_decode (value e); Some (be_val (key e), b)
  else None.

(** [coalesce]: neighbours with one address are merged. *)
Fixpoint coalesce (prev : Address * Treemap) (l : list (Address * Treemap)) : list (Address * Treemap) :=
  match l with
  | [] => [prev]
  | e :: l =>
      if prev.1 =? e.1 then coalesce (prev.1, prev.2 ∪ e.2) l else prev :: coalesce e l
  end.

Definition coalesced (l : list (Address * Treemap)) : list (Address * Treemap) :=
  match l with [] => [] | e :: l => coalesce e l end.

Definition put_chunks (address : Address) (l : list (Z * Treemap)) (t : T Treemap) : T Treemap :=
  foldl (fun t e => kv_put (bitmap_key address e.1) e.2 t) t l.

Definition load_bitmap (address : Address) (total_bitmap : Treemap) (t : T Treemap) : outcome (T Treemap) :=
  if bool_decide (total_bitmap = ∅) then Done t
  else
    let total_bitmap :=
      match kv_get (bitmap_key address u64_max) t with
      | Some last_bitmap => total_bitmap ∪ last_bitmap
      | None => total_bitmap
      end in
    l ← o_unwrap (bitmapdb.keyed_chunks CHUNK_LIMIT total_bitmap);
    Done (put_chunks address l t).

Fixpoint load_bitmaps (l : list (Address * Treemap)) (t : T Treemap) : outcome (T Treemap) :=
  match l with
  | [] => Done t
  | (address, b) :: l => t ← load_bitmap address b t; load_bitmaps l t
  end.

Definition load_call_traces (c : Collector) (t : T Treemap) : outcome (T Treemap) :=
  let out := collector.iter c in
  if completed out then
    l ← o_ok_or (mapM decode_entry (entries out));
    load_bitmaps (coalesced l) t
  else Error.

Definition execute (flush_interval : Z) (input : StageInput) (db : Db (TraceTables T)) (w : W)
    : outcome (ExecOutput * Db (TraceTables T) * W) :=
  let starting_block := default 0 (stage_progress input) in
  max_block ← o_ok_or (snd <$> previous_stage input);
  start ← o_unwrap (u64_checked (starting_block + 1));
  let t := tables db in
  g ← gather_all flush_interval max_block (walk (start * 2 ^ 168) (call_trace_set t))
        {| froms := ∅; tos := ∅;
           froms_collector := collector.new stages.OPTIMAL_BUFFER_CAPACITY;
           tos_collector := collector.new stages.OPTIMAL_BUFFER_CAPACITY;
           highest_block := starting_block; last_flush := starting_block |};
  fc ← o_unwrap (flush_bitmaps (froms g) (froms_collector g));
  tc ← o_unwrap (flush_bitmaps (tos g) (tos_collector g));
  from_index ← load_call_traces fc (call_from_index t);
  to_index ← load_call_traces tc (call_to_index t);
  Done (Progress max_block true,
        Build_Db (sync_stage db)
          {| call_trace_set := call_trace_set t; call_from_index := from_index;
             call_to_index := to_index |}, w).

(** *** [unwind_call_traces] *)

Definition bitmap_at (address : Address) (o : option (Z * Treemap)) : option (Z * Treemap) :=
  match o with
  | Some (k, b) => if key_inner k =? address then Some (k, b) else None
  | None => None
  end.

(** The loop over the chunks of an address.  The cursor stands on the key of [bm], or on
    the key that was put; [prev] goes on from there. *)
Fixpoint unwind_chunks (fuel : nat) (address unwind_to : Z) (bm : option (Z * Treemap)) (t : T Treemap)
    : T Treemap :=
  match fuel, bm with
  | S fuel, Some (k, b) =>
      let t := kv_delete k t in
      let new_bm := list_to_set (bitmapdb.take_while (fun v => v <=? unwind_to) (bitmapdb.iter b)) : Treemap in
      let '(t, current) :=
        if (0 <? size new_bm)%nat
        then (kv_put (bitmap_key address u64_max) new_bm t, bitmap_key address u64_max)
        else (t, k) in
      unwind_chunks fuel address unwind_to (bitmap_at address (kv_prev current t)) t
  | _, _ => t
  end.

(** There are at most as many rounds as entries in the table. *)
Definition unwind_address (unwind_to : Z) (t : T Treemap) (address : Address) : T Treemap :=
  let k := bitmap_key address u64_max in
  unwind_chunks (S (size (content t))) address unwind_to ((fun b => (k, b)) <$> kv_get k t) t.

Definition unwind_call_traces (addresses : gset Address) (unwind_to : Z) (t : T Treemap) : T Treemap :=
  foldl (unwind_address unwind_to) t (bitmapdb.iter addresses).

(** The addresses of the traces that satisfy a condition. *)
Definition addresses_of (f : CallTraceSetEntry -> bool) (walker : list (Z * CallTraceSetEntry)) : gset Address :=
  foldl (fun s e => if f e.2 then s ∪ {[trace_address e.2]} else s) ∅ walker.

Definition unwind (input : UnwindInput) (db : Db (TraceTables T)) (w : W)
    : outcome (Z * Db (TraceTables T) * W) :=
  start ← o_unwrap (u64_checked (unwind_to input + 1));
  let t := tables db in
  let walker := walk (start * 2 ^ 168) (call_trace_set t) in
  Done (unwind_to input,
        Build_Db (sync_stage db)
          {| call_trace_set := call_trace_set t;
             call_from_index :=
               unwind_call_traces (addresses_of trace_from walker) (unwind_to input) (call_from_index t);
             call_to_index :=
               unwind_call_traces (addresses_of trace_to walker) (unwind_to input) (call_to_index t) |}, w).

Definition CallTraceIndex (flush_interval : Z) : Stage (TraceTables T) W := {|
  stage_id := CALL_TRACES;
  stage_execute := execute flush_interval;
  stage_unwind := unwind;
|}.

End stage.

End call_traces.
