(* ===== verification/CallTracesSpec.v ===== *)
(** The index of call traces: execution brings the index to the blocks of the previous
    stage; the unwind keeps only the first chunk of an address. *)
From S2P Require Import Prelude Word EvmState StagedSync Kv Etl EtlSpec Stages StagesSpec Bitmaps BitmapsSpec CallTraces.
From Stdlib Require Import ZArith Lia Strings.Byte.
From stdpp Require Import base list option numbers gmap sorting strings.
#[local] Open Scope Z_scope.
Import bitmapdb call_traces.

(** ** Merging neighbours *)

(** The numbers of an address in a list of bitmaps. *)
Definition listed (l : list (Address * Treemap)) (a n : Z) : Prop := exists b, (a, b) ∈ l /\ n ∈ b.

Section coalesce.
Context (R : Z -> Z -> Prop) (P : Z -> Prop).
Context (R_antisym : forall a b, P a -> P b -> R a b -> R b a -> a = b).

Lemma coalesce_spec prev l : StronglySorted (fun e f => R e.1 f.1) (prev :: l) ->
  (forall e, e ∈ prev :: l -> P e.1 /\ e.2 <> ∅) ->
  NoDup (coalesce prev l).*1 /\ (forall a n, listed (coalesce prev l) a n <-> listed (prev :: l) a n) /\
  (forall e, e ∈ coalesce prev l -> P e.1 /\ e.2 <> ∅) /\
  (forall a, a ∈ (coalesce prev l).*1 -> a ∈ (prev :: l).*1).
Proof.
  revert prev. induction l as [|e l IH]; intros [a b] Hs HP; cbn [coalesce fst snd].
  { split_and!; [by apply NoDup_singleton|done|done|done]. }
  pose proof (StronglySorted_inv Hs) as [Hs' Hle]. destruct (StronglySorted_inv Hs') as [Hsl Hle'].
  rewrite Forall_forall in Hle, Hle'. destruct e as [a' b']. cbn [fst snd] in *.
  destruct (Z.eqb_spec a a') as [<-|Hne].
  - destruct (IH (a, b ∪ b')) as (Hn & Hlist & Hne & Hsub).
    { constructor; [done|]. apply Forall_forall. intros f Hf. apply (Hle' f Hf). }
    { intros f [->|Hf]%elem_of_cons; [|apply HP; set_solver].
      destruct (HP (a, b) ltac:(set_solver)) as [? Hb]. split; [done|]. simpl in *. set_solver. }
    split_and!; [done| |done|].
    + intros x n. rewrite Hlist. unfold listed. split.
      * intros (c & [[= -> ->]|Hin]%elem_of_cons & Hc); [|exists c; set_solver].
        apply elem_of_union in Hc as [Hc|Hc]; [exists b|exists b']; set_solver.
      * intros (c & [[= -> ->]|[[= -> ->]|Hin]%elem_of_cons]%elem_of_cons & Hc); [exists (b ∪ b')..|exists c]; set_solver.
    + intros x Hx%Hsub. rewrite !fmap_cons in *. simpl in *. set_solver.
  - destruct (IH (a', b') Hs') as (Hn & Hlist & Hnee & Hsub); [set_solver|]. split_and!.
    + rewrite fmap_cons. apply NoDup_cons. split; [|done]. cbn [fst]. intros Hin%Hsub.
      rewrite fmap_cons in Hin. apply elem_of_cons in Hin as [?|Hin]; [done|].
      apply list_elem_of_fmap in Hin as ([a2 b2] & E & Hf). simpl in E. subst a2.
      apply Hne. apply R_antisym.
      * apply (HP (a, b)). set_solver.
      * apply (HP (a', b')). set_solver.
      * apply (Hle (a', b')). set_solver.
      * apply (Hle' (a, b2)). done.
    + intros x n. unfold listed. setoid_rewrite elem_of_cons. split.
      * intros (c & [E|Hin] & Hc); [exists c; split; [by left|done]|]. destruct (proj1 (Hlist x n)) as (d & Hd & Hnd); [by exists c|].
        exists d. split; [by right|done].
      * intros (c & [E|Hin] & Hc); [exists c; split; [by left|done]|]. destruct (proj2 (Hlist x n)) as (d & Hd & Hnd).
        { by exists c. }
        exists d. split; [by right|done].
    + intros e [->|He]%elem_of_cons; [apply HP; set_solver|by apply Hnee].
    + intros x. rewrite !fmap_cons, !elem_of_cons. intros [->|Hx%Hsub]; [by left|right].
      rewrite fmap_cons in Hx. by apply elem_of_cons in Hx.
Qed.

Lemma coalesced_spec l : StronglySorted (fun e f => R e.1 f.1) l -> (forall e, e ∈ l -> P e.1 /\ e.2 <> ∅) ->
  NoDup (coalesced l).*1 /\ (forall a n, listed (coalesced l) a n <-> listed l a n) /\
  (forall e, e ∈ coalesced l -> P e.1 /\ e.2 <> ∅).
Proof.
  destruct l as [|e l]; intros Hs HP; [split_and!; [constructor|done|set_solver]|].
  destruct (coalesce_spec e l Hs HP) as (? & ? & ? & _). done.
Qed.

End coalesce.

Section specs.
Context {T : Type -> Type} {KV : Kv T} {TC : TreemapCodec}.

(** ** Loading *)

Lemma load_bitmap_spec a blocks b (t : T Treemap) : indexed a blocks t -> b <> ∅ ->
  (forall n, n ∈ blocks ∪ b -> is_u64 n) -> (forall m n, m ∈ blocks -> n ∈ b -> m < n) ->
  exists t', load_bitmap a b t = Done t' /\ indexed a (blocks ∪ b) t' /\
    forall a' k, a' <> a -> is_u64 k -> chunk_at t' a' k = chunk_at t a' k.
Proof.
  intros Hix Hb Hr Hlt. unfold load_bitmap. rewrite bool_decide_false by done. rewrite kv_get_content.
  fold (chunk_at t a u64_max).
  assert (match chunk_at t a u64_max with Some l => b ∪ l | None => b end =
    b ∪ default ∅ (chunk_at t a u64_max)) as ->.
  { destruct (chunk_at t a u64_max); simpl; [done|]. by rewrite (right_id_L ∅ union). }
  destruct (keyed_chunks_spec CHUNK_LIMIT single_fits (b ∪ default ∅ (chunk_at t a u64_max))) as (kl & Hkl & Hk).
  { intros n [Hn|Hn]%elem_of_union; [set_solver|].
    destruct (chunk_at t a u64_max) as [c|] eqn:E; [|by apply not_elem_of_empty in Hn].
    destruct (ix_chunk _ _ _ Hix u64_max c u64_max_u64 E) as (_ & Hsub & _). set_solver. }
  rewrite Hkl. simpl. eexists. split; [done|]. split; [by apply load_indexed|].
  intros a' k Hne Hk'. apply put_chunks_other; [|done|done].
  intros [k0 c0] Hin. eapply keyed_range; [|exact Hk|exact Hin].
  intros n [Hn|Hn]%elem_of_union; [set_solver|].
  destruct (chunk_at t a u64_max) as [c|] eqn:E; [|by apply not_elem_of_empty in Hn].
  destruct (ix_chunk _ _ _ Hix u64_max c u64_max_u64 E) as (_ & Hsub & _). set_solver.
Qed.

Lemma indexed_chunks a blocks (t t' : T Treemap) :
  (forall k, is_u64 k -> chunk_at t' a k = chunk_at t a k) -> indexed a blocks t -> indexed a blocks t'.
Proof.
  intros E [Hcov Hch Hla Hor]. split.
  - intros m Hm. destruct (Hcov m Hm) as (k & c & ? & ? & ?). exists k, c. by rewrite E.
  - intros k c Hk. rewrite E by done. by apply Hch.
  - intros Hne. rewrite E by apply u64_max_u64. by apply Hla.
  - intros k c k' c' m Hk Hk'. rewrite !E by done. by apply Hor.
Qed.

Lemma indexed_proper a blocks blocks' (t : T Treemap) : (forall n, n ∈ blocks' <-> n ∈ blocks) ->
  indexed a blocks t -> indexed a blocks' t.
Proof. intros E. by assert (blocks' = blocks) as -> by (by apply set_eq). Qed.

(** Each address is loaded once. *)
Lemma load_bitmaps_spec l (blocks : Z -> Treemap) (t : T Treemap) :
  NoDup l.*1 -> (forall e, e ∈ l -> e.2 <> ∅) -> (forall a, indexed a (blocks a) t) ->
  (forall a n, n ∈ blocks a \/ listed l a n -> is_u64 n) ->
  (forall a m n, m ∈ blocks a -> listed l a n -> m < n) ->
  exists t', load_bitmaps l t = Done t' /\
    forall a blocks', (forall n, n ∈ blocks' <-> n ∈ blocks a \/ listed l a n) -> indexed a blocks' t'.
Proof.
  revert blocks t. induction l as [|[a b] l IH]; intros blocks t Hn Hne Hix Hr Hlt; cbn [load_bitmaps].
  { exists t. split; [done|]. intros a bs Hbs. eapply indexed_proper; [|apply (Hix a)]. intros n. rewrite Hbs.
    unfold listed. split; [intros [?|(b & ?%elem_of_nil & _)]|]; by auto. }
  apply NoDup_cons in Hn as [Hni Hn]. cbn [fst] in Hni.
  assert (forall n, n ∈ b -> listed ((a, b) :: l) a n) as Hb by (intros n ?; exists b; set_solver).
  assert (forall x n, listed l x n -> listed ((a, b) :: l) x n) as Hl.
  { intros x n (c & ? & ?). exists c. set_solver. }
  assert (forall n, ~ listed l a n) as Hnl.
  { intros n (c & Hc & _). apply Hni. apply list_elem_of_fmap. by exists (a, c). }
  destruct (load_bitmap_spec a (blocks a) b t (Hix a)) as (t1 & -> & Hix1 & Hother);
    [apply (Hne (a, b)); set_solver|intros n [?|?]%elem_of_union; apply (Hr a); by auto|intros; eapply Hlt; by eauto|].
  cbn [mbind outcome_bind].
  destruct (IH (fun x => if decide (x = a) then blocks a ∪ b else blocks x) t1) as (t' & Hload & Ht').
  - done.
  - intros e He. apply Hne. set_solver.
  - intros x. destruct (decide (x = a)) as [->|Hx]; [done|]. eapply indexed_chunks; [|apply Hix].
    intros k Hk. by apply Hother.
  - intros x n Hm. apply (Hr x n). destruct (decide (x = a)) as [->|Hx]; destruct Hm as [Hm|Hm]; try by auto.
    apply elem_of_union in Hm as [?|?]; by auto.
  - intros x m n. destruct (decide (x = a)) as [->|Hx]; intros Hm Hnn; [by destruct (Hnl n)|].
    eapply Hlt; by eauto.
  - exists t'. split; [exact Hload|]. intros x bs Hbs. apply Ht'. intros n. rewrite Hbs.
    unfold listed at 1. setoid_rewrite elem_of_cons. destruct (decide (x = a)) as [->|Hx].
    + rewrite elem_of_union. split; [intros [?|(c & [[= ->]|?] & ?)]|intros [[?|?]|(c & ? & ?)]]; try by auto.
      * right. by exists c.
      * right. exists b. split; [by left|done].
      * right. exists c. split; [by right|done].
    + split; [intros [?|(c & [[= -> ->]|?] & ?)]|intros [?|(c & ? & ?)]]; try by auto.
      * right. by exists c.
      * right. exists c. split; [by right|done].
Qed.

(** ** Gathering *)

Section gather.
Context (max_block : Z) (max_u64 : 0 <= max_block < 2 ^ 64).
Context (encoded_size : forall b, (forall n, n ∈ b -> 0 <= n <= max_block) -> blen (treemap_encode b) < 2 ^ 63).

Abbreviation capacity := stages.OPTIMAL_BUFFER_CAPACITY.

(** A bitmap of an address that can be written. *)
Definition sane (e : Address * Treemap) : Prop :=
  is_address e.1 /\ e.2 <> ∅ /\ forall n, n ∈ e.2 -> 0 <= n <= max_block.

Lemma sane_fits e : sane e -> fits capacity (bitmap_entry e).
Proof.
  intros (_ & _ & Hb). specialize (encoded_size e.2 Hb). unfold fits, blen in *.
  cbn [bitmap_entry key value]. rewrite length_be_bytes. unfold stages.OPTIMAL_BUFFER_CAPACITY. lia.
Qed.

Definition pushed (l : list (Address * Treemap)) (c : Collector) : Prop :=
  collector.push_all (bitmap_entry <$> l) (collector.new capacity) = Some c.

Lemma push_all_app l1 l2 c : collector.push_all (l1 ++ l2) c =
  (c ← collector.push_all l1 c; collector.push_all l2 c).
Proof.
  revert c. induction l1 as [|e l1 IH]; intros c; [done|]. simpl. destruct (collector.push e c); simpl; [apply IH|done].
Qed.

Lemma flush_pushed l c src : pushed l c -> Forall sane l -> (forall a b, src !! a = Some b -> sane (a, b)) ->
  exists c', flush_bitmaps src c = Some c' /\ pushed (l ++ map_to_list src) c' /\
    Forall sane (l ++ map_to_list src).
Proof.
  intros Hc Hl Hsrc. assert (Forall sane (l ++ map_to_list src)) as Hall.
  { apply Forall_app. split; [done|]. apply Forall_forall. intros [a b] Hin%elem_of_map_to_list. by apply Hsrc. }
  destruct (iter_sorts capacity (bitmap_entry <$> (l ++ map_to_list src))) as (c' & Hc' & _).
  { unfold stages.OPTIMAL_BUFFER_CAPACITY. lia. }
  { apply Forall_fmap. eapply Forall_impl; [exact Hall|]. intros e He. by apply sane_fits. }
  exists c'. split; [|done]. rewrite fmap_app, push_all_app in Hc'. unfold pushed in Hc. by rewrite Hc in Hc'.
Qed.

(** The traces [done] of the kind [sel] are in the collector or in the map. *)
Definition in_traces (sel : CallTraceSetEntry -> bool) (ts : list (Z * CallTraceSetEntry)) (a n : Z) : Prop :=
  exists k e, (k, e) ∈ ts /\ sel e = true /\ trace_address e = a /\ trace_block k = n.

Definition gathered sel ts (m : gmap Address Treemap) (c : Collector) : Prop :=
  exists l, pushed l c /\ Forall sane l /\ (forall a b, m !! a = Some b -> sane (a, b)) /\
    forall a n, listed l a n \/ n ∈ default ∅ (m !! a) <-> in_traces sel ts a n.

Lemma gathered_add sel ts m c k e : gathered sel ts m c -> is_address (trace_address e) ->
  0 <= trace_block k <= max_block ->
  gathered sel (ts ++ [(k, e)]) (if sel e then add_block (trace_address e) (trace_block k) m else m) c.
Proof.
  intros (l & Hp & Hl & Hm & Hin) Ha Hk. exists l. split_and!; [done|done| |].
  - destruct (sel e); [|done]. unfold add_block. intros a b [[<- <-]|[_ Hb]]%lookup_insert_Some; [|by apply Hm].
    split_and!; [done|simpl; set_solver|]. simpl. intros n [Hn| ->%elem_of_singleton]%elem_of_union; [|done].
    destruct (m !! trace_address e) as [b|] eqn:E; [|by apply not_elem_of_empty in Hn].
    by apply (Hm _ _ E).
  - intros a n. assert (in_traces sel (ts ++ [(k, e)]) a n <->
      in_traces sel ts a n \/ (sel e = true /\ trace_address e = a /\ trace_block k = n)) as ->.
    { split.
      - intros (k' & e' & [Hin'|[= -> ->]%list_elem_of_singleton]%elem_of_app & ? & ? & ?); [left|by right].
        by exists k', e'.
      - intros [(k' & e' & ? & ? & ? & ?)|(? & ? & ?)]; [exists k', e'|exists k, e]; set_solver. }
    rewrite <- Hin. destruct (sel e) eqn:E; [|by intuition].
    unfold add_block. destruct (decide (a = trace_address e)) as [->|Hne].
    + rewrite lookup_insert_eq. simpl. rewrite elem_of_union, elem_of_singleton. naive_solver.
    + rewrite lookup_insert_ne by done. naive_solver.
Qed.

Lemma gathered_flush sel ts m c : gathered sel ts m c ->
  exists c', flush_bitmaps m c = Some c' /\ gathered sel ts ∅ c'.
Proof.
  intros (l & Hp & Hl & Hm & Hin). destruct (flush_pushed l c m Hp Hl Hm) as (c' & Hc' & Hp' & Hl').
  exists c'. split; [done|]. exists (l ++ map_to_list m). split_and!; [done|done|by intros a b ?%lookup_empty_Some|].
  intros a n. rewrite <- Hin, lookup_empty. simpl. unfold listed. setoid_rewrite elem_of_app.
  setoid_rewrite elem_of_map_to_list. split.
  - intros [(b & [?|Hb] & ?)|?%not_elem_of_empty]; [left; by exists b|right; by rewrite Hb|done].
  - intros [(b & ? & ?)|Hn]; left; [exists b; by auto|].
    destruct (m !! a) as [b|] eqn:E; [|by apply not_elem_of_empty in Hn]. exists b. by auto.
Qed.

Record gather_inv ts (g : Gathered) : Prop := {
  gi_froms : gathered trace_from ts (froms g) (froms_collector g);
  gi_tos : gathered trace_to ts (tos g) (tos_collector g);
  gi_flush : 0 <= last_flush g <= highest_block g;
}.

Lemma gather_spec interval ts g k e : gather_inv ts g -> is_address (trace_address e) ->
  highest_block g <= trace_block k <= max_block ->
  exists g', gather interval (trace_block k) e g = Done g' /\ gather_inv (ts ++ [(k, e)]) g' /\
    highest_block g' = trace_block k.
Proof.
  intros [Hf Ht Hlf] Ha Hk. unfold gather.
  pose proof (gathered_add _ _ _ _ k e Hf Ha ltac:(lia)) as Hf'.
  pose proof (gathered_add _ _ _ _ k e Ht Ha ltac:(lia)) as Ht'.
  destruct (Z.eqb_spec (highest_block g) (trace_block k)) as [E|Hne].
  { eexists. split; [done|]. split; [by split|done]. }
  rewrite u64_checked_ok by lia. cbn [o_unwrap mbind outcome_bind].
  destruct (interval <=? trace_block k - last_flush g).
  - destruct (gathered_flush _ _ _ _ Hf') as (fc & -> & Hfc).
    destruct (gathered_flush _ _ _ _ Ht') as (tc & -> & Htc).
    cbn [o_unwrap mbind outcome_bind]. eexists. split; [done|]. split; [split; simpl; [done|done|lia]|done].
  - eexists. split; [done|]. split; [split; simpl; [done|done|lia]|done].
Qed.

Lemma gather_all_spec interval w : forall ts g, gather_inv ts g ->
  StronglySorted (fun e f => trace_block e.1 <= trace_block f.1) w ->
  (forall e, e ∈ w -> is_address (trace_address e.2) /\ highest_block g <= trace_block e.1) ->
  exists g' ts', gather_all interval max_block w g = Done g' /\ gather_inv (ts ++ ts') g' /\
    forall e, e ∈ ts' <-> e ∈ w /\ trace_block e.1 <= max_block.
Proof.
  induction w as [|[k e] w IH]; intros ts g Hg Hs Hw; cbn [gather_all].
  { exists g, []. rewrite app_nil_r. split_and!; [done|done|set_solver]. }
  apply StronglySorted_inv in Hs as [Hs Hle]. rewrite Forall_forall in Hle. cbn [fst] in Hle.
  destruct (Z.ltb_spec max_block (trace_block k)) as [Hgt|Hk].
  - exists g, []. rewrite app_nil_r. split_and!; [done|done|]. intros f. split; [set_solver|].
    intros [[->|Hf]%elem_of_cons Hfm]; simpl in *; [lia|]. specialize (Hle f Hf). lia.
  - destruct (Hw (k, e) ltac:(set_solver)) as [Ha Hhk]. simpl in Ha, Hhk.
    destruct (gather_spec interval ts g k e Hg Ha ltac:(lia)) as (g1 & -> & Hg1 & Hh).
    cbn [mbind outcome_bind]. destruct (IH (ts ++ [(k, e)]) g1 Hg1 Hs) as (g' & ts' & Hall & Hg' & Hts).
    { intros f Hf. rewrite Hh. split; [apply Hw; set_solver|by apply Hle]. }
    exists g', ((k, e) :: ts'). split_and!; [done|by rewrite cons_middle, app_assoc|].
    intros f. rewrite !elem_of_cons, Hts. naive_solver.
Qed.

(** ** From the collector to the table *)

Definition address_order (a b : Z) : Prop := bytes_le (be_bytes 20 a) (be_bytes 20 b) = true.

Lemma address_val a : is_address a -> be_val (be_bytes 20 a) = a.
Proof. intros Ha. rewrite be_val_bytes. apply Z.mod_small. exact Ha. Qed.

Lemma address_order_antisym a b : is_address a -> is_address b ->
  address_order a b -> address_order b a -> a = b.
Proof.
  intros Ha Hb H1 H2. rewrite <- (address_val a Ha), <- (address_val b Hb). f_equal. by apply bytes_le_antisym.
Qed.

Lemma decode_bitmap_entry e : sane e -> decode_entry (bitmap_entry e) = Some e.
Proof.
  intros (Ha & _ & Hb). unfold decode_entry, blen. cbn [bitmap_entry key value].
  rewrite length_be_bytes.
  change (Z.of_nat 20 =? 20) with true. cbv iota.
  rewrite treemap_roundtrip by (intros n Hn; specialize (Hb n Hn); unfold uint; lia).
  cbn [mbind option_bind]. rewrite address_val by done. by destruct e.
Qed.

Lemma decode_entries l : Forall sane l -> mapM decode_entry (bitmap_entry <$> l) = Some l.
Proof.
  induction 1 as [|e l He _ IH]; [done|]. rewrite fmap_cons. simpl. by rewrite decode_bitmap_entry, IH by done.
Qed.

Lemma entry_le_key e f : EtlSpec.le e f -> bytes_le (key e) (key f) = true.
Proof.
  rewrite le_cases. intros [H|[-> _]]; [by apply bytes_le_total|apply bytes_le_refl].
Qed.

(** What a collector holds is merged into the index. *)
Lemma load_call_traces_spec l c (blocks : Z -> Treemap) (t : T Treemap) :
  pushed l c -> Forall sane l -> (forall a, indexed a (blocks a) t) ->
  (forall a n, n ∈ blocks a -> is_u64 n) -> (forall a m n, m ∈ blocks a -> listed l a n -> m < n) ->
  exists t', load_call_traces c t = Done t' /\
    forall a blocks', (forall n, n ∈ blocks' <-> n ∈ blocks a \/ listed l a n) -> indexed a blocks' t'.
Proof.
  intros Hc Hl Hix Hr Hlt.
  destruct (iter_sorts capacity (bitmap_entry <$> l)) as (c' & Hc' & Hit & Hsort & Hperm).
  { unfold stages.OPTIMAL_BUFFER_CAPACITY. lia. }
  { apply Forall_fmap. eapply Forall_impl; [exact Hl|]. intros e He. by apply sane_fits. }
  assert (c' = c) as -> by (unfold pushed in Hc; congruence). unfold load_call_traces.
  assert (completed (collector.iter c) = true) as -> by (by rewrite Hit).
  destruct (Permutation_map_inv _ _ Hperm) as (l' & Hl' & Hp).
  assert (Forall sane l') as Hsane by (by rewrite <- Hp).
  change (map bitmap_entry l') with (bitmap_entry <$> l') in Hl'. rewrite Hl' in *.
  rewrite decode_entries by done. cbn [o_ok_or mbind outcome_bind].
  assert (forall a n, listed l' a n <-> listed l a n) as Hlisted.
  { intros a n. unfold listed. by setoid_rewrite Hp. }
  destruct (coalesced_spec address_order (uint 160) address_order_antisym l') as (Hn & Hco & Hne).
  { clear -Hsort. induction l' as [|e l' IH]; [constructor|]. rewrite fmap_cons in Hsort.
    apply StronglySorted_inv in Hsort as [Hs Hle]. constructor; [by apply IH|].
    rewrite Forall_fmap in Hle. eapply Forall_impl; [exact Hle|]. intros f Hf. exact (entry_le_key _ _ Hf). }
  { intros e He. rewrite Forall_forall in Hsane. by destruct (Hsane e He) as (? & ? & _). }
  destruct (load_bitmaps_spec (coalesced l') blocks t Hn) as (t' & Ht' & Hres).
  - intros e He. by apply Hne.
  - done.
  - intros a n [Hb|(b & Hb & Hnb)%Hco]; [by eapply Hr|]. rewrite Forall_forall in Hsane.
    destruct (Hsane (a, b) Hb) as (_ & _ & Hin). specialize (Hin n Hnb). unfold uint. lia.
  - intros a m n Hm Hnn%Hco. eapply Hlt; [done|by apply Hlisted].
  - exists t'. split; [done|]. intros a bs Hbs. apply Hres. intros n. by rewrite Hbs, Hco, Hlisted.
Qed.

End gather.

(** ** The stage *)

(** The blocks up to [hi] with traces of the kind [sel] of an address. *)
Definition traced (sel : CallTraceSetEntry -> bool) (m : gmap Z CallTraceSetEntry) (hi a : Z) : Treemap :=
  list_to_set ((fun e => trace_block e.1) <$>
    filter (fun e => sel e.2 = true /\ trace_address e.2 = a /\ trace_block e.1 <= hi) (map_to_list m)).

Lemma elem_of_traced sel m hi a n : n ∈ traced sel m hi a <->
  exists k e, m !! k = Some e /\ sel e = true /\ trace_address e = a /\ trace_block k = n /\ n <= hi.
Proof.
  unfold traced. rewrite elem_of_list_to_set, list_elem_of_fmap. split.
  - intros ([k e] & -> & ((? & ? & ?) & Hin%elem_of_map_to_list)%list_elem_of_filter). by exists k, e.
  - intros (k & e & Hk & ? & ? & <- & ?). exists (k, e). split; [done|].
    apply list_elem_of_filter. split; [done|by apply elem_of_map_to_list].
Qed.

(** The indices hold the traces of the blocks up to [p]. *)
Definition index_at (p : Z) (t : TraceTables T) : Prop := forall a,
  indexed a (traced trace_from (content (call_trace_set t)) p a) (call_from_index t) /\
  indexed a (traced trace_to (content (call_trace_set t)) p a) (call_to_index t).

Definition traces_ok (m : gmap Z CallTraceSetEntry) : Prop :=
  forall k e, m !! k = Some e -> is_address (trace_address e) /\ 0 <= trace_block k.

(** One kind of traces, from the collector to its index. *)
Lemma load_kind b sel (m : gmap Z CallTraceSetEntry) p ts l c (t : T Treemap) :
  0 <= p <= b -> b < 2 ^ 64 ->
  (forall bm, (forall n, n ∈ bm -> 0 <= n <= b) -> blen (treemap_encode bm) < 2 ^ 63) ->
  traces_ok m -> (forall e, e ∈ ts <-> m !! e.1 = Some e.2 /\ p < trace_block e.1 <= b) ->
  pushed l c -> Forall (sane b) l -> (forall a n, listed l a n <-> in_traces sel ts a n) ->
  (forall a, indexed a (traced sel m p a) t) ->
  exists t', load_call_traces c t = Done t' /\ forall a, indexed a (traced sel m b a) t'.
Proof.
  intros Hp Hb Hsz Hm Hts Hc Hl Hlisted Hix.
  destruct (load_call_traces_spec b ltac:(lia) Hsz l c (fun a => traced sel m p a) t) as (t' & Ht' & Hres); try done.
  - intros a n (k & e & Hk & _ & _ & <- & ?)%elem_of_traced. destruct (Hm k e Hk). unfold uint. lia.
  - intros a x n (k & e & Hk & _ & _ & <- & ?)%elem_of_traced (k' & e' & [_ Hr]%Hts & _ & _ & <-)%Hlisted.
    simpl in Hr. lia.
  - exists t'. split; [done|]. intros a. apply Hres. intros n. rewrite !elem_of_traced, Hlisted. split.
    + intros (k & e & Hk & ? & ? & <- & ?). destruct (Z.le_gt_cases (trace_block k) p); [left; by exists k, e|right].
      exists k, e. split; [|done]. apply Hts. simpl. split; [done|lia].
    + intros [(k & e & ? & ? & ? & ? & ?)|(k & e & [Hk Hr]%Hts & ? & ? & <-)]; exists k, e; simpl in *;
        split_and!; try done; lia.
Qed.

Lemma walk_blocks_sorted start (t : T CallTraceSetEntry) :
  StronglySorted (fun e f => trace_block e.1 <= trace_block f.1) (walk start t).
Proof.
  destruct (walk_spec start t) as [Hs _]. induction Hs as [|e w Hs IH Hlt]; [constructor|].
  constructor; [done|]. eapply Forall_impl; [exact Hlt|]. intros f Hf. unfold key_lt, trace_block in *.
  apply Z.div_le_mono; lia.
Qed.

(** C31: The stage of call traces brings its indices from its progress to the block of the
    previous stage: for every address they hold exactly the blocks up to it in which the
    address called or was called, whatever the flush interval and the order in which the
    bitmaps come out of the collector. *)
Theorem call_traces_indexed {W} interval input (db : Db (TraceTables T)) (w : W) prev p b :
  stage_progress input = Some p -> previous_stage input = Some (prev, b) -> 0 <= p <= b -> b < 2 ^ 64 - 1 ->
  (forall bm, (forall n, n ∈ bm -> 0 <= n <= b) -> blen (treemap_encode bm) < 2 ^ 63) ->
  traces_ok (content (call_trace_set (tables db))) -> index_at p (tables db) ->
  exists db', stage_execute (CallTraceIndex interval) input db w = Done (Progress b true, db', w) /\
    call_trace_set (tables db') = call_trace_set (tables db) /\ index_at b (tables db').
Proof.
  intros Hprog Hprev Hp Hb Hsz Hok Hix. cbn [stage_execute CallTraceIndex]. unfold execute.
  rewrite Hprog, Hprev. change (snd <$> Some (prev, b)) with (Some b). change (default 0 (Some p)) with p.
  cbv zeta. cbn [o_ok_or mbind outcome_bind].
  rewrite u64_checked_ok by lia. cbn [o_unwrap mbind outcome_bind]. set (set := call_trace_set (tables db)) in *.
  destruct (walk_spec ((p + 1) * 2 ^ 168) set) as [_ Hwalk].
  destruct (gather_all_spec b ltac:(lia) Hsz interval (walk ((p + 1) * 2 ^ 168) set) []
    {| froms := ∅; tos := ∅; froms_collector := collector.new stages.OPTIMAL_BUFFER_CAPACITY;
       tos_collector := collector.new stages.OPTIMAL_BUFFER_CAPACITY; highest_block := p; last_flush := p |})
    as (g & ts & -> & Hg & Hts).
  { assert (forall sel, gathered b sel [] ∅ (collector.new stages.OPTIMAL_BUFFER_CAPACITY)) as Hnil.
    { intros sel. exists []. split_and!; [done|done|by intros a c ?%lookup_empty_Some|]. intros a n. rewrite lookup_empty. split.
      - intros [(c & ?%elem_of_nil & _)|?%not_elem_of_empty]; done.
      - intros (k & e & ?%elem_of_nil & _). done. }
    split; [apply Hnil|apply Hnil|simpl; lia]. }
  { apply walk_blocks_sorted. }
  { intros [k e] [Hk Hge]%Hwalk. simpl. split; [by destruct (Hok k e Hk)|]. unfold trace_block.
    enough (p + 1 <= k / 2 ^ 168) by lia. apply Z.div_le_lower_bound; lia. }
  rewrite app_nil_l in Hg. cbn [mbind outcome_bind].
  assert (forall e, e ∈ ts <-> content set !! e.1 = Some e.2 /\ p < trace_block e.1 <= b) as Hts'.
  { intros [k e]. rewrite Hts, Hwalk. unfold trace_block. simpl. split.
    - intros [[Hk Hge] Hle]. split; [done|]. split; [|done].
      enough (p + 1 <= k / 2 ^ 168) by lia. apply Z.div_le_lower_bound; lia.
    - intros [Hk [Hgt Hle]]. split_and!; [done| |done].
      pose proof (Z.div_mod k (2 ^ 168) ltac:(lia)). pose proof (Z.mod_pos_bound k (2 ^ 168) ltac:(lia)). lia. }
  destruct Hg as [Hf Ht _].
  destruct (gathered_flush b Hsz _ _ _ _ Hf) as (fc & -> & lf & Hpf & Hsf & _ & Hlf).
  destruct (gathered_flush b Hsz _ _ _ _ Ht) as (tc & -> & lt & Hpt & Hst & _ & Hlt).
  cbn [o_unwrap mbind outcome_bind].
  assert (forall sel l, (forall a n, listed l a n \/ n ∈ default ∅ ((∅ : gmap Address Treemap) !! a) <-> in_traces sel ts a n) ->
    forall a n, listed l a n <-> in_traces sel ts a n) as Hdrop.
  { intros sel l H a n. rewrite <- H, lookup_empty. simpl. split; [by left|]. by intros [?|?%not_elem_of_empty]. }
  destruct (load_kind b trace_from (content set) p ts lf fc (call_from_index (tables db))) as (fi & -> & Hfi);
    [done|lia|done|done|done|done|done|by apply Hdrop|intros a; apply Hix|].
  destruct (load_kind b trace_to (content set) p ts lt tc (call_to_index (tables db))) as (ti & -> & Hti);
    [done|lia|done|done|done|done|done|by apply Hdrop|intros a; apply Hix|].
  cbn [mbind outcome_bind]. eexists. split; [done|]. split; [done|]. intros a. split; [apply Hfi|apply Hti].
Qed.

(** ** The unwind *)

Definition kept (to : Z) (c : Treemap) : Treemap := list_to_set (take_while (fun v => v <=? to) (iter c)).

Lemma elem_of_kept to c n : n ∈ kept to c <-> n ∈ c /\ n <= to.
Proof. unfold kept. by rewrite elem_of_list_to_set, elem_of_up_to, elem_of_iter by apply iter_sorted. Qed.

(** The chunks of an address below the last key, from the newest to the oldest. *)
Definition remaining (a : Z) (l : list (Z * Treemap)) (t : T Treemap) : Prop :=
  (forall k c, is_u64 k -> k <> u64_max -> chunk_at t a k = Some c <-> (k, c) ∈ l) /\
  (forall e, e ∈ l -> is_u64 e.1 /\ e.1 <> u64_max) /\ StronglySorted (fun e f => f.1 < e.1) l.

Lemma prev_chunk a l (t : T Treemap) pos : remaining a l t -> is_u64 pos -> (forall e, e ∈ l -> e.1 < pos) ->
  (pos = u64_max \/ chunk_at t a u64_max = None) ->
  bitmap_at a (kv_prev (bitmap_key a pos) t) = (fun e => (bitmap_key a e.1, e.2)) <$> head l.
Proof.
  intros (Hl & Hr & Hs) Hpos Hlt Hmax. pose proof (kv_prev_content (bitmap_key a pos) t) as Hp.
  unfold bitmap_at. destruct (kv_prev (bitmap_key a pos) t) as [[k c]|].
  - destruct Hp as (Hk & Hkp & Hgr). destruct (bitmap_key_of k) as [Ek Hkb].
    destruct (Z.eqb_spec (key_inner k) a) as [E|Hne].
    + assert (key_block k < pos) as Hb by (rewrite <- Ek, E in Hkp; unfold bitmap_key in Hkp; lia).
      assert (chunk_at t a (key_block k) = Some c) as Hc by (unfold chunk_at; by rewrite <- E, Ek).
      assert ((key_block k, c) ∈ l) as Hin.
      { apply Hl; [done| |done]. intros Em. rewrite Em in *. destruct Hmax as [->|Hm]; [lia|congruence]. }
      destruct l as [|[k1 c1] l]; [by apply elem_of_nil in Hin|]. simpl.
      assert (key_block k = k1) as Ek1.
      { destruct (Hr (k1, c1) ltac:(set_solver)) as [Hk1 Hk1m].
        assert (k >= bitmap_key a k1) as Hge.
        { apply (Hgr _ c1).
          - apply Hl; [done|done|set_solver].
          - specialize (Hlt (k1, c1) ltac:(set_solver)). unfold bitmap_key. simpl in Hlt. lia. }
        apply StronglySorted_inv in Hs as [_ Hle]. rewrite Forall_forall in Hle.
        apply elem_of_cons in Hin as [[= -> _]|Hin]; [done|]. specialize (Hle _ Hin). simpl in Hle.
        rewrite <- Ek, E in Hge. unfold bitmap_key in Hge. lia. }
      rewrite <- Ek, E, Ek1. f_equal. f_equal. rewrite Ek1 in Hc.
      destruct (Hr (k1, c1) ltac:(set_solver)) as [Hk1 Hk1m].
      assert (chunk_at t a k1 = Some c1) by (apply Hl; [done|done|set_solver]). congruence.
    + destruct l as [|[k1 c1] l]; [done|]. exfalso. destruct (Hr (k1, c1) ltac:(set_solver)) as [Hk1 Hk1m].
      assert (k >= bitmap_key a k1) as Hge.
      { apply (Hgr _ c1).
        - apply Hl; [done|done|set_solver].
        - specialize (Hlt (k1, c1) ltac:(set_solver)). unfold bitmap_key. simpl in Hlt. lia. }
      rewrite <- Ek in Hge, Hkp. unfold bitmap_key, uint in *. apply Hne. simpl in *. lia.
  - destruct l as [|[k1 c1] l]; [done|]. exfalso. destruct (Hr (k1, c1) ltac:(set_solver)) as [Hk1 Hk1m].
    apply (Hp (bitmap_key a k1) c1).
    + apply Hl; [done|done|set_solver].
    + specialize (Hlt (k1, c1) ltac:(set_solver)). unfold bitmap_key. simpl in Hlt. lia.
Qed.

Lemma chunk_at_delete a a' k k' (t : T Treemap) : is_u64 k -> is_u64 k' ->
  chunk_at (kv_delete (bitmap_key a k) t) a' k' = if decide (a' = a /\ k' = k) then None else chunk_at t a' k'.
Proof.
  intros Hk Hk'. unfold chunk_at. rewrite kv_delete_content. case_decide as E.
  - destruct E as [-> ->]. by rewrite lookup_delete_eq.
  - rewrite lookup_delete_ne; [done|]. intros E'. apply bitmap_key_inj in E'; naive_solver.
Qed.

Lemma chunk_at_put a a' k k' c (t : T Treemap) : is_u64 k -> is_u64 k' ->
  chunk_at (kv_put (bitmap_key a k) c t) a' k' = if decide (a' = a /\ k' = k) then Some c else chunk_at t a' k'.
Proof.
  intros Hk Hk'. unfold chunk_at. rewrite kv_put_content. case_decide as E.
  - destruct E as [-> ->]. by rewrite lookup_insert_eq.
  - rewrite lookup_insert_ne; [done|]. intros E'. apply bitmap_key_inj in E'; naive_solver.
Qed.

Lemma remaining_ext a l (t t' : T Treemap) :
  (forall k, is_u64 k -> k <> u64_max -> chunk_at t' a k = chunk_at t a k) -> remaining a l t -> remaining a l t'.
Proof. intros E (Hl & ? & ?). split_and!; [|done|done]. intros k c Hk Hm. rewrite E by done. by apply Hl. Qed.

Lemma remaining_tail a k c l (t : T Treemap) : remaining a ((k, c) :: l) t ->
  remaining a l (kv_delete (bitmap_key a k) t) /\ is_u64 k /\ forall e, e ∈ l -> e.1 < k.
Proof.
  intros (Hl & Hr & Hs). apply StronglySorted_inv in Hs as [Hs Hlt]. rewrite Forall_forall in Hlt. simpl in Hlt.
  destruct (Hr (k, c) ltac:(set_solver)) as [Hk Hkm]. split_and!; [|done|done].
  split_and!; [|intros e He; apply Hr; by apply list_elem_of_further|done]. intros k' c' Hk' Hm'. rewrite chunk_at_delete by done. case_decide as E.
  - destruct E as [_ ->]. split; [done|]. intros Hin. specialize (Hlt _ Hin). simpl in Hlt. lia.
  - rewrite Hl, elem_of_cons by done. naive_solver.
Qed.

(** The bitmap of the oldest chunk. *)
Definition oldest (c : Treemap) (l : list (Z * Treemap)) : Treemap := default c (snd <$> last l).

Lemma oldest_cons c k c' l : oldest c ((k, c') :: l) = oldest c' l.
Proof. unfold oldest. rewrite last_cons. by destruct (last l). Qed.

Definition only_at_end (a : Z) (b : Treemap) (t : T Treemap) : Prop :=
  (forall k, is_u64 k -> k <> u64_max -> chunk_at t a k = None) /\
  chunk_at t a u64_max = if decide (b = ∅) then None else Some b.

(** A round of the loop: the table and the position of the cursor. *)
Definition round_table (a to k : Z) (c : Treemap) (t : T Treemap) : T Treemap :=
  let t := kv_delete (bitmap_key a k) t in
  if decide (kept to c = ∅) then t else kv_put (bitmap_key a u64_max) (kept to c) t.

Definition round_pos (to k : Z) (c : Treemap) : Z := if decide (kept to c = ∅) then k else u64_max.

Lemma unwind_chunks_round fuel a to k c (t : T Treemap) :
  unwind_chunks (S fuel) a to (Some (bitmap_key a k, c)) t =
  unwind_chunks fuel a to
    (bitmap_at a (kv_prev (bitmap_key a (round_pos to k c)) (round_table a to k c t))) (round_table a to k c t).
Proof.
  cbn [unwind_chunks]. fold (kept to c). unfold round_pos, round_table.
  destruct (decide (kept to c = ∅)) as [E|Hne]; [by rewrite E, size_empty|].
  destruct (Nat.ltb_spec 0 (size (kept to c))) as [|Hs]; [done|].
  destruct Hne. apply leibniz_equiv, size_empty_inv. lia.
Qed.

Lemma round_spec a to k c l (t : T Treemap) : is_u64 k ->
  remaining a l (kv_delete (bitmap_key a k) t) -> (forall e, e ∈ l -> e.1 < k) ->
  chunk_at (kv_delete (bitmap_key a k) t) a u64_max = None \/ kept to c <> ∅ ->
  let t2 := round_table a to k c t in
  remaining a l t2 /\ (forall a' k', a' <> a -> is_u64 k' -> chunk_at t2 a' k' = chunk_at t a' k') /\
  chunk_at t2 a u64_max = (if decide (kept to c = ∅) then None else Some (kept to c)) /\
  bitmap_at a (kv_prev (bitmap_key a (round_pos to k c)) t2) = (fun e => (bitmap_key a e.1, e.2)) <$> head l.
Proof.
  intros Hk Hrem Hlt HI t2. pose proof u64_max_u64 as Hm.
  assert (remaining a l t2) as Hrem2.
  { unfold t2, round_table. case_decide; [exact Hrem|]. eapply remaining_ext; [|exact Hrem]. intros k' Hk' Hm'.
    by rewrite chunk_at_put, decide_False by naive_solver. }
  assert (chunk_at t2 a u64_max = if decide (kept to c = ∅) then None else Some (kept to c)) as Hmax.
  { unfold t2, round_table. case_decide; [by destruct HI|]. by rewrite chunk_at_put, decide_True. }
  split_and!; [done| |done|].
  - intros a' k' Hne Hk'. unfold t2, round_table. case_decide;
      by rewrite ?chunk_at_put, ?chunk_at_delete, ?decide_False by naive_solver.
  - apply prev_chunk; [done| | |]; unfold round_pos.
    + by case_decide.
    + intros e He. specialize (Hlt e He). destruct (proj1 (proj2 Hrem) e He) as [[? ?] ?].
      case_decide; unfold u64_max in *; lia.
    + rewrite Hmax. case_decide; by auto.
Qed.

Lemma unwind_chunks_spec a to l : forall fuel k c (t : T Treemap), (length l < fuel)%nat -> is_u64 k ->
  remaining a l (kv_delete (bitmap_key a k) t) -> (forall e, e ∈ l -> e.1 < k) ->
  chunk_at (kv_delete (bitmap_key a k) t) a u64_max = None \/ kept to c <> ∅ ->
  StronglySorted (fun e f => kept to e.2 <> ∅ -> kept to f.2 <> ∅) ((k, c) :: l) ->
  let t' := unwind_chunks fuel a to (Some (bitmap_key a k, c)) t in
  only_at_end a (kept to (oldest c l)) t' /\
  forall a' k', a' <> a -> is_u64 k' -> chunk_at t' a' k' = chunk_at t a' k'.
Proof.
  induction l as [|[k1 c1] l IH]; intros fuel k c t Hfuel Hk Hrem Hlt HI HO;
    (destruct fuel as [|fuel]; [simpl in Hfuel; lia|]); rewrite unwind_chunks_round;
    destruct (round_spec a to k c _ t Hk Hrem Hlt HI) as (Hrem2 & Hother & Hmax & ->); simpl head.
  - assert (unwind_chunks fuel a to None (round_table a to k c t) = round_table a to k c t) as E by (by destruct fuel).
    simpl. rewrite E. split; [|done]. split; [|done]. intros k' Hk' Hm'. destruct Hrem2 as (Hl & _).
    destruct (chunk_at _ a k') as [d|] eqn:E'; [|done]. apply Hl in E'; [|done|done]. by apply elem_of_nil in E'.
  - destruct (remaining_tail a k1 c1 l _ Hrem2) as (Hrem3 & Hk1 & Hlt3).
    apply StronglySorted_inv in HO as [HO' Hkc]. rewrite Forall_forall in Hkc. simpl in Hkc.
    destruct (IH fuel k1 c1 (round_table a to k c t)) as [Hend Hoth]; [simpl in Hfuel; lia|done|done|done| |done|].
    + rewrite chunk_at_delete by (done || apply u64_max_u64).
      destruct (proj1 (proj2 Hrem) (k1, c1) ltac:(set_solver)) as [_ Hk1m]. simpl in Hk1m.
      rewrite decide_False, Hmax by naive_solver. case_decide; [by left|right]. apply (Hkc (k1, c1)); [set_solver|done].
    + rewrite oldest_cons. split; [done|]. intros a' k' Hne Hk'.
      etransitivity; [by apply Hoth|by apply Hother].
Qed.

Definition older (a : Z) (t : T Treemap) : list (Z * Treemap) :=
  rev ((fun e => (key_block e.1, e.2)) <$>
    filter (fun e => key_inner e.1 = a /\ key_block e.1 <> u64_max) (walk (bitmap_key a 0) t)).

Lemma elem_of_older a (t : T Treemap) k c : (k, c) ∈ older a t <->
  is_u64 k /\ k <> u64_max /\ chunk_at t a k = Some c.
Proof.
  unfold older. rewrite list_elem_of_In, <- in_rev, <- list_elem_of_In, list_elem_of_fmap.
  destruct (walk_spec (bitmap_key a 0) t) as [_ Hw]. split.
  - intros ([k' c'] & [= -> ->] & ([E Hm] & [Hk _]%Hw)%list_elem_of_filter). simpl in *.
    destruct (bitmap_key_of k') as [Ek Hkb]. split_and!; [done|done|]. unfold chunk_at. by rewrite <- E, Ek.
  - intros (Hk & Hm & Hc). destruct (bitmap_key_parts a k Hk) as [E1 E2]. exists (bitmap_key a k, c). simpl.
    rewrite E2. split; [done|]. apply list_elem_of_filter. simpl. rewrite E1, E2. split; [done|].
    apply Hw. split; [done|]. unfold bitmap_key. destruct Hk. lia.
Qed.

Lemma older_sorted a (t : T Treemap) : StronglySorted (fun e f => f.1 < e.1) (older a t).
Proof.
  unfold older. apply (sorted_rev (fun e f : Z * Treemap => e.1 < f.1)).
  destruct (walk_spec (bitmap_key a 0) t) as [Hs _].
  apply (sorted_filter _ (fun e => key_inner e.1 = a /\ key_block e.1 <> u64_max)) in Hs.
  assert (forall e, e ∈ filter (fun e : Z * Treemap => key_inner e.1 = a /\ key_block e.1 <> u64_max)
    (walk (bitmap_key a 0) t) -> key_inner e.1 = a) as Ha by (intros e [[? _] _]%list_elem_of_filter; done).
  induction Hs as [|e l Hs IH Hle]; [constructor|]. rewrite fmap_cons. constructor; [apply IH; set_solver|].
  apply Forall_fmap. rewrite Forall_forall in *. intros f Hf. simpl. specialize (Hle f Hf). unfold key_lt in Hle.
  pose proof (Ha e ltac:(set_solver)) as E1. pose proof (Ha f ltac:(set_solver)) as E2.
  rewrite <- (proj1 (bitmap_key_of e.1)), <- (proj1 (bitmap_key_of f.1)), E1, E2 in Hle.
  unfold bitmap_key in Hle. lia.
Qed.

Lemma length_walk {V} fuel start (t : T V) : (length (walk_from fuel start t) <= fuel)%nat.
Proof.
  revert start. induction fuel as [|fuel IH]; intros start; [done|]. simpl.
  destruct (kv_seek start t) as [[k v]|]; simpl; [|lia]. specialize (IH (k + 1)). lia.
Qed.

Lemma length_older a (t : T Treemap) : (length (older a t) <= size (content t))%nat.
Proof.
  unfold older. rewrite length_rev, length_fmap. etransitivity; [apply length_filter|]. apply length_walk.
Qed.

Lemma older_remaining a (t : T Treemap) : remaining a (older a t) (kv_delete (bitmap_key a u64_max) t).
Proof.
  pose proof u64_max_u64 as Hmax. split_and!; [| |apply older_sorted].
  - intros k c Hk Hm. rewrite elem_of_older, chunk_at_delete, decide_False by naive_solver. naive_solver.
  - intros [k c] (? & ? & _)%elem_of_older. done.
Qed.

(** The first chunk is the last of the older ones. *)
Lemma oldest_first a (t : T Treemap) d k c : chunk_at t a u64_max = Some d -> is_u64 k -> chunk_at t a k = Some c ->
  (forall k' c', is_u64 k' -> chunk_at t a k' = Some c' -> k <= k') -> oldest d (older a t) = c.
Proof.
  intros Hd Hk Hc Hfirst. unfold oldest. destruct (last (older a t)) as [[k1 c1]|] eqn:E; simpl.
  - apply last_Some in E as [l El]. pose proof (older_sorted a t) as Hs. rewrite El in Hs.
    assert ((k1, c1) ∈ older a t) as (Hk1 & Hm1 & Hc1)%elem_of_older by (rewrite El; set_solver).
    assert (k = k1) as ->; [|congruence]. pose proof (Hfirst k1 c1 Hk1 Hc1) as Hle.
    destruct (decide (k = u64_max)) as [->|Hkm]; [destruct Hk1; unfold u64_max in *; lia|].
    assert ((k, c) ∈ older a t) as Hin by (by apply elem_of_older). rewrite El in Hin.
    apply elem_of_app in Hin as [Hin|[= -> _]%list_elem_of_singleton]; [|done].
    pose proof (StronglySorted_app_1_elem_of _ _ _ (k, c) (k1, c1) Hs Hin ltac:(set_solver)) as Hlt.
    simpl in Hlt. lia.
  - apply last_None in E. destruct (decide (k = u64_max)) as [->|Hkm]; [congruence|].
    assert ((k, c) ∈ older a t) as Hin by (by apply elem_of_older). rewrite E in Hin. by apply elem_of_nil in Hin.
Qed.

Lemma only_indexed a b (t : T Treemap) : (forall n, n ∈ b -> is_u64 n) -> only_at_end a b t -> indexed a b t.
Proof.
  intros Hb [Hno Hend]. assert (forall k c, is_u64 k -> chunk_at t a k = Some c -> k = u64_max /\ c = b /\ b <> ∅) as Hall.
  { intros k c Hk Hc. destruct (decide (k = u64_max)) as [->|Hm]; [|by rewrite Hno in Hc].
    rewrite Hend in Hc. case_decide; naive_solver. }
  split.
  - intros m Hm. exists u64_max, b. rewrite Hend, decide_False by set_solver. split_and!; [apply u64_max_u64|done|done].
  - intros k c Hk Hc. destruct (Hall k c Hk Hc) as (-> & -> & Hne). split_and!; [done|done|by left|].
    intros m Hm. destruct (Hb m Hm). unfold u64_max. lia.
  - intros Hne. rewrite Hend, decide_False by done. by eexists.
  - intros k c k' c' m Hk Hk' Hc Hc' Hlt. destruct (Hall k c Hk Hc) as (-> & _), (Hall k' c' Hk' Hc') as (-> & _). lia.
Qed.

(** A chunk before one that is kept in part is kept. *)
Lemma kept_chain a blocks to (t : T Treemap) d : indexed a blocks t -> chunk_at t a u64_max = Some d ->
  StronglySorted (fun e f => kept to e.2 <> ∅ -> kept to f.2 <> ∅) ((u64_max, d) :: older a t).
Proof.
  intros Hix Hd.
  assert (forall k1 c1 k2 c2, is_u64 k1 -> is_u64 k2 -> chunk_at t a k1 = Some c1 -> chunk_at t a k2 = Some c2 ->
    k2 < k1 -> kept to c1 <> ∅ -> kept to c2 <> ∅) as Hkeep.
  { intros k1 c1 k2 c2 Hk1 Hk2 Hc1 Hc2 Hlt Hkept. apply set_choose_L in Hkept as [m [Hm Hmt]%elem_of_kept].
    pose proof (ix_order _ _ _ Hix k2 c2 k1 c1 m Hk2 Hk1 Hc2 Hc1 Hlt Hm) as Hkm.
    destruct (ix_chunk _ _ _ Hix k2 c2 Hk2 Hc2) as (Hne2 & _ & _ & Hmax2).
    apply set_choose_L in Hne2 as [x Hx]. specialize (Hmax2 x Hx).
    assert (x ∈ kept to c2); [|set_solver]. apply elem_of_kept. split; [done|lia]. }
  constructor.
  - pose proof (older_sorted a t) as Hs.
    assert (forall e, e ∈ older a t -> is_u64 e.1 /\ chunk_at t a e.1 = Some e.2) as Hel.
    { intros [k1 c1] (? & _ & ?)%elem_of_older. done. }
    induction Hs as [|e l Hs IH Hle]; [constructor|]. constructor; [apply IH; intros x Hx; apply Hel; by apply list_elem_of_further|].
    rewrite Forall_forall in *. intros f Hf. destruct (Hel e (list_elem_of_here _ _)), (Hel f (list_elem_of_further _ _ _ Hf)).
    by apply (Hkeep e.1 e.2 f.1 f.2); [..|apply Hle].
  - apply Forall_forall. intros [k1 c1] (Hk1 & Hm1 & Hc1)%elem_of_older.
    apply (Hkeep u64_max d k1 c1); [apply u64_max_u64|done|done|done|]. destruct Hk1. unfold u64_max in *. lia.
Qed.

(** C40: The unwind of the index of an address keeps the blocks of its first chunk only.  With
    one chunk these are all blocks up to the point of the unwind; with more, the blocks of
    the later chunks are lost, also those that stay: each round of the loop puts its
    bitmap over that of the round before. *)
Theorem call_traces_unwind_first a blocks (t : T Treemap) to k c :
  indexed a blocks t -> (forall n, n ∈ blocks -> is_u64 n) -> is_u64 k -> chunk_at t a k = Some c ->
  (forall k' c', is_u64 k' -> chunk_at t a k' = Some c' -> k <= k') ->
  let t' := unwind_address to t a in
  indexed a (kept to c) t' /\ (k = u64_max -> forall n, n ∈ kept to c <-> n ∈ blocks /\ n <= to) /\
  (forall n, n ∈ blocks -> k < n -> n ∉ get t' a 0 u64_max).
Proof.
  intros Hix Hr Hk Hc Hfirst t'.
  destruct (ix_chunk _ _ _ Hix k c Hk Hc) as (Hcne & Hsub & _ & Hcmax).
  destruct (ix_last _ _ _ Hix) as [d Hd]; [apply set_choose_L in Hcne as [x Hx]; set_solver|].
  assert (indexed a (kept to c) t') as Hres.
  { apply only_indexed; [intros n [Hn _]%elem_of_kept; apply Hr; set_solver|].
    rewrite <- (oldest_first a t d k c Hd Hk Hc Hfirst). unfold t', unwind_address.
    rewrite kv_get_content. fold (chunk_at t a u64_max). rewrite Hd. simpl fmap.
    destruct (unwind_chunks_spec a to (older a t) (S (size (content t))) u64_max d t) as [Hend _];
      [pose proof (length_older a t); lia|apply u64_max_u64|apply older_remaining| | | |exact Hend].
    - intros [k' c'] ([? ?] & ? & _)%elem_of_older. simpl. unfold u64_max in *. lia.
    - left. by rewrite chunk_at_delete, decide_True by (done || apply u64_max_u64).
    - by eapply kept_chain. }
  split_and!; [done| |].
  - intros -> n. rewrite elem_of_kept. split; [set_solver|]. intros [Hn Hle]. split; [|done].
    destruct (ix_cover _ _ _ Hix n Hn) as (k1 & c1 & Hk1 & Hc1 & Hn1). specialize (Hfirst k1 c1 Hk1 Hc1).
    assert (k1 = u64_max) as -> by (destruct Hk1; unfold u64_max in *; lia). congruence.
  - intros n Hn Hlt Hin. destruct (get_indexed a (kept to c) t' 0 u64_max Hres ltac:(by split)) as [Hget _].
    assert (n ∈ c) as Hnc by (apply (elem_of_kept to c n); set_solver). specialize (Hcmax n Hnc). lia.
Qed.

End specs.

(** ** Samples *)

Module sample_traces.

Definition encode_numbers (l : list Z) : Bytes := concat (be_bytes 8 <$> l).

Fixpoint decode_numbers (fuel : nat) (b : Bytes) : list Z :=
  match fuel with
  | O => []
  | S fuel => match b with [] => [] | _ => be_val (take 8 b) :: decode_numbers fuel (drop 8 b) end
  end.

Lemma decode_encode l fuel : (length l <= fuel)%nat -> (forall n, n ∈ l -> is_u64 n) ->
  decode_numbers fuel (encode_numbers l) = l.
Proof.
  revert fuel. induction l as [|n l IH]; intros [|fuel] Hf Hl; [done|done|simpl in Hf; lia|].
  unfold encode_numbers in *. rewrite fmap_cons. cbn [concat decode_numbers].
  destruct (be_bytes 8 n ++ concat (be_bytes 8 <$> l)) eqn:E.
  { apply (f_equal length) in E. rewrite length_app, length_be_bytes in E. simpl in E. lia. }
  rewrite <- E, take_app_length', drop_app_length' by (by rewrite length_be_bytes).
  rewrite be_val_bytes, IH; [|simpl in Hf; lia|set_solver]. f_equal. apply Z.mod_small.
  apply (Hl n). set_solver.
Qed.

Lemma length_encode l : length (encode_numbers l) = (8 * length l)%nat.
Proof.
  unfold encode_numbers. induction l as [|n l IH]; [done|]. rewrite fmap_cons. cbn [concat].
  rewrite length_app, length_be_bytes, IH, length_cons. lia.
Qed.

(** Eight bytes a number. *)
Program Definition codec : TreemapCodec := {|
  serialized_size b := 8 + 8 * Z.of_nat (size b);
  treemap_encode b := encode_numbers (iter b);
  treemap_decode bs := Some (list_to_set (decode_numbers (length bs) bs));
|}.
Next Obligation.
  intros b Hb. cbv beta. rewrite decode_encode.
  - f_equal. apply set_eq. intros n. by rewrite elem_of_list_to_set, elem_of_iter.
  - rewrite length_encode. lia.
  - intros n Hn%elem_of_iter. by apply Hb.
Qed.
Next Obligation. intros n. cbv beta. rewrite size_singleton. unfold CHUNK_LIMIT. lia. Qed.

#[export] Existing Instance codec.
#[export] Existing Instance map_table.map_kv.

Lemma encoded_small b bm : 0 <= b < 2 ^ 32 -> (forall n, n ∈ bm -> 0 <= n <= b) ->
  blen (treemap_encode bm) < 2 ^ 63.
Proof.
  intros Hb Hbm. unfold blen. cbn [treemap_encode codec]. rewrite length_encode. unfold iter.
  rewrite merge_sort_Permutation.
  change (length (elements bm)) with (size bm).
  assert (size bm <= size (list_to_set (C := gset Z) (seqZ 0 (b + 1))))%nat as Hs.
  { apply subseteq_size. intros n Hn. apply elem_of_list_to_set, elem_of_seqZ. specialize (Hbm n Hn). lia. }
  rewrite size_list_to_set, length_seqZ in Hs by apply NoDup_seqZ. lia.
Qed.

(** Address 5 calls 6 in block 1, and both are called in block 3. *)
Definition trace (a : Z) (f t : bool) : CallTraceSetEntry :=
  {| trace_address := a; trace_from := f; trace_to := t |}.

Definition traces : gmap Z CallTraceSetEntry :=
  <[call_trace_key 1 (trace 5 true false) := trace 5 true false]>
  (<[call_trace_key 1 (trace 6 false true) := trace 6 false true]>
  {[ call_trace_key 3 (trace 5 true true) := trace 5 true true ]}).

Definition db : Db (TraceTables map_table.table) := Build_Db ∅
  {| call_trace_set := traces; call_from_index := ∅; call_to_index := ∅ |}.

Lemma traces_entries k e : traces !! k = Some e ->
  (trace_block k = 1 \/ trace_block k = 3) /\ is_address (trace_address e).
Proof.
  unfold traces. intros [[<- <-]|[_ [[<- <-]|[_ [<- <-]%lookup_singleton_Some]]%lookup_insert_Some]]%lookup_insert_Some;
    (split; [vm_compute; by auto|split; [vm_compute; discriminate|reflexivity]]).
Qed.

Lemma traces_valid : traces_ok traces.
Proof. intros k e Hk. destruct (traces_entries k e Hk) as [[E|E] Ha]; split; try done; rewrite E; lia. Qed.

Lemma empty_indexed a : indexed a ∅ (∅ : map_table.table Treemap).
Proof.
  assert (forall k, chunk_at (∅ : map_table.table Treemap) a k = None) as E by (intros k; apply lookup_empty).
  split; [set_solver|intros k c _ Hc; by rewrite E in Hc|done|intros k c k' c' m _ _ Hc; by rewrite E in Hc].
Qed.

Lemma nothing_indexed : index_at 0 (tables db).
Proof.
  assert (forall sel a, traced sel traces 0 a = ∅) as E.
  { intros sel a. apply set_eq. intros n. rewrite elem_of_traced. split; [|set_solver].
    intros (k & e & Hk & _ & _ & <- & Hle). destruct (traces_entries k e Hk) as [[H|H] _]; rewrite H in Hle; lia. }
  intros a. cbn [db tables call_trace_set call_from_index call_to_index content map_table.map_kv].
  rewrite !E. split; apply empty_indexed.
Qed.

(** Two chunks of address 5. *)
Definition two_chunks : map_table.table Treemap :=
  <[bitmap_key 5 3 := {[1; 3]}]> {[ bitmap_key 5 u64_max := {[7; 9]} ]}.

Lemma two_chunks_at k c : is_u64 k -> chunk_at two_chunks 5 k = Some c ->
  k = 3 /\ c = {[1; 3]} \/ k = u64_max /\ c = {[7; 9]}.
Proof.
  intros Hk. change (chunk_at two_chunks 5 k) with ((two_chunks : gmap Z Treemap) !! bitmap_key 5 k).
  unfold two_chunks. intros [[E <-]|[_ [E <-]%lookup_singleton_Some]]%lookup_insert_Some;
    [left|right]; (apply bitmap_key_inj in E as [_ E]; [by subst|by split|done]).
Qed.

Lemma two_chunks_indexed : indexed 5 {[1; 3; 7; 9]} two_chunks.
Proof.
  assert (chunk_at two_chunks 5 3 = Some {[1; 3]}) as H1 by reflexivity.
  assert (chunk_at two_chunks 5 u64_max = Some {[7; 9]}) as H2 by reflexivity.
  split.
  - intros m Hm. destruct (decide (m = 1 \/ m = 3)); [exists 3, {[1; 3]}|exists u64_max, {[7; 9]}];
      (split_and!; [by split|done|set_solver]).
  - intros k c Hk Hc. clear H1 H2. apply two_chunks_at in Hc as [[-> ->]|[-> ->]]; [| |done].
    + split_and!; [set_solver|set_solver|set_solver|]. intros m Hm. assert (m = 1 \/ m = 3) by set_solver. lia.
    + split_and!; [set_solver|set_solver|by left|]. intros m Hm. assert (m = 7 \/ m = 9) by set_solver.
      unfold u64_max. lia.
  - intros _. by eexists.
  - intros k c k' c' m Hk Hk' Hc Hc' Hlt Hm. clear H1 H2.
    apply two_chunks_at in Hc as [[-> ->]|[-> ->]]; [|..|done];
      apply two_chunks_at in Hc' as [[-> ->]|[-> ->]]; try done; unfold u64_max in *; try lia.
    assert (m = 7 \/ m = 9) by set_solver. lia.
Qed.

End sample_traces.

Import sample_traces.

Lemma call_traces_indexed_witness : exists db',
  stage_execute (CallTraceIndex 0) {| restarted := false; first_started_at := (0, None);
    previous_stage := Some (EXECUTION, 3); stage_progress := Some 0 |} sample_traces.db tt =
    Done (Progress 3 true, db', tt) /\ index_at 3 (tables db').
Proof.
  destruct (call_traces_indexed (W := unit) 0 {| restarted := false; first_started_at := (0, None);
    previous_stage := Some (EXECUTION, 3); stage_progress := Some 0 |} sample_traces.db tt EXECUTION 0 3)
    as (db' & He & _ & Hi); [reflexivity|reflexivity|lia|lia| |exact traces_valid|exact nothing_indexed|].
  - intros bm. apply encoded_small. lia.
  - exists db'. split; [exact He|exact Hi].
Defined.

(** The unwind to block 8 loses block 7. *)
Lemma call_traces_unwind_first_witness :
  indexed 5 (kept 8 {[1; 3]}) (unwind_address 8 two_chunks 5) /\ 7 ∉ get (unwind_address 8 two_chunks 5) 5 0 u64_max.
Proof.
  destruct (call_traces_unwind_first 5 {[1; 3; 7; 9]} two_chunks 8 3 {[1; 3]}) as (H1 & _ & H2).
  - exact two_chunks_indexed.
  - intros n Hn. assert (n = 1 \/ n = 3 \/ n = 7 \/ n = 9) by set_solver. unfold uint. lia.
  - by split.
  - reflexivity.
  - intros k' c' Hk' [[-> _]|[-> _]]%two_chunks_at; [lia|unfold u64_max; lia|done].
  - split; [exact H1|]. apply H2; [set_solver|lia].
Defined.
