(* ===== verification/Buffer.v ===== *)
(** The write buffer over the tables of the state (src/state/buffer.rs,
    src/state/database.rs, src/accessors/state.rs) and the unwind of the execution stage
    (src/stages/execution.rs).

    A table with sorted duplicates is a table whose key is the key and the first part
    of the value, by which the duplicates of a key are looked up: there is one for
    each. *)
From S2P Require Import Prelude EvmState IntraBlockState Rlp StagedSync Kv Stages Bitmaps CallTraces.
From Stdlib Require Import ZArith Lia Strings.Byte.
From stdpp Require Import base list option numbers gmap sorting strings.
#[local] Open Scope Z_scope.

(** The tables of the state and of its history. *)
Record StateTables (T : Type -> Type) := {
  account_table : T Account;
  storage_table : T Z;                        (* address, location -> value *)
  code_table : T Bytes;
  account_change_set : T (option Account);    (* block, address -> value before the block *)
  storage_change_set : T Z;                   (* block, address, location -> value before the block *)
  log_table : T (list Log);                   (* block, transaction -> logs *)
  account_history : T Treemap;                (* address, last block -> blocks with changes *)
  storage_history : T Treemap;                (* address, location, last block -> blocks with changes *)
  state_call_traces : T CallTraceSetEntry;    (* block, trace *)
}.
Arguments account_table {T} _.
Arguments storage_table {T} _.
Arguments code_table {T} _.
Arguments account_change_set {T} _.
Arguments storage_change_set {T} _.
Arguments log_table {T} _.
Arguments account_history {T} _.
Arguments storage_history {T} _.
Arguments state_call_traces {T} _.

Definition storage_key (address : Address) (location : Z) : Z := address * 2 ^ 256 + location.
Definition account_change_key (block_number : Z) (address : Address) : Z :=
  block_number * 2 ^ 160 + address.
Definition storage_change_key (block_number : Z) (address : Address) (location : Z) : Z :=
  account_change_key block_number address * 2 ^ 256 + location.
Definition log_key (block_number index : Z) : Z := block_number * 2 ^ 64 + index.

(** A [BTreeMap] is iterated in the order of its keys. *)
Definition key_le {V} (e f : Z * V) : Prop := e.1 <= f.1.
#[export] Instance key_le_dec {V} (e f : Z * V) : Decision (key_le e f) := Z.le_dec e.1 f.1.

Definition in_order {V} (m : gmap Z V) : list (Z * V) := merge_sort key_le (map_to_list m).

Record OverlayStorage := {
  erased : bool;
  slots : gmap Z Z;
}.

Definition OverlayStorage_default : OverlayStorage := {| erased := false; slots := ∅ |}.

Record Buffer (T : Type -> Type) := {
  txn : StateTables T;
  prune_from : Z;
  historical_block : option Z;
  buf_accounts : gmap Address (option Account);
  buf_storage : gmap Address OverlayStorage;
  buf_account_changes : gmap Z (gmap Address (option Account));
  buf_storage_changes : gmap Z (gmap Address (gmap Z Z));
  hash_to_code : gmap Z Bytes;
  buf_logs : gmap Z (gmap Z (list Log));
  buf_block_number : Z;
  changed_storage : gset Address;
}.
Arguments txn {T} _.
Arguments prune_from {T} _.
Arguments historical_block {T} _.
Arguments buf_accounts {T} _.
Arguments buf_storage {T} _.
Arguments buf_account_changes {T} _.
Arguments buf_storage_changes {T} _.
Arguments hash_to_code {T} _.
Arguments buf_logs {T} _.
Arguments buf_block_number {T} _.
Arguments changed_storage {T} _.

Module buffer.

Section buffer.
Context {T : Type -> Type} {KV : Kv T}.

(** ** database.rs and accessors/state.rs *)

(** [seek_both_range] and the comparison of the location found. *)
Definition seek_storage_key (address : Address) (location : Z) (t : T Z) : option Z :=
  match kv_seek (storage_key address location) t with
  | Some (k, v) => if k =? storage_key address location then Some v else None
  | None => None
  end.

Definition upsert_storage_value (address : Address) (location value : Z) (t : T Z) : T Z :=
  let t := match seek_storage_key address location t with
           | Some _ => kv_delete (storage_key address location) t
           | None => t
           end in
  if value =? 0 then t else kv_put (storage_key address location) value t.

(** A change that is found in the change set of the next block with one is the value
    at the historical block; else the value has not changed since. *)
Definition account_read (t : StateTables T) (address_to_find : Address) (block_number : option Z)
    : option Account :=
  let found :=
    block_number ← block_number;
    block_number ← bitmapdb.find_next_block (account_history t) address_to_find block_number;
    '(k, account) ← kv_seek (account_change_key block_number address_to_find) (account_change_set t);
    if k =? account_change_key block_number address_to_find then Some account else None in
  match found with
  | Some account => account
  | None => kv_get address_to_find (account_table t)
  end.

Definition storage_read (t : StateTables T) (address : Address) (location_to_find : Z) (block_number : option Z)
    : Z :=
  let found :=
    block_number ← block_number;
    block_number ← bitmapdb.find_next_block (storage_history t) (storage_key address location_to_find) block_number;
    '(k, value) ← kv_seek (storage_change_key block_number address location_to_find) (storage_change_set t);
    if k =? storage_change_key block_number address location_to_find then Some value else None in
  match found with
  | Some value => value
  | None => default 0 (seek_storage_key address location_to_find (storage_table t))
  end.

(** ** buffer.rs *)

Definition new (txn : StateTables T) (prune_from : Z) (historical_block : option Z) : Buffer T := {|
  txn := txn; prune_from := prune_from; historical_block := historical_block; buf_accounts := ∅; buf_storage := ∅;
  buf_account_changes := ∅; buf_storage_changes := ∅; hash_to_code := ∅; buf_logs := ∅;
  buf_block_number := 0; changed_storage := ∅;
|}.

(** The buffer with other accounts and storage, and the changes of the current block. *)
Definition with_state (b : Buffer T) (a : gmap Address (option Account))
    (s : gmap Address OverlayStorage) (ac : gmap Z (gmap Address (option Account)))
    (sc : gmap Z (gmap Address (gmap Z Z))) (changed : gset Address) : Buffer T := {|
  txn := txn b; prune_from := prune_from b; historical_block := historical_block b; buf_accounts := a; buf_storage := s;
  buf_account_changes := ac; buf_storage_changes := sc; hash_to_code := hash_to_code b;
  buf_logs := buf_logs b; buf_block_number := buf_block_number b; changed_storage := changed;
|}.

Fixpoint insert_logs (block_number : Z) (i : Z) (receipts : list Receipt)
    (l : gmap Z (gmap Z (list Log))) : gmap Z (gmap Z (list Log)) :=
  match receipts with
  | [] => l
  | r :: receipts =>
      insert_logs block_number (i + 1) receipts
        (<[block_number := <[i := receipt_logs r]> (default ∅ (l !! block_number))]> l)
  end.

Definition insert_receipts (block_number : Z) (receipts : list Receipt) (b : Buffer T) : Buffer T := {|
  txn := txn b; prune_from := prune_from b; historical_block := historical_block b; buf_accounts := buf_accounts b;
  buf_storage := buf_storage b; buf_account_changes := buf_account_changes b;
  buf_storage_changes := buf_storage_changes b; hash_to_code := hash_to_code b;
  buf_logs := insert_logs block_number 0 receipts (buf_logs b);
  buf_block_number := buf_block_number b; changed_storage := changed_storage b;
|}.

Definition buf_read_account (b : Buffer T) (address : Address) : option Account :=
  match buf_accounts b !! address with
  | Some account => account
  | None => account_read (txn b) address (historical_block b)
  end.

Definition buf_read_code (b : Buffer T) (code_hash : Z) : Bytes :=
  match hash_to_code b !! code_hash with
  | Some code => code
  | None => default [] (kv_get code_hash (code_table (txn b)))
  end.

Definition buf_read_storage (b : Buffer T) (address : Address) (location : Z) : Z :=
  match buf_storage b !! address with
  | Some account_storage =>
      match slots account_storage !! location with
      | Some value => value
      | None => if erased account_storage then 0 else storage_read (txn b) address location (historical_block b)
      end
  | None => storage_read (txn b) address location (historical_block b)
  end.

(** The changes of the storage of an account in the current block. *)
Definition changes_of (b : Buffer T) (address : Address) : gmap Z Z :=
  default ∅ (default ∅ (buf_storage_changes b !! buf_block_number b) !! address).

Definition set_changes_of (b : Buffer T) (address : Address) (c : gmap Z Z)
    : gmap Z (gmap Address (gmap Z Z)) :=
  <[buf_block_number b :=
     <[address := c]> (default ∅ (buf_storage_changes b !! buf_block_number b))]>
    (buf_storage_changes b).

(** The slots of an account in the database. *)
Fixpoint take_slots (address : Address) (walker : list (Z * Z)) : list (Z * Z) :=
  match walker with
  | [] => []
  | (k, initial) :: walker =>
      if k / 2 ^ 256 =? address then (k mod 2 ^ 256, initial) :: take_slots address walker else []
  end.

Definition database_slots (t : StateTables T) (address : Address) : list (Z * Z) :=
  take_slots address (walk (storage_key address 0) (storage_table t)).

(** [storage_changes.entry(slot).or_insert(initial)]. *)
Definition or_insert (c : gmap Z Z) (e : Z * Z) : gmap Z Z :=
  match c !! e.1 with Some _ => c | None => <[e.1 := e.2]> c end.

Definition buf_erase_storage (address : Address) (b : Buffer T) : Buffer T :=
  let '(overlay, fresh) :=
    match buf_storage b !! address with
    | Some o => (o, false)
    | None => ({| erased := true; slots := ∅ |}, true)
    end in
  let mark_database_as_discarded := fresh || negb (erased overlay) in
  let changes := slots overlay ∪ changes_of b address in
  let changes :=
    if mark_database_as_discarded
    then foldl or_insert changes (database_slots (txn b) address) else changes in
  with_state b (buf_accounts b) (<[address := {| erased := true; slots := ∅ |}]> (buf_storage b))
    (buf_account_changes b) (set_changes_of b address changes) (changed_storage b).

Definition buf_begin_block (block_number : Z) (b : Buffer T) : Buffer T := {|
  txn := txn b; prune_from := prune_from b; historical_block := historical_block b; buf_accounts := buf_accounts b;
  buf_storage := buf_storage b; buf_account_changes := buf_account_changes b;
  buf_storage_changes := buf_storage_changes b; hash_to_code := hash_to_code b;
  buf_logs := buf_logs b; buf_block_number := block_number; changed_storage := ∅;
|}.

Definition buf_update_account (address : Address) (initial current : option Account) (b : Buffer T)
    : Buffer T :=
  let equal := bool_decide (current = initial) in
  let account_deleted := bool_decide (current = None) in
  if equal && negb account_deleted && negb (bool_decide (address ∈ changed_storage b)) then b
  else
    let changes :=
      if prune_from b <=? buf_block_number b then
        <[buf_block_number b :=
           <[address := initial]> (default ∅ (buf_account_changes b !! buf_block_number b))]>
          (buf_account_changes b)
      else buf_account_changes b in
    with_state b
      (if equal then buf_accounts b else <[address := current]> (buf_accounts b))
      (buf_storage b) changes (buf_storage_changes b) (changed_storage b).

Definition buf_update_code (code_hash : Z) (code : Bytes) (b : Buffer T) : Buffer T := {|
  txn := txn b; prune_from := prune_from b; historical_block := historical_block b; buf_accounts := buf_accounts b;
  buf_storage := buf_storage b; buf_account_changes := buf_account_changes b;
  buf_storage_changes := buf_storage_changes b; hash_to_code := <[code_hash := code]> (hash_to_code b);
  buf_logs := buf_logs b; buf_block_number := buf_block_number b; changed_storage := changed_storage b;
|}.

Definition buf_update_storage (address : Address) (location initial current : Z) (b : Buffer T)
    : Buffer T :=
  if current =? initial then b
  else
    let overlay := default OverlayStorage_default (buf_storage b !! address) in
    let storage :=
      <[address := {| erased := erased overlay; slots := <[location := current]> (slots overlay) |}]>
        (buf_storage b) in
    if prune_from b <=? buf_block_number b then
      with_state b (buf_accounts b) storage (buf_account_changes b)
        (set_changes_of b address (<[location := initial]> (changes_of b address)))
        ({[address]} ∪ changed_storage b)
    else
      with_state b (buf_accounts b) storage (buf_account_changes b) (buf_storage_changes b)
        (changed_storage b).

#[export] Instance buffer_state : State (Buffer T) := {|
  read_account b a := Some (buf_read_account b a);
  read_code b h := Some (buf_read_code b h);
  read_storage b a l := Some (buf_read_storage b a l);
  erase_storage a b := Some (buf_erase_storage a b);
  begin_block n b := buf_begin_block n b;
  update_account a i c b := buf_update_account a i c b;
  update_code h c b := Some (buf_update_code h c b);
  update_storage a l i c b := Some (buf_update_storage a l i c b);
|}.

(** ** Writing to the tables; [None] is an error of the engine: a key out of order *)

Fixpoint append_all {V} (l : list (Z * V)) (t : T V) : option (T V) :=
  match l with
  | [] => Some t
  | (k, v) :: l => t ← kv_append k v t; append_all l t
  end.

(** The entries of the change sets and of the logs, in the order they are written. *)
Definition account_entries (c : gmap Z (gmap Address (option Account))) : list (Z * option Account) :=
  concat ((fun b => (fun a => (account_change_key b.1 a.1, a.2)) <$> in_order b.2) <$> in_order c).

Definition storage_entries (c : gmap Z (gmap Address (gmap Z Z))) : list (Z * Z) :=
  concat ((fun b => concat ((fun a =>
    (fun s => (storage_change_key b.1 a.1 s.1, s.2)) <$> in_order a.2) <$> in_order b.2)) <$> in_order c).

Definition log_entries (c : gmap Z (gmap Z (list Log))) : list (Z * list Log) :=
  concat ((fun b => (fun i => (log_key b.1 i.1, i.2)) <$> in_order b.2) <$> in_order c).

Definition write_history (b : Buffer T) : option (StateTables T) :=
  ac ← append_all (account_entries (buf_account_changes b)) (account_change_set (txn b));
  sc ← append_all (storage_entries (buf_storage_changes b)) (storage_change_set (txn b));
  l ← append_all (log_entries (buf_logs b)) (log_table (txn b));
  Some {| account_table := account_table (txn b); storage_table := storage_table (txn b);
          code_table := code_table (txn b); account_change_set := ac; storage_change_set := sc;
          log_table := l; account_history := account_history (txn b);
          storage_history := storage_history (txn b); state_call_traces := state_call_traces (txn b) |}.

Definition write_account (t : T Account) (e : Address * option Account) : T Account :=
  match e.2 with
  | Some account => kv_put e.1 account t
  | None => match kv_get e.1 t with Some _ => kv_delete e.1 t | None => t end
  end.

(** [delete_current_duplicates]: all slots of the account. *)
Definition delete_slots (address : Address) (l : list (Z * Z)) (t : T Z) : T Z :=
  foldl (fun t s => kv_delete (storage_key address s.1) t) t l.

Definition write_slots (t : T Z) (e : Address * OverlayStorage) : T Z :=
  let t := if erased e.2
           then delete_slots e.1 (take_slots e.1 (walk (storage_key e.1 0) t)) t else t in
  foldl (fun t s => upsert_storage_value e.1 s.1 s.2 t) t (map_to_list (slots e.2)).

Definition write_to_db (b : Buffer T) : option (StateTables T) :=
  t ← write_history b;
  Some {| account_table := foldl write_account (account_table t) (in_order (buf_accounts b));
          storage_table := foldl write_slots (storage_table t) (in_order (buf_storage b));
          code_table := foldl (fun c e => kv_put e.1 e.2 c) (code_table t) (in_order (hash_to_code b));
          account_change_set := account_change_set t; storage_change_set := storage_change_set t;
          log_table := log_table t; account_history := account_history t;
          storage_history := storage_history t; state_call_traces := state_call_traces t |}.

(** ** The unwind of the execution stage *)

(** The loop over the last changes of accounts.  The cursor on the accounts is moved
    with [seek], to the least address that is not below the one looked for. *)
Fixpoint unwind_accounts (fuel : nat) (to : Z) (cs : T (option Account)) (t : T Account)
    : T (option Account) * T Account :=
  match fuel with
  | O => (cs, t)
  | S fuel =>
      match kv_last cs with
      | None => (cs, t)
      | Some (k, account) =>
          if k / 2 ^ 160 <=? to then (cs, t)
          else
            let address := k mod 2 ^ 160 in
            unwind_accounts fuel to (kv_delete k cs)
              (match account with
               | Some account => kv_put address account t
               | None => match kv_seek address t with Some (k', _) => kv_delete k' t | None => t end
               end)
      end
  end.

Fixpoint unwind_storage (fuel : nat) (to : Z) (cs : T Z) (t : T Z) : T Z * T Z :=
  match fuel with
  | O => (cs, t)
  | S fuel =>
      match kv_last cs with
      | None => (cs, t)
      | Some (k, value) =>
          if k / 2 ^ 256 / 2 ^ 160 <=? to then (cs, t)
          else
            unwind_storage fuel to (kv_delete k cs)
              (upsert_storage_value ((k / 2 ^ 256) mod 2 ^ 160) (k mod 2 ^ 256) value t)
      end
  end.

Fixpoint unwind_logs (fuel : nat) (to : Z) (t : T (list Log)) : T (list Log) :=
  match fuel with
  | O => t
  | S fuel =>
      match kv_last t with
      | None => t
      | Some (k, _) => if k / 2 ^ 64 <=? to then t else unwind_logs fuel to (kv_delete k t)
      end
  end.

(** [delete_current_duplicates]: all traces of the block. *)
Definition delete_traces (block_number : Z) (t : T CallTraceSetEntry) : T CallTraceSetEntry :=
  foldl (fun t e => if trace_block e.1 =? block_number then kv_delete e.1 t else t) t
    (walk (block_number * 2 ^ 168) t).

Fixpoint unwind_traces (fuel : nat) (to : Z) (t : T CallTraceSetEntry) : T CallTraceSetEntry :=
  match fuel with
  | O => t
  | S fuel =>
      match kv_last t with
      | None => t
      | Some (k, _) =>
          if trace_block k <=? to then t else unwind_traces fuel to (delete_traces (trace_block k) t)
      end
  end.

(** Each loop deletes an entry in each round: as many rounds as there are entries. *)
Definition execution_unwind (to : Z) (t : StateTables T) : StateTables T :=
  let '(ac, a) := unwind_accounts (size (content (account_change_set t))) to
                    (account_change_set t) (account_table t) in
  let '(sc, s) := unwind_storage (size (content (storage_change_set t))) to
                    (storage_change_set t) (storage_table t) in
  {| account_table := a; storage_table := s; code_table := code_table t;
     account_change_set := ac; storage_change_set := sc;
     log_table := unwind_logs (size (content (log_table t))) to (log_table t);
     account_history := account_history t; storage_history := storage_history t;
     state_call_traces :=
       unwind_traces (size (content (state_call_traces t))) to (state_call_traces t) |}.

End buffer.

End buffer.
