(* ===== verification/BufferSpec.v ===== *)
(** The write buffer and the unwind of the execution stage.

    What the buffer answers is what the tables hold once it is written; and the
    changes it records are the values at the beginning of each block, so that the
    unwind of the execution stage brings the state back to what it was.  The unwind
    of an account that did not exist before or after a block deletes another one. *)
From S2P Require Import Prelude EvmState IntraBlockState Rlp StagedSync Kv Stages StagesSpec Bitmaps BitmapsSpec CallTraces Buffer.
From Stdlib Require Import ZArith Lia Strings.Byte.
From stdpp Require Import base list option numbers gmap sorting relations strings.
#[local] Open Scope Z_scope.
Import buffer.

(** ** Maps in the order of their keys *)

Lemma in_order_perm {V} (m : gmap Z V) : in_order m ≡ₚ map_to_list m.
Proof. apply merge_sort_Permutation. Qed.

Lemma elem_of_in_order {V} (m : gmap Z V) k v : (k, v) ∈ in_order m <-> m !! k = Some v.
Proof. by rewrite in_order_perm, elem_of_map_to_list. Qed.

Lemma NoDup_in_order {V} (m : gmap Z V) : NoDup (in_order m).*1.
Proof. rewrite in_order_perm. apply NoDup_fst_map_to_list. Qed.

Lemma list_to_map_in_order {V} (m : gmap Z V) : list_to_map (in_order m) = m.
Proof.
  rewrite <- (list_to_map_to_list m) at 2. apply list_to_map_proper; [apply NoDup_in_order|].
  apply in_order_perm.
Qed.

Lemma in_rev_elem {V} (m : gmap Z V) k v : (k, v) ∈ rev (in_order m) -> m !! k = Some v.
Proof. rewrite list_elem_of_In, <- in_rev, <- list_elem_of_In. apply elem_of_in_order. Qed.

Lemma in_order_empty {V} : in_order (∅ : gmap Z V) = [].
Proof. unfold in_order. by rewrite map_to_list_empty. Qed.

Lemma strictly_sorted {V} (l : list (Z * V)) :
  StronglySorted key_le l -> NoDup l.*1 -> StronglySorted key_lt l.
Proof.
  induction 1 as [|e l Hs IH Hle]; intros Hn; [constructor|].
  apply NoDup_cons in Hn as [Hni Hn]. constructor; [by apply IH|].
  rewrite Forall_forall in *. intros f Hf. specialize (Hle f Hf). unfold key_le, key_lt in *.
  assert (e.1 <> f.1); [|lia]. intros E. apply Hni. rewrite E. by apply list_elem_of_fmap_2.
Qed.

Lemma in_order_sorted {V} (m : gmap Z V) : StronglySorted key_lt (in_order m).
Proof.
  apply strictly_sorted; [|apply NoDup_in_order]. apply StronglySorted_merge_sort.
  - intros x y z. unfold key_le. lia.
  - intros x y. unfold key_le. lia.
Qed.

Lemma strictly_sorted_unique {V} (l1 l2 : list (Z * V)) :
  StronglySorted key_lt l1 -> StronglySorted key_lt l2 -> l1 ≡ₚ l2 -> l1 = l2.
Proof.
  intros H1 H2 Hp. eapply (StronglySorted_unique_strong key_lt); [|done|done|done].
  intros x y _ _. unfold key_lt. lia.
Qed.

(** The greatest key comes last. *)
Lemma in_order_insert_last {V} (m : gmap Z V) k v :
  (forall k' v', m !! k' = Some v' -> k' < k) -> in_order (<[k := v]> m) = in_order m ++ [(k, v)].
Proof.
  intros Hlt. apply strictly_sorted_unique; [apply in_order_sorted| |].
  - apply StronglySorted_app_2; [|apply in_order_sorted|by repeat constructor].
    intros [k' v'] e Hin%elem_of_in_order ->%list_elem_of_singleton. by apply (Hlt k' v').
  - rewrite !in_order_perm, map_to_list_insert.
    + by rewrite Permutation_app_comm.
    + destruct (m !! k) as [v'|] eqn:E; [|done]. specialize (Hlt k v' E). lia.
Qed.

Lemma sorted_fmap {V W} (f : Z * V -> Z * W) l :
  (forall e e', e ∈ l -> e' ∈ l -> e.1 < e'.1 -> (f e).1 < (f e').1) ->
  StronglySorted key_lt l -> StronglySorted key_lt (f <$> l).
Proof.
  intros Hf. induction 1 as [|e l Hs IH Hle]; [constructor|]. rewrite fmap_cons. constructor.
  - apply IH. intros e1 e2 H1 H2. apply Hf; by apply list_elem_of_further.
  - rewrite Forall_forall in Hle. apply Forall_forall. intros x (e' & -> & He')%list_elem_of_fmap.
    apply Hf; [apply list_elem_of_here|by apply list_elem_of_further|by apply Hle].
Qed.

Lemma elem_of_concat {A} (x : A) (ls : list (list A)) : x ∈ concat ls <-> exists l, x ∈ l /\ l ∈ ls.
Proof.
  rewrite list_elem_of_In, in_concat. split; intros (l & H1 & H2); exists l; split;
    by apply list_elem_of_In.
Qed.

(** Blocks of entries one after another. *)
Lemma sorted_concat {V W} (g : Z * V -> list (Z * W)) (l : list (Z * V)) :
  StronglySorted key_lt l -> (forall e, e ∈ l -> StronglySorted key_lt (g e)) ->
  (forall e e' x y, e ∈ l -> e' ∈ l -> e.1 < e'.1 -> x ∈ g e -> y ∈ g e' -> x.1 < y.1) ->
  StronglySorted key_lt (concat (g <$> l)).
Proof.
  intros Hs Hg Hx. induction Hs as [|e l Hs IH Hle]; [constructor|]. rewrite fmap_cons. simpl.
  apply StronglySorted_app_2.
  - intros x y Hin (z & Hyz & (e' & -> & He')%list_elem_of_fmap)%elem_of_concat.
    rewrite Forall_forall in Hle. eapply (Hx e e'); [set_solver|set_solver|by apply Hle|done|done].
  - apply Hg. set_solver.
  - apply IH; intros.
    + apply Hg. set_solver.
    + eapply (Hx e0 e'); [set_solver|set_solver|done|done|done].
Qed.

(** The entries of a map of maps, in the order of the keys. *)
Definition entries {V} (key : Z -> Z -> Z) (c : gmap Z (gmap Z V)) : list (Z * V) :=
  concat ((fun b => (fun a => (key b.1 a.1, a.2)) <$> in_order b.2) <$> in_order c).

(** ** Keys *)

Lemma storage_key_parts a l : word l ->
  storage_key a l / 2 ^ 256 = a /\ storage_key a l mod 2 ^ 256 = l.
Proof.
  unfold uint, storage_key. intros Hl.
  rewrite Z.add_comm, Z.div_add, Z.div_small, Z.mod_add, Z.mod_small by lia. lia.
Qed.

Lemma storage_key_inj a l a' l' : word l -> word l' ->
  storage_key a l = storage_key a' l' -> a = a' /\ l = l'.
Proof.
  intros H1 H2 E. destruct (storage_key_parts a l H1), (storage_key_parts a' l' H2). by split; congruence.
Qed.

Lemma key_of_parts k : storage_key (k / 2 ^ 256) (k mod 2 ^ 256) = k.
Proof. unfold storage_key. pose proof (Z.div_mod k (2 ^ 256) ltac:(lia)). lia. Qed.

Lemma account_change_parts n a : is_address a ->
  account_change_key n a / 2 ^ 160 = n /\ account_change_key n a mod 2 ^ 160 = a.
Proof.
  unfold uint, account_change_key. intros Ha.
  rewrite Z.add_comm, Z.div_add, Z.div_small, Z.mod_add, Z.mod_small by lia. lia.
Qed.

Lemma storage_change_parts n a l : is_address a -> word l ->
  let k := storage_change_key n a l in
  k / 2 ^ 256 / 2 ^ 160 = n /\ (k / 2 ^ 256) mod 2 ^ 160 = a /\ k mod 2 ^ 256 = l.
Proof.
  intros Ha Hl k. destruct (account_change_parts n a Ha) as [E1 E2].
  destruct (storage_key_parts (account_change_key n a) l Hl) as [E3 E4].
  assert (k / 2 ^ 256 = account_change_key n a) as -> by exact E3. by rewrite E1, E2.
Qed.

Lemma log_key_parts n i : is_u64 i -> log_key n i / 2 ^ 64 = n.
Proof. unfold uint, log_key. intros Hi. rewrite Z.add_comm, Z.div_add, Z.div_small by lia. lia. Qed.

Lemma account_change_mono n a n' a' : is_address a -> is_address a' -> n < n' ->
  account_change_key n a < account_change_key n' a'.
Proof. unfold uint, account_change_key. lia. Qed.

Lemma storage_change_mono n a l n' a' l' : word l -> word l' ->
  account_change_key n a < account_change_key n' a' ->
  storage_change_key n a l < storage_change_key n' a' l'.
Proof. unfold uint, storage_change_key. lia. Qed.

Lemma log_key_mono n i n' i' : is_u64 i -> is_u64 i' -> n < n' -> log_key n i < log_key n' i'.
Proof. unfold uint, log_key. lia. Qed.

(** Reads of the current state. *)
Abbreviation account_now t a := (account_read t a None).
Abbreviation storage_now t a l := (storage_read t a l None).

Section specs.
Context {T : Type -> Type} {KV : Kv T}.

(** ** Tables *)

Lemma seek_storage a l (t : T Z) : seek_storage_key a l t = content t !! storage_key a l.
Proof.
  unfold seek_storage_key. destruct (content t !! storage_key a l) as [v|] eqn:E.
  - by rewrite (seek_exact _ _ _ E), Z.eqb_refl.
  - pose proof (kv_seek_content (storage_key a l) t) as Hs.
    destruct (kv_seek (storage_key a l) t) as [[k v]|]; [|done].
    destruct Hs as (Hk & _ & _). destruct (Z.eqb_spec k (storage_key a l)); [congruence|done].
Qed.

Definition upsert (k v : Z) (m : gmap Z Z) : gmap Z Z := if v =? 0 then delete k m else <[k := v]> m.

Lemma upsert_content a l v (t : T Z) :
  content (upsert_storage_value a l v t) = upsert (storage_key a l) v (content t).
Proof.
  unfold upsert_storage_value, upsert. rewrite seek_storage. cbv zeta.
  destruct (content t !! storage_key a l) eqn:E.
  - destruct (v =? 0); rewrite ?kv_put_content, kv_delete_content; [done|by rewrite insert_delete_eq].
  - destruct (v =? 0); [|by rewrite kv_put_content]. by rewrite delete_id.
Qed.

Lemma upsert_read k v m k' : default 0 (upsert k v m !! k') = if decide (k' = k) then v else default 0 (m !! k').
Proof.
  unfold upsert. destruct (Z.eqb_spec v 0) as [->|]; case_decide; subst;
    by rewrite ?lookup_delete_eq, ?lookup_delete_ne, ?lookup_insert_eq, ?lookup_insert_ne by done.
Qed.

(** The value of a slot in a table. *)
Definition slot_read (t : T Z) (a l : Z) : Z := default 0 (content t !! storage_key a l).

Lemma account_now_content t a : account_now t a = content (account_table t) !! a.
Proof. unfold account_read. simpl. apply kv_get_content. Qed.

Lemma storage_read_slot t a l : storage_now t a l = slot_read (storage_table t) a l.
Proof. unfold storage_read, slot_read. simpl. by rewrite seek_storage. Qed.

Lemma upsert_slot_read a l v t a' l' : word l -> word l' ->
  slot_read (upsert_storage_value a l v t) a' l' =
  if decide (a' = a /\ l' = l) then v else slot_read t a' l'.
Proof.
  intros H1 H2. unfold slot_read. rewrite upsert_content, upsert_read.
  destruct (decide (a' = a /\ l' = l)) as [[-> ->]|Hne]; [by rewrite decide_True|].
  rewrite decide_False; [done|]. intros E. apply storage_key_inj in E; naive_solver.
Qed.

Lemma take_slots_spec a (w : list (Z * Z)) :
  StronglySorted key_lt w -> (forall e, e ∈ w -> a * 2 ^ 256 <= e.1) ->
  forall l v, (l, v) ∈ take_slots a w <-> word l /\ (storage_key a l, v) ∈ w.
Proof.
  intros Hs Hge. induction Hs as [|[k i] w Hs IH Hlt]; intros l v; cbn [take_slots].
  { split; [by intros ?%elem_of_nil|by intros [_ ?%elem_of_nil]]. }
  pose proof (Hge (k, i) ltac:(apply list_elem_of_here)) as Hk. simpl in Hk.
  pose proof (Z.mod_pos_bound k (2 ^ 256) ltac:(lia)) as Hm.
  pose proof (Z.div_mod k (2 ^ 256) ltac:(lia)) as Hd.
  destruct (Z.eqb_spec (k / 2 ^ 256) a) as [E|Hne].
  - rewrite elem_of_cons, IH by (intros; apply Hge; by apply list_elem_of_further).
    rewrite elem_of_cons. pose proof (key_of_parts k) as Hparts. rewrite E in Hparts. split.
    + intros [[= -> ->]|[Hl Hin]]; [|by split; [|right]]. split; [exact Hm|]. left. by rewrite Hparts.
    + intros [Hl [[= E1 ->]|Hin]]; [|by right]. left. f_equal.
      by destruct (storage_key_parts a l Hl) as [_ <-]; rewrite E1.
  - split; [by intros ?%elem_of_nil|]. intros [Hl Hin].
    assert (a * 2 ^ 256 + 2 ^ 256 <= k) as Hbig.
    { assert (a < k / 2 ^ 256) by (apply Z.le_neq; split; [apply Z.div_le_lower_bound|]; lia). lia. }
    assert (k <= storage_key a l) as Hle.
    { apply elem_of_cons in Hin as [[= -> _]|Hin]; [lia|]. rewrite Forall_forall in Hlt.
      specialize (Hlt _ Hin). unfold key_lt in Hlt. simpl in Hlt. lia. }
    unfold uint, storage_key in *. lia.
Qed.

(** The slots of an account that a walk finds. *)
Lemma walked_slots a (t : T Z) l v :
  (l, v) ∈ take_slots a (walk (storage_key a 0) t) <-> word l /\ content t !! storage_key a l = Some v.
Proof.
  destruct (walk_spec (storage_key a 0) t) as [Hs Hel]. rewrite take_slots_spec; [|done|].
  - rewrite Hel. unfold uint, storage_key. intuition lia.
  - intros [k w] [_ Hk]%Hel. simpl. unfold storage_key in Hk. lia.
Qed.

Lemma delete_slots_content a l (t : T Z) k :
  content (delete_slots a l t) !! k =
  if bool_decide (k ∈ (fun s => storage_key a s.1) <$> l) then None else content t !! k.
Proof.
  unfold delete_slots. revert t. induction l as [|s l IH]; intros t; [done|]. cbn [foldl].
  rewrite IH, kv_delete_content, fmap_cons. case_bool_decide as H1.
  - rewrite bool_decide_true; [done|]. by apply list_elem_of_further.
  - destruct (decide (k = storage_key a s.1)) as [->|Hne].
    + rewrite lookup_delete_eq, bool_decide_true by apply list_elem_of_here. done.
    + rewrite lookup_delete_ne, bool_decide_false by (rewrite ?elem_of_cons; naive_solver). done.
Qed.

(** Writing the slots of an account. *)
Lemma upserts_read a (s : list (Z * Z)) (t : T Z) a' l : word l -> NoDup s.*1 ->
  (forall e, e ∈ s -> word e.1) ->
  slot_read (foldl (fun t s => upsert_storage_value a s.1 s.2 t) t s) a' l =
  if decide (a' = a) then default (slot_read t a' l) ((list_to_map s : gmap Z Z) !! l) else slot_read t a' l.
Proof.
  intros Hl. revert t. induction s as [|[k v] s IH]; intros t Hn Hw; [by case_decide|].
  cbn [foldl fst snd] in *. rewrite list_to_map_cons. apply NoDup_cons in Hn as [Hni Hn].
  rewrite IH by (try done; intros; apply Hw; by apply list_elem_of_further).
  pose proof (Hw (k, v) ltac:(apply list_elem_of_here)) as Hk. simpl in Hk.
  rewrite upsert_slot_read by done. destruct (decide (a' = a)) as [->|]; [|by rewrite decide_False by naive_solver].
  destruct (decide (l = k)) as [->|Hne].
  - rewrite lookup_insert_eq, decide_True by done. by rewrite not_elem_of_list_to_map_1.
  - rewrite lookup_insert_ne, decide_False by naive_solver. done.
Qed.

Lemma write_slots_read (t : T Z) a o a' l : word l -> (forall k v, slots o !! k = Some v -> word k) ->
  slot_read (write_slots t (a, o)) a' l =
  if decide (a' = a)
  then default (if erased o then 0 else slot_read t a' l) (slots o !! l) else slot_read t a' l.
Proof.
  intros Hl Hw. unfold write_slots. cbn [fst snd]. rewrite upserts_read; [|done|apply NoDup_fst_map_to_list|].
  2: { intros [k v] Hin%elem_of_map_to_list. by apply (Hw k v). }
  rewrite list_to_map_to_list.
  assert (slot_read (if erased o then delete_slots a (take_slots a (walk (storage_key a 0) t)) t else t) a' l =
    if decide (a' = a) then (if erased o then 0 else slot_read t a' l) else slot_read t a' l) as ->;
    [|by case_decide].
  destruct (erased o); [|by case_decide]. unfold slot_read. rewrite delete_slots_content.
  case_bool_decide as Hin.
  - apply list_elem_of_fmap in Hin as ([k v] & E & [Hk Hkv]%walked_slots). simpl in E.
    apply storage_key_inj in E as [-> ->]; [|done|done]. by rewrite decide_True.
  - case_decide as Ea; [|done]. subst a'. destruct (content t !! storage_key a l) as [v|] eqn:E; [|done].
    destruct Hin. apply list_elem_of_fmap. exists (l, v). split; [done|]. by apply walked_slots.
Qed.

(** What an overlay makes of a slot. *)
Definition overlaid (o : option OverlayStorage) (l old : Z) : Z :=
  match o with
  | Some o => default (if erased o then 0 else old) (slots o !! l)
  | None => old
  end.

Lemma write_storage_read (os : list (Address * OverlayStorage)) (t : T Z) a l : word l ->
  NoDup os.*1 -> (forall a o k v, (a, o) ∈ os -> slots o !! k = Some v -> word k) ->
  slot_read (foldl write_slots t os) a l =
  overlaid ((list_to_map os : gmap Z OverlayStorage) !! a) l (slot_read t a l).
Proof.
  intros Hl. revert t. induction os as [|[a' o] os IH]; intros t Hn Hw; [done|].
  cbn [foldl fst] in *. rewrite list_to_map_cons. apply NoDup_cons in Hn as [Hni Hn].
  rewrite IH; [|done|intros; eapply Hw; [by apply list_elem_of_further|done]].
  rewrite write_slots_read; [|done|intros; eapply Hw; [apply list_elem_of_here|done]].
  destruct (decide (a = a')) as [->|Hne].
  - rewrite lookup_insert_eq. by rewrite not_elem_of_list_to_map_1.
  - by rewrite lookup_insert_ne.
Qed.

Lemma write_accounts_content (l : list (Address * option Account)) (t : T Account) a : NoDup l.*1 ->
  content (foldl write_account t l) !! a =
  default (content t !! a) ((list_to_map l : gmap Z (option Account)) !! a).
Proof.
  revert t. induction l as [|[a' c] l IH]; intros t Hn; [done|].
  cbn [foldl fst] in *. rewrite list_to_map_cons. apply NoDup_cons in Hn as [Hni Hn]. rewrite IH by done.
  assert (content (write_account t (a', c)) !! a = if decide (a = a') then c else content t !! a) as ->.
  { unfold write_account. simpl. destruct c as [c|]; [|rewrite kv_get_content; destruct (content t !! a') eqn:E];
      rewrite ?kv_put_content, ?kv_delete_content; case_decide; subst;
      by rewrite ?lookup_insert_eq, ?lookup_insert_ne, ?lookup_delete_eq, ?lookup_delete_ne by done. }
  destruct (decide (a = a')) as [->|Hne].
  - rewrite lookup_insert_eq. by rewrite not_elem_of_list_to_map_1.
  - by rewrite lookup_insert_ne.
Qed.

Lemma puts_content {V} (l : list (Z * V)) (t : T V) k : NoDup l.*1 ->
  content (foldl (fun c e => kv_put e.1 e.2 c) t l) !! k =
  match (list_to_map l : gmap Z V) !! k with Some v => Some v | None => content t !! k end.
Proof.
  revert t. induction l as [|[k' v] l IH]; intros t Hn; [done|].
  cbn [foldl fst snd] in *. rewrite list_to_map_cons. apply NoDup_cons in Hn as [Hni Hn]. rewrite IH by done.
  rewrite kv_put_content. destruct (decide (k = k')) as [->|Hne].
  - rewrite !lookup_insert_eq. by rewrite not_elem_of_list_to_map_1.
  - by rewrite !lookup_insert_ne.
Qed.

(** Appending entries in order. *)
Lemma append_all_content {V} (l : list (Z * V)) (t : T V) : StronglySorted key_lt l ->
  (forall k v e, content t !! k = Some v -> e ∈ l -> k < e.1) ->
  exists t', append_all l t = Some t' /\ content t' = list_to_map l ∪ content t.
Proof.
  intros Hs. revert t. induction Hs as [|[k v] l Hs IH Hlt]; intros t Hbelow.
  { exists t. split; [done|]. by rewrite list_to_map_nil, (left_id_L ∅ union). }
  destruct (kv_append_content k v t) as (t1 & Ha & Hc).
  { intros k' v' Hk'. apply (Hbelow k' v' (k, v) Hk'). apply list_elem_of_here. }
  rewrite Forall_forall in Hlt. destruct (IH t1) as (t2 & Hall & Hc2).
  { intros k' v' e. rewrite Hc. intros [[<- _]|[_ Hk']]%lookup_insert_Some He.
    - apply (Hlt e He).
    - apply (Hbelow k' v'); [done|by apply list_elem_of_further]. }
  exists t2. cbn [append_all]. rewrite Ha. split; [done|]. rewrite Hc2, Hc, list_to_map_cons.
  rewrite <- insert_union_l, insert_union_r; [done|]. apply not_elem_of_list_to_map_1.
  intros ([k' v'] & E & Hin)%list_elem_of_fmap. specialize (Hlt _ Hin). unfold key_lt in Hlt. simpl in *. lia.
Qed.

(** ** Changes of a state that lead back to an earlier one *)

Section back.
Context {C X Y : Type} (look : C -> X -> option Y) (dom : X -> Prop) (ok : Y -> Y -> Prop).

(** The changes of blocks, the newest first, undo [f] to [g]; [ok] relates the value
    of a block and the one before it. *)
Fixpoint leads_back (changes : list (Z * C)) (f g : X -> Y) : Prop :=
  match changes with
  | [] => forall x, dom x -> f x = g x
  | (_, c) :: changes =>
      (forall x y, dom x -> look c x = Some y -> ok (f x) y) /\
      leads_back changes (fun x => default (f x) (look c x)) g
  end.

Lemma leads_back_ext l f f' g : (forall x, dom x -> f' x = f x) -> leads_back l f g -> leads_back l f' g.
Proof.
  revert f f'. induction l as [|[n c] l IH]; intros f f' E; simpl.
  - intros H x Hx. rewrite E by done. by apply H.
  - intros [Hok Hl]. split.
    + intros x y Hx Hy. rewrite E by done. by apply Hok.
    + eapply IH; [|exact Hl]. intros x Hx. simpl. by rewrite E.
Qed.

(** In block [n], which began in the state [s], the state is [f]. *)
Record tracked (changes : gmap Z C) (n : Z) (f s g : X -> Y) : Prop := {
  tr_block x : dom x -> default (f x) (changes !! n ≫= fun c => look c x) = s x;
  tr_ok c x y : dom x -> changes !! n = Some c -> look c x = Some y -> ok (f x) y;
  tr_past : leads_back (rev (in_order (delete n changes))) s g;
}.

Lemma tracked_set changes n f f' s g c : tracked changes n f s g ->
  (forall x, dom x -> default (f' x) (look c x) = s x) ->
  (forall x y, dom x -> look c x = Some y -> ok (f' x) y) ->
  tracked (<[n := c]> changes) n f' s g.
Proof.
  intros [_ _ Hpast] Hc Hok. split.
  - intros x Hx. rewrite lookup_insert_eq. by apply Hc.
  - intros c' x y Hx. rewrite lookup_insert_eq. intros [= <-]. by apply Hok.
  - by rewrite delete_insert_eq.
Qed.

Lemma tracked_done changes n f s g : (forall n' c, changes !! n' = Some c -> n' <= n) ->
  tracked changes n f s g -> leads_back (rev (in_order changes)) f g.
Proof.
  intros Hle [Hblock Hok Hpast]. destruct (changes !! n) as [c|] eqn:E.
  - rewrite <- (insert_delete_id changes n c E), in_order_insert_last, rev_app_distr.
    + simpl. split; [intros x y Hx; by apply (Hok c)|]. eapply leads_back_ext; [|exact Hpast].
      intros x Hx. by rewrite <- Hblock.
    + intros n' c' [Hne Hn']%lookup_delete_Some. specialize (Hle n' c' Hn'). lia.
  - rewrite delete_id in Hpast by done. eapply leads_back_ext; [|exact Hpast]. intros x Hx. by rewrite <- Hblock.
Qed.

Lemma tracked_begin changes n n' f s g : (forall n' c, changes !! n' = Some c -> n' <= n) -> n < n' ->
  tracked changes n f s g -> tracked changes n' f f g.
Proof.
  intros Hle Hn Ht. assert (changes !! n' = None) as E.
  { destruct (changes !! n') eqn:E; [|done]. specialize (Hle _ _ E). lia. }
  split; [by rewrite E|by rewrite E|]. rewrite delete_id by done. by eapply tracked_done.
Qed.

End back.

(** ** The use of a buffer *)

Section use.
Context (to : Z) (t0 : StateTables T).

Definition live (b : Buffer T) : Prop := to < buf_block_number b /\ prune_from b <= buf_block_number b.

(** The steps of a client that executes blocks after [to], with the buffer as it was
    at the beginning of the block: the initial values it passes are those.  An account
    that did not exist is changed to one that does, and the storage of an account is
    erased before it is changed. *)
Inductive step : Buffer T * Buffer T -> Buffer T * Buffer T -> Prop :=
  | step_begin b s n : to < n -> buf_block_number b < n -> prune_from b <= n ->
      step (b, s) (buf_begin_block n b, buf_begin_block n b)
  | step_account b s a c : live b -> is_address a ->
      (buf_read_account s a = None -> c <> None) ->
      step (b, s) (buf_update_account a (buf_read_account s a) c b, s)
  | step_storage b s a l v : live b -> is_address a -> word l ->
      step (b, s) (buf_update_storage a l (buf_read_storage s a l) v b, s)
  | step_erase b s a : live b -> is_address a ->
      (forall l, word l -> buf_read_storage b a l = buf_read_storage s a l) ->
      step (b, s) (buf_erase_storage a b, s)
  | step_code b s h c : step (b, s) (buf_update_code h c b, s)
  | step_receipts b s rs : live b -> Z.of_nat (length rs) < 2 ^ 64 ->
      step (b, s) (insert_receipts (buf_block_number b) rs b, s).

Definition account_ok (current initial : option Account) : Prop := initial = None -> current <> None.

Definition look_account (c : gmap Address (option Account)) (a : Address) : option (option Account) := c !! a.
Definition look_slot (c : gmap Address (gmap Z Z)) (x : Address * Z) : option Z := default ∅ (c !! x.1) !! x.2.

Abbreviation slots_view b := (fun x : Address * Z => buf_read_storage b x.1 x.2).

Definition accounts_tracked (b s : Buffer T) : Prop :=
  tracked look_account (fun _ => True) account_ok (buf_account_changes b) (buf_block_number b)
    (buf_read_account b) (buf_read_account s) (fun a => account_now t0 a).

Definition storage_tracked (b s : Buffer T) : Prop :=
  tracked look_slot (fun x => word x.2) (fun _ _ => True) (buf_storage_changes b) (buf_block_number b)
    (slots_view b) (slots_view s) (fun x => storage_now t0 x.1 x.2).

(** The keys of the buffer are in their ranges. *)
Record in_range (b : Buffer T) : Prop := {
  ir_account n c a y : buf_account_changes b !! n = Some c -> c !! a = Some y -> is_address a;
  ir_slot n c a d l y : buf_storage_changes b !! n = Some c -> c !! a = Some d -> d !! l = Some y ->
    is_address a /\ word l;
  ir_log n c i y : buf_logs b !! n = Some c -> c !! i = Some y -> is_u64 i;
  ir_overlay a o l y : buf_storage b !! a = Some o -> slots o !! l = Some y -> word l;
}.

(** The recorded blocks come after [to]. *)
Record recent (b : Buffer T) : Prop := {
  re_account n c : buf_account_changes b !! n = Some c -> to < n <= buf_block_number b;
  re_storage n c : buf_storage_changes b !! n = Some c -> to < n <= buf_block_number b;
  re_logs n c : buf_logs b !! n = Some c -> to < n <= buf_block_number b;
}.

Record use_inv (bs : Buffer T * Buffer T) : Prop := {
  ui_txn : txn bs.1 = t0 /\ historical_block bs.1 = None;
  ui_range : in_range bs.1;
  ui_recent : recent bs.1;
  ui_accounts : accounts_tracked bs.1 bs.2;
  ui_storage : storage_tracked bs.1 bs.2;
}.

(** *** Ranges *)

Definition ranged (b : Buffer T) : Prop := in_range b /\ recent b.

Lemma ranged_begin b n : ranged b -> buf_block_number b < n -> ranged (buf_begin_block n b).
Proof.
  intros [[] []] Hn. split; [by split|]. split; simpl; intros n' c Hc.
  - specialize (re_account0 n' c Hc). lia.
  - specialize (re_storage0 n' c Hc). lia.
  - specialize (re_logs0 n' c Hc). lia.
Qed.

Lemma ranged_account b a i c : ranged b -> live b -> is_address a -> ranged (buf_update_account a i c b).
Proof.
  intros [Hr He] [Hto Hprune] Haddr. unfold buf_update_account. cbv zeta.
  destruct (bool_decide (c = i) && _ && _); [done|]. apply Z.leb_le in Hprune. rewrite Hprune. split.
  - destruct Hr. split; [|done|done|done]. simpl. intros n c' a' y.
    intros [[<- <-]|[_ Hn]]%lookup_insert_Some; [|by eapply ir_account0].
    intros [[<- _]|[_ Hy]]%lookup_insert_Some; [done|].
    destruct (buf_account_changes b !! buf_block_number b) as [c0|] eqn:E; [by eapply ir_account0|done].
  - destruct He. split; [|done|done]. simpl. intros n c'.
    intros [[<- _]|[_ Hn]]%lookup_insert_Some; [lia|by eapply re_account0].
Qed.

Lemma ranged_slots b a c (st : gmap Address OverlayStorage) changed : ranged b -> live b -> is_address a ->
  (forall l y, c !! l = Some y -> word l) -> (forall a' o l y, st !! a' = Some o -> slots o !! l = Some y -> word l) ->
  ranged (with_state b (buf_accounts b) st (buf_account_changes b) (set_changes_of b a c) changed).
Proof.
  intros [Hr He] [Hto _] Haddr Hwords Hst. split.
  - destruct Hr. split; [done| |done|done]. simpl. unfold set_changes_of. intros n c' a' d l y.
    intros [[<- <-]|[_ Hn]]%lookup_insert_Some; [|by eapply ir_slot0].
    intros [[<- <-]|[_ Hd]]%lookup_insert_Some Hy; [split; [done|by eapply Hwords]|].
    destruct (buf_storage_changes b !! buf_block_number b) as [c0|] eqn:E; [by eapply ir_slot0|done].
  - destruct He. split; [done| |done]. simpl. unfold set_changes_of. intros n c'.
    intros [[<- _]|[_ Hn]]%lookup_insert_Some; [lia|by eapply re_storage0].
Qed.

Lemma use_begin b s n : use_inv (b, s) -> to < n -> buf_block_number b < n ->
  use_inv (buf_begin_block n b, buf_begin_block n b).
Proof.
  intros [Htx Hr He Ha Hs] Hto Hn. simpl in *. destruct (ranged_begin b n (conj Hr He) Hn). split; [done|done|done| |].
  - eapply tracked_begin; [|exact Hn|exact Ha]. intros n' c Hc. by destruct (re_account b He n' c Hc).
  - eapply tracked_begin; [|exact Hn|exact Hs]. intros n' c Hc. by destruct (re_storage b He n' c Hc).
Qed.

Lemma tracked_block_lookup {C X Y} (look : C -> X -> option Y) dom ok (empty : C) changes n f s g x :
  (forall x, look empty x = None) -> tracked look dom ok changes n f s g -> dom x ->
  default (f x) (look (default empty (changes !! n)) x) = s x.
Proof.
  intros He Ht Hx. rewrite <- (tr_block _ _ _ _ _ _ _ _ Ht x Hx). destruct (changes !! n); [done|].
  simpl. by rewrite He.
Qed.

Lemma block_ok {C X Y} (look : C -> X -> option Y) dom ok (empty : C) changes n f s g x y :
  (forall x, look empty x = None) -> tracked look dom ok changes n f s g -> dom x ->
  look (default empty (changes !! n)) x = Some y -> ok (f x) y.
Proof.
  intros He Ht Hx. destruct (changes !! n) as [c|] eqn:E; simpl; [|by rewrite He].
  by apply (tr_ok _ _ _ _ _ _ _ _ Ht).
Qed.

Lemma read_updated b a i c a' :
  buf_read_account (buf_update_account a i c b) a' =
  if decide (a' = a /\ c <> i) then c else buf_read_account b a'.
Proof.
  unfold buf_update_account. cbv zeta. case_bool_decide as Heq.
  - rewrite decide_False by naive_solver. by repeat case_match.
  - cbn [andb]. unfold buf_read_account. simpl. destruct (decide (a' = a)) as [->|Hne].
    + by rewrite lookup_insert_eq, decide_True.
    + by rewrite lookup_insert_ne, decide_False by naive_solver.
Qed.

Lemma use_account b s a c : use_inv (b, s) -> live b -> is_address a ->
  (buf_read_account s a = None -> c <> None) ->
  use_inv (buf_update_account a (buf_read_account s a) c b, s).
Proof.
  intros [Htx Hr He Ha Hs] [Hto Hprune] Haddr Hc. simpl in *.
  set (i := buf_read_account s a) in *. destruct (ranged_account b a i c (conj Hr He)) as [Hr' He']; [done|done|].
  pose proof (fun a' => read_updated b a i c a') as Hread. unfold buf_update_account in *. cbv zeta in *.
  destruct (bool_decide (c = i) && _ && _); [by split|].
  apply Z.leb_le in Hprune. rewrite Hprune in *. split; [done|done|done| |exact Hs].
  - unfold accounts_tracked. cbn [buf_account_changes with_state buf_block_number].
    eapply tracked_set; [exact Ha| |].
    + intros a' _. unfold look_account. rewrite Hread. destruct (decide (a' = a)) as [->|Hne].
      * by rewrite lookup_insert_eq.
      * rewrite lookup_insert_ne, decide_False by naive_solver.
        by apply (tracked_block_lookup look_account (fun _ => True) account_ok ∅ _ _ _ _ _ a' lookup_empty Ha).
    + intros a' y _. unfold look_account. rewrite Hread. destruct (decide (a' = a)) as [->|Hne].
      * rewrite lookup_insert_eq. intros [= <-]. destruct (decide (a = a /\ c <> i)) as [[_ Hne]|Heq].
        { exact Hc. }
        assert (c = i) as <- by (destruct (decide (c = i)); naive_solver). intros E. by destruct (Hc E).
      * rewrite lookup_insert_ne, decide_False by naive_solver.
        by apply (block_ok look_account (fun _ => True) account_ok ∅ _ _ _ _ _ a' y lookup_empty Ha).
Qed.

Lemma changes_of_word b a l y : in_range b -> changes_of b a !! l = Some y -> word l.
Proof.
  unfold changes_of. intros Hr. destruct (buf_storage_changes b !! buf_block_number b) as [c|] eqn:E; simpl; [|done].
  destruct (c !! a) as [d|] eqn:E'; simpl; [|done]. intros H. by destruct (ir_slot b Hr _ _ _ _ _ _ E E' H).
Qed.

Lemma ranged_storage b a l i v : ranged b -> live b -> is_address a -> word l -> ranged (buf_update_storage a l i v b).
Proof.
  intros Hr Hlive Haddr Hl. unfold buf_update_storage. destruct (Z.eqb_spec v i) as [|Hne]; [done|]. cbv zeta.
  rewrite (proj2 (Z.leb_le _ _) (proj2 Hlive)). apply ranged_slots; [done|done|done| |]; destruct Hr as [Hr _].
  - intros k y [[<- _]|[_ Hk]]%lookup_insert_Some; [done|by eapply changes_of_word].
  - intros a' o' k y [[<- <-]|[_ Ho']]%lookup_insert_Some; [|by apply (ir_overlay b Hr a')].
    simpl. intros [[<- _]|[_ Hk]]%lookup_insert_Some; [done|]. revert Hk.
    destruct (buf_storage b !! a) eqn:E; [|done]. by apply (ir_overlay b Hr a).
Qed.

(** Recording changes of the slots of an account. *)
Lemma use_slots b s a c (st : gmap Address OverlayStorage) changed :
  let b' := with_state b (buf_accounts b) st (buf_account_changes b) (set_changes_of b a c) changed in
  use_inv (b, s) -> live b -> is_address a ->
  (forall a' l, word l -> a' <> a -> buf_read_storage b' a' l = buf_read_storage b a' l) ->
  (forall l, word l -> default (buf_read_storage b' a l) (c !! l) = buf_read_storage s a l) ->
  ranged b' -> use_inv (b', s).
Proof.
  intros b' [Htx _ _ Ha Hs] Hlive Haddr Hother Hown [Hr' He']. simpl in *. split; [done|done|done|exact Ha|].
  - unfold storage_tracked. simpl. unfold set_changes_of. eapply tracked_set; [exact Hs| |done].
    intros [a' l] Hl. unfold look_slot. simpl in *. destruct (decide (a' = a)) as [->|Hne].
    + rewrite lookup_insert_eq. by apply Hown.
    + rewrite lookup_insert_ne, Hother by done.
      by apply (tracked_block_lookup look_slot _ _ ∅ _ _ _ _ _ (a', l) ltac:(done) Hs).
Qed.

Lemma changes_of_start b s a l : storage_tracked b s -> word l ->
  default (buf_read_storage b a l) (changes_of b a !! l) = buf_read_storage s a l.
Proof. intros Hs Hl. by apply (tracked_block_lookup look_slot _ _ ∅ _ _ _ _ _ (a, l) ltac:(done) Hs). Qed.

Lemma use_storage b s a l v : use_inv (b, s) -> live b -> is_address a -> word l ->
  use_inv (buf_update_storage a l (buf_read_storage s a l) v b, s).
Proof.
  intros Hi Hlive Haddr Hl. pose proof Hi as [_ Hr He _ Hs]. simpl in Hr, He, Hs.
  pose proof (ranged_storage b a l (buf_read_storage s a l) v (conj Hr He) Hlive Haddr Hl) as Hrange.
  unfold buf_update_storage in *. destruct (Z.eqb_spec v (buf_read_storage s a l)) as [|Hne]; [done|]. cbv zeta in *.
  rewrite (proj2 (Z.leb_le _ _) (proj2 Hlive)) in *. apply use_slots; [done|done|done| | |done].
  - intros a' l' _ Hne'. unfold buf_read_storage. simpl. by rewrite lookup_insert_ne.
  - intros l' Hl'. destruct (decide (l' = l)) as [->|Hnl]; [by rewrite lookup_insert_eq|].
    rewrite lookup_insert_ne by done. rewrite <- (changes_of_start b s a l' Hs Hl'). f_equal.
    unfold buf_read_storage. simpl. rewrite lookup_insert_eq. simpl. rewrite lookup_insert_ne by done.
    by destruct (buf_storage b !! a).
Qed.

Lemma or_insert_all l c k : foldl or_insert c l !! k =
  match c !! k with Some v => Some v | None => (list_to_map l : gmap Z Z) !! k end.
Proof.
  revert c. induction l as [|[k' v] l IH]; intros c; [simpl; destruct (c !! k); [done|by rewrite lookup_empty]|].
  cbn [foldl]. rewrite IH, list_to_map_cons. unfold or_insert. simpl.
  destruct (decide (k = k')) as [->|Hne].
  - destruct (c !! k') eqn:E; [by rewrite E|].
    by rewrite !lookup_insert_eq.
  - rewrite (lookup_insert_ne (list_to_map l)) by done. destruct (c !! k') eqn:E; [done|].
    by rewrite lookup_insert_ne.
Qed.

Lemma database_slots_read t a l : word l ->
  default 0 ((list_to_map (database_slots t a) : gmap Z Z) !! l) = storage_now t a l.
Proof.
  intros Hl. rewrite storage_read_slot. unfold slot_read, database_slots.
  destruct (list_to_map _ !! l) as [v|] eqn:E.
  - apply elem_of_list_to_map_2, walked_slots in E as [_ ->]. done.
  - apply not_elem_of_list_to_map_2 in E. destruct (content _ !! _) as [v|] eqn:E'; [|done].
    destruct E. apply list_elem_of_fmap. exists (l, v). split; [done|]. by apply walked_slots.
Qed.

Lemma ranged_erase b a : ranged b -> live b -> is_address a -> ranged (buf_erase_storage a b).
Proof.
  intros Hrange Hlive Haddr. pose proof Hrange as [Hr _]. unfold buf_erase_storage.
  destruct (match buf_storage b !! a with Some o => (o, false) | None => _ end) as [o fresh] eqn:Eo.
  assert (forall k y, slots o !! k = Some y -> word k) as Ho.
  { intros k y. destruct (buf_storage b !! a) eqn:E; simplify_eq; [by apply (ir_overlay b Hr a)|done]. }
  cbv zeta. apply ranged_slots; [done|done|done| |].
  - intros k y. destruct (_ || _).
    + rewrite or_insert_all. destruct ((slots o ∪ changes_of b a) !! k) as [w|] eqn:E.
      * intros _. apply lookup_union_Some_raw in E as [E|[_ E]]; [by eapply Ho|by eapply changes_of_word].
      * intros E'%elem_of_list_to_map_2. unfold database_slots in E'. by apply walked_slots in E' as [? _].
    + intros [E|[_ E]]%lookup_union_Some_raw; [by eapply Ho|by eapply changes_of_word].
  - intros a' o' k y [[<- <-]|[_ Ho']]%lookup_insert_Some; [done|by apply (ir_overlay b Hr a')].
Qed.

Lemma use_erase b s a : use_inv (b, s) -> live b -> is_address a ->
  (forall l, word l -> buf_read_storage b a l = buf_read_storage s a l) ->
  use_inv (buf_erase_storage a b, s).
Proof.
  intros Hi Hlive Haddr Hsame. pose proof Hi as [[_ Hnow] Hr He _ Hs]. simpl in Hnow, Hr, He, Hs.
  pose proof (ranged_erase b a (conj Hr He) Hlive Haddr) as Hrange. unfold buf_erase_storage in *.
  destruct (match buf_storage b !! a with Some o => (o, false) | None => _ end) as [o fresh] eqn:Eo.
  cbv zeta in *. apply use_slots; [done|done|done| | |done].
  - intros a' l' _ Hne. unfold buf_read_storage. simpl. by rewrite lookup_insert_ne.
  - intros l Hl. rewrite <- Hsame by done.
    assert (forall f c, buf_read_storage (with_state b (buf_accounts b)
      (<[a := {| erased := true; slots := ∅ |}]> (buf_storage b)) (buf_account_changes b) f c) a l = 0) as ->.
    { intros f c. unfold buf_read_storage. simpl. rewrite lookup_insert_eq. simpl. by rewrite lookup_empty. }
    pose proof (changes_of_start b s a l Hs Hl) as Hstart. rewrite <- Hsame in Hstart by done.
    assert ((slots o ∪ changes_of b a) !! l =
      match slots o !! l with Some v => Some v | None => changes_of b a !! l end) as Hun.
    { rewrite lookup_union. by destruct (slots o !! l), (changes_of b a !! l). }
    destruct (slots o !! l) as [v|] eqn:Esl.
    + assert (buf_read_storage b a l = v) as ->.
      { unfold buf_read_storage. destruct (buf_storage b !! a); simplify_eq. by rewrite Esl. }
      destruct (_ || _); [by rewrite or_insert_all, Hun|by rewrite Hun].
    + destruct (changes_of b a !! l) as [y|] eqn:Ech.
      { simpl in Hstart. destruct (_ || _); [by rewrite or_insert_all, Hun|by rewrite Hun]. }
      assert (buf_read_storage b a l = if fresh || negb (erased o) then storage_now (txn b) a l else 0) as ->.
      { unfold buf_read_storage. rewrite Hnow. destruct (buf_storage b !! a); simplify_eq; [|done]. rewrite Esl.
        by destruct (erased _). }
      destruct (_ || _); [|by rewrite Hun]. rewrite or_insert_all, Hun. by apply database_slots_read.
Qed.

Lemma insert_logs_lookup n i rs (l : gmap Z (gmap Z (list Log))) m c j y :
  insert_logs n i rs l !! m = Some c -> c !! j = Some y ->
  (exists c', l !! m = Some c' /\ c' !! j = Some y) \/ (m = n /\ i <= j < i + Z.of_nat (length rs)).
Proof.
  revert i l. induction rs as [|r rs IH]; intros i l Hc Hy; cbn [insert_logs] in Hc; [left; by exists c|].
  simpl length. destruct (IH (i + 1) _ Hc Hy) as [(c' & Hc' & Hy')|[-> Hj]]; [|right; lia].
  apply lookup_insert_Some in Hc' as [[<- <-]|[_ Hc']]; [|left; by exists c'].
  apply lookup_insert_Some in Hy' as [[<- _]|[_ Hy']]; [right; lia|left].
  destruct (l !! n) as [c''|]; [by exists c''|done].
Qed.

Lemma insert_logs_blocks n i rs (l : gmap Z (gmap Z (list Log))) m c :
  insert_logs n i rs l !! m = Some c -> m = n \/ is_Some (l !! m).
Proof.
  revert i l. induction rs as [|r rs IH]; intros i l Hc; cbn [insert_logs] in Hc; [right; by eexists|].
  destruct (IH _ _ Hc) as [->|[c' Hc']]; [by left|].
  apply lookup_insert_Some in Hc' as [[<- _]|[_ Hc']]; [by left|right; by eexists].
Qed.

Lemma ranged_receipts b rs : ranged b -> live b -> Z.of_nat (length rs) < 2 ^ 64 ->
  ranged (insert_receipts (buf_block_number b) rs b).
Proof.
  intros [Hr He] [Hto _] Hlen. split.
  - destruct Hr. split; [done|done| |done]. simpl. intros n c i y Hc Hy.
    destruct (insert_logs_lookup _ _ _ _ _ _ _ _ Hc Hy) as [(c' & Hc' & Hy')|[_ Hi]]; [by eapply ir_log0|].
    unfold uint. lia.
  - destruct He. split; [done|done|]. simpl. intros n c Hc.
    destruct (insert_logs_blocks _ _ _ _ _ _ Hc) as [->|[c' Hc']]; [lia|by eapply re_logs0].
Qed.

Lemma use_receipts b s rs : use_inv (b, s) -> live b -> Z.of_nat (length rs) < 2 ^ 64 ->
  use_inv (insert_receipts (buf_block_number b) rs b, s).
Proof.
  intros [Htx Hr He Ha Hs] Hl Hlen. simpl in *. by destruct (ranged_receipts b rs (conj Hr He) Hl Hlen).
Qed.

Lemma use_step bs bs' : step bs bs' -> use_inv bs -> use_inv bs'.
Proof.
  intros [] Hi.
  - by eapply use_begin.
  - by apply use_account.
  - by apply use_storage.
  - by apply use_erase.
  - destruct Hi as [? [] [] ? ?]. by split; [|split|split| |].
  - by apply use_receipts.
Qed.

Lemma use_new p : use_inv (new t0 p None, new t0 p None).
Proof.
  split; [done|by split|by split| |]; (split; [done|done|]);
    cbn [buf_account_changes buf_storage_changes new fst]; rewrite delete_empty, in_order_empty; by intros x Hx.
Qed.

Lemma use_reach p b s : rtc step (new t0 p None, new t0 p None) (b, s) -> use_inv (b, s).
Proof.
  assert (forall x y, rtc step x y -> use_inv x -> use_inv y) as Hpres.
  { induction 1; eauto using use_step. }
  intros Hr. eapply Hpres; [exact Hr|apply use_new].
Qed.

(** ** Writing *)

(** The tables hold the history of blocks up to [to]. *)
Record past (t : StateTables T) : Prop := {
  pa_account k y : content (account_change_set t) !! k = Some y -> k / 2 ^ 160 <= to;
  pa_storage k y : content (storage_change_set t) !! k = Some y -> k / 2 ^ 256 / 2 ^ 160 <= to;
  pa_log k y : content (log_table t) !! k = Some y -> k / 2 ^ 64 <= to;
  pa_trace k y : content (state_call_traces t) !! k = Some y -> trace_block k <= to;
}.

Lemma elem_of_entries {V} key (c : gmap Z (gmap Z V)) k y : (k, y) ∈ entries key c <->
  exists n d a, c !! n = Some d /\ d !! a = Some y /\ k = key n a.
Proof.
  unfold entries. rewrite elem_of_concat. split.
  - intros (l & Hl & ([n d] & -> & Hn%elem_of_in_order)%list_elem_of_fmap).
    apply list_elem_of_fmap in Hl as ([a y'] & [= -> ->] & Ha%elem_of_in_order). by exists n, d, a.
  - intros (n & d & a & Hn & Ha & ->). eexists. split; [|apply list_elem_of_fmap; exists (n, d);
      split; [done|by apply elem_of_in_order]].
    apply list_elem_of_fmap. exists (a, y). split; [done|by apply elem_of_in_order].
Qed.

Lemma elem_of_storage_entries c k y : (k, y) ∈ storage_entries c <->
  exists n d a e l, c !! n = Some d /\ d !! a = Some e /\ e !! l = Some y /\ k = storage_change_key n a l.
Proof.
  change (storage_entries c) with
    (concat ((fun b : Z * gmap Z (gmap Z Z) => entries (storage_change_key b.1) b.2) <$> in_order c)).
  rewrite elem_of_concat. split.
  - intros (l & Hl & ([n d] & -> & Hn%elem_of_in_order)%list_elem_of_fmap).
    apply elem_of_entries in Hl as (a & e & x & ? & ? & ->). by exists n, d, a, e, x.
  - intros (n & d & a & e & x & Hn & Ha & Hx & ->). exists (entries (storage_change_key n) d). split.
    + apply elem_of_entries. by exists a, e, x.
    + apply list_elem_of_fmap. exists (n, d). split; [done|by apply elem_of_in_order].
Qed.

Lemma entries_sorted {V} key (c : gmap Z (gmap Z V)) :
  (forall n d a n' d' a' y y', c !! n = Some d -> d !! a = Some y -> c !! n' = Some d' -> d' !! a' = Some y' ->
    n < n' \/ n = n' /\ a < a' -> key n a < key n' a') ->
  StronglySorted key_lt (entries key c).
Proof.
  intros Hk. apply sorted_concat; [apply in_order_sorted| |].
  - intros [n d] Hn%elem_of_in_order. apply sorted_fmap; [|apply in_order_sorted].
    intros [a y] [a' y'] Ha%elem_of_in_order Ha'%elem_of_in_order Hlt. simpl in *. eapply Hk; [..|by right]; done.
  - intros [n d] [n' d'] x y Hn%elem_of_in_order Hn'%elem_of_in_order Hlt.
    intros ([a z] & -> & Ha%elem_of_in_order)%list_elem_of_fmap ([a' z'] & -> & Ha'%elem_of_in_order)%list_elem_of_fmap.
    simpl in *. eapply Hk; [..|by left]; done.
Qed.

Definition slots_in_range (d : gmap Address (gmap Z Z)) : Prop :=
  forall a e l y, d !! a = Some e -> e !! l = Some y -> is_address a /\ word l.

Lemma block_entries_sorted n d : slots_in_range d -> StronglySorted key_lt (entries (storage_change_key n) d).
Proof.
  intros Hd. apply entries_sorted. intros a e l a' e' l' y y' Ha Hl Ha' Hl' Hlt.
  destruct (Hd _ _ _ _ Ha Hl), (Hd _ _ _ _ Ha' Hl').
  destruct Hlt as [Hlt|[<- Hlt]]; [|unfold storage_change_key; lia].
  apply storage_change_mono; [done|done|]. unfold account_change_key. lia.
Qed.

Lemma account_entries_sorted b : in_range b -> StronglySorted key_lt (account_entries (buf_account_changes b)).
Proof.
  intros Hr. apply entries_sorted. intros n d a n' d' a' y y' Hn Ha Hn' Ha' [Hlt|[<- Hlt]].
  - apply account_change_mono; [exact (ir_account b Hr _ _ _ _ Hn Ha)|exact (ir_account b Hr _ _ _ _ Hn' Ha')|done].
  - unfold account_change_key. lia.
Qed.

Lemma log_entries_sorted b : in_range b -> StronglySorted key_lt (log_entries (buf_logs b)).
Proof.
  intros Hr. apply entries_sorted. intros n d a n' d' a' y y' Hn Ha Hn' Ha' [Hlt|[<- Hlt]].
  - apply log_key_mono; [exact (ir_log b Hr _ _ _ _ Hn Ha)|exact (ir_log b Hr _ _ _ _ Hn' Ha')|done].
  - unfold log_key. lia.
Qed.

Lemma storage_entries_sorted b : in_range b -> StronglySorted key_lt (storage_entries (buf_storage_changes b)).
Proof.
  intros Hr. apply (sorted_concat (fun b : Z * gmap Z (gmap Z Z) => entries (storage_change_key b.1) b.2));
    [apply in_order_sorted| |].
  - intros [n d] Hn%elem_of_in_order. apply block_entries_sorted. intros a e l y. by apply (ir_slot b Hr n).
  - intros [n d] [n' d'] x x' Hn%elem_of_in_order Hn'%elem_of_in_order Hlt.
    destruct x as [k y], x' as [k' y']. intros (a & e & l & Ha & Hl & ->)%elem_of_entries.
    intros (a' & e' & l' & Ha' & Hl' & ->)%elem_of_entries. simpl in *.
    destruct (ir_slot b Hr _ _ _ _ _ _ Hn Ha Hl), (ir_slot b Hr _ _ _ _ _ _ Hn' Ha' Hl').
    apply storage_change_mono; [done|done|]. by apply account_change_mono.
Qed.

(** The tables [t] hold what the buffer answers, and its changes on top of the history. *)
Record written (b : Buffer T) (t : StateTables T) : Prop := {
  wr_account a : account_now t a = buf_read_account b a;
  wr_storage a l : word l -> storage_now t a l = buf_read_storage b a l;
  wr_code h : default [] (content (code_table t) !! h) = buf_read_code b h;
  wr_account_changes : content (account_change_set t) =
    list_to_map (account_entries (buf_account_changes b)) ∪ content (account_change_set t0);
  wr_storage_changes : content (storage_change_set t) =
    list_to_map (storage_entries (buf_storage_changes b)) ∪ content (storage_change_set t0);
  wr_logs : content (log_table t) = list_to_map (log_entries (buf_logs b)) ∪ content (log_table t0);
  wr_traces : state_call_traces t = state_call_traces t0;
}.

Lemma below_div d k k' : 0 < d -> k / d < k' / d -> k < k'.
Proof. intros Hd H. destruct (Z.lt_ge_cases k k') as [|Hge]; [done|]. pose proof (Z.div_le_mono k' k d Hd Hge). lia. Qed.

(** The changes are those of blocks after [to]. *)
Lemma account_newer b e : in_range b -> recent b -> e ∈ account_entries (buf_account_changes b) ->
  to < e.1 / 2 ^ 160.
Proof.
  intros Hr He. destruct e as [k y]. intros (n & d & a & Hn & Ha & ->)%elem_of_entries. simpl.
  rewrite (proj1 (account_change_parts n a (ir_account b Hr _ _ _ _ Hn Ha))). by destruct (re_account b He n d Hn).
Qed.

Lemma storage_newer b e : in_range b -> recent b -> e ∈ storage_entries (buf_storage_changes b) ->
  to < e.1 / 2 ^ 256 / 2 ^ 160.
Proof.
  intros Hr He. destruct e as [k y]. intros (n & d & a & c & l & Hn & Ha & Hl & ->)%elem_of_storage_entries. simpl.
  destruct (ir_slot b Hr _ _ _ _ _ _ Hn Ha Hl) as [Haddr Hw].
  rewrite (proj1 (storage_change_parts n a l Haddr Hw)). by destruct (re_storage b He n d Hn).
Qed.

Lemma log_newer b e : in_range b -> recent b -> e ∈ log_entries (buf_logs b) -> to < e.1 / 2 ^ 64.
Proof.
  intros Hr He. destruct e as [k y]. intros (n & d & a & Hn & Ha & ->)%elem_of_entries. simpl.
  rewrite (log_key_parts n a (ir_log b Hr _ _ _ _ Hn Ha)). by destruct (re_logs b He n d Hn).
Qed.

Lemma account_above b k y e : in_range b -> recent b -> past t0 ->
  content (account_change_set t0) !! k = Some y -> e ∈ account_entries (buf_account_changes b) -> k < e.1.
Proof.
  intros Hr He Hp Hk Hin. apply (below_div (2 ^ 160)); [lia|].
  specialize (pa_account t0 Hp k y Hk). specialize (account_newer b e Hr He Hin). lia.
Qed.

Lemma storage_above b k y e : in_range b -> recent b -> past t0 ->
  content (storage_change_set t0) !! k = Some y -> e ∈ storage_entries (buf_storage_changes b) -> k < e.1.
Proof.
  intros Hr He Hp Hk Hin. apply (below_div (2 ^ 256)); [lia|]. apply (below_div (2 ^ 160)); [lia|].
  specialize (pa_storage t0 Hp k y Hk). specialize (storage_newer b e Hr He Hin). lia.
Qed.

Lemma log_above b k y e : in_range b -> recent b -> past t0 ->
  content (log_table t0) !! k = Some y -> e ∈ log_entries (buf_logs b) -> k < e.1.
Proof.
  intros Hr He Hp Hk Hin. apply (below_div (2 ^ 64)); [lia|].
  specialize (pa_log t0 Hp k y Hk). specialize (log_newer b e Hr He Hin). lia.
Qed.

Lemma write_spec b : txn b = t0 -> historical_block b = None -> in_range b -> recent b -> past t0 ->
  exists t, write_to_db b = Some t /\ written b t.
Proof.
  intros Htx Hnow Hr He Hp.
  destruct (append_all_content (account_entries (buf_account_changes b)) (account_change_set t0))
    as (ac & Hac & Eac); [by apply account_entries_sorted|intros k v e; by eapply account_above|].
  destruct (append_all_content (storage_entries (buf_storage_changes b)) (storage_change_set t0))
    as (sc & Hsc & Esc); [by apply storage_entries_sorted|intros k v e; by eapply storage_above|].
  destruct (append_all_content (log_entries (buf_logs b)) (log_table t0))
    as (lt & Hlt & Elt); [by apply log_entries_sorted|intros k v e; by eapply log_above|].
  unfold write_to_db, write_history. rewrite Htx, Hac. simpl. rewrite Hsc. simpl. rewrite Hlt. simpl.
  eexists. split; [done|]. split; simpl; [| | |done|done|done|done].
  - intros a. rewrite account_now_content. simpl. rewrite write_accounts_content by apply NoDup_in_order.
    rewrite list_to_map_in_order. unfold buf_read_account. rewrite Htx, Hnow, account_now_content.
    by destruct (buf_accounts b !! a).
  - intros a l Hl. rewrite storage_read_slot. simpl. rewrite write_storage_read; [|done|apply NoDup_in_order|].
    + rewrite list_to_map_in_order. unfold overlaid, buf_read_storage. rewrite Htx, Hnow, storage_read_slot.
      by destruct (buf_storage b !! a) as [o|]; [destruct (slots o !! l)|].
    + intros a' o k v Ho%elem_of_in_order. by apply (ir_overlay b Hr a').
  - intros h. rewrite puts_content by apply NoDup_in_order. rewrite list_to_map_in_order.
    unfold buf_read_code. rewrite Htx, kv_get_content. by destruct (hash_to_code b !! h).
Qed.

(** ** Unwinding *)

(** Entries [l] on top of [old]. *)
Definition on_top {V} (l : list (Z * V)) (old : gmap Z V) (t : T V) : Prop :=
  content t = list_to_map l ∪ old /\ StronglySorted key_lt l /\
  forall k v e, old !! k = Some v -> e ∈ l -> k < e.1.

Lemma sorted_nodup {V} (l : list (Z * V)) : StronglySorted key_lt l -> NoDup l.*1.
Proof.
  induction 1 as [|e l Hs IH Hlt]; [constructor|]. rewrite fmap_cons. constructor; [|done].
  intros (f & E & Hf)%list_elem_of_fmap. rewrite Forall_forall in Hlt. specialize (Hlt f Hf).
  unfold key_lt in Hlt. lia.
Qed.

Lemma on_top_last {V} (l : list (Z * V)) k v old t : on_top (l ++ [(k, v)]) old t ->
  kv_last t = Some (k, v) /\ on_top l old (kv_delete k t).
Proof.
  intros (Hc & Hs & Hold). pose proof (sorted_nodup _ Hs) as Hn.
  assert (content t !! k = Some v) as Hk.
  { rewrite Hc. apply lookup_union_Some_l, elem_of_list_to_map_1; [done|]. set_solver. }
  assert (forall e, e ∈ l -> e.1 < k) as Hlt.
  { intros e He. apply (StronglySorted_app_1_elem_of _ _ _ e (k, v) Hs He). set_solver. }
  split.
  - pose proof (kv_last_content t) as Hl. destruct (kv_last t) as [[k' v']|]; [|by destruct (Hl k v Hk)].
    destruct Hl as (Hk' & _ & Hmax). specialize (Hmax k v Hk I).
    assert (k' = k) as ->; [|congruence]. enough (k' <= k) by lia. rewrite Hc in Hk'.
    apply lookup_union_Some_raw in Hk' as [Hk'%elem_of_list_to_map_2|[_ Hk']].
    + apply elem_of_app in Hk' as [Hin|Hin%list_elem_of_singleton]; [|by simplify_eq].
      specialize (Hlt _ Hin). simpl in Hlt. lia.
    + specialize (Hold k' v' (k, v) Hk' ltac:(set_solver)). simpl in Hold. lia.
  - split_and!.
    + rewrite kv_delete_content, Hc, list_to_map_app, list_to_map_cons, list_to_map_nil.
      rewrite !delete_union, delete_insert_eq, delete_empty, (right_id_L ∅ union), !delete_id; [done| |].
      * destruct (old !! k) as [w|] eqn:E; [|done].
        specialize (Hold k w (k, v) E ltac:(set_solver)). simpl in Hold. lia.
      * apply not_elem_of_list_to_map_1. intros (e & E & He)%list_elem_of_fmap.
        specialize (Hlt e He). lia.
    + by apply StronglySorted_app_1_l in Hs.
    + intros k' v' e Hk' He. apply (Hold k' v' e Hk'). set_solver.
Qed.

Lemma on_top_nil {V} old (t : T V) : on_top [] old t -> content t = old.
Proof. intros (Hc & _). by rewrite Hc, list_to_map_nil, (left_id_L ∅ union). Qed.

Lemma on_top_size {V} (l : list (Z * V)) old t : on_top l old t -> (length l <= size (content t))%nat.
Proof.
  intros (Hc & Hs & _). rewrite <- (length_fmap fst l). apply size_bound; [by apply sorted_nodup|].
  intros k ([k' v] & -> & Hin)%list_elem_of_fmap. exists v. rewrite Hc.
  apply lookup_union_Some_l, elem_of_list_to_map_1; [by apply sorted_nodup|done].
Qed.

(** What the loops do with an entry. *)
Definition undo_account (e : Z * option Account) (t : T Account) : T Account :=
  match e.2 with
  | Some account => kv_put (e.1 mod 2 ^ 160) account t
  | None => match kv_seek (e.1 mod 2 ^ 160) t with Some (k', _) => kv_delete k' t | None => t end
  end.

Definition undo_slot (e : Z * Z) (t : T Z) : T Z :=
  upsert_storage_value ((e.1 / 2 ^ 256) mod 2 ^ 160) (e.1 mod 2 ^ 256) e.2 t.

(** The three loops: the last entry is undone and deleted while its block is after [to]. *)
Fixpoint unwind_loop {V S} (block : Z -> Z) (undo : Z * V -> S -> S) (fuel : nat) (cs : T V) (s : S)
    : T V * S :=
  match fuel with
  | O => (cs, s)
  | Datatypes.S fuel =>
      match kv_last cs with
      | None => (cs, s)
      | Some e => if block e.1 <=? to then (cs, s)
                  else unwind_loop block undo fuel (kv_delete e.1 cs) (undo e s)
      end
  end.

Lemma unwind_accounts_loop fuel cs t :
  unwind_accounts fuel to cs t = unwind_loop (fun k => k / 2 ^ 160) undo_account fuel cs t.
Proof.
  revert cs t. induction fuel as [|fuel IH]; intros cs t; [done|]. simpl.
  destruct (kv_last cs) as [[k v]|]; [|done]. simpl. case_match; [done|]. apply IH.
Qed.

Lemma unwind_storage_loop fuel cs t :
  unwind_storage fuel to cs t = unwind_loop (fun k => k / 2 ^ 256 / 2 ^ 160) undo_slot fuel cs t.
Proof.
  revert cs t. induction fuel as [|fuel IH]; intros cs t; [done|]. simpl.
  destruct (kv_last cs) as [[k v]|]; [|done]. simpl. case_match; [done|]. apply IH.
Qed.

Lemma unwind_logs_loop fuel t :
  unwind_logs fuel to t = (unwind_loop (fun k => k / 2 ^ 64) (fun _ u => u) fuel t tt).1.
Proof.
  revert t. induction fuel as [|fuel IH]; intros t; [done|]. simpl.
  destruct (kv_last t) as [[k v]|]; [|done]. simpl. case_match; [done|]. apply IH.
Qed.

Lemma unwind_loop_spec {V S} block (undo : Z * V -> S -> S) l old :
  (forall k v, old !! k = Some v -> block k <= to) -> (forall e, e ∈ l -> to < block e.1) ->
  forall cs s, on_top l old cs ->
  exists cs', unwind_loop block undo (size (content cs)) cs s = (cs', foldr undo s l) /\ content cs' = old.
Proof.
  intros Hold Hl cs s Hcs. pose proof (on_top_size l old cs Hcs) as Hfuel.
  set (fuel := size (content cs)) in *. clearbody fuel. revert Hl fuel cs s Hfuel Hcs.
  induction l as [|[k v] l IH] using rev_ind; intros Hl fuel cs s Hfuel Hcs.
  - apply on_top_nil in Hcs as Hc. exists cs. split; [|done]. destruct fuel as [|fuel]; [done|]. simpl.
    pose proof (kv_last_content cs) as Hlast. destruct (kv_last cs) as [[k v]|]; [|done].
    destruct Hlast as (Hk & _). rewrite Hc in Hk. cbn [fst]. by rewrite (proj2 (Z.leb_le _ _) (Hold k v Hk)).
  - rewrite length_app in Hfuel. simpl in Hfuel. destruct fuel as [|fuel]; [lia|].
    apply on_top_last in Hcs as [Hlast Hcs]. cbn [unwind_loop]. rewrite Hlast. cbn [fst].
    specialize (Hl (k, v) ltac:(set_solver)) as Hk. simpl in Hk. rewrite (proj2 (Z.leb_gt _ _) Hk).
    rewrite foldr_app. apply IH; [set_solver|lia|done].
Qed.

(** Undoing the changes of a block. *)
Lemma undo_account_block n (es : list (Z * option Account)) t : NoDup es.*1 ->
  (forall e, e ∈ es -> is_address e.1) -> (forall e, e ∈ es -> account_ok (content t !! e.1) e.2) ->
  forall a, content (foldr undo_account t ((fun e => (account_change_key n e.1, e.2)) <$> es)) !! a =
    default (content t !! a) ((list_to_map es : gmap Z (option Account)) !! a).
Proof.
  induction es as [|[a0 y] es IH]; intros Hn Ha Hok a; [done|]. apply NoDup_cons in Hn as [Hni Hn].
  specialize (IH Hn ltac:(set_solver) ltac:(set_solver)). rewrite fmap_cons, list_to_map_cons. cbn [foldr].
  set (t' := foldr undo_account t _) in *. unfold undo_account. cbn [fst snd].
  pose proof (Ha (a0, y) ltac:(set_solver)) as Haddr. cbn [fst] in Haddr.
  rewrite (proj2 (account_change_parts n a0 Haddr)).
  assert (content (match y with
    | Some account => kv_put a0 account t'
    | None => match kv_seek a0 t' with Some (k', _) => kv_delete k' t' | None => t' end end) !! a =
    if decide (a = a0) then y else content t' !! a) as ->.
  { destruct y as [y|].
    - rewrite kv_put_content. case_decide; subst; by rewrite ?lookup_insert_eq, ?lookup_insert_ne by done.
    - assert (is_Some (content t' !! a0)) as [v Hv].
      { rewrite IH, (not_elem_of_list_to_map_1 es a0) by done. simpl.
        apply not_eq_None_Some. by apply (Hok (a0, None) ltac:(set_solver)). }
      rewrite (seek_exact a0 v t' Hv), kv_delete_content.
      case_decide; subst; by rewrite ?lookup_delete_eq, ?lookup_delete_ne by done. }
  case_decide; subst; [by rewrite lookup_insert_eq|]. by rewrite lookup_insert_ne, IH by done.
Qed.

Lemma undo_accounts_back (blocks : list (Z * gmap Address (option Account))) t g :
  (forall n c a y, (n, c) ∈ blocks -> c !! a = Some y -> is_address a) ->
  leads_back look_account (fun _ => True) account_ok blocks (fun a => content t !! a) g ->
  forall a, content (foldr undo_account t (concat
    ((fun b => (fun a => (account_change_key b.1 a.1, a.2)) <$> in_order b.2) <$> rev blocks))) !! a = g a.
Proof.
  revert t. induction blocks as [|[n c] blocks IH]; intros t Hr Hb a; [by apply Hb|].
  destruct Hb as [Hok Hb]. simpl rev. rewrite fmap_app, concat_app, foldr_app.
  apply IH; [intros; eapply Hr; [by apply list_elem_of_further|done]|].
  eapply leads_back_ext; [|exact Hb]. intros a' _. simpl. rewrite app_nil_r.
  rewrite undo_account_block; [by rewrite list_to_map_in_order|apply NoDup_in_order| |].
  - intros [a0 y] Hin%elem_of_in_order. eapply Hr; [apply list_elem_of_here|done].
  - intros [a0 y] Hin%elem_of_in_order. by apply Hok.
Qed.

Lemma undo_slot_block n (es : list (Z * Z)) t : NoDup es.*1 ->
  (forall e, e ∈ es -> exists a l, is_address a /\ word l /\ e.1 = storage_change_key n a l) ->
  forall a l, is_address a -> word l -> slot_read (foldr undo_slot t es) a l =
    default (slot_read t a l) ((list_to_map es : gmap Z Z) !! storage_change_key n a l).
Proof.
  induction es as [|[k y] es IH]; intros Hn Hes a l Ha Hl; [done|]. apply NoDup_cons in Hn as [Hni Hn].
  rewrite list_to_map_cons. cbn [foldr]. unfold undo_slot at 1. cbn [fst snd].
  destruct (Hes (k, y) ltac:(set_solver)) as (a0 & l0 & Ha0 & Hl0 & E). cbn [fst] in E. subst k.
  destruct (storage_change_parts n a0 l0 Ha0 Hl0) as (_ & -> & ->).
  rewrite upsert_slot_read, IH by (done || set_solver).
  destruct (decide (a = a0 /\ l = l0)) as [[-> ->]|Hne]; [by rewrite lookup_insert_eq|].
  rewrite lookup_insert_ne; [done|]. intros E. destruct Hne.
  destruct (storage_change_parts n a0 l0 Ha0 Hl0) as (_ & E1 & E2).
  destruct (storage_change_parts n a l Ha Hl) as (_ & E3 & E4). rewrite E in *. by split; congruence.
Qed.

Lemma block_entries_lookup n d a l : slots_in_range d -> is_address a -> word l ->
  (list_to_map (entries (storage_change_key n) d) : gmap Z Z) !! storage_change_key n a l = look_slot d (a, l).
Proof.
  intros Hd Ha Hl. apply option_eq. intros y.
  rewrite <- elem_of_list_to_map by (by apply sorted_nodup, block_entries_sorted).
  rewrite elem_of_entries. unfold look_slot. simpl. split.
  - intros (a' & e & l' & He & Hy & E). destruct (Hd _ _ _ _ He Hy) as [Ha' Hl'].
    destruct (storage_change_parts n a l Ha Hl) as (_ & E1 & E2).
    destruct (storage_change_parts n a' l' Ha' Hl') as (_ & E3 & E4). rewrite E in E1, E2.
    assert (a' = a) as -> by congruence. assert (l' = l) as -> by congruence. by rewrite He.
  - intros Hy. destruct (d !! a) as [e|] eqn:He; [|done]. by exists a, e, l.
Qed.

Lemma undo_slots_back (blocks : list (Z * gmap Address (gmap Z Z))) t g :
  (forall n d, (n, d) ∈ blocks -> slots_in_range d) ->
  leads_back look_slot (fun x => is_address x.1 /\ word x.2) (fun _ _ => True) blocks
    (fun x => slot_read t x.1 x.2) g ->
  forall a l, is_address a -> word l ->
  slot_read (foldr undo_slot t (concat ((fun b => entries (storage_change_key b.1) b.2) <$> rev blocks))) a l = g (a, l).
Proof.
  revert t. induction blocks as [|[n d] blocks IH]; intros t Hr Hb a l Ha Hl; [by apply (Hb (a, l))|].
  destruct Hb as [_ Hb]. simpl rev. rewrite fmap_app, concat_app, foldr_app.
  apply IH; [intros; eapply Hr; by apply list_elem_of_further| |done|done].
  eapply leads_back_ext; [|exact Hb]. intros [a' l'] [Ha' Hl']. simpl in *. rewrite app_nil_r.
  assert (slots_in_range d) as Hd by (eapply Hr; apply list_elem_of_here).
  rewrite (undo_slot_block n); [by rewrite block_entries_lookup|by apply sorted_nodup, block_entries_sorted| |done|done].
  intros [k y] (a0 & e & l0 & He & Hy & ->)%elem_of_entries. destruct (Hd _ _ _ _ He Hy). by exists a0, l0.
Qed.

Lemma leads_back_weaken {C X Y} (look : C -> X -> option Y) (dom dom' : X -> Prop) ok l f g :
  (forall x, dom' x -> dom x) -> leads_back look dom ok l f g -> leads_back look dom' ok l f g.
Proof.
  intros Hd. revert f. induction l as [|[n c] l IH]; intros f; simpl; [by eauto|].
  intros [Hok Hl]. split; [by eauto|by apply IH].
Qed.

Lemma delete_traces_content n (t : T CallTraceSetEntry) k :
  content (delete_traces n t) !! k = if decide (trace_block k = n) then None else content t !! k.
Proof.
  unfold delete_traces. destruct (walk_spec (n * 2 ^ 168) t) as [_ Hw].
  assert (forall (l : list (Z * CallTraceSetEntry)) (t : T CallTraceSetEntry), content (foldl (fun t e => if trace_block e.1 =? n then kv_delete e.1 t else t) t l) !! k =
    if decide (trace_block k = n /\ k ∈ l.*1) then None else content t !! k) as Hl.
  { clear Hw t. intros l. induction l as [|[k' e] l IH]; intros t; cbn [foldl fst].
    { rewrite decide_False; [done|]. by intros [_ ?%elem_of_nil]. }
    rewrite IH, fmap_cons. cbn [fst]. destruct (Z.eqb_spec (trace_block k') n) as [E|Hne].
    - rewrite kv_delete_content. destruct (decide (k = k')) as [->|Hk].
      + rewrite lookup_delete_eq, (decide_True (P := trace_block k' = n /\ k' ∈ k' :: l.*1)); [by case_decide|].
        split; [done|apply list_elem_of_here].
      + rewrite lookup_delete_ne by done. repeat case_decide; set_solver.
    - repeat case_decide; try done; set_solver. }
  rewrite Hl. destruct (decide (trace_block k = n /\ _)) as [[En _]|E]; [by rewrite decide_True|].
  destruct (decide (trace_block k = n)) as [En|]; [|done]. destruct (content t !! k) as [e|] eqn:Hk; [|done]. destruct E. split; [done|].
  apply list_elem_of_fmap. exists (k, e). split; [done|]. apply Hw. split; [done|].
  unfold trace_block in En. pose proof (Z.div_mod k (2 ^ 168) ltac:(lia)).
  pose proof (Z.mod_pos_bound k (2 ^ 168) ltac:(lia)). lia.
Qed.

(** The traces of the blocks after [to] are deleted. *)
Lemma unwind_traces_content (t : T CallTraceSetEntry) :
  content (unwind_traces (size (content t)) to t) = filter (fun e => (trace_block e.1 <= to)%Z) (content t).
Proof.
  assert (size (filter (fun e => (to < trace_block e.1)%Z) (content t)) <= size (content t))%nat as Hf by apply map_size_filter.
  revert Hf. generalize (size (content t)) as fuel. intros fuel. revert t.
  assert (forall t : T CallTraceSetEntry, (forall k e, content t !! k = Some e -> trace_block k <= to) ->
    content t = filter (fun e => (trace_block e.1 <= to)%Z) (content t)) as Hdone.
  { intros t Ht. symmetry. apply map_filter_id. intros k e Hk. by apply (Ht k e). }
  induction fuel as [|fuel IH]; intros t Hf; cbn [unwind_traces].
  - apply Hdone. intros k e Hk. destruct (Z.le_gt_cases (trace_block k) to) as [|Hgt]; [done|].
    assert (size (filter (fun e => (to < trace_block e.1)%Z) (content t)) = O) as E by lia.
    apply map_size_empty_inv in E. exfalso. eapply (lookup_empty_Some (M := gmap Z) k e).
    rewrite <- E. by apply map_lookup_filter_Some.
  - pose proof (kv_last_content t) as Hl. destruct (kv_last t) as [[k e]|].
    + destruct Hl as (Hk & _ & Hmax). destruct (Z.leb_spec (trace_block k) to) as [Hle|Hgt].
      * apply Hdone. intros k' e' Hk'. specialize (Hmax k' e' Hk' I). unfold trace_block in *.
        etransitivity; [apply Z.div_le_mono|exact Hle]; lia.
      * rewrite IH.
        -- apply map_eq. intros j. apply option_eq. intros x. rewrite !map_lookup_filter_Some, delete_traces_content.
           simpl. case_decide as E; [|done]. split; [by intros []|]. intros [_ ?]. lia.
        -- enough (size (filter (fun e => (to < trace_block e.1)%Z) (content (delete_traces (trace_block k) t))) <
             size (filter (fun e => (to < trace_block e.1)%Z) (content t)))%nat by lia.
           apply map_subset_size. split.
           ++ apply map_subseteq_spec. intros j x. rewrite !map_lookup_filter_Some, delete_traces_content.
              case_decide; naive_solver.
           ++ intros Hsub. rewrite map_subseteq_spec in Hsub.
              assert (filter (fun e => (to < trace_block e.1)%Z) (content (delete_traces (trace_block k) t)) !! k = Some e) as H.
              { apply Hsub. by apply map_lookup_filter_Some. }
              apply map_lookup_filter_Some in H as [H _]. by rewrite delete_traces_content, decide_True in H.
    + apply Hdone. intros k e Hk. by destruct (Hl k e Hk).
Qed.

(** The tables [t] hold the state and the history of [t0]. *)
Record restored (t : StateTables T) : Prop := {
  rs_account a : account_now t a = account_now t0 a;
  rs_storage a l : is_address a -> word l -> storage_now t a l = storage_now t0 a l;
  rs_account_changes : content (account_change_set t) = content (account_change_set t0);
  rs_storage_changes : content (storage_change_set t) = content (storage_change_set t0);
  rs_logs : content (log_table t) = content (log_table t0);
  rs_traces : content (state_call_traces t) = content (state_call_traces t0);
}.

Lemma unwind_spec b s t : use_inv (b, s) -> past t0 -> written b t -> restored (execution_unwind to t).
Proof.
  intros [Htx Hr He Ha Hs] Hp [Hwa Hws _ Hac Hsc Hlog Htr]. simpl in *.
  destruct (unwind_loop_spec (fun k => k / 2 ^ 160) undo_account _ _ (pa_account t0 Hp)
    (fun e => account_newer b e Hr He) (account_change_set t) (account_table t)) as (ac & Eac & Cac).
  { split_and!; [done|by apply account_entries_sorted|intros k v e; by eapply account_above]. }
  destruct (unwind_loop_spec (fun k => k / 2 ^ 256 / 2 ^ 160) undo_slot _ _ (pa_storage t0 Hp)
    (fun e => storage_newer b e Hr He) (storage_change_set t) (storage_table t)) as (sc & Esc & Csc).
  { split_and!; [done|by apply storage_entries_sorted|intros k v e; by eapply storage_above]. }
  destruct (unwind_loop_spec (fun k => k / 2 ^ 64) (fun _ u => u) _ _ (pa_log t0 Hp)
    (fun e => log_newer b e Hr He) (log_table t) tt) as (lt & Elt & Clt).
  { split_and!; [done|by apply log_entries_sorted|intros k v e; by eapply log_above]. }
  unfold execution_unwind. rewrite unwind_accounts_loop, Eac, unwind_storage_loop, Esc, unwind_logs_loop, Elt.
  split; simpl; [| |done|done|done|].
  - intros a. rewrite account_now_content. simpl. unfold account_entries.
    rewrite <- (rev_involutive (in_order (buf_account_changes b))). apply (undo_accounts_back _ _ (fun a => account_now t0 a)).
    + intros n c a' y Hin%in_rev_elem. by apply (ir_account b Hr n).
    + eapply leads_back_ext; [|eapply tracked_done; [|exact Ha]].
      * intros a' _. by rewrite <- Hwa, account_now_content.
      * intros n c Hn. by destruct (re_account b He n c Hn).
  - intros a l Haddr Hl. rewrite storage_read_slot. simpl. unfold storage_entries.
    rewrite <- (rev_involutive (in_order (buf_storage_changes b))).
    rewrite (undo_slots_back _ _ (fun x => storage_now t0 x.1 x.2)); [done| | |done|done].
    + intros n c Hin%in_rev_elem a' e l' y. by apply (ir_slot b Hr n).
    + eapply leads_back_weaken; [by intros x [_ Hx]; exact Hx|].
      eapply leads_back_ext; [|eapply tracked_done; [|exact Hs]].
      * intros [a' l'] Hl'. simpl in *. by rewrite <- Hws, storage_read_slot.
      * intros n c Hn. by destruct (re_storage b He n c Hn).
  - rewrite unwind_traces_content, Htr. apply map_filter_id. intros k y Hk. by apply (pa_trace t0 Hp k y).
Qed.

End use.


(** The unwind of the execution stage is the inverse of executing blocks: it restores
    every account and slot, the change sets and the logs, if no block updates an account
    that exists neither before nor after it and none changes storage that it erases later. *)
Theorem execution_unwind_restores to (t0 : StateTables T) p b s t :
  past to t0 -> rtc (step to) (new t0 p None, new t0 p None) (b, s) -> write_to_db b = Some t ->
  restored t0 (execution_unwind to t).
Proof.
  intros Hp Hr Hw. pose proof (use_reach to t0 p b s Hr) as Hi.
  destruct (write_spec to t0 b) as (t' & Hw' & Ht); [by apply Hi..|done|]. simplify_eq. by eapply unwind_spec.
Qed.

(** ** An account that does not exist *)

Definition touched (t0 : StateTables T) p n a : Buffer T :=
  buf_update_account a None None (buf_erase_storage a (buf_begin_block n (new t0 p None))).

Lemma touched_changes t0 p n a : p <= n ->
  buf_account_changes (touched t0 p n a) = {[ n := {[ a := None ]} ]}.
Proof.
  intros Hp. unfold touched, buf_erase_storage. simpl. rewrite lookup_empty. unfold buf_update_account. simpl.
  by rewrite (proj2 (Z.leb_le _ _) Hp), lookup_empty.
Qed.

Lemma touched_entries t0 p n a : p <= n ->
  account_entries (buf_account_changes (touched t0 p n a)) = [(account_change_key n a, None)].
Proof.
  intros Hp. rewrite touched_changes by done. unfold account_entries.
  rewrite <- insert_empty, in_order_insert_last, in_order_empty by (intros k y; by rewrite lookup_empty). simpl.
  rewrite <- insert_empty, in_order_insert_last, in_order_empty by (intros k y; by rewrite lookup_empty). done.
Qed.

Lemma touched_ranges to t0 p n a : to < n -> 0 < n -> p <= n -> is_address a ->
  in_range (touched t0 p n a) /\ recent to (touched t0 p n a).
Proof.
  intros Hto Hn Hp Ha. set (b0 := buf_begin_block n (new t0 p None)).
  assert (use_inv to t0 (buf_erase_storage a b0, b0)) as [_ [] [] _ _].
  { apply use_erase; [by apply (use_begin to t0 _ _ n (use_new to t0 p))|by split|done|done]. }
  pose proof (touched_changes t0 p n a Hp) as Hc.
  unfold touched, buf_update_account in *. fold b0 in Hc |- *. cbn [with_state buf_account_changes andb negb] in *.
  split; split; try done; cbn [with_state buf_account_changes]; rewrite Hc.
  - intros m c a' y [_ <-]%lookup_singleton_Some [<- _]%lookup_singleton_Some. done.
  - intros m c [<- _]%lookup_singleton_Some. done.
Qed.

(** The unwind of a block that touches an account which exists neither before nor after it
    deletes another account: the change is recorded, and undoing it deletes the account with
    the next address, on which [seek] puts the cursor. *)
Theorem unwind_deletes_next to (t0 : StateTables T) p n a a' v :
  past to t0 -> to < n -> 0 < n -> p <= n -> is_address a -> a < a' ->
  is_least (content (account_table t0)) (fun k => a <= k) (Some (a', v)) ->
  exists t, write_to_db (touched t0 p n a) = Some t /\
    account_now t a' = Some v /\ account_now (execution_unwind to t) a' = None.
Proof.
  intros Hp Hto Hn Hpn Ha Hlt (Hv & _ & Hmin). destruct (touched_ranges to t0 p n a Hto Hn Hpn Ha) as [Hr He].
  destruct (write_spec to t0 (touched t0 p n a) eq_refl eq_refl Hr He Hp) as (t & Hw & Ht). exists t.
  assert (content (account_table t) = content (account_table t0)) as Hsame.
  { apply map_eq. intros k. rewrite <- !account_now_content. exact (wr_account _ _ _ Ht k). }
  assert (on_top (account_entries (buf_account_changes (touched t0 p n a)))
    (content (account_change_set t0)) (account_change_set t)) as Htop.
  { split_and!; [apply Ht|by apply account_entries_sorted|intros k y e; by eapply (account_above to)]. }
  destruct (unwind_loop_spec to (fun k => k / 2 ^ 160) undo_account _ _ (pa_account to t0 Hp)
    (fun e => account_newer to _ e Hr He) _ (account_table t) Htop) as (cs & E & _).
  split; [exact Hw|split; [by rewrite account_now_content, Hsame|]].
  unfold execution_unwind. rewrite unwind_accounts_loop, E, touched_entries by done.
  destruct (unwind_storage _ _ _ _). rewrite account_now_content. cbn [account_table foldr]. unfold undo_account. cbn [fst snd].
  rewrite (proj2 (account_change_parts n a Ha)).
  pose proof (kv_seek_content a (account_table t)) as Hs. rewrite Hsame in Hs.
  destruct (kv_seek a (account_table t)) as [[k w]|]; [|destruct (Hs a' v Hv); lia].
  destruct Hs as (Hk & Hak & Hm). assert (k = a') as ->.
  { specialize (Hm a' v Hv ltac:(lia)). specialize (Hmin k w Hk Hak). lia. }
  by rewrite kv_delete_content, lookup_delete_eq.
Qed.

End specs.

(** ** Samples *)

#[local] Existing Instance map_table.map_kv.
#[local] Existing Instance buffer_state.

Module sample_buffer.

Definition rich : Account := {| nonce := 1; balance := 100; code_hash := EMPTY_HASH |}.
Definition poor : Account := {| nonce := 2; balance := 1; code_hash := EMPTY_HASH |}.

(** An account at address 9 with a slot. *)
Definition start : StateTables map_table.table := {|
  account_table := {[ 9 := rich ]}; storage_table := {[ storage_key 9 1 := 4 ]}; code_table := ∅;
  account_change_set := ∅; storage_change_set := ∅; log_table := ∅; account_history := ∅;
  storage_history := ∅; state_call_traces := ∅ |}.

Lemma start_past : past 0 start.
Proof. split; simpl; intros k y; by rewrite lookup_empty. Qed.

(** Block 1 spends and erases; block 2 creates an account and writes a slot. *)
Definition block1_start : Buffer map_table.table := buf_begin_block 1 (new start 0 None).
Definition block1 : Buffer map_table.table :=
  buf_erase_storage 9 (buf_update_account 9 (buf_read_account block1_start 9) (Some poor) block1_start).
Definition block2_start : Buffer map_table.table := buf_begin_block 2 block1.
Definition block2 : Buffer map_table.table :=
  buf_update_storage 9 1 (buf_read_storage block2_start 9 1) 8
    (buf_update_account 7 (buf_read_account block2_start 7) (Some rich) block2_start).

Lemma executed : rtc (step 0) (new start 0 None, new start 0 None) (block2, block2_start).
Proof.
  eapply rtc_l; [apply (step_begin 0 _ _ 1); simpl; lia|].
  eapply rtc_l; [apply (step_account 0 _ _ 9 (Some poor)); [split; [reflexivity|discriminate]|unfold uint; lia|done]|].
  eapply rtc_l; [apply (step_erase 0 _ _ 9); [split; [reflexivity|discriminate]|unfold uint; lia|done]|].
  eapply rtc_l; [apply (step_begin 0 _ _ 2); [lia|reflexivity|discriminate]|].
  eapply rtc_l; [apply (step_account 0 _ _ 7 (Some rich)); [split; [reflexivity|discriminate]|unfold uint; lia|done]|].
  apply rtc_once, step_storage; [split; [reflexivity|discriminate]|unfold uint; lia|unfold uint; lia].
Qed.

(** A block that sends nothing to an empty account, on the block state. *)
Definition touch_block : SM (IntraBlockState (Buffer map_table.table)) unit :=
  ibs.add_to_balance 7 0;; ibs.destruct_touched_dead;; ibs.finalize_transaction.

Definition after_touch : option (Buffer map_table.table) :=
  match touch_block (ibs.new (new start 0 None)) with
  | IntraBlockState.Done _ s => ibs.write_to_db 1 s
  | _ => None
  end.

Lemma touch_recorded : after_touch = Some (touched start 0 1 7).
Proof. vm_compute. reflexivity. Qed.

End sample_buffer.


Lemma execution_unwind_restores_witness : exists t,
  write_to_db sample_buffer.block2 = Some t /\ restored sample_buffer.start (execution_unwind 0 t).
Proof.
  destruct (write_to_db sample_buffer.block2) as [t|] eqn:E; [|vm_compute in E; discriminate E].
  exists t. split; [reflexivity|].
  exact (execution_unwind_restores 0 sample_buffer.start 0 sample_buffer.block2 sample_buffer.block2_start t
    sample_buffer.start_past sample_buffer.executed E).
Defined.

Lemma unwind_deletes_next_witness : exists b t,
  sample_buffer.after_touch = Some b /\ write_to_db b = Some t /\
  account_now t 9 = Some sample_buffer.rich /\ account_now (execution_unwind 0 t) 9 = None.
Proof.
  destruct (unwind_deletes_next 0 sample_buffer.start 0 1 7 9 sample_buffer.rich
    sample_buffer.start_past) as (t & Hw & Hr & Hu); [lia|lia|lia|unfold uint; lia|lia| |].
  { simpl. split_and!; [done|lia|]. intros k v Hk _. apply lookup_singleton_Some in Hk as [<- _]. lia. }
  exists (touched sample_buffer.start 0 1 7), t. split; [exact sample_buffer.touch_recorded|]. by split_and!.
Defined.
