(* ===== verification/HistorySpec.v ===== *)
(** Reads of the state at a historical block (src/accessors/state.rs): the value that a
    block found is read from the change set of the next block that changed it. *)
From S2P Require Import Prelude EvmState IntraBlockState Kv Bitmaps BitmapsSpec CallTraces CallTracesSpec Buffer BufferSpec.
From Stdlib Require Import ZArith Lia Strings.Byte.
From stdpp Require Import base list option numbers gmap sorting relations strings.
#[local] Open Scope Z_scope.
Import bitmapdb buffer.

(** ** The oldest change *)

Section oldest.
Context {C X Y : Type} (look : C -> X -> option Y) (dom : X -> Prop) (ok : Y -> Y -> Prop).

Lemma unchanged l f g x : leads_back look dom ok l f g -> dom x ->
  (forall e, e ∈ l -> look e.2 x = None) -> g x = f x.
Proof.
  revert f. induction l as [|[n c] l IH]; intros f Hl Hx Hno; simpl in Hl; [by rewrite Hl|].
  destruct Hl as [_ Hl]. rewrite (IH _ Hl Hx) by set_solver.
  pose proof (Hno (n, c) (list_elem_of_here _ _)) as E. simpl in *. by rewrite E.
Qed.

Lemma oldest_change post pre n c f g x y : leads_back look dom ok (post ++ (n, c) :: pre) f g -> dom x ->
  look c x = Some y -> (forall e, e ∈ pre -> look e.2 x = None) -> g x = y.
Proof.
  revert f. induction post as [|[m d] post IH]; intros f Hl Hx Hy Hno; simpl in Hl; destruct Hl as [_ Hl].
  - rewrite (unchanged pre _ g x Hl Hx Hno). simpl. by rewrite Hy.
  - by eapply IH.
Qed.

(** The first of the blocks that changed [x]. *)
Lemma first_change (changes : gmap Z C) f g x : leads_back look dom ok (rev (in_order changes)) f g -> dom x ->
  (forall n c y, changes !! n = Some c -> look c x = Some y ->
    (forall n' c', changes !! n' = Some c' -> is_Some (look c' x) -> n <= n') -> g x = y) /\
  ((forall n c, changes !! n = Some c -> look c x = None) -> g x = f x).
Proof.
  intros Hl Hx. split.
  - intros n c y Hn Hy Hfirst.
    assert ((n, c) ∈ rev (in_order changes)) as Hin.
    { rewrite list_elem_of_In, <- in_rev, <- list_elem_of_In. by apply elem_of_in_order. }
    apply list_elem_of_split in Hin as (post & pre & E). rewrite E in Hl.
    apply (oldest_change post pre n c f g x y Hl Hx Hy). intros [n' c'] Hin'.
    pose proof (sorted_rev key_lt _ (in_order_sorted changes)) as Hs. rewrite E in Hs.
    apply StronglySorted_app_1_r in Hs. apply StronglySorted_inv in Hs as [_ Hlt]. rewrite Forall_forall in Hlt.
    specialize (Hlt _ Hin'). unfold key_lt in Hlt. simpl in *.
    destruct (look c' x) as [y'|] eqn:Ey; [|done]. exfalso.
    assert (changes !! n' = Some c') as Hn'.
    { apply in_rev_elem. rewrite E. set_solver. }
    specialize (Hfirst n' c' Hn' ltac:(by eexists)). lia.
  - intros Hno. eapply unchanged; [exact Hl|done|]. intros [n c] Hin%in_rev_elem. by apply (Hno n).
Qed.

End oldest.

Section specs.
Context {T : Type -> Type} {KV : Kv T}.

(** ** Indices of changes *)

(** The blocks that changed an account or a slot. *)
Definition changed_accounts (m : gmap Z (option Account)) (a : Z) : Treemap :=
  list_to_set ((fun e => e.1 / 2 ^ 160) <$> filter (fun e => e.1 mod 2 ^ 160 = a) (map_to_list m)).

Definition changed_slots (m : gmap Z Z) (a l : Z) : Treemap :=
  list_to_set ((fun e => e.1 / 2 ^ 256 / 2 ^ 160) <$>
    filter (fun e => (e.1 / 2 ^ 256) mod 2 ^ 160 = a /\ e.1 mod 2 ^ 256 = l) (map_to_list m)).

Lemma elem_of_changed_accounts m a n : is_address a ->
  n ∈ changed_accounts m a <-> is_Some (m !! account_change_key n a).
Proof.
  intros Ha. unfold changed_accounts. rewrite elem_of_list_to_set, list_elem_of_fmap. split.
  - intros ([k y] & -> & (E & Hk%elem_of_map_to_list)%list_elem_of_filter). simpl in *. exists y. rewrite <- Hk. f_equal.
    unfold account_change_key. pose proof (Z.div_mod k (2 ^ 160) ltac:(lia)). lia.
  - intros [y Hy]. exists (account_change_key n a, y). destruct (account_change_parts n a Ha) as [E1 E2].
    simpl. split; [done|]. apply list_elem_of_filter. split; [done|by apply elem_of_map_to_list].
Qed.

Lemma elem_of_changed_slots m a l n : is_address a -> word l ->
  n ∈ changed_slots m a l <-> is_Some (m !! storage_change_key n a l).
Proof.
  intros Ha Hl. unfold changed_slots. rewrite elem_of_list_to_set, list_elem_of_fmap. split.
  - intros ([k y] & -> & ([E1 E2] & Hk%elem_of_map_to_list)%list_elem_of_filter). simpl in *. exists y.
    rewrite <- Hk. f_equal. unfold storage_change_key, account_change_key.
    pose proof (Z.div_mod k (2 ^ 256) ltac:(lia)). pose proof (Z.div_mod (k / 2 ^ 256) (2 ^ 160) ltac:(lia)). lia.
  - intros [y Hy]. exists (storage_change_key n a l, y). destruct (storage_change_parts n a l Ha Hl) as (E1 & E2 & E3).
    cbn [fst]. split; [done|]. apply list_elem_of_filter. split; [done|by apply elem_of_map_to_list].
Qed.

Definition with_history (t : StateTables T) (ah sh : T Treemap) : StateTables T := {|
  account_table := account_table t; storage_table := storage_table t; code_table := code_table t;
  account_change_set := account_change_set t; storage_change_set := storage_change_set t;
  log_table := log_table t; account_history := ah; storage_history := sh;
  state_call_traces := state_call_traces t;
|}.

(** An index of a needle in which no chunk ends at the block [n]. *)
Definition searchable (needle : Z) (blocks : Treemap) (n : Z) (t : T Treemap) : Prop :=
  indexed needle blocks t /\ (n = u64_max \/ chunk_at t needle n = None).

Lemma account_read_found t a n m y :
  find_next_block (account_history t) a n = Some m -> content (account_change_set t) !! account_change_key m a = Some y ->
  account_read t a (Some n) = y.
Proof.
  intros Hf Hy. unfold account_read. simpl. rewrite Hf. simpl. rewrite (seek_exact _ _ _ Hy). simpl.
  by rewrite Z.eqb_refl.
Qed.

Lemma account_read_none t a n : find_next_block (account_history t) a n = None ->
  account_read t a (Some n) = account_now t a.
Proof. intros Hf. unfold account_read. simpl. by rewrite Hf. Qed.

Lemma storage_read_found t a l n m y :
  find_next_block (storage_history t) (storage_key a l) n = Some m ->
  content (storage_change_set t) !! storage_change_key m a l = Some y -> storage_read t a l (Some n) = y.
Proof.
  intros Hf Hy. unfold storage_read. cbn [mbind option_bind]. rewrite Hf. cbn [mbind option_bind].
  rewrite (seek_exact _ _ _ Hy). cbn [mbind option_bind]. by rewrite Z.eqb_refl.
Qed.

Lemma storage_read_none t a l n : find_next_block (storage_history t) (storage_key a l) n = None ->
  storage_read t a l (Some n) = storage_now t a l.
Proof. intros Hf. unfold storage_read. cbn [mbind option_bind]. by rewrite Hf. Qed.

(** ** The changes of the blocks after [to] *)

Section written.
Context (to : Z) (t0 t : StateTables T) (b s : Buffer T).
Context (inv : use_inv to t0 (b, s)) (old : past to t0) (wr : written t0 b t).

Lemma account_change_lookup n a y : to < n -> is_address a ->
  content (account_change_set t) !! account_change_key n a = Some y <->
  exists c, buf_account_changes b !! n = Some c /\ c !! a = Some y.
Proof.
  intros Hn Ha. destruct inv as [_ Hr He _ _]. simpl in Hr, He. rewrite (wr_account_changes _ _ _ wr).
  destruct (account_change_parts n a Ha) as [E1 E2]. rewrite lookup_union_Some_raw. split.
  - intros [H%elem_of_list_to_map_2|[_ H]].
    + apply elem_of_entries in H as (n' & c & a' & Hc & Ha' & E).
      destruct (account_change_parts n' a' (ir_account b Hr _ _ _ _ Hc Ha')) as [E3 E4]. rewrite <- E in E3, E4.
      assert (n' = n) as -> by congruence. assert (a' = a) as -> by congruence. by exists c.
    + pose proof (pa_account to t0 old _ _ H). lia.
  - intros (c & Hc & Hy). left. apply elem_of_list_to_map_1.
    + apply sorted_nodup, (account_entries_sorted b Hr).
    + apply elem_of_entries. by exists n, c, a.
Qed.

Lemma slot_change_lookup n a l y : to < n -> is_address a -> word l ->
  content (storage_change_set t) !! storage_change_key n a l = Some y <->
  exists c, buf_storage_changes b !! n = Some c /\ look_slot c (a, l) = Some y.
Proof.
  intros Hn Ha Hl. destruct inv as [_ Hr He _ _]. simpl in Hr, He. rewrite (wr_storage_changes _ _ _ wr).
  destruct (storage_change_parts n a l Ha Hl) as (E1 & E2 & E3). rewrite lookup_union_Some_raw. split.
  - intros [H%elem_of_list_to_map_2|[_ H]].
    + apply elem_of_storage_entries in H as (n' & c & a' & d & l' & Hc & Hd & Hy & E).
      destruct (ir_slot b Hr _ _ _ _ _ _ Hc Hd Hy) as [Ha' Hl'].
      destruct (storage_change_parts n' a' l' Ha' Hl') as (E4 & E5 & E6). rewrite <- E in E4, E5, E6.
      assert (n' = n) as -> by congruence. assert (a' = a) as -> by congruence. assert (l' = l) as -> by congruence.
      exists c. split; [done|]. unfold look_slot. simpl. by rewrite Hd.
    + pose proof (pa_storage to t0 old _ _ H). lia.
  - intros (c & Hc & Hy). left. unfold look_slot in Hy. simpl in Hy. destruct (c !! a) as [d|] eqn:Hd; [|done].
    apply elem_of_list_to_map_1.
    + apply sorted_nodup, (storage_entries_sorted b Hr).
    + apply elem_of_storage_entries. by exists n, c, a, d, l.
Qed.

Lemma account_at_start ah sh a : is_u64 to -> is_address a ->
  searchable a (changed_accounts (content (account_change_set t)) a) to ah ->
  account_read (with_history t ah sh) a (Some to) = account_now t0 a.
Proof.
  intros Hto Ha [Hix Hend]. pose proof (find_next_least a _ ah to Hix Hto Hend) as Hf.
  pose proof inv as [_ _ He Htr _]. simpl in He, Htr.
  destruct (first_change look_account (fun _ => True) account_ok (buf_account_changes b) (buf_read_account b)
    (fun a => account_now t0 a) a) as [Hfirst Hnone]; [|done|].
  { eapply tracked_done; [|exact Htr]. intros n c Hn. by destruct (re_account to b He n c Hn). }
  assert (forall n c, buf_account_changes b !! n = Some c -> is_Some (look_account c a) ->
    to < n /\ n ∈ changed_accounts (content (account_change_set t)) a) as Hin.
  { intros n c Hn [y Hy]. destruct (re_account to b He n c Hn) as [Hlt _]. split; [done|].
    apply elem_of_changed_accounts; [done|]. exists y. apply account_change_lookup; [done|done|]. by exists c. }
  destruct (find_next_block ah a to) as [m|] eqn:E.
  - destruct Hf as ([y Hy]%elem_of_changed_accounts & Hlt & Hmin); [|done].
    rewrite (account_read_found (with_history t ah sh) a to m y E Hy).
    apply account_change_lookup in Hy as (c & Hc & Hy); [|done|done]. symmetry. apply (Hfirst m c y Hc Hy).
    intros n' c' Hn' Hs'. destruct (Hin n' c' Hn' Hs'). by apply Hmin.
  - rewrite (account_read_none (with_history t ah sh) a to E). symmetry.
    etransitivity; [|symmetry; exact (wr_account _ _ _ wr a)]. apply Hnone. intros n c Hn.
    destruct (look_account c a) as [y|] eqn:Ey; [|done]. destruct (Hin n c Hn ltac:(by eexists)) as [Hlt Hm].
    specialize (Hf n Hm). lia.
Qed.

Lemma slot_at_start ah sh a l : is_u64 to -> is_address a -> word l ->
  searchable (storage_key a l) (changed_slots (content (storage_change_set t)) a l) to sh ->
  storage_read (with_history t ah sh) a l (Some to) = storage_now t0 a l.
Proof.
  intros Hto Ha Hl [Hix Hend]. pose proof (find_next_least _ _ sh to Hix Hto Hend) as Hf.
  pose proof inv as [_ _ He _ Htr]. simpl in He, Htr.
  destruct (first_change look_slot (fun x => word x.2) (fun _ _ => True) (buf_storage_changes b)
    (fun x => buf_read_storage b x.1 x.2) (fun x => storage_now t0 x.1 x.2) (a, l)) as [Hfirst Hnone]; [|done|].
  { eapply tracked_done; [|exact Htr]. intros n c Hn. by destruct (re_storage to b He n c Hn). }
  assert (forall n c, buf_storage_changes b !! n = Some c -> is_Some (look_slot c (a, l)) ->
    to < n /\ n ∈ changed_slots (content (storage_change_set t)) a l) as Hin.
  { intros n c Hn [y Hy]. destruct (re_storage to b He n c Hn) as [Hlt _]. split; [done|].
    apply elem_of_changed_slots; [done|done|]. exists y. apply slot_change_lookup; [done|done|done|]. by exists c. }
  destruct (find_next_block sh (storage_key a l) to) as [m|] eqn:E.
  - destruct Hf as ([y Hy]%elem_of_changed_slots & Hlt & Hmin); [|done|done].
    rewrite (storage_read_found (with_history t ah sh) a l to m y E Hy).
    apply slot_change_lookup in Hy as (c & Hc & Hy); [|done|done|done]. symmetry. apply (Hfirst m c y Hc Hy).
    intros n' c' Hn' Hs'. destruct (Hin n' c' Hn' Hs'). by apply Hmin.
  - rewrite (storage_read_none (with_history t ah sh) a l to E). symmetry.
    etransitivity; [|symmetry; exact (wr_storage _ _ _ wr a l Hl)]. apply Hnone. intros n c Hn.
    destruct (look_slot c (a, l)) as [y|] eqn:Ey; [|done]. destruct (Hin n c Hn ltac:(by eexists)) as [Hlt Hm].
    specialize (Hf n Hm). lia.
Qed.

End written.

(** C18: Reading the state at a historical block gives what the state was at its end: after
    blocks later than [to] were executed and written, the accounts and slots read at [to]
    are those from before these blocks, if the history indices hold the blocks of the
    change sets and no chunk of them ends at [to]. *)
Theorem historical_reads to (t0 : StateTables T) p b s t ah sh :
  past to t0 -> rtc (step to) (new t0 p None, new t0 p None) (b, s) -> write_to_db b = Some t -> is_u64 to ->
  (forall a, is_address a -> searchable a (changed_accounts (content (account_change_set t)) a) to ah) ->
  (forall a l, is_address a -> word l ->
     searchable (storage_key a l) (changed_slots (content (storage_change_set t)) a l) to sh) ->
  (forall a, is_address a -> account_read (with_history t ah sh) a (Some to) = account_now t0 a) /\
  (forall a l, is_address a -> word l -> storage_read (with_history t ah sh) a l (Some to) = storage_now t0 a l).
Proof.
  intros Hp Hr Hw Hto Hah Hsh. pose proof (use_reach to t0 p b s Hr) as Hi.
  destruct (write_spec to t0 b) as (t' & Hw' & Ht); [by apply Hi..|done|]. simplify_eq. split.
  - intros a Ha. by apply (account_at_start to t0 t b s); [..|apply Hah].
  - intros a l Ha Hl. by apply (slot_at_start to t0 t b s); [..|apply Hsh].
Qed.

(** A read at the last block of a full chunk of the history index gives the current
    value: the search looks only into the chunk that ends at the block, although there
    are changes in the next chunk. *)
Theorem historical_read_at_chunk_end (t : StateTables T) a n c :
  is_address a -> is_u64 n -> n <> u64_max ->
  indexed a (changed_accounts (content (account_change_set t)) a) (account_history t) ->
  chunk_at (account_history t) a n = Some c ->
  account_read t a (Some n) = account_now t a /\
  exists m y, n < m /\ content (account_change_set t) !! account_change_key m a = Some y.
Proof.
  intros Ha Hn Hne Hix Hc. destruct (find_next_at_end a _ _ n c Hix Hn Hne Hc) as (Hf & m & Hm & Hlt). split.
  - by apply account_read_none.
  - apply elem_of_changed_accounts in Hm as [y Hy]; [|done]. by exists m, y.
Qed.

End specs.

(** ** Samples *)

#[local] Existing Instance map_table.map_kv.

Module sample_history.

Abbreviation start := sample_buffer.start.
Definition began : Buffer map_table.table := buf_begin_block 1 (new start 0 None).
Definition spent : Buffer map_table.table :=
  buf_update_account 9 (buf_read_account began 9) (Some sample_buffer.poor) began.

Lemma spending_executed : rtc (step 0) (new start 0 None, new start 0 None) (spent, began).
Proof.
  eapply rtc_l; [apply (step_begin 0 _ _ 1); simpl; lia|].
  apply rtc_once, (step_account 0 began began 9); [split; [reflexivity|discriminate]|unfold uint; lia|done].
Qed.

(** The index of the one change. *)
Definition accounts_index : map_table.table Treemap := {[ bitmap_key 9 u64_max := {[1]} ]}.

Lemma index_chunks a k : is_u64 k ->
  chunk_at accounts_index a k = if decide (a = 9 /\ k = u64_max) then Some {[1]} else None.
Proof.
  intros Hk. change (chunk_at accounts_index a k) with ((accounts_index : gmap Z Treemap) !! bitmap_key a k).
  unfold accounts_index. case_decide as E.
  - destruct E as [-> ->]. apply lookup_singleton_eq.
  - apply lookup_singleton_ne. intros E'. apply bitmap_key_inj in E'; [naive_solver|by split|done].
Qed.

Lemma index_searchable a n : is_u64 n -> n <> u64_max ->
  searchable a (if decide (a = 9) then {[1]} else ∅) n accounts_index.
Proof.
  intros Hn Hne. pose proof u64_max_u64 as Hm. split.
  - apply only_indexed.
    + intros x Hx. destruct (decide (a = 9)); [|set_solver]. assert (x = 1) as -> by set_solver. by split.
    + split; [intros k Hk Hkm|]; rewrite index_chunks by done.
      * rewrite decide_False by naive_solver. done.
      * destruct (decide (a = 9)); [rewrite !decide_True by done; rewrite decide_False by set_solver; done|].
        by rewrite decide_False, decide_True by naive_solver.
  - right. rewrite index_chunks, decide_False by naive_solver. done.
Qed.

Lemma changes_written t : written start spent t ->
  (forall a, is_address a -> changed_accounts (content (account_change_set t)) a = if decide (a = 9) then {[1]} else ∅) /\
  (forall a l, is_address a -> word l -> changed_slots (content (storage_change_set t)) a l = ∅).
Proof.
  intros Ht. split.
  - intros a Ha. apply set_eq. intros n. rewrite elem_of_changed_accounts by done. rewrite (wr_account_changes _ _ _ Ht).
    assert (account_entries (buf_account_changes spent) = [(account_change_key 1 9, Some sample_buffer.rich)]) as -> by reflexivity.
    change (content (account_change_set start)) with (∅ : gmap Z (option Account)). rewrite (right_id_L ∅ union). simpl.
    rewrite lookup_insert_is_Some, lookup_empty. split.
    + intros [E|[_ [? ?]]]; [|done]. destruct (account_change_parts n a Ha) as [E1 E2].
      destruct (account_change_parts 1 9 ltac:(by split)) as [E3 E4]. rewrite E in *.
      assert (n = 1) as -> by congruence. assert (a = 9) as -> by congruence. rewrite decide_True by done. set_solver.
    + case_decide; [|set_solver]. intros ->%elem_of_singleton. left. by subst.
  - intros a l Ha Hl. apply set_eq. intros n. rewrite elem_of_changed_slots by done. rewrite (wr_storage_changes _ _ _ Ht).
    assert (storage_entries (buf_storage_changes spent) = []) as -> by reflexivity.
    change (content (storage_change_set start)) with (∅ : gmap Z Z). rewrite (right_id_L ∅ union). simpl.
    rewrite lookup_empty. split; [by intros [? ?]|set_solver].
Qed.

(** A table of accounts with a full chunk that ends at block 3, and a change in block 7. *)
Definition changed_later : StateTables map_table.table := {|
  account_table := {[ 5 := sample_buffer.poor ]}; storage_table := ∅; code_table := ∅;
  account_change_set := <[account_change_key 3 5 := None]> {[ account_change_key 7 5 := Some sample_buffer.rich ]};
  storage_change_set := ∅; log_table := ∅;
  account_history := <[bitmap_key 5 3 := {[3]}]> {[ bitmap_key 5 u64_max := {[7]} ]};
  storage_history := ∅; state_call_traces := ∅ |}.

Lemma changed_later_at k c : is_u64 k -> chunk_at (account_history changed_later) 5 k = Some c ->
  k = 3 /\ c = {[3]} \/ k = u64_max /\ c = {[7]}.
Proof.
  intros Hk. change (chunk_at (account_history changed_later) 5 k) with
    ((<[bitmap_key 5 3 := {[3]}]> {[ bitmap_key 5 u64_max := {[7]} ]} : gmap Z Treemap) !! bitmap_key 5 k).
  intros [[E <-]|[_ [E <-]%lookup_singleton_Some]]%lookup_insert_Some;
    [left|right]; (apply bitmap_key_inj in E as [_ E]; [by subst|by split|done]).
Qed.

Lemma changed_later_indexed : indexed 5 (changed_accounts (content (account_change_set changed_later)) 5) (account_history changed_later).
Proof.
  assert (changed_accounts (content (account_change_set changed_later)) 5 = {[3; 7]}) as -> by (vm_compute; reflexivity).
  split.
  - intros m Hm. destruct (decide (m = 3)); [exists 3, {[3]}|exists u64_max, {[7]}];
      (split; [by split|split; [reflexivity|set_solver]]).
  - intros k c Hk [[-> ->]|[-> ->]]%changed_later_at; [| |done].
    + split_and!; [set_solver|set_solver|set_solver|]. intros m ->%elem_of_singleton. lia.
    + split_and!; [set_solver|set_solver|by left|]. intros m ->%elem_of_singleton. unfold u64_max. lia.
  - intros _. by eexists.
  - intros k c k' c' m Hk Hk' [[-> ->]|[-> ->]]%changed_later_at Hc' Hlt Hm; [|..|done];
      apply changed_later_at in Hc' as [[-> ->]|[-> ->]]; try done; unfold u64_max in *; try lia.
    apply elem_of_singleton in Hm as ->. lia.
Qed.

End sample_history.

Lemma historical_reads_witness : exists t,
  write_to_db sample_history.spent = Some t /\
  account_read (with_history t sample_history.accounts_index ∅) 9 (Some 0) = Some sample_buffer.rich.
Proof.
  destruct (write_spec 0 sample_history.start sample_history.spent) as (t & Hw & Ht);
    [reflexivity|reflexivity|apply (use_reach 0 sample_history.start 0 _ _ sample_history.spending_executed)..|exact sample_buffer.start_past|].
  exists t. split; [exact Hw|]. destruct (sample_history.changes_written t Ht) as [Ha Hs].
  destruct (historical_reads 0 sample_history.start 0 sample_history.spent sample_history.began t
    sample_history.accounts_index (∅ : map_table.table Treemap) sample_buffer.start_past sample_history.spending_executed Hw) as [Hres _].
  - by split.
  - intros a Haddr. rewrite (Ha a Haddr). apply sample_history.index_searchable; [by split|discriminate].
  - intros a l Haddr Hl. rewrite (Hs a l Haddr Hl). split; [apply sample_traces.empty_indexed|].
    right. apply (lookup_empty (M := gmap Z)).
  - rewrite (Hres 9); [reflexivity|]. by split.
Defined.

Lemma historical_read_at_chunk_end_witness :
  account_read sample_history.changed_later 5 (Some 3) = Some sample_buffer.poor /\
  exists m y, 3 < m /\ content (account_change_set sample_history.changed_later) !! account_change_key m 5 = Some y.
Proof.
  destruct (historical_read_at_chunk_end sample_history.changed_later 5 3 {[3]}) as [Hr Hm].
  - by split.
  - by split.
  - discriminate.
  - exact sample_history.changed_later_indexed.
  - reflexivity.
  - split; [|exact Hm]. rewrite Hr. reflexivity.
Defined.
