(* ===== verification/RlpDecode.v ===== *)
(** RLP encoding of transactions, decoding of transactions, headers, logs and receipts
    (src/models/transaction.rs, header.rs, log.rs and receipt.rs), and the messages of the
    network protocol (src/sentry: messages.rs, block_id.rs and message_decoder.rs).

    The reader of RLP is the one of another crate.  A class states what it says about the
    bytes that its writer made: the view of an encoded list has the views of its items,
    and the view of an encoded value gives the value back. *)
From S2P Require Import Prelude Word EvmState Transaction IntraBlockState Consensus MemState Rlp.
From Stdlib Require Import ZArith Lia Strings.Byte Strings.String.
From stdpp Require Import base list option numbers.
#[local] Open Scope Z_scope.

Inductive DecoderError :=
  | RlpReader                      (* an error of the reader *)
  | RlpIncorrectListLen
  | RlpInvalidLength
  | RlpExpectedToBeData
  | CustomError (message : string).

Inductive DecodeResult (A : Type) :=
  | DecodeOk (a : A)
  | DecodeErr (e : DecoderError).
Arguments DecodeOk {A} _.
Arguments DecodeErr {A} _.

#[export] Instance DecodeResult_ret : MRet DecodeResult := fun A a => DecodeOk a.
#[export] Instance DecodeResult_bind : MBind DecodeResult := fun A B f m =>
  match m with DecodeOk a => f a | DecodeErr e => DecodeErr e end.

Definition or_err {A} (e : DecoderError) (o : option A) : DecodeResult A :=
  match o with Some a => DecodeOk a | None => DecodeErr e end.

(** [?] on a result of the reader. *)
Abbreviation reader o := (or_err RlpReader o).

(** Items without bytes that were encoded elsewhere. *)
Fixpoint plain (i : RlpItem) : bool :=
  match i with RlpRaw _ => false | RlpListOf l => forallb plain l | _ => true end.

(** Views of type [R] on bytes; [None] is an error. *)
Class RlpView (R : Type) `{RlpStream} := {
  rlp_new : Bytes -> R;
  rlp_items : R -> option (list R);
  rlp_is_list : R -> bool;
  rlp_is_data : R -> bool;
  rlp_is_empty : R -> bool;
  rlp_data : R -> option Bytes;             (* the payload *)
  rlp_size : R -> Z;                        (* its length, zero for a list *)
  as_bool : R -> option bool;
  as_u8 : R -> option Z;
  as_u64 : R -> option Z;
  as_u256 : R -> option Z;
  as_address : R -> option Address;
  as_h64 : R -> option Z;
  as_h256 : R -> option Z;
  as_bloom : R -> option Bytes;
  as_bytes : R -> option Bytes;
  (* the view of an encoded item *)
  shows : R -> RlpItem -> Prop;
  shows_new i : plain i = true -> shows (rlp_new (rlp_out i)) i;
  shows_list r l : shows r (RlpListOf l) ->
    rlp_is_list r = true /\ rlp_is_data r = false /\
    (exists rs, rlp_items r = Some rs /\ Forall2 shows rs l) /\
    (exists payload, rlp_data r = Some payload /\ (l <> [] -> payload <> []));
  shows_data r d : shows r (RlpData d) ->
    rlp_is_list r = false /\ rlp_is_data r = true /\ rlp_is_empty r = bool_decide (d = []) /\
    rlp_data r = Some d /\ as_bytes r = Some d /\
    (blen d = 20 -> as_address r = Some (be_val d)) /\ (1 < blen d -> as_u8 r = None);
  shows_bool r b : shows r (RlpBool b) -> as_bool r = Some b;
  shows_u64 r n : shows r (RlpU64 n) -> is_u64 n -> as_u64 r = Some n;
  shows_u8 r n : shows r (RlpU64 n) -> 0 <= n < 256 -> as_u8 r = Some n;
  size_u64 r n : shows r (RlpU64 n) -> is_u64 n -> rlp_size r <= 8;
  size_h256 r h : shows r (RlpH256 h) -> rlp_size r = 32;
  shows_u256 r n : shows r (RlpU256 n) -> word n -> as_u256 r = Some n;
  shows_address r a : shows r (RlpAddress a) -> is_address a -> as_address r = Some a;
  shows_h64 r h : shows r (RlpH64 h) -> is_u64 h -> as_h64 r = Some h;
  shows_h256 r h : shows r (RlpH256 h) -> word h -> as_h256 r = Some h;
  shows_bloom r b : shows r (RlpBloom b) -> blen b = 256 -> as_bloom r = Some b;
  list_prefix l : exists b s, rlp_out (RlpListOf l) = b :: s /\ 0xc0 <= byte_val b;
}.

(** ** transaction.rs: encoding *)

(** [Encodable for TransactionAction]. *)
Definition action_item (a : TransactionAction) : RlpItem :=
  match a with
  | ActionCall address => RlpData (be_bytes 20 address)
  | ActionCreate => RlpData []
  end.

Definition access_item (i : AccessListItem) : RlpItem :=
  RlpListOf [RlpAddress (item_address i); RlpListOf (RlpH256 <$> slots i)].

Definition access_list_item (l : list AccessListItem) : RlpItem := RlpListOf (access_item <$> l).

Section encoding.
Context `{RlpStream}.

(** What is hashed for a signature: [Message::hash] before the digest. *)
Definition signing_bytes (m : Message) : Bytes :=
  match m with
  | Legacy chain_id nonce gas_price gas_limit action value input =>
      match chain_id with
      | Some chain_id =>
          rlp_out (RlpListOf [RlpU64 nonce; RlpU256 gas_price; RlpU64 gas_limit; action_item action;
                              RlpU256 value; RlpData input; RlpU64 chain_id; RlpU64 0; RlpU64 0])
      | None =>
          rlp_out (RlpListOf [RlpU64 nonce; RlpU256 gas_price; RlpU64 gas_limit; action_item action;
                              RlpU256 value; RlpData input])
      end
  | EIP2930 chain_id nonce gas_price gas_limit action value input access_list =>
      x01 :: rlp_out (RlpListOf [RlpU64 chain_id; RlpU64 nonce; RlpU256 gas_price; RlpU64 gas_limit;
                                 action_item action; RlpU256 value; RlpData input;
                                 access_list_item access_list])
  | EIP1559 chain_id nonce max_priority_fee_per_gas max_fee_per_gas gas_limit action value input access_list =>
      x02 :: rlp_out (RlpListOf [RlpU64 chain_id; RlpU64 nonce; RlpU256 max_priority_fee_per_gas;
                                 RlpU256 max_fee_per_gas; RlpU64 gas_limit; action_item action;
                                 RlpU256 value; RlpData input; access_list_item access_list])
  end.

(** [MessageWithSignature::encode_inner] into a new stream: [standalone] in a trie, as a
    string item in a list.  [None] is an overflow of the signature value. *)
Definition tx_encode_inner (t : MessageWithSignature) (standalone : bool) : option Bytes :=
  let sig := signature t in
  let typed (ty : byte) (l : list RlpItem) : Bytes :=
    let s1 := ty :: rlp_out (RlpListOf l) in
    if standalone then s1 else rlp_out (RlpData s1) in
  match message t with
  | Legacy chain_id nonce gas_price gas_limit action value input =>
      v ← to_v {| odd_y_parity := sig_odd_y_parity sig; yp_chain_id := chain_id |};
      Some (rlp_out (RlpListOf [RlpU64 nonce; RlpU256 gas_price; RlpU64 gas_limit; action_item action;
                                RlpU256 value; RlpData input; RlpU64 v; RlpU256 (sig_r sig);
                                RlpU256 (sig_s sig)]))
  | EIP2930 chain_id nonce gas_price gas_limit action value input access_list =>
      Some (typed x01 [RlpU64 chain_id; RlpU64 nonce; RlpU256 gas_price; RlpU64 gas_limit;
                       action_item action; RlpU256 value; RlpData input; access_list_item access_list;
                       RlpBool (sig_odd_y_parity sig); RlpU256 (sig_r sig); RlpU256 (sig_s sig)])
  | EIP1559 chain_id nonce max_priority_fee_per_gas max_fee_per_gas gas_limit action value input access_list =>
      Some (typed x02 [RlpU64 chain_id; RlpU64 nonce; RlpU256 max_priority_fee_per_gas;
                       RlpU256 max_fee_per_gas; RlpU64 gas_limit; action_item action; RlpU256 value;
                       RlpData input; access_list_item access_list;
                       RlpBool (sig_odd_y_parity sig); RlpU256 (sig_r sig); RlpU256 (sig_s sig)])
  end.

(** The item that [encode_inner] appends to a stream that goes on. *)
Definition tx_item (t : MessageWithSignature) : option RlpItem :=
  let sig := signature t in
  match message t with
  | Legacy chain_id nonce gas_price gas_limit action value input =>
      v ← to_v {| odd_y_parity := sig_odd_y_parity sig; yp_chain_id := chain_id |};
      Some (RlpListOf [RlpU64 nonce; RlpU256 gas_price; RlpU64 gas_limit; action_item action;
                       RlpU256 value; RlpData input; RlpU64 v; RlpU256 (sig_r sig); RlpU256 (sig_s sig)])
  | _ => b ← tx_encode_inner t true; Some (RlpData b)
  end.

Definition tx_trie_encode (t : MessageWithSignature) : option Bytes := tx_encode_inner t true.
Definition tx_rlp (t : MessageWithSignature) : option Bytes := tx_encode_inner t false.

Definition tx_hash `{Keccak} (t : MessageWithSignature) : option Z :=
  b ← tx_trie_encode t; Some (be_val (keccak_digest b)).

(** The hash that senders sign. *)
Definition message_signing `{Keccak} : SigningHash := {| signing_hash m := keccak_digest (signing_bytes m) |}.

End encoding.

(** ** Decoding *)

Section decoding.
Context {R : Type} `{RlpView R}.

(** [item_count()?] and the comparison. *)
Definition items_exactly (n : nat) (r : R) : DecodeResult (list R) :=
  rs ← reader (rlp_items r);
  if (length rs =? n)%nat then DecodeOk rs else DecodeErr RlpIncorrectListLen.

(** [val_at(i)?] with the decoder of the type, and [list_at(i)?]. *)
Definition val_at {A} (decode : R -> DecodeResult A) (rs : list R) (i : nat) : DecodeResult A :=
  r ← reader (rs !! i); decode r.

Fixpoint decode_all {A} (decode : R -> DecodeResult A) (rs : list R) : DecodeResult (list A) :=
  match rs with
  | [] => DecodeOk []
  | r :: rs => a ← decode r; l ← decode_all decode rs; DecodeOk (a :: l)
  end.

Definition as_list {A} (decode : R -> DecodeResult A) (r : R) : DecodeResult (list A) :=
  rs ← reader (rlp_items r); decode_all decode rs.

Definition dec_u64 (r : R) : DecodeResult Z := reader (as_u64 r).
Definition dec_u256 (r : R) : DecodeResult Z := reader (as_u256 r).
Definition dec_h256 (r : R) : DecodeResult Z := reader (as_h256 r).
Definition dec_address (r : R) : DecodeResult Address := reader (as_address r).
Definition dec_bytes (r : R) : DecodeResult Bytes := reader (as_bytes r).
Definition dec_bool (r : R) : DecodeResult bool := reader (as_bool r).

(** [Decodable for TransactionAction]. *)
Definition dec_action (r : R) : DecodeResult TransactionAction :=
  if rlp_is_empty r then
    if rlp_is_data r then DecodeOk ActionCreate else DecodeErr RlpExpectedToBeData
  else a ← dec_address r; DecodeOk (ActionCall a).

(** [Decodable for AccessListItem]. *)
Definition dec_access_item (r : R) : DecodeResult AccessListItem :=
  rs ← reader (rlp_items r);
  address ← val_at dec_address rs 0;
  slots ← val_at (as_list dec_h256) rs 1;
  DecodeOk {| item_address := address; slots := slots |}.

Definition bad_signature : DecoderError := CustomError "Invalid transaction signature format".

(** [EIP2930] after its type byte. *)
Definition dec_eip2930 (r : R) : DecodeResult MessageWithSignature :=
  rs ← items_exactly 11 r;
  chain_id ← val_at dec_u64 rs 0;
  nonce ← val_at dec_u64 rs 1;
  gas_price ← val_at dec_u256 rs 2;
  gas_limit ← val_at dec_u64 rs 3;
  action ← val_at dec_action rs 4;
  value ← val_at dec_u256 rs 5;
  input ← val_at dec_bytes rs 6;
  access_list ← val_at (as_list dec_access_item) rs 7;
  odd ← val_at dec_bool rs 8;
  r ← val_at dec_u256 rs 9;
  s ← val_at dec_u256 rs 10;
  sig ← or_err bad_signature (MessageSignature_new odd r s);
  DecodeOk {| message := EIP2930 chain_id nonce gas_price gas_limit action value input access_list;
              signature := sig |}.

(** [EIP1559] after its type byte. *)
Definition dec_eip1559 (r : R) : DecodeResult MessageWithSignature :=
  rs ← items_exactly 12 r;
  chain_id ← val_at dec_u64 rs 0;
  nonce ← val_at dec_u64 rs 1;
  max_priority_fee_per_gas ← val_at dec_u256 rs 2;
  max_fee_per_gas ← val_at dec_u256 rs 3;
  gas_limit ← val_at dec_u64 rs 4;
  action ← val_at dec_action rs 5;
  value ← val_at dec_u256 rs 6;
  input ← val_at dec_bytes rs 7;
  access_list ← val_at (as_list dec_access_item) rs 8;
  odd ← val_at dec_bool rs 9;
  r ← val_at dec_u256 rs 10;
  s ← val_at dec_u256 rs 11;
  sig ← or_err bad_signature (MessageSignature_new odd r s);
  DecodeOk {| message := EIP1559 chain_id nonce max_priority_fee_per_gas max_fee_per_gas gas_limit action
                           value input access_list;
              signature := sig |}.

Definition dec_legacy (r : R) : DecodeResult MessageWithSignature :=
  rs ← items_exactly 9 r;
  v ← val_at dec_u64 rs 6;
  y ← or_err (CustomError "Invalid recovery ID") (from_v v);
  r ← val_at dec_u256 rs 7;
  s ← val_at dec_u256 rs 8;
  sig ← or_err bad_signature (MessageSignature_new (odd_y_parity y) r s);
  nonce ← val_at dec_u64 rs 0;
  gas_price ← val_at dec_u256 rs 1;
  gas_limit ← val_at dec_u64 rs 2;
  action ← val_at dec_action rs 3;
  value ← val_at dec_u256 rs 4;
  input ← val_at dec_bytes rs 5;
  DecodeOk {| message := Legacy (yp_chain_id y) nonce gas_price gas_limit action value input;
              signature := sig |}.

(** [MessageWithSignature::trie_decode]. *)
Definition tx_trie_decode (slice : Bytes) : DecodeResult MessageWithSignature :=
  match slice with
  | [] => DecodeErr (CustomError "empty slice")
  | first :: s =>
      if byte_val first =? 1 then dec_eip2930 (rlp_new s)
      else if byte_val first =? 2 then dec_eip1559 (rlp_new s)
      else
        let rlp := rlp_new slice in
        if rlp_is_list rlp then dec_legacy rlp else DecodeErr (CustomError "invalid tx type")
  end.

(** [Decodable for MessageWithSignature]. *)
Definition tx_decode (rlp : R) : DecodeResult MessageWithSignature :=
  slice ← reader (rlp_data rlp);
  match slice with
  | [] => DecodeErr (CustomError "empty slice")
  | first :: s =>
      if rlp_is_list rlp then dec_legacy rlp
      else if byte_val first =? 1 then dec_eip2930 (rlp_new s)
      else if byte_val first =? 2 then dec_eip1559 (rlp_new s)
      else DecodeErr (CustomError "invalid tx type")
  end.

(** ** header.rs *)

(** [rlp.next().ok_or(..)?.as_val()?]. *)
Definition next_val {A} (e : DecoderError) (as_val : R -> option A) (rs : list R) : DecodeResult (A * list R) :=
  match rs with
  | [] => DecodeErr e
  | r :: rs => a ← reader (as_val r); DecodeOk (a, rs)
  end.

(** [rlp.iter()]: nothing when the bytes are not a list. *)
Definition rlp_iter (r : R) : list R := default [] (rlp_items r).

Definition dec_header (r : R) : DecodeResult BlockHeader :=
  let next {A} (as_val : R -> option A) := next_val RlpInvalidLength as_val in
  '(parent_hash, rs) ← next as_h256 (rlp_iter r);
  '(ommers_hash, rs) ← next as_h256 rs;
  '(beneficiary, rs) ← next as_address rs;
  '(state_root, rs) ← next as_h256 rs;
  '(transactions_root, rs) ← next as_h256 rs;
  '(receipts_root, rs) ← next as_h256 rs;
  '(logs_bloom, rs) ← next as_bloom rs;
  '(difficulty, rs) ← next as_u256 rs;
  '(number, rs) ← next as_u64 rs;
  '(gas_limit, rs) ← next as_u64 rs;
  '(gas_used, rs) ← next as_u64 rs;
  '(timestamp, rs) ← next as_u64 rs;
  '(extra_data, rs) ← next as_bytes rs;
  '(mix_hash, rs) ← next as_h256 rs;
  '(nonce, rs) ← next as_h64 rs;
  base_fee_per_gas ← match rs with
                     | [] => DecodeOk None
                     | r :: _ => f ← dec_u256 r; DecodeOk (Some f)
                     end;
  DecodeOk {| header.parent_hash := parent_hash; header.ommers_hash := ommers_hash;
              header.beneficiary := beneficiary; header.state_root := state_root;
              header.transactions_root := transactions_root; header.receipts_root := receipts_root;
              header.logs_bloom := be_val logs_bloom; header.difficulty := difficulty;
              header.number := number; header.gas_limit := gas_limit; header.gas_used := gas_used;
              header.timestamp := timestamp; header.extra_data := extra_data;
              header.mix_hash := mix_hash; header.nonce := nonce;
              header.base_fee_per_gas := base_fee_per_gas |}.

(** ** log.rs and receipt.rs *)

Definition dec_log (r : R) : DecodeResult Log :=
  '(address, rs) ← next_val RlpIncorrectListLen as_address (rlp_iter r);
  match rs with
  | [] => DecodeErr RlpIncorrectListLen
  | topics :: rs =>
      topics ← as_list dec_h256 topics;
      '(data, rs) ← next_val RlpIncorrectListLen as_bytes rs;
      DecodeOk {| log_address := address; log_topics := topics; log_data := data |}
  end.

Record UntypedReceipt := {
  ur_success : bool;
  ur_cumulative_gas_used : Z;
  ur_bloom : Bytes;
  ur_logs : list Log;
}.

(** The derived decoder. *)
Definition dec_untyped (r : R) : DecodeResult UntypedReceipt :=
  rs ← reader (rlp_items r);
  success_ ← val_at dec_bool rs 0;
  cumulative_gas_used ← val_at dec_u64 rs 1;
  bloom_ ← val_at (fun r => reader (as_bloom r)) rs 2;
  logs ← val_at (as_list dec_log) rs 3;
  DecodeOk {| ur_success := success_; ur_cumulative_gas_used := cumulative_gas_used;
              ur_bloom := bloom_; ur_logs := logs |}.

Definition into_receipt (u : UntypedReceipt) (tx_type : TxType) : Receipt := {|
  receipt_tx_type := tx_type; success := ur_success u; receipt_gas_used := ur_cumulative_gas_used u;
  bloom := ur_bloom u; receipt_logs := ur_logs u;
|}.

(** [Receipt::decode_inner] and [Decodable for Receipt]. *)
Definition dec_receipt_inner (r : R) (is_legacy : bool) : DecodeResult Receipt :=
  if is_legacy then
    inner ← dec_untyped r;
    DecodeOk (into_receipt inner TxLegacy)
  else
    tx_type ← reader (as_u8 r);
    inner ← dec_untyped r;
    tx_type ← or_err (CustomError "Invalid tx type") (TxType_try_from tx_type);
    DecodeOk (into_receipt inner tx_type).

Definition dec_receipt (r : R) : DecodeResult Receipt := dec_receipt_inner r (negb (rlp_is_data r)).

End decoding.

(** ** The messages of the protocol *)

Module eth.

Inductive EthMessageId :=
  | IdStatus | IdNewBlockHashes | IdTransactions | IdGetBlockHeaders | IdBlockHeaders | IdGetBlockBodies
  | IdBlockBodies | IdNewBlock | IdNewPooledTransactionHashes | IdGetPooledTransactions
  | IdPooledTransactions | IdGetNodeData | IdNodeData | IdGetReceipts | IdReceipts.

(** The discriminants. *)
Definition id_number (i : EthMessageId) : Z :=
  match i with
  | IdStatus => 0 | IdNewBlockHashes => 1 | IdTransactions => 2 | IdGetBlockHeaders => 3
  | IdBlockHeaders => 4 | IdGetBlockBodies => 5 | IdBlockBodies => 6 | IdNewBlock => 7
  | IdNewPooledTransactionHashes => 8 | IdGetPooledTransactions => 9 | IdPooledTransactions => 10
  | IdGetNodeData => 13 | IdNodeData => 14 | IdGetReceipts => 15 | IdReceipts => 16
  end.

Inductive BlockId := BlockId_Hash (hash : Z) | BlockId_Number (number : Z).

Record BlockHashAndNumber := { bhn_hash : Z; bhn_number : Z }.

Record GetBlockHeadersMessageParams := { start_block : BlockId; limit : Z; skip : Z; reverse : Z }.

Record GetBlockHeadersMessage := { request_id : Z; params : GetBlockHeadersMessageParams }.

(** A fork identifier is of another crate, which also encodes it. *)
Record StatusMessage := {
  protocol_version : Z;
  network_id : Z;
  total_difficulty : Z;
  best_hash : Z;
  genesis_hash : Z;
  fork_id : RlpItem;
}.

(** The answers carry the identifier of their request first. *)
Inductive Message :=
  | Status (m : StatusMessage)
  | NewBlockHashes (ids : list BlockHashAndNumber)
  | GetBlockHeaders (m : GetBlockHeadersMessage)
  | BlockHeaders (id : Z) (headers : list BlockHeader)
  | NewBlock (block : Block) (total_difficulty : Z)
  | NewPooledTransactionHashes (ids : list Z)
  | Transactions (txs : list MessageWithSignature)
  | GetBlockBodies (id : Z) (block_hashes : list Z)
  | BlockBodies (id : Z) (block_bodies : list BlockBody)
  | GetPooledTransactions (id : Z) (tx_hashes : list Z)
  | PooledTransactions (id : Z) (txs : list MessageWithSignature)
  | GetNodeData (id : Z) (hashes : list Z)
  | NodeData (id : Z) (data : list Bytes)
  | GetReceipts (id : Z) (block_hashes : list Z)
  | Receipts (id : Z) (receipts : list (list Receipt)).

Definition eth_id (m : Message) : EthMessageId :=
  match m with
  | Status _ => IdStatus
  | NewBlockHashes _ => IdNewBlockHashes
  | GetBlockHeaders _ => IdGetBlockHeaders
  | BlockHeaders _ _ => IdBlockHeaders
  | NewBlock _ _ => IdNewBlock
  | NewPooledTransactionHashes _ => IdNewPooledTransactionHashes
  | Transactions _ => IdTransactions
  | GetBlockBodies _ _ => IdGetBlockBodies
  | BlockBodies _ _ => IdBlockBodies
  | GetPooledTransactions _ _ => IdGetPooledTransactions
  | PooledTransactions _ _ => IdPooledTransactions
  | GetNodeData _ _ => IdGetNodeData
  | NodeData _ _ => IdNodeData
  | GetReceipts _ _ => IdGetReceipts
  | Receipts _ _ => IdReceipts
  end.

(** *** Encoding; integers of all widths are encoded alike *)

Definition block_id_item (b : BlockId) : RlpItem :=
  match b with BlockId_Hash h => RlpH256 h | BlockId_Number n => RlpU64 n end.

Definition params_item (p : GetBlockHeadersMessageParams) : RlpItem :=
  RlpListOf [block_id_item (start_block p); RlpU64 (limit p); RlpU64 (skip p); RlpU64 (reverse p)].

Definition hash_and_number_item (b : BlockHashAndNumber) : RlpItem :=
  RlpListOf [RlpH256 (bhn_hash b); RlpU64 (bhn_number b)].

Definition hashes_item (l : list Z) : RlpItem := RlpListOf (RlpH256 <$> l).
Definition headers_item (l : list BlockHeader) : RlpItem := RlpListOf (header_item <$> l).

Section messages.
Context `{RlpStream}.

(** [None] is the overflow of a signature value. *)
Definition txs_item (l : list MessageWithSignature) : option RlpItem := RlpListOf <$> mapM tx_item l.

Definition body_item (b : BlockBody) : option RlpItem :=
  txs ← txs_item (body_transactions b);
  Some (RlpListOf [txs; headers_item (body_ommers b)]).

Definition block_item (b : Block) : option RlpItem :=
  txs ← txs_item (block_transactions b);
  Some (RlpListOf [header_item (block_header b); txs; headers_item (block_ommers b)]).

(** A receipt in a list. *)
Definition receipt_item (r : Receipt) : RlpItem :=
  match receipt_tx_type r with
  | TxLegacy => receipt_fields r
  | _ => RlpData (encode_inner r true)
  end.

(** [Encodable for Message]. *)
Definition message_item (m : Message) : option RlpItem :=
  match m with
  | Status m =>
      Some (RlpListOf [RlpU64 (protocol_version m); RlpU64 (network_id m); RlpU256 (total_difficulty m);
                       RlpH256 (best_hash m); RlpH256 (genesis_hash m); fork_id m])
  | NewBlockHashes ids => Some (RlpListOf (hash_and_number_item <$> ids))
  | GetBlockHeaders m => Some (RlpListOf [RlpU64 (request_id m); params_item (params m)])
  | BlockHeaders id headers => Some (RlpListOf [RlpU64 id; headers_item headers])
  | NewBlock block difficulty => b ← block_item block; Some (RlpListOf [b; RlpU64 difficulty])
  | NewPooledTransactionHashes ids => Some (hashes_item ids)
  | Transactions txs => txs_item txs
  | GetBlockBodies id hashes => Some (RlpListOf [RlpU64 id; hashes_item hashes])
  | BlockBodies id bodies => l ← mapM body_item bodies; Some (RlpListOf [RlpU64 id; RlpListOf l])
  | GetPooledTransactions id hashes => Some (RlpListOf [RlpU64 id; hashes_item hashes])
  | PooledTransactions id txs => l ← txs_item txs; Some (RlpListOf [RlpU64 id; l])
  | GetNodeData id hashes => Some (RlpListOf [RlpU64 id; hashes_item hashes])
  | NodeData id data => Some (RlpListOf [RlpU64 id; RlpListOf (RlpData <$> data)])
  | GetReceipts id hashes => Some (RlpListOf [RlpU64 id; hashes_item hashes])
  | Receipts id receipts =>
      Some (RlpListOf [RlpU64 id; RlpListOf ((fun l => RlpListOf (receipt_item <$> l)) <$> receipts)])
  end.

Definition encode_message (m : Message) : option Bytes := rlp_out <$> message_item m.

End messages.

(** *** Decoding *)

Section decoding.
Context {R : Type} `{RlpView R}.

Definition dec_block_id (r : R) : DecodeResult BlockId :=
  if rlp_size r =? 32 then h ← dec_h256 r; DecodeOk (BlockId_Hash h)
  else n ← dec_u64 r; DecodeOk (BlockId_Number n).

(** The derived decoders do not look at items after the last field. *)
Definition dec_params (r : R) : DecodeResult GetBlockHeadersMessageParams :=
  rs ← reader (rlp_items r);
  start ← val_at dec_block_id rs 0;
  limit ← val_at dec_u64 rs 1;
  skip ← val_at dec_u64 rs 2;
  reverse ← val_at (fun r => reader (as_u8 r)) rs 3;
  DecodeOk {| start_block := start; limit := limit; skip := skip; reverse := reverse |}.

Definition dec_hash_and_number (r : R) : DecodeResult BlockHashAndNumber :=
  rs ← reader (rlp_items r);
  hash ← val_at dec_h256 rs 0;
  number ← val_at dec_u64 rs 1;
  DecodeOk {| bhn_hash := hash; bhn_number := number |}.

Definition dec_body (r : R) : DecodeResult BlockBody :=
  rs ← reader (rlp_items r);
  txs ← val_at (as_list tx_decode) rs 0;
  ommers ← val_at (as_list dec_header) rs 1;
  DecodeOk {| body_transactions := txs; body_ommers := ommers |}.

Definition dec_block (r : R) : DecodeResult Block :=
  rs ← reader (rlp_items r);
  header ← val_at dec_header rs 0;
  txs ← val_at (as_list tx_decode) rs 1;
  ommers ← val_at (as_list dec_header) rs 2;
  DecodeOk {| block_header := header; block_transactions := txs; block_ommers := ommers |}.

(** The messages of two fields, the first of which is the identifier of the request. *)
Definition dec_answer {A} (field : R -> DecodeResult A) (make : Z -> A -> Message) (r : R)
    : DecodeResult Message :=
  rs ← reader (rlp_items r);
  id ← val_at dec_u64 rs 0;
  a ← val_at field rs 1;
  DecodeOk (make id a).

Definition dec_new_block (r : R) : DecodeResult Message :=
  rs ← reader (rlp_items r);
  block ← val_at dec_block rs 0;
  total_difficulty ← val_at dec_u64 rs 1;
  DecodeOk (NewBlock block total_difficulty).

Definition unsupported : DecoderError := CustomError "decode_rlp_message: unsupported message".

Definition decode_rlp_message (i : EthMessageId) (message_bytes : Bytes) : DecodeResult Message :=
  let r := rlp_new message_bytes in
  match i with
  | IdNewBlockHashes => ids ← as_list dec_hash_and_number r; DecodeOk (NewBlockHashes ids)
  | IdGetBlockHeaders =>
      dec_answer dec_params (fun id p => GetBlockHeaders {| request_id := id; params := p |}) r
  | IdBlockHeaders => dec_answer (as_list dec_header) BlockHeaders r
  | IdNewBlock => dec_new_block r
  | IdNewPooledTransactionHashes => ids ← as_list dec_h256 r; DecodeOk (NewPooledTransactionHashes ids)
  | IdGetBlockBodies => dec_answer (as_list dec_h256) GetBlockBodies r
  | IdBlockBodies => dec_answer (as_list dec_body) BlockBodies r
  | IdGetNodeData => dec_answer (as_list dec_h256) GetNodeData r
  | IdNodeData => dec_answer (as_list dec_bytes) NodeData r
  | IdGetReceipts => dec_answer (as_list dec_h256) GetReceipts r
  | IdReceipts => dec_answer (as_list (as_list dec_receipt)) Receipts r
  | IdGetPooledTransactions => dec_answer (as_list dec_h256) GetPooledTransactions r
  | IdPooledTransactions => dec_answer (as_list tx_decode) PooledTransactions r
  | IdStatus | IdTransactions => DecodeErr unsupported
  end.

End decoding.

End eth.
