(* ===== verification/RlpDecodeSpec.v ===== *)
(** Decoding inverts encoding, for transactions, headers and receipts without a type; a
    signature is made over bytes that determine the message. *)
From S2P Require Import Prelude Word EvmState Transaction IntraBlockState Consensus MemState Rlp RlpDecode.
From Stdlib Require Import ZArith Lia Strings.Byte Strings.String.
From stdpp Require Import base list option numbers countable.
#[local] Open Scope Z_scope.

(** ** Ranges *)

Definition action_wf (a : TransactionAction) : Prop :=
  match a with ActionCall address => is_address address | ActionCreate => True end.

Definition access_wf (i : AccessListItem) : Prop := is_address (item_address i) /\ Forall word (slots i).

(** The fields of a message are within their types. *)
Definition message_wf (m : Message) : Prop :=
  match m with
  | Legacy chain_id nonce gas_price gas_limit action value input =>
      from_option is_u64 True chain_id /\ is_u64 nonce /\ word gas_price /\ is_u64 gas_limit /\ action_wf action /\ word value
  | EIP2930 chain_id nonce gas_price gas_limit action value input access_list =>
      is_u64 chain_id /\ is_u64 nonce /\ word gas_price /\ is_u64 gas_limit /\ action_wf action /\ word value /\
      Forall access_wf access_list
  | EIP1559 chain_id nonce max_priority_fee_per_gas max_fee_per_gas gas_limit action value input access_list =>
      is_u64 chain_id /\ is_u64 nonce /\ word max_priority_fee_per_gas /\ word max_fee_per_gas /\ is_u64 gas_limit /\
      action_wf action /\ word value /\ Forall access_wf access_list
  end.

Definition signature_wf (s : MessageSignature) : Prop :=
  word (sig_r s) /\ word (sig_s s) /\ is_valid_signature (sig_r s) (sig_s s) = true.

Definition tx_wf (t : MessageWithSignature) : Prop := message_wf (message t) /\ signature_wf (signature t).

#[export] Instance TxType_eq_dec : EqDecision TxType.
Proof. solve_decision. Defined.

Lemma signature_new s : signature_wf s -> MessageSignature_new (sig_odd_y_parity s) (sig_r s) (sig_s s) = Some s.
Proof. intros (_ & _ & Hv). unfold MessageSignature_new. rewrite Hv. by destruct s. Qed.

(** No encoder of this file appends raw bytes. *)
Lemma plain_list {A} (item : A -> RlpItem) l : (forall a, plain (item a) = true) -> forallb plain (item <$> l) = true.
Proof. intros Hi. induction l as [|a l IH]; [done|]. rewrite fmap_cons. cbn. by rewrite Hi, IH. Qed.

Lemma plain_action a : plain (action_item a) = true.
Proof. by destruct a. Qed.

Lemma plain_access l : plain (access_list_item l) = true.
Proof. apply plain_list. intros i. cbn. by rewrite plain_list. Qed.

Lemma plain_log_item l : plain (log_item l) = true.
Proof. cbn. by rewrite plain_list. Qed.

Lemma plain_header h : plain (header_item h) = true.
Proof. unfold header_item, base_fee_items. by destruct (header.base_fee_per_gas h). Qed.

Ltac plainly := cbn [plain forallb]; rewrite ?plain_action, ?plain_access; done.

Section decoding.
Context {R : Type} `{RlpView R}.

(** ** Values *)

(** A decoder reads back the values that an encoder wrote. *)
Definition reads {A} (dec : R -> DecodeResult A) (item : A -> RlpItem) (valid : A -> Prop) : Prop :=
  forall a r, valid a -> shows r (item a) -> dec r = DecodeOk a.

Lemma reads_eq {A} {dec : R -> DecodeResult A} {item valid} (Hd : reads dec item valid) a r :
  valid a -> shows r (item a) -> dec r = DecodeOk a.
Proof. apply Hd. Qed.

Lemma reads_u64 : reads dec_u64 RlpU64 is_u64.
Proof. intros n r Hn Hr. unfold dec_u64. by rewrite (shows_u64 r n Hr Hn). Qed.
Lemma reads_u256 : reads dec_u256 RlpU256 (uint 256).
Proof. intros n r Hn Hr. unfold dec_u256. by rewrite (shows_u256 r n Hr Hn). Qed.
Lemma reads_h256 : reads dec_h256 RlpH256 (uint 256).
Proof. intros n r Hn Hr. unfold dec_h256. by rewrite (shows_h256 r n Hr Hn). Qed.
Lemma reads_address : reads dec_address RlpAddress is_address.
Proof. intros n r Hn Hr. unfold dec_address. by rewrite (shows_address r n Hr Hn). Qed.
Lemma reads_bool : reads dec_bool RlpBool (fun _ => True).
Proof. intros b r _ Hr. unfold dec_bool. by rewrite (shows_bool r b Hr). Qed.
Lemma reads_bytes : reads dec_bytes RlpData (fun _ => True).
Proof. intros d r _ Hr. unfold dec_bytes. by destruct (shows_data r d Hr) as (_ & _ & _ & _ & -> & _). Qed.

Lemma reads_action : reads dec_action action_item action_wf.
Proof.
  intros [a|] r Ha Hr; cbn [action_item] in Hr.
  - destruct (shows_data r _ Hr) as (_ & _ & He & _ & _ & Hadr & _). unfold dec_action, dec_address. rewrite He.
    assert (length (be_bytes 20 a) = 20%nat) as Hl by apply length_be_bytes.
    rewrite bool_decide_false by (intros E; by rewrite E in Hl).
    rewrite Hadr by (unfold blen; by rewrite Hl). rewrite be_val_bytes, (Z.mod_small a); [done|exact Ha].
  - destruct (shows_data r _ Hr) as (_ & Hd & He & _). unfold dec_action. by rewrite He, Hd.
Qed.

Lemma reads_all {A} (dec : R -> DecodeResult A) item valid l rs : reads dec item valid -> Forall valid l ->
  Forall2 shows rs (item <$> l) -> decode_all dec rs = DecodeOk l.
Proof.
  intros Hd Hl. revert rs. induction Hl as [|a l Ha _ IH]; intros rs Hrs; rewrite ?fmap_cons in Hrs.
  - by apply Forall2_nil_inv_r in Hrs as ->.
  - apply Forall2_cons_inv_r in Hrs as (r & rs' & Hr & Hrs & ->). cbn [decode_all].
    rewrite (reads_eq Hd a r Ha Hr). cbn. by rewrite (IH rs' Hrs).
Qed.

Lemma reads_list {A} (dec : R -> DecodeResult A) item valid : reads dec item valid ->
  reads (as_list dec) (fun l => RlpListOf (item <$> l)) (Forall valid).
Proof.
  intros Hd l r Hl Hr. destruct (shows_list r _ Hr) as (_ & _ & (rs & Hrs & Hall) & _).
  unfold as_list. rewrite Hrs. cbn. by eapply reads_all.
Qed.

Lemma reads_access_item : reads dec_access_item access_item access_wf.
Proof.
  intros [a l] r [Ha Hl] Hr. destruct (shows_list r _ Hr) as (_ & _ & (rs & Hrs & Hall) & _).
  apply Forall2_cons_inv_r in Hall as (r0 & rs0 & Hr0 & Hall & ->).
  apply Forall2_cons_inv_r in Hall as (r1 & rs1 & Hr1 & Hall & ->).
  unfold dec_access_item. rewrite Hrs. cbn. rewrite (reads_eq reads_address _ _ Ha Hr0). cbn.
  by rewrite (reads_eq (reads_list _ _ _ reads_h256) _ _ Hl Hr1).
Qed.

Lemma reads_access_list : reads (as_list dec_access_item) access_list_item (Forall access_wf).
Proof. intros l r Hl Hr. by apply (reads_list _ _ _ reads_access_item). Qed.

(** ** Transactions *)

Ltac split_items :=
  repeat match goal with
  | Hall : Forall2 shows _ (_ :: _) |- _ =>
      let r := fresh "r" in let rs := fresh "rs" in let Hr := fresh "Hr" in
      apply Forall2_cons_inv_r in Hall as (r & rs & Hr & Hall & ->)
  | Hall : Forall2 shows _ [] |- _ => apply Forall2_nil_inv_r in Hall as ->
  end.

Ltac read_step :=
  match goal with
  | Hr : shows ?r (RlpU64 ?n) |- context [dec_u64 ?r] => rewrite (reads_eq reads_u64 n r) by assumption
  | Hr : shows ?r (RlpU256 ?n) |- context [dec_u256 ?r] => rewrite (reads_eq reads_u256 n r) by assumption
  | Hr : shows ?r (action_item ?a) |- context [dec_action ?r] => rewrite (reads_eq reads_action a r) by assumption
  | Hr : shows ?r (RlpData ?d) |- context [dec_bytes ?r] => rewrite (reads_eq reads_bytes d r I) by assumption
  | Hr : shows ?r (RlpBool ?b) |- context [dec_bool ?r] => rewrite (reads_eq reads_bool b r I) by assumption
  | Hr : shows ?r (access_list_item ?l) |- context [as_list dec_access_item ?r] =>
      rewrite (reads_eq reads_access_list l r) by assumption
  end; cbn [mbind DecodeResult_bind].

Ltac read_fields :=
  unfold items_exactly, val_at;
  match goal with Hrs : rlp_items ?r = _ |- context [rlp_items ?r] => rewrite Hrs end;
  cbn [or_err mbind DecodeResult_bind length Nat.eqb lookup list_lookup]; repeat read_step.

Lemma reads_legacy chain_id nonce gas_price gas_limit action value input sig v r :
  message_wf (Legacy chain_id nonce gas_price gas_limit action value input) -> signature_wf sig ->
  to_v {| odd_y_parity := sig_odd_y_parity sig; yp_chain_id := chain_id |} = Some v ->
  shows r (RlpListOf [RlpU64 nonce; RlpU256 gas_price; RlpU64 gas_limit; action_item action;
    RlpU256 value; RlpData input; RlpU64 v; RlpU256 (sig_r sig); RlpU256 (sig_s sig)]) ->
  dec_legacy r = DecodeOk
    {| message := Legacy chain_id nonce gas_price gas_limit action value input; signature := sig |}.
Proof.
  intros (Hc & Hn & Hgp & Hgl & Ha & Hval) Hsig Hv Hr. pose proof Hsig as (Hsr & Hss & _).
  destruct (shows_list r _ Hr) as (_ & _ & (rs & Hrs & Hall) & _). split_items.
  assert (is_u64 v) as Hv64.
  { unfold to_v in Hv. cbn [yp_chain_id odd_y_parity] in Hv. destruct chain_id as [c|].
    - destruct (u64_checked (c * 2)); [|done]. cbn in Hv. destruct (u64_checked _); [|done]. cbn in Hv.
      apply checked_inv in Hv as [-> Hv]. unfold uint, u64_max in *. lia.
    - apply checked_inv in Hv as [-> Hv]. unfold uint, u64_max in *. lia. }
  assert (from_v v = Some {| odd_y_parity := sig_odd_y_parity sig; yp_chain_id := chain_id |}) as Hfv.
  { destruct (signature_v_roundtrip v Hv64) as (_ & H1 & H2). destruct chain_id as [c|].
    - apply (H1 _ c); [done|by destruct Hc|done].
    - by apply H2. }
  unfold dec_legacy. read_fields. rewrite Hfv. cbn [or_err mbind DecodeResult_bind odd_y_parity yp_chain_id].
  repeat read_step. rewrite (signature_new sig Hsig). cbn [or_err mbind DecodeResult_bind]. repeat read_step. done.
Qed.

Lemma reads_eip2930 chain_id nonce gas_price gas_limit action value input access_list sig r :
  message_wf (EIP2930 chain_id nonce gas_price gas_limit action value input access_list) -> signature_wf sig ->
  shows r (RlpListOf [RlpU64 chain_id; RlpU64 nonce; RlpU256 gas_price; RlpU64 gas_limit;
    action_item action; RlpU256 value; RlpData input; access_list_item access_list;
    RlpBool (sig_odd_y_parity sig); RlpU256 (sig_r sig); RlpU256 (sig_s sig)]) ->
  dec_eip2930 r = DecodeOk
    {| message := EIP2930 chain_id nonce gas_price gas_limit action value input access_list; signature := sig |}.
Proof.
  intros (Hc & Hn & Hgp & Hgl & Ha & Hval & Hacc) Hsig Hr. pose proof Hsig as (Hsr & Hss & _).
  destruct (shows_list r _ Hr) as (_ & _ & (rs & Hrs & Hall) & _). split_items.
  unfold dec_eip2930. read_fields. by rewrite (signature_new sig Hsig).
Qed.

Lemma reads_eip1559 chain_id nonce tip cap gas_limit action value input access_list sig r :
  message_wf (EIP1559 chain_id nonce tip cap gas_limit action value input access_list) -> signature_wf sig ->
  shows r (RlpListOf [RlpU64 chain_id; RlpU64 nonce; RlpU256 tip; RlpU256 cap; RlpU64 gas_limit;
    action_item action; RlpU256 value; RlpData input; access_list_item access_list;
    RlpBool (sig_odd_y_parity sig); RlpU256 (sig_r sig); RlpU256 (sig_s sig)]) ->
  dec_eip1559 r = DecodeOk
    {| message := EIP1559 chain_id nonce tip cap gas_limit action value input access_list; signature := sig |}.
Proof.
  intros (Hc & Hn & Htip & Hcap & Hgl & Ha & Hval & Hacc) Hsig Hr. pose proof Hsig as (Hsr & Hss & _).
  destruct (shows_list r _ Hr) as (_ & _ & (rs & Hrs & Hall) & _). split_items.
  unfold dec_eip1559. read_fields. by rewrite (signature_new sig Hsig).
Qed.
(** The signature value of a message with this chain fits into a machine word. *)
Definition v_fits (m : Message) : Prop :=
  match m with Legacy (Some c) _ _ _ _ _ _ => 2 * c + 36 < 2 ^ 64 | _ => True end.

Lemma to_v_some odd c : from_option is_u64 True c -> from_option (fun c => 2 * c + 36 < 2 ^ 64) True c ->
  exists v, to_v {| odd_y_parity := odd; yp_chain_id := c |} = Some v.
Proof.
  destruct c as [c|]; cbn.
  - unfold uint. intros Hc Hf. unfold to_v. cbn [yp_chain_id odd_y_parity].
    rewrite u64_checked_some by (unfold u64_max; lia). cbn. rewrite u64_checked_some by (unfold u64_max; lia). cbn.
    rewrite u64_checked_some by (unfold u64_max; destruct odd; cbn; lia). eauto.
  - intros _ _. destruct odd; cbn; eauto.
Qed.

Lemma trie_decode_list l : forallb plain l = true ->
  tx_trie_decode (rlp_out (RlpListOf l)) = dec_legacy (rlp_new (rlp_out (RlpListOf l))).
Proof.
  intros Hp. destruct (list_prefix l) as (b & s & E & Hb).
  destruct (shows_list _ _ (shows_new (RlpListOf l) Hp)) as (Hl & _).
  rewrite E in *. cbn [tx_trie_decode]. rewrite !(proj2 (Z.eqb_neq _ _)) by lia. by rewrite Hl.
Qed.

Lemma decode_list_view r l : shows r (RlpListOf l) -> l <> [] -> tx_decode r = dec_legacy r.
Proof.
  intros Hr Hne. destruct (shows_list _ _ Hr) as (Hl & _ & _ & payload & Hp & Hpne).
  unfold tx_decode. rewrite Hp. cbn [or_err mbind DecodeResult_bind]. destruct payload; [by destruct Hpne|]. by rewrite Hl.
Qed.

Lemma decode_list l : forallb plain l = true -> l <> [] ->
  tx_decode (rlp_new (rlp_out (RlpListOf l))) = dec_legacy (rlp_new (rlp_out (RlpListOf l))).
Proof. intros Hp. apply decode_list_view, shows_new, Hp. Qed.

Lemma decode_typed_view r ty b : shows r (RlpData (ty :: b)) -> tx_decode r =
  if byte_val ty =? 1 then dec_eip2930 (rlp_new b) else if byte_val ty =? 2 then dec_eip1559 (rlp_new b)
  else DecodeErr (CustomError "invalid tx type"%string).
Proof.
  intros Hr. destruct (shows_data _ _ Hr) as (Hl & _ & _ & Hd & _).
  unfold tx_decode. rewrite Hd. cbn [or_err mbind DecodeResult_bind]. by rewrite Hl.
Qed.

Lemma decode_typed ty b : tx_decode (rlp_new (rlp_out (RlpData (ty :: b)))) =
  if byte_val ty =? 1 then dec_eip2930 (rlp_new b) else if byte_val ty =? 2 then dec_eip1559 (rlp_new b)
  else DecodeErr (CustomError "invalid tx type"%string).
Proof. by apply decode_typed_view, shows_new. Qed.

Lemma tx_roundtrip t : tx_wf t -> v_fits (message t) ->
  exists b b', tx_trie_encode t = Some b /\ tx_trie_decode b = DecodeOk t /\
    tx_rlp t = Some b' /\ tx_decode (rlp_new b') = DecodeOk t.
Proof.
  destruct t as [m sig]. intros [Hm Hsig] Hv. cbn [message signature] in *.
  unfold tx_trie_encode, tx_rlp, tx_encode_inner. cbn [message signature]. destruct m.
  - destruct (to_v_some (sig_odd_y_parity sig) chain_id) as [v Ev]; [apply Hm|by destruct chain_id|].
    rewrite Ev. cbn [mbind option_bind]. eexists _, _. split_and!; [done| |done|].
    + rewrite trie_decode_list by plainly. apply (reads_legacy _ _ _ _ _ _ _ _ v); [done|done|done|apply shows_new; plainly].
    + rewrite decode_list by (plainly || done). apply (reads_legacy _ _ _ _ _ _ _ _ v); [done|done|done|apply shows_new; plainly].
  - eexists _, _. split_and!; [done| |done|].
    + cbn [tx_trie_decode]. change (byte_val x01 =? 1) with true. cbv iota. apply reads_eip2930; [done|done|apply shows_new; plainly].
    + rewrite decode_typed. change (byte_val x01 =? 1) with true. cbv iota. apply reads_eip2930; [done|done|apply shows_new; plainly].
  - eexists _, _. split_and!; [done| |done|].
    + cbn [tx_trie_decode]. change (byte_val x02 =? 1) with false. change (byte_val x02 =? 2) with true. cbv iota.
      apply reads_eip1559; [done|done|apply shows_new; plainly].
    + rewrite decode_typed. change (byte_val x02 =? 1) with false. change (byte_val x02 =? 2) with true. cbv iota.
      apply reads_eip1559; [done|done|apply shows_new; plainly].
Qed.

(** ** Signed bytes *)

Lemma same_value {A} {dec : R -> DecodeResult A} {item valid} (Hd : reads dec item valid) a a' r :
  shows r (item a) -> shows r (item a') -> valid a -> valid a' -> a = a'.
Proof. intros H1 H2 Ha Ha'. pose proof (Hd a r Ha H1). pose proof (Hd a' r Ha' H2). congruence. Qed.

Lemma same_items l l' : forallb plain l = true -> forallb plain l' = true ->
  rlp_out (RlpListOf l) = rlp_out (RlpListOf l') ->
  exists rs, Forall2 shows rs l /\ Forall2 shows rs l'.
Proof.
  intros Hp Hp' E. destruct (shows_list _ _ (shows_new (RlpListOf l) Hp)) as (_ & _ & (rs & Hrs & Hall) & _).
  destruct (shows_list _ _ (shows_new (RlpListOf l') Hp')) as (_ & _ & (rs' & Hrs' & Hall') & _).
  rewrite <- E in Hrs'. exists rs. split; [done|]. congruence.
Qed.

Ltac split_both :=
  repeat match goal with
  | Hall : Forall2 shows (_ :: _) (_ :: _) |- _ => apply Forall2_cons_iff in Hall as [? Hall]
  | Hall : Forall2 shows (_ :: _) [] |- _ => by apply Forall2_cons_nil_inv in Hall
  | Hall : Forall2 shows [] (_ :: _) |- _ => by apply Forall2_nil_cons_inv in Hall
  | Hall : Forall2 shows [] [] |- _ => clear Hall
  | Hall : Forall2 shows ?rs (_ :: _) |- _ => is_var rs;
      let r := fresh "r" in let rs' := fresh "rs" in let Hr := fresh "Hr" in
      apply Forall2_cons_inv_r in Hall as (r & rs' & Hr & Hall & ->)
  | Hall : Forall2 shows ?rs [] |- _ => is_var rs; apply Forall2_nil_inv_r in Hall as ->
  end.

Ltac same :=
  repeat match goal with
  | H1 : shows ?r (RlpU64 ?a), H2 : shows ?r (RlpU64 ?b) |- _ =>
      first [constr_eq a b; clear H2 | let E := fresh in assert (a = b) as E by (by apply (same_value reads_u64 a b r)); clear H2; subst]
  | H1 : shows ?r (RlpU256 ?a), H2 : shows ?r (RlpU256 ?b) |- _ =>
      first [constr_eq a b; clear H2 | let E := fresh in assert (a = b) as E by (by apply (same_value reads_u256 a b r)); clear H2; subst]
  | H1 : shows ?r (RlpData ?a), H2 : shows ?r (RlpData ?b) |- _ =>
      first [constr_eq a b; clear H2 | let E := fresh in assert (a = b) as E by (by apply (same_value reads_bytes a b r)); clear H2; subst]
  | H1 : shows ?r (action_item ?a), H2 : shows ?r (action_item ?b) |- _ =>
      first [constr_eq a b; clear H2 | let E := fresh in assert (a = b) as E by (by apply (same_value reads_action a b r)); clear H2; subst]
  | H1 : shows ?r (access_list_item ?a), H2 : shows ?r (access_list_item ?b) |- _ =>
      first [constr_eq a b; clear H2 | let E := fresh in assert (a = b) as E by (by apply (same_value reads_access_list a b r)); clear H2; subst]
  end.

Lemma typed_not_list ty b l : byte_val ty < 192 -> ty :: b <> rlp_out (RlpListOf l).
Proof. intros Ht E. destruct (list_prefix l) as (c & s & E' & Hc). rewrite E' in E. injection E as -> _. lia. Qed.

Lemma signing_bytes_inj m m' : message_wf m -> message_wf m' -> signing_bytes m = signing_bytes m' -> m = m'.
Proof.
  intros Hm Hm' E.
  destruct m as [c| |], m' as [c'| |]; cbn [signing_bytes] in E;
    try (destruct c); try (destruct c');
    try (by apply typed_not_list in E); try (symmetry in E; by apply typed_not_list in E); try discriminate E;
    try (injection E as E); apply same_items in E as (rs & H1 & H2); try plainly; split_both; cbn [message_wf from_option] in *;
    destruct_and?; same; done.
Qed.
(** ** Headers *)

(** All fields of a header are within their types. *)
Record header_ranges (h : BlockHeader) : Prop := {
  hr_wf : header.wf h;
  hr_parent : word (header.parent_hash h);
  hr_ommers : word (header.ommers_hash h);
  hr_beneficiary : is_address (header.beneficiary h);
  hr_state : word (header.state_root h);
  hr_transactions : word (header.transactions_root h);
  hr_receipts : word (header.receipts_root h);
  hr_bloom : uint 2048 (header.logs_bloom h);
  hr_mix : word (header.mix_hash h);
  hr_nonce : is_u64 (header.nonce h);
}.

Lemma next_shows {A} e (as_val : R -> option A) a r rs : as_val r = Some a ->
  next_val e as_val (r :: rs) = DecodeOk (a, rs).
Proof. intros E. cbn. by rewrite E. Qed.

Lemma header_read h r : header_ranges h -> shows r (header_item h) -> dec_header r = DecodeOk h.
Proof.
  intros [(Hn & Hgl & Hgu & Ht & Hd & Hf) Hp Ho Hb Hs Htx Hre Hbl Hm Hno] Hr.
  destruct (shows_list r _ Hr) as (_ & _ & (rs & Hrs & Hall) & _).
  unfold header_prefix, base_fee_items in Hall. cbn [app] in Hall. split_items.
  unfold dec_header, rlp_iter. rewrite Hrs. cbn [from_option id].
  rewrite (next_shows _ as_h256 (header.parent_hash h)) by (by apply shows_h256). cbn [mbind DecodeResult_bind].
  rewrite (next_shows _ as_h256 (header.ommers_hash h)) by (by apply shows_h256). cbn [mbind DecodeResult_bind].
  rewrite (next_shows _ as_address (header.beneficiary h)) by (by apply shows_address). cbn [mbind DecodeResult_bind].
  rewrite (next_shows _ as_h256 (header.state_root h)) by (by apply shows_h256). cbn [mbind DecodeResult_bind].
  rewrite (next_shows _ as_h256 (header.transactions_root h)) by (by apply shows_h256). cbn [mbind DecodeResult_bind].
  rewrite (next_shows _ as_h256 (header.receipts_root h)) by (by apply shows_h256). cbn [mbind DecodeResult_bind].
  rewrite (next_shows _ as_bloom (be_bytes 256 (header.logs_bloom h)))
    by (apply shows_bloom; [done|unfold blen; by rewrite length_be_bytes]). cbn [mbind DecodeResult_bind].
  rewrite (next_shows _ as_u256 (header.difficulty h)) by (by apply shows_u256). cbn [mbind DecodeResult_bind].
  rewrite (next_shows _ as_u64 (header.number h)) by (by apply shows_u64). cbn [mbind DecodeResult_bind].
  rewrite (next_shows _ as_u64 (header.gas_limit h)) by (by apply shows_u64). cbn [mbind DecodeResult_bind].
  rewrite (next_shows _ as_u64 (header.gas_used h)) by (by apply shows_u64). cbn [mbind DecodeResult_bind].
  rewrite (next_shows _ as_u64 (header.timestamp h)) by (by apply shows_u64). cbn [mbind DecodeResult_bind].
  rewrite (next_shows _ as_bytes (header.extra_data h)) by (by apply shows_data). cbn [mbind DecodeResult_bind].
  rewrite (next_shows _ as_h256 (header.mix_hash h)) by (by apply shows_h256). cbn [mbind DecodeResult_bind].
  rewrite (next_shows _ as_h64 (header.nonce h)) by (by apply shows_h64). cbn [mbind DecodeResult_bind].
  assert (be_val (be_bytes 256 (header.logs_bloom h)) = header.logs_bloom h) as Ebloom.
  { rewrite be_val_bytes. apply Z.mod_small. exact Hbl. }
  destruct (header.base_fee_per_gas h) as [f|] eqn:Ef; split_items.
  - rewrite (reads_eq reads_u256 f) by done. cbn [mbind DecodeResult_bind]. rewrite Ebloom, <- Ef. by destruct h.
  - cbn [mbind DecodeResult_bind]. rewrite Ebloom, <- Ef. by destruct h.
Qed.

(** ** Receipts *)

Definition log_wf (l : Log) : Prop := is_address (log_address l) /\ Forall word (log_topics l).

Definition receipt_wf (r : Receipt) : Prop :=
  is_u64 (receipt_gas_used r) /\ blen (bloom r) = 256 /\ Forall log_wf (receipt_logs r).

Lemma reads_log : reads dec_log log_item log_wf.
Proof.
  intros [a l d] r [Ha Hl] Hr. destruct (shows_list r _ Hr) as (_ & _ & (rs & Hrs & Hall) & _).
  cbn [log_address log_topics log_data] in *. split_items. unfold dec_log, rlp_iter. rewrite Hrs. cbn [from_option id].
  rewrite (next_shows _ as_address a) by (by apply shows_address). cbn [mbind DecodeResult_bind].
  rewrite (reads_eq (reads_list _ _ _ reads_h256) l) by done. cbn [mbind DecodeResult_bind].
  by rewrite (next_shows _ as_bytes d) by (by apply shows_data).
Qed.

Lemma receipt_read x r : receipt_tx_type x = TxLegacy -> receipt_wf x -> shows r (receipt_fields x) ->
  dec_receipt r = DecodeOk x.
Proof.
  intros Hty (Hg & Hb & Hl) Hr. destruct (shows_list r _ Hr) as (_ & Hd & (rs & Hrs & Hall) & _).
  unfold dec_receipt. rewrite Hd. cbn [negb]. unfold dec_receipt_inner, dec_untyped. rewrite Hrs.
  split_items. cbn [or_err mbind DecodeResult_bind]. unfold val_at. cbn [lookup list_lookup or_err mbind DecodeResult_bind].
  rewrite (reads_eq reads_bool (success x)) by done. cbn [mbind DecodeResult_bind].
  rewrite (reads_eq reads_u64 (receipt_gas_used x)) by done. cbn [mbind DecodeResult_bind].
  rewrite (shows_bloom _ (bloom x)) by done. cbn [or_err mbind DecodeResult_bind].
  rewrite (reads_eq (reads_list _ _ _ reads_log) (receipt_logs x)) by done. cbn [mbind DecodeResult_bind].
  unfold into_receipt. cbn. rewrite <- Hty. by destruct x.
Qed.

Lemma typed_receipt_unreadable x : receipt_tx_type x <> TxLegacy ->
  dec_receipt (rlp_new (receipt_rlp x)) = DecodeErr RlpReader.
Proof.
  intros Hty. assert (exists ty, receipt_rlp x = rlp_out (RlpData (ty :: rlp_out (receipt_fields x)))) as [ty ->].
  { unfold receipt_rlp, encode_inner. destruct (receipt_tx_type x); [done|eauto|eauto]. }
  destruct (shows_data _ _ (shows_new (RlpData (ty :: rlp_out (receipt_fields x))) eq_refl)) as (_ & Hd & _ & _ & _ & _ & Hu).
  unfold dec_receipt. rewrite Hd. cbn [negb]. unfold dec_receipt_inner. rewrite Hu; [done|].
  destruct (list_prefix [RlpBool (success x); RlpU64 (receipt_gas_used x); RlpBloom (bloom x);
    RlpListOf (log_item <$> receipt_logs x)]) as (b & s & E & _).
  unfold receipt_fields. rewrite E. unfold blen. cbn [length]. lia.
Qed.

(** ** Messages of the protocol *)

(** A decoder reads back what an encoder wrote that can overflow. *)
Definition reads_partly {A} (dec : R -> DecodeResult A) (item : A -> option RlpItem) (valid : A -> Prop) : Prop :=
  forall a i r, valid a -> item a = Some i -> plain i = true /\ (shows r i -> dec r = DecodeOk a).

Lemma reads_mapM {A} (dec : R -> DecodeResult A) item valid : reads_partly dec item valid ->
  reads_partly (as_list dec) (fun l => RlpListOf <$> mapM item l) (Forall valid).
Proof.
  intros Hd l i r Hl Hi. apply fmap_Some in Hi as (is_ & Hm & ->). apply mapM_Some in Hm.
  cbn [plain]. split.
  - induction Hm as [|a j l js Hj _ IH]; [done|]. apply Forall_cons_1 in Hl as [Ha Hl]. cbn.
    destruct (Hd a j r Ha Hj) as [-> _]. by apply IH.
  - intros Hr. destruct (shows_list r _ Hr) as (_ & _ & (rs & Hrs & Hall) & _).
    unfold as_list. rewrite Hrs. cbn [or_err mbind DecodeResult_bind]. clear Hr Hrs. revert rs Hall.
    induction Hm as [|a j l js Hj _ IH]; intros rs Hall.
    + by apply Forall2_nil_inv_r in Hall as ->.
    + apply Forall2_cons_inv_r in Hall as (r0 & rs0 & Hr0 & Hall & ->).
      apply Forall_cons_1 in Hl as [Ha Hl]. cbn [decode_all].
      destruct (Hd a j r0 Ha Hj) as [_ ->]; [|done]. cbn [mbind DecodeResult_bind]. by rewrite IH.
Qed.

Lemma tx_item_rlp t : tx_rlp t = rlp_out <$> tx_item t.
Proof.
  unfold tx_rlp, tx_item, tx_encode_inner. destruct (message t) as [c| |]; [|done|done].
  by destruct (to_v _).
Qed.

Lemma reads_tx : reads_partly tx_decode tx_item tx_wf.
Proof.
  intros [m sig] i r [Hm Hsig] Hi. cbn [message signature] in *. unfold tx_item, tx_encode_inner in Hi.
  cbn [message signature] in Hi. destruct m.
  - apply bind_Some in Hi as (v & Ev & [= <-]). split; [plainly|]. intros Hr.
    rewrite (decode_list_view r _ Hr) by done. by apply (reads_legacy _ _ _ _ _ _ _ _ v).
  - injection Hi as <-. split; [done|]. intros Hr. rewrite (decode_typed_view r _ _ Hr).
    change (byte_val x01 =? 1) with true. cbv iota. apply reads_eip2930; [done|done|apply shows_new; plainly].
  - injection Hi as <-. split; [done|]. intros Hr. rewrite (decode_typed_view r _ _ Hr).
    change (byte_val x02 =? 1) with false. change (byte_val x02 =? 2) with true. cbv iota.
    apply reads_eip1559; [done|done|apply shows_new; plainly].
Qed.

Lemma reads_txs : reads_partly (as_list tx_decode) eth.txs_item (Forall tx_wf).
Proof. apply reads_mapM, reads_tx. Qed.

Lemma reads_headers : reads (as_list dec_header) eth.headers_item (Forall header_ranges).
Proof. apply reads_list. intros h r. apply header_read. Qed.

Lemma reads_hashes : reads (as_list dec_h256) eth.hashes_item (Forall word).
Proof. apply reads_list, reads_h256. Qed.

Lemma plain_headers l : plain (eth.headers_item l) = true.
Proof. apply plain_list, plain_header. Qed.

Lemma plain_hashes l : plain (eth.hashes_item l) = true.
Proof. by apply plain_list. Qed.

Definition body_wf (b : BlockBody) : Prop :=
  Forall tx_wf (body_transactions b) /\ Forall header_ranges (body_ommers b).

Definition block_wf (b : Block) : Prop :=
  header_ranges (block_header b) /\ Forall tx_wf (block_transactions b) /\ Forall header_ranges (block_ommers b).

Lemma reads_body : reads_partly eth.dec_body eth.body_item body_wf.
Proof.
  intros [txs ommers] i r [Ht Ho] Hi. cbn [body_transactions body_ommers] in *.
  unfold eth.body_item in Hi. cbn in Hi. apply bind_Some in Hi as (j & Hj & [= <-]).
  split; [cbn [plain forallb]; rewrite plain_headers; by rewrite (proj1 (reads_txs txs j r Ht Hj))|]. intros Hr.
  destruct (shows_list r _ Hr) as (_ & _ & (rs & Hrs & Hall) & _). split_items.
  unfold eth.dec_body. rewrite Hrs. unfold val_at. cbn [or_err mbind DecodeResult_bind lookup list_lookup].
  rewrite (proj2 (reads_txs txs j r0 Ht Hj)) by done. cbn [mbind DecodeResult_bind].
  by rewrite (reads_eq reads_headers ommers) by done.
Qed.

Lemma reads_block : reads_partly eth.dec_block eth.block_item block_wf.
Proof.
  intros [h txs ommers] i r (Hh & Ht & Ho) Hi. cbn [block_header block_transactions block_ommers] in *.
  unfold eth.block_item in Hi. cbn in Hi. apply bind_Some in Hi as (j & Hj & [= <-]).
  split; [cbn [plain forallb]; rewrite plain_headers, plain_header; by rewrite (proj1 (reads_txs txs j r Ht Hj))|].
  intros Hr. destruct (shows_list r _ Hr) as (_ & _ & (rs & Hrs & Hall) & _). split_items.
  unfold eth.dec_block. rewrite Hrs. unfold val_at. cbn [or_err mbind DecodeResult_bind lookup list_lookup].
  rewrite (header_read h) by done. cbn [mbind DecodeResult_bind].
  rewrite (proj2 (reads_txs txs j r1 Ht Hj)) by done. cbn [mbind DecodeResult_bind].
  by rewrite (reads_eq reads_headers ommers) by done.
Qed.

Definition block_id_wf (b : eth.BlockId) : Prop :=
  match b with eth.BlockId_Hash h => word h | eth.BlockId_Number n => is_u64 n end.

Lemma reads_block_id : reads eth.dec_block_id eth.block_id_item block_id_wf.
Proof.
  intros [h|n] r Hb Hr; cbn in Hb, Hr; unfold eth.dec_block_id.
  - rewrite (size_h256 r h Hr). cbn. by rewrite (reads_eq reads_h256 h).
  - pose proof (size_u64 r n Hr Hb). rewrite (proj2 (Z.eqb_neq _ _)) by lia.
    by rewrite (reads_eq reads_u64 n).
Qed.

Definition params_wf (p : eth.GetBlockHeadersMessageParams) : Prop :=
  block_id_wf (eth.start_block p) /\ is_u64 (eth.limit p) /\ is_u64 (eth.skip p) /\ 0 <= eth.reverse p < 256.

Lemma reads_params : reads eth.dec_params eth.params_item params_wf.
Proof.
  intros [b l k v] r (Hb & Hl & Hk & Hv) Hr. cbn in Hb, Hl, Hk, Hv.
  destruct (shows_list r _ Hr) as (_ & _ & (rs & Hrs & Hall) & _). cbn in Hall. split_items.
  unfold eth.dec_params. rewrite Hrs. unfold val_at. cbn [or_err mbind DecodeResult_bind lookup list_lookup].
  rewrite (reads_eq reads_block_id b) by done. cbn [mbind DecodeResult_bind]. repeat read_step.
  by rewrite (shows_u8 _ v).
Qed.

Lemma reads_hash_and_number : reads eth.dec_hash_and_number eth.hash_and_number_item
  (fun b => word (eth.bhn_hash b) /\ is_u64 (eth.bhn_number b)).
Proof.
  intros [h n] r [Hh Hn] Hr. cbn in Hh, Hn. destruct (shows_list r _ Hr) as (_ & _ & (rs & Hrs & Hall) & _).
  cbn in Hall. split_items. unfold eth.dec_hash_and_number. rewrite Hrs. unfold val_at.
  cbn [or_err mbind DecodeResult_bind lookup list_lookup].
  rewrite (reads_eq reads_h256 h) by done. cbn [mbind DecodeResult_bind]. by rewrite (reads_eq reads_u64 n).
Qed.

(** A list of values some of which cannot be decoded, with the same error. *)
Definition reads_unless {A} (dec : R -> DecodeResult A) (item : A -> RlpItem) (valid : A -> Prop)
    (good : A -> bool) (e : DecoderError) : Prop :=
  forall a r, valid a -> shows r (item a) -> dec r = if good a then DecodeOk a else DecodeErr e.

Lemma reads_unless_list {A} (dec : R -> DecodeResult A) item valid good e : reads_unless dec item valid good e ->
  reads_unless (as_list dec) (fun l => RlpListOf (item <$> l)) (Forall valid) (forallb good) e.
Proof.
  intros Hd l r Hl Hr. destruct (shows_list r _ Hr) as (_ & _ & (rs & Hrs & Hall) & _).
  unfold as_list. rewrite Hrs. cbn [or_err mbind DecodeResult_bind]. clear Hr Hrs. revert rs Hall.
  induction Hl as [|a l Ha _ IH]; intros rs Hall.
  - by apply Forall2_nil_inv_r in Hall as ->.
  - rewrite fmap_cons in Hall. apply Forall2_cons_inv_r in Hall as (r0 & rs0 & Hr0 & Hall & ->). cbn [decode_all forallb].
    rewrite (Hd a r0 Ha Hr0). destruct (good a); [|done]. cbn [mbind DecodeResult_bind andb].
    rewrite (IH rs0 Hall). by destruct (forallb good l).
Qed.

Definition untyped (x : Receipt) : bool := bool_decide (receipt_tx_type x = TxLegacy).

Lemma reads_receipt : reads_unless dec_receipt eth.receipt_item receipt_wf untyped RlpReader.
Proof.
  intros x r Hx Hr. unfold untyped, eth.receipt_item, encode_inner in *. case_bool_decide as Hty.
  - rewrite Hty in Hr. by apply receipt_read.
  - assert (exists ty, shows r (RlpData (ty :: rlp_out (receipt_fields x)))) as [ty Hd]
      by (destruct (receipt_tx_type x); [done|eauto|eauto]).
    destruct (shows_data _ _ Hd) as (_ & Hdata & _ & _ & _ & _ & Hu).
    unfold dec_receipt. rewrite Hdata. cbn [negb]. unfold dec_receipt_inner. rewrite Hu; [done|].
    destruct (list_prefix [RlpBool (success x); RlpU64 (receipt_gas_used x); RlpBloom (bloom x);
      RlpListOf (log_item <$> receipt_logs x)]) as (b & s & E & _).
    unfold receipt_fields. rewrite E. unfold blen. cbn [length]. lia.
Qed.

Lemma answer_read {A} (field : R -> DecodeResult A) make id (a : DecodeResult A) i :
  is_u64 id -> plain i = true -> (forall r, shows r i -> field r = a) ->
  eth.dec_answer field make (rlp_new (rlp_out (RlpListOf [RlpU64 id; i]))) = (x ← a; DecodeOk (make id x)).
Proof.
  intros Hid Hp Hf. assert (plain (RlpListOf [RlpU64 id; i]) = true) as Hpl by (cbn [plain forallb]; by rewrite Hp).
  destruct (shows_list _ _ (shows_new _ Hpl)) as (_ & _ & (rs & Hrs & Hall) & _). split_items.
  unfold eth.dec_answer. rewrite Hrs. unfold val_at. cbn [or_err mbind DecodeResult_bind lookup list_lookup].
  repeat read_step. by rewrite Hf.
Qed.

Lemma hashes_answer make id l : is_u64 id -> Forall word l ->
  eth.dec_answer (as_list dec_h256) make (rlp_new (rlp_out (RlpListOf [RlpU64 id; eth.hashes_item l]))) =
  DecodeOk (make id l).
Proof.
  intros Hid Hl. rewrite (answer_read _ _ id (DecodeOk l)); [done|done|apply plain_hashes|].
  intros r. by apply (reads_eq reads_hashes).
Qed.

(** An answer whose field can overflow when it is encoded. *)
Lemma partly_answer {A} (field : R -> DecodeResult A) item valid make id a i :
  reads_partly field item valid -> is_u64 id -> valid a -> item a = Some i ->
  eth.dec_answer field make (rlp_new (rlp_out (RlpListOf [RlpU64 id; i]))) = DecodeOk (make id a).
Proof.
  intros Hf Hid Ha Hi. rewrite (answer_read _ _ id (DecodeOk a)); [done|done| |].
  - by apply (Hf a i (rlp_new [])).
  - intros r. by apply (Hf a i r).
Qed.

Lemma new_block_read block d j : block_wf block -> is_u64 d -> eth.block_item block = Some j ->
  eth.dec_new_block (rlp_new (rlp_out (RlpListOf [j; RlpU64 d]))) = DecodeOk (eth.NewBlock block d).
Proof.
  intros Hb Hd Hj. pose proof (fun r => reads_block block j r Hb Hj) as Hread.
  assert (plain (RlpListOf [j; RlpU64 d]) = true) as Hp by (cbn [plain forallb]; by rewrite (proj1 (Hread (rlp_new [])))).
  destruct (shows_list _ _ (shows_new _ Hp)) as (_ & _ & (rs & Hrs & Hall) & _). split_items.
  unfold eth.dec_new_block. rewrite Hrs. unfold val_at. cbn [or_err mbind DecodeResult_bind lookup list_lookup].
  rewrite (proj2 (Hread r)) by done. cbn [mbind DecodeResult_bind]. by repeat read_step.
Qed.

End decoding.

Section theorems.
Context {R : Type} `{RlpView R}.

(** C19: decoding a transaction inverts encoding it, in both forms: as it is put into a trie
    and as an item of a list; encoding does not panic if the chain id leaves room for the
    signature value in a machine word. *)
Theorem transaction_roundtrip t : tx_wf t -> v_fits (message t) ->
  exists b b', tx_trie_encode t = Some b /\ tx_trie_decode b = DecodeOk t /\
    tx_rlp t = Some b' /\ tx_decode (rlp_new b') = DecodeOk t.
Proof. apply tx_roundtrip. Qed.

(** C20: the bytes that are hashed for a signature determine the message: a signature made
    for one message, on one chain, is not one for another message or another chain, unless
    the hashes collide. *)
Theorem signed_bytes_determine_message m m' : message_wf m -> message_wf m' -> m <> m' ->
  signing_bytes m <> signing_bytes m'.
Proof. intros Hm Hm' Hne E. by apply Hne, signing_bytes_inj. Qed.

(** Decoding a header inverts encoding it, with and without a base fee. *)
Theorem header_roundtrip h : header_ranges h -> dec_header (rlp_new (rlp_out (header_item h))) = DecodeOk h.
Proof. intros Hh. by apply header_read, shows_new, plain_header. Qed.

(** A receipt of a legacy transaction is decoded from its encoding; one of a typed
    transaction never is: the decoder reads the type as a byte from the string that holds
    the type and the receipt, and fails. *)
Theorem receipts_decode x : receipt_wf x ->
  dec_receipt (rlp_new (receipt_rlp x)) =
  if bool_decide (receipt_tx_type x = TxLegacy) then DecodeOk x else DecodeErr RlpReader.
Proof.
  intros Hx. case_bool_decide as Hty; [|by apply typed_receipt_unreadable].
  unfold receipt_rlp, encode_inner. rewrite Hty. apply receipt_read; [done..|]. apply shows_new. cbn. by rewrite (plain_list log_item) by apply plain_log_item.
Qed.

(** The fields of a message of the protocol are within their types. *)
Definition eth_message_wf (m : eth.Message) : Prop :=
  match m with
  | eth.Status _ => True
  | eth.NewBlockHashes ids => Forall (fun b => word (eth.bhn_hash b) /\ is_u64 (eth.bhn_number b)) ids
  | eth.GetBlockHeaders m => is_u64 (eth.request_id m) /\ params_wf (eth.params m)
  | eth.BlockHeaders id headers => is_u64 id /\ Forall header_ranges headers
  | eth.NewBlock block difficulty => block_wf block /\ is_u64 difficulty
  | eth.NewPooledTransactionHashes ids => Forall word ids
  | eth.Transactions txs => Forall tx_wf txs
  | eth.GetBlockBodies id hashes | eth.GetPooledTransactions id hashes | eth.GetNodeData id hashes
  | eth.GetReceipts id hashes => is_u64 id /\ Forall word hashes
  | eth.BlockBodies id bodies => is_u64 id /\ Forall body_wf bodies
  | eth.PooledTransactions id txs => is_u64 id /\ Forall tx_wf txs
  | eth.NodeData id data => is_u64 id
  | eth.Receipts id receipts => is_u64 id /\ Forall (Forall receipt_wf) receipts
  end.

(** What the decoder should give for the bytes of a message: it knows nothing of a status or of
    transactions that are announced, and no receipts with a type. *)
Definition expected (m : eth.Message) : DecodeResult eth.Message :=
  match m with
  | eth.Status _ | eth.Transactions _ => DecodeErr eth.unsupported
  | eth.Receipts _ receipts => if forallb (forallb untyped) receipts then DecodeOk m else DecodeErr RlpReader
  | _ => DecodeOk m
  end.

Lemma plain_receipt x : plain (eth.receipt_item x) = true.
Proof.
  unfold eth.receipt_item. destruct (receipt_tx_type x); [|done|done]. cbn.
  by rewrite (plain_list log_item) by apply plain_log_item.
Qed.

(** C39: A message of the network protocol is decoded from its bytes, under the identifier of its
    kind: the decoder gives the message back, for every kind with all values within their types;
    only a status and announced transactions are refused, and receipts among which one has a
    type. *)
Theorem eth_message_roundtrip m b : eth_message_wf m -> eth.encode_message m = Some b ->
  eth.decode_rlp_message (eth.eth_id m) b = expected m.
Proof.
  intros Hm Hb. apply fmap_Some in Hb as (i & Hi & ->).
  destruct m as [st|ids|[id p]|id l|blk d|ids|txs|id l|id l|id l|id txs|id l|id l|id l|id l];
    cbn [eth.message_item eth_message_wf eth.eth_id eth.decode_rlp_message expected] in *; try done.
  - injection Hi as <-. rewrite (reads_eq (reads_list _ _ _ reads_hash_and_number) ids); [done|done|].
    by apply shows_new, plain_list.
  - injection Hi as <-. destruct Hm as [Hid Hp]. rewrite (answer_read _ _ id (DecodeOk p)); [done|done| |].
    + cbn. by destruct (eth.start_block p).
    + intros r. by apply (reads_eq reads_params).
  - injection Hi as <-. destruct Hm as [Hid Hl].
    rewrite (answer_read _ _ id (DecodeOk l)); [done|done|apply plain_headers|].
    intros r. by apply (reads_eq reads_headers).
  - destruct Hm as [Hblk Hd]. apply bind_Some in Hi as (j & Hj & [= <-]). by apply new_block_read.
  - injection Hi as <-. rewrite (reads_eq reads_hashes ids); [done|done|]. apply shows_new, plain_hashes.
  - injection Hi as <-. destruct Hm. by apply hashes_answer.
  - destruct Hm as [Hid Hl]. apply bind_Some in Hi as (j & Hj & [= <-]).
    apply (partly_answer _ _ _ _ _ _ _ (reads_mapM _ _ _ reads_body)); [done|done|]. cbn. by rewrite Hj.
  - injection Hi as <-. destruct Hm. by apply hashes_answer.
  - destruct Hm as [Hid Hl]. apply bind_Some in Hi as (j & Hj & [= <-]).
    by apply (partly_answer _ _ _ _ _ _ _ reads_txs).
  - injection Hi as <-. destruct Hm. by apply hashes_answer.
  - injection Hi as <-. rewrite (answer_read _ _ id (DecodeOk l)); [done|done|by apply plain_list|].
    intros r. apply (reads_eq (reads_list _ _ _ reads_bytes)). by apply Forall_forall.
  - injection Hi as <-. destruct Hm. by apply hashes_answer.
  - injection Hi as <-. destruct Hm as [Hid Hl].
    rewrite (answer_read _ _ id (if forallb (forallb untyped) l then DecodeOk l else DecodeErr RlpReader)); [|done| |].
    + by destruct (forallb (forallb untyped) l).
    + apply plain_list. intros x. apply plain_list, plain_receipt.
    + intros r. by apply (reads_unless_list _ _ _ _ _ (reads_unless_list _ _ _ _ _ reads_receipt)).
Qed.

End theorems.

(** ** An instance *)

(** Items as trees, and trees as bytes: a writer that no two items share the bytes of. *)
Module sample.

Definition Leaf : Type := bool + (nat * Z) + (nat * list Z).

Fixpoint to_tree (i : RlpItem) : gen_tree Leaf :=
  match i with
  | RlpBool b => GenLeaf (inl (inl b))
  | RlpU64 n => GenLeaf (inl (inr (0%nat, n)))
  | RlpU256 n => GenLeaf (inl (inr (1%nat, n)))
  | RlpAddress a => GenLeaf (inl (inr (2%nat, a)))
  | RlpH64 h => GenLeaf (inl (inr (3%nat, h)))
  | RlpH256 h => GenLeaf (inl (inr (4%nat, h)))
  | RlpBloom b => GenLeaf (inr (0%nat, byte_val <$> b))
  | RlpData d => GenLeaf (inr (1%nat, byte_val <$> d))
  | RlpRaw d => GenLeaf (inr (2%nat, byte_val <$> d))
  | RlpEmpty => GenNode 0 []
  | RlpListOf l => GenNode 1 (to_tree <$> l)
  end.

Fixpoint of_tree (t : gen_tree Leaf) : RlpItem :=
  match t with
  | GenLeaf (inl (inl b)) => RlpBool b
  | GenLeaf (inl (inr (0%nat, n))) => RlpU64 n
  | GenLeaf (inl (inr (1%nat, n))) => RlpU256 n
  | GenLeaf (inl (inr (2%nat, a))) => RlpAddress a
  | GenLeaf (inl (inr (3%nat, h))) => RlpH64 h
  | GenLeaf (inl (inr (_, h))) => RlpH256 h
  | GenLeaf (inr (0%nat, b)) => RlpBloom (byte_of <$> b)
  | GenLeaf (inr (1%nat, d)) => RlpData (byte_of <$> d)
  | GenLeaf (inr (_, d)) => RlpRaw (byte_of <$> d)
  | GenNode 0%nat _ => RlpEmpty
  | GenNode _ l => RlpListOf (of_tree <$> l)
  end.

Lemma bytes_back (d : Bytes) : byte_of <$> (byte_val <$> d) = d.
Proof. induction d as [|b d IH]; [done|]. rewrite !fmap_cons, IH. by rewrite byte_of_val. Qed.

Fixpoint tree_back (i : RlpItem) : of_tree (to_tree i) = i.
Proof.
  destruct i as [| | | | | |b|d|d| |l]; cbn [to_tree of_tree]; rewrite ?bytes_back; try done.
  f_equal. induction l as [|i l IHl]; [done|]. rewrite !fmap_cons, tree_back, IHl. done.
Qed.

#[export] Instance RlpItem_eq_dec : EqDecision RlpItem.
Proof.
  intros i j. destruct (decide (to_tree i = to_tree j)) as [E|E]; [left|right; by intros ->].
  by rewrite <- (tree_back i), E, tree_back.
Defined.

#[export] Instance RlpItem_countable : Countable RlpItem := inj_countable' to_tree of_tree tree_back.

(** A number, bit by bit. *)
Fixpoint pos_bytes (p : positive) : Bytes :=
  match p with xH => [] | xO p => x00 :: pos_bytes p | xI p => x01 :: pos_bytes p end.

Fixpoint bytes_pos (b : Bytes) : positive :=
  match b with [] => xH | c :: b => if byte_val c =? 0 then xO (bytes_pos b) else xI (bytes_pos b) end.

Lemma pos_back p : bytes_pos (pos_bytes p) = p.
Proof. induction p as [p IH|p IH|]; [| |done]; cbn [pos_bytes bytes_pos]; rewrite IH; done. Qed.

#[export] Instance writer : RlpStream := {|
  rlp_out i := match i with RlpListOf _ => xff | _ => x00 end :: pos_bytes (countable.encode i)
|}.

Definition view (b : Bytes) : option RlpItem := countable.decode (bytes_pos (drop 1 b)).

Lemma view_out i : view (rlp_out i) = Some i.
Proof. unfold view, rlp_out, writer, drop. by rewrite pos_back, decode_encode. Qed.

#[export] Instance reader_ : RlpView (option RlpItem).
Proof.
  refine {|
    rlp_new := view;
    rlp_items r := match r with Some (RlpListOf l) => Some (Some <$> l) | _ => None end;
    rlp_is_list r := match r with Some (RlpListOf l) => true | _ => false end;
    rlp_is_data r := match r with Some (RlpListOf l) => false | _ => true end;
    rlp_is_empty r := match r with Some (RlpData []) => true | _ => false end;
    rlp_data r := match r with Some (RlpData d) => Some d | Some (RlpListOf []) => Some []
                  | _ => Some [x00] end;
    rlp_size r := match r with Some (RlpH256 _) => 32 | _ => 0 end;
    as_bool r := match r with Some (RlpBool b) => Some b | _ => None end;
    as_u8 r := match r with Some (RlpData [b]) => Some (byte_val b) | Some (RlpU64 n) => Some n | _ => None end;
    as_u64 r := match r with Some (RlpU64 n) => Some n | _ => None end;
    as_u256 r := match r with Some (RlpU256 n) => Some n | _ => None end;
    as_address r := match r with Some (RlpAddress a) => Some a | Some (RlpData d) => Some (be_val d) | _ => None end;
    as_h64 r := match r with Some (RlpH64 h) => Some h | _ => None end;
    as_h256 r := match r with Some (RlpH256 h) => Some h | _ => None end;
    as_bloom r := match r with Some (RlpBloom b) => Some b | _ => None end;
    as_bytes r := match r with Some (RlpData d) => Some d | _ => None end;
    shows r i := r = Some i;
  |}; try (intros; by subst).
  - intros i _. apply view_out.
  - intros r l ->. split_and!; [done..| |].
    + eexists. split; [done|]. induction l; [constructor|]. by constructor.
    + destruct l; eexists; by split.
  - intros r d ->. split_and!; [done..| |done|done|done|]; [by destruct d|].
    destruct d as [|b [|c d]]; [done| |done]. unfold blen. cbn. lia.
  - intros l. eexists _, _. split; [done|]. vm_compute. discriminate.
Defined.

Definition sample_signature : MessageSignature := {| sig_odd_y_parity := true; sig_r := 5; sig_s := 7 |}.

Definition sample_message : Message :=
  EIP1559 1 4 2 30 21000 (ActionCall 0xa) 1000 [x61; x62] [{| item_address := 0xb; slots := [1; 2] |}].

(** The same message on another chain. *)
Definition other_chain : Message :=
  EIP1559 3 4 2 30 21000 (ActionCall 0xa) 1000 [x61; x62] [{| item_address := 0xb; slots := [1; 2] |}].

Definition sample_tx : MessageWithSignature := {| message := sample_message; signature := sample_signature |}.

Lemma sample_message_wf : message_wf sample_message.
Proof. cbn. split_and!; repeat constructor; vm_compute; done. Qed.

Definition sample_receipt : Receipt := {|
  receipt_tx_type := TxEIP1559; success := true; receipt_gas_used := 21000; bloom := be_bytes 256 0;
  receipt_logs := [{| log_address := 0xc; log_topics := [3]; log_data := [x01] |}] |}.

Definition legacy_receipt : Receipt := {|
  receipt_tx_type := TxLegacy; success := true; receipt_gas_used := 21000; bloom := be_bytes 256 0;
  receipt_logs := [{| log_address := 0xc; log_topics := [3]; log_data := [x01] |}] |}.

Definition sample_header : BlockHeader := {|
  header.parent_hash := 1; header.ommers_hash := 2; header.beneficiary := 0xa; header.state_root := 3;
  header.transactions_root := 4; header.receipts_root := 5; header.logs_bloom := 2 ^ 77;
  header.difficulty := 131072; header.number := 12965000; header.gas_limit := 30000000;
  header.gas_used := 29000000; header.timestamp := 1628166822; header.extra_data := [x61];
  header.mix_hash := 6; header.nonce := 7; header.base_fee_per_gas := Some 1000000000 |}.

Definition sample_bodies : eth.Message :=
  eth.BlockBodies 5 [{| body_transactions := [sample_tx]; body_ommers := [sample_header] |}].

Definition sample_receipts : eth.Message := eth.Receipts 6 [[legacy_receipt]; [legacy_receipt; sample_receipt]].

Lemma sample_tx_ranges : tx_wf sample_tx.
Proof. split; [apply sample_message_wf|]. split_and!; vm_compute; done. Qed.

Lemma sample_header_ranges : header_ranges sample_header.
Proof. split; vm_compute; split_and!; done. Qed.

Lemma sample_receipt_wf x : x = sample_receipt \/ x = legacy_receipt -> receipt_wf x.
Proof. intros [->| ->]; (split_and!; [vm_compute; done..|]); repeat constructor; vm_compute; done. Qed.

End sample.
Import sample.

Lemma transaction_roundtrip_witness : exists b b', tx_trie_encode sample_tx = Some b /\
  tx_trie_decode (R := option RlpItem) b = DecodeOk sample_tx /\
  tx_rlp sample_tx = Some b' /\ tx_decode (R := option RlpItem) (rlp_new b') = DecodeOk sample_tx.
Proof.
  apply transaction_roundtrip; [apply sample_tx_ranges|done].
Defined.

Lemma signed_bytes_determine_message_witness : signing_bytes sample_message <> signing_bytes other_chain.
Proof. apply (signed_bytes_determine_message (R := option RlpItem)); [apply sample_message_wf..|done]. Defined.

Lemma header_roundtrip_witness :
  dec_header (R := option RlpItem) (rlp_new (rlp_out (header_item sample_header))) = DecodeOk sample_header.
Proof. apply header_roundtrip, sample_header_ranges. Defined.

Lemma receipts_decode_witness :
  dec_receipt (R := option RlpItem) (rlp_new (receipt_rlp sample_receipt)) = DecodeErr RlpReader /\
  dec_receipt (R := option RlpItem) (rlp_new (receipt_rlp legacy_receipt)) = DecodeOk legacy_receipt.
Proof.
  split; (etrans; [apply receipts_decode|done]); apply sample_receipt_wf; auto.
Defined.

Lemma eth_message_roundtrip_witness :
  (exists b, eth.encode_message sample_bodies = Some b /\
    eth.decode_rlp_message (R := option RlpItem) eth.IdBlockBodies b = DecodeOk sample_bodies) /\
  exists b, eth.encode_message sample_receipts = Some b /\
    eth.decode_rlp_message (R := option RlpItem) eth.IdReceipts b = DecodeErr RlpReader.
Proof.
  split; (eexists; split; [reflexivity|]).
  - refine (eth_message_roundtrip (R := option RlpItem) sample_bodies _ _ eq_refl). split; [done|].
    apply Forall_singleton. split; apply Forall_singleton; [apply sample_tx_ranges|apply sample_header_ranges].
  - refine (eth_message_roundtrip (R := option RlpItem) sample_receipts _ _ eq_refl). split; [done|].
    repeat (apply Forall_cons_2 || apply Forall_nil_2); apply sample_receipt_wf; auto.
Defined.
