(* ===== verification/ChainAccess.v ===== *)
(** The accessors of the tables of blocks (src/accessors/chain.rs) and the stage that
    recovers the senders of transactions (src/stages/sender_recovery.rs).

    A body in the tables refers to its transactions by the index of the first and their
    number; the senders of a block are stored apart. *)
From S2P Require Import Prelude Word EvmState Transaction Precompiled IntraBlockState Consensus MemState StagedSync Kv Stages.
From Stdlib Require Import ZArith Lia Strings.Byte.
From stdpp Require Import base list option numbers gmap strings.
#[local] Open Scope Z_scope.

Record ChainTables (T : Type -> Type) := {
  chain_indices : Tables T;
  block_transaction : T MessageWithSignature;   (* index -> transaction *)
  tx_senders : T (list Address);                (* (number, hash) -> senders *)
  tx_lookups : T Z;                             (* hash of a transaction -> number *)
  headers_total_difficulty : T Z;               (* (number, hash) -> difficulty *)
}.
Arguments chain_indices {T} _.
Arguments block_transaction {T} _.
Arguments tx_senders {T} _.
Arguments tx_lookups {T} _.
Arguments headers_total_difficulty {T} _.

Section accessors.
Context {T : Type -> Type} {KV : Kv T}.

Definition with_bodies (t : ChainTables T) (b : T BodyForStorage) : ChainTables T :=
  let i := chain_indices t in
  {| chain_indices :=
       {| canonical_header := canonical_header i; header_number := header_number i;
          header_table := header_table i; block_body := b; total_gas := total_gas i;
          total_tx := total_tx i |};
     block_transaction := block_transaction t; tx_senders := tx_senders t; tx_lookups := tx_lookups t;
     headers_total_difficulty := headers_total_difficulty t |}.

Definition with_transactions (t : ChainTables T) (b : T MessageWithSignature) : ChainTables T :=
  {| chain_indices := chain_indices t; block_transaction := b; tx_senders := tx_senders t;
     tx_lookups := tx_lookups t; headers_total_difficulty := headers_total_difficulty t |}.

Definition with_senders (t : ChainTables T) (b : T (list Address)) : ChainTables T :=
  {| chain_indices := chain_indices t; block_transaction := block_transaction t; tx_senders := b;
     tx_lookups := tx_lookups t; headers_total_difficulty := headers_total_difficulty t |}.

Definition with_lookups (t : ChainTables T) (b : T Z) : ChainTables T :=
  {| chain_indices := chain_indices t; block_transaction := block_transaction t; tx_senders := tx_senders t;
     tx_lookups := b; headers_total_difficulty := headers_total_difficulty t |}.

(** ** Transactions *)

(** [tx::read]. *)
Definition tx_read (t : ChainTables T) (base_tx_id amount : Z) : list MessageWithSignature :=
  if 0 <? amount then snd <$> take (Z.to_nat amount) (walk base_tx_id (block_transaction t)) else [].

(** [for (i, eth_tx) in txs.iter().enumerate()]. *)
Fixpoint put_all (base_tx_id : Z) (i : Z) (txs : list MessageWithSignature) (t : T MessageWithSignature)
    : outcome (T MessageWithSignature) :=
  match txs with
  | [] => Done t
  | eth_tx :: txs =>
      index ← o_unwrap (u64_checked (base_tx_id + i));
      put_all base_tx_id (i + 1) txs (kv_put index eth_tx t)
  end.

(** [tx::write]. *)
Definition tx_write (t : ChainTables T) (base_tx_id : Z) (txs : list MessageWithSignature) : outcome (ChainTables T) :=
  b ← put_all base_tx_id 0 txs (block_transaction t);
  Done (with_transactions t b).

(** ** Senders *)

Definition tx_sender_read (t : ChainTables T) (hash number : Z) : list Address :=
  default [] (kv_get (header_key number hash) (tx_senders t)).

Definition tx_sender_write (t : ChainTables T) (hash number : Z) (senders : list Address) : ChainTables T :=
  with_senders t (kv_put (header_key number hash) senders (tx_senders t)).

(** ** Bodies *)

Definition storage_body_read (t : ChainTables T) (hash number : Z) : option BodyForStorage :=
  kv_get (header_key number hash) (block_body (chain_indices t)).

Definition storage_body_has (t : ChainTables T) (hash number : Z) : bool :=
  bool_decide (is_Some (storage_body_read t hash number)).

Definition storage_body_write (t : ChainTables T) (hash number : Z) (body : BodyForStorage) : ChainTables T :=
  with_bodies t (kv_put (header_key number hash) body (block_body (chain_indices t))).

(** [block_body::read_base]. *)
Definition read_base (t : ChainTables T) (hash number : Z) : option (BlockBody * Z) :=
  body ← storage_body_read t hash number;
  Some ({| body_transactions := tx_read t (base_tx_id body) (tx_amount body); body_ommers := body_uncles body |},
        base_tx_id body).

Definition read_without_senders (t : ChainTables T) (hash number : Z) : option BlockBody :=
  fst <$> read_base t hash number.

(** [zip] ends with the shorter of the two. *)
Definition read_with_senders (t : ChainTables T) (hash number : Z) : option BlockBodyWithSenders :=
  '(body, _) ← read_base t hash number;
  let senders := tx_sender_read t hash number in
  Some {| with_senders_transactions :=
            (fun p => {| sent_message := message p.1; sender := p.2 |}) <$> zip (body_transactions body) senders;
          with_senders_ommers := body_ommers body |}.

(** ** Difficulty and lookup *)

Definition td_read (t : ChainTables T) (hash number : Z) : option Z :=
  kv_get (header_key number hash) (headers_total_difficulty t).

Definition tl_read (t : ChainTables T) (tx_hash : Z) : option Z := kv_get tx_hash (tx_lookups t).

Definition tl_write (t : ChainTables T) (hashed_tx_data block_number : Z) : ChainTables T :=
  with_lookups t (kv_put hashed_tx_data block_number (tx_lookups t)).

End accessors.

(** ** sender_recovery.rs *)

Module sender_recovery.

(** A body that was read: its key and its transactions. *)
Record Pending := {
  pending_key : Z;
  pending_txs : list MessageWithSignature;
}.

Section stage.
Context {T : Type -> Type} {KV : Kv T} {W : Type}.
Context {SH : SigningHash} {EC : Secp256k1} {KC : Keccak}.

(** The block number of a key. *)
Definition key_number (k : Z) : Z := k / 2 ^ 256.

Definition pending (t : ChainTables T) (e : Z * BodyForStorage) : Pending := {|
  pending_key := e.1;
  pending_txs := snd <$> take (Z.to_nat (tx_amount e.2)) (walk (base_tx_id e.2) (block_transaction t));
|}.

(** What reading a batch of bodies ends with: [read_again] says that the batch is full. *)
Record Batch := {
  batch : list Pending;
  read_again : bool;
  batch_rest : list (Z * BodyForStorage);
}.

(** [while let Some(((block_number, hash), body)) = walker.next()]. *)
Fixpoint read_batch (t : ChainTables T) (batch_size batch_txs : Z) (walker : list (Z * BodyForStorage)) : Batch :=
  match walker with
  | [] => {| batch := []; read_again := false; batch_rest := [] |}
  | e :: walker =>
      let p := pending t e in
      let batch_txs := batch_txs + blen (pending_txs p) in
      if batch_size <=? batch_txs then {| batch := [p]; read_again := true; batch_rest := walker |}
      else
        let r := read_batch t batch_size batch_txs walker in
        {| batch := p :: batch r; read_again := read_again r; batch_rest := batch_rest r |}
  end.

(** [filter_map] and [collect]: bodies without transactions are left out, and a signature
    without a sender is an error. *)
Fixpoint recover_batch (l : list Pending) : option (list (Z * list Address)) :=
  match l with
  | [] => Some []
  | p :: l =>
      match pending_txs p with
      | [] => recover_batch l
      | txs =>
          senders ← mapM recover_sender txs;
          l ← recover_batch l;
          Some ((pending_key p, senders) :: l)
      end
  end.

(** [for (db_key, db_value) in recovered_senders]. *)
Fixpoint append_senders (l : list (Z * list Address)) (t : T (list Address)) : outcome (T (list Address)) :=
  match l with
  | [] => Done t
  | (k, senders) :: l => t ← o_ok_or (kv_append k senders t); append_senders l t
  end.

(** The message after 30 seconds: differences of the index of transactions. *)
Definition report (t : Tables T) (started_at_txnum : option Z) (highest_block : Z) : outcome unit :=
  match started_at_txnum, kv_get highest_block (total_tx t), kv_last (total_tx t) with
  | Some started, Some current, Some (_, total) =>
      _ ← o_unwrap (u64_checked (current - started));
      _ ← o_unwrap (u64_checked (total - started));
      Done ()
  | _, _, _ => Done ()
  end.

(** The loop over batches.  [expired i] says whether 30 seconds have passed after the
    batch number [i].  A batch that is full has a body, so a round for each body and one
    more are enough. *)
Fixpoint batches (fuel : nat) (i : nat) (t : ChainTables T) (batch_size : Z) (expired : nat -> bool)
    (started_at_txnum : option Z) (highest_block : Z) (walker : list (Z * BodyForStorage))
    (senders : T (list Address)) : outcome (Z * bool * T (list Address)) :=
  match fuel with
  | O => Panicked
  | S fuel =>
      let b := read_batch t batch_size 0 walker in
      let highest_block := default highest_block ((fun p => key_number (pending_key p)) <$> last (batch b)) in
      recovered ← o_ok_or (recover_batch (batch b));
      senders ← append_senders recovered senders;
      if negb (read_again b) then Done (highest_block, true, senders)
      else if expired i then
        _ ← report (chain_indices t) started_at_txnum highest_block;
        Done (highest_block, false, senders)
      else batches fuel (S i) t batch_size expired started_at_txnum highest_block (batch_rest b) senders
  end.

Definition senders_execute (batch_size : Z) (expired : nat -> bool) (input : StageInput) (db : Db (ChainTables T)) (w : W)
    : outcome (ExecOutput * Db (ChainTables T) * W) :=
  let highest_block := default 0 (stage_progress input) in
  let t := tables db in
  start ← o_unwrap (u64_checked (highest_block + 1));
  let walker := walk (header_key start 0) (block_body (chain_indices t)) in
  let started_at_txnum := kv_get (default 0 (snd (first_started_at input))) (total_tx (chain_indices t)) in
  '(progress, done, senders) ← batches (S (length walker)) 0 t batch_size expired started_at_txnum highest_block walker
                                (tx_senders t);
  Done (Progress progress done, Build_Db (sync_stage db) (with_senders t senders), w).

(** [while let Some(((block_number, _), _)) = senders_cur.last()?]. *)
Fixpoint unwind_senders (fuel : nat) (to : Z) (t : T (list Address)) : T (list Address) :=
  match fuel with
  | O => t
  | S fuel =>
      match kv_last t with
      | Some (k, _) => if to <? key_number k then unwind_senders fuel to (kv_delete k t) else t
      | None => t
      end
  end.

Definition senders_unwind (input : UnwindInput) (db : Db (ChainTables T)) (w : W)
    : outcome (Z * Db (ChainTables T) * W) :=
  let t := tables db in
  Done (unwind_to input,
    Build_Db (sync_stage db)
      (with_senders t (unwind_senders (size (content (tx_senders t))) (unwind_to input) (tx_senders t))), w).

Definition SenderRecovery (batch_size : Z) (expired : nat -> bool) : Stage (ChainTables T) W := {|
  stage_id := SENDERS;
  stage_execute := senders_execute batch_size expired;
  stage_unwind := senders_unwind;
|}.

End stage.

End sender_recovery.
