(* ===== verification/ChainAccessSpec.v ===== *)
(** What is written through the accessors is read back, and the sender stage gives every
    transaction its sender. *)
From S2P Require Import Prelude Word EvmState Transaction Precompiled IntraBlockState Consensus MemState StagedSync Kv Stages StagesSpec Buffer BufferSpec Samples ChainAccess.
From Stdlib Require Import ZArith Lia Strings.Byte.
From stdpp Require Import base list option numbers gmap sorting.
Import sender_recovery.
#[local] Open Scope Z_scope.

(** ** Batches *)

Section batches.
Context {T : Type -> Type} {KV : Kv T}.
Context {SH : SigningHash} {EC : Secp256k1} {KC : Keccak}.

(** A batch is a prefix of the bodies; when it is full, it has a body. *)
Lemma read_batch_spec (t : ChainTables T) size n walker :
  exists es, walker = es ++ batch_rest (read_batch t size n walker) /\
    batch (read_batch t size n walker) = pending t <$> es /\
    (if read_again (read_batch t size n walker) then es <> [] else batch_rest (read_batch t size n walker) = []).
Proof.
  revert n. induction walker as [|e walker IH]; intros n; cbn [read_batch]; [by exists []|].
  destruct (size <=? _); [by exists [e]|]. cbn [batch read_again batch_rest].
  destruct (IH (n + blen (pending_txs (pending t e)))) as (es & E & Hb & Hr). exists (e :: es). cbn [app fmap list_fmap].
  split_and!; [by f_equal|by f_equal|]. by destruct (read_again _).
Qed.

Lemma recover_batch_app l1 l2 : recover_batch (l1 ++ l2) =
  (a ← recover_batch l1; b ← recover_batch l2; Some (a ++ b)).
Proof.
  induction l1 as [|p l1 IH]; cbn [app recover_batch]; [by destruct (recover_batch l2)|].
  destruct (pending_txs p); [done|]. destruct (mapM recover_sender _); [|done]. cbn [mbind option_bind].
  rewrite IH. destruct (recover_batch l1); [|done]. cbn [mbind option_bind]. by destruct (recover_batch l2).
Qed.

Lemma recover_batch_keys t es l : recover_batch (pending t <$> es) = Some l ->
  forall k s, (k, s) ∈ l -> exists b, (k, b) ∈ es.
Proof.
  revert l. induction es as [|[k0 b0] es IH]; intros l; rewrite ?fmap_cons; cbn [recover_batch].
  { intros [= <-] k s ?%elem_of_nil. done. }
  assert (forall l', recover_batch (pending t <$> es) = Some l' -> forall k s, (k, s) ∈ l' ->
    exists b, (k, b) ∈ (k0, b0) :: es) as Hrest.
  { intros l' Hl' k s Hk. destruct (IH l' Hl' k s Hk) as [b Hb]. exists b. by apply list_elem_of_further. }
  destruct (pending_txs _); [by apply Hrest|]. destruct (mapM recover_sender _) as [senders|]; [|done]. cbn [mbind option_bind].
  destruct (recover_batch (pending t <$> es)) as [l'|] eqn:E; [|done]. cbn [mbind option_bind]. intros [= <-] k s.
  rewrite elem_of_cons. intros [[= -> ->]|Hk]; [exists b0; apply list_elem_of_here|by eapply Hrest].
Qed.

Lemma recover_batch_sorted t es l : recover_batch (pending t <$> es) = Some l ->
  StronglySorted key_lt es -> StronglySorted key_lt l.
Proof.
  revert l. induction es as [|[k0 b0] es IH]; intros l; rewrite ?fmap_cons; cbn [recover_batch].
  { intros [= <-] _. constructor. }
  intros Hl [Hs Hf]%StronglySorted_inv. destruct (pending_txs _); [by apply IH|].
  destruct (mapM recover_sender _) as [senders|]; [|done]. cbn [mbind option_bind] in Hl.
  destruct (recover_batch (pending t <$> es)) as [l'|] eqn:E; [|done]. cbn [mbind option_bind] in Hl.
  injection Hl as <-. constructor; [by apply IH|]. apply Forall_forall. intros [k s] Hk.
  destruct (recover_batch_keys t es l' E k s Hk) as [b Hb]. rewrite Forall_forall in Hf. exact (Hf _ Hb).
Qed.

(** The senders of a body with transactions are among those recovered. *)
Lemma recover_batch_lookup t es l e : recover_batch (pending t <$> es) = Some l -> e ∈ es ->
  exists senders, mapM recover_sender (pending_txs (pending t e)) = Some senders /\
    (pending_txs (pending t e) = [] \/ (e.1, senders) ∈ l).
Proof.
  revert l. induction es as [|e0 es IH]; intros l; rewrite ?fmap_cons; cbn [recover_batch]; [by intros _ ?%elem_of_nil|].
  intros Hl [->|He]%elem_of_cons.
  - destruct (pending_txs (pending t e0)) as [|tx txs]; [exists []; split; [done|by left]|].
    destruct (mapM recover_sender (tx :: txs)) as [senders|]; [|done]. cbn [mbind option_bind] in Hl. exists senders. split; [done|].
    right. destruct (recover_batch (pending t <$> es)); [|done]. injection Hl as <-. apply list_elem_of_here.
  - destruct (pending_txs (pending t e0)) as [|tx txs]; [by apply IH|].
    destruct (mapM recover_sender (tx :: txs)); [|done]. cbn [mbind option_bind] in Hl.
    destruct (recover_batch (pending t <$> es)) as [l'|]; [|done]. injection Hl as <-.
    destruct (IH l' eq_refl He) as (s & Hs & [?|Hin]); exists s; (split; [done|]); [by left|].
    right. by apply list_elem_of_further.
Qed.

Lemma append_senders_all l (t : T (list Address)) : append_senders l t = o_ok_or (buffer.append_all l t).
Proof.
  revert t. induction l as [|[k s] l IH]; intros t; [done|]. cbn [append_senders buffer.append_all].
  destruct (kv_append k s t); [|done]. apply IH.
Qed.
(** The table with the senders [l] added. *)
Definition added {V} (l : list (Z * V)) (t t' : T V) : Prop :=
  forall k s, content t' !! k = Some s <-> (k, s) ∈ l \/ content t !! k = Some s.

Lemma append_senders_added l (t : T (list Address)) : StronglySorted key_lt l ->
  (forall k s e, content t !! k = Some s -> e ∈ l -> k < e.1) ->
  exists t', append_senders l t = Done t' /\ added l t t'.
Proof.
  intros Hs Hbelow. destruct (append_all_content l t Hs Hbelow) as (t' & Ha & Hc).
  exists t'. rewrite append_senders_all, Ha. split; [done|]. intros k s.
  rewrite Hc, lookup_union_Some_raw, <- elem_of_list_to_map by (by apply sorted_nodup).
  split; [naive_solver|]. intros [?|Hk]; [by left|]. right. split; [|done].
  apply not_elem_of_list_to_map_1. intros ([k' s'] & -> & Hin)%list_elem_of_fmap.
  specialize (Hbelow _ _ _ Hk Hin). simpl in Hbelow. lia.
Qed.

Lemma added_app {V} (l1 l2 : list (Z * V)) t1 t2 t3 : added l1 t1 t2 -> added l2 t2 t3 -> added (l1 ++ l2) t1 t3.
Proof. intros H1 H2 k s. rewrite (H2 k s), (H1 k s), elem_of_app. naive_solver. Qed.

(** The number of the last body, or else [h]. *)
Definition last_number (h : Z) (es : list (Z * BodyForStorage)) : Z :=
  default h ((fun e => key_number e.1) <$> last es).

Lemma last_number_app h es1 es2 : last_number (last_number h es1) es2 = last_number h (es1 ++ es2).
Proof.
  unfold last_number. destruct (last es2) as [e|] eqn:E.
  - by rewrite last_app, E.
  - apply last_None in E as ->. by rewrite app_nil_r.
Qed.

Lemma last_pending h t es :
  default h ((fun p => key_number (pending_key p)) <$> last (pending t <$> es)) = last_number h es.
Proof. unfold last_number. rewrite fmap_last. by destruct (last es). Qed.

Lemma last_number_ge lo h es : lo <= h -> Forall (fun e => lo <= key_number e.1) es -> lo <= last_number h es.
Proof.
  intros Hh Hes. unfold last_number. destruct (last es) as [e|] eqn:E; [|done]. cbn.
  apply last_Some in E as [es' ->]. rewrite Forall_app, Forall_singleton in Hes. by destruct Hes.
Qed.

Lemma batches_spec t size expired started lo :
  (forall n, lo <= n -> report (chain_indices t) started n = Done ()) ->
  forall fuel i h walker senders l,
  lo <= h -> Forall (fun e => lo <= key_number e.1) walker ->
  (length walker < fuel)%nat -> StronglySorted key_lt walker -> recover_batch (pending t <$> walker) = Some l ->
  (forall k s e, content senders !! k = Some s -> e ∈ walker -> k < e.1) ->
  exists es rest l' senders' done,
    walker = es ++ rest /\ recover_batch (pending t <$> es) = Some l' /\
    batches fuel i t size expired started h walker senders = Done (last_number h es, done, senders') /\
    added l' senders senders' /\ (if done then rest = [] else exists j, expired j = true).
Proof.
  intros Hrep fuel. induction fuel as [|fuel IH]; intros i h walker senders l Hlo Hge Hf Hs Hl Hbelow; [lia|].
  cbn [batches]. destruct (read_batch_spec t size 0 walker) as (es & Ew & Hb & Hag).
  set (b := read_batch t size 0 walker) in *. rewrite Hb, last_pending.
  rewrite Ew, fmap_app, recover_batch_app in Hl. assert (lo <= last_number h es) as Hlast.
  { apply last_number_ge; [done|]. rewrite Ew in Hge. by apply Forall_app in Hge as [? _]. }
  destruct (recover_batch (pending t <$> es)) as [l1|] eqn:E1; [|done]. cbn [mbind option_bind] in Hl.
  destruct (recover_batch (pending t <$> batch_rest b)) as [l2|] eqn:E2; [|done]. cbn [o_ok_or mbind outcome_bind].
  assert (StronglySorted key_lt es) as Hs1 by (rewrite Ew in Hs; by eapply StronglySorted_app_1_l).
  assert (StronglySorted key_lt (batch_rest b)) as Hs2 by (rewrite Ew in Hs; by eapply StronglySorted_app_1_r).
  destruct (append_senders_added l1 senders) as (senders1 & -> & Hadd).
  { by eapply recover_batch_sorted. }
  { intros k s [k' s'] Hk Hin. destruct (recover_batch_keys t es l1 E1 k' s' Hin) as [b' Hb'].
    apply (Hbelow k s (k', b') Hk). rewrite Ew. apply elem_of_app. by left. }
  cbn [mbind outcome_bind]. destruct (read_again b) eqn:Er; cbn [negb].
  2:{ exists es, (batch_rest b), l1, senders1, true. by split_and!. }
  destruct (expired i) eqn:Ex.
  { rewrite Hrep by done. cbn [mbind outcome_bind]. exists es, (batch_rest b), l1, senders1, false. split_and!; try done. by exists i. }
  destruct (IH (Datatypes.S i) (last_number h es) (batch_rest b) senders1 l2) as (es' & rest & l' & s' & d & E & Er' & Hbat & Hadd' & Hd).
  { done. }
  { rewrite Ew in Hge. by apply Forall_app in Hge as [_ ?]. }
  { rewrite Ew, length_app in Hf. destruct es; [done|]. cbn [length] in Hf. lia. }
  { done. }
  { done. }
  { intros k s e Hk He. apply Hadd in Hk as [Hin|Hk].
    - destruct (recover_batch_keys t es l1 E1 k s Hin) as [b' Hb'].
      rewrite Ew in Hs. apply (StronglySorted_app_1_elem_of _ _ _ (k, b') e Hs Hb' He).
    - apply (Hbelow k s e Hk). rewrite Ew. apply elem_of_app. by right. }
  exists (es ++ es'), rest, (l1 ++ l'), s', d. rewrite last_number_app in Hbat.
  split_and!; [|rewrite fmap_app, recover_batch_app, E1, Er'; done|done|by eapply added_app|done].
  rewrite <- app_assoc, <- E. exact Ew.
Qed.

(** ** Reading the senders *)

Lemma recover_zip txs ss : mapM recover_sender txs = Some ss ->
  recover_senders txs = Some ((fun p => {| sent_message := message p.1; sender := p.2 |}) <$> zip txs ss).
Proof.
  revert ss. induction txs as [|tx txs IH]; intros ss; cbn [mapM recover_senders]; [by intros [= <-]|].
  destruct (recover_sender tx) as [s|]; [|done]. cbn [mbind option_bind].
  destruct (mapM recover_sender txs) as [ss'|]; [|done]. cbn [mbind option_bind]. intros [= <-].
  by rewrite (IH ss' eq_refl).
Qed.

Lemma pending_read t e : pending_txs (pending t e) = tx_read t (base_tx_id e.2) (tx_amount e.2).
Proof.
  unfold tx_read. cbn [pending pending_txs]. destruct (Z.ltb_spec 0 (tx_amount e.2)); [done|].
  by rewrite (ltac:(lia) : Z.to_nat (tx_amount e.2) = O).
Qed.

(** A block reads with all its transactions, each with the sender that its signature
    gives. *)
Definition reads_with_senders (t : ChainTables T) (hash number : Z) : Prop :=
  exists body txs, read_without_senders t hash number = Some body /\
    recover_senders (body_transactions body) = Some txs /\
    read_with_senders t hash number =
      Some {| with_senders_transactions := txs; with_senders_ommers := body_ommers body |}.

Lemma header_key_parts k : header_key (key_number k) (k mod 2 ^ 256) = k.
Proof. unfold header_key, key_number. pose proof (Z.div_mod k (2 ^ 256) ltac:(lia)). lia. Qed.

Lemma recovered_reads t senders k body ss : content (block_body (chain_indices t)) !! k = Some body ->
  mapM recover_sender (pending_txs (pending t (k, body))) = Some ss ->
  pending_txs (pending t (k, body)) = [] \/ content senders !! k = Some ss ->
  reads_with_senders (with_senders t senders) (k mod 2 ^ 256) (key_number k).
Proof.
  intros Hb Hm Hs. rewrite pending_read in *. cbn [fst snd] in *.
  unfold reads_with_senders, read_without_senders, read_with_senders, read_base, storage_body_read, tx_sender_read.
  cbn [chain_indices tx_senders with_senders]. rewrite header_key_parts, !kv_get_content, Hb.
  cbn [mbind option_bind fmap option_map fst].
  change (tx_read (with_senders t senders)) with (tx_read t). eexists _, _. split; [done|].
  cbn [body_transactions body_ommers]. split; [by apply recover_zip|].
  destruct Hs as [E|E]; [by rewrite E|by rewrite E].
Qed.

End batches.

(** ** The stage *)

Section stage.
Context {T : Type -> Type} {KV : Kv T} {W : Type}.
Context {SH : SigningHash} {EC : Secp256k1} {KC : Keccak}.

Definition bodies_after (p : Z) (t : ChainTables T) : list (Z * BodyForStorage) :=
  walk (header_key (p + 1) 0) (block_body (chain_indices t)).

(** Senders up to block [p]; the index of transactions does not decrease. *)
Record senders_ready (p : Z) (input : StageInput) (t : ChainTables T) : Prop := {
  sr_progress : default 0 (stage_progress input) = p;
  sr_range : 0 <= p < 2 ^ 64 - 1;
  sr_first : default 0 (snd (first_started_at input)) <= p;
  sr_senders k s : content (tx_senders t) !! k = Some s -> key_number k <= p;
  sr_total n m x y : n <= m -> content (total_tx (chain_indices t)) !! n = Some x ->
    content (total_tx (chain_indices t)) !! m = Some y -> 0 <= x <= y /\ y < 2 ^ 64;
}.

Lemma report_ready p input t n : senders_ready p input t -> p <= n ->
  report (chain_indices t) (kv_get (default 0 (snd (first_started_at input))) (total_tx (chain_indices t))) n = Done ().
Proof.
  intros Hr Hn. unfold report. rewrite !kv_get_content. set (tt := total_tx (chain_indices t)).
  destruct (content tt !! default 0 _) as [s|] eqn:Es; [|done]. destruct (content tt !! n) as [c|] eqn:Ec; [|done].
  pose proof (kv_last_content tt) as Hl. destruct (kv_last tt) as [[m total]|]; [|done]. destruct Hl as (Hm & _ & Hmax).
  pose proof (sr_first _ _ _ Hr). specialize (Hmax n c Ec I).
  destruct (fun H => sr_total _ _ _ Hr _ _ _ _ H Es Ec); [lia|].
  destruct (fun H => sr_total _ _ _ Hr _ _ _ _ H Es Hm); [lia|].
  rewrite !u64_checked_ok by lia. done.
Qed.

Lemma key_above n k : header_key n 0 <= k <-> n <= key_number k.
Proof.
  unfold header_key, key_number. split; intros Hk; [apply Z.div_le_lower_bound; lia|].
  pose proof (Z.mul_div_le k (2 ^ 256) ltac:(lia)).
  assert (2 ^ 256 * n <= 2 ^ 256 * (k / 2 ^ 256)) by (apply Z.mul_le_mono_nonneg_l; lia). lia.
Qed.

(** C25: the stage of sender recovery, with any size of batches and any clock: it works
    through a prefix of the bodies after its progress (all of them unless it stopped
    because of the time), reports the number of the last one, and every block of the
    prefix reads with all its transactions, each with the sender that its signature
    gives.  The senders of earlier blocks stay. *)
Theorem senders_recovered batch_size expired p l input (db : Db (ChainTables T)) (w : W) :
  senders_ready p input (tables db) -> recover_batch (pending (tables db) <$> bodies_after p (tables db)) = Some l ->
  exists es rest progress done db',
    stage_execute (SenderRecovery batch_size expired) input db w = Done (Progress progress done, db', w) /\
    bodies_after p (tables db) = es ++ rest /\ progress = last_number p es /\
    (forall k body, (k, body) ∈ es -> reads_with_senders (tables db') (k mod 2 ^ 256) (key_number k)) /\
    (forall k s, key_number k <= p -> content (tx_senders (tables db')) !! k = Some s <->
      content (tx_senders (tables db)) !! k = Some s) /\
    (if done then rest = [] else exists j, expired j = true).
Proof.
  intros Hr Hl. set (t := tables db) in *. destruct (walk_spec (header_key (p + 1) 0) (block_body (chain_indices t))) as [Hsort Hel].
  fold (bodies_after p t) in Hsort, Hel. pose proof (sr_range _ _ _ Hr).
  assert (Forall (fun e => p < key_number e.1) (bodies_after p t)) as Hgt.
  { apply Forall_forall. intros [k b] [_ Hk%key_above]%Hel. cbn. lia. }
  destruct (batches_spec t batch_size expired
    (kv_get (default 0 (snd (first_started_at input))) (total_tx (chain_indices t))) p
    (fun n => report_ready p input t n Hr) (Datatypes.S (length (bodies_after p t))) O p (bodies_after p t) (tx_senders t) l)
    as (es & rest & l' & senders' & d & E & Hl' & Hbat & Hadd & Hd); [lia| |lia|done|done| |].
  { eapply Forall_impl; [exact Hgt|]. cbn. lia. }
  { intros k s e Hk He. apply (sr_senders _ _ _ Hr) in Hk. rewrite Forall_forall in Hgt. specialize (Hgt e He).
    unfold key_number in *. apply Z.nle_gt. intros Hle. apply (Z.div_le_mono _ _ (2 ^ 256)) in Hle; lia. }
  exists es, rest, (last_number p es), d, (Build_Db (sync_stage db) (with_senders t senders')). cbn [tables].
  split_and!; [|done|done| | |done].
  - cbn [SenderRecovery stage_execute]. unfold senders_execute. rewrite (sr_progress _ _ _ Hr).
    rewrite u64_checked_ok by lia. cbn [o_unwrap mbind outcome_bind]. fold t (bodies_after p t). rewrite Hbat. done.
  - intros k body Hin. destruct (recover_batch_lookup t es l' (k, body) Hl' Hin) as (ss & Hm & Hs).
    apply (recovered_reads t senders' k body ss); [|done|].
    + apply Hel. rewrite E. apply elem_of_app. by left.
    + destruct Hs as [?|Hs]; [by left|]. right. apply Hadd. by left.
  - intros k s Hk. cbn [with_senders tx_senders]. rewrite (Hadd k s). split; [intros [Hin|?]; [|done]|by right].
    destruct (recover_batch_keys t es l' Hl' k s Hin) as [b Hb]. rewrite Forall_forall in Hgt.
    specialize (Hgt (k, b) ltac:(rewrite E; apply elem_of_app; by left)). cbn in Hgt. lia.
Qed.

End stage.

(** A signature without a sender stops the stage, unless the time ran out before. *)
Section errors.
Context {T : Type -> Type} {KV : Kv T} {W : Type}.
Context {SH : SigningHash} {EC : Secp256k1} {KC : Keccak}.

Lemma batches_error t size started : forall fuel i h walker senders,
  (length walker < fuel)%nat -> StronglySorted key_lt walker -> recover_batch (pending t <$> walker) = None ->
  (forall k s e, content senders !! k = Some s -> e ∈ walker -> k < e.1) ->
  batches (T := T) fuel i t size (fun _ => false) started h walker senders = Error.
Proof.
  intros fuel. induction fuel as [|fuel IH]; intros i h walker senders Hf Hs Hl Hbelow; [lia|].
  cbn [batches]. destruct (read_batch_spec t size 0 walker) as (es & Ew & Hb & Hag).
  set (b := read_batch t size 0 walker) in *. rewrite Hb. rewrite Ew, fmap_app, recover_batch_app in Hl.
  destruct (recover_batch (pending t <$> es)) as [l1|] eqn:E1; [|done]. cbn [mbind option_bind] in Hl.
  destruct (recover_batch (pending t <$> batch_rest b)) as [l2|] eqn:E2; [done|]. cbn [o_ok_or mbind outcome_bind].
  assert (StronglySorted key_lt es) as Hs1 by (rewrite Ew in Hs; by eapply StronglySorted_app_1_l).
  destruct (append_senders_added l1 senders) as (senders1 & -> & Hadd).
  { by eapply recover_batch_sorted. }
  { intros k s [k' s'] Hk Hin. destruct (recover_batch_keys t es l1 E1 k' s' Hin) as [b' Hb'].
    apply (Hbelow k s (k', b') Hk). rewrite Ew. apply elem_of_app. by left. }
  cbn [mbind outcome_bind]. destruct (read_again b); cbn [negb]; [|by rewrite Hag in E2].
  apply IH.
  - rewrite Ew, length_app in Hf. destruct es; [done|]. cbn [length] in Hf. lia.
  - rewrite Ew in Hs. by eapply StronglySorted_app_1_r.
  - done.
  - intros k s e Hk He. apply Hadd in Hk as [Hin|Hk].
    + destruct (recover_batch_keys t es l1 E1 k s Hin) as [b' Hb'].
      rewrite Ew in Hs. apply (StronglySorted_app_1_elem_of _ _ _ (k, b') e Hs Hb' He).
    + apply (Hbelow k s e Hk). rewrite Ew. apply elem_of_app. by right.
Qed.
End errors.

(** ** Bodies *)

Section bodies.
Context {T : Type -> Type} {KV : Kv T}.

(** Entries with consecutive keys come first in a walk that starts at the first of them. *)
Lemma take_consecutive {V} (vs : list V) : forall (t : T V) base (l : list (Z * V)),
  StronglySorted key_lt l -> (forall k v, (k, v) ∈ l <-> content t !! k = Some v /\ base <= k) ->
  (forall i v, vs !! i = Some v -> content t !! (base + Z.of_nat i) = Some v) ->
  snd <$> take (length vs) l = vs.
Proof.
  induction vs as [|v vs IH]; intros t base l Hs Hl Hvs; [done|].
  assert ((base, v) ∈ l) as Hin.
  { apply Hl. split; [|lia]. rewrite <- (Z.add_0_r base). by apply (Hvs O v). }
  destruct l as [|[k w] l]; [by apply elem_of_nil in Hin|]. apply StronglySorted_inv in Hs as [Hs Hf].
  rewrite Forall_forall in Hf. assert ((k, w) = (base, v)) as [= -> ->].
  { apply elem_of_cons in Hin as [E|Hin]; [by symmetry|]. specialize (Hf _ Hin). unfold key_lt in Hf. simpl in Hf.
    destruct (proj1 (Hl k w) ltac:(apply list_elem_of_here)) as [_ ?]. lia. }
  cbn [length take]. rewrite fmap_cons. cbn [snd]. f_equal. apply (IH t (base + 1)); [done| |].
  - intros k w. split.
    + intros Hk. destruct (proj1 (Hl k w) ltac:(by apply list_elem_of_further)) as [? _]. split; [done|].
      specialize (Hf _ Hk). unfold key_lt in Hf. simpl in Hf. lia.
    + intros [Hk Hle]. assert ((k, w) ∈ (base, v) :: l) as [E|?]%elem_of_cons; [apply Hl; split; [done|lia]| |done].
      injection E as -> ->. lia.
  - intros i w Hi. rewrite (ltac:(lia) : base + 1 + Z.of_nat i = base + Z.of_nat (Datatypes.S i)). by apply Hvs.
Qed.

Lemma put_all_spec base : forall txs i (t : T MessageWithSignature),
  0 <= base + i -> base + i + blen txs <= 2 ^ 64 ->
  exists t', put_all base i txs t = Done t' /\
    (forall j tx, txs !! j = Some tx -> content t' !! (base + i + Z.of_nat j) = Some tx) /\
    (forall k, k < base + i -> content t' !! k = content t !! k).
Proof.
  induction txs as [|tx txs IH]; intros i t H0 H1; cbn [put_all]; [by exists t|].
  change (tx :: txs) with ([tx] ++ txs) in H1. rewrite blen_app in H1. change (blen [tx]) with 1 in H1.
  pose proof (blen_nonneg txs). rewrite u64_checked_ok by lia. cbn [o_unwrap mbind outcome_bind].
  destruct (IH (i + 1) (kv_put (base + i) tx t)) as (t' & Ht' & Hin & Hout); [lia|lia|].
  exists t'. split; [done|]. split.
  - intros [|j] tx' Hj; cbn in Hj.
    + injection Hj as <-. rewrite Hout by lia. rewrite kv_put_content, Z.add_0_r. by rewrite lookup_insert_eq.
    + rewrite (ltac:(lia) : base + i + Z.of_nat (Datatypes.S j) = base + (i + 1) + Z.of_nat j). by apply Hin.
  - intros k Hk. rewrite Hout by lia. rewrite kv_put_content. by rewrite lookup_insert_ne by lia.
Qed.

(** A block written through the accessors is read back: its transactions in order, each
    with its sender, and its ommers, whatever the tables held before, if the indices of its
    transactions are machine words and there is a sender for each. *)
Theorem block_body_roundtrip (t : ChainTables T) hash number base txs uncles senders :
  0 <= base -> base + blen txs <= 2 ^ 64 -> length senders = length txs ->
  exists t', tx_write (storage_body_write t hash number
      {| base_tx_id := base; tx_amount := blen txs; body_uncles := uncles |}) base txs = Done t' /\
    read_with_senders (tx_sender_write t' hash number senders) hash number =
      Some {| with_senders_transactions := zip_with (fun tx s => {| sent_message := message tx; sender := s |}) txs senders;
              with_senders_ommers := uncles |}.
Proof.
  intros Hb He Hl. unfold tx_write. set (t1 := storage_body_write _ _ _ _).
  destruct (put_all_spec base txs 0 (block_transaction t1)) as (t2 & Ht2 & Hin & _); [lia|lia|]. rewrite Ht2.
  cbn [mbind outcome_bind]. eexists. split; [done|].
  unfold read_with_senders, read_base, storage_body_read, tx_sender_read, tx_sender_write, tx_read.
  cbn [chain_indices block_body tx_senders with_senders with_transactions storage_body_write with_bodies block_transaction t1].
  rewrite !kv_get_content, !kv_put_content, !lookup_insert_eq. cbn [mbind option_bind from_option id base_tx_id tx_amount body_uncles].
  do 2 f_equal. cbn [body_transactions].
  assert ((if 0 <? blen txs then snd <$> take (Z.to_nat (blen txs)) (walk base t2) else []) = txs) as ->.
  { destruct (Z.ltb_spec 0 (blen txs)).
    - unfold blen. rewrite Nat2Z.id. destruct (walk_spec base t2) as [Hs Hw].
      apply (take_consecutive txs t2 base); [done|done|]. intros i v Hi. rewrite <- (Z.add_0_r base). by apply Hin.
    - destruct txs; [done|]. unfold blen in *. cbn [length] in *. lia. }
  clear. revert senders. induction txs as [|tx txs IH]; intros [|s senders]; cbn; [done..|]. f_equal. apply IH.
Qed.

End bodies.

(** ** Unwind *)

Section unwind.
Context {T : Type -> Type} {KV : Kv T} {W : Type}.
Context {SH : SigningHash} {EC : Secp256k1} {KC : Keccak}.

Lemma unwind_senders_content to fuel (t : T (list Address)) : (size (content t) <= fuel)%nat ->
  content (unwind_senders fuel to t) = filter (fun e => key_number e.1 <= to) (content t).
Proof.
  assert (forall t : T (list Address), (forall k s, content t !! k = Some s -> key_number k <= to) ->
    filter (fun e => key_number e.1 <= to) (content t) = content t) as Hid.
  { intros u Hu. apply map_filter_id. intros k s Hk. by eapply Hu. }
  revert t. induction fuel as [|fuel IH]; intros t Hsz; cbn [unwind_senders].
  - rewrite Hid; [done|]. intros k s Hk. assert (content t = ∅) as E by (apply map_size_empty_inv; lia).
    rewrite E in Hk. by rewrite lookup_empty in Hk.
  - pose proof (kv_last_content t) as Hl. destruct (kv_last t) as [[k s]|]; cbn in Hl.
    + destruct Hl as (Hk & _ & Hmax). destruct (Z.ltb_spec to (key_number k)) as [Hlt|Hle].
      * rewrite IH; rewrite kv_delete_content.
        -- rewrite map_filter_delete. apply delete_id. rewrite map_lookup_filter_None. right. cbn. intros ? _. lia.
        -- rewrite map_size_delete_Some by eauto. lia.
      * rewrite Hid; [done|]. intros k' s' Hk'. specialize (Hmax k' s' Hk' I). unfold key_number in *.
        assert (k' / 2 ^ 256 <= k / 2 ^ 256) by (apply Z.div_le_mono; lia). lia.
    + rewrite Hid; [done|]. intros k s Hk. by destruct (Hl k s Hk).
Qed.

(** The unwind of the stage forgets the senders of the blocks above its target and no
    others. *)
Lemma senders_unwound batch_size expired input (db : Db (ChainTables T)) (w : W) :
  exists db', stage_unwind (SenderRecovery batch_size expired) input db w = Done (unwind_to input, db', w) /\
    content (tx_senders (tables db')) = filter (fun e => key_number e.1 <= unwind_to input) (content (tx_senders (tables db))) /\
    chain_indices (tables db') = chain_indices (tables db) /\
    block_transaction (tables db') = block_transaction (tables db).
Proof.
  eexists. split; [done|]. cbn [tables with_senders tx_senders chain_indices block_transaction].
  split_and!; [by apply unwind_senders_content|done|done].
Qed.

End unwind.

(** ** A sample *)

#[local] Existing Instance map_table.map_kv.
#[local] Existing Instance samples.keccak.
#[local] Existing Instance samples.signing.

Module sample_senders.

(** Signatures with an even value are recovered. *)
#[export] Instance even_signatures : Secp256k1 := {|
  recover_ecdsa m r s odd := if Z.even (be_val r) then Some (x04 :: r ++ s) else None;
|}.

Definition tx (n r : Z) : MessageWithSignature := {|
  message := Legacy None n 1 21000 (ActionCall 5) 10 [];
  signature := {| sig_odd_y_parity := false; sig_r := r; sig_s := 3 |} |}.

Definition body (base amount : Z) : BodyForStorage :=
  {| base_tx_id := base; tx_amount := amount; body_uncles := [] |}.

(** Three blocks with two, no and one transactions, the first with its senders. *)
Definition chain : ChainTables map_table.table := {|
  chain_indices := {| canonical_header := ∅; header_number := ∅; header_table := ∅;
    block_body := {[ header_key 1 8 := body 10 2; header_key 2 9 := body 12 0; header_key 3 7 := body 12 1 ]};
    total_gas := ∅; total_tx := {[ 1 := 2; 2 := 2; 3 := 3 ]} |};
  block_transaction := {[ 10 := tx 0 2; 11 := tx 1 4; 12 := tx 2 6 ]};
  tx_senders := {[ header_key 1 8 := [1; 2] ]}; tx_lookups := ∅; headers_total_difficulty := ∅ |}.

Definition stage_input : StageInput :=
  {| restarted := false; first_started_at := (0, Some 1); previous_stage := None; stage_progress := Some 1 |}.

Lemma chain_ready : senders_ready 1 stage_input chain.
Proof.
  split; [done|lia|done| |].
  - intros k s Hk. change (({[ header_key 1 8 := [1; 2] ]} : gmap Z (list Address)) !! k = Some s) in Hk.
    apply lookup_singleton_Some in Hk as [<- _]. by vm_compute.
  - assert (map_Forall (fun n x => map_Forall (fun m y => n <= m -> 0 <= x <= y /\ y < 2 ^ 64)
      (total_tx (chain_indices chain) : gmap Z Z)) (total_tx (chain_indices chain) : gmap Z Z)) as H.
    { apply (bool_decide_unpack _). by vm_compute. }
    intros n m x y Hle Hx Hy. exact (H n x Hx m y Hy Hle).
Qed.

Definition recovered : list (Z * list Address) :=
  default [] (recover_batch (pending chain <$> bodies_after 1 chain)).

End sample_senders.

#[local] Existing Instance sample_senders.even_signatures.

Lemma senders_recovered_witness : exists es rest progress done db',
  stage_execute (sender_recovery.SenderRecovery 1 (fun _ => false)) sample_senders.stage_input
    (Build_Db ∅ sample_senders.chain) tt = Done (Progress progress done, db', tt) /\
  bodies_after 1 sample_senders.chain = es ++ rest /\ progress = last_number 1 es /\
  (forall k (body : BodyForStorage), (k, body) ∈ es ->
    reads_with_senders (tables db') (k mod 2 ^ 256) (sender_recovery.key_number k)) /\
  (forall k s, sender_recovery.key_number k <= 1 -> content (tx_senders (tables db')) !! k = Some s <->
    content (tx_senders sample_senders.chain) !! k = Some s) /\
  (if done then rest = [] else exists j : nat, false = true).
Proof.
  apply (senders_recovered 1 (fun _ => false) 1 sample_senders.recovered sample_senders.stage_input
    (Build_Db ∅ sample_senders.chain) tt sample_senders.chain_ready). vm_compute. reflexivity.
Defined.

Lemma block_body_roundtrip_witness : exists t',
  tx_write (storage_body_write sample_senders.chain 6 4
    {| base_tx_id := 13; tx_amount := 1; body_uncles := [] |}) 13 [sample_senders.tx 3 8] = Done t' /\
  read_with_senders (tx_sender_write t' 6 4 [77]) 6 4 =
    Some {| with_senders_transactions :=
              [{| sent_message := message (sample_senders.tx 3 8); sender := 77 |}];
            with_senders_ommers := [] |}.
Proof. apply (block_body_roundtrip sample_senders.chain 6 4 13 [sample_senders.tx 3 8] [] [77]); [lia|by vm_compute|done]. Defined.
