(* ===== verification/Codec.v ===== *)
(** Encodings of the keys and values of the tables (src/kv/tables.rs,
    src/models/account.rs).

    The traits [TableEncode] and [TableDecode] become a record of the two functions for
    each type that implements them.  Encoding can panic (the [unwrap] of a buffer of
    fixed capacity); decoding gives a value, an error or a panic. *)
From S2P Require Import Prelude EvmState IntraBlockState MemState CallTraces.
From Stdlib Require Import ZArith Lia Strings.Byte Strings.String.
From stdpp Require Import base list option numbers.
#[local] Open Scope Z_scope.

Inductive CodecError :=
  | InvalidLength (expected got : Z)
  | TooShort (minimum got : Z)
  | TooLong (maximum got : Z)
  | CapacityError
  | Bail (message : string).

Inductive Decoded (A : Type) :=
  | Value (a : A)
  | Failed (e : CodecError)
  | DecodePanic.
Arguments Value {A} _.
Arguments Failed {A} _.
Arguments DecodePanic {A}.

#[export] Instance Decoded_ret : MRet Decoded := fun A a => Value a.
#[export] Instance Decoded_bind : MBind Decoded := fun A B f m =>
  match m with Value a => f a | Failed e => Failed e | DecodePanic => DecodePanic end.
#[export] Instance Decoded_fmap : FMap Decoded := fun A B f m =>
  match m with Value a => Value (f a) | Failed e => Failed e | DecodePanic => DecodePanic end.

(** An index out of range panics. *)
Definition indexing {A} (o : option A) : Decoded A :=
  match o with Some a => Value a | None => DecodePanic end.

(** [.unwrap()] of a result. *)
Definition unwrapped {A} (d : Decoded A) : Decoded A :=
  match d with Failed _ => DecodePanic | _ => d end.

(** [&b[..n]] and [&b[n..]]. *)
Definition slice_to (b : Bytes) (n : Z) : Decoded Bytes := indexing (slice b 0 n).
Definition slice_from (b : Bytes) (n : Z) : Decoded Bytes := indexing (slice b n (blen b - n)).

Record Codec (A : Type) := {
  encode : A -> option Bytes;
  decode : Bytes -> Decoded A;
}.
Arguments encode {A} _ _.
Arguments decode {A} _ _.

Definition ADDRESS_LENGTH : Z := 20.
Definition KECCAK_LENGTH : Z := 32.
Definition BLOCK_NUMBER_LENGTH : Z := 8.

(** ** Buffers *)

(** [try_extend_from_slice] of a buffer of capacity [cap]. *)
Definition try_extend (cap : Z) (out b : Bytes) : option Bytes :=
  if blen out + blen b <=? cap then Some (out ++ b) else None.

(** [out[lo..hi].copy_from_slice(src)]. *)
Definition copy_range (out : Bytes) (lo hi : Z) (src : Bytes) : option Bytes :=
  if blen src =? hi - lo then splice out lo src else None.

(** [let mut v = [0; LEN]; v[LEN - b.len()..].copy_from_slice(b)]. *)
Definition left_padded (len : Z) (b : Bytes) : option Bytes :=
  copy_range (replicate (Z.to_nat len) x00) (len - blen b) len b.

(** ** Byte strings *)

Definition bytes_codec : Codec Bytes := {|
  encode b := Some b;
  decode b := Value b;
|}.

Definition variable_vec (cap : Z) : Codec Bytes := {|
  encode b := Some b;
  decode b := match try_extend cap [] b with Some out => Value out | None => Failed CapacityError end;
|}.

(** ** Integers, addresses and hashes *)

(** A type whose encoding is an array of [len] bytes. *)
Definition array_codec (len : Z) : Codec Z := {|
  encode z := Some (be_bytes (Z.to_nat len) z);
  decode b := if blen b =? len then Value (be_val b) else Failed (InvalidLength len (blen b));
|}.

Definition u64_codec : Codec Z := array_codec 8.
Definition address_codec : Codec Z := array_codec ADDRESS_LENGTH.
Definition h256_codec : Codec Z := array_codec KECCAK_LENGTH.

(** [TruncateStart<T>], where the encoding of [T] has [len] bytes. *)
Definition truncate_start {A} (len : Z) (c : Codec A) : Codec A := {|
  encode a := arr ← encode c a; try_extend len [] (zeroless_view arr);
  decode b :=
    if len <? blen b then Failed (TooLong len (blen b))
    else arr ← indexing (left_padded len b); decode c arr;
|}.

Definition u256_codec : Codec Z := {|
  encode z := Some (zeroless_view (be_bytes 32 z));
  decode b :=
    if KECCAK_LENGTH <? blen b then Failed (TooLong KECCAK_LENGTH (blen b))
    else v ← indexing (left_padded KECCAK_LENGTH b); Value (be_val v);
|}.

(** [Vec<Address>]: the addresses one after the other. *)
Fixpoint encode_addresses (l : list Address) (v : Bytes) : option Bytes :=
  match l with
  | [] => Some v
  | a :: l => e ← encode address_codec a; encode_addresses l (v ++ e)
  end.

(** [for i in 0..b.len() / ADDRESS_LENGTH]. *)
Fixpoint decode_addresses (b : Bytes) (indices : list Z) (v : list Address) : Decoded (list Address) :=
  match indices with
  | [] => Value v
  | i :: indices =>
      s ← indexing (slice b (i * ADDRESS_LENGTH) ADDRESS_LENGTH);
      a ← decode address_codec s;
      decode_addresses b indices (v ++ [a])
  end.

Definition addresses_codec : Codec (list Address) := {|
  encode l := encode_addresses l [];
  decode b :=
    if negb (blen b mod ADDRESS_LENGTH =? 0) then Failed (Bail "Slice len should be divisible by 20")
    else decode_addresses b (Z.of_nat <$> seq 0 (Z.to_nat (blen b / ADDRESS_LENGTH))) [];
|}.

(** ** Compound keys and values *)

(** [(H256, U256)]. *)
Definition h256_u256_codec : Codec (Z * Z) := {|
  encode p :=
    h ← encode h256_codec p.1;
    v ← encode u256_codec p.2;
    out ← try_extend (KECCAK_LENGTH + KECCAK_LENGTH) [] h;
    try_extend (KECCAK_LENGTH + KECCAK_LENGTH) out v;
  decode b :=
    if KECCAK_LENGTH + KECCAK_LENGTH <? blen b then
      Failed (TooLong (KECCAK_LENGTH + KECCAK_LENGTH) (blen b))
    else if blen b <? KECCAK_LENGTH then Failed (TooShort KECCAK_LENGTH (blen b))
    else
      location ← slice_to b KECCAK_LENGTH;
      value ← slice_from b KECCAK_LENGTH;
      location ← decode h256_codec location;
      value ← decode u256_codec value;
      Value (location, value);
|}.

(** [(A, B)] of two types encoded as arrays. *)
Definition pair_codec {A B} (a_len b_len : Z) (ca : Codec A) (cb : Codec B) : Codec (A * B) := {|
  encode p :=
    a ← encode ca p.1;
    b ← encode cb p.2;
    v ← try_extend 256 [] a;
    try_extend 256 v b;
  decode v :=
    if negb (blen v =? a_len + b_len) then Failed (Bail "Invalid len")
    else
      a ← slice_to v a_len;
      b ← slice_from v a_len;
      a ← unwrapped (decode ca a);
      b ← unwrapped (decode cb b);
      Value (a, b);
|}.

Definition header_key_codec : Codec (Z * Z) := pair_codec 8 KECCAK_LENGTH u64_codec h256_codec.
Definition log_key_codec : Codec (Z * Z) := pair_codec 8 8 u64_codec u64_codec.

Record BitmapKey (K : Type) := {
  inner : K;
  block_number : Z;
}.
Arguments inner {K} _.
Arguments block_number {K} _.

(** [BitmapKey<Address>]. *)
Definition account_bitmap_codec : Codec (BitmapKey Address) :=
  let len := ADDRESS_LENGTH + BLOCK_NUMBER_LENGTH in {|
  encode k :=
    a ← encode address_codec (inner k);
    n ← encode u64_codec (block_number k);
    out ← copy_range (replicate (Z.to_nat len) x00) 0 ADDRESS_LENGTH a;
    copy_range out ADDRESS_LENGTH len n;
  decode b :=
    if negb (blen b =? len) then Failed (InvalidLength len (blen b))
    else
      a ← slice_to b ADDRESS_LENGTH;
      a ← decode address_codec a;
      n ← slice_from b ADDRESS_LENGTH;
      n ← decode u64_codec n;
      Value {| inner := a; block_number := n |};
|}.

(** [BitmapKey<(Address, H256)>]. *)
Definition storage_bitmap_codec : Codec (BitmapKey (Address * Z)) :=
  let len := ADDRESS_LENGTH + KECCAK_LENGTH + BLOCK_NUMBER_LENGTH in {|
  encode k :=
    a ← encode address_codec (inner k).1;
    l ← encode h256_codec (inner k).2;
    n ← encode u64_codec (block_number k);
    out ← copy_range (replicate (Z.to_nat len) x00) 0 ADDRESS_LENGTH a;
    out ← copy_range out ADDRESS_LENGTH (ADDRESS_LENGTH + KECCAK_LENGTH) l;
    copy_range out (ADDRESS_LENGTH + KECCAK_LENGTH) len n;
  decode b :=
    if negb (blen b =? len) then Failed (InvalidLength len (blen b))
    else
      a ← slice_to b ADDRESS_LENGTH;
      a ← decode address_codec a;
      l ← indexing (slice b ADDRESS_LENGTH KECCAK_LENGTH);
      l ← decode h256_codec l;
      n ← slice_from b (ADDRESS_LENGTH + KECCAK_LENGTH);
      n ← decode u64_codec n;
      Value {| inner := (a, l); block_number := n |};
|}.

Record StorageChangeKey := {
  change_block : Z;
  change_address : Address;
}.

Definition storage_change_key_codec : Codec StorageChangeKey :=
  let len := BLOCK_NUMBER_LENGTH + ADDRESS_LENGTH in {|
  encode k :=
    n ← encode u64_codec (change_block k);
    a ← encode address_codec (change_address k);
    out ← copy_range (replicate (Z.to_nat len) x00) 0 BLOCK_NUMBER_LENGTH n;
    copy_range out BLOCK_NUMBER_LENGTH len a;
  decode b :=
    if negb (blen b =? len) then Failed (InvalidLength len (blen b))
    else
      n ← slice_to b BLOCK_NUMBER_LENGTH;
      n ← decode u64_codec n;
      a ← indexing (slice b BLOCK_NUMBER_LENGTH ADDRESS_LENGTH);
      a ← decode address_codec a;
      Value {| change_block := n; change_address := a |};
|}.

Record StorageChange := {
  change_location : Z;
  change_value : Z;
}.

Definition storage_change_codec : Codec StorageChange := {|
  encode c :=
    l ← encode h256_codec (change_location c);
    v ← encode u256_codec (change_value c);
    out ← try_extend (KECCAK_LENGTH + KECCAK_LENGTH) [] l;
    try_extend (KECCAK_LENGTH + KECCAK_LENGTH) out v;
  decode b :=
    if blen b <? KECCAK_LENGTH then Failed (TooShort KECCAK_LENGTH (blen b))
    else
      l ← slice_to b KECCAK_LENGTH;
      l ← decode h256_codec l;
      v ← slice_from b KECCAK_LENGTH;
      v ← decode u256_codec v;
      Value {| change_location := l; change_value := v |};
|}.

(** [CallTraceSetFlags]: two flags from the least significant bit up, six unused bits. *)
Definition call_trace_flags (from to : bool) : byte :=
  byte_of (Z.lor (Z.b2z from) (Z.shiftl (Z.b2z to) 1)).

Definition call_trace_codec : Codec CallTraceSetEntry :=
  let len := ADDRESS_LENGTH + 1 in {|
  encode e :=
    a ← encode address_codec (trace_address e);
    v ← copy_range (replicate (Z.to_nat len) x00) 0 ADDRESS_LENGTH a;
    splice v ADDRESS_LENGTH [call_trace_flags (trace_from e) (trace_to e)];
  decode b :=
    if negb (blen b =? len) then Failed (InvalidLength len (blen b))
    else
      field_set ← indexing (Prelude.index b ADDRESS_LENGTH);
      a ← slice_to b ADDRESS_LENGTH;
      a ← decode address_codec a;
      Value {| trace_address := a;
               trace_from := Z.testbit (byte_val field_set) 0;
               trace_to := Z.testbit (byte_val field_set) 1 |};
|}.

(** ** Accounts *)

(** [for (i, b) in buf.iter().rev().enumerate() { decoded[i] = *b; }]. *)
Fixpoint fill_reversed (i : Z) (buf decoded : Bytes) : option Bytes :=
  match buf with
  | [] => Some decoded
  | b :: buf => decoded ← splice decoded i [b]; fill_reversed (i + 1) buf decoded
  end.

Definition bytes_to_u64 (buf : Bytes) : option Z :=
  decoded ← fill_reversed 0 (rev buf) (replicate 8 x00);
  Some (be_val (rev decoded)).

Definition static_left_pad (len : Z) (unpadded : Bytes) : option Bytes :=
  if blen unpadded <=? len then left_padded len unpadded else None.

Definition MAX_ACCOUNT_LEN : Z := 1 + (1 + 32) + (1 + 32) + (1 + 8).

(** [AccountStorageFlags]: four bits for the length of the nonce, one for the presence
    of a code hash, three unused.  The setter of the length refuses more than 15. *)
Definition account_flags (nonce_len : Z) (has_code : bool) : option byte :=
  if (0 <=? nonce_len) && (nonce_len <? 16)
  then Some (byte_of (Z.lor nonce_len (Z.shiftl (Z.b2z has_code) 4))) else None.

Definition write_compact (input : Bytes) : Bytes := zeroless_view input.

Definition encode_for_storage (a : Account) : option Bytes :=
  let nonce_bytes := if nonce a =? 0 then [] else write_compact (be_bytes 8 (nonce a)) in
  let has_code := negb (code_hash a =? EMPTY_HASH) in
  buffer ← try_extend MAX_ACCOUNT_LEN [] [x00];
  buffer ← try_extend MAX_ACCOUNT_LEN buffer nonce_bytes;
  buffer ← try_extend MAX_ACCOUNT_LEN buffer (if has_code then be_bytes 32 (code_hash a) else []);
  buffer ← try_extend MAX_ACCOUNT_LEN buffer
             (if balance a =? 0 then [] else write_compact (be_bytes 32 (balance a)));
  fs ← account_flags (blen nonce_bytes) has_code;
  splice buffer 0 [fs].

Definition decode_for_storage (enc : Bytes) : Decoded (option Account) :=
  match enc with
  | [] => Value None
  | flags :: enc =>
      let decode_length := Z.land (byte_val flags) 15 in
      nonce ← (if 0 <? decode_length then
                 s ← slice_to enc decode_length; indexing (bytes_to_u64 s)
               else Value 0);
      enc ← slice_from enc decode_length;
      let has_code := Z.testbit (byte_val flags) 4 in
      hash ← (if has_code then be_val <$> slice_to enc KECCAK_LENGTH else Value EMPTY_HASH);
      enc ← slice_from enc (if has_code then KECCAK_LENGTH else 0);
      if 32 <? blen enc then Failed (Bail "balance cannot be longer than 32 bytes")
      else
        v ← indexing (static_left_pad 32 enc);
        Value (Some {| nonce := nonce; balance := be_val v; code_hash := hash |})
  end.

Definition account_codec : Codec Account := {|
  encode := encode_for_storage;
  decode b :=
    a ← decode_for_storage b;
    match a with Some a => Value a | None => Failed (Bail "cannot be empty") end;
|}.

Record AccountChange := {
  changed_address : Address;
  changed_account : option Account;
}.

Definition account_change_codec : Codec AccountChange :=
  let cap := ADDRESS_LENGTH + MAX_ACCOUNT_LEN in {|
  encode c :=
    a ← encode address_codec (changed_address c);
    out ← try_extend cap [] a;
    match changed_account c with
    | Some account => e ← encode account_codec account; try_extend cap out e
    | None => Some out
    end;
  decode b :=
    if blen b <? ADDRESS_LENGTH then Failed (TooShort ADDRESS_LENGTH (blen b))
    else
      a ← slice_to b ADDRESS_LENGTH;
      a ← decode address_codec a;
      account ← (if ADDRESS_LENGTH <? blen b then
                   rest ← slice_from b ADDRESS_LENGTH; Some <$> decode account_codec rest
                 else Value None);
      Value {| changed_address := a; changed_account := account |};
|}.

(** ** The types and the tables *)

(** The types that are keys or values of tables and whose encoding is in this program;
    [u64], [BlockNumber] and [TxIndex] have the same encoding. *)
Inductive TableType :=
  | TBytes
  | TVariableVec (cap : Z)
  | TU64
  | TTruncateStart
  | TAddress
  | TAddresses
  | TH256
  | TU256
  | TH256U256
  | THeaderKey
  | TLogKey
  | TAccountBitmap
  | TStorageBitmap
  | TStorageChangeKey
  | TStorageChange
  | TCallTrace
  | TAccount
  | TAccountChange.

Definition carrier (t : TableType) : Type :=
  match t with
  | TBytes | TVariableVec _ => Bytes
  | TU64 | TTruncateStart | TAddress | TH256 | TU256 => Z
  | TAddresses => list Address
  | TH256U256 | THeaderKey | TLogKey => Z * Z
  | TAccountBitmap => BitmapKey Address
  | TStorageBitmap => BitmapKey (Address * Z)
  | TStorageChangeKey => StorageChangeKey
  | TStorageChange => StorageChange
  | TCallTrace => CallTraceSetEntry
  | TAccount => Account
  | TAccountChange => AccountChange
  end.

Definition codec (t : TableType) : Codec (carrier t) :=
  match t with
  | TBytes => bytes_codec
  | TVariableVec cap => variable_vec cap
  | TU64 => u64_codec
  | TTruncateStart => truncate_start 8 u64_codec
  | TAddress => address_codec
  | TAddresses => addresses_codec
  | TH256 => h256_codec
  | TU256 => u256_codec
  | TH256U256 => h256_u256_codec
  | THeaderKey => header_key_codec
  | TLogKey => log_key_codec
  | TAccountBitmap => account_bitmap_codec
  | TStorageBitmap => storage_bitmap_codec
  | TStorageChangeKey => storage_change_key_codec
  | TStorageChange => storage_change_codec
  | TCallTrace => call_trace_codec
  | TAccount => account_codec
  | TAccountChange => account_change_codec
  end.

Module tables.
Inductive Table :=
  | Account | Storage | AccountChangeSet | StorageChangeSet | HashedAccount | HashedStorage
  | AccountHistory | StorageHistory | Code | TrieAccount | TrieStorage | DbInfo | SnapshotInfo
  | BittorrentInfo | HeaderNumber | CanonicalHeader | Header | HeadersTotalDifficulty | BlockBody
  | BlockTransaction | TotalGas | TotalTx | Log | LogTopicIndex | LogAddressIndex | CallTraceSet
  | CallFromIndex | CallToIndex | BlockTransactionLookup | Config | SyncStage | TxSender | LastBlock
  | Migration | Sequence | LastHeader | Issuance.

Definition all_tables : list Table :=
  [Account; Storage; AccountChangeSet; StorageChangeSet; HashedAccount; HashedStorage;
   AccountHistory; StorageHistory; Code; TrieAccount; TrieStorage; DbInfo; SnapshotInfo;
   BittorrentInfo; HeaderNumber; CanonicalHeader; Header; HeadersTotalDifficulty; BlockBody;
   BlockTransaction; TotalGas; TotalTx; Log; LogTopicIndex; LogAddressIndex; CallTraceSet;
   CallFromIndex; CallToIndex; BlockTransactionLookup; Config; SyncStage; TxSender; LastBlock;
   Migration; Sequence; LastHeader; Issuance].

(** [type Key]; a stage identifier is only encoded. *)
Definition key_type (t : Table) : option TableType :=
  match t with
  | Account | Storage => Some TAddress
  | AccountChangeSet | CanonicalHeader | TotalGas | TotalTx | CallTraceSet => Some TU64
  | StorageChangeSet => Some TStorageChangeKey
  | HashedAccount | HashedStorage | Code | HeaderNumber | BlockTransactionLookup | Config => Some TH256
  | AccountHistory | CallFromIndex | CallToIndex => Some TAccountBitmap
  | StorageHistory => Some TStorageBitmap
  | TrieAccount | TrieStorage | DbInfo | SnapshotInfo | BittorrentInfo | LogTopicIndex
  | LogAddressIndex | LastBlock | Migration | Sequence | Issuance => Some TBytes
  | Header | HeadersTotalDifficulty | BlockBody | TxSender => Some THeaderKey
  | BlockTransaction => Some TU64
  | Log => Some TLogKey
  | SyncStage => None
  | LastHeader => Some (TVariableVec 0)
  end.

(** [type Value]; bitmaps and the types that are encoded with SCALE or RON go through
    other crates. *)
Definition value_type (t : Table) : option TableType :=
  match t with
  | Account | HashedAccount => Some TAccount
  | Storage | HashedStorage => Some TH256U256
  | AccountChangeSet => Some TAccountChange
  | StorageChangeSet => Some TStorageChange
  | Code | TrieAccount | TrieStorage | DbInfo | SnapshotInfo | BittorrentInfo | LastBlock
  | Migration | Sequence | Issuance => Some TBytes
  | HeaderNumber | TotalGas | TotalTx | SyncStage => Some TU64
  | CanonicalHeader | LastHeader => Some TH256
  | HeadersTotalDifficulty => Some TU256
  | CallTraceSet => Some TCallTrace
  | BlockTransactionLookup => Some TTruncateStart
  | TxSender => Some TAddresses
  | AccountHistory | StorageHistory | CallFromIndex | CallToIndex | LogTopicIndex
  | LogAddressIndex | Header | BlockBody | BlockTransaction | Log | Config => None
  end.

(** [type SeekBothKey] of the tables that implement [DupSort]. *)
Definition seek_both_key (t : Table) : option TableType :=
  match t with
  | Storage | StorageChangeSet | HashedStorage => Some TH256
  | AccountChangeSet => Some TAddress
  | CallTraceSet => Some TBytes
  | _ => None
  end.

(** [TableInfo] in [CHAINDATA_TABLES]. *)
Definition dup_sort (t : Table) : bool :=
  match t with
  | Storage | AccountChangeSet | StorageChangeSet | HashedStorage | CallTraceSet => true
  | _ => false
  end.
End tables.
