(* ===== verification/CodecSpec.v ===== *)
(** The encodings of keys and values are inverted by their decoders, decoders give values
    of their types, and the order of encoded keys is the order of the numbers that stand
    for them in the tables. *)
From S2P Require Import Prelude Word EvmState IntraBlockState MemState Etl EtlSpec Kv Stages Bitmaps CallTraces Buffer Codec.
From Stdlib Require Import ZArith Lia Strings.Byte Strings.String.
From stdpp Require Import base list option numbers.
#[local] Open Scope Z_scope.

(** ** Slices and buffers *)

Lemma split_bytes (b : Bytes) n : 0 <= n <= blen b -> exists x y, b = x ++ y /\ blen x = n.
Proof.
  intros Hn. exists (take (Z.to_nat n) b), (drop (Z.to_nat n) b). rewrite take_drop.
  split; [done|]. unfold blen in *. rewrite length_take. lia.
Qed.

Lemma slice_middle (x y z : Bytes) n m : blen x = n -> blen y = m -> slice (x ++ y ++ z) n m = Some y.
Proof.
  intros <- <-. unfold slice. pose proof (blen_nonneg x). pose proof (blen_nonneg y). pose proof (blen_nonneg z).
  rewrite !blen_app, !(proj2 (Z.leb_le _ _)) by lia. cbn [andb]. f_equal. unfold blen. rewrite !Nat2Z.id.
  by rewrite drop_app_length, take_app_length.
Qed.

Lemma slice_to_app (x y : Bytes) n : blen x = n -> slice_to (x ++ y) n = Value x.
Proof. intros Hn. unfold slice_to. by rewrite (slice_middle [] x y) by done. Qed.

Lemma slice_from_app (x y : Bytes) n : blen x = n -> slice_from (x ++ y) n = Value y.
Proof.
  intros Hn. unfold slice_from. rewrite <- (app_nil_r y) at 1.
  rewrite (slice_middle x y []) by (rewrite ?blen_app; lia). done.
Qed.

Lemma try_extend_fits cap out b : blen out + blen b <= cap -> try_extend cap out b = Some (out ++ b).
Proof. intros H. unfold try_extend. by rewrite (proj2 (Z.leb_le _ _)). Qed.

(** Filling an array range by range. *)
Lemma copy_next (x y z b : Bytes) lo hi : blen x = lo -> blen b = hi - lo -> blen y = blen b ->
  copy_range (x ++ y ++ z) lo hi b = Some (x ++ b ++ z).
Proof.
  intros Hx Hb Hy. unfold copy_range, splice. rewrite (proj2 (Z.eqb_eq _ _)) by done.
  pose proof (blen_nonneg x). pose proof (blen_nonneg z). rewrite !blen_app.
  rewrite !(proj2 (Z.leb_le _ _)) by lia. cbn [andb]. subst lo. unfold blen in *.
  rewrite Nat2Z.id, take_app_length. rewrite (app_assoc x y z).
  rewrite drop_app_length' by (rewrite length_app; lia). done.
Qed.

Lemma copy_into_zeros (x b : Bytes) lo hi n : blen x = lo -> blen b = hi - lo -> hi <= lo + n ->
  copy_range (x ++ replicate (Z.to_nat n) x00) lo hi b =
  Some ((x ++ b) ++ replicate (Z.to_nat (lo + n - hi)) x00).
Proof.
  intros Hx Hb Hhi. pose proof (blen_nonneg b).
  rewrite (ltac:(lia) : Z.to_nat n = (Z.to_nat (hi - lo) + Z.to_nat (lo + n - hi))%nat), replicate_add.
  rewrite (copy_next x _ _ b), <- app_assoc by (rewrite ?blen_replicate; done || lia). done.
Qed.

Lemma copy_first (b : Bytes) hi n : blen b = hi -> hi <= n ->
  copy_range (replicate (Z.to_nat n) x00) 0 hi b = Some (b ++ replicate (Z.to_nat (n - hi)) x00).
Proof. intros Hb Hn. apply (copy_into_zeros [] b); [done|lia|lia]. Qed.

Lemma copy_last (x b : Bytes) lo hi n : blen x = lo -> blen b = hi - lo -> lo + n = hi ->
  copy_range (x ++ replicate (Z.to_nat n) x00) lo hi b = Some (x ++ b).
Proof.
  intros Hx Hb Hn. rewrite copy_into_zeros by lia. rewrite (ltac:(lia) : lo + n - hi = 0).
  by rewrite app_nil_r.
Qed.

Lemma left_padded_spec len b : blen b <= len ->
  left_padded len b = Some (replicate (Z.to_nat (len - blen b)) x00 ++ b).
Proof.
  intros Hb. pose proof (blen_nonneg b). unfold left_padded.
  rewrite (ltac:(lia) : Z.to_nat len = (Z.to_nat (len - blen b) + Z.to_nat (blen b))%nat) at 1.
  rewrite replicate_add. apply copy_last; rewrite ?blen_replicate; lia.
Qed.

(** ** Numbers without leading zeros *)

Lemma zeroless_split b : exists n, b = replicate n x00 ++ zeroless_view b.
Proof.
  induction b as [|x b [n IH]]; [by exists O|]. simpl. destruct (Z.eqb_spec (byte_val x) 0) as [Hx|].
  - exists (S n). simpl. f_equal; [|done]. by apply byte_val_inj.
  - by exists O.
Qed.

Lemma zeroless_val b : be_val (zeroless_view b) = be_val b.
Proof. destruct (zeroless_split b) as [n H]. rewrite H at 2. by rewrite be_val_replicate0. Qed.

Lemma zeroless_blen b : blen (zeroless_view b) <= blen b.
Proof.
  destruct (zeroless_split b) as [n H]. rewrite H at 2. rewrite blen_app. pose proof (blen_nonneg (replicate n x00)). lia.
Qed.

Lemma zeroless_padded b : left_padded (blen b) (zeroless_view b) = Some b.
Proof.
  rewrite left_padded_spec by apply zeroless_blen. destruct (zeroless_split b) as [n H].
  revert H. generalize (zeroless_view b). intros z ->. do 2 f_equal.
  rewrite blen_app. unfold blen. rewrite length_replicate. f_equal. lia.
Qed.

Lemma blen_be_bytes n z : blen (be_bytes n z) = Z.of_nat n.
Proof. unfold blen. by rewrite length_be_bytes. Qed.

Lemma be_val_app a b : be_val (a ++ b) = be_val a * 256 ^ blen b + be_val b.
Proof.
  induction b as [|x b IH] using rev_ind.
  - rewrite app_nil_r. change (be_val []) with 0. change (256 ^ blen []) with 1. lia.
  - rewrite app_assoc, !be_val_snoc, IH, blen_app. change (blen [x]) with 1.
    rewrite Z.pow_add_r by (apply blen_nonneg || lia). lia.
Qed.

Lemma be_val_uint w b : 8 * blen b <= w -> uint w (be_val b).
Proof.
  intros Hw. pose proof (be_val_range b) as [? Hlt]. split; [done|]. eapply Z.lt_le_trans; [exact Hlt|].
  change 256 with (2 ^ 8). rewrite <- Z.pow_mul_r by lia. apply Z.pow_le_mono_r; unfold blen in *; lia.
Qed.

Lemma be_val_bytes_uint n z : uint (8 * Z.of_nat n) z -> be_val (be_bytes n z) = z.
Proof.
  intros Hz. rewrite be_val_bytes. apply Z.mod_small. change 256 with (2 ^ 8). by rewrite <- Z.pow_mul_r by lia.
Qed.

(** ** Laws *)

(** Encoding does not panic and is inverted by decoding, which gives only values of the
    type. *)
Class Sound {A} (c : Codec A) (valid : A -> Prop) := {
  sound_roundtrip a : valid a -> exists b, encode c a = Some b /\ decode c b = Value a;
  sound_valid b a : decode c b = Value a -> valid a;
}.

(** Values correspond to the strings of [len] bytes, one to one. *)
Class Exact {A} (c : Codec A) (len : Z) (valid : A -> Prop) := {
  exact_encode a : valid a -> exists b, encode c a = Some b /\ blen b = len /\ decode c b = Value a;
  exact_decode b : blen b = len -> exists a, decode c b = Value a /\ valid a /\ encode c a = Some b;
  exact_length b : blen b <> len -> exists e, decode c b = Failed e;
}.

#[export] Instance exact_sound {A} (c : Codec A) len valid : Exact c len valid -> Sound c valid.
Proof.
  intros Hc. split.
  - intros a Ha. destruct (exact_encode a Ha) as (b & ? & _ & ?). eauto.
  - intros b a Hd. destruct (decide (blen b = len)) as [Hb|Hb].
    + destruct (exact_decode b Hb) as (a' & Hd' & Hv & _). congruence.
    + destruct (exact_length b Hb) as [e He]. congruence.
Qed.

(** The number of a key: the big-endian value of its encoding, which has [len] bytes. *)
Class Numbered {A} (c : Codec A) (len : Z) (valid : A -> Prop) (number : A -> Z) :=
  numbered a : valid a -> exists b, encode c a = Some b /\ blen b = len /\ be_val b = number a.

Ltac length_check :=
  match goal with
  | |- context [negb (?x =? ?y)] => rewrite (proj2 (Z.eqb_eq x y)) by (rewrite ?blen_app; lia); cbn [negb]
  | |- context [?x =? ?y] => rewrite (proj2 (Z.eqb_eq x y)) by (rewrite ?blen_app; lia)
  | |- context [?x <? ?y] => rewrite (proj2 (Z.ltb_ge x y)) by (rewrite ?blen_app; lia)
  end.

(** ** Fixed lengths *)

Lemma decode_array len z : 0 <= len -> uint (8 * len) z ->
  decode (array_codec len) (be_bytes (Z.to_nat len) z) = Value z.
Proof.
  intros Hlen Hz. cbn [array_codec decode]. rewrite blen_be_bytes, Z2Nat.id, Z.eqb_refl, be_val_bytes_uint;
    rewrite ?Z2Nat.id; done.
Qed.

Lemma array_exact len : 0 <= len -> Exact (array_codec len) len (uint (8 * len)).
Proof.
  intros Hlen. split.
  - intros z Hz. exists (be_bytes (Z.to_nat len) z). simpl.
    split_and!; [done|rewrite blen_be_bytes; lia|by apply decode_array].
  - intros b Hb. exists (be_val b). simpl. rewrite Hb, Z.eqb_refl. split_and!; [done|apply be_val_uint; lia|].
    rewrite <- Hb. unfold blen. by rewrite Nat2Z.id, be_bytes_val.
  - intros b Hb. simpl. rewrite (proj2 (Z.eqb_neq _ _)) by done. eauto.
Qed.

#[export] Instance u64_exact : Exact u64_codec 8 is_u64.
Proof. apply array_exact. lia. Qed.
#[export] Instance address_exact : Exact address_codec ADDRESS_LENGTH is_address.
Proof. apply array_exact. unfold ADDRESS_LENGTH. lia. Qed.
#[export] Instance h256_exact : Exact h256_codec KECCAK_LENGTH word.
Proof. apply array_exact. unfold KECCAK_LENGTH. lia. Qed.

(** A type of two components, whose encodings follow each other. *)
Section product.
Context {A B C : Type} (ca : Codec A) (cb : Codec B) (c : Codec C) (n m : Z).
Context (mk : A -> B -> C) (p : C -> A) (q : C -> B).

Class Product := {
  product_eta x : mk (p x) (q x) = x;
  product_p a b : p (mk a b) = a;
  product_q a b : q (mk a b) = b;
  product_encode x a b : encode ca (p x) = Some a -> encode cb (q x) = Some b ->
    blen a = n -> blen b = m -> encode c x = Some (a ++ b);
  product_decode a b x y : blen a = n -> blen b = m -> decode ca a = Value x -> decode cb b = Value y ->
    decode c (a ++ b) = Value (mk x y);
  product_length b : blen b <> n + m -> exists e, decode c b = Failed e;
}.

Context {HP : Product}.

Lemma product_exact (va : A -> Prop) (vb : B -> Prop) : 0 <= n -> 0 <= m -> Exact ca n va -> Exact cb m vb ->
  Exact c (n + m) (fun x => va (p x) /\ vb (q x)).
Proof.
  intros Hn Hm Ha Hb. split.
  - intros x [Hva Hvb]. destruct (exact_encode _ Hva) as (a & Hea & Hla & Hda).
    destruct (exact_encode _ Hvb) as (b & Heb & Hlb & Hdb).
    exists (a ++ b). split_and!; [by apply product_encode|rewrite blen_app; lia|].
    by rewrite (product_decode _ _ _ _ Hla Hlb Hda Hdb), product_eta.
  - intros s Hs. destruct (split_bytes s n) as (a & b & -> & Hla); [lia|].
    rewrite blen_app in Hs. assert (blen b = m) as Hlb by lia.
    destruct (exact_decode a Hla) as (x & Hda & Hva & Hea).
    destruct (exact_decode b Hlb) as (y & Hdb & Hvb & Heb).
    exists (mk x y). rewrite product_p, product_q. split_and!; [by apply product_decode|done|done|].
    apply product_encode; [by rewrite product_p|by rewrite product_q|done|done].
  - apply product_length.
Qed.

Lemma product_numbered (va : A -> Prop) (vb : B -> Prop) fa fb : Numbered ca n va fa -> Numbered cb m vb fb ->
  Numbered c (n + m) (fun x => va (p x) /\ vb (q x)) (fun x => fa (p x) * 256 ^ m + fb (q x)).
Proof.
  intros Ha Hb x [Hva Hvb]. destruct (Ha _ Hva) as (a & Hea & Hla & Hna).
  destruct (Hb _ Hvb) as (b & Heb & Hlb & Hnb). exists (a ++ b).
  split_and!; [by apply product_encode|rewrite blen_app; lia|]. by rewrite be_val_app, Hlb, Hna, Hnb.
Qed.
End product.

Lemma wrong_length {A} (b : Bytes) len e (d : Decoded A) : blen b <> len ->
  exists e', (if negb (blen b =? len) then Failed e else d) = Failed e'.
Proof. intros H. rewrite (proj2 (Z.eqb_neq _ _)) by done. eauto. Qed.

Lemma right_length {A} (b : Bytes) len e (d : Decoded A) : blen b = len ->
  (if negb (blen b =? len) then Failed e else d) = d.
Proof. intros ->. by rewrite Z.eqb_refl. Qed.

Ltac lengths := unfold ADDRESS_LENGTH, BLOCK_NUMBER_LENGTH, KECCAK_LENGTH in *.

(** Rewriting with what is known about the components. *)
Ltac codec_step :=
  first
    [ rewrite right_length by (rewrite ?blen_app; lia)
    | rewrite slice_to_app by lia
    | rewrite slice_from_app by (rewrite ?blen_app; lia)
    | rewrite try_extend_fits by (rewrite ?blen_app; cbn [blen length]; lia)
    | rewrite copy_first by lia
    | rewrite copy_last by lia
    | match goal with H : decode _ _ = _ |- _ => rewrite H end
    | match goal with H : encode _ _ = _ |- _ => rewrite H end ];
  cbn [mbind option_bind Decoded_bind indexing unwrapped fmap Decoded_fmap].

Lemma pair_product {A B} (ca : Codec A) (cb : Codec B) n m : n + m <= 256 ->
  Product ca cb (pair_codec n m ca cb) n m pair fst snd.
Proof.
  intros Hnm. split; try done.
  - by intros [].
  - intros x a b Ha Hb Hla Hlb. cbn [pair_codec encode]. pose proof (blen_nonneg b).
    do 2 codec_step. rewrite try_extend_fits by (change (blen (@nil byte)) with 0; lia).
    cbn [mbind option_bind app]. by codec_step.
  - intros a b x y Hla Hlb Ha Hb. cbn [pair_codec decode]. by repeat codec_step.
  - intros b Hb. by apply wrong_length.
Qed.

#[export] Instance header_key_product :
  Product u64_codec h256_codec header_key_codec 8 KECCAK_LENGTH pair fst snd.
Proof. by apply pair_product. Qed.
#[export] Instance log_key_product : Product u64_codec u64_codec log_key_codec 8 8 pair fst snd.
Proof. by apply pair_product. Qed.

#[export] Instance header_key_exact : Exact header_key_codec (8 + KECCAK_LENGTH) (fun k => is_u64 k.1 /\ word k.2).
Proof. by eapply product_exact; try apply _. Qed.
#[export] Instance log_key_exact : Exact log_key_codec (8 + 8) (fun k => is_u64 k.1 /\ is_u64 k.2).
Proof. by eapply product_exact; try apply _. Qed.

#[export] Instance account_bitmap_product :
  Product address_codec u64_codec account_bitmap_codec ADDRESS_LENGTH BLOCK_NUMBER_LENGTH
    (Build_BitmapKey _) inner block_number.
Proof.
  split; try done.
  - by intros [].
  - intros x a b Ha Hb Hla Hlb.
    cbn [account_bitmap_codec encode]; lengths. by repeat codec_step.
  - intros a b x y Hla Hlb Ha Hb.
    cbn [account_bitmap_codec decode]; lengths. by repeat codec_step.
  - intros b Hb. by apply wrong_length.
Qed.

#[export] Instance storage_change_key_product :
  Product u64_codec address_codec storage_change_key_codec BLOCK_NUMBER_LENGTH ADDRESS_LENGTH
    Build_StorageChangeKey change_block change_address.
Proof.
  split; try done.
  - by intros [].
  - intros x a b Ha Hb Hla Hlb.
    cbn [storage_change_key_codec encode]; lengths. by repeat codec_step.
  - intros a b x y Hla Hlb Ha Hb.
    cbn [storage_change_key_codec decode]; lengths. do 3 codec_step.
    rewrite <- (app_nil_r b) at 1. rewrite slice_middle by done.
    cbn [indexing mbind Decoded_bind]. by repeat codec_step.
  - intros b Hb. by apply wrong_length.
Qed.

(** The address, and the location with the block number. *)
Definition location_block_codec : Codec (Z * Z) := pair_codec KECCAK_LENGTH 8 h256_codec u64_codec.

#[export] Instance location_block_product :
  Product h256_codec u64_codec location_block_codec KECCAK_LENGTH 8 pair fst snd.
Proof. by apply pair_product. Qed.
#[export] Instance location_block_exact :
  Exact location_block_codec (KECCAK_LENGTH + 8) (fun k => word k.1 /\ is_u64 k.2).
Proof. by eapply product_exact; try apply _. Qed.

Lemma location_block_encode l n b : encode location_block_codec (l, n) = Some b ->
  b = be_bytes 32 l ++ be_bytes 8 n.
Proof.
  intros Hb. rewrite (product_encode _ _ _ _ _ _ _ _ (l, n) (be_bytes 32 l) (be_bytes 8 n)) in Hb;
    [congruence|done|done|by rewrite blen_be_bytes|by rewrite blen_be_bytes].
Qed.

Lemma location_block_decode b l n : blen b = KECCAK_LENGTH + 8 ->
  decode location_block_codec b = Value (l, n) ->
  exists x y, b = x ++ y /\ blen x = KECCAK_LENGTH /\ blen y = 8 /\ decode h256_codec x = Value l /\
    decode u64_codec y = Value n.
Proof.
  intros Hb Hd. destruct (split_bytes b KECCAK_LENGTH) as (x & y & -> & Hx); [unfold KECCAK_LENGTH in *; lia|].
  rewrite blen_app in Hb. assert (blen y = 8) as Hy by lia.
  destruct (exact_decode (c := h256_codec) x Hx) as (l' & Hl & _).
  destruct (exact_decode (c := u64_codec) y Hy) as (n' & Hn & _).
  rewrite (product_decode _ _ _ _ _ _ _ _ _ _ _ _ Hx Hy Hl Hn) in Hd. exists x, y. naive_solver.
Qed.

#[export] Instance storage_bitmap_product :
  Product address_codec location_block_codec storage_bitmap_codec ADDRESS_LENGTH (KECCAK_LENGTH + 8)
    (fun a ln => {| inner := (a, ln.1); block_number := ln.2 |})
    (fun k => (inner k).1) (fun k => ((inner k).2, block_number k)).
Proof.
  split; try done.
  - by intros [[] ?].
  - by intros ? [].
  - intros x a b Ha Hb Hla Hlb. apply location_block_encode in Hb as ->.
    cbn [storage_bitmap_codec encode h256_codec u64_codec array_codec]; lengths. codec_step.
    rewrite copy_first by lia. cbn [mbind option_bind].
    rewrite copy_into_zeros by (rewrite ?blen_be_bytes; lia). cbn [mbind option_bind].
    rewrite copy_last by (rewrite ?blen_app, ?blen_be_bytes; lia). by rewrite <- app_assoc.
  - intros a b x [l n] Hla Hlb Ha Hb.
    apply location_block_decode in Hb as (y & z & -> & Hy & Hz & Hl & Hn); [|done].
    cbn [storage_bitmap_codec decode]; lengths. rewrite blen_app in Hlb.
    do 3 codec_step.
    rewrite slice_middle by lia. cbn [indexing mbind Decoded_bind]. codec_step.
    rewrite (app_assoc a y z). by repeat codec_step.
  - intros b Hb. by apply wrong_length.
Qed.

#[export] Instance account_bitmap_exact :
  Exact account_bitmap_codec (ADDRESS_LENGTH + BLOCK_NUMBER_LENGTH)
    (fun k => is_address (inner k) /\ is_u64 (block_number k)).
Proof. by eapply product_exact; try apply _. Qed.
#[export] Instance storage_change_key_exact :
  Exact storage_change_key_codec (BLOCK_NUMBER_LENGTH + ADDRESS_LENGTH)
    (fun k => is_u64 (change_block k) /\ is_address (change_address k)).
Proof. by eapply product_exact; try apply _. Qed.
#[export] Instance storage_bitmap_exact :
  Exact storage_bitmap_codec (ADDRESS_LENGTH + (KECCAK_LENGTH + 8))
    (fun k => is_address (inner k).1 /\ word (inner k).2 /\ is_u64 (block_number k)).
Proof.
  by refine (product_exact _ _ _ _ _ _ _ _ is_address (fun k => word k.1 /\ is_u64 k.2) _ _ _ _).
Qed.

(** ** Variable lengths *)

#[export] Instance bytes_sound : Sound bytes_codec (fun _ => True).
Proof. split; [|done]. intros b _. by exists b. Qed.

#[export] Instance variable_vec_sound cap : Sound (variable_vec cap) (fun b => blen b <= cap).
Proof.
  split.
  - intros b Hb. exists b. cbn. by rewrite try_extend_fits.
  - intros b a. cbn. unfold try_extend. change (blen (@nil byte)) with 0.
    destruct (Z.leb_spec (0 + blen b) cap); [|done]. intros [= <-]. simpl. lia.
Qed.

Lemma decode_u256 z : word z -> decode u256_codec (zeroless_view (be_bytes 32 z)) = Value z.
Proof.
  intros Hz. cbn [u256_codec decode].
  pose proof (zeroless_blen (be_bytes 32 z)) as Hl. rewrite blen_be_bytes in Hl.
  rewrite (proj2 (Z.ltb_ge _ _)) by done.
  pose proof (zeroless_padded (be_bytes 32 z)) as Hp. rewrite blen_be_bytes in Hp.
  change KECCAK_LENGTH with (Z.of_nat 32). rewrite Hp. cbn [indexing mbind Decoded_bind].
  by rewrite be_val_bytes_uint.
Qed.

#[export] Instance u256_sound : Sound u256_codec word.
Proof.
  split.
  - intros z Hz. exists (zeroless_view (be_bytes 32 z)). split; [done|by apply decode_u256].
  - intros b a. cbn [u256_codec decode]. destruct (Z.ltb_spec KECCAK_LENGTH (blen b)) as [|Hb]; [done|].
    rewrite left_padded_spec by done. cbn [indexing mbind Decoded_bind]. intros [= <-].
    rewrite be_val_replicate0. apply be_val_uint. unfold KECCAK_LENGTH in Hb. lia.
Qed.

Lemma truncate_start_sound {A} (c : Codec A) len valid : Exact c len valid -> Sound (truncate_start len c) valid.
Proof.
  intros Hc. split.
  - intros a Ha. destruct (exact_encode a Ha) as (b & Hb & Hl & Hd). exists (zeroless_view b).
    pose proof (zeroless_blen b). cbn [truncate_start encode decode]. rewrite Hb. cbn [mbind option_bind].
    rewrite try_extend_fits by (change (blen (@nil byte)) with 0; lia). split; [done|].
    rewrite (proj2 (Z.ltb_ge _ _)) by lia. rewrite <- Hl, zeroless_padded. exact Hd.
  - intros b a. cbn [truncate_start decode]. destruct (Z.ltb_spec len (blen b)); [done|].
    rewrite left_padded_spec by done. cbn [indexing mbind Decoded_bind]. apply sound_valid.
Qed.

#[export] Instance truncated_block_sound : Sound (truncate_start 8 u64_codec) is_u64.
Proof. apply truncate_start_sound, _. Qed.

Lemma encode_addresses_eq l v : encode_addresses l v = Some (v ++ concat (be_bytes 20 <$> l)).
Proof.
  revert v. induction l as [|a l IH]; intros v; [by rewrite app_nil_r|].
  cbn [encode_addresses address_codec array_codec encode mbind option_bind]. rewrite IH.
  rewrite fmap_cons. cbn [concat]. by rewrite <- app_assoc.
Qed.

Lemma decode_address a : is_address a -> decode address_codec (be_bytes 20 a) = Value a.
Proof. by apply (decode_array 20). Qed.

Definition encoded_as (a : Address) (e : Bytes) : Prop :=
  blen e = ADDRESS_LENGTH /\ decode address_codec e = Value a.

Lemma addresses_encoded l : Forall is_address l -> Forall2 encoded_as l (be_bytes 20 <$> l).
Proof.
  intros Hl. apply Forall2_fmap_r, Forall_Forall2_diag. eapply List.Forall_impl; [|exact Hl]. intros a Ha.
  split; [apply blen_be_bytes|by apply decode_address].
Qed.

Lemma decode_addresses_encoded l es : Forall2 encoded_as l es -> forall pre k v,
  blen pre = Z.of_nat k * ADDRESS_LENGTH ->
  decode_addresses (pre ++ concat es) (Z.of_nat <$> seq k (length l)) v = Value (v ++ l).
Proof.
  induction 1 as [|a e l es [He Ha] _ IH]; intros pre k v Hk; [by rewrite (app_nil_r v)|].
  cbn [length seq concat]. rewrite fmap_cons. cbn [decode_addresses].
  rewrite slice_middle by done. cbn [indexing mbind Decoded_bind].
  rewrite Ha. cbn [mbind Decoded_bind]. rewrite app_assoc.
  rewrite IH by (rewrite blen_app, Hk, Nat2Z.inj_succ, He; unfold ADDRESS_LENGTH; lia).
  by rewrite <- app_assoc.
Qed.

Lemma decode_addresses_valid b indices v l : Forall is_address v ->
  decode_addresses b indices v = Value l -> Forall is_address l.
Proof.
  revert v. induction indices as [|i indices IH]; intros v Hv; cbn [decode_addresses]; [by intros [= <-]|].
  destruct (slice _ _ _) as [s|]; cbn [indexing mbind Decoded_bind]; [|done].
  destruct (decode address_codec s) as [a| |] eqn:E; cbn [mbind Decoded_bind]; [|done|done].
  apply IH. apply Forall_app. split; [done|]. constructor; [|done]. by apply sound_valid in E.
Qed.

Lemma blen_addresses (l : list Address) : blen (concat (be_bytes 20 <$> l)) = Z.of_nat (length l) * ADDRESS_LENGTH.
Proof.
  induction l as [|a l IH]; [done|]. rewrite fmap_cons. cbn [concat length].
  rewrite blen_app, IH, blen_be_bytes. unfold ADDRESS_LENGTH. lia.
Qed.

#[export] Instance addresses_sound : Sound addresses_codec (Forall is_address).
Proof.
  split.
  - intros l Hl. exists (concat (be_bytes 20 <$> l)). cbn [addresses_codec encode decode].
    rewrite encode_addresses_eq. split; [done|]. rewrite blen_addresses, Z_mod_mult. cbn [Z.eqb negb].
    rewrite Z.div_mul, Nat2Z.id by done. by apply (decode_addresses_encoded l _ (addresses_encoded l Hl) [] O []).
  - intros b l. cbn [addresses_codec decode]. destruct (negb _); [done|]. by apply decode_addresses_valid.
Qed.

(** A location followed by a value without leading zeros. *)
Lemma location_value_encode (cap l v : Z) : word l -> word v -> 64 <= cap ->
  exists h b, (h ← encode h256_codec l; v ← encode u256_codec v; out ← try_extend cap [] h;
       try_extend cap out v) = Some (h ++ b) /\
    blen h = 32 /\ blen b <= 32 /\ decode u256_codec b = Value v /\ decode h256_codec h = Value l.
Proof.
  intros Hl Hv Hcap. exists (be_bytes 32 l), (zeroless_view (be_bytes 32 v)).
  pose proof (zeroless_blen (be_bytes 32 v)) as Hz. rewrite blen_be_bytes in Hz.
  cbn [h256_codec u256_codec array_codec encode mbind option_bind].
  change (Z.to_nat KECCAK_LENGTH) with 32%nat.
  rewrite try_extend_fits by (rewrite blen_be_bytes; change (blen (@nil byte)) with 0; lia).
  cbn [mbind option_bind app]. rewrite try_extend_fits by (rewrite blen_be_bytes; lia).
  split_and!; [done|apply blen_be_bytes|done|by apply decode_u256|by apply (decode_array 32)].
Qed.

#[export] Instance h256_u256_sound : Sound h256_u256_codec (fun p => word p.1 /\ word p.2).
Proof.
  split.
  - intros [l v] [Hl Hv]. destruct (location_value_encode 64 l v Hl Hv) as (h & b & He & Hh & Hb & Hdv & Hdl);
      [done|]. exists (h ++ b). split; [exact He|]. cbn [h256_u256_codec decode]. lengths.
    pose proof (blen_nonneg b). rewrite blen_app, (proj2 (Z.ltb_ge _ _)), (proj2 (Z.ltb_ge _ _)) by lia.
    rewrite slice_to_app, slice_from_app by done. cbn [mbind Decoded_bind].
    by repeat codec_step.
  - intros b [l v]. cbn [h256_u256_codec decode]. lengths. destruct (Z.ltb_spec (32 + 32) (blen b)); [done|].
    destruct (Z.ltb_spec (blen b) 32); [done|]. destruct (split_bytes b 32) as (x & y & -> & Hx); [lia|].
    rewrite slice_to_app, slice_from_app by done. cbn [mbind Decoded_bind].
    destruct (decode h256_codec x) as [l'| |] eqn:El; cbn [mbind Decoded_bind]; [|done..].
    destruct (decode u256_codec y) as [v'| |] eqn:Ev; cbn [mbind Decoded_bind]; [|done..].
    intros [= -> ->]. split; [by apply sound_valid in El|by apply sound_valid in Ev].
Qed.

#[export] Instance storage_change_sound :
  Sound storage_change_codec (fun c => word (change_location c) /\ word (change_value c)).
Proof.
  split.
  - intros [l v] [Hl Hv]. destruct (location_value_encode 64 l v Hl Hv) as (h & b & He & Hh & Hb & Hdv & Hdl);
      [done|]. exists (h ++ b). split; [exact He|]. cbn [storage_change_codec decode]. lengths.
    pose proof (blen_nonneg b). rewrite blen_app, (proj2 (Z.ltb_ge _ _)) by lia.
    rewrite slice_to_app, slice_from_app by done. cbn [mbind Decoded_bind].
    by repeat codec_step.
  - intros b [l v]. cbn [storage_change_codec decode]. lengths.
    destruct (Z.ltb_spec (blen b) 32); [done|]. destruct (split_bytes b 32) as (x & y & -> & Hx); [lia|].
    rewrite slice_to_app, slice_from_app by done. cbn [mbind Decoded_bind].
    destruct (decode h256_codec x) as [l'| |] eqn:El; cbn [mbind Decoded_bind]; [|done..].
    destruct (decode u256_codec y) as [v'| |] eqn:Ev; cbn [mbind Decoded_bind]; [|done..].
    intros [= -> ->]. split; [by apply sound_valid in El|by apply sound_valid in Ev].
Qed.

(** ** Call traces *)

Lemma call_trace_flags_bits from to :
  Z.testbit (byte_val (call_trace_flags from to)) 0 = from /\
  Z.testbit (byte_val (call_trace_flags from to)) 1 = to.
Proof. by destruct from, to. Qed.

Lemma index_snoc (x : Bytes) b n : blen x = n -> Prelude.index (x ++ [b]) n = Some b.
Proof.
  intros <-. unfold Prelude.index, blen. rewrite (proj2 (Z.leb_le _ _)) by lia.
  by rewrite Nat2Z.id, list_lookup_middle.
Qed.

Lemma call_trace_encode e : exists a, encode call_trace_codec e =
    Some (a ++ [call_trace_flags (trace_from e) (trace_to e)]) /\
  a = be_bytes 20 (trace_address e) /\ blen a = ADDRESS_LENGTH.
Proof.
  exists (be_bytes 20 (trace_address e)).
  assert (blen (be_bytes 20 (trace_address e)) = ADDRESS_LENGTH) as Ha by apply blen_be_bytes.
  split_and!; [|done|done]. cbn [call_trace_codec encode address_codec array_codec mbind option_bind].
  change (Z.to_nat ADDRESS_LENGTH) with 20%nat. revert Ha. generalize (be_bytes 20 (trace_address e)).
  intros a Ha. lengths. rewrite copy_first by lia. cbn [mbind option_bind].
  pose proof (copy_last a [call_trace_flags (trace_from e) (trace_to e)] 20 21 1 Ha eq_refl eq_refl) as Hc.
  unfold copy_range in Hc. by change (blen [_] =? 21 - 20) with true in Hc.
Qed.

#[export] Instance call_trace_sound : Sound call_trace_codec (fun e => is_address (trace_address e)).
Proof.
  split.
  - intros e He. destruct (call_trace_encode e) as (a & Hen & -> & Ha). eexists. split; [exact Hen|].
    pose proof (decode_address _ He) as Hd. revert Ha Hd. generalize (be_bytes 20 (trace_address e)). intros a Ha Hd.
    cbn [call_trace_codec decode]. rewrite right_length by (rewrite blen_app, Ha; done).
    rewrite (index_snoc a) by done. cbn [indexing mbind Decoded_bind]. rewrite slice_to_app by done.
    cbn [mbind Decoded_bind]. rewrite Hd. cbn [mbind Decoded_bind].
    destruct (call_trace_flags_bits (trace_from e) (trace_to e)) as [-> ->]. by destruct e.
  - intros b e. cbn [call_trace_codec decode]. destruct (negb _); [done|].
    destruct (indexing _); cbn [mbind Decoded_bind]; [|done..].
    destruct (slice_to _ _) as [s| |]; cbn [mbind Decoded_bind]; [|done..].
    destruct (decode address_codec s) as [x| |] eqn:E; cbn [mbind Decoded_bind]; [|done..].
    intros [= <-]. by apply sound_valid in E.
Qed.

(** ** Accounts *)

Lemma splice_first (x z : Bytes) b c : splice (x ++ c :: z) (blen x) [b] = Some (x ++ b :: z).
Proof.
  pose proof (copy_next x [c] z [b] (blen x) (blen x + 1) eq_refl) as Hc. unfold copy_range in Hc.
  rewrite (proj2 (Z.eqb_eq _ _)) in Hc by (change (blen [b]) with 1; lia). apply Hc; [|done].
  change (blen [b]) with 1. lia.
Qed.

Lemma splice_end (x : Bytes) b : splice x (blen x) [b] = None.
Proof.
  unfold splice. rewrite andb_comm, (proj2 (Z.leb_gt _ _)); [done|]. change (blen [b]) with 1. lia.
Qed.

Lemma fill_reversed_spec buf pre k :
  fill_reversed (blen pre) buf (pre ++ replicate k x00) =
  if (length buf <=? k)%nat then Some (pre ++ buf ++ replicate (k - length buf) x00) else None.
Proof.
  revert pre k. induction buf as [|b buf IH]; intros pre k; cbn [fill_reversed length].
  - by rewrite Nat.sub_0_r.
  - destruct k as [|k]; cbn [replicate].
    + rewrite app_nil_r, splice_end. done.
    + rewrite splice_first. cbn [mbind option_bind]. rewrite cons_middle, app_assoc.
      rewrite (ltac:(rewrite blen_app; done) : blen pre + 1 = blen (pre ++ [b])), IH. simpl.
      destruct (length buf <=? k)%nat; [|done]. by rewrite <- app_assoc.
Qed.

Lemma rev_zeros k : rev (replicate k x00) = replicate k x00.
Proof. induction k as [|k IH]; [done|]. cbn [replicate rev]. rewrite IH. by rewrite <- replicate_S_end. Qed.

Lemma bytes_to_u64_spec buf :
  bytes_to_u64 buf = if blen buf <=? 8 then Some (be_val buf) else None.
Proof.
  unfold bytes_to_u64. pose proof (fill_reversed_spec (rev buf) [] 8) as Hf.
  change ([] ++ replicate 8 x00) with (replicate 8 x00) in Hf. change (blen []) with 0 in Hf.
  rewrite Hf, length_rev. clear Hf. unfold blen.
  destruct (Nat.leb_spec (length buf) 8), (Z.leb_spec (Z.of_nat (length buf)) 8); try lia; [|done].
  cbn [mbind option_bind app]. rewrite rev_app_distr, rev_involutive.
  rewrite rev_zeros. by rewrite be_val_replicate0.
Qed.

(** What a stored account means: the length of the nonce and the presence of a code hash
    come from the flags. *)
Definition nonce_len (flags : byte) : Z := Z.land (byte_val flags) 15.
Definition has_code (flags : byte) : bool := Z.testbit (byte_val flags) 4.
Definition hash_len (flags : byte) : Z := if has_code flags then 32 else 0.

Lemma nonce_len_nonneg flags : 0 <= nonce_len flags.
Proof. apply Z.land_nonneg. lia. Qed.

Lemma slice_to_short (b : Bytes) n : blen b < n -> slice_to b n = DecodePanic.
Proof.
  intros H. unfold slice_to, slice. rewrite (proj2 (Z.leb_gt (0 + n) _)) by lia. by rewrite andb_false_r.
Qed.

Lemma slice_from_short (b : Bytes) n : blen b < n -> slice_from b n = DecodePanic.
Proof.
  intros H. unfold slice_from, slice. rewrite (proj2 (Z.leb_gt 0 (blen b - n))) by lia. by rewrite andb_false_r.
Qed.

(** The nonce of a stored account that is too long or cut off. *)
Lemma decode_bad_nonce flags enc : 8 < nonce_len flags \/ blen enc < nonce_len flags ->
  decode_for_storage (flags :: enc) = DecodePanic.
Proof.
  intros H. cbn [decode_for_storage]. fold (nonce_len flags). pose proof (blen_nonneg enc).
  rewrite (proj2 (Z.ltb_lt _ _)) by lia. destruct (Z.ltb_spec (blen enc) (nonce_len flags)).
  - by rewrite slice_to_short.
  - destruct (split_bytes enc (nonce_len flags)) as (x & y & -> & Hx); [lia|].
    rewrite slice_to_app by done. cbn [mbind Decoded_bind].
    rewrite bytes_to_u64_spec, (proj2 (Z.leb_gt _ _)) by lia. done.
Qed.

(** After a good nonce, what follows decides. *)
Lemma decode_after_nonce flags n enc : blen n = nonce_len flags -> blen n <= 8 ->
  decode_for_storage (flags :: n ++ enc) =
  (hash ← (if has_code flags then be_val <$> slice_to enc KECCAK_LENGTH else Value EMPTY_HASH);
   enc ← slice_from enc (hash_len flags);
   if 32 <? blen enc then Failed (Bail "balance cannot be longer than 32 bytes"%string)
   else v ← indexing (static_left_pad 32 enc);
        Value (Some {| nonce := be_val n; balance := be_val v; code_hash := hash |})).
Proof.
  intros Hn Hn8. cbn [decode_for_storage]. fold (nonce_len flags) (has_code flags).
  rewrite slice_to_app, slice_from_app by done.
  assert ((if 0 <? nonce_len flags then s ← Value n; indexing (bytes_to_u64 s) else Value 0) =
    Value (be_val n)) as ->; [|done].
  destruct (Z.ltb_spec 0 (nonce_len flags)).
  - cbn [mbind Decoded_bind]. by rewrite bytes_to_u64_spec, (proj2 (Z.leb_le _ _)).
  - destruct n; [done|]. unfold blen in Hn. cbn [length] in Hn. lia.
Qed.

Lemma decode_parts flags n h b : blen n = nonce_len flags -> blen n <= 8 -> blen h = hash_len flags ->
  blen b <= 32 ->
  decode_for_storage (flags :: n ++ h ++ b) =
  Value (Some {| nonce := be_val n; balance := be_val b;
                 code_hash := if has_code flags then be_val h else EMPTY_HASH |}).
Proof.
  intros Hn Hn8 Hh Hb. rewrite decode_after_nonce, slice_from_app by done.
  assert ((if has_code flags then be_val <$> slice_to (h ++ b) KECCAK_LENGTH else Value EMPTY_HASH) =
    Value (if has_code flags then be_val h else EMPTY_HASH)) as ->.
  { unfold hash_len in Hh. destruct (has_code flags); [|done]. by rewrite slice_to_app. }
  cbn [mbind Decoded_bind]. rewrite (proj2 (Z.ltb_ge _ _)) by done.
  unfold static_left_pad. rewrite (proj2 (Z.leb_le _ _)), left_padded_spec by done.
  cbn [indexing mbind Decoded_bind]. by rewrite be_val_replicate0.
Qed.

Lemma decode_bad_hash flags n enc : blen n = nonce_len flags -> blen n <= 8 -> blen enc < hash_len flags ->
  decode_for_storage (flags :: n ++ enc) = DecodePanic.
Proof.
  intros Hn Hn8 Hs. rewrite decode_after_nonce by done. unfold hash_len in Hs. pose proof (blen_nonneg enc).
  destruct (has_code flags); [|lia]. rewrite slice_to_short by done. done.
Qed.

Lemma decode_bad_balance flags n h b : blen n = nonce_len flags -> blen n <= 8 -> blen h = hash_len flags ->
  32 < blen b ->
  decode_for_storage (flags :: n ++ h ++ b) = Failed (Bail "balance cannot be longer than 32 bytes"%string).
Proof.
  intros Hn Hn8 Hh Hb. rewrite decode_after_nonce by done. rewrite slice_from_app by done.
  unfold hash_len in Hh. destruct (has_code flags).
  - rewrite slice_to_app by done. cbn [fmap Decoded_fmap mbind Decoded_bind]. by rewrite (proj2 (Z.ltb_lt _ _)).
  - cbn [mbind Decoded_bind]. by rewrite (proj2 (Z.ltb_lt _ _)).
Qed.

(** The parts of a stored account whose flags agree with its length. *)
Definition well_cut (flags : byte) (enc : Bytes) : Prop :=
  nonce_len flags <= 8 /\ nonce_len flags + hash_len flags <= blen enc.

Lemma hash_len_nonneg flags : 0 <= hash_len flags.
Proof. unfold hash_len. destruct (has_code flags); lia. Qed.

Lemma cut_cases flags enc :
  (~ well_cut flags enc /\ decode_for_storage (flags :: enc) = DecodePanic) \/
  (well_cut flags enc /\
   exists n h b, enc = n ++ h ++ b /\ blen n = nonce_len flags /\ blen n <= 8 /\ blen h = hash_len flags).
Proof.
  pose proof (hash_len_nonneg flags). pose proof (nonce_len_nonneg flags). unfold well_cut.
  destruct (decide (nonce_len flags <= 8 /\ nonce_len flags <= blen enc)) as [[Hn8 Hn]|Hbad].
  2:{ left. split; [lia|]. apply decode_bad_nonce. lia. }
  destruct (split_bytes enc (nonce_len flags)) as (n & r & -> & Hln); [lia|].
  rewrite blen_app in *. destruct (decide (hash_len flags <= blen r)) as [Hh|Hh].
  2:{ left. split; [lia|]. apply decode_bad_hash; lia. }
  destruct (split_bytes r (hash_len flags)) as (h & b & -> & Hlh); [lia|].
  right. split; [lia|]. exists n, h, b. split_and!; [done|done|lia|done].
Qed.

Definition account_wf (a : Account) : Prop := is_u64 (nonce a) /\ word (balance a) /\ word (code_hash a).

Lemma parts_wf flags n h b : blen n <= 8 -> blen h = hash_len flags -> blen b <= 32 ->
  account_wf {| nonce := be_val n; balance := be_val b;
                code_hash := if has_code flags then be_val h else EMPTY_HASH |}.
Proof.
  intros Hn Hh Hb. split_and!; cbn [nonce balance code_hash]; [apply be_val_uint; lia|apply be_val_uint; lia|].
  unfold hash_len in Hh. destruct (has_code flags); [apply be_val_uint; lia|done].
Qed.

(** Decoding a stored account, whatever the bytes are.  No bytes are no account.
    Otherwise the first byte gives the length of the nonce and says whether there is a
    code hash; when these do not fit into the rest, or the nonce is longer than 8 bytes,
    the decoder panics; a balance of more than 32 bytes is reported as an error; in all
    other cases there is an account with numbers of their widths. *)
Theorem account_decode_cases b :
  match b with
  | [] => decode_for_storage b = Value None
  | flags :: enc =>
      (~ well_cut flags enc /\ decode_for_storage b = DecodePanic) \/
      (well_cut flags enc /\ nonce_len flags + hash_len flags + 32 < blen enc /\
       decode_for_storage b = Failed (Bail "balance cannot be longer than 32 bytes"%string)) \/
      (well_cut flags enc /\ blen enc <= nonce_len flags + hash_len flags + 32 /\
       exists a, decode_for_storage b = Value (Some a) /\ account_wf a)
  end.
Proof.
  destruct b as [|flags enc]; [done|]. destruct (cut_cases flags enc) as [?|(Hcut & n & h & b & -> & Hn & Hn8 & Hh)];
    [by left|right].
  destruct (decide (blen b <= 32)) as [Hb|Hb]; rewrite !blen_app.
  - right. split_and!; [done|lia|]. rewrite decode_parts by lia. eexists. split; [done|by apply parts_wf].
  - left. split_and!; [done|lia|]. apply decode_bad_balance; lia.
Qed.

Lemma account_flags_spec n c : 0 <= n <= 8 ->
  exists f, account_flags n c = Some f /\ nonce_len f = n /\ has_code f = c.
Proof.
  intros Hn. assert (n = 0 \/ n = 1 \/ n = 2 \/ n = 3 \/ n = 4 \/ n = 5 \/ n = 6 \/ n = 7 \/ n = 8) as Hc by lia.
  destruct c; repeat destruct Hc as [->|Hc]; try subst n; by eexists.
Qed.

(** A number that is left out when it is zero, and otherwise written without leading
    zeros. *)
Definition compact (n : nat) (z : Z) : Bytes := if z =? 0 then [] else write_compact (be_bytes n z).

Lemma compact_spec n z : uint (8 * Z.of_nat n) z -> be_val (compact n z) = z /\ blen (compact n z) <= Z.of_nat n.
Proof.
  intros Hz. unfold compact, write_compact. destruct (Z.eqb_spec z 0) as [->|].
  - unfold be_val, blen. simpl. lia.
  - split; [by rewrite zeroless_val, be_val_bytes_uint|].
    etransitivity; [apply zeroless_blen|]. by rewrite blen_be_bytes.
Qed.

Lemma account_encode a : account_wf a -> exists flags n h b,
  encode_for_storage a = Some (flags :: n ++ h ++ b) /\
  blen n = nonce_len flags /\ blen n <= 8 /\ blen h = hash_len flags /\ blen b <= 32 /\
  be_val n = nonce a /\ be_val b = balance a /\
  (if has_code flags then be_val h else EMPTY_HASH) = code_hash a.
Proof.
  intros (Hn & Hb & Hc). destruct (compact_spec 8 (nonce a) Hn) as [Hnv Hnl].
  destruct (compact_spec 32 (balance a) Hb) as [Hbv Hbl].
  unfold encode_for_storage. fold (compact 8 (nonce a)) (compact 32 (balance a)).
  set (c := negb (code_hash a =? EMPTY_HASH)). set (h := if c then be_bytes 32 (code_hash a) else []).
  assert (blen h = (if c then 32 else 0) /\ (if c then be_val h else EMPTY_HASH) = code_hash a) as [Hh Hhv].
  { unfold h, c. destruct (Z.eqb_spec (code_hash a) EMPTY_HASH); cbn [negb]; [done|].
    split; [apply blen_be_bytes|by apply be_val_bytes_uint]. }
  clearbody h. revert Hnv Hnl Hbv Hbl. generalize (compact 8 (nonce a)), (compact 32 (balance a)).
  intros n b Hnv Hnl Hbv Hbl. pose proof (blen_nonneg n). pose proof (blen_nonneg b).
  destruct (account_flags_spec (blen n) c) as (f & Hf & Hfn & Hfc); [lia|].
  exists f, n, h, b. split; [|unfold hash_len; rewrite Hfn, Hfc; done].
  assert (blen h <= 32) by (destruct c; lia). unfold MAX_ACCOUNT_LEN.
  change (try_extend _ [] [x00]) with (Some [x00]). cbn [mbind option_bind].
  rewrite try_extend_fits by (change (blen [x00]) with 1; lia). cbn [mbind option_bind].
  rewrite try_extend_fits by (rewrite blen_app; change (blen [x00]) with 1; lia). cbn [mbind option_bind].
  rewrite try_extend_fits by (rewrite !blen_app; change (blen [x00]) with 1; lia). cbn [mbind option_bind].
  rewrite Hf. cbn [mbind option_bind]. rewrite <- !app_assoc. exact (splice_first [] _ f x00).
Qed.

Lemma account_roundtrip a : account_wf a ->
  exists b, encode_for_storage a = Some b /\ decode account_codec b = Value a /\ 1 <= blen b <= MAX_ACCOUNT_LEN.
Proof.
  intros Ha. destruct (account_encode a Ha) as (f & n & h & b & He & Hn & Hn8 & Hh & Hb & Hnv & Hbv & Hcv).
  exists (f :: n ++ h ++ b). split; [done|]. cbn [account_codec decode]. rewrite decode_parts by done.
  cbn [mbind Decoded_bind]. split.
  - rewrite Hnv, Hbv, Hcv. by destruct a.
  - change (f :: n ++ h ++ b) with ([f] ++ n ++ h ++ b). rewrite !blen_app. change (blen [f]) with 1.
    pose proof (blen_nonneg n). pose proof (blen_nonneg h). pose proof (blen_nonneg b). unfold MAX_ACCOUNT_LEN.
    unfold hash_len in Hh. destruct (has_code f); lia.
Qed.

Lemma decoded_account_wf b a : decode_for_storage b = Value (Some a) -> account_wf a.
Proof.
  intros Hd. destruct b as [|f enc]; [done|].
  destruct (cut_cases f enc) as [[_ Hp]|(_ & n & h & b & -> & Hn & Hn8 & Hh)]; [congruence|].
  destruct (decide (blen b <= 32)) as [Hb|Hb].
  - rewrite decode_parts in Hd by lia. injection Hd as <-. by apply parts_wf.
  - rewrite decode_bad_balance in Hd by lia. done.
Qed.

#[export] Instance account_sound : Sound account_codec account_wf.
Proof.
  split.
  - intros a Ha. destruct (account_roundtrip a Ha) as (b & He & Hd & _). by exists b.
  - intros b a. cbn [account_codec decode]. destruct (decode_for_storage b) as [[a'|]| |] eqn:E; cbn [mbind Decoded_bind];
      [|done..]. intros [= <-]. by eapply decoded_account_wf.
Qed.

Definition account_change_wf (c : AccountChange) : Prop :=
  is_address (changed_address c) /\ from_option account_wf True (changed_account c).

#[export] Instance account_change_sound : Sound account_change_codec account_change_wf.
Proof.
  split.
  - intros [a o] [Ha Ho]. cbn [changed_address changed_account] in *.
    destruct (exact_encode (c := address_codec) a Ha) as (e & He & Hl & Hd).
    assert (exists r, match o with Some x => encode_for_storage x = Some r /\ decode account_codec r = Value x /\
      1 <= blen r <= MAX_ACCOUNT_LEN | None => r = [] end) as [r Hr].
    { destruct o as [x|]; [by apply account_roundtrip|by exists []]. }
    exists (e ++ r). cbn [account_change_codec encode decode changed_address changed_account].
    rewrite He. cbn [mbind option_bind]. unfold MAX_ACCOUNT_LEN in *. lengths.
    rewrite try_extend_fits by (change (blen (@nil byte)) with 0; lia). cbn [mbind option_bind app].
    rewrite slice_to_app by done. cbn [mbind Decoded_bind]. rewrite Hd. cbn [mbind Decoded_bind].
    pose proof (blen_nonneg r). rewrite blen_app, (proj2 (Z.ltb_ge _ _)) by lia. destruct o as [x|].
    + destruct Hr as (Hx & Hdx & Hlr). cbn [account_codec encode]. rewrite Hx. cbn [mbind option_bind].
      rewrite try_extend_fits by lia. split; [done|]. rewrite (proj2 (Z.ltb_lt _ _)) by lia.
      rewrite slice_from_app by done. cbn [mbind Decoded_bind]. rewrite Hdx. done.
    + subst r. rewrite (proj2 (Z.ltb_ge _ _)) by (change (blen (@nil byte)) with 0; lia). by rewrite app_nil_r.
  - intros b [a o]. cbn [account_change_codec decode]. lengths. destruct (Z.ltb_spec (blen b) 20); [done|].
    destruct (slice_to b 20) as [s| |]; cbn [mbind Decoded_bind]; [|done..].
    destruct (decode address_codec s) as [a'| |] eqn:Ea; cbn [mbind Decoded_bind]; [|done..].
    apply sound_valid in Ea. destruct (Z.ltb_spec 20 (blen b)).
    + destruct (slice_from b 20) as [r| |]; cbn [mbind Decoded_bind]; [|done..].
      destruct (decode account_codec r) as [x| |] eqn:Ex; cbn [fmap Decoded_fmap mbind Decoded_bind]; [|done..].
      intros [= -> <-]. split; [done|]. by apply sound_valid in Ex.
    + cbn [mbind Decoded_bind]. intros [= -> <-]. done.
Qed.

(** ** All types *)

(** The values of a type: integers within their widths. *)
Definition type_wf (t : TableType) : carrier t -> Prop :=
  match t with
  | TBytes => fun _ => True
  | TVariableVec cap => fun b => blen b <= cap
  | TU64 => is_u64
  | TTruncateStart => is_u64
  | TAddress => is_address
  | TAddresses => Forall is_address
  | TH256 => word
  | TU256 => word
  | TH256U256 => fun p => word p.1 /\ word p.2
  | THeaderKey => fun k => is_u64 k.1 /\ word k.2
  | TLogKey => fun k => is_u64 k.1 /\ is_u64 k.2
  | TAccountBitmap => fun k => is_address (inner k) /\ is_u64 (block_number k)
  | TStorageBitmap => fun k => is_address (inner k).1 /\ word (inner k).2 /\ is_u64 (block_number k)
  | TStorageChangeKey => fun k => is_u64 (change_block k) /\ is_address (change_address k)
  | TStorageChange => fun c => word (change_location c) /\ word (change_value c)
  | TCallTrace => fun e => is_address (trace_address e)
  | TAccount => account_wf
  | TAccountChange => account_change_wf
  end.

#[export] Instance type_sound t : Sound (codec t) (type_wf t).
Proof. destruct t; cbn [codec type_wf]; apply _. Qed.


Definition sample_account : Account := {| nonce := 2; balance := 1000; code_hash := 0x123 |}.




(** ** The order of keys *)

Lemma bytes_le_val a b : length a = length b -> bytes_le a b = true <-> be_val a <= be_val b.
Proof.
  revert b. induction a as [|x a IH]; intros [|y b] Hl; [done|done|done|]. injection Hl as Hl.
  cbn [bytes_le]. rewrite orb_true_iff, andb_true_iff, Z.ltb_lt, Z.eqb_eq, (IH b Hl).
  change (x :: a) with ([x] ++ a). change (y :: b) with ([y] ++ b). rewrite !be_val_app. unfold blen. rewrite Hl.
  change (be_val [x]) with (byte_val x). change (be_val [y]) with (byte_val y).
  pose proof (be_val_range a) as Ha. pose proof (be_val_range b) as Hb. rewrite Hl in Ha.
  revert Ha Hb. generalize (256 ^ Z.of_nat (length b)) (be_val a) (be_val b) (byte_val x) (byte_val y). intros. nia.
Qed.

Lemma array_numbered len : 0 <= len -> Numbered (array_codec len) len (uint (8 * len)) (fun z => z).
Proof.
  intros Hlen z Hz. exists (be_bytes (Z.to_nat len) z).
  split_and!; [done|rewrite blen_be_bytes; lia|]. apply be_val_bytes_uint. by rewrite Z2Nat.id.
Qed.

#[export] Instance u64_numbered : Numbered u64_codec 8 is_u64 (fun z => z).
Proof. by apply array_numbered. Qed.
#[export] Instance address_numbered : Numbered address_codec ADDRESS_LENGTH is_address (fun z => z).
Proof. by apply array_numbered. Qed.
#[export] Instance h256_numbered : Numbered h256_codec KECCAK_LENGTH word (fun z => z).
Proof. by apply array_numbered. Qed.

#[export] Instance location_block_numbered :
  Numbered location_block_codec (KECCAK_LENGTH + 8) (fun k => word k.1 /\ is_u64 k.2)
    (fun k => k.1 * 256 ^ 8 + k.2).
Proof. refine (product_numbered _ _ _ _ _ _ _ _ _ _ _ _ _ _). Qed.

Lemma call_trace_numbered :
  Numbered call_trace_codec (ADDRESS_LENGTH + 1) (fun e => is_address (trace_address e)) entry_number.
Proof.
  intros e He. destruct (call_trace_encode e) as (a & Hen & -> & Ha). eexists. split; [exact Hen|].
  rewrite blen_app, Ha, be_val_snoc, be_val_bytes_uint by done. split; [done|]. unfold entry_number.
  destruct (trace_from e), (trace_to e); f_equal.
Qed.

(** The numbers that stand for encoded keys in the tables. *)
Definition type_number (t : TableType) : option (Z * (carrier t -> Z)) :=
  match t with
  | TU64 => Some (8, fun z => z)
  | TAddress => Some (20, fun z => z)
  | TH256 => Some (32, fun z => z)
  | THeaderKey => Some (40, fun k => header_key k.1 k.2)
  | TLogKey => Some (16, fun k => log_key k.1 k.2)
  | TAccountBitmap => Some (28, fun k => bitmap_key (inner k) (block_number k))
  | TStorageBitmap => Some (60, fun k => bitmap_key (storage_key (inner k).1 (inner k).2) (block_number k))
  | TStorageChangeKey => Some (28, fun k => account_change_key (change_block k) (change_address k))
  | TCallTrace => Some (21, entry_number)
  | _ => None
  end.

Lemma type_numbered t len f : type_number t = Some (len, f) -> Numbered (codec t) len (type_wf t) f.
Proof.
  destruct t; intros [= <- <-]; cbn [codec type_wf].
  - apply _.
  - apply _.
  - apply _.
  - exact (product_numbered _ _ _ 8 32 _ _ _ _ _ _ _ u64_numbered h256_numbered).
  - exact (product_numbered _ _ _ 8 8 _ _ _ _ _ _ _ u64_numbered u64_numbered).
  - exact (product_numbered _ _ _ 20 8 _ _ _ _ _ _ _ address_numbered u64_numbered).
  - intros k Hk. destruct (product_numbered (HP := storage_bitmap_product) _ _ _ _ _ _ _ _ _ _ _ _
      address_numbered location_block_numbered k Hk) as (b & Hb & Hl & Hn). exists b. split_and!; [done|done|]. rewrite Hn. cbn [fst snd].
    change (256 ^ (KECCAK_LENGTH + 8)) with (2 ^ 256 * 2 ^ 64). change (256 ^ 8) with (2 ^ 64).
    unfold bitmap_key, storage_key. ring.
  - exact (product_numbered _ _ _ 8 20 _ _ _ _ _ _ _ u64_numbered address_numbered).
  - exact call_trace_numbered.
Qed.

(** The tables of the model have numbers for keys, and the storage engine compares
    bytes.  The two agree: for every type of keys that has a number, the encoding of a key
    is as long as that of any other, its big-endian value is the number, and keys compare
    as their numbers do. *)
Theorem table_key_order t len number (a a' : carrier t) b b' : type_number t = Some (len, number) ->
  type_wf t a -> type_wf t a' -> encode (codec t) a = Some b -> encode (codec t) a' = Some b' ->
  blen b = len /\ be_val b = number a /\ (bytes_le b b' = true <-> number a <= number a').
Proof.
  intros Ht Ha Ha' Hb Hb'. apply type_numbered in Ht as Hn.
  destruct (Hn a Ha) as (c & Hc & Hl & Hv). destruct (Hn a' Ha') as (c' & Hc' & Hl' & Hv').
  assert (c = b) as -> by congruence. assert (c' = b') as -> by congruence.
  rewrite <- Hv, <- Hv'. split_and!; [done|done|]. apply bytes_le_val. unfold blen in *. lia.
Qed.

Lemma table_key_order_witness :
  let k := {| inner := 7; block_number := 5 |} in let k' := {| inner := 7; block_number := 300 |} in
  let b := default [] (encode (codec TAccountBitmap) k) in let b' := default [] (encode (codec TAccountBitmap) k') in
  blen b = 28 /\ be_val b = bitmap_key 7 5 /\ (bytes_le b b' = true <-> bitmap_key 7 5 <= bitmap_key 7 300).
Proof.
  refine (table_key_order TAccountBitmap 28 _ {| inner := 7; block_number := 5 |}
    {| inner := 7; block_number := 300 |} _ _ eq_refl _ _ _ _); by vm_compute.
Defined.

(** ** The chart of tables *)

#[export] Instance Table_eq_dec : EqDecision tables.Table.
Proof. solve_decision. Defined.

(** The tables that are searched by duplicates are the ones that keep them. *)
Lemma chart_complete (t : tables.Table) :
  t ∈ tables.all_tables /\ (tables.dup_sort t = true <-> is_Some (tables.seek_both_key t)).
Proof.
  split; [by apply (bool_decide_unpack _); destruct t; vm_compute|].
  destruct t; cbn; split; intros H; try done; by destruct H.
Qed.
