(* ===== verification/HashState.v ===== *)
(** The stage that keeps the state under hashed keys (src/stages/hashstate.rs, and the
    hashed storage of src/state/database.rs).

    The tables of hashed accounts and of hashed storage mirror those of the state, with
    the hash of an address and of a location in place of these.  They are filled by
    sorting the whole state, or by following the change sets. *)
From S2P Require Import Prelude Word EvmState IntraBlockState StagedSync Kv Etl Stages Bitmaps CallTraces Buffer Codec.
From Stdlib Require Import ZArith Lia Strings.Byte.
From stdpp Require Import base list option numbers.
#[local] Open Scope Z_scope.

Record HashTables (T : Type -> Type) := {
  hs_indices : Tables T;
  hs_state : StateTables T;
  hashed_account : T Account;
  hashed_storage : T Z;               (* hashed address, hashed location -> value *)
}.
Arguments hs_indices {T} _.
Arguments hs_state {T} _.
Arguments hashed_account {T} _.
Arguments hashed_storage {T} _.

(** What reading back an encoded value ends with. *)
Definition decoded {A} (d : Decoded A) : outcome A :=
  match d with Value a => Done a | Failed _ => Error | DecodePanic => Panicked end.

Module hash_state.

Section stage.
Context {T : Type -> Type} {KV : Kv T} {KC : Keccak} {W : Type}.

Definition hash_address (address : Address) : Z := be_val (keccak_digest (be_bytes 20 address)).
Definition hash_location (location : Z) : Z := be_val (keccak_digest (be_bytes 32 location)).

(** The hashed key of a slot, given its key in the table of storage. *)
Definition hash_slot (k : Z) : Z := storage_key (hash_address (k / 2 ^ 256)) (hash_location (k mod 2 ^ 256)).

Definition upsert_hashed_storage_value (hashed_address hashed_location value : Z) (t : T Z) : T Z :=
  let k := storage_key hashed_address hashed_location in
  let found := match kv_seek k t with Some (k', v) => if k' =? k then Some v else None | None => None end in
  let t := match found with Some _ => kv_delete k t | None => t end in
  if value =? 0 then t else kv_put k value t.

(** ** From the whole state *)

Definition account_entry (e : Address * Account) : option Entry :=
  value ← encode account_codec e.2;
  Some {| key := keccak_digest (be_bytes 20 e.1); value := value |}.

Definition storage_entry (e : Z * Z) : option Entry :=
  value ← encode h256_u256_codec (hash_location (e.1 mod 2 ^ 256), e.2);
  Some {| key := keccak_digest (be_bytes 20 (e.1 / 2 ^ 256)); value := value |}.

(** [collector.load]: the bytes are put into the table, which holds what they mean. *)
Fixpoint load_accounts (l : list Entry) (t : T Account) : outcome (T Account) :=
  match l with
  | [] => Done t
  | e :: l => account ← decoded (decode account_codec (value e));
              load_accounts l (kv_put (be_val (key e)) account t)
  end.

Fixpoint load_storage (l : list Entry) (t : T Z) : outcome (T Z) :=
  match l with
  | [] => Done t
  | e :: l => slot ← decoded (decode h256_u256_codec (value e));
              load_storage l (kv_put (storage_key (be_val (key e)) slot.1) slot.2 t)
  end.

(** Collecting and sorting entries; encoding and [push] can panic, reading back fail. *)
Definition collected (es : option (list Entry)) : outcome (list Entry) :=
  es ← o_unwrap es;
  c ← o_unwrap (collector.push_all es (collector.new stages.OPTIMAL_BUFFER_CAPACITY));
  let out := collector.iter c in
  if completed out then Done (entries out) else Error.

(** [walk(None)] starts at the first key; no key is negative. *)
Definition promote_clean_accounts (t : HashTables T) : outcome (T Account) :=
  es ← collected (mapM account_entry (walk 0 (account_table (hs_state t))));
  load_accounts es (kv_clear (hashed_account t)).

Definition promote_clean_storage (t : HashTables T) : outcome (T Z) :=
  es ← collected (mapM storage_entry (walk 0 (storage_table (hs_state t))));
  load_storage es (kv_clear (hashed_storage t)).

(** ** From the change sets *)

Definition promote_account (state : T Account) (target : T Account) (address : Address) : T Account :=
  match kv_get address state with
  | Some account => kv_put (hash_address address) account target
  | None =>
      match kv_get (hash_address address) target with
      | Some _ => kv_delete (hash_address address) target
      | None => target
      end
  end.

Definition promote_accounts (stage_progress : Z) (t : HashTables T) : outcome (T Account) :=
  starting_block ← o_unwrap (u64_checked (stage_progress + 1));
  Done (foldl (fun target e => promote_account (account_table (hs_state t)) target (e.1 mod 2 ^ 160))
          (hashed_account t)
          (walk (account_change_key starting_block 0) (account_change_set (hs_state t)))).

Definition promote_slot (state : T Z) (target : T Z) (address : Address) (location : Z) : T Z :=
  let v := default 0 (buffer.seek_storage_key address location state) in
  upsert_hashed_storage_value (hash_address address) (hash_location location) v target.

Definition promote_storage (stage_progress : Z) (t : HashTables T) : outcome (T Z) :=
  starting_block ← o_unwrap (u64_checked (stage_progress + 1));
  Done (foldl (fun target e =>
            promote_slot (storage_table (hs_state t)) target ((e.1 / 2 ^ 256) mod 2 ^ 160) (e.1 mod 2 ^ 256))
          (hashed_storage t)
          (walk (storage_change_key starting_block 0 0) (storage_change_set (hs_state t)))).

Definition with_hashed (db : Db (HashTables T)) (accounts : T Account) (storage : T Z) : Db (HashTables T) :=
  Build_Db (sync_stage db)
    {| hs_indices := hs_indices (tables db); hs_state := hs_state (tables db);
       hashed_account := accounts; hashed_storage := storage |}.

Definition promote (clean : bool) (past_progress : Z) (t : HashTables T) : outcome (T Account * T Z) :=
  if clean then
    accounts ← promote_clean_accounts t;
    storage ← promote_clean_storage t;
    Done (accounts, storage)
  else
    accounts ← promote_accounts past_progress t;
    storage ← promote_storage past_progress t;
    Done (accounts, storage).

Definition hash_state_execute (clean_promotion_threshold : Z) (input : StageInput) (db : Db (HashTables T)) (w : W)
    : outcome (ExecOutput * Db (HashTables T) * W) :=
  let genesis := 0 in
  let past_progress := default genesis (stage_progress input) in
  max_block ← o_ok_or (snd <$> previous_stage input);
  clean ← stages.should_do_clean_promotion (hs_indices (tables db)) genesis past_progress max_block
            clean_promotion_threshold;
  '(accounts, storage) ← promote clean past_progress (tables db);
  Done (Progress max_block true, with_hashed db accounts storage, w).

(** ** Unwind *)

(** The cursor on the hashed accounts is moved with [seek], to the least hash that is not
    below the one looked for. *)
Definition restore_account (address : Address) (account : option Account) (t : T Account) : T Account :=
  match account with
  | Some account => kv_put (hash_address address) account t
  | None => match kv_seek (hash_address address) t with Some (k, _) => kv_delete k t | None => t end
  end.

Fixpoint unwind_accounts (to : Z) (walker : list (Z * option Account)) (t : T Account) : T Account :=
  match walker with
  | [] => t
  | (k, account) :: walker =>
      if to <? k / 2 ^ 160 then unwind_accounts to walker (restore_account (k mod 2 ^ 160) account t) else t
  end.

Fixpoint unwind_storage (to : Z) (walker : list (Z * Z)) (t : T Z) : T Z :=
  match walker with
  | [] => t
  | (k, value) :: walker =>
      if to <? k / 2 ^ 256 / 2 ^ 160 then
        unwind_storage to walker
          (upsert_hashed_storage_value (hash_address ((k / 2 ^ 256) mod 2 ^ 160)) (hash_location (k mod 2 ^ 256))
             value t)
      else t
  end.

Definition hash_state_unwind (input : UnwindInput) (db : Db (HashTables T)) (w : W)
    : outcome (Z * Db (HashTables T) * W) :=
  let t := tables db in
  Done (unwind_to input,
    with_hashed db
      (unwind_accounts (unwind_to input) (walk_back (account_change_set (hs_state t))) (hashed_account t))
      (unwind_storage (unwind_to input) (walk_back (storage_change_set (hs_state t))) (hashed_storage t)), w).

Definition HashState (clean_promotion_threshold : Z) : Stage (HashTables T) W := {|
  stage_id := HASH_STATE;
  stage_execute := hash_state_execute clean_promotion_threshold;
  stage_unwind := hash_state_unwind;
|}.

(** [unwrap_or] in [HashState::new]. *)
Definition default_threshold (clean_promotion_threshold : option Z) : Z :=
  default (30000000 * 1000000) clean_promotion_threshold.

End stage.

End hash_state.
