(* ===== verification/HashStateSpec.v ===== *)
(** The hashed tables mirror the state: after hashing all of it, after following the
    changes of new blocks, and after an unwind. *)
From S2P Require Import Prelude Word EvmState IntraBlockState StagedSync Kv Etl EtlSpec Stages StagesSpec Bitmaps CallTraces Buffer BufferSpec Codec CodecSpec HashState.
From Stdlib Require Import ZArith Lia Strings.Byte.
From stdpp Require Import base list option numbers gmap sorting.
Import Codec buffer hash_state.
#[local] Open Scope Z_scope.

(** ** Mirrors *)

(** [g] has the values of [m], under keys that are mapped by [f]. *)
Definition mirrors {V} (f : Z -> Z) (g m : Z -> option V) : Prop :=
  forall k v, g k = Some v <-> exists j, m j = Some v /\ f j = k.

Definition injective_on (P : Z -> Prop) (f : Z -> Z) : Prop := forall a b, P a -> P b -> f a = f b -> a = b.

Definition within {V} (P : Z -> Prop) (m : Z -> option V) : Prop := forall j v, m j = Some v -> P j.

Definition set_at {V} (m : Z -> option V) (a : Z) (o : option V) (k : Z) : option V :=
  if decide (k = a) then o else m k.

Section mirrors.
Context {V : Type} (P : Z -> Prop) (f : Z -> Z) (f_inj : injective_on P f).

Lemma mirrors_ext (g g' m m' : Z -> option V) : (forall k, g' k = g k) -> (forall k, m' k = m k) ->
  mirrors f g m -> mirrors f g' m'.
Proof. intros Hg Hm H k v. rewrite Hg, (H k v). by setoid_rewrite Hm. Qed.

Lemma mirrors_at (g m : Z -> option V) a : mirrors f g m -> within P m -> P a -> g (f a) = m a.
Proof.
  intros H Hm Ha. apply option_eq. intros v. rewrite (H (f a) v). split; [|by exists a].
  intros (j & Hj & E). by rewrite <- (f_inj j a) by eauto.
Qed.

Lemma within_set (m : Z -> option V) a o : within P m -> P a -> within P (set_at m a o).
Proof. intros Hm Ha j v. unfold set_at. case_decide; [by subst|apply Hm]. Qed.

Lemma mirrors_set (g m : Z -> option V) a o : mirrors f g m -> within P m -> P a ->
  mirrors f (set_at g (f a) o) (set_at m a o).
Proof.
  intros H Hm Ha k v. unfold set_at. destruct (decide (k = f a)) as [->|Hk].
  - split.
    + intros ->. exists a. by rewrite decide_True by done.
    + intros (j & Hj & E). destruct (decide (j = a)); [done|]. destruct n. eauto.
  - rewrite (H k v). apply exist_proper. intros j. destruct (decide (j = a)) as [->|]; [|done]. naive_solver.
Qed.

Lemma mirrors_unique (g g' m : Z -> option V) : mirrors f g m -> mirrors f g' m -> forall k, g k = g' k.
Proof. intros H H' k. apply option_eq. intros v. by rewrite (H k v), (H' k v). Qed.

(** Setting the keys of a list, one by one, to their values in [m]. *)
Lemma mirrors_promote {X E} (look : X -> Z -> option V) (step : X -> E -> X) (kf : E -> Z) (m : Z -> option V) :
  within P m ->
  forall l x m0, within P m0 -> Forall (fun e => P (kf e)) l ->
  Forall (fun e => forall x k, look (step x e) k = set_at (look x) (f (kf e)) (m (kf e)) k) l ->
  mirrors f (look x) m0 -> (forall j, j ∉ kf <$> l -> m j = m0 j) -> mirrors f (look (foldl step x l)) m.
Proof.
  intros Hm l. induction l as [|e l IH]; intros x m0 Hm0 Hl Hstep Hx Hrest; cbn [foldl].
  - eapply mirrors_ext; [done| |exact Hx]. intros k. apply Hrest. by intros ?%elem_of_nil.
  - apply Forall_cons in Hl as [He Hl]. apply Forall_cons in Hstep as [Hs Hstep].
    apply (IH _ (set_at m0 (kf e) (m (kf e)))); [by apply within_set|done|done| |].
    + eapply mirrors_ext; [|done|by apply mirrors_set]. intros k. by apply Hs.
    + intros j Hj. unfold set_at. case_decide; [by subst|]. apply Hrest. rewrite fmap_cons. by apply not_elem_of_cons.
Qed.
End mirrors.

(** A slot with the value zero is as good as none. *)
Definition present (m : gmap Z Z) (k : Z) : option Z := v ← m !! k; if v =? 0 then None else Some v.

Lemma present_default m k : present m k = let v := default 0 (m !! k) in if v =? 0 then None else Some v.
Proof. unfold present. by destruct (m !! k). Qed.

Lemma present_upsert k v m k' :
  present (upsert k v m) k' = set_at (present m) k (if v =? 0 then None else Some v) k'.
Proof.
  rewrite present_default, upsert_read. unfold set_at. cbv zeta. case_decide; [done|]. by rewrite present_default.
Qed.

Lemma present_insert k v m k' :
  present (<[k := v]> m) k' = set_at (present m) k (if v =? 0 then None else Some v) k'.
Proof.
  unfold present, set_at. case_decide; subst; by rewrite ?lookup_insert_eq, ?lookup_insert_ne by done.
Qed.

Section hashed.
Context {T : Type -> Type} {KV : Kv T} {KC : Keccak}.

(** The addresses and the slots that are in use, on which the hashes do not collide. *)
Context (A S : Z -> Prop).

Record no_collisions : Prop := {
  nc_address : injective_on A hash_address;
  nc_slot : injective_on S hash_slot;
  nc_is_address a : A a -> is_address a;
  nc_is_slot k : S k -> 0 <= k < 2 ^ 416;
}.

(** The tables of the state hold values of their types, for addresses and slots in use. *)
Record state_ok (t : StateTables T) : Prop := {
  so_account a v : content (account_table t) !! a = Some v -> A a /\ account_wf v;
  so_slot k v : content (storage_table t) !! k = Some v -> S k /\ word v;
}.

Definition account_of (k : Z) : Z := k mod 2 ^ 160.
Definition slot_of (k : Z) : Z := storage_key ((k / 2 ^ 256) mod 2 ^ 160) (k mod 2 ^ 256).

Definition accounts_in (t : T Account) (a : Z) : option Account := content t !! a.
Definition slots_in (t : T Z) (k : Z) : option Z := present (content t) k.

(** The hashed tables mirror the state. *)
Record mirrored (t : StateTables T) (accounts : T Account) (storage : T Z) : Prop := {
  mi_accounts : mirrors hash_address (accounts_in accounts) (accounts_in (account_table t));
  mi_storage : mirrors hash_slot (slots_in storage) (slots_in (storage_table t));
}.

Context (NC : no_collisions).

Lemma within_accounts t : state_ok t -> within A (accounts_in (account_table t)).
Proof. intros Ht a v Ha. by destruct (so_account t Ht a v Ha). Qed.

Lemma within_slots t : state_ok t -> within S (slots_in (storage_table t)).
Proof.
  intros Ht k v. unfold slots_in, present. destruct (content _ !! k) as [w|] eqn:E; [|done].
  intros _. by destruct (so_slot t Ht k w E).
Qed.

Lemma hash_slot_key a l : word l -> hash_slot (storage_key a l) = storage_key (hash_address a) (hash_location l).
Proof. intros Hl. unfold hash_slot. by destruct (storage_key_parts a l Hl) as [-> ->]. Qed.

Lemma slot_mod_word k : word (k mod 2 ^ 256).
Proof. unfold uint. apply Z.mod_pos_bound. lia. Qed.

Lemma hashed_upsert_present k v (t : T Z) k' :
  slots_in (upsert_hashed_storage_value (hash_address ((k / 2 ^ 256) mod 2 ^ 160)) (hash_location (k mod 2 ^ 256)) v t) k' =
  set_at (slots_in t) (hash_slot (slot_of k)) (if v =? 0 then None else Some v) k'.
Proof.
  unfold slot_of. rewrite hash_slot_key by apply slot_mod_word. unfold slots_in.
  change (upsert_hashed_storage_value ?a ?l v t) with (upsert_storage_value a l v t).
  by rewrite upsert_content, present_upsert.
Qed.

(** ** Following the changes *)

Lemma promote_account_at state target a k :
  accounts_in (promote_account state target a) k =
  set_at (accounts_in target) (hash_address a) (accounts_in state a) k.
Proof.
  unfold promote_account, accounts_in, set_at. rewrite !kv_get_content. destruct (content state !! a) as [v|].
  - rewrite kv_put_content. case_decide; subst; by rewrite ?lookup_insert_eq, ?lookup_insert_ne by done.
  - destruct (content target !! hash_address a) eqn:E.
    + rewrite kv_delete_content. case_decide; subst; by rewrite ?lookup_delete_eq, ?lookup_delete_ne by done.
    + case_decide; by subst.
Qed.

Lemma promote_slot_at state target k k' :
  slots_in (promote_slot state target ((k / 2 ^ 256) mod 2 ^ 160) (k mod 2 ^ 256)) k' =
  set_at (slots_in target) (hash_slot (slot_of k)) (slots_in state (slot_of k)) k'.
Proof.
  unfold promote_slot. rewrite hashed_upsert_present. unfold set_at. case_decide; [|done].
  unfold slots_in. rewrite present_default, seek_storage. done.
Qed.

(** The hashed tables mirror a state from which the present one differs only where a
    change after block [past] is recorded. *)
Record behind (past : Z) (t : HashTables T) : Prop := {
  be_past : 0 <= past < 2 ^ 64 - 1;
  be_accounts : exists m0, within A m0 /\ mirrors hash_address (accounts_in (hashed_account t)) m0 /\
    forall a, accounts_in (account_table (hs_state t)) a <> m0 a ->
      exists k y, content (account_change_set (hs_state t)) !! k = Some y /\ past < k / 2 ^ 160 /\ account_of k = a;
  be_storage : exists m0, within S m0 /\ mirrors hash_slot (slots_in (hashed_storage t)) m0 /\
    forall s, slots_in (storage_table (hs_state t)) s <> m0 s ->
      exists k y, content (storage_change_set (hs_state t)) !! k = Some y /\ past < k / 2 ^ 256 / 2 ^ 160 /\ slot_of k = s;
  be_account_keys k y : content (account_change_set (hs_state t)) !! k = Some y -> A (account_of k);
  be_storage_keys k y : content (storage_change_set (hs_state t)) !! k = Some y -> S (slot_of k);
}.

Lemma promote_accounts_mirrors past t : state_ok (hs_state t) -> behind past t ->
  exists accounts, promote_accounts past t = Done accounts /\
    mirrors hash_address (accounts_in accounts) (accounts_in (account_table (hs_state t))).
Proof.
  intros Hs Hb. unfold promote_accounts. destruct (be_past _ _ Hb) as [Hp1 Hp2].
  rewrite u64_checked_ok by lia. cbn [o_unwrap mbind outcome_bind]. eexists. split; [done|].
  destruct (be_accounts _ _ Hb) as (m0 & Hm0 & Hmir & Hch).
  destruct (walk_spec (account_change_key (past + 1) 0) (account_change_set (hs_state t))) as [_ Hw].
  apply (mirrors_promote A hash_address (nc_address NC) accounts_in _ (fun e : Z * option Account => account_of e.1) _) with (m0 := m0).
  - by apply within_accounts.
  - done.
  - apply Forall_forall. intros [k y] [Hk _]%Hw. by eapply be_account_keys.
  - apply Forall_forall. intros e _ x k. apply promote_account_at.
  - done.
  - intros a Ha. destruct (decide (accounts_in (account_table (hs_state t)) a = m0 a)) as [|Hne]; [done|].
    destruct (Hch a Hne) as (k & y & Hk & Hlt & <-). destruct Ha.
    apply (list_elem_of_fmap_2 (fun e : Z * option Account => account_of e.1) _ (k, y)). apply Hw.
    split; [done|]. unfold account_change_key. pose proof (Z.div_mod k (2 ^ 160) ltac:(lia)).
    pose proof (Z.mod_pos_bound k (2 ^ 160) ltac:(lia)). nia.
Qed.

Lemma promote_storage_mirrors past t : state_ok (hs_state t) -> behind past t ->
  exists storage, promote_storage past t = Done storage /\
    mirrors hash_slot (slots_in storage) (slots_in (storage_table (hs_state t))).
Proof.
  intros Hs Hb. unfold promote_storage. destruct (be_past _ _ Hb) as [Hp1 Hp2].
  rewrite u64_checked_ok by lia. cbn [o_unwrap mbind outcome_bind]. eexists. split; [done|].
  destruct (be_storage _ _ Hb) as (m0 & Hm0 & Hmir & Hch).
  destruct (walk_spec (storage_change_key (past + 1) 0 0) (storage_change_set (hs_state t))) as [_ Hw].
  apply (mirrors_promote S hash_slot (nc_slot NC) slots_in _ (fun e : Z * Z => slot_of e.1) _) with (m0 := m0).
  - by apply within_slots.
  - done.
  - apply Forall_forall. intros [k y] [Hk _]%Hw. by eapply be_storage_keys.
  - apply Forall_forall. intros e _ x k. apply promote_slot_at.
  - done.
  - intros s Hs'. destruct (decide (slots_in (storage_table (hs_state t)) s = m0 s)) as [|Hne]; [done|].
    destruct (Hch s Hne) as (k & y & Hk & Hlt & <-). destruct Hs'.
    apply (list_elem_of_fmap_2 (fun e : Z * Z => slot_of e.1) _ (k, y)). apply Hw.
    split; [done|]. unfold storage_change_key, account_change_key.
    pose proof (Z.div_mod k (2 ^ 256) ltac:(lia)). pose proof (Z.mod_pos_bound k (2 ^ 256) ltac:(lia)).
    pose proof (Z.div_mod (k / 2 ^ 256) (2 ^ 160) ltac:(lia)).
    pose proof (Z.mod_pos_bound (k / 2 ^ 256) (2 ^ 160) ltac:(lia)). nia.
Qed.

(** ** Hashing all of the state *)

Lemma hash_digest b : length (keccak_digest b) = 32%nat /\ be_bytes 32 (be_val (keccak_digest b)) = keccak_digest b.
Proof. pose proof (length_keccak_digest b) as Hl. split; [done|]. by rewrite <- Hl, be_bytes_val. Qed.

(** Sorting and loading entries that stand for [l]. *)
Lemma collected_spec {E X} (entry : E -> option Entry) (entry' : E -> Entry) (l : list E) (P : E -> Prop)
    (load : list Entry -> X -> outcome X) (put : X -> E -> X) :
  (forall e, P e -> entry e = Some (entry' e) /\ fits stages.OPTIMAL_BUFFER_CAPACITY (entry' e)) ->
  (forall x, load [] x = Done x) ->
  (forall e es x, P e -> load (entry' e :: es) x = load es (put x e)) ->
  Forall P l -> forall x,
  exists l', l' ≡ₚ l /\ (es ← collected (mapM entry l); load es x) = Done (foldl put x l').
Proof.
  intros Hentry Hnil Hcons Hl x.
  assert (mapM entry l = Some (entry' <$> l)) as ->.
  { clear -Hentry Hl. induction Hl as [|e l He _ IH]; [done|]. cbn [mapM]. destruct (Hentry e He) as [-> _].
    cbn [mbind option_bind]. by rewrite IH. }
  destruct (iter_sorts stages.OPTIMAL_BUFFER_CAPACITY (entry' <$> l)) as (c & Hc & Hit & _ & Hperm).
  { unfold stages.OPTIMAL_BUFFER_CAPACITY. lia. }
  { apply Forall_fmap. eapply Forall_impl; [exact Hl|]. intros e He. by destruct (Hentry e He). }
  unfold collected. cbn [o_unwrap mbind outcome_bind]. rewrite Hc. cbn [o_unwrap mbind outcome_bind].
  assert (completed (collector.iter c) = true) as -> by (by rewrite Hit). cbn [mbind outcome_bind].
  destruct (Permutation_map_inv _ _ Hperm) as (l' & -> & Hp). exists l'. split; [done|].
  assert (Forall P l') as Hl' by (by rewrite <- Hp). clear -Hnil Hcons Hl'. revert x.
  induction Hl' as [|e l' He _ IH]; intros x; [apply Hnil|]. cbn [map foldl]. rewrite Hcons by done. apply IH.
Qed.

(** Entries of a table with their own keys, into an empty mirror. *)
Lemma fill_mirrors {V W X} (Q : Z -> Prop) (f : Z -> Z) (look : X -> Z -> option V) (m : gmap Z W)
    (value_of : W -> option V) (put : X -> Z * W -> X) x l l' (m' : Z -> option V) :
  injective_on Q f -> (forall k w, m !! k = Some w -> Q k) -> (forall k, m' k = m !! k ≫= value_of) ->
  Forall (fun e => forall x k, look (put x e) k = set_at (look x) (f e.1) (value_of e.2) k) l ->
  (forall k, look x k = None) -> (forall k w, (k, w) ∈ l <-> m !! k = Some w) -> l' ≡ₚ l ->
  mirrors f (look (foldl put x l')) m'.
Proof.
  intros Hinj HQ Hm' Hput Hx Hl Hp.
  assert (forall e, e ∈ l' -> m !! e.1 = Some e.2) as Hin by (intros [k w] He; apply Hl; by rewrite <- Hp).
  apply (mirrors_promote Q f Hinj look put fst m') with (m0 := fun _ => None).
  - intros k v. rewrite Hm'. destruct (m !! k) eqn:E; [eauto|done].
  - done.
  - apply Forall_forall. intros e He. by eapply HQ, Hin.
  - apply Forall_forall. intros e He y k. rewrite Hm', (Hin e He). cbn [mbind option_bind].
    rewrite Forall_forall in Hput. apply Hput. by rewrite <- Hp.
  - intros k v. rewrite Hx. split; [done|]. by intros (? & ? & _).
  - intros k Hk. rewrite Hm'. destruct (m !! k) as [w|] eqn:E; [|done]. destruct Hk.
    apply (list_elem_of_fmap_2 fst _ (k, w)). rewrite Hp. by apply Hl.
Qed.

Definition account_image (e : Address * Account) : Entry :=
  {| key := keccak_digest (be_bytes 20 e.1); value := default [] (encode account_codec e.2) |}.

Definition slot_image (e : Z * Z) : Entry :=
  {| key := keccak_digest (be_bytes 20 (e.1 / 2 ^ 256));
     value := default [] (encode h256_u256_codec (hash_location (e.1 mod 2 ^ 256), e.2)) |}.

Lemma account_image_spec e : account_wf e.2 ->
  account_entry e = Some (account_image e) /\ fits stages.OPTIMAL_BUFFER_CAPACITY (account_image e) /\
  decode account_codec (value (account_image e)) = Value e.2.
Proof.
  intros He. destruct (account_roundtrip e.2 He) as (b & Hb & Hd & Hl).
  unfold account_entry, account_image. cbn [account_codec encode]. rewrite Hb. cbn [mbind option_bind from_option id].
  split_and!; [done| |done]. unfold fits. cbn [key value].
  assert (blen (keccak_digest (be_bytes 20 e.1)) = 32) as -> by (unfold blen; by rewrite length_keccak_digest).
  unfold stages.OPTIMAL_BUFFER_CAPACITY, MAX_ACCOUNT_LEN in *. lia.
Qed.

Lemma hash_location_word l : word (hash_location l).
Proof. unfold hash_location. apply be_val_uint. unfold blen. rewrite length_keccak_digest. lia. Qed.

Lemma slot_image_spec e : word e.2 ->
  storage_entry e = Some (slot_image e) /\ fits stages.OPTIMAL_BUFFER_CAPACITY (slot_image e) /\
  decode h256_u256_codec (value (slot_image e)) = Value (hash_location (e.1 mod 2 ^ 256), e.2).
Proof.
  intros He. pose proof (hash_location_word (e.1 mod 2 ^ 256)) as Hw.
  destruct (location_value_encode 64 _ _ Hw He) as (h & b & Hen & Hh & Hb & _); [lia|].
  destruct (sound_roundtrip (c := h256_u256_codec) (hash_location (e.1 mod 2 ^ 256), e.2)) as (b' & Hb' & Hd); [done|].
  unfold storage_entry, slot_image. assert (b' = h ++ b) as ->.
  { pose proof (eq_trans (eq_sym Hb') Hen) as E. by injection E. }
  rewrite Hb'. cbn [mbind option_bind from_option id]. split_and!; [done| |done]. unfold fits. cbn [key value].
  assert (blen (keccak_digest (be_bytes 20 (e.1 / 2 ^ 256))) = 32) as -> by (unfold blen; by rewrite length_keccak_digest).
  rewrite blen_app. unfold stages.OPTIMAL_BUFFER_CAPACITY. lia.
Qed.

Lemma promote_clean_accounts_mirrors t : state_ok (hs_state t) ->
  exists accounts, promote_clean_accounts t = Done accounts /\
    mirrors hash_address (accounts_in accounts) (accounts_in (account_table (hs_state t))).
Proof.
  intros Hs. unfold promote_clean_accounts. set (src := account_table (hs_state t)).
  assert (forall k w, (k, w) ∈ walk 0 src <-> content src !! k = Some w) as Hwalk.
  { intros k w. apply walk_all. intros k' w' Hk'. destruct (so_account _ Hs _ _ Hk') as [Ha _].
    by destruct (nc_is_address NC _ Ha). }
  destruct (collected_spec account_entry account_image (walk 0 src) (fun e => account_wf e.2) load_accounts
    (fun x e => kv_put (hash_address e.1) e.2 x)) with (x := kv_clear (hashed_account t)) as (l' & Hp & Hres).
  { intros e He. by destruct (account_image_spec e He) as (? & ? & _). }
  { done. }
  { intros e es x He. cbn [load_accounts]. by destruct (account_image_spec e He) as (_ & _ & ->). }
  { apply Forall_forall. intros [k w] Hk%Hwalk. by destruct (so_account _ Hs _ _ Hk). }
  eexists. split; [exact Hres|].
  apply (fill_mirrors A hash_address accounts_in (content src) Some _ _ (walk 0 src) l');
    [apply NC| |by intros k; destruct (content src !! k) eqn:E; unfold accounts_in; rewrite E| | |done|done].
  - intros k w Hk. by destruct (so_account _ Hs _ _ Hk).
  - apply Forall_forall. intros e _ x k. unfold accounts_in, set_at. rewrite kv_put_content.
    case_decide; subst; by rewrite ?lookup_insert_eq, ?lookup_insert_ne by done.
  - intros k. unfold accounts_in. by rewrite kv_clear_content.
Qed.

Lemma promote_clean_storage_mirrors t : state_ok (hs_state t) ->
  exists storage, promote_clean_storage t = Done storage /\
    mirrors hash_slot (slots_in storage) (slots_in (storage_table (hs_state t))).
Proof.
  intros Hs. unfold promote_clean_storage. set (src := storage_table (hs_state t)).
  assert (forall k w, (k, w) ∈ walk 0 src <-> content src !! k = Some w) as Hwalk.
  { intros k w. apply walk_all. intros k' w' Hk'. destruct (so_slot _ Hs _ _ Hk') as [Ha _].
    by destruct (nc_is_slot NC _ Ha). }
  destruct (collected_spec storage_entry slot_image (walk 0 src) (fun e => word e.2) load_storage
    (fun x e => kv_put (hash_slot e.1) e.2 x)) with (x := kv_clear (hashed_storage t)) as (l' & Hp & Hres).
  { intros e He. by destruct (slot_image_spec e He) as (? & ? & _). }
  { done. }
  { intros e es x He. cbn [load_storage]. by destruct (slot_image_spec e He) as (_ & _ & ->). }
  { apply Forall_forall. intros [k w] Hk%Hwalk. by destruct (so_slot _ Hs _ _ Hk). }
  eexists. split; [exact Hres|].
  apply (fill_mirrors S hash_slot slots_in (content src) (fun v => if v =? 0 then None else Some v) _ _ (walk 0 src) l');
    [apply NC| |done| | |done|done].
  - intros k w Hk. by destruct (so_slot _ Hs _ _ Hk).
  - apply Forall_forall. intros e _ x k. unfold slots_in. by rewrite kv_put_content, present_insert.
  - intros k. unfold slots_in. by rewrite kv_clear_content.
Qed.

(** ** Unwind *)

(** The entries of a walk back that are after [to]. *)
Fixpoint taken {V} (block : Z -> Z) (to : Z) (l : list (Z * V)) : list (Z * V) :=
  match l with
  | [] => []
  | e :: l => if to <? block e.1 then e :: taken block to l else []
  end.

Lemma elem_of_taken {V} block to (l : list (Z * V)) e : e ∈ taken block to l -> e ∈ l.
Proof.
  induction l as [|x l IH]; [done|]. cbn [taken]. destruct (to <? block x.1); [|by intros ?%elem_of_nil].
  rewrite !elem_of_cons. naive_solver.
Qed.

Lemma unwind_accounts_taken to l (t : T Account) : unwind_accounts to l t =
  foldl (fun t e => restore_account (account_of e.1) e.2 t) t (taken (fun k => k / 2 ^ 160) to l).
Proof.
  revert t. induction l as [|[k o] l IH]; intros t; [done|]. cbn [unwind_accounts taken fst].
  destruct (to <? k / 2 ^ 160); [|done]. apply IH.
Qed.

Lemma unwind_storage_taken to l (t : T Z) : unwind_storage to l t =
  foldl (fun t e => upsert_hashed_storage_value (hash_address ((e.1 / 2 ^ 256) mod 2 ^ 160))
           (hash_location (e.1 mod 2 ^ 256)) e.2 t) t (taken (fun k => k / 2 ^ 256 / 2 ^ 160) to l).
Proof.
  revert t. induction l as [|[k v] l IH]; intros t; [done|]. cbn [unwind_storage taken fst].
  destruct (to <? k / 2 ^ 256 / 2 ^ 160); [|done]. apply IH.
Qed.

(** The entries of a table from the last one on. *)
Definition descends {V} (l : list (Z * V)) (t : T V) : Prop :=
  StronglySorted key_gt l /\ forall k v, (k, v) ∈ l <-> content t !! k = Some v.

Lemma descends_nil {V} (t : T V) : descends [] t -> kv_last t = None.
Proof.
  intros [_ He]. pose proof (kv_last_content t) as Hl. destruct (kv_last t) as [[k v]|]; [|done].
  destruct Hl as [Hk _]. by apply He, elem_of_nil in Hk.
Qed.

Lemma descends_cons {V} e l (t : T V) : descends (e :: l) t -> kv_last t = Some e /\ descends l (kv_delete e.1 t).
Proof.
  destruct e as [k v]. intros [Hs He]. apply StronglySorted_inv in Hs as [Hs Hf]. rewrite Forall_forall in Hf.
  assert (content t !! k = Some v) as Hk by apply He, list_elem_of_here. split.
  - pose proof (kv_last_content t) as Hl. destruct (kv_last t) as [[k' v']|]; [|by destruct (Hl k v Hk)].
    destruct Hl as (Hk' & _ & Hmax). specialize (Hmax k v Hk I). apply He, elem_of_cons in Hk' as [E|Hin]; [congruence|].
    specialize (Hf _ Hin). unfold key_gt in Hf. simpl in Hf. lia.
  - split; [done|]. intros j w. cbn [fst]. rewrite kv_delete_content, lookup_delete_Some, <- He, elem_of_cons. split.
    + intros Hin. specialize (Hf _ Hin). unfold key_gt in Hf. simpl in Hf. split; [lia|by right].
    + intros [Hne [E|Hin]]; [congruence|done].
Qed.

(** The loop of the execution stage undoes the entries that the walk back takes. *)
Lemma unwind_loop_taken {V X} to block (undo : Z * V -> X -> X) l : forall fuel cs x,
  descends l cs -> (length l <= fuel)%nat ->
  (unwind_loop to block undo fuel cs x).2 = foldl (fun x e => undo e x) x (taken block to l).
Proof.
  induction l as [|e l IH]; intros fuel cs x Hd Hf.
  - apply descends_nil in Hd. destruct fuel; [done|]. cbn [unwind_loop]. by rewrite Hd.
  - destruct fuel as [|fuel]; cbn [length] in Hf; [lia|]. apply descends_cons in Hd as [Hl Hd].
    cbn [unwind_loop taken]. rewrite Hl. destruct (Z.leb_spec (block e.1) to), (Z.ltb_spec to (block e.1)); try lia; [done|].
    cbn [foldl]. apply IH; [done|lia].
Qed.

Lemma back_length {V} fuel e (t : T V) : (length (back_from fuel e t) <= fuel)%nat.
Proof. revert e. induction fuel as [|fuel IH]; intros [[k v]|]; cbn; try lia. specialize (IH (kv_prev k t)). lia. Qed.

Lemma execution_unwind_taken to (t : StateTables T) :
  account_table (execution_unwind to t) =
    foldl (fun x e => undo_account e x) (account_table t)
      (taken (fun k => k / 2 ^ 160) to (walk_back (account_change_set t))) /\
  storage_table (execution_unwind to t) =
    foldl (fun x e => undo_slot e x) (storage_table t)
      (taken (fun k => k / 2 ^ 256 / 2 ^ 160) to (walk_back (storage_change_set t))).
Proof.
  unfold execution_unwind. rewrite unwind_accounts_loop, unwind_storage_loop.
  rewrite <- (unwind_loop_taken _ _ _ _ (size (content (account_change_set t))) (account_change_set t))
    by (apply walk_back_spec || apply back_length).
  rewrite <- (unwind_loop_taken _ _ _ _ (size (content (storage_change_set t))) (storage_change_set t))
    by (apply walk_back_spec || apply back_length).
  by destruct (unwind_loop _ _ _ _ _ _), (unwind_loop _ _ _ _ _ _).
Qed.

(** An account that did not exist before a change exists when the change is undone. *)
Fixpoint undoable (es : list (Z * option Account)) (m : Z -> option Account) : Prop :=
  match es with
  | [] => True
  | e :: es => (e.2 = None -> m (account_of e.1) <> None) /\ undoable es (set_at m (account_of e.1) e.2)
  end.

Lemma undoable_ext es m m' : (forall k, m' k = m k) -> undoable es m -> undoable es m'.
Proof.
  revert m m'. induction es as [|e es IH]; intros m m' E; [done|]. cbn [undoable]. intros [H1 H2].
  split; [by rewrite E|]. eapply IH; [|exact H2]. intros k. unfold set_at. case_decide; [done|apply E].
Qed.

Lemma restore_at k (o : option Account) (t : T Account) k' : (o = None -> accounts_in t k <> None) ->
  accounts_in (match o with
    | Some account => kv_put k account t
    | None => match kv_seek k t with Some (k', _) => kv_delete k' t | None => t end
    end) k' = set_at (accounts_in t) k o k'.
Proof.
  intros Hok. unfold accounts_in, set_at in *. destruct o as [v|].
  - rewrite kv_put_content. case_decide; subst; by rewrite ?lookup_insert_eq, ?lookup_insert_ne by done.
  - destruct (content t !! k) as [v|] eqn:E; [|by destruct Hok].
    rewrite (seek_exact k v t E), kv_delete_content.
    case_decide; subst; by rewrite ?lookup_delete_eq, ?lookup_delete_ne by done.
Qed.

Lemma undo_accounts_mirror es (h t : T Account) : Forall (fun e => A (account_of e.1)) es ->
  undoable es (accounts_in t) -> within A (accounts_in t) -> mirrors hash_address (accounts_in h) (accounts_in t) ->
  mirrors hash_address (accounts_in (foldl (fun t e => restore_account (account_of e.1) e.2 t) h es))
    (accounts_in (foldl (fun x e => undo_account e x) t es)).
Proof.
  intros Hes. revert h t. induction Hes as [|e es He _ IH]; intros h t Hu Hw Hm; [done|]. cbn [foldl].
  destruct Hu as [Hok Hu].
  assert (forall k, accounts_in (undo_account e t) k = set_at (accounts_in t) (account_of e.1) e.2 k) as Et.
  { intros k. by apply restore_at. }
  assert (forall k, accounts_in (restore_account (account_of e.1) e.2 h) k =
    set_at (accounts_in h) (hash_address (account_of e.1)) e.2 k) as Eh.
  { intros k. apply restore_at. intros Hn. rewrite (mirrors_at A hash_address (nc_address NC) _ _ _ Hm Hw He). auto. }
  apply IH.
  - eapply undoable_ext; [|exact Hu]. exact Et.
  - intros k v. rewrite Et. by apply within_set.
  - eapply mirrors_ext; [exact Eh|exact Et|]. by apply (mirrors_set A hash_address (nc_address NC)).
Qed.

Lemma undo_slot_at e (t : T Z) k : slots_in (undo_slot e t) k =
  set_at (slots_in t) (slot_of e.1) (if e.2 =? 0 then None else Some e.2) k.
Proof. unfold undo_slot, slots_in. by rewrite upsert_content, present_upsert. Qed.

Lemma undo_storage_mirror es (h t : T Z) : Forall (fun e => S (slot_of e.1)) es ->
  within S (slots_in t) -> mirrors hash_slot (slots_in h) (slots_in t) ->
  mirrors hash_slot (slots_in (foldl (fun t e => upsert_hashed_storage_value
      (hash_address ((e.1 / 2 ^ 256) mod 2 ^ 160)) (hash_location (e.1 mod 2 ^ 256)) e.2 t) h es))
    (slots_in (foldl (fun x e => undo_slot e x) t es)).
Proof.
  intros Hes. revert h t. induction Hes as [|e es He _ IH]; intros h t Hw Hm; [done|]. cbn [foldl]. apply IH.
  - intros k v. rewrite undo_slot_at. by apply within_set.
  - eapply mirrors_ext; [|apply undo_slot_at|by apply (mirrors_set S hash_slot (nc_slot NC))].
    intros k. apply hashed_upsert_present.
Qed.

(** The recorded changes are of addresses and slots in use. *)
Record changes_ok (t : StateTables T) : Prop := {
  co_account k y : content (account_change_set t) !! k = Some y -> A (account_of k);
  co_slot k y : content (storage_change_set t) !! k = Some y -> S (slot_of k);
}.

(** Unwinding the execution of the blocks after [to] does not meet a change from nothing
    to nothing. *)
Definition unwindable (to : Z) (t : StateTables T) : Prop :=
  undoable (taken (fun k => k / 2 ^ 160) to (walk_back (account_change_set t))) (accounts_in (account_table t)).

Lemma unwind_mirrored to (t : HashTables T) :
  state_ok (hs_state t) -> changes_ok (hs_state t) -> unwindable to (hs_state t) ->
  mirrored (hs_state t) (hashed_account t) (hashed_storage t) ->
  mirrored (execution_unwind to (hs_state t))
    (unwind_accounts to (walk_back (account_change_set (hs_state t))) (hashed_account t))
    (unwind_storage to (walk_back (storage_change_set (hs_state t))) (hashed_storage t)).
Proof.
  intros Hs Hc Hu [Ha Hst]. destruct (execution_unwind_taken to (hs_state t)) as [Ea Es].
  destruct (walk_back_spec (account_change_set (hs_state t))) as [_ Hwa].
  destruct (walk_back_spec (storage_change_set (hs_state t))) as [_ Hws]. split.
  - rewrite unwind_accounts_taken, Ea. apply undo_accounts_mirror; [|done|by apply within_accounts|done].
    apply Forall_forall. intros [k y] Hin%elem_of_taken. by eapply co_account, Hwa.
  - rewrite unwind_storage_taken, Es. apply undo_storage_mirror; [|by apply within_slots|done].
    apply Forall_forall. intros [k y] Hin%elem_of_taken. by eapply co_slot, Hws.
Qed.

End hashed.

Arguments no_collisions {KC} A S.
Arguments state_ok {T KV} A S t.
Arguments changes_ok {T KV} A S t.
Arguments behind {T KV KC} A S past t.

Section theorems.
Context {T : Type -> Type} {KV : Kv T} {KC : Keccak} {W : Type}.

(** C23: hashing the whole state and following the recorded changes are equivalent: from
    tables that mirror an older state, with a record of every change since, both end
    with the same hashed accounts and slots, which mirror the present state. *)
Theorem clean_and_incremental_promotion_agree (A S : Z -> Prop) past (t : HashTables T) :
  no_collisions A S -> state_ok A S (hs_state t) -> behind A S past t ->
  exists accounts storage accounts' storage',
    promote true past t = Done (accounts, storage) /\ promote false past t = Done (accounts', storage') /\
    (forall k, content accounts !! k = content accounts' !! k) /\
    (forall k, present (content storage) k = present (content storage') k) /\
    mirrored (hs_state t) accounts storage.
Proof.
  intros NC Hs Hb. destruct (promote_clean_accounts_mirrors A S NC t Hs) as (a & Ha & Hma).
  destruct (promote_clean_storage_mirrors A S NC t Hs) as (s & Hst & Hms).
  destruct (promote_accounts_mirrors A S NC past t Hs Hb) as (a' & Ha' & Hma').
  destruct (promote_storage_mirrors A S NC past t Hs Hb) as (s' & Hst' & Hms').
  exists a, s, a', s'. unfold promote. rewrite Ha, Hst, Ha', Hst'. split_and!; [done|done| | |done].
  - by apply (mirrors_unique hash_address _ _ _ Hma).
  - by apply (mirrors_unique hash_slot _ _ _ Hms).
Qed.

(** C24: the unwind of the stage follows the unwind of the execution stage: from hashed
    tables that mirror the state, it ends with hashed tables that mirror the state after
    the execution of the blocks is unwound, provided that no change from nothing to
    nothing is met on the way. *)
Theorem hash_state_unwind_follows (A S : Z -> Prop) threshold input (db : Db (HashTables T)) (w : W) :
  no_collisions A S -> state_ok A S (hs_state (tables db)) -> changes_ok A S (hs_state (tables db)) ->
  unwindable (unwind_to input) (hs_state (tables db)) ->
  mirrored (hs_state (tables db)) (hashed_account (tables db)) (hashed_storage (tables db)) ->
  exists db', stage_unwind (HashState threshold) input db w = Done (unwind_to input, db', w) /\
    hs_state (tables db') = hs_state (tables db) /\
    mirrored (execution_unwind (unwind_to input) (hs_state (tables db)))
      (hashed_account (tables db')) (hashed_storage (tables db')).
Proof.
  intros NC Hs Hc Hu Hm. eexists. split; [done|]. split; [done|]. by apply (unwind_mirrored A S).
Qed.

End theorems.
