(* ===== verification/HashExecution.v ===== *)
(** Execution and hashing together: the blocks that the execution stage writes are
    followed by the hashing stage, and unwinding both leads back. *)
From S2P Require Import Prelude Word EvmState IntraBlockState StagedSync Kv Stages StagesSpec Bitmaps CallTraces Buffer BufferSpec Codec CodecSpec HashState HashStateSpec Samples.
From Stdlib Require Import ZArith Lia Strings.Byte.
From stdpp Require Import base list option numbers gmap sorting.
Import Codec buffer hash_state.
#[local] Open Scope Z_scope.

(** ** What the changes of blocks say *)

Lemma leads_back_changed {C X Y} (look : C -> X -> option Y) (dom : X -> Prop) ok l f g x :
  leads_back look dom ok l f g -> dom x -> f x = g x \/ exists n c y, (n, c) ∈ l /\ look c x = Some y.
Proof.
  revert f. induction l as [|[n c] l IH]; intros f Hl Hx; [left; by apply Hl|]. destruct Hl as [_ Hl].
  destruct (look c x) as [y|] eqn:E; [right; exists n, c, y; split; [apply list_elem_of_here|done]|].
  destruct (IH _ Hl Hx) as [H|(n' & c' & y & Hin & Hy)]; [left; by rewrite E in H|].
  right. exists n', c', y. split; [by apply list_elem_of_further|done].
Qed.

Lemma leads_back_target {C X Y} (look : C -> X -> option Y) (dom : X -> Prop) ok l f g g' :
  (forall x, dom x -> g x = g' x) -> leads_back look dom ok l f g -> leads_back look dom ok l f g'.
Proof.
  intros E. revert f. induction l as [|[n c] l IH]; intros f; cbn [leads_back].
  - intros H x Hx. by rewrite H, E.
  - intros [Hok Hl]. split; [done|by apply IH].
Qed.

Section follow.
Context {T : Type -> Type} {KV : Kv T}.

Definition set_all (m : Z -> option Account) (es : list (Z * option Account)) : Z -> option Account :=
  foldl (fun m e => set_at m (account_of e.1) e.2) m es.

Lemma undoable_app es1 es2 m : undoable es1 m -> undoable es2 (set_all m es1) -> undoable (es1 ++ es2) m.
Proof.
  revert m. induction es1 as [|e es1 IH]; intros m; [done|]. intros [Hok H1] H2. split; [done|]. by apply IH.
Qed.

(** The changes of one block: each is of another account. *)
Lemma undoable_block n (es : list (Z * option Account)) m : NoDup es.*1 ->
  (forall e, e ∈ es -> is_address e.1) -> (forall e, e ∈ es -> e.2 = None -> m e.1 <> None) ->
  let es' := (fun e => (account_change_key n e.1, e.2)) <$> es in
  undoable es' m /\
  forall k, set_all m es' k = default (m k) ((list_to_map es : gmap Z (option Account)) !! k).
Proof.
  revert m. induction es as [|[a o] es IH]; intros m Hn Ha Hok es'; [done|]. apply NoDup_cons in Hn as [Hni Hn].
  pose proof (Ha (a, o) ltac:(apply list_elem_of_here)) as Haddr. cbn [fst] in *.
  assert (account_of (account_change_key n a) = a) as E by apply (account_change_parts n a Haddr).
  destruct (IH (set_at m a o) Hn) as [Hu Hset].
  { intros e He. apply Ha. by apply list_elem_of_further. }
  { intros e He Ho. unfold set_at. rewrite decide_False; [by apply Hok; [apply list_elem_of_further|]|].
    intros <-. apply Hni. by apply (list_elem_of_fmap_2 fst). }
  unfold es'. rewrite fmap_cons. cbn [undoable set_all foldl fst snd]. rewrite E. split.
  - split; [apply (Hok (a, o)); apply list_elem_of_here|done].
  - intros k. unfold set_all in Hset. rewrite Hset, list_to_map_cons. unfold set_at.
    destruct (decide (k = a)) as [->|Hne]; [|by rewrite lookup_insert_ne].
    by rewrite lookup_insert_eq, not_elem_of_list_to_map_1.
Qed.

Definition block_changes (b : Z * gmap Address (option Account)) : list (Z * option Account) :=
  (fun a => (account_change_key b.1 a.1, a.2)) <$> rev (in_order b.2).

Lemma undoable_blocks (blocks : list (Z * gmap Address (option Account))) f g :
  (forall n c a y, (n, c) ∈ blocks -> c !! a = Some y -> is_address a) ->
  leads_back look_account (fun _ => True) account_ok blocks f g -> undoable (concat (block_changes <$> blocks)) f.
Proof.
  revert f. induction blocks as [|[n c] blocks IH]; intros f Hr Hb; [done|]. destruct Hb as [Hok Hb].
  rewrite fmap_cons. cbn [concat].
  destruct (undoable_block n (rev (in_order c)) f) as [Hu Hset].
  { rewrite <- Permutation_rev. apply NoDup_in_order. }
  { intros [a y] Hin%in_rev_elem. eapply Hr; [apply list_elem_of_here|done]. }
  { intros [a y] Hin%in_rev_elem Ho. cbn in Ho. subst y. by apply (Hok a None). }
  apply undoable_app; [exact Hu|]. eapply undoable_ext; [|apply (IH (fun x => default (f x) (look_account c x)))].
  - intros k. unfold block_changes. cbn [fst snd]. rewrite Hset. unfold look_account. f_equal.
    rewrite <- (list_to_map_in_order c) at 2. symmetry. f_equal.
    apply list_to_map_proper; [apply NoDup_in_order|apply Permutation_rev].
  - intros n' c' a y Hin. apply (Hr n'). by apply list_elem_of_further.
  - done.
Qed.

Lemma rev_account_entries (c : gmap Z (gmap Address (option Account))) :
  rev (account_entries c) = concat (block_changes <$> rev (in_order c)).
Proof.
  unfold account_entries, block_changes. induction (in_order c) as [|b l IH]; [done|].
  rewrite fmap_cons. cbn [concat rev]. rewrite rev_app_distr, IH, fmap_app, concat_app. f_equal. cbn.
  rewrite app_nil_r. by rewrite <- map_rev.
Qed.

(** ** The walk back over the changes of new blocks *)

Lemma descends_unique {V} (l l' : list (Z * V)) t : descends l t -> descends l' t -> l = l'.
Proof.
  revert l' t. induction l as [|e l IH]; intros [|e' l'] t H1 H2; [done| | |].
  - apply descends_nil in H1. apply descends_cons in H2 as [? _]. congruence.
  - apply descends_nil in H2. apply descends_cons in H1 as [? _]. congruence.
  - apply descends_cons in H1 as [E1 H1]. apply descends_cons in H2 as [E2 H2].
    assert (e' = e) as -> by congruence. f_equal. by eapply IH.
Qed.

Lemma elem_of_rev {X} (x : X) l : x ∈ rev l <-> x ∈ l.
Proof. by rewrite <- Permutation_rev. Qed.

Lemma rev_elem_of {X} (x : X) l : x ∈ rev l -> x ∈ l.
Proof. by rewrite elem_of_rev. Qed.

Lemma walk_sorted_rev {V} (l : list (Z * V)) : StronglySorted key_lt l -> StronglySorted key_gt (rev l).
Proof.
  induction 1 as [|e l Hs IH Hf]; [constructor|]. cbn [rev]. apply StronglySorted_app_2; [|done|repeat constructor].
  intros x y Hx%rev_elem_of ->%list_elem_of_singleton. rewrite Forall_forall in Hf. exact (Hf x Hx).
Qed.

Lemma taken_app {V} block to (l l' : list (Z * V)) :
  (forall e, e ∈ l -> to < block e.1) -> (forall e, e ∈ l' -> block e.1 <= to) -> taken block to (l ++ l') = l.
Proof.
  intros Hl Hl'. induction l as [|e l IH]; cbn [app taken].
  - destruct l' as [|e l']; [done|]. cbn [taken]. by rewrite (proj2 (Z.ltb_ge _ _)) by (apply Hl', list_elem_of_here).
  - rewrite (proj2 (Z.ltb_lt _ _)) by (apply Hl, list_elem_of_here). f_equal. apply IH.
    intros x Hx. apply Hl. by apply list_elem_of_further.
Qed.

(** The entries [l] on top of an older table are what is taken. *)
Lemma taken_on_top {V} block to (l : list (Z * V)) (t0 t : T V) : on_top l (content t0) t ->
  (forall k v, content t0 !! k = Some v -> block k <= to) -> (forall e, e ∈ l -> to < block e.1) ->
  taken block to (walk_back t) = rev l.
Proof.
  intros (Hc & Hs & Habove) Hold Hnew. destruct (walk_back_spec t0) as [Hs0 He0].
  assert (descends (rev l ++ walk_back t0) t) as Hd.
  { split.
    - apply StronglySorted_app_2; [|by apply walk_sorted_rev|done].
      intros [k v] [k' v'] Hk%rev_elem_of Hk'%He0. by eapply (Habove k' v' (k, v)).
    - intros k v. rewrite elem_of_app, elem_of_rev, He0, Hc, lookup_union_Some_raw.
      rewrite <- elem_of_list_to_map by (by apply sorted_nodup). split; [intros [H|H]; [by left|]|naive_solver].
      right. split; [|done]. apply not_elem_of_list_to_map_1. intros ([k' v'] & -> & Hin)%list_elem_of_fmap.
      specialize (Habove _ _ _ H Hin). simpl in Habove. lia. }
  rewrite (descends_unique (walk_back t) (rev l ++ walk_back t0) t); [|apply walk_back_spec|done].
  apply taken_app; [intros e He%rev_elem_of; by apply Hnew|]. intros [k v] Hk%He0. by eapply Hold.
Qed.

(** ** Executed blocks *)

Section executed.
Context (to : Z) (t0 : StateTables T) (b s : Buffer T) (t : StateTables T).
Context (Hp : past to t0) (Hi : use_inv to t0 (b, s)) (Hw : written t0 b t).

Let Hr : in_range b := ui_range _ _ _ Hi.
Let He : recent to b := ui_recent _ _ _ Hi.

Lemma accounts_on_top :
  on_top (account_entries (buf_account_changes b)) (content (account_change_set t0)) (account_change_set t).
Proof.
  split_and!; [apply Hw|by apply account_entries_sorted|]. intros k y e. by apply (account_above to).
Qed.

Lemma accounts_lead_back : leads_back look_account (fun _ => True) account_ok
  (rev (in_order (buf_account_changes b))) (accounts_in (account_table t)) (accounts_in (account_table t0)).
Proof.
  eapply leads_back_ext; [|eapply leads_back_target; [|eapply tracked_done; [|exact (ui_accounts _ _ _ Hi)]]].
  - intros a _. unfold accounts_in. rewrite <- account_now_content. apply (wr_account _ _ _ Hw).
  - intros a _. exact (account_now_content t0 a).
  - intros n c Hn. by destruct (re_account _ b He n c Hn).
Qed.

Lemma executed_unwindable : unwindable to t.
Proof.
  unfold unwindable. rewrite (taken_on_top _ _ _ _ _ accounts_on_top).
  - rewrite rev_account_entries. eapply undoable_blocks; [|exact accounts_lead_back].
    intros n c a y Hin%in_rev_elem. by apply (ir_account b Hr n).
  - apply (pa_account to t0 Hp).
  - intros e. by apply (account_newer to).
Qed.

Lemma account_recorded a : accounts_in (account_table t) a <> accounts_in (account_table t0) a ->
  exists k y, content (account_change_set t) !! k = Some y /\ to < k / 2 ^ 160 /\ account_of k = a.
Proof.
  intros Hne. destruct (leads_back_changed _ _ _ _ _ _ a accounts_lead_back I) as [?|(n & c & y & Hin%in_rev_elem & Hy)];
    [done|]. assert (is_address a) as Ha by by apply (ir_account b Hr n c a y).
  exists (account_change_key n a), y. destruct (account_change_parts n a Ha) as [-> Hof].
  split_and!; [|by destruct (re_account _ b He n c Hin)|done].
  rewrite (wr_account_changes _ _ _ Hw). apply lookup_union_Some_l, elem_of_list_to_map.
  - apply sorted_nodup. by apply account_entries_sorted.
  - apply (elem_of_entries account_change_key). by exists n, c, a.
Qed.

Lemma slot_recorded k : slots_in (storage_table t) k <> slots_in (storage_table t0) k ->
  exists k' y, content (storage_change_set t) !! k' = Some y /\ to < k' / 2 ^ 256 / 2 ^ 160 /\ slot_of k' = k.
Proof.
  intros Hne. set (x := (k / 2 ^ 256, k mod 2 ^ 256)). assert (word x.2) as Hx by apply slot_mod_word.
  assert (storage_now t x.1 x.2 <> storage_now t0 x.1 x.2) as Hn.
  { intros E. apply Hne. rewrite !storage_read_slot in E. unfold slot_read, x in E. cbn [fst snd] in E.
    rewrite key_of_parts in E. unfold slots_in. by rewrite !present_default, E. }
  assert (leads_back look_slot (fun x => word x.2) (fun _ _ => True) (rev (in_order (buf_storage_changes b)))
    (fun x => buf_read_storage b x.1 x.2) (fun x => storage_now t0 x.1 x.2)) as Hb.
  { eapply tracked_done; [|exact (ui_storage _ _ _ Hi)]. intros n c Hn'. by destruct (re_storage _ b He n c Hn'). }
  destruct (leads_back_changed _ _ _ _ _ _ x Hb Hx) as [E|(n & c & y & Hin%in_rev_elem & Hy)].
  { destruct Hn. by rewrite (wr_storage _ _ _ Hw). }
  unfold look_slot in Hy. destruct (c !! x.1) as [d|] eqn:Ed; [|cbn in Hy; by rewrite lookup_empty in Hy]. cbn in Hy.
  destruct (ir_slot b Hr n c _ d _ y Hin Ed Hy) as [Ha _].
  exists (storage_change_key n x.1 x.2), y.
  destruct (storage_change_parts n x.1 x.2 Ha Hx) as (E1 & E2 & E3).
  split_and!.
  - rewrite (wr_storage_changes _ _ _ Hw). apply lookup_union_Some_l, elem_of_list_to_map.
    + apply sorted_nodup. by apply storage_entries_sorted.
    + apply elem_of_storage_entries. naive_solver.
  - destruct (re_storage _ b He n c Hin). lia.
  - unfold slot_of. rewrite E2, E3. apply key_of_parts.
Qed.

End executed.

End follow.

Section theorems.
Context {T : Type -> Type} {KV : Kv T} {KC : Keccak} (A S : Z -> Prop) (NC : no_collisions A S).

(** Slots stay within those in use when changes of such slots are undone. *)
Lemma undo_storage_within es (t : T Z) : Forall (fun e => S (slot_of e.1)) es -> within S (slots_in t) ->
  within S (slots_in (foldl (fun x e => undo_slot e x) t es)).
Proof.
  intros Hes. revert t. induction Hes as [|e es He _ IH]; intros t Hw; [done|]. cbn [foldl]. apply IH.
  intros k v. rewrite undo_slot_at. by apply within_set.
Qed.

Lemma slot_parts k : S k -> is_address (k / 2 ^ 256) /\ word (k mod 2 ^ 256).
Proof.
  intros Hk. apply (nc_is_slot _ _ NC) in Hk. split; [|apply slot_mod_word]. unfold uint.
  split; [apply Z.div_pos; lia|]. apply Z.div_lt_upper_bound; lia.
Qed.

Lemma restored_mirrored t0 to t h sh : restored t0 (execution_unwind to t) ->
  state_ok A S t0 -> state_ok A S t -> changes_ok A S t ->
  mirrored (execution_unwind to t) h sh -> mirrored t0 h sh.
Proof.
  intros Hr H0 Ht Hc [Ha Hs]. split.
  - eapply mirrors_ext; [done| |exact Ha]. intros a. unfold accounts_in. rewrite <- !account_now_content.
    symmetry. apply (rs_account _ _ Hr).
  - eapply mirrors_ext; [done| |exact Hs]. intros k.
    assert (within S (slots_in (storage_table (execution_unwind to t)))) as Hw'.
    { destruct (execution_unwind_taken to t) as [_ ->]. apply undo_storage_within; [|by eapply within_slots].
      destruct (walk_back_spec (storage_change_set t)) as [_ Hb].
      apply Forall_forall. intros [k' y] Hin%elem_of_taken. by eapply co_slot, Hb. }
    pose proof (within_slots A S t0 H0) as Hw0.
    assert (S k -> slots_in (storage_table t0) k = slots_in (storage_table (execution_unwind to t)) k) as Hk.
    { intros Hk. destruct (slot_parts k Hk) as [Haddr Hl]. pose proof (rs_storage _ _ Hr _ _ Haddr Hl) as E.
      rewrite !storage_read_slot in E. unfold slot_read in E. rewrite key_of_parts in E.
      unfold slots_in. by rewrite !present_default, E. }
    destruct (slots_in (storage_table t0) k) eqn:E1; [apply Hk; by eapply Hw0|].
    destruct (slots_in (storage_table (execution_unwind to t)) k) eqn:E2; [|done].
    apply Hk. by eapply Hw'.
Qed.


End theorems.

(** ** A sample *)

#[local] Existing Instance map_table.map_kv.

Module sample_hashes.

#[local] Existing Instance samples.keccak.

Definition any_slot (k : Z) : Prop := 0 <= k < 2 ^ 416.

Lemma hash_address_id a : is_address a -> hash_address a = a.
Proof.
  intros Ha. unfold hash_address. cbn [keccak_digest samples.keccak]. rewrite (be_val_bytes_uint 20 a Ha).
  apply be_val_bytes_uint. unfold uint in *. lia.
Qed.

Lemma hash_slot_id k : any_slot k -> hash_slot k = k.
Proof.
  intros Hk. unfold hash_slot. rewrite hash_address_id.
  - unfold hash_location. cbn [keccak_digest samples.keccak].
    rewrite (be_val_bytes_uint 32 _ (slot_mod_word k)), (be_val_bytes_uint 32 _ (slot_mod_word k)). apply key_of_parts.
  - unfold uint, any_slot in *. split; [apply Z.div_pos; lia|]. apply Z.div_lt_upper_bound; lia.
Qed.

Lemma collision_free : no_collisions (uint 160) any_slot.
Proof.
  split; [| |done|done].
  - intros a b Ha Hb. by rewrite !hash_address_id.
  - intros a b Ha Hb. by rewrite !hash_slot_id.
Qed.

#[local] Instance account_wf_dec a : Decision (account_wf a).
Proof. unfold account_wf. apply _. Defined.

Definition tables_checked (t : StateTables map_table.table) : bool :=
  bool_decide (map_Forall (fun a v => is_address a /\ account_wf v) (account_table t : gmap Z Account)) &&
  bool_decide (map_Forall (fun k v => 0 <= k < 2 ^ 416 /\ word v) (storage_table t : gmap Z Z)).

Lemma tables_ok t : tables_checked t = true -> state_ok (uint 160) any_slot t.
Proof. intros [H1%bool_decide_eq_true H2%bool_decide_eq_true]%andb_true_iff. split; [exact H1|exact H2]. Qed.

(** With hashes that keep the keys, the tables mirror themselves. *)
Lemma mirrors_itself t : state_ok (uint 160) any_slot t -> mirrored t (account_table t) (storage_table t).
Proof.
  intros Ht. split; intros k v; split.
  - intros Hk. exists k. split; [done|]. by eapply hash_address_id, within_accounts.
  - intros (j & Hj & <-). rewrite hash_address_id; [done|]. by eapply within_accounts.
  - intros Hk. exists k. split; [done|]. by eapply hash_slot_id, (within_slots (uint 160)).
  - intros (j & Hj & <-). rewrite hash_slot_id; [done|]. by eapply (within_slots (uint 160)).
Qed.

Definition indices : Tables map_table.table := {|
  canonical_header := ∅; header_number := ∅; header_table := ∅; block_body := ∅; total_gas := ∅; total_tx := ∅ |}.

Definition after : StateTables map_table.table := default sample_buffer.start (write_to_db sample_buffer.block2).

Lemma after_written : write_to_db sample_buffer.block2 = Some after.
Proof. vm_compute. reflexivity. Qed.

Lemma any_changes_ok (t : StateTables map_table.table) : changes_ok (uint 160) any_slot t.
Proof.
  split; intros k y _.
  - unfold account_of, uint. apply Z.mod_pos_bound. lia.
  - unfold slot_of, any_slot, storage_key. pose proof (Z.mod_pos_bound (k / 2 ^ 256) (2 ^ 160) ltac:(lia)).
    pose proof (Z.mod_pos_bound k (2 ^ 256) ltac:(lia)). lia.
Qed.

(** The sample before it is hashed, and with hashed tables that mirror it. *)
Definition unhashed : HashTables map_table.table := {|
  hs_indices := indices; hs_state := after;
  hashed_account := account_table sample_buffer.start; hashed_storage := storage_table sample_buffer.start |}.

Definition hashed : Db (HashTables map_table.table) := Build_Db ∅ {|
  hs_indices := indices; hs_state := after;
  hashed_account := account_table after; hashed_storage := storage_table after |}.

Lemma after_ok : state_ok (uint 160) any_slot after.
Proof. apply tables_ok. vm_compute. reflexivity. Qed.

Lemma start_ok : state_ok (uint 160) any_slot sample_buffer.start.
Proof. apply tables_ok. vm_compute. reflexivity. Qed.

Lemma after_inv : use_inv 0 sample_buffer.start (sample_buffer.block2, sample_buffer.block2_start) /\
  written sample_buffer.start sample_buffer.block2 after.
Proof.
  pose proof (use_reach 0 _ _ _ _ sample_buffer.executed) as Hi. split; [done|].
  destruct (write_spec 0 sample_buffer.start sample_buffer.block2) as (t' & Hw' & Hw);
    [by apply Hi..|exact sample_buffer.start_past|]. 
  unfold after. rewrite Hw'. exact Hw.
Qed.

Lemma unhashed_behind : behind (uint 160) any_slot 0 unhashed.
Proof.
  destruct after_inv as [Hi Hw]. destruct (mirrors_itself _ start_ok) as [Ha Hs].
  split; [lia| | |apply any_changes_ok|apply any_changes_ok].
  - exists (accounts_in (account_table sample_buffer.start)). split_and!; [by eapply within_accounts, start_ok|done|].
    intros a. by apply (account_recorded 0 sample_buffer.start sample_buffer.block2 sample_buffer.block2_start).
  - exists (slots_in (storage_table sample_buffer.start)). split_and!; [by eapply within_slots, start_ok|done|].
    intros k. by apply (slot_recorded 0 sample_buffer.start sample_buffer.block2 sample_buffer.block2_start).
Qed.

End sample_hashes.

Lemma clean_and_incremental_promotion_agree_witness : exists accounts storage accounts' storage',
  promote (KC := samples.keccak) true 0 sample_hashes.unhashed = Done (accounts, storage) /\
  promote (KC := samples.keccak) false 0 sample_hashes.unhashed = Done (accounts', storage') /\
  (forall k, content accounts !! k = content accounts' !! k) /\
  (forall k, present (content storage) k = present (content storage') k) /\
  mirrored (KC := samples.keccak) sample_hashes.after accounts storage.
Proof.
  exact (clean_and_incremental_promotion_agree (KC := samples.keccak) _ _ 0 sample_hashes.unhashed
    sample_hashes.collision_free sample_hashes.after_ok sample_hashes.unhashed_behind).
Defined.

Lemma hash_state_unwind_follows_witness : exists db',
  stage_unwind (HashState (KC := samples.keccak) 10) {| unwind_from := 2; unwind_to := 0 |} sample_hashes.hashed tt =
    Done (0, db', tt) /\
  hs_state (tables db') = sample_hashes.after /\
  mirrored (KC := samples.keccak) (execution_unwind 0 sample_hashes.after)
    (hashed_account (tables db')) (hashed_storage (tables db')).
Proof.
  apply (hash_state_unwind_follows (KC := samples.keccak) (uint 160) sample_hashes.any_slot 10
    {| unwind_from := 2; unwind_to := 0 |} sample_hashes.hashed tt sample_hashes.collision_free
    sample_hashes.after_ok (sample_hashes.any_changes_ok _)).
  - destruct sample_hashes.after_inv as [Hi Hw].
    by apply (executed_unwindable 0 sample_buffer.start sample_buffer.block2 sample_buffer.block2_start); [apply sample_buffer.start_past|..].
  - apply sample_hashes.mirrors_itself, sample_hashes.after_ok.
Defined.

