(* ===== verification/TxLookup.v ===== *)
(** The stage that maps the hash of a transaction to the number of its block
    (src/stages/tx_lookup.rs), and what it promises: the table of lookups holds exactly the
    transactions of the bodies up to the progress of the stage. *)
From S2P Require Import Prelude Word EvmState Transaction Consensus StagedSync Kv Stages Etl EtlSpec Codec CodecSpec Rlp RlpDecode HashState HashStateSpec ChainAccess ChainAccessSpec Samples.
From Stdlib Require Import ZArith Lia Strings.Byte.
From stdpp Require Import base list option numbers gmap sorting.
Import Codec.
#[local] Open Scope Z_scope.

Module tx_lookup.

Section stage.
Context {T : Type -> Type} {KV : Kv T} {KC : Keccak} {RS : RlpStream} {W : Type}.

(** The codec of [TruncateStart<BlockNumber>]. *)
Definition number_codec : Codec Z := truncate_start 8 u64_codec.

(** [walk(Some(tx_base_id)).take(tx_count)]. *)
Definition block_txs (t : ChainTables T) (body : BodyForStorage) : list MessageWithSignature :=
  snd <$> take (Z.to_nat (tx_amount body)) (walk (base_tx_id body) (block_transaction t)).

(** What is pushed for a body. *)
Definition lookups_of (t : ChainTables T) (e : Z * BodyForStorage) : list (Z * MessageWithSignature) :=
  (fun tx => (sender_recovery.key_number e.1, tx)) <$> block_txs t e.2.

Definition lookup_entry (e : Z * MessageWithSignature) : option Entry :=
  b ← tx_trie_encode e.2;
  value ← encode number_codec e.1;
  Some {| key := keccak_digest b; value := value |}.

(** [collector.load]. *)
Fixpoint load_lookups (l : list Entry) (t : T Z) : outcome (T Z) :=
  match l with
  | [] => Done t
  | e :: l => number ← decoded (decode number_codec (value e));
              load_lookups l (kv_put (be_val (key e)) number t)
  end.

Definition tx_lookup_execute (input : StageInput) (db : Db (ChainTables T)) (w : W)
    : outcome (ExecOutput * Db (ChainTables T) * W) :=
  let t := tables db in
  let last_processed_block_number := default 0 (snd <$> kv_last (tx_lookups t)) in
  start_block_number ← o_unwrap (u64_checked (last_processed_block_number + 1));
  let walker := walk (header_key start_block_number 0) (block_body (chain_indices t)) in
  es ← hash_state.collected (mapM lookup_entry (walker ≫= lookups_of t));
  lookups ← load_lookups es (tx_lookups t);
  Done (Progress (default 0 (snd <$> previous_stage input)) false,
        Build_Db (sync_stage db) (with_lookups t lookups), w).

(** [if tx_hash_cursor.seek(tx_value.hash())?.is_some()]: what is found is deleted. *)
Definition unwind_tx (tx : MessageWithSignature) (t : T Z) : outcome (T Z) :=
  hash ← o_unwrap (tx_hash tx);
  Done (match kv_seek hash t with Some (k, _) => kv_delete k t | None => t end).

(** [while let Some((_, tx_value)) = walker_block_txs.next()]. *)
Fixpoint unwind_txs (num_txs tx_amount : Z) (walker : list (Z * MessageWithSignature)) (t : T Z) : outcome (T Z) :=
  match walker with
  | [] => Done t
  | (_, tx_value) :: walker =>
      if tx_amount <? num_txs then Done t
      else
        t ← unwind_tx tx_value t;
        num_txs ← o_unwrap (u64_checked (num_txs + 1));
        unwind_txs num_txs tx_amount walker t
  end.

(** [while let Some((_, BodyForStorage { .. })) = walker_block_body.next()]. *)
Fixpoint unwind_bodies (txs : T MessageWithSignature) (walker : list (Z * BodyForStorage)) (t : T Z) : outcome (T Z) :=
  match walker with
  | [] => Done t
  | (_, body) :: walker =>
      t ← unwind_txs 1 (tx_amount body) (walk (base_tx_id body) txs) t;
      unwind_bodies txs walker t
  end.

Definition tx_lookup_unwind (input : UnwindInput) (db : Db (ChainTables T)) (w : W)
    : outcome (Z * Db (ChainTables T) * W) :=
  let t := tables db in
  start_block_number ← o_unwrap (u64_checked (unwind_to input + 1));
  lookups ← unwind_bodies (block_transaction t) (walk (header_key start_block_number 0) (block_body (chain_indices t)))
              (tx_lookups t);
  Done (unwind_to input, Build_Db (sync_stage db) (with_lookups t lookups), w).

Definition TxLookup : Stage (ChainTables T) W := {|
  stage_id := TX_LOOKUP;
  stage_execute := tx_lookup_execute;
  stage_unwind := tx_lookup_unwind;
|}.

End stage.

End tx_lookup.
Import tx_lookup.

(** ** What the table holds *)

Section spec.
Context {T : Type -> Type} {KV : Kv T} {KC : Keccak} {RS : RlpStream} {W : Type}.

(** A transaction with the hash [h] is in a body with the number [n]. *)
Definition included (t : ChainTables T) (h n : Z) : Prop :=
  exists k body tx, content (block_body (chain_indices t)) !! k = Some body /\ sender_recovery.key_number k = n /\
    tx ∈ block_txs t body /\ tx_hash tx = Some h.

(** The lookups are those of the bodies up to a number. *)
Definition indexed (p : Z) (t : ChainTables T) : Prop :=
  forall h n, content (tx_lookups t) !! h = Some n <-> n <= p /\ included t h n.

(** The bodies have numbers of the type and transactions that can be encoded, and no
    transaction is in bodies with different numbers. *)
Record bodies_ok (t : ChainTables T) : Prop := {
  body_numbers : forall k body, content (block_body (chain_indices t)) !! k = Some body ->
    is_u64 (sender_recovery.key_number k);
  body_hashes : forall k body tx, content (block_body (chain_indices t)) !! k = Some body -> tx ∈ block_txs t body ->
    is_Some (tx_hash tx);
  one_number : forall h n m, included t h n -> included t h m -> n = m;
}.

Definition pushed (t : ChainTables T) (start : Z) : list (Z * MessageWithSignature) :=
  walk (header_key start 0) (block_body (chain_indices t)) ≫= lookups_of t.

Lemma elem_of_pushed t start n tx : (n, tx) ∈ pushed t start <->
  start <= n /\ exists k body, content (block_body (chain_indices t)) !! k = Some body /\
    sender_recovery.key_number k = n /\ tx ∈ block_txs t body.
Proof.
  unfold pushed, lookups_of. rewrite list_elem_of_bind. destruct (walk_spec (header_key start 0) (block_body (chain_indices t))) as [_ Hw].
  split.
  - intros ([k body] & (tx' & [= -> ->] & Htx)%list_elem_of_fmap & [Hk Hs]%Hw). rewrite key_above in Hs. eauto 7.
  - intros (Hs & k & body & Hk & <- & Htx). exists (k, body). split; [apply list_elem_of_fmap; eauto|].
    apply Hw. by rewrite key_above.
Qed.

Lemma pushed_included t start n tx h : tx_hash tx = Some h -> (n, tx) ∈ pushed t start -> start <= n /\ included t h n.
Proof. intros Hh (Hs & k & body & Hk & Hn & Htx)%elem_of_pushed. split; [done|]. by exists k, body, tx. Qed.

Lemma included_pushed t start n h : included t h n -> start <= n -> exists tx, (n, tx) ∈ pushed t start /\ tx_hash tx = Some h.
Proof. intros (k & body & tx & Hk & Hn & Htx & Hh) Hs. exists tx. split; [|done]. apply elem_of_pushed. eauto 6. Qed.

(** *** The forward direction *)

Definition put_lookup (t : T Z) (e : Z * MessageWithSignature) : T Z := kv_put (default 0 (tx_hash e.2)) e.1 t.

Lemma put_lookups_content (l : list (Z * MessageWithSignature)) (t : T Z) h :
  content (foldl put_lookup t l) !! h =
    match last (filter (fun e => default 0 (tx_hash e.2) = h) l) with
    | Some e => Some e.1
    | None => content t !! h
    end.
Proof.
  revert t. induction l as [|e l IH]; intros t; [done|]. cbn [foldl]. rewrite IH, filter_cons.
  unfold put_lookup at 1. rewrite kv_put_content. destruct (decide _) as [E|E].
  - rewrite last_cons. destruct (last _); [done|]. by rewrite <- E, lookup_insert_eq.
  - destruct (last _); [done|]. by rewrite lookup_insert_ne.
Qed.

Lemma lookup_entry_spec n tx h : is_u64 n -> tx_hash tx = Some h ->
  exists e, lookup_entry (n, tx) = Some e /\ fits stages.OPTIMAL_BUFFER_CAPACITY e /\ be_val (key e) = h /\
    decode number_codec (value e) = Value n.
Proof.
  intros Hn Hh. unfold lookup_entry, tx_hash in *. cbn [fst snd]. destruct (tx_trie_encode tx) as [b|]; [|done].
  cbn [mbind option_bind] in *. injection Hh as <-.
  destruct (sound_roundtrip (c := number_codec) (valid := is_u64) n Hn) as (v & Hv & Hd). rewrite Hv.
  eexists. split; [done|]. split_and!; [|done|done]. unfold fits. cbn [key value].
  assert (blen (keccak_digest b) = 32) as -> by (unfold blen; by rewrite length_keccak_digest).
  assert (blen v <= 8).
  { cbn [number_codec truncate_start decode] in Hd. destruct (Z.ltb_spec 8 (blen v)); [done|lia]. }
  pose proof (blen_nonneg v). unfold stages.OPTIMAL_BUFFER_CAPACITY. lia.
Qed.

Lemma load_pushed t start (x : T Z) : bodies_ok t ->
  exists l', l' ≡ₚ pushed t start /\
    (es ← hash_state.collected (mapM lookup_entry (pushed t start)); load_lookups es x) = Done (foldl put_lookup x l').
Proof.
  intros Hok. set (entry' e := default {| key := []; value := [] |} (lookup_entry e)).
  apply (collected_spec lookup_entry entry' _ (fun e => is_u64 e.1 /\ is_Some (tx_hash e.2)) load_lookups put_lookup).
  - intros [n tx] [Hn [h Hh]]. destruct (lookup_entry_spec n tx h Hn Hh) as (e & He & Hf & _).
    unfold entry'. by rewrite He.
  - done.
  - intros [n tx] es x' [Hn [h Hh]]. destruct (lookup_entry_spec n tx h Hn Hh) as (e & He & _ & Hk & Hd).
    unfold entry', put_lookup. rewrite He. cbn [default from_option id load_lookups]. rewrite Hd, Hk.
    cbn [fst snd] in *. by rewrite Hh.
  - apply Forall_forall. intros [n tx] (_ & k & body & Hk & <- & Htx)%elem_of_pushed.
    split; [by eapply body_numbers|by eapply body_hashes].
Qed.

(** The lookups after a run: those of the bodies from [start] on, and the old ones. *)
Lemma loaded_lookups t start (x : T Z) l' : bodies_ok t -> l' ≡ₚ pushed t start -> forall h n,
  content (foldl put_lookup x l') !! h = Some n <->
  (start <= n /\ included t h n) \/ (content x !! h = Some n /\ forall m, included t h m -> m < start).
Proof.
  intros Hok Hl h n. rewrite put_lookups_content.
  assert (forall e, e ∈ l' -> exists h, tx_hash e.2 = Some h /\ start <= e.1 /\ included t h e.1) as Hin.
  { intros [m tx] He. rewrite Hl in He. pose proof He as (_ & k & body & Hk & <- & Htx)%elem_of_pushed.
    destruct (body_hashes t Hok k body tx Hk Htx) as [h' Hh']. exists h'. split; [done|]. by eapply pushed_included. }
  destruct (last _) as [e|] eqn:E.
  - apply last_Some_elem_of, list_elem_of_filter in E as [Eh He]. destruct (Hin e He) as (h' & Hh' & Hs & Hi).
    rewrite Hh' in Eh. cbn [default from_option id] in Eh. subst h'. split; [intros [= <-]; by left|].
    intros [[_ Hi']|[_ Hno]]; [|specialize (Hno _ Hi); lia]. f_equal. by eapply one_number.
  - apply last_None in E. assert (forall m, included t h m -> m < start) as Hno.
    { intros m Hi. apply Z.nle_gt. intros Hs. destruct (included_pushed t start m h Hi Hs) as (tx & He & Hh).
      rewrite <- Hl in He. assert ((m, tx) ∈ filter (fun e => default 0 (tx_hash e.2) = h) l') as Hf.
      { apply list_elem_of_filter. cbn [snd]. by rewrite Hh. }
      rewrite E in Hf. by apply elem_of_nil in Hf. }
    split; [by right|]. intros [[Hs Hi]|[Hx _]]; [specialize (Hno _ Hi); lia|done].
Qed.

(** C28: the stage brings the table of lookups up to date: if it holds exactly the transactions
    of the bodies up to [p], then after a run it holds exactly those of all bodies.  The run
    starts at the block of the entry with the greatest hash, which need not be the last one
    that was processed; what it does again it does with the same result.  It never reports
    that it is done. *)
Theorem tx_lookup_indexed p q input (db : Db (ChainTables T)) (w : W) :
  let t := tables db in
  bodies_ok t -> indexed p t -> 0 <= p <= q -> p + 1 < 2 ^ 64 ->
  (forall k body, content (block_body (chain_indices t)) !! k = Some body -> sender_recovery.key_number k <= q) ->
  exists lookups, indexed q (with_lookups t lookups) /\
    stage_execute (@TxLookup T KV KC RS W) input db w =
      Done (Progress (default 0 (snd <$> previous_stage input)) false,
            Build_Db (sync_stage db) (with_lookups t lookups), w).
Proof.
  intros t Hok Hix Hpq Hp Hq. set (last_block := default 0 (snd <$> kv_last (tx_lookups t))).
  assert (0 <= last_block <= p) as Hlast.
  { unfold last_block. pose proof (kv_last_content (tx_lookups t)) as Hl.
    destruct (kv_last (tx_lookups t)) as [[h n]|]; [|simpl; lia]. destruct Hl as [Hh _]. cbn.
    apply Hix in Hh as [Hn (k & body & tx & Hk & <- & _)]. pose proof (body_numbers t Hok k body Hk) as []. lia. }
  destruct (load_pushed t (last_block + 1) (tx_lookups t) Hok) as (l' & Hl & Hload).
  exists (foldl put_lookup (tx_lookups t) l'). split.
  - intros h n. change (content (foldl put_lookup (tx_lookups t) l') !! h = Some n <-> n <= q /\ included t h n).
    rewrite (loaded_lookups t (last_block + 1)) by done. rewrite (Hix h n). split.
    + intros [[_ Hi]|[[Hn Hi] _]]; (split; [|done]); [|lia]. destruct Hi as (k & body & tx & Hk & <- & _). by eapply Hq.
    + intros [Hn Hi]. destruct (decide (last_block + 1 <= n)) as [Hs|Hs]; [by left|right].
      split; [split; [lia|done]|]. intros m Hi'. rewrite (one_number t Hok h m n Hi' Hi). lia.
  - unfold TxLookup, stage_execute, tx_lookup_execute. fold t. fold last_block.
    rewrite u64_checked_some by (unfold u64_max; lia). cbn [o_unwrap mbind outcome_bind].
    fold (pushed t (last_block + 1)).
    destruct (hash_state.collected _); try discriminate Hload. cbn [mbind outcome_bind] in *. by rewrite Hload.
Qed.

(** *** The unwind *)

(** Lookups are removed and nothing else. *)
Definition removed (hs : list Z) (t t' : T Z) : Prop :=
  forall h, content t' !! h = if decide (h ∈ hs) then None else content t !! h.

Abbreviation hashes := (Forall2 (fun tx h => tx_hash tx = Some h)).

Lemma unwind_tx_present tx h t : tx_hash tx = Some h -> is_Some (content t !! h) ->
  unwind_tx tx t = Done (kv_delete h t).
Proof. intros Hh [n Hn]. unfold unwind_tx. rewrite Hh. cbn [o_unwrap mbind outcome_bind]. by rewrite (seek_exact h n). Qed.

Lemma unwind_txs_removes amount walker : amount < u64_max -> forall num hs t, 0 < num -> NoDup hs ->
  hashes (snd <$> take (Z.to_nat (amount - num + 1)) walker) hs -> Forall (fun h => is_Some (content t !! h)) hs ->
  exists t', unwind_txs num amount walker t = Done t' /\ removed hs t t'.
Proof.
  intros Hu. induction walker as [|[i tx] walker IH]; intros num hs t Hnum Hnd Hhs Hin; cbn [unwind_txs].
  - rewrite take_nil in Hhs. apply Forall2_nil_inv_l in Hhs as ->. by exists t.
  - destruct (Z.ltb_spec amount num) as [Hlt|Hge].
    { replace (Z.to_nat (amount - num + 1)) with 0%nat in Hhs by lia. apply Forall2_nil_inv_l in Hhs as ->. by exists t. }
    replace (Z.to_nat (amount - num + 1)) with (S (Z.to_nat (amount - (num + 1) + 1))) in Hhs by lia.
    cbn [take] in Hhs. apply Forall2_cons_inv_l in Hhs as (h & hs' & Hh & Hhs & ->).
    apply NoDup_cons in Hnd as [Hnh Hnd]. apply Forall_cons in Hin as [Hp Hin].
    rewrite (unwind_tx_present tx h) by done. cbn [mbind outcome_bind].
    rewrite u64_checked_some by (unfold u64_max in *; lia). cbn [o_unwrap mbind outcome_bind].
    destruct (IH (num + 1) hs' (kv_delete h t)) as (t' & Ht' & Hr); [lia|done|done| |].
    { eapply Forall_impl; [apply Forall_and; split; [exact Hin|apply Forall_forall; intros x Hx; exact Hx]|].
      intros x [Hx Hxin]. rewrite kv_delete_content, lookup_delete_ne; [done|]. by intros ->. }
    exists t'. split; [done|]. intros x. rewrite Hr, kv_delete_content.
    destruct (decide (x = h)) as [->|Hne].
    + rewrite lookup_delete_eq, (decide_True (P := h ∈ h :: hs')) by left. by case_decide.
    + rewrite lookup_delete_ne by done. do 2 case_decide; set_solver.
Qed.

Lemma removed_app hs hs' t t1 t2 : removed hs t t1 -> removed hs' t1 t2 -> removed (hs ++ hs') t t2.
Proof.
  intros H1 H2 h. rewrite H2, H1. destruct (decide (h ∈ hs' )), (decide (h ∈ hs)), (decide (h ∈ hs ++ hs')); set_solver.
Qed.

Lemma unwind_bodies_removes t walker : Forall (fun e => tx_amount e.2 < u64_max) walker ->
  forall hs (x : T Z), NoDup hs -> hashes (walker ≫= lookups_of t).*2 hs -> Forall (fun h => is_Some (content x !! h)) hs ->
  exists x', unwind_bodies (block_transaction t) walker x = Done x' /\ removed hs x x'.
Proof.
  induction 1 as [|[k body] walker Ha _ IH]; intros hs x Hnd Hhs Hin; cbn [unwind_bodies].
  - apply Forall2_nil_inv_l in Hhs as ->. by exists x.
  - rewrite bind_cons, fmap_app in Hhs. unfold lookups_of at 1 in Hhs. rewrite <- list_fmap_compose in Hhs.
    unfold compose in Hhs. cbn [snd] in Hhs. rewrite list_fmap_id in Hhs.
    apply Forall2_app_inv_l in Hhs as (h1 & h2 & H1 & H2 & ->). apply NoDup_app in Hnd as (Hn1 & Hd & Hn2).
    apply Forall_app in Hin as [Hi1 Hi2].
    destruct (unwind_txs_removes (tx_amount body) (walk (base_tx_id body) (block_transaction t)) Ha 1 h1 x)
      as (x1 & Hx1 & Hr1); [lia|done| |done|].
    { replace (tx_amount body - 1 + 1) with (tx_amount body) by lia. exact H1. }
    rewrite Hx1. cbn [mbind outcome_bind]. destruct (IH h2 x1 Hn2 H2) as (x2 & Hx2 & Hr2).
    { apply Forall_forall. intros h Hh. rewrite Hr1. rewrite decide_False by (intros Hh1; by eapply Hd).
      by eapply Forall_forall in Hi2. }
    exists x2. split; [done|]. by eapply removed_app.
Qed.

(** Unwinding the stage takes back the lookups of the bodies after the block it unwinds
    to and no others, if no transaction of these bodies occurs twice in them and the table
    was complete: then it is complete up to that block. *)
Theorem tx_lookup_unwound p u input (db : Db (ChainTables T)) (w : W) :
  let t := tables db in
  bodies_ok t -> indexed p t -> unwind_to input = u -> 0 <= u <= p -> u + 1 < 2 ^ 64 ->
  (forall k body, content (block_body (chain_indices t)) !! k = Some body ->
    sender_recovery.key_number k <= p /\ tx_amount body < u64_max) ->
  NoDup (omap tx_hash (pushed t (u + 1)).*2) ->
  exists lookups, indexed u (with_lookups t lookups) /\
    stage_unwind (@TxLookup T KV KC RS W) input db w = Done (u, Build_Db (sync_stage db) (with_lookups t lookups), w).
Proof.
  intros t Hok Hix Hu Hup Hu64 Hp Hnd. set (walker := walk (header_key (u + 1) 0) (block_body (chain_indices t))).
  set (hs := omap tx_hash (pushed t (u + 1)).*2) in *.
  assert (forall h, h ∈ hs <-> exists n, u < n /\ included t h n) as Hhs.
  { intros h. unfold hs. rewrite list_elem_of_omap. split.
    - intros (tx & ([n tx'] & -> & He)%list_elem_of_fmap & Hh). cbn [snd] in Hh. exists n.
      destruct (pushed_included t _ n tx' h Hh He). split; [lia|done].
    - intros (n & Hn & Hi). destruct (included_pushed t (u + 1) n h Hi ltac:(lia)) as (tx & He & Hh). exists tx.
      split; [|done]. apply list_elem_of_fmap. by exists (n, tx). }
  destruct (unwind_bodies_removes t walker) with (hs := hs) (x := tx_lookups t) as (x' & Hx' & Hr); [|done| | |].
  { apply Forall_forall. intros [k body] Hk. apply (walk_spec (header_key (u + 1) 0)) in Hk as [Hk _]. by eapply Hp. }
  { assert (Forall (fun tx => is_Some (tx_hash tx)) (pushed t (u + 1)).*2) as Hall.
    { apply Forall_fmap, Forall_forall. intros [n tx] (_ & k & body & Hk & <- & Htx)%elem_of_pushed. by eapply body_hashes. }
    unfold hs. clear -Hall. change (walker ≫= lookups_of t) with (pushed t (u + 1)). induction Hall as [|tx l [h Hh] _ IH]; [constructor|]. cbn. rewrite Hh. by constructor. }
  { apply Forall_forall. intros h (n & Hn & Hi)%Hhs. exists n. apply Hix. split; [|done].
    destruct Hi as (k & body & tx & Hk & <- & _). by eapply Hp. }
  exists x'. split.
  - intros h n. change (content x' !! h = Some n <-> n <= u /\ included t h n). rewrite Hr.
    destruct (decide (h ∈ hs)) as [Hh|Hh].
    + apply Hhs in Hh as (m & Hm & Hi). split; [done|]. intros [Hn Hi']. rewrite (one_number t Hok h n m Hi' Hi) in Hn. lia.
    + rewrite (Hix h n). split; [|intros []; split; [lia|done]]. intros [Hn Hi]. split; [|done]. apply Z.nlt_ge.
      intros Hlt. apply Hh, Hhs. eauto.
  - unfold TxLookup, stage_unwind, tx_lookup_unwind. fold t. rewrite Hu, u64_checked_some by (unfold u64_max; lia).
    cbn [o_unwrap mbind outcome_bind]. fold walker. by rewrite Hx'.
Qed.

(** What is included, as a list. *)
Definition listed (t : ChainTables T) : list (Z * Z) :=
  omap (fun e => (fun h => (h, e.1)) <$> tx_hash e.2) (pushed t 0).

Lemma included_listed t : (forall k body, content (block_body (chain_indices t)) !! k = Some body ->
    is_u64 (sender_recovery.key_number k)) ->
  forall h n, included t h n <-> (h, n) ∈ listed t.
Proof.
  intros Hn h n. unfold listed. rewrite list_elem_of_omap. split.
  - intros Hi. destruct (included_pushed t 0 n h Hi) as (tx & He & Hh).
    { destruct Hi as (k & body & _ & Hk & <- & _). by destruct (Hn k body Hk). }
    exists (n, tx). split; [done|]. cbn [fst snd]. by rewrite Hh.
  - intros ([m tx] & He & Hh). cbn [fst snd] in Hh. destruct (tx_hash tx) as [h'|] eqn:E; [|done].
    injection Hh as -> ->. by destruct (pushed_included t 0 n tx h E He).
Qed.

End spec.

(** ** A sample *)

Module sample_lookup.
#[local] Existing Instances samples.keccak samples.rlp map_table.map_kv.

(** The chain of three blocks, before and after the stage. *)
Definition start : ChainTables map_table.table := sample_senders.chain.
Definition filled : ChainTables map_table.table := with_lookups start (list_to_map (listed start) : gmap Z Z).

Lemma numbers : map_Forall (fun k (b : BodyForStorage) => is_u64 (sender_recovery.key_number k) /\
    sender_recovery.key_number k <= 3 /\ tx_amount b < u64_max)
  (block_body (chain_indices start) : gmap Z BodyForStorage).
Proof. apply (bool_decide_unpack _). by vm_compute. Qed.

Lemma start_included h n : included start h n <-> (h, n) ∈ listed start.
Proof. apply included_listed. intros k b Hk. apply (numbers k b Hk). Qed.

Lemma lookup_start_ok : bodies_ok start.
Proof.
  split.
  - intros k b Hk. apply (numbers k b Hk).
  - intros k b tx Hk Htx.
    assert (Forall (fun e => is_Some (tx_hash e.2)) (pushed start 0)) as Hall by (apply (bool_decide_unpack _); by vm_compute).
    eapply (proj1 (Forall_forall _ _) Hall (sender_recovery.key_number k, tx)). apply elem_of_pushed.
    split; [apply (numbers k b Hk)|eauto].
  - intros h n m. rewrite !start_included. intros Hn Hm.
    assert (Forall (fun e => Forall (fun f => e.1 = f.1 -> e.2 = f.2) (listed start)) (listed start)) as Hall
      by (apply (bool_decide_unpack _); by vm_compute).
    rewrite Forall_forall in Hall. specialize (Hall _ Hn). rewrite Forall_forall in Hall. by apply (Hall _ Hm).
Qed.

Definition run_input : StageInput :=
  {| restarted := false; first_started_at := (0, None); previous_stage := Some (BODIES, 3); stage_progress := None |}.

Lemma start_indexed : indexed 0 start.
Proof.
  intros h n. split; [done|]. intros [Hn Hi%start_included].
  assert (Forall (fun e => 0 < e.2) (listed start)) as Hall by (apply (bool_decide_unpack _); by vm_compute).
  rewrite Forall_forall in Hall. specialize (Hall _ Hi). cbn in Hall. lia.
Qed.

Lemma filled_indexed : indexed 3 filled.
Proof.
  intros h n. change ((list_to_map (listed start) : gmap Z Z) !! h = Some n <-> n <= 3 /\ included start h n).
  rewrite start_included, <- elem_of_list_to_map.
  - split; [intros Hi; split; [|done]|by intros []].
    assert (Forall (fun e => e.2 <= 3) (listed start)) as Hall by (apply (bool_decide_unpack _); by vm_compute).
    rewrite Forall_forall in Hall. apply (Hall _ Hi).
  - apply (bool_decide_unpack _). by vm_compute.
Qed.

End sample_lookup.

Lemma tx_lookup_indexed_witness : exists lookups,
  @indexed _ map_table.map_kv samples.keccak samples.rlp 3 (with_lookups sample_lookup.start lookups) /\
  stage_execute (@TxLookup _ map_table.map_kv samples.keccak samples.rlp unit) sample_lookup.run_input
    (Build_Db ∅ sample_lookup.start) tt =
    Done (Progress 3 false, Build_Db ∅ (with_lookups sample_lookup.start lookups), tt).
Proof.
  apply (@tx_lookup_indexed _ map_table.map_kv samples.keccak samples.rlp unit 0 3 sample_lookup.run_input
    (Build_Db ∅ sample_lookup.start) tt).
  - exact sample_lookup.lookup_start_ok.
  - exact sample_lookup.start_indexed.
  - lia.
  - lia.
  - intros k b Hk. apply (sample_lookup.numbers k b Hk).
Defined.

Lemma tx_lookup_unwound_witness : exists lookups,
  @indexed _ map_table.map_kv samples.keccak samples.rlp 1 (with_lookups sample_lookup.filled lookups) /\
  stage_unwind (@TxLookup _ map_table.map_kv samples.keccak samples.rlp unit) {| unwind_from := 3; unwind_to := 1 |}
    (Build_Db ∅ sample_lookup.filled) tt = Done (1, Build_Db ∅ (with_lookups sample_lookup.filled lookups), tt).
Proof.
  apply (@tx_lookup_unwound _ map_table.map_kv samples.keccak samples.rlp unit 3 1 {| unwind_from := 3; unwind_to := 1 |}
    (Build_Db ∅ sample_lookup.filled) tt).
  - destruct sample_lookup.lookup_start_ok. by split.
  - exact sample_lookup.filled_indexed.
  - done.
  - lia.
  - lia.
  - intros k b Hk. apply (sample_lookup.numbers k b Hk).
  - apply (bool_decide_unpack _). by vm_compute.
Defined.

(** A second body after the block unwound to, with the same transaction: its lookup is gone
    when it is sought again, and the lookup that follows, of a block that stays, is deleted. *)
Section neighbour.
#[local] Existing Instances samples.keccak samples.rlp map_table.map_kv.

Definition forked : ChainTables map_table.table :=
  with_bodies sample_lookup.filled
    (<[header_key 3 8 := sample_senders.body 12 1]> (block_body (chain_indices sample_lookup.start) : gmap Z BodyForStorage)).

Definition lookups_left : option nat :=
  match stage_unwind (W := unit) TxLookup {| unwind_from := 3; unwind_to := 1 |} (Build_Db ∅ forked) tt with
  | Done (_, db, _) => Some (size (tx_lookups (tables db) : gmap Z Z))
  | _ => None
  end.

Example unwind_deletes_neighbour : size (tx_lookups forked : gmap Z Z) = 3%nat /\ lookups_left = Some 1%nat.
Proof. by vm_compute. Qed.

End neighbour.
