(* ===== verification/InterHashes.v ===== *)
(** Intermediate hashes of the state trie (src/trie/intermediate_hashes.rs) and the stage
    that keeps them (src/stages/interhashes.rs).

    The tables of trie nodes have byte strings of any length for keys, in the order of
    their bytes.  A cursor over such a table walks over the nodes of a trie; subtrees that
    have not changed are given to the hash builder by their hash, and the rest from the
    tables of the hashed state.  A panic is [Panicked]. *)
From S2P Require Import Prelude Word EvmState IntraBlockState Consensus Rlp MemState Trie StagedSync Kv Etl Stages Bitmaps CallTraces Buffer Codec HashState.
From Stdlib Require Import ZArith Lia Strings.Byte.
From stdpp Require Import base list option numbers gmap.
#[local] Open Scope Z_scope.

(** ** Tables with byte strings for keys *)

Class PathKv (P : Type) := {
  paths : P -> gmap Bytes Bytes;
  path_get : Bytes -> P -> option Bytes;                (* [seek_exact] *)
  path_seek : Bytes -> P -> option (Bytes * Bytes);
  path_put : Bytes -> Bytes -> P -> P;
  path_delete : Bytes -> P -> P;                        (* [delete_current] on the entry at a key *)
  path_clear : P -> P;
  path_get_paths k t : path_get k t = paths t !! k;
  path_seek_paths k t :
    match path_seek k t with
    | Some (k', v) => paths t !! k' = Some v /\ bytes_le k k' = true /\
                      forall j w, paths t !! j = Some w -> bytes_le k j = true -> bytes_le k' j = true
    | None => forall j w, paths t !! j = Some w -> bytes_le k j = false
    end;
  path_put_paths k v t : paths (path_put k v t) = <[k := v]> (paths t);
  path_delete_paths k t : paths (path_delete k t) = delete k (paths t);
  path_clear_paths t : paths (path_clear t) = ∅;
}.

Record TrieTables (T : Type -> Type) (P : Type) := {
  hash_tables : HashTables T;
  trie_account : P;
  trie_storage : P;
}.
Arguments hash_tables {T P} _.
Arguments trie_account {T P} _.
Arguments trie_storage {T P} _.

Definition bytes_of (l : list Z) : Bytes := byte_of <$> l.
Definition vals_of (b : Bytes) : list Z := byte_val <$> b.

(** ** The cursor *)

Record CursorSubNode := {
  sub_key : list Z;
  sub_node : option Node;
  sub_nibble : Z;                    (* [i8] *)
}.

Module sub_node.

Definition full_key (s : CursorSubNode) : list Z :=
  sub_key s ++ (if 0 <=? sub_nibble s then [sub_nibble s] else []).

(** [mask & (1u16 << nibble) != 0]; a shift by the width panics. *)
Definition flag (mask nibble : Z) : outcome bool :=
  bit ← o_unwrap (bit16 nibble);
  Done (negb (Z.land mask bit =? 0)).

Definition state_flag (s : CursorSubNode) : outcome bool :=
  match sub_node s with
  | Some node => if sub_nibble s <? 0 then Done true else flag (state_mask node) (sub_nibble s)
  | None => Done true
  end.

Definition tree_flag (s : CursorSubNode) : outcome bool :=
  match sub_node s with
  | Some node => if sub_nibble s <? 0 then Done true else flag (tree_mask node) (sub_nibble s)
  | None => Done true
  end.

Definition hash_flag (s : CursorSubNode) : outcome bool :=
  match sub_node s with
  | None => Done false
  | Some node =>
      if sub_nibble s <? 0 then Done (bool_decide (is_Some (node_root_hash node)))
      else flag (hash_mask node) (sub_nibble s)
  end.

Definition hash_of (s : CursorSubNode) : outcome (option Z) :=
  has ← hash_flag s;
  if negb has then Done None
  else
    node ← o_unwrap (sub_node s);
    if sub_nibble s <? 0 then Done (node_root_hash node)
    else
      bit ← o_unwrap (bit16 (sub_nibble s));
      let first_nibbles_mask := bit - 1 in
      let hash_idx := count_ones (Z.land (hash_mask node) first_nibbles_mask) in
      h ← o_unwrap (hashes node !! hash_idx);
      Done (Some h).

End sub_node.

(** [for i in (0..out.len()).rev()] over the reversed key. *)
Fixpoint increment_rev (rev : list Z) : outcome (option (list Z)) :=
  match rev with
  | [] => Done None
  | nibble :: rev =>
      if negb (nibble <? 16) then Panicked
      else if nibble <? 15 then Done (Some (nibble + 1 :: rev))
      else r ← increment_rev rev; Done (option_map (cons 0) r)
  end.

Definition increment_key (unpacked : list Z) : outcome (option (list Z)) :=
  r ← increment_rev (rev unpacked); Done (option_map (@rev Z) r).

Record Cursor (P : Type) := {
  node_table : P;
  changed : PrefixSet;
  prefix : list Z;
  sub_nodes : list CursorSubNode;
  can_skip_state : bool;
}.
Arguments node_table {P} _.
Arguments changed {P} _.
Arguments prefix {P} _.
Arguments sub_nodes {P} _.
Arguments can_skip_state {P} _.

Module cursor.

Section cursor.
Context {P : Type} {PK : PathKv P}.

Definition with_nodes (c : Cursor P) (t : P) (s : list CursorSubNode) (skip : bool) : Cursor P := {|
  node_table := t; changed := changed c; prefix := prefix c; sub_nodes := s; can_skip_state := skip;
|}.

Definition key (c : Cursor P) : option (list Z) := sub_node.full_key <$> last (sub_nodes c).

Definition hash (c : Cursor P) : outcome (option Z) :=
  match last (sub_nodes c) with None => Done None | Some s => sub_node.hash_of s end.

Definition children_are_in_trie (c : Cursor P) : outcome bool :=
  match last (sub_nodes c) with None => Done false | Some s => sub_node.tree_flag s end.

Definition first_uncovered_prefix (c : Cursor P) : outcome (option Bytes) :=
  k ← match key c with
      | Some k => if can_skip_state c then increment_key k else Done (Some k)
      | None => Done None
      end;
  match k with
  | None => Done None
  | Some k => b ← o_unwrap (pack_nibbles k); Done (Some b)
  end.

Definition update_skip_state (c : Cursor P) : outcome (Cursor P) :=
  match last (sub_nodes c) with
  | None => Done (with_nodes c (node_table c) (sub_nodes c) false)
  | Some s =>
      if prefix_set.contains (changed c) (prefix c ++ sub_node.full_key s)
      then Done (with_nodes c (node_table c) (sub_nodes c) false)
      else skip ← sub_node.hash_flag s; Done (with_nodes c (node_table c) (sub_nodes c) skip)
  end.

(** [while state_mask & (1u16 << nibble) == 0 { nibble += 1; }]. *)
Fixpoint first_nibble (fuel : nat) (mask nibble : Z) : outcome Z :=
  match fuel with
  | O => Panicked
  | S fuel =>
      f ← sub_node.flag mask nibble;
      if (f : bool) then Done nibble else first_nibble fuel mask (nibble + 1)
  end.

(** [v as i8]. *)
Definition as_i8 (v : Z) : Z := if v <? 128 then v else v - 256.

(** [self.stack[0].nibble = key[0] as i8] when both are there. *)
Definition set_first (k : list Z) (s : list CursorSubNode) : list CursorSubNode :=
  match k, s with
  | x :: _, sn :: s => {| sub_key := sub_key sn; sub_node := sub_node sn; sub_nibble := as_i8 x |} :: s
  | _, _ => s
  end.

(** [consume_node] after the entry is found, with the key of its node. *)
Definition consume_entry (c : Cursor P) (k : list Z) (entry : option (Bytes * Bytes)) : outcome (Cursor P) :=
  node ← match entry with
         | None => Done None
         | Some (_, v) =>
             n ← o_unwrap (unmarshal_node v);
             n ← o_unwrap n;
             if state_mask n =? 0 then Panicked else Done (Some n)
         end;
  nibble ← match node with
           | Some n => if bool_decide (is_Some (node_root_hash n)) then Done (-1) else first_nibble 17 (state_mask n) 0
           | None => Done (-1)
           end;
  let s := set_first k (sub_nodes c) ++ [{| sub_key := k; sub_node := node; sub_nibble := nibble |}] in
  c ← update_skip_state (with_nodes c (node_table c) s (can_skip_state c));
  match entry with
  | Some (db_key, _) =>
      if negb (can_skip_state c) || negb (nibble =? -1)
      then Done (with_nodes c (path_delete db_key (node_table c)) (sub_nodes c) (can_skip_state c))
      else Done c
  | None => Done c
  end.

Definition consume_node (c : Cursor P) (to : list Z) (exact : bool) : outcome (Cursor P) :=
  let db_key := bytes_of (prefix c ++ to) in
  if exact then consume_entry c to ((fun v => (db_key, v)) <$> path_get db_key (node_table c))
  else
    match path_seek db_key (node_table c) with
    | None => Done (with_nodes c (node_table c) [] (can_skip_state c))
    | Some (k, v) =>
        if negb (has_prefix (vals_of k) (prefix c))
        then Done (with_nodes c (node_table c) [] (can_skip_state c))
        else consume_entry c (drop (length (prefix c)) (vals_of k)) (Some (k, v))
    end.

Definition new (t : P) (changed : PrefixSet) (prefix : list Z) : outcome (Cursor P) :=
  consume_node {| node_table := t; changed := changed; prefix := prefix; sub_nodes := []; can_skip_state := false |}
    [] true.

Definition with_nibble (s : CursorSubNode) (nibble : Z) : CursorSubNode :=
  {| sub_key := sub_key s; sub_node := sub_node s; sub_nibble := nibble |}.

(** [while sn.nibble < 16]: the sub-node at the next nibble with state, if any. *)
Fixpoint next_state (fuel : nat) (s : CursorSubNode) : outcome (option CursorSubNode) :=
  match fuel with
  | O => Done None
  | S fuel =>
      if sub_nibble s <? 16 then
        f ← sub_node.state_flag s;
        if (f : bool) then Done (Some s) else next_state fuel (with_nibble s (sub_nibble s + 1))
      else Done None
  end.

(** Every recursive call has a smaller stack. *)
Fixpoint sibling_loop (fuel : nat) (c : Cursor P) (allow : bool) : outcome (Cursor P) :=
  match fuel with
  | O => Done c
  | S fuel =>
      match last (sub_nodes c) with
      | None => Done c
      | Some sn =>
          let popped := with_nodes c (node_table c) (removelast (sub_nodes c)) (can_skip_state c) in
          if (15 <=? sub_nibble sn) || ((sub_nibble sn <? 0) && negb allow)
          then sibling_loop fuel popped false
          else
            let sn := with_nibble sn (sub_nibble sn + 1) in
            let stay sn := with_nodes c (node_table c) (removelast (sub_nodes c) ++ [sn]) (can_skip_state c) in
            match sub_node sn with
            | None => consume_node (stay sn) (sub_node.full_key sn) false
            | Some _ =>
                next ← next_state 17 sn;
                match next with
                | Some sn => Done (stay sn)
                | None => sibling_loop fuel popped false
                end
            end
      end
  end.

Definition move_to_next_sibling (c : Cursor P) (allow_root_to_child_nibble_within_subnode : bool) : outcome (Cursor P) :=
  sibling_loop (S (length (sub_nodes c))) c allow_root_to_child_nibble_within_subnode.

Definition next (c : Cursor P) : outcome (Cursor P) :=
  match last (sub_nodes c) with
  | None => Done c
  | Some sn =>
      in_trie ← (if can_skip_state c then Done false else children_are_in_trie c);
      c ← (if (in_trie : bool) then
             if sub_nibble sn <? 0 then move_to_next_sibling c true
             else consume_node c (sub_node.full_key sn) false
           else move_to_next_sibling c false);
      update_skip_state c
  end.

End cursor.

End cursor.

(** ** The loader *)

(** A cursor visits at most seventeen positions of a node, and finds at most one node at each. *)
Definition cursor_fuel {P} `{PathKv P} (t : P) : nat := let n := (17 * (size (paths t) + 2))%nat in (n * n)%nat.

(** [resize(32, 0)]. *)
Definition resize32 (b : Bytes) : Bytes := take 32 b ++ replicate (32 - length b) x00.

(** The items of [RlpAccount]. *)
Definition account_item (a : Account) (storage_root : Z) : RlpItem :=
  RlpListOf [RlpU64 (nonce a); RlpU256 (balance a); RlpH256 storage_root; RlpH256 (code_hash a)].

Module loader.

Section loader.
Context {T : Type -> Type} {KV : Kv T} {P : Type} {PK : PathKv P} {KC : Keccak} {RS : RlpStream}.

(** What the loader holds: the builder of the account trie, the table of the storage tries
    and the nodes collected for it. *)
Record Loader := {
  hb : HashBuilder;
  storage_trie : P;
  storage_nodes : list (list Z * Node);
}.

(** The subtree at the cursor is given to the builder by its hash. *)
Definition skip_state (c : Cursor P) (k : list Z) (b : HashBuilder) : outcome HashBuilder :=
  if can_skip_state c then
    h ← cursor.hash c;
    h ← o_unwrap h;
    in_trie ← cursor.children_are_in_trie c;
    o_unwrap (hash_builder.add_branch_node b k h in_trie)
  else Done b.

(** [trie.key().is_some() && trie.key().unwrap() < unpacked_key]. *)
Definition beyond (c : Cursor P) (unpacked : list Z) : bool :=
  match cursor.key c with Some k => vec_lt k unpacked | None => false end.

Fixpoint storage_leaves (c : Cursor P) (l : list (Z * Z)) (b : HashBuilder) : outcome HashBuilder :=
  match l with
  | [] => Done b
  | (location, value) :: l =>
      let unpacked_loc := unpack_nibbles (be_bytes 32 location) in
      if beyond c unpacked_loc then Done b
      else
        b ← o_unwrap (hash_builder.add_leaf b unpacked_loc (rlp_out (RlpU256 value)));
        storage_leaves c l b
  end.

(** The slots of an account from a location on: [seek_both_range] and [next_dup]. *)
Definition slots_from (t : T Z) (hashed_address location : Z) : list (Z * Z) :=
  buffer.take_slots hashed_address (walk (storage_key hashed_address location) t).

Fixpoint storage_loop (fuel : nat) (t : T Z) (hashed_address : Z) (c : Cursor P) (b : HashBuilder)
    : outcome (Cursor P * HashBuilder) :=
  match fuel with
  | O => Panicked
  | S fuel =>
      match cursor.key c with
      | None => Done (c, b)
      | Some k =>
          b ← skip_state c k b;
          uncovered ← cursor.first_uncovered_prefix c;
          match uncovered with
          | None => Done (c, b)
          | Some uncovered =>
              c ← cursor.next c;
              b ← storage_leaves c (slots_from t hashed_address (be_val (resize32 uncovered))) b;
              storage_loop fuel t hashed_address c b
          end
      end
  end.

Definition calculate_storage_root (t : T Z) (hashed_address : Z) (ch : PrefixSet) (l : Loader)
    : outcome (Z * Loader) :=
  let key_with_inc := vals_of (be_bytes 32 hashed_address) in
  c ← cursor.new (storage_trie l) ch key_with_inc;
  '(c, b) ← storage_loop (cursor_fuel (storage_trie l)) t hashed_address c (hash_builder.new true);
  '(root, b) ← o_unwrap (hash_builder.root_hash b);
  Done (root, {| hb := hb l; storage_trie := node_table c;
                 storage_nodes := storage_nodes l ++
                   ((fun e => (key_with_inc ++ e.1, e.2)) <$> default [] (node_collector b)) |}).

Fixpoint account_leaves (t : T Z) (ch : PrefixSet) (c : Cursor P) (accounts : list (Z * Account)) (l : Loader)
    : outcome Loader :=
  match accounts with
  | [] => Done l
  | (hashed_address, account) :: accounts =>
      let unpacked_key := unpack_nibbles (be_bytes 32 hashed_address) in
      if beyond c unpacked_key then Done l
      else
        '(storage_root, l) ← calculate_storage_root t hashed_address ch l;
        b ← o_unwrap (hash_builder.add_leaf (hb l) unpacked_key (rlp_out (account_item account storage_root)));
        account_leaves t ch c accounts
          {| hb := b; storage_trie := storage_trie l; storage_nodes := storage_nodes l |}
  end.

Fixpoint account_loop (fuel : nat) (t : HashTables T) (c : Cursor P) (l : Loader) : outcome (Cursor P * Loader) :=
  match fuel with
  | O => Panicked
  | S fuel =>
      match cursor.key c with
      | None => Done (c, l)
      | Some k =>
          b ← skip_state c k (hb l);
          let l := {| hb := b; storage_trie := storage_trie l; storage_nodes := storage_nodes l |} in
          uncovered ← cursor.first_uncovered_prefix c;
          match uncovered with
          | None => Done (c, l)
          | Some uncovered =>
              c ← cursor.next c;
              l ← account_leaves (hashed_storage t) (changed c) c
                    (walk (be_val (resize32 uncovered)) (hashed_account t)) l;
              account_loop fuel t c l
          end
      end
  end.

(** The root, the two tables of nodes without what the cursors have deleted, and the
    nodes collected for them. *)
Record Calculated := {
  calc_root : Z;
  calc_account : P;
  calc_storage : P;
  account_nodes : list (list Z * Node);
  slot_nodes : list (list Z * Node);
}.

Definition calculate_root (t : TrieTables T P) (ch : PrefixSet) : outcome Calculated :=
  c ← cursor.new (trie_account t) ch [];
  '(c, l) ← account_loop (cursor_fuel (trie_account t)) (hash_tables t) c
              {| hb := hash_builder.new true; storage_trie := trie_storage t; storage_nodes := [] |};
  '(root, b) ← o_unwrap (hash_builder.root_hash (hb l));
  Done {| calc_root := root; calc_account := node_table c; calc_storage := storage_trie l;
          account_nodes := filter (fun e => e.1 <> []) (default [] (node_collector b));
          slot_nodes := storage_nodes l |}.

(** [collector.load] into a table of nodes. *)
Definition node_entry (e : list Z * Node) : Entry :=
  {| Etl.key := bytes_of e.1; Etl.value := marshal_node e.2 |}.

Definition load_nodes (nodes : list (list Z * Node)) (t : P) : outcome P :=
  es ← hash_state.collected (Some (node_entry <$> nodes));
  Done (foldl (fun t e => path_put (Etl.key e) (Etl.value e) t) t es).

Definition do_increment_intermediate_hashes (t : TrieTables T P) (expected_root : option Z) (ch : PrefixSet)
    : outcome (Z * TrieTables T P) :=
  r ← calculate_root t ch;
  match expected_root with
  | Some e => if negb (e =? calc_root r) then Error else Done ()
  | None => Done ()
  end ;;
  accounts ← load_nodes (account_nodes r) (calc_account r);
  slots ← load_nodes (slot_nodes r) (calc_storage r);
  Done (calc_root r, {| hash_tables := hash_tables t; trie_account := accounts; trie_storage := slots |}).

Definition gather_changes (t : StateTables T) (from : Z) : outcome PrefixSet :=
  starting_key ← o_unwrap (u64_checked (from + 1));
  let out := foldl (fun out e =>
    prefix_set.insert (unpack_nibbles (keccak_digest (be_bytes 20 (e.1 mod 2 ^ 160)))) out)
    prefix_set.new (walk (account_change_key starting_key 0) (account_change_set t)) in
  Done (foldl (fun out e =>
    prefix_set.insert
      (vals_of (keccak_digest (be_bytes 20 ((e.1 / 2 ^ 256) mod 2 ^ 160))) ++
       unpack_nibbles (keccak_digest (be_bytes 32 (e.1 mod 2 ^ 256)))) out)
    out (walk (storage_change_key starting_key 0 0) (storage_change_set t))).

Definition increment_intermediate_hashes (t : TrieTables T P) (from : Z) (expected_root : option Z)
    : outcome (Z * TrieTables T P) :=
  changes ← gather_changes (hs_state (hash_tables t)) from;
  do_increment_intermediate_hashes t expected_root changes.

Definition cleared (t : TrieTables T P) : TrieTables T P := {|
  hash_tables := hash_tables t; trie_account := path_clear (trie_account t);
  trie_storage := path_clear (trie_storage t) |}.

Definition regenerate_intermediate_hashes (t : TrieTables T P) (expected_root : option Z)
    : outcome (Z * TrieTables T P) :=
  do_increment_intermediate_hashes (cleared t) expected_root prefix_set.new.

(** ** The stage *)

Context {W : Type}.

(** The state root in the canonical header of a block. *)
Definition block_state_root (t : Tables T) (max_block : Z) : outcome Z :=
  hash ← o_ok_or (kv_get max_block (canonical_header t));
  header ← o_ok_or (kv_get (header_key max_block hash) (header_table t));
  Done (header.state_root header).

Definition interhashes_execute (clean_promotion_threshold : Z) (input : StageInput) (db : Db (TrieTables T P)) (w : W)
    : outcome (ExecOutput * Db (TrieTables T P) * W) :=
  let genesis := 0 in
  max_block ← o_ok_or (snd <$> previous_stage input);
  let past_progress := default genesis (stage_progress input) in
  t ← (if past_progress <? max_block then
         let indices := hs_indices (hash_tables (tables db)) in
         state_root ← block_state_root indices max_block;
         clean ← stages.should_do_clean_promotion indices genesis past_progress max_block clean_promotion_threshold;
         '(_, t) ← (if (clean : bool) then regenerate_intermediate_hashes (tables db) (Some state_root)
                    else increment_intermediate_hashes (tables db) past_progress (Some state_root));
         Done t
       else Done (tables db));
  Done (Progress (Z.max max_block past_progress) true, Build_Db (sync_stage db) t, w).

Definition interhashes_unwind (input : UnwindInput) (db : Db (TrieTables T P)) (w : W)
    : outcome (Z * Db (TrieTables T P) * W) :=
  Done (0, Build_Db (sync_stage db) (cleared (tables db)), w).

Definition Interhashes (clean_promotion_threshold : Z) : Stage (TrieTables T P) W := {|
  stage_id := INTERMEDIATE_HASHES;
  stage_execute := interhashes_execute clean_promotion_threshold;
  stage_unwind := interhashes_unwind;
|}.

End loader.

End loader.
