(* ===== verification/InterHashesSpec.v ===== *)
(** The root of the state is the root of its trie.

    When the tables of nodes are empty, the loader goes through the whole hashed state,
    and its result is the root of the Merkle Patricia trie of the accounts, each with the
    root of the trie of its storage. *)
From S2P Require Import Prelude Word EvmState IntraBlockState Consensus Rlp MemState Trie Samples TrieSpec StagedSync Kv Etl EtlSpec Stages Bitmaps CallTraces Buffer BufferSpec Codec CodecSpec HashState HashStateSpec InterHashes.
From Stdlib Require Import ZArith Lia Strings.Byte.
From stdpp Require Import base list option numbers gmap sorting.
#[local] Open Scope Z_scope.

(** ** Nibbles of a word *)

Lemma byte_nibbles b : byte_val b = 16 * Z.shiftr (byte_val b) 4 + Z.land (byte_val b) 0x0F /\
  0 <= Z.shiftr (byte_val b) 4 < 16 /\ 0 <= Z.land (byte_val b) 0x0F < 16.
Proof.
  pose proof (byte_val_range b). rewrite Z.shiftr_div_pow2 by lia. change 15 with (Z.ones 4).
  rewrite Z.land_ones by lia. change (2 ^ 4) with 16.
  pose proof (Z.div_mod (byte_val b) 16 ltac:(lia)). pose proof (Z.mod_pos_bound (byte_val b) 16 ltac:(lia)).
  lia.
Qed.

Lemma unpack_cons b bs : unpack_nibbles (b :: bs) =
  Z.shiftr (byte_val b) 4 :: Z.land (byte_val b) 0x0F :: unpack_nibbles bs.
Proof. done. Qed.

Lemma length_unpack b : length (unpack_nibbles b) = (2 * length b)%nat.
Proof. induction b as [|x b IH]; [done|]. rewrite unpack_cons. cbn [length]. rewrite IH. lia. Qed.

Lemma unpack_are_nibbles b : nibbles (unpack_nibbles b).
Proof.
  induction b as [|x b IH]; [constructor|]. rewrite unpack_cons. pose proof (byte_nibbles x) as (_ & Hh & Hl).
  constructor; [exact Hh|constructor; [exact Hl|exact IH]].
Qed.

Lemma unpack_lt a b : length a = length b -> vec_lt (unpack_nibbles a) (unpack_nibbles b) = negb (bytes_le b a).
Proof.
  revert b. induction a as [|x a IH]; intros [|y b] Hl; try done. injection Hl as Hl.
  rewrite !unpack_cons. cbn [vec_lt bytes_le]. rewrite (IH b Hl).
  pose proof (byte_nibbles x) as (Ex & Hhx & Hlx). pose proof (byte_nibbles y) as (Ey & Hhy & Hly).
  set (hx := Z.shiftr (byte_val x) 4) in *. set (lx := Z.land (byte_val x) 15) in *.
  set (hy := Z.shiftr (byte_val y) 4) in *. set (ly := Z.land (byte_val y) 15) in *.
  rewrite Ex, Ey. clearbody hx lx hy ly.
  destruct (Z.ltb_spec hx hy), (Z.eqb_spec hx hy), (Z.ltb_spec lx ly), (Z.eqb_spec lx ly),
    (Z.ltb_spec (16 * hy + ly) (16 * hx + lx)), (Z.eqb_spec (16 * hy + ly) (16 * hx + lx));
    cbn [orb andb negb]; try done; try lia; by destruct (bytes_le b a).
Qed.

(** The key of a leaf. *)
Abbreviation path_of k := (unpack_nibbles (be_bytes 32 k)).

Lemma path_lt x y : word x -> word y -> x < y -> vec_lt (path_of x) (path_of y) = true.
Proof.
  intros Hx Hy Hlt. rewrite unpack_lt by (by rewrite !length_be_bytes). apply negb_true_iff.
  apply not_true_iff_false. rewrite bytes_le_val by (by rewrite !length_be_bytes).
  rewrite !(be_val_bytes_uint 32) by done. lia.
Qed.

Lemma path_well_keyed k v : well_keyed 64 (path_of k, v).
Proof.
  split; [|apply unpack_are_nibbles]. change (length (path_of k) = 64%nat). by rewrite length_unpack, length_be_bytes.
Qed.

Lemma paths_sorted {V} (leaf : Z * V -> Bytes) (l : list (Z * V)) : StronglySorted Kv.key_lt l ->
  (forall e, e ∈ l -> word e.1) -> StronglySorted TrieSpec.key_lt ((fun e => (path_of e.1, leaf e)) <$> l).
Proof.
  induction 1 as [|e l Hs IH Hlt]; intros Hw; [constructor|]. rewrite fmap_cons. constructor.
  - apply IH. intros f Hf. apply Hw. by right.
  - apply Forall_fmap, Forall_forall. intros f Hf. rewrite Forall_forall in Hlt. specialize (Hlt f Hf).
    apply path_lt; [apply Hw; by left|apply Hw; by right|exact Hlt].
Qed.

(** ** Lengths *)

(** What a list holds is not longer than its encoding. *)
Definition payload_length (i : RlpItem) : nat :=
  match i with RlpData d => length d | RlpRaw d => length d | RlpH256 _ => 32 | _ => 0 end.

Class RlpHolds `{RlpStream} : Prop := {
  list_holds items i : i ∈ items -> (payload_length i <= length (rlp_out (RlpListOf items)))%nat;
}.

Lemma mapM_elem {A B} (f : A -> option B) l l' x : mapM f l = Some l' -> x ∈ l -> exists y, f x = Some y /\ y ∈ l'.
Proof.
  intros Hm Hx. apply mapM_Some_1 in Hm. induction Hm as [|a b l l' Hab _ IH]; [by apply elem_of_nil in Hx|].
  apply elem_of_cons in Hx as [->|Hx]; [exists b; split; [done|by left]|]. destruct (IH Hx) as (y & ? & ?).
  exists y. split; [done|by right].
Qed.

Lemma Forall_sublist {A} (Q : A -> Prop) l g : g `sublist_of` l -> Forall Q l -> Forall Q g.
Proof. intros Hg. rewrite !Forall_forall. intros HQ x Hx. apply HQ. by eapply sublist_subseteq. Qed.

Lemma sorted_sublist {A} (R : A -> A -> Prop) l g : g `sublist_of` l -> StronglySorted R l -> StronglySorted R g.
Proof.
  induction 1 as [|x g l Hg IH|x g l Hg IH]; intros Hs; [constructor|..]; apply StronglySorted_inv in Hs as [Hs Hx].
  - constructor; [by apply IH|]. by eapply Forall_sublist.
  - by apply IH.
Qed.

Section lengths.
Context {KK : Keccak} {RS : RlpStream} {RH : RlpHolds}.

Lemma node_ref_min rlp : (Trie.KECCAK_LENGTH <= length rlp)%nat -> (Trie.KECCAK_LENGTH <= length (hash_builder.node_ref rlp))%nat.
Proof. intros Hl. rewrite node_ref_long by done. unfold Trie.KECCAK_LENGTH. lia. Qed.

(** Nodes over leaves with long values are long. *)
Lemma mpt_long n fuel x g rlp : Forall (well_keyed n) g -> Sorted TrieSpec.key_lt g ->
  Forall (fun e => (Trie.KECCAK_LENGTH <= length e.2)%nat) g -> mpt fuel x g = Some rlp -> (Trie.KECCAK_LENGTH <= length rlp)%nat.
Proof.
  revert x g rlp. induction fuel as [|fuel IH]; intros x g rlp Hk Hs Hv; [done|]. cbn [mpt].
  destruct g as [|[k v] [|[k' v'] g]]; [done| |].
  - unfold hash_builder.leaf_node_rlp. destruct (encode_path _ _) as [p|]; [|done]. intros [= <-].
    apply Forall_cons in Hv as [Hv _]. etrans; [exact Hv|]. apply (list_holds _ (RlpData v)). right. by left.
  - set (l := (k, v) :: (k', v') :: g) in *. set (c := parting l).
    destruct (mapM _ _) as [items|] eqn:Em; [|done]. cbn [mbind option_bind].
    assert (Trie.KECCAK_LENGTH <= length (rlp_out (RlpListOf (items ++ [RlpEmpty]))))%nat as Hbranch.
    { assert (exists d : Z, k !! c = Some d) as [d Hd].
      { destruct (last l) as [[k1 v1]|] eqn:El; [|by apply last_None in El].
        assert ((k1, v1) ∈ (k', v') :: g) as Hin.
        { unfold l in El. rewrite last_cons_cons in El. by apply last_Some_elem_of. }
        apply Sorted_StronglySorted in Hs; [|intros a b e; apply vec_lt_trans].
        apply StronglySorted_inv in Hs as [_ Hlt]. rewrite Forall_forall in Hlt. specialize (Hlt _ Hin).
        rewrite Forall_forall in Hk. destruct (Hk (k, v) ltac:(by left)) as [Hl0 _], (Hk (k1, v1) ltac:(by right)) as [Hl1 _].
        destruct (vec_lt_parting k k1) as (u & w & Hu & _); [cbn in *; congruence|exact Hlt|].
        exists u. unfold c, parting, l in *. by rewrite El. }
      assert (0 <= d < 16) as Hd16.
      { apply Forall_cons in Hk as [[_ Hk] _]. unfold nibbles in Hk. rewrite Forall_lookup in Hk. eauto. }
      destruct (mapM_elem _ _ _ (Z.to_nat d) Em) as (item & Hitem & Hin); [apply elem_of_seq; lia|].
      rewrite Z2Nat.id in Hitem by lia. destruct (below c d l) as [|e gs] eqn:Eb.
      { exfalso. apply (elem_of_nil (k, v)). rewrite <- Eb. apply list_elem_of_filter. split; [done|by left]. }
      rewrite <- Eb in Hitem. destruct (mpt fuel (S c) (below c d l)) as [child|] eqn:Ec; [|done].
      injection Hitem as <-. apply IH in Ec.
      - etrans; [apply (node_ref_min child Ec)|]. etrans; [|apply (list_holds _ (RlpRaw (hash_builder.node_ref child)))].
        + done.
        + apply elem_of_app. by left.
      - by eapply Forall_sublist; [apply sublist_filter|].
      - eapply StronglySorted_Sorted, sorted_sublist; [apply sublist_filter|].
        apply Sorted_StronglySorted; [|done]. intros a b e'. apply vec_lt_trans.
      - by eapply Forall_sublist; [apply sublist_filter|]. }
    destruct (x =? c)%nat; [by intros [= <-]|]. unfold hash_builder.extension_node_rlp.
    destruct (encode_path _ _) as [p|]; [|done]. intros [= <-]. etrans; [by apply node_ref_min|].
    apply (list_holds _ (RlpRaw _)). right. by left.
Qed.

Lemma values_wide n l : Forall (well_keyed n) l -> StronglySorted TrieSpec.key_lt l ->
  Forall (fun e => (Trie.KECCAK_LENGTH <= length e.2)%nat) l -> wide l.
Proof.
  intros Hk Hs Hv x g rlp fuel _ Hg Hm. apply (mpt_long n fuel x g); [..|done].
  - by eapply Forall_sublist.
  - by eapply StronglySorted_Sorted, sorted_sublist.
  - by eapply Forall_sublist.
Qed.

End lengths.

(** ** The nodes that are collected *)

Section collecting.
Context {KK : Keccak} {RS : RlpStream}.
Context (n : nat).

Definition small_node (e : list Z * Node) : Prop := (length e.1 <= n)%nat /\ (length (hashes e.2) <= 16)%nat.

Definition small (h : HashBuilder) : Prop := Forall small_node (default [] (node_collector h)).

Lemma count_ones_le m : (count_ones m <= 16)%nat.
Proof. unfold count_ones. etrans; [apply length_filter|]. by rewrite length_seq. Qed.

Lemma push_value_collector h current k h' b : hash_builder.push_value h current k = Some (h', b) ->
  node_collector h' = node_collector h.
Proof.
  unfold hash_builder.push_value. intros. repeat (case_match || simplify_option_eq); done.
Qed.

Lemma extend_collector h current k len h' : hash_builder.extend h current k len = Some h' ->
  node_collector h' = node_collector h.
Proof.
  unfold hash_builder.extend. intros. repeat (case_match || simplify_option_eq); simpl; congruence.
Qed.

Lemma branch_ref_collector h state hash h' l : hash_builder.branch_ref h state hash = Some (h', l) ->
  node_collector h' = node_collector h.
Proof.
  unfold hash_builder.branch_ref. destruct (assert_subset _ _); [|done]. cbn [mbind option_bind].
  destruct (_ <? _)%nat; [done|]. destruct (hash_builder.branch_items _ _ _ _) as [[items ch]|]; [|done].
  by intros [= <- <-].
Qed.

Lemma Node_new_hashes s t m hs nd : Node_new s t m hs None = Some nd -> (length (hashes nd) <= 16)%nat.
Proof.
  unfold Node_new. intros. repeat (case_match || simplify_option_eq). cbn [hashes].
  match goal with H : (_ =? _)%nat = true |- _ => apply Nat.eqb_eq in H; rewrite <- H end. apply count_ones_le.
Qed.

Lemma close_branch_small h current len h' : (length current <= n)%nat -> small h ->
  hash_builder.close_branch h current len = Some h' -> small h'.
Proof.
  intros Hc Hs. unfold hash_builder.close_branch.
  destruct (groups h !! len); [|done]. destruct (hash_masks h !! len); [|done]. cbn [mbind option_bind].
  destruct (hash_builder.branch_ref h _ _) as [[h1 ch]|] eqn:Eb; [|done]. apply branch_ref_collector in Eb.
  cbn [mbind option_bind]. unfold small in *. destruct (node_collector h1) as [collected|] eqn:Ec;
    [|intros [= <-]; by rewrite Ec].
  destruct (if (0 <? len)%nat then _ else _) as [h2|] eqn:E2; [|done]. cbn [mbind option_bind].
  assert (node_collector h2 = Some collected) as Ec2 by (repeat (case_match || simplify_option_eq); done).
  clear E2.
  destruct (tree_masks h2 !! len); [|done]. destruct (hash_masks h2 !! len); [|done]. cbn [mbind option_bind].
  destruct (_ || _); [|intros [= <-]; rewrite Ec2; by rewrite <- Eb in Hs].
  destruct (if (0 <? len)%nat then _ else _) as [h3|] eqn:E3; [|done]. cbn [mbind option_bind].
  destruct (hash_builder.child_hash_values ch); [|done]. destruct (groups h3 !! len); [|done]. cbn [mbind option_bind].
  destruct (Node_new _ _ _ _ _) as [nd|] eqn:En; [|done]. intros [= <-]. cbn [node_collector hash_builder.with_collected default].
  apply Forall_app_2; [by rewrite <- Eb in Hs|]. constructor; [|constructor]. split.
  - cbn. rewrite length_take. lia.
  - apply Node_new_hashes in En. by destruct (len =? 0)%nat.
Qed.

Lemma struct_round_small h succ current be h' nx : (length current <= n)%nat -> small h ->
  hash_builder.struct_round h succ current be = Some (h', nx) ->
  small h' /\ forall c, nx = Some c -> (length c <= n)%nat.
Proof.
  intros Hc Hs. unfold hash_builder.struct_round. destruct (negb _); [done|].
  destruct (current !! _); [|done]. cbn [mbind option_bind]. destruct (bit16 _); [|done]. cbn [mbind option_bind].
  destruct (or_at _ _ _) as [g|]; [|done]. cbn [mbind option_bind].
  destruct (if (length (tree_masks h) <? _)%nat then _ else _) as [t m].
  set (h0 := hash_builder.with_masks h g t m). assert (small h0) as Hs0 by exact Hs.
  destruct (if be then Some (h0, true) else _) as [[h1 be1]|] eqn:E1; [|done]. cbn [mbind option_bind].
  assert (small h1) as Hs1.
  { destruct be; [by simplify_eq|]. apply push_value_collector in E1. unfold small. by rewrite E1. }
  destruct (if be1 && _ then _ else _) as [h2|] eqn:E2; [|done]. cbn [mbind option_bind].
  assert (small h2) as Hs2.
  { destruct (be1 && _); [|by simplify_eq]. apply extend_collector in E2. unfold small. by rewrite E2. }
  clear E1 E2. destruct (_ && _); [by intros [= <- <-]|].
  destruct (if _ || _ then hash_builder.close_branch _ _ _ else _) as [h3|] eqn:E3; [|done]. cbn [mbind option_bind].
  assert (small h3) as Hs3.
  { destruct (_ || _); [by eapply close_branch_small|by simplify_eq]. }
  clear E3. destruct (_ =? 0)%nat; [by intros [= <- <-]|]. intros [= <- <-]. split; [exact Hs3|].
  intros c [= <-]. rewrite length_take. lia.
Qed.

Lemma struct_loop_small fuel : forall h succ current be h', (length current <= n)%nat -> small h ->
  hash_builder.struct_loop fuel h succ current be = Some h' -> small h'.
Proof.
  induction fuel as [|fuel IH]; intros h succ current be h' Hc Hs; [done|]. cbn [hash_builder.struct_loop].
  destruct (hash_builder.struct_round h succ current be) as [[h1 nx]|] eqn:E; [|done]. cbn [mbind option_bind].
  destruct (struct_round_small _ _ _ _ _ _ Hc Hs E) as [Hs1 Hn]. destruct nx as [c|]; [|by intros [= <-]].
  apply IH; [by apply Hn|done].
Qed.

Lemma add_leaves_small l : Forall (fun e => length e.1 <= n)%nat l -> forall h h', (length (Trie.key h) <= n)%nat -> small h ->
  hash_builder.add_leaves h l = Some h' -> small h' /\ (length (Trie.key h') <= n)%nat.
Proof.
  induction 1 as [|[k v] l Hk _ IH]; intros h h' Hl Hs; cbn [hash_builder.add_leaves]; [by intros [= <-]|].
  unfold hash_builder.add_leaf. destruct (negb _); [done|].
  destruct (if (length (Trie.key h) =? 0)%nat then _ else _) as [h1|] eqn:E; [|done]. cbn [mbind option_bind].
  apply IH; [done|]. destruct (length (Trie.key h) =? 0)%nat; [by simplify_eq|]. by eapply struct_loop_small in E.
Qed.

Lemma root_hash_small h r h' : (length (Trie.key h) <= n)%nat -> small h -> hash_builder.root_hash h = Some (r, h') -> small h'.
Proof.
  intros Hl Hs. unfold hash_builder.root_hash, hash_builder.finalize.
  destruct (if (length (Trie.key h) =? 0)%nat then _ else _) as [h1|] eqn:E; [|done]. cbn [mbind option_bind].
  intros [= _ <-]. destruct (length (Trie.key h) =? 0)%nat; [by simplify_eq|].
  destruct (hash_builder.gen_struct_step h (Trie.key h) []) as [h2|] eqn:E2; [|done]. injection E as <-.
  by eapply struct_loop_small in E2.
Qed.

End collecting.

(** ** Cursors over tables without nodes *)

Section empty.
Context {P : Type} {PK : PathKv P}.

Definition start (t : P) (ch : PrefixSet) (pre : list Z) : Cursor P := {|
  node_table := t; changed := ch; InterHashes.prefix := pre;
  sub_nodes := [{| sub_key := []; sub_node := None; sub_nibble := -1 |}]; can_skip_state := false |}.

Definition at_end (t : P) (ch : PrefixSet) (pre : list Z) : Cursor P := {|
  node_table := t; changed := ch; InterHashes.prefix := pre; sub_nodes := []; can_skip_state := false |}.

Lemma seek_empty k (t : P) : paths t = ∅ -> path_seek k t = None.
Proof.
  intros Ht. pose proof (path_seek_paths k t) as Hs. destruct (path_seek k t) as [[k' v]|]; [|done].
  destruct Hs as [Hk _]. by rewrite Ht, lookup_empty in Hk.
Qed.

Lemma cursor_new_empty t ch pre : paths t = ∅ -> cursor.new t ch pre = Done (start t ch pre).
Proof.
  intros Ht. unfold cursor.new, cursor.consume_node. rewrite path_get_paths. cbn [node_table]. rewrite Ht, lookup_empty.
  cbn. by destruct (prefix_set.contains ch (pre ++ [])).
Qed.

Lemma cursor_next_empty t ch pre : paths t = ∅ -> cursor.next (start t ch pre) = Done (at_end t ch pre).
Proof.
  intros Ht. unfold cursor.next, cursor.move_to_next_sibling. cbn. unfold cursor.consume_node. cbn [node_table cursor.with_nodes].
  by rewrite seek_empty.
Qed.

End empty.

(** ** The reference *)

Section reference.
Context {KC : Keccak} {RS : RlpStream}.

Definition slot_leaf (s : Z * Z) : list Z * Bytes := (path_of s.1, rlp_out (RlpU256 s.2)).

(** The slots of an account in a table with hashed addresses and locations, in order. *)
Definition slots_under (slots : gmap Z Z) (hashed_address : Z) : list (Z * Z) :=
  (fun e => (e.1 mod 2 ^ 256, e.2)) <$> in_order (filter (fun e => e.1 / 2 ^ 256 = hashed_address) slots).

Definition storage_leaves_of (slots : gmap Z Z) (hashed_address : Z) : list (list Z * Bytes) :=
  slot_leaf <$> slots_under slots hashed_address.

Definition storage_root_of (slots : gmap Z Z) (hashed_address : Z) : option Z :=
  mpt_root 64 (storage_leaves_of slots hashed_address).

Definition account_leaf (slots : gmap Z Z) (e : Z * Account) : option (list Z * Bytes) :=
  r ← storage_root_of slots e.1; Some (path_of e.1, rlp_out (account_item e.2 r)).

(** The state root: the trie of accounts, each with the root of the trie of its slots. *)
Definition state_root_of (accounts : gmap Z Account) (slots : gmap Z Z) : option Z :=
  leaves ← mapM (account_leaf slots) (in_order accounts); mpt_root 64 leaves.

End reference.

(** The keys of hashed tables are hashes. *)
Record hashed_keys {T} `{Kv T} (t : HashTables T) : Prop := {
  hk_account k a : content (hashed_account t) !! k = Some a -> word k;
  hk_storage k v : content (hashed_storage t) !! k = Some v -> 0 <= k;
}.

(** ** The loader over tables without nodes *)

Lemma key_sorted_NoDup {V} (l : list (Z * V)) : StronglySorted Kv.key_lt l -> NoDup l.
Proof.
  induction 1 as [|e l Hs IH Hlt]; constructor; [|done]. intros He. rewrite Forall_forall in Hlt.
  specialize (Hlt e He). unfold Kv.key_lt in Hlt. lia.
Qed.

Section regenerate.
Context {T : Type -> Type} {KV : Kv T} {P : Type} {PK : PathKv P} {KC : Keccak} {RS : RlpStream}.

Lemma storage_leaves_add (c : Cursor P) l b : sub_nodes c = [] ->
  loader.storage_leaves c l b = o_unwrap (hash_builder.add_leaves b (slot_leaf <$> l)).
Proof.
  intros Hc. revert b. induction l as [|[k v] l IH]; intros b; [done|]. cbn [loader.storage_leaves].
  assert (loader.beyond c (path_of k) = false) as -> by (unfold loader.beyond, cursor.key; by rewrite Hc).
  rewrite fmap_cons. cbn [slot_leaf hash_builder.add_leaves fst snd].
  destruct (hash_builder.add_leaf b (path_of k) _) as [b'|]; [|done]. cbn [o_unwrap mbind outcome_bind option_bind]. apply IH.
Qed.

Lemma take_slots_above a k v (w : list (Z * Z)) : Forall (Kv.key_lt (k, v)) w -> k / 2 ^ 256 = a ->
  Forall (Kv.key_lt (k mod 2 ^ 256, v)) (buffer.take_slots a w).
Proof.
  intros Hlt E. induction w as [|[k' v'] w IHw]; [constructor|]. apply Forall_cons in Hlt as [Hk Hlt].
  cbn [buffer.take_slots]. destruct (Z.eqb_spec (k' / 2 ^ 256) a) as [E'|]; [|constructor].
  constructor; [|by apply IHw]. unfold Kv.key_lt in *. cbn in *.
  pose proof (Z.div_mod k (2 ^ 256) ltac:(lia)). pose proof (Z.div_mod k' (2 ^ 256) ltac:(lia)). lia.
Qed.

Lemma slots_from_spec (t : T Z) a : (forall k v, content t !! k = Some v -> 0 <= k) ->
  loader.slots_from t a 0 = slots_under (content t) a.
Proof.
  intros Hk. unfold loader.slots_from. destruct (walk_spec (storage_key a 0) t) as [Hs Hel].
  set (w := walk _ t) in *.
  assert (forall e, e ∈ w -> a * 2 ^ 256 <= e.1) as Hge.
  { intros [k v] [_ He]%Hel. unfold storage_key in He. cbn. lia. }
  assert (StronglySorted Kv.key_lt (buffer.take_slots a w)) as Hs1.
  { clear -Hs. induction Hs as [|[k v] w Hs IH Hlt]; [constructor|]. cbn [buffer.take_slots].
    destruct (Z.eqb_spec (k / 2 ^ 256) a) as [E|]; [|constructor]. constructor; [done|]. by apply take_slots_above. }
  assert (StronglySorted Kv.key_lt (slots_under (content t) a)) as Hs2.
  { unfold slots_under. pose proof (in_order_sorted (filter (fun e => e.1 / 2 ^ 256 = a) (content t))) as Hso.
    assert (Forall (fun e => e.1 / 2 ^ 256 = a) (in_order (filter (fun e => e.1 / 2 ^ 256 = a) (content t)))) as Hall.
    { apply Forall_forall. intros [k v] [_ He]%elem_of_in_order%map_lookup_filter_Some. done. }
    induction Hso as [|e l Hso IH Hlt]; [constructor|]. apply Forall_cons in Hall as [He Hall].
    rewrite fmap_cons. constructor; [by apply IH|]. apply Forall_fmap, Forall_forall. intros f Hf.
    rewrite Forall_forall in Hlt, Hall. specialize (Hlt f Hf). specialize (Hall f Hf). unfold Kv.key_lt in *. cbn in *.
    pose proof (Z.div_mod e.1 (2 ^ 256) ltac:(lia)). pose proof (Z.div_mod f.1 (2 ^ 256) ltac:(lia)). lia. }
  apply strictly_sorted_unique; [done|done|]. apply NoDup_Permutation.
  { by apply key_sorted_NoDup. }
  { by apply key_sorted_NoDup. }
  intros [l v]. rewrite take_slots_spec, Hel by done. unfold slots_under. rewrite list_elem_of_fmap. split.
  - intros (Hw & Hc & _). exists (storage_key a l, v). destruct (storage_key_parts a l Hw) as [H1 H2].
    split; [cbn; by rewrite H2|]. apply elem_of_in_order, map_lookup_filter_Some. split; [done|]. exact H1.
  - intros ([k v'] & [= -> ->] & [Hc Hd]%elem_of_in_order%map_lookup_filter_Some). cbn in Hd.
    split; [apply slot_mod_word|]. assert (storage_key a (k mod 2 ^ 256) = k) as ->.
    { unfold storage_key. subst a. pose proof (Z.div_mod k (2 ^ 256) ltac:(lia)). lia. }
    split; [done|]. unfold storage_key. subst a. pose proof (Z.div_mod k (2 ^ 256) ltac:(lia)).
    pose proof (Z.mod_pos_bound k (2 ^ 256) ltac:(lia)). lia.
Qed.

Lemma key_start (t : P) ch pre : cursor.key (start t ch pre) = Some [].
Proof. done. Qed.

Lemma uncovered_start (t : P) ch pre : cursor.first_uncovered_prefix (start t ch pre) = Done (Some []).
Proof. done. Qed.

Lemma resize32_nil : be_val (resize32 []) = 0.
Proof. by vm_compute. Qed.

(** What is collected for a table of nodes. *)
Definition storable (e : list Z * Node) : Prop := e.1 <> [] /\ small_node 96 e.

Lemma length_vals b : length (vals_of b) = length b.
Proof. apply length_fmap. Qed.

Lemma storage_leaves_keyed (slots : gmap Z Z) a : Forall (well_keyed 64) (storage_leaves_of slots a).
Proof. apply Forall_fmap, Forall_forall. intros e _. apply path_well_keyed. Qed.

Lemma slots_under_word (slots : gmap Z Z) a e : e ∈ slots_under slots a -> word e.1.
Proof. intros (f & -> & _)%list_elem_of_fmap. apply slot_mod_word. Qed.

Lemma slots_under_sorted (t : T Z) a : (forall k v, content t !! k = Some v -> 0 <= k) ->
  StronglySorted Kv.key_lt (slots_under (content t) a).
Proof.
  intros Hk. rewrite <- slots_from_spec by done. unfold loader.slots_from.
  destruct (walk_spec (storage_key a 0) t) as [Hs _]. revert Hs. generalize (walk (storage_key a 0) t). clear.
  intros w Hs. induction Hs as [|[k v] w Hs IH Hlt]; [constructor|]. cbn [buffer.take_slots].
  destruct (Z.eqb_spec (k / 2 ^ 256) a) as [E|]; [|constructor]. constructor; [done|]. by apply take_slots_above.
Qed.

Lemma collected_small n b r b' l : Forall (fun e => length e.1 <= n)%nat l ->
  hash_builder.add_leaves (hash_builder.new true) l = Some b -> hash_builder.root_hash b = Some (r, b') ->
  Forall (small_node n) (default [] (node_collector b')).
Proof.
  intros Hl Hb Hr. destruct (add_leaves_small n l Hl (hash_builder.new true) b) as [Hs Hk]; [cbn; lia|constructor|done|].
  by eapply root_hash_small in Hr.
Qed.

Lemma keyed_lengths n l : Forall (well_keyed n) l -> Forall (fun e => length e.1 <= n)%nat l.
Proof. intros Hl. eapply Forall_impl; [exact Hl|]. intros e [-> _]. done. Qed.

Lemma cursor_fuel_two (t : P) : exists f, cursor_fuel t = S (S f).
Proof.
  unfold cursor_fuel. set (n := (17 * (size (paths t) + 2))%nat). assert (2 <= n * n)%nat as Hn.
  { assert (2 <= n)%nat by (unfold n; lia). nia. }
  destruct (n * n)%nat as [|[|f]]; [lia|lia|]. by exists f.
Qed.

Lemma calculate_storage_root_spec (t : T Z) a ch (l : loader.Loader) :
  paths (loader.storage_trie l) = ∅ -> (forall k v, content t !! k = Some v -> 0 <= k) ->
  wide (storage_leaves_of (content t) a) ->
  exists r nodes, loader.calculate_storage_root t a ch l =
      Done (r, {| loader.hb := loader.hb l; loader.storage_trie := loader.storage_trie l;
                  loader.storage_nodes := loader.storage_nodes l ++ nodes |}) /\
    storage_root_of (content t) a = Some r /\ Forall storable nodes.
Proof.
  intros Ht Hk Hw. pose proof (storage_leaves_keyed (content t) a) as Hkeyed.
  destruct (builder_root 64 true (storage_leaves_of (content t) a)) as (b & b' & r & Hb & Hr & Hm);
    [lia|done| |done|].
  { apply StronglySorted_Sorted, (paths_sorted (fun e => rlp_out (RlpU256 e.2))); [by apply slots_under_sorted|].
    apply slots_under_word. }
  unfold loader.calculate_storage_root. rewrite cursor_new_empty by done. cbn [mbind outcome_bind].
  destruct (cursor_fuel_two (loader.storage_trie l)) as [f ->]. cbn [loader.storage_loop].
  rewrite key_start, uncovered_start, cursor_next_empty by done. cbn [loader.skip_state can_skip_state start mbind outcome_bind].
  rewrite storage_leaves_add, resize32_nil, slots_from_spec by done.
  fold (storage_leaves_of (content t) a). rewrite Hb. cbn [o_unwrap mbind outcome_bind].
  cbn [cursor.key at_end sub_nodes last fmap option_fmap option_map mbind outcome_bind]. rewrite Hr. cbn [o_unwrap mbind outcome_bind].
  eexists r, _. split; [done|]. split; [done|]. apply Forall_fmap.
  pose proof (collected_small 64 b r b' _ (keyed_lengths _ _ Hkeyed) Hb Hr) as Hs.
  eapply Forall_impl; [exact Hs|]. intros [p nd] [Hl Hn]. unfold storable, small_node in *. cbn [fst snd] in *.
  assert (length (vals_of (be_bytes 32 a)) = 32%nat) as E by (rewrite length_vals; apply length_be_bytes).
  change (storable (vals_of (be_bytes 32 a) ++ p, nd)). split; [|split]; cbn [fst snd]; [|rewrite length_app; lia|done].
  intros [Hnil _]%app_nil. by rewrite Hnil in E.
Qed.

Lemma account_leaves_spec (t : T Z) ch (c : Cursor P) accounts (l : loader.Loader) : sub_nodes c = [] ->
  paths (loader.storage_trie l) = ∅ -> (forall k v, content t !! k = Some v -> 0 <= k) ->
  Forall (fun e => wide (storage_leaves_of (content t) e.1)) accounts ->
  exists leaves nodes, mapM (account_leaf (content t)) accounts = Some leaves /\ Forall storable nodes /\
    loader.account_leaves t ch c accounts l =
      (b ← o_unwrap (hash_builder.add_leaves (loader.hb l) leaves);
       Done {| loader.hb := b; loader.storage_trie := loader.storage_trie l;
               loader.storage_nodes := loader.storage_nodes l ++ nodes |}).
Proof.
  intros Hc Ht Hk Hw. revert l Ht. induction Hw as [|[a acc] accounts Ha _ IH]; intros l Ht.
  - exists [], []. split; [done|]. split; [constructor|]. cbn. rewrite app_nil_r. by destruct l.
  - destruct (calculate_storage_root_spec t a ch l Ht Hk Ha) as (r & nodes & Hr & Hroot & Hn).
    assert (account_leaf (content t) (a, acc) = Some (path_of a, rlp_out (account_item acc r))) as Eleaf.
    { unfold account_leaf. cbn [fst snd]. by rewrite Hroot. }
    cbn [mapM loader.account_leaves]. rewrite Eleaf. cbn [mbind option_bind].
    assert (loader.beyond c (path_of a) = false) as -> by (unfold loader.beyond, cursor.key; by rewrite Hc).
    rewrite Hr. cbn [mbind outcome_bind loader.hb loader.storage_trie loader.storage_nodes].
    destruct (hash_builder.add_leaf (loader.hb l) (path_of a) _) as [b|] eqn:Eb.
    + destruct (IH {| loader.hb := b; loader.storage_trie := loader.storage_trie l;
        loader.storage_nodes := loader.storage_nodes l ++ nodes |} Ht) as (leaves & nodes' & Hm & Hn' & Hl).
      rewrite Hm. cbn [mbind option_bind o_unwrap outcome_bind]. eexists _, (nodes ++ nodes'). split; [done|].
      split; [by apply Forall_app_2|]. rewrite Hl. cbn [hash_builder.add_leaves loader.hb loader.storage_trie loader.storage_nodes].
      rewrite Eb. cbn [mbind option_bind]. by rewrite app_assoc.
    + destruct (IH {| loader.hb := loader.hb l; loader.storage_trie := loader.storage_trie l;
        loader.storage_nodes := loader.storage_nodes l |} Ht) as (leaves & _ & Hm & _ & _).
      rewrite Hm. cbn [mbind option_bind o_unwrap outcome_bind]. eexists _, []. split; [done|]. split; [constructor|].
      cbn [hash_builder.add_leaves]. by rewrite Eb.
Qed.

Lemma walk_in_order {V} (t : T V) : (forall k v, content t !! k = Some v -> 0 <= k) -> walk 0 t = in_order (content t).
Proof.
  intros Hk. destruct (walk_spec 0 t) as [Hs Hel]. apply strictly_sorted_unique; [done|apply in_order_sorted|].
  apply NoDup_Permutation; [by apply key_sorted_NoDup|apply key_sorted_NoDup, in_order_sorted|].
  intros [k v]. rewrite Hel, elem_of_in_order. split; [by intros [? _]|]. eauto.
Qed.

Lemma mapM_leaf_keys slots accounts leaves : mapM (account_leaf slots) accounts = Some leaves ->
  exists f, leaves = (fun e => (path_of e.1, rlp_out (account_item e.2 (f e.1)))) <$> accounts.
Proof.
  intros Hm. exists (fun a => default 0 (storage_root_of slots a)). revert leaves Hm.
  induction accounts as [|[a acc] accounts IH]; intros leaves; cbn [mapM]; [by intros [= <-]|].
  destruct (account_leaf slots (a, acc)) as [x|] eqn:Ex; [|done]. cbn [mbind option_bind].
  destruct (mapM _ accounts) as [ls|]; [|done]. intros [= <-]. rewrite fmap_cons. cbn [fst snd].
  unfold account_leaf in Ex. cbn [fst snd] in Ex. destruct (storage_root_of slots a); [|done]. injection Ex as <-.
  by rewrite <- (IH ls eq_refl).
Qed.

Lemma load_nodes_total nodes (t : P) : Forall storable nodes -> exists t', loader.load_nodes nodes t = Done t'.
Proof.
  intros Hn. unfold loader.load_nodes, hash_state.collected. cbn [o_unwrap mbind outcome_bind].
  destruct (iter_sorts stages.OPTIMAL_BUFFER_CAPACITY (loader.node_entry <$> nodes)) as (c & Hc & Hit & _).
  { unfold stages.OPTIMAL_BUFFER_CAPACITY. lia. }
  { apply Forall_fmap. eapply Forall_impl; [exact Hn|]. intros [p nd] (Hne & Hl & Hh). change (fits stages.OPTIMAL_BUFFER_CAPACITY (loader.node_entry (p, nd))).
    unfold fits, loader.node_entry, blen. cbn [Etl.key Etl.value fst snd] in *. unfold bytes_of. rewrite length_fmap. split; [destruct p; [done|]; cbn; lia|].
    unfold marshal_node. rewrite !length_app, !length_be_bytes, length_hashes. unfold Trie.KECCAK_LENGTH, stages.OPTIMAL_BUFFER_CAPACITY.
    assert (length (match node_root_hash nd with Some h => be_bytes 32 h | None => [] end) <= 32)%nat.
    { destruct (node_root_hash nd); [by rewrite length_be_bytes|cbn; lia]. }
    lia. }
  rewrite Hc. cbn [o_unwrap mbind outcome_bind]. rewrite Hit. cbn [completed mbind outcome_bind]. eauto.
Qed.

Section root.
Context {RH : RlpHolds}.

Lemma calculate_root_spec (t : TrieTables T P) ch : paths (trie_account t) = ∅ -> paths (trie_storage t) = ∅ ->
  hashed_keys (hash_tables t) ->
  (forall a acc, content (hashed_account (hash_tables t)) !! a = Some acc ->
     wide (storage_leaves_of (content (hashed_storage (hash_tables t))) a)) ->
  exists c, loader.calculate_root t ch = Done c /\
    state_root_of (content (hashed_account (hash_tables t))) (content (hashed_storage (hash_tables t))) = Some (loader.calc_root c) /\
    Forall storable (loader.account_nodes c) /\ Forall storable (loader.slot_nodes c).
Proof.
  intros Ha Hs Hk Hw. set (ht := hash_tables t) in *. set (accounts := in_order (content (hashed_account ht))).
  destruct (account_leaves_spec (hashed_storage ht) ch (at_end (trie_account t) ch []) accounts
    {| loader.hb := hash_builder.new true; loader.storage_trie := trie_storage t; loader.storage_nodes := [] |})
    as (leaves & nodes & Hm & Hn & Hl); [done|done|apply Hk| |].
  { apply Forall_forall. intros [a acc] He%elem_of_in_order. by eapply Hw. }
  destruct (mapM_leaf_keys _ _ _ Hm) as [f Hf].
  assert (StronglySorted TrieSpec.key_lt leaves) as Hsorted.
  { rewrite Hf. apply (paths_sorted (fun e => rlp_out (account_item e.2 (f e.1)))); [apply in_order_sorted|].
    intros [a acc] He%elem_of_in_order. by eapply (hk_account _ Hk). }
  assert (Forall (well_keyed 64) leaves) as Hkeyed.
  { rewrite Hf. apply Forall_forall. intros x (e & -> & _)%list_elem_of_fmap. apply path_well_keyed. }
  assert (wide leaves) as Hwide.
  { apply (values_wide 64); [done|done|]. rewrite Hf. apply Forall_forall.
    intros x ([a acc] & -> & _)%list_elem_of_fmap. apply (list_holds _ (RlpH256 (code_hash acc))).
    do 3 apply list_elem_of_further. apply list_elem_of_here. }
  destruct (builder_root 64 true leaves) as (b & b' & r & Hb & Hr & Hroot); [lia|done|by apply StronglySorted_Sorted|done|].
  unfold loader.calculate_root. fold ht. rewrite cursor_new_empty by done. cbn [mbind outcome_bind].
  destruct (cursor_fuel_two (trie_account t)) as [g ->]. cbn [loader.account_loop].
  rewrite key_start, uncovered_start, cursor_next_empty by done.
  cbn [loader.skip_state can_skip_state start mbind outcome_bind loader.hb loader.storage_trie loader.storage_nodes changed at_end].
  rewrite resize32_nil, walk_in_order by (intros k v Hkv; pose proof (hk_account _ Hk k v Hkv); unfold uint in *; lia).
  fold accounts. rewrite Hl. cbn [loader.hb loader.storage_trie loader.storage_nodes]. rewrite Hb.
  cbn [o_unwrap mbind outcome_bind cursor.key at_end sub_nodes last fmap option_fmap option_map loader.hb]. rewrite Hr.
  cbn [o_unwrap mbind outcome_bind]. eexists. split; [done|]. cbn [loader.calc_root loader.account_nodes loader.slot_nodes loader.storage_nodes].
  split_and!; [|..|done].
  - unfold state_root_of. fold accounts. rewrite Hm. done.
  - pose proof (collected_small 64 b r b' _ (keyed_lengths _ _ Hkeyed) Hb Hr) as Hsmall.
    apply Forall_forall. intros e [Hne He]%list_elem_of_filter. rewrite Forall_forall in Hsmall.
    destruct (Hsmall e He). split; [done|]. split; [lia|done].
Qed.

(** From tables without nodes, whatever the changes: the root is that of the state, and an
    expected root is accepted exactly when it is this one. *)
Lemma from_scratch (t : TrieTables T P) ch : paths (trie_account t) = ∅ -> paths (trie_storage t) = ∅ ->
  hashed_keys (hash_tables t) ->
  (forall a acc, content (hashed_account (hash_tables t)) !! a = Some acc ->
     wide (storage_leaves_of (content (hashed_storage (hash_tables t))) a)) ->
  exists root t', state_root_of (content (hashed_account (hash_tables t))) (content (hashed_storage (hash_tables t))) = Some root /\
    hash_tables t' = hash_tables t /\
    forall expected, loader.do_increment_intermediate_hashes t expected ch =
      if default root expected =? root then Done (root, t') else Error.
Proof.
  intros Ha Hs Hk Hw. destruct (calculate_root_spec t ch Ha Hs Hk Hw) as (c & Hc & Hroot & Hna & Hns).
  destruct (load_nodes_total (loader.account_nodes c) (loader.calc_account c) Hna) as [ta Hta].
  destruct (load_nodes_total (loader.slot_nodes c) (loader.calc_storage c) Hns) as [ts Hts].
  exists (loader.calc_root c), {| hash_tables := hash_tables t; trie_account := ta; trie_storage := ts |}.
  split; [done|]. split; [done|]. intros expected. unfold loader.do_increment_intermediate_hashes. rewrite Hc.
  cbn [mbind outcome_bind]. destruct expected as [e|]; cbn [default from_option id].
  - destruct (e =? loader.calc_root c); cbn [negb]; [|done]. cbn [mbind outcome_bind]. by rewrite Hta, Hts.
  - rewrite Z.eqb_refl. cbn [mbind outcome_bind]. by rewrite Hta, Hts.
Qed.

End root.

End regenerate.

Section theorems.
Context {T : Type -> Type} {KV : Kv T} {P : Type} {PK : PathKv P} {KC : Keccak} {RS : RlpStream} {RH : RlpHolds} {W : Type}.

(** C22: the stage of intermediate hashes accepts a block exactly when the state root in its
    header is the root of the Merkle Patricia trie of the hashed accounts, each with the
    root of the trie of its hashed storage.  This is for the runs that go through the whole
    state: the first one, the one after an unwind, and those that are far behind.  Nodes of
    two slots or more must not be shorter than a hash, which only slots whose hashes agree
    in almost all nibbles could make. *)
Theorem state_root_checked threshold p n expected input (db : Db (TrieTables T P)) (w : W) :
  let ht := hash_tables (tables db) in let past := default 0 (stage_progress input) in
  previous_stage input = Some (p, n) -> past < n -> loader.block_state_root (hs_indices ht) n = Done expected ->
  stages.should_do_clean_promotion (hs_indices ht) 0 past n threshold = Done true -> hashed_keys ht ->
  (forall a acc, content (hashed_account ht) !! a = Some acc -> wide (storage_leaves_of (content (hashed_storage ht)) a)) ->
  exists root db', state_root_of (content (hashed_account ht)) (content (hashed_storage ht)) = Some root /\
    hash_tables (tables db') = ht /\
    stage_execute (loader.Interhashes threshold) input db w =
      if expected =? root then Done (Progress n true, db', w) else Error.
Proof.
  intros ht past Hp Hlt He Hclean Hk Hw.
  destruct (from_scratch (loader.cleared (tables db)) prefix_set.new) as (root & t' & Hroot & Ht' & Hinc);
    [apply path_clear_paths|apply path_clear_paths|done|done|].
  exists root, (Build_Db (sync_stage db) t'). split; [done|]. split; [done|].
  unfold loader.Interhashes, stage_execute, loader.interhashes_execute. rewrite Hp. cbn [fmap option_fmap option_map snd o_ok_or mbind outcome_bind].
  fold past. rewrite (proj2 (Z.ltb_lt _ _) Hlt). fold ht. rewrite He. cbn [mbind outcome_bind]. rewrite Hclean.
  cbn [mbind outcome_bind]. unfold loader.regenerate_intermediate_hashes. rewrite Hinc. cbn [default from_option id].
  destruct (expected =? root); [|done]. cbn [mbind outcome_bind]. by rewrite Z.max_l by lia.
Qed.

End theorems.

(** ** An instance *)

Module path_table.

Definition better (k j : Bytes) (w : Bytes) (acc : option (Bytes * Bytes)) : option (Bytes * Bytes) :=
  if bytes_le k j then
    match acc with
    | Some (j', _) => if bytes_le j' j then acc else Some (j, w)
    | None => Some (j, w)
    end
  else acc.

Definition pick (k : Bytes) (m : gmap Bytes Bytes) : option (Bytes * Bytes) := map_fold (better k) None m.

Lemma pick_spec k m :
  match pick k m with
  | Some (k', v) => m !! k' = Some v /\ bytes_le k k' = true /\
                    forall j w, m !! j = Some w -> bytes_le k j = true -> bytes_le k' j = true
  | None => forall j w, m !! j = Some w -> bytes_le k j = false
  end.
Proof.
  unfold pick. apply (map_fold_weak_ind (fun acc m => match acc with
    | Some (k', v) => m !! k' = Some v /\ bytes_le k k' = true /\
                      forall j w, m !! j = Some w -> bytes_le k j = true -> bytes_le k' j = true
    | None => forall j w, m !! j = Some w -> bytes_le k j = false
    end)).
  { intros j w. by rewrite lookup_empty. }
  clear m. intros i x m acc Hi IH. unfold better. destruct (bytes_le k i) eqn:Ei.
  - destruct acc as [[k' v]|].
    + destruct IH as (Hk' & Hle & Hmin). destruct (bytes_le k' i) eqn:E.
      * split_and!; [rewrite lookup_insert_ne by congruence; done|done|].
        intros j w [[<- <-]|[_ Hj]]%lookup_insert_Some Hkj; [done|by eapply Hmin].
      * split_and!; [by rewrite lookup_insert_eq|done|].
        intros j w [[<- <-]|[_ Hj]]%lookup_insert_Some Hkj; [apply bytes_le_refl|].
        apply (bytes_le_trans _ k'); [by apply bytes_le_total|by eapply Hmin].
    + split_and!; [by rewrite lookup_insert_eq|done|].
      intros j w [[<- <-]|[_ Hj]]%lookup_insert_Some Hkj; [apply bytes_le_refl|]. by rewrite (IH j w Hj) in Hkj.
  - destruct acc as [[k' v]|].
    + destruct IH as (Hk' & Hle & Hmin). split_and!; [rewrite lookup_insert_ne by congruence; done|done|].
      intros j w [[<- <-]|[_ Hj]]%lookup_insert_Some Hkj; [congruence|by eapply Hmin].
    + intros j w [[<- <-]|[_ Hj]]%lookup_insert_Some; [done|by eapply IH].
Qed.

#[export] Program Instance path_kv : PathKv (gmap Bytes Bytes) := {|
  paths t := t; path_get k t := t !! k; path_seek := pick; path_put k v t := <[k := v]> t;
  path_delete k t := delete k t; path_clear t := ∅;
|}.
Next Obligation. done. Qed.
Next Obligation. apply pick_spec. Qed.
Next Obligation. done. Qed.
Next Obligation. done. Qed.
Next Obligation. done. Qed.

End path_table.
Import path_table.

(** ** Traversals *)

(** The keys at which a cursor stops. *)
Fixpoint stops (fuel : nat) (c : Cursor (gmap Bytes Bytes)) : list (list Z * bool) :=
  match fuel, cursor.key c with
  | S fuel, Some k =>
      (k, can_skip_state c) :: match cursor.next c with Done c => stops fuel c | _ => [] end
  | _, _ => []
  end.

Definition traversal (nodes : list (list Z * option Node)) (ch : PrefixSet) (pre : list Z) : list (list Z * bool) :=
  let t := list_to_map (omap (fun e => (fun n => (bytes_of e.1, marshal_node n)) <$> e.2) nodes) in
  match cursor.new t ch pre with Done c => stops 100 c | _ => [] end.

(** The traversals of the tests of the program. *)
Definition nodes_1 : list (list Z * option Node) :=
  [([1], Node_new 11 9 0 [] None); ([1; 0; 11], Node_new 10 0 0 [] None); ([1; 3], Node_new 14 0 0 [] None)].

Example cursor_traversal_1 : fst <$> traversal nodes_1 prefix_set.new [] =
  [[]; [1; 0]; [1; 0; 11; 1]; [1; 0; 11; 3]; [1; 1]; [1; 3]; [1; 3; 1]; [1; 3; 2]; [1; 3; 3]].
Proof. by vm_compute. Qed.

Definition nodes_2 : list (list Z * option Node) :=
  [([4], Node_new 20 0 4 [5] None); ([6], Node_new 18 0 2 [6] None)].

Example cursor_traversal_2 : fst <$> traversal nodes_2 prefix_set.new [] = [[]; [4; 2]; [4; 4]; [6; 1]; [6; 4]].
Proof. by vm_compute. Qed.

Definition nodes_3 : list (list Z * option Node) :=
  [([10; 10; 0; 2], Node_new 20 0 0 [] (Some 1)); ([11; 11; 0; 5], Node_new 20 4 0 [] (Some 2));
   ([11; 11; 0; 5; 2], Node_new 2 0 2 [3] None); ([12; 12; 0; 1], Node_new 30 0 0 [] (Some 4))].

Example cursor_traversal_within_prefix :
  traversal nodes_3 prefix_set.new [11; 11; 0; 5] = [([], true)] /\
  traversal nodes_3 (prefix_set.insert [11; 11; 0; 5; 13; 5] (prefix_set.insert [12; 12; 0; 1; 11; 8] prefix_set.new))
    [11; 11; 0; 5] = [([], false); ([2], false); ([2; 1], true); ([4], false)].
Proof. by vm_compute. Qed.

(** ** A state with one contract *)

Module sample_root.
#[local] Existing Instances samples.keccak samples.rlp map_table.map_kv.

Lemma with_length_holds o p : (length p <= length (samples.with_length o p))%nat.
Proof. unfold samples.with_length. destruct (_ <? 56); cbn [length]; rewrite ?length_app; lia. Qed.

Lemma data_holds d : (length d <= length (samples.data d))%nat.
Proof.
  unfold samples.data. destruct d as [|b [|c d]]; [apply with_length_holds| |apply with_length_holds].
  destruct (_ <? 128); [done|apply with_length_holds].
Qed.

#[export] Instance rlp_holds : RlpHolds.
Proof.
  split. intros items i Hi. cbn [rlp_out samples.rlp samples.rlp_item].
  etrans; [|apply with_length_holds]. assert (payload_length i <= length (samples.rlp_item i))%nat as Hpay.
  { destruct i; cbn [payload_length samples.rlp_item]; try lia; try apply data_holds. etrans; [|apply data_holds].
    by rewrite length_be_bytes. }
  etrans; [exact Hpay|]. clear Hpay. induction items as [|j items IH]; [by apply elem_of_nil in Hi|].
  cbn [map concat]. rewrite length_app. apply elem_of_cons in Hi as [->|Hi]; [lia|]. specialize (IH Hi). lia.
Qed.

Definition contract : Account := {| nonce := 1; balance := 7; code_hash := 5 |}.

Definition hashed : HashTables map_table.table := {|
  hs_indices := {| canonical_header := {[0 := 3; 1 := 4]}; header_number := ∅; header_table := ∅; block_body := ∅;
                   total_gas := {[0 := 0; 1 := 21000]}; total_tx := ∅ |};
  hs_state := {| account_table := ∅; storage_table := ∅; code_table := ∅; account_change_set := ∅;
                 storage_change_set := ∅; log_table := ∅; account_history := ∅; storage_history := ∅;
                 state_call_traces := ∅ |};
  hashed_account := {[17 := contract; 2 ^ 255 := {| nonce := 0; balance := 9; code_hash := 6 |}]};
  hashed_storage := {[storage_key 17 3 := 1]};
|}.

Definition root : Z := default 0 (state_root_of (hashed_account hashed) (hashed_storage hashed)).

Definition header : BlockHeader := {|
  header.parent_hash := 3; header.ommers_hash := 0; header.beneficiary := 0; header.state_root := root;
  header.transactions_root := 0; header.receipts_root := 0; header.logs_bloom := 0; header.difficulty := 0;
  header.number := 1; header.gas_limit := 30000000; header.gas_used := 21000; header.timestamp := 0;
  header.extra_data := []; header.mix_hash := 0; header.nonce := 0; header.base_fee_per_gas := None |}.

Definition with_header (h : HashTables map_table.table) : HashTables map_table.table := {|
  hs_indices := {| canonical_header := canonical_header (hs_indices h); header_number := ∅;
                   header_table := {[header_key 1 4 := header]}; block_body := ∅;
                   total_gas := total_gas (hs_indices h); total_tx := ∅ |};
  hs_state := hs_state h; hashed_account := hashed_account h; hashed_storage := hashed_storage h |}.

Definition db : Db (TrieTables map_table.table (gmap Bytes Bytes)) :=
  Build_Db ∅ {| hash_tables := with_header hashed; trie_account := ∅; trie_storage := ∅ |}.

Definition stage_input : StageInput :=
  {| restarted := false; first_started_at := (0, None); previous_stage := Some (HASH_STATE, 1); stage_progress := None |}.

Lemma one_slot a : wide (storage_leaves_of (hashed_storage hashed) a).
Proof.
  intros x g rlp fuel Hg Hs _. exfalso. apply sublist_length in Hs. unfold storage_leaves_of, slots_under in Hs.
  rewrite !length_fmap, (Permutation_length (in_order_perm _)), length_map_to_list in Hs.
  set (m := hashed_storage hashed : gmap Z Z) in *.
  pose proof (map_size_filter (fun e : Z * Z => e.1 / 2 ^ 256 = a) m) as Hf.
  assert (size m = 1%nat) as E by (apply map_size_singleton). lia.
Qed.

Lemma keys_ok : hashed_keys (with_header hashed).
Proof.
  split.
  - change (map_Forall (fun k _ => word k) (hashed_account hashed : gmap Z Account)).
    by apply map_Forall_insert_2; [|apply map_Forall_singleton].
  - change (map_Forall (fun k _ => 0 <= k) (hashed_storage hashed : gmap Z Z)).
    by apply map_Forall_singleton.
Qed.

End sample_root.

Lemma state_root_checked_witness : exists db',
  stage_execute (@loader.Interhashes _ map_table.map_kv _ path_kv samples.keccak samples.rlp unit 1000) sample_root.stage_input
    sample_root.db tt = Done (Progress 1 true, db', tt).
Proof.
  destruct (@state_root_checked _ map_table.map_kv _ path_kv samples.keccak samples.rlp sample_root.rlp_holds unit 1000 HASH_STATE 1
    sample_root.root sample_root.stage_input sample_root.db tt) as (root & db' & Hroot & _ & Hex).
  - reflexivity.
  - done.
  - by vm_compute.
  - by vm_compute.
  - exact sample_root.keys_ok.
  - intros a acc _. apply sample_root.one_slot.
  - exists db'. rewrite Hex. assert (root = sample_root.root) as ->; [|by rewrite Z.eqb_refl].
    unfold sample_root.root. cbn [hash_tables tables sample_root.db] in Hroot.
    change (@state_root_of samples.keccak samples.rlp (hashed_account sample_root.hashed) (hashed_storage sample_root.hashed) = Some root) in Hroot.
    by rewrite Hroot.
Defined.
