(* ===== verification/Atomic.v ===== *)
(** Frames of the virtual machine are frames of the block state.

    Whatever code a call or a creation runs, and however deep it nests, its
    effect on the block state is a sequence of operations and of reverted
    sub-sequences ([frame] of Journal.v), so that what the journal guarantees
    holds for the machine: a call that fails leaves no trace. *)
From S2P Require Import Prelude Word Properties EvmState Host Interpreter Transaction IntraBlockState Journal BlockState Consensus Precompiled PrecompiledSpec EvmGlue EvmGlueSpec MemState Frames Samples.
From Stdlib Require Import ZArith Lia Strings.Byte.
From stdpp Require Import base list option numbers gmap.
#[local] Open Scope Z_scope.
Import ibs.

(** ** Frames of the block state *)

Section states.
Context {DB : Type} {ST : State DB} {KK : Keccak}.

Abbreviation IBS := (IntraBlockState DB).
Implicit Types (s : IBS) (a : Address).

Lemma frame_trans s1 s2 s3 : frame s1 s2 -> frame s2 s3 -> frame s1 s3.
Proof.
  intros Hf1 Hf2. revert Hf1.
  induction Hf2 as [s|s s4 s5 op _ IH Ha Hop|s s4 s5 s6 _ IH Hf _ Hrev]; intros Hf1; [done|..].
  - exact (frame_op _ _ _ op (IH Hf1) Ha Hop).
  - exact (frame_reverted _ _ _ _ (IH Hf1) Hf Hrev).
Qed.

Lemma frame_wf s s' : frame s s' -> wf s -> wf s'.
Proof. intros Hf Hw. destruct (frame_undoable s s' Hf Hw) as [ds U]. apply U. Qed.

(** The account of [a] exists. *)
Definition alive s a : Prop := is_Some (account_of s a).

(** Accounts are not removed. *)
Definition outlives s s' : Prop := forall a, alive s a -> alive s' a.

Lemma outlives_restored s s' : restored s s' -> outlives s s'.
Proof. intros Hr a. unfold alive, account_of. by rewrite (effective_restored s s'). Qed.

Lemma outlives_quiet s s' : quiet s s' -> outlives s s'.
Proof.
  intros [Hd _ _ Hn Hdead] a. unfold alive, account_of, effective. rewrite Hd.
  destruct (objects s' !! a) as [o|] eqn:E.
  - simpl. destruct (current o) eqn:Ec; [by eexists|]. by rewrite (Hdead a o E Ec), <- Ec.
  - by rewrite (Hn a E).
Qed.

Lemma outlives_objects s s' : db s' = db s -> objects s' = objects s -> outlives s s'.
Proof. intros Hd Ho a. unfold alive, account_of, effective. by rewrite Hd, Ho. Qed.

Lemma outlives_create_contract a s s' : create_contract a s = Done () s' ->
  outlives s s' /\ alive s' a.
Proof.
  intros (prev & s1 & H1 & Hs)%s_bind_done. apply quiets_get_object in H1.
  apply s_bind_done in Hs as ([] & s2 & [= <-] & Hs).
  apply s_bind_done in Hs as ([] & s3 & Hb & Hs).
  apply s_bind_done in Hb as (s4 & s5 & [= <- <-] & Hb).
  apply s_bind_done in Hb as (n & s6 & Hn & [= <-]). unfold s_unwrap in Hn.
  destruct (u64_checked _); [|done]. injection Hn as <- <-.
  apply s_bind_done in Hs as ([] & s7 & [= <-] & Hs).
  apply s_bind_done in Hs as ([] & s8 & [= <-] & Hs).
  apply s_bind_done in Hs as (s9 & s10 & [= <- <-] & Hs).
  match type of Hs with context [<[a := ?o]> _] =>
    assert (db s' = db s1 /\ objects s' = <[a := o]> (objects s1)) as [Hd Ho] end.
  { case_match; [apply s_bind_done in Hs as ([] & s11 & [= <-] & [= <-])|injection Hs as <-]; done. }
  split.
  - intros a' Ha'%(outlives_quiet _ _ H1). revert Ha'. unfold alive, account_of, effective.
    rewrite Hd, Ho. destruct (decide (a = a')) as [<-|]; simplify_map_eq; [by eexists|done].
  - unfold alive, account_of, effective. rewrite Ho. simplify_map_eq. by eexists.
Qed.

Lemma outlives_op op s s' : wf s -> run_op op s = Done () s' -> outlives s s'.
Proof.
  intros Hw. destruct (storage_op op) eqn:E; [|intros Hop; eapply outlives_quiet, quiets_op; eauto].
  destruct op; try discriminate E; simpl.
  - apply outlives_create_contract.
  - intros (v & s1 & H1 & [= <-])%s_bind_done.
    by apply outlives_restored, (get_storage_done a k false s v s1 Hw H1).
  - intros (v & s1 & H1 & [= <-])%s_bind_done.
    by apply outlives_restored, (get_storage_done a k true s v s1 Hw H1).
  - intros (p & s1 & H1 & Hs)%s_bind_done.
    pose proof (outlives_restored _ _ (proj1 (get_storage_done a k false s p s1 Hw H1))) as Ho.
    destruct (p =? v); [by injection Hs as <-|].
    apply s_bind_done in Hs as (s2 & s3 & [= <- <-] & Hs).
    apply s_bind_done in Hs as ([] & s4 & [= <-] & [= <-]).
    intros a' Ha'. by apply (outlives_objects s1), Ho.
Qed.

Lemma outlives_frame s s' : frame s s' -> wf s -> outlives s s'.
Proof.
  induction 1 as [s|s s1 s2 op Hf IH Ha Hop|s s1 s2 s3 Hf1 IH1 Hf2 IH2 Hrev]; intros Hw a Halive;
    [done|..].
  - eapply outlives_op; [by eapply frame_wf|done|by apply IH].
  - destruct (frame_undoable s1 s2 Hf2 (frame_wf _ _ Hf1 Hw)) as [ds U].
    destruct (revert_undoable s1 s2 ds U) as (r & Hr & Hres & _).
    assert (r = s3) as -> by congruence. apply (outlives_restored _ _ Hres). by apply IH1.
Qed.

(** ** Reads *)

(** Nothing changed but what is cached. *)
Record peek s s' : Prop := {
  pk_restored : restored s s';
  pk_journal : journal s' = journal s;
  pk_logs : logs s' = logs s;
  pk_refund : refund s' = refund s;
}.

#[export] Instance peek_preorder : PreOrder peek.
Proof.
  split; [by split|]. intros s1 s2 s3 [R1 J1 L1 F1] [R2 J2 L2 F2].
  split; [by etrans|congruence..].
Qed.

Definition peeks {A} (m : SM IBS A) : Prop := forall s x s', wf s -> m s = Done x s' -> peek s s'.

Lemma peeks_bind {A B} (m : SM IBS A) (f : A -> SM IBS B) :
  peeks m -> (forall x, peeks (f x)) -> peeks (m ≫= f).
Proof.
  intros Hm Hf s x s' Hw (y & s1 & H1 & H2)%s_bind_done.
  pose proof (Hm _ _ _ Hw H1) as Hp. etrans; [done|]. eapply Hf; [|done].
  eapply restored_wf; [apply Hp|done].
Qed.

Lemma peeks_ret {A} (x : A) : peeks (mret x).
Proof. by intros s y s' _ [= <- <-]. Qed.

Lemma peeks_get_object a : peeks (get_object a).
Proof.
  intros s o s' Hw Ho. destruct (get_object_done a s o s' Hw Ho) as (? & ? & ? & _).
  split; try done. revert Ho. unfold get_object, mbind, SM_bind, s_get, s_try. simpl.
  destruct (objects s !! a); [by intros [= <- <-]|].
  destruct (read_account (db s) a) as [[]|]; simpl; [by intros [= <- <-]..|done].
Qed.

Lemma peeks_get_current a : peeks (get_current a).
Proof. apply peeks_bind; [apply peeks_get_object|]. intros. apply peeks_ret. Qed.

Lemma peeks_current {A} (f : option Account -> A) a : peeks (x ← get_current a; mret (f x)).
Proof. apply peeks_bind; [apply peeks_get_current|]. intros. apply peeks_ret. Qed.

Lemma peeks_get_code a : peeks (get_code a).
Proof.
  intros s o s' Hw (acc & s1 & H1 & Hs)%s_bind_done. etrans; [by eapply peeks_get_current|].
  destruct acc as [acc|]; [|by injection Hs as <- <-].
  cbv zeta in Hs. destruct (negb _) in Hs; [|by injection Hs as <- <-].
  apply s_bind_done in Hs as (s2 & s3 & [= <- <-] & Hs).
  repeat (case_match; [by injection Hs as <- <-|]).
  apply s_bind_done in Hs as (c & s4 & Hc & Hs). unfold s_try in Hc.
  destruct (read_code _ _); [|done]. injection Hc as <- <-. injection Hs as <- <-.
  split; try done. by apply same_core_restored.
Qed.

(** Only accounts have code. *)
Lemma get_code_alive a s c s' : get_code a s = Done (Some c) s' -> alive s a.
Proof.
  intros (acc & s1 & H1 & Hs)%s_bind_done.
  apply s_bind_done in H1 as (o & s2 & Ho & [= <- <-]).
  apply get_object_effective in Ho. unfold alive, account_of. rewrite <- Ho.
  destruct (o ≫= current); [by eexists|done].
Qed.

Lemma revert_peek s s' r : wf s -> frame s s' ->
  revert_to_snapshot (take_snapshot s) s' = Done () r -> peek s r.
Proof.
  intros Hw Hf Hr. destruct (frame_undoable s s' Hf Hw) as [ds U].
  destruct (revert_undoable s s' ds U) as (r' & Hr' & Hres & ? & ? & ?).
  assert (r = r') as -> by congruence. by split.
Qed.

(** [m] runs one operation. *)
Definition op_of {A} (m : SM IBS A) (op : Op) : Prop :=
  forall s x s', m s = Done x s' -> run_op op s = Done () s'.

Lemma op_of_unit (m : SM IBS unit) op : run_op op = m -> op_of m op.
Proof. intros <- s [] s'. done. Qed.

Lemma op_of_read {A} (m : SM IBS A) op : run_op op = (m;; mret ()) -> op_of m op.
Proof. intros Hop s x s' Hm. rewrite Hop. apply s_bind_done. by exists x, s'. Qed.

End states.

(** ** Frames of the machine *)

Section machine.
Context {DB C T : Type} {ST : State DB} {CS : ChainState DB} {KK : Keccak} {LC : LruCache C}.
Context `{!StartTracer T} {TT : Tracer T} {IO : I256Ops}.
Context {AC : AddressCodec} {HS : Hashes} {SP : Secp256k1} {BU : BigUint} {AB : AltBn128}.
Context (header : PartialHeader) (block_spec : BlockExecutionSpec) (txn : MessageWithSender).
Context (beneficiary : Address).

Abbreviation E := (Evm DB C T).
Abbreviation IBS := (IntraBlockState DB).
Implicit Types (s : IBS) (e : E).

(** [m] extends a frame that began at [s]. *)
Definition goes s {A} (m : SM E A) : Prop := forall e x e',
  frame s (evm_state e) -> m e = Done x e' -> frame s (evm_state e').

Lemma goes_bind s {A B} (m : SM E A) (k : A -> SM E B) :
  goes s m -> (forall x, goes s (k x)) -> goes s (m ≫= k).
Proof. intros Hm Hk e x e' He (y & e1 & H1 & H2)%s_bind_done. eapply Hk, H2. by eapply Hm. Qed.

Lemma goes_ret s {A} (x : A) : goes s (mret x).
Proof. by intros e y e' He [= <- <-]. Qed.
Lemma goes_panic s {A} : goes s (s_panic (A := A)).
Proof. by intros e y e' He. Qed.
Lemma goes_get s {A} (f : E -> A) : goes s (s_get f).
Proof. by intros e y e' He [= <- <-]. Qed.
Lemma goes_unwrap s {A} (o : option A) : goes s (s_unwrap o).
Proof. intros e y e' He. unfold s_unwrap. destruct o; [|done]. by intros [= <- <-]. Qed.

Lemma on_state_done {A} (m : SM IBS A) e x e' : evmglue.on_state m e = Done x e' ->
  m (evm_state e) = Done x (evm_state e').
Proof. unfold evmglue.on_state. destruct (m (evm_state e)); [|done..]. by intros [= <- <-]. Qed.

Lemma goes_op s {A} (m : SM IBS A) op : op_of m op ->
  (forall s', frame s s' -> op_allowed op s') -> goes s (evmglue.on_state m).
Proof. intros Hop Ha e x e' He Hm%on_state_done. eapply frame_op; eauto. Qed.

(** Steps that leave the block state alone. *)
Definition silent {A} (m : SM E A) : Prop :=
  forall e x e', m e = Done x e' -> evm_state e' = evm_state e.

Lemma goes_silent s {A} (m : SM E A) : silent m -> goes s m.
Proof. intros Hm e x e' He Hx. by rewrite (Hm _ _ _ Hx). Qed.

Lemma silent_trace_start d a b k i g v : silent (evmglue.trace_start d a b k i g v).
Proof.
  intros e x e'. unfold evmglue.trace_start. destruct (evm_tracer e); [|by intros [= <- <-]].
  case_if; [|done]. by intros [= <- <-].
Qed.

Lemma silent_trace_call m p : silent (evmglue.trace_call m p).
Proof.
  intros e x e'. unfold evmglue.trace_call. destruct (evm_tracer e); [|by intros [= <- <-]].
  case_match; [|done]. apply silent_trace_start.
Qed.

Lemma silent_analysis c h : silent (evmglue.analysis_for (DB := DB) (T := T) c h).
Proof.
  intros e x e'. unfold evmglue.analysis_for. destruct h.
  - repeat (case_match; try done); by intros [= <- <-].
  - unfold s_unwrap. case_match; [|done]. by intros [= <- <-].
Qed.

(** The operation that a call of the block state is. *)
Ltac op_for m :=
  lazymatch m with
  | exists_ ?a => constr:(OpExists a)
  | is_dead ?a => constr:(OpIsDead a)
  | create_contract ?a => constr:(OpCreateContract a)
  | record_selfdestruct ?a => constr:(OpRecordSelfdestruct a)
  | ibs.get_balance ?a => constr:(OpGetBalance a)
  | set_balance ?a ?v => constr:(OpSetBalance a v)
  | add_to_balance ?a ?v => constr:(OpAddToBalance a v)
  | subtract_from_balance ?a ?v => constr:(OpSubtractFromBalance a v)
  | touch ?a => constr:(OpTouch a)
  | get_nonce ?a => constr:(OpGetNonce a)
  | set_nonce ?a ?n => constr:(OpSetNonce a n)
  | get_code ?a => constr:(OpGetCode a)
  | ibs.get_code_hash ?a => constr:(OpGetCodeHash a)
  | set_code ?a ?c => constr:(OpSetCode a c)
  | ibs.access_account ?a => constr:(OpAccessAccount a)
  | ibs.access_storage ?a ?k => constr:(OpAccessStorage a k)
  | get_current_storage ?a ?k => constr:(OpGetCurrentStorage a k)
  | get_original_storage ?a ?k => constr:(OpGetOriginalStorage a k)
  | add_log ?l => constr:(OpAddLog l)
  | add_refund ?n => constr:(OpAddRefund n)
  | subtract_refund ?n => constr:(OpSubtractRefund n)
  end.

Create HintDb goes.
#[local] Hint Resolve goes_ret goes_panic goes_get goes_unwrap : goes.
#[local] Hint Resolve silent_trace_start silent_trace_call silent_analysis : goes.

Ltac goes_step :=
  cbv beta zeta;
  lazymatch goal with
  | |- goes _ (_ ≫= _) => apply goes_bind; [|intros ?]
  | |- goes _ (evmglue.when_ _ _) => unfold evmglue.when_
  | |- goes _ (evmglue.on_state ?m) =>
      first [ let op := op_for m in apply (goes_op _ m op);
                [first [apply op_of_unit; reflexivity|apply op_of_read; reflexivity]|by intros]
            | solve [auto with goes] ]
  | |- goes _ (match ?x with _ => _ end) => destruct x
  | |- goes _ _ => first [solve [auto with goes]|apply goes_silent; solve [auto with goes]]
  end.
Ltac goes f := intros; unfold f; repeat goes_step.

Lemma goes_account_exists s a : goes s (evmglue.host_account_exists block_spec a).
Proof. goes @evmglue.host_account_exists. Qed.
Lemma goes_code_size s a : goes s (evmglue.host_get_code_size a).
Proof. goes @evmglue.host_get_code_size. Qed.
Lemma goes_code_hash s a : goes s (evmglue.host_get_code_hash a).
Proof. goes @evmglue.host_get_code_hash. Qed.
Lemma goes_copy_code s a o b : goes s (evmglue.host_copy_code a o b).
Proof. goes @evmglue.host_copy_code. Qed.
Lemma goes_selfdestruct s a b : goes s (evmglue.host_selfdestruct a b).
Proof. goes @evmglue.host_selfdestruct. Qed.
Lemma goes_tx_context s : goes s (evmglue.host_get_tx_context header block_spec txn beneficiary).
Proof. goes @evmglue.host_get_tx_context. Qed.
Lemma goes_block_hash s n : goes s (evmglue.host_get_block_hash header n).
Proof. goes @evmglue.host_get_block_hash. Qed.
Lemma goes_access_account s a : goes s (evmglue.host_access_account block_spec a).
Proof. goes @evmglue.host_access_account. Qed.

Lemma goes_set_slot s a k v : wf s -> alive s a -> goes s (evmglue.on_state (set_storage a k v)).
Proof.
  intros Hw Ha. apply (goes_op _ _ (OpSetStorage a k v)); [by apply op_of_unit|].
  intros s' Hf. by apply (outlives_frame s s').
Qed.
#[local] Hint Resolve goes_set_slot : goes.

Lemma goes_set_storage s a k v : wf s -> alive s a ->
  goes s (evmglue.host_set_storage block_spec a k v).
Proof. goes @evmglue.host_set_storage. Qed.

(** ** The interpreter over the machine *)

(** The callee of a call can be entered: its storage has an account. *)
Definition ready s (c : Call) : Prop :=
  match c with
  | Call_Create _ => True
  | Call_Call m => (kind m = CallKind_Call /\ recipient m = code_address m) \/ alive s (recipient m)
  end.

Definition callee_ok (callee : Call -> SM E Output) : Prop :=
  forall s c, wf s -> ready s c -> goes s (callee c).

Lemma kept_method s {A} (m : SM E A) : goes s m ->
  kept (fun e => frame s (evm_state e)) (evmglue.method m).
Proof.
  intros Hm e x e' He. unfold evmglue.method. destruct (m e) eqn:E; [|done..].
  intros [= <- <-]. by eapply Hm.
Qed.

Lemma frame_inv s callee msg : callee_ok callee -> wf s -> alive s (recipient msg) ->
  FrameInv (evmglue.EvmHost header block_spec txn beneficiary callee)
    evmglue.frame_tracer msg (fun e => frame s (evm_state e)).
Proof.
  intros Hc Hw Ha. split; intros; simpl; try done; apply kept_method;
    auto using goes_account_exists, goes_set_storage, goes_code_size, goes_code_hash,
      goes_copy_code, goes_selfdestruct, goes_tx_context, goes_block_hash, goes_access_account;
    try (by repeat goes_step).
  apply Hc; [done|]. destruct c as [m|m]; simpl in *; [|done].
  match goal with Hs : _ \/ _ |- _ => destruct Hs as [?|[_ ->]] end; auto.
Qed.

Lemma goes_execute s callee msg code h : callee_ok callee -> wf s -> alive s (recipient msg) ->
  goes s (evmglue.evm_execute block_spec (evmglue.EvmHost header block_spec txn beneficiary callee)
            msg code h).
Proof.
  intros Hc Hw Ha. apply goes_bind; [apply goes_silent, silent_analysis|].
  intros analysis e o e' He. unfold evmglue.run_frame.
  destruct (Interpreter.execute _ _ _ _) as [[]|] eqn:Ex; [|done]. intros [= <- <-].
  eapply (execute_keeps (HF := frame_inv s callee msg Hc Hw Ha)); [|exact Ex]. exact He.
Qed.

(** ** Calls *)

(** Steps that only read. *)
Definition looks {A} (m : SM E A) : Prop := forall e x e', wf (evm_state e) ->
  m e = Done x e' -> peek (evm_state e) (evm_state e') /\ frame (evm_state e) (evm_state e').

Lemma looks_bind {A B} (m : SM E A) (k : A -> SM E B) :
  looks m -> (forall x, looks (k x)) -> looks (m ≫= k).
Proof.
  intros Hm Hk e x e' Hw (y & e1 & H1 & H2)%s_bind_done.
  destruct (Hm _ _ _ Hw H1) as [P1 F1].
  destruct (Hk y e1 x e' (frame_wf _ _ F1 Hw) H2) as [P2 F2].
  split; [by etrans|by eapply frame_trans].
Qed.

Lemma looks_silent {A} (m : SM E A) : silent m -> looks m.
Proof. intros Hm e x e' _ He. rewrite (Hm _ _ _ He). split; [done|apply frame_start]. Qed.

Lemma looks_ret {A} (x : A) : looks (mret x).
Proof. apply looks_silent. by intros e y e' [= <- <-]. Qed.

Lemma looks_op {A} (m : SM IBS A) op : peeks m -> op_of m op -> (forall s, op_allowed op s) ->
  looks (evmglue.on_state m).
Proof.
  intros Hp Ho Ha e x e' Hw He. split; [eapply Hp, on_state_done; eauto|].
  eapply (goes_op _ m op); eauto using frame_start.
Qed.

Lemma looks_code a : looks (evmglue.on_state (get_code a)).
Proof. apply (looks_op _ (OpGetCode a)); [apply peeks_get_code|by apply op_of_read|done]. Qed.

Lemma looks_current {A} (f : option Account -> A) a op :
  run_op op = ((x ← get_current a; mret (f x));; mret ()) -> (forall s, op_allowed op s) ->
  looks (evmglue.on_state (x ← get_current a; mret (f x))).
Proof.
  intros Hop Ha. apply (looks_op _ op); [apply peeks_current|by apply op_of_read|done].
Qed.

(** [o] is the result of a call from [s]: when it is not a success, nothing happened. *)
Definition atomic s (o : Output) e : Prop :=
  frame s (evm_state e) /\ (status_code o <> Success -> peek s (evm_state e)).

Lemma atomic_peek s s' o e : peek s s' -> frame s s' -> atomic s' o e -> atomic s o e.
Proof.
  intros Hp Hf [Hf' Ha]. split; [by eapply frame_trans|]. intros Hs. etrans; [done|by apply Ha].
Qed.

Lemma atomic_success s o e : status_code o = Success -> frame s (evm_state e) -> atomic s o e.
Proof. by intros Ho Hf. Qed.

Lemma undo_atomic s res e o e' : wf s -> frame s (evm_state e) ->
  evmglue.undo_failed (take_snapshot s) res e = Done o e' -> atomic s o e'.
Proof.
  intros Hw Hf ([] & e1 & H1%on_state_done & [= _ <-])%s_bind_done. split.
  - eapply frame_reverted; [apply frame_start|exact Hf|exact H1].
  - intros _. by eapply revert_peek.
Qed.

Lemma finish_atomic s res e o e' : wf s -> frame s (evm_state e) ->
  evmglue.finish_call (take_snapshot s) res e = Done o e' -> atomic s o e'.
Proof.
  intros Hw Hf. unfold evmglue.finish_call. case_bool_decide as Hs.
  - intros [= <- <-]. by apply atomic_success.
  - by apply undo_atomic.
Qed.

Lemma goes_precompiled s m res : goes s (evmglue.run_precompiled block_spec m res).
Proof. goes @evmglue.run_precompiled. Qed.

(** The value transfer of a call. *)
Lemma goes_transfer s (m : InterpreterMessage) v :
  goes s (if bool_decide (kind m = CallKind_Call) then
            if is_static m then evmglue.on_state (touch (recipient m))
            else evmglue.on_state (subtract_from_balance (EvmState.sender m) v);;
                 evmglue.on_state (add_to_balance (recipient m) v)
          else mret ()).
Proof. repeat goes_step. Qed.

Lemma alive_code s s' m (c : Bytes) : ready s (Call_Call m) -> wf s -> frame s s' ->
  (c <> [] -> alive s' (code_address m)) -> c <> [] -> alive s' (recipient m).
Proof.
  intros [[_ ->]|Ha] Hw Hf Hc Hne; [by apply Hc|]. by apply (outlives_frame s s').
Qed.

(** The reads before the snapshot of a call. *)
Lemma looks_sender_balance (m : InterpreterMessage) v :
  looks (if bool_decide (kind m = DelegateCall) then mret v
         else evmglue.on_state (ibs.get_balance (EvmState.sender m))).
Proof.
  case_bool_decide; [apply looks_ret|]. by apply (looks_current _ _ (OpGetBalance (EvmState.sender m))).
Qed.

Lemma looks_callee_code (pre : bool) a :
  looks (if negb pre then evmglue.on_state (get_code a) else mret None).
Proof. destruct pre; [apply looks_ret|apply looks_code]. Qed.

Lemma callee_code_alive (pre : bool) a e c e' : wf (evm_state e) ->
  (if negb pre then evmglue.on_state (get_code a) else mret None) e = Done c e' ->
  default [] c <> [] -> alive (evm_state e') a.
Proof.
  intros Hw Hm Hne. destruct (looks_callee_code _ _ _ _ _ Hw Hm) as [_ Hf].
  destruct pre; [by injection Hm as <- <-|]. destruct c; [|done].
  apply (outlives_frame _ _ Hf Hw). by eapply get_code_alive, on_state_done.
Qed.

Lemma looks_missing (b : bool) a :
  looks (if b then x ← evmglue.on_state (exists_ a); mret (negb x) else mret false).
Proof.
  destruct b; [|apply looks_ret]. apply looks_bind; [|intros; apply looks_ret].
  by apply (looks_current _ _ (OpExists a)).
Qed.

Lemma looks_trace_call m p : looks (evmglue.trace_call m p).
Proof. apply looks_silent, silent_trace_call. Qed.

Lemma call_atomic callee msg e o e' : callee_ok callee -> wf (evm_state e) ->
  ready (evm_state e) (Call_Call msg) ->
  evmglue.call block_spec (evmglue.EvmHost header block_spec txn beneficiary callee) msg e
  = Done o e' -> atomic (evm_state e) o e'.
Proof.
  intros Hc Hw Hready Hcall. unfold evmglue.call in Hcall.
  apply s_bind_done in Hcall as (bal & e1 & H1 & Hcall).
  destruct (looks_sender_balance msg _ _ _ _ Hw H1) as [P1 F1].
  pose proof (frame_wf _ _ F1 Hw) as Hw1. apply (atomic_peek _ _ _ _ P1 F1).
  destruct (bal <? _).
  { injection Hcall as <- <-. split; [apply frame_start|done]. }
  set (pre := evmglue.is_precompiled block_spec (code_address msg)) in Hcall.
  apply s_bind_done in Hcall as (code & e2 & H2 & Hcall).
  destruct (looks_callee_code pre _ _ _ _ Hw1 H2) as [P2 F2].
  pose proof (callee_code_alive pre _ _ _ _ Hw1 H2) as Hcode.
  pose proof (frame_wf _ _ F2 Hw1) as Hw2. apply (atomic_peek _ _ _ _ P2 F2).
  apply s_bind_done in Hcall as ([] & e3 & H3%silent_trace_call & Hcall). rewrite <- H3 in *.
  apply s_bind_done in Hcall as (missing & e4 & H4 & Hcall).
  destruct (looks_missing _ _ _ _ _ Hw2 H4) as [P4 F4].
  pose proof (frame_wf _ _ F4 Hw2) as Hw4. apply (atomic_peek _ _ _ _ P4 F4).
  destruct missing; [injection Hcall as <- <-; by apply atomic_success, frame_start|].
  apply s_bind_done in Hcall as (snap & e5 & [= <- <-] & Hcall).
  apply s_bind_done in Hcall as ([] & e6 & H6 & Hcall).
  pose proof (goes_transfer _ _ _ _ _ _ (frame_start _) H6) as F6.
  destruct pre.
  { apply s_bind_done in Hcall as (res & e7 & H7 & Hcall).
    eapply finish_atomic; [done| |exact Hcall]. by eapply goes_precompiled. }
  destruct (blen (default [] code) =? 0) eqn:Elen;
    [injection Hcall as <- <-; by apply atomic_success|].
  assert (alive (evm_state e4) (recipient msg)) as Halive.
  { apply (alive_code (evm_state e) _ msg (default [] code)); eauto using frame_trans.
    - intros Hne. by apply (outlives_frame _ _ F4 Hw2), Hcode.
    - intros Hne. by rewrite Hne in Elen. }
  apply s_bind_done in Hcall as (h & e7 & H7 & Hcall).
  apply s_bind_done in Hcall as (res & e8 & H8 & Hcall).
  eapply finish_atomic; [done| |exact Hcall].
  eapply goes_execute; [exact Hc|done|exact Halive| |exact H8].
  eapply (goes_op _ _ (OpGetCodeHash _)); [by apply op_of_read|done|exact F6|exact H7].
Qed.

(** ** Creations *)

Lemma goes_deploy s a res : goes s (evmglue.deploy block_spec a res).
Proof. goes @evmglue.deploy. Qed.

(** A part of a creation in a frame of its own, that may be undone. *)
Lemma goes_undo s s1 e res o e' : wf s1 -> frame s s1 -> frame s1 (evm_state e) ->
  evmglue.undo_failed (take_snapshot s1) res e = Done o e' -> frame s (evm_state e').
Proof.
  intros Hw Hf Hf1 Hu. eapply frame_trans; [exact Hf|]. by eapply undo_atomic.
Qed.

Lemma goes_create callee msg s : callee_ok callee -> wf s ->
  goes s (evmglue.create block_spec
            (evmglue.EvmHost header block_spec txn beneficiary callee) msg).
Proof.
  intros Hc Hw. unfold evmglue.create.
  repeat (lazymatch goal with
          | |- goes _ (s_get (fun e => take_snapshot _) ≫= _) => fail
          | |- _ => goes_step end).
  match goal with |- context [create_contract ?a] => generalize a; intros addr end.
  intros e o e' Hf Hs. pose proof (frame_wf _ _ Hf Hw) as Hwe.
  apply s_bind_done in Hs as (snap & e1 & [= <- <-] & Hs).
  apply s_bind_done in Hs as ([] & e2 & H2 & Hs).
  assert (frame (evm_state e) (evm_state e2)) as F2.
  { eapply (goes_op _ _ (OpCreateContract addr)); [by apply op_of_unit|done|apply frame_start|done]. }
  apply on_state_done, outlives_create_contract in H2 as [_ Halive].
  assert (goes (evm_state e2)
    ((if (spec_revision block_spec >=? Spurious)%rev
      then evmglue.on_state (set_nonce addr 1) else mret ());;
     evmglue.on_state (subtract_from_balance (cm_sender msg) (cm_endowment msg));;
     evmglue.on_state (add_to_balance addr (cm_endowment msg)))) as Hg by repeat goes_step.
  apply s_bind_done in Hs as ([] & e3 & H3 & Hs).
  apply s_bind_done in Hs as ([] & e4 & H4 & Hs).
  apply s_bind_done in Hs as ([] & e5 & H5 & Hs).
  assert (frame (evm_state e2) (evm_state e5)) as F5.
  { eapply Hg; [apply frame_start|]. apply s_bind_done. exists (), e3. split; [done|].
    apply s_bind_done. by exists (), e4. }
  apply s_bind_done in Hs as (res & e6 & H6 & Hs).
  eapply goes_execute in H6; [|exact Hc|exact (frame_wf _ _ F2 Hwe)|exact Halive|exact F5].
  apply s_bind_done in Hs as (res2 & e7 & H7 & Hs).
  assert (frame (evm_state e) (evm_state e7)) as F7.
  { pose proof (frame_trans _ _ _ F2 H6) as F6. destruct (bool_decide _) in H7.
    - exact (goes_deploy _ _ _ _ _ _ F6 H7).
    - exact (goes_ret _ _ _ _ _ F6 H7). }
  destruct (bool_decide _) in Hs.
  - injection Hs as <- <-. by eapply frame_trans.
  - by eapply goes_undo.
Qed.

(** ** Nested frames *)

Lemma ready_frame s s' c : frame s s' -> wf s -> ready s c -> ready s' c.
Proof.
  intros Hf Hw. destruct c as [m|m]; simpl; [|done].
  intros [?|Ha]; [by left|right]. by apply (outlives_frame s s').
Qed.

(** Calls from the host of a frame, at any depth. *)
Lemma host_call_ok n : callee_ok (evmglue.host_call header block_spec txn beneficiary n).
Proof.
  induction n as [|n IH]; intros s c Hw Hr; simpl; [apply goes_panic|].
  destruct c as [m|m].
  - intros e o e' Hf Hs. eapply frame_trans; [exact Hf|].
    eapply call_atomic; [exact IH|by eapply frame_wf|by eapply ready_frame|exact Hs].
  - apply goes_bind; [by apply goes_create|]. intros. apply goes_ret.
Qed.

(** The machine on a transaction, as the block state sees it. *)
Lemma execute_frame gas e r e' : wf (evm_state e) ->
  evmglue.execute header block_spec txn beneficiary gas e = Done r e' ->
  frame (evm_state e) (evm_state e').
Proof.
  intros Hw (o & e1 & H1 & [= _ <-])%s_bind_done. destruct (txn.action _).
  - refine (proj1 (call_atomic _ _ _ _ _ (host_call_ok _) Hw _ H1)). by left.
  - eapply goes_create; [apply host_call_ok|exact Hw|apply frame_start|exact H1].
Qed.

End machine.

(** ** An example: a contract that writes a slot and fails *)

#[local] Existing Instances samples.keccak samples.lru samples.no_trace samples.address_codec
  sample_hashes sample_secp sample_bn big_uint.
#[local] Instance untraced_machine : Tracer unit := NoopTracer unit.

Definition sample_call : SM (Evm InMemoryState (gmap Z AnalyzedCode) unit) Output :=
  evmglue.host_call samples.header london_spec samples.payment 99 2 (Call_Call samples.message).

Definition sample_failed : Evm InMemoryState (gmap Z AnalyzedCode) unit :=
  match sample_call samples.machine with Done _ e => e | _ => samples.machine end.

