(* ===== verification/ProcessorSpec.v ===== *)
(** Properties of the execution of a block.

    The processor changes the block state by the steps of BlockState.v only, so
    that what holds for them holds for the block; the gas of the receipts stays
    within the limits of the header; a transaction that was validated can pay. *)
From S2P Require Import Prelude Word Properties EvmState Host Interpreter Transaction IntraBlockState Journal BlockState Consensus Precompiled PrecompiledSpec EvmGlue EvmGlueSpec MemState MemStateSpec Rlp Processor Samples Atomic.
From Stdlib Require Import ZArith Lia Strings.Byte.
From stdpp Require Import base list option numbers gmap relations sorting.
#[local] Open Scope Z_scope.
Import ibs ethash.

Lemma p_bind_ok {S A B} (m : PM S A) (k : A -> PM S B) s r s2 :
  (m ≫= k) s = Consensus.ROk (r, s2) <->
  exists a s1, m s = Consensus.ROk (a, s1) /\ k a s1 = Consensus.ROk (r, s2).
Proof.
  unfold mbind, PM_bind. split.
  - destruct (m s) as [[a s1]| |]; [eauto|done..].
  - by intros (a & s1 & -> & Hk).
Qed.

Lemma p_lift_ok {S A} (r : result A) (s s' : S) x :
  p_lift r s = Consensus.ROk (x, s') <-> r = Consensus.ROk x /\ s' = s.
Proof.
  unfold p_lift, mbind, result_bind, mret, result_ret. destruct r; naive_solver.
Qed.

Lemma p_unwrap_ok {S A} (o : option A) (s s' : S) x :
  p_unwrap o s = Consensus.ROk (x, s') <-> o = Some x /\ s' = s.
Proof. unfold p_unwrap. rewrite p_lift_ok. destruct o; simpl; naive_solver. Qed.

Lemma p_guard_ok {S} b e (s s' : S) x :
  p_guard b e s = Consensus.ROk (x, s') <-> b = false /\ s' = s.
Proof. unfold p_guard. rewrite p_lift_ok. destruct b, x; naive_solver. Qed.

(** Equations of the binds. *)
Lemma p_bind_eq {S A B} (m : PM S A) (k : A -> PM S B) s a s1 :
  m s = Consensus.ROk (a, s1) -> (m ≫= k) s = k a s1.
Proof. intros Hm. unfold mbind, PM_bind. by rewrite Hm. Qed.

Lemma p_bind_ret {S A B} (x : A) (k : A -> PM S B) s : (mret x ≫= k) s = k x s.
Proof. done. Qed.

Lemma p_bind_unwrap {S A B} (x : A) (k : A -> PM S B) s : (p_unwrap (Some x) ≫= k) s = k x s.
Proof. done. Qed.

Lemma p_bind_guard {S B} b e (k : unit -> PM S B) s :
  (p_guard b e ≫= k) s = if b then Consensus.RErr (Validation e) else k () s.
Proof. by destruct b. Qed.

Lemma tx_context_ok {S A} i (m : PM S A) s r :
  tx_context i m s = Consensus.ROk r <-> m s = Consensus.ROk r.
Proof. unfold tx_context. destruct (m s); naive_solver. Qed.

Section processor.
Context {DB C T : Type} {ST : State DB} {CS : ChainState DB} {KK : Keccak} {LC : LruCache C}.
Context `{!StartTracer T} {TT : Tracer T} {IO : I256Ops}.
Context {AC : AddressCodec} {HS : Hashes} {SP : Secp256k1} {BU : BigUint} {AB : AltBn128}.
Context (header : PartialHeader) (block : BlockBodyWithSenders).
Context (block_spec : BlockExecutionSpec).

Abbreviation Proc := (ExecutionProcessor DB C T).
Abbreviation state := processor.state.
Implicit Types (p : Proc) (tx : MessageWithSender).

(** ** The gas counter *)

(** [m] leaves the gas counter alone. *)
Definition keeps_gas {A} (m : PM Proc A) : Prop := forall p x p',
  m p = Consensus.ROk (x, p') -> cumulative_gas_used p' = cumulative_gas_used p.

Lemma keeps_gas_bind {A B} (m : PM Proc A) (k : A -> PM Proc B) :
  keeps_gas m -> (forall x, keeps_gas (k x)) -> keeps_gas (m ≫= k).
Proof.
  intros Hm Hk p x p' (y & p1 & H1 & H2)%p_bind_ok. rewrite (Hk _ _ _ _ H2). by eapply Hm.
Qed.

Lemma keeps_gas_ret {A} (x : A) : keeps_gas (mret x).
Proof. by intros p y p' [= <- <-]. Qed.
Lemma keeps_gas_lift {A} (r : result A) : keeps_gas (p_lift r).
Proof. by intros p y p' [_ ->]%p_lift_ok. Qed.
Lemma keeps_gas_unwrap {A} (o : option A) : keeps_gas (p_unwrap o).
Proof. apply keeps_gas_lift. Qed.
Lemma keeps_gas_guard b e : keeps_gas (p_guard b e).
Proof. apply keeps_gas_lift. Qed.
Lemma keeps_gas_get {A} (f : Proc -> A) : keeps_gas (p_get f).
Proof. by intros p y p' [= <- <-]. Qed.
Lemma keeps_gas_machine {A} (m : SM (Evm DB C T) A) : keeps_gas (processor.on_machine m).
Proof.
  intros p x p'. unfold processor.on_machine. destruct (m (machine p)); [|done..].
  by intros [= <- <-].
Qed.
Lemma keeps_gas_state {A} (m : SM (IntraBlockState DB) A) : keeps_gas (processor.on_state m).
Proof. apply keeps_gas_machine. Qed.

Create HintDb keeps_gas.
#[local] Hint Resolve keeps_gas_ret keeps_gas_lift keeps_gas_unwrap keeps_gas_guard keeps_gas_get
  keeps_gas_machine keeps_gas_state : keeps_gas.
Ltac gas_tac := repeat (cbv beta zeta; lazymatch goal with
  | |- keeps_gas (_ ≫= _) => apply keeps_gas_bind; [|intros ?]
  | |- keeps_gas (match ?x with _ => _ end) => destruct x
  | |- _ => solve [auto with keeps_gas] end).

Lemma keeps_gas_validate tx : keeps_gas (processor.validate_transaction header block_spec tx).
Proof. unfold processor.validate_transaction, processor.available_gas. gas_tac. Qed.

Lemma keeps_gas_slots a l : keeps_gas (processor.access_slots a l).
Proof. induction l; simpl; gas_tac. Qed.
#[local] Hint Resolve keeps_gas_slots : keeps_gas.
Lemma keeps_gas_entries l : keeps_gas (processor.access_entries l).
Proof. induction l; simpl; gas_tac. Qed.
#[local] Hint Resolve keeps_gas_entries : keeps_gas.
Lemma keeps_gas_buy tx : keeps_gas (processor.buy_gas header tx).
Proof. unfold processor.buy_gas. gas_tac. Qed.
Lemma keeps_gas_refund tx g : keeps_gas (processor.refund_gas header block_spec tx g).
Proof. unfold processor.refund_gas. gas_tac. Qed.

(** A refund is at most a fraction of the gas that was used. *)
Definition quotient : Z := if Revision.geb (spec_revision block_spec) London then 5 else 2.

Lemma refund_gas_range tx g p left p' :
  processor.refund_gas header block_spec tx g p = Consensus.ROk (left, p') ->
  let limit := txn.gas_limit (sent_message tx) in
  0 <= left /\ g <= limit /\
  (0 <= refund (evm_state (machine p)) -> g <= left <= g + (limit - g) / quotient).
Proof.
  unfold processor.refund_gas. intros Hr. cbv zeta in Hr |- *.
  apply p_bind_ok in Hr as (r & p1 & [= <- <-] & Hr).
  apply p_bind_ok in Hr as (r & p2 & H2 & Hr).
  assert (0 <= refund (evm_state (machine p)) -> 0 <= r) as Hr0.
  { destruct (Revision.ltb _ _); [|by injection H2 as <- <-].
    apply p_bind_ok in H2 as (n & ? & [= <- <-] & H2).
    apply p_bind_ok in H2 as (d & ? & [Hd ->]%p_unwrap_ok & H2).
    apply p_unwrap_ok in H2 as [H2 _]. apply checked_inv in H2 as [-> ?]. lia. }
  apply p_bind_ok in Hr as (used & ? & [Hu ->]%p_unwrap_ok & Hr).
  apply unsigned_sub_inv in Hu as [Hu ->].
  apply p_bind_ok in Hr as (left' & ? & [Hl ->]%p_unwrap_ok & Hr).
  apply checked_inv in Hl as [Hl ?].
  apply p_bind_ok in Hr as (price & ? & _ & Hr). apply p_bind_ok in Hr as (am & ? & _ & Hr).
  apply p_bind_ok in Hr as ([] & ? & _ & [= <- _]).
  assert (0 <= (txn.gas_limit (sent_message tx) - g) / quotient).
  { apply Z.div_pos; [lia|]. unfold quotient. case_match; lia. }
  unfold quotient, param.MAX_REFUND_QUOTIENT_LONDON, param.MAX_REFUND_QUOTIENT_FRONTIER in *.
  rewrite Hl in *. split; [lia|]. split; [lia|]. intros Hpos%Hr0. case_match; lia.
Qed.

(** The end of a transaction adds its gas, within the limit of the transaction. *)
Lemma settle_gas tx res p r p' :
  processor.settle header block_spec tx res p = Consensus.ROk (r, p') ->
  receipt_gas_used r = cumulative_gas_used p' /\
  cumulative_gas_used p <= cumulative_gas_used p'
    <= cumulative_gas_used p + txn.gas_limit (sent_message tx).
Proof.
  unfold processor.settle. cbv zeta. intros (left & p1 & H1 & Hr)%p_bind_ok.
  pose proof (keeps_gas_refund _ _ _ _ _ H1) as E1. apply refund_gas_range in H1 as (Hl & _).
  apply p_bind_ok in Hr as (used & ? & [Hu ->]%p_unwrap_ok & Hr).
  apply unsigned_sub_inv in Hu as [Hu ->].
  apply p_bind_ok in Hr as (fee & ? & [_ ->]%p_unwrap_ok & Hr).
  apply p_bind_ok in Hr as (award & ? & [_ ->]%p_unwrap_ok & Hr).
  apply p_bind_ok in Hr as ([] & p2 & E2%keeps_gas_state & Hr).
  apply p_bind_ok in Hr as ([] & p3 & E3%keeps_gas_state & Hr).
  apply p_bind_ok in Hr as ([] & p4 & H4 & Hr).
  assert (cumulative_gas_used p4 = cumulative_gas_used p3) as E4.
  { destruct (Revision.geb _ _); [by apply keeps_gas_state in H4|by apply keeps_gas_ret in H4]. }
  apply p_bind_ok in Hr as ([] & p5 & E5%keeps_gas_state & Hr).
  apply p_bind_ok in Hr as (? & ? & [= <- <-] & Hr).
  apply p_bind_ok in Hr as (c & ? & [Hc ->]%p_unwrap_ok & Hr).
  apply checked_inv in Hc as [-> _].
  apply p_bind_ok in Hr as ([] & ? & [= <-] & Hr).
  apply p_bind_ok in Hr as (b & ? & [_ ->]%p_unwrap_ok & Hr).
  injection Hr as <- <-. simpl. unfold id. lia.
Qed.

Lemma execute_transaction_gas tx p r p' :
  processor.execute_transaction header block_spec tx p = Consensus.ROk (r, p') ->
  receipt_gas_used r = cumulative_gas_used p' /\
  cumulative_gas_used p <= cumulative_gas_used p'
    <= cumulative_gas_used p + txn.gas_limit (sent_message tx).
Proof.
  unfold processor.execute_transaction. cbv zeta. intros ([] & p1 & H1%keeps_gas_buy & Hr)%p_bind_ok.
  apply p_bind_ok in Hr as (g0 & ? & [_ ->]%p_unwrap_ok & Hr).
  apply p_bind_ok in Hr as (g & ? & [_ ->]%p_lift_ok & Hr).
  apply p_bind_ok in Hr as (g' & ? & [_ ->]%p_unwrap_ok & Hr).
  apply p_bind_ok in Hr as (res & p2 & H2%keeps_gas_machine & Hr).
  apply settle_gas in Hr. by rewrite H2, H1 in Hr.
Qed.

(** A validated transaction fits in the gas that is left in the block. *)
Lemma validate_gas tx p p' :
  processor.validate_transaction header block_spec tx p = Consensus.ROk ((), p') ->
  cumulative_gas_used p + txn.gas_limit (sent_message tx) <= partial.gas_limit header.
Proof.
  intros Hv. pose proof (keeps_gas_validate _ _ _ _ Hv) as E. revert Hv.
  unfold processor.validate_transaction. cbv zeta.
  do 9 (intros (? & ? & _ & Hv)%p_bind_ok; revert Hv).
  intros (av & p1 & Ha & [Hg ->]%p_guard_ok)%p_bind_ok.
  unfold processor.available_gas in Ha.
  apply p_bind_ok in Ha as (c & ? & [= <- <-] & [Ha ->]%p_unwrap_ok).
  apply unsigned_sub_inv in Ha as [? ->]. rewrite E in *. lia.
Qed.

Lemma execute_transactions_gas l i p rs p' :
  processor.execute_transactions header block_spec i l p = Consensus.ROk (rs, p') ->
  cumulative_gas_used p <= partial.gas_limit header ->
  StronglySorted Z.le (cumulative_gas_used p :: (receipt_gas_used <$> rs)) /\
  Forall (fun r => receipt_gas_used r <= cumulative_gas_used p') rs /\
  cumulative_gas_used p' = default (cumulative_gas_used p) (receipt_gas_used <$> last rs) /\
  cumulative_gas_used p <= cumulative_gas_used p' <= partial.gas_limit header /\
  length rs = length l.
Proof.
  revert i p rs. induction l as [|tx l IH]; intros i p rs; simpl.
  { intros [= <- <-] Hle. splits; try done; repeat constructor; lia. }
  intros ([] & p1 & H1%tx_context_ok & Hr)%p_bind_ok Hle.
  pose proof (keeps_gas_validate _ _ _ _ H1) as E1. apply validate_gas in H1.
  apply p_bind_ok in Hr as (r & p2 & [Er H2]%execute_transaction_gas & Hr).
  apply p_bind_ok in Hr as (rs' & p3 & H3 & [= <- <-]).
  destruct (IH _ _ _ H3) as (Hs & Hf & Hl & Hb & Hn); [lia|].
  simpl. rewrite Er. splits; try lia.
  - constructor; [done|]. constructor; [lia|]. eapply Forall_impl; [by inversion Hs|].
    intros z. simpl. lia.
  - constructor; [lia|done].
  - rewrite Hl. destruct rs' as [|r' rs']; simpl; [by rewrite Er|].
    by destruct (last (r' :: rs')) eqn:El; [|by apply last_None in El].
Qed.

(** C37: the gas of a block.  The receipts of an executed block, one per
    transaction, carry cumulative gas that never decreases and never exceeds the
    gas limit of the header. *)
Theorem block_gas_bounded d0 tracer cache rs p' : 0 <= partial.gas_limit header ->
  processor.execute_block_no_post_validation header block block_spec
    (processor.new d0 tracer cache) = Consensus.ROk (rs, p') ->
  length rs = length (with_senders_transactions block) /\
  StronglySorted Z.le (0 :: (receipt_gas_used <$> rs)) /\
  Forall (fun r => receipt_gas_used r <= partial.gas_limit header) rs.
Proof.
  intros Hg Hx. unfold processor.execute_block_no_post_validation in Hx.
  apply p_bind_ok in Hx as ([] & p1 & H1 & Hx).
  apply p_bind_ok in Hx as (rs' & p2 & H2 & Hx).
  assert (rs' = rs) as ->.
  { apply p_bind_ok in Hx as (ch & ? & _ & Hx). by apply p_bind_ok in Hx as ([] & ? & _ & [= <- _]). }
  assert (cumulative_gas_used p1 = 0) as E1.
  { revert H1. generalize (map_to_list (balance_changes block_spec)). intros l H1.
    assert (keeps_gas (p_for (fun '(a, b) => processor.on_state (set_balance a b)) l)) as Hk
      by (clear; induction l as [|[] l IH]; simpl; gas_tac).
    by rewrite (Hk _ _ _ H1). }
  apply execute_transactions_gas in H2 as (Hs & Hf & _ & Hb & Hn); [|lia].
  rewrite E1 in Hs. splits; [done..|]. eapply Forall_impl; [exact Hf|]. simpl. lia.
Qed.

(** ** The block state *)

Section runs.
Context (d0 : DB).

(** [m] changes the block state by steps of a block. *)
Definition runs {A} (m : PM Proc A) : Prop := forall p x p',
  faithful d0 (state p) -> m p = Consensus.ROk (x, p') -> block_run (state p) (state p').

Lemma runs_bind {A B} (m : PM Proc A) (k : A -> PM Proc B) :
  runs m -> (forall x, runs (k x)) -> runs (m ≫= k).
Proof.
  intros Hm Hk p x p' Hf (y & p1 & H1 & H2)%p_bind_ok.
  pose proof (Hm _ _ _ Hf H1) as Hr. etrans; [exact Hr|].
  eapply Hk, H2. by eapply faithful_run.
Qed.

Lemma runs_ret {A} (x : A) : runs (mret x).
Proof. by intros p y p' _ [= <- <-]. Qed.
Lemma runs_lift {A} (r : result A) : runs (p_lift r).
Proof. by intros p y p' _ [_ ->]%p_lift_ok. Qed.
Lemma runs_unwrap {A} (o : option A) : runs (p_unwrap o).
Proof. apply runs_lift. Qed.
Lemma runs_guard b e : runs (p_guard b e).
Proof. apply runs_lift. Qed.
Lemma runs_get {A} (f : Proc -> A) : runs (p_get f).
Proof. by intros p y p' _ [= <- <-]. Qed.

Lemma on_machine_ok {A} (m : SM (Evm DB C T) A) p x p' :
  processor.on_machine m p = Consensus.ROk (x, p') ->
  m (machine p) = Done x (machine p').
Proof.
  unfold processor.on_machine. destruct (m (machine p)); [|done..]. by intros [= <- <-].
Qed.

Lemma on_state_ok {A} (m : SM (IntraBlockState DB) A) p x p' :
  processor.on_state m p = Consensus.ROk (x, p') ->
  m (state p) = Done x (state p').
Proof. intros Hm%on_machine_ok. by apply on_state_done. Qed.

Lemma runs_step (m : SM (IntraBlockState DB) ()) :
  (forall s s', m s = Done () s' -> block_step s s') -> runs (processor.on_state m).
Proof. intros Hm p [] p' _ He%on_state_ok. by apply rtc_once, Hm. Qed.

Lemma runs_op {A} (m : SM (IntraBlockState DB) A) op : op_of m op ->
  (forall s, op_allowed op s) -> runs (processor.on_state m).
Proof.
  intros Hop Ha p x p' _ He%on_state_ok. apply rtc_once, step_frame.
  eapply frame_op; [apply frame_start|apply Ha|by eapply Hop].
Qed.

Lemma runs_execute tx b g : runs (processor.on_machine (evmglue.execute header block_spec tx b g)).
Proof.
  intros p x p' Hf He%on_machine_ok. apply rtc_once, step_frame.
  eapply execute_frame; [apply (fa_wf _ _ Hf)|exact He].
Qed.

Create HintDb runs.
#[local] Hint Resolve runs_ret runs_lift runs_unwrap runs_guard runs_get runs_execute : runs.
#[local] Hint Extern 1 (runs (processor.on_state _)) =>
  first [ apply runs_step; intros; by constructor
        | eapply runs_op; [first [apply op_of_unit; reflexivity|apply op_of_read; reflexivity]|done] ]
  : runs.
Ltac runs_tac := repeat (cbv beta zeta; lazymatch goal with
  | |- runs (_ ≫= _) => apply runs_bind; [|intros ?]
  | |- runs (match ?x with _ => _ end) => destruct x
  | |- _ => solve [eauto with runs] end).

Lemma runs_code_hash a : runs (processor.on_state (get_code_hash a)).
Proof. apply (runs_op _ (OpGetCodeHash a)); [by apply op_of_read|done]. Qed.
Lemma runs_nonce a : runs (processor.on_state (get_nonce a)).
Proof. apply (runs_op _ (OpGetNonce a)); [by apply op_of_read|done]. Qed.
Lemma runs_balance a : runs (processor.on_state (get_balance a)).
Proof. apply (runs_op _ (OpGetBalance a)); [by apply op_of_read|done]. Qed.
Lemma runs_access a : runs (processor.on_state (access_account a)).
Proof. apply (runs_op _ (OpAccessAccount a)); [by apply op_of_read|done]. Qed.
Lemma runs_access_storage a k : runs (processor.on_state (access_storage a k)).
Proof. apply (runs_op _ (OpAccessStorage a k)); [by apply op_of_read|done]. Qed.
Lemma runs_add a v : runs (processor.on_state (add_to_balance a v)).
Proof. apply (runs_op _ (OpAddToBalance a v)); [by apply op_of_unit|done]. Qed.
Lemma runs_subtract a v : runs (processor.on_state (subtract_from_balance a v)).
Proof. apply (runs_op _ (OpSubtractFromBalance a v)); [by apply op_of_unit|done]. Qed.
Lemma runs_set_balance a v : runs (processor.on_state (set_balance a v)).
Proof. apply (runs_op _ (OpSetBalance a v)); [by apply op_of_unit|done]. Qed.
Lemma runs_set_nonce a v : runs (processor.on_state (set_nonce a v)).
Proof. apply (runs_op _ (OpSetNonce a v)); [by apply op_of_unit|done]. Qed.
#[local] Hint Resolve runs_code_hash runs_nonce runs_balance runs_access runs_access_storage
  runs_add runs_subtract runs_set_balance runs_set_nonce : runs.

Lemma runs_validate tx : runs (processor.validate_transaction header block_spec tx).
Proof. unfold processor.validate_transaction, processor.available_gas. runs_tac. Qed.
Lemma runs_slots a l : runs (processor.access_slots a l).
Proof. induction l; simpl; runs_tac. Qed.
#[local] Hint Resolve runs_slots : runs.
Lemma runs_entries l : runs (processor.access_entries l).
Proof. induction l; simpl; runs_tac. Qed.
#[local] Hint Resolve runs_entries : runs.
Lemma runs_buy tx : runs (processor.buy_gas header tx).
Proof. unfold processor.buy_gas. runs_tac. Qed.
Lemma runs_refund tx g : runs (processor.refund_gas header block_spec tx g).
Proof. unfold processor.refund_gas. runs_tac. Qed.
#[local] Hint Resolve runs_buy runs_refund runs_validate : runs.

(** Setting the gas counter is not a step. *)
Lemma runs_counter c : runs (fun p : Proc =>
  Consensus.ROk ((), {| machine := machine p; cumulative_gas_used := c |})).
Proof. intros p [] p' _ [= <-]. done. Qed.
#[local] Hint Resolve runs_counter : runs.

Lemma runs_settle tx r : runs (processor.settle header block_spec tx r).
Proof. unfold processor.settle. runs_tac. Qed.
#[local] Hint Resolve runs_settle : runs.
Lemma runs_execute_transaction tx : runs (processor.execute_transaction header block_spec tx).
Proof. unfold processor.execute_transaction. runs_tac. Qed.
#[local] Hint Resolve runs_execute_transaction : runs.

Lemma runs_context {A} i (m : PM Proc A) : runs m -> runs (tx_context i m).
Proof. intros Hm p x p' Hf Hx%tx_context_ok. by eapply Hm. Qed.

Lemma runs_transactions l i : runs (processor.execute_transactions header block_spec i l).
Proof.
  revert i. induction l as [|tx l IH]; intros i; simpl; [apply runs_ret|].
  apply runs_bind; [apply runs_context, runs_validate|]. intros. runs_tac.
Qed.

Lemma runs_for {A} (f : A -> PM Proc ()) l : (forall x, runs (f x)) -> runs (p_for f l).
Proof. intros Hf. induction l; simpl; runs_tac. Qed.

Lemma runs_block : runs (processor.execute_block_no_post_validation header block block_spec).
Proof.
  apply runs_bind; [apply runs_for; intros []; runs_tac|]. intros _.
  apply runs_bind; [apply runs_transactions|]. intros rs.
  apply runs_bind; [apply runs_lift|]. intros ch.
  apply runs_bind; [apply runs_for; intros []; runs_tac|]. intros _. apply runs_ret.
Qed.
End runs.
End processor.

(** ** Payment *)

Section payment.
Context {DB : Type} {ST : State DB} {KK : Keccak}.
Implicit Types (s : IntraBlockState DB) (a : Address).

(** The object of [a] is loaded and has the balance [v]. *)
Definition holds s a (v : Z) : Prop :=
  exists o acc, objects s !! a = Some o /\ current o = Some acc /\ balance acc = v.

Lemma holds_objects s s' a v : objects s' = objects s -> holds s a v -> holds s' a v.
Proof. intros E (o & acc & Ho & ?). exists o, acc. by rewrite E. Qed.

(** [m] succeeds and leaves the objects alone. *)
Definition light {A} (m : SM (IntraBlockState DB) A) : Prop := forall s,
  exists x s', m s = Done x s' /\ objects s' = objects s /\ db s' = db s /\
    incarnations s' = incarnations s.

Lemma light_access_account a : light (access_account a).
Proof.
  intros s. unfold access_account, mbind, SM_bind, s_get. simpl. unfold id.
  case_decide; eexists _, _; split; done.
Qed.

Lemma light_access_storage a k : light (access_storage a k).
Proof.
  intros s. unfold access_storage, mbind, SM_bind, s_get, s_modify. simpl. unfold id.
  case_decide; eexists _, _; split; done.
Qed.

Lemma light_clear : light clear_journal_and_substate.
Proof. intros s. eexists _, _. split; [done|]. done. Qed.

(** [get_object] looks at the objects and the database only. *)
Lemma get_object_ext a s s' o s1 : objects s' = objects s -> db s' = db s ->
  get_object a s = Done o s1 -> exists s1', get_object a s' = Done o s1' /\ objects s1' = objects s1.
Proof.
  intros Eo Ed. unfold get_object, mbind, SM_bind, s_get, s_try. simpl. unfold id. rewrite Eo, Ed.
  destruct (objects s !! a); [intros [= <- <-]; by exists s'|].
  destruct (read_account (db s) a) as [[acc|]|]; simpl; [| |done].
  - intros [= <- <-]. eexists. split; [done|]. simpl. by rewrite Eo.
  - intros [= <- <-]. by exists s'.
Qed.

Lemma touch_done a s : exists s', touch a s = Done () s' /\ objects s' = objects s.
Proof.
  unfold touch, mbind, SM_bind, s_get. simpl. unfold id.
  repeat case_match; eexists; split; done.
Qed.

Lemma ensure_object_total a s o s1 : wf s -> get_object a s = Done o s1 ->
  exists s2, ensure_object a s = Done () s2 /\
    holds s2 a (default 0 (balance <$> (o ≫= current))).
Proof.
  intros Hw Hg. destruct (get_object_done a s o s1 Hw Hg) as (_ & _ & _ & Ho & _).
  unfold ensure_object, mbind at 1, SM_bind. rewrite Hg.
  destruct o as [[i [acc|]]|]; simpl; eexists; (split; [reflexivity|]).
  - by exists {| initial := i; current := Some acc |}, acc.
  - eexists _, _. simpl. rewrite lookup_insert_eq. done.
  - eexists _, _. simpl. rewrite lookup_insert_eq. done.
Qed.

Lemma update_balance_total a f s o s1 v : wf s -> get_object a s = Done o s1 ->
  f (default 0 (balance <$> (o ≫= current))) = Some v ->
  exists s', update_balance a f s = Done () s' /\ holds s' a v.
Proof.
  intros Hw Hg Hf. destruct (ensure_object_total a s o s1 Hw Hg) as (s2 & He & ob & acc & Ho & Hc & Hb).
  unfold update_balance, get_or_create_object, mbind, SM_bind. rewrite He. simpl.
  unfold id. rewrite Ho. simpl. rewrite Hc. simpl. rewrite Hb, Hf. simpl.
  match goal with |- context [touch a ?t] => destruct (touch_done a t) as (s' & -> & Ho') end.
  exists s'. split; [done|]. eexists _, _. rewrite Ho'. simpl. rewrite lookup_insert_eq. done.
Qed.

Lemma set_nonce_total a n s v : holds s a v ->
  exists s', set_nonce a n s = Done () s' /\ holds s' a v.
Proof.
  intros (o & acc & Ho & Hc & Hb).
  unfold set_nonce, get_or_create_object, ensure_object, get_object, mbind, SM_bind, s_get. simpl.
  unfold id. rewrite Ho. simpl. rewrite Hc. simpl. rewrite Ho. simpl. rewrite Hc. simpl.
  eexists. split; [done|]. eexists _, _. simpl. rewrite lookup_insert_eq. done.
Qed.

(** What a read of an account says. *)
Lemma get_current_ok {A} (f : option Account -> A) a s x s1 :
  (y ← get_current a; mret (f y)) s = Done x s1 ->
  exists o s2, get_object a s = Done o s2 /\ x = f (o ≫= current) /\ s1 = s2.
Proof.
  intros (y & s2 & (o & s3 & Ho & [= <- <-])%s_bind_done & [= <- <-])%s_bind_done. by exists o, s3.
Qed.
End payment.

(** ** Validation *)

Section validation.
Context {DB C T : Type} {ST : State DB} {CS : ChainState DB} {KK : Keccak}.
Context (header : PartialHeader) (block_spec : BlockExecutionSpec).

Abbreviation Proc := (ExecutionProcessor DB C T).
Implicit Types (p : Proc) (tx : MessageWithSender).

(** The conditions on the account of the sender and on the block. *)
Record admissible tx (gas : Z) (acc : option Account) : Prop := {
  ad_no_code : default EMPTY_HASH (code_hash <$> acc) = EMPTY_HASH;
  ad_nonce : default 0 (nonce <$> acc) = txn.nonce (sent_message tx);
  ad_funds : txn.gas_limit (sent_message tx) * txn.max_fee_per_gas (sent_message tx)
    + txn.value (sent_message tx) <= default 0 (balance <$> acc);
  ad_gas : gas + txn.gas_limit (sent_message tx) <= partial.gas_limit header;
}.

(** The fields of a transaction are in the ranges of their types. *)
Record tx_wf tx : Prop := {
  tw_gas : 0 <= txn.gas_limit (sent_message tx) <= u64_max;
  tw_fee : 0 <= txn.max_fee_per_gas (sent_message tx) < 2 ^ 256;
  tw_priority : 0 <= txn.max_priority_fee_per_gas (sent_message tx);
  tw_value : 0 <= txn.value (sent_message tx) < 2 ^ 256;
  tw_nonce : 0 <= txn.nonce (sent_message tx) < u64_max;
}.

Definition prevalidated tx : Prop :=
  pre_validate_transaction (sent_message tx) (params_chain_id (spec_params block_spec))
    (partial.base_fee_per_gas header) = None.

Lemma cost_checked tx : tx_wf tx ->
  let t := sent_message tx in
  u512_checked (txn.gas_limit t * txn.max_fee_per_gas t)
    = Some (txn.gas_limit t * txn.max_fee_per_gas t) /\
  u512_checked (txn.gas_limit t * txn.max_fee_per_gas t + txn.value t)
    = Some (txn.gas_limit t * txn.max_fee_per_gas t + txn.value t).
Proof.
  destruct 1; cbv zeta. set (t := sent_message tx) in *.
  assert (0 <= txn.gas_limit t * txn.max_fee_per_gas t <= u64_max * 2 ^ 256) by
    (split; [apply Z.mul_nonneg_nonneg|apply Z.mul_le_mono_nonneg]; lia).
  assert (u64_max * 2 ^ 256 + 2 ^ 256 <= 2 ^ 512 - 1) by (unfold u64_max; lia).
  split; apply checked_some; lia.
Qed.

(** Reads of the account of the sender, in a row. *)
Lemma read_again a p (acc : option Account) s1 : wf (processor.state p) ->
  get_current a (processor.state p) = Done acc s1 ->
  forall {A} (f : option Account -> A), exists p',
    processor.on_state (x ← get_current a; mret (f x)) p = Consensus.ROk (f acc, p') /\
    wf (processor.state p') /\ cumulative_gas_used p' = cumulative_gas_used p /\
    (exists s2, get_current a (processor.state p') = Done acc s2).
Proof.
  intros Hw Hg A f. destruct p as [[s c t] g]. unfold processor.state in *. simpl in *.
  unfold processor.on_state, processor.on_machine, evmglue.on_state. simpl.
  unfold mbind at 1, SM_bind. rewrite Hg. simpl.
  eexists. split; [reflexivity|]. simpl.
  pose proof (pk_restored _ _ (peeks_get_current a s acc s1 Hw Hg)) as Hr.
  split; [by eapply restored_wf|]. split; [done|].
  apply s_bind_done in Hg as (o & s2 & Ho & [= <- <-]).
  destruct (get_object_restored a s s2 o s2 Hr Ho) as [s3 Ho3]. exists s3.
  apply s_bind_done. by exists o, s3.
Qed.

(** The transactions that validation accepts.  On a prevalidated transaction,
    in a block that has not exceeded its gas limit, validation never panics; it
    accepts exactly if the sender has no code, the nonce is the one of the
    account, the balance covers the value and the gas at the maximal fee, and
    the gas limit of the transaction fits in the rest of the block. *)
Theorem validate_transaction_accepts tx p acc s1 :
  wf (processor.state p) -> tx_wf tx -> prevalidated tx ->
  cumulative_gas_used p <= partial.gas_limit header ->
  get_current (sender tx) (processor.state p) = Done acc s1 ->
  processor.validate_transaction header block_spec tx p <> RPanic /\
  ((exists p', processor.validate_transaction header block_spec tx p = Consensus.ROk ((), p'))
   <-> admissible tx (cumulative_gas_used p) acc).
Proof.
  intros Hw Ht Hp Hg Hr. destruct (cost_checked tx Ht) as [E1 E2].
  unfold processor.validate_transaction, get_code_hash, get_nonce, get_balance. cbv zeta.
  rewrite Hp, p_bind_ret.
  destruct (read_again _ p acc s1 Hw Hr (fun a => default EMPTY_HASH (code_hash <$> a)))
    as (p1 & H1 & Hw1 & G1 & s2 & Hr1). rewrite (p_bind_eq _ _ _ _ _ H1), p_bind_guard.
  destruct (Z.eqb_spec (default EMPTY_HASH (code_hash <$> acc)) EMPTY_HASH) as [Hc|Hc]; simpl;
    [|split; [done|]; split; [by intros []|by intros []]].
  destruct (read_again _ p1 acc s2 Hw1 Hr1 (fun a => default 0 (nonce <$> a)))
    as (p2 & H2 & Hw2 & G2 & s3 & Hr2). rewrite (p_bind_eq _ _ _ _ _ H2), p_bind_guard.
  destruct (Z.eqb_spec (default 0 (nonce <$> acc)) (txn.nonce (sent_message tx))) as [Hn|Hn];
    simpl; [|split; [done|]; split; [by intros []|by intros []]].
  rewrite E1, p_bind_unwrap, E2, p_bind_unwrap.
  destruct (read_again _ p2 acc s3 Hw2 Hr2 (fun a => default 0 (balance <$> a)))
    as (p3 & H3 & Hw3 & G3 & s4 & Hr3). rewrite (p_bind_eq _ _ _ _ _ H3), p_bind_guard.
  case_match eqn:Eb; [split; [done|]; split; [by intros []|intros [_ _ ? _]; lia]|].
  assert (processor.available_gas header p3
    = Consensus.ROk (partial.gas_limit header - cumulative_gas_used p, p3)) as Hav.
  { unfold processor.available_gas, mbind, PM_bind, p_get. rewrite G3, G2, G1.
    rewrite unsigned_sub_some by lia. done. }
  rewrite (p_bind_eq _ _ _ _ _ Hav). unfold p_guard, p_lift, guard_err.
  case_match eqn:Eg; simpl; (split; [done|]; split; [intros [p' Hp']|intros [_ _ ? ?]]); try done.
  - lia.
  - split; [done..|lia|lia].
  - by exists p3.
Qed.

(** The price of gas is at most the maximal fee. *)
Lemma effective_price tx : tx_wf tx -> prevalidated tx ->
  match partial.base_fee_per_gas header with Some f => 0 <= f | None => True end ->
  exists price, txn.effective_gas_price (sent_message tx) (processor.base_fee header) = Some price /\
    0 <= price <= txn.max_fee_per_gas (sent_message tx).
Proof.
  intros [] Hp Hb. unfold prevalidated, pre_validate_transaction in Hp.
  assert (0 <= processor.base_fee header <= txn.max_fee_per_gas (sent_message tx)) as Hf.
  { unfold processor.base_fee. destruct (partial.base_fee_per_gas header) as [f|]; simpl; [|lia].
    destruct (match txn.chain_id _ with Some _ => _ | None => _ end); [done|].
    destruct (Z.ltb_spec (txn.max_fee_per_gas (sent_message tx)) f); [done|lia]. }
  unfold txn.effective_gas_price, txn.priority_fee_per_gas.
  rewrite (proj2 (Z.leb_le _ _)), unsigned_sub_some, !bind_Some_eq by lia.
  eexists. split; [apply checked_some; lia|lia].
Qed.

Lemma light_on_state {A} (m : SM (IntraBlockState DB) A) p : light m -> exists x p',
  processor.on_state m p = Consensus.ROk (x, p') /\
  objects (processor.state p') = objects (processor.state p) /\
  db (processor.state p') = db (processor.state p) /\
  (wf (processor.state p) -> wf (processor.state p')).
Proof.
  intros Hm. destruct (Hm (processor.state p)) as (x & s' & Hs & Ho & Hd & Hi).
  unfold processor.on_state, processor.on_machine, evmglue.on_state.
  unfold processor.state in *. rewrite Hs. eexists _, _. splits; try done. simpl.
  intros [Ha Hn]. split; [intros a o; rewrite Ho, Hd; apply Ha|intros a n; rewrite Hi; apply Hn].
Qed.

Lemma proc_on_state_eq {A} (m : SM (IntraBlockState DB) A) p x s' :
  m (processor.state p) = Done x s' -> exists p',
  processor.on_state m p = Consensus.ROk (x, p') /\ processor.state p' = s'.
Proof.
  intros Hm. unfold processor.on_state, processor.on_machine, evmglue.on_state.
  unfold processor.state in *. rewrite Hm. by eexists.
Qed.

Lemma access_entries_total l p a v : holds (processor.state p) a v -> exists p',
  processor.access_entries l p = Consensus.ROk ((), p') /\ holds (processor.state p') a v.
Proof.
  assert (forall b ks p, holds (processor.state p) a v -> exists p',
    processor.access_slots b ks p = Consensus.ROk ((), p') /\ holds (processor.state p') a v) as Hs.
  { intros b ks. induction ks as [|k ks IH]; intros q Hq; simpl; [by exists q|].
    destruct (light_on_state _ q (light_access_storage b k)) as (x & q1 & H1 & Ho & _ & _).
    rewrite (p_bind_eq _ _ _ _ _ H1). apply IH. by eapply holds_objects. }
  revert p. induction l as [|e l IH]; intros p Hp; simpl; [by exists p|].
  destruct (light_on_state _ p (light_access_account (item_address e))) as (x & p1 & H1 & Ho & _ & _).
  rewrite (p_bind_eq _ _ _ _ _ H1).
  destruct (Hs (item_address e) (slots e) p1) as (p2 & H2 & Hp2); [by eapply holds_objects|].
  rewrite (p_bind_eq _ _ _ _ _ H2). by apply IH.
Qed.

(** The nonce of the sender of a call goes up. *)
Lemma nonce_step tx p v : 0 <= txn.nonce (sent_message tx) < u64_max ->
  holds (processor.state p) (sender tx) v -> exists p',
  (match txn.action (sent_message tx) with
   | ActionCall to =>
       processor.on_state (access_account to);;
       n ← p_unwrap (u64_checked (txn.nonce (sent_message tx) + 1));
       processor.on_state (set_nonce (sender tx) n)
   | ActionCreate => mret ()
   end) p = Consensus.ROk ((), p') /\ holds (processor.state p') (sender tx) v.
Proof.
  intros Hn Hh. destruct (txn.action _) as [to|]; [|by exists p].
  destruct (light_on_state _ p (light_access_account to)) as (x & p1 & H1 & Ho & _ & _).
  rewrite (p_bind_eq _ _ _ _ _ H1), u64_checked_some, p_bind_unwrap by lia.
  destruct (set_nonce_total (sender tx) (txn.nonce (sent_message tx) + 1) (processor.state p1) v)
    as (s2 & H2 & Hh2); [by eapply holds_objects|].
  destruct (proc_on_state_eq _ _ _ _ H2) as (p2 & H2' & <-). by exists p2.
Qed.

(** A validated transaction can pay for its gas.  If the sender satisfies the
    conditions of validation, then buying the gas neither panics nor fails, and
    takes the gas limit times the effective gas price from the sender. *)
Theorem validated_can_pay tx p acc s1 :
  wf (processor.state p) -> tx_wf tx -> prevalidated tx ->
  match partial.base_fee_per_gas header with Some f => 0 <= f | None => True end ->
  get_current (sender tx) (processor.state p) = Done acc s1 ->
  admissible tx (cumulative_gas_used p) acc -> default 0 (balance <$> acc) < 2 ^ 256 ->
  exists price p',
    txn.effective_gas_price (sent_message tx) (processor.base_fee header) = Some price /\
    processor.buy_gas header tx p = Consensus.ROk ((), p') /\
    holds (processor.state p') (sender tx)
      (default 0 (balance <$> acc) - txn.gas_limit (sent_message tx) * price).
Proof.
  intros Hw Ht Hp Hf Hr [_ _ Hfunds _] Hbal.
  destruct (effective_price tx Ht Hp Hf) as (price & Hprice & Hrange). destruct Ht.
  exists price. unfold processor.buy_gas. cbv zeta. rewrite Hprice.
  set (b := default 0 (balance <$> acc)) in *. set (t := sent_message tx) in *.
  assert (0 <= txn.gas_limit t * price <= b) as Hcost.
  { split; [apply Z.mul_nonneg_nonneg; lia|].
    assert (txn.gas_limit t * price <= txn.gas_limit t * txn.max_fee_per_gas t)
      by (apply Z.mul_le_mono_nonneg_l; lia). lia. }
  destruct (light_on_state _ p light_clear) as (x1 & p1 & H1 & Ho1 & Hd1 & Hw1).
  rewrite (p_bind_eq _ _ _ _ _ H1).
  destruct (light_on_state _ p1 (light_access_account (sender tx)))
    as (x2 & p2 & H2 & Ho2 & Hd2 & Hw2).
  rewrite (p_bind_eq _ _ _ _ _ H2), p_bind_unwrap.
  rewrite (u256_checked_some (txn.gas_limit t * price)), p_bind_unwrap by lia.
  apply s_bind_done in Hr as (o & s2 & Hg & [= <- <-]).
  destruct (get_object_ext _ _ (processor.state p2) _ _ (eq_trans Ho2 Ho1) (eq_trans Hd2 Hd1) Hg)
    as (s3 & Hg3 & _).
  destruct (update_balance_total _ (fun b => u256_checked (b - txn.gas_limit t * price)) _ _ _
    (b - txn.gas_limit t * price) (Hw2 (Hw1 Hw)) Hg3) as (s4 & H4 & Hh); [apply checked_some; lia|].
  destruct (proc_on_state_eq _ _ _ _ H4) as (p4 & H4' & <-). rewrite (p_bind_eq _ _ _ _ _ H4').
  destruct (nonce_step tx p4 _ tw_nonce0 Hh) as (p5 & H5 & Hh5).
  rewrite (p_bind_eq _ _ _ _ _ H5).
  destruct (access_entries_total (txn.access_list t) p5 _ _ Hh5) as (p6 & H6 & Hh6). by exists p6.
Qed.
End validation.

(** ** Blocks over the state in memory *)

Section written.
Context {DB C T : Type} {ST : State DB} {CS : ChainState DB} {KK : Keccak} {LC : LruCache C} `{!StartTracer T} {TT : Tracer T}.
Context {IO : I256Ops} {AC : AddressCodec} {HS : Hashes} {SP : Secp256k1} {BU : BigUint}.
Context {AB : AltBn128} {SH : SigningHash} {RS : RlpStream} {CD : Codec}.
Context (header : PartialHeader) (block : BlockBodyWithSenders).
Context (block_spec : BlockExecutionSpec).

Abbreviation Proc := (ExecutionProcessor DB C T).
Implicit Types (p : Proc).

(** [m] does not write storage. *)
Definition dry {A} (m : PM Proc A) : Prop := forall p x p',
  m p = Consensus.ROk (x, p') -> finalized (processor.state p) -> finalized (processor.state p').

Lemma dry_bind {A B} (m : PM Proc A) (k : A -> PM Proc B) :
  dry m -> (forall x, dry (k x)) -> dry (m ≫= k).
Proof.
  intros Hm Hk p x p' (y & p1 & H1 & H2)%p_bind_ok Hf. eapply Hk; [exact H2|]. by eapply Hm.
Qed.
Lemma dry_ret {A} (x : A) : dry (mret x).
Proof. by intros p y p' [= <- <-]. Qed.
Lemma dry_lift {A} (r : result A) : dry (p_lift r).
Proof. by intros p y p' [_ ->]%p_lift_ok. Qed.
Lemma dry_get {A} (f : Proc -> A) : dry (p_get f).
Proof. by intros p y p' [= <- <-]. Qed.
Lemma dry_op {A} (m : SM (IntraBlockState DB) A) : quiets m ->
  dry (processor.on_state m).
Proof.
  intros Hq p x p' Hm%on_state_ok Hf a k. specialize (Hf a k). revert Hf.
  unfold current_at, storage_at. by rewrite (qu_storage _ _ (Hq _ _ _ Hm)).
Qed.

Lemma dry_for {A} (f : A -> PM Proc ()) l : (forall x, dry (f x)) -> dry (p_for f l).
Proof.
  intros Hf. induction l; simpl; [apply dry_ret|]. apply dry_bind; [apply Hf|by intros].
Qed.

Lemma settle_finalized tx r p x p' :
  processor.settle header block_spec tx r p = Consensus.ROk (x, p') ->
  finalized (processor.state p').
Proof.
  unfold processor.settle. cbv zeta. do 7 (intros (? & ? & _ & Hs)%p_bind_ok; revert Hs).
  intros ([] & p1 & H1%on_state_ok%finalize_finalized & Hs)%p_bind_ok.
  apply p_bind_ok in Hs as (? & ? & [= <- <-] & Hs).
  apply p_bind_ok in Hs as (c & ? & [_ ->]%p_unwrap_ok & Hs).
  apply p_bind_ok in Hs as ([] & ? & [= <-] & Hs).
  apply p_bind_ok in Hs as (b & ? & [_ ->]%p_unwrap_ok & [= _ <-]). done.
Qed.

Lemma execute_transaction_finalized tx p x p' :
  processor.execute_transaction header block_spec tx p = Consensus.ROk (x, p') ->
  finalized (processor.state p').
Proof.
  unfold processor.execute_transaction. cbv zeta.
  do 5 (intros (? & ? & _ & Hs)%p_bind_ok; revert Hs). apply settle_finalized.
Qed.

Lemma quiets_read {A} (f : option Account -> A) a :
  quiets (DB := DB) (x ← get_current a; mret (f x)).
Proof. apply quiets_bind; [apply quiets_get_current|]. intros. apply quiets_ret. Qed.

Lemma dry_validate tx : dry (processor.validate_transaction header block_spec tx).
Proof.
  unfold processor.validate_transaction, processor.available_gas, p_guard, p_unwrap.
  repeat (cbv zeta; lazymatch goal with
    | |- dry (_ ≫= _) => apply dry_bind; [|intros ?]
    | |- dry (match ?x with _ => _ end) => destruct x
    | |- dry (processor.on_state _) => apply dry_op, quiets_read
    | |- _ => auto using dry_ret, dry_lift, dry_get end).
Qed.

Lemma dry_transactions l i : dry (processor.execute_transactions header block_spec i l).
Proof.
  revert i. induction l as [|tx l IH]; intros i; simpl; [apply dry_ret|].
  intros p x p' (r & p1 & H1%tx_context_ok & Hr)%p_bind_ok _.
  apply p_bind_ok in Hr as (rc & p2 & H2%execute_transaction_finalized & Hr).
  apply p_bind_ok in Hr as (rs & p3 & H3 & [= _ <-]). by eapply IH.
Qed.

Lemma dry_block : dry (processor.execute_block_no_post_validation header block block_spec).
Proof.
  apply dry_bind; [apply dry_for; intros []; apply dry_op, quiets_update_balance|]. intros _.
  apply dry_bind; [apply dry_transactions|]. intros rs.
  apply dry_bind; [apply dry_lift|]. intros ch.
  apply dry_bind; [apply dry_for; intros []; apply dry_op, quiets_update_balance|].
  intros _. apply dry_ret.
Qed.

(** What the checks after the execution establish. *)
Record consistent (rs : list Receipt) : Prop := {
  co_gas : partial.gas_used header = default 0 (receipt_gas_used <$> last rs);
  co_root : Revision.geb (spec_revision block_spec) Byzantium = true ->
    partial.receipts_root header = receipts_root_hash rs;
  co_bloom : partial.logs_bloom header = processor.blooms rs;
}.

(** An accepted block: its receipts agree with the header, and the database is
    what [write_to_db] makes of a block state reached by the steps of a block. *)
Lemma executed_block d0 tracer cache rs d c :
  processor.execute_and_write_block header block block_spec (processor.new d0 tracer cache)
  = Consensus.ROk (rs, d, c) ->
  consistent rs /\ exists p,
    processor.execute_block_no_post_validation header block block_spec
      (processor.new d0 tracer cache) = Consensus.ROk (rs, p) /\
    block_run (ibs.new d0) (processor.state p) /\ finalized (processor.state p) /\
    write_to_db (partial.number header) (processor.state p) = Some d.
Proof.
  unfold processor.execute_and_write_block.
  match goal with |- (?m ≫= _) = _ -> _ => destruct m as [[rs' p]| |] eqn:E end; [|done..].
  apply p_bind_ok in E as (rs0 & p1 & H1 & E).
  apply p_bind_ok in E as ([] & p2 & H2 & E). apply p_bind_ok in E as ([] & p3 & H3 & E).
  apply p_bind_ok in E as ([] & p4 & [H4 ->]%p_guard_ok & [= <- <-]).
  assert (p2 = p1 /\ partial.gas_used header = default 0 (receipt_gas_used <$> last rs0))
    as [-> Hg].
  { revert H2. unfold processor.check_gas. case_match eqn:Eg; [|intros [= <-]; split; [done|lia]].
    intros (t & ? & _ & [? _]%p_lift_ok)%p_bind_ok. done. }
  assert (p3 = p1 /\ (Revision.geb (spec_revision block_spec) Byzantium = true ->
    partial.receipts_root header = receipts_root_hash rs0)) as [-> Hroot].
  { revert H3. unfold processor.check_receipts_root. case_match; [|by intros [= <-]].
    intros [? ->]%p_guard_ok. split; [done|]. intros _. lia. }
  unfold mbind, result_bind, or_state_error. destruct (write_to_db _ _) as [d'|] eqn:Ew; [|done].
  intros [= <- <- _]. split; [split; [done|done|lia]|]. exists p1. splits; [done| | |done].
  - apply (runs_block header block block_spec d0 (processor.new d0 tracer cache) rs0 p1); [apply faithful_new|exact H1].
  - eapply dry_block; [exact H1|]. intros a k. unfold current_at, storage_at. done.
Qed.

End written.

Section memory.
Context {C T : Type} {KK : Keccak} {LC : LruCache C} `{!StartTracer T} {TT : Tracer T}.
Context {IO : I256Ops} {AC : AddressCodec} {HS : Hashes} {SP : Secp256k1} {BU : BigUint}.
Context {AB : AltBn128} {SH : SigningHash} {RS : RlpStream} {CD : Codec}.
Context (header : PartialHeader) (block : BlockBodyWithSenders).
Context (block_spec : BlockExecutionSpec).


(** The block does not clobber slots: no contract that it destroys or re-creates
    writes a slot that held a value before the block. *)
Definition unwindable d0 (tracer : option T) (cache : C) : Prop := forall rs p,
  processor.execute_block_no_post_validation header block block_spec
    (processor.new d0 tracer cache) = Consensus.ROk (rs, p) -> not_clobbered (processor.state p).

(** C6: an accepted block can be unwound.  If no change sets of the block exist
    before and the block does not clobber slots, then unwinding it from the
    database that the processor wrote gives back all accounts, slots and the
    state root, and the change sets of the other blocks. *)
Theorem executed_block_unwinds {TR : TrieRoot} {AD : AccountCodec} d0 tracer cache rs d c :
  mem_wf d0 -> unwindable d0 tracer cache ->
  account_changes d0 !! partial.number header = None ->
  storage_changes d0 !! partial.number header = None ->
  processor.execute_and_write_block header block block_spec (processor.new d0 tracer cache)
  = Consensus.ROk (rs, d, c) ->
  let u := mem.unwind_state_changes (partial.number header) d in
  same_world d0 u /\ mem.state_root_hash u = mem.state_root_hash d0 /\
  account_changes u = account_changes d0 /\ storage_changes u = storage_changes d0.
Proof.
  intros Hm Hn Ha Hs (_ & p & Hp & Hr & _ & Hw)%(executed_block header block block_spec).
  eapply unwind_restores; eauto.
Qed.
End memory.

(** ** An example: a block that writes a slot *)

#[local] Existing Instances samples.keccak samples.lru samples.no_trace samples.address_codec
  sample_hashes sample_secp sample_bn big_uint samples.rlp_stream samples.codec samples.signing
  MemStateSpec.zero_trie_root MemStateSpec.no_account_codec.
#[local] Instance untraced_processor : Tracer unit := NoopTracer unit.

Definition sample_processor : ExecutionProcessor InMemoryState (gmap Z AnalyzedCode) unit :=
  processor.new samples.world None ∅.

Definition sample_result : result (list Receipt * InMemoryState * (gmap Z AnalyzedCode * option unit)) :=
  processor.execute_and_write_block samples.block_header samples.block london_spec
    sample_processor.

(** The receipts, the database and the cache. *)
Definition sample_executed : list Receipt * InMemoryState * (gmap Z AnalyzedCode * option unit) :=
  match sample_result with Consensus.ROk r => r | _ => ([], samples.world, (∅, None)) end.

Lemma sample_result_ok : sample_result =
  Consensus.ROk (sample_executed.1.1, sample_executed.1.2, sample_executed.2).
Proof. vm_compute. reflexivity. Qed.


Definition sample_receipts : result (list Receipt * ExecutionProcessor InMemoryState (gmap Z AnalyzedCode) unit) :=
  processor.execute_block_no_post_validation samples.block_header samples.block london_spec
    sample_processor.

Lemma sample_unwindable :
  unwindable samples.block_header samples.block london_spec samples.world (None : option unit)
    (∅ : gmap Z AnalyzedCode).
Proof.
  intros rs p Hp a k c [i Hi] _.
  assert (match sample_receipts with
          | Consensus.ROk (_, p) => incarnations (processor.state p) = ∅
          | _ => False end) as E by (vm_compute; reflexivity).
  unfold sample_receipts, sample_processor in E. rewrite Hp in E.
  by rewrite E, lookup_empty in Hi.
Qed.

Lemma executed_block_unwinds_witness :
  same_world samples.world (mem.unwind_state_changes 1 sample_executed.1.2).
Proof.
  refine (proj1 (executed_block_unwinds samples.block_header samples.block london_spec
    samples.world None ∅ sample_executed.1.1 sample_executed.1.2 sample_executed.2 _ _ _ _ _)).
  - exact samples.world_wf.
  - exact sample_unwindable.
  - reflexivity.
  - reflexivity.
  - exact sample_result_ok.
Defined.

Lemma block_gas_bounded_witness : exists rs p,
  sample_receipts = Consensus.ROk (rs, p) /\ receipt_gas_used <$> rs = [43106] /\
  Forall (fun r => receipt_gas_used r <= 1000000) rs.
Proof.
  assert (exists r, sample_receipts = Consensus.ROk r /\ receipt_gas_used <$> r.1 = [43106])
    as ([rs p] & E & Hg) by (vm_compute; eexists; split; reflexivity).
  exists rs, p. split; [exact E|]. split; [exact Hg|].
  refine (proj2 (proj2 (block_gas_bounded samples.block_header samples.block london_spec
    samples.world None ∅ rs p _ E))). discriminate.
Defined.

Definition sample_sender : Account :=
  {| nonce := 0; balance := 1000000; code_hash := EMPTY_HASH |}.

(** The state after the account of the sender is read. *)
Definition sample_loaded : IntraBlockState InMemoryState :=
  match get_current 15 (processor.state sample_processor) with
  | Done _ s => s | _ => processor.state sample_processor end.

Lemma sample_processor_wf : wf (processor.state sample_processor).
Proof. split; [intros a o Ho; discriminate Ho|intros a m Hm; discriminate Hm]. Qed.

Lemma sample_tx_wf : tx_wf samples.payment.
Proof. split; vm_compute; repeat split; discriminate. Qed.

Lemma sample_admissible : admissible samples.header samples.payment 0 (Some sample_sender).
Proof. split; vm_compute; try reflexivity; discriminate. Qed.

Lemma validate_transaction_accepts_witness : exists p',
  processor.validate_transaction samples.header london_spec samples.payment sample_processor
  = Consensus.ROk ((), p').
Proof.
  refine (proj2 (proj2 (validate_transaction_accepts samples.header london_spec samples.payment
    sample_processor (Some sample_sender) sample_loaded _ _ _ _ _)) _).
  - exact sample_processor_wf.
  - exact sample_tx_wf.
  - reflexivity.
  - discriminate.
  - vm_compute. reflexivity.
  - exact sample_admissible.
Defined.

Lemma validated_can_pay_witness : exists price p',
  processor.buy_gas samples.header samples.payment sample_processor = Consensus.ROk ((), p') /\
  holds (processor.state p') 15 (1000000 - 100000 * price).
Proof.
  destruct (validated_can_pay samples.header london_spec samples.payment sample_processor
    (Some sample_sender) sample_loaded) as (price & p' & _ & Hp & Hh).
  - exact sample_processor_wf.
  - exact sample_tx_wf.
  - reflexivity.
  - discriminate.
  - vm_compute. reflexivity.
  - exact sample_admissible.
  - reflexivity.
  - exists price, p'. split; [exact Hp|exact Hh].
Defined.
