(* ===== verification/ReceiptSpec.v ===== *)
(** The bloom of a list of logs as a set of bits. *)
From S2P Require Import Prelude Word EvmState Transaction IntraBlockState Consensus Rlp.
From Stdlib Require Import ZArith Lia Strings.Byte.
From stdpp Require Import base list option numbers sets.
#[local] Open Scope Z_scope.

(** ** Bits of a byte string *)

Lemma byte_bits_high b k : 8 <= k -> Z.testbit (byte_val b) k = false.
Proof.
  intros Hk. pose proof (byte_val_range b). apply Z.bits_above_log2; [lia|].
  destruct (decide (byte_val b = 0)) as [->|]; [simpl; lia|].
  assert (Z.log2 (byte_val b) < 8) by (apply Z.log2_lt_pow2; lia). lia.
Qed.

(** Bit [n] of the number is a bit of the byte [n / 8] from the end. *)
Lemma testbit_be_val bs n : 0 <= n ->
  Z.testbit (be_val bs) n =
  match reverse bs !! Z.to_nat (n / 8) with
  | Some b => Z.testbit (byte_val b) (n mod 8)
  | None => false
  end.
Proof.
  revert n. induction bs as [|b bs IH] using rev_ind; intros n Hn.
  { rewrite Z.testbit_0_l. by destruct (Z.to_nat (n / 8)). }
  rewrite be_val_snoc, reverse_snoc.
  assert (be_val bs * 256 + byte_val b = Z.lor (Z.shiftl (be_val bs) 8) (byte_val b)) as ->.
  { pose proof (byte_val_range b). rewrite Z.shiftl_mul_pow2 by lia. change (2 ^ 8) with 256.
    symmetry. rewrite <- Z.lxor_lor, Z.add_nocarry_lxor; try done.
    all: apply Z.bits_inj'; intros k Hk; rewrite Z.land_spec, Z.bits_0;
      destruct (Z.ltb_spec k 8);
      [by rewrite (Z.mul_pow2_bits_low _ 8) by lia
      |by rewrite byte_bits_high, andb_false_r by lia]. }
  rewrite Z.lor_spec, Z.shiftl_spec by lia. destruct (Z.ltb_spec n 8).
  - rewrite Z.testbit_neg_r by lia. rewrite Z.div_small, Z.mod_small by lia. done.
  - rewrite IH by lia.
    replace (Z.to_nat (n / 8)) with (S (Z.to_nat ((n - 8) / 8))).
    2: { replace n with (n - 8 + 1 * 8) at 2 by lia. rewrite Z.div_add by lia.
         pose proof (Z.div_pos (n - 8) 8). lia. }
    replace ((n - 8) mod 8) with (n mod 8)
      by (replace n with (n - 8 + 1 * 8) at 1 by lia; apply Z.mod_add; lia).
    simpl. by rewrite byte_bits_high, orb_false_r by lia.
Qed.

Lemma reverse_lookup_some {A} (l : list A) j : (j < length l)%nat ->
  reverse l !! j = l !! (length l - 1 - j)%nat.
Proof.
  intros Hj. rewrite reverse_lookup by done. f_equal. lia.
Qed.

Lemma splice_one (l : Bytes) i b : 0 <= i < blen l ->
  splice l i [b] = Some (<[Z.to_nat i := b]> l).
Proof.
  intros Hi. unfold splice. change (blen [b]) with 1.
  rewrite (proj2 (andb_true_iff _ _)) by (split; apply Z.leb_le; lia). f_equal.
  unfold blen in Hi. rewrite insert_take_drop by lia. simpl. do 3 f_equal. lia.
Qed.

(** ** Blooms *)

Definition set_byte (b : byte) (bit : Z) : byte :=
  byte_of (Z.lor (byte_val b) (Z.shiftl 1 (bit mod 8))).

Lemma testbit_set_byte b bit k : 0 <= k < 8 ->
  Z.testbit (byte_val (set_byte b bit)) k = Z.testbit (byte_val b) k || (k =? bit mod 8).
Proof.
  intros Hk. unfold set_byte. rewrite byte_val_of. change 256 with (2 ^ 8).
  rewrite Z.mod_pow2_bits_low, Z.lor_spec by lia. f_equal.
  pose proof (Z.mod_pos_bound bit 8). rewrite Z.shiftl_1_l, Z.pow2_bits_eqb by lia.
  destruct (Z.eqb_spec k (bit mod 8)), (Z.eqb_spec (bit mod 8) k); congruence.
Qed.

Lemma bloom_set_spec bloom bit : length bloom = 256%nat -> 0 <= bit < 2048 ->
  exists b, bloom_set bloom bit = Some b /\ length b = 256%nat /\
    forall n, 0 <= n -> Z.testbit (be_val b) n = Z.testbit (be_val bloom) n || (n =? bit).
Proof.
  intros Hl Hb. unfold bloom_set, BLOOM_BYTE_LENGTH.
  assert (0 <= bit / 8 < 256) as Hq by (split; [apply Z.div_pos|apply Z.div_lt_upper_bound]; lia).
  rewrite unsigned_sub_some, bind_Some_eq by lia.
  destruct (bloom !! Z.to_nat (255 - bit / 8)) as [b|] eqn:E;
    [|apply lookup_ge_None in E; lia].
  unfold index. rewrite (proj2 (Z.leb_le _ _)) by lia.
  change (256 - 1 - bit / 8) with (255 - bit / 8). rewrite E, bind_Some_eq.
  rewrite splice_one by (unfold blen; lia). eexists. split; [reflexivity|].
  split; [by rewrite length_insert|]. intros n Hn. rewrite !testbit_be_val by done.
  assert (0 <= n / 8) by (apply Z.div_pos; lia).
  destruct (decide (Z.to_nat (n / 8) < 256)%nat) as [Hlt|Hge].
  - rewrite !reverse_lookup_some by (rewrite ?length_insert; lia). rewrite length_insert, Hl.
    destruct (decide (n / 8 = bit / 8)) as [En|En].
    + rewrite En. replace (256 - 1 - Z.to_nat (bit / 8))%nat with (Z.to_nat (255 - bit / 8)) by lia.
      rewrite list_lookup_insert_eq, E by lia. fold (set_byte b bit).
      pose proof (Z.mod_pos_bound n 8). rewrite testbit_set_byte by lia. f_equal.
      pose proof (Z.div_mod n 8). pose proof (Z.div_mod bit 8).
      destruct (Z.eqb_spec (n mod 8) (bit mod 8)), (Z.eqb_spec n bit); try done; subst; lia.
    + rewrite list_lookup_insert_ne by lia.
      replace (n =? bit) with false by (symmetry; apply Z.eqb_neq; congruence).
      by rewrite orb_false_r.
  - rewrite !(proj2 (lookup_ge_None _ _)) by (rewrite length_reverse, ?length_insert; lia).
    symmetry. apply Z.eqb_neq. intros ->. lia.
Qed.

(** [b] is a bloom with the bits of [bloom] and those of [P]. *)
Record extends (bloom b : Bytes) (P : Z -> Prop) : Prop := {
  ex_length : length b = 256%nat;
  ex_bits n : 0 <= n ->
    Z.testbit (be_val b) n = true <-> Z.testbit (be_val bloom) n = true \/ P n;
}.

(** [f] succeeds on blooms and adds the bits of [P]. *)
Definition adds (f : Bytes -> option Bytes) (P : Z -> Prop) : Prop :=
  forall bloom, length bloom = 256%nat -> exists b, f bloom = Some b /\ extends bloom b P.

Lemma adds_none (P : Z -> Prop) : (forall n, ~ P n) -> adds Some P.
Proof.
  intros Hn bloom Hl. exists bloom. split; [done|]. split; [done|].
  intros n _. pose proof (Hn n). tauto.
Qed.

Lemma adds_then f g (P Q R : Z -> Prop) : adds f P -> adds g Q ->
  (forall n, R n <-> P n \/ Q n) -> adds (fun b => f b ≫= g) R.
Proof.
  intros Hf Hg HR bloom Hl. destruct (Hf bloom Hl) as (b & Hb & [Hl1 Hb1]).
  destruct (Hg b Hl1) as (b2 & Hb2 & [Hl2 Hbits]). exists b2. rewrite Hb. split; [done|].
  split; [done|]. intros n Hn. rewrite Hbits, Hb1, HR by done. tauto.
Qed.

Lemma adds_ext f g (P : Z -> Prop) : (forall b, f b = g b) -> adds g P -> adds f P.
Proof. intros He Hg bloom Hl. rewrite He. by apply Hg. Qed.

Lemma adds_set bit : 0 <= bit < 2048 -> adds (fun b => bloom_set b bit) (fun n => n = bit).
Proof.
  intros Hb bloom Hl. destruct (bloom_set_spec bloom bit Hl Hb) as (b & Hs & Hlen & Hbits).
  exists b. split; [done|]. split; [done|]. intros n Hn.
  rewrite Hbits, orb_true_iff, Z.eqb_eq by done. done.
Qed.

Lemma bloom_bit_some h i : length h = 32%nat -> 0 <= i < 31 ->
  exists bit, bloom_bit h i = Some bit /\ 0 <= bit < 2048.
Proof.
  intros Hl Hi. unfold bloom_bit, index. rewrite !(proj2 (Z.leb_le _ _)) by lia.
  destruct (h !! Z.to_nat (i + 1)) as [b1|] eqn:E1; [|apply lookup_ge_None in E1; lia].
  destruct (h !! Z.to_nat i) as [b0|] eqn:E0; [|apply lookup_ge_None in E0; lia].
  eexists. split; [reflexivity|]. change 0x7FF with (Z.ones 11). rewrite Z.land_ones by lia.
  apply Z.mod_pos_bound. done.
Qed.

Section logs.
Context {KK : Keccak}.

(** The bits that a byte string selects. *)
Definition selects (x : Bytes) (n : Z) : Prop :=
  exists i, i ∈ [0; 2; 4] /\ bloom_bit (keccak_digest x) i = Some n.

Lemma adds_bits x l : Forall (fun i => 0 <= i < 31) l ->
  adds (bloom_sets (keccak_digest x) l)
    (fun n => exists i, i ∈ l /\ bloom_bit (keccak_digest x) i = Some n).
Proof.
  induction 1 as [|i l Hi _ IH]; simpl.
  { apply adds_none. intros n (i & Hi & _). set_solver. }
  destruct (bloom_bit_some (keccak_digest x) i (length_keccak_digest x) Hi) as (bit & Hb & Hr).
  rewrite Hb. eapply adds_then; [by apply adds_set|exact IH|].
  intros n. setoid_rewrite elem_of_cons. naive_solver.
Qed.

Lemma adds_m3 x : adds (fun b => m3_2048 b x) (selects x).
Proof. apply adds_bits. repeat constructor; lia. Qed.

Lemma adds_topics ts :
  adds (bloom_topics ts) (fun n => exists t, t ∈ ts /\ selects (be_bytes 32 t) n).
Proof.
  induction ts as [|t ts IH]; simpl.
  { apply adds_none. intros n (t & Ht & _). set_solver. }
  eapply adds_then; [apply adds_m3|exact IH|]. intros n. setoid_rewrite elem_of_cons. naive_solver.
Qed.

(** The bits of a log: those of its address and of its topics. *)
Definition log_selects (l : Log) (n : Z) : Prop :=
  selects (be_bytes 20 (log_address l)) n \/
  exists t, t ∈ log_topics l /\ selects (be_bytes 32 t) n.

Lemma adds_logs ls : adds (bloom_logs ls) (fun n => exists l, l ∈ ls /\ log_selects l n).
Proof.
  induction ls as [|l ls IH]; simpl.
  { apply adds_none. intros n (l & Hl & _). set_solver. }
  eapply adds_then; [apply adds_m3|apply (adds_then _ _ _ _ _ (adds_topics (log_topics l)) IH (fun n => iff_refl _))|].
  intros n. unfold log_selects. setoid_rewrite elem_of_cons. naive_solver.
Qed.

(** The bloom of a list of logs.  Computing it never panics, the result has
    256 bytes, and a bit is set exactly if the address or a topic of one of the
    logs selects it. *)
Theorem logs_bloom_correct ls : exists b, logs_bloom ls = Some b /\ length b = 256%nat /\
  forall n, 0 <= n ->
    Z.testbit (be_val b) n = true <-> exists l, l ∈ ls /\ log_selects l n.
Proof.
  destruct (adds_logs ls Bloom_zero eq_refl) as (b & Hb & [Hl Hbits]). exists b.
  split; [done|]. split; [done|]. intros n Hn. rewrite Hbits by done.
  replace (be_val Bloom_zero) with 0 by reflexivity. rewrite Z.testbit_0_l. naive_solver.
Qed.
End logs.
