(* ===== verification/Blockchain.v ===== *)
(** The chain of the consensus tests (src/consensus/blockchain.rs): insertion of
    blocks over the state in memory, with reorganisations.

    The struct keeps its state when a method returns an error, so a result
    carries the chain in both cases.  The processor writes to the state last and
    writing to memory does not fail: a block that is not executed leaves the
    state alone. *)
From S2P Require Import Prelude Word EvmState Host Interpreter Transaction IntraBlockState Consensus Precompiled EvmGlue MemState Rlp Processor.
From Stdlib Require Import ZArith Lia Strings.Byte.
From stdpp Require Import base list option numbers gmap.
#[local] Open Scope Z_scope.
Import ethash.

(** ** Results *)

Record Blockchain := {
  bc_state : InMemoryState;
  bad_blocks : gmap Z ValidationError;
  receipts : list Receipt;
}.

Inductive bresult (A : Type) :=
  | BOk (a : A) (c : Blockchain)
  | BErr (e : error) (c : Blockchain)
  | BPanic.
Arguments BOk {A} _ _.
Arguments BErr {A} _ _.
Arguments BPanic {A}.

Definition BM (A : Type) : Type := Blockchain -> bresult A.

#[export] Instance BM_ret : MRet BM := fun A a c => BOk a c.
#[export] Instance BM_bind : MBind BM := fun A B f m c =>
  match m c with
  | BOk a c => f a c
  | BErr e c => BErr e c
  | BPanic => BPanic
  end.

Definition b_get {A} (f : Blockchain -> A) : BM A := fun c => BOk (f c) c.
Definition b_lift {A} (r : result A) : BM A := fun c =>
  match r with
  | Consensus.ROk a => BOk a c
  | Consensus.RErr e => BErr e c
  | RPanic => BPanic
  end.
Definition b_unwrap {A} (o : option A) : BM A := b_lift (or_panic o).

(** [assert!(b)]. *)
Definition b_assert (b : bool) : BM unit := if b then mret () else b_unwrap None.

(** An update of [self.state]. *)
Definition b_state (f : InMemoryState -> InMemoryState) : BM unit := fun c =>
  BOk () {| bc_state := f (bc_state c); bad_blocks := bad_blocks c; receipts := receipts c |}.

(** [for x in l { f(x)?; }]. *)
Fixpoint b_for {A} (f : A -> BM unit) (l : list A) : BM unit :=
  match l with
  | [] => mret ()
  | x :: l => f x;; b_for f l
  end.

(** [a + 1..=b]. *)
Definition range (a b : Z) : list Z := (fun i : nat => a + 1 + Z.of_nat i) <$> seq 0 (Z.to_nat (b - a)).

(** [e.downcast_ref::<ValidationError>()] looks through contexts. *)
Fixpoint downcast (e : error) : option ValidationError :=
  match e with
  | Validation e => Some e
  | Context c _ => Some c
  | AtTransaction _ e | AtBlock _ e => downcast e
  | StateError | ClockError | UnsupportedEngine => None
  end.

(** ** Blocks *)

Record BlockWithSenders := {
  bws_header : PartialHeader;
  bws_transactions : list MessageWithSender;
  bws_ommers : list BlockHeader;
}.

(** [From<Block>]; a transaction without a sender is a panic. *)
Definition BlockWithSenders_from `{SigningHash, Secp256k1, Keccak} (block : Block)
    : option BlockWithSenders :=
  transactions ← recover_senders (block_transactions block);
  Some {| bws_header := partial.of_header (block_header block);
          bws_transactions := transactions;
          bws_ommers := block_ommers block |}.

Record WithHash (A : Type) := { inner : A; hash : Z }.
Arguments inner {A} _.
Arguments hash {A} _.

Module blockchain.

Section chain.
Context {C T : Type} `{Keccak} `{LruCache C} `{!StartTracer T} {TT : Tracer T} `{I256Ops}.
Context `{AddressCodec} `{Hashes} `{Secp256k1} `{BigUint} `{AltBn128} `{RlpStream} `{Codec}.
Context `{SigningHash} `{TrieRoot} `{AccountCodec}.
Context (empty_cache : C) (config : ChainSpec) (engine : Ethash) (now : option Z).

(** [Blockchain::new_with_consensus]. *)
Definition new_with_consensus (state : InMemoryState) (genesis_block : Block)
    : option Blockchain :=
  let hash := header_hash (block_header genesis_block) in
  let number := header.number (block_header genesis_block) in
  state ← mem.insert_block genesis_block hash state;
  Some {| bc_state := mem.canonize_block number hash state; bad_blocks := ∅; receipts := [] |}.

(** [self.execute_block]: the new state, or the error with the state it leaves. *)
Definition execute_block (block : BlockWithSenders) (check_state_root : bool) : BM unit := fun c =>
  let body := {| with_senders_transactions := bws_transactions block;
                 with_senders_ommers := bws_ommers block |} in
  let header := bws_header block in
  let block_spec := collect_block_spec config (partial.number header) in
  match processor.execute_and_write_block (T := T) header body block_spec
          (processor.new (bc_state c) None empty_cache) with
  | Consensus.ROk (_, state, _) =>
      let written := {| bc_state := state; bad_blocks := bad_blocks c; receipts := receipts c |} in
      if check_state_root then
        let state_root := mem.state_root_hash state in
        if negb (state_root =? partial.state_root header) then
          (b_state (mem.unwind_state_changes (partial.number header));;
           b_lift (fail (WrongStateRoot (partial.state_root header) state_root))) written
        else BOk () written
      else BOk () written
  | Consensus.RErr e => BErr e c
  | RPanic => BPanic
  end.

(** A panic instead of an error. *)
Definition b_unwrap_result {A} (m : BM A) : BM A := fun c =>
  match m c with BErr _ _ => BPanic | r => r end.

(** The body of the loop of [re_execute_canonical_chain]. *)
Definition re_execute (block_number : Z) : BM unit :=
  s ← b_get bc_state;
  hash ← b_unwrap (mem.canonical_hash s block_number);
  body ← b_lift (or_state_error (mem.read_body_with_senders s block_number hash));
  body ← b_unwrap body;
  header ← b_unwrap (mem.mem_read_header s block_number hash);
  b_unwrap_result (execute_block
    {| bws_header := partial.of_header header;
       bws_transactions := with_senders_transactions body;
       bws_ommers := with_senders_ommers body |} false).

Definition re_execute_canonical_chain (ancestor tip : Z) : BM unit :=
  b_assert (ancestor <=? tip);;
  b_for re_execute (range ancestor tip).

Definition unwind_last_changes (ancestor tip : Z) : BM unit :=
  b_assert (ancestor <=? tip);;
  b_for (fun n => b_state (mem.unwind_state_changes n)) (reverse (range ancestor tip)).

(** The loop of [intermediate_chain], from the newest block; the result is in
    the order of the numbers. *)
Fixpoint collect_chain (s : InMemoryState) (numbers : list Z) (hash : Z)
    (chain : list (WithHash BlockWithSenders)) : result (list (WithHash BlockWithSenders)) :=
  match numbers with
  | [] => Consensus.ROk chain
  | n :: numbers =>
      body ← or_state_error (mem.read_body_with_senders s n hash);
      body ← or_panic body;
      header ← or_panic (mem.mem_read_header s n hash);
      let block := {| inner := {| bws_header := partial.of_header header;
                                  bws_transactions := with_senders_transactions body;
                                  bws_ommers := with_senders_ommers body |};
                      hash := hash |} in
      collect_chain s numbers (partial.parent_hash (bws_header (inner block))) (block :: chain)
  end.

Definition intermediate_chain (s : InMemoryState) (block_number hash canonical_ancestor : Z)
    : result (list (WithHash BlockWithSenders)) :=
  (* the capacity of the vector *)
  _ ← or_panic (unsigned_sub block_number canonical_ancestor);
  collect_chain s (reverse (range canonical_ancestor block_number)) hash [].

(** The recursion goes from a block to its parent: the number of the block is
    enough fuel. *)
Fixpoint canonical_ancestor (s : InMemoryState) (fuel : nat) (header : PartialHeader) (hash : Z)
    : result Z :=
  if bool_decide (mem.canonical_hash s (partial.number header) = Some hash) then
    Consensus.ROk (partial.number header)
  else
    match fuel with
    | O => RPanic
    | S fuel =>
        n ← or_panic (unsigned_sub (partial.number header) 1);
        parent ← ok_or (mem.mem_read_header s n (partial.parent_hash header)) UnknownParent;
        canonical_ancestor s fuel (partial.of_header parent) (partial.parent_hash header)
    end.

Definition ancestor_fuel (h : PartialHeader) : nat := S (Z.to_nat (partial.number h)).

(** [Err(e)] of the execution of a block of the new chain: the block is marked
    and the canonical chain restored. *)
Definition restore_canonical (hash ancestor executed current : Z) (e : error) : BM unit :=
  match downcast e with
  | Some v =>
      (fun c => BOk () {| bc_state := bc_state c; bad_blocks := <[hash := v]> (bad_blocks c);
                          receipts := receipts c |});;
      tip ← b_unwrap (u64_checked (ancestor + executed));
      unwind_last_changes ancestor tip;;
      re_execute_canonical_chain ancestor current
  | None => mret ()
  end;;
  b_lift (Consensus.RErr e).

(** The loop over the new chain of the block [block_number]; [executed] blocks of
    it have been executed. *)
Fixpoint execute_chain (block_number hash ancestor current : Z) (check_state_root : bool)
    (executed : Z) (chain : list (WithHash BlockWithSenders)) : BM Z :=
  match chain with
  | [] => mret executed
  | x :: chain => fun c =>
      match execute_block (inner x) check_state_root c with
      | BOk _ c =>
          execute_chain block_number hash ancestor current check_state_root (executed + 1) chain c
      | BErr e c =>
          (restore_canonical hash ancestor executed current (AtBlock block_number e);;
           b_unwrap None) c
      | BPanic => BPanic
      end
  end.

(** The choice between the new chain and the canonical one. *)
Definition choose_fork (ancestor current executed block_number hash : Z)
    (chain : list (WithHash BlockWithSenders)) : BM unit :=
  s ← b_get bc_state;
  current_hash ← b_unwrap (mem.canonical_hash s current);
  current_total_difficulty ← b_unwrap (mem.total_difficulty s current current_hash);
  total_difficulty ← b_unwrap (mem.total_difficulty s block_number hash);
  if current_total_difficulty <? total_difficulty then
    b_for (fun i => b_state (mem.decanonize_block i)) (reverse (range ancestor current));;
    b_for (fun x => b_state (mem.canonize_block (partial.number (bws_header (inner x)))
                                (Blockchain.hash x))) chain
  else
    tip ← b_unwrap (u64_checked (ancestor + executed));
    unwind_last_changes ancestor tip;;
    re_execute_canonical_chain ancestor current.

(** From the recovery of the senders on. *)
Definition insert_validated (block : Block) (hash : Z) (check_state_root : bool) : BM unit :=
  b ← b_unwrap (BlockWithSenders_from block);
  s ← b_get bc_state;
  ancestor ← b_lift (canonical_ancestor s (ancestor_fuel (bws_header b)) (bws_header b) hash);
  current ← b_unwrap (mem.current_canonical_block s);
  unwind_last_changes ancestor current;;
  let block_number := partial.number (bws_header b) in
  parent_number ← b_unwrap (unsigned_sub block_number 1);
  s ← b_get bc_state;
  chain ← b_lift (intermediate_chain s parent_number (partial.parent_hash (bws_header b)) ancestor);
  let chain := chain ++ [{| inner := b; hash := hash |}] in
  executed ← execute_chain block_number hash ancestor current check_state_root 0 chain;
  s ← b_get bc_state;
  s ← b_unwrap (mem.insert_block block hash s);
  b_state (fun _ => s);;
  choose_fork ancestor current executed block_number hash chain.

Definition insert_block (block : Block) (check_state_root : bool) : BM unit :=
  s ← b_get bc_state;
  b_lift (ethash_validate_block_header now engine s (block_header block) true);;
  b_lift (ethash_pre_validate_block now engine s block);;
  let hash := header_hash (block_header block) in
  bad ← b_get (fun c => bad_blocks c !! hash);
  match bad with
  | Some error => b_lift (fail error)
  | None => insert_validated block hash check_state_root
  end.

End chain.

End blockchain.
