(* ===== verification/BlockchainSpec.v ===== *)
(** Properties of the insertion of blocks: the canonical chain stays linked
    through reorganisations and failed insertions, a failed block at the tip
    leaves the world alone, and fork choice follows the total difficulty. *)
From S2P Require Import Prelude Word EvmState Host Interpreter Transaction IntraBlockState Journal BlockState Consensus Precompiled PrecompiledSpec EvmGlue EvmGlueSpec MemState MemStateSpec Rlp Processor Samples ProcessorSpec Blockchain.
From Stdlib Require Import ZArith Lia Strings.Byte.
From stdpp Require Import base list option numbers gmap.
#[local] Open Scope Z_scope.
Import ethash mem.

(** ** The chain part of the state *)

Record same_chain (m m' : InMemoryState) : Prop := {
  sc_headers : headers m' = headers m;
  sc_bodies : bodies m' = bodies m;
  sc_difficulty : mem_difficulty m' = mem_difficulty m;
  sc_canonical : canonical_hashes m' = canonical_hashes m;
}.

#[export] Instance same_chain_equiv : Equivalence same_chain.
Proof.
  split; [by split|..].
  - intros m m' []. by split.
  - intros m1 m2 m3 [] []. split; congruence.
Qed.

Lemma same_chain_world m a c s ac sc n : same_chain m (with_world m a c s ac sc n).
Proof. by split. Qed.

Lemma same_chain_loop {A} (f : A -> InMemoryState -> option InMemoryState) l d d' :
  (forall x d d', f x d = Some d' -> same_chain d d') ->
  ibs.db_for_each f l d = Some d' -> same_chain d d'.
Proof.
  intros Hf. revert d. induction l as [|x l IH]; intros d; simpl; [by intros [= <-]|].
  intros (d1 & H1 & H2)%bind_Some. etrans; [by eapply Hf|by eapply IH].
Qed.

Lemma same_chain_write {KK : Keccak} n s d : ibs.write_to_db n s = Some d -> same_chain (db s) d.
Proof.
  unfold ibs.write_to_db. intros (d1 & H1 & (d2 & H2 & (d3 & H3 & H4)%bind_Some)%bind_Some)%bind_Some.
  apply same_chain_loop in H1; [|intros [] ? ?; simpl; case_match; intros [= <-]; [apply same_chain_world|done]].
  apply same_chain_loop in H3; [|intros [] ? ?; intros [= <-]; apply same_chain_world].
  apply same_chain_loop in H4; [|intros [] ? ?; intros [= <-]; apply same_chain_world].
  apply same_chain_loop in H2.
  - etrans; [|exact H4]. etrans; [|exact H3]. etrans; [|exact H2]. etrans; [|exact H1].
    apply same_chain_world.
  - intros [a st] e e'. simpl. case_match; [|by intros [= <-]].
    apply same_chain_loop. intros [] ? ? [= <-]. apply same_chain_world.
Qed.

(** ** Computations that leave the chain part alone *)

Definition final {A} (r : bresult A) : option Blockchain :=
  match r with BOk _ c | BErr _ c => Some c | BPanic => None end.

Definition on_world {A} (m : BM A) : Prop := forall c c',
  final (m c) = Some c' -> same_chain (bc_state c) (bc_state c').

Lemma on_world_bind {A B} (m : BM A) (k : A -> BM B) :
  on_world m -> (forall x, on_world (k x)) -> on_world (m ≫= k).
Proof.
  intros Hm Hk c c'. specialize (Hm c). unfold mbind, BM_bind. destruct (m c) as [a c1|e c1|]; simpl.
  - intros Hf. etrans; [by apply Hm|by eapply Hk].
  - intros [= <-]. by apply Hm.
  - done.
Qed.

Lemma on_world_ret {A} (x : A) : on_world (mret x).
Proof. by intros c c' [= <-]. Qed.
Lemma on_world_get {A} (f : Blockchain -> A) : on_world (b_get f).
Proof. by intros c c' [= <-]. Qed.
Lemma on_world_lift {A} (r : result A) : on_world (b_lift r).
Proof. intros c c'. destruct r; simpl; [by intros [= <-]..|done]. Qed.
Lemma on_world_unwrap {A} (o : option A) : on_world (b_unwrap o).
Proof. apply on_world_lift. Qed.
Lemma on_world_assert b : on_world (b_assert b).
Proof. destruct b; [apply on_world_ret|apply on_world_unwrap]. Qed.
Lemma on_world_unwind n : on_world (b_state (unwind_state_changes n)).
Proof. intros c c' [= <-]. apply same_chain_world. Qed.
Lemma on_world_for {A} (f : A -> BM unit) l : (forall x, on_world (f x)) -> on_world (b_for f l).
Proof.
  intros Hf. induction l; simpl; [apply on_world_ret|]. apply on_world_bind; [apply Hf|done].
Qed.

Section chain.
Context {C T : Type} {KK : Keccak} {LC : LruCache C} `{!StartTracer T} {TT : Tracer T}.
Context {IO : I256Ops} {AC : AddressCodec} {HS : Hashes} {SP : Secp256k1} {BU : BigUint}.
Context {AB : AltBn128} {RS : RlpStream} {CD : Codec} {SH : SigningHash}.
Context {TR : TrieRoot} {AD : AccountCodec}.
Context (empty_cache : C) (config : ChainSpec) (engine : Ethash) (now : option Z).

Lemma on_world_execute b check :
  on_world (blockchain.execute_block (T := T) empty_cache config b check).
Proof.
  intros c c'. unfold blockchain.execute_block.
  destruct (processor.execute_and_write_block _ _ _ _) as [[[rs d] ca]|e|] eqn:E; simpl;
    [|by intros [= <-]|done].
  apply executed_block in E as (_ & p & _ & Hr & _ & Hw). apply same_chain_write in Hw.
  rewrite (fa_db _ _ (faithful_run _ _ _ Hr (faithful_new (bc_state c)))) in Hw.
  assert (forall (m : BM unit), on_world m ->
    final (m {| bc_state := d; bad_blocks := bad_blocks c; receipts := receipts c |}) = Some c' ->
    same_chain (bc_state c) (bc_state c')) as Hm.
  { intros m Hm Hf. etrans; [exact Hw|]. by apply Hm in Hf. }
  destruct check; [case_match|].
  - apply (Hm (b_state (unwind_state_changes _);; b_lift (fail _))).
    apply on_world_bind; [apply on_world_unwind|]. intros. apply on_world_lift.
  - apply (Hm (mret ())), on_world_ret.
  - apply (Hm (mret ())), on_world_ret.
Qed.

Lemma on_world_unwrap_result {A} (m : BM A) : on_world m -> on_world (blockchain.b_unwrap_result m).
Proof.
  intros Hm c c'. specialize (Hm c c'). unfold blockchain.b_unwrap_result.
  by destruct (m c).
Qed.

Create HintDb on_world.
#[local] Hint Resolve on_world_ret on_world_get on_world_lift on_world_unwrap on_world_assert
  on_world_unwind on_world_execute on_world_unwrap_result on_world_for on_world_bind : on_world.

Lemma on_world_re_execute a t :
  on_world (blockchain.re_execute_canonical_chain (T := T) empty_cache config a t).
Proof.
  apply on_world_bind; [auto with on_world|]. intros _. apply on_world_for. intros n.
  unfold blockchain.re_execute. auto 10 with on_world.
Qed.

Lemma on_world_unwind_last a t : on_world (blockchain.unwind_last_changes a t).
Proof. unfold blockchain.unwind_last_changes. auto with on_world. Qed.
#[local] Hint Resolve on_world_re_execute on_world_unwind_last : on_world.

Lemma on_world_restore h a n t e :
  on_world (blockchain.restore_canonical (T := T) empty_cache config h a n t e).
Proof.
  unfold blockchain.restore_canonical. apply on_world_bind; [|auto with on_world].
  destruct (downcast e); [|auto with on_world]. apply on_world_bind; [|auto 10 with on_world].
  by intros c c' [= <-].
Qed.

Lemma on_world_chain bn h a t check chain n :
  on_world (blockchain.execute_chain (T := T) empty_cache config bn h a t check n chain).
Proof.
  revert n. induction chain as [|x chain IH]; intros n; simpl; [auto with on_world|].
  intros c c'. pose proof (on_world_execute (inner x) check c) as Hx.
  destruct (blockchain.execute_block _ _ _ _ _) as [[] c1|e c1|]; simpl; [| |done].
  - intros Hf. etrans; [by apply Hx|by eapply IH].
  - intros Hf. etrans; [by apply Hx|]. revert Hf. apply on_world_bind; [|auto with on_world].
    apply on_world_restore.
Qed.
End chain.

(** ** Links *)

(** The canonical chain: not empty, every block of it known, and each the child
    of the one before; a header is stored under its number, and there is one
    genesis block. *)
Record chain_wf (m : InMemoryState) : Prop := {
  cw_genesis : canonical_hashes m <> [];
  cw_known n h : canonical_hash m n = Some h -> is_Some (mem_read_header m n h);
  cw_link n h hd : 0 < n -> canonical_hash m n = Some h -> mem_read_header m n h = Some hd ->
    canonical_hash m (n - 1) = Some (header.parent_hash hd);
  cw_number n h hd : mem_read_header m n h = Some hd -> header.number hd = n;
  cw_first h hd : mem_read_header m 0 h = Some hd -> canonical_hash m 0 = Some h;
}.

Lemma chain_wf_same m m' : same_chain m m' -> chain_wf m -> chain_wf m'.
Proof.
  intros [Hh _ _ Hc] [Hg Hk Hl Hn Hf]. unfold canonical_hash, mem_read_header in *.
  split; unfold canonical_hash, mem_read_header; rewrite ?Hh, ?Hc; done.
Qed.

(** A path of blocks that are known, from the child of [p] at [n + 1]. *)
Fixpoint linked (m : InMemoryState) (n p : Z) (chain : list (WithHash BlockWithSenders)) : Prop :=
  match chain with
  | [] => True
  | x :: chain =>
      partial.number (bws_header (inner x)) = n + 1 /\
      (exists hd, mem_read_header m (n + 1) (hash x) = Some hd /\ header.parent_hash hd = p) /\
      linked m (n + 1) (hash x) chain
  end.

(** The hash at the end of a path. *)
Fixpoint end_of (p : Z) (chain : list (WithHash BlockWithSenders)) : Z :=
  match chain with [] => p | x :: chain => end_of (hash x) chain end.

Lemma linked_snoc m n p chain x : linked m n p chain ->
  partial.number (bws_header (inner x)) = n + blen chain + 1 ->
  (exists hd, mem_read_header m (n + blen chain + 1) (hash x) = Some hd /\
     header.parent_hash hd = end_of p chain) ->
  linked m n p (chain ++ [x]).
Proof.
  revert n p. induction chain as [|y chain IH]; intros n p; simpl.
  - change (blen (@nil (WithHash BlockWithSenders))) with 0. rewrite Z.add_0_r. tauto.
  - intros (Hn & Hy & Hl). unfold blen in *. simpl. rewrite Nat2Z.inj_succ.
    replace (n + Z.succ (Z.of_nat (length chain)) + 1)
      with (n + 1 + Z.of_nat (length chain) + 1) by lia.
    intros Hx Hhd. split; [done|]. split; [done|]. by apply IH.
Qed.

Lemma linked_mono m m' n p chain :
  (forall i h hd, i <= n + blen chain -> mem_read_header m i h = Some hd ->
     mem_read_header m' i h = Some hd) ->
  linked m n p chain -> linked m' n p chain.
Proof.
  revert n p. induction chain as [|x chain IH]; intros n p Hm; simpl; [done|].
  assert (n + blen (x :: chain) = n + 1 + blen chain) as E by (unfold blen; simpl; lia).
  rewrite E in Hm. pose proof (blen_nonneg chain).
  intros (Hn & (hd & Hr & Hp) & Hl). split; [done|]. split; [exists hd; split; [apply Hm; [lia|done]|done]|].
  by apply IH.
Qed.

(** ** Canonising a path *)

Lemma grow_to_snoc {A} (v : list A) n x : blen v = n -> grow_to v n x = v ++ [x].
Proof.
  intros Hn. unfold grow_to. rewrite (proj2 (Z.leb_le _ _)) by lia. unfold vec_resize, blen in *.
  rewrite take_ge by lia. replace (Z.to_nat (n + 1) - length v)%nat with 1%nat by lia. done.
Qed.

Lemma canonize_next m n h : blen (canonical_hashes m) = n ->
  canonical_hashes (canonize_block n h m) = canonical_hashes m ++ [h].
Proof.
  intros Hn. simpl. rewrite (grow_to_snoc _ _ _ Hn). unfold blen in Hn.
  rewrite insert_app_r_alt by lia.
  by replace (Z.to_nat n - length (canonical_hashes m))%nat with 0%nat by lia.
Qed.

(** The state after the blocks of a path are made canonical. *)
Definition canonize_path (chain : list (WithHash BlockWithSenders)) (m : InMemoryState)
    : InMemoryState :=
  foldl (fun m x => canonize_block (partial.number (bws_header (inner x))) (hash x) m) m chain.

Lemma canonize_path_hashes m0 n p chain m : linked m0 n p chain ->
  blen (canonical_hashes m) = n + 1 ->
  canonical_hashes (canonize_path chain m) = canonical_hashes m ++ (hash <$> chain) /\
  headers (canonize_path chain m) = headers m /\ bodies (canonize_path chain m) = bodies m /\
  mem_difficulty (canonize_path chain m) = mem_difficulty m.
Proof.
  revert n p m. induction chain as [|x chain IH]; intros n p m; simpl.
  { intros _ _. by rewrite app_nil_r. }
  intros (Hn & _ & Hl) Hb. rewrite Hn.
  pose proof (canonize_next m (n + 1) (hash x) Hb) as Hc.
  destruct (IH (n + 1) (hash x) (canonize_block (n + 1) (hash x) m) Hl) as (-> & Hh & Hbd & Hd).
  - rewrite Hc, blen_app, Hb. unfold blen. simpl. lia.
  - rewrite Hc, <- app_assoc. done.
Qed.

Lemma b_for_state {A} (f : A -> InMemoryState -> InMemoryState) l c :
  b_for (fun x => b_state (f x)) l c =
  BOk () {| bc_state := foldl (fun m x => f x m) (bc_state c) l; bad_blocks := bad_blocks c;
            receipts := receipts c |}.
Proof.
  revert c. induction l as [|x l IH]; intros c; simpl; [by destruct c|].
  unfold mbind, BM_bind. simpl. by rewrite IH.
Qed.

(** Removing the canonical blocks above [a]. *)
Lemma decanonize_range m a b : 0 <= a -> a <= b ->
  blen (canonical_hashes m) = b + 1 ->
  let m' := foldl (fun m i => decanonize_block i m) m (reverse (range a b)) in
  canonical_hashes m' = take (Z.to_nat (a + 1)) (canonical_hashes m) /\
  headers m' = headers m /\ bodies m' = bodies m /\ mem_difficulty m' = mem_difficulty m.
Proof.
  intros Ha Hab Hb. remember (Z.to_nat (b - a)) as k eqn:Hk. revert b m Hab Hb Hk.
  induction k as [|k IH]; intros b m Hab Hb Hk; unfold range; rewrite <- Hk.
  - simpl. unfold blen in Hb. rewrite take_ge by lia. done.
  - rewrite seq_S, fmap_app, reverse_app. simpl.
    specialize (IH (b - 1) (decanonize_block (a + 1 + Z.of_nat k) m)).
    unfold range in IH. replace (Z.to_nat (b - 1 - a)) with k in IH by lia.
    destruct IH as (-> & Hh & Hbd & Hd); [lia| |done|].
    + simpl. unfold blen in *. rewrite length_take. lia.
    + split; [|done]. simpl. rewrite take_take. f_equal. lia.
Qed.

(** ** From a block to its canonical ancestor *)

(** Going up the parents from the block [h] at [n] one comes to [p] at [a]. *)
Inductive reaches (m : InMemoryState) : Z -> Z -> Z -> Z -> Prop :=
  | reaches_here n h : reaches m n h n h
  | reaches_up n h hd a p : mem_read_header m n h = Some hd ->
      reaches m (n - 1) (header.parent_hash hd) a p -> reaches m n h a p.

Lemma reaches_le m n h a p : reaches m n h a p -> a <= n.
Proof. induction 1; lia. Qed.

Lemma reaches_fun m n h a p p' : reaches m n h a p -> reaches m n h a p' -> p = p'.
Proof.
  induction 1 as [n h|n h hd a p Hr Hu IH]; inversion 1 as [|? ? hd' ? ? Hr' Hu']; subst.
  - done.
  - apply reaches_le in Hu'. lia.
  - apply reaches_le in Hu. lia.
  - rewrite Hr in Hr'. injection Hr' as <-. by apply IH.
Qed.

Lemma canonical_ancestor_reaches m fuel h hash a : chain_wf m ->
  blockchain.canonical_ancestor m fuel h hash = Consensus.ROk a ->
  (a = partial.number h /\ canonical_hash m a = Some hash) \/
  (exists p, reaches m (partial.number h - 1) (partial.parent_hash h) a p /\
     canonical_hash m a = Some p).
Proof.
  intros Hw. revert h hash. induction fuel as [|fuel IH]; intros h hash; simpl;
    (case_bool_decide; [intros [= <-]; by left|]); [done|].
  unfold mbind, result_bind, or_panic, ok_or, fail.
  destruct (unsigned_sub _ _) as [n|] eqn:En; [|done]. apply unsigned_sub_inv in En as [_ ->].
  destruct (mem_read_header _ _ _) as [hd|] eqn:Eh; [|done]. intros Ha. right.
  pose proof (cw_number _ Hw _ _ _ Eh) as Hn.
  destruct (IH _ _ Ha) as [[-> Hc]|(p & Hr & Hc)]; simpl in *.
  - exists (partial.parent_hash h). rewrite Hn in *. split; [constructor|done].
  - exists p. rewrite Hn in Hr. split; [by eapply reaches_up|done].
Qed.

(** The fuel is enough: the search ends at the latest at the genesis block. *)
Lemma canonical_ancestor_fuel m fuel h hash : chain_wf m ->
  0 <= partial.number h -> (Z.to_nat (partial.number h) < fuel)%nat ->
  (partial.number h = 0 -> canonical_hash m 0 = Some hash) ->
  blockchain.canonical_ancestor m fuel h hash <> RPanic.
Proof.
  intros Hw. revert h hash. induction fuel as [|fuel IH]; intros h hash Hn Hf H0; [lia|].
  simpl. case_bool_decide as Hc; [done|]. unfold mbind, result_bind, or_panic, ok_or, fail.
  assert (partial.number h <> 0) by (intros E; rewrite E in Hc; by apply Hc, H0).
  rewrite unsigned_sub_some by lia. destruct (mem_read_header _ _ _) as [hd|] eqn:Eh; [|done].
  pose proof (cw_number _ Hw _ _ _ Eh) as Hnum.
  apply IH; simpl; rewrite Hnum; [lia|lia|]. intros E. rewrite E in Eh. by eapply cw_first.
Qed.

Lemma range_top a n : a < n -> reverse (range a n) = n :: reverse (range a (n - 1)).
Proof.
  intros Han. unfold range. replace (Z.to_nat (n - a)) with (S (Z.to_nat (n - 1 - a))) by lia.
  rewrite seq_S, fmap_app, reverse_app. simpl. f_equal. lia.
Qed.

Lemma range_empty a n : n <= a -> range a n = [].
Proof. intros Hn. unfold range. by replace (Z.to_nat (n - a)) with 0%nat by lia. Qed.

Section collect.
Context {KK : Keccak} {SP : Secp256k1} {SH : SigningHash}.

Lemma collect_chain_linked m a n h acc chain : chain_wf m -> a <= n ->
  blockchain.collect_chain m (reverse (range a n)) h acc = Consensus.ROk chain ->
  exists p pre, chain = pre ++ acc /\ reaches m n h a p /\ linked m a p pre /\
    end_of p pre = h /\ blen pre = n - a.
Proof.
  intros Hw Han. remember (Z.to_nat (n - a)) as k eqn:Hk. revert n h acc Han Hk.
  induction k as [|k IH]; intros n h acc Han Hk.
  { assert (n = a) as -> by lia. rewrite range_empty by lia. intros [= <-].
    exists h, []. splits; try done; [constructor|unfold blen; simpl; lia]. }
  rewrite range_top by lia. simpl. unfold mbind, result_bind, or_state_error, or_panic.
  destruct (read_body_with_senders _ _ _) as [[body|]|]; [|done..].
  destruct (mem_read_header m n h) as [hd|] eqn:Eh; [|done]. simpl.
  intros (p & pre & -> & Hr & Hl & He & Hb)%IH; [|lia|lia].
  match goal with |- context [?x :: acc] => set (blk := x) end.
  exists p, (pre ++ [blk]). splits.
  - by rewrite <- app_assoc.
  - by eapply reaches_up.
  - apply linked_snoc; [done|..].
    + simpl. rewrite (cw_number _ Hw _ _ _ Eh). lia.
    + rewrite Hb. replace (a + (n - 1 - a) + 1) with n by lia. exists hd. by rewrite He.
  - clear. generalize p. induction pre as [|x pre IH]; intros q; simpl; [done|apply IH].
  - rewrite blen_app, Hb. change (blen [blk]) with 1. lia.
Qed.
End collect.

(** ** Steps of the chain *)

Lemma canonical_snoc m n h i : blen (canonical_hashes m) = n ->
  canonical_hash (canonize_block n h m) i = if i =? n then Some h else canonical_hash m i.
Proof.
  intros Hn. unfold canonical_hash, index. rewrite (canonize_next m n h Hn). unfold blen in Hn.
  destruct (Z.leb_spec 0 i); [|destruct (Z.eqb_spec i n); [lia|done]].
  destruct (Z.eqb_spec i n) as [->|].
  - rewrite lookup_app_r by lia.
    by replace (Z.to_nat n - length (canonical_hashes m))%nat with 0%nat by lia.
  - destruct (decide (i < n)).
    + by rewrite lookup_app_l by lia.
    + rewrite !(proj2 (lookup_ge_None _ _)); [done|lia|]. rewrite length_app. simpl. lia.
Qed.

Lemma canonical_range m i h : canonical_hash m i = Some h -> 0 <= i < blen (canonical_hashes m).
Proof.
  unfold canonical_hash, index. destruct (Z.leb_spec 0 i); [|done].
  intros Hl%lookup_lt_Some. unfold blen. lia.
Qed.

Lemma wf_canonize m n h hd : chain_wf m -> 0 < n -> blen (canonical_hashes m) = n ->
  mem_read_header m n h = Some hd ->
  canonical_hash m (n - 1) = Some (header.parent_hash hd) -> chain_wf (canonize_block n h m).
Proof.
  intros Hw Hn Hb Hh Hp. pose proof Hw as [].
  assert (forall k x, mem_read_header (canonize_block n h m) k x = mem_read_header m k x) as Er
    by done.
  split.
  - rewrite (canonize_next m n h Hb). by destruct (canonical_hashes m).
  - intros i x. rewrite canonical_snoc, Er by done. destruct (Z.eqb_spec i n) as [->|]; [|eauto].
    intros [= <-]. by rewrite Hh.
  - intros i x hx Hi. rewrite !canonical_snoc, Er by done.
    destruct (Z.eqb_spec i n) as [->|Hne].
    + intros [= <-] Hx. rewrite Hh in Hx. injection Hx as <-.
      by rewrite (proj2 (Z.eqb_neq _ _)) by lia.
    + intros Hx Hr. pose proof (canonical_range _ _ _ Hx).
      rewrite (proj2 (Z.eqb_neq _ _)) by lia. by eapply cw_link0.
  - eauto.
  - intros x hx Hx. rewrite canonical_snoc by done. rewrite (proj2 (Z.eqb_neq _ _)) by lia. eauto.
Qed.

Lemma canonical_take m n i : 0 <= n ->
  canonical_hash (decanonize_block n m) i = if i <? n then canonical_hash m i else None.
Proof.
  intros Hn. unfold canonical_hash, index. simpl. destruct (Z.leb_spec 0 i).
  - destruct (Z.ltb_spec i n); [by rewrite lookup_take_lt by lia|by rewrite lookup_take_ge by lia].
  - by destruct (i <? n).
Qed.

Lemma wf_decanonize m n : chain_wf m -> 0 < n -> chain_wf (decanonize_block n m).
Proof.
  intros [] Hn. split.
  - simpl. destruct (canonical_hashes m); [done|].
    by replace (Z.to_nat n) with (S (Z.to_nat (n - 1))) by lia.
  - intros i h. rewrite canonical_take by lia. case_match; [|done]. apply cw_known0.
  - intros i h hd Hi. rewrite !canonical_take by lia. case_match eqn:E; [|done].
    rewrite (proj2 (Z.ltb_lt _ _)) by lia. by apply cw_link0.
  - apply cw_number0.
  - intros h hd Hh. rewrite canonical_take, (proj2 (Z.ltb_lt _ _)) by lia. by eapply cw_first0.
Qed.

Lemma wf_decanonize_range m a b : chain_wf m -> 0 <= a ->
  chain_wf (foldl (fun m i => decanonize_block i m) m (reverse (range a b))).
Proof.
  intros Hw Ha. assert (Forall (fun i => 0 < i) (reverse (range a b))) as Hf.
  { apply Forall_reverse, Forall_fmap, Forall_forall. intros i _. simpl. lia. }
  revert m Hw. induction Hf as [|i l Hi _ IH]; intros m Hw; simpl; [done|].
  by apply IH, wf_decanonize.
Qed.

Lemma wf_canonize_path m n p chain : chain_wf m -> 0 <= n -> linked m n p chain ->
  blen (canonical_hashes m) = n + 1 -> canonical_hash m n = Some p ->
  chain_wf (canonize_path chain m).
Proof.
  revert n p m. induction chain as [|x chain IH]; intros n p m Hw Hn; simpl; [done|].
  intros (Hx & (hd & Hh & Hp) & Hl) Hb Hc. rewrite Hx.
  apply (IH (n + 1) (hash x)).
  - apply (wf_canonize m (n + 1) (hash x) hd); [done|lia|done|done|].
    replace (n + 1 - 1) with n by lia. by rewrite Hp.
  - lia.
  - by eapply linked_mono; [|exact Hl].
  - rewrite canonize_next, blen_app, Hb by done. done.
  - rewrite canonical_snoc by done. by rewrite Z.eqb_refl.
Qed.

(** ** Storing a block *)

Lemma grow_to_lookup {A} (v : list (gmap Z A)) n i k :
  default ∅ (index (grow_to v n ∅) i) !! k = default ∅ (index v i) !! k.
Proof.
  unfold grow_to. case_match eqn:E; [|done]. unfold index. case_match; [|done].
  unfold vec_resize, blen in *. rewrite take_ge by lia.
  destruct (v !! Z.to_nat i) as [e|] eqn:Ei.
  - by rewrite lookup_app_l, Ei by by eapply lookup_lt_Some.
  - rewrite lookup_app_r by by apply lookup_ge_None.
    destruct (replicate _ _ !! _) as [e|] eqn:Er; [|done].
    apply lookup_replicate in Er as [-> _]. done.
Qed.

Lemma read_in_alt {A} (v : list (gmap Z A)) i k : read_in v i k = default ∅ (index v i) !! k.
Proof.
  unfold read_in. destruct (index v i); cbn [mbind option_bind default id]; [done|].
  by rewrite lookup_empty.
Qed.

Lemma blen_grow {A} (v : list A) n x : 0 <= n -> n < blen (grow_to v n x).
Proof.
  intros Hn. unfold grow_to. destruct (Z.leb_spec (blen v) n); [|lia].
  rewrite blen_resize by lia. lia.
Qed.

Lemma read_in_insert {A} (v : list (gmap Z A)) n k x i k' : 0 <= n ->
  read_in (insert_at (grow_to v n ∅) n k x) i k' =
  if decide (i = n /\ k' = k) then Some x else read_in v i k'.
Proof.
  intros Hn. pose proof (blen_grow v n ∅ Hn) as Hb. unfold blen in Hb.
  rewrite !read_in_alt, <- (grow_to_lookup v n). unfold insert_at, index.
  destruct (Z.leb_spec 0 i); [|case_decide; [lia|done]].
  destruct (decide (i = n)) as [->|Hi].
  - destruct (lookup_lt_is_Some_2 (grow_to v n ∅) (Z.to_nat n)) as [e He]; [lia|].
    rewrite list_lookup_alter_eq, He. simpl. destruct (decide (k' = k)) as [->|Hk].
    + rewrite lookup_insert_eq. by rewrite decide_True.
    + rewrite lookup_insert_ne by done. rewrite decide_False by tauto. done.
  - rewrite list_lookup_alter_ne by lia. rewrite decide_False by tauto. done.
Qed.

Lemma insert_block_header b h m m' : 0 <= header.number (block_header b) ->
  mem.insert_block b h m = Some m' ->
  (forall n k, mem_read_header m' n k =
     if decide (n = header.number (block_header b) /\ k = h) then Some (block_header b)
     else mem_read_header m n k) /\
  canonical_hashes m' = canonical_hashes m.
Proof.
  intros Hn. unfold mem.insert_block. case_match. intros (d & _ & [= <-])%bind_Some.
  split; [|done]. intros n k. unfold mem_read_header. simpl. by apply read_in_insert.
Qed.

Lemma wf_insert_block b h m m' : chain_wf m -> 0 < header.number (block_header b) ->
  canonical_hash m (header.number (block_header b)) <> Some h ->
  mem.insert_block b h m = Some m' -> chain_wf m'.
Proof.
  intros Hw Hn Hne Hi. apply insert_block_header in Hi as [Hr Hc]; [|lia].
  assert (forall i, canonical_hash m' i = canonical_hash m i) as Ec
    by (intros i; unfold canonical_hash; by rewrite Hc).
  destruct Hw. split.
  - by rewrite Hc.
  - intros i x. rewrite Ec, Hr. intros Hx. case_decide; [done|]. by apply cw_known0.
  - intros i x hd Hi. rewrite !Ec, Hr. intros Hx. case_decide as D; [|by apply cw_link0].
    destruct D as [-> ->]. done.
  - intros i x hd. rewrite Hr. case_decide as D; [|eauto]. intros [= <-]. by destruct D.
  - intros x hd. rewrite Hr, Ec. case_decide as D; [|eauto]. lia.
Qed.

(** ** Insertion *)

Lemma b_bind_final {A B} (m : BM A) (k : A -> BM B) c c' : final ((m ≫= k) c) = Some c' ->
  (exists e, m c = BErr e c') \/ (exists a c1, m c = BOk a c1 /\ final (k a c1) = Some c').
Proof.
  unfold mbind, BM_bind. destruct (m c) as [a c1|e c1|]; simpl; [eauto| |done].
  intros [= <-]. eauto.
Qed.

Lemma b_lift_ok {A} (r : result A) c a c' : b_lift r c = BOk a c' <-> r = Consensus.ROk a /\ c' = c.
Proof. destruct r; simpl; naive_solver. Qed.

Lemma b_lift_err {A} (r : result A) c e c' : b_lift r c = BErr e c' -> c' = c.
Proof. destruct r; simpl; naive_solver. Qed.

Lemma b_unwrap_spec {A} (o : option A) c a c' : b_unwrap o c = BOk a c' <-> o = Some a /\ c' = c.
Proof. unfold b_unwrap. rewrite b_lift_ok. destruct o; simpl; naive_solver. Qed.

Lemma b_unwrap_no_err {A} (o : option A) c e c' : b_unwrap o c <> BErr e c'.
Proof. by destruct o. Qed.

(** [m] keeps the chain linked. *)
Definition keeps_wf {A} (m : BM A) : Prop := forall c c',
  final (m c) = Some c' -> chain_wf (bc_state c) -> chain_wf (bc_state c').

Lemma keeps_wf_world {A} (m : BM A) : on_world m -> keeps_wf m.
Proof. intros Hm c c' Hf. apply chain_wf_same. by apply Hm. Qed.

Lemma keeps_wf_bind {A B} (m : BM A) (k : A -> BM B) :
  keeps_wf m -> (forall x, keeps_wf (k x)) -> keeps_wf (m ≫= k).
Proof.
  intros Hm Hk c c' [[e He]|(a & c1 & Ha & Hf)]%b_bind_final Hw.
  - apply (Hm c); [by rewrite He|done].
  - apply (Hk a c1); [done|]. apply (Hm c); [by rewrite Ha|done].
Qed.

Section insertion.
Context {C T : Type} {KK : Keccak} {LC : LruCache C} `{!StartTracer T} {TT : Tracer T}.
Context {IO : I256Ops} {AC : AddressCodec} {HS : Hashes} {SP : Secp256k1} {BU : BigUint}.
Context {AB : AltBn128} {RS : RlpStream} {CD : Codec} {SH : SigningHash}.
Context {TR : TrieRoot} {AD : AccountCodec}.
Context (empty_cache : C) (config : ChainSpec) (engine : Ethash) (now : option Z).

(** The rule of fork choice: the block [h] at [n] becomes the tip exactly if its
    total difficulty exceeds that of the tip [k] at [cur]. *)
Definition fork_rule (m m' : InMemoryState) (n h cur k : Z) : Prop :=
  exists t tcur, total_difficulty m' n h = Some t /\ total_difficulty m' cur k = Some tcur /\
    if tcur <? t then
      last (canonical_hashes m') = Some h /\ blen (canonical_hashes m') = n + 1
    else canonical_hashes m' = canonical_hashes m.

(** Where the new path starts. *)
Record forks_at (m : InMemoryState) (a p cur : Z) : Prop := {
  fo_range : 0 <= a <= cur;
  fo_tip : blen (canonical_hashes m) = cur + 1;
  fo_hash : canonical_hash m a = Some p;
}.

Lemma choose_fork_spec a p cur ex n h chain x c c' : forks_at (bc_state c) a p cur ->
  chain_wf (bc_state c) -> linked (bc_state c) a p (chain ++ [x]) ->
  hash x = h -> partial.number (bws_header (inner x)) = n -> blen chain = n - 1 - a ->
  final (blockchain.choose_fork (T := T) empty_cache config a cur ex n h (chain ++ [x]) c) = Some c' ->
  chain_wf (bc_state c') /\ exists k, canonical_hash (bc_state c) cur = Some k /\
    fork_rule (bc_state c) (bc_state c') n h cur k.
Proof.
  intros [Hr Ht Hp] Hw Hl Hx Hn Hb.
  unfold blockchain.choose_fork. intros [[e He]|(s & c0 & [= <- <-] & Hf)]%b_bind_final; [done|].
  apply b_bind_final in Hf as [[e He]|(k & c0 & [Hk ->]%b_unwrap_spec & Hf)];
    [by apply b_unwrap_no_err in He|].
  apply b_bind_final in Hf as [[e He]|(tcur & c0 & [Htc ->]%b_unwrap_spec & Hf)];
    [by apply b_unwrap_no_err in He|].
  apply b_bind_final in Hf as [[e He]|(t & c0 & [Htn ->]%b_unwrap_spec & Hf)];
    [by apply b_unwrap_no_err in He|].
  destruct (tcur <? t) eqn:E.
  - destruct (decanonize_range (bc_state c) a cur) as (Hc1 & Hh1 & Hb1 & Hd1); [lia..|].
    pose proof (wf_decanonize_range (bc_state c) a cur Hw ltac:(lia)) as Hw1.
    revert Hf. unfold mbind, BM_bind. rewrite b_for_state. cbv beta iota.
    rewrite (b_for_state (fun x => canonize_block (partial.number (bws_header (inner x))) (hash x))).
    intros [= <-]. cbn [bc_state].
    set (m1 := foldl (fun m i => decanonize_block i m) (bc_state c) (reverse (range a cur))) in *.
    assert (linked m1 a p (chain ++ [x])) as Hl1.
    { eapply linked_mono; [|exact Hl]. intros i y hd _. unfold mem_read_header. by rewrite Hh1. }
    assert (blen (canonical_hashes m1) = a + 1) as Hlen.
    { rewrite Hc1. unfold blen in *. rewrite length_take. lia. }
    destruct (canonize_path_hashes m1 a p (chain ++ [x]) m1 Hl1 Hlen) as (Hc2 & _ & _ & Hd2).
    fold (canonize_path (chain ++ [x]) m1). split.
    + apply (wf_canonize_path m1 a p); [done|lia|done|done|]. unfold canonical_hash, index.
      rewrite Hc1. unfold canonical_hash, index in Hp. rewrite (proj2 (Z.leb_le _ _)) in * by lia.
      rewrite lookup_take_lt by lia. done.
    + exists k. split; [done|]. exists t, tcur. unfold total_difficulty in *.
      rewrite Hd2, Hd1, E, Hc2. split; [done|]. split; [done|]. split.
      * rewrite fmap_app. simpl. rewrite app_assoc, last_snoc. by rewrite Hx.
      * rewrite blen_app, Hlen. unfold blen in *. rewrite length_fmap, length_app. simpl. lia.
  - assert (same_chain (bc_state c) (bc_state c')) as Hsc.
    { revert Hf. apply on_world_bind; [apply on_world_unwrap|]. intros tip.
      apply on_world_bind; [apply on_world_unwind_last|]. intros. apply on_world_re_execute. }
    split; [by eapply chain_wf_same|]. exists k. split; [done|]. exists t, tcur.
    unfold total_difficulty in *. rewrite (sc_difficulty _ _ Hsc), E. splits; [done..|].
    apply Hsc.
Qed.

(** A block that is canonical is its own ancestor. *)
Lemma ancestor_here m fuel h k : canonical_hash m (partial.number h) = Some k ->
  blockchain.canonical_ancestor m fuel h k = Consensus.ROk (partial.number h).
Proof. intros Hc. destruct fuel; simpl; by rewrite bool_decide_true. Qed.

Lemma unwind_last_ok a t c x c' : blockchain.unwind_last_changes a t c = BOk x c' ->
  a <= t /\ same_chain (bc_state c) (bc_state c').
Proof.
  intros Hu. pose proof (on_world_unwind_last a t c c') as Hs. rewrite Hu in Hs. split; [|by apply Hs].
  revert Hu. unfold blockchain.unwind_last_changes, b_assert.
  destruct (Z.leb_spec a t); [done|]. done.
Qed.

Lemma same_canonical m m' i : same_chain m m' -> canonical_hash m' i = canonical_hash m i.
Proof. intros Hs. unfold canonical_hash. by rewrite (sc_canonical _ _ Hs). Qed.

Lemma same_header m m' i h : same_chain m m' -> mem_read_header m' i h = mem_read_header m i h.
Proof. intros Hs. unfold mem_read_header. by rewrite (sc_headers _ _ Hs). Qed.

Lemma reaches_same m m' n h a p : same_chain m m' -> reaches m n h a p -> reaches m' n h a p.
Proof.
  intros Hs. induction 1; [constructor|]. eapply reaches_up; [|done]. by rewrite (same_header m m').
Qed.

(** The path from the canonical ancestor to the parent of the new block. *)
Lemma intermediate_linked m m1 n ph a p chain : same_chain m m1 -> chain_wf m ->
  reaches m n ph a p ->
  blockchain.intermediate_chain m1 n ph a = Consensus.ROk chain ->
  linked m1 a p chain /\ end_of p chain = ph /\ blen chain = n - a.
Proof.
  intros Hs Hw Hr. unfold blockchain.intermediate_chain, mbind, result_bind, or_panic.
  destruct (unsigned_sub n a) as [d|] eqn:Ed; [|done]. apply unsigned_sub_inv in Ed as [Hle _].
  intros (p' & pre & Hpre & Hr' & Hl & He & Hb)%collect_chain_linked; [|by eapply chain_wf_same|done].
  rewrite app_nil_r in Hpre. subst pre.
  assert (p' = p) as -> by (eapply reaches_fun; [exact Hr'|by eapply reaches_same]). done.
Qed.

Lemma b_bind_eq {A B} (m : BM A) (k : A -> BM B) c a c1 :
  m c = BOk a c1 -> (m ≫= k) c = k a c1.
Proof. intros Hm. unfold mbind, BM_bind. by rewrite Hm. Qed.

Lemma unwind_last_total a t c : blockchain.unwind_last_changes a t c = BPanic \/
  exists c', blockchain.unwind_last_changes a t c = BOk () c'.
Proof.
  unfold blockchain.unwind_last_changes, b_assert. destruct (a <=? t); [right|by left].
  unfold mbind, BM_bind, mret, BM_ret. rewrite b_for_state. by eexists.
Qed.

(** Postconditions for values and for errors. *)
Definition bwp {A} (m : BM A) (c : Blockchain) (Q : A -> Blockchain -> Prop)
    (R : Blockchain -> Prop) : Prop :=
  match m c with BOk a c' => Q a c' | BErr _ c' => R c' | BPanic => True end.

Lemma bwp_bind {A B} (m : BM A) (k : A -> BM B) c Q R :
  bwp m c (fun a c' => bwp (k a) c' Q R) R -> bwp (m ≫= k) c Q R.
Proof. unfold bwp, mbind, BM_bind. by destruct (m c). Qed.

Lemma bwp_get {A} (f : Blockchain -> A) c (Q : A -> Blockchain -> Prop) R :
  Q (f c) c -> bwp (b_get f) c Q R.
Proof. done. Qed.

Lemma bwp_lift {A} (r : result A) c (Q : A -> Blockchain -> Prop) (R : Blockchain -> Prop) :
  R c -> (forall a, r = Consensus.ROk a -> Q a c) -> bwp (b_lift r) c Q R.
Proof. intros HR HQ. unfold bwp, b_lift. destruct r; auto. Qed.

Lemma bwp_unwrap {A} (o : option A) c (Q : A -> Blockchain -> Prop) (R : Blockchain -> Prop) :
  (forall a, o = Some a -> Q a c) -> bwp (b_unwrap o) c Q R.
Proof. intros HQ. unfold bwp, b_unwrap, b_lift, or_panic. destruct o; auto. Qed.

(** Computations on the world, from a chain that is linked. *)
Lemma bwp_world {A} (m : BM A) c (Q : A -> Blockchain -> Prop) : on_world m ->
  chain_wf (bc_state c) ->
  (forall a c1, m c = BOk a c1 -> same_chain (bc_state c) (bc_state c1) -> Q a c1) ->
  bwp m c Q (fun c => chain_wf (bc_state c)).
Proof.
  intros Hm Hw HQ. unfold bwp. specialize (Hm c). destruct (m c) as [a c1|e c1|] eqn:E; [| |done].
  - apply HQ; [done|by apply Hm].
  - eapply chain_wf_same; [by apply Hm|done].
Qed.

Lemma linked_same m m' n p chain : same_chain m m' -> linked m n p chain -> linked m' n p chain.
Proof. intros Hs. apply linked_mono. intros i x hd _. by rewrite (same_header m m'). Qed.

(** The path with the new block, once it is stored. *)
Lemma inserted_linked m m' block b h a p chain : mem.insert_block block h m = Some m' ->
  bws_header b = partial.of_header (block_header block) ->
  0 <= header.number (block_header block) -> linked m a p chain ->
  end_of p chain = header.parent_hash (block_header block) ->
  blen chain = header.number (block_header block) - 1 - a ->
  linked m' a p (chain ++ [{| inner := b; hash := h |}]).
Proof.
  intros Hi Eb Hn Hl He Hb. apply insert_block_header in Hi as [Hh _]; [|done].
  apply linked_snoc.
  - eapply linked_mono; [|exact Hl]. intros i x hd Hle. rewrite Hh, decide_False by lia. done.
  - simpl. rewrite Eb, Hb. simpl. lia.
  - exists (block_header block). simpl. rewrite Hh, He. split; [|done].
    rewrite decide_True; [done|]. split; [|done]. lia.
Qed.

Lemma inserted_forks m m2 m3 block h a p cur : same_chain m m2 ->
  current_canonical_block m = Some cur -> a <= cur -> canonical_hash m a = Some p ->
  mem.insert_block block h m2 = Some m3 -> 0 <= header.number (block_header block) ->
  forks_at m3 a p cur.
Proof.
  intros Hs Hcur Hac Hp Hi Hn. apply insert_block_header in Hi as [_ Hc]; [|done].
  apply unsigned_sub_inv in Hcur as [_ ->]. pose proof (canonical_range _ _ _ Hp).
  split; [lia| |].
  - rewrite Hc, (sc_canonical _ _ Hs). lia.
  - unfold canonical_hash. by rewrite Hc, (sc_canonical _ _ Hs).
Qed.

(** Validation finds the parent, so the genesis block is not accepted. *)
Lemma validated_number hd state b :
  ethash_validate_block_header now engine state hd b = Consensus.ROk () -> 0 < header.number hd.
Proof.
  unfold ethash_validate_block_header, get_parent_header, mbind, result_bind, ok_or, fail.
  destruct (unsigned_sub _ _) as [pn|] eqn:E; [|done].
  apply unsigned_sub_inv in E as [? _]. lia.
Qed.

Lemma insert_validated_spec block h check c : chain_wf (bc_state c) ->
  0 < header.number (block_header block) ->
  bwp (blockchain.insert_validated (T := T) empty_cache config block h check) c
    (fun _ c' => chain_wf (bc_state c') /\
       exists cur k, current_canonical_block (bc_state c) = Some cur /\
         canonical_hash (bc_state c) cur = Some k /\
         fork_rule (bc_state c) (bc_state c') (header.number (block_header block)) h cur k)
    (fun c' => chain_wf (bc_state c')).
Proof.
  intros Hw Hn. unfold blockchain.insert_validated.
  apply bwp_bind, bwp_unwrap. intros b Hb.
  assert (bws_header b = partial.of_header (block_header block)) as Eb.
  { revert Hb. unfold BlockWithSenders_from. intros (l & _ & [= <-])%bind_Some. done. }
  rewrite Eb. set (n := header.number (block_header block)) in *.
  apply bwp_bind, bwp_get, bwp_bind, bwp_lift; [done|]. intros a Ha.
  apply bwp_bind, bwp_unwrap. intros cur Hcur.
  apply bwp_bind, bwp_world; [apply on_world_unwind_last|done|].
  intros [] c1 [Hac Hs1]%unwind_last_ok _.
  apply bwp_bind, bwp_unwrap. intros pn [_ ->]%unsigned_sub_inv. simpl. fold n.
  apply bwp_bind, bwp_get, bwp_bind, bwp_lift; [by eapply chain_wf_same|]. intros chain Hchain.
  destruct (decide (canonical_hash (bc_state c) n = Some h)) as [Hc|Hc].
  { exfalso. rewrite ancestor_here in Ha by done. injection Ha as <-. revert Hchain.
    unfold blockchain.intermediate_chain, unsigned_sub. simpl. fold n.
    by rewrite (proj2 (Z.leb_gt _ _)) by lia. }
  destruct (canonical_ancestor_reaches _ _ _ _ _ Hw Ha) as [[-> ?]|(p & Hr & Hp)]; [done|].
  simpl in Hr. fold n in Hr.
  destruct (intermediate_linked _ _ _ _ _ _ _ Hs1 Hw Hr Hchain) as (Hl & He & Hlen).
  apply bwp_bind, bwp_world; [apply on_world_chain|by eapply chain_wf_same|].
  intros ex c2 _ Hs2. pose proof (transitivity Hs1 Hs2) as Hs.
  assert (chain_wf (bc_state c2)) as Hw2 by by eapply chain_wf_same.
  apply bwp_bind, bwp_get, bwp_bind, bwp_unwrap. intros m3 Hm3.
  apply bwp_bind. unfold bwp at 1, b_state.
  assert (chain_wf m3) as Hw3.
  { eapply wf_insert_block; [exact Hw2|done| |exact Hm3]. by rewrite (same_canonical _ _ _ Hs). }
  pose proof (inserted_forks _ _ _ _ _ _ _ _ Hs Hcur Hac Hp Hm3 ltac:(lia)) as Hfork.
  pose proof (inserted_linked _ _ block b h a p chain Hm3 Eb ltac:(lia)
    (linked_same _ _ _ _ _ Hs2 Hl) He Hlen) as Hlinked.
  apply insert_block_header in Hm3 as [_ Hc3]; [|lia].
  assert (canonical_hashes m3 = canonical_hashes (bc_state c)) as Ec
    by by rewrite Hc3, (sc_canonical _ _ Hs).
  set (c3 := {| bc_state := m3; bad_blocks := bad_blocks c2; receipts := receipts c2 |}).
  pose proof (fun c' => choose_fork_spec a p cur ex n h chain {| inner := b; hash := h |}
    c3 c' Hfork Hw3 Hlinked eq_refl ltac:(simpl; by rewrite Eb) ltac:(lia)) as Hcf.
  unfold bwp. destruct (blockchain.choose_fork _ _ _ _ _ _ _ _ _) as [[] c'|e c'|] eqn:Ef; [| |done].
  - destruct (Hcf c') as (Hw' & k & Hk & Hrule); [done|].
    split; [done|]. exists cur, k. split; [done|].
    unfold canonical_hash, fork_rule in *. cbn [bc_state] in *. by rewrite <- Ec.
  - by apply (Hcf c').
Qed.


(** A block that is canonical already cannot be inserted again: past
    validation, the insertion panics, because the number of blocks between the
    block and its ancestor, itself, is computed as a negative number. *)
Theorem insert_canonical_panics block check c :
  canonical_hash (bc_state c) (header.number (block_header block))
    = Some (header_hash (block_header block)) ->
  bad_blocks c !! header_hash (block_header block) = None ->
  ethash_validate_block_header now engine (bc_state c) (block_header block) true
    = Consensus.ROk () ->
  ethash_pre_validate_block now engine (bc_state c) block = Consensus.ROk () ->
  blockchain.insert_block (T := T) empty_cache config engine now block check c = BPanic.
Proof.
  intros Hc Hbad Hv Hp. unfold blockchain.insert_block.
  rewrite (b_bind_eq (b_get _) _ _ (bc_state c) c eq_refl), Hv, Hp.
  rewrite (b_bind_eq (b_lift (Consensus.ROk ())) _ _ () c eq_refl).
  rewrite (b_bind_eq (b_lift (Consensus.ROk ())) _ _ () c eq_refl). cbv zeta.
  rewrite (b_bind_eq (b_get _) _ _ _ c eq_refl), Hbad. unfold blockchain.insert_validated.
  destruct (BlockWithSenders_from block) as [b|] eqn:Hb; [|done].
  rewrite (b_bind_eq (b_unwrap (Some b)) _ _ b c eq_refl).
  rewrite (b_bind_eq (b_get _) _ _ (bc_state c) c eq_refl).
  apply bind_Some in Hb as (l & _ & [= <-]).
  rewrite ancestor_here by done. rewrite (b_bind_eq (b_lift (Consensus.ROk _)) _ _ _ c eq_refl).
  destruct (current_canonical_block (bc_state c)) as [cur|]; [|done].
  rewrite (b_bind_eq (b_unwrap (Some cur)) _ _ cur c eq_refl).
  destruct (unwind_last_total (header.number (block_header block)) cur c) as [Hu|[c1 Hu]].
  { unfold mbind at 1, BM_bind. simpl. by rewrite Hu. }
  simpl. rewrite (b_bind_eq _ _ _ _ _ Hu).
  destruct (unsigned_sub _ 1) as [pn|] eqn:Ep; [|done]. apply unsigned_sub_inv in Ep as [_ ->].
  rewrite (b_bind_eq (b_unwrap (Some _)) _ _ _ c1 eq_refl).
  rewrite (b_bind_eq (b_get _) _ _ (bc_state c1) c1 eq_refl).
  unfold blockchain.intermediate_chain, unsigned_sub. by rewrite (proj2 (Z.leb_gt _ _)) by lia.
Qed.

(** ** A block on top of the tip *)

(** The same accounts, slots, change sets and chain. *)
Record same_state (m m' : InMemoryState) : Prop := {
  ss_world : same_world m m';
  ss_chain : same_chain m m';
  ss_accounts : account_changes m' = account_changes m;
  ss_storage : storage_changes m' = storage_changes m;
}.

Lemma same_state_refl m : same_state m m.
Proof. by split. Qed.

(** The block [b] executed on [m] can be unwound. *)
Definition can_unwind (m : InMemoryState) (b : BlockWithSenders) : Prop :=
  let n := partial.number (bws_header b) in
  mem_wf m /\ account_changes m !! n = None /\ storage_changes m !! n = None /\
  unwindable (T := T) (bws_header b)
    {| with_senders_transactions := bws_transactions b; with_senders_ommers := bws_ommers b |}
    (collect_block_spec config n) m None empty_cache.

(** A block that fails leaves the state as it was: nothing is written, or what
    was written is unwound. *)
Lemma execute_block_failed b check c e c' :
  can_unwind (bc_state c) b ->
  blockchain.execute_block (T := T) empty_cache config b check c = BErr e c' ->
  same_state (bc_state c) (bc_state c').
Proof.
  intros (Hm & Ha & Hs & Hnc). unfold blockchain.execute_block.
  destruct (processor.execute_and_write_block _ _ _ _) as [[[rs d] ca]|e0|] eqn:E; [| |done];
    [|intros [= _ <-]; apply same_state_refl].
  destruct check; [|done]. case_match; [|done]. intros [= _ <-]. simpl.
  apply executed_block in E as (_ & p & Hp & Hr & _ & Hw).
  pose proof (unwind_restores _ _ _ _ Hm Hr Hw (Hnc _ _ Hp) Ha Hs) as (Hu & _ & Hua & Hus).
  apply same_chain_write in Hw.
  rewrite (fa_db _ _ (faithful_run _ _ _ Hr (faithful_new (bc_state c)))) in Hw.
  split; [done| |done|done]. etrans; [exact Hw|apply same_chain_world].
Qed.

Lemma unwind_last_same a c : blockchain.unwind_last_changes a a c = BOk () c.
Proof.
  unfold blockchain.unwind_last_changes, b_assert. rewrite Z.leb_refl, range_empty by lia. by destruct c.
Qed.

Lemma re_execute_same a c :
  blockchain.re_execute_canonical_chain (T := T) empty_cache config a a c = BOk () c.
Proof.
  unfold blockchain.re_execute_canonical_chain, b_assert.
  rewrite Z.leb_refl, range_empty by lia. done.
Qed.

Lemma restore_at_tip h a e c x c' :
  blockchain.restore_canonical (T := T) empty_cache config h a 0 a e c = BErr x c' ->
  bc_state c' = bc_state c.
Proof.
  unfold blockchain.restore_canonical. destruct (downcast e) as [v|].
  - unfold mbind, BM_bind. rewrite Z.add_0_r. destruct (u64_checked a) as [tip|] eqn:Et; [|done].
    apply checked_inv in Et as [-> _]. cbn -[blockchain.unwind_last_changes blockchain.re_execute_canonical_chain].
    rewrite unwind_last_same, re_execute_same. by intros [= _ <-].
  - by intros [= _ <-].
Qed.

Lemma execute_one bn h a check x c e c' :
  can_unwind (bc_state c) (inner x) ->
  blockchain.execute_chain (T := T) empty_cache config bn h a a check 0 [x] c = BErr e c' ->
  same_state (bc_state c) (bc_state c').
Proof.
  intros Hu. simpl. destruct (blockchain.execute_block _ _ _ _ _) as [[] c1|e1 c1|] eqn:E; [done| |done].
  apply execute_block_failed in E; [|done]. unfold mbind, BM_bind.
  destruct (blockchain.restore_canonical _ _ _ _ _ _ _ _) eqn:Er; [done| |done].
  apply restore_at_tip in Er. intros [= _ <-]. by rewrite Er.
Qed.

Lemma tip_ancestor m h k n : chain_wf m -> partial.number h = n -> 0 < n ->
  canonical_hash m n = None -> canonical_hash m (n - 1) = Some (partial.parent_hash h) ->
  blockchain.canonical_ancestor m (blockchain.ancestor_fuel h) h k = Consensus.ROk (n - 1).
Proof.
  intros Hw Hn Hpos Hc Hp. unfold blockchain.ancestor_fuel. cbn [blockchain.canonical_ancestor].
  rewrite Hn, Hc, bool_decide_false by done. unfold mbind, result_bind, or_panic, ok_or.
  rewrite unsigned_sub_some by lia.
  destruct (cw_known _ Hw _ _ Hp) as [hd Hh]. rewrite Hh.
  pose proof (cw_number _ Hw _ _ _ Hh) as Hnum. rewrite <- Hnum.
  apply (ancestor_here m _ (partial.of_header hd)). simpl. by rewrite Hnum.
Qed.

(** At the tip fork choice does not fail. *)
Lemma choose_fork_no_error a ex n h chain c R :
  bwp (blockchain.choose_fork (T := T) empty_cache config a a ex n h chain) c (fun _ _ => True) R.
Proof.
  unfold blockchain.choose_fork. apply bwp_bind, bwp_get, bwp_bind, bwp_unwrap. intros k _.
  apply bwp_bind, bwp_unwrap. intros tcur _. apply bwp_bind, bwp_unwrap. intros t _. case_match.
  - unfold bwp, mbind, BM_bind. rewrite b_for_state.
    by rewrite (b_for_state (fun x => canonize_block (partial.number (bws_header (inner x))) (hash x))).
  - apply bwp_bind, bwp_unwrap. intros tip _. apply bwp_bind. unfold bwp at 1.
    destruct (unwind_last_total a tip c) as [->|[c' ->]]; [done|]. unfold bwp.
    by rewrite re_execute_same.
Qed.

End insertion.

(** ** An example: a genesis block and blocks on top of it *)

#[local] Existing Instances samples.keccak samples.lru samples.no_trace samples.address_codec
  sample_hashes sample_secp sample_bn big_uint samples.rlp_stream samples.codec samples.signing
  MemStateSpec.zero_trie_root MemStateSpec.no_account_codec.
#[local] Instance untraced_chain : Tracer unit := NoopTracer unit.

Definition sample_header (n ts difficulty root : Z) : BlockHeader := {|
  header.parent_hash := 0; header.ommers_hash := 0; header.beneficiary := 99;
  header.state_root := root; header.transactions_root := 0; header.receipts_root := 0;
  header.logs_bloom := 0; header.difficulty := difficulty; header.number := n;
  header.gas_limit := 1000000; header.gas_used := 0; header.timestamp := ts;
  header.extra_data := []; header.mix_hash := 0; header.nonce := 0;
  header.base_fee_per_gas := None;
|}.

Definition sample_block (n ts difficulty root : Z) : Block := {|
  block_header := sample_header n ts difficulty root; block_transactions := []; block_ommers := [];
|}.

Definition sample_config : ChainSpec := {|
  consensus := {| seal_verification := SealEthash 13 [] None None None true;
                  consensus_eip1559_block := None |};
  upgrades := {| homestead := Some 0; tangerine := Some 0; spurious := Some 0; byzantium := Some 0;
                 constantinople := Some 0; petersburg := Some 0; istanbul := Some 0;
                 berlin := Some 0; london := Some 0 |};
  params := {| params_chain_id := 1; params_network_id := 1; min_gas_limit := 5000 |};
  contracts := []; balances := [];
|}.

Definition sample_engine : Ethash := {|
  base := {| chain_id := 1; eip1559_block := None |}; duration_limit := 13; block_reward := [];
  homestead_formula := None; byzantium_formula := None; difficulty_bomb := None;
  skip_pow_verification := true;
|}.

Definition sample_chain : Blockchain :=
  default {| bc_state := samples.world; bad_blocks := ∅; receipts := [] |}
    (blockchain.new_with_consensus samples.world (sample_block 0 0 131072 0)).

Definition sample_insert (b : Block) (c : Blockchain) : bresult unit :=
  blockchain.insert_block (T := unit) (∅ : gmap Z AnalyzedCode) sample_config sample_engine
    (Some 100) b true c.

(** The chain after a result. *)
Definition chain_after {A} (r : bresult A) : Blockchain := default sample_chain (final r).

Definition sample_extended : Blockchain := chain_after (sample_insert (sample_block 1 10 131136 0) sample_chain).
Definition sample_rejected : Blockchain := chain_after (sample_insert (sample_block 1 10 131136 5) sample_chain).

Lemma tests_chain_wf : chain_wf (bc_state sample_chain).
Proof.
  assert (headers (bc_state sample_chain) = [{[0 := sample_header 0 0 131072 0]}]) as Eh
    by (vm_compute; reflexivity).
  assert (canonical_hashes (bc_state sample_chain) = [0]) as Ec by (vm_compute; reflexivity).
  assert (forall n h hd, mem_read_header (bc_state sample_chain) n h = Some hd ->
    n = 0 /\ h = 0 /\ hd = sample_header 0 0 131072 0) as Hr.
  { intros n h hd. unfold mem_read_header, read_in, index. rewrite Eh.
    destruct (Z.leb_spec 0 n); [|done]. destruct (Z.to_nat n) eqn:En; simpl; [|done].
    intros [<- <-]%lookup_singleton_Some. split; [lia|done]. }
  assert (forall n h, canonical_hash (bc_state sample_chain) n = Some h -> n = 0 /\ h = 0) as Hc.
  { intros n h. unfold canonical_hash, index. rewrite Ec. destruct (Z.leb_spec 0 n); [|done].
    destruct (Z.to_nat n) eqn:En; simpl; [intros [= <-]; split; [lia|done]|done]. }
  split.
  - by rewrite Ec.
  - intros n h [-> ->]%Hc. vm_compute. by eexists.
  - intros n h hd Hn [-> ->]%Hc. lia.
  - by intros n h hd (-> & -> & ->)%Hr.
  - intros h hd (_ & -> & _)%Hr. vm_compute. reflexivity.
Qed.


Lemma insert_canonical_panics_witness :
  sample_insert (sample_block 1 10 131136 0) sample_extended = BPanic.
Proof.
  apply (insert_canonical_panics (T := unit) (∅ : gmap Z AnalyzedCode) sample_config
    sample_engine (Some 100) (sample_block 1 10 131136 0) true sample_extended).
  - vm_compute. reflexivity.
  - vm_compute. reflexivity.
  - vm_compute. reflexivity.
  - vm_compute. reflexivity.
Defined.

Lemma sample_can_unwind b :
  BlockWithSenders_from (sample_block 1 10 131136 5) = Some b ->
  can_unwind (T := unit) (∅ : gmap Z AnalyzedCode) sample_config (bc_state sample_chain) b.
Proof.
  intros [= <-]. split; [|split; [reflexivity|split; [reflexivity|]]].
  - split; intros a k.
    + assert (mem_storage (bc_state sample_chain) = ∅) as E by (vm_compute; reflexivity).
      unfold slots_of. by rewrite E.
    + intros _. assert (mem_storage (bc_state sample_chain) = ∅) as E by (vm_compute; reflexivity).
      unfold mem_read_storage. by rewrite E.
  - intros rs p Hp a k c [i Hi] _.
    match type of Hp with ?m = _ =>
      assert (match m with Consensus.ROk (_, p) => incarnations (processor.state p) = ∅
              | _ => False end) as E by (vm_compute; reflexivity) end.
    rewrite Hp in E. by rewrite E, lookup_empty in Hi.
Qed.

