(* ===== verification/ExecutionStage.v ===== *)
(** The execution stage (src/stages/execution.rs) with its tracer of calls
    (src/execution/tracer/mod.rs): blocks are read from the tables, executed by the
    processor over a buffer, and the buffer is written at the end of the batch.

    The chain data of the tables does not change while blocks are executed; the buffer
    holds the tables of the state.  Instants are numbers that an arbitrary clock gives. *)
From S2P Require Import Prelude Word Properties EvmState Host Interpreter Transaction IntraBlockState Consensus Precompiled EvmGlue MemState Rlp Processor StagedSync Kv Stages Bitmaps CallTraces Buffer ChainAccess.
From Stdlib Require Import ZArith Lia Strings.Byte.
From stdpp Require Import base list option numbers gmap.
#[local] Open Scope Z_scope.

(** ** The tracer of calls *)

Record CallTracerFlags := {
  flag_from : bool;
  flag_to : bool;
}.

Definition CallTracerFlags_default : CallTracerFlags := {| flag_from := false; flag_to := false |}.

Record CallTracer := { traced : gmap Address CallTracerFlags }.

Definition CallTracer_default : CallTracer := {| traced := ∅ |}.

Module call_tracer.

(** [self.addresses.entry(from).or_default().from = true]. *)
Definition mark_from (a : Address) (t : CallTracer) : CallTracer :=
  let f := default CallTracerFlags_default (traced t !! a) in
  {| traced := <[a := {| flag_from := true; flag_to := flag_to f |}]> (traced t) |}.

Definition mark_to (a : Address) (t : CallTracer) : CallTracer :=
  let f := default CallTracerFlags_default (traced t !! a) in
  {| traced := <[a := {| flag_from := flag_from f; flag_to := true |}]> (traced t) |}.

#[export] Instance call_tracer_start : StartTracer CallTracer := {|
  capture_start _ from to _ _ _ _ t := mark_to to (mark_from from t);
|}.

(** No call of it is left in the machine. *)
Definition capture_self_destruct (caller beneficiary : Address) (t : CallTracer) : CallTracer :=
  mark_to beneficiary (mark_from caller t).

(** The other methods are those of the trait, which do nothing. *)
#[export] Instance call_tracer : Tracer CallTracer := NoopTracer CallTracer.

Definition into_sorted_iter (t : CallTracer) : list (Address * CallTracerFlags) := in_order (traced t).

End call_tracer.

(** ** The stage *)

Record ExecTables (T : Type -> Type) := {
  exec_chain : ChainTables T;
  exec_state : StateTables T;
  config_table : T ChainSpec;     (* hash of the genesis block -> specification *)
}.
Arguments exec_chain {T} _.
Arguments exec_state {T} _.
Arguments config_table {T} _.

Record Execution := {
  batch_size : Z;
  history_batch_size : Z;
  exit_after_batch : bool;
  batch_until : option Z;
  commit_every : option Z;
  execution_prune_from : Z;
}.

(** The variables of the loop over the blocks. *)
Record BatchState (T : Type -> Type) (C : Type) := {
  batch_buffer : Buffer T;
  analysis_cache : C;
  gas_since_start : Z;
  gas_since_last_message : Z;
  gas_since_history_commit : Z;
  last_message : Z;
  printed_at_least_once : bool;
}.
Arguments batch_buffer {T C} _.
Arguments analysis_cache {T C} _.
Arguments gas_since_start {T C} _.
Arguments gas_since_last_message {T C} _.
Arguments gas_since_history_commit {T C} _.
Arguments last_message {T C} _.
Arguments printed_at_least_once {T C} _.

Module execution.

Section execution.
Context {T : Type -> Type} {KV : Kv T} {C : Type} {LC : LruCache C} {KK : Keccak}.
Context {IO : I256Ops} {AC : AddressCodec} {HS : Hashes} {SP : Secp256k1} {BU : BigUint}.
Context {AB : AltBn128} {RS : RlpStream} {CD : Codec}.
#[local] Existing Instances buffer.buffer_state call_tracer.call_tracer_start call_tracer.call_tracer.

(** [State::read_header] and [State::read_body] of the buffer. *)
#[export] Instance buffer_chain (chain : ChainTables T) : ChainState (Buffer T) := {|
  read_header _ number hash := Some (kv_get (header_key number hash) (header_table (chain_indices chain)));
  read_body _ number hash := Some (read_without_senders chain hash number);
|}.

(** [Buffer::write_history]: the change sets and the logs are taken and appended. *)
Definition flush_history (b : Buffer T) : option (Buffer T) :=
  t ← buffer.write_history b;
  Some {| txn := t; prune_from := prune_from b; historical_block := historical_block b; buf_accounts := buf_accounts b;
          buf_storage := buf_storage b; buf_account_changes := ∅; buf_storage_changes := ∅;
          hash_to_code := hash_to_code b; buf_logs := ∅; buf_block_number := buf_block_number b;
          changed_storage := changed_storage b |}.

(** [c.append_dup(header.number, CallTraceSetEntry { address, from, to })]. *)
Definition trace_entry (number : Z) (e : Address * CallTracerFlags) : Z * CallTraceSetEntry :=
  let entry := {| trace_address := e.1; trace_from := flag_from e.2; trace_to := flag_to e.2 |} in
  (call_trace_key number entry, entry).

Definition with_traces (b : Buffer T) (traces : T CallTraceSetEntry) : Buffer T :=
  let t := txn b in
  {| txn := {| account_table := account_table t; storage_table := storage_table t; code_table := code_table t;
               account_change_set := account_change_set t; storage_change_set := storage_change_set t;
               log_table := log_table t; account_history := account_history t;
               storage_history := storage_history t; state_call_traces := traces |};
     prune_from := prune_from b; historical_block := historical_block b; buf_accounts := buf_accounts b;
     buf_storage := buf_storage b; buf_account_changes := buf_account_changes b;
     buf_storage_changes := buf_storage_changes b; hash_to_code := hash_to_code b; buf_logs := buf_logs b;
     buf_block_number := buf_block_number b; changed_storage := changed_storage b |}.

Definition write_traces (number : Z) (tracer : CallTracer) (b : Buffer T) : option (Buffer T) :=
  traces ← buffer.append_all (trace_entry number <$> call_tracer.into_sorted_iter tracer) (state_call_traces (txn b));
  Some (with_traces b traces).

Definition of_result {A} (r : result A) : outcome A :=
  match r with Consensus.ROk a => Done a | Consensus.RErr _ => Error | RPanic => Panicked end.

(** The block with a number: its header and its body with the senders. *)
Definition read_block (chain : ChainTables T) (block_number : Z) : outcome (PartialHeader * BlockBodyWithSenders) :=
  block_hash ← o_ok_or (kv_get block_number (canonical_header (chain_indices chain)));
  header ← o_ok_or (kv_get (header_key block_number block_hash) (header_table (chain_indices chain)));
  block ← o_ok_or (read_with_senders chain block_hash block_number);
  Done (partial.of_header header, block).

(** The body of the loop up to the commitment of the history. *)
Definition execute_one (s : Execution) (chain : ChainTables T) (chain_config : ChainSpec) (block_number : Z)
    (b : BatchState T C) : outcome (BatchState T C) :=
  '(header, block) ← read_block chain block_number;
  let block_spec := collect_block_spec chain_config block_number in
  '(receipts, buf, (cache, tracer)) ← of_result
    (processor.execute_and_write_block (CS := buffer_chain chain) header block block_spec
      (processor.new (batch_buffer b) (Some CallTracer_default) (analysis_cache b)));
  let buf := buffer.insert_receipts block_number receipts buf in
  buf ← o_ok_or (write_traces (partial.number header) (default CallTracer_default tracer) buf);
  since_start ← o_unwrap (u64_checked (gas_since_start b + partial.gas_used header));
  since_message ← o_unwrap (u64_checked (gas_since_last_message b + partial.gas_used header));
  since_commit ← o_unwrap (u64_checked (gas_since_history_commit b + partial.gas_used header));
  '(buf, since_commit) ← (if history_batch_size s <=? since_commit
                          then buf ← o_ok_or (flush_history buf); Done (buf, 0)
                          else Done (buf, since_commit));
  Done {| batch_buffer := buf; analysis_cache := cache; gas_since_start := since_start;
          gas_since_last_message := since_message; gas_since_history_commit := since_commit;
          last_message := last_message b; printed_at_least_once := printed_at_least_once b |}.

(** The message: what it reads must be there, and the differences are taken of unsigned
    numbers. *)
Definition report (t : Tables T) (block_number : Z) (stage_complete : bool) (first_started_at_gas : Z)
    : outcome unit :=
  current_total_gas ← o_unwrap (kv_get block_number (total_gas t));
  '(_, total) ← o_unwrap (kv_last (total_gas t));
  if stage_complete then Done ()
  else
    _ ← o_unwrap (u64_checked (current_total_gas - first_started_at_gas));
    _ ← o_unwrap (u64_checked (total - first_started_at_gas));
    Done ().

(** Thirty seconds, in nanoseconds. *)
Definition message_interval : Z := 30 * 10 ^ 9.

Definition is_end_of_batch (s : Execution) (block_number max_block now batch_started_at : Z) (b : BatchState T C) : bool :=
  (block_number =? max_block)
  || (default u64_max (batch_until s) <=? block_number)
  || (batch_size s <=? gas_since_start b)
  || match commit_every s with Some d => d <? now - batch_started_at | None => false end.

(** The end of the body of the loop. *)
Definition maybe_report (t : Tables T) (block_number : Z) (stage_complete end_of_batch : bool) (now first_started_at_gas : Z)
    (b : BatchState T C) : outcome (BatchState T C) :=
  if (message_interval <? now - last_message b) || (end_of_batch && negb (printed_at_least_once b)) then
    _ ← report t block_number stage_complete first_started_at_gas;
    Done {| batch_buffer := batch_buffer b; analysis_cache := analysis_cache b; gas_since_start := gas_since_start b;
            gas_since_last_message := 0; gas_since_history_commit := gas_since_history_commit b;
            last_message := now; printed_at_least_once := true |}
  else Done b.

Section loop.
Context (s : Execution) (clock : nat -> Z) (chain : ChainTables T) (chain_config : ChainSpec).
Context (max_block first_started_at_gas : Z).

(** The body of the loop, and whether the batch ends with it. *)
Definition round (i : nat) (block_number : Z) (b : BatchState T C) : outcome (BatchState T C * bool) :=
  b ← execute_one s chain chain_config block_number b;
  let now := clock (2 + i)%nat in
  let end_of_batch := is_end_of_batch s block_number max_block now (clock 0%nat) b in
  b ← maybe_report (chain_indices chain) block_number (block_number =? max_block) end_of_batch now
        first_started_at_gas b;
  Done (b, end_of_batch).

(** The loop over the blocks: the number of the last one executed, and the buffer.  A round
    for each block up to [max_block] is enough. *)
Fixpoint blocks_loop (fuel : nat) (i : nat) (block_number : Z) (b : BatchState T C) : outcome (Z * Buffer T) :=
  match fuel with
  | O => Panicked
  | S fuel =>
      '(b, end_of_batch) ← round i block_number b;
      if end_of_batch : bool then Done (block_number, batch_buffer b)
      else
        next ← o_unwrap (u64_checked (block_number + 1));
        blocks_loop fuel (S i) next b
  end.

End loop.

Definition first_batch (s : Execution) (clock : nat -> Z) (t : StateTables T) (empty_cache : C) : BatchState T C := {|
  batch_buffer := buffer.new t (execution_prune_from s) None; analysis_cache := empty_cache; gas_since_start := 0;
  gas_since_last_message := 0; gas_since_history_commit := 0; last_message := clock 1%nat;
  printed_at_least_once := false;
|}.

(** [empty_cache] is [AnalysisCache::default()]. *)
Definition execute_batch_of_blocks (s : Execution) (clock : nat -> Z) (empty_cache : C) (t : ExecTables T)
    (chain_config : ChainSpec) (max_block starting_block : Z) (first_started_at : option Z)
    : outcome (Z * StateTables T) :=
  _ ← o_ok_or (ethash.engine_factory chain_config);
  first_started_at_gas ← o_unwrap (kv_get (default 0 first_started_at) (total_gas (chain_indices (exec_chain t))));
  '(block_number, buf) ← blocks_loop s clock (exec_chain t) chain_config max_block first_started_at_gas
    (Z.to_nat (max_block - starting_block + 1)) 0 starting_block (first_batch s clock (exec_state t) empty_cache);
  st ← o_ok_or (buffer.write_to_db buf);
  Done (block_number, st).

Context {W : Type}.

Definition put_state (t : ExecTables T) (st : StateTables T) : ExecTables T :=
  {| exec_chain := exec_chain t; exec_state := st; config_table := config_table t |}.

Definition execution_execute (s : Execution) (clock : nat -> Z) (empty_cache : C) (input : StageInput)
    (db : Db (ExecTables T)) (w : W) : outcome (ExecOutput * Db (ExecTables T) * W) :=
  let t := tables db in
  genesis_hash ← o_ok_or (kv_get 0 (canonical_header (chain_indices (exec_chain t))));
  chain_config ← o_ok_or (kv_get genesis_hash (config_table t));
  let prev_progress := default 0 (stage_progress input) in
  starting_block ← o_unwrap (u64_checked (prev_progress + 1));
  max_block ← o_ok_or (snd <$> previous_stage input);
  if starting_block <=? max_block then
    '(executed_to, st) ← execute_batch_of_blocks s clock empty_cache t chain_config max_block starting_block
      (snd (first_started_at input));
    Done (Progress executed_to ((executed_to =? max_block) || exit_after_batch s),
          Build_Db (sync_stage db) (put_state t st), w)
  else Done (Progress prev_progress true, db, w).

Definition execution_stage_unwind (input : UnwindInput) (db : Db (ExecTables T)) (w : W)
    : outcome (Z * Db (ExecTables T) * W) :=
  Done (unwind_to input,
    Build_Db (sync_stage db) (put_state (tables db) (buffer.execution_unwind (unwind_to input) (exec_state (tables db)))), w).

Definition Execution_stage (s : Execution) (clock : nat -> Z) (empty_cache : C) : Stage (ExecTables T) W := {|
  stage_id := EXECUTION;
  stage_execute := execution_execute s clock empty_cache;
  stage_unwind := execution_stage_unwind;
|}.

End execution.

End execution.
