(* ===== verification/ExecutionStageSpec.v ===== *)
(** The execution stage over its tables: the blocks of a batch are executed one after the
    other, each over what the earlier ones left; the tables hold the state after the last
    one; and the unwind of the stage takes the batch back.

    The block state writes to a buffer by steps ([used]).  Writing the history out in the
    middle of a batch is not seen by them: [ghost] is the buffer that would have kept it,
    which is used by the same steps and written to the same tables. *)
From S2P Require Import StagesSpec Prelude Word Properties EvmState Host Interpreter Transaction IntraBlockState Journal BlockState Consensus Precompiled EvmGlue MemState Rlp Processor ProcessorSpec StagedSync Kv Stages Bitmaps CallTraces Buffer BufferSpec ChainAccess ExecutionStage PrecompiledSpec Samples.
From Stdlib Require Import ZArith Lia Strings.Byte.
From stdpp Require Import base list option numbers gmap sorting relations.
#[local] Open Scope Z_scope.
Import ibs buffer execution.

(** ** The end of a block over a buffer *)

Section block_end.
Context {T : Type -> Type} {KV : Kv T} {KK : Keccak}.
#[local] Existing Instance buffer_state.
Context (strict : bool) (to : Z).

(** The steps of a client that executes blocks after [to].  With [strict] the initial
    values are those at the beginning of the block, no account is updated that exists
    neither before nor after the block, and storage is erased before it is changed. *)
Inductive used : Buffer T * Buffer T -> Buffer T * Buffer T -> Prop :=
  | used_begin b s n : to < n -> buf_block_number b < n -> prune_from b <= n ->
      used (b, s) (buf_begin_block n b, buf_begin_block n b)
  | used_account b s a i c : live to b -> is_address a ->
      (strict = true -> i = buf_read_account s a /\ (i = None -> c <> None)) ->
      used (b, s) (buf_update_account a i c b, s)
  | used_storage b s a l i v : live to b -> is_address a -> word l ->
      (strict = true -> i = buf_read_storage s a l) -> used (b, s) (buf_update_storage a l i v b, s)
  | used_erase b s a : live to b -> is_address a ->
      (strict = true -> forall l, word l -> buf_read_storage b a l = buf_read_storage s a l) ->
      used (b, s) (buf_erase_storage a b, s)
  | used_code b s h c : used (b, s) (buf_update_code h c b, s)
  | used_receipts b s rs : live to b -> Z.of_nat (length rs) < 2 ^ 64 ->
      used (b, s) (insert_receipts (buf_block_number b) rs b, s).

Lemma used_step x y : strict = true -> used x y -> step to x y.
Proof.
  intros Hs []; [by constructor| | | |by constructor|by constructor].
  - destruct (H1 Hs) as [-> ?]. by constructor.
  - rewrite (H2 Hs). by constructor.
  - constructor; auto.
Qed.

Lemma used_steps x y : strict = true -> rtc used x y -> rtc (step to) x y.
Proof. intros Hs. induction 1; [done|]. eapply rtc_l; [by apply used_step|done]. Qed.

(** Only accounts have storage. *)
Definition orphan_free (b : Buffer T) : Prop := forall a l, word l -> buf_read_account b a = None ->
  buf_read_storage b a l = 0.

(** A block state with keys in the ranges of their types; with [strict], one whose changes
    can be unwound. *)
Record benign (st : IntraBlockState (Buffer T)) : Prop := {
  be_object a o : objects st !! a = Some o -> is_address a /\ (strict = true -> initial o = None -> current o <> None);
  be_slot a k c : committed_at st a k = Some c -> is_address a /\ word k;
  be_incarnation a i : incarnations st !! a = Some i -> is_address a;
  be_clobber a k c : strict = true -> is_Some (incarnations st !! a) -> committed_at st a k = Some c ->
    buf_read_storage (db st) a k = 0;
}.

(** *** Reads after each operation *)

Lemma erase_read a b a' l :
  buf_read_storage (buf_erase_storage a b) a' l = if decide (a' = a) then 0 else buf_read_storage b a' l.
Proof.
  unfold buf_erase_storage. destruct (match buf_storage b !! a with Some o => _ | None => _ end) as [o f].
  cbv zeta. unfold buf_read_storage. cbn [with_state buf_storage txn historical_block].
  destruct (decide (a' = a)) as [->|Hne]; [by rewrite lookup_insert_eq|by rewrite lookup_insert_ne].
Qed.

Lemma storage_update_read a l i v b a' l' :
  buf_read_storage (buf_update_storage a l i v b) a' l' =
  if decide (a' = a /\ l' = l /\ v <> i) then v else buf_read_storage b a' l'.
Proof.
  unfold buf_update_storage. destruct (Z.eqb_spec v i) as [->|Hne]; [by rewrite decide_False by naive_solver|].
  cbv zeta. assert (forall ac sc ch, buf_read_storage (with_state b (buf_accounts b)
    (<[a := {| erased := erased (default OverlayStorage_default (buf_storage b !! a));
               slots := <[l := v]> (slots (default OverlayStorage_default (buf_storage b !! a))) |}]> (buf_storage b))
    ac sc ch) a' l' = if decide (a' = a /\ l' = l /\ v <> i) then v else buf_read_storage b a' l') as H.
  { intros ac sc ch. unfold buf_read_storage. cbn [with_state buf_storage txn historical_block].
    destruct (decide (a' = a)) as [->|Ha]; [rewrite lookup_insert_eq|by rewrite lookup_insert_ne, decide_False by naive_solver].
    cbn [slots erased]. destruct (decide (l' = l)) as [->|Hl].
    - by rewrite lookup_insert_eq, decide_True.
    - rewrite lookup_insert_ne, decide_False by naive_solver. by destruct (buf_storage b !! a). }
  destruct (prune_from b <=? buf_block_number b); apply H.
Qed.

Lemma storage_update_account a l i v b a' :
  buf_read_account (buf_update_storage a l i v b) a' = buf_read_account b a'.
Proof. unfold buf_update_storage. by repeat case_match. Qed.

Lemma erase_account a b a' : buf_read_account (buf_erase_storage a b) a' = buf_read_account b a'.
Proof. unfold buf_erase_storage. by destruct (match buf_storage b !! a with Some o => _ | None => _ end). Qed.

Lemma update_account_storage a i c b a' l :
  buf_read_storage (buf_update_account a i c b) a' l = buf_read_storage b a' l.
Proof. unfold buf_update_account. by repeat case_match. Qed.

(** *** The loops that write a block state *)

(** [d] was reached within the block that began with [s0], and answers as the relations say. *)
Record at_block (s0 d : Buffer T) (ra : Address -> option Account -> Prop) (rs : Address -> Z -> Z -> Prop)
    (rc : Z -> Bytes -> Prop) : Prop := {
  ab_used : rtc used (s0, s0) (d, s0);
  ab_number : buf_block_number d = buf_block_number s0;
  ab_prune : prune_from d = prune_from s0;
  ab_account a : ra a (buf_read_account d a);
  ab_storage a l : word l -> rs a l (buf_read_storage d a l);
  ab_code h : rc h (buf_read_code d h);
}.

Lemma at_block_weaken s0 d ra ra' rs rs' rc rc' : at_block s0 d ra rs rc ->
  (forall a v, ra a v -> ra' a v) -> (forall a l v, word l -> rs a l v -> rs' a l v) -> (forall h v, rc h v -> rc' h v) ->
  at_block s0 d ra' rs' rc'.
Proof. intros [] Ha Hs Hc. split; auto. Qed.

Lemma loop_at {A} (f : A -> Buffer T -> option (Buffer T)) s0 ra rs rc (l : list A) d :
  (forall l1 x l2 d, l = l1 ++ x :: l2 -> at_block s0 d (ra l1) (rs l1) (rc l1) ->
    exists d', f x d = Some d' /\ at_block s0 d' (ra (l1 ++ [x])) (rs (l1 ++ [x])) (rc (l1 ++ [x]))) ->
  at_block s0 d (ra []) (rs []) (rc []) ->
  exists d', db_for_each f l d = Some d' /\ at_block s0 d' (ra l) (rs l) (rc l).
Proof.
  intros Hf Hd. enough (forall l2 l1 d, l = l1 ++ l2 -> at_block s0 d (ra l1) (rs l1) (rc l1) ->
    exists d', db_for_each f l2 d = Some d' /\ at_block s0 d' (ra l) (rs l) (rc l)) as H by by apply (H l []).
  clear d Hd. induction l2 as [|x l2 IH]; intros l1 d Hl Hd; cbn [db_for_each].
  - rewrite app_nil_r in Hl. subst. by exists d.
  - destruct (Hf l1 x l2 d Hl Hd) as (d1 & H1 & Hd1). rewrite H1. cbn [mbind option_bind].
    apply (IH (l1 ++ [x])); [by rewrite <- app_assoc|done].
Qed.

Lemma at_live s0 d ra rs rc : live to s0 -> at_block s0 d ra rs rc -> live to d.
Proof. unfold live. by intros ? [_ -> -> _ _ _]. Qed.

(** In a list without repeated keys, the next key is new. *)
Lemma fresh_key {K V} (l1 l2 : list (K * V)) x : NoDup (l1 ++ x :: l2).*1 -> forall v, (x.1, v) ∉ l1.
Proof.
  rewrite fmap_app. intros (_ & Hd & _)%NoDup_app v Hv. apply (Hd x.1); [|left].
  apply list_elem_of_fmap. by exists (x.1, v).
Qed.

(** What is read at the key [k]: the value of its entry in [l], or the old one. *)
Definition set_to {K V X} (value : V -> X) (old : X) (l : list (K * V)) (k : K) (x : X) : Prop :=
  (forall v, (k, v) ∈ l -> x = value v) /\ ((forall v, (k, v) ∉ l) -> x = old).

Lemma set_to_nil {K V X} (value : V -> X) old (k : K) x : x = old -> set_to value old [] k x.
Proof. intros ->. split; [by intros v ?%elem_of_nil|done]. Qed.

Lemma set_to_hit {K V X} (value : V -> X) old (l : list (K * V)) k v x : (forall v, (k, v) ∉ l) -> x = value v ->
  set_to value old (l ++ [(k, v)]) k x.
Proof.
  intros Hn ->. split; [|intros H; destruct (H v); apply elem_of_app; right; left].
  intros v' [Hv|Hv]%elem_of_app; [by destruct (Hn v')|]. apply list_elem_of_singleton in Hv. congruence.
Qed.

Lemma set_to_miss {K V X} (value : V -> X) old (l : list (K * V)) k k' v x : k <> k' -> set_to value old l k x ->
  set_to value old (l ++ [(k', v)]) k x.
Proof.
  intros Hne [Hl Hn]. split.
  - intros v' [Hv|Hv]%elem_of_app; [by apply Hl|]. apply list_elem_of_singleton in Hv. congruence.
  - intros H. apply Hn. intros v' Hv. apply (H v'). apply elem_of_app. by left.
Qed.

Lemma set_to_map {K V X} `{Countable K} (value : V -> X) old (m : gmap K V) k x :
  set_to value old (map_to_list m) k x -> x = from_option value old (m !! k).
Proof.
  intros [Hl Hn]. destruct (m !! k) as [v|] eqn:E; cbn [from_option].
  - apply Hl. by apply elem_of_map_to_list.
  - apply Hn. intros v Hv%elem_of_map_to_list. congruence.
Qed.

Section write.
Context (st : IntraBlockState (Buffer T)) (n : Z).

Abbreviation b0 := (db st).
Abbreviation s0 := (buf_begin_block n (db st)).

Definition erase_loop : Buffer T -> option (Buffer T) :=
  db_for_each (fun e d => if 0 <? e.2 then erase_storage e.1 d else Some d) (map_to_list (incarnations st)).

Context (Hlive : live to s0) (Hwf : wf st) (Hbe : benign st).

Lemma erase_loop_at : exists d, erase_loop s0 = Some d /\
  at_block s0 d (fun a v => v = buf_read_account b0 a)
    (fun a k v => v = if wiped st a then 0 else buf_read_storage b0 a k) (fun h v => v = buf_read_code b0 h).
Proof.
  destruct (loop_at (fun e d => if 0 <? e.2 then erase_storage e.1 d else Some d) s0
    (fun _ a v => v = buf_read_account b0 a) (fun l a k => set_to (fun _ => 0) (buf_read_storage b0 a k) l a)
    (fun _ h v => v = buf_read_code b0 h) (map_to_list (incarnations st)) s0) as (d & Hd & Hat).
  - intros l1 [a i] l2 d Hl Hat. pose proof (at_live _ _ _ _ _ Hlive Hat) as Hld.
    assert (incarnations st !! a = Some i) as Hi.
    { apply elem_of_map_to_list. rewrite Hl. apply elem_of_app. right. left. }
    pose proof (NoDup_fst_map_to_list (incarnations st)) as Hnd. rewrite Hl in Hnd.
    pose proof (fresh_key l1 l2 (a, i) Hnd) as Hnew. pose proof (wf_incarnations st Hwf a i Hi).
    cbn [fst snd]. rewrite (proj2 (Z.ltb_lt _ _)) by lia. eexists. split; [done|]. destruct Hat as [Hu Hn Hp Ha Hs Hc].
    assert (buf_block_number (buf_erase_storage a d) = buf_block_number d /\ prune_from (buf_erase_storage a d) = prune_from d)
      as [En Ep] by (unfold buf_erase_storage; by destruct (match buf_storage d !! a with Some o => _ | None => _ end)).
    split; [|by rewrite En|by rewrite Ep|intros a'; by rewrite erase_account| |].
    + eapply rtc_r; [exact Hu|]. apply used_erase; [done|by eapply be_incarnation|]. intros _ l Hl'.
      destruct (Hs a l Hl') as [_ Hold]. by apply Hold.
    + intros a' l Hl'. rewrite erase_read. destruct (decide (a' = a)) as [->|Hne]; [by apply set_to_hit|].
      apply set_to_miss; [done|]. by apply Hs.
    + intros h. rewrite <- (Hc h). unfold buf_erase_storage.
      by destruct (match buf_storage d !! a with Some o => _ | None => _ end).
  - split; [done|done|done|done| |done]. intros a l Hl. by apply set_to_nil.
  - exists d. split; [exact Hd|]. eapply at_block_weaken; [exact Hat|done| |done].
    intros a l v Hl Hv%set_to_map. rewrite Hv. unfold wiped. by destruct (incarnations st !! a).
Qed.

(** The slots that are written, one after the other. *)
Definition live_slots : list ((Address * Z) * CommittedValue) :=
  map_to_list (IntraBlockState.storage st) ≫= fun e =>
    match objects st !! e.1 ≫= current with
    | Some _ => (fun kv => ((e.1, kv.1), kv.2)) <$> map_to_list (st_committed e.2)
    | None => []
    end.

Lemma db_for_each_app {A} (f : A -> Buffer T -> option (Buffer T)) l1 l2 d :
  db_for_each f (l1 ++ l2) d = db_for_each f l1 d ≫= db_for_each f l2.
Proof. revert d. induction l1 as [|x l1 IH]; intros d; [done|]. cbn. destruct (f x d); [apply IH|done]. Qed.

Definition write_slot (x : (Address * Z) * CommittedValue) (d : Buffer T) : option (Buffer T) :=
  update_storage x.1.1 x.1.2 (cv_initial x.2) (cv_original x.2) d.

Definition storage_loop : Buffer T -> option (Buffer T) :=
  db_for_each (fun e d =>
    match objects st !! e.1 ≫= current with
    | Some _ => db_for_each (fun kv d => update_storage e.1 kv.1 (cv_initial kv.2) (cv_original kv.2) d)
                  (map_to_list (st_committed e.2)) d
    | None => Some d
    end) (map_to_list (IntraBlockState.storage st)).

Lemma storage_loop_flat d : storage_loop d = db_for_each write_slot live_slots d.
Proof.
  unfold storage_loop, live_slots. revert d. induction (map_to_list (IntraBlockState.storage st)) as [|[a sto] l IH]; intros d; [done|].
  rewrite bind_cons, db_for_each_app. cbn [db_for_each fst snd].
  assert ((match objects st !! a ≫= current with
    | Some _ => db_for_each (fun kv d => update_storage a kv.1 (cv_initial kv.2) (cv_original kv.2) d) (map_to_list (st_committed sto)) d
    | None => Some d end) = db_for_each write_slot
      match objects st !! a ≫= current with
      | Some _ => (fun kv => ((a, kv.1), kv.2)) <$> map_to_list (st_committed sto)
      | None => [] end d) as ->.
  { destruct (objects st !! a ≫= current); [|done]. clear IH. revert d.
    induction (map_to_list (st_committed sto)) as [|kv l' IH']; intros d; [done|]. cbn [fmap list_fmap db_for_each].
    change (write_slot (a, kv.1, kv.2) d) with (update_storage a kv.1 (cv_initial kv.2) (cv_original kv.2) d).
    destruct (update_storage _ _ _ _ d); cbn [mbind option_bind]; [exact (IH' _)|done]. }
  destruct (db_for_each write_slot _ d) as [d1|]; [apply IH|done].
Qed.

Lemma elem_of_live_slots a k c : ((a, k), c) ∈ live_slots <-> live_slot st (a, k) = Some c.
Proof.
  unfold live_slots, live_slot, committed_at, storage_at. rewrite list_elem_of_bind. cbn [fst snd]. split.
  - intros ([a' sto] & Hin & Hs%elem_of_map_to_list). cbn [fst snd] in Hin.
    destruct (objects st !! a' ≫= current) eqn:E; [|by apply elem_of_nil in Hin].
    apply list_elem_of_fmap in Hin as ([k' c'] & [= -> -> ->] & Hc%elem_of_map_to_list). by rewrite E, Hs.
  - destruct (objects st !! a ≫= current) eqn:E; [|done]. destruct (IntraBlockState.storage st !! a) as [sto|] eqn:Es; cbn; intros Hc.
    + exists (a, sto). split; [|by apply elem_of_map_to_list]. cbn [fst snd]. rewrite E. apply list_elem_of_fmap.
      exists (k, c). split; [done|]. by apply elem_of_map_to_list.
    + by rewrite lookup_empty in Hc.
Qed.

Lemma live_slots_nodup : NoDup live_slots.*1.
Proof.
  apply NoDup_fmap_2_strong.
  - intros [[a k] c] [[a' k'] c'] H H' [= -> ->]. apply elem_of_live_slots in H, H'. congruence.
  - unfold live_slots. apply NoDup_bind.
    + intros [a sto] [a' sto'] [[a'' k] c] H%elem_of_map_to_list H'%elem_of_map_to_list Hc Hc'. cbn [fst snd] in *.
      assert (a'' = a) as ->.
      { destruct (objects st !! a ≫= current); [|by apply elem_of_nil in Hc].
        apply list_elem_of_fmap in Hc as (? & [= -> -> ->] & _). done. }
      assert (a = a') as <-; [|congruence].
      destruct (objects st !! a' ≫= current); [|by apply elem_of_nil in Hc'].
      apply list_elem_of_fmap in Hc' as (? & [= -> -> ->] & _). done.
    + intros [a sto] _. cbn [fst snd]. destruct (objects st !! a ≫= current); [|constructor].
      apply NoDup_fmap_2; [|apply NoDup_map_to_list]. by intros [] [] [= -> ->].
    + apply NoDup_map_to_list.
Qed.

Context (Hf : faithful b0 st) (Horphan : orphan_free b0).

Lemma stored_slot a k : word k -> stored b0 a k (buf_read_storage b0 a k).
Proof. intros Hk. split; [done|]. split; [|by eexists]. intros [= Ha]. by apply Horphan. Qed.

(** What is left of a slot after the erasure is its initial value; with [strict] it is also
    the one at the beginning of the block. *)
Lemma slot_initial a k c : live_slot st (a, k) = Some c -> is_address a /\ word k /\
  cv_initial c = (if wiped st a then 0 else buf_read_storage b0 a k) /\ (strict = true -> cv_initial c = buf_read_storage b0 a k).
Proof.
  unfold live_slot. cbn [fst snd]. destruct (objects st !! a ≫= current); [|done]. intros Hc.
  destruct (be_slot st Hbe a k c Hc) as [Ha Hk].
  pose proof (initial_left b0 st a k c _ Hf (stored_slot a k Hk) Hc) as Hi. split_and!; [done|done|done|].
  intros Hs. rewrite Hi. unfold wiped in *. case_bool_decide as Hw; [|done]. symmetry. by eapply be_clobber.
Qed.

Lemma storage_loop_at d : at_block s0 d (fun a v => v = buf_read_account b0 a)
    (fun a k v => v = if wiped st a then 0 else buf_read_storage b0 a k) (fun h v => v = buf_read_code b0 h) ->
  exists d', storage_loop d = Some d' /\ at_block s0 d' (fun a v => v = buf_read_account b0 a)
    (fun a k v => v = end_value st (a, k) (buf_read_storage b0 a k)) (fun h v => v = buf_read_code b0 h).
Proof.
  intros Hd. rewrite storage_loop_flat.
  destruct (loop_at write_slot s0 (fun _ a v => v = buf_read_account b0 a)
    (fun l a k => set_to cv_original (if wiped st a then 0 else buf_read_storage b0 a k) l (a, k))
    (fun _ h v => v = buf_read_code b0 h) live_slots d) as (d' & Hd' & Hat).
  - intros l1 [[a k] c] l2 d1 Hl Hat. pose proof (at_live _ _ _ _ _ Hlive Hat) as Hld.
    assert (live_slot st (a, k) = Some c) as Hc.
    { apply elem_of_live_slots. rewrite Hl. apply elem_of_app. right. left. }
    destruct (slot_initial a k c Hc) as (Ha & Hk & Hi & His).
    pose proof live_slots_nodup as Hnd. rewrite Hl in Hnd. pose proof (fresh_key l1 l2 (a, k, c) Hnd) as Hnew.
    cbn [fst] in Hnew. unfold write_slot. cbn [fst snd]. eexists. split; [done|]. destruct Hat as [Hu Hn Hp Hra Hrs Hrc].
    assert (buf_read_storage d1 a k = cv_initial c) as Hread.
    { rewrite Hi. destruct (Hrs a k Hk) as [_ Hold]. by apply Hold. }
    assert (forall i v, buf_block_number (buf_update_storage a k i v d1) = buf_block_number d1 /\
      prune_from (buf_update_storage a k i v d1) = prune_from d1 /\
      forall h, buf_read_code (buf_update_storage a k i v d1) h = buf_read_code d1 h) as Hsame.
    { intros i v. unfold buf_update_storage. by repeat case_match. }
    destruct (Hsame (cv_initial c) (cv_original c)) as (En & Ep & Ec).
    split; [|by rewrite En|by rewrite Ep|intros a'; by rewrite storage_update_account| |intros h; by rewrite Ec].
    + eapply rtc_r; [exact Hu|]. apply used_storage; [done..|]. intros Hs. by rewrite (His Hs).
    + intros a' k' Hk'. rewrite storage_update_read. destruct (decide (a' = a /\ k' = k)) as [[-> ->]|Hne].
      * apply set_to_hit; [done|]. case_decide as E; [done|]. rewrite Hread.
        destruct (decide (cv_original c = cv_initial c)); [done|]. naive_solver.
      * rewrite decide_False by naive_solver. apply set_to_miss; [intros [= -> ->]; by destruct Hne|]. by apply Hrs.
  - eapply at_block_weaken; [exact Hd|done| |done]. intros a k v Hk ->. by apply set_to_nil.
  - exists d'. split; [done|]. eapply at_block_weaken; [exact Hat|done| |done]. intros a k v Hk [Hl Hn].
    unfold end_value. destruct (live_slot st (a, k)) as [c|] eqn:Ec.
    + apply Hl. by apply elem_of_live_slots.
    + apply Hn. intros c Hc%elem_of_live_slots. congruence.
Qed.

Lemma account_loop_at d rs rc : at_block s0 d (fun a v => v = buf_read_account b0 a) rs rc ->
  exists d', db_for_each (fun e d => Some (update_account e.1 (initial e.2) (current e.2) d)) (map_to_list (objects st)) d = Some d' /\
    at_block s0 d' (fun a v => v = account_of st a) rs rc.
Proof.
  intros Hd. destruct (loop_at (fun e d => Some (update_account e.1 (initial e.2) (current e.2) d)) s0
    (fun l a => set_to current (buf_read_account b0 a) l a) (fun _ => rs) (fun _ => rc) (map_to_list (objects st)) d)
    as (d' & Hd' & Hat).
  - intros l1 [a o] l2 d1 Hl Hat. pose proof (at_live _ _ _ _ _ Hlive Hat) as Hld.
    assert (objects st !! a = Some o) as Ho.
    { apply elem_of_map_to_list. rewrite Hl. apply elem_of_app. right. left. }
    pose proof (wf_initial st Hwf a o Ho) as Hi. cbn in Hi. injection Hi as Hi.
    destruct (be_object st Hbe a o Ho) as [Ha Hph].
    pose proof (NoDup_fst_map_to_list (objects st)) as Hnd. rewrite Hl in Hnd.
    pose proof (fresh_key l1 l2 (a, o) Hnd) as Hnew. cbn [fst snd] in *. eexists. split; [done|].
    destruct Hat as [Hu Hn Hp Hra Hrs Hrc].
    assert (forall i v, buf_block_number (buf_update_account a i v d1) = buf_block_number d1 /\
      prune_from (buf_update_account a i v d1) = prune_from d1 /\
      forall h, buf_read_code (buf_update_account a i v d1) h = buf_read_code d1 h) as Hsame.
    { intros i v. unfold buf_update_account. by repeat case_match. }
    destruct (Hsame (initial o) (current o)) as (En & Ep & Ec). cbn.
    split; [|by rewrite En|by rewrite Ep| |intros a' k Hk; rewrite update_account_storage; by apply Hrs|intros h; by rewrite Ec].
    + eapply rtc_r; [exact Hu|]. apply used_account; [done|done|]. intros Hs. split; [done|by apply Hph].
    + intros a'. rewrite read_updated. destruct (decide (a' = a)) as [->|Hne].
      * apply set_to_hit; [done|]. case_decide as E; [done|]. destruct (Hra a) as [_ ->]; [|done]. rewrite Hi.
        destruct (decide (current o = initial o)); [done|]. naive_solver.
      * rewrite decide_False by naive_solver. apply set_to_miss; [done|]. by apply Hra.
  - eapply at_block_weaken; [exact Hd| |done|done]. intros a v ->. by apply set_to_nil.
  - exists d'. split; [done|]. eapply at_block_weaken; [exact Hat| |done|done]. intros a v Hv%set_to_map. rewrite Hv.
    unfold account_of, effective. destruct (objects st !! a); [done|]. cbn. by destruct (buf_read_account b0 a).
Qed.

Lemma code_loop_at d ra rs : at_block s0 d ra rs (fun h v => v = buf_read_code b0 h) ->
  exists d', db_for_each (fun e d => update_code e.1 e.2 d) (map_to_list (new_code st)) d = Some d' /\
    at_block s0 d' ra rs (fun h v => v = default (buf_read_code b0 h) (new_code st !! h)).
Proof.
  intros Hd. destruct (loop_at (fun e d => update_code e.1 e.2 d) s0 (fun _ => ra) (fun _ => rs)
    (fun l h => set_to id (buf_read_code b0 h) l h) (map_to_list (new_code st)) d) as (d' & Hd' & Hat).
  - intros l1 [h c] l2 d1 Hl [Hu Hn Hp Hra Hrs Hrc].
    pose proof (NoDup_fst_map_to_list (new_code st)) as Hnd. rewrite Hl in Hnd.
    pose proof (fresh_key l1 l2 (h, c) Hnd) as Hnew. eexists. split; [done|].
    split; [|done|done|done|done|]; cbn [fst snd].
    + eapply rtc_r; [exact Hu|]. apply used_code.
    + intros h'. unfold buf_read_code. cbn [hash_to_code buf_update_code txn].
      destruct (decide (h' = h)) as [->|Hne]; [rewrite lookup_insert_eq; by apply set_to_hit|].
      rewrite lookup_insert_ne by done. apply set_to_miss; [done|]. apply Hrc.
  - eapply at_block_weaken; [exact Hd|done|done|]. intros h v ->. by apply set_to_nil.
  - exists d'. split; [done|]. eapply at_block_weaken; [exact Hat|done|done|]. intros h v Hv%set_to_map. rewrite Hv.
    by destruct (new_code st !! h).
Qed.

(** Writing the block state succeeds by steps of a block, after which the buffer answers as
    the block state does. *)
Lemma block_written : exists d, ibs.write_to_db n st = Some d /\
  at_block s0 d (fun a v => v = account_of st a) (fun a k v => v = end_value st (a, k) (buf_read_storage b0 a k))
    (fun h v => v = default (buf_read_code b0 h) (new_code st !! h)).
Proof.
  destruct erase_loop_at as (d1 & H1 & A1). destruct (storage_loop_at d1 A1) as (d2 & H2 & A2).
  destruct (account_loop_at d2 _ _ A2) as (d3 & H3 & A3). destruct (code_loop_at d3 _ _ A3) as (d4 & H4 & A4).
  exists d4. split; [|done]. unfold ibs.write_to_db. fold erase_loop storage_loop.
  change (begin_block n b0) with s0. by rewrite H1, bind_Some_eq, H2, bind_Some_eq, H3, bind_Some_eq.
Qed.

End write.

End block_end.

(** ** The history that is written in the middle of a batch *)

Section ghosts.
Context {T : Type -> Type} {KV : Kv T}.
#[local] Existing Instance buffer_state.
Context (strict : bool) (to : Z).

(** The changes and logs that were taken out of the buffer. *)
Record Flushed := {
  fl_accounts : gmap Z (gmap Address (option Account));
  fl_storage : gmap Z (gmap Address (gmap Z Z));
  fl_logs : gmap Z (gmap Z (list Log));
}.

Implicit Types (b s : Buffer T) (f : Flushed) (t : StateTables T).

(** The buffer over [t] that would have kept them. *)
Definition ghost t f b : Buffer T := {|
  txn := t; prune_from := prune_from b; historical_block := historical_block b; buf_accounts := buf_accounts b;
  buf_storage := buf_storage b; buf_account_changes := fl_accounts f ∪ buf_account_changes b;
  buf_storage_changes := fl_storage f ∪ buf_storage_changes b; hash_to_code := hash_to_code b;
  buf_logs := fl_logs f ∪ buf_logs b; buf_block_number := buf_block_number b; changed_storage := changed_storage b;
|}.

(** The tables of the state are those of [t]; they are read as they are now. *)
Record same_state t b : Prop := {
  ss_account : account_table (txn b) = account_table t;
  ss_storage : storage_table (txn b) = storage_table t;
  ss_code : code_table (txn b) = code_table t;
  ss_account_history : account_history (txn b) = account_history t;
  ss_storage_history : storage_history (txn b) = storage_history t;
  ss_now : historical_block b = None;
}.

(** Nothing of the block [n] was taken out. *)
Record no_block f n : Prop := {
  nb_accounts : fl_accounts f !! n = None;
  nb_storage : fl_storage f !! n = None;
  nb_logs : fl_logs f !! n = None;
}.

Lemma ghost_read_account t f b a : same_state t b -> buf_read_account (ghost t f b) a = buf_read_account b a.
Proof.
  intros []. unfold buf_read_account, account_read. cbn [ghost buf_accounts txn historical_block].
  by rewrite ss_now0, ss_account0.
Qed.

Lemma ghost_read_storage t f b a l : same_state t b -> buf_read_storage (ghost t f b) a l = buf_read_storage b a l.
Proof.
  intros []. unfold buf_read_storage, storage_read. cbn [ghost buf_storage txn historical_block].
  by rewrite ss_now0, ss_storage0.
Qed.

Lemma ghost_read_code t f b h : same_state t b -> buf_read_code (ghost t f b) h = buf_read_code b h.
Proof. intros []. unfold buf_read_code. cbn [ghost hash_to_code txn]. by rewrite ss_code0. Qed.

Lemma ghost_begin t f b n : ghost t f (buf_begin_block n b) = buf_begin_block n (ghost t f b).
Proof. done. Qed.

(** *** Each operation commutes with taking changes of other blocks out *)

Lemma union_lookup_new {V} (m1 m2 : gmap Z V) n : m1 !! n = None -> (m1 ∪ m2) !! n = m2 !! n.
Proof. intros Hn. by apply lookup_union_r. Qed.

Lemma ghost_account t f b a i c : no_block f (buf_block_number b) ->
  ghost t f (buf_update_account a i c b) = buf_update_account a i c (ghost t f b).
Proof.
  intros []. unfold buf_update_account. cbv zeta. cbn [ghost changed_storage prune_from buf_block_number buf_account_changes].
  rewrite union_lookup_new by done. destruct (_ && _ && _); [done|]. unfold ghost, with_state. cbn.
  f_equal. destruct (_ <=? _); [by rewrite insert_union_r|done].
Qed.

Lemma ghost_changes_of t f b a : no_block f (buf_block_number b) -> changes_of (ghost t f b) a = changes_of b a.
Proof. intros []. unfold changes_of. cbn [ghost buf_storage_changes buf_block_number]. by rewrite union_lookup_new. Qed.

Lemma ghost_set_changes t f b a c : no_block f (buf_block_number b) ->
  set_changes_of (ghost t f b) a c = fl_storage f ∪ set_changes_of b a c.
Proof.
  intros []. unfold set_changes_of. cbn [ghost buf_storage_changes buf_block_number].
  by rewrite union_lookup_new, insert_union_r.
Qed.

Lemma ghost_storage t f b a l i v : no_block f (buf_block_number b) ->
  ghost t f (buf_update_storage a l i v b) = buf_update_storage a l i v (ghost t f b).
Proof.
  intros Hn. unfold buf_update_storage. destruct (v =? i); [done|]. cbv zeta.
  rewrite ghost_changes_of, ghost_set_changes by done. cbn [ghost prune_from buf_block_number buf_storage].
  by destruct (_ <=? _).
Qed.

Lemma ghost_erase t f b a : same_state t b -> no_block f (buf_block_number b) ->
  ghost t f (buf_erase_storage a b) = buf_erase_storage a (ghost t f b).
Proof.
  intros Hs Hn. unfold buf_erase_storage. cbn [ghost buf_storage].
  destruct (match buf_storage b !! a with Some o => _ | None => _ end) as [o fresh]. cbv zeta.
  rewrite ghost_changes_of, ghost_set_changes by done.
  assert (database_slots (txn (ghost t f b)) a = database_slots (txn b) a) as ->; [|done].
  unfold database_slots. cbn [ghost txn]. by rewrite (ss_storage t b Hs).
Qed.

Lemma insert_logs_union (m : gmap Z (gmap Z (list Log))) n i rs l : m !! n = None ->
  insert_logs n i rs (m ∪ l) = m ∪ insert_logs n i rs l.
Proof.
  intros Hn. revert i l. induction rs as [|r rs IH]; intros i l; [done|]. cbn [insert_logs].
  by rewrite union_lookup_new, <- IH, insert_union_r.
Qed.

Lemma ghost_receipts t f b rs : no_block f (buf_block_number b) ->
  ghost t f (insert_receipts (buf_block_number b) rs b) = insert_receipts (buf_block_number b) rs (ghost t f b).
Proof.
  intros []. unfold insert_receipts, ghost. cbn. by rewrite insert_logs_union.
Qed.

(** The steps of the buffer are steps of its ghost. *)
Lemma ghost_used t f b s b' s' : same_state t b -> same_state t s -> no_block f (buf_block_number b) ->
  (forall n, buf_block_number b < n -> no_block f n) -> used strict to (b, s) (b', s') ->
  used strict to (ghost t f b, ghost t f s) (ghost t f b', ghost t f s').
Proof.
  intros Hb Hs Hn Hlater Hu. inversion Hu; subst.
  - rewrite ghost_begin. by apply used_begin.
  - rewrite ghost_account by done. apply used_account; [done|done|]. by rewrite ghost_read_account.
  - rewrite ghost_storage by done. apply used_storage; [done|done|done|]. by rewrite ghost_read_storage.
  - rewrite ghost_erase by done. apply used_erase; [done|done|]. intros Hst l Hl. rewrite !ghost_read_storage by done. auto.
  - apply (used_code strict to (ghost t f b)).
  - rewrite ghost_receipts by done. by apply (used_receipts strict to (ghost t f b)).
Qed.

(** What the steps keep. *)
Record steady b b' : Prop := {
  sd_txn : txn b' = txn b;
  sd_now : historical_block b' = historical_block b;
  sd_prune : prune_from b' = prune_from b;
  sd_number : buf_block_number b <= buf_block_number b';
}.

Lemma steady_trans b1 b2 b3 : steady b1 b2 -> steady b2 b3 -> steady b1 b3.
Proof. intros [] []. split; [congruence..|lia]. Qed.

Lemma used_steady b s b' s' : used strict to (b, s) (b', s') -> steady b b' /\ (s' = s \/ s' = b').
Proof.
  intros Hu. inversion Hu; subst; (split; [|by auto]).
  - split; [done..|]. cbn. lia.
  - unfold buf_update_account. repeat case_match; by split.
  - unfold buf_update_storage. repeat case_match; by split.
  - unfold buf_erase_storage. destruct (match buf_storage b !! a with Some o => _ | None => _ end). by split.
  - by split.
  - by split.
Qed.

Lemma steady_same t b b' : steady b b' -> same_state t b -> same_state t b'.
Proof. intros [] []. split; congruence. Qed.

Lemma ghost_steps t f b s b' s' : same_state t b -> same_state t s ->
  (forall n, buf_block_number b <= n -> no_block f n) -> rtc (used strict to) (b, s) (b', s') ->
  rtc (used strict to) (ghost t f b, ghost t f s) (ghost t f b', ghost t f s') /\ steady b b'.
Proof.
  intros Hb Hs Hn Hr. remember (b, s) as x eqn:Ex. remember (b', s') as y eqn:Ey. revert b s Ex Hb Hs Hn.
  induction Hr as [x|x [b1 s1] y Hu _ IH]; intros b s -> Hb Hs Hn; [injection Ey as <- <-; by split; [|split]|].
  specialize (IH Ey). destruct (used_steady b s b1 s1 Hu) as [Hst Hs1]. pose proof (steady_same t b b1 Hst Hb) as Hb1.
  assert (same_state t s1) as Hs1' by (by destruct Hs1 as [->| ->]).
  destruct (IH b1 s1 eq_refl Hb1 Hs1') as [Hg Hsd].
  { intros n Hle. apply Hn. pose proof (sd_number _ _ Hst). lia. }
  split; [|by eapply steady_trans]. eapply rtc_l; [|exact Hg]. apply ghost_used; [done|done|by apply Hn| |done].
  intros n Hlt. apply Hn. lia.
Qed.

(** *** Ranges are kept by the steps *)

Lemma used_ranged b s b' s' : used strict to (b, s) (b', s') -> ranged to b -> ranged to b'.
Proof.
  intros Hu Hr. inversion Hu; subst.
  - by apply ranged_begin.
  - by apply ranged_account.
  - by apply ranged_storage.
  - by apply ranged_erase.
  - destruct Hr as [[] []]. by split; split.
  - by apply ranged_receipts.
Qed.

Lemma steps_ranged x y : rtc (used strict to) x y -> ranged to x.1 -> ranged to y.1.
Proof.
  induction 1 as [|[b s] [b1 s1] y Hu _ IH]; [done|]. intros Hr. apply IH. by eapply used_ranged.
Qed.

Lemma steps_steady x y : rtc (used strict to) x y -> steady x.1 y.1.
Proof.
  induction 1 as [|[b s] [b1 s1] y Hu _ IH]; [by split|]. destruct (used_steady b s b1 s1 Hu) as [Hs _].
  by eapply steady_trans.
Qed.

(** *** Writing *)

Lemma append_all_app {V} (l1 l2 : list (Z * V)) (t : T V) : append_all (l1 ++ l2) t = append_all l1 t ≫= append_all l2.
Proof. revert t. induction l1 as [|[k v] l1 IH]; intros t; [done|]. cbn. destruct (kv_append k v t); [apply IH|done]. Qed.

Lemma in_order_union {V} (m1 m2 : gmap Z V) : (forall k v k' v', m1 !! k = Some v -> m2 !! k' = Some v' -> k < k') ->
  in_order (m1 ∪ m2) = in_order m1 ++ in_order m2.
Proof.
  intros Hlt. assert (m1 ##ₘ m2) as Hd.
  { apply map_disjoint_spec. intros k v v' H H'. specialize (Hlt k v k v' H H'). lia. }
  apply strictly_sorted_unique; [apply in_order_sorted| |].
  - apply StronglySorted_app. split_and!; [|apply in_order_sorted..].
    intros [k v] [k' v'] H%elem_of_in_order H'%elem_of_in_order. by eapply Hlt.
  - apply NoDup_Permutation.
    + apply (NoDup_fmap_1 fst), NoDup_in_order.
    + apply NoDup_app. split_and!; [apply (NoDup_fmap_1 fst), NoDup_in_order| |apply (NoDup_fmap_1 fst), NoDup_in_order].
      intros [k v] H%elem_of_in_order H'%elem_of_in_order. specialize (Hlt k v k v H H'). lia.
    + intros [k v]. by rewrite elem_of_app, !elem_of_in_order, lookup_union_Some.
Qed.

Lemma account_entries_app (c1 c2 : gmap Z (gmap Address (option Account))) :
  (forall k v k' v', c1 !! k = Some v -> c2 !! k' = Some v' -> k < k') ->
  account_entries (c1 ∪ c2) = account_entries c1 ++ account_entries c2.
Proof. intros H. unfold account_entries. by rewrite in_order_union, fmap_app, concat_app. Qed.

Lemma storage_entries_app (c1 c2 : gmap Z (gmap Address (gmap Z Z))) :
  (forall k v k' v', c1 !! k = Some v -> c2 !! k' = Some v' -> k < k') ->
  storage_entries (c1 ∪ c2) = storage_entries c1 ++ storage_entries c2.
Proof. intros H. unfold storage_entries. by rewrite in_order_union, fmap_app, concat_app. Qed.

Lemma log_entries_app (c1 c2 : gmap Z (gmap Z (list Log))) :
  (forall k v k' v', c1 !! k = Some v -> c2 !! k' = Some v' -> k < k') ->
  log_entries (c1 ∪ c2) = log_entries c1 ++ log_entries c2.
Proof. intros H. unfold log_entries. by rewrite in_order_union, fmap_app, concat_app. Qed.

(** [f] was taken out of [b] and appended to the tables [t], up to the block [m]. *)
Record flushed t f m b : Prop := {
  fd_same : same_state t b;
  fd_accounts : append_all (account_entries (fl_accounts f)) (account_change_set t) = Some (account_change_set (txn b));
  fd_storage : append_all (storage_entries (fl_storage f)) (storage_change_set t) = Some (storage_change_set (txn b));
  fd_logs : append_all (log_entries (fl_logs f)) (log_table t) = Some (log_table (txn b));
  fd_old n : m < n -> no_block f n;
  fd_new n : n <= m ->
    buf_account_changes b !! n = None /\ buf_storage_changes b !! n = None /\ buf_logs b !! n = None;
}.

(** The tables with other traces of calls. *)
Definition retrace (tr : T CallTraceSetEntry) t : StateTables T := {|
  account_table := account_table t; storage_table := storage_table t; code_table := code_table t;
  account_change_set := account_change_set t; storage_change_set := storage_change_set t; log_table := log_table t;
  account_history := account_history t; storage_history := storage_history t; state_call_traces := tr |}.

Lemma old_before_new {V} (c1 c2 : gmap Z V) m : (forall n, m < n -> c1 !! n = None) -> (forall n, n <= m -> c2 !! n = None) ->
  forall k v k' v', c1 !! k = Some v -> c2 !! k' = Some v' -> k < k'.
Proof.
  intros H1 H2 k v k' v' Hk Hk'. assert (k <= m) by (apply Z.nlt_ge; intros H; rewrite H1 in Hk by lia; done).
  assert (m < k') by (apply Z.nle_gt; intros H'; rewrite H2 in Hk' by lia; done). lia.
Qed.

Lemma flushed_history t f m b : flushed t f m b ->
  write_history b = retrace (state_call_traces (txn b)) <$> write_history (ghost t f b).
Proof.
  intros [[] Ha Hs Hl Hold Hnew]. unfold write_history. cbn [ghost buf_account_changes buf_storage_changes buf_logs txn].
  rewrite account_entries_app, storage_entries_app, log_entries_app, !append_all_app, Ha, Hs, Hl; cbn [mbind option_bind].
  - destruct (append_all _ (account_change_set (txn b))); [|done]. destruct (append_all _ (storage_change_set (txn b))); [|done].
    destruct (append_all _ (log_table (txn b))); [|done]. cbn. unfold retrace. cbn. congruence.
  - apply (old_before_new _ _ m); intros n Hn; [by apply Hold|by apply Hnew].
  - apply (old_before_new _ _ m); intros n Hn; [by apply Hold|by apply Hnew].
  - apply (old_before_new _ _ m); intros n Hn; [by apply Hold|by apply Hnew].
Qed.

Lemma flushed_written t f m b : flushed t f m b ->
  write_to_db b = retrace (state_call_traces (txn b)) <$> write_to_db (ghost t f b).
Proof. intros Hf. unfold write_to_db. rewrite (flushed_history t f m b Hf). by destruct (write_history (ghost t f b)). Qed.

(** Taking the rest out leaves the ghost as it is. *)
Lemma flush_ghost t f m b b' : flushed t f m b -> flush_history b = Some b' ->
  (forall n, buf_block_number b < n ->
    buf_account_changes b !! n = None /\ buf_storage_changes b !! n = None /\ buf_logs b !! n = None) ->
  m <= buf_block_number b ->
  exists f', ghost t f' b' = ghost t f b /\ flushed t f' (buf_block_number b) b' /\
    state_call_traces (txn b') = state_call_traces (txn b).
Proof.
  intros Hf Hflush Hnow Hm. pose proof Hf as [[] Ha Hs Hl Hold Hnew]. unfold flush_history, write_history in Hflush.
  apply bind_Some in Hflush as (t' & Ht' & [= <-]).
  apply bind_Some in Ht' as (ac & Hac & (sc & Hsc & (lt & Hlt & [= <-])%bind_Some)%bind_Some).
  exists {| fl_accounts := fl_accounts f ∪ buf_account_changes b; fl_storage := fl_storage f ∪ buf_storage_changes b;
            fl_logs := fl_logs f ∪ buf_logs b |}.
  split; [unfold ghost; cbn; by rewrite !map_union_empty|]. split; [|done]. split; cbn.
  - by split.
  - rewrite account_entries_app, append_all_app, Ha; [done|]. apply (old_before_new _ _ m); intros n Hn; [by apply Hold|by apply Hnew].
  - rewrite storage_entries_app, append_all_app, Hs; [done|]. apply (old_before_new _ _ m); intros n Hn; [by apply Hold|by apply Hnew].
  - rewrite log_entries_app, append_all_app, Hl; [done|]. apply (old_before_new _ _ m); intros n Hn; [by apply Hold|by apply Hnew].
  - intros n Hn. destruct (Hnow n Hn) as (? & ? & ?). destruct (Hold n ltac:(lia)). split; cbn; by apply lookup_union_None.
  - intros n _. by rewrite !lookup_empty.
Qed.

(** The steps of later blocks keep what was taken out apart. *)
Lemma used_other b s b' s' n : used strict to (b, s) (b', s') -> n <> buf_block_number b ->
  buf_account_changes b' !! n = buf_account_changes b !! n /\
  buf_storage_changes b' !! n = buf_storage_changes b !! n /\ buf_logs b' !! n = buf_logs b !! n.
Proof.
  intros Hu Hn. inversion Hu; subst; [done| | | |done|].
  - unfold buf_update_account. cbv zeta. destruct (_ && _ && _); [done|]. cbn. split; [|done].
    destruct (_ <=? _); [|done]. by rewrite lookup_insert_ne.
  - unfold buf_update_storage. destruct (_ =? _); [done|]. cbv zeta.
    destruct (_ <=? _); cbn; split_and!; try done. unfold set_changes_of. by rewrite lookup_insert_ne.
  - unfold buf_erase_storage. destruct (match buf_storage b !! a with Some o => _ | None => _ end). cbn. split_and!; [done| |done].
    unfold set_changes_of. by rewrite lookup_insert_ne.
  - cbn. split_and!; [done|done|]. clear -Hn. generalize 0 as i. generalize (buf_logs b) as l.
    induction rs as [|r rs IH]; intros l i; [done|]. cbn [insert_logs]. rewrite IH. by rewrite lookup_insert_ne.
Qed.

Lemma flushed_steps t f m x y : rtc (used strict to) x y -> m < buf_block_number x.1 -> flushed t f m x.1 -> flushed t f m y.1.
Proof.
  induction 1 as [|[b s] [b1 s1] y Hu _ IH]; [done|]. intros Hm Hf. cbn [fst] in *.
  destruct (used_steady b s b1 s1 Hu) as [Hst _]. apply IH; [destruct Hst; lia|].
  destruct Hf as [Hsame Ha Hs Hl Hold Hnew]. pose proof (steady_same t b b1 Hst Hsame). destruct Hst as [Etx _ _ _].
  split; [done|by rewrite Etx..|done|]. intros n Hn. destruct (used_other b s b1 s1 n Hu ltac:(lia)) as (-> & -> & ->). by apply Hnew.
Qed.

Lemma flushed_traces t f m b tr : flushed t f m b -> flushed t f m (with_traces b tr).
Proof. intros [[] ? ? ? ? ?]. by split. Qed.

Lemma flushed_new t p m : flushed t {| fl_accounts := ∅; fl_storage := ∅; fl_logs := ∅ |} m (new t p None).
Proof.
  split; [by split|..]; cbn.
  - unfold account_entries. by rewrite in_order_empty.
  - unfold storage_entries. by rewrite in_order_empty.
  - unfold log_entries. by rewrite in_order_empty.
  - intros n _. split; apply lookup_empty.
  - intros n _. split_and!; apply lookup_empty.
Qed.

Lemma ghost_new t p : ghost t {| fl_accounts := ∅; fl_storage := ∅; fl_logs := ∅ |} (new t p None) = new t p None.
Proof. unfold ghost, new. cbn. by rewrite !(left_id_L ∅ union). Qed.

End ghosts.

(** ** The traces of a block *)

Section traces.
Context {T : Type -> Type} {KV : Kv T}.

Lemma entry_number_range e : is_address (trace_address e) -> 0 <= entry_number e < 2 ^ 168.
Proof. unfold entry_number, uint. destruct (trace_from e), (trace_to e); lia. Qed.

Lemma call_trace_block n e : is_address (trace_address e) -> trace_block (call_trace_key n e) = n.
Proof.
  intros Ha%entry_number_range. unfold trace_block, call_trace_key. rewrite Z.div_add_l by lia.
  rewrite (Z.div_small (entry_number e)) by lia. lia.
Qed.

Definition traced_addresses (tracer : CallTracer) : Prop := forall a fl, traced tracer !! a = Some fl -> is_address a.

(** The traces of a block after all others are appended. *)
Lemma write_traces_spec n tracer (b : Buffer T) : traced_addresses tracer ->
  (forall k e, content (state_call_traces (txn b)) !! k = Some e -> trace_block k < n) ->
  exists tr, write_traces n tracer b = Some (with_traces b tr) /\
    (forall k e, content tr !! k = Some e -> trace_block k <= n) /\
    forall k, trace_block k <> n -> content tr !! k = content (state_call_traces (txn b)) !! k.
Proof.
  intros Hty Hold. set (l := trace_entry n <$> call_tracer.into_sorted_iter tracer).
  assert (forall k e, (k, e) ∈ l -> trace_block k = n) as Hblock.
  { intros k e ([a fl] & [= -> ->] & He)%list_elem_of_fmap. apply call_trace_block. cbn.
    apply elem_of_in_order in He. by eapply Hty. }
  destruct (append_all_content l (state_call_traces (txn b))) as (tr & Htr & Hc).
  - apply sorted_fmap; [|apply in_order_sorted]. intros [a fl] [a' fl'] Hin Hin' Hlt.
    unfold trace_entry, call_trace_key, entry_number. unfold key_lt in *. cbn in *. destruct (flag_from fl), (flag_to fl), (flag_from fl'), (flag_to fl'); lia.
  - intros k e [k' e'] Hk Hin. apply (below_div (2 ^ 168)); [lia|]. specialize (Hold k e Hk). specialize (Hblock k' e' Hin).
    unfold trace_block in *. cbn. lia.
  - exists tr. unfold write_traces. fold l. rewrite Htr. split; [done|]. rewrite Hc. split.
    + intros k e [Hk%elem_of_list_to_map_2|[_ Hk]]%lookup_union_Some_raw; [by rewrite (Hblock k e Hk)|].
      specialize (Hold k e Hk). lia.
    + intros k Hk. apply lookup_union_r. apply not_elem_of_list_to_map_1. intros ([k' e] & -> & Hin)%list_elem_of_fmap.
      by destruct Hk; apply (Hblock k' e).
Qed.

End traces.

(** ** The loop over the blocks *)

Section stage.
Context {T : Type -> Type} {KV : Kv T} {C : Type} {LC : LruCache C} {KK : Keccak}.
Context {IO : I256Ops} {AC : AddressCodec} {HS : Hashes} {SP : Secp256k1} {BU : BigUint}.
Context {AB : AltBn128} {RS : RlpStream} {CD : Codec}.
#[local] Existing Instances buffer.buffer_state call_tracer.call_tracer_start call_tracer.call_tracer.

Section batch.
Context (s : Execution) (clock : nat -> Z) (empty_cache : C) (chain : ChainTables T) (config : ChainSpec).
Context (t0 : StateTables T) (to max_block first_gas : Z).

Implicit Types b : BatchState T C.

Definition executes (n : Z) header block b : result (list Receipt * Buffer T * (C * option CallTracer)) :=
  processor.execute_and_write_block (CS := buffer_chain chain) header block (collect_block_spec config n)
    (processor.new (batch_buffer b) (Some CallTracer_default) (analysis_cache b)).

Definition block_states (n : Z) header block b :=
  processor.execute_block_no_post_validation (CS := buffer_chain chain) header block (collect_block_spec config n)
    (processor.new (batch_buffer b) (Some CallTracer_default) (analysis_cache b)).

(** *** What the blocks do *)

(** The accounts, slots and code after the blocks up to [n], from those of the tables [t0]:
    each block is accepted by the processor over a state that answers as the one before it,
    and what is left is what the block state answers at its end. *)
Inductive executed_to : Z -> (Address -> option Account) -> (Address -> Z -> Z) -> (Z -> Bytes) -> Prop :=
  | executed_nothing accounts slots codes : (forall a, accounts a = account_now t0 a) ->
      (forall a l, word l -> slots a l = storage_now t0 a l) ->
      (forall h, codes h = default [] (content (code_table t0) !! h)) -> executed_to to accounts slots codes
  | executed_next n accounts slots codes b header block receipts d out p accounts' slots' codes' :
      executed_to (n - 1) accounts slots codes ->
      (forall a, buf_read_account (batch_buffer b) a = accounts a) ->
      (forall a l, word l -> buf_read_storage (batch_buffer b) a l = slots a l) ->
      (forall h, buf_read_code (batch_buffer b) h = codes h) ->
      read_block chain n = Done (header, block) ->
      executes n header block b = Consensus.ROk (receipts, d, out) ->
      block_states n header block b = Consensus.ROk (receipts, p) ->
      consistent header (collect_block_spec config n) receipts ->
      (forall a x s1, get_current a (processor.state p) = IntraBlockState.Done x s1 -> accounts' a = x) ->
      (forall a l x s1, word l -> get_current_storage a l (processor.state p) = IntraBlockState.Done x s1 -> slots' a l = x) ->
      (forall h, codes' h = default (codes h) (new_code (processor.state p) !! h)) ->
      executed_to n accounts' slots' codes'.

Lemma executed_ext n accounts slots codes accounts' slots' codes' : executed_to n accounts slots codes ->
  (forall a, accounts' a = accounts a) -> (forall a l, word l -> slots' a l = slots a l) -> (forall h, codes' h = codes h) ->
  executed_to n accounts' slots' codes'.
Proof.
  intros He Ha Hs Hc. destruct He as [|n ? ? ? b header block receipts d out p].
  - apply executed_nothing; intros; rewrite ?Ha, ?Hs, ?Hc by done; auto.
  - eapply executed_next; [done..| | |]; intros; rewrite ?Ha, ?Hs, ?Hc by done; eauto.
Qed.

(** *** Hypotheses on the blocks *)

Section hypotheses.
Context (strict : bool).

(** The block [n] is there and accepted, its counters fit, and its block state is benign. *)
Definition good (n : Z) b : Prop := exists header block receipts d cache tracer,
  read_block chain n = Done (header, block) /\ partial.number header = n /\
  executes n header block b = Consensus.ROk (receipts, d, (cache, tracer)) /\
  (forall p, block_states n header block b = Consensus.ROk (receipts, p) -> benign strict (processor.state p)) /\
  Z.of_nat (length receipts) < 2 ^ 64 /\ traced_addresses (default CallTracer_default tracer) /\
  is_u64 (gas_since_start b + partial.gas_used header) /\ is_u64 (gas_since_last_message b + partial.gas_used header) /\
  is_u64 (gas_since_history_commit b + partial.gas_used header).

(** The states at the heads of the rounds. *)
Inductive reached : nat -> Z -> BatchState T C -> Prop :=
  | reached_first : reached 0 (to + 1) (first_batch s clock t0 empty_cache)
  | reached_next i n b b' : reached i n b ->
      round s clock chain config max_block first_gas i n b = Done (b', false) -> reached (S i) (n + 1) b'.

(** The index of gas is there for the messages. *)
Record gas_known : Prop := {
  gk_block n : to < n <= max_block -> exists g, content (total_gas (chain_indices chain)) !! n = Some g /\ is_u64 (g - first_gas);
  gk_last k g : content (total_gas (chain_indices chain)) !! k = Some g -> first_gas <= g < 2 ^ 64;
}.

Lemma reached_number i n b : reached i n b -> n = to + 1 + Z.of_nat i.
Proof. induction 1; lia. Qed.

Context (Hpast : past to t0) (Hto : 0 <= to) (Hprune : execution_prune_from s <= to + 1).
Context (Hgood : forall i n b, reached i n b -> n <= max_block -> good n b) (Hgas : gas_known) (Hfirst : 0 <= first_gas).

(** *** The invariant *)

Record loop_inv (n : Z) (x : Buffer T) (f : Flushed) (m : Z) (gs : Buffer T) : Prop := {
  li_flushed : flushed t0 f m x;
  li_number : m <= buf_block_number x < n;
  li_prune : prune_from x = execution_prune_from s;
  li_used : rtc (used strict to) (new t0 (execution_prune_from s) None, new t0 (execution_prune_from s) None)
    (ghost t0 f x, gs);
  li_orphan : orphan_free x;
  li_traces k e : content (state_call_traces (txn x)) !! k = Some e -> trace_block k < n;
  li_old k : trace_block k <= to -> content (state_call_traces (txn x)) !! k = content (state_call_traces t0) !! k;
  li_executed : executed_to (n - 1) (buf_read_account x) (buf_read_storage x) (buf_read_code x);
}.

(** What an accepted block does to the buffer. *)
Lemma block_executes n b header block receipts d cache tracer : orphan_free (batch_buffer b) ->
  to < n -> prune_from (batch_buffer b) <= n -> partial.number header = n ->
  executes n header block b = Consensus.ROk (receipts, d, (cache, tracer)) ->
  (forall p, block_states n header block b = Consensus.ROk (receipts, p) -> benign strict (processor.state p)) ->
  let s0 := buf_begin_block n (batch_buffer b) in
  rtc (used strict to) (s0, s0) (d, s0) /\ buf_block_number d = n /\ prune_from d = prune_from s0 /\ orphan_free d /\
  exists p, block_states n header block b = Consensus.ROk (receipts, p) /\ consistent header (collect_block_spec config n) receipts /\
    (forall a x s1, get_current a (processor.state p) = IntraBlockState.Done x s1 -> buf_read_account d a = x) /\
    (forall a l x s1, word l -> get_current_storage a l (processor.state p) = IntraBlockState.Done x s1 -> buf_read_storage d a l = x) /\
    (forall h, buf_read_code d h = default (buf_read_code (batch_buffer b) h) (new_code (processor.state p) !! h)).
Proof.
  intros Ho Hn Hp Hnum He Hbe s0. unfold executes in He. apply executed_block in He as (Hc & p & Hstate & Hrun & Hfin & Hw).
  pose proof (faithful_run _ _ _ Hrun (faithful_new (batch_buffer b))) as Hf. pose proof (fa_db _ _ Hf) as Hdb.
  pose proof (Hbe p Hstate) as Hbp. rewrite Hnum in Hw. subst s0. rewrite <- Hdb in Ho, Hp, Hf |- *.
  destruct (block_written strict to (processor.state p) n) as (d' & Hw' & [Hu Hbn Hpr Ha Hs Hco]);
    [by split|by apply Hf|done|done|done|].
  assert (d' = d) as -> by (cbn in *; congruence).
  assert (forall a l, word l -> match account_of (processor.state p) a with
    | Some _ => original_is (processor.state p) a l (buf_read_storage d a l) | None => buf_read_storage d a l = 0 end) as Hslot.
  { intros a l Hl. rewrite (Hs a l Hl). apply (end_value_original (db (processor.state p))); [done|].
    by apply stored_slot. }
  split; [exact Hu|]. split; [exact Hbn|]. split; [exact Hpr|]. split.
  - intros a l Hl Hnone. specialize (Hslot a l Hl). rewrite Ha in Hnone. by rewrite Hnone in Hslot.
  - exists p. split; [done|]. split; [done|]. split; [|split].
    + intros a x s1 Hx. apply get_current_account in Hx as ->. apply Ha.
    + intros a l x s1 Hl Hx. destruct (get_storage_done a l false _ x s1 (fa_wf _ _ Hf) Hx) as (_ & _ & _ & Hr).
      specialize (Hslot a l Hl). destruct (account_of (processor.state p) a); [|congruence].
      unfold Journal.storage_read in Hr. cbn [negb] in Hr. rewrite Hfin in Hr. exact (original_fun _ _ _ _ _ Hslot Hr).
    + exact Hco.
Qed.

Lemma ghost_ranged n x f m gs : loop_inv n x f m gs -> ranged to (ghost t0 f x).
Proof.
  intros []. apply (steps_ranged strict to _ _ li_used0). by destruct (use_new to t0 (execution_prune_from s)).
Qed.

(** The ghost is written, and with it the buffer. *)
Lemma inv_written n x f m gs : loop_inv n x f m gs -> exists t, write_to_db (ghost t0 f x) = Some t /\ written t0 (ghost t0 f x) t.
Proof.
  intros Hi. destruct (ghost_ranged _ _ _ _ _ Hi) as [Hr He]. apply (write_spec to); [done| |done|done|done].
  by destruct Hi as [[[]]].
Qed.

Lemma inv_flush n x f m gs : loop_inv n x f m gs ->
  exists x' f', flush_history x = Some x' /\ loop_inv n x' f' (buf_block_number x) gs.
Proof.
  intros Hi. destruct (inv_written _ _ _ _ _ Hi) as (t & Ht & _). destruct (ghost_ranged _ _ _ _ _ Hi) as [_ He].
  pose proof Hi as [Hf [Hm Hlt] Hp Hu Ho Htr Hold Hex].
  assert (exists x', flush_history x = Some x') as [x' Hx'].
  { unfold flush_history. rewrite (flushed_history t0 f m x Hf). unfold write_to_db in Ht.
    apply bind_Some in Ht as (t' & -> & _). cbn. by eexists. }
  destruct (flush_ghost t0 f m x x' Hf Hx') as (f' & Hg & Hf' & Etr); [|done|].
  { intros n' Hn'. assert (forall {V} (c1 c2 : gmap Z V), (forall k v, (c1 ∪ c2) !! k = Some v -> k <= buf_block_number x) -> c2 !! n' = None) as Hnone.
    { intros V c1 c2 Hk. destruct (c2 !! n') as [v|] eqn:E; [|done]. destruct (c1 !! n') as [w|] eqn:E1.
      - specialize (Hk n' w ltac:(by apply lookup_union_Some_l)). lia.
      - specialize (Hk n' v ltac:(by rewrite lookup_union_r)). lia. }
    split_and!; eapply Hnone; intros k v Hk;
      [apply (re_account to _ He k v) in Hk|apply (re_storage to _ He k v) in Hk|apply (re_logs to _ He k v) in Hk]; cbn in Hk; lia. }
  exists x', f'. split; [done|].
  assert (buf_block_number x' = buf_block_number x /\ prune_from x' = prune_from x) as [En Ep].
  { unfold flush_history in Hx'. apply bind_Some in Hx' as (t' & _ & [= <-]). done. }
  pose proof (fd_same _ _ _ _ Hf) as Hs. pose proof (fd_same _ _ _ _ Hf') as Hs'.
  assert (forall a, buf_read_account x' a = buf_read_account x a) as Ra.
  { intros a. by rewrite <- (ghost_read_account t0 f' x' a Hs'), Hg, ghost_read_account. }
  assert (forall a l, buf_read_storage x' a l = buf_read_storage x a l) as Rs.
  { intros a l. by rewrite <- (ghost_read_storage t0 f' x' a l Hs'), Hg, ghost_read_storage. }
  assert (forall h, buf_read_code x' h = buf_read_code x h) as Rc.
  { intros h. by rewrite <- (ghost_read_code t0 f' x' h Hs'), Hg, ghost_read_code. }
  split; [done|lia|congruence|by rewrite Hg| |by rewrite Etr|by rewrite Etr|].
  - intros a l Hl Hn. rewrite Rs. rewrite Ra in Hn. by apply Ho.
  - by eapply executed_ext.
Qed.

(** The buffer after a block, with its receipts and traces. *)
Lemma inv_block n b f m gs header block receipts d cache tracer : loop_inv n (batch_buffer b) f m gs -> to < n ->
  read_block chain n = Done (header, block) -> partial.number header = n ->
  executes n header block b = Consensus.ROk (receipts, d, (cache, tracer)) ->
  (forall p, block_states n header block b = Consensus.ROk (receipts, p) -> benign strict (processor.state p)) ->
  Z.of_nat (length receipts) < 2 ^ 64 -> traced_addresses (default CallTracer_default tracer) ->
  exists x gs', write_traces n (default CallTracer_default tracer) (insert_receipts n receipts d) = Some x /\
    loop_inv (n + 1) x f m gs'.
Proof.
  intros [Hf [Hm Hlt] Hp Hu Ho Htr Hold Hex] Hn Hblock Hnum He Hbe Hlen Hty.
  destruct (block_executes n b header block receipts d cache tracer Ho Hn ltac:(lia) Hnum He Hbe)
    as (Hsteps & Hbn & Hpr & Hod & p & Hstate & Hc & Ra & Rs & Rc).
  set (s0 := buf_begin_block n (batch_buffer b)) in *. set (d1 := insert_receipts n receipts d).
  assert (rtc (used strict to) (s0, s0) (d1, s0)) as Hsteps1.
  { eapply rtc_r; [exact Hsteps|]. subst d1. rewrite <- Hbn. apply used_receipts; [|done]. unfold live. rewrite Hbn, Hpr. cbn. lia. }
  assert (flushed t0 f m s0) as Hf0 by (destruct Hf as [[]]; by split).
  pose proof (flushed_steps strict to t0 f m _ _ Hsteps1 ltac:(cbn; lia) Hf0) as Hf1. cbn [fst] in Hf1.
  destruct (ghost_steps strict to t0 f s0 s0 d1 s0) as [Hg Hsd]; [apply Hf0|apply Hf0| |done|].
  { intros n' Hn'. apply (fd_old _ _ _ _ Hf). cbn in Hn'. lia. }
  assert (txn d1 = txn (batch_buffer b)) as Etx by (by destruct Hsd).
  destruct (write_traces_spec n (default CallTracer_default tracer) d1) as (tr & Hw & Hnew & Hkeep); [done|by rewrite Etx|].
  exists (with_traces d1 tr), (ghost t0 f s0). split; [done|].
  split; [by apply flushed_traces| | | | | | |].
  - cbn. lia.
  - cbn. rewrite Hpr. done.
  - etrans; [exact Hu|]. eapply rtc_l; [|exact Hg]. apply (used_begin strict to (ghost t0 f (batch_buffer b))); cbn; lia.
  - exact Hod.
  - intros k e Hk. specialize (Hnew k e Hk). lia.
  - intros k Hk. rewrite <- Hold by done. cbn. rewrite <- Etx. apply Hkeep. lia.
  - replace (n + 1 - 1) with n by lia. by eapply (executed_next n _ _ _ b header block receipts d _ p).
Qed.

Lemma execute_one_inv n b f m gs : loop_inv n (batch_buffer b) f m gs -> to < n -> good n b ->
  exists b' f' m' gs', execute_one s chain config n b = Done b' /\ loop_inv (n + 1) (batch_buffer b') f' m' gs'.
Proof.
  intros Hi Hn (header & block & receipts & d & cache & tracer & Hblock & Hnum & He & Hbe & Hlen & Hty & G1 & G2 & G3).
  destruct (inv_block n b f m gs header block receipts d cache tracer) as (x & gs' & Hx & Hi'); [done..|].
  unfold execute_one. rewrite Hblock. cbn [mbind outcome_bind]. unfold executes in He. rewrite He.
  cbn [of_result mbind outcome_bind]. rewrite Hnum, Hx. cbn [o_ok_or mbind outcome_bind].
  rewrite !u64_checked_ok by (unfold uint in *; lia). cbn [o_unwrap mbind outcome_bind].
  destruct (history_batch_size s <=? _).
  - destruct (inv_flush _ _ _ _ _ Hi') as (x' & f' & Hx' & Hi''). rewrite Hx'. cbn [o_ok_or mbind outcome_bind].
    by eexists _, f', _, gs'.
  - cbn [mbind outcome_bind]. by eexists _, f, m, gs'.
Qed.

Lemma report_done n c e now b : to < n <= max_block ->
  exists b', maybe_report (chain_indices chain) n c e now first_gas b = Done b' /\ batch_buffer b' = batch_buffer b.
Proof.
  intros Hn. unfold maybe_report. destruct (_ || _); [|by eexists]. unfold report.
  destruct (gk_block Hgas n Hn) as (g & Hg & Hr). rewrite kv_get_content, Hg. cbn [o_unwrap mbind outcome_bind].
  pose proof (kv_last_content (total_gas (chain_indices chain))) as Hl.
  destruct (kv_last _) as [[k l]|]; [|by destruct (Hl n g Hg)]. destruct Hl as [Hk _]. cbn [o_unwrap mbind outcome_bind].
  pose proof (gk_last Hgas k l Hk). destruct c; [by eexists|].
  rewrite !u64_checked_ok by (unfold uint in *; lia). cbn [o_unwrap mbind outcome_bind]. by eexists.
Qed.

Lemma round_inv i n b f m gs : loop_inv n (batch_buffer b) f m gs -> to < n <= max_block -> good n b ->
  exists b' e f' m' gs', round s clock chain config max_block first_gas i n b = Done (b', e) /\
    loop_inv (n + 1) (batch_buffer b') f' m' gs' /\ (n = max_block -> e = true).
Proof.
  intros Hi Hn Hg. destruct (execute_one_inv n b f m gs Hi ltac:(lia) Hg) as (b1 & f' & m' & gs' & H1 & Hi1).
  unfold round. rewrite H1. cbn [mbind outcome_bind].
  destruct (report_done n (n =? max_block) (is_end_of_batch s n max_block (clock (2 + i)%nat) (clock 0%nat) b1)
    (clock (2 + i)%nat) b1 Hn) as (b2 & H2 & Eb). rewrite H2. cbn [mbind outcome_bind]. rewrite <- Eb in Hi1.
  eexists b2, _, f', m', gs'. split; [done|]. split; [done|]. intros ->. unfold is_end_of_batch. by rewrite Z.eqb_refl.
Qed.

(** The loop ends, with the invariant at the last block. *)
Lemma loop_done fuel i n b f m gs : max_block < 2 ^ 64 -> reached i n b -> loop_inv n (batch_buffer b) f m gs -> to < n <= max_block ->
  (Z.to_nat (max_block - n + 1) <= fuel)%nat ->
  exists k x f' m' gs', blocks_loop s clock chain config max_block first_gas fuel i n b = Done (k, x) /\ n <= k <= max_block /\
    loop_inv (k + 1) x f' m' gs'.
Proof.
  intros Hmax. revert i n b f m gs. induction fuel as [|fuel IH]; intros i n b f m gs Hr Hi Hn Hfuel; [lia|]. cbn [blocks_loop].
  destruct (round_inv i n b f m gs Hi Hn (Hgood i n b Hr ltac:(lia))) as (b' & e & f' & m' & gs' & H1 & Hi1 & Hend).
  rewrite H1. cbn [mbind outcome_bind]. destruct e.
  - exists n, (batch_buffer b'), f', m', gs'. split; [done|]. split; [lia|done].
  - assert (n < max_block) by (destruct (decide (n = max_block)) as [E|]; [by specialize (Hend E)|lia]).
    rewrite u64_checked_ok by lia. cbn [o_unwrap mbind outcome_bind].
    destruct (IH (S i) (n + 1) b' f' m' gs') as (k & x & f2 & m2 & gs2 & H2 & Hk & Hi2);
      [by eapply reached_next|done|lia|lia|].
    exists k, x, f2, m2, gs2. split; [done|]. split; [lia|done].
Qed.

Lemma first_inv : orphan_free (new t0 (execution_prune_from s) None) -> exists f gs,
  loop_inv (to + 1) (batch_buffer (first_batch s clock t0 empty_cache)) f 0 gs.
Proof.
  intros Ho. exists {| fl_accounts := ∅; fl_storage := ∅; fl_logs := ∅ |}, (new t0 (execution_prune_from s) None).
  cbn [first_batch batch_buffer]. split; [apply flushed_new| |done|by rewrite ghost_new|done| |done|].
  - cbn. lia.
  - cbn. intros k e Hk. pose proof (pa_trace to t0 Hpast k e Hk). lia.
  - replace (to + 1 - 1) with to by lia. apply executed_nothing; [done|done|].
    intros h. unfold buf_read_code. cbn. by rewrite kv_get_content.
Qed.

(** The batch: it ends, its blocks were executed, and a buffer that was used by steps was
    written. *)
Lemma batch_done t fs : exec_chain t = chain -> exec_state t = t0 -> to < max_block < 2 ^ 64 -> is_Some (ethash.engine_factory config) ->
  content (total_gas (chain_indices chain)) !! default 0 fs = Some first_gas ->
  orphan_free (new t0 (execution_prune_from s) None) ->
  exists k st x f gs, execute_batch_of_blocks s clock empty_cache t config max_block (to + 1) fs = Done (k, st) /\
    to < k <= max_block /\
    executed_to k (fun a => account_now st a) (fun a l => storage_now st a l) (fun h => default [] (content (code_table st) !! h)) /\
    rtc (used strict to) (new t0 (execution_prune_from s) None, new t0 (execution_prune_from s) None) (ghost t0 f x, gs) /\
    (exists t', write_to_db (ghost t0 f x) = Some t' /\ st = retrace (state_call_traces (txn x)) t') /\
    (forall k, trace_block k <= to -> content (state_call_traces (txn x)) !! k = content (state_call_traces t0) !! k).
Proof.
  intros Ec Es Hmax [engine Heng] Hfg Ho. destruct (first_inv Ho) as (f & gs & Hi).
  destruct (loop_done (Z.to_nat (max_block - (to + 1) + 1)) 0 (to + 1) (first_batch s clock t0 empty_cache) f 0 gs)
    as (k & x & f' & m' & gs' & Hl & Hk & Hx); [lia|constructor|done|lia|done|].
  destruct (inv_written _ _ _ _ _ Hx) as (t' & Ht' & Hw). pose proof Hx as [Hf _ _ Hu _ _ Hold Hex].
  exists k, (retrace (state_call_traces (txn x)) t'), x, f', gs'.
  unfold execute_batch_of_blocks. rewrite Ec, Es, Heng. cbn [o_ok_or mbind outcome_bind]. rewrite kv_get_content, Hfg.
  cbn [o_unwrap mbind outcome_bind]. rewrite Hl. cbn [mbind outcome_bind]. rewrite (flushed_written t0 f' m' x Hf), Ht'.
  cbn [fmap option_fmap option_map o_ok_or mbind outcome_bind]. split; [done|]. split; [lia|]. split_and!; [|done|eauto|done].
  replace (k + 1 - 1) with k in Hex by lia. pose proof (fd_same _ _ _ _ Hf) as Hs. destruct Hw as [Wa Ws Wc _ _ _ _].
  eapply executed_ext; [exact Hex|..].
  - intros a. rewrite <- (ghost_read_account t0 f' x a Hs), <- Wa. done.
  - intros a l Hl'. rewrite <- (ghost_read_storage t0 f' x a l Hs), <- Ws by done. done.
  - intros h. by rewrite <- (ghost_read_code t0 f' x h Hs), <- Wc.
Qed.

End hypotheses.

End batch.

(** ** The stage *)

Context {W : Type}.

(** The tables and the blocks that a run of the stage needs: the chain specification, the
    index of gas, a history up to the progress, and blocks that are accepted. *)
Record batch_ready (strict : bool) (s : Execution) (clock : nat -> Z) (empty_cache : C) (input : StageInput) (t : ExecTables T)
    (genesis : Z) (config : ChainSpec) (max_block first_gas : Z) : Prop := {
  br_genesis : content (canonical_header (chain_indices (exec_chain t))) !! 0 = Some genesis;
  br_config : content (config_table t) !! genesis = Some config;
  br_engine : is_Some (ethash.engine_factory config);
  br_previous : snd <$> previous_stage input = Some max_block;
  br_blocks : 0 <= default 0 (stage_progress input) < max_block /\ max_block < 2 ^ 64;
  br_past : past (default 0 (stage_progress input)) (exec_state t);
  br_orphan : orphan_free (new (exec_state t) (execution_prune_from s) None);
  br_prune : execution_prune_from s <= default 0 (stage_progress input) + 1;
  br_first : content (total_gas (chain_indices (exec_chain t))) !! default 0 (snd (first_started_at input)) = Some first_gas;
  br_nonneg : 0 <= first_gas;
  br_gas : gas_known (exec_chain t) (default 0 (stage_progress input)) max_block first_gas;
  br_good i n b :
    reached s clock empty_cache (exec_chain t) config (exec_state t) (default 0 (stage_progress input)) max_block first_gas i n b ->
    n <= max_block -> good (exec_chain t) config strict n b;
}.

(** The run of a stage that is ready. *)
Lemma stage_run strict s clock empty_cache input (db : Db (ExecTables T)) (w : W) genesis config max_block first_gas :
  let t := tables db in let progress := default 0 (stage_progress input) in
  batch_ready strict s clock empty_cache input t genesis config max_block first_gas ->
  exists k st x f gs,
    stage_execute (Execution_stage s clock empty_cache) input db w =
      Done (Progress k ((k =? max_block) || exit_after_batch s), Build_Db (sync_stage db) (put_state t st), w) /\
    progress < k <= max_block /\
    executed_to (exec_chain t) config (exec_state t) progress k (fun a => account_now st a) (fun a l => storage_now st a l)
      (fun h => default [] (content (code_table st) !! h)) /\
    rtc (used strict progress) (new (exec_state t) (execution_prune_from s) None, new (exec_state t) (execution_prune_from s) None)
      (ghost (exec_state t) f x, gs) /\
    (exists t', write_to_db (ghost (exec_state t) f x) = Some t' /\ st = retrace (state_call_traces (txn x)) t') /\
    (forall k, trace_block k <= progress ->
      content (state_call_traces (txn x)) !! k = content (state_call_traces (exec_state t)) !! k).
Proof.
  intros t progress [Hg Hc He Hp [Hb Hmax] Hpast Ho Hpr Hf Hnn Hgas Hgood].
  destruct (batch_done s clock empty_cache (exec_chain t) config (exec_state t) progress max_block first_gas strict Hpast ltac:(lia) Hpr
    Hgood Hgas Hnn t (snd (first_started_at input)) eq_refl eq_refl ltac:(lia) He Hf Ho) as (k & st & x & f & gs & Hrun & Hrest).
  exists k, st, x, f, gs. split; [|exact Hrest]. unfold Execution_stage, stage_execute, execution_execute. fold t. fold progress.
  rewrite !kv_get_content, Hg. cbn [o_ok_or mbind outcome_bind]. rewrite kv_get_content, Hc. cbn [o_ok_or mbind outcome_bind].
  rewrite u64_checked_ok by lia. cbn [o_unwrap mbind outcome_bind]. rewrite Hp. cbn [o_ok_or mbind outcome_bind].
  rewrite (proj2 (Z.leb_le _ _)) by lia. rewrite Hrun. done.
Qed.

(** C15: a run of the execution stage ends, and refines the execution of the blocks one after
    the other: it reports the last block [k] that it executed, which comes after its
    progress and not after the previous stage, the chain data is unchanged, and the
    accounts, slots and code in the tables are those that the blocks up to [k] leave, each
    executed by the processor over what the one before it left.  The batch limits decide
    only where it ends, and writing the history out in between changes nothing. *)
Theorem execution_stage_refines s clock empty_cache input (db : Db (ExecTables T)) (w : W) genesis config max_block first_gas :
  let t := tables db in let progress := default 0 (stage_progress input) in
  batch_ready false s clock empty_cache input t genesis config max_block first_gas ->
  exists k st, progress < k <= max_block /\
    stage_execute (Execution_stage s clock empty_cache) input db w =
      Done (Progress k ((k =? max_block) || exit_after_batch s), Build_Db (sync_stage db) (put_state t st), w) /\
    executed_to (exec_chain t) config (exec_state t) progress k (fun a => account_now st a) (fun a l => storage_now st a l)
      (fun h => default [] (content (code_table st) !! h)).
Proof.
  intros t progress Hready.
  destruct (stage_run false s clock empty_cache input db w genesis config max_block first_gas Hready)
    as (k & st & x & f & gs & Hrun & Hk & Hex & _). by exists k, st.
Qed.

(** Other traces of calls are unwound to those up to the block unwound to. *)
Lemma unwind_retraced to (t0 t : StateTables T) tr : past to t0 -> restored t0 (execution_unwind to t) ->
  (forall k, trace_block k <= to -> content tr !! k = content (state_call_traces t0) !! k) ->
  restored t0 (execution_unwind to (retrace tr t)).
Proof.
  intros Hp [Ra Rs Rac Rsc Rl _] Htr. unfold execution_unwind in *. cbn [retrace account_change_set account_table storage_change_set
    storage_table log_table state_call_traces code_table account_history storage_history].
  destruct (unwind_accounts _ _ _ _) as [ac a]. destruct (unwind_storage _ _ _ _) as [sc st]. split; [done..|].
  cbn [state_call_traces]. rewrite unwind_traces_content. apply map_eq. intros k. apply option_eq. intros e.
  rewrite map_lookup_filter_Some. cbn [fst]. split.
  - intros [Hk Hle]. by rewrite <- Htr.
  - intros Hk. pose proof (pa_trace to t0 Hp k e Hk) as Hle. by rewrite Htr.
Qed.

(** C16: the unwind of the execution stage takes back a run of it: all accounts and slots, the
    change sets, the logs and the traces of calls are what they were, for a batch of any
    number of blocks and however often the history was written out.  No block may update an
    account that exists neither before nor after it, or write a slot that held a value in a
    contract that it destroys or creates. *)
Theorem execution_stage_unwinds s clock empty_cache input from (db : Db (ExecTables T)) (w : W) genesis config max_block first_gas :
  let t := tables db in let progress := default 0 (stage_progress input) in
  batch_ready true s clock empty_cache input t genesis config max_block first_gas ->
  exists k done db' st,
    stage_execute (Execution_stage s clock empty_cache) input db w = Done (Progress k done, db', w) /\
    stage_unwind (Execution_stage s clock empty_cache) {| unwind_from := from; unwind_to := progress |} db' w =
      Done (progress, Build_Db (sync_stage db) (put_state t st), w) /\
    restored (exec_state t) st.
Proof.
  intros t progress Hready.
  destruct (stage_run true s clock empty_cache input db w genesis config max_block first_gas Hready)
    as (k & st & x & f & gs & Hrun & _ & _ & Hu & (t' & Ht' & ->) & Htr).
  eexists k, _, _, _. split; [exact Hrun|]. split; [reflexivity|]. cbn [put_state exec_state tables unwind_to].
  pose proof (br_past _ _ _ _ _ _ _ _ _ _ Hready) as Hp. apply unwind_retraced; [done| |done].
  pose proof (use_reach progress (exec_state t) _ _ _ (used_steps true progress _ _ eq_refl Hu)) as Hi.
  destruct (write_spec progress (exec_state t) (ghost (exec_state t) f x)) as (t2 & Hw & Hwr); [by apply Hi..|done|].
  fold t in Ht'. rewrite Ht' in Hw. injection Hw as <-. by eapply unwind_spec.
Qed.

End stage.

(** ** A sample *)

Module sample_execution.
#[local] Existing Instances samples.keccak samples.lru samples.address_codec
  sample_hashes sample_secp sample_bn big_uint samples.rlp_stream samples.codec map_table.map_kv.
#[local] Existing Instances buffer.buffer_state call_tracer.call_tracer_start call_tracer.call_tracer.

Definition chain_header : BlockHeader := partial.to_header samples.block_header 0 0.

Definition config : ChainSpec := {|
  consensus := {| seal_verification := SealEthash 13 [] None None None true; consensus_eip1559_block := None |};
  upgrades := {| homestead := Some 0; tangerine := Some 0; spurious := Some 0; byzantium := Some 0;
                 constantinople := Some 0; petersburg := Some 0; istanbul := Some 0;
                 berlin := Some 0; london := Some 0 |};
  params := {| params_chain_id := 1; params_network_id := 1; min_gas_limit := 5000 |};
  contracts := []; balances := [];
|}.

(** A chain of the genesis block and a block with one transaction, and the state before it. *)
Definition chain : ChainTables map_table.table := {|
  chain_indices := {| canonical_header := {[ 0 := 3; 1 := 4 ]}; header_number := ∅;
    header_table := {[ header_key 1 4 := chain_header ]};
    block_body := {[ header_key 1 4 := {| base_tx_id := 0; tx_amount := 1; body_uncles := [] |} ]};
    total_gas := {[ 0 := 0; 1 := 43106 ]}; total_tx := ∅ |};
  block_transaction := {[ 0 := {| message := Legacy None 0 1 100000 (ActionCall 18) 0 [];
                                 signature := {| sig_odd_y_parity := false; sig_r := 1; sig_s := 1 |} |} ]};
  tx_senders := {[ header_key 1 4 := [15] ]}; tx_lookups := ∅; headers_total_difficulty := ∅ |}.

Definition state : StateTables map_table.table := {|
  account_table := {[ 15 := {| nonce := 0; balance := 1000000; code_hash := EMPTY_HASH |};
                      18 := {| nonce := 1; balance := 0; code_hash := 10 |} ]};
  storage_table := ∅; code_table := {[ 10 := samples.store_one ]}; account_change_set := ∅;
  storage_change_set := ∅; log_table := ∅; account_history := ∅; storage_history := ∅; state_call_traces := ∅ |}.

Definition exec_tables : ExecTables map_table.table :=
  {| exec_chain := chain; exec_state := state; config_table := {[ 3 := config ]} |}.

(** The history is written out after every block. *)
Definition parameters : Execution := {|
  batch_size := 1000000000; history_batch_size := 1; exit_after_batch := false; batch_until := None;
  commit_every := None; execution_prune_from := 0 |}.

Definition stage_input : StageInput :=
  {| restarted := false; first_started_at := (0, None); previous_stage := Some (SENDERS, 1); stage_progress := None |}.

Definition clock (i : nat) : Z := Z.of_nat i.

Definition cache : gmap Z AnalyzedCode := ∅.
Definition first : BatchState map_table.table (gmap Z AnalyzedCode) := first_batch parameters clock state cache.

Definition executed := executes chain config 1 samples.block_header samples.block first.
Definition states := block_states chain config 1 samples.block_header samples.block first.

(** What the block leaves, and its block state. *)
Definition outcome_of : list Receipt * Buffer map_table.table * (gmap Z AnalyzedCode * option CallTracer) :=
  match executed with Consensus.ROk r => r | _ => ([], new state 0 None, (cache, None)) end.

Lemma executed_ok : executes chain config 1 samples.block_header samples.block first =
  Consensus.ROk (outcome_of.1.1, outcome_of.1.2, (outcome_of.2.1, outcome_of.2.2)).
Proof. vm_compute. reflexivity. Qed.

#[local] Opaque executes block_states.

Lemma traced_ok : traced_addresses (default CallTracer_default outcome_of.2.2).
Proof.
  assert (map_Forall (fun a (_ : CallTracerFlags) => is_address a) (traced (default CallTracer_default outcome_of.2.2))) as H
    by (apply (bool_decide_unpack _); by vm_compute).
  intros a fl Ha. exact (H a fl Ha).
Qed.

Definition benign_state (st : IntraBlockState (Buffer map_table.table)) : Prop :=
  incarnations st = ∅ /\
  map_Forall (fun a o => is_address a /\ (initial o = None -> current o <> None)) (objects st) /\
  map_Forall (fun a st => is_address a /\ map_Forall (fun k (_ : CommittedValue) => word k) (st_committed st))
    (IntraBlockState.storage st).

Definition states_check : bool :=
  match states with Consensus.ROk (_, p) => bool_decide (benign_state (processor.state p)) | _ => false end.

Lemma states_checked : states_check = true.
Proof. by vm_compute. Qed.

Lemma states_benign strict p receipts : states = Consensus.ROk (receipts, p) -> benign strict (processor.state p).
Proof.
  intros E. pose proof states_checked as H. unfold states_check in H. rewrite E in H. apply bool_decide_eq_true in H as (Hi & Ho & Hs).
  split.
  - intros a o Ha. destruct (Ho a o Ha). split; [done|]. by intros _.
  - intros a k c. unfold committed_at, storage_at. destruct (IntraBlockState.storage _ !! a) as [st|] eqn:Est; [|done].
    destruct (Hs a st Est) as [Ha Hk]. intros Hc. split; [done|]. by apply (Hk k c).
  - intros a i. by rewrite Hi.
  - intros a k c _ [i H]. by rewrite Hi in H.
Qed.

Lemma first_good strict : good chain config strict 1 first.
Proof.
  exists samples.block_header, samples.block, outcome_of.1.1, outcome_of.1.2, outcome_of.2.1, outcome_of.2.2.
  split; [by vm_compute|]. split; [done|]. split; [exact executed_ok|].
  split; [intros p; apply states_benign|]. split; [by vm_compute|]. split; [exact traced_ok|]. by vm_compute.
Qed.

Lemma ready strict : batch_ready strict parameters clock cache stage_input exec_tables 3 config 1 0.
Proof.
  split; [by vm_compute|by vm_compute|by eexists|done|by vm_compute| | |by vm_compute|by vm_compute|done| |].
  - by split; intros k y Hk.
  - done.
  - split.
    + intros n Hn. cbn in Hn. assert (n = 1) as -> by lia. exists 43106. by vm_compute.
    + intros k g Hk. assert (map_Forall (fun _ g => 0 <= g < 2 ^ 64) (total_gas (chain_indices chain) : gmap Z Z)) as H
        by (apply (bool_decide_unpack _); by vm_compute). exact (H k g Hk).
  - intros i n b Hr Hn. pose proof (reached_number _ _ _ _ _ _ _ _ _ _ _ _ Hr) as E. cbn in E.
    assert (i = 0%nat) as -> by lia. inversion Hr; subst. apply first_good.
Qed.

End sample_execution.


Section witnesses.
#[local] Existing Instances samples.keccak samples.lru samples.address_codec
  sample_hashes sample_secp sample_bn big_uint samples.rlp_stream samples.codec map_table.map_kv.

Abbreviation sample_stage := (Execution_stage (W := unit) sample_execution.parameters sample_execution.clock sample_execution.cache).

Lemma execution_stage_refines_witness : exists st,
  stage_execute sample_stage sample_execution.stage_input (Build_Db ∅ sample_execution.exec_tables) tt =
    Done (Progress 1 true, Build_Db ∅ (put_state sample_execution.exec_tables st), tt) /\
  executed_to sample_execution.chain sample_execution.config sample_execution.state 0 1
    (fun a => account_now st a) (fun a l => storage_now st a l) (fun h => default [] (content (code_table st) !! h)).
Proof.
  destruct (execution_stage_refines sample_execution.parameters sample_execution.clock sample_execution.cache
    sample_execution.stage_input (Build_Db ∅ sample_execution.exec_tables) tt 3 sample_execution.config 1 0
    (sample_execution.ready false)) as (k & st & Hk & Hrun & Hex).
  cbn in Hk. assert (k = 1) as -> by lia. exists st. split; [exact Hrun|exact Hex].
Defined.

Lemma execution_stage_unwinds_witness : exists k done db' st,
  stage_execute sample_stage sample_execution.stage_input (Build_Db ∅ sample_execution.exec_tables) tt = Done (Progress k done, db', tt) /\
  stage_unwind sample_stage {| unwind_from := 1; unwind_to := 0 |} db' tt =
    Done (0, Build_Db ∅ (put_state sample_execution.exec_tables st), tt) /\
  restored sample_execution.state st.
Proof.
  exact (execution_stage_unwinds sample_execution.parameters sample_execution.clock sample_execution.cache
    sample_execution.stage_input 1 (Build_Db ∅ sample_execution.exec_tables) tt 3 sample_execution.config 1 0
    (sample_execution.ready true)).
Defined.

End witnesses.
