(* ===== verification/HeaderSlices.v ===== *)
(** The window of header slices of the downloader and its verifiers
    (src/downloader/headers_downloader: headers/header.rs, headers/header_slices.rs,
    headers/header_slice_status_watch.rs and verification).

    A slice is shared: the deque and the stages hold references to it.  Each slice has
    the number of its allocation, a stage that keeps a slice while others run keeps
    this number, and a slice that left the deque stays among the [detached] ones, as
    it can still be written through such a reference.  The counters of the statuses
    are atomic and wrap around; [sent] is what the channels of the counters hold.  The
    sum of the first number of a slice and its length is taken to fit into a word.

    The trait [HeaderSliceVerifier] is a class; a verifier can panic, in the
    computation of a difficulty or for a chain without proof of work. *)
From S2P Require Import Prelude Word EvmState Consensus Rlp StagedSync Stages.
From Stdlib Require Import ZArith Lia Strings.Byte Ascii.
From stdpp Require Import base list option numbers gmap.
#[local] Open Scope Z_scope.

(** ** header.rs *)

Module cached.

Record BlockHeader := {
  header : Consensus.BlockHeader;
  rlp_repr_cached : option Bytes;
  hash_cached : option Z;
}.

Definition new (h : Consensus.BlockHeader) (known_hash : Z) : BlockHeader :=
  {| header := h; rlp_repr_cached := None; hash_cached := Some known_hash |}.

(** [From<BaseBlockHeader>]. *)
Definition from (h : Consensus.BlockHeader) : BlockHeader :=
  {| header := h; rlp_repr_cached := None; hash_cached := None |}.

Definition difficulty (h : BlockHeader) : Z := header.difficulty (header h).
Definition number (h : BlockHeader) : Z := header.number (header h).
Definition ommers_hash (h : BlockHeader) : Z := header.ommers_hash (header h).
Definition parent_hash (h : BlockHeader) : Z := header.parent_hash (header h).
Definition timestamp (h : BlockHeader) : Z := header.timestamp (header h).

Section hashes.
Context `{Keccak} `{RlpStream}.

Definition rlp_repr_compute (h : BlockHeader) : Bytes := rlp_out (header_item (header h)).

Definition rlp_repr_prepare (h : BlockHeader) : BlockHeader :=
  {| header := header h; rlp_repr_cached := Some (rlp_repr_compute h); hash_cached := hash_cached h |}.

Definition rlp_repr (h : BlockHeader) : Bytes := default (rlp_repr_compute h) (rlp_repr_cached h).

Definition hash_compute (rlp_repr : Bytes) : Z := be_val (keccak_digest rlp_repr).

Definition hash_prepare (h : BlockHeader) : BlockHeader :=
  let h := match rlp_repr_cached h with None => rlp_repr_prepare h | Some _ => h end in
  {| header := header h; rlp_repr_cached := rlp_repr_cached h;
     hash_cached := hash_compute <$> rlp_repr_cached h |}.

Definition hash (h : BlockHeader) : Z := default (hash_compute (rlp_repr h)) (hash_cached h).

End hashes.

End cached.

(** ** header_slices.rs *)

Module status.

Inductive HeaderSliceStatus :=
  | Empty
  | Waiting
  | Downloaded
  | VerifiedInternally
  | Verified
  | Invalid
  | Fork
  | Saved.

End status.
Export status (HeaderSliceStatus).

#[export] Instance HeaderSliceStatus_eq_dec : EqDecision HeaderSliceStatus.
Proof. solve_decision. Defined.

(** [From<HeaderSliceStatus> for char] and [TryFrom<char> for HeaderSliceStatus]. *)
Definition status_to_char (s : HeaderSliceStatus) : ascii :=
  match s with
  | status.Empty => "-"
  | status.Waiting => "<"
  | status.Downloaded => "."
  | status.VerifiedInternally => "="
  | status.Verified => "#"
  | status.Invalid => "x"
  | status.Fork => "Y"
  | status.Saved => "+"
  end%char.

Definition status_from_char (c : ascii) : option HeaderSliceStatus :=
  match c with
  | "-" => Some status.Empty
  | "<" => Some status.Waiting
  | "." => Some status.Downloaded
  | "=" => Some status.VerifiedInternally
  | "#" => Some status.Verified
  | "x" => Some status.Invalid
  | "Y" => Some status.Fork
  | "+" => Some status.Saved
  | _ => None
  end%char.

Abbreviation PeerId := Z (only parsing).

Record HeaderSlice := {
  start_block_num : Z;
  slice_status : HeaderSliceStatus;
  headers : option (list cached.BlockHeader);
  from_peer_id : option PeerId;
  request_time : option Z;
  request_attempt : Z;
  refetch_attempt : Z;
}.

(** [HeaderSlice { start_block_num, ..Default::default() }]. *)
Definition fresh_slice (start : Z) : HeaderSlice :=
  {| start_block_num := start; slice_status := status.Empty; headers := None; from_peer_id := None;
     request_time := None; request_attempt := 0; refetch_attempt := 0 |}.

(** Assignments to a field of a slice. *)
Definition with_status (s : HeaderSlice) (x : HeaderSliceStatus) : HeaderSlice :=
  {| start_block_num := start_block_num s; slice_status := x; headers := headers s;
     from_peer_id := from_peer_id s; request_time := request_time s;
     request_attempt := request_attempt s; refetch_attempt := refetch_attempt s |}.

Definition with_headers (s : HeaderSlice) (x : option (list cached.BlockHeader)) : HeaderSlice :=
  {| start_block_num := start_block_num s; slice_status := slice_status s; headers := x;
     from_peer_id := from_peer_id s; request_time := request_time s;
     request_attempt := request_attempt s; refetch_attempt := refetch_attempt s |}.

Definition with_peer (s : HeaderSlice) (x : option PeerId) : HeaderSlice :=
  {| start_block_num := start_block_num s; slice_status := slice_status s; headers := headers s;
     from_peer_id := x; request_time := request_time s;
     request_attempt := request_attempt s; refetch_attempt := refetch_attempt s |}.

Definition with_request (s : HeaderSlice) (time : option Z) (attempt : Z) : HeaderSlice :=
  {| start_block_num := start_block_num s; slice_status := slice_status s; headers := headers s;
     from_peer_id := from_peer_id s; request_time := time; request_attempt := attempt;
     refetch_attempt := refetch_attempt s |}.

Definition with_refetch (s : HeaderSlice) (attempt : Z) : HeaderSlice :=
  {| start_block_num := start_block_num s; slice_status := slice_status s; headers := headers s;
     from_peer_id := from_peer_id s; request_time := request_time s;
     request_attempt := request_attempt s; refetch_attempt := attempt |}.

(** [slice.x_attempt += 1] at [u16]. *)
Definition next_attempt (n : Z) : outcome Z := o_unwrap (checked 0 (2 ^ 16 - 1) (n + 1)).

Definition slice_len (s : HeaderSlice) : Z := default 0 ((fun l => Z.of_nat (length l)) <$> headers s).

(** A range of block numbers, without its end. *)
Record BlockRange := { range_start : Z; range_end : Z }.

Definition range_contains (r : BlockRange) (n : Z) : bool := (range_start r <=? n) && (n <? range_end r).
Definition range_is_empty (r : BlockRange) : bool := negb (range_start r <? range_end r).

Definition block_num_range (s : HeaderSlice) : BlockRange :=
  {| range_start := start_block_num s; range_end := start_block_num s + slice_len s |}.

Definition Counts : Type := HeaderSliceStatus -> Z.

(** [fetch_add] and [fetch_sub] wrap around. *)
Definition fetch_add (s : HeaderSliceStatus) (n : Z) (c : Counts) : Counts :=
  fun s' => if decide (s' = s) then wrap 64 (c s' + n) else c s'.
Definition fetch_sub (s : HeaderSliceStatus) (n : Z) (c : Counts) : Counts :=
  fun s' => if decide (s' = s) then wrap 64 (c s' - n) else c s'.

Record HeaderSlices := {
  slices : list (nat * HeaderSlice);
  detached : list (nat * HeaderSlice);
  next_id : nat;
  max_slices : Z;
  max_block_num : Z;
  final_block_num : Z;
  count : Counts;
  sent : Counts;
}.

Definition HEADER_SLICE_SIZE : Z := 192.

Definition align_block_num_to_slice_start (num : Z) : Z := num / HEADER_SLICE_SIZE * HEADER_SLICE_SIZE.

Definition is_block_num_aligned_to_slice_start (num : Z) : bool := num mod HEADER_SLICE_SIZE =? 0.

(** The size of a header in memory is a matter of the compiler. *)
Definition estimate_max_slices_for_mem_limit (size_of_header mem_limit : Z) : Z :=
  mem_limit / size_of_header / HEADER_SLICE_SIZE.

(** The slices of a status in a list. *)
Definition in_status (st : HeaderSliceStatus) (l : list (nat * HeaderSlice)) : Z :=
  Z.of_nat (length (filter (fun e => slice_status e.2 = st) l)).

(** [make_state_watches_from_slices]: a pass over the slices increments the counter of
    each status. *)
Definition make_state_watches_from_slices (l : list (nat * HeaderSlice)) : Counts :=
  foldl (fun c e => fun st => if decide (st = slice_status e.2) then c st + 1 else c st)
    (fun _ => 0) l.

Module slices.

(** [slices.resize(max_slices, Default::default())] and the loop after it; the new
    slices are allocated in their order. *)
Definition resize (l : list HeaderSlice) (start max : Z) : list HeaderSlice :=
  take (Z.to_nat max) l ++
  ((fun i : nat => fresh_slice (start + Z.of_nat i * HEADER_SLICE_SIZE)) <$>
     seq (length l) (Z.to_nat max - length l)).

Definition allocate (from : nat) (l : list HeaderSlice) : list (nat * HeaderSlice) :=
  imap (fun i s => ((from + i)%nat, s)) l.

Definition from_slices_vec (l : list HeaderSlice) (start_opt max_slices_opt final_opt : option Z)
    : outcome HeaderSlices :=
  let start := match l with s :: _ => start_block_num s | [] => default 0 start_opt end in
  if negb (is_block_num_aligned_to_slice_start start) then Panicked else
  let max := default (Z.of_nat (length l)) max_slices_opt in
  max_block ← o_unwrap (u64_checked (start + max * HEADER_SLICE_SIZE));
  let final := default max_block final_opt in
  if negb (is_block_num_aligned_to_slice_start final) then Panicked else
  let deque := allocate 0 (resize l start max) in
  let c := make_state_watches_from_slices deque in
  Done {| slices := deque; detached := []; next_id := length deque; max_slices := max;
          max_block_num := max_block; final_block_num := final; count := c; sent := c |}.

Definition new (size_of_header mem_limit start final : Z) : outcome HeaderSlices :=
  total ← o_unwrap (unsigned_sub final start);
  rounded ← o_unwrap (usize_checked (total + HEADER_SLICE_SIZE));
  let max := Z.min (estimate_max_slices_for_mem_limit size_of_header mem_limit)
               ((rounded - 1) / HEADER_SLICE_SIZE) in
  from_slices_vec [] (Some start) (Some max) (Some final).

Definition empty (max : Z) : HeaderSlices :=
  {| slices := []; detached := []; next_id := 0; max_slices := max; max_block_num := 0;
     final_block_num := 0; count := fun _ => 0; sent := fun _ => 0 |}.

(** *** Updates of the fields *)

Definition with_deque (hs : HeaderSlices) (l : list (nat * HeaderSlice)) : HeaderSlices :=
  {| slices := l; detached := detached hs; next_id := next_id hs; max_slices := max_slices hs;
     max_block_num := max_block_num hs; final_block_num := final_block_num hs; count := count hs;
     sent := sent hs |}.

Definition with_detached (hs : HeaderSlices) (l : list (nat * HeaderSlice)) : HeaderSlices :=
  {| slices := slices hs; detached := l; next_id := next_id hs; max_slices := max_slices hs;
     max_block_num := max_block_num hs; final_block_num := final_block_num hs; count := count hs;
     sent := sent hs |}.

Definition with_count (hs : HeaderSlices) (c : Counts) : HeaderSlices :=
  {| slices := slices hs; detached := detached hs; next_id := next_id hs; max_slices := max_slices hs;
     max_block_num := max_block_num hs; final_block_num := final_block_num hs; count := c;
     sent := sent hs |}.

Definition with_max_block_num (hs : HeaderSlices) (n : Z) : HeaderSlices :=
  {| slices := slices hs; detached := detached hs; next_id := next_id hs; max_slices := max_slices hs;
     max_block_num := n; final_block_num := final_block_num hs; count := count hs; sent := sent hs |}.

(** A new slice at the end or at the front of the deque. *)
Definition push_back (s : HeaderSlice) (hs : HeaderSlices) : HeaderSlices :=
  {| slices := slices hs ++ [(next_id hs, s)]; detached := detached hs; next_id := S (next_id hs);
     max_slices := max_slices hs; max_block_num := max_block_num hs;
     final_block_num := final_block_num hs; count := count hs; sent := sent hs |}.

Definition push_front (s : HeaderSlice) (hs : HeaderSlices) : HeaderSlices :=
  {| slices := (next_id hs, s) :: slices hs; detached := detached hs; next_id := S (next_id hs);
     max_slices := max_slices hs; max_block_num := max_block_num hs;
     final_block_num := final_block_num hs; count := count hs; sent := sent hs |}.

(** Slices that leave the deque. *)
Definition drop_to (hs : HeaderSlices) (keep gone : list (nat * HeaderSlice)) : HeaderSlices :=
  with_detached (with_deque hs keep) (gone ++ detached hs).

(** *** Reading and writing a slice through a reference *)

Definition find_id (id : nat) (l : list (nat * HeaderSlice)) : option HeaderSlice :=
  snd <$> head (filter (fun e => e.1 = id) l).

Definition read (hs : HeaderSlices) (id : nat) : option HeaderSlice :=
  find_id id (slices hs ++ detached hs).

Definition put_id (id : nat) (s : HeaderSlice) (l : list (nat * HeaderSlice))
    : list (nat * HeaderSlice) :=
  (fun e => if decide (e.1 = id) then (id, s) else e) <$> l.

Definition write (hs : HeaderSlices) (id : nat) (s : HeaderSlice) : HeaderSlices :=
  with_detached (with_deque hs (put_id id s (slices hs))) (put_id id s (detached hs)).

Definition set_slice_status (s : HeaderSlice) (st : HeaderSliceStatus) (c : Counts)
    : HeaderSlice * Counts :=
  let old_status := slice_status s in
  if decide (st = old_status) then (s, c)
  else (with_status s st, fetch_add st 1 (fetch_sub old_status 1 c)).

(** [set_slice_status(slice_lock.write(), st)]. *)
Definition set_status_of (hs : HeaderSlices) (id : nat) (st : HeaderSliceStatus) : HeaderSlices :=
  match read hs id with
  | Some s => let '(s, c) := set_slice_status s st (count hs) in with_count (write hs id s) c
  | None => hs
  end.

(** [try_fold] with a body that may write the slice it visits; the body says whether
    the fold goes on. *)
Fixpoint fold_slices {A} (f : HeaderSlice -> Counts -> A -> outcome (HeaderSlice * Counts * A * bool))
    (l : list (nat * HeaderSlice)) (c : Counts) (a : A)
    : outcome (list (nat * HeaderSlice) * Counts * A) :=
  match l with
  | [] => Done ([], c, a)
  | (id, s) :: l =>
      '(s, c, a, continue) ← f s c a;
      if continue : bool then
        '(l, c, a) ← fold_slices f l c a;
        Done ((id, s) :: l, c, a)
      else Done ((id, s) :: l, c, a)
  end.

Definition try_fold {A} (f : HeaderSlice -> Counts -> A -> outcome (HeaderSlice * Counts * A * bool))
    (hs : HeaderSlices) (a : A) : outcome (HeaderSlices * A) :=
  '(l, c, a) ← fold_slices f (slices hs) (count hs) a;
  Done (with_count (with_deque hs l) c, a).

(** *** Searching *)

Definition find_where (p : HeaderSlice -> bool) (l : list (nat * HeaderSlice)) : option nat :=
  fst <$> head (filter (fun e => p e.2 = true) l).

Definition find_by_start_block_num (hs : HeaderSlices) (start : Z) : option nat :=
  find_where (fun s => start_block_num s =? start) (slices hs).

Definition find_by_block_num (hs : HeaderSlices) (num : Z) : option nat :=
  id ← find_by_start_block_num hs (align_block_num_to_slice_start num);
  s ← read hs id;
  if range_contains (block_num_range s) num then Some id else None.

Definition find_by_status (hs : HeaderSlices) (st : HeaderSliceStatus) : option nat :=
  find_where (fun s => bool_decide (slice_status s = st)) (slices hs).

(** The batch is full when it has [batch_size] slices after a push, so a size of zero
    does not limit it. *)
Fixpoint batch_of (st : HeaderSliceStatus) (batch_size : nat) (batch : list nat)
    (l : list (nat * HeaderSlice)) : list nat :=
  match l with
  | [] => batch
  | (id, s) :: l =>
      if decide (slice_status s = st) then
        let batch := batch ++ [id] in
        if decide (length batch = batch_size) then batch else batch_of st batch_size batch l
      else batch_of st batch_size batch l
  end.

Definition find_batch_by_status (hs : HeaderSlices) (st : HeaderSliceStatus) (batch_size : nat)
    : list nat := batch_of st batch_size [] (slices hs).

Definition clone_statuses (hs : HeaderSlices) : list HeaderSliceStatus :=
  (fun e => slice_status e.2) <$> slices hs.

(** *** Operations on the window *)

Definition remove (st : HeaderSliceStatus) (hs : HeaderSlices) : HeaderSlices :=
  let gone := filter (fun e => slice_status e.2 = st) (slices hs) in
  let keep := filter (fun e => slice_status e.2 <> st) (slices hs) in
  with_count (drop_to hs keep gone) (fetch_sub st (Z.of_nat (length gone)) (count hs)).

(** [for _ in initial_len..self.max_slices]. *)
Fixpoint refill_loop (rounds : nat) (n : Z) (hs : HeaderSlices) : HeaderSlices * Z :=
  match rounds with
  | O => (hs, n)
  | S rounds =>
      if final_block_num hs <=? max_block_num hs then (hs, n)
      else
        let hs := push_back (fresh_slice (max_block_num hs)) hs in
        refill_loop rounds (n + 1)
          (with_max_block_num hs (wrap 64 (max_block_num hs + HEADER_SLICE_SIZE)))
  end.

Definition refill (hs : HeaderSlices) : HeaderSlices :=
  let '(hs, n) := refill_loop (Z.to_nat (max_slices hs) - length (slices hs)) 0 hs in
  with_count hs (fetch_add status.Empty n (count hs)).

Definition clear (hs : HeaderSlices) : HeaderSlices :=
  with_count (with_max_block_num (drop_to hs [] (slices hs)) 0) (fun _ => 0).

Definition reset_to_single_slice (s : HeaderSlice) (hs : HeaderSlices) : outcome HeaderSlices :=
  max_block ← o_unwrap (u64_checked (start_block_num s + HEADER_SLICE_SIZE));
  let hs := push_back s (drop_to hs [] (slices hs)) in
  Done (with_count (with_max_block_num hs max_block)
    (fun st => if decide (st = slice_status s) then 1 else 0)).

Definition prepend_slice (hs : HeaderSlices) : outcome HeaderSlices :=
  if max_slices hs <=? Z.of_nat (length (slices hs)) then Error else
  match slices hs with
  | [] => Error
  | (_, first) :: _ =>
      if start_block_num first <? HEADER_SLICE_SIZE then Error
      else
        let hs := push_front (fresh_slice (start_block_num first - HEADER_SLICE_SIZE)) hs in
        Done (with_count hs (fetch_add status.Empty 1 (count hs)))
  end.

Definition append_slice (hs : HeaderSlices) : HeaderSlices :=
  let hs := push_back (fresh_slice (max_block_num hs)) hs in
  let hs := with_max_block_num hs (wrap 64 (max_block_num hs + HEADER_SLICE_SIZE)) in
  with_count hs (fetch_add status.Empty 1 (count hs)).

(** [while slices.len() > self.max_slices]. *)
Fixpoint trim_loop (l gone : list (nat * HeaderSlice)) (c : Counts) (max : Z)
    : list (nat * HeaderSlice) * list (nat * HeaderSlice) * Counts :=
  match l with
  | [] => ([], gone, c)
  | e :: l' =>
      if max <? Z.of_nat (length l) then
        trim_loop l' (gone ++ [e]) (fetch_sub (slice_status e.2) 1 c) max
      else (l, gone, c)
  end.

Definition trim_start_to_fit_max_slices (hs : HeaderSlices) : HeaderSlices :=
  let '(keep, gone, c) := trim_loop (slices hs) [] (count hs) (max_slices hs) in
  with_count (drop_to hs keep gone) c.

Definition notify_status_watchers (hs : HeaderSlices) : HeaderSlices :=
  {| slices := slices hs; detached := detached hs; next_id := next_id hs; max_slices := max_slices hs;
     max_block_num := max_block_num hs; final_block_num := final_block_num hs; count := count hs;
     sent := count hs |}.

(** *** Queries *)

Definition contains_status (hs : HeaderSlices) (st : HeaderSliceStatus) : bool := 0 <? count hs st.

Definition has_one_of_statuses (hs : HeaderSlices) (sts : list HeaderSliceStatus) : bool :=
  existsb (contains_status hs) sts.

Definition min_block_num (hs : HeaderSlices) : Z :=
  match slices hs with (_, s) :: _ => start_block_num s | [] => max_block_num hs end.

Definition is_empty (hs : HeaderSlices) : bool :=
  match slices hs with [] => true | _ => false end.

Definition is_empty_at_final_position (hs : HeaderSlices) : bool :=
  (final_block_num hs <=? max_block_num hs) && is_empty hs.

Definition all_in_status (hs : HeaderSlices) (st : HeaderSliceStatus) : bool :=
  count hs st =? Z.of_nat (length (slices hs)).

End slices.

(** ** header_slice_status_watch.rs *)

(** [wait_while]: a call that has not waited yet looks at the counter first and then at
    the channel, one that has been waiting only at the channel. *)
Definition wait_while_ready (hs : HeaderSlices) (st : HeaderSliceStatus) (waiting : bool) (value : Z)
    : bool :=
  if waiting then negb (sent hs st =? value)
  else negb (count hs st =? value) || negb (sent hs st =? value).

(** [wait_while_all] of the selector over two windows. *)
Definition wait_while_all_ready (hs1 hs2 : HeaderSlices) (st : HeaderSliceStatus) (waiting : bool)
    (values : Z * Z) : bool :=
  if waiting then negb (sent hs1 st =? values.1) || negb (sent hs2 st =? values.2)
  else negb (count hs1 st =? values.1) || negb (count hs2 st =? values.2) ||
       negb (sent hs1 st =? values.1) || negb (sent hs2 st =? values.2).

(** [a && b] with a second operand that can panic. *)
Definition and_then (a b : outcome bool) : outcome bool :=
  x ← a;
  if x : bool then b else Done false.
#[local] Infix "&&!" := and_then (at level 40, left associativity).

(** [iter().all(f)] and the loops that return at the first failure. *)
Fixpoint all_of {A} (f : A -> outcome bool) (l : list A) : outcome bool :=
  match l with
  | [] => Done true
  | a :: l => f a &&! all_of f l
  end.

(** [ChainConfig] of src/sentry/chain_config.rs. *)
Record ChainConfig := {
  chain_spec : ChainSpec;
  genesis_block_hash : Z;
}.

(** [PreverifiedHashesConfig]. *)
Record PreverifiedHashesConfig := { hashes : list Z }.
Definition preverified_empty : PreverifiedHashesConfig := {| hashes := [] |}.

Class HeaderSliceVerifier := {
  verify_link : cached.BlockHeader -> cached.BlockHeader -> ChainSpec -> outcome bool;
  verify_slice : list cached.BlockHeader -> Z -> Z -> ChainSpec -> outcome bool;
}.

(** The pairs of neighbours, the parent first. *)
Definition enumerate_sequential_pairs {A} (l : list A) : list (A * A) := zip l (drop 1 l).

Module ethash_verifier.

Section verifier.
Context `{Keccak} `{RlpStream}.

Definition verify_link_by_parent_hash (child parent : cached.BlockHeader) : bool :=
  cached.parent_hash child =? cached.hash parent.

Definition verify_link_block_nums (child parent : cached.BlockHeader) : outcome bool :=
  expected_block_num ← o_unwrap (u64_checked (cached.number parent + 1));
  Done (cached.number child =? expected_block_num).

Definition verify_link_timestamps (child parent : cached.BlockHeader) : bool :=
  cached.timestamp parent <? cached.timestamp child.

Definition verify_link_difficulties (child parent : cached.BlockHeader) (spec : ChainSpec)
    : outcome bool :=
  match seal_verification (consensus spec) with
  | SealEthash _ _ homestead_formula byzantium_formula difficulty_bomb _ =>
      expected ← o_unwrap (canonical_difficulty
        (cached.number child) (cached.timestamp child)
        (cached.difficulty parent) (cached.timestamp parent)
        (negb (cached.ommers_hash parent =? EMPTY_LIST_HASH))
        (switch_is_active byzantium_formula (cached.number child))
        (switch_is_active homestead_formula (cached.number child))
        ((fun b => {| delay_to := get_delay_to b (cached.number child) |}) <$> difficulty_bomb));
      Done (cached.difficulty child =? expected)
  | _ => Panicked
  end.

(** The proof of work is not looked at. *)
Definition verify_link_pow (child parent : cached.BlockHeader) : bool := true.

Definition ethash_verify_link (child parent : cached.BlockHeader) (spec : ChainSpec) : outcome bool :=
  Done (verify_link_by_parent_hash child parent)
    &&! verify_link_block_nums child parent
    &&! Done (verify_link_timestamps child parent)
    &&! verify_link_difficulties child parent spec
    &&! Done (verify_link_pow child parent).

Definition verify_slice_is_linked_by_parent_hash (l : list cached.BlockHeader) : bool :=
  forallb (fun '(parent, child) => verify_link_by_parent_hash child parent)
    (enumerate_sequential_pairs l).

Definition verify_slice_block_nums (l : list cached.BlockHeader) (start : Z) : outcome bool :=
  match l with
  | [] => Done true
  | first :: _ =>
      all_of (fun '(parent, child) => verify_link_block_nums child parent)
        (enumerate_sequential_pairs l)
      &&! Done (cached.number first =? start)
  end.

Definition verify_slice_timestamps (l : list cached.BlockHeader) (max_timestamp : Z) : bool :=
  match last l with
  | None => true
  | Some last =>
      forallb (fun '(parent, child) => verify_link_timestamps child parent)
        (enumerate_sequential_pairs l)
      && (cached.timestamp last <? max_timestamp)
  end.

Definition verify_slice_difficulties (l : list cached.BlockHeader) (spec : ChainSpec) : outcome bool :=
  all_of (fun '(parent, child) => verify_link_difficulties child parent spec)
    (enumerate_sequential_pairs l).

Definition verify_slice_pow (l : list cached.BlockHeader) : bool := true.

Definition ethash_verify_slice (l : list cached.BlockHeader) (start max_timestamp : Z)
    (spec : ChainSpec) : outcome bool :=
  Done (verify_slice_is_linked_by_parent_hash l)
    &&! verify_slice_block_nums l start
    &&! Done (verify_slice_timestamps l max_timestamp)
    &&! verify_slice_difficulties l spec
    &&! Done (verify_slice_pow l).

(** [make_ethash_verifier]. *)
Definition make_ethash_verifier : HeaderSliceVerifier :=
  {| verify_link := ethash_verify_link; verify_slice := ethash_verify_slice |}.

End verifier.

End ethash_verifier.

(** The verifier of the tests: headers have a number of their own. *)
Module mock_verifier.

Definition mock_verify_link (header_id : cached.BlockHeader -> Z) (child parent : cached.BlockHeader)
    (_ : ChainSpec) : outcome bool :=
  next ← o_unwrap (u64_checked (header_id parent + 1));
  Done (header_id child =? next).

Definition mock_verify_slice (_ : list cached.BlockHeader) (_ _ : Z) (_ : ChainSpec) : outcome bool :=
  Done true.

Definition HeaderSliceVerifierMock (header_id : cached.BlockHeader -> Z) : HeaderSliceVerifier :=
  {| verify_link := mock_verify_link header_id; verify_slice := mock_verify_slice |}.

End mock_verifier.
