(* ===== verification/HeaderStages.v ===== *)
(** The stages of the header downloader that work on one window
    (src/downloader/headers_downloader/stages).

    A stage is a coroutine: it runs without interruption from one [await] to the next,
    and the loop polls the stages in any order.  A poll is a function of where the
    stage stands and of what the world answers there (the clock, messages, the queue of
    the network service); it ends [Pending] at an [await], or the call of [execute] ends
    with [Ok] or with an error.  A panic is [Panicked]. *)
From S2P Require Import Prelude Word EvmState Transaction Precompiled IntraBlockState Consensus MemState Rlp RlpDecode StagedSync Kv Stages ChainAccess.
From S2P Require Import HeaderSlices.
From Stdlib Require Import ZArith Lia Strings.Byte.
From stdpp Require Import base list option numbers gmap.
#[local] Open Scope Z_scope.

Inductive polled := Pending | Finished | Failed.

(** Where a stage stands that only waits for a counter. *)
Inductive control := Entered (waiting : bool) | Awoken.

(** ** fetch_request_stage.rs *)

Abbreviation GetBlockHeadersMessage := eth.GetBlockHeadersMessage.

(** The message of [request]. *)
Definition header_request (id block_num size : Z) : GetBlockHeadersMessage := {|
  eth.request_id := id;
  eth.params := {| eth.start_block := eth.BlockId_Number block_num; eth.limit := size; eth.skip := 0;
                   eth.reverse := 0 |} |}.

(** The answer of [try_send_message]. *)
Inductive SendResult := SendOk | SendQueueFull | SendError.

Module fetch_request.

Inductive Control := Wait (waiting : bool) | Request | Capacity.

Record FetchRequestStage := {
  slice_size : Z;
  last_request_id : Z;
  position : Control;
  outbox : list GetBlockHeadersMessage;    (* what the queue accepted *)
}.

Definition new (size : Z) : FetchRequestStage :=
  {| slice_size := size; last_request_id := 0; position := Wait false; outbox := [] |}.

Definition goto (c : Control) (s : FetchRequestStage) : FetchRequestStage :=
  {| slice_size := slice_size s; last_request_id := last_request_id s; position := c; outbox := outbox s |}.

(** The body of the fold of [request_pending]: the next number of a request, the accepted
    messages, and whether an error occurred. *)
Definition request_one (size : Z) (send : GetBlockHeadersMessage -> SendResult) (clock : Z -> Z)
    (s : HeaderSlice) (c : Counts) (a : Z * list GetBlockHeadersMessage * bool)
    : outcome (HeaderSlice * Counts * (Z * list GetBlockHeadersMessage * bool) * bool) :=
  let '(id, sent, failed) := a in
  if decide (slice_status s = status.Empty) then
    let message := header_request id (start_block_num s) size in
    let next := wrap 64 (id + 1) in
    match send message with
    | SendOk =>
        let s := with_request s (Some (clock id)) (request_attempt s) in
        let '(s, c) := slices.set_slice_status s status.Waiting c in
        Done (s, c, (next, sent ++ [message], failed), true)
    | SendQueueFull => Done (s, c, (next, sent, failed), false)
    | SendError => Done (s, c, (next, sent, true), false)
    end
  else Done (s, c, a, true).

Definition request_pending (send : GetBlockHeadersMessage -> SendResult) (clock : Z -> Z)
    (st : FetchRequestStage) (hs : HeaderSlices) : outcome (bool * FetchRequestStage * HeaderSlices) :=
  '(hs, (id, sent, failed)) ← slices.try_fold (request_one (slice_size st) send clock) hs
      (last_request_id st, outbox st, false);
  Done (failed, {| slice_size := slice_size st; last_request_id := id; position := position st; outbox := sent |}, hs).

(** What [reserve_capacity_in_send_queue] answers: not yet, capacity, or an error. *)
Definition poll (send : GetBlockHeadersMessage -> SendResult) (clock : Z -> Z)
    (capacity : option bool) (st : FetchRequestStage) (hs : HeaderSlices)
    : outcome (polled * FetchRequestStage * HeaderSlices) :=
  match position st with
  | Wait waiting =>
      if wait_while_ready hs status.Empty waiting 0 then Done (Pending, goto Request st, hs)
      else Done (Pending, goto (Wait true) st, hs)
  | Request =>
      '(failed, st, hs) ← request_pending send clock st hs;
      if failed : bool then Done (Failed, goto (Wait false) st, hs)
      else if 0 <? count hs status.Empty then Done (Pending, goto Capacity st, hs)
      else Done (Finished, goto (Wait false) st, hs)
  | Capacity =>
      match capacity with
      | None => Done (Pending, st, hs)
      | Some true => Done (Finished, goto (Wait false) st, hs)
      | Some false => Done (Failed, goto (Wait false) st, hs)
      end
  end.

Definition can_proceed (hs : HeaderSlices) : bool := slices.contains_status hs status.Empty.

End fetch_request.

(** ** fetch_receive_stage.rs *)

Module fetch_receive.

Record BlockHeadersMessageFromPeer := {
  message_headers : list BlockHeader;
  message_from_peer : option PeerId;
}.

Definition update_slice (id : nat) (l : list cached.BlockHeader) (peer : option PeerId)
    (hs : HeaderSlices) : HeaderSlices :=
  match slices.read hs id with
  | Some s =>
      let s := with_peer (with_headers s (Some l)) peer in
      let '(s, c) := slices.set_slice_status s status.Downloaded (count hs) in
      slices.with_count (slices.write hs id s) c
  | None => hs
  end.

Definition on_headers_message (m : BlockHeadersMessageFromPeer) (hs : HeaderSlices) : HeaderSlices :=
  match message_headers m with
  | [] => hs
  | first :: _ =>
      match slices.find_by_start_block_num hs (header.number first) with
      | Some id =>
          match slice_status <$> slices.read hs id with
          | Some status.Waiting =>
              update_slice id (cached.from <$> message_headers m) (message_from_peer m) hs
          | _ => hs
          end
      | None => hs
      end
  end.

(** What the stream of messages answers. *)
Inductive Arrival := NoneYet | Arrived (m : BlockHeadersMessageFromPeer) | StreamOver | StreamFailed.

Definition poll (arrival : Arrival) (is_over : bool) (hs : HeaderSlices) : polled * bool * HeaderSlices :=
  match arrival with
  | NoneYet => (Pending, is_over, hs)
  | Arrived m => (Finished, is_over, on_headers_message m hs)
  | StreamOver => (Finished, true, hs)
  | StreamFailed => (Failed, is_over, hs)
  end.

Definition can_proceed (is_over : bool) (hs : HeaderSlices) : bool :=
  negb is_over && slices.contains_status hs status.Waiting.

End fetch_receive.

(** ** retry_stage.rs *)

Module retry.

(** Times are in nanoseconds. *)
Definition from_secs (n : Z) : Z := n * 10 ^ 9.

Definition timeout_for_attempt (attempt : Z) : Z :=
  if attempt =? 0 then from_secs 5
  else if attempt =? 1 then from_secs 10
  else if attempt =? 2 then from_secs 15
  else from_secs 30.

Definition is_waiting_timeout_expired (s : HeaderSlice) (now : Z) : bool :=
  match request_time s with
  | None => false
  | Some t => timeout_for_attempt (request_attempt s) <? Z.max 0 (now - t)
  end.

Definition reset_one (now : Z) (s : HeaderSlice) (c : Counts) (n : Z)
    : outcome (HeaderSlice * Counts * Z * bool) :=
  if bool_decide (slice_status s = status.Waiting) && is_waiting_timeout_expired s now then
    attempt ← next_attempt (request_attempt s);
    let '(s, c) := slices.set_slice_status (with_request s None attempt) status.Empty c in
    Done (s, c, n + 1, true)
  else Done (s, c, n, true).

Definition reset_pending (now : Z) (hs : HeaderSlices) : outcome (HeaderSlices * Z) :=
  slices.try_fold (reset_one now) hs 0.

(** [now] is none while the stage sleeps. *)
Definition poll (now : option Z) (st : control) (hs : HeaderSlices)
    : outcome (polled * control * HeaderSlices) :=
  match st, now with
  | Entered waiting, _ =>
      if wait_while_ready hs status.Waiting waiting 0 then Done (Pending, Awoken, hs)
      else Done (Pending, Entered true, hs)
  | Awoken, None => Done (Pending, Awoken, hs)
  | Awoken, Some now =>
      '(hs, _) ← reset_pending now hs;
      Done (Finished, Entered false, hs)
  end.

Definition can_proceed : bool := false.

End retry.

(** ** penalize_stage.rs *)

Module penalize.

Inductive Control := Wait (waiting : bool) | Penalizing (peers : list PeerId).

Definition collect_bad_peers (hs : HeaderSlices) : gset PeerId :=
  foldl (fun peers e =>
    if decide (slice_status e.2 = status.Invalid) then
      match from_peer_id e.2 with Some p => peers ∪ {[ p ]} | None => peers end
    else peers) ∅ (slices hs).

Definition reset_one (s : HeaderSlice) (c : Counts) (_ : unit)
    : outcome (HeaderSlice * Counts * unit * bool) :=
  if decide (slice_status s = status.Invalid) then
    let '(s, c) := slices.set_slice_status s status.Empty c in
    Done (with_headers s None, c, tt, true)
  else Done (s, c, tt, true).

Definition reset_pending (hs : HeaderSlices) : outcome (HeaderSlices * unit) :=
  slices.try_fold reset_one hs tt.

(** What [penalize_peer] answers for the next peer: not yet, or whether it succeeded. *)
Definition poll (answer : option bool) (st : Control) (hs : HeaderSlices)
    : outcome (polled * Control * HeaderSlices) :=
  match st with
  | Wait waiting =>
      if wait_while_ready hs status.Invalid waiting 0
      then Done (Pending, Penalizing (elements (collect_bad_peers hs)), hs)
      else Done (Pending, Wait true, hs)
  | Penalizing [] =>
      '(hs, _) ← reset_pending hs;
      Done (Finished, Wait false, hs)
  | Penalizing (_ :: peers) =>
      match answer with
      | None => Done (Pending, st, hs)
      | Some true => Done (Pending, Penalizing peers, hs)
      | Some false => Done (Failed, Wait false, hs)
      end
  end.

Definition can_proceed (hs : HeaderSlices) : bool := slices.contains_status hs status.Invalid.

End penalize.

(** ** verify_slices_stage.rs and verify_preverified_stage.rs *)

Module verify.

(** A batch is verified by tasks of their own threads; the results are joined in the order
    of the batch. *)
Inductive Control := Wait (waiting : bool) | Batch | Tasks (l : list (nat * option bool)).

Section verify.
Context `{Keccak} `{RlpStream}.
Variable num_cpus : nat.
(** What [verify_slice] of the stage says at a time, and the status of success. *)
Variable check : HeaderSlice -> Z -> outcome bool.
Variable good : HeaderSliceStatus.

Definition prepare_slice_hashes (s : HeaderSlice) : HeaderSlice :=
  with_headers s ((fun l : list cached.BlockHeader => cached.hash_prepare <$> l) <$> headers s).

(** One task of [verify_slices_parallel]. *)
Definition run_task (now : Z) (id : nat) (hs : HeaderSlices) : outcome (bool * HeaderSlices) :=
  match slices.read hs id with
  | Some s =>
      let s := prepare_slice_hashes s in
      ok ← check s now;
      Done (ok, slices.write hs id s)
  | None => Done (false, hs)
  end.

(** The loop over the batch after the join. *)
Definition set_statuses (l : list (nat * bool)) (hs : HeaderSlices) : HeaderSlices :=
  foldl (fun hs '(id, is_verified) =>
    slices.set_status_of hs id (if is_verified : bool then good else status.Invalid)) hs l.

(** The results of the batch, once all tasks have ended. *)
Definition joined (l : list (nat * option bool)) : option (list (nat * bool)) :=
  mapM (fun '(id, r) => pair id <$> r) l.

(** The task that ran since the last poll, and the time it read. *)
Definition poll (task : option (nat * Z)) (st : Control) (hs : HeaderSlices)
    : outcome (polled * Control * HeaderSlices) :=
  match st with
  | Wait waiting =>
      if wait_while_ready hs status.Downloaded waiting 0 then Done (Pending, Batch, hs)
      else Done (Pending, Wait true, hs)
  | Batch =>
      match slices.find_batch_by_status hs status.Downloaded num_cpus with
      | [] => Done (Finished, Wait false, hs)
      | l => Done (Pending, Tasks ((fun id => (id, None)) <$> l), hs)
      end
  | Tasks l =>
      match joined l with
      | Some results => Done (Pending, Batch, set_statuses results hs)
      | None =>
          match task with
          | None => Done (Pending, st, hs)
          | Some (i, now) =>
              match l !! i with
              | Some (id, None) =>
                  '(ok, hs) ← run_task now id hs;
                  Done (Pending, Tasks (<[i := (id, Some ok)]> l), hs)
              | _ => Done (Pending, st, hs)
              end
          end
      end
  end.

Definition can_proceed (hs : HeaderSlices) : bool := slices.contains_status hs status.Downloaded.

End verify.

(** [VerifySlicesStage::verify_slice]. *)
Definition verify_slice_internally `{HeaderSliceVerifier} (config : ChainConfig) (s : HeaderSlice)
    (now : Z) : outcome bool :=
  match headers s with
  | None => Done false
  | Some l => verify_slice l (start_block_num s) now (chain_spec config)
  end.

Definition preverified_hash (preverified : PreverifiedHashesConfig) (block_num : Z) : option Z :=
  if negb (block_num mod HEADER_SLICE_SIZE =? 0) then None
  else hashes preverified !! Z.to_nat (block_num / HEADER_SLICE_SIZE).

(** [VerifyPreverifiedStage::verify_slice]; the time is not looked at. *)
Definition verify_slice_preverified `{Keccak} `{RlpStream} (preverified : PreverifiedHashesConfig)
    (s : HeaderSlice) (_ : Z) : outcome bool :=
  match headers s with
  | None => Done false
  | Some l =>
      match head l, last l with
      | Some first, Some last =>
          match preverified_hash preverified (start_block_num s) with
          | None => Done false
          | Some expected =>
              if negb (cached.hash first =? expected) then Done false else
              match preverified_hash preverified
                      (start_block_num s + Z.of_nat (length l) - 1) with
              | None => Done false
              | Some expected =>
                  if negb (cached.hash last =? expected) then Done false
                  else Done (ethash_verifier.verify_slice_is_linked_by_parent_hash l)
              end
          end
      | _, _ => Done false
      end
  end.

End verify.

(** ** verify_link_linear_stage.rs *)

Module link_linear.

Record VerifyLinkLinearStage := {
  invalid_status : HeaderSliceStatus;
  last_verified_header : option cached.BlockHeader;
  waiting : bool;
  remaining_count : Z;
}.

Definition with_last (st : VerifyLinkLinearStage) (h : option cached.BlockHeader)
    : VerifyLinkLinearStage :=
  {| invalid_status := invalid_status st; last_verified_header := h; waiting := waiting st;
     remaining_count := remaining_count st |}.

Definition with_waiting (st : VerifyLinkLinearStage) (w : bool) (remaining : Z)
    : VerifyLinkLinearStage :=
  {| invalid_status := invalid_status st; last_verified_header := last_verified_header st;
     waiting := w; remaining_count := remaining |}.

Section link.
Context `{Keccak} `{RlpStream} `{HeaderSliceVerifier}.
Variable config : ChainConfig.

(** The last slice of the verified front of a list. *)
Fixpoint last_verified_slice (found : option HeaderSlice) (l : list (nat * HeaderSlice))
    : option HeaderSlice :=
  match l with
  | [] => found
  | (_, s) :: l =>
      match slice_status s with
      | status.Verified | status.Saved => last_verified_slice (Some s) l
      | _ => found
      end
  end.

Definition find_last_verified_header (hs : HeaderSlices) : option cached.BlockHeader :=
  s ← last_verified_slice None (slices hs);
  l ← headers s;
  last l.

Definition new (hs : HeaderSlices) (last : option cached.BlockHeader) (invalid : HeaderSliceStatus)
    : outcome VerifyLinkLinearStage :=
  _ ← match last with
      | Some h =>
          next ← o_unwrap (u64_checked (cached.number h + 1));
          if next =? slices.min_block_num hs then Done tt else Panicked
      | None => Done tt
      end;
  Done {| invalid_status := invalid;
          last_verified_header :=
            match find_last_verified_header hs with Some h => Some h | None => last end;
          waiting := false; remaining_count := 0 |}.

(** The first slice that is not verified yet, if it is verified internally. *)
Fixpoint next_pending (l : list (nat * HeaderSlice)) : option nat :=
  match l with
  | [] => None
  | (id, s) :: l =>
      match slice_status s with
      | status.Verified | status.Saved => next_pending l
      | status.VerifiedInternally => Some id
      | _ => None
      end
  end.

Definition find_next_pending_monotonic (hs : HeaderSlices) : option nat := next_pending (slices hs).

Definition verify_slice_link (s : HeaderSlice) (parent : option cached.BlockHeader) : outcome bool :=
  match headers s with
  | None => Done false
  | Some [] => Done false
  | Some ((child :: _) as l) =>
      if negb (Z.of_nat (length l) =? HEADER_SLICE_SIZE) then Done false
      else if cached.number child =? 0 then Done (cached.hash child =? genesis_block_hash config)
      else
        match parent with
        | None => Done false
        | Some parent => verify_link child parent (chain_spec config)
        end
  end.

Definition verify_pending_slice (id : nat) (st : VerifyLinkLinearStage) (hs : HeaderSlices)
    : outcome (bool * VerifyLinkLinearStage * HeaderSlices) :=
  s ← o_unwrap (slices.read hs id);
  is_verified ← verify_slice_link s (last_verified_header st);
  if is_verified : bool then
    l ← o_unwrap (headers s);
    Done (true, match last l with Some h => with_last st (Some h) | None => st end,
          slices.set_status_of hs id status.Verified)
  else Done (false, st, slices.set_status_of hs id (invalid_status st)).

(** [for _ in 0..pending_count]. *)
Fixpoint verify_pending_monotonic (rounds : nat) (updated : Z) (st : VerifyLinkLinearStage)
    (hs : HeaderSlices) : outcome (Z * VerifyLinkLinearStage * HeaderSlices) :=
  match rounds with
  | O => Done (updated, st, hs)
  | S rounds =>
      match find_next_pending_monotonic hs with
      | Some id =>
          '(is_verified, st, hs) ← verify_pending_slice id st hs;
          if is_verified : bool then verify_pending_monotonic rounds (updated + 1) st hs
          else Done (updated + 1, st, hs)
      | None => Done (updated, st, hs)
      end
  end.

Definition poll (st : VerifyLinkLinearStage) (hs : HeaderSlices)
    : outcome (polled * VerifyLinkLinearStage * HeaderSlices) :=
  if wait_while_ready hs status.VerifiedInternally (waiting st) (remaining_count st) then
    let pending_count := count hs status.VerifiedInternally in
    '(updated, st, hs) ← verify_pending_monotonic (Z.to_nat pending_count) 0 st hs;
    Done (Finished, with_waiting st false (pending_count - updated), hs)
  else Done (Pending, with_waiting st true (remaining_count st), hs).

Definition can_proceed (hs : HeaderSlices) : bool :=
  slices.contains_status hs status.VerifiedInternally.

End link.

End link_linear.

(** ** save_stage.rs *)

(** The tables of the headers; the table of the last header has one key. *)
Record HeaderTables (T : Type -> Type) := {
  chain_tables : ChainTables T;
  last_header : option Z;
}.
Arguments chain_tables {T} _.
Arguments last_header {T} _.
Arguments Build_HeaderTables {T} _ _.

Module save.

Inductive SaveOrder := Monotonic | Random.

Record SaveStage := {
  order : SaveOrder;
  is_canonical_chain : bool;
  waiting : bool;
  remaining_count : Z;
}.

Definition new (o : SaveOrder) (canonical : bool) : SaveStage :=
  {| order := o; is_canonical_chain := canonical; waiting := false; remaining_count := 0 |}.

Definition with_waiting (st : SaveStage) (w : bool) (remaining : Z) : SaveStage :=
  {| order := order st; is_canonical_chain := is_canonical_chain st; waiting := w;
     remaining_count := remaining |}.

Section save.
Context `{Keccak} `{RlpStream} {T : Type -> Type} {KV : Kv T}.

(** The tables after a write to those of the headers. *)
Definition with_tables (t : HeaderTables T) (canonical numbers : T Z) (hdrs : T BlockHeader)
    (difficulties : T Z) (last : option Z) : HeaderTables T :=
  let c := chain_tables t in
  let i := chain_indices c in
  Build_HeaderTables
    {| chain_indices :=
         {| canonical_header := canonical; header_number := numbers; header_table := hdrs;
            block_body := block_body i; total_gas := total_gas i; total_tx := total_tx i |};
       block_transaction := block_transaction c; tx_senders := tx_senders c;
       tx_lookups := tx_lookups c; headers_total_difficulty := difficulties |} last.

Definition canonical_of (t : HeaderTables T) : T Z := canonical_header (chain_indices (chain_tables t)).
Definition numbers_of (t : HeaderTables T) : T Z := header_number (chain_indices (chain_tables t)).
Definition headers_of (t : HeaderTables T) : T BlockHeader :=
  header_table (chain_indices (chain_tables t)).
Definition difficulties_of (t : HeaderTables T) : T Z := headers_total_difficulty (chain_tables t).

Definition read_parent_header_total_difficulty (child : cached.BlockHeader) (t : HeaderTables T)
    : option Z :=
  if cached.number child =? 0 then Some 0
  else kv_get (header_key (cached.number child - 1) (cached.parent_hash child)) (difficulties_of t).

Definition header_total_difficulty (h : cached.BlockHeader) (t : HeaderTables T)
    : outcome (option Z) :=
  match read_parent_header_total_difficulty h t with
  | None => Done None
  | Some parent => total ← o_unwrap (u256_checked (parent + cached.difficulty h)); Done (Some total)
  end.

Definition load_canonical_header_by_num (num : Z) (t : HeaderTables T) : option cached.BlockHeader :=
  hash ← kv_get num (canonical_of t);
  h ← kv_get (header_key num hash) (headers_of t);
  Some (cached.new h hash).

Definition update_canonical_chain_header (h : cached.BlockHeader) (t : HeaderTables T)
    : outcome (HeaderTables T) :=
  let num := cached.number h in
  let hash := cached.hash h in
  let t := with_tables t (kv_put num hash (canonical_of t)) (numbers_of t) (headers_of t)
             (difficulties_of t) (Some hash) in
  total ← header_total_difficulty h t;
  match total with
  | Some d =>
      Done (with_tables t (canonical_of t) (numbers_of t) (headers_of t)
              (kv_put (header_key num hash) d (difficulties_of t)) (last_header t))
  | None => Done t
  end.

Definition save_header (h : cached.BlockHeader) (canonical : bool) (t : HeaderTables T)
    : outcome (HeaderTables T) :=
  let num := cached.number h in
  let hash := cached.hash h in
  t ← (if canonical then update_canonical_chain_header h t else Done t);
  Done (with_tables t (canonical_of t) (kv_put hash num (numbers_of t))
          (kv_put (header_key num hash) (cached.header h) (headers_of t))
          (difficulties_of t) (last_header t)).

Fixpoint save_headers (l : list cached.BlockHeader) (canonical : bool) (t : HeaderTables T)
    : outcome (HeaderTables T) :=
  match l with
  | [] => Done t
  | h :: l => t ← save_header h canonical t; save_headers l canonical t
  end.

(** The result says whether the slice had headers; if not, the call ends with an error. *)
Definition save_slice (id : nat) (canonical : bool) (hs : HeaderSlices) (t : HeaderTables T)
    : outcome (bool * HeaderSlices * HeaderTables T) :=
  s ← o_unwrap (slices.read hs id);
  match headers s with
  | None => Done (false, hs, t)
  | Some l =>
      t ← save_headers l canonical t;
      Done (true, slices.set_status_of hs id status.Saved, t)
  end.

(** The first slice that is not saved, if it is verified. *)
Fixpoint next_pending (l : list (nat * HeaderSlice)) : option nat :=
  match l with
  | [] => None
  | (id, s) :: l =>
      match slice_status s with
      | status.Saved => next_pending l
      | status.Verified => Some id
      | _ => None
      end
  end.

Definition find_next_pending_monotonic (hs : HeaderSlices) : option nat := next_pending (slices hs).

(** The two loops differ in the slice they save next. *)
Definition next_to_save (o : SaveOrder) (hs : HeaderSlices) : option nat :=
  match o with
  | Monotonic => find_next_pending_monotonic hs
  | Random => slices.find_by_status hs status.Verified
  end.

(** [save_pending_monotonic] and [save_pending_all]. *)
Fixpoint save_pending (rounds : nat) (saved : Z) (st : SaveStage) (hs : HeaderSlices)
    (t : HeaderTables T) : outcome (bool * Z * HeaderSlices * HeaderTables T) :=
  match rounds with
  | O => Done (true, saved, hs, t)
  | S rounds =>
      match next_to_save (order st) hs with
      | Some id =>
          '(ok, hs, t) ← save_slice id (is_canonical_chain st) hs t;
          if ok : bool then save_pending rounds (saved + 1) st hs t else Done (false, saved, hs, t)
      | None => Done (true, saved, hs, t)
      end
  end.

Definition poll (st : SaveStage) (hs : HeaderSlices) (t : HeaderTables T)
    : outcome (polled * SaveStage * HeaderSlices * HeaderTables T) :=
  if wait_while_ready hs status.Verified (waiting st) (remaining_count st) then
    let pending_count := count hs status.Verified in
    '(ok, saved, hs, t) ← save_pending (Z.to_nat pending_count) 0 st hs t;
    if ok : bool then Done (Finished, with_waiting st false (pending_count - saved), hs, t)
    else Done (Failed, with_waiting st false (remaining_count st), hs, t)
  else Done (Pending, with_waiting st true (remaining_count st), hs, t).

Definition can_proceed (st : SaveStage) (hs : HeaderSlices) : bool :=
  negb (count hs status.Verified =? remaining_count st).

(** [for i in unwind_to_block_num.0 + 1..], until a number has no canonical header; the
    table has fewer entries than the loop has rounds. *)
Fixpoint forget_canonical (rounds : nat) (num : Z) (canonical : T Z) : T Z :=
  match rounds with
  | O => canonical
  | S rounds =>
      match kv_get num canonical with
      | Some _ => forget_canonical rounds (num + 1) (kv_delete num canonical)
      | None => canonical
      end
  end.

Definition unwind (unwind_to : Z) (t : HeaderTables T) : outcome (HeaderTables T) :=
  let canonical := forget_canonical (S (size (content (canonical_of t)))) (unwind_to + 1) (canonical_of t) in
  let t := with_tables t canonical (numbers_of t) (headers_of t) (difficulties_of t) (last_header t) in
  match kv_get unwind_to canonical with
  | Some hash =>
      Done (with_tables t (canonical_of t) (numbers_of t) (headers_of t) (difficulties_of t) (Some hash))
  | None => Error
  end.

End save.

End save.

(** ** refill_stage.rs *)

Module refill.

Definition refill_pending (hs : HeaderSlices) : HeaderSlices :=
  slices.refill (slices.remove status.Saved hs).

Definition poll (waiting : bool) (hs : HeaderSlices) : polled * bool * HeaderSlices :=
  if wait_while_ready hs status.Saved waiting 0 then (Finished, false, refill_pending hs)
  else (Pending, true, hs).

Definition is_over (hs : HeaderSlices) : bool := slices.is_empty_at_final_position hs.
Definition can_proceed (hs : HeaderSlices) : bool := slices.contains_status hs status.Saved.

End refill.

(** ** extend_stage.rs *)

Module extend.

Record ExtendStage := { waiting : bool; remaining_count : Z }.

Definition new : ExtendStage := {| waiting := false; remaining_count := 0 |}.

Definition poll (st : ExtendStage) (hs : HeaderSlices) : polled * ExtendStage * HeaderSlices :=
  if wait_while_ready hs status.Saved (waiting st) (remaining_count st) then
    (Finished, {| waiting := false; remaining_count := count hs status.Saved |},
     if slices.all_in_status hs status.Saved then slices.append_slice hs else hs)
  else (Pending, {| waiting := true; remaining_count := remaining_count st |}, hs).

Definition can_proceed (hs : HeaderSlices) : bool := slices.all_in_status hs status.Saved.

End extend.

(** ** timeout_stage.rs *)

Module timeout.

(** Whether the stage has slept for its time. *)
Definition poll (elapsed : bool) (is_over : bool) : polled * bool :=
  if elapsed then (Finished, true) else (Pending, is_over).

Definition can_proceed : bool := false.

End timeout.

(** ** top_block_estimate_stage.rs *)

Module top_block.

Record NewBlockHashesMessageFromPeer := {
  block_nums : list Z;                (* the numbers of [message.ids] *)
  hashes_from_peer : option PeerId;
}.

Record TopBlockEstimateStage := {
  is_over : bool;
  peer_top_blocks : gmap Z Z;
}.

Definition new : TopBlockEstimateStage := {| is_over := false; peer_top_blocks := ∅ |}.

Definition on_message (m : NewBlockHashesMessageFromPeer) (tops : gmap Z Z) : gmap Z Z :=
  match block_nums m, hashes_from_peer m with
  | n :: nums, Some peer =>
      let nums := (n :: nums) ++ match tops !! peer with Some top => [top] | None => [] end in
      <[peer := foldl Z.max n nums]> tops
  | _, _ => tops
  end.

Inductive Arrival := NoneYet | Arrived (m : NewBlockHashesMessageFromPeer) | StreamOver | StreamFailed.

Definition poll (arrival : Arrival) (st : TopBlockEstimateStage) : polled * TopBlockEstimateStage :=
  match arrival with
  | NoneYet => (Pending, st)
  | Arrived m =>
      (Finished, {| is_over := is_over st; peer_top_blocks := on_message m (peer_top_blocks st) |})
  | StreamOver => (Finished, {| is_over := true; peer_top_blocks := peer_top_blocks st |})
  | StreamFailed => (Failed, st)
  end.

Definition average_peer_block_num (tops : gmap Z Z) : outcome (option Z) :=
  if decide (tops = ∅) then Done None
  else
    total ← foldr (fun '(_, n) acc => acc ← acc; o_unwrap (u64_checked (acc + n))) (Done 0)
              (map_to_list tops);
    Done (Some (total / Z.of_nat (size tops))).

Definition estimated_top_block_num (st : TopBlockEstimateStage) : outcome (option Z) :=
  average_peer_block_num (peer_top_blocks st).

Definition can_proceed (st : TopBlockEstimateStage) : bool := negb (is_over st).

End top_block.
