(* ===== verification/HeaderLoop.v ===== *)
(** The loop over the stages and the two phases of the downloader without forks
    (src/downloader/headers_downloader: downloader_stage_loop.rs,
    downloader_preverified.rs and downloader_linear.rs).

    A run of the loop is a list of events: which stage is polled next, and what the
    world answers to it.  Every list is allowed, so a statement for all lists holds for
    every order in which the stages are woken and for every behaviour of the peers. *)
From S2P Require Import Prelude Word EvmState Transaction Precompiled IntraBlockState Consensus MemState Rlp StagedSync Kv Stages ChainAccess.
From S2P Require Import HeaderSlices HeaderStages.
From Stdlib Require Import ZArith Lia Strings.Byte.
From stdpp Require Import base list option numbers gmap.
#[local] Open Scope Z_scope.

(** ** downloader_stage_loop.rs *)

Section stage_loop.
Context {E S : Type}.
Variable poll : E -> S -> outcome (polled * S).
Variable is_over some_stage_can_proceed : S -> bool.
Variable notify : S -> S.

(** What follows a poll; [true] is the end of the loop. *)
Definition after_poll (r : polled) (s : S) : bool * S :=
  match r with
  | Pending => (false, s)
  | Failed => (true, s)
  | Finished =>
      let can_proceed := negb (is_over s) && some_stage_can_proceed s in
      if can_proceed then (false, notify s) else (true, s)
  end.

(** [DownloaderStageLoop::run], as far as the events go. *)
Fixpoint run_loop (events : list E) (s : S) : outcome (bool * S) :=
  match events with
  | [] => Done (false, s)
  | e :: events =>
      '(r, s) ← poll e s;
      let '(stop, s) := after_poll r s in
      if stop : bool then Done (true, s) else run_loop events s
  end.

End stage_loop.

(** ** The stages of one window *)

Inductive Event :=
  | PollFetchRequest (send : GetBlockHeadersMessage -> SendResult) (clock : Z -> Z) (capacity : option bool)
  | PollFetchReceive (arrival : fetch_receive.Arrival)
  | PollRetry (now : option Z)
  | PollVerify (task : option (nat * Z))
  | PollVerifyLink
  | PollPenalize (answer : option bool)
  | PollSave
  | PollRefill
  | PollTopBlock (arrival : top_block.Arrival).

(** The stages of the phases without forks: the one that links slices belongs to the
    linear phase, the one that estimates the top block to the preverified one. *)
Record Window (T : Type -> Type) := {
  header_slices : HeaderSlices;
  fetch_request_stage : fetch_request.FetchRequestStage;
  fetch_receive_over : bool;
  retry_stage : control;
  verify_stage : verify.Control;
  verify_link_stage : option link_linear.VerifyLinkLinearStage;
  penalize_stage : penalize.Control;
  save_stage : save.SaveStage;
  refill_waiting : bool;
  top_block_stage : option top_block.TopBlockEstimateStage;
  db_transaction : HeaderTables T;
}.
Arguments header_slices {T} _.
Arguments fetch_request_stage {T} _.
Arguments fetch_receive_over {T} _.
Arguments retry_stage {T} _.
Arguments verify_stage {T} _.
Arguments verify_link_stage {T} _.
Arguments penalize_stage {T} _.
Arguments save_stage {T} _.
Arguments refill_waiting {T} _.
Arguments top_block_stage {T} _.
Arguments db_transaction {T} _.
Arguments Build_Window {T}.

Section window.
Context `{Keccak} `{RlpStream} `{HeaderSliceVerifier} {T : Type -> Type} {KV : Kv T}.
Variable config : ChainConfig.
Variable num_cpus : nat.
Variable check : HeaderSlice -> Z -> outcome bool.
Variable good : HeaderSliceStatus.

Definition poll_window (e : Event) (w : Window T) : outcome (polled * Window T) :=
  let 'Build_Window hs fr over rt vs vl pn sv rf tb t := w in
  match e with
  | PollFetchRequest send clock capacity =>
      '(r, fr, hs) ← fetch_request.poll send clock capacity fr hs;
      Done (r, Build_Window hs fr over rt vs vl pn sv rf tb t)
  | PollFetchReceive arrival =>
      let '(r, over, hs) := fetch_receive.poll arrival over hs in
      Done (r, Build_Window hs fr over rt vs vl pn sv rf tb t)
  | PollRetry now =>
      '(r, rt, hs) ← retry.poll now rt hs;
      Done (r, Build_Window hs fr over rt vs vl pn sv rf tb t)
  | PollVerify task =>
      '(r, vs, hs) ← verify.poll num_cpus check good task vs hs;
      Done (r, Build_Window hs fr over rt vs vl pn sv rf tb t)
  | PollVerifyLink =>
      match vl with
      | Some l =>
          '(r, l, hs) ← link_linear.poll config l hs;
          Done (r, Build_Window hs fr over rt vs (Some l) pn sv rf tb t)
      | None => Done (Pending, w)
      end
  | PollPenalize answer =>
      '(r, pn, hs) ← penalize.poll answer pn hs;
      Done (r, Build_Window hs fr over rt vs vl pn sv rf tb t)
  | PollSave =>
      '(r, sv, hs, t) ← save.poll sv hs t;
      Done (r, Build_Window hs fr over rt vs vl pn sv rf tb t)
  | PollRefill =>
      let '(r, rf, hs) := refill.poll rf hs in
      Done (r, Build_Window hs fr over rt vs vl pn sv rf tb t)
  | PollTopBlock arrival =>
      match tb with
      | Some st =>
          let '(r, st) := top_block.poll arrival st in
          Done (r, Build_Window hs fr over rt vs vl pn sv rf (Some st) t)
      | None => Done (Pending, w)
      end
  end.

Definition window_is_over (w : Window T) : bool := refill.is_over (header_slices w).

Definition window_can_proceed (w : Window T) : bool :=
  let hs := header_slices w in
  fetch_request.can_proceed hs || fetch_receive.can_proceed (fetch_receive_over w) hs ||
  retry.can_proceed || verify.can_proceed hs ||
  match verify_link_stage w with Some _ => link_linear.can_proceed hs | None => false end ||
  penalize.can_proceed hs || save.can_proceed (save_stage w) hs || refill.can_proceed hs ||
  match top_block_stage w with Some st => top_block.can_proceed st | None => false end.

Definition notify_window (w : Window T) : Window T :=
  let 'Build_Window hs fr over rt vs vl pn sv rf tb t := w in
  Build_Window (slices.notify_status_watchers hs) fr over rt vs vl pn sv rf tb t.

Definition run_window : list Event -> Window T -> outcome (bool * Window T) :=
  run_loop poll_window window_is_over window_can_proceed notify_window.

End window.

(** ** downloader_preverified.rs *)

(** The report of a phase. *)
Record PhaseReport := {
  loaded_count : Z;
  report_final_block_num : Z;
  report_target_final_block_num : Z;
  report_estimated_top_block_num : option Z;
}.

(** What a phase ends with: a report and the tables, or a loop that goes on. *)
Abbreviation phase_result T := (outcome (option (PhaseReport * HeaderTables T))).

Section phases.
Context `{Keccak} `{RlpStream} `{HeaderSliceVerifier} {T : Type -> Type} {KV : Kv T}.
Variables (size_of_header : Z) (num_cpus : nat).

(** The part of the range that one run may load. *)
Definition phase_final (start target max_blocks_count : Z) : outcome Z :=
  limit ← o_unwrap (u64_checked (start + max_blocks_count));
  Done (Z.min target (align_block_num_to_slice_start limit)).

Definition nothing_loaded (start target : Z) (top : option Z) : PhaseReport :=
  {| loaded_count := 0; report_final_block_num := start; report_target_final_block_num := target;
     report_estimated_top_block_num := top |}.

(** [loaded_count] of a window at the end of the loop. *)
Definition loaded_report (hs : HeaderSlices) (start target : Z) (top : option Z) : outcome PhaseReport :=
  n ← o_unwrap (unsigned_sub (slices.min_block_num hs) start);
  Done {| loaded_count := n; report_final_block_num := slices.min_block_num hs;
          report_target_final_block_num := target; report_estimated_top_block_num := top |}.

Definition preverified_target (preverified : PreverifiedHashesConfig) : Z :=
  match hashes preverified with
  | [] => 0
  | l => (Z.of_nat (length l) - 1) * HEADER_SLICE_SIZE
  end.

Definition preverified_window (hs : HeaderSlices) (t : HeaderTables T) : Window T :=
  Build_Window hs (fetch_request.new (HEADER_SLICE_SIZE + 1)) false (Entered false)
    (verify.Wait false) None (penalize.Wait false) (save.new save.Monotonic true) false
    (Some top_block.new) t.

Definition preverified_run (preverified : PreverifiedHashesConfig) (config : ChainConfig)
    (mem_limit : Z) (events : list Event) (start max_blocks_count : Z) (t : HeaderTables T)
    : phase_result T :=
  let start := align_block_num_to_slice_start start in
  let target := preverified_target preverified in
  final ← phase_final start target max_blocks_count;
  if final <=? start then Done (Some (nothing_loaded start target None, t))
  else
    hs ← slices.new size_of_header mem_limit start final;
    '(stopped, w) ← run_window config num_cpus (verify.verify_slice_preverified preverified)
        status.Verified events (preverified_window hs t);
    if stopped : bool then
      top ← match top_block_stage w with
            | Some st => top_block.estimated_top_block_num st
            | None => Done None
            end;
      report ← loaded_report (header_slices w) start target top;
      Done (Some (report, db_transaction w))
    else Done None.

(** ** downloader_linear.rs *)

Definition trusted_len : Z := 90000.

(** [estimate_top_block_num]: the messages are those that arrive until there is an
    estimate or the stream is over. *)
Fixpoint estimate_top_block_num (start : Z) (arrivals : list top_block.Arrival)
    (st : top_block.TopBlockEstimateStage) : outcome (option Z) :=
  top ← top_block.estimated_top_block_num st;
  if top_block.is_over st || bool_decide (is_Some top) then Done (Some (default start top))
  else
    match arrivals with
    | [] => Done None
    | a :: arrivals =>
        let '(r, st) := top_block.poll a st in
        match r with
        | Failed => Error
        | _ => estimate_top_block_num start arrivals st
        end
    end.

Definition linear_target (top : Z) : Z :=
  if trusted_len <? top then align_block_num_to_slice_start (top - trusted_len) else 0.

(** The parent of the first block of a window, which must have been saved. *)
Definition start_block_parent (start : Z) (t : HeaderTables T) : outcome (option cached.BlockHeader) :=
  if 0 <? start then
    parent ← o_ok_or (save.load_canonical_header_by_num (start - 1) t);
    Done (Some parent)
  else Done None.

Definition linear_window (hs : HeaderSlices) (link : link_linear.VerifyLinkLinearStage)
    (t : HeaderTables T) : Window T :=
  Build_Window hs (fetch_request.new HEADER_SLICE_SIZE) false (Entered false)
    (verify.Wait false) (Some link) (penalize.Wait false) (save.new save.Monotonic true) false None t.

Definition linear_run (config : ChainConfig) (mem_limit : Z) (arrivals : list top_block.Arrival)
    (events : list Event) (start max_blocks_count : Z) (top : option Z) (t : HeaderTables T)
    : phase_result T :=
  if negb (is_block_num_aligned_to_slice_start start) then Error else
  top ← match top with
        | Some n => Done (Some n)
        | None => estimate_top_block_num start arrivals top_block.new
        end;
  match top with
  | None => Done None
  | Some top =>
      let target := linear_target top in
      final ← phase_final start target max_blocks_count;
      if final <=? start then Done (Some (nothing_loaded start target (Some top), t))
      else
        parent ← start_block_parent start t;
        hs ← slices.new size_of_header mem_limit start final;
        link ← link_linear.new hs parent status.Invalid;
        '(stopped, w) ← run_window config num_cpus (verify.verify_slice_internally config)
            status.VerifiedInternally events (linear_window hs link t);
        if stopped : bool then
          report ← loaded_report (header_slices w) start target (Some top);
          Done (Some (report, db_transaction w))
        else Done None
  end.

End phases.
