(* ===== verification/HeaderSlicesSpec.v ===== *)
(** The window of header slices: references are unique, the counters of the statuses
    count, and each operation on the deque keeps both. *)
From S2P Require Import Prelude Word EvmState Consensus Rlp StagedSync Stages HeaderSlices.
From Stdlib Require Import ZArith Lia Strings.Byte.
From stdpp Require Import base list option numbers gmap.
#[local] Open Scope Z_scope.

Abbreviation entry := (nat * HeaderSlice)%type.

(** ** Counting *)

(** One if a condition holds. *)
Definition ind (P : Prop) `{Decision P} : Z := if decide P then 1 else 0.

Lemma in_status_nil st : in_status st [] = 0.
Proof. done. Qed.

Lemma in_status_cons st (e : entry) l : in_status st (e :: l) = ind (slice_status e.2 = st) + in_status st l.
Proof. unfold in_status, ind. rewrite filter_cons. case_decide; cbn [length]; lia. Qed.

Lemma in_status_app st (l k : list entry) : in_status st (l ++ k) = in_status st l + in_status st k.
Proof. unfold in_status. rewrite filter_app, length_app. lia. Qed.

Lemma in_status_bound st (l : list entry) : 0 <= in_status st l <= Z.of_nat (length l).
Proof.
  unfold in_status. pose proof (length_filter (fun e : entry => slice_status e.2 = st) l). lia.
Qed.

#[export] Hint Rewrite in_status_nil in_status_cons in_status_app : mz_rw.

Lemma in_status_pos st (l : list entry) : 0 < in_status st l <-> exists e, e ∈ l /\ slice_status e.2 = st.
Proof.
  induction l as [|e l IH]; autorewrite with mz_rw.
  - split; [lia|]. by intros (? & ?%elem_of_nil & _).
  - pose proof (in_status_bound st l). unfold ind. case_decide as Hd.
    + split; [|lia]. intros _. exists e. split; [by left|done].
    + rewrite Z.add_0_l, IH. setoid_rewrite elem_of_cons. naive_solver.
Qed.

(** The counters agree with a list, and [extra] counts what is elsewhere. *)
Definition counts (c : Counts) (l : list entry) (extra : Counts) : Prop :=
  forall st, c st = in_status st l + extra st.

Definition nothing : Counts := fun _ => 0.

(** A counter after a slice has moved from one status to another. *)
Definition moved (old new : HeaderSliceStatus) (c : Counts) : Counts :=
  fun st => wrap 64 (c st - ind (old = st) + ind (new = st)).

Lemma set_slice_status_moved s st c :
  (forall x, uint 64 (c x)) ->
  (slices.set_slice_status s st c).1 = with_status s st /\
  forall x, (slices.set_slice_status s st c).2 x = moved (slice_status s) st c x.
Proof.
  intros Hc. unfold slices.set_slice_status. case_decide as Hd; cbn [fst snd].
  - subst st. split; [by destruct s|]. intros x. unfold moved. rewrite Z.sub_add. by rewrite wrap_small.
  - split; [done|]. intros x. unfold moved, fetch_add, fetch_sub, ind.
    repeat case_decide; subst; try done; rewrite ?Z.sub_0_r, ?Z.add_0_r; try done.
    by rewrite wrap_small.
Qed.

Lemma make_watches_counts (l : list entry) : counts (make_state_watches_from_slices l) l nothing.
Proof.
  unfold make_state_watches_from_slices.
  assert (forall (l : list entry) c st,
    foldl (fun c e => fun st => if decide (st = slice_status e.2) then c st + 1 else c st) c l st =
    in_status st l + c st) as Hf.
  { clear. induction l as [|e l IH]; intros c st; cbn [foldl]; [done|].
    rewrite IH. autorewrite with mz_rw. unfold ind. repeat case_decide; subst; try done; lia. }
  intros st. apply Hf.
Qed.

(** ** Well-formed windows *)

Record slices_wf (hs : HeaderSlices) : Prop := {
  wf_nodup : NoDup (slices hs ++ detached hs).*1;
  wf_ids : forall id, id ∈ (slices hs ++ detached hs).*1 -> (id < next_id hs)%nat;
  wf_count : counts (count hs) (slices hs) nothing;
  wf_length : Z.of_nat (length (slices hs)) < 2 ^ 64;
}.

Lemma wf_uint hs st : slices_wf hs -> uint 64 (count hs st).
Proof.
  intros [_ _ Hc Hl]. rewrite Hc. pose proof (in_status_bound st (slices hs)).
  unfold nothing, uint. lia.
Qed.

Lemma find_id_app_l id (l k : list entry) s : NoDup (l ++ k).*1 -> (id, s) ∈ l ++ k ->
  slices.find_id id (l ++ k) = Some s.
Proof.
  intros Hn Hin. unfold slices.find_id. revert Hn Hin. generalize (l ++ k). clear.
  intros l. induction l as [|[i x] l IH]; intros Hn Hin; [by apply elem_of_nil in Hin|].
  rewrite filter_cons. cbn [fst]. rewrite fmap_cons in Hn. apply NoDup_cons in Hn as [Hni Hn].
  apply elem_of_cons in Hin as [[= <- <-]|Hin].
  - by rewrite decide_True.
  - rewrite decide_False; [by apply IH|]. intros ->. apply Hni.
    by apply (list_elem_of_fmap_2 fst _ (id, s)).
Qed.

Lemma read_deque hs i id s : slices_wf hs -> slices hs !! i = Some (id, s) ->
  slices.read hs id = Some s.
Proof.
  intros Hw Hi. apply find_id_app_l; [apply Hw|]. apply elem_of_app. left.
  by eapply list_elem_of_lookup_2.
Qed.

Lemma put_id_absent id s (l : list entry) : id ∉ l.*1 -> slices.put_id id s l = l.
Proof.
  intros Hn. unfold slices.put_id. rewrite <- (list_fmap_id l) at 2. apply list_fmap_ext.
  intros i e He. case_decide as Hd; [|done]. destruct Hn. rewrite <- Hd.
  apply list_elem_of_fmap_2. by eapply list_elem_of_lookup_2.
Qed.

Lemma put_id_insert id s s0 (l : list entry) i : NoDup l.*1 -> l !! i = Some (id, s0) ->
  slices.put_id id s l = <[i := (id, s)]> l.
Proof.
  revert i. induction l as [|[j x] l IH]; intros i Hn Hi; [done|].
  rewrite fmap_cons in Hn. apply NoDup_cons in Hn as [Hni Hn]. unfold slices.put_id.
  rewrite fmap_cons. cbn [fst]. destruct i as [|i]; cbn in Hi.
  - injection Hi as -> ->. rewrite decide_True by done. cbn. f_equal. by apply put_id_absent.
  - rewrite decide_False; [cbn; f_equal; by apply IH|]. intros ->. apply Hni.
    apply (list_elem_of_fmap_2 fst _ (id, s0)). by eapply list_elem_of_lookup_2.
Qed.

Lemma nodup_parts hs : slices_wf hs -> NoDup (slices hs).*1 /\
  (forall id, id ∈ (slices hs).*1 -> id ∉ (detached hs).*1).
Proof.
  intros [Hn _ _ _]. rewrite fmap_app in Hn. apply NoDup_app in Hn as (? & ? & _). done.
Qed.

Lemma write_deque hs i id s s' : slices_wf hs -> slices hs !! i = Some (id, s) ->
  slices.write hs id s' = slices.with_deque hs (<[i := (id, s')]> (slices hs)).
Proof.
  intros Hw Hi. destruct (nodup_parts hs Hw) as [Hn Hd]. unfold slices.write.
  rewrite (put_id_insert _ _ s _ i) by done. rewrite put_id_absent; [by destruct hs|].
  apply Hd. apply (list_elem_of_fmap_2 fst _ (id, s)). by eapply list_elem_of_lookup_2.
Qed.

(** A window whose deque and counters are others. *)
Definition rebuilt (hs : HeaderSlices) (l : list entry) (c : Counts) : HeaderSlices :=
  slices.with_count (slices.with_deque hs l) c.

Lemma fmap_fst_insert (l : list entry) i id s s' : l !! i = Some (id, s) ->
  (<[i := (id, s')]> l).*1 = l.*1.
Proof.
  intros Hi. rewrite list_fmap_insert. apply list_insert_id. cbn. by rewrite list_lookup_fmap, Hi.
Qed.

Lemma in_status_insert st (l : list entry) i id s s' : l !! i = Some (id, s) ->
  in_status st (<[i := (id, s')]> l) =
  in_status st l - ind (slice_status s = st) + ind (slice_status s' = st).
Proof.
  revert i. induction l as [|e l IH]; intros i Hi; [done|]. destruct i as [|i]; cbn in *.
  - injection Hi as ->. autorewrite with mz_rw. cbn [snd]. lia.
  - autorewrite with mz_rw. rewrite IH by done. lia.
Qed.

(** Replacing the deque by one with the same references and counters that count. *)
Lemma wf_rebuilt hs l c : slices_wf hs -> l.*1 = (slices hs).*1 -> counts c l nothing ->
  slices_wf (rebuilt hs l c).
Proof.
  intros [Hn Hi Hc Hl] Hids Hcl. split; cbn.
  - by rewrite fmap_app, Hids, <- fmap_app.
  - intros id. rewrite fmap_app, Hids, <- fmap_app. apply Hi.
  - done.
  - rewrite <- (length_fmap fst), Hids, length_fmap. done.
Qed.

Lemma moved_counts c (l : list entry) i id s s' : counts c l nothing ->
  Z.of_nat (length l) < 2 ^ 64 -> l !! i = Some (id, s) ->
  counts (moved (slice_status s) (slice_status s') c) (<[i := (id, s')]> l) nothing.
Proof.
  intros Hc Hl Hi st. unfold moved. rewrite Hc, (in_status_insert _ _ _ _ s) by done.
  unfold nothing. rewrite !Z.add_0_r.
  rewrite wrap_small; [done|].
  rewrite <- (in_status_insert _ _ _ id s s') by done.
  pose proof (in_status_bound st (<[i := (id, s')]> l)) as Hb. rewrite length_insert in Hb.
  unfold uint. lia.
Qed.

(** Writing a slice and moving it to its new status. *)
Lemma write_status hs i id s s' st : slices_wf hs -> slices hs !! i = Some (id, s) ->
  slice_status s' = slice_status s ->
  let '(s'', c) := slices.set_slice_status s' st (count hs) in
  exists c', slices.with_count (slices.write hs id s'') c =
    rebuilt hs (<[i := (id, with_status s' st)]> (slices hs)) c' /\
  slices_wf (rebuilt hs (<[i := (id, with_status s' st)]> (slices hs)) c').
Proof.
  intros Hw Hi Hs. pose proof (set_slice_status_moved s' st (count hs)) as Hm.
  destruct (slices.set_slice_status s' st (count hs)) as [s'' c].
  destruct Hm as [Hs'' Hc]; [intros; by apply wf_uint|]. cbn [fst snd] in Hs'', Hc.
  exists c. rewrite (write_deque _ i _ s), Hs'' by done. split; [done|].
  apply wf_rebuilt; [done|by eapply fmap_fst_insert|].
  intros x. rewrite Hc, Hs. apply (moved_counts _ _ i id s (with_status s' st)); [apply Hw..|done].
Qed.

Lemma set_status_of_deque hs i id s st : slices_wf hs -> slices hs !! i = Some (id, s) ->
  exists c, slices.set_status_of hs id st =
    rebuilt hs (<[i := (id, with_status s st)]> (slices hs)) c /\
  slices_wf (slices.set_status_of hs id st).
Proof.
  intros Hw Hi. unfold slices.set_status_of. rewrite (read_deque _ i _ s) by done.
  pose proof (write_status hs i id s s st Hw Hi eq_refl) as Hs.
  destruct (slices.set_slice_status s st (count hs)) as [s' c0].
  destruct Hs as (c & -> & Hwf). by exists c.
Qed.

(** ** Folds over the window *)

(** What one step of a fold may do: the slice stays in a relation to what it was, and
    the counters follow its status. *)
Definition fold_step (R : HeaderSlice -> HeaderSlice -> Prop) {A}
    (f : HeaderSlice -> Counts -> A -> outcome (HeaderSlice * Counts * A * bool)) : Prop :=
  forall s c a s' c' a' b, (forall x, uint 64 (c x)) -> f s c a = Done (s', c', a', b) ->
  R s s' /\ forall x, c' x = moved (slice_status s) (slice_status s') c x.

(** Lists of slices with the same references, related one by one. *)
Definition related (R : HeaderSlice -> HeaderSlice -> Prop) : list entry -> list entry -> Prop :=
  Forall2 (fun e e' => e.1 = e'.1 /\ R e.2 e'.2).

Lemma related_refl R `{!Reflexive R} l : related R l l.
Proof. apply Forall_Forall2_diag, Forall_forall. done. Qed.

Lemma related_ids R l l' : related R l l' -> l'.*1 = l.*1.
Proof. induction 1 as [|e e' l l' [He _] _ IH]; [done|]. by rewrite !fmap_cons, He, IH. Qed.

Lemma related_insert (R : HeaderSlice -> HeaderSlice -> Prop) `{!Reflexive R} l i id s s' :
  l !! i = Some (id, s) -> R s s' -> related R l (<[i := (id, s')]> l).
Proof.
  intros Hi Hr. rewrite <- (list_insert_id l i (id, s)) at 1 by done.
  apply Forall2_insert; [by apply related_refl|done].
Qed.

Lemma related_lookup R l l' i e : related R l l' -> l !! i = Some e ->
  exists s', l' !! i = Some (e.1, s') /\ R e.2 s'.
Proof.
  intros Hr Hi. destruct (Forall2_lookup_l _ _ _ _ _ Hr Hi) as ([j s'] & Hj & Hid & Hrs).
  cbn in *. subst. eauto.
Qed.

Lemma fold_slices_related (R : HeaderSlice -> HeaderSlice -> Prop) {A} f l : Reflexive R ->
  @fold_step R A f -> forall c a l' c' a' extra,
  counts c l extra -> (forall x, 0 <= extra x) ->
  (forall x, Z.of_nat (length l) + extra x < 2 ^ 64) ->
  slices.fold_slices f l c a = Done (l', c', a') ->
  related R l l' /\ counts c' l' extra.
Proof.
  intros Hrefl Hf. induction l as [|[id s] l IH]; intros c a l' c' a' extra Hc Hpos Hlen Hr; cbn in Hr.
  { injection Hr as <- <- <-. split; [constructor|done]. }
  destruct (f s c a) as [[[[s1 c1] a1] b]| |] eqn:Ef; cbn in Hr; try done.
  assert (forall x, uint 64 (c x)) as Hu.
  { intros x. rewrite Hc. pose proof (in_status_bound x ((id, s) :: l)). specialize (Hpos x).
    specialize (Hlen x). unfold uint. lia. }
  destruct (Hf _ _ _ _ _ _ _ Hu Ef) as [Hrs Hm].
  assert (forall x, c1 x = ind (slice_status s1 = x) + in_status x l + extra x) as Hc1.
  { intros x. rewrite Hm. unfold moved. rewrite Hc. autorewrite with mz_rw. cbn [snd].
    pose proof (in_status_bound x l). specialize (Hpos x). specialize (Hlen x). cbn [length] in Hlen.
    replace (ind (slice_status s = x) + in_status x l + extra x - ind (slice_status s = x) +
      ind (slice_status s1 = x)) with (ind (slice_status s1 = x) + in_status x l + extra x) by lia.
    apply wrap_small. unfold uint, ind. case_decide; lia. }
  destruct b.
  - destruct (slices.fold_slices f l c1 a1) as [[[l2 c2] a2]| |] eqn:El; cbn in Hr; try done.
    injection Hr as <- <- <-.
    destruct (IH c1 a1 l2 c2 a2 (fun x => ind (slice_status s1 = x) + extra x)) as [Hrl Hcl]; [..|done|].
    + intros x. rewrite Hc1. lia.
    + intros x. specialize (Hpos x). unfold ind. case_decide; lia.
    + intros x. specialize (Hlen x). cbn [length] in Hlen. unfold ind. case_decide; lia.
    + split; [by constructor|]. intros x. rewrite Hcl. autorewrite with mz_rw. cbn [snd]. lia.
  - injection Hr as <- <- <-. split; [constructor; [done|by apply related_refl]|].
    intros x. rewrite Hc1. autorewrite with mz_rw. cbn [snd]. lia.
Qed.

Lemma try_fold_related (R : HeaderSlice -> HeaderSlice -> Prop) {A} f hs a hs' a' :
  Reflexive R -> @fold_step R A f -> slices_wf hs -> slices.try_fold f hs a = Done (hs', a') ->
  exists l c, hs' = rebuilt hs l c /\ related R (slices hs) l /\ slices_wf hs'.
Proof.
  intros Hrefl Hf Hw Hr. unfold slices.try_fold in Hr.
  destruct (slices.fold_slices f (slices hs) (count hs) a) as [[[l c] a1]| |] eqn:El; cbn in Hr; try done.
  injection Hr as <- <-. exists l, c.
  pose proof (wf_length _ Hw) as Hl.
  destruct (fold_slices_related R f (slices hs) Hrefl Hf (count hs) a l c a1 nothing) as [Hrl Hcl];
    [apply Hw|done|by intros; unfold nothing; lia|done|].
  split_and!; [done|done|]. apply wf_rebuilt; [done|by eapply related_ids|done].
Qed.

(** ** Searching *)

Lemma find_where_lookup p (l : list entry) id : slices.find_where p l = Some id ->
  exists i s, l !! i = Some (id, s) /\ p s = true.
Proof.
  unfold slices.find_where. intros Hf. apply fmap_Some in Hf as ([id' s] & Hh & ->). cbn.
  apply head_Some_elem_of, list_elem_of_filter in Hh as [Hp [i Hi]%list_elem_of_lookup]. eauto.
Qed.

Lemma find_where_none p (l : list entry) : slices.find_where p l = None ->
  forall e, e ∈ l -> p e.2 = false.
Proof.
  unfold slices.find_where. intros Hf e He. destruct (p e.2) eqn:Ep; [|done].
  apply fmap_None, head_None in Hf.
  assert (e ∈ filter (fun e => p e.2 = true) l) as Hin by (by apply list_elem_of_filter).
  rewrite Hf in Hin. by apply elem_of_nil in Hin.
Qed.

Lemma batch_of_spec st n batch (l : list entry) id :
  id ∈ slices.batch_of st n batch l -> id ∈ batch \/ exists s, (id, s) ∈ l /\ slice_status s = st.
Proof.
  revert batch. induction l as [|[j s] l IH]; intros batch Hin; cbn in Hin; [by left|].
  assert (forall b, id ∈ slices.batch_of st n b l -> id ∈ b \/
    exists s0, (id, s0) ∈ (j, s) :: l /\ slice_status s0 = st) as IH'.
  { intros b Hb. destruct (IH b Hb) as [|(s' & ? & ?)]; [by left|]. right. exists s'.
    split; [by right|done]. }
  case_decide as Hst; [|by apply IH'].
  assert (id ∈ batch ++ [j] -> id ∈ batch \/ exists s0, (id, s0) ∈ (j, s) :: l /\ slice_status s0 = st)
    as Hnew.
  { intros [ | ->%list_elem_of_singleton]%elem_of_app; [by left|]. right. exists s. split; [by left|done]. }
  case_decide; [by apply Hnew|]. destruct (IH' _ Hin) as [Hb|?]; [by apply Hnew|by right].
Qed.

Lemma batch_of_nodup st n batch (l : list entry) : NoDup batch -> NoDup l.*1 ->
  (forall id, id ∈ batch -> id ∉ l.*1) -> NoDup (slices.batch_of st n batch l).
Proof.
  revert batch. induction l as [|[j s] l IH]; intros batch Hb Hl Hd; cbn; [done|].
  rewrite fmap_cons in Hl. apply NoDup_cons in Hl as [Hj Hl]. cbn in Hj.
  assert (NoDup (batch ++ [j])) as Hb'.
  { apply NoDup_app. split_and!; [done| |apply NoDup_singleton].
    intros id Hid ->%list_elem_of_singleton. apply (Hd j Hid). rewrite fmap_cons. by left. }
  repeat case_decide; [done| |]; apply IH; try done.
  - intros id [Hid| ->%list_elem_of_singleton]%elem_of_app; [|done].
    intros Hin. apply (Hd id Hid). rewrite fmap_cons. by right.
  - intros id Hid Hin. apply (Hd id Hid). rewrite fmap_cons. by right.
Qed.

Lemma elem_of_deque hs id s : (id, s) ∈ slices hs -> exists i, slices hs !! i = Some (id, s).
Proof. by intros [i Hi]%list_elem_of_lookup; exists i. Qed.

Lemma deque_unique hs id s s' : slices_wf hs -> (id, s) ∈ slices hs -> (id, s') ∈ slices hs -> s = s'.
Proof.
  intros Hw [i Hi]%elem_of_deque [j Hj]%elem_of_deque.
  pose proof (read_deque _ _ _ _ Hw Hi). pose proof (read_deque _ _ _ _ Hw Hj). congruence.
Qed.

(** ** Operations on the deque *)

Lemma filter_status_split st (l : list entry) x :
  in_status x (filter (fun e : entry => slice_status e.2 <> st) l) =
  in_status x l - (if decide (x = st) then in_status st l else 0).
Proof.
  induction l as [|e l IH]; [by case_decide|]. rewrite filter_cons. repeat case_decide;
    autorewrite with mz_rw; rewrite IH; subst; rewrite ?decide_True, ?decide_False by done;
    unfold ind; repeat case_decide; subst; try done; lia.
Qed.

Lemma remove_wf st hs : slices_wf hs -> slices_wf (slices.remove st hs).
Proof.
  intros Hw. destruct Hw as [Hn Hi Hc Hl]. split; cbn.
  - eapply NoDup_Permutation_proper; [|exact Hn]. apply fmap_Permutation. rewrite app_assoc.
    apply Permutation_app_tail. rewrite Permutation_app_comm. 
    apply (filter_app_complement (fun e : entry => slice_status e.2 = st)).
  - intros id Hid. apply Hi. revert Hid. rewrite !fmap_app, !elem_of_app.
    intros [H|[H|H]]; [left|left|by right]; apply list_elem_of_fmap in H as (e & -> & He);
      apply list_elem_of_filter in He as [_ He]; by apply list_elem_of_fmap_2.
  - intros x. rewrite filter_status_split. unfold fetch_sub, nothing.
    fold (in_status st (slices hs)). rewrite (Hc x). unfold nothing. case_decide; [subst|lia].
    rewrite !Z.add_0_r, Z.sub_diag. by rewrite wrap_small.
  - pose proof (length_filter (fun e : entry => slice_status e.2 <> st) (slices hs)). lia.
Qed.

Lemma push_back_wf s n hs : slices_wf hs -> Z.of_nat (length (slices hs)) + 1 < 2 ^ 64 ->
  slice_status s = status.Empty ->
  slices_wf (slices.with_count (slices.with_max_block_num (slices.push_back s hs) n)
               (fetch_add status.Empty 1 (count hs))).
Proof.
  intros [Hn Hi Hc Hl] Hlen Hs. split; cbn.
  - rewrite <- app_assoc, Permutation_app_comm. cbn.
    rewrite (Permutation_app_comm (detached hs)). constructor; [|done].
    intros H%Hi. lia.
  - intros id. rewrite <- app_assoc, !fmap_app, !elem_of_app. intros [H|[H|H]].
    + specialize (Hi id). rewrite fmap_app, elem_of_app in Hi. naive_solver lia.
    + cbn in H. apply list_elem_of_singleton in H as ->. lia.
    + specialize (Hi id). rewrite fmap_app, elem_of_app in Hi. naive_solver lia.
  - intros x. unfold fetch_add, nothing. rewrite (Hc x). autorewrite with mz_rw. cbn [snd]. unfold nothing, ind.
    rewrite Hs. pose proof (in_status_bound x (slices hs)).
    repeat case_decide; subst; try done; [|lia]. rewrite wrap_small; [lia|]. unfold uint. lia.
  - rewrite length_app. cbn. lia.
Qed.

(** ** The window as a range of blocks *)

(** The slices follow one another from a block on. *)
Definition contiguous (base : Z) (l : list entry) : Prop :=
  forall i e, l !! i = Some e -> start_block_num e.2 = base + HEADER_SLICE_SIZE * Z.of_nat i.

Lemma contiguous_app base l k : contiguous base (l ++ k) <->
  contiguous base l /\ contiguous (base + HEADER_SLICE_SIZE * Z.of_nat (length l)) k.
Proof.
  unfold contiguous, HEADER_SLICE_SIZE. split.
  - intros Hc. split; intros i e Hi.
    + apply Hc. by apply lookup_app_l_Some.
    + rewrite (Hc (length l + i)%nat e); [lia|]. rewrite lookup_app_r by lia.
      by replace (length l + i - length l)%nat with i by lia.
  - intros [Hl Hk] i e [Hi|[Hle Hi]]%lookup_app_Some; [by apply Hl|]. rewrite (Hk _ _ Hi). lia.
Qed.

Lemma related_contiguous R base l l' : (forall s s', R s s' -> start_block_num s' = start_block_num s) ->
  related R l l' -> contiguous base l -> contiguous base l'.
Proof.
  intros Hs Hr Hc i e' Hi. destruct (Forall2_lookup_r _ _ _ _ _ Hr Hi) as (e & Hj & _ & Hrs).
  rewrite (Hs _ _ Hrs). by apply Hc.
Qed.

(** Where the window stands: it begins at [base] and ends at [max_block_num], which does
    not pass the last block of the phase. *)
Record window_at (base : Z) (hs : HeaderSlices) : Prop := {
  at_base : 0 <= base;
  at_slices : contiguous base (slices hs);
  at_max : max_block_num hs = base + HEADER_SLICE_SIZE * Z.of_nat (length (slices hs));
  at_final : (final_block_num hs - base) mod HEADER_SLICE_SIZE = 0;
  at_bound : max_block_num hs <= final_block_num hs < 2 ^ 64;
}.

Lemma refill_loop_spec rounds : forall n hs hs' n',
  0 <= max_block_num hs <= final_block_num hs -> final_block_num hs < 2 ^ 64 ->
  (final_block_num hs - max_block_num hs) mod HEADER_SLICE_SIZE = 0 ->
  slices.refill_loop rounds n hs = (hs', n') ->
  exists new,
    hs' = {| slices := slices hs ++ new; detached := detached hs;
             next_id := next_id hs + length new; max_slices := max_slices hs;
             max_block_num := max_block_num hs + HEADER_SLICE_SIZE * Z.of_nat (length new);
             final_block_num := final_block_num hs; count := count hs; sent := sent hs |} /\
    n' = n + Z.of_nat (length new) /\
    new.*1 = seq (next_id hs) (length new) /\ Forall (fun e => e.2 = fresh_slice (start_block_num e.2)) new /\
    contiguous (max_block_num hs) new /\ max_block_num hs' <= final_block_num hs /\
    (length new <= rounds)%nat /\ (length new = rounds \/ max_block_num hs' = final_block_num hs).
Proof.
  unfold HEADER_SLICE_SIZE. induction rounds as [|rounds IH]; intros n hs hs' n' Hm Hf Ha Hr; cbn in Hr.
  { injection Hr as <- <-. exists []. destruct hs. cbn in *. rewrite !app_nil_r, Nat.add_0_r, !Z.add_0_r.
    split_and!; first [done|lia|by constructor|by left|by intros ???]. }
  destruct (Z.leb_spec (final_block_num hs) (max_block_num hs)) as [Hle|Hlt].
  { injection Hr as <- <-. exists []. destruct hs. cbn in *. rewrite !app_nil_r, Nat.add_0_r, !Z.add_0_r.
    split_and!; first [done|lia|by constructor|right; lia|by intros ???]. }
  assert (max_block_num hs + 192 <= final_block_num hs) as Hnext.
  { apply Z.mod_divide in Ha as [q Hq]; lia. }
  unfold HEADER_SLICE_SIZE in Hr.
  rewrite wrap_small in Hr by (unfold uint; lia).
  apply IH in Hr as (new & -> & -> & Hids & Hnew & Hc & Hb & Hlen & Hend); cbn in *; [|lia|done|].
  2: { replace (final_block_num hs - (max_block_num hs + 192))
         with (final_block_num hs - max_block_num hs + (-1) * 192) by lia. by rewrite Z_mod_plus_full. }
  exists ((next_id hs, fresh_slice (max_block_num hs)) :: new). cbn.
  split_and!.
  - f_equal; [by rewrite <- app_assoc|lia|lia].
  - lia.
  - by rewrite Hids.
  - by constructor.
  - intros [|i] e Hi; cbn in Hi.
    + injection Hi as <-. cbn. lia.
    + rewrite (Hc i e Hi). unfold HEADER_SLICE_SIZE. lia.
  - lia.
  - lia.
  - destruct Hend; [left|right]; lia.
Qed.

Lemma in_status_fresh (l : list entry) st :
  Forall (fun e => e.2 = fresh_slice (start_block_num e.2)) l ->
  in_status st l = if decide (st = status.Empty) then Z.of_nat (length l) else 0.
Proof.
  induction 1 as [|e l He Hl IH]; [by case_decide|]. autorewrite with mz_rw. rewrite IH, He. cbn.
  unfold ind. repeat case_decide; subst; try done; lia.
Qed.

(** Refilling keeps what is in the window and appends empty slices, as many as there is
    room for, up to the last block. *)
Lemma refill_spec base hs : slices_wf hs -> window_at base hs -> max_slices hs < 2 ^ 64 ->
  exists new,
    slices (slices.refill hs) = slices hs ++ new /\
    Forall (fun e => e.2 = fresh_slice (start_block_num e.2)) new /\
    window_at base (slices.refill hs) /\ slices_wf (slices.refill hs) /\
    final_block_num (slices.refill hs) = final_block_num hs /\
    max_slices (slices.refill hs) = max_slices hs /\
    (max_block_num (slices.refill hs) = final_block_num hs \/
     max_slices hs <= Z.of_nat (length (slices hs ++ new))).
Proof.
  intros Hw [Hb Hc Hm Hf Hbd] Hms. unfold slices.refill.
  destruct (slices.refill_loop _ 0 hs) as [hs' n] eqn:Er.
  apply refill_loop_spec in Er as (new & -> & -> & Hids & Hnew & Hcn & Hmb & Hlen & Hend); cbn in *.
  2: unfold HEADER_SLICE_SIZE in Hm; lia.
  2: lia.
  2: { rewrite Hm. replace (final_block_num hs - (base + HEADER_SLICE_SIZE * Z.of_nat (length (slices hs))))
         with (final_block_num hs - base + (- Z.of_nat (length (slices hs))) * HEADER_SLICE_SIZE) by lia.
       by rewrite Z_mod_plus_full. }
  assert (Z.of_nat (length (slices hs ++ new)) < 2 ^ 64) as Hlen64.
  { pose proof (wf_length _ Hw). rewrite length_app. lia. }
  exists new. split_and!; try done.
  - split; cbn; [done|..].
    + apply contiguous_app. by rewrite <- Hm.
    + rewrite Hm, length_app. lia.
    + done.
    + lia.
  - destruct Hw as [Hn Hi Hcnt Hl]. split; cbn; [| |  |done].
    + rewrite <- app_assoc, (Permutation_app_comm new), app_assoc, fmap_app, Hids. apply NoDup_app.
      split_and!; [done| |apply NoDup_seq]. intros id Hid%Hi Hin%elem_of_seq. lia.
    + intros id. rewrite <- app_assoc, (Permutation_app_comm new), app_assoc, fmap_app, Hids, elem_of_app.
      intros [H%Hi|H%elem_of_seq]; lia.
    + intros st. unfold fetch_add, nothing. rewrite (Hcnt st). autorewrite with mz_rw.
      rewrite (in_status_fresh new) by done. unfold nothing. pose proof (in_status_bound st (slices hs)).
      rewrite length_app in Hlen64. case_decide; [|lia]. rewrite wrap_small; [lia|]. unfold uint. lia.
  - destruct Hend as [Hend|Hend]; [right|left]; [|done]. rewrite length_app. lia.
Qed.

Lemma filter_all {A} (P : A -> Prop) `{!forall x, Decision (P x)} (l : list A) :
  Forall P l -> filter P l = l.
Proof. induction 1 as [|x l Hx _ IH]; [done|]. by rewrite filter_cons_True, IH. Qed.

Lemma filter_none {A} (P : A -> Prop) `{!forall x, Decision (P x)} (l : list A) :
  Forall (fun x => ~ P x) l -> filter P l = [].
Proof. induction 1 as [|x l Hx _ IH]; [done|]. by rewrite filter_cons_False, IH. Qed.

(** The window without its first slices, which are those in a status. *)
Lemma remove_front st hs front rest base : slices_wf hs -> window_at base hs ->
  slices hs = front ++ rest -> Forall (fun e => slice_status e.2 = st) front ->
  Forall (fun e => slice_status e.2 <> st) rest ->
  slices (slices.remove st hs) = rest /\
  window_at (base + HEADER_SLICE_SIZE * Z.of_nat (length front)) (slices.remove st hs).
Proof.
  intros Hw [Hb Hc Hm Hf Hbd] Hs Hfront Hrest.
  assert (slices (slices.remove st hs) = rest) as Hr.
  { cbn. rewrite Hs, filter_app. rewrite filter_none, (filter_all _ rest); [done|done|].
    eapply Forall_impl; [exact Hfront|]. naive_solver. }
  split; [done|]. rewrite Hs in Hc. apply contiguous_app in Hc as [_ Hc].
  rewrite Hs, length_app in Hm. unfold HEADER_SLICE_SIZE in *.
  split; rewrite ?Hr; cbn [slices.remove slices.with_count slices.drop_to slices.with_detached
    slices.with_deque max_block_num final_block_num]; [lia|done| |  |done].
  - unfold HEADER_SLICE_SIZE. lia.
  - unfold HEADER_SLICE_SIZE.
    replace (final_block_num hs - (base + 192 * Z.of_nat (length front)))
      with (final_block_num hs - base + (- Z.of_nat (length front)) * 192) by lia.
    by rewrite Z_mod_plus_full.
Qed.

Lemma rebuilt_at base hs l c : window_at base hs -> length l = length (slices hs) ->
  contiguous base l -> window_at base (rebuilt hs l c).
Proof. intros [Hb Hc Hm Hf Hbd] Hl Hcl. split; cbn; try done. by rewrite Hl. Qed.

Lemma min_block_num_at base hs : window_at base hs -> slices.min_block_num hs = base.
Proof.
  intros [Hb Hc Hm Hf Hbd]. unfold slices.min_block_num. destruct (slices hs) as [|[id s] l] eqn:El.
  - cbn in Hm. lia.
  - specialize (Hc 0%nat (id, s) eq_refl). cbn in Hc. lia.
Qed.
