(* ===== verification/HeaderLoopSpec.v ===== *)
(** The phases of the header download without forks: for every order in which the stages
    run and for every behaviour of the peers, the tables are those after saving a chain of
    verified slices in order.

    The stages are independent of each other, so the proof is by an invariant of the window
    that each poll keeps.  A [quiet] change of a slice is one of the stages that fetch,
    retry and penalize; they do not touch what is verified or being verified. *)
From S2P Require Import Prelude Word EvmState Transaction Precompiled IntraBlockState Consensus MemState Rlp StagedSync Kv Stages ChainAccess.
From S2P Require Import HeaderSlices HeaderStages HeaderLoop HeaderSlicesSpec.
From Stdlib Require Import ZArith Lia Strings.Byte.
From stdpp Require Import base list option numbers gmap.
#[local] Open Scope Z_scope.

(** Inversion of a bind that is [Done]. *)
Lemma outcome_bind_inv {A B} (m : outcome A) (f : A -> outcome B) b :
  m ≫= f = Done b -> exists a, m = Done a /\ f a = Done b.
Proof. destruct m as [a| |]; [|done..]. by exists a. Qed.

Ltac inv_bind H :=
  let a := fresh "r" in let E := fresh "E" in
  apply outcome_bind_inv in H as (a & E & H).

(** ** Cached hashes *)

Section cached_hashes.
Context `{Keccak} `{RlpStream}.

(** The caches of a header hold what they are to hold. *)
Definition sound (h : cached.BlockHeader) : Prop :=
  (forall b, cached.rlp_repr_cached h = Some b -> b = rlp_out (header_item (cached.header h))) /\
  (forall x, cached.hash_cached h = Some x -> x = header_hash (cached.header h)).

Lemma sound_from h : sound (cached.from h).
Proof. by split. Qed.

Lemma sound_hash h : sound h -> cached.hash h = header_hash (cached.header h).
Proof.
  intros [Hr Hh]. unfold cached.hash. destruct (cached.hash_cached h) as [x|]; [by apply Hh|].
  cbn. unfold cached.rlp_repr, cached.hash_compute, header_hash.
  destruct (cached.rlp_repr_cached h) as [b|]; [by rewrite (Hr b eq_refl)|done].
Qed.

Lemma sound_prepare h : sound h -> sound (cached.hash_prepare h).
Proof.
  intros [Hr Hh]. unfold cached.hash_prepare. destruct (cached.rlp_repr_cached h) as [b|] eqn:Eb; cbn.
  - rewrite Eb. split; cbn; intros x [= <-]; [by apply Hr|].
    unfold cached.hash_compute, header_hash. by rewrite (Hr b).
  - split; cbn; intros x [= <-]; done.
Qed.

(** A header that a peer has sent, with caches that hold what they are to hold. *)
Definition genuine (known : BlockHeader -> Prop) (h : cached.BlockHeader) : Prop :=
  sound h /\ known (cached.header h).

Lemma genuine_prepare known h : genuine known h -> genuine known (cached.hash_prepare h).
Proof.
  intros [Hs Hk]. split; [by apply sound_prepare|]. unfold cached.hash_prepare.
  by destruct (cached.rlp_repr_cached h).
Qed.

Definition all_genuine (known : BlockHeader -> Prop) (s : HeaderSlice) : Prop :=
  forall l, headers s = Some l -> Forall (genuine known) l.

End cached_hashes.

(** ** Slices *)

Section slices.
Context `{Keccak} `{RlpStream}.
(** The headers that the peers send. *)
Variable known : BlockHeader -> Prop.
Variable check : HeaderSlice -> Z -> outcome bool.
Variable good : HeaderSliceStatus.

(** The check of a phase looks at the first number and the headers of a slice. *)
Definition check_stable : Prop := forall s s' now,
  start_block_num s = start_block_num s' -> headers s = headers s' -> check s now = check s' now.
Definition check_needs_headers : Prop := forall s now, check s now = Done true -> is_Some (headers s).

Definition passes (s : HeaderSlice) : Prop := exists now, check s now = Done true.

(** What is known about a slice from its status. *)
Definition slice_ok (s : HeaderSlice) : Prop :=
  all_genuine known s /\
  (slice_status s = good \/ slice_status s = status.Verified \/ slice_status s = status.Saved -> passes s).

(** The changes of the stages that fetch, retry and penalize. *)
Definition idle (st : HeaderSliceStatus) : Prop :=
  st = status.Empty \/ st = status.Waiting \/ st = status.Invalid.
Definition fetched (st : HeaderSliceStatus) : Prop :=
  st = status.Empty \/ st = status.Waiting \/ st = status.Downloaded.

Definition quiet (s s' : HeaderSlice) : Prop :=
  s' = s \/
  start_block_num s' = start_block_num s /\ idle (slice_status s) /\ fetched (slice_status s') /\
  (all_genuine known s -> all_genuine known s').

#[export] Instance quiet_refl : Reflexive quiet.
Proof. by left. Qed.

Lemma quiet_start s s' : quiet s s' -> start_block_num s' = start_block_num s.
Proof. intros [->|(? & _)]; done. Qed.

Lemma quiet_ok s s' : good = status.VerifiedInternally \/ good = status.Verified ->
  quiet s s' -> slice_ok s -> slice_ok s'.
Proof.
  intros Hg [->|(_ & _ & Hf & Hs)]; [done|]. intros [Ha _]. split; [by apply Hs|].
  unfold fetched in Hf. intros Hst. destruct Hg, Hf as [?|[?|?]]; naive_solver congruence.
Qed.

Lemma quiet_busy s s' : quiet s s' -> ~ idle (slice_status s) -> s' = s.
Proof. intros [->|(_ & ? & _)]; done. Qed.

(** The folds of the three stages. *)
Lemma request_one_quiet size send clock : fold_step quiet (fetch_request.request_one size send clock).
Proof.
  intros s c [[id sent] failed] s' c' a' b Hu Hf. unfold fetch_request.request_one in Hf.
  assert (forall x, c x = moved (slice_status s) (slice_status s) c x) as Hsame.
  { intros x. unfold moved. rewrite Z.sub_add. by rewrite wrap_small. }
  case_decide as Hs; [|by injection Hf as <- <- <- <-; split].
  destruct (send _); [|by injection Hf as <- <- <- <-; split..].
  pose proof (set_slice_status_moved (with_request s (Some (clock id)) (request_attempt s))
    status.Waiting c Hu) as Hm.
  destruct (slices.set_slice_status _ _ c) as [s1 c1]. destruct Hm as [Hs1 Hc1]. cbn in Hs1, Hc1.
  injection Hf as <- <- <- <-. rewrite Hs1. split; [|done]. right.
  split_and!; [done|by left|by right; left|done].
Qed.

Lemma retry_one_quiet now : fold_step quiet (retry.reset_one now).
Proof.
  intros s c n s' c' a' b Hu Hf. unfold retry.reset_one in Hf.
  destruct (bool_decide (slice_status s = status.Waiting)) eqn:Hs; cbn in Hf.
  2: { injection Hf as <- <- <- <-. split; [done|]. intros x. unfold moved. rewrite Z.sub_add.
       by rewrite wrap_small. }
  apply bool_decide_eq_true in Hs. destruct (retry.is_waiting_timeout_expired s now).
  2: { injection Hf as <- <- <- <-. split; [done|]. intros x. unfold moved. rewrite Z.sub_add.
       by rewrite wrap_small. }
  inv_bind Hf.
  pose proof (set_slice_status_moved (with_request s None r) status.Empty c Hu) as Hm.
  destruct (slices.set_slice_status _ _ c) as [s1 c1]. destruct Hm as [Hs1 Hc1]. cbn in Hs1, Hc1.
  injection Hf as <- <- <- <-. rewrite Hs1. split; [|done]. right.
  split_and!; [done|by right; left|by left|done].
Qed.

Lemma penalize_one_quiet : fold_step quiet penalize.reset_one.
Proof.
  intros s c n s' c' a' b Hu Hf. unfold penalize.reset_one in Hf.
  case_decide as Hs.
  2: { injection Hf as <- <- <- <-. split; [done|]. intros x. unfold moved. rewrite Z.sub_add.
       by rewrite wrap_small. }
  pose proof (set_slice_status_moved s status.Empty c Hu) as Hm.
  destruct (slices.set_slice_status _ _ c) as [s1 c1]. destruct Hm as [Hs1 Hc1]. cbn in Hs1, Hc1.
  injection Hf as <- <- <- <-. rewrite Hs1. split; [|done]. right.
  split_and!; [done|by right; right|by left|]. by intros _ l [=].
Qed.

(** *** The polls of the stages that fetch *)

(** A change of the deque by a quiet stage. *)
Definition quiet_step (hs hs' : HeaderSlices) : Prop :=
  exists l c, hs' = rebuilt hs l c /\ related quiet (slices hs) l /\ slices_wf hs'.

Lemma quiet_step_refl hs : slices_wf hs -> quiet_step hs hs.
Proof.
  intros Hw. exists (slices hs), (count hs). split_and!; [by destruct hs|apply related_refl, _|done].
Qed.

Lemma fetch_request_quiet send clock capacity st hs r st' hs' : slices_wf hs ->
  fetch_request.poll send clock capacity st hs = Done (r, st', hs') -> quiet_step hs hs'.
Proof.
  intros Hw Hp. unfold fetch_request.poll in Hp. destruct (fetch_request.position st) as [w| |].
  - destruct (wait_while_ready _ _ _ _); injection Hp as <- <- <-; by apply quiet_step_refl.
  - inv_bind Hp. destruct r0 as [[failed st1] hs1].
    assert (hs' = hs1) as ->. { repeat case_match; by injection Hp. }
    unfold fetch_request.request_pending in E. inv_bind E. destruct r0 as [hs2 [[id sent] f]].
    injection E as <- <- <-. eapply try_fold_related in E0; [done|apply _|apply request_one_quiet|done].
  - destruct capacity as [[]|]; injection Hp as <- <- <-; by apply quiet_step_refl.
Qed.

(** The headers of a message. *)
Definition arrival_known (arrival : fetch_receive.Arrival) : Prop :=
  match arrival with
  | fetch_receive.Arrived m => Forall known (fetch_receive.message_headers m)
  | _ => True
  end.

Lemma fetch_receive_quiet arrival over hs r over' hs' : slices_wf hs -> arrival_known arrival ->
  fetch_receive.poll arrival over hs = (r, over', hs') -> quiet_step hs hs'.
Proof.
  intros Hw Hk Hp. destruct arrival as [|m| |]; cbn in Hp; injection Hp as <- <- <-;
    try by apply quiet_step_refl.
  cbn in Hk. unfold fetch_receive.on_headers_message.
  destruct (fetch_receive.message_headers m) as [|first tl]; [by apply quiet_step_refl|].
  destruct (slices.find_by_start_block_num hs _) as [id|] eqn:Ef; [|by apply quiet_step_refl].
  apply find_where_lookup in Ef as (i & s & Hi & _). rewrite (read_deque hs i id s) by done. cbn.
  destruct (slice_status s) eqn:Es; try by apply quiet_step_refl.
  unfold fetch_receive.update_slice. rewrite (read_deque hs i id s) by done.
  pose proof (write_status hs i id s (with_peer (with_headers s (Some (cached.from <$> first :: tl)))
    (fetch_receive.message_from_peer m)) status.Downloaded Hw Hi eq_refl) as Hws.
  destruct (slices.set_slice_status _ _ _) as [s1 c1]. destruct Hws as (c & -> & Hwf).
  eexists _, c. split_and!; [done| |done]. apply (related_insert quiet _ i id s); [done|].
  right. split_and!; [done|by right; left|by right; right|]. intros _ l [= <-].
  apply (Forall_fmap _ _ (first :: tl)), (Forall_impl _ _ _ Hk).
  intros h Hh. split; [apply sound_from|done].
Qed.

Lemma retry_quiet now st hs r st' hs' : slices_wf hs ->
  retry.poll now st hs = Done (r, st', hs') -> quiet_step hs hs'.
Proof.
  intros Hw Hp. unfold retry.poll in Hp. destruct st as [w|]; [|destruct now as [now|]].
  - destruct (wait_while_ready _ _ _ _); injection Hp as <- <- <-; by apply quiet_step_refl.
  - inv_bind Hp. destruct r0 as [hs1 n]. injection Hp as <- <- <-.
    eapply try_fold_related in E; [done|apply _|apply retry_one_quiet|done].
  - injection Hp as <- <- <-. by apply quiet_step_refl.
Qed.

Lemma penalize_quiet answer st hs r st' hs' : slices_wf hs ->
  penalize.poll answer st hs = Done (r, st', hs') -> quiet_step hs hs'.
Proof.
  intros Hw Hp. unfold penalize.poll in Hp. destruct st as [w|[|p ps]].
  - destruct (wait_while_ready _ _ _ _); injection Hp as <- <- <-; by apply quiet_step_refl.
  - inv_bind Hp. destruct r0 as [hs1 n]. injection Hp as <- <- <-.
    eapply try_fold_related in E; [done|apply _|apply penalize_one_quiet|done].
  - destruct answer as [[]|]; injection Hp as <- <- <-; by apply quiet_step_refl.
Qed.

End slices.

(** ** The invariant *)

Section invariant.
Context `{Keccak} `{RlpStream} `{HeaderSliceVerifier} {T : Type -> Type} {KV : Kv T}.
Variable config : ChainConfig.
Variable known : BlockHeader -> Prop.
Variable check : HeaderSlice -> Z -> outcome bool.
Variable good : HeaderSliceStatus.
Hypothesis Hstable : check_stable check.
Hypothesis Hneeds : check_needs_headers check.
Hypothesis Hgood : good = status.VerifiedInternally \/ good = status.Verified.
(** The first block of the phase, the parent of this block, and the tables before. *)
Variables (start : Z) (parent : option cached.BlockHeader) (t0 : HeaderTables T).

Definition headers_in (l : list entry) : list (list cached.BlockHeader) :=
  (fun e => default [] (headers e.2)) <$> l.

(** A slice with the given headers. *)
Definition list_slice (num : Z) (l : list cached.BlockHeader) : HeaderSlice :=
  with_headers (fresh_slice num) (Some l).

(** The slices that have left the window were checked. *)
Definition evicted_ok (ev : list (list cached.BlockHeader)) : Prop :=
  forall i l, ev !! i = Some l ->
  passes check (list_slice (start + HEADER_SLICE_SIZE * Z.of_nat i) l) /\ Forall (genuine known) l.

(** The newest header of a sequence of slices. *)
Definition newest (p : option cached.BlockHeader) (ls : list (list cached.BlockHeader))
    : option cached.BlockHeader :=
  foldl (fun p l => match last l with Some h => Some h | None => p end) p ls.

(** Each slice is linked to the one before. *)
Fixpoint linked (p : option cached.BlockHeader) (ls : list (list cached.BlockHeader)) : Prop :=
  match ls with
  | [] => True
  | l :: ls =>
      link_linear.verify_slice_link config (list_slice 0 l) p = Done true /\ linked (newest p [l]) ls
  end.

Lemma linked_app p a b : linked p (a ++ b) <-> linked p a /\ linked (newest p a) b.
Proof.
  revert p. induction a as [|l a IH]; intros p; cbn [app linked]; [naive_solver|].
  rewrite IH. cbn [newest foldl]. naive_solver.
Qed.

Lemma newest_app p a b : newest p (a ++ b) = newest (newest p a) b.
Proof. apply foldl_app. Qed.

(** The tasks of the verifying stage run on slices that wait for them. *)
Definition tasks_ok (vs : verify.Control) (l : list entry) : Prop :=
  match vs with
  | verify.Tasks tasks =>
      NoDup tasks.*1 /\
      forall id r, (id, r) ∈ tasks -> exists s, (id, s) ∈ l /\ slice_status s = status.Downloaded /\
        (r = Some true -> passes check s)
  | _ => True
  end.

(** What the linking stage knows. *)
Definition link_ok (vl : option link_linear.VerifyLinkLinearStage)
    (ev : list (list cached.BlockHeader)) (sv rest : list entry) : Prop :=
  match vl with
  | None => True
  | Some L =>
      good = status.VerifiedInternally /\ link_linear.invalid_status L = status.Invalid /\
      exists vf tl, rest = vf ++ tl /\
        Forall (fun e => slice_status e.2 = status.Verified) vf /\
        Forall (fun e => slice_status e.2 <> status.Verified) tl /\
        linked parent (ev ++ headers_in sv ++ headers_in vf) /\
        link_linear.last_verified_header L = newest parent (ev ++ headers_in sv ++ headers_in vf)
  end.

Record window_inv (base : Z) (ev : list (list cached.BlockHeader)) (sv rest : list entry)
    (hs : HeaderSlices) (vs : verify.Control) (vl : option link_linear.VerifyLinkLinearStage)
    (st : save.SaveStage) (t : HeaderTables T) : Prop := {
  inv_wf : slices_wf hs;
  inv_at : window_at base hs;
  inv_max : max_slices hs < 2 ^ 64;
  inv_base : base = start + HEADER_SLICE_SIZE * Z.of_nat (length ev);
  inv_deque : slices hs = sv ++ rest;
  inv_saved : Forall (fun e => slice_status e.2 = status.Saved) sv;
  inv_rest : Forall (fun e => slice_status e.2 <> status.Saved) rest;
  inv_ok : Forall (fun e => slice_ok known check good e.2) (slices hs);
  inv_evicted : evicted_ok ev;
  inv_tasks : tasks_ok vs (slices hs);
  inv_link : link_ok vl ev sv rest;
  inv_order : save.order st = save.Monotonic;
  inv_canonical : save.is_canonical_chain st = true;
  inv_tables : save.save_headers (concat (ev ++ headers_in sv)) true t0 = Done t;
}.

(** *** Changes of slices that are neither verified nor saved *)

Definition change (s s' : HeaderSlice) : Prop :=
  s' = s \/
  start_block_num s' = start_block_num s /\
  (slice_status s <> status.Verified /\ slice_status s <> status.Saved) /\
  slice_status s' <> status.Saved /\ (slice_status s' = status.Verified -> good = status.Verified) /\
  (slice_ok known check good s -> slice_ok known check good s').

#[local] Instance change_refl : Reflexive change.
Proof. by left. Qed.

Lemma quiet_change s s' : quiet known s s' -> change s s'.
Proof.
  intros Hq. destruct (Hq) as [->|(Hs & Hi & Hf & Ha)]; [by left|]. right.
  unfold idle, fetched in *. split_and!; [done| | | | |by apply quiet_ok];
    destruct Hi as [?|[?|?]], Hf as [?|[?|?]]; congruence.
Qed.

Lemma related_impl (R R' : HeaderSlice -> HeaderSlice -> Prop) l l' :
  (forall s s', R s s' -> R' s s') -> related R l l' -> related R' l l'.
Proof. intros HR Hr. eapply Forall2_impl; [exact Hr|]. intros e e' [? ?]. split; [done|by apply HR]. Qed.

Lemma related_settled l l' : related change l l' ->
  Forall (fun e => slice_status e.2 = status.Verified \/ slice_status e.2 = status.Saved) l -> l' = l.
Proof.
  induction 1 as [|e e' l l' [Hid Hq] _ IH]; intros Hb; [done|]. apply Forall_cons in Hb as [He Hb].
  rewrite IH by done. destruct Hq as [Hq|(_ & Hn & _)]; [|naive_solver].
  destruct e, e'; cbn in *. by subst.
Qed.

Lemma related_forall (R : HeaderSlice -> HeaderSlice -> Prop) (P : HeaderSlice -> Prop) l l' :
  (forall s s', R s s' -> P s -> P s') ->
  related R l l' -> Forall (fun e => P e.2) l -> Forall (fun e => P e.2) l'.
Proof.
  intros HR. induction 1 as [|e e' l l' [_ Hq] _ IH]; intros Hb; [done|].
  apply Forall_cons in Hb as [He Hb]. constructor; [by eapply HR|by apply IH].
Qed.

Lemma change_inv base ev sv rest hs vs vl st t l c vs' :
  window_inv base ev sv rest hs vs vl st t -> related change (slices hs) l ->
  slices_wf (rebuilt hs l c) -> tasks_ok vs' l ->
  exists rest', window_inv base ev sv rest' (rebuilt hs l c) vs' vl st t.
Proof.
  intros [Hw Hat Hmax Hbase Hd Hsv Hrest Hok Hev _ Hlink Hord Hcan Ht] Hrel Hw' Htasks.
  pose proof Hrel as Hr. rewrite Hd in Hr. apply Forall2_app_inv_l in Hr as (sv' & rest' & Hr1 & Hr2 & ->).
  apply (related_settled sv) in Hr1 as ->; [|eapply Forall_impl; [exact Hsv|]; by right].
  exists rest'. split; cbn; try done.
  - apply rebuilt_at; [done| |].
    + rewrite <- (length_fmap fst), (related_ids _ _ _ Hrel). by rewrite length_fmap.
    + eapply related_contiguous; [|exact Hrel|apply Hat]. by intros s s' [->|(? & _)].
  - eapply (related_forall change (fun s => slice_status s <> status.Saved)); [|exact Hr2|done].
    by intros s s' [->|(_ & _ & ? & _)].
  - eapply (related_forall change (slice_ok known check good)); [|exact Hrel|done].
    intros s s' [->|(_ & _ & _ & _ & ?)]; [done|by auto].
  - destruct vl as [L|]; [|done]. destruct Hlink as (Hg & Hinv & vf & tl & -> & Hvf & Htl & Hlnk).
    split_and!; [done..|]. apply Forall2_app_inv_l in Hr2 as (vf' & tl' & Hr3 & Hr4 & ->).
    apply (related_settled vf) in Hr3 as ->; [|eapply Forall_impl; [exact Hvf|]; by left].
    exists vf, tl'. split_and!; [done..| |apply Hlnk|apply Hlnk].
    eapply (related_forall change (fun s => slice_status s <> status.Verified)); [|exact Hr4|done].
    intros s s' [->|(_ & _ & _ & Hv & _)]; [done|]. intros _ ?%Hv. congruence.
Qed.

(** *** Quiet stages *)

Lemma related_downloaded l l' id s : related (quiet known) l l' -> (id, s) ∈ l ->
  slice_status s = status.Downloaded -> (id, s) ∈ l'.
Proof.
  intros Hr [i Hi]%list_elem_of_lookup Hs. destruct (related_lookup _ _ _ _ _ Hr Hi) as (s' & Hi' & Hq).
  cbn in *. apply quiet_busy in Hq as ->; [by eapply list_elem_of_lookup_2|].
  intros [?|[?|?]]; congruence.
Qed.

Lemma tasks_ok_mono vs l l' :
  (forall id s, (id, s) ∈ l -> slice_status s = status.Downloaded -> (id, s) ∈ l') ->
  tasks_ok vs l -> tasks_ok vs l'.
Proof.
  intros Hl. destruct vs as [| |tasks]; [done..|]. intros [Hn Htasks]. split; [done|].
  intros id r Hin. destruct (Htasks id r Hin) as (s & Hs & Hst & Hc). exists s. split_and!; [|done..].
  by apply Hl.
Qed.

Lemma quiet_inv base ev sv rest hs vs vl st t hs' :
  window_inv base ev sv rest hs vs vl st t -> quiet_step known hs hs' ->
  exists rest', window_inv base ev sv rest' hs' vs vl st t.
Proof.
  intros Hi (l & c & -> & Hr & Hw'). eapply change_inv; [done| |done|].
  - eapply related_impl; [|exact Hr]. apply quiet_change.
  - eapply tasks_ok_mono; [|apply Hi]. intros id s. by apply related_downloaded.
Qed.

(** *** The verifying stage *)

Lemma prepare_ok s : slice_ok known check good s -> slice_status s = status.Downloaded ->
  slice_ok known check good (verify.prepare_slice_hashes s).
Proof.
  intros [Ha Hc] Hs. split.
  - intros l. cbn. destruct (headers s) as [l0|] eqn:E; cbn; [|done]. intros [= <-].
    apply (Forall_fmap _ _ l0). eapply Forall_impl; [by apply Ha|]. intros h. apply genuine_prepare.
  - cbn. rewrite Hs. destruct Hgood; naive_solver congruence.
Qed.

Lemma task_inv base ev sv rest hs vl st t tasks i id now ok hs' :
  window_inv base ev sv rest hs (verify.Tasks tasks) vl st t -> tasks !! i = Some (id, None) ->
  verify.run_task check now id hs = Done (ok, hs') ->
  exists rest', window_inv base ev sv rest' hs' (verify.Tasks (<[i := (id, Some ok)]> tasks)) vl st t.
Proof.
  intros Hi Ht Hr. pose proof (inv_wf _ _ _ _ _ _ _ _ _ Hi) as Hw.
  destruct (inv_tasks _ _ _ _ _ _ _ _ _ Hi) as [Hn Htasks].
  destruct (Htasks id None) as (s & Hs & Hst & _); [by eapply list_elem_of_lookup_2|].
  destruct (elem_of_deque _ _ _ Hs) as [j Hj]. unfold verify.run_task in Hr.
  rewrite (read_deque _ j _ s) in Hr by done. inv_bind Hr. injection Hr as <- <-.
  rewrite (write_deque _ j _ s) by done.
  set (s' := verify.prepare_slice_hashes s). set (l := <[j := (id, s')]> (slices hs)).
  assert (slices.with_deque hs l = rebuilt hs l (count hs)) as -> by (by destruct hs).
  assert (slices_wf (rebuilt hs l (count hs))) as Hw'.
  { apply wf_rebuilt; [done|by eapply fmap_fst_insert|]. intros x. unfold l.
    rewrite (in_status_insert _ _ _ _ s), (wf_count _ Hw x) by done. cbn. unfold s'. cbn. lia. }
  eapply change_inv; [done| |done|].
  - apply (related_insert change _ j id s); [done|]. right. split_and!; try (cbn; congruence).
    intros Hok. by apply prepare_ok.
  - split.
    + rewrite list_fmap_insert. cbn. rewrite list_insert_id; [done|]. by rewrite list_lookup_fmap, Ht.
    + intros id' r' [k Hk]%list_elem_of_lookup. apply list_lookup_insert_Some in Hk
        as [(-> & [= <- <-] & _)|(Hne & Hk)].
      * exists s'. split_and!; [|done|].
        -- apply (list_elem_of_lookup_2 _ j). apply list_lookup_insert_eq. by eapply lookup_lt_Some.
        -- intros [= ->]. by exists now.
      * destruct (Htasks id' r') as (s1 & Hs1 & Hst1 & Hc1); [by eapply list_elem_of_lookup_2|].
        exists s1. split_and!; [|done..]. destruct (elem_of_deque _ _ _ Hs1) as [j1 Hj1].
        apply (list_elem_of_lookup_2 _ j1). unfold l. rewrite list_lookup_insert_ne; [done|].
        intros ->. apply Hne. rewrite Hj in Hj1. injection Hj1 as <- <-.
        eapply (NoDup_lookup tasks.*1 i k id); [done|by rewrite list_lookup_fmap, Ht|by rewrite list_lookup_fmap, Hk].
Qed.

Lemma passes_status s st : passes check s -> passes check (with_status s st).
Proof. intros [now Hc]. exists now. by rewrite (Hstable _ s). Qed.

Lemma set_statuses_inv base ev sv hs vl st t tasks results : forall rest,
  Forall2 (fun e r => e.1 = r.1 /\ e.2 = Some r.2) tasks results ->
  window_inv base ev sv rest hs (verify.Tasks tasks) vl st t ->
  exists rest', window_inv base ev sv rest' (verify.set_statuses good results hs) verify.Batch vl st t.
Proof.
  revert hs results. induction tasks as [|[id r] tasks IH]; intros hs results rest Hf Hi.
  { apply Forall2_nil_inv_l in Hf as ->. exists rest. by destruct Hi. }
  apply Forall2_cons_inv_l in Hf as ([id' ok] & results' & [Hid Hr] & Hf & ->). cbn in Hid, Hr. subst id' r.
  pose proof (inv_wf _ _ _ _ _ _ _ _ _ Hi) as Hw.
  destruct (inv_tasks _ _ _ _ _ _ _ _ _ Hi) as [Hn Htasks].
  rewrite fmap_cons in Hn. apply NoDup_cons in Hn as [Hnid Hn]. cbn in Hnid.
  destruct (Htasks id (Some ok)) as (s & Hs & Hst & Hc); [by left|].
  destruct (elem_of_deque _ _ _ Hs) as [j Hj]. cbn [verify.set_statuses foldl].
  set (new := if ok then good else status.Invalid).
  destruct (set_status_of_deque hs j id s new Hw Hj) as (c & Heq & Hw').
  rewrite Heq in Hw'. fold (verify.set_statuses good results' (slices.set_status_of hs id new)). rewrite Heq.
  destruct (change_inv base ev sv rest hs (verify.Tasks ((id, Some ok) :: tasks)) vl st t
    (<[j := (id, with_status s new)]> (slices hs)) c (verify.Tasks tasks)) as [rest' Hi']; [done| |done| |].
  - apply (related_insert change _ j id s); [done|]. right. rewrite Hst.
    split_and!; [done..| | |]; cbn; unfold new.
    + destruct ok; [|done]. destruct Hgood; congruence.
    + destruct ok; [|done]. congruence.
    + intros [Ha _]. split; [done|]. cbn. intros Hv. apply passes_status.
      destruct ok; [by apply Hc|]. destruct Hgood; naive_solver congruence.
  - split; [done|]. intros id' r' Hin.
    destruct (Htasks id' r') as (s1 & Hs1 & Hst1 & Hc1); [by right|].
    exists s1. split_and!; [|done..]. destruct (elem_of_deque _ _ _ Hs1) as [j1 Hj1].
    apply (list_elem_of_lookup_2 _ j1). rewrite list_lookup_insert_ne; [done|].
    intros ->. apply Hnid. rewrite Hj in Hj1. injection Hj1 as <- <-.
    by apply (list_elem_of_fmap_2 fst _ (id, r')).
  - by apply (IH _ _ rest').
Qed.

Lemma verify_inv num_cpus base ev sv rest hs vs vl st t task r vs' hs' :
  window_inv base ev sv rest hs vs vl st t ->
  verify.poll num_cpus check good task vs hs = Done (r, vs', hs') ->
  exists rest', window_inv base ev sv rest' hs' vs' vl st t.
Proof.
  intros Hi Hp. unfold verify.poll in Hp. pose proof (inv_wf _ _ _ _ _ _ _ _ _ Hi) as Hw.
  assert (forall vs', tasks_ok vs' (slices hs) -> exists rest', window_inv base ev sv rest' hs vs' vl st t)
    as Hsame. { intros vs1 Hv. exists rest. by destruct Hi. }
  destruct vs as [w| |tasks].
  - destruct (wait_while_ready _ _ _ _); injection Hp as <- <- <-; by apply Hsame.
  - pose proof (batch_of_spec status.Downloaded num_cpus [] (slices hs)) as Hb.
    pose proof (batch_of_nodup status.Downloaded num_cpus [] (slices hs)) as Hn.
    fold (slices.find_batch_by_status hs status.Downloaded num_cpus) in Hb, Hn.
    destruct (slices.find_batch_by_status hs status.Downloaded num_cpus) as [|id ids];
      injection Hp as <- <- <-; apply Hsame; [done|].
    assert (((fun id => (id, None)) <$> id :: ids : list (nat * option bool)).*1 = id :: ids) as Hfst.
    { rewrite <- list_fmap_compose. apply list_fmap_id. }
    split; [change (NoDup ((fun id => (id, None)) <$> id :: ids : list (nat * option bool)).*1);
      rewrite Hfst; apply Hn; [constructor|by apply nodup_parts|by intros ? ?%elem_of_nil]|].
    change ((fun id => (id, None)) <$> id :: ids) with
      ((fun id => (id, None)) <$> id :: ids : list (nat * option bool)).
    intros id' r' (id0 & [= -> ->] & Hin)%(list_elem_of_fmap (fun id => (id, None)) (id :: ids)).
    destruct (Hb id0 Hin) as [?%elem_of_nil|(s & ? & ?)]; [done|]. exists s. by split_and!.
  - destruct (verify.joined tasks) as [results|] eqn:Ej.
    + injection Hp as <- <- <-. eapply set_statuses_inv; [|done].
      apply mapM_Some in Ej. eapply Forall2_impl; [exact Ej|].
      intros [id o] [id' b] He. cbn in *. apply fmap_Some in He as (b' & -> & [= <- <-]). done.
    + destruct task as [[i now]|]; [|injection Hp as <- <- <-; by apply Hsame, Hi].
      destruct (tasks !! i) as [[id [b|]]|] eqn:Ei;
        [injection Hp as <- <- <-; by apply Hsame, Hi| |injection Hp as <- <- <-; by apply Hsame, Hi].
      inv_bind Hp. destruct r0 as [ok hs1]. injection Hp as <- <- <-. by eapply task_inv.
Qed.

(** *** The refilling stage *)

Lemma saved_passes sv base : contiguous base sv ->
  Forall (fun e => slice_status e.2 = status.Saved) sv ->
  Forall (fun e => slice_ok known check good e.2) sv ->
  forall i l, headers_in sv !! i = Some l ->
  passes check (list_slice (base + HEADER_SLICE_SIZE * Z.of_nat i) l) /\ Forall (genuine known) l.
Proof.
  intros Hc Hs Hok i l Hi. unfold headers_in in Hi. rewrite list_lookup_fmap in Hi.
  apply fmap_Some in Hi as (e & He & ->). rewrite Forall_lookup in Hs, Hok.
  destruct (Hok i e He) as [Ha Hch]. destruct Hch as [now Hch]; [right; right; by apply (Hs i)|].
  destruct (Hneeds _ _ Hch) as [l Hl]. rewrite Hl. cbn. split; [|by apply Ha].
  exists now. rewrite <- Hch. apply Hstable; [|done]. cbn. by rewrite (Hc i e He).
Qed.

(** All slices that are saved passed the check. *)
Lemma inv_slices base ev sv rest hs vs vl st t : window_inv base ev sv rest hs vs vl st t ->
  forall i l, (ev ++ headers_in sv) !! i = Some l ->
  passes check (list_slice (start + HEADER_SLICE_SIZE * Z.of_nat i) l) /\ Forall (genuine known) l.
Proof.
  intros [Hw Hat Hmax Hbase Hd Hsv Hrest Hok Hev Htasks Hlink Hord Hcan Ht] i l.
  intros [Hil|[Hle Hil]]%lookup_app_Some; [by apply Hev|].
  rewrite Hd in Hok. apply Forall_app in Hok as [Hoks _]. destruct Hat as [_ Hcon _ _ _].
  rewrite Hd in Hcon. apply contiguous_app in Hcon as [Hcon _].
  destruct (saved_passes sv base Hcon Hsv Hoks _ _ Hil) as [Hp Hs]. split; [|done].
  replace (start + HEADER_SLICE_SIZE * Z.of_nat i)
    with (base + HEADER_SLICE_SIZE * Z.of_nat (i - length ev)); [done|].
  rewrite Hbase. unfold HEADER_SLICE_SIZE. lia.
Qed.

Lemma refill_inv base ev sv rest hs vs vl st t :
  window_inv base ev sv rest hs vs vl st t ->
  exists base' new, window_inv base' (ev ++ headers_in sv) [] (rest ++ new) (refill.refill_pending hs) vs vl st t.
Proof.
  intros Hi. pose proof (inv_slices _ _ _ _ _ _ _ _ _ Hi) as Hsl. destruct Hi as [Hw Hat Hmax Hbase Hd Hsv Hrest Hok Hev Htasks Hlink Hord Hcan Ht].
  destruct (remove_front status.Saved hs sv rest base) as [Hr Hat']; [done..|].
  destruct (refill_spec _ _ (remove_wf status.Saved hs Hw) Hat') as
    (new & Hs & Hnew & Hat2 & Hw2 & Hf2 & Hm2 & _); [done|].
  unfold refill.refill_pending. eexists _, new. rewrite Hr in Hs.
  assert (Forall (fun e => slice_status e.2 = status.Empty) new) as Hempty.
  { eapply Forall_impl; [exact Hnew|]. intros e He. cbn in *. by rewrite He. }
  rewrite Hd in Hok. apply Forall_app in Hok as [Hoks Hokr].
  split; try done.
  - by rewrite Hm2.
  - rewrite Hbase, length_app. unfold headers_in. rewrite length_fmap. lia.
  - apply Forall_app. split; [done|]. eapply Forall_impl; [exact Hempty|]. cbn. congruence.
  - rewrite Hs. apply Forall_app. split; [done|]. eapply Forall_impl; [exact Hnew|].
    intros e He. cbn in *. rewrite He. split; [by intros l|]. cbn. destruct Hgood; naive_solver congruence.
  - rewrite Hs. eapply tasks_ok_mono; [|exact Htasks]. rewrite Hd.
    intros id s [Hin|Hin]%elem_of_app Hst; [|apply elem_of_app; by left].
    rewrite Forall_forall in Hsv. specialize (Hsv _ Hin). cbn in Hsv. congruence.
  - destruct vl as [L|]; [|done]. destruct Hlink as (Hg & Hinv & vf & tl & -> & Hvf & Htl & Hlnk & Hlast).
    split_and!; [done..|]. exists vf, (tl ++ new). rewrite <- (assoc_L app). cbn.
    rewrite <- !(assoc_L app). split_and!; [done..| |done|done]. apply Forall_app. split; [done|].
    eapply Forall_impl; [exact Hempty|]. cbn. congruence.
  - cbn. by rewrite app_nil_r.
Qed.

(** *** The saving stage *)

Lemma insert_middle {A} (a b : list A) x y : <[length a := y]> (a ++ x :: b) = a ++ y :: b.
Proof. rewrite insert_app_r_alt by lia. by rewrite Nat.sub_diag. Qed.

Lemma lookup_middle {A} (a b : list A) x : (a ++ x :: b) !! length a = Some x.
Proof. by rewrite lookup_app_r, Nat.sub_diag by lia. Qed.

Lemma save_next_pending sv rest id :
  Forall (fun e => slice_status e.2 = status.Saved) sv ->
  Forall (fun e => slice_status e.2 <> status.Saved) rest ->
  save.next_pending (sv ++ rest) = Some id ->
  exists s tl, rest = (id, s) :: tl /\ slice_status s = status.Verified.
Proof.
  intros Hsv Hrest Hn. induction Hsv as [|[i s] sv Hs _ IH]; cbn in Hn.
  - destruct rest as [|[i s] rest]; [done|]. cbn in Hn. apply Forall_cons in Hrest as [Hne _]. cbn in Hne.
    destruct (slice_status s) eqn:Es; try done. injection Hn as ->. by exists s, rest.
  - cbn in Hs. rewrite Hs in Hn. by apply IH.
Qed.

Lemma save_headers_app a b canonical (t : HeaderTables T) :
  save.save_headers (a ++ b) canonical t =
  save.save_headers a canonical t ≫= save.save_headers b canonical.
Proof.
  revert t. induction a as [|h a IH]; intros t; [done|]. cbn.
  destruct (save.save_header h canonical t) as [t'| |]; [|done..]. apply IH.
Qed.

Lemma save_slice_inv base ev sv rest hs vs vl st t id ok hs' t' :
  window_inv base ev sv rest hs vs vl st t ->
  save.next_to_save (save.order st) hs = Some id ->
  save.save_slice id (save.is_canonical_chain st) hs t = Done (ok, hs', t') ->
  ok = true /\ exists sv' rest', window_inv base ev sv' rest' hs' vs vl st t'.
Proof.
  intros Hi Hn Hs. destruct Hi as [Hw Hat Hmax Hbase Hd Hsv Hrest Hok Hev Htasks Hlink Hord Hcan Ht].
  rewrite Hord in Hn. cbn in Hn. unfold save.find_next_pending_monotonic in Hn. rewrite Hd in Hn.
  apply save_next_pending in Hn as (s & tl & -> & Hst); [|done..].
  assert (slices hs !! length sv = Some (id, s)) as Hj by (rewrite Hd; apply lookup_middle).
  unfold save.save_slice in Hs. rewrite (read_deque _ _ _ _ Hw Hj) in Hs. cbn in Hs.
  assert (slice_ok known check good s) as Hoks.
  { rewrite Forall_lookup in Hok. apply (Hok _ _ Hj). }
  destruct (Hoks) as [Ha Hch]. destruct Hch as [now Hch]; [by right; left|].
  destruct (Hneeds _ _ Hch) as [l Hl]. rewrite Hl in Hs. inv_bind Hs. injection Hs as <- <- <-.
  split; [done|]. destruct (set_status_of_deque hs _ id s status.Saved Hw Hj) as (c & Heq & Hw').
  rewrite Heq in *. rewrite Hd, insert_middle in *.
  exists (sv ++ [(id, with_status s status.Saved)]), tl.
  apply Forall_cons in Hrest as [_ Hrest].
  split; cbn; try done.
  - apply rebuilt_at; [done|by rewrite Hd, !length_app|]. destruct Hat as [_ Hc _ _ _]. rewrite Hd in Hc.
    intros k e Hk. destruct (decide (k = length sv)) as [->|Hne].
    + rewrite lookup_middle in Hk. injection Hk as <-. cbn. by apply (Hc _ (id, s)), lookup_middle.
    + apply Hc. rewrite <- (insert_middle sv tl (id, s) (id, with_status s status.Saved)) in Hk.
      by rewrite list_lookup_insert_ne in Hk.
  - by rewrite <- app_assoc.
  - apply Forall_app. split; [done|]. by constructor.
  - apply Forall_app in Hok as [Hok1 Hok2]. apply Forall_cons in Hok2 as [_ Hok2].
    apply Forall_app. split; [done|]. constructor; [|done]. split; [done|]. intros _.
    apply passes_status. by exists now.
  - eapply tasks_ok_mono; [|exact Htasks]. intros id' s' Hin Hst'. apply elem_of_app in Hin as [Hin|Hin].
    { apply elem_of_app. by left. }
    apply elem_of_cons in Hin as [[= -> ->]|Hin]; [congruence|]. apply elem_of_app. right. by right.
  - destruct vl as [L|]; [|done]. destruct Hlink as (Hg & Hinv & vf & tl' & Hrv & Hvf & Htl & Hlnk).
    split_and!; [done..|]. destruct vf as [|e vf].
    { cbn in Hrv. rewrite <- Hrv in Htl. apply Forall_cons in Htl as [Htl _]. done. }
    cbn in Hrv. injection Hrv as <- ->. apply Forall_cons in Hvf as [_ Hvf]. exists vf, tl'.
    assert (headers_in (sv ++ [(id, with_status s status.Saved)]) ++ headers_in vf =
      headers_in sv ++ headers_in ((id, s) :: vf)) as ->.
    { unfold headers_in. rewrite fmap_app, <- (assoc_L app). done. }
    split_and!; [done..|apply Hlnk|apply Hlnk].
  - unfold headers_in. rewrite fmap_app, (assoc_L app), concat_app, save_headers_app.
    fold (headers_in sv). rewrite Ht. cbn. rewrite Hl, app_nil_r. cbn. by rewrite <- Hcan.
Qed.

Lemma save_pending_inv base ev vs vl st rounds : forall saved sv rest hs t ok saved' hs' t',
  window_inv base ev sv rest hs vs vl st t ->
  save.save_pending rounds saved st hs t = Done (ok, saved', hs', t') ->
  ok = true /\ exists sv' rest', window_inv base ev sv' rest' hs' vs vl st t'.
Proof.
  induction rounds as [|rounds IH]; intros saved sv rest hs t ok saved' hs' t' Hi Hs; cbn in Hs.
  { injection Hs as <- <- <- <-. eauto. }
  destruct (save.next_to_save (save.order st) hs) as [id|] eqn:En.
  2: { injection Hs as <- <- <- <-. eauto. }
  inv_bind Hs. destruct r as [[ok1 hs1] t1].
  destruct (save_slice_inv _ _ _ _ _ _ _ _ _ _ _ _ _ Hi En E) as (-> & sv1 & rest1 & Hi1).
  by eapply IH.
Qed.

Lemma window_inv_save base ev sv rest hs vs vl st t w n :
  window_inv base ev sv rest hs vs vl st t ->
  window_inv base ev sv rest hs vs vl (save.with_waiting st w n) t.
Proof. by intros []. Qed.

Lemma save_inv base ev sv rest hs vs vl st t r st' hs' t' :
  window_inv base ev sv rest hs vs vl st t -> save.poll st hs t = Done (r, st', hs', t') ->
  exists sv' rest', window_inv base ev sv' rest' hs' vs vl st' t'.
Proof.
  intros Hi Hp. unfold save.poll in Hp. destruct (wait_while_ready _ _ _ _).
  - inv_bind Hp. destruct r0 as [[[ok saved] hs1] t1].
    apply (save_pending_inv base ev vs vl st _ _ sv rest) in E as (-> & sv' & rest' & Hi'); [|done].
    injection Hp as <- <- <- <-. exists sv', rest'. by apply window_inv_save.
  - injection Hp as <- <- <- <-. exists sv, rest. by apply window_inv_save.
Qed.

(** *** The linking stage *)

Lemma link_next_pending front rest id :
  Forall (fun e => slice_status e.2 = status.Verified \/ slice_status e.2 = status.Saved) front ->
  Forall (fun e => slice_status e.2 <> status.Verified /\ slice_status e.2 <> status.Saved) rest ->
  link_linear.next_pending (front ++ rest) = Some id ->
  exists s tl, rest = (id, s) :: tl /\ slice_status s = status.VerifiedInternally.
Proof.
  intros Hf Hrest Hn. induction Hf as [|[i s] front Hs _ IH]; cbn in Hn.
  - destruct rest as [|[i s] rest]; [done|]. cbn in Hn. apply Forall_cons in Hrest as [[Hn1 Hn2] _].
    cbn in Hn1, Hn2. destruct (slice_status s) eqn:Es; try done. injection Hn as ->. by exists s, rest.
  - cbn in Hs. destruct Hs as [Hs|Hs]; rewrite Hs in Hn; by apply IH.
Qed.

Lemma verify_slice_link_headers s num l p : headers s = Some l ->
  link_linear.verify_slice_link config s p = link_linear.verify_slice_link config (list_slice num l) p.
Proof. intros Hl. unfold link_linear.verify_slice_link. by rewrite Hl. Qed.

Lemma verify_slice_link_some s p : link_linear.verify_slice_link config s p = Done true ->
  exists h l, headers s = Some (h :: l) /\ Z.of_nat (length (h :: l)) = HEADER_SLICE_SIZE.
Proof.
  unfold link_linear.verify_slice_link. destruct (headers s) as [[|h l]|]; [done| |done].
  destruct (Z.eqb_spec (Z.of_nat (length (h :: l))) HEADER_SLICE_SIZE); [|done]. eauto.
Qed.

Lemma link_slice_inv base ev sv rest hs vs L st t id ok L' hs' :
  window_inv base ev sv rest hs vs (Some L) st t ->
  link_linear.find_next_pending_monotonic hs = Some id ->
  link_linear.verify_pending_slice config id L hs = Done (ok, L', hs') ->
  exists rest', window_inv base ev sv rest' hs' vs (Some L') st t.
Proof.
  intros Hi Hn Hp. destruct (Hi) as [Hw Hat Hmax Hbase Hd Hsv Hrest Hok Hev Htasks Hlink Hord Hcan Ht].
  destruct Hlink as (Hg & Hinv & vf & tl & -> & Hvf & Htl & Hlnk & Hlast).
  unfold link_linear.find_next_pending_monotonic in Hn. rewrite Hd, (assoc_L app) in Hn.
  apply Forall_app in Hrest as [Hrest1 Hrest2].
  apply link_next_pending in Hn as (s & tl' & -> & Hst).
  2: { apply Forall_app. split; (eapply Forall_impl; [eassumption|]); intros ?; [by right|by left]. }
  2: { apply Forall_forall. intros e He. rewrite Forall_forall in Hrest2, Htl.
       split; [by apply Htl|by apply Hrest2]. }
  assert (slices hs !! length (sv ++ vf) = Some (id, s)) as Hj.
  { rewrite Hd, (assoc_L app). apply lookup_middle. }
  unfold link_linear.verify_pending_slice in Hp. rewrite (read_deque _ _ _ _ Hw Hj) in Hp. cbn in Hp.
  assert (slice_ok known check good s) as Hoks. { rewrite Forall_lookup in Hok. apply (Hok _ _ Hj). }
  inv_bind Hp. destruct r.
  2: { injection Hp as <- <- <-. rewrite Hinv.
       destruct (set_status_of_deque hs _ id s status.Invalid Hw Hj) as (c & Heq & Hw').
       rewrite Heq in *. eapply change_inv; [done| |done|].
       - apply (related_insert change _ _ id s); [done|]. right. rewrite Hst.
         split_and!; [done..|]. intros [Ha _]. split; [done|]. cbn. destruct Hgood; naive_solver congruence.
       - eapply tasks_ok_mono; [|exact Htasks]. intros id' s' [k Hk]%list_elem_of_lookup Hst'.
         apply (list_elem_of_lookup_2 _ k). rewrite list_lookup_insert_ne; [done|]. congruence. }
  destruct (verify_slice_link_some _ _ E) as (h & l & Hl & Hlen). rewrite Hl in Hp.
  cbn [o_unwrap mbind outcome_bind] in Hp.
  destruct (last (h :: l)) as [h'|] eqn:El; [|by apply last_None in El].
  injection Hp as <- <- <-.
  destruct (set_status_of_deque hs _ id s status.Verified Hw Hj) as (c & Heq & Hw').
  rewrite Heq in *. rewrite Hd, (assoc_L app), insert_middle in *.
  exists (vf ++ (id, with_status s status.Verified) :: tl').
  apply Forall_cons in Hrest2 as [_ Hrest2]. apply Forall_cons in Htl as [_ Htl].
  split; cbn; try done.
  - apply rebuilt_at; [done|by rewrite Hd, !length_app|].
    destruct Hat as [_ Hc _ _ _]. rewrite Hd in Hc.
    intros k e Hk. destruct (decide (k = length (sv ++ vf))) as [->|Hne].
    + rewrite lookup_middle in Hk. injection Hk as <-. cbn. by apply (Hc _ (id, s)), lookup_middle.
    + apply Hc. rewrite <- (insert_middle _ tl' (id, s) (id, with_status s status.Verified)) in Hk.
      by rewrite list_lookup_insert_ne in Hk.
  - by rewrite <- (assoc_L app).
  - apply Forall_app. split; [done|]. by constructor.
  - apply Forall_app in Hok as [Hok1 Hok2]. apply Forall_cons in Hok2 as [_ Hok2].
    apply Forall_app. split; [done|]. constructor; [|done]. destruct Hoks as [Ha Hch]. split; [done|].
    intros _. apply passes_status, Hch. left. congruence.
  - eapply tasks_ok_mono; [|exact Htasks]. intros id' s' Hin Hst'. apply elem_of_app in Hin as [Hin|Hin].
    { apply elem_of_app. by left. }
    apply elem_of_cons in Hin as [[= -> ->]|Hin]; [congruence|]. apply elem_of_app. right. by right.
  - split_and!; [done..|]. exists (vf ++ [(id, with_status s status.Verified)]), tl'.
    assert (ev ++ headers_in sv ++ headers_in (vf ++ [(id, with_status s status.Verified)]) =
      (ev ++ headers_in sv ++ headers_in vf) ++ [h :: l]) as ->.
    { unfold headers_in. rewrite fmap_app. cbn. rewrite Hl. cbn. by rewrite <- !(assoc_L app). }
    split_and!.
    + by rewrite <- (assoc_L app).
    + apply Forall_app. split; [done|]. by constructor.
    + done.
    + apply linked_app. split; [done|]. cbn [linked]. split; [|done]. rewrite <- Hlast.
      by rewrite <- (verify_slice_link_headers s 0).
    + rewrite newest_app. unfold newest at 1. cbn [foldl]. by rewrite El.
Qed.

Lemma link_pending_inv base ev sv vs st t rounds : forall updated rest hs L updated' L' hs',
  window_inv base ev sv rest hs vs (Some L) st t ->
  link_linear.verify_pending_monotonic config rounds updated L hs = Done (updated', L', hs') ->
  exists rest', window_inv base ev sv rest' hs' vs (Some L') st t.
Proof.
  induction rounds as [|rounds IH]; intros updated rest hs L updated' L' hs' Hi Hp; cbn in Hp.
  { injection Hp as <- <- <-. eauto. }
  destruct (link_linear.find_next_pending_monotonic hs) as [id|] eqn:En.
  2: { injection Hp as <- <- <-. eauto. }
  inv_bind Hp. destruct r as [[ok L1] hs1].
  destruct (link_slice_inv _ _ _ _ _ _ _ _ _ _ _ _ _ Hi En E) as (rest1 & Hi1).
  destruct ok; [by eapply IH|]. injection Hp as <- <- <-. eauto.
Qed.

Lemma window_inv_link base ev sv rest hs vs L st t w n :
  window_inv base ev sv rest hs vs (Some L) st t ->
  window_inv base ev sv rest hs vs (Some (link_linear.with_waiting L w n)) st t.
Proof. by intros []. Qed.

Lemma link_inv base ev sv rest hs vs L st t r L' hs' :
  window_inv base ev sv rest hs vs (Some L) st t -> link_linear.poll config L hs = Done (r, L', hs') ->
  exists rest', window_inv base ev sv rest' hs' vs (Some L') st t.
Proof.
  intros Hi Hp. unfold link_linear.poll in Hp. destruct (wait_while_ready _ _ _ _).
  - inv_bind Hp. destruct r0 as [[updated L1] hs1].
    apply (link_pending_inv base ev sv vs st t _ _ rest) in E as (rest' & Hi'); [|done].
    injection Hp as <- <- <-. exists rest'. by apply window_inv_link.
  - injection Hp as <- <- <-. exists rest. by apply window_inv_link.
Qed.

(** *** The loop *)

Definition window_ok (w : Window T) : Prop := exists base ev sv rest,
  window_inv base ev sv rest (header_slices w) (verify_stage w) (verify_link_stage w) (save_stage w)
    (db_transaction w).

(** The headers that an event brings. *)
Definition event_known (e : Event) : Prop :=
  match e with PollFetchReceive arrival => arrival_known known arrival | _ => True end.

Lemma poll_window_ok num_cpus e w r w' : event_known e -> window_ok w ->
  poll_window config num_cpus check good e w = Done (r, w') -> window_ok w'.
Proof.
  intros Hk (base & ev & sv & rest & Hi) Hp. destruct w as [hs fr over rt vs vl pn st rf tb t].
  cbn in Hi. pose proof (inv_wf _ _ _ _ _ _ _ _ _ Hi) as Hw.
  destruct e; cbn in Hp.
  - inv_bind Hp. destruct r0 as [[r1 fr'] hs']. injection Hp as <- <-.
    apply (fetch_request_quiet known) in E; [|done]. destruct (quiet_inv _ _ _ _ _ _ _ _ _ _ Hi E) as [rest' ?].
    by exists base, ev, sv, rest'.
  - destruct (fetch_receive.poll arrival over hs) as [[r1 over'] hs'] eqn:E. injection Hp as <- <-.
    apply (fetch_receive_quiet known) in E; [|done..]. destruct (quiet_inv _ _ _ _ _ _ _ _ _ _ Hi E) as [rest' ?].
    by exists base, ev, sv, rest'.
  - inv_bind Hp. destruct r0 as [[r1 rt'] hs']. injection Hp as <- <-.
    apply (retry_quiet known) in E; [|done]. destruct (quiet_inv _ _ _ _ _ _ _ _ _ _ Hi E) as [rest' ?].
    by exists base, ev, sv, rest'.
  - inv_bind Hp. destruct r0 as [[r1 vs'] hs']. injection Hp as <- <-.
    destruct (verify_inv _ _ _ _ _ _ _ _ _ _ _ _ _ _ Hi E) as [rest' ?]. by exists base, ev, sv, rest'.
  - destruct vl as [L|]; [|by injection Hp as <- <-; exists base, ev, sv, rest].
    inv_bind Hp. destruct r0 as [[r1 L'] hs']. injection Hp as <- <-.
    destruct (link_inv _ _ _ _ _ _ _ _ _ _ _ _ Hi E) as [rest' ?]. by exists base, ev, sv, rest'.
  - inv_bind Hp. destruct r0 as [[r1 pn'] hs']. injection Hp as <- <-.
    apply (penalize_quiet known) in E; [|done]. destruct (quiet_inv _ _ _ _ _ _ _ _ _ _ Hi E) as [rest' ?].
    by exists base, ev, sv, rest'.
  - inv_bind Hp. destruct r0 as [[[r1 st'] hs'] t']. injection Hp as <- <-.
    destruct (save_inv _ _ _ _ _ _ _ _ _ _ _ _ _ Hi E) as (sv' & rest' & ?). by exists base, ev, sv', rest'.
  - unfold refill.poll in Hp. destruct (wait_while_ready _ _ _ _); injection Hp as <- <-;
      [|by exists base, ev, sv, rest].
    destruct (refill_inv _ _ _ _ _ _ _ _ _ Hi) as (base' & new & ?).
    by exists base', (ev ++ headers_in sv), [], (rest ++ new).
  - destruct tb as [tb|]; [|by injection Hp as <- <-; exists base, ev, sv, rest].
    destruct (top_block.poll arrival tb) as [r1 tb']. injection Hp as <- <-. by exists base, ev, sv, rest.
Qed.

Lemma notify_window_ok w : window_ok w -> window_ok (notify_window w).
Proof.
  intros (base & ev & sv & rest & Hi). destruct w as [hs fr over rt vs vl pn st rf tb t].
  exists base, ev, sv, rest. cbn in *. destruct Hi as [[] [] ? ? ? ? ? ? ? ? ? ? ? ?]. by split; [split|split|..].
Qed.

Lemma run_window_ok num_cpus events : Forall event_known events -> forall w stop w', window_ok w ->
  run_window config num_cpus check good events w = Done (stop, w') -> window_ok w'.
Proof.
  induction 1 as [|e events Hk _ IH]; intros w stop w' Hok Hr; cbn in Hr.
  { by injection Hr as <- <-. }
  inv_bind Hr. destruct r as [r w1]. pose proof (poll_window_ok _ _ _ _ _ Hk Hok E) as Hok1.
  unfold after_poll in Hr. destruct r; [by eapply IH| |by injection Hr as <- <-].
  destruct (negb _ && _); [|by injection Hr as <- <-].
  eapply IH; [|exact Hr]. by apply notify_window_ok.
Qed.

End invariant.
