(* ===== verification/HeaderChainSpec.v ===== *)
(** What the downloader of headers writes: a slice that passes the verifier of the proof of
    work chains is a chain of headers, slices that are linked make a longer chain, and saving a
    chain makes its headers canonical. *)
From S2P Require Import Prelude Word EvmState Transaction Precompiled IntraBlockState Consensus MemState Rlp StagedSync Kv Stages ChainAccess CodecSpec Samples.
From S2P Require Import HeaderSlices HeaderStages HeaderLoop HeaderSlicesSpec HeaderLoopSpec.
From Stdlib Require Import ZArith Lia Strings.Byte.
From stdpp Require Import base list option numbers gmap.
#[local] Open Scope Z_scope.

Lemma o_unwrap_done {A} (o : option A) a : o_unwrap o = Done a -> o = Some a.
Proof. destruct o; cbn; congruence. Qed.

Lemma elem_of_concat_list {A} (x : A) ls : x ∈ concat ls <-> exists l, l ∈ ls /\ x ∈ l.
Proof. rewrite list_elem_of_In, in_concat. setoid_rewrite list_elem_of_In. done. Qed.

(** ** The verifier *)

Section chain.
Context `{Keccak} `{RlpStream}.
#[local] Existing Instance ethash_verifier.make_ethash_verifier.
Variable config : ChainConfig.

(** A header is the genesis block or a child of the header before. *)
Definition follows (p : option cached.BlockHeader) (h : cached.BlockHeader) : Prop :=
  if decide (cached.number h = 0) then cached.hash h = genesis_block_hash config
  else exists p', p = Some p' /\ ethash_verifier.ethash_verify_link h p' (chain_spec config) = Done true.

(** A chain of headers from a number on. *)
Fixpoint chain_from (p : option cached.BlockHeader) (n : Z) (l : list cached.BlockHeader) : Prop :=
  match l with
  | [] => True
  | h :: l => cached.number h = n /\ sound h /\ follows p h /\ chain_from (Some h) (n + 1) l
  end.

Lemma chain_from_app p n a b : chain_from p n (a ++ b) <->
  chain_from p n a /\ chain_from (newest p [a]) (n + Z.of_nat (length a)) b.
Proof.
  revert p n. induction a as [|h a IH]; intros p n; cbn [app chain_from length].
  - unfold newest. cbn. rewrite Z.add_0_r. naive_solver.
  - rewrite IH. replace (newest (Some h) [a]) with (newest p [h :: a]).
    + replace (n + 1 + Z.of_nat (length a)) with (n + Z.of_nat (S (length a))) by lia. tauto.
    + unfold newest. cbn [foldl]. rewrite last_cons. by destruct (last a).
Qed.

Lemma and_then_true a b : and_then a b = Done true <-> a = Done true /\ b = Done true.
Proof. destruct a as [[]| |]; cbn; naive_solver. Qed.

Lemma all_of_true {A} (f : A -> outcome bool) l : all_of f l = Done true <-> Forall (fun a => f a = Done true) l.
Proof.
  induction l as [|a l IH]; cbn [all_of]; [split; [constructor|done]|].
  rewrite and_then_true, IH, Forall_cons. done.
Qed.

Lemma pairs_cons {A} (a b : A) l :
  enumerate_sequential_pairs (a :: b :: l) = (a, b) :: enumerate_sequential_pairs (b :: l).
Proof. done. Qed.

(** The checks of a slice, one by one. *)
Lemma ethash_verify_slice_true l start now : 
  ethash_verifier.ethash_verify_slice l start now (chain_spec config) = Done true ->
  Forall (fun '(p, h) => ethash_verifier.ethash_verify_link h p (chain_spec config) = Done true)
    (enumerate_sequential_pairs l) /\
  (forall h, head l = Some h -> cached.number h = start) /\
  (forall h, last l = Some h -> cached.timestamp h < now).
Proof.
  unfold ethash_verifier.ethash_verify_slice. rewrite !and_then_true. intros [[[[Hh Hn] Ht] Hd] _].
  injection Hh as Hh. injection Ht as Ht. unfold ethash_verifier.verify_slice_difficulties in Hd.
  apply all_of_true in Hd. split_and!.
  - assert (Forall (fun '(p, h) => ethash_verifier.verify_link_block_nums h p = Done true)
      (enumerate_sequential_pairs l)) as Hns.
    { destruct l as [|h l]; [constructor|]. cbn [ethash_verifier.verify_slice_block_nums] in Hn.
      apply and_then_true in Hn as [Hn _]. apply all_of_true in Hn.
      eapply Forall_impl; [exact Hn|]. by intros []. }
    assert (forall p h, (p, h) ∈ enumerate_sequential_pairs l ->
      ethash_verifier.verify_link_timestamps h p = true) as Hts.
    { intros p h Hin. unfold ethash_verifier.verify_slice_timestamps in Ht.
      destruct (last l) as [x|] eqn:El; [|apply last_None in El as ->; by apply elem_of_nil in Hin].
      apply andb_true_iff in Ht as [Ht _]. rewrite forallb_forall in Ht.
      specialize (Ht (p, h)). apply Ht. by apply list_elem_of_In. }
    rewrite Forall_forall in Hns, Hd |- *. intros [p h] Hin. unfold ethash_verifier.ethash_verify_link.
    rewrite !and_then_true. split_and!; [|by apply (Hns (p, h))| |by apply (Hd (p, h))|done].
    + unfold ethash_verifier.verify_slice_is_linked_by_parent_hash in Hh. rewrite forallb_forall in Hh.
      f_equal. specialize (Hh (p, h)). apply Hh. by apply list_elem_of_In.
    + f_equal. by apply Hts.
  - intros h Hl. destruct l as [|h' l]; [done|]. injection Hl as ->.
    cbn [ethash_verifier.verify_slice_block_nums] in Hn. apply and_then_true in Hn as [_ [= Hn]]. lia.
  - intros h Hl. unfold ethash_verifier.verify_slice_timestamps in Ht. rewrite Hl in Ht.
    apply andb_true_iff in Ht as [_ Ht]. lia.
Qed.

Lemma verify_link_number h p : ethash_verifier.ethash_verify_link h p (chain_spec config) = Done true ->
  cached.number h = cached.number p + 1.
Proof.
  unfold ethash_verifier.ethash_verify_link. rewrite !and_then_true. intros [[[[_ Hn] _] _] _].
  unfold ethash_verifier.verify_link_block_nums in Hn. inv_bind Hn. injection Hn as Hn.
  unfold u64_checked, checked in E. destruct (_ && _) in E; [|done]. injection E as <-. lia.
Qed.

(** Headers that are linked pairwise. *)
Lemma pairs_chain h l : 0 <= cached.number h -> Forall sound (h :: l) ->
  Forall (fun '(p, h) => ethash_verifier.ethash_verify_link h p (chain_spec config) = Done true)
    (enumerate_sequential_pairs (h :: l)) ->
  chain_from (Some h) (cached.number h + 1) l.
Proof.
  revert h. induction l as [|h' l IH]; intros h Hpos Hs Hp; [done|].
  rewrite pairs_cons in Hp. apply Forall_cons in Hp as [Hl Hp]. apply Forall_cons in Hs as [_ Hs].
  pose proof (verify_link_number _ _ Hl) as Hn. cbn [chain_from].
  split_and!; [done|by apply Forall_cons in Hs as [? _]| |].
  - unfold follows. rewrite decide_False by lia. eauto.
  - rewrite <- Hn. apply IH; [lia|done..].
Qed.

(** A slice that is verified internally and linked continues a chain. *)
Lemma slice_chain p n l : 0 <= n ->
  passes (verify.verify_slice_internally config) (list_slice n l) -> Forall sound l ->
  link_linear.verify_slice_link config (list_slice 0 l) p = Done true ->
  chain_from p n l /\ Z.of_nat (length l) = HEADER_SLICE_SIZE.
Proof.
  intros Hn [now Hc] Hs Hl. destruct (verify_slice_link_some _ _ _ Hl) as (h & l' & [= ->] & Hlen).
  split; [|done].
  change (ethash_verifier.ethash_verify_slice (h :: l') n now (chain_spec config) = Done true) in Hc.
  apply ethash_verify_slice_true in Hc as (Hp & Hh & _).
  specialize (Hh h eq_refl). cbn [chain_from]. split_and!; [done|by apply Forall_cons in Hs as [? _]| |].
  - unfold follows. unfold link_linear.verify_slice_link in Hl. cbn [list_slice headers with_headers] in Hl.
    rewrite Hlen, Z.eqb_refl in Hl. cbn [negb] in Hl. case_decide as Hd.
    + rewrite Hd, Z.eqb_refl in Hl. injection Hl as Hl. lia.
    + rewrite (proj2 (Z.eqb_neq _ _) Hd) in Hl. destruct p as [p|]; [|done]. by exists p.
  - rewrite <- Hh. apply pairs_chain; [lia|done..].
Qed.

Lemma slices_chain n ls : forall p k, 0 <= n ->
  (forall i l, ls !! i = Some l ->
    passes (verify.verify_slice_internally config)
      (list_slice (n + HEADER_SLICE_SIZE * Z.of_nat (k + i)) l) /\ Forall sound l) ->
  linked config p ls ->
  chain_from p (n + HEADER_SLICE_SIZE * Z.of_nat k) (concat ls) /\
  Z.of_nat (length (concat ls)) = HEADER_SLICE_SIZE * Z.of_nat (length ls).
Proof.
  induction ls as [|l ls IH]; intros p k Hn Hc Hl; [by cbn; split; [done|lia]|].
  cbn [linked] in Hl. destruct Hl as [Hl Hls]. destruct (Hc 0%nat l eq_refl) as [Hc0 Hs0].
  rewrite Nat.add_0_r in Hc0.
  destruct (slice_chain p (n + HEADER_SLICE_SIZE * Z.of_nat k) l) as [Hch Hlen]; [|done..|].
  { unfold HEADER_SLICE_SIZE. lia. }
  destruct (IH (newest p [l]) (S k) Hn) as [Hch' Hlen']; [|done|].
  { intros i l' Hi. replace (S k + i)%nat with (k + S i)%nat by lia. by apply Hc. }
  cbn [concat]. split.
  - apply chain_from_app. split; [done|]. rewrite Hlen.
    replace (n + HEADER_SLICE_SIZE * Z.of_nat k + HEADER_SLICE_SIZE)
      with (n + HEADER_SLICE_SIZE * Z.of_nat (S k)) by lia. done.
  - rewrite length_app, Nat2Z.inj_add, Hlen, Hlen'. cbn [length]. lia.
Qed.

End chain.

(** ** Saving a chain *)

Section saving.
Context `{Keccak} `{RlpStream} {T : Type -> Type} {KV : Kv T}.

Abbreviation canonical_map t := (content (save.canonical_of t)).
Abbreviation header_map t := (content (save.headers_of t)).

Lemma sound_word h : sound h -> word (cached.hash h).
Proof.
  intros Hs. rewrite sound_hash by done. apply be_val_uint. unfold blen.
  rewrite length_keccak_digest. lia.
Qed.

Lemma header_key_inj n x m y : word x -> word y -> header_key n x = header_key m y -> n = m /\ x = y.
Proof. unfold header_key, uint. generalize (2 ^ 256). intros w Hx Hy Heq. apply (Z.div_mod_unique w); lia. Qed.

Lemma save_header_maps h (t t' : HeaderTables T) : save.save_header h true t = Done t' ->
  canonical_map t' = <[cached.number h := cached.hash h]> (canonical_map t) /\
  header_map t' = <[header_key (cached.number h) (cached.hash h) := cached.header h]> (header_map t).
Proof.
  unfold save.save_header, save.update_canonical_chain_header. intros Hs. inv_bind Hs. injection Hs as <-.
  inv_bind E. cbn. rewrite kv_put_content. destruct r0 as [d|]; injection E as <-; cbn;
    by rewrite kv_put_content.
Qed.

Lemma save_chain l : forall n (t t' : HeaderTables T),
  (forall i h, l !! i = Some h -> cached.number h = n + Z.of_nat i /\ sound h) ->
  save.save_headers l true t = Done t' ->
  (forall i h, l !! i = Some h ->
     canonical_map t' !! (n + Z.of_nat i) = Some (cached.hash h) /\
     header_map t' !! header_key (n + Z.of_nat i) (cached.hash h) = Some (cached.header h)) /\
  (forall m, ~ n <= m < n + Z.of_nat (length l) ->
     canonical_map t' !! m = canonical_map t !! m /\
     forall x, word x -> header_map t' !! header_key m x = header_map t !! header_key m x).
Proof.
  induction l as [|h l IH]; intros n t t' Hl Hs; cbn [save.save_headers] in Hs.
  { injection Hs as <-. split; [by intros i h|done]. }
  inv_bind Hs. destruct (Hl 0%nat h eq_refl) as [Hn Hh]. rewrite Z.add_0_r in Hn.
  apply save_header_maps in E as [Hc Hm]. rewrite Hn in Hc, Hm.
  destruct (IH (n + 1) r t') as [Hin Hout]; [|done|].
  { intros i h' Hi. destruct (Hl (S i) h' Hi) as [-> ?]. split; [lia|done]. }
  pose proof (sound_word h Hh) as Hw. split.
  - intros [|i] h' Hi.
    + injection Hi as <-. rewrite Z.add_0_r. destruct (Hout n) as [-> Hx]; [lia|].
      rewrite (Hx _ Hw), Hc, Hm, !lookup_insert_eq. done.
    + replace (n + Z.of_nat (S i)) with (n + 1 + Z.of_nat i) by lia. by apply Hin.
  - intros m Hnm. cbn [length] in Hnm. destruct (Hout m) as [-> Hx]; [lia|].
    split; [rewrite Hc, lookup_insert_ne; [done|lia]|]. intros x Hxw.
    rewrite (Hx x Hxw), Hm, lookup_insert_ne; [done|]. intros Heq.
    apply header_key_inj in Heq as [-> _]; [lia|done..].
Qed.

(** A header is a valid child of another one with a given hash. *)
Definition valid_child (spec : ChainSpec) (h p : BlockHeader) (hash : Z) : Prop :=
  header.parent_hash h = hash /\ header.number h = header.number p + 1 /\
  header.timestamp p < header.timestamp h /\
  ethash_verifier.verify_link_difficulties (cached.from h) (cached.from p) spec = Done true.

(** The canonical headers of a range: each is the genesis block or a valid child of the
    canonical header before. *)
Definition canonical_chain (config : ChainConfig) (t : HeaderTables T) (lo hi : Z) : Prop :=
  forall n, lo <= n < hi -> exists h,
  canonical_map t !! n = Some (header_hash h) /\
  header_map t !! header_key n (header_hash h) = Some h /\ header.number h = n /\
  if decide (n = 0) then header_hash h = genesis_block_hash config
  else exists p hash, canonical_map t !! (n - 1) = Some hash /\
    header_map t !! header_key (n - 1) hash = Some p /\ valid_child (chain_spec config) h p hash.

Lemma verify_link_valid spec h p :
  ethash_verifier.ethash_verify_link h p spec = Done true ->
  valid_child spec (cached.header h) (cached.header p) (cached.hash p).
Proof.
  intros Hl. unfold ethash_verifier.ethash_verify_link in Hl. rewrite !and_then_true in Hl.
  destruct Hl as [[[[Hh Hn] Ht] Hd] _]. injection Hh as Hh. injection Ht as Ht.
  unfold ethash_verifier.verify_link_by_parent_hash, ethash_verifier.verify_link_timestamps in *.
  unfold ethash_verifier.verify_link_block_nums in Hn. inv_bind Hn. injection Hn as Hn.
  unfold u64_checked, checked in E. destruct (_ && _) in E; [|done]. injection E as <-.
  unfold cached.number, cached.timestamp, cached.parent_hash in *.
  split_and!; [lia|lia|lia|exact Hd].
Qed.

Lemma chain_from_lookup config l : forall p n i h, chain_from config p n l -> l !! i = Some h ->
  cached.number h = n + Z.of_nat i /\ sound h /\
  follows config (match i with O => p | S j => l !! j end) h.
Proof.
  induction l as [|h' l IH]; intros p n i h Hc Hi; [done|]. destruct Hc as (Hn & Hs & Hf & Hc).
  destruct i as [|i]; [injection Hi as <-; split_and!; [lia|done..]|].
  destruct (IH _ _ i h Hc Hi) as (Hn' & Hs' & Hf'). split_and!; [lia|done|]. by destruct i.
Qed.

(** Saving a chain that continues the canonical one. *)
Lemma saved_chain config p n l (t t' : HeaderTables T) : 0 <= n ->
  (forall m x, canonical_map t !! m = Some x -> word x) ->
  (n = 0 \/ exists h, p = Some h /\ save.load_canonical_header_by_num (n - 1) t = Some h) ->
  chain_from config p n l -> save.save_headers l true t = Done t' ->
  canonical_chain config t' n (n + Z.of_nat (length l)) /\
  forall m, m < n -> canonical_map t' !! m = canonical_map t !! m.
Proof.
  intros Hn Hty Hp Hc Hs. pose proof (chain_from_lookup config l p n) as Hlk.
  destruct (save_chain l n t t') as [Hin Hout]; [|done|].
  { intros i h Hi. destruct (Hlk i h Hc Hi) as (? & ? & _). done. }
  split; [|intros m Hm; apply Hout; lia].
  intros m Hm. assert (exists i, m = n + Z.of_nat i /\ (i < length l)%nat) as (i & -> & Hlt).
  { exists (Z.to_nat (m - n)). lia. }
  destruct (lookup_lt_is_Some_2 l i Hlt) as [h Hi].
  destruct (Hin i h Hi) as [Hcn Hhd]. destruct (Hlk i h Hc Hi) as (Hnum & Hsnd & Hf).
  exists (cached.header h). rewrite <- (sound_hash h) by done. split_and!; [done..|].
  unfold follows in Hf. rewrite Hnum in Hf. case_decide as Hd; [done|].
  destruct Hf as (q & Hq & Hl). apply verify_link_valid in Hl. exists (cached.header q), (cached.hash q).
  destruct i as [|j].
  - destruct Hp as [Hp|(h0 & Hp & Hload)]; [lia|]. rewrite Hp in Hq. injection Hq as ->.
    rewrite Z.add_0_r in *. destruct (Hout (n - 1)) as [-> Hx]; [lia|].
    unfold save.load_canonical_header_by_num in Hload.
    apply bind_Some in Hload as (x & Hx1 & Hload). apply bind_Some in Hload as (hd & Hx2 & [= <-]).
    rewrite kv_get_content in Hx1. rewrite kv_get_content in Hx2. cbn in Hl |- *. split_and!; [done| |done].
    by rewrite (Hx x (Hty _ _ Hx1)).
  - destruct (Hin j q Hq) as [Hcq Hhq].
    replace (n + Z.of_nat (S j) - 1) with (n + Z.of_nat j) by lia. done.
Qed.

End saving.

(** ** The linear phase *)

Section linear.
Context `{Keccak} `{RlpStream} {T : Type -> Type} {KV : Kv T}.
#[local] Existing Instance ethash_verifier.make_ethash_verifier.

Lemma internal_stable config : check_stable (verify.verify_slice_internally config).
Proof. intros s s' now Hs Hh. unfold verify.verify_slice_internally. by rewrite Hs, Hh. Qed.

Lemma internal_needs config : check_needs_headers (verify.verify_slice_internally config).
Proof. intros s now Hc. unfold verify.verify_slice_internally in Hc. by destruct (headers s). Qed.

(** A new window: empty slices from the first block on. *)
Lemma new_window size mem start final hs : 0 < size -> 0 <= mem -> 0 <= start -> final < 2 ^ 64 ->
  slices.new size mem start final = Done hs ->
  slices_wf hs /\ window_at start hs /\ max_slices hs < 2 ^ 64 /\
  Forall (fun e => e.2 = fresh_slice (start_block_num e.2)) (slices hs).
Proof.
  intros Hsz Hmem Hst Hfin Hn. unfold slices.new in Hn. inv_bind Hn. inv_bind Hn.
  unfold unsigned_sub in E. destruct (Z.leb_spec start final) as [Hle|]; [|done]. injection E as <-.
  unfold usize_checked, checked in E0. destruct (_ && _) in E0; [|done]. injection E0 as <-.
  set (max := Z.min _ _) in Hn.
  assert (0 <= max) as Hmax0.
  { unfold max, estimate_max_slices_for_mem_limit, HEADER_SLICE_SIZE. apply Z.min_glb.
    - apply Z.div_pos; [|lia]. by apply Z.div_pos.
    - apply Z.div_pos; lia. }
  unfold slices.from_slices_vec in Hn. cbn [from_option id] in Hn. unfold id in Hn.
  destruct (is_block_num_aligned_to_slice_start start) eqn:Eas; cbn [negb] in Hn; [|discriminate].
  inv_bind Hn.
  unfold u64_checked, checked in E. destruct (_ && _) eqn:Eb in E; [|done]. injection E as <-.
  destruct (is_block_num_aligned_to_slice_start final) eqn:Eaf; cbn [negb] in Hn; [|discriminate].
  injection Hn as <-.
  unfold is_block_num_aligned_to_slice_start in *. apply Z.eqb_eq in Eas, Eaf.
  set (l := slices.allocate 0 (slices.resize [] start max)).
  assert (length l = Z.to_nat max) as Hlen.
  { unfold l, slices.allocate, slices.resize. rewrite length_imap, length_app, take_nil, length_fmap, length_seq.
    cbn. lia. }
  assert (forall i e, l !! i = Some e -> e = (i, fresh_slice (start + Z.of_nat i * HEADER_SLICE_SIZE))) as Hlk.
  { intros i e Hi. unfold l, slices.allocate, slices.resize in Hi. rewrite take_nil in Hi. cbn in Hi.
    rewrite list_lookup_imap, list_lookup_fmap in Hi. apply fmap_Some in Hi as (s & Hs & ->).
    apply fmap_Some in Hs as (k & Hk & ->). apply lookup_seq in Hk as [-> _]. done. }
  assert ((final - start) mod HEADER_SLICE_SIZE = 0) as Hal.
  { rewrite Zminus_mod, Eas, Eaf. done. }
  assert (max * HEADER_SLICE_SIZE <= final - start) as Hfit.
  { unfold max, HEADER_SLICE_SIZE in *. apply Z.mod_divide in Hal as [q Hq]; [|done].
    assert ((final - start + 192 - 1) / 192 = q) as Hdiv.
    { symmetry. apply (Z.div_unique _ _ _ 191); lia. }
    rewrite Hdiv. lia. }
  assert (Z.of_nat (length l) < 2 ^ 64) as Hlen64 by (unfold HEADER_SLICE_SIZE in Hfit; lia).
  split_and!.
  - split; cbn.
    + rewrite app_nil_r. apply NoDup_alt. intros i j id Hi Hj.
      rewrite list_lookup_fmap in Hi, Hj. apply fmap_Some in Hi as (e & He & ->).
      apply fmap_Some in Hj as (e' & He' & Heq). rewrite (Hlk _ _ He), (Hlk _ _ He') in Heq. done.
    + intros id. rewrite app_nil_r. intros (e & -> & [i Hi]%list_elem_of_lookup)%list_elem_of_fmap.
      pose proof (lookup_lt_Some _ _ _ Hi). by rewrite (Hlk _ _ Hi).
    + apply make_watches_counts.
    + done.
  - split; cbn; [done| | |done|].
    + intros i e Hi. rewrite (Hlk _ _ Hi). cbn. unfold HEADER_SLICE_SIZE. lia.
    + fold l. rewrite Hlen. unfold HEADER_SLICE_SIZE. lia.
    + lia.
  - cbn. unfold HEADER_SLICE_SIZE in Hfit. lia.
  - cbn. apply Forall_lookup. intros i e Hi. by rewrite (Hlk _ _ Hi).
Qed.

(** Before any slice is verified, the linking stage starts from the parent. *)
Lemma new_link hs parent invalid L :
  Forall (fun e => e.2 = fresh_slice (start_block_num e.2)) (slices hs) ->
  link_linear.new hs parent invalid = Done L ->
  link_linear.invalid_status L = invalid /\ link_linear.last_verified_header L = parent.
Proof.
  intros Hf Hn. unfold link_linear.new in Hn. inv_bind Hn. injection Hn as <-. cbn. split; [done|].
  replace (link_linear.find_last_verified_header hs) with (@None cached.BlockHeader); [done|].
  unfold link_linear.find_last_verified_header. destruct Hf as [|[id s] l He _]; [done|].
  cbn in He. cbn. by rewrite He.
Qed.

Lemma linear_window_ok config start parent hs L t :
  slices_wf hs -> window_at start hs -> max_slices hs < 2 ^ 64 ->
  Forall (fun e => e.2 = fresh_slice (start_block_num e.2)) (slices hs) ->
  link_linear.invalid_status L = status.Invalid -> link_linear.last_verified_header L = parent ->
  window_ok config (fun _ => True) (verify.verify_slice_internally config) status.VerifiedInternally start parent t
    (linear_window hs L t).
Proof.
  intros Hw Hat Hm Hf Hinv Hlast. exists start, [], [], (slices hs).
  assert (Forall (fun e => slice_status e.2 = status.Empty) (slices hs)) as He.
  { eapply Forall_impl; [exact Hf|]. intros e Hx. cbn in *. by rewrite Hx. }
  split; cbn; try done.
  - unfold HEADER_SLICE_SIZE. lia.
  - eapply Forall_impl; [exact He|]. cbn. congruence.
  - eapply Forall_impl; [exact Hf|]. intros e Hx. cbn in *. rewrite Hx. split; [by intros l|].
    cbn. naive_solver congruence.
  - split_and!; [done..|]. exists [], (slices hs). split_and!; try done.
    eapply Forall_impl; [exact He|]. cbn. congruence.
Qed.

(** The chain that a window in a good state has saved. *)
Lemma window_ok_chain config start parent t (w : Window T) : 0 <= start ->
  is_Some (verify_link_stage w) ->
  window_ok config (fun _ => True) (verify.verify_slice_internally config) status.VerifiedInternally start parent t w ->
  exists l, chain_from config parent start l /\ save.save_headers l true t = Done (db_transaction w) /\
    start <= slices.min_block_num (header_slices w) <= start + Z.of_nat (length l).
Proof.
  intros Hst [L HL] (base & ev & sv & rest & Hi).
  pose proof (inv_slices _ _ _ _ (internal_stable config) (internal_needs config) _ _ _ _ _ _ _ _ _ _ _ _ Hi) as Hsl.
  destruct Hi as [Hw Hat Hmax Hbase Hd Hsv Hrest Hok Hev Htasks Hlink Hord Hcan Ht].
  exists (concat (ev ++ headers_in sv)). rewrite (min_block_num_at base) by done.
  rewrite HL in Hlink. destruct Hlink as (_ & _ & vf & tl & _ & _ & _ & Hlnk & _).
  rewrite (assoc_L app) in Hlnk. apply linked_app in Hlnk as [Hlnk _].
  destruct (slices_chain config start (ev ++ headers_in sv) parent 0 Hst) as [Hc Hlen]; [|done|].
  - intros i l Hil. destruct (Hsl i l Hil) as [Hp Hg]. split; [done|].
    eapply Forall_impl; [exact Hg|]. by intros h [? _].
  - rewrite Z.mul_0_r, Z.add_0_r in Hc. split_and!; [done..| |].
    + rewrite Hbase. unfold HEADER_SLICE_SIZE. lia.
    + rewrite Hlen, Hbase, length_app. unfold HEADER_SLICE_SIZE. lia.
Qed.

Lemma poll_window_link config n check good e (w : Window T) r w' :
  poll_window config n check good e w = Done (r, w') ->
  is_Some (verify_link_stage w) -> is_Some (verify_link_stage w').
Proof.
  destruct w as [hs fr over rt vs vl pn st rf tb t]. intros Hp Hs. cbn in Hs.
  destruct e; cbn in Hp; repeat (inv_bind Hp || case_match); simplify_eq; cbn; eauto.
Qed.

Lemma run_window_link config n check good events : forall (w : Window T) stop w',
  run_window config n check good events w = Done (stop, w') ->
  is_Some (verify_link_stage w) -> is_Some (verify_link_stage w').
Proof.
  induction events as [|e events IH]; intros w stop w' Hr Hs; cbn in Hr; [by injection Hr as <- <-|].
  inv_bind Hr. destruct r as [r w1]. pose proof (poll_window_link _ _ _ _ _ _ _ _ E Hs) as Hs1.
  unfold after_poll in Hr. destruct r; [by eapply IH| |by injection Hr as <- <-].
  destruct (negb _ && _); [|by injection Hr as <- <-].
  eapply IH; [exact Hr|]. by destruct w1.
Qed.

(** A run saves a chain that continues the canonical one. *)
Lemma linear_run_chain size num_cpus config mem arrivals events start max top
    (t t' : HeaderTables T) report :
  0 < size -> 0 <= mem -> 0 <= start ->
  linear_run size num_cpus config mem arrivals events start max top t = Done (Some (report, t')) ->
  exists parent l, chain_from config parent start l /\ save.save_headers l true t = Done t' /\
    start <= report_final_block_num report <= start + Z.of_nat (length l) /\
    loaded_count report = report_final_block_num report - start /\
    (l = [] \/ start = 0 \/
     exists h, parent = Some h /\ save.load_canonical_header_by_num (start - 1) t = Some h).
Proof.
  intros Hsz Hmem Hst Hr. unfold linear_run in Hr.
  destruct (negb _); [done|]. inv_bind Hr. destruct r as [topn|]; [|done]. inv_bind Hr.
  destruct (Z.leb_spec r start) as [Hle|Hlt].
  { injection Hr as <- <-. exists None, []. cbn. split_and!; [done|done|lia|lia|lia|by left]. }
  inv_bind Hr. inv_bind Hr. inv_bind Hr. inv_bind Hr. destruct r3 as [stopped w].
  destruct stopped; [|done]. inv_bind Hr. injection Hr as <- <-.
  assert (r < 2 ^ 64) as Hfin.
  { unfold phase_final in E0. inv_bind E0. injection E0 as <-.
    unfold u64_checked, checked in E6. destruct (_ && _) eqn:Eb in E6; [|done]. injection E6 as <-.
    unfold align_block_num_to_slice_start, HEADER_SLICE_SIZE. pose proof (Z.mul_div_le (start + max) 192).
    unfold u64_max in Eb. lia. }
  destruct (new_window _ _ _ _ _ Hsz Hmem Hst Hfin E2) as (Hw & Hat & Hm & Hf).
  destruct (new_link _ _ _ _ Hf E3) as [Hinv Hlast].
  pose proof (linear_window_ok config start r0 r1 r2 t Hw Hat Hm Hf Hinv Hlast) as Hok.
  eapply run_window_ok in Hok; [|apply internal_stable|apply internal_needs|by left| |exact E4].
  2: { apply Forall_forall. intros e _. destruct e as [|[]| | | | | | |]; try done. cbn. by apply Forall_forall. }
  apply run_window_link in E4; [|done].
  destruct (window_ok_chain _ _ _ _ _ Hst E4 Hok) as (l & Hc & Hs & Hmin). exists r0, l.
  unfold loaded_report in E5. inv_bind E5. injection E5 as <-. apply o_unwrap_done, unsigned_sub_inv in E6 as [_ ->].
  cbn. split_and!; [done|done|lia|lia|done|]. right.
  unfold start_block_parent in E1. destruct (Z.ltb_spec 0 start); [|left; lia]. right.
  apply outcome_bind_inv in E1 as (ph & E6 & E1). injection E1 as <-. unfold o_ok_or in E6.
  destruct (save.load_canonical_header_by_num (start - 1) t) as [h|]; [|done]. injection E6 as ->. eauto.
Qed.

Lemma linear_saved size num_cpus config mem arrivals events start max top
    (t t' : HeaderTables T) report :
  0 < size -> 0 <= mem -> 0 <= start ->
  (forall n x, content (save.canonical_of t) !! n = Some x -> word x) ->
  linear_run size num_cpus config mem arrivals events start max top t = Done (Some (report, t')) ->
  exists k, start <= report_final_block_num report <= start + k /\
    loaded_count report = report_final_block_num report - start /\
    canonical_chain config t' start (start + k) /\
    forall n, ~ start <= n < start + k ->
      content (save.canonical_of t') !! n = content (save.canonical_of t) !! n.
Proof.
  intros Hsz Hmem Hst Hty Hr. apply linear_run_chain in Hr as (p & l & Hc & Hs & Hmin & Hlc & Hp); [|done..].
  exists (Z.of_nat (length l)). split; [done|]. split; [done|]. destruct Hp as [->|Hp].
  { injection Hs as <-. cbn. split; [intros n ?; lia|done]. }
  split; [by eapply saved_chain|]. destruct (save_chain l start t t') as [_ Hout]; [|done|].
  - intros i h Hi. destruct (chain_from_lookup config l p start i h Hc Hi) as (? & ? & _). done.
  - intros n Hn. by apply Hout.
Qed.

(** C12: After any run of the linear phase, whatever the peers send and in whatever order the
    stages run, the canonical headers from the first block up to the last one that is
    reported form a chain: each is the genesis block or has the hash of the canonical header
    before as its parent, the next number, a later timestamp and the difficulty of the
    formulas.  The headers before the first block stay as they were. *)
Theorem linear_download_sound size num_cpus config mem arrivals events start max top
    (t t' : HeaderTables T) report :
  0 < size -> 0 <= mem -> 0 <= start ->
  (forall n x, content (save.canonical_of t) !! n = Some x -> word x) ->
  linear_run size num_cpus config mem arrivals events start max top t = Done (Some (report, t')) ->
  start <= report_final_block_num report /\
  loaded_count report = report_final_block_num report - start /\
  canonical_chain config t' start (report_final_block_num report) /\
  forall n, n < start -> content (save.canonical_of t') !! n = content (save.canonical_of t) !! n.
Proof.
  intros Hsz Hmem Hst Hty Hr.
  destruct (linear_saved _ _ _ _ _ _ _ _ _ _ _ _ Hsz Hmem Hst Hty Hr) as (k & Hmin & Hlc & Hcc & Hout).
  split_and!; [lia|done| |].
  - intros n Hn. apply Hcc. lia.
  - intros n Hn. apply Hout. lia.
Qed.

(** *** Unwinding *)

(** The canonical headers above a number have no gap. *)
Definition no_gap (num : Z) (m : gmap Z Z) : Prop :=
  forall i j, num <= i <= j -> is_Some (m !! j) -> is_Some (m !! i).

Lemma forget_canonical_spec rounds : forall num (c : T Z),
  (size (content c) < rounds)%nat -> no_gap num (content c) ->
  forall n, content (save.forget_canonical rounds num c) !! n =
    if decide (n < num) then content c !! n else None.
Proof.
  induction rounds as [|rounds IH]; intros num c Hsz Hg n; [lia|]. cbn [save.forget_canonical].
  rewrite kv_get_content. destruct (content c !! num) as [x|] eqn:Ex.
  - rewrite IH.
    + rewrite kv_delete_content. repeat case_decide; try lia; try done.
      * by rewrite lookup_delete_ne by lia.
      * assert (n = num) as -> by lia. apply lookup_delete_eq.
    + rewrite kv_delete_content, map_size_delete_Some by (by exists x). 
      assert (size (content c) <> O) as Hne.
      { intros Hz. apply map_size_empty_inv in Hz. rewrite Hz in Ex. by rewrite lookup_empty in Ex. }
      lia.
    + intros i j Hij. rewrite kv_delete_content. rewrite !lookup_delete_ne by lia. apply Hg. lia.
  - case_decide as Hd; [done|]. destruct (content c !! n) as [y|] eqn:Ey; [|done].
    destruct (Hg num n) as [z Hz]; [lia|by exists y|]. congruence.
Qed.

Lemma header_unwind_spec to (t : HeaderTables T) : no_gap (to + 1) (content (save.canonical_of t)) ->
  match content (save.canonical_of t) !! to with
  | Some hash => exists t', save.unwind to t = Done t' /\
      (forall n, content (save.canonical_of t') !! n =
         if decide (n <= to) then content (save.canonical_of t) !! n else None) /\
      last_header t' = Some hash /\ save.headers_of t' = save.headers_of t /\
      save.difficulties_of t' = save.difficulties_of t /\ save.numbers_of t' = save.numbers_of t
  | None => save.unwind to t = Error
  end.
Proof.
  intros Hg. unfold save.unwind.
  pose proof (forget_canonical_spec _ (to + 1) (save.canonical_of t) (Nat.lt_succ_diag_r _) Hg) as Hf.
  rewrite kv_get_content, Hf. rewrite decide_True by lia.
  destruct (content (save.canonical_of t) !! to) as [hash|]; [|done].
  eexists. split; [reflexivity|]. split_and!; try done. intros n. cbn. rewrite Hf.
  repeat case_decide; try lia; done.
Qed.

(** Unwinding the header stage to the block before a run of the linear phase takes the run back:
    the canonical headers are those before it, and the last header is the one of that block. *)
Theorem linear_download_unwound size num_cpus config mem arrivals events start max top
    (t t' : HeaderTables T) report hash :
  0 < size -> 0 <= mem -> 0 < start ->
  (forall n x, content (save.canonical_of t) !! n = Some x -> word x) ->
  (forall n, start <= n -> content (save.canonical_of t) !! n = None) ->
  content (save.canonical_of t) !! (start - 1) = Some hash ->
  linear_run size num_cpus config mem arrivals events start max top t = Done (Some (report, t')) ->
  exists t'', save.unwind (start - 1) t' = Done t'' /\
    content (save.canonical_of t'') = content (save.canonical_of t) /\ last_header t'' = Some hash.
Proof.
  intros Hsz Hmem Hst Hty Hnew Hlast Hr. assert (0 <= start) as Hst' by lia.
  destruct (linear_saved _ _ _ _ _ _ _ _ _ _ _ _ Hsz Hmem Hst' Hty Hr) as (k & _ & _ & Hcc & Hout).
  assert (forall n, start <= n -> is_Some (content (save.canonical_of t') !! n) -> n < start + k)
    as Hlt.
  { intros n Hn [x Hx]. destruct (decide (n < start + k)); [done|].
    rewrite Hout, Hnew in Hx by lia. done. }
  pose proof (header_unwind_spec (start - 1) t') as Hu. rewrite Hout, Hlast in Hu by lia.
  destruct Hu as (t'' & Hu & Hc & Hl & _).
  - intros i j Hij Hj. replace (start - 1 + 1) with start in Hij by lia. apply Hlt in Hj; [|lia].
    destruct (Hcc i) as (h & Hh & _); [lia|]. by exists (header_hash h).
  - exists t''. split_and!; [done| |done]. apply map_eq. intros n. rewrite Hc. case_decide as Hd.
    + apply Hout. lia.
    + symmetry. apply Hnew. lia.
Qed.

End linear.

(** ** The preverified phase *)

Section preverified.
Context `{Keccak} `{RlpStream} `{HeaderSliceVerifier} {T : Type -> Type} {KV : Kv T}.
Variable preverified : PreverifiedHashesConfig.
(** The chain whose hashes are listed. *)
Variable trusted : Z -> BlockHeader.

Abbreviation top := (preverified_target preverified).

Record trusted_chain : Prop := {
  trusted_number n : 0 <= n <= top -> header.number (trusted n) = n;
  trusted_parent n : 0 <= n < top -> header.parent_hash (trusted (n + 1)) = header_hash (trusted n);
  trusted_hashes i x : hashes preverified !! i = Some x ->
    x = header_hash (trusted (HEADER_SLICE_SIZE * Z.of_nat i));
}.
Hypothesis Htrusted : trusted_chain.

(** No header that was received has the hash of another one of the chain. *)
Definition distinct (known : BlockHeader -> Prop) : Prop :=
  forall h n, 0 <= n <= top -> known h -> header_hash h = header_hash (trusted n) -> h = trusted n.

Lemma preverified_stable : check_stable (verify.verify_slice_preverified preverified).
Proof. intros s s' now Hs Hh. unfold verify.verify_slice_preverified. by rewrite Hs, Hh. Qed.

Lemma preverified_needs : check_needs_headers (verify.verify_slice_preverified preverified).
Proof. intros s now Hc. unfold verify.verify_slice_preverified in Hc. by destruct (headers s). Qed.

Lemma preverified_hash_trusted n x : 0 <= n -> verify.preverified_hash preverified n = Some x ->
  x = header_hash (trusted n) /\ n <= top.
Proof.
  intros Hn. unfold verify.preverified_hash. destruct (Z.eqb_spec (n mod HEADER_SLICE_SIZE) 0) as [Hm|];
    [|done]. unfold HEADER_SLICE_SIZE in Hm. apply Z.mod_divide in Hm as [q ->]; [|done].
  unfold HEADER_SLICE_SIZE. rewrite Z.div_mul by done. intros Hx. split.
  - apply (trusted_hashes Htrusted) in Hx as ->. f_equal. f_equal. unfold HEADER_SLICE_SIZE. lia.
  - apply lookup_lt_Some in Hx. unfold preverified_target, HEADER_SLICE_SIZE.
    destruct (hashes preverified) as [|y l]; cbn [length] in *; lia.
Qed.

(** A slice that ends with a header of the chain is a part of the chain. *)
Lemma linked_trusted known l : distinct known -> forall s last_h, 0 <= s -> Forall (genuine known) l ->
  s + Z.of_nat (length l) - 1 <= top ->
  ethash_verifier.verify_slice_is_linked_by_parent_hash l = true -> last l = Some last_h ->
  header_hash (cached.header last_h) = header_hash (trusted (s + Z.of_nat (length l) - 1)) ->
  forall i h, l !! i = Some h -> cached.header h = trusted (s + Z.of_nat i).
Proof.
  intros Hd. induction l as [|h l IH]; intros s last_h Hs Hg Htop Hl Hlast Hh i x Hi; [done|].
  apply Forall_cons in Hg as [[Hso Hk] Hg]. destruct l as [|h' l].
  - injection Hlast as <-. destruct i as [|i]; [|done]. injection Hi as <-.
    rewrite Z.add_0_r. apply Hd; [cbn [length] in Htop; lia|done|]. rewrite Hh. f_equal. f_equal. cbn [length]. lia.
  - unfold ethash_verifier.verify_slice_is_linked_by_parent_hash in Hl. rewrite pairs_cons in Hl.
    cbn [forallb] in Hl. apply andb_true_iff in Hl as [Hp Hl].
    specialize (IH (s + 1) last_h ltac:(lia) Hg ltac:(cbn [length] in *; lia) Hl Hlast).
    assert (forall i x, (h' :: l) !! i = Some x -> cached.header x = trusted (s + 1 + Z.of_nat i)) as IH'.
    { apply IH. rewrite Hh. f_equal. f_equal. cbn [length]. lia. }
    destruct i as [|i].
    + injection Hi as <-. cbn [length] in Htop. rewrite Z.add_0_r. apply Hd; [lia|done|].
      unfold ethash_verifier.verify_link_by_parent_hash in Hp. apply Z.eqb_eq in Hp.
      rewrite (sound_hash h) in Hp by done. rewrite <- Hp. unfold cached.parent_hash.
      rewrite (IH' 0%nat h' eq_refl), Z.add_0_r. apply (trusted_parent Htrusted). lia.
    + rewrite (IH' i x Hi). f_equal. lia.
Qed.

Lemma slice_trusted known s l : distinct known -> 0 <= s -> Forall (genuine known) l ->
  passes (verify.verify_slice_preverified preverified) (list_slice s l) ->
  l <> [] /\ s + Z.of_nat (length l) - 1 <= top /\
  forall i h, l !! i = Some h -> cached.header h = trusted (s + Z.of_nat i).
Proof.
  intros Hd Hs Hg [now Hc]. unfold verify.verify_slice_preverified in Hc.
  cbn [headers list_slice with_headers start_block_num fresh_slice] in Hc.
  destruct l as [|h l]; [done|]. split; [done|]. cbn [head] in Hc.
  destruct (last (h :: l)) as [hl|] eqn:El; [|done].
  destruct (verify.preverified_hash preverified s) as [x|] eqn:Ex; [|done].
  destruct (Z.eqb_spec (cached.hash h) x); [|done]. cbn [negb] in Hc.
  destruct (verify.preverified_hash preverified (s + Z.of_nat (length (h :: l)) - 1)) as [y|] eqn:Ey; [|done].
  destruct (Z.eqb_spec (cached.hash hl) y) as [Hy|]; [|done]. injection Hc as Hc.
  apply preverified_hash_trusted in Ey as [Ey Htop]; [|cbn [length]; lia]. split; [done|].
  eapply (linked_trusted known); [done|done|done|done|done|exact El|]. rewrite <- Ey, <- Hy. symmetry. apply sound_hash.
  assert (hl ∈ h :: l) as Hin by (by apply last_Some_elem_of).
  rewrite Forall_forall in Hg. by apply Hg.
Qed.

(** Tables to which only headers of the chain were added. *)
Definition only_trusted (t t' : HeaderTables T) : Prop :=
  (forall n x, content (save.canonical_of t') !! n = Some x ->
     content (save.canonical_of t) !! n = Some x \/
     x = header_hash (trusted n) /\ content (save.headers_of t') !! header_key n x = Some (trusted n)) /\
  (forall n, 0 <= n -> content (save.headers_of t) !! header_key n (header_hash (trusted n)) = Some (trusted n) ->
     content (save.headers_of t') !! header_key n (header_hash (trusted n)) = Some (trusted n)) /\
  (forall n, content (save.canonical_of t) !! n = Some (header_hash (trusted n)) ->
     content (save.canonical_of t') !! n = Some (header_hash (trusted n))).

Lemma trusted_word n : word (header_hash (trusted n)).
Proof. apply be_val_uint. unfold blen. rewrite length_keccak_digest. lia. Qed.

Lemma save_trusted l : forall t t', Forall (fun h => sound h /\ 0 <= cached.number h /\
    cached.header h = trusted (cached.number h)) l ->
  save.save_headers l true t = Done t' ->
  only_trusted t t' /\
  Forall (fun h => content (save.canonical_of t') !! cached.number h =
                   Some (header_hash (trusted (cached.number h)))) l.
Proof.
  induction l as [|h l IH]; intros t t' Hl Hs; cbn [save.save_headers] in Hs.
  { injection Hs as <-. split; [|constructor]. split_and!; [|done..]. intros n x Hx. by left. }
  inv_bind Hs. apply Forall_cons in Hl as [(Hso & Hn & Hh) Hl].
  apply save_header_maps in E as [Hc Hm]. rewrite (sound_hash h), Hh in Hc, Hm by done.
  destruct (IH r t' Hl Hs) as [(Hx1 & Hx2 & Hx3) Hall]. split.
  - split_and!.
    + intros n x Hx. destruct (Hx1 n x Hx) as [Hx'|?]; [|by right]. rewrite Hc in Hx'.
      apply lookup_insert_Some in Hx' as [[<- <-]|[_ Hx']]; [|by left]. right. split; [done|].
      apply Hx2; [done|]. by rewrite Hm, lookup_insert_eq.
    + intros n Hpos Hx. apply Hx2; [done|]. rewrite Hm. apply lookup_insert_Some.
      destruct (decide (header_key (cached.number h) (header_hash (trusted (cached.number h))) =
        header_key n (header_hash (trusted n)))) as [Heq|Hne]; [left|by right].
      split; [done|]. apply header_key_inj in Heq as [-> _]; [done|apply trusted_word..].
    + intros n Hx. apply Hx3. rewrite Hc. apply lookup_insert_Some.
      destruct (decide (cached.number h = n)) as [->|]; [by left|by right].
  - constructor; [|done]. apply Hx3. by rewrite Hc, lookup_insert_eq.
Qed.

(** The headers that a run receives. *)
Definition received (events : list Event) (h : BlockHeader) : Prop :=
  exists m, PollFetchReceive (fetch_receive.Arrived m) ∈ events /\ h ∈ fetch_receive.message_headers m.

Lemma received_known events : Forall (event_known (received events)) events.
Proof.
  apply Forall_forall. intros e He. destruct e as [|[|m| |]| | | | | | |]; try done. cbn.
  apply Forall_forall. intros h Hh. by exists m.
Qed.

Lemma preverified_window_ok config known start hs (t : HeaderTables T) :
  slices_wf hs -> window_at start hs -> max_slices hs < 2 ^ 64 ->
  Forall (fun e => e.2 = fresh_slice (start_block_num e.2)) (slices hs) ->
  window_ok config known (verify.verify_slice_preverified preverified) status.Verified start None t
    (preverified_window hs t).
Proof.
  intros Hw Hat Hm Hf. exists start, [], [], (slices hs).
  split; cbn; try done.
  - unfold HEADER_SLICE_SIZE. lia.
  - eapply Forall_impl; [exact Hf|]. intros e Hx. cbn in *. by rewrite Hx.
  - eapply Forall_impl; [exact Hf|]. intros e Hx. cbn in *. rewrite Hx. split; [by intros l|].
    cbn. naive_solver congruence.
Qed.

(** C30: After any run of the preverified phase, whatever the peers send, every canonical header
    that is new is the header of that number in the chain whose hashes are listed, if no header
    that was received collides with one of that chain; and the header of every listed hash
    from the first block up to the last one that is reported is canonical. *)
Theorem preverified_download_trusted size num_cpus config mem events start max
    (t t' : HeaderTables T) report :
  0 < size -> 0 <= mem -> 0 <= start -> distinct (received events) ->
  preverified_run size num_cpus preverified config mem events start max t = Done (Some (report, t')) ->
  (forall n x, content (save.canonical_of t') !! n = Some x ->
     content (save.canonical_of t) !! n = Some x \/
     x = header_hash (trusted n) /\ content (save.headers_of t') !! header_key n x = Some (trusted n)) /\
  (forall n, start <= n < report_final_block_num report -> n mod HEADER_SLICE_SIZE = 0 ->
     content (save.canonical_of t') !! n = Some (header_hash (trusted n))).
Proof.
  intros Hsz Hmem Hst0 Hd Hr. unfold preverified_run in Hr.
  assert (0 <= align_block_num_to_slice_start start <= start) as Hst.
  { unfold align_block_num_to_slice_start, HEADER_SLICE_SIZE. pose proof (Z.mul_div_le start 192).
    pose proof (Z.div_pos start 192). lia. }
  assert (align_block_num_to_slice_start start mod HEADER_SLICE_SIZE = 0) as Hal.
  { unfold align_block_num_to_slice_start. by apply Z_mod_mult. }
  set (start' := align_block_num_to_slice_start start) in *. inv_bind Hr.
  destruct (Z.leb_spec r start') as [Hle|Hlt].
  { injection Hr as <- <-. cbn. split; [by left|]. intros n ?. lia. }
  inv_bind Hr. inv_bind Hr. destruct r1 as [stopped w]. destruct stopped; [|done]. inv_bind Hr. inv_bind Hr.
  injection Hr as <- <-.
  assert (r < 2 ^ 64) as Hfin.
  { unfold phase_final in E. inv_bind E. injection E as <-.
    unfold u64_checked, checked in E4. destruct (_ && _) eqn:Eb in E4; [|done]. injection E4 as <-.
    unfold align_block_num_to_slice_start, HEADER_SLICE_SIZE. pose proof (Z.mul_div_le (start' + max) 192).
    unfold u64_max in Eb. lia. }
  destruct (new_window _ _ _ _ _ Hsz Hmem (proj1 Hst) Hfin E0) as (Hw & Hat & Hm & Hf).
  pose proof (preverified_window_ok config (received events) start' r0 t Hw Hat Hm Hf) as Hok.
  eapply run_window_ok in Hok; [|apply preverified_stable|apply preverified_needs|by right|apply received_known|exact E1].
  destruct Hok as (base & ev & sv & rest & Hi).
  pose proof (inv_slices _ _ _ _ preverified_stable preverified_needs _ _ _ _ _ _ _ _ _ _ _ _ Hi) as Hsl.
  destruct Hi as [_ Hat' _ Hbase _ _ _ _ _ _ _ _ _ Ht].
  assert (forall i l, (ev ++ headers_in sv) !! i = Some l -> l <> [] /\ forall j h, l !! j = Some h ->
    sound h /\ cached.header h = trusted (start' + HEADER_SLICE_SIZE * Z.of_nat i + Z.of_nat j) /\
    start' + HEADER_SLICE_SIZE * Z.of_nat i + Z.of_nat j <= top) as Hsl'.
  { intros i l Hil. destruct (Hsl i l Hil) as [Hp Hg].
    destruct (slice_trusted (received events) (start' + HEADER_SLICE_SIZE * Z.of_nat i) l) as (Hne & Htop & Hall);
      [done|unfold HEADER_SLICE_SIZE; lia|done..|].
    split; [done|]. intros j h Hj. pose proof (lookup_lt_Some _ _ _ Hj).
    split_and!; [|by apply Hall|lia]. rewrite Forall_lookup in Hg. by destruct (Hg j h Hj). }
  assert (forall h n, 0 <= n <= top -> cached.header h = trusted n -> cached.number h = n) as Hnum.
  { intros h n Hn Hh. unfold cached.number. rewrite Hh. by apply (trusted_number Htrusted). }
  destruct (save_trusted (concat (ev ++ headers_in sv)) t (db_transaction w)) as [(H1' & _ & _) Hall]; [|done|].
  { apply Forall_forall. intros h (l & Hil & Hh)%elem_of_concat_list.
    apply list_elem_of_lookup in Hil as [i Hil]. apply list_elem_of_lookup in Hh as [j Hj].
    destruct (proj2 (Hsl' i l Hil) j h Hj) as (Hso & Hh & Htop). unfold HEADER_SLICE_SIZE in Hh, Htop.
    apply Hnum in Hh as Hn; [|lia]. rewrite Hn. split_and!; [done|lia|done]. }
  split; [done|]. unfold loaded_report in E3. inv_bind E3. injection E3 as <-. cbn.
  rewrite (min_block_num_at base) by done. intros n Hn Hmod.
  assert (exists i, n = start' + HEADER_SLICE_SIZE * Z.of_nat i /\ (i < length ev)%nat) as (i & -> & Hi).
  { unfold HEADER_SLICE_SIZE in *. apply Z.mod_divide in Hmod as [q ->]; [|done].
    apply Z.mod_divide in Hal as [q' Hq]; [|done]. exists (Z.to_nat (q - q')). lia. }
  destruct (lookup_lt_is_Some_2 ev i Hi) as [l Hil].
  destruct (Hsl' i l) as [Hne Htr]; [by apply lookup_app_l_Some|]. destruct l as [|h l]; [done|].
  destruct (Htr 0%nat h eq_refl) as (_ & Hh & Htop). rewrite Z.add_0_r in Hh, Htop.
  rewrite Forall_forall in Hall. specialize (Hall h).
  apply Hnum in Hh as Hnh; [|unfold HEADER_SLICE_SIZE in *; lia]. rewrite Hnh in Hall.
  apply Hall. apply elem_of_concat_list. exists (h :: l). split; [|by left].
  apply elem_of_app. left. by eapply list_elem_of_lookup_2.
Qed.

End preverified.

(** ** A small chain *)

Module sample_headers.

#[local] Existing Instances samples.keccak map_table.map_kv ethash_verifier.make_ethash_verifier.

(** The encoding of a header is its number, so its hash is the number plus one. *)
#[local] Instance stream : RlpStream := {|
  rlp_out i := match i with
               | RlpListOf l => match l !! 8%nat with Some (RlpU64 n) => be_bytes 32 (n + 1) | _ => [] end
               | _ => []
               end;
|}.

Definition header_at (n : Z) : BlockHeader := {|
  header.parent_hash := n; header.ommers_hash := EMPTY_LIST_HASH; header.beneficiary := 0;
  header.state_root := 0; header.transactions_root := 0; header.receipts_root := 0;
  header.logs_bloom := 0; header.difficulty := 131072; header.number := n; header.gas_limit := 5000;
  header.gas_used := 0; header.timestamp := 10 * n; header.extra_data := []; header.mix_hash := 0;
  header.nonce := 0; header.base_fee_per_gas := None;
|}.

Definition config : ChainConfig := {|
  chain_spec := {|
    consensus := {| seal_verification := SealEthash 13 [] (Some 0) None None true;
                    consensus_eip1559_block := None |};
    upgrades := {| homestead := Some 0; tangerine := None; spurious := None; byzantium := None;
                   constantinople := None; petersburg := None; istanbul := None; berlin := None;
                   london := None |};
    params := {| params_chain_id := 1; params_network_id := 1; min_gas_limit := 5000 |};
    contracts := []; balances := [] |};
  genesis_block_hash := 1;
|}.

Definition tables : HeaderTables map_table.table := {|
  chain_tables := {|
    chain_indices := {| canonical_header := ∅; header_number := ∅; header_table := ∅; block_body := ∅;
                        total_gas := ∅; total_tx := ∅ |};
    block_transaction := ∅; tx_senders := ∅; tx_lookups := ∅; headers_total_difficulty := ∅ |};
  last_header := None;
|}.

(** A peer sends the headers from a number on. *)
Definition answer (from : Z) (n : nat) : Event :=
  PollFetchReceive (fetch_receive.Arrived
    {| fetch_receive.message_headers := (fun i : nat => header_at (from + Z.of_nat i)) <$> seq 0 n;
       fetch_receive.message_from_peer := Some 7 |}).

Definition request : Event := PollFetchRequest (fun _ => SendOk) (fun _ => 0) None.

(** The verifying stage wakes up, takes a batch, runs its task, joins it and ends. *)
Definition verification : list Event :=
  [PollVerify None; PollVerify None; PollVerify (Some (0%nat, 10000)); PollVerify None; PollVerify None].

Definition linear_schedule : list Event :=
  [request; request; answer 0 192] ++ verification ++ [PollVerifyLink; PollSave; PollRefill].

(** The tables after the first slice, of which only the last header matters. *)
Definition later_tables : HeaderTables map_table.table := {|
  chain_tables := {|
    chain_indices := {| canonical_header := {[191 := 192]}; header_number := ∅;
                        header_table := {[header_key 191 192 := header_at 191]}; block_body := ∅;
                        total_gas := ∅; total_tx := ∅ |};
    block_transaction := ∅; tx_senders := ∅; tx_lookups := ∅; headers_total_difficulty := ∅ |};
  last_header := Some 192;
|}.

Definition later_schedule : list Event :=
  [request; request; answer 192 192] ++ verification ++ [PollVerifyLink; PollSave; PollRefill].

Definition linear_report : PhaseReport := {|
  loaded_count := 192; report_final_block_num := 192; report_target_final_block_num := 192;
  report_estimated_top_block_num := Some 90192 |}.

(** The trusted hashes of the first two boundaries, and a peer that sends one header only. *)
Definition trusted_hashes : PreverifiedHashesConfig := {| hashes := [1; 193] |}.

Definition short_schedule : list Event :=
  [request; request; answer 0 1] ++ verification ++ [PollSave; PollRefill].

Lemma header_at_hash n : 0 <= n < 2 ^ 64 -> header_hash (header_at n) = n + 1.
Proof.
  intros Hn. unfold header_hash.
  change (keccak_digest (rlp_out (header_item (header_at n))))
    with (be_bytes 32 (be_val (be_bytes 32 (n + 1)))).
  rewrite !be_val_bytes_uint; [done|unfold uint; lia|]. rewrite be_val_bytes_uint; unfold uint; lia.
Qed.

Lemma tables_typed n x : content (save.canonical_of tables) !! n = Some x -> word x.
Proof. change (content (save.canonical_of tables)) with (∅ : gmap Z Z). by rewrite lookup_empty. Qed.

Lemma later_canonical n : content (save.canonical_of later_tables) !! n = if decide (n = 191) then Some 192 else None.
Proof.
  change (content (save.canonical_of later_tables)) with ({[191 := 192]} : gmap Z Z).
  destruct (decide (n = 191)) as [->|Hn]; [reflexivity|]. by apply lookup_singleton_ne.
Qed.

End sample_headers.

Section witnesses.
Import sample_headers.
#[local] Existing Instances samples.keccak map_table.map_kv ethash_verifier.make_ethash_verifier stream.

(** The report of a run that ended. *)
Definition report_of (r : phase_result map_table.table) : option PhaseReport :=
  match r with Done (Some (report, _)) => Some report | _ => None end.

Lemma linear_download_sound_witness :
  exists t', linear_run 100 2 config 1000000 [] linear_schedule 0 1000 (Some 90192) tables
               = Done (Some (linear_report, t')) /\ canonical_chain config t' 0 192.
Proof.
  assert (report_of (linear_run 100 2 config 1000000 [] linear_schedule 0 1000 (Some 90192) tables)
    = Some linear_report) as Hr by (vm_compute; reflexivity).
  destruct (linear_run 100 2 config 1000000 [] linear_schedule 0 1000 (Some 90192) tables)
    as [[[r t']|]| |] eqn:E; [|discriminate..]. injection Hr as ->. exists t'. split; [reflexivity|].
  refine (proj1 (proj2 (proj2 (linear_download_sound 100 2 config 1000000 [] linear_schedule 0 1000
    (Some 90192) tables t' linear_report _ _ _ _ E)))); [lia..|].
  exact tables_typed.
Defined.

Lemma linear_download_unwound_witness :
  exists report t' t'', linear_run 100 2 config 1000000 [] later_schedule 192 1000 (Some 90384) later_tables
               = Done (Some (report, t')) /\ report_final_block_num report = 384 /\
    save.unwind 191 t' = Done t'' /\
    content (save.canonical_of t'') = content (save.canonical_of later_tables) /\ last_header t'' = Some 192.
Proof.
  assert (report_final_block_num <$> report_of (linear_run 100 2 config 1000000 [] later_schedule 192 1000
    (Some 90384) later_tables) = Some 384) as Hr by (vm_compute; reflexivity).
  destruct (linear_run 100 2 config 1000000 [] later_schedule 192 1000 (Some 90384) later_tables)
    as [[[r t']|]| |] eqn:E; [|discriminate..]. injection Hr as Hr. exists r, t'.
  destruct (linear_download_unwound 100 2 config 1000000 [] later_schedule 192 1000 (Some 90384) later_tables
    t' r 192 ltac:(lia) ltac:(lia) ltac:(lia)) as (t'' & Hu & Hc & Hl); [| | |exact E|].
  - intros n x. rewrite later_canonical. case_decide; [|done]. intros [= <-]. unfold word, uint. lia.
  - intros n Hn. rewrite later_canonical. by rewrite decide_False by lia.
  - reflexivity.
  - exists t''. by split_and!.
Defined.

(** The header of a listed hash is there, but a peer that sends this header only makes the phase
    report the whole slice. *)
Lemma preverified_download_trusted_witness :
  exists report t', preverified_run 100 2 trusted_hashes config 1000000 short_schedule 0 1000 tables
               = Done (Some (report, t')) /\ report_final_block_num report = 192 /\
    content (save.canonical_of t') !! 0 = Some (header_hash (header_at 0)) /\
    content (save.canonical_of t') !! 1 = None.
Proof.
  assert (match preverified_run 100 2 trusted_hashes config 1000000 short_schedule 0 1000 tables with
    | Done (Some (report, t')) => Some (report_final_block_num report, content (save.canonical_of t') !! 1)
    | _ => None end = Some (192, None)) as Hr by (vm_compute; reflexivity).
  destruct (preverified_run 100 2 trusted_hashes config 1000000 short_schedule 0 1000 tables)
    as [[[r t']|]| |] eqn:E; [|discriminate..]. injection Hr as Hf Hn. exists r, t'.
  split_and!; [reflexivity|exact Hf| |exact Hn].
  refine (proj2 (preverified_download_trusted trusted_hashes header_at _ 100 2 config 1000000 short_schedule
    0 1000 tables t' r _ _ _ _ E) 0 _ _); [|lia|lia|lia| |lia|reflexivity].
  - split; [done| |].
    + intros n Hn'. rewrite header_at_hash; [done|].
      change (preverified_target trusted_hashes) with 192 in Hn'. lia.
    + intros [|[|i]] x; cbn; intros [= <-]; reflexivity.
  - intros h n Hn' (m & Hm & Hh) Heq. assert (h = header_at 0) as ->.
    { repeat (apply elem_of_cons in Hm as [Hm|Hm]; [try discriminate Hm; try (injection Hm as ->; cbn in Hh;
        by apply list_elem_of_singleton in Hh)|]). by apply elem_of_nil in Hm. }
    change (preverified_target trusted_hashes) with 192 in Hn'.
    rewrite !header_at_hash in Heq by lia. f_equal. lia.
Defined.

End witnesses.
