(* ===== verification/ForkMode.v ===== *)
(** Forks of the header chain (src/downloader/headers_downloader/stages: fork_mode_stage.rs,
    fork_switch_command.rs and verify_link_forky_stage.rs).

    The stage works on two windows, that of the canonical chain and that of a fork.  The
    windows are passed along, the stage and the commands keep ranges of blocks. *)
From S2P Require Import Prelude Word EvmState Transaction Precompiled IntraBlockState Consensus MemState Rlp StagedSync Kv Stages ChainAccess.
From S2P Require Import HeaderSlices HeaderStages.
From Stdlib Require Import ZArith Lia Strings.Byte.
From stdpp Require Import base list option numbers gmap.
#[local] Open Scope Z_scope.

(** Both windows. *)
Record Windows := {
  canonical_slices : HeaderSlices;
  fork_slices : HeaderSlices;
}.

Definition with_canonical (ws : Windows) (hs : HeaderSlices) : Windows :=
  {| canonical_slices := hs; fork_slices := fork_slices ws |}.
Definition with_fork (ws : Windows) (hs : HeaderSlices) : Windows :=
  {| canonical_slices := canonical_slices ws; fork_slices := hs |}.

Definition is_canonical_slice_status (st : HeaderSliceStatus) : bool :=
  bool_decide (st = status.Verified) || bool_decide (st = status.Saved).

(** [ForkSwitchCommand], without the references to the windows. *)
Record ForkSwitchCommand := {
  command_canonical_range : BlockRange;
  command_fork_range : BlockRange;
  connection_block_num : Z;
}.

Module fork_mode.

Record ForkModeStage := {
  canonical_range : BlockRange;
  fork_range : BlockRange;
  pending_switch_to_fork_command : option ForkSwitchCommand;
  waiting : bool;
  remaining_count : Z;
  fork_remaining_count : Z;
}.

Definition with_canonical_range (st : ForkModeStage) (r : BlockRange) : ForkModeStage :=
  {| canonical_range := r; fork_range := fork_range st;
     pending_switch_to_fork_command := pending_switch_to_fork_command st; waiting := waiting st;
     remaining_count := remaining_count st; fork_remaining_count := fork_remaining_count st |}.

Definition with_fork_range (st : ForkModeStage) (r : BlockRange) : ForkModeStage :=
  {| canonical_range := canonical_range st; fork_range := r;
     pending_switch_to_fork_command := pending_switch_to_fork_command st; waiting := waiting st;
     remaining_count := remaining_count st; fork_remaining_count := fork_remaining_count st |}.

Definition with_command (st : ForkModeStage) (c : option ForkSwitchCommand) : ForkModeStage :=
  {| canonical_range := canonical_range st; fork_range := fork_range st;
     pending_switch_to_fork_command := c; waiting := waiting st;
     remaining_count := remaining_count st; fork_remaining_count := fork_remaining_count st |}.

Definition with_waiting (st : ForkModeStage) (w : bool) (n m : Z) : ForkModeStage :=
  {| canonical_range := canonical_range st; fork_range := fork_range st;
     pending_switch_to_fork_command := pending_switch_to_fork_command st; waiting := w;
     remaining_count := n; fork_remaining_count := m |}.

(** *** Ranges *)

(** [(range.start.0 == 0) && range.is_empty()]. *)
Definition unset (r : BlockRange) : bool := (range_start r =? 0) && range_is_empty r.

Fixpoint canonical_range_from (r : BlockRange) (l : list (nat * HeaderSlice)) : BlockRange :=
  match l with
  | [] => r
  | (_, s) :: l =>
      let r := if unset r then {| range_start := start_block_num s; range_end := start_block_num s |}
               else r in
      if is_canonical_slice_status (slice_status s) then
        canonical_range_from {| range_start := range_start r; range_end := range_end (block_num_range s) |} l
      else r
  end.

Definition find_canonical_range (hs : HeaderSlices) : BlockRange :=
  canonical_range_from {| range_start := 0; range_end := 0 |} (slices hs).

(** [try_rfold]: from the last slice to the first. *)
Fixpoint fork_range_from (r : BlockRange) (l : list (nat * HeaderSlice)) : BlockRange :=
  match l with
  | [] => r
  | (_, s) :: l =>
      let r := if unset r then let e := range_end (block_num_range s) in
                               {| range_start := e; range_end := e |}
               else r in
      if is_canonical_slice_status (slice_status s) then
        fork_range_from {| range_start := start_block_num s; range_end := range_end r |} l
      else r
  end.

Definition find_fork_range (hs : HeaderSlices) : BlockRange :=
  fork_range_from {| range_start := 0; range_end := 0 |} (reverse (slices hs)).

Definition new (ws : Windows) : ForkModeStage :=
  {| canonical_range := find_canonical_range (canonical_slices ws);
     fork_range := find_fork_range (fork_slices ws);
     pending_switch_to_fork_command := None; waiting := false; remaining_count := 0;
     fork_remaining_count := 0 |}.

(** *** Slices at the ends of the ranges *)

Definition find_canonical_continuation_slice (st : ForkModeStage) (ws : Windows) : option nat :=
  slices.find_by_block_num (canonical_slices ws) (range_end (canonical_range st)).

Definition find_fork_continuation_slice (st : ForkModeStage) (ws : Windows) : option nat :=
  let fork_start := range_start (fork_range st) in
  if fork_start =? 0 then None else slices.find_by_block_num (fork_slices ws) (fork_start - 1).

Definition find_canonical_last_slice (st : ForkModeStage) (ws : Windows) : option nat :=
  let canonical_end := range_end (canonical_range st) in
  if canonical_end =? 0 then None else slices.find_by_block_num (canonical_slices ws) (canonical_end - 1).

Definition find_fork_first_slice (st : ForkModeStage) (ws : Windows) : option nat :=
  slices.find_by_block_num (fork_slices ws) (range_start (fork_range st)).

(** [refetch_canonical_slice] and [refetch_fork_slice], on the window of the slice. *)
Definition refetch_slice (id : nat) (hs : HeaderSlices) : outcome HeaderSlices :=
  match slices.read hs id with
  | Some s =>
      let '(s, c) := slices.set_slice_status s status.Empty (count hs) in
      attempt ← next_attempt (refetch_attempt s);
      Done (slices.with_count (slices.write hs id (with_refetch (with_headers s None) attempt)) c)
  | None => Done hs
  end.

(** *** Setup *)

(** The result says whether the setup succeeded. *)
Definition setup (st : ForkModeStage) (ws : Windows) : outcome (bool * ForkModeStage * Windows) :=
  match find_canonical_continuation_slice st ws with
  | None => Done (false, st, ws)
  | Some id =>
      s ← o_unwrap (slices.read (canonical_slices ws) id);
      if negb (bool_decide (slice_status s = status.Fork)) then Done (false, st, ws)
      else
        hs ← refetch_slice id (canonical_slices ws);
        let initial :=
          {| start_block_num := start_block_num s; slice_status := status.Verified; headers := headers s;
             from_peer_id := from_peer_id s; request_time := None; request_attempt := 0;
             refetch_attempt := 0 |} in
        fhs ← slices.reset_to_single_slice initial (fork_slices ws);
        let st := with_fork_range st (block_num_range initial) in
        match slices.prepend_slice fhs with
        | Done fhs => Done (true, st, {| canonical_slices := hs; fork_slices := fhs |})
        | Error => Done (false, st, {| canonical_slices := hs; fork_slices := fhs |})
        | Panicked => Panicked
        end
  end.

(** *** Links *)

Section links.
Context `{Keccak} `{RlpStream} `{HeaderSliceVerifier}.
Variable config : ChainConfig.

Definition verify_slices_link (child parent : HeaderSlice) : outcome bool :=
  match headers child ≫= head, headers parent ≫= last with
  | Some child, Some parent => verify_link child parent (chain_spec config)
  | _, _ => Done false
  end.

(** A slice that continues a chain becomes verified. *)
Definition extend_with (id : nat) (hs : HeaderSlices) : HeaderSlices :=
  match slices.read hs id with
  | Some s =>
      let '(s, c) := slices.set_slice_status s status.Verified (count hs) in
      slices.with_count (slices.write hs id (with_refetch s 0)) c
  | None => hs
  end.

Definition try_extend_canonical (id : nat) (st : ForkModeStage) (ws : Windows)
    : outcome (bool * ForkModeStage * Windows) :=
  match find_canonical_last_slice st ws with
  | None => Done (false, st, ws)
  | Some last =>
      end_slice ← o_unwrap (slices.read (canonical_slices ws) last);
      s ← o_unwrap (slices.read (canonical_slices ws) id);
      linked ← verify_slices_link s end_slice;
      if linked : bool then
        Done (true,
              with_canonical_range st {| range_start := range_start (canonical_range st);
                                         range_end := range_end (block_num_range s) |},
              with_canonical ws (extend_with id (canonical_slices ws)))
      else Done (false, st, ws)
  end.

Definition try_extend_fork (id : nat) (st : ForkModeStage) (ws : Windows)
    : outcome (bool * ForkModeStage * Windows) :=
  match find_fork_first_slice st ws with
  | None => Done (false, st, ws)
  | Some first =>
      end_slice ← o_unwrap (slices.read (fork_slices ws) first);
      s ← o_unwrap (slices.read (fork_slices ws) id);
      linked ← verify_slices_link end_slice s;
      if linked : bool then
        Done (true,
              with_fork_range st {| range_start := range_start (block_num_range s);
                                    range_end := range_end (fork_range st) |},
              with_fork ws (extend_with id (fork_slices ws)))
      else Done (false, st, ws)
  end.

(** The last header that the first slice of the fork shares with the canonical one. *)
Definition find_fork_connection_block_num (st : ForkModeStage) (ws : Windows) : option Z :=
  fork_slice ← find_fork_first_slice st ws ≫= slices.read (fork_slices ws);
  canonical_slice ← slices.find_by_start_block_num (canonical_slices ws) (start_block_num fork_slice)
                      ≫= slices.read (canonical_slices ws);
  canonical_headers ← headers canonical_slice;
  fork_headers ← headers fork_slice;
  (fun e => cached.number e.1) <$>
    last (filter (fun e => cached.hash e.1 = cached.hash e.2) (zip canonical_headers fork_headers)).

(** *** Difficulties *)

(** [while (index < slice_headers.len()) && range.contains(&num)]. *)
Fixpoint sum_headers (r : BlockRange) (l : list cached.BlockHeader) (num difficulty : Z)
    : outcome (Z * Z) :=
  match l with
  | [] => Done (num, difficulty)
  | h :: l =>
      if range_contains r num then
        d ← o_unwrap (u256_checked (difficulty + cached.difficulty h));
        sum_headers r l (num + 1) d
      else Done (num, difficulty)
  end.

(** [while range.contains(&num)]: each round goes on by a block at least. *)
Fixpoint sum_slices (rounds : nat) (hs : HeaderSlices) (r : BlockRange) (num difficulty : Z)
    : outcome Z :=
  match rounds with
  | O => Done difficulty
  | S rounds =>
      if range_contains r num then
        match slices.find_by_block_num hs num ≫= slices.read hs with
        | None => Done difficulty
        | Some s =>
            if negb (is_canonical_slice_status (slice_status s)) then Done difficulty
            else
              match headers s with
              | None => Done difficulty
              | Some l =>
                  '(num, difficulty) ←
                    sum_headers r (drop (Z.to_nat (num - start_block_num s)) l) num difficulty;
                  sum_slices rounds hs r num difficulty
              end
        end
      else Done difficulty
  end.

Definition range_difficulty (hs : HeaderSlices) (r : BlockRange) (connection : Z) : outcome Z :=
  sum_slices (Z.to_nat (range_end r - connection)) hs r (connection + 1) 0.

(** *** Ends of the mode *)

Definition switch_to_fork (connection : Z) (st : ForkModeStage) : ForkModeStage :=
  with_command st (Some {| command_canonical_range := canonical_range st;
                           command_fork_range := fork_range st;
                           connection_block_num := connection |}).

Definition discard_fork (st : ForkModeStage) (ws : Windows) : ForkModeStage * Windows :=
  (with_fork_range st {| range_start := range_end (fork_range st); range_end := range_end (fork_range st) |},
   with_fork ws (slices.clear (fork_slices ws))).

Definition adjust_fork_slices_after_header_slices_trim (ws : Windows) : Windows :=
  if slices.min_block_num (fork_slices ws) <=? slices.min_block_num (canonical_slices ws)
  then with_fork ws (slices.clear (fork_slices ws)) else ws.

Definition is_done (ws : Windows) : bool := slices.is_empty (fork_slices ws).
Definition is_over (st : ForkModeStage) : bool := bool_decide (is_Some (pending_switch_to_fork_command st)).

(** *** One round *)

Definition status_of (hs : HeaderSlices) (id : option nat) : option HeaderSliceStatus :=
  slice_status <$> (id ≫= slices.read hs).

(** The part of a round that extends the canonical chain: whether it was extended, and the
    number of slices that were looked at. *)
Definition extend_canonical (pending : Z) (st : ForkModeStage) (ws : Windows)
    : outcome (bool * Z * ForkModeStage * Windows) :=
  match find_canonical_continuation_slice st ws with
  | Some id =>
      if bool_decide (status_of (canonical_slices ws) (Some id) = Some status.VerifiedInternally)
         && (0 <? pending) then
        '(extended, st, ws) ← try_extend_canonical id st ws;
        if extended : bool then Done (true, 1, st, ws)
        else
          hs ← refetch_slice id (canonical_slices ws);
          Done (false, 1, st, with_canonical ws hs)
      else Done (false, 0, st, ws)
  | None => Done (false, 0, st, ws)
  end.

Definition extend_fork (pending : Z) (st : ForkModeStage) (ws : Windows)
    : outcome (bool * Z * ForkModeStage * Windows) :=
  match find_fork_continuation_slice st ws with
  | Some id =>
      if bool_decide (status_of (fork_slices ws) (Some id) = Some status.VerifiedInternally)
         && (0 <? pending) then
        '(extended, st, ws) ← try_extend_fork id st ws;
        if extended : bool then Done (true, 1, st, ws)
        else
          hs ← refetch_slice id (fork_slices ws);
          Done (false, 1, st, with_fork ws hs)
      else Done (false, 0, st, ws)
  | None => Done (false, 0, st, ws)
  end.

(** The check of the conditions to end: [true] if one holds. *)
Definition check_termination (st : ForkModeStage) (ws : Windows) : outcome (bool * ForkModeStage * Windows) :=
  match find_fork_connection_block_num st ws with
  | Some connection =>
      fork_difficulty ← range_difficulty (fork_slices ws) (fork_range st) connection;
      canonical_difficulty ← range_difficulty (canonical_slices ws) (canonical_range st) connection;
      if canonical_difficulty <? fork_difficulty then Done (true, switch_to_fork connection st, ws)
      else let '(st, ws) := discard_fork st ws in Done (true, st, ws)
  | None =>
      if range_start (fork_range st) =? range_start (canonical_range st)
      then let '(st, ws) := discard_fork st ws in Done (true, st, ws)
      else Done (false, st, ws)
  end.

(** The slice after the extended canonical chain is fetched again. *)
Definition continue_canonical (pending updated : Z) (st : ForkModeStage) (ws : Windows)
    : outcome (Z * Windows) :=
  match find_canonical_continuation_slice st ws with
  | Some id =>
      let old_status := status_of (canonical_slices ws) (Some id) in
      hs ← refetch_slice id (canonical_slices ws);
      Done (if bool_decide (old_status = Some status.VerifiedInternally) && (updated <? pending)
            then updated + 1 else updated, with_canonical ws hs)
  | None => Done (updated, ws)
  end.

(** The first component is false if a slice could not be prepended. *)
Definition process_pending (pending fork_pending : Z) (st : ForkModeStage) (ws : Windows)
    : outcome (bool * Z * Z * ForkModeStage * Windows) :=
  '(did_extend_canonical, updated, st, ws) ← extend_canonical pending st ws;
  '(did_extend_fork, fork_updated, st, ws) ← extend_fork fork_pending st ws;
  '(ended, st, ws) ← (if did_extend_fork : bool then check_termination st ws else Done (false, st, ws));
  if ended : bool then Done (true, updated, fork_updated, st, ws)
  else
    '(updated, ws) ← (if did_extend_canonical : bool then continue_canonical pending updated st ws
                      else Done (updated, ws));
    if did_extend_fork : bool then
      match slices.prepend_slice (fork_slices ws) with
      | Done hs => Done (true, updated, fork_updated, st, with_fork ws hs)
      | Error => Done (false, updated, fork_updated, st, ws)
      | Panicked => Panicked
      end
    else Done (true, updated, fork_updated, st, ws).

Definition poll (st : ForkModeStage) (ws : Windows) : outcome (polled * ForkModeStage * Windows) :=
  if wait_while_all_ready (canonical_slices ws) (fork_slices ws) status.VerifiedInternally
       (waiting st) (remaining_count st, fork_remaining_count st) then
    let pending := count (canonical_slices ws) status.VerifiedInternally in
    let fork_pending := count (fork_slices ws) status.VerifiedInternally in
    '(ok, updated, fork_updated, st, ws) ← process_pending pending fork_pending st ws;
    if ok : bool then Done (Finished, with_waiting st false (pending - updated) (fork_pending - fork_updated), ws)
    else Done (Failed, with_waiting st false (remaining_count st) (fork_remaining_count st), ws)
  else Done (Pending, with_waiting st true (remaining_count st) (fork_remaining_count st), ws).

End links.

End fork_mode.

(** ** fork_switch_command.rs *)

Module fork_switch.

Section switch.
Context `{Keccak} `{RlpStream} {T : Type -> Type} {KV : Kv T}.

(** One slice of the fork takes the place of the canonical one: the windows, and the length of
    the slice. *)
Definition promote (num : Z) (ws : Windows) : outcome (Z * Windows) :=
  id ← o_unwrap (slices.find_by_start_block_num (canonical_slices ws) num);
  fork_id ← o_unwrap (slices.find_by_start_block_num (fork_slices ws) num);
  s ← o_unwrap (slices.read (canonical_slices ws) id);
  fork_slice ← o_unwrap (slices.read (fork_slices ws) fork_id);
  let '(s, c) := slices.set_slice_status s (slice_status fork_slice) (count (canonical_slices ws)) in
  let s := with_refetch (with_headers s (headers fork_slice)) 0 in
  Done (slice_len s,
    {| canonical_slices := slices.with_count (slices.write (canonical_slices ws) id s) c;
       fork_slices := slices.write (fork_slices ws) fork_id (with_headers fork_slice None) |}).

(** The loops go on by the length of a slice, and would not end at a slice without headers; the
    result is none if the rounds do not suffice. *)
Fixpoint promote_all (rounds : nat) (num end_ : Z) (ws : Windows) : outcome (option (Z * Windows)) :=
  if num <? end_ then
    match rounds with
    | O => Done None
    | S rounds =>
        '(len, ws) ← promote num ws;
        promote_all rounds (num + len) end_ ws
    end
  else Done (Some (num, ws)).

(** One slice of the canonical chain after the fork is to be fetched again. *)
Definition discard (num : Z) (hs : HeaderSlices) : outcome (Z * HeaderSlices) :=
  id ← o_unwrap (slices.find_by_start_block_num hs num);
  s ← o_unwrap (slices.read hs id);
  if negb (is_canonical_slice_status (slice_status s)) then Panicked
  else if negb (0 <? slice_len s) then Panicked
  else
    let '(s', c) := slices.set_slice_status s status.Empty (count hs) in
    Done (slice_len s,
          slices.with_count (slices.write hs id (with_refetch (with_headers s' None) 0)) c).

Fixpoint discard_all (rounds : nat) (num end_ : Z) (hs : HeaderSlices) : outcome (option HeaderSlices) :=
  if num <? end_ then
    match rounds with
    | O => Done None
    | S rounds =>
        '(len, hs) ← discard num hs;
        discard_all rounds (num + len) end_ hs
    end
  else Done (Some hs).

Definition rounds_of (r : BlockRange) : nat := Z.to_nat (range_end r - range_start r).

Definition switch_to_fork (c : ForkSwitchCommand) (ws : Windows) : outcome (option Windows) :=
  let fork := command_fork_range c in
  promoted ← promote_all (rounds_of fork) (range_start fork) (range_end fork) ws;
  match promoted with
  | None => Done None
  | Some (num, ws) =>
      let num := align_block_num_to_slice_start (num + HEADER_SLICE_SIZE - 1) in
      let canonical_end := range_end (command_canonical_range c) in
      hs ← discard_all (Z.to_nat (canonical_end - num)) num canonical_end (canonical_slices ws);
      match hs with
      | None => Done None
      | Some hs =>
          Done (Some {| canonical_slices := hs; fork_slices := slices.clear (fork_slices ws) |})
      end
  end.

(** The headers of a promoted slice after the connection become canonical. *)
Fixpoint update_headers (l : list cached.BlockHeader) (connection : Z) (t : HeaderTables T)
    : outcome (HeaderTables T) :=
  match l with
  | [] => Done t
  | h :: l =>
      if cached.number h <=? connection then update_headers l connection t
      else t ← save.update_canonical_chain_header h t; update_headers l connection t
  end.

Fixpoint update_canonical_chain_headers (rounds : nat) (num end_ connection : Z) (hs : HeaderSlices)
    (t : HeaderTables T) : outcome (option (HeaderTables T)) :=
  if num <? end_ then
    match rounds with
    | O => Done None
    | S rounds =>
        id ← o_unwrap (slices.find_by_start_block_num hs num);
        s ← o_unwrap (slices.read hs id);
        t ← match headers s with
            | Some l =>
                if bool_decide (slice_status s = status.Saved) then update_headers l connection t else Done t
            | None => Done t
            end;
        update_canonical_chain_headers rounds (num + slice_len s) end_ connection hs t
    end
  else Done (Some t).

Definition execute (c : ForkSwitchCommand) (ws : Windows) (t : HeaderTables T)
    : outcome (option (Windows * HeaderTables T)) :=
  switched ← switch_to_fork c ws;
  match switched with
  | None => Done None
  | Some ws =>
      let fork := command_fork_range c in
      t ← update_canonical_chain_headers (rounds_of fork) (range_start fork) (range_end fork)
            (connection_block_num c) (canonical_slices ws) t;
      Done (match t with Some t => Some (ws, t) | None => None end)
  end.

End switch.

End fork_switch.

(** ** verify_link_forky_stage.rs *)

Module link_forky.

Inductive Mode :=
  | Linear (st : link_linear.VerifyLinkLinearStage)
  | ForkMode (st : fork_mode.ForkModeStage).

Record VerifyLinkForkyStage := {
  last_verified_header : option cached.BlockHeader;
  first_block_num : Z;                               (* [start_block_num] *)
  mode : Mode;
  termination_command : option ForkSwitchCommand;
}.

Definition with_mode (st : VerifyLinkForkyStage) (m : Mode) : VerifyLinkForkyStage :=
  {| last_verified_header := last_verified_header st; first_block_num := first_block_num st; mode := m;
     termination_command := termination_command st |}.

Definition with_termination (st : VerifyLinkForkyStage) (c : option ForkSwitchCommand)
    : VerifyLinkForkyStage :=
  {| last_verified_header := last_verified_header st; first_block_num := first_block_num st;
     mode := mode st; termination_command := c |}.

Section forky.
Context `{Keccak} `{RlpStream} `{HeaderSliceVerifier}.
Variable config : ChainConfig.

Definition new (ws : Windows) (last : option cached.BlockHeader) : outcome VerifyLinkForkyStage :=
  m ← (if slices.is_empty (fork_slices ws) then
         l ← link_linear.new (canonical_slices ws) last status.Fork; Done (Linear l)
       else Done (ForkMode (fork_mode.new ws)));
  first ← match last with
          | Some h => o_unwrap (u64_checked (cached.number h + 1))
          | None => Done 0
          end;
  Done {| last_verified_header := last; first_block_num := first; mode := m; termination_command := None |}.

(** What follows a call of the linear stage. *)
Definition after_linear (st : VerifyLinkForkyStage) (ws : Windows)
    : outcome (polled * VerifyLinkForkyStage * Windows) :=
  match slices.find_by_status (canonical_slices ws) status.Fork with
  | Some id =>
      s ← o_unwrap (slices.read (canonical_slices ws) id);
      if start_block_num s =? first_block_num st then
        Done (Finished, st, with_canonical ws (slices.set_status_of (canonical_slices ws) id status.Invalid))
      else
        '(ok, fm, ws) ← fork_mode.setup (fork_mode.new ws) ws;
        if ok : bool then Done (Finished, with_mode st (ForkMode fm), ws) else Done (Failed, st, ws)
  | None => Done (Finished, st, ws)
  end.

(** What follows a call of the stage of the fork mode. *)
Definition after_fork (fm : fork_mode.ForkModeStage) (st : VerifyLinkForkyStage) (ws : Windows)
    : outcome (polled * VerifyLinkForkyStage * Windows) :=
  if fork_mode.is_over fm then
    Done (Finished,
          with_termination (with_mode st (ForkMode (fork_mode.with_command fm None)))
            (fork_mode.pending_switch_to_fork_command fm), ws)
  else if fork_mode.is_done ws then
    l ← link_linear.new (canonical_slices ws) (last_verified_header st) status.Fork;
    Done (Finished, with_mode st (Linear l), ws)
  else Done (Finished, st, ws).

Definition poll (st : VerifyLinkForkyStage) (ws : Windows)
    : outcome (polled * VerifyLinkForkyStage * Windows) :=
  match mode st with
  | Linear l =>
      '(r, l, hs) ← link_linear.poll config l (canonical_slices ws);
      let st := with_mode st (Linear l) in
      let ws := with_canonical ws hs in
      match r with Finished => after_linear st ws | _ => Done (r, st, ws) end
  | ForkMode fm =>
      '(r, fm, ws) ← fork_mode.poll config fm ws;
      let st := with_mode st (ForkMode fm) in
      match r with Finished => after_fork fm st ws | _ => Done (r, st, ws) end
  end.

Definition is_over (st : VerifyLinkForkyStage) : bool := bool_decide (is_Some (termination_command st)).

Definition can_proceed (ws : Windows) : bool :=
  slices.contains_status (canonical_slices ws) status.VerifiedInternally ||
  slices.contains_status (fork_slices ws) status.VerifiedInternally.

End forky.

End link_forky.
