(* ===== verification/Downloader.v ===== *)
(** The phase of the header download that follows forks, the downloader and its stage
    (src/downloader/headers_downloader: downloader_forky.rs and downloader.rs,
    src/downloader/sentry_status_provider.rs and src/stages/downloader.rs).

    What the world does during a call is a list of events for each phase; a call whose
    events end before its loop does gives no result. *)
From S2P Require Import Prelude Word EvmState Transaction Precompiled IntraBlockState Consensus MemState Rlp StagedSync Kv Stages ChainAccess.
From S2P Require Import HeaderSlices HeaderStages HeaderLoop ForkMode.
From Stdlib Require Import ZArith Lia Strings.Byte.
From stdpp Require Import base list option numbers gmap.
#[local] Open Scope Z_scope.

(** ** downloader_forky.rs *)

(** The stages of one group, [build_stages], and the slices they work on. *)
Record Group := {
  g_slices : HeaderSlices;
  g_request : fetch_request.FetchRequestStage;
  g_receive_over : bool;
  g_retry : control;
  g_verify : verify.Control;
  g_penalize : penalize.Control;
  g_save : save.SaveStage;
}.

Inductive GroupEvent :=
  | GroupFetchRequest (send : GetBlockHeadersMessage -> SendResult) (clock : Z -> Z) (capacity : option bool)
  | GroupFetchReceive (arrival : fetch_receive.Arrival)
  | GroupRetry (now : option Z)
  | GroupVerify (task : option (nat * Z))
  | GroupPenalize (answer : option bool)
  | GroupSave.

Inductive ForkyEvent :=
  | MainGroup (e : GroupEvent)
  | ForkGroup (e : GroupEvent)
  | PollForkyLink
  | PollExtend
  | PollTimeout (elapsed : bool).

Record Forky (T : Type -> Type) := {
  main_group : Group;
  fork_group : Group;
  forky_link : link_forky.VerifyLinkForkyStage;
  forky_extend : extend.ExtendStage;
  forky_timeout_over : bool;
  forky_tables : HeaderTables T;
}.
Arguments main_group {T} _.
Arguments fork_group {T} _.
Arguments forky_link {T} _.
Arguments forky_extend {T} _.
Arguments forky_timeout_over {T} _.
Arguments forky_tables {T} _.
Arguments Build_Forky {T}.

(** What a run takes along to the next one. *)
Record DownloaderUnwindRequest := {
  unwind_to_block_num : Z;
  finalize : option ForkSwitchCommand;
}.

Record DownloaderRunState := {
  estimated_top_block_num : option Z;
  forky_header_slices : option HeaderSlices;
  forky_fork_header_slices : option HeaderSlices;
  unwind_request : option DownloaderUnwindRequest;
}.

Record DownloaderForkyReport := {
  forky_loaded_count : Z;
  forky_final_block_num : Z;
  report_header_slices : option HeaderSlices;
  report_fork_header_slices : option HeaderSlices;
  report_termination_command : option ForkSwitchCommand;
}.

Definition group_slices (g : Group) (hs : HeaderSlices) : Group :=
  {| g_slices := hs; g_request := g_request g; g_receive_over := g_receive_over g; g_retry := g_retry g;
     g_verify := g_verify g; g_penalize := g_penalize g; g_save := g_save g |}.

Definition new_group (hs : HeaderSlices) (sv : save.SaveStage) : Group :=
  {| g_slices := hs; g_request := fetch_request.new HEADER_SLICE_SIZE; g_receive_over := false;
     g_retry := Entered false; g_verify := verify.Wait false; g_penalize := penalize.Wait false;
     g_save := sv |}.

Definition group_can_proceed (g : Group) : bool :=
  let hs := g_slices g in
  fetch_request.can_proceed hs || fetch_receive.can_proceed (g_receive_over g) hs || retry.can_proceed ||
  verify.can_proceed hs || penalize.can_proceed hs || save.can_proceed (g_save g) hs.

Section forky.
Context `{Keccak} `{RlpStream} `{HeaderSliceVerifier} {T : Type -> Type} {KV : Kv T}.
Variables (config : ChainConfig) (num_cpus : nat).

Definition poll_group (e : GroupEvent) (g : Group) (t : HeaderTables T)
    : outcome (polled * Group * HeaderTables T) :=
  let 'Build_Group hs fr over rt vs pn sv := g in
  match e with
  | GroupFetchRequest send clock capacity =>
      '(r, fr, hs) ← fetch_request.poll send clock capacity fr hs;
      Done (r, Build_Group hs fr over rt vs pn sv, t)
  | GroupFetchReceive arrival =>
      let '(r, over, hs) := fetch_receive.poll arrival over hs in
      Done (r, Build_Group hs fr over rt vs pn sv, t)
  | GroupRetry now =>
      '(r, rt, hs) ← retry.poll now rt hs;
      Done (r, Build_Group hs fr over rt vs pn sv, t)
  | GroupVerify task =>
      '(r, vs, hs) ← verify.poll num_cpus (verify.verify_slice_internally config)
          status.VerifiedInternally task vs hs;
      Done (r, Build_Group hs fr over rt vs pn sv, t)
  | GroupPenalize answer =>
      '(r, pn, hs) ← penalize.poll answer pn hs;
      Done (r, Build_Group hs fr over rt vs pn sv, t)
  | GroupSave =>
      '(r, sv, hs, t) ← save.poll sv hs t;
      Done (r, Build_Group hs fr over rt vs pn sv, t)
  end.

Definition poll_forky (e : ForkyEvent) (f : Forky T) : outcome (polled * Forky T) :=
  let 'Build_Forky mg fg lk ex tm t := f in
  match e with
  | MainGroup e =>
      '(r, mg, t) ← poll_group e mg t;
      Done (r, Build_Forky mg fg lk ex tm t)
  | ForkGroup e =>
      '(r, fg, t) ← poll_group e fg t;
      Done (r, Build_Forky mg fg lk ex tm t)
  | PollForkyLink =>
      '(r, lk, ws) ← link_forky.poll config lk
          {| canonical_slices := g_slices mg; fork_slices := g_slices fg |};
      Done (r, Build_Forky (group_slices mg (canonical_slices ws)) (group_slices fg (fork_slices ws)) lk ex tm t)
  | PollExtend =>
      let '(r, ex, hs) := extend.poll ex (g_slices mg) in
      Done (r, Build_Forky (group_slices mg hs) fg lk ex tm t)
  | PollTimeout elapsed =>
      let '(r, tm) := timeout.poll elapsed tm in
      Done (r, Build_Forky mg fg lk ex tm t)
  end.

Definition forky_is_over (f : Forky T) : bool :=
  forky_timeout_over f || link_forky.is_over (forky_link f).

Definition forky_can_proceed (f : Forky T) : bool :=
  let ws := {| canonical_slices := g_slices (main_group f); fork_slices := g_slices (fork_group f) |} in
  group_can_proceed (main_group f) || group_can_proceed (fork_group f) || link_forky.can_proceed ws ||
  extend.can_proceed (g_slices (main_group f)) || timeout.can_proceed.

Definition notify_forky (f : Forky T) : Forky T :=
  let 'Build_Forky mg fg lk ex tm t := f in
  Build_Forky (group_slices mg (slices.notify_status_watchers (g_slices mg)))
    (group_slices fg (slices.notify_status_watchers (g_slices fg))) lk ex tm t.

Definition run_forky : list ForkyEvent -> Forky T -> outcome (bool * Forky T) :=
  run_loop poll_forky forky_is_over forky_can_proceed notify_forky.

(** *** Loading the window from the tables *)

(** The canonical hashes from a number on, up to a gap. *)
Fixpoint canonical_keys (rounds : nat) (num : Z) (t : HeaderTables T) : list (Z * Z) :=
  match rounds with
  | O => []
  | S rounds =>
      match kv_get num (save.canonical_of t) with
      | Some hash => (num, hash) :: canonical_keys rounds (num + 1) t
      | None => []
      end
  end.

(** [chunks_exact]. *)
Fixpoint chunks_exact {A} (rounds : nat) (size : nat) (l : list A) : list (list A) :=
  match rounds with
  | O => []
  | S rounds =>
      if (length l <? size)%nat then [] else take size l :: chunks_exact rounds size (drop size l)
  end.

(** The headers of a chunk, if all of them are there. *)
Definition load_chunk (t : HeaderTables T) (keys : list (Z * Z)) : option (list cached.BlockHeader) :=
  mapM (fun '(num, hash) =>
    h ← kv_get (header_key num hash) (save.headers_of t); Some (cached.new h hash)) keys.

Fixpoint load_chunks (t : HeaderTables T) (chunks : list (list (Z * Z))) : list HeaderSlice :=
  match chunks with
  | [] => []
  | keys :: chunks =>
      match load_chunk t keys, head keys with
      | Some l, Some (num, _) =>
          {| start_block_num := num; slice_status := status.Saved; headers := Some l; from_peer_id := None;
             request_time := None; request_attempt := 0; refetch_attempt := 0 |} :: load_chunks t chunks
      | _, _ => []
      end
  end.

Definition load_header_slices (t : HeaderTables T) (start max_blocks_count : Z) : outcome HeaderSlices :=
  let max := max_blocks_count / HEADER_SLICE_SIZE in
  let keys := canonical_keys (Z.to_nat (max * HEADER_SLICE_SIZE)) start t in
  slices.from_slices_vec
    (load_chunks t (chunks_exact (length keys) (Z.to_nat HEADER_SLICE_SIZE) keys))
    (Some start) (Some max) None.

(** The saved blocks at the front of the window, from a number on. *)
Fixpoint count_downloaded (l : list (nat * HeaderSlice)) (start : Z) : Z :=
  match l with
  | [] => 0
  | (_, s) :: l =>
      if decide (slice_status s = status.Saved) then
        (if range_contains (block_num_range s) start then slice_len s - (start - start_block_num s)
         else if start <? start_block_num s then slice_len s else 0)
        + count_downloaded l start
      else 0
  end.

Definition downloaded_count (hs : HeaderSlices) (start : Z) : Z := count_downloaded (slices hs) start.

Definition forky_max_blocks_count : Z := 99000.

(** The phase from the state of its stages on. *)
Definition forky_start (hs fhs : HeaderSlices) (lk : link_forky.VerifyLinkForkyStage) (t : HeaderTables T)
    : Forky T :=
  Build_Forky (new_group hs (save.new save.Monotonic true)) (new_group fhs (save.new save.Random false))
    lk extend.new false t.

Definition forky_report (start : Z) (f : Forky T) : DownloaderForkyReport * HeaderTables T :=
  let hs := g_slices (main_group f) in
  let loaded := downloaded_count hs start in
  let ws := fork_mode.adjust_fork_slices_after_header_slices_trim
    {| canonical_slices := slices.trim_start_to_fit_max_slices hs; fork_slices := g_slices (fork_group f) |} in
  ({| forky_loaded_count := loaded; forky_final_block_num := start + loaded;
      report_header_slices := Some (canonical_slices ws); report_fork_header_slices := Some (fork_slices ws);
      report_termination_command := link_forky.termination_command (forky_link f) |}, forky_tables f).

Definition forky_run (events : list ForkyEvent) (start max_blocks_count no_forks_final : Z)
    (previous previous_fork : option HeaderSlices) (t : HeaderTables T)
    : outcome (option (DownloaderForkyReport * HeaderTables T)) :=
  let previous := match previous with
                  | Some hs => if slices.min_block_num hs <=? start then Some hs else None
                  | None => None
                  end in
  let previous_fork := match previous with Some _ => previous_fork | None => None end in
  let window_start := match previous with Some hs => slices.min_block_num hs | None => no_forks_final end in
  if negb (is_block_num_aligned_to_slice_start window_start) then Error
  else if (max_blocks_count <? forky_max_blocks_count) || (start <? window_start) then
    Done (Some ({| forky_loaded_count := 0; forky_final_block_num := start; report_header_slices := previous;
                   report_fork_header_slices := previous_fork; report_termination_command := None |}, t))
  else
    parent ← start_block_parent window_start t;
    hs ← match previous with
         | Some hs => Done hs
         | None => load_header_slices t window_start forky_max_blocks_count
         end;
    let fhs := default (slices.empty (max_slices hs)) previous_fork in
    lk ← link_forky.new {| canonical_slices := hs; fork_slices := fhs |} parent;
    '(stopped, f) ← run_forky events (forky_start hs fhs lk t);
    if stopped : bool then Done (Some (forky_report start f)) else Done None.

End forky.

(** ** downloader.rs *)

(** What the world does during a run. *)
Record RunInputs := {
  preverified_events : list Event;
  top_block_arrivals : list top_block.Arrival;
  linear_events : list Event;
  forky_events : list ForkyEvent;
}.

Record DownloaderReport := {
  downloaded_final_block_num : Z;
  downloaded_target_final_block_num : Z;
  run_state : DownloaderRunState;
}.

Section downloader.
Context `{Keccak} `{RlpStream} `{HeaderSliceVerifier} {T : Type -> Type} {KV : Kv T}.
Variables (size_of_header : Z) (num_cpus : nat) (config : ChainConfig)
  (preverified : PreverifiedHashesConfig) (mem_limit : Z).

Definition downloader_run (inputs : RunInputs) (start max_blocks_count : Z)
    (previous : option DownloaderRunState) (t : HeaderTables T)
    : outcome (option (DownloaderReport * HeaderTables T)) :=
  r1 ← preverified_run size_of_header num_cpus preverified config mem_limit (preverified_events inputs)
         start max_blocks_count t;
  match r1 with
  | None => Done None
  | Some (report1, t) =>
      max_blocks_count ← o_unwrap (unsigned_sub max_blocks_count (loaded_count report1));
      let top := match report_estimated_top_block_num report1 with
                 | Some n => Some n
                 | None => previous ≫= estimated_top_block_num
                 end in
      r2 ← linear_run size_of_header num_cpus config mem_limit (top_block_arrivals inputs)
             (linear_events inputs) (report_final_block_num report1) max_blocks_count top t;
      match r2 with
      | None => Done None
      | Some (report2, t) =>
          max_blocks_count ← o_unwrap (unsigned_sub max_blocks_count (loaded_count report2));
          r3 ← forky_run config num_cpus (forky_events inputs) (report_final_block_num report2)
                 max_blocks_count (report_target_final_block_num report2)
                 (previous ≫= forky_header_slices) (previous ≫= forky_fork_header_slices) t;
          match r3 with
          | None => Done None
          | Some (report3, t) =>
              Done (Some
                ({| downloaded_final_block_num := forky_final_block_num report3;
                    downloaded_target_final_block_num := report_target_final_block_num report2;
                    run_state :=
                      {| estimated_top_block_num := report_estimated_top_block_num report2;
                         forky_header_slices := report_header_slices report3;
                         forky_fork_header_slices := report_fork_header_slices report3;
                         unwind_request :=
                           (fun c => {| unwind_to_block_num := connection_block_num c;
                                        finalize := Some c |}) <$> report_termination_command report3 |} |},
                 t))
          end
      end
  end.

(** The command works on the windows it was made for, which are those of the state. *)
Definition unwind_finalize (request : DownloaderUnwindRequest) (ws : Windows) (t : HeaderTables T)
    : outcome (option (Windows * HeaderTables T)) :=
  match finalize request with
  | Some c => fork_switch.execute c ws t
  | None => Error
  end.

(** ** sentry_status_provider.rs *)

(** The status that the network service tells its peers: the total difficulty, the hash and the
    number of the last header. *)
Definition read_status (t : HeaderTables T) : option (Z * Z * Z) :=
  hash ← last_header t;
  num ← kv_get hash (save.numbers_of t);
  difficulty ← kv_get (header_key num hash) (save.difficulties_of t);
  Some (difficulty, hash, num).

(** ** src/stages/downloader.rs *)

(** The pending switch to a fork is made first. *)
Definition finalize_unwind (state : option DownloaderRunState) (t : HeaderTables T)
    : outcome (option (option DownloaderRunState * HeaderTables T)) :=
  match state with
  | Some s =>
      match unwind_request s with
      | Some request =>
          match forky_header_slices s, forky_fork_header_slices s with
          | Some hs, Some fhs =>
              r ← unwind_finalize request {| canonical_slices := hs; fork_slices := fhs |} t;
              match r with
              | Some (ws, t) =>
                  Done (Some (Some {| estimated_top_block_num := estimated_top_block_num s;
                                      forky_header_slices := Some (canonical_slices ws);
                                      forky_fork_header_slices := Some (fork_slices ws);
                                      unwind_request := None |}, t))
              | None => Done None
              end
          | _, _ => Error
          end
      | None => Done (Some (state, t))
      end
  | None => Done (Some (None, t))
  end.

(** The output of the stage, the state for the next call and the status that was sent. *)
Definition header_download_execute (batch_size : Z) (inputs : RunInputs) (input : StageInput)
    (state : option DownloaderRunState) (t : HeaderTables T)
    : outcome (option (ExecOutput * option DownloaderRunState * option (Z * Z * Z) * HeaderTables T)) :=
  let told := read_status t in
  finalized ← finalize_unwind state t;
  match finalized with
  | None => Done None
  | Some (state, t) =>
      let past_progress := default 0 (stage_progress input) in
      start ← o_unwrap (u64_checked (past_progress + 1));
      r ← downloader_run inputs start batch_size state t;
      match r with
      | None => Done None
      | Some (report, t) =>
          match unwind_request (run_state report) with
          | Some request =>
              Done (Some (Unwind (unwind_to_block_num request), Some (run_state report), told, t))
          | None =>
              let final := downloaded_final_block_num report in
              let progress := if 0 <? final then final - 1 else past_progress in
              let done := downloaded_target_final_block_num report <=? final in
              Done (Some (Progress progress done, Some (run_state report), told, t))
          end
      end
  end.

Definition header_download_unwind (input : UnwindInput) (t : HeaderTables T)
    : outcome (Z * HeaderTables T) :=
  t ← save.unwind (unwind_to input) t;
  Done (Z.min (unwind_from input) (unwind_to input), t).

End downloader.
