(* ===== verification/ForkModeSpec.v ===== *)
(** Forks of the header chain: the heavier of two chains wins.  Changes of a window in place,
    by the stages and by the linking of slices, keep its counters in agreement with its slices. *)
From S2P Require Import Prelude Word EvmState Transaction Precompiled IntraBlockState Consensus MemState Rlp StagedSync Kv Stages ChainAccess Samples.
From S2P Require Import HeaderSlices HeaderStages HeaderLoop ForkMode Downloader HeaderSlicesSpec HeaderLoopSpec HeaderChainSpec.
From Stdlib Require Import ZArith Lia Strings.Byte.
From stdpp Require Import base list option numbers gmap.
#[local] Open Scope Z_scope.

(** ** The weight of a chain *)

Section weight.
Context `{Keccak} `{RlpStream} `{HeaderSliceVerifier}.

(** The header of a block in a window, if its slice is verified or saved. *)
Definition block_at (hs : HeaderSlices) (n : Z) : option cached.BlockHeader :=
  s ← slices.find_by_block_num hs n ≫= slices.read hs;
  l ← headers s;
  if is_canonical_slice_status (slice_status s) then l !! Z.to_nat (n - start_block_num s) else None.

(** The sum of the difficulties of [k] blocks from a number on. *)
Fixpoint weight (hs : HeaderSlices) (from : Z) (k : nat) : Z :=
  match k with
  | O => 0
  | S k => default 0 (cached.difficulty <$> block_at hs from) + weight hs (from + 1) k
  end.

Definition weight_between (hs : HeaderSlices) (from to : Z) : Z := weight hs from (Z.to_nat (to - from)).

(** Slices start at multiples of their size and are not longer. *)
Definition regular (hs : HeaderSlices) : Prop :=
  forall e, e ∈ slices hs -> start_block_num e.2 mod HEADER_SLICE_SIZE = 0 /\ slice_len e.2 <= HEADER_SLICE_SIZE.

Lemma find_by_block_num_inv hs n id s : slices_wf hs -> slices.find_by_block_num hs n = Some id ->
  slices.read hs id = Some s ->
  (id, s) ∈ slices hs /\ start_block_num s = align_block_num_to_slice_start n /\
  start_block_num s <= n < start_block_num s + slice_len s.
Proof.
  intros Hw Hf Hr. unfold slices.find_by_block_num in Hf. apply bind_Some in Hf as (id' & Hf & Hx).
  apply find_where_lookup in Hf as (i & s' & Hi & Hs). rewrite (read_deque _ i _ s') in Hx by done.
  cbn in Hx. unfold range_contains in Hx. cbn in Hx. destruct (_ && _) eqn:Eb in Hx; [|done]. injection Hx as ->.
  rewrite (read_deque _ i _ s') in Hr by done. injection Hr as ->. split_and!; [by eapply list_elem_of_lookup_2|lia|lia|lia].
Qed.

(** The blocks of one slice. *)
Lemma block_at_slice hs n m id s l : slices_wf hs -> regular hs ->
  slices.find_by_block_num hs n = Some id -> slices.read hs id = Some s -> headers s = Some l ->
  is_canonical_slice_status (slice_status s) = true ->
  start_block_num s <= m < start_block_num s + Z.of_nat (length l) ->
  block_at hs m = l !! Z.to_nat (m - start_block_num s).
Proof.
  intros Hw Hreg Hf Hr Hl Hst Hm. destruct (find_by_block_num_inv _ _ _ _ Hw Hf Hr) as (Hin & Hal & Hn).
  destruct (Hreg _ Hin) as [Hmod Hlen]. cbn in Hmod, Hlen.
  assert (slice_len s = Z.of_nat (length l)) as Hsl by (unfold slice_len; by rewrite Hl).
  assert (align_block_num_to_slice_start m = align_block_num_to_slice_start n) as Heq.
  { rewrite <- Hal. unfold align_block_num_to_slice_start, HEADER_SLICE_SIZE in *.
    apply Z.mod_divide in Hmod as [q Hq]; [|done]. rewrite Hq. f_equal.
    symmetry. apply (Z.div_unique _ _ _ (m - q * 192)); lia. }
  unfold block_at. assert (slices.find_by_block_num hs m = Some id) as ->.
  { unfold slices.find_by_block_num in *. rewrite Heq. apply bind_Some in Hf as (id' & Hf & Hx).
    rewrite Hf. cbn. apply bind_Some in Hx as (s' & Hr' & Hx). destruct (range_contains _ n); [|done].
    injection Hx as ->. rewrite Hr. cbn. unfold range_contains. cbn.
    rewrite (proj2 (Z.leb_le _ _)), (proj2 (Z.ltb_lt _ _)) by lia. done. }
  cbn. rewrite Hr. cbn. rewrite Hl. cbn. by rewrite Hst.
Qed.

Lemma weight_app hs from k j : weight hs from (k + j) = weight hs from k + weight hs (from + Z.of_nat k) j.
Proof.
  revert from. induction k as [|k IH]; intros from; cbn [weight Nat.add]; [by rewrite Z.add_0_r|].
  rewrite IH. replace (from + 1 + Z.of_nat k) with (from + Z.of_nat (S k)) by lia. lia.
Qed.

Lemma weight_nonneg hs from k : (forall n h, block_at hs n = Some h -> 0 <= cached.difficulty h) ->
  0 <= weight hs from k.
Proof.
  intros Hd. revert from. induction k as [|k IH]; intros from; cbn [weight]; [done|].
  specialize (IH (from + 1)). destruct (block_at hs from) as [h|] eqn:E; cbn; [|lia].
  specialize (Hd _ _ E). lia.
Qed.

(** The inner loop adds the headers of a slice up to the end of the range. *)
Lemma sum_headers_spec hs r l : forall num d,
  (forall i h, l !! i = Some h -> block_at hs (num + Z.of_nat i) = Some h) ->
  (forall n h, block_at hs n = Some h -> 0 <= cached.difficulty h) ->
  range_start r <= num <= range_end r -> 0 <= d ->
  let k := Nat.min (length l) (Z.to_nat (range_end r - num)) in
  d + weight hs num k < 2 ^ 256 ->
  fork_mode.sum_headers r l num d = Done (num + Z.of_nat k, d + weight hs num k).
Proof.
  induction l as [|h l IH]; intros num d Hl Hd Hr Hpos k Hlt; cbn [fork_mode.sum_headers].
  { cbn. by rewrite !Z.add_0_r. }
  unfold range_contains. rewrite (proj2 (Z.leb_le _ _)) by lia. cbn [andb].
  pose proof (Hl 0%nat h eq_refl) as Hh. rewrite Z.add_0_r in Hh.
  destruct (Z.ltb_spec num (range_end r)) as [Hlt'|].
  - assert (k = S (Nat.min (length l) (Z.to_nat (range_end r - (num + 1))))) as Hk.
    { unfold k. cbn [length]. lia. }
    rewrite Hk in *. cbn [weight] in *. rewrite Hh in *. cbn in Hlt |- *.
    pose proof (weight_nonneg hs (num + 1) (Nat.min (length l) (Z.to_nat (range_end r - (num + 1)))) Hd).
    specialize (Hd _ _ Hh) as Hdh.
    unfold u256_checked. rewrite checked_some by lia. cbn [o_unwrap mbind outcome_bind].
    rewrite IH; [|..|lia|lia|lia]; [f_equal; f_equal; lia| |done].
    intros i x Hi. rewrite <- (Hl (S i) x Hi). f_equal. lia.
  - assert (k = O) as -> by (unfold k; lia). cbn. by rewrite !Z.add_0_r.
Qed.

Lemma sum_slices_spec hs r rounds : slices_wf hs -> regular hs ->
  (forall n h, block_at hs n = Some h -> 0 <= cached.difficulty h) ->
  forall num d, range_start r <= num -> range_end r - num <= Z.of_nat rounds -> 0 <= d ->
  (forall n, num <= n < range_end r -> is_Some (block_at hs n)) ->
  d + weight_between hs num (range_end r) < 2 ^ 256 ->
  fork_mode.sum_slices rounds hs r num d = Done (d + weight_between hs num (range_end r)).
Proof.
  intros Hw Hreg Hd. induction rounds as [|rounds IH]; intros num d Hs Hk Hpos Hall Hlt; cbn [fork_mode.sum_slices].
  { unfold weight_between. replace (Z.to_nat (range_end r - num)) with O by lia. cbn. by rewrite Z.add_0_r. }
  unfold range_contains at 1. rewrite (proj2 (Z.leb_le _ _)) by lia. cbn [andb].
  destruct (Z.ltb_spec num (range_end r)) as [Hlt'|].
  2: { unfold weight_between. replace (Z.to_nat (range_end r - num)) with O by lia. cbn. by rewrite Z.add_0_r. }
  destruct (Hall num) as [h Hh]; [lia|]. pose proof Hh as Hb. unfold block_at in Hh.
  apply bind_Some in Hh as (s & Hs' & Hh). apply bind_Some in Hs' as (id & Hid & Hrd).
  apply bind_Some in Hh as (l & Hl & Hh). destruct (is_canonical_slice_status _) eqn:Est; [|done].
  rewrite Hid. cbn [mbind option_bind]. rewrite Hrd, Est, Hl. cbn [negb].
  destruct (find_by_block_num_inv _ _ _ _ Hw Hid Hrd) as (_ & _ & Hn).
  assert (slice_len s = Z.of_nat (length l)) as Hsl by (unfold slice_len; by rewrite Hl).
  set (ls := drop (Z.to_nat (num - start_block_num s)) l).
  set (k := Nat.min (length ls) (Z.to_nat (range_end r - num))).
  assert (length ls = (length l - Z.to_nat (num - start_block_num s))%nat) as Hls by apply length_drop.
  assert (0 < k)%nat as Hkpos by (unfold k; lia).
  assert (weight_between hs num (range_end r) =
    weight hs num k + weight_between hs (num + Z.of_nat k) (range_end r)) as Hsplit.
  { unfold weight_between. rewrite <- weight_app. f_equal. unfold k. lia. }
  pose proof (weight_nonneg hs (num + Z.of_nat k) (Z.to_nat (range_end r - (num + Z.of_nat k))) Hd) as Hnn.
  fold (weight_between hs (num + Z.of_nat k) (range_end r)) in Hnn.
  pose proof (weight_nonneg hs num k Hd) as Hnk.
  rewrite (sum_headers_spec hs); [| |done|lia|done|fold k; lia].
  - fold k. cbn [mbind outcome_bind]. rewrite IH; [f_equal; lia|lia|lia|lia| |lia].
    intros n Hnn'. apply Hall. lia.
  - intros i x Hi. unfold ls in Hi. rewrite lookup_drop in Hi. pose proof (lookup_lt_Some _ _ _ Hi).
    rewrite (block_at_slice hs num _ id s l) by (done || lia). rewrite <- Hi. f_equal. lia.
Qed.

(** The blocks after the connection are all there, and their weight fits into a word. *)
Definition weighable (hs : HeaderSlices) (r : BlockRange) (connection : Z) : Prop :=
  slices_wf hs /\ regular hs /\ range_start r <= connection + 1 /\
  (forall n h, block_at hs n = Some h -> 0 <= cached.difficulty h) /\
  (forall n, connection < n < range_end r -> is_Some (block_at hs n)) /\
  weight_between hs (connection + 1) (range_end r) < 2 ^ 256.

Lemma range_difficulty_spec hs r connection : weighable hs r connection ->
  fork_mode.range_difficulty hs r connection = Done (weight_between hs (connection + 1) (range_end r)).
Proof.
  intros (Hw & Hreg & Hs & Hd & Hall & Hlt). unfold fork_mode.range_difficulty.
  rewrite sum_slices_spec; [by rewrite Z.add_0_l|done|done|done|lia|lia|lia| |by rewrite Z.add_0_l].
  intros n Hn. apply Hall. lia.
Qed.

(** C29: When the fork has a header in common with the canonical chain, the chain with more
    difficulty after this header wins: the mode asks for a switch to the fork if the fork is
    heavier and leaves the windows as they are, and otherwise empties the window of the fork
    and asks for nothing. *)
Theorem fork_choice st ws connection :
  fork_mode.find_fork_connection_block_num st ws = Some connection ->
  weighable (canonical_slices ws) (fork_mode.canonical_range st) connection ->
  weighable (fork_slices ws) (fork_mode.fork_range st) connection ->
  let canonical := weight_between (canonical_slices ws) (connection + 1)
                     (range_end (fork_mode.canonical_range st)) in
  let fork := weight_between (fork_slices ws) (connection + 1) (range_end (fork_mode.fork_range st)) in
  exists st' ws', fork_mode.check_termination st ws = Done (true, st', ws') /\
    if canonical <? fork then
      ws' = ws /\ fork_mode.pending_switch_to_fork_command st' =
        Some {| command_canonical_range := fork_mode.canonical_range st;
                command_fork_range := fork_mode.fork_range st; connection_block_num := connection |}
    else
      canonical_slices ws' = canonical_slices ws /\ slices (fork_slices ws') = [] /\
      (forall x, count (fork_slices ws') x = 0) /\
      fork_mode.pending_switch_to_fork_command st' = fork_mode.pending_switch_to_fork_command st.
Proof.
  intros Hc Hcan Hfork canonical fork. unfold fork_mode.check_termination. rewrite Hc.
  rewrite (range_difficulty_spec _ _ _ Hfork), (range_difficulty_spec _ _ _ Hcan).
  cbn [mbind outcome_bind]. fold canonical fork.
  destruct (canonical <? fork); eexists _, _; (split; [reflexivity|]); done.
Qed.

End weight.

(** A chain of two blocks and a fork from its first block, whose second block is heavier. *)
Module sample_fork.

Definition heavy (n d : Z) : BlockHeader := {|
  header.parent_hash := n; header.ommers_hash := EMPTY_LIST_HASH; header.beneficiary := 0;
  header.state_root := 0; header.transactions_root := 0; header.receipts_root := 0;
  header.logs_bloom := 0; header.difficulty := d; header.number := n; header.gas_limit := 5000;
  header.gas_used := 0; header.timestamp := 10 * n; header.extra_data := []; header.mix_hash := 0;
  header.nonce := 0; header.base_fee_per_gas := None;
|}.

Definition window (second_hash second_difficulty : Z) : HeaderSlices :=
  let s := {| start_block_num := 0; slice_status := status.Verified;
              headers := Some [cached.new (heavy 0 5) 100; cached.new (heavy 1 second_difficulty) second_hash];
              from_peer_id := None; request_time := None; request_attempt := 0; refetch_attempt := 0 |} in
  {| slices := [(0%nat, s)]; detached := []; next_id := 1; max_slices := 515; max_block_num := 192;
     final_block_num := 192; count := make_state_watches_from_slices [(0%nat, s)];
     sent := make_state_watches_from_slices [(0%nat, s)] |}.

Definition both : Windows := {| canonical_slices := window 101 6; fork_slices := window 201 7 |}.

Definition two_blocks : BlockRange := {| range_start := 0; range_end := 2 |}.

Definition stage : fork_mode.ForkModeStage := {|
  fork_mode.canonical_range := two_blocks; fork_mode.fork_range := two_blocks;
  fork_mode.pending_switch_to_fork_command := None; fork_mode.waiting := false;
  fork_mode.remaining_count := 0; fork_mode.fork_remaining_count := 0 |}.

Lemma window_wf x d : slices_wf (window x d).
Proof.
  split; cbn -[make_state_watches_from_slices].
  - apply NoDup_singleton.
  - intros id Hid%list_elem_of_singleton. lia.
  - apply make_watches_counts.
  - done.
Qed.

Lemma window_weighable x d : 0 <= d < 2 ^ 256 -> weighable (window x d) two_blocks 0.
Proof.
  intros Hd. split_and!; [apply window_wf| |done| | |].
  - intros e He%list_elem_of_singleton. by subst e.
  - intros n h Hb. unfold block_at in Hb. apply bind_Some in Hb as (s & Hs & Hb).
    apply bind_Some in Hs as (id & Hf & Hr).
    destruct (find_by_block_num_inv _ _ _ _ (window_wf x d) Hf Hr) as ([= -> ->]%list_elem_of_singleton & _ & _).
    cbn in Hb. apply list_elem_of_lookup_2 in Hb.
    apply elem_of_cons in Hb as [->|Hb%list_elem_of_singleton]; [|subst h]; cbn; lia.
  - intros n Hn. assert (n = 1) as -> by (cbn in Hn; lia). by eexists.
  - change (d + 0 < 2 ^ 256). lia.
Qed.

End sample_fork.

Section witness.
Import sample_fork.
#[local] Existing Instances samples.keccak sample_headers.stream.

(** The fork is heavier by one, and the switch keeps the first block. *)
Lemma fork_choice_witness :
  exists st, fork_mode.check_termination stage both = Done (true, st, both) /\
    fork_mode.pending_switch_to_fork_command st =
      Some {| command_canonical_range := two_blocks; command_fork_range := two_blocks; connection_block_num := 0 |}.
Proof.
  destruct (fork_choice stage both 0) as (st & ws & Hc & Hx).
  - vm_compute. reflexivity.
  - apply window_weighable. lia.
  - apply window_weighable. lia.
  - destruct Hx as [-> Hp]. exists st. by split.
Defined.

End witness.

(** ** Counters *)

(** A window after changes of its slices in place. *)
Definition edited (R : HeaderSlice -> HeaderSlice -> Prop) (hs hs' : HeaderSlices) : Prop :=
  exists l c, hs' = rebuilt hs l c /\ related R (slices hs) l /\ slices_wf hs'.

(** Verified and saved slices stay so, and slices that wait for verification are left alone. *)
Definition canonical (s : HeaderSlice) : Prop :=
  slice_status s = status.Verified \/ slice_status s = status.Saved.
Definition keeps (s s' : HeaderSlice) : Prop :=
  (canonical s -> canonical s') /\ (slice_status s = status.Downloaded -> s' = s).
Definition any (s s' : HeaderSlice) : Prop := True.

#[export] Instance keeps_refl : Reflexive keeps.
Proof. by split. Qed.
#[export] Instance keeps_trans : Transitive keeps.
Proof.
  intros s1 s2 s3 [Ha Hb] [Hc Hd]. split; [by auto|]. intros Hs. pose proof (Hb Hs) as ->. by apply Hd.
Qed.
#[export] Instance any_refl : Reflexive any.
Proof. done. Qed.
#[export] Instance any_trans : Transitive any.
Proof. done. Qed.

Lemma related_trans R `{!Transitive R} l1 l2 l3 : related R l1 l2 -> related R l2 l3 -> related R l1 l3.
Proof.
  intros H12. revert l3. induction H12 as [|e1 e2 l1 l2 [Hi Hr] _ IH]; intros l3 H23.
  - apply Forall2_nil_inv_l in H23 as ->. constructor.
  - apply Forall2_cons_inv_l in H23 as (e3 & l3' & [Hi' Hr'] & H23 & ->). constructor; [|by apply IH].
    split; [congruence|by etransitivity].
Qed.

Section edits.
Context (R : HeaderSlice -> HeaderSlice -> Prop) `{!Reflexive R} `{!Transitive R}.

Lemma edited_refl hs : slices_wf hs -> edited R hs hs.
Proof.
  intros Hw. exists (slices hs), (count hs). split_and!; [by destruct hs|by apply related_refl|done].
Qed.

Lemma edited_trans hs1 hs2 hs3 : edited R hs1 hs2 -> edited R hs2 hs3 -> edited R hs1 hs3.
Proof.
  intros (l & c & -> & Hr & _) (l' & c' & -> & Hr' & Hw). exists l', c'. split_and!; [done| |done].
  by eapply related_trans.
Qed.

Lemma edited_wf hs hs' : edited R hs hs' -> slices_wf hs'.
Proof. by intros (l & c & _ & _ & ?). Qed.

(** One slice of the deque gets a new status, and other fields. *)
Lemma edited_status hs i id s s' s'' st c : slices_wf hs -> slices hs !! i = Some (id, s) ->
  slice_status s' = slice_status s -> slices.set_slice_status s' st (count hs) = (s'', c) ->
  forall f, (forall x, slice_status (f x) = slice_status x) -> R s (f (with_status s' st)) ->
  edited R hs (slices.with_count (slices.write hs id (f s'')) c).
Proof.
  intros Hw Hi Hs Hset f Hf HR.
  pose proof (set_slice_status_moved s' st (count hs)) as Hm. rewrite Hset in Hm.
  destruct Hm as [Hs'' Hc]; [intros; by apply wf_uint|]. cbn in Hs'', Hc. subst s''.
  rewrite (write_deque _ i _ s) by done. eexists _, c. split_and!; [done| |].
  - by apply (related_insert R _ _ _ s).
  - apply wf_rebuilt; [done|by eapply fmap_fst_insert|]. intros x. rewrite Hc, Hs.
    pose proof (moved_counts _ _ i id s (f (with_status s' st)) (wf_count _ Hw) (wf_length _ Hw) Hi) as Hm.
    rewrite Hf in Hm. apply Hm.
Qed.

Lemma edited_set_status hs i id s st : slices_wf hs -> slices hs !! i = Some (id, s) ->
  R s (with_status s st) -> edited R hs (slices.set_status_of hs id st).
Proof.
  intros Hw Hi HR. unfold slices.set_status_of. rewrite (read_deque _ i _ s) by done.
  destruct (slices.set_slice_status s st (count hs)) as [s' c] eqn:E.
  by apply (edited_status hs i id s s s' st c Hw Hi eq_refl E (fun x => x)).
Qed.

Lemma refetch_edited hs i id s hs' : slices_wf hs -> slices hs !! i = Some (id, s) ->
  (forall s', slice_status s' = status.Empty -> R s s') ->
  fork_mode.refetch_slice id hs = Done hs' -> edited R hs hs'.
Proof.
  intros Hw Hi HR Hr. unfold fork_mode.refetch_slice in Hr. rewrite (read_deque _ i _ s) in Hr by done.
  destruct (slices.set_slice_status s status.Empty (count hs)) as [s' c] eqn:E. inv_bind Hr. injection Hr as <-.
  apply (edited_status hs i id s s s' status.Empty c Hw Hi eq_refl E
    (fun x => with_refetch (with_headers x None) r)); [done|]. by apply HR.
Qed.

Lemma extend_edited hs i id s : slices_wf hs -> slices hs !! i = Some (id, s) ->
  (forall s', slice_status s' = status.Verified -> R s s') -> edited R hs (fork_mode.extend_with id hs).
Proof.
  intros Hw Hi HR. unfold fork_mode.extend_with. rewrite (read_deque _ i _ s) by done.
  destruct (slices.set_slice_status s status.Verified (count hs)) as [s' c] eqn:E.
  apply (edited_status hs i id s s s' status.Verified c Hw Hi eq_refl E (fun x => with_refetch x 0)); [done|].
  by apply HR.
Qed.

End edits.

(** ** The stages of a group *)

(** Closes the goal for a window that is left as it is. *)
Ltac unedited := apply edited_refl; [apply _|done].

Lemma related_weaken (R R' : HeaderSlice -> HeaderSlice -> Prop) l l' :
  (forall s s', R s s' -> R' s s') -> related R l l' -> related R' l l'.
Proof. intros HR Hr. eapply Forall2_impl; [exact Hr|]. intros e e' [? ?]. split; [done|by apply HR]. Qed.

Lemma edited_weaken (R R' : HeaderSlice -> HeaderSlice -> Prop) hs hs' :
  (forall s s', R s s' -> R' s s') -> edited R hs hs' -> edited R' hs hs'.
Proof.
  intros HR (l & c & -> & Hr & Hw). exists l, c. split_and!; [done| |done].
  eapply related_weaken; [exact HR|done].
Qed.

(** The references of the tasks of the verifying stage point to slices of the deque. *)
Definition tasks_live (P : HeaderSlice -> Prop) (vs : verify.Control) (l : list entry) : Prop :=
  match vs with
  | verify.Tasks tasks => NoDup tasks.*1 /\ forall id r, (id, r) ∈ tasks -> exists s, (id, s) ∈ l /\ P s
  | _ => True
  end.

Lemma tasks_live_related (P : HeaderSlice -> Prop) R vs l l' :
  (forall s s', R s s' -> P s -> P s') -> related R l l' -> tasks_live P vs l -> tasks_live P vs l'.
Proof.
  intros HR Hr. destruct vs as [| |tasks]; [done..|]. intros [Hn Ht]. split; [done|].
  intros id r Hin. destruct (Ht id r Hin) as (s & [i Hi]%list_elem_of_lookup & HP).
  destruct (related_lookup _ _ _ _ _ Hr Hi) as (s' & Hi' & Hrs). cbn in *. exists s'.
  split; [by eapply list_elem_of_lookup_2|by eapply HR].
Qed.

Section stages.
Context `{Keccak} `{RlpStream} `{HeaderSliceVerifier} {T : Type -> Type} {KV : Kv T}.

Lemma quiet_keeps known s s' : quiet known s s' -> keeps s s'.
Proof.
  intros [->|(_ & Hi & _)]; [done|]. unfold idle in Hi. split.
  - intros [Hc|Hc]; destruct Hi as [?|[?|?]]; congruence.
  - intros Hc. destruct Hi as [?|[?|?]]; congruence.
Qed.

Lemma quiet_edited known hs hs' : quiet_step known hs hs' -> edited keeps hs hs'.
Proof. intros He. eapply (edited_weaken (quiet known)); [apply quiet_keeps|exact He]. Qed.

(** The verifying stage changes the slices of its tasks. *)
Definition verified_by (P : HeaderSlice -> Prop) (s s' : HeaderSlice) : Prop := s' = s \/ P s.

Section verify.
Variable P : HeaderSlice -> Prop.
Hypothesis HP : forall s, slice_status s = status.Downloaded -> P s.
Hypothesis Hprep : forall s, P s -> P (verify.prepare_slice_hashes s).

#[local] Instance verified_by_refl : Reflexive (verified_by P).
Proof. by left. Qed.

Lemma set_statuses_edited good tasks results : forall hs,
  Forall2 (fun e r => e.1 = r.1) tasks results -> slices_wf hs ->
  tasks_live P (verify.Tasks tasks) (slices hs) ->
  edited (verified_by P) hs (verify.set_statuses good results hs).
Proof.
  revert results. induction tasks as [|[id o] tasks IH]; intros results hs Hf Hw [Hn Ht].
  { apply Forall2_nil_inv_l in Hf as ->. unedited. }
  apply Forall2_cons_inv_l in Hf as ([id' ok] & results' & Hid & Hf & ->). cbn in Hid. subst id'.
  rewrite fmap_cons in Hn. apply NoDup_cons in Hn as [Hni Hn]. cbn in Hni.
  destruct (Ht id o) as (s & Hs & HPs); [by left|]. destruct (elem_of_deque _ _ _ Hs) as [j Hj].
  cbn [verify.set_statuses foldl]. set (new := if ok then good else status.Invalid).
  destruct (set_status_of_deque hs j id s new Hw Hj) as (c & Heq & Hw').
  fold (verify.set_statuses good results' (slices.set_status_of hs id new)).
  destruct (IH results' (slices.set_status_of hs id new)) as (l & c' & Heq' & Hr & Hw2); [done|done| |].
  { split; [done|]. intros id' r' Hin. destruct (Ht id' r') as (s1 & Hs1 & HP1); [by right|].
    exists s1. split; [|done]. rewrite Heq. destruct (elem_of_deque _ _ _ Hs1) as [j1 Hj1].
    apply (list_elem_of_lookup_2 _ j1). cbn. rewrite list_lookup_insert_ne; [done|].
    intros ->. apply Hni. rewrite Hj in Hj1. injection Hj1 as <- <-.
    by apply (list_elem_of_fmap_2 fst _ (id, r')). }
  rewrite Heq' in *. rewrite Heq in *. exists l, c'. split_and!; [done| |done].
  cbn in Hr. rewrite <- (list_insert_id (slices hs) j (id, s)) by done.
  apply Forall2_lookup. intros k. pose proof (proj1 (Forall2_lookup _ _ _) Hr k) as Hk.
  destruct (decide (k = j)) as [->|Hne].
  - assert (j < length (slices hs))%nat by (by eapply lookup_lt_Some).
    rewrite list_lookup_insert_eq in Hk by done. rewrite list_lookup_insert_eq by done.
    inversion Hk as [? e' [He _] Hx Hy|]. constructor. split; [done|by right].
  - rewrite list_lookup_insert_ne in Hk by done. by rewrite list_lookup_insert_ne by done.
Qed.

Lemma verify_edited num_cpus check good task vs hs r vs' hs' : slices_wf hs ->
  tasks_live P vs (slices hs) -> verify.poll num_cpus check good task vs hs = Done (r, vs', hs') ->
  edited (verified_by P) hs hs' /\ tasks_live P vs' (slices hs').
Proof.
  intros Hw Ht Hp. unfold verify.poll in Hp.
  destruct vs as [w| |tasks].
  - destruct (wait_while_ready _ _ _ _); injection Hp as <- <- <-; split; by try unedited.
  - pose proof (batch_of_spec status.Downloaded num_cpus [] (slices hs)) as Hb.
    pose proof (batch_of_nodup status.Downloaded num_cpus [] (slices hs)) as Hn.
    fold (slices.find_batch_by_status hs status.Downloaded num_cpus) in Hb, Hn.
    destruct (slices.find_batch_by_status hs status.Downloaded num_cpus) as [|id ids];
      injection Hp as <- <- <-; (split; [by unedited|]); [done|].
    assert (((fun id => (id, None)) <$> id :: ids : list (nat * option bool)).*1 = id :: ids) as Hfst.
    { rewrite <- list_fmap_compose. apply list_fmap_id. }
    split; [change (NoDup ((fun id => (id, None)) <$> id :: ids : list (nat * option bool)).*1);
      rewrite Hfst; apply Hn; [constructor|by apply nodup_parts|by intros ? ?%elem_of_nil]|].
    intros id' r' (id0 & [= -> ->] & Hin)%(list_elem_of_fmap (fun id => (id, None)) (id :: ids)).
    destruct (Hb id0 Hin) as [?%elem_of_nil|(s & ? & ?)]; [done|]. exists s. split; [done|by apply HP].
  - destruct (verify.joined tasks) as [results|] eqn:Ej.
    + injection Hp as <- <- <-. split; [|done]. eapply set_statuses_edited; [|done|done].
      apply mapM_Some in Ej. eapply Forall2_impl; [exact Ej|].
      intros [id o] [id' b] He. cbn in *. apply fmap_Some in He as (b' & -> & [= <- <-]). done.
    + assert (edited (verified_by P) hs hs /\ tasks_live P (verify.Tasks tasks) (slices hs)) as Hsame
        by (split; [by unedited|done]).
      destruct task as [[i now]|]; [|by injection Hp as <- <- <-].
      destruct (tasks !! i) as [[id [b|]]|] eqn:Ei; [by injection Hp as <- <- <-| |by injection Hp as <- <- <-].
      inv_bind Hp. destruct r0 as [ok hs1]. injection Hp as <- <- <-. destruct Ht as [Hn Ht].
      destruct (Ht id None) as (s & Hs & HPs); [by eapply list_elem_of_lookup_2|].
      destruct (elem_of_deque _ _ _ Hs) as [j Hj]. unfold verify.run_task in E.
      rewrite (read_deque _ j _ s) in E by done. inv_bind E. injection E as <- <-.
      rewrite (write_deque _ j _ s) by done.
      assert (edited (verified_by P) hs (slices.with_deque hs
        (<[j := (id, verify.prepare_slice_hashes s)]> (slices hs)))) as He.
      { exists (<[j := (id, verify.prepare_slice_hashes s)]> (slices hs)), (count hs).
        split_and!; [by destruct hs|apply (related_insert _ _ _ _ s); [done|by right]|].
        apply (wf_rebuilt hs _ (count hs)); [done|by eapply fmap_fst_insert|]. intros x.
        rewrite (in_status_insert _ _ _ _ s), (wf_count _ Hw x) by done. cbn. lia. }
      split; [done|]. split.
      * rewrite list_fmap_insert. cbn. rewrite list_insert_id; [done|]. by rewrite list_lookup_fmap, Ei.
      * intros id' r' [k Hk]%list_elem_of_lookup.
        assert (exists r0, (id', r0) ∈ tasks) as [r0 Hr0].
        { apply list_lookup_insert_Some in Hk as [(-> & [= <- <-] & _)|(Hne & Hk)].
          - exists None. by eapply list_elem_of_lookup_2.
          - exists r'. by eapply list_elem_of_lookup_2. }
        destruct (Ht id' r0 Hr0) as (s1 & Hs1 & HP1). destruct (elem_of_deque _ _ _ Hs1) as [j1 Hj1].
        destruct (decide (j1 = j)) as [->|Hne].
        -- rewrite Hj in Hj1. injection Hj1 as -> ->. exists (verify.prepare_slice_hashes s1).
           split; [|by apply Hprep]. apply (list_elem_of_lookup_2 _ j). cbn. apply list_lookup_insert_eq.
           by eapply lookup_lt_Some.
        -- exists s1. split; [|done]. apply (list_elem_of_lookup_2 _ j1). cbn. by rewrite list_lookup_insert_ne.
Qed.

End verify.

(** The saving stage moves verified slices to the saved ones. *)
Definition saves (s s' : HeaderSlice) : Prop :=
  s' = s \/ slice_status s = status.Verified /\ slice_status s' = status.Saved.

#[local] Instance saves_refl : Reflexive saves.
Proof. by left. Qed.
#[local] Instance saves_trans : Transitive saves.
Proof. intros s1 s2 s3 [->|[? ?]] [->|[? ?]]; [by left|by right|by right|congruence]. Qed.

Lemma saves_keeps s s' : saves s s' -> keeps s s'.
Proof. intros [->|[Hs Hs']]; [done|]. split; [by right|congruence]. Qed.

Lemma next_to_save_lookup o hs id : save.next_to_save o hs = Some id ->
  exists i s, slices hs !! i = Some (id, s) /\ slice_status s = status.Verified.
Proof.
  destruct o; cbn.
  - unfold save.find_next_pending_monotonic. generalize (slices hs). intros l.
    induction l as [|[j s] l IH]; cbn; [done|]. destruct (slice_status s) eqn:Es; try done.
    + intros [= ->]. by exists 0%nat, s.
    + intros Hn. destruct (IH Hn) as (i & s' & ? & ?). by exists (S i), s'.
  - intros Hf. apply find_where_lookup in Hf as (i & s & Hi & Hs). apply bool_decide_eq_true in Hs. eauto.
Qed.

Lemma save_edited st hs (t : HeaderTables T) r st' hs' t' : slices_wf hs ->
  save.poll st hs t = Done (r, st', hs', t') -> edited saves hs hs'.
Proof.
  intros Hw Hp. unfold save.poll in Hp. destruct (wait_while_ready _ _ _ _).
  2: { injection Hp as <- <- <- <-. by unedited. }
  inv_bind Hp. destruct r0 as [[[ok saved] hs1] t1].
  assert (hs' = hs1) as -> by (by destruct ok; injection Hp as <- <- <- <-). clear Hp.
  revert E. generalize (Z.to_nat (count hs status.Verified)), 0. intros rounds. revert hs t Hw.
  induction rounds as [|rounds IH]; intros hs t Hw n E; cbn in E.
  { injection E as <- <- <- <-. by unedited. }
  destruct (save.next_to_save (save.order st) hs) as [id|] eqn:En.
  2: { injection E as <- <- <- <-. by unedited. }
  apply next_to_save_lookup in En as (i & s & Hi & Hs). inv_bind E. destruct r0 as [[ok1 hs2] t2].
  assert (edited saves hs hs2) as He.
  { unfold save.save_slice in E0. rewrite (read_deque _ i _ s) in E0 by done. cbn in E0.
    destruct (headers s); [|injection E0 as <- <- <-; by unedited].
    inv_bind E0. injection E0 as <- <- <-. apply (edited_set_status _ _ i _ s); [done..|]. by right. }
  destruct ok1; [|by injection E as <- <- <- <-].
  eapply edited_trans; [apply _|done|]. eapply IH; [by eapply edited_wf|done].
Qed.

(** The linking stage changes slices that are verified internally. *)
Lemma link_edited config L hs r L' hs' : slices_wf hs ->
  link_linear.poll config L hs = Done (r, L', hs') -> edited any hs hs'.
Proof.
  intros Hw Hp. unfold link_linear.poll in Hp. destruct (wait_while_ready _ _ _ _).
  2: { injection Hp as <- <- <-. by apply (edited_refl any). }
  inv_bind Hp. destruct r0 as [[n L1] hs1]. injection Hp as <- <- <-.
  revert E. generalize (Z.to_nat (count hs status.VerifiedInternally)), 0. intros rounds. revert hs L Hw.
  induction rounds as [|rounds IH]; intros hs L Hw m E; cbn in E.
  { injection E as <- <- <-. by apply (edited_refl any). }
  destruct (link_linear.find_next_pending_monotonic hs) as [id|] eqn:En.
  2: { injection E as <- <- <-. by apply (edited_refl any). }
  assert (exists i s, slices hs !! i = Some (id, s)) as (i & s & Hi).
  { revert En. unfold link_linear.find_next_pending_monotonic. generalize (slices hs). intros l.
    induction l as [|[j s] l IHl]; cbn; [done|]. destruct (slice_status s); try done.
    - intros [= ->]. by exists 0%nat, s.
    - intros Hn. destruct (IHl Hn) as (i & s' & ?). by exists (S i), s'.
    - intros Hn. destruct (IHl Hn) as (i & s' & ?). by exists (S i), s'. }
  inv_bind E. destruct r as [[ok L2] hs2].
  assert (edited any hs hs2) as He.
  { unfold link_linear.verify_pending_slice in E0. rewrite (read_deque _ i _ s) in E0 by done. cbn in E0.
    inv_bind E0. destruct r; [inv_bind E0|]; injection E0 as <- <- <-;
      by apply (edited_set_status any _ i _ s). }
  destruct ok; [|by injection E as <- <- <-].
  eapply (edited_trans any); [done|]. eapply IH; [by eapply edited_wf|done].
Qed.

End stages.
