(* ===== verification/ForkRunSpec.v ===== *)
(** The phase of the header download that follows forks: the counters of both windows are right
    after every run, whatever the peers send and in whatever order the stages are polled. *)
From S2P Require Import Prelude Word EvmState Transaction Precompiled IntraBlockState Consensus MemState Rlp StagedSync Kv Stages ChainAccess Samples.
From S2P Require Import HeaderSlices HeaderStages HeaderLoop ForkMode Downloader HeaderSlicesSpec HeaderLoopSpec HeaderChainSpec ForkModeSpec.
From Stdlib Require Import ZArith Lia Strings.Byte.
From stdpp Require Import base list option numbers gmap.
#[local] Open Scope Z_scope.

(** ** Operations that change the length of a window *)

Lemma clear_wf hs : slices_wf hs -> slices_wf (slices.clear hs).
Proof. intros [Hn Hi Hc Hl]. by split. Qed.

Lemma reset_wf s hs hs' : slices_wf hs -> slices.reset_to_single_slice s hs = Done hs' ->
  slices_wf hs' /\ (exists id, slices hs' = [(id, s)]) /\ max_slices hs' = max_slices hs.
Proof.
  intros [Hn Hi Hc Hl] Hr. unfold slices.reset_to_single_slice in Hr. inv_bind Hr. injection Hr as <-.
  split; [|by split; [eexists|]]. split; cbn.
  - constructor; [|done]. intros Hin%Hi. lia.
  - intros id [->|Hin]%elem_of_cons; [lia|]. apply Hi in Hin. lia.
  - intros x. rewrite in_status_cons, in_status_nil. unfold nothing, ind. cbn [snd].
    repeat case_decide; subst; try done.
  - done.
Qed.

Lemma prepend_wf hs hs' : slices_wf hs -> max_slices hs < 2 ^ 64 -> slices.prepend_slice hs = Done hs' ->
  slices_wf hs' /\ (exists e, slices hs' = e :: slices hs) /\ max_slices hs' = max_slices hs.
Proof.
  intros [Hn Hi Hc Hl] Hmax Hp. unfold slices.prepend_slice in Hp.
  destruct (Z.leb_spec (max_slices hs) (Z.of_nat (length (slices hs)))) as [|Hlen]; [done|].
  destruct (slices hs) as [|[id0 first] l] eqn:El; [done|].
  destruct (_ <? _); [done|]. injection Hp as <-. split; [|by split; [eexists; cbn; rewrite El|]].
  split; cbn; rewrite El.
  - constructor; [|done]. intros Hin%Hi. lia.
  - intros id [->|Hin]%elem_of_cons; [lia|]. apply Hi in Hin. lia.
  - intros x. rewrite in_status_cons. unfold fetch_add. rewrite (Hc x). unfold nothing, ind. cbn [snd slice_status fresh_slice].
    pose proof (in_status_bound x ((id0, first) :: l)).
    repeat case_decide; subst; try done. rewrite wrap_small; [lia|]. unfold uint. lia.
  - cbn in *. lia.
Qed.

Lemma append_wf hs : slices_wf hs -> Z.of_nat (length (slices hs)) + 1 < 2 ^ 64 ->
  slices_wf (slices.append_slice hs) /\ exists e, slices (slices.append_slice hs) = slices hs ++ [e].
Proof.
  intros Hw Hl. split; [|by eexists].
  exact (push_back_wf (fresh_slice (max_block_num hs)) _ hs Hw Hl eq_refl).
Qed.

Lemma trim_loop_spec max l : forall gone c keep gone' c', Z.of_nat (length l) < 2 ^ 64 -> counts c l nothing ->
  slices.trim_loop l gone c max = (keep, gone', c') ->
  counts c' keep nothing /\ (exists cut, l = cut ++ keep /\ gone' = gone ++ cut) /\
  (0 <= max -> Z.of_nat (length keep) <= max).
Proof.
  induction l as [|e l IH]; intros gone c keep gone' c' Hl Hc Ht.
  { cbn in Ht. injection Ht as <- <- <-. split; [done|]. split; [|cbn; lia]. exists []. by rewrite !app_nil_r. }
  cbn [slices.trim_loop] in Ht. destruct (Z.ltb_spec max (Z.of_nat (length (e :: l)))) as [|Hle].
  - apply IH in Ht as (Hk & (cut & -> & ->) & Hm); [|cbn in Hl; lia|].
    + split; [done|]. split; [|done]. exists (e :: cut). by rewrite <- app_assoc.
    + intros x. specialize (Hc x). rewrite in_status_cons in Hc. unfold fetch_sub, nothing, ind in *.
      pose proof (in_status_bound x l). cbn in Hl.
      repeat case_decide; subst; try done. rewrite wrap_small; [lia|]. unfold uint. lia.
  - injection Ht as <- <- <-. split; [done|]. split; [|done]. exists []. by rewrite !app_nil_r.
Qed.

Lemma trim_wf hs : slices_wf hs -> 0 <= max_slices hs ->
  slices_wf (slices.trim_start_to_fit_max_slices hs) /\
  Z.of_nat (length (slices (slices.trim_start_to_fit_max_slices hs))) <= max_slices hs /\
  max_slices (slices.trim_start_to_fit_max_slices hs) = max_slices hs.
Proof.
  intros [Hn Hi Hc Hl] Hmax. unfold slices.trim_start_to_fit_max_slices.
  destruct (slices.trim_loop _ _ _ _) as [[keep gone] c] eqn:Et.
  apply trim_loop_spec in Et as (Hk & (cut & Heq & ->) & Hm); [|done|done].
  split; [|by split; [apply Hm|]]. rewrite Heq in Hl, Hn, Hi. rewrite length_app in Hl. cbn [app] in *.
  assert (Permutation (keep ++ cut ++ detached hs) ((cut ++ keep) ++ detached hs)) as Hp
    by (rewrite app_assoc; apply Permutation_app_tail, Permutation_app_comm).
  split; cbn.
  - eapply NoDup_Permutation_proper; [|exact Hn]. by apply fmap_Permutation.
  - intros id Hid. apply Hi. eapply elem_of_Permutation_proper; [|exact Hid]. symmetry. by apply fmap_Permutation.
  - done.
  - lia.
Qed.

Lemma from_slices_vec_wf l start max final hs : (0 <= max < 2 ^ 64) ->
  slices.from_slices_vec l start (Some max) final = Done hs ->
  slices_wf hs /\ max_slices hs = max /\ Z.of_nat (length (slices hs)) <= max.
Proof.
  intros Hmax Hf. unfold slices.from_slices_vec in Hf. destruct (negb _); [done|].
  cbn [from_option id] in Hf. unfold id in Hf. inv_bind Hf. destruct (negb _); [done|]. injection Hf as <-.
  set (k := slices.resize _ _ _).
  assert (length k <= Z.to_nat max)%nat as Hlen.
  { unfold k, slices.resize. rewrite length_app, length_take, length_fmap, length_seq. lia. }
  assert ((slices.allocate 0 k).*1 = seq 0 (length k)) as Hids.
  { apply list_eq. intros i. unfold slices.allocate. rewrite list_lookup_fmap, list_lookup_imap.
    destruct (k !! i) as [s|] eqn:Ek; cbn.
    - symmetry. apply lookup_seq. apply lookup_lt_Some in Ek. lia.
    - symmetry. apply lookup_seq_ge. by apply lookup_ge_None in Ek. }
  assert (length (slices.allocate 0 k) = length k) as Hlk by apply length_imap.
  split; [|split; [done|cbn; rewrite Hlk; lia]]. split; cbn; rewrite ?app_nil_r, ?Hids.
  - apply NoDup_seq.
  - intros id Hid. apply elem_of_seq in Hid. rewrite Hlk. lia.
  - apply make_watches_counts.
  - rewrite Hlk. lia.
Qed.

(** ** The two windows *)

(** A slice that the tasks of the verifying stage may work on. *)
Definition waits (s : HeaderSlice) : Prop := slice_status s = status.Downloaded.

Definition settled (l : list entry) : Prop := Forall (fun e => canonical e.2) l.

Record main_ok (vs : verify.Control) (hs : HeaderSlices) : Prop := {
  mo_wf : slices_wf hs;
  mo_tasks : tasks_live (fun _ => True) vs (slices hs);
  mo_max : max_slices hs = 515;
}.

(** Only the first slice of the window of a fork is not linked yet. *)
Record fork_ok (vs : verify.Control) (hs : HeaderSlices) : Prop := {
  fo_wf : slices_wf hs;
  fo_tasks : tasks_live waits vs (slices hs);
  fo_tail : settled (tail (slices hs));
  fo_max : max_slices hs = 515;
}.

Lemma canonical_waits s : canonical s -> ~ waits s.
Proof. unfold canonical, waits. intros [Hs|Hs]; congruence. Qed.

(** No task is at work on a window of linked slices. *)
Lemma settled_tasks vs l l' : settled l -> tasks_live waits vs l -> tasks_live waits vs l'.
Proof.
  intros Hs. destruct vs as [| |tasks]; [done..|]. intros [Hn Ht]. split; [done|].
  intros id r Hin. destruct (Ht id r Hin) as (s & Hl & Hw). exfalso. revert Hw. apply canonical_waits.
  by eapply (proj1 (Forall_forall _ _) Hs (id, s)).
Qed.

Lemma settled_related R l l' : (forall s s', R s s' -> canonical s -> canonical s') ->
  related R l l' -> settled l -> settled l'.
Proof.
  intros HR Hr. unfold settled. induction Hr as [|e e' l l' [_ He] _ IH]; [done|].
  rewrite !Forall_cons. intros [Hc Hs]. split; [by eapply HR|by apply IH].
Qed.

Lemma related_tail R l l' : related R l l' -> related R (tail l) (tail l').
Proof. destruct 1; [constructor|done]. Qed.

Lemma main_edited R vs hs hs' : main_ok vs hs -> edited R hs hs' -> main_ok vs hs'.
Proof.
  intros [Hw Ht Hm] (l & c & -> & Hr & Hw'). split; [done| |done].
  by eapply tasks_live_related.
Qed.

Lemma fork_edited vs hs hs' : fork_ok vs hs -> edited keeps hs hs' -> fork_ok vs hs'.
Proof.
  intros [Hw Ht Hs Hm] (l & c & -> & Hr & Hw'). split; [done| | |done].
  - eapply tasks_live_related; [|exact Hr|done]. intros s s' [_ Hk] Hd. by rewrite (Hk Hd).
  - eapply settled_related; [|by apply related_tail|done]. by intros s s' [Hk _].
Qed.

Lemma edited_length R hs hs' : edited R hs hs' -> length (slices hs') = length (slices hs).
Proof. intros (l & c & -> & Hr & _). symmetry. by eapply Forall2_length. Qed.

Lemma edited_settled R hs hs' : (forall s s', R s s' -> canonical s -> canonical s') ->
  edited R hs hs' -> settled (slices hs) -> settled (slices hs').
Proof. intros HR (l & c & -> & Hr & _). by eapply settled_related. Qed.

(** *** The stages of a group *)

Section groups.
Context `{Keccak} `{RlpStream} `{HeaderSliceVerifier} {T : Type -> Type} {KV : Kv T}.
Variables (config : ChainConfig) (num_cpus : nat).

Definition verify_poll := verify.poll num_cpus (verify.verify_slice_internally config) status.VerifiedInternally.

(** All stages but the verifying one leave slices that wait alone. *)
Lemma poll_group_cases e g (t : HeaderTables T) r g' t' : slices_wf (g_slices g) ->
  poll_group config num_cpus e g t = Done (r, g', t') ->
  edited keeps (g_slices g) (g_slices g') /\ g_verify g' = g_verify g \/
  exists task, verify_poll task (g_verify g) (g_slices g) = Done (r, g_verify g', g_slices g').
Proof.
  intros Hw Hp. destruct g as [hs fr over rt vs pn sv]. destruct e; cbn in Hp, Hw |- *.
  - inv_bind Hp. destruct r0 as [[r1 fr'] hs']. injection Hp as <- <- <-. left. split; [|done].
    by apply (quiet_edited (fun _ => True)); eapply fetch_request_quiet.
  - destruct (fetch_receive.poll arrival over hs) as [[r1 over'] hs'] eqn:E. injection Hp as <- <- <-. left.
    split; [|done]. apply (quiet_edited (fun _ => True)).
    eapply fetch_receive_quiet; [done| |exact E]. destruct arrival; [done| |done..]. by apply Forall_forall.
  - inv_bind Hp. destruct r0 as [[r1 rt'] hs']. injection Hp as <- <- <-. left. split; [|done].
    by apply (quiet_edited (fun _ => True)); eapply retry_quiet.
  - inv_bind Hp. destruct r0 as [[r1 vs'] hs']. injection Hp as <- <- <-. right. by exists task.
  - inv_bind Hp. destruct r0 as [[r1 pn'] hs']. injection Hp as <- <- <-. left. split; [|done].
    by apply (quiet_edited (fun _ => True)); eapply penalize_quiet.
  - inv_bind Hp. destruct r0 as [[[r1 sv'] hs'] t1]. injection Hp as <- <- <-. left. split; [|done].
    eapply edited_weaken; [apply saves_keeps|by eapply save_edited].
Qed.

Lemma main_group_ok e g (t : HeaderTables T) r g' t' : main_ok (g_verify g) (g_slices g) ->
  poll_group config num_cpus e g t = Done (r, g', t') ->
  main_ok (g_verify g') (g_slices g') /\ length (slices (g_slices g')) = length (slices (g_slices g)).
Proof.
  intros Hg Hp. apply poll_group_cases in Hp as [[He ->]|[task Hv]]; [| |apply Hg].
  - split; [by eapply main_edited|by eapply edited_length].
  - destruct Hg as [Hw Ht Hm].
    destruct (verify_edited (fun _ => True) ltac:(done) ltac:(done) _ _ _ _ _ _ _ _ _ Hw Ht Hv)
      as [(l & c & Heq & Hr & Hw') Ht'].
    split; [|eapply edited_length; by exists l, c]. split; [done|done|by rewrite Heq].
Qed.

Lemma fork_group_ok e g (t : HeaderTables T) r g' t' : fork_ok (g_verify g) (g_slices g) ->
  poll_group config num_cpus e g t = Done (r, g', t') ->
  fork_ok (g_verify g') (g_slices g') /\ (settled (slices (g_slices g)) -> settled (slices (g_slices g'))).
Proof.
  intros Hg Hp. apply poll_group_cases in Hp as [[He ->]|[task Hv]]; [| |apply Hg].
  - split; [by eapply fork_edited|]. eapply edited_settled; [|done]. by intros s s' [Hk _].
  - destruct Hg as [Hw Ht Hs Hm].
    destruct (verify_edited waits ltac:(done) ltac:(done) _ _ _ _ _ _ _ _ _ Hw Ht Hv)
      as [(l & c & Heq & Hr & Hw') Ht'].
    assert (forall s s', verified_by waits s s' -> canonical s -> canonical s') as HR.
    { intros s s' [->|Hwait] Hc; [done|]. by apply canonical_waits in Hc. }
    split; [split; [done|done| |by rewrite Heq]|]; rewrite Heq; cbn; [|by eapply settled_related].
    eapply settled_related; [exact HR|by apply related_tail|done].
Qed.

End groups.

(** *** The linking stage *)

Lemma find_block_lookup hs n id : slices_wf hs -> slices.find_by_block_num hs n = Some id ->
  exists i s, slices hs !! i = Some (id, s) /\ slices.read hs id = Some s.
Proof.
  intros Hw Hf. unfold slices.find_by_block_num in Hf. apply bind_Some in Hf as (id' & Hf & Hx).
  apply find_where_lookup in Hf as (i & s & Hi & _). pose proof (read_deque _ i _ s Hw Hi) as Hr.
  rewrite Hr in Hx. cbn in Hx. destruct (range_contains _ _); [|done]. injection Hx as ->. eauto.
Qed.

Lemma status_of_lookup hs n id st : slices_wf hs -> slices.find_by_block_num hs n = Some id ->
  fork_mode.status_of hs (Some id) = Some st ->
  exists i s, slices hs !! i = Some (id, s) /\ slice_status s = st.
Proof.
  intros Hw Hf Hs. destruct (find_block_lookup _ _ _ Hw Hf) as (i & s & Hi & Hr).
  unfold fork_mode.status_of in Hs. cbn in Hs. rewrite Hr in Hs. injection Hs as <-. eauto.
Qed.

Lemma fork_clear vs hs : fork_ok vs hs -> settled (slices hs) -> fork_ok vs (slices.clear hs).
Proof.
  intros [Hw Ht Hs Hm] Hall. split; [by apply clear_wf|by eapply settled_tasks|constructor|done].
Qed.

Lemma fork_prepend vs hs hs' : fork_ok vs hs -> settled (slices hs) -> slices.prepend_slice hs = Done hs' ->
  fork_ok vs hs'.
Proof.
  intros [Hw Ht Hs Hm] Hall Hp. apply prepend_wf in Hp as (Hw' & [e He] & Hm'); [|done|rewrite Hm; lia].
  split; [done|by eapply settled_tasks|by rewrite He|congruence].
Qed.

(** A slice of a fork that is verified internally is the first one. *)
Lemma fork_front vs hs i id s : fork_ok vs hs -> slices hs !! i = Some (id, s) ->
  slice_status s = status.VerifiedInternally -> i = 0%nat.
Proof.
  intros [_ _ Hs _] Hi Hv. destruct i as [|i]; [done|]. destruct (slices hs) as [|e l]; [done|]. cbn in *.
  destruct (proj1 (Forall_lookup _ _) Hs i _ Hi); cbn in *; congruence.
Qed.

Lemma extend_deque hs i id s : slices_wf hs -> slices hs !! i = Some (id, s) ->
  slices (fork_mode.extend_with id hs) =
  <[i := (id, with_refetch (with_status s status.Verified) 0)]> (slices hs).
Proof.
  intros Hw Hi. unfold fork_mode.extend_with. rewrite (read_deque _ i _ s) by done.
  pose proof (set_slice_status_moved s status.Verified (count hs)) as Hm.
  destruct (slices.set_slice_status s status.Verified (count hs)) as [s' c].
  destruct Hm as [Hs' _]; [intros; by apply wf_uint|]. cbn in Hs'. subst s'.
  by rewrite (write_deque _ i _ s).
Qed.

Section links.
Context `{Keccak} `{RlpStream} `{HeaderSliceVerifier}.
Variables (config : ChainConfig) (vm vf : verify.Control).

(** What a step of the linking stage keeps: both windows are right, and the canonical one has as
    many slices as before. *)
Record windows_ok (n : nat) (ws : Windows) : Prop := {
  wo_main : main_ok vm (canonical_slices ws);
  wo_fork : fork_ok vf (fork_slices ws);
  wo_length : length (slices (canonical_slices ws)) = n;
}.

Lemma with_canonical_ok n ws hs : windows_ok n ws -> edited any (canonical_slices ws) hs ->
  windows_ok n (with_canonical ws hs).
Proof.
  intros [Hm Hf Hl] He. split; cbn; [by eapply main_edited|done|].
  by rewrite (edited_length _ _ _ He).
Qed.

Lemma with_fork_ok n ws hs : windows_ok n ws -> fork_ok vf hs -> windows_ok n (with_fork ws hs).
Proof. intros [Hm _ Hl] Hf. by split. Qed.

Lemma extend_canonical_ok n pending st ws b k st' ws' : windows_ok n ws ->
  fork_mode.extend_canonical config pending st ws = Done (b, k, st', ws') ->
  windows_ok n ws' /\ fork_slices ws' = fork_slices ws.
Proof.
  intros Hok He. unfold fork_mode.extend_canonical in He. pose proof (mo_wf _ _ (wo_main _ _ Hok)) as Hw.
  destruct (fork_mode.find_canonical_continuation_slice st ws) as [id|] eqn:Ef; [|by injection He as <- <- <- <-].
  destruct (find_block_lookup _ _ _ Hw Ef) as (i & s & Hi & Hr).
  destruct (_ && _); [|by injection He as <- <- <- <-]. inv_bind He. destruct r as [[ext st1] ws1].
  unfold fork_mode.try_extend_canonical in E.
  assert ((ext = true /\ ws1 = with_canonical ws (fork_mode.extend_with id (canonical_slices ws))) \/
          (ext = false /\ ws1 = ws)) as Hext.
  { destruct (fork_mode.find_canonical_last_slice st ws); [|injection E as <- <- <-; by right].
    do 3 inv_bind E. destruct r1; injection E as <- <- <-; [by left|by right]. }
  destruct Hext as [[-> ->]|[-> ->]].
  - injection He as <- <- <- <-. split; [|done]. apply with_canonical_ok; [done|].
    by apply (extend_edited any _ i _ s).
  - inv_bind He. injection He as <- <- <- <-. split; [|done]. apply with_canonical_ok; [done|].
    by eapply (refetch_edited any _ i _ s).
Qed.

Lemma extend_fork_ok n pending st ws b k st' ws' : windows_ok n ws ->
  fork_mode.extend_fork config pending st ws = Done (b, k, st', ws') ->
  windows_ok n ws' /\ (b = true -> settled (slices (fork_slices ws'))).
Proof.
  intros Hok He. unfold fork_mode.extend_fork in He. pose proof (wo_fork _ _ Hok) as Hf.
  pose proof (fo_wf _ _ Hf) as Hw.
  destruct (fork_mode.find_fork_continuation_slice st ws) as [id|] eqn:Ef; [|by injection He as <- <- <- <-].
  assert (exists m, slices.find_by_block_num (fork_slices ws) m = Some id) as [m Hm].
  { unfold fork_mode.find_fork_continuation_slice in Ef. destruct (_ =? 0); [done|eauto]. }
  destruct (bool_decide _ && _) eqn:Eb; [|by injection He as <- <- <- <-].
  apply andb_true_iff in Eb as [Eb%bool_decide_eq_true _].
  destruct (status_of_lookup _ _ _ _ Hw Hm Eb) as (i & s & Hi & Hs).
  pose proof (fork_front _ _ _ _ _ Hf Hi Hs) as ->.
  inv_bind He. destruct r as [[ext st1] ws1]. unfold fork_mode.try_extend_fork in E.
  assert ((ext = true /\ ws1 = with_fork ws (fork_mode.extend_with id (fork_slices ws))) \/
          (ext = false /\ ws1 = ws)) as Hext.
  { destruct (fork_mode.find_fork_first_slice st ws); [|injection E as <- <- <-; by right].
    do 3 inv_bind E. destruct r1; injection E as <- <- <-; [by left|by right]. }
  destruct Hext as [[-> ->]|[-> ->]].
  - injection He as <- <- <- <-.
    assert (edited keeps (fork_slices ws) (fork_mode.extend_with id (fork_slices ws))) as Hed.
    { apply (extend_edited keeps _ 0 _ s); [done..|]. intros s' Hs'. split; [by left|congruence]. }
    pose proof (fork_edited _ _ _ Hf Hed) as Hf'.
    split; [by apply with_fork_ok|]. intros _. pose proof (fo_tail _ _ Hf') as Ht. revert Ht. cbn [fork_slices with_fork].
    rewrite (extend_deque _ 0 _ s) by done. destruct (slices (fork_slices ws)) as [|e l]; [done|].
    intros Ht. constructor; [by left|done].
  - inv_bind He. injection He as <- <- <- <-. split; [|done]. apply with_fork_ok; [done|].
    eapply fork_edited; [done|]. eapply (refetch_edited keeps _ 0 _ s); [done..| |done].
    intros s' Hs'. split; [|congruence]. intros [|]; congruence.
Qed.

Lemma check_termination_ok n st ws b st' ws' : windows_ok n ws -> settled (slices (fork_slices ws)) ->
  fork_mode.check_termination st ws = Done (b, st', ws') ->
  windows_ok n ws' /\ settled (slices (fork_slices ws')).
Proof.
  intros Hok Hs Hc.
  assert (windows_ok n (with_fork ws (slices.clear (fork_slices ws))) /\ settled []) as Hclear
    by (split; [apply with_fork_ok, fork_clear; by try apply Hok|constructor]).
  unfold fork_mode.check_termination in Hc.
  destruct (fork_mode.find_fork_connection_block_num st ws).
  - do 2 inv_bind Hc. destruct (_ <? _); injection Hc as <- <- <-; [by split|exact Hclear].
  - destruct (_ =? _); injection Hc as <- <- <-; [exact Hclear|by split].
Qed.

Lemma continue_canonical_ok n pending updated st ws k ws' : windows_ok n ws ->
  fork_mode.continue_canonical pending updated st ws = Done (k, ws') ->
  windows_ok n ws' /\ fork_slices ws' = fork_slices ws.
Proof.
  intros Hok Hc. unfold fork_mode.continue_canonical in Hc.
  destruct (fork_mode.find_canonical_continuation_slice st ws) as [id|] eqn:Ef; [|by injection Hc as <- <-].
  destruct (find_block_lookup _ _ _ (mo_wf _ _ (wo_main _ _ Hok)) Ef) as (i & s & Hi & _).
  inv_bind Hc. injection Hc as <- <-. split; [|done]. apply with_canonical_ok; [done|].
  eapply (refetch_edited any _ i _ s); [apply Hok|done..].
Qed.

Lemma process_pending_ok n pending fork_pending st ws b k k' st' ws' : windows_ok n ws ->
  fork_mode.process_pending config pending fork_pending st ws = Done (b, k, k', st', ws') ->
  windows_ok n ws'.
Proof.
  intros Hok Hp. unfold fork_mode.process_pending in Hp.
  inv_bind Hp. destruct r as [[[did n1] st1] ws1]. apply (extend_canonical_ok n) in E as [Hok1 _]; [|done].
  inv_bind Hp. destruct r as [[[did_fork n2] st2] ws2]. apply (extend_fork_ok n) in E as [Hok2 Hs2]; [|done].
  inv_bind Hp. destruct r as [[ended st3] ws3].
  assert (windows_ok n ws3 /\ (did_fork = true -> settled (slices (fork_slices ws3)))) as [Hok3 Hs3].
  { destruct did_fork; [|by injection E as <- <- <-].
    apply (check_termination_ok n) in E as [? ?]; [done|done|by apply Hs2]. }
  destruct ended; [by injection Hp as <- <- <- <- <-|].
  inv_bind Hp. destruct r as [n4 ws4].
  assert (windows_ok n ws4 /\ fork_slices ws4 = fork_slices ws3) as [Hok4 Heq].
  { destruct did; [by eapply continue_canonical_ok|by injection E0 as <- <-]. }
  destruct did_fork; [|by injection Hp as <- <- <- <- <-]. rewrite <- Heq in Hs3.
  destruct (slices.prepend_slice (fork_slices ws4)) as [hs| |] eqn:Epre; [|by injection Hp as <- <- <- <- <-|done].
  injection Hp as <- <- <- <- <-. apply with_fork_ok; [done|].
  eapply fork_prepend; [apply Hok4|by apply Hs3|done].
Qed.

Lemma fork_poll_ok n st ws r st' ws' : windows_ok n ws ->
  fork_mode.poll config st ws = Done (r, st', ws') -> windows_ok n ws'.
Proof.
  intros Hok Hp. unfold fork_mode.poll in Hp. destruct (wait_while_all_ready _ _ _ _ _).
  - inv_bind Hp. destruct r0 as [[[[ok k] k'] st1] ws1]. apply (process_pending_ok n) in E; [|done].
    destruct ok; by injection Hp as <- <- <-.
  - by injection Hp as <- <- <-.
Qed.

(** The window of the fork is set up from one slice of the canonical window. *)
Lemma setup_ok n st ws b st' ws' : windows_ok n ws -> settled (slices (fork_slices ws)) ->
  fork_mode.setup st ws = Done (b, st', ws') ->
  windows_ok n ws' /\ (b = false -> settled (slices (fork_slices ws'))).
Proof.
  intros Hok Hs Hp. unfold fork_mode.setup in Hp.
  destruct (fork_mode.find_canonical_continuation_slice st ws) as [id|] eqn:Ef; [|by injection Hp as <- <- <-].
  pose proof (mo_wf _ _ (wo_main _ _ Hok)) as Hw.
  destruct (find_block_lookup _ _ _ Hw Ef) as (i & s & Hi & Hr). rewrite Hr in Hp. cbn [o_unwrap mbind outcome_bind] in Hp.
  destruct (negb _); [by injection Hp as <- <- <-|]. do 2 inv_bind Hp.
  assert (edited any (canonical_slices ws) r) as He by (by eapply (refetch_edited any _ i _ s)).
  destruct (wo_fork _ _ Hok) as [Hfw Hft _ Hfm].
  apply reset_wf in E0 as (Hw0 & [id0 Hl0] & Hm0); [|done].
  assert (settled (slices r0)) as Hs0 by (rewrite Hl0; constructor; [by left|constructor]).
  assert (fork_ok vf r0) as Hf0.
  { split; [done|by apply (settled_tasks _ (slices (fork_slices ws)))|rewrite Hl0; constructor|congruence]. }
  pose proof (with_canonical_ok _ _ _ Hok He) as Hc.
  destruct (slices.prepend_slice r0) as [fhs| |] eqn:Epre; [| |done]; injection Hp as <- <- <-; split; try done.
  - apply (with_fork_ok _ _ fhs) in Hc; [done|]. by eapply fork_prepend.
  - by apply (with_fork_ok _ _ r0) in Hc.
Qed.

(** Outside the fork mode all slices of the window of the fork are linked. *)
Definition mode_ok (lk : link_forky.VerifyLinkForkyStage) (ws : Windows) : Prop :=
  match link_forky.mode lk with
  | link_forky.Linear _ => settled (slices (fork_slices ws))
  | link_forky.ForkMode _ => True
  end.

Lemma after_linear_ok n L st ws r st' ws' : windows_ok n ws -> settled (slices (fork_slices ws)) ->
  link_forky.mode st = link_forky.Linear L ->
  link_forky.after_linear st ws = Done (r, st', ws') -> windows_ok n ws' /\ mode_ok st' ws'.
Proof.
  intros Hok Hs Hm Hp. unfold link_forky.after_linear in Hp.
  assert (forall w, settled (slices (fork_slices w)) -> mode_ok st w) as Hlin by (intros; unfold mode_ok; by rewrite Hm).
  destruct (slices.find_by_status _ _) as [id|] eqn:Ef; [|injection Hp as <- <- <-; by auto].
  apply find_where_lookup in Ef as (i & s & Hi & _).
  pose proof (mo_wf _ _ (wo_main _ _ Hok)) as Hw. rewrite (read_deque _ i _ s) in Hp by done. cbn [o_unwrap mbind outcome_bind] in Hp.
  destruct (_ =? _).
  - injection Hp as <- <- <-. split; [|by apply Hlin]. apply with_canonical_ok; [done|].
    by apply (edited_set_status any _ i _ s).
  - inv_bind Hp. destruct r0 as [[ok fm] ws1]. apply (setup_ok n) in E as [Hok1 Hs1]; [|done..].
    destruct ok; injection Hp as <- <- <-; [done|]. split; [done|]. by apply Hlin, Hs1.
Qed.

Lemma after_fork_ok n fm st ws r st' ws' : windows_ok n ws -> mode_ok st ws ->
  link_forky.after_fork fm st ws = Done (r, st', ws') -> windows_ok n ws' /\ mode_ok st' ws'.
Proof.
  intros Hok Hm Hp. unfold link_forky.after_fork in Hp. destruct (fork_mode.is_over fm); [by injection Hp as <- <- <-|].
  destruct (fork_mode.is_done ws) eqn:Ed; [|by injection Hp as <- <- <-].
  inv_bind Hp. injection Hp as <- <- <-. split; [done|]. unfold mode_ok. cbn.
  unfold fork_mode.is_done, slices.is_empty in Ed. destruct (slices (fork_slices ws)); [constructor|done].
Qed.

Lemma link_poll_ok n lk ws r lk' ws' : windows_ok n ws -> mode_ok lk ws ->
  link_forky.poll config lk ws = Done (r, lk', ws') -> windows_ok n ws' /\ mode_ok lk' ws'.
Proof.
  intros Hok Hm Hp. unfold link_forky.poll, mode_ok in Hp, Hm. destruct (link_forky.mode lk) as [L|fm].
  - inv_bind Hp. destruct r0 as [[r1 L1] hs1].
    apply link_edited in E; [|apply Hok]. pose proof (with_canonical_ok _ _ _ Hok E) as Hok1.
    destruct r1; [|refine (after_linear_ok _ L1 (link_forky.with_mode lk (link_forky.Linear L1)) _ _ _ _ Hok1 Hm eq_refl Hp)|]; by injection Hp as <- <- <-.
  - inv_bind Hp. destruct r0 as [[r1 fm1] ws1]. apply (fork_poll_ok n) in E; [|done].
    destruct r1; [|eapply after_fork_ok; [exact E| |exact Hp]; done|]; by injection Hp as <- <- <-.
Qed.

End links.

(** ** Runs of the phase *)

(** What one run hands over to the next one. *)
Definition main_carried (o : option HeaderSlices) : Prop :=
  match o with
  | Some hs => slices_wf hs /\ max_slices hs = 515 /\ Z.of_nat (length (slices hs)) <= 515
  | None => True
  end.

Definition fork_carried (o : option HeaderSlices) : Prop :=
  match o with
  | Some hs => slices_wf hs /\ max_slices hs = 515 /\ settled (tail (slices hs))
  | None => True
  end.

Section runs.
Context `{Keccak} `{RlpStream} `{HeaderSliceVerifier} {T : Type -> Type} {KV : Kv T}.
Variables (config : ChainConfig) (num_cpus : nat).

Definition windows_of (f : Forky T) : Windows :=
  {| canonical_slices := g_slices (main_group f); fork_slices := g_slices (fork_group f) |}.

(** The state of the phase when [k] events are left. *)
Definition forky_ok (k : nat) (f : Forky T) : Prop := exists n,
  windows_ok (g_verify (main_group f)) (g_verify (fork_group f)) n (windows_of f) /\
  mode_ok (forky_link f) (windows_of f) /\ Z.of_nat (n + k) < 2 ^ 64.

Lemma mode_settled lk ws ws' :
  (settled (slices (fork_slices ws)) -> settled (slices (fork_slices ws'))) -> mode_ok lk ws -> mode_ok lk ws'.
Proof. unfold mode_ok. destruct (link_forky.mode lk); auto. Qed.

Lemma poll_forky_ok k e f r f' : forky_ok (S k) f -> poll_forky config num_cpus e f = Done (r, f') ->
  forky_ok k f'.
Proof.
  intros (n & [Hm Hf Hl] & Hmode & Hlt) Hp. destruct f as [mg fg lk ex tm t]. cbn in Hm, Hf, Hl, Hmode.
  destruct e as [e|e| | |elapsed]; cbn in Hp.
  - inv_bind Hp. destruct r0 as [[r1 mg'] t']. injection Hp as <- <-.
    apply main_group_ok in E as [Hm' Hl']; [|done]. exists n. split; [|split; [done|lia]].
    split; [done|done|]. cbn. congruence.
  - inv_bind Hp. destruct r0 as [[r1 fg'] t']. injection Hp as <- <-.
    apply fork_group_ok in E as [Hf' Hs']; [|done]. exists n. split; [done|]. split; [|lia].
    by eapply mode_settled; [|exact Hmode].
  - inv_bind Hp. destruct r0 as [[r1 lk'] ws']. injection Hp as <- <-.
    eapply (link_poll_ok config _ _ n) in E as [[Hm' Hf' Hl'] Hmode']; [|split; [exact Hm|exact Hf|exact Hl]|done].
    exists n. split; [|split; [by destruct ws'|lia]]. by split.
  - unfold extend.poll in Hp. destruct (wait_while_ready _ _ _ _); injection Hp as <- <-.
    2: { exists n. split; [by split|]. split; [done|lia]. }
    destruct (slices.all_in_status _ _).
    2: { exists n. split; [by split|]. split; [done|lia]. }
    destruct Hm as [Hw Ht Hmax]. destruct (append_wf (g_slices mg) Hw) as [Hw' [e He]]; [lia|].
    exists (S n). split; [|split; [done|lia]]. split; [split|done|]; [done| |done|].
    + cbn -[slices.append_slice]. rewrite He. destruct (g_verify mg) as [| |tasks]; [done..|]. destruct Ht as [Hn Ht].
      split; [done|]. intros id o Hin. destruct (Ht id o Hin) as (s & Hs & _). exists s.
      split; [|done]. apply elem_of_app. by left.
    + cbn -[slices.append_slice]. rewrite He, length_app, Hl. cbn. lia.
  - destruct (timeout.poll elapsed tm) as [r1 tm']. injection Hp as <- <-. exists n. split; [by split|]. split; [done|lia].
Qed.

Lemma notify_forky_ok k f : forky_ok k f -> forky_ok k (notify_forky f).
Proof.
  intros (n & [[[] ? ?] [[] ? ? ?] Hl] & Hmode & Hlt). destruct f as [mg fg lk ex tm t]. exists n.
  split; [|done]. by split; [split; [split|..]|split; [split|..]|].
Qed.

Lemma run_forky_ok events : forall f stopped f', forky_ok (length events) f ->
  run_forky config num_cpus events f = Done (stopped, f') -> forky_ok 0 f'.
Proof.
  induction events as [|e events IH]; intros f stopped f' Hok Hr; cbn in Hr.
  { by injection Hr as <- <-. }
  inv_bind Hr. destruct r as [r f1]. pose proof (poll_forky_ok _ _ _ _ _ Hok E) as Hok1.
  assert (forky_ok 0 f1) as Hend.
  { destruct Hok1 as (n & ? & ? & ?). exists n. split; [done|]. split; [done|lia]. }
  unfold after_poll in Hr. destruct r; [by eapply IH| |by injection Hr as <- <-].
  destruct (negb _ && _); [|by injection Hr as <- <-].
  eapply IH; [|exact Hr]. by apply notify_forky_ok.
Qed.

Lemma forky_report_ok start f report (t : HeaderTables T) : forky_ok 0 f -> forky_report start f = (report, t) ->
  main_carried (report_header_slices report) /\ fork_carried (report_fork_header_slices report).
Proof.
  intros (n & [[Hw _ Hm] [Hfw _ Hs Hfm] _] & _ & _) Hr. unfold forky_report in Hr. injection Hr as <- _.
  cbn in Hw, Hm, Hfw, Hs, Hfm |- *.
  destruct (trim_wf _ Hw) as (Hw' & Hl' & Hm'); [lia|].
  unfold fork_mode.adjust_fork_slices_after_header_slices_trim. destruct (_ <=? _); cbn -[slices.clear].
  - split; [split_and!; [done|congruence|lia]|]. split_and!; [by apply clear_wf|done|constructor].
  - split; [split_and!; [done|congruence|lia]|done].
Qed.

Lemma forky_run_ok events start max_blocks final previous previous_fork (t : HeaderTables T) report t' :
  main_carried previous -> fork_carried previous_fork -> Z.of_nat (length events) < 2 ^ 63 ->
  forky_run config num_cpus events start max_blocks final previous previous_fork t = Done (Some (report, t')) ->
  main_carried (report_header_slices report) /\ fork_carried (report_fork_header_slices report).
Proof.
  intros Hm Hf Hev Hr. unfold forky_run in Hr.
  set (prev := match previous with Some hs => _ | None => None end) in Hr.
  set (pfork := match prev with Some _ => previous_fork | None => None end) in Hr.
  assert (main_carried prev) as Hm1. { unfold prev. destruct previous; [|done]. by destruct (_ <=? _). }
  assert (fork_carried pfork) as Hf1. { unfold pfork. by destruct prev. }
  clearbody prev pfork. destruct (negb _); [done|].
  destruct (_ || _); [by injection Hr as <- <-|]. do 3 inv_bind Hr. rename r0 into hs.
  assert (main_carried (Some hs)) as (Hw & Hmax & Hl).
  { destruct prev as [hs0|]; [by injection E0 as <-|].
    unfold load_header_slices in E0. apply from_slices_vec_wf in E0 as (? & ? & ?); [done|done]. }
  inv_bind Hr. destruct r0 as [stopped f]. destruct stopped; [|done].
  eapply (run_forky_ok events) in E2.
  { eapply (forky_report_ok start f _ t'); [exact E2|]. congruence. }
  exists (length (slices hs)). split; [|split; [|lia]].
  - split; [by split| |done]. destruct pfork as [fhs|]; [by destruct Hf1 as (? & ? & ?); split|].
    split; [|done|constructor|exact Hmax]. cbn. split; cbn; [constructor| |done|done].
    intros id Hid. by apply elem_of_nil in Hid.
  - unfold link_forky.new in E1. inv_bind E1. inv_bind E1. injection E1 as <-. unfold mode_ok. cbn.
    destruct (slices.is_empty _) eqn:Ee; [|by injection E3 as <-]. inv_bind E3. injection E3 as <-.
    unfold slices.is_empty in Ee. cbn in Ee. by destruct (slices _); [constructor|].
Qed.

(** ** The switch to a fork *)

Lemma write_same_status hs i id s s' : slices_wf hs -> slices hs !! i = Some (id, s) ->
  slice_status s' = slice_status s -> slices_wf (slices.write hs id s').
Proof.
  intros Hw Hi Hs. rewrite (write_deque _ i _ s) by done.
  apply (wf_rebuilt hs _ (count hs)); [done|by eapply fmap_fst_insert|].
  intros x. rewrite (in_status_insert _ _ _ _ s), (wf_count _ Hw x) by done. rewrite Hs. lia.
Qed.

Lemma promote_ok num ws len ws' : slices_wf (canonical_slices ws) -> slices_wf (fork_slices ws) ->
  fork_switch.promote num ws = Done (len, ws') ->
  edited any (canonical_slices ws) (canonical_slices ws') /\ slices_wf (fork_slices ws') /\
  max_slices (fork_slices ws') = max_slices (fork_slices ws).
Proof.
  intros Hw Hfw Hp. unfold fork_switch.promote in Hp. do 4 inv_bind Hp.
  destruct (slices.find_by_start_block_num (canonical_slices ws) num) as [id|] eqn:Ef; [|done].
  destruct (slices.find_by_start_block_num (fork_slices ws) num) as [fid|] eqn:Eff; [|done].
  injection E as <-. injection E0 as <-.
  apply find_where_lookup in Ef as (i & s & Hi & _). apply find_where_lookup in Eff as (j & fs & Hj & _).
  rewrite (read_deque _ i _ s) in E1 by done. rewrite (read_deque _ j _ fs) in E2 by done.
  injection E1 as <-. injection E2 as <-.
  destruct (slices.set_slice_status s (slice_status fs) (count (canonical_slices ws))) as [s' c] eqn:Eset.
  injection Hp as <- <-. cbn [canonical_slices fork_slices]. split_and!; [|by eapply write_same_status|done].
  by apply (edited_status any (canonical_slices ws) i id s s s' (slice_status fs) c Hw Hi eq_refl Eset
    (fun x => with_refetch (with_headers x (headers fs)) 0)).
Qed.

Lemma promote_all_ok rounds : forall num end_ ws n ws', slices_wf (canonical_slices ws) ->
  slices_wf (fork_slices ws) -> fork_switch.promote_all rounds num end_ ws = Done (Some (n, ws')) ->
  edited any (canonical_slices ws) (canonical_slices ws') /\ slices_wf (fork_slices ws') /\
  max_slices (fork_slices ws') = max_slices (fork_slices ws).
Proof.
  induction rounds as [|rounds IH]; intros num end_ ws n ws' Hw Hfw Hp; cbn in Hp; destruct (_ <? _); try done;
    try (injection Hp as <- <-; split_and!; [by apply (edited_refl any)|done..]).
  inv_bind Hp. destruct r as [len ws1]. apply promote_ok in E as (He & Hfw1 & Hm1); [|done..].
  apply IH in Hp as (He' & ? & Hm'); [|by eapply edited_wf|done]. split_and!; [|done|congruence].
  by eapply (edited_trans any).
Qed.

Lemma discard_all_ok rounds : forall num end_ hs hs', slices_wf hs ->
  fork_switch.discard_all rounds num end_ hs = Done (Some hs') -> edited any hs hs'.
Proof.
  induction rounds as [|rounds IH]; intros num end_ hs hs' Hw Hp; cbn in Hp; destruct (_ <? _); try done;
    try (injection Hp as <-; by apply (edited_refl any)).
  inv_bind Hp. destruct r as [len hs1].
  assert (edited any hs hs1) as He.
  { unfold fork_switch.discard in E. do 2 inv_bind E.
    destruct (slices.find_by_start_block_num hs num) as [id|] eqn:Ef; [|done]. injection E0 as <-.
    apply find_where_lookup in Ef as (i & s & Hi & _). rewrite (read_deque _ i _ s) in E1 by done. injection E1 as <-.
    do 2 (destruct (negb _); [done|]).
    destruct (slices.set_slice_status s status.Empty (count hs)) as [s' c] eqn:Eset. injection E as <- <-.
    by apply (edited_status any hs i id s s s' status.Empty c Hw Hi eq_refl Eset
      (fun x => with_refetch (with_headers x None) 0)). }
  eapply (edited_trans any); [exact He|]. eapply IH; [by eapply edited_wf|done].
Qed.

Lemma edited_carried R hs hs' : edited R hs hs' -> main_carried (Some hs) -> main_carried (Some hs').
Proof.
  intros He (_ & Hm & Hl). split_and!; [by eapply edited_wf| |by rewrite (edited_length _ _ _ He)].
  by destruct He as (l & c & -> & _).
Qed.

Lemma execute_switch_ok c ws (t : HeaderTables T) ws' t' :
  main_carried (Some (canonical_slices ws)) -> fork_carried (Some (fork_slices ws)) ->
  fork_switch.execute c ws t = Done (Some (ws', t')) ->
  main_carried (Some (canonical_slices ws')) /\ fork_carried (Some (fork_slices ws')).
Proof.
  intros Hm (Hfw & Hfm & _) He. unfold fork_switch.execute in He. inv_bind He. destruct r as [ws1|]; [|done].
  inv_bind He. destruct r as [t1|]; [|done]. injection He as -> ->.
  unfold fork_switch.switch_to_fork in E. inv_bind E. destruct r as [[num ws2]|]; [|done].
  inv_bind E. destruct r as [hs|]; [|done]. injection E as <-. cbn [canonical_slices fork_slices].
  apply promote_all_ok in E1 as (He1 & Hfw2 & Hm2); [|apply Hm|done].
  apply discard_all_ok in E2; [|by eapply edited_wf].
  split; [by eapply edited_carried, edited_carried|].
  split_and!; [by apply clear_wf|cbn; congruence|constructor].
Qed.

End runs.

(** ** The stage *)

Section stage.
Context `{Keccak} `{RlpStream} `{HeaderSliceVerifier} {T : Type -> Type} {KV : Kv T}.

Definition state_carried (o : option DownloaderRunState) : Prop :=
  match o with
  | Some s => main_carried (forky_header_slices s) /\ fork_carried (forky_fork_header_slices s)
  | None => True
  end.

Lemma finalize_carried state (t : HeaderTables T) state' t' : state_carried state ->
  finalize_unwind state t = Done (Some (state', t')) -> state_carried state'.
Proof.
  intros Hs Hf. unfold finalize_unwind in Hf. destruct state as [s|]; [|by injection Hf as <- <-].
  destruct Hs as [Hm Hfk]. destruct (unwind_request s) as [request|]; [|by injection Hf as <- <-].
  destruct (forky_header_slices s) as [hs|]; [|done]. destruct (forky_fork_header_slices s) as [fhs|]; [|done].
  inv_bind Hf. destruct r as [[ws t1]|]; [|done]. injection Hf as <- <-. unfold unwind_finalize in E.
  destruct (finalize request) as [c|]; [|done]. by eapply execute_switch_ok in E.
Qed.

(** C13: The windows that the header download keeps from one call of its stage to the next are
    right: for each status the counter, which decides whether a stage waits, is the number of
    slices that have it, the references are distinct, the canonical window has at most as many
    slices as it may, and in the window of a fork at most the first slice is not linked to the
    next.  A call keeps this, whatever the peers answer, in whatever order the stages are polled
    and the tasks of the verifying stages end, and also when it makes a pending switch. *)
Theorem downloader_state_counted (size_of_header : Z) (num_cpus : nat) config preverified (mem_limit batch_size : Z)
    inputs input state (t : HeaderTables T) output state' told t' :
  state_carried state -> Z.of_nat (length (forky_events inputs)) < 2 ^ 63 ->
  header_download_execute size_of_header num_cpus config preverified mem_limit batch_size inputs input state t =
    Done (Some (output, state', told, t')) ->
  state_carried state'.
Proof.
  intros Hs Hev Hx. unfold header_download_execute in Hx. inv_bind Hx. destruct r as [[state1 t1]|]; [|done].
  apply finalize_carried in E; [|done]. do 2 inv_bind Hx. destruct r0 as [[report t2]|]; [|done].
  assert (state' = Some (run_state report)) as -> by (destruct (unwind_request (run_state report)); by injection Hx).
  clear Hx. unfold downloader_run in E1. inv_bind E1. destruct r0 as [[report1 t3]|]; [|done].
  do 2 inv_bind E1. destruct r1 as [[report2 t4]|]; [|done]. do 2 inv_bind E1. destruct r2 as [[report3 t5]|]; [|done].
  injection E1 as <- <-. cbn. eapply forky_run_ok; [| |exact Hev|eassumption];
    destruct state1 as [s|]; cbn; try done; apply E.
Qed.

End stage.

Section witness.
Import sample_headers.
#[local] Existing Instances samples.keccak map_table.map_kv ethash_verifier.make_ethash_verifier stream.

(** The top of the chain is known and near, and a peer sends the first slice. *)
Definition near_top : DownloaderRunState := {|
  estimated_top_block_num := Some 1000; forky_header_slices := None; forky_fork_header_slices := None;
  unwind_request := None |}.

Definition first_slice : fetch_receive.Arrival := fetch_receive.Arrived
  {| fetch_receive.message_headers := (fun i : nat => header_at (Z.of_nat i)) <$> seq 0 192;
     fetch_receive.message_from_peer := Some 7 |}.

Definition forky_schedule : list ForkyEvent :=
  let fetch := GroupFetchRequest (fun _ => SendOk) (fun _ => 0) None in
  (MainGroup <$> [fetch; fetch; GroupFetchReceive first_slice; GroupVerify None; GroupVerify None;
                  GroupVerify (Some (0%nat, 10000)); GroupVerify None; GroupVerify None]) ++
  [PollForkyLink; MainGroup GroupSave; PollExtend; PollTimeout true].

Definition near_inputs : RunInputs := {|
  preverified_events := []; top_block_arrivals := []; linear_events := []; forky_events := forky_schedule |}.

Definition near_run := header_download_execute 100 2 config {| hashes := [] |} 1000000 100000 near_inputs
  {| restarted := false; first_started_at := (0, None); previous_stage := None; stage_progress := None |}
  (Some near_top) tables.

(** The first slice is saved, and the others wait for their answers. *)
Lemma downloader_state_counted_witness :
  exists s told t', near_run = Done (Some (Progress 191 true, Some s, told, t')) /\
    (fun hs => (count hs status.Saved, count hs status.Waiting)) <$> forky_header_slices s = Some (1, 514) /\
    state_carried (Some s).
Proof.
  assert (match near_run with
    | Done (Some (output, Some s, _, _)) => Some (output,
        (fun hs => (count hs status.Saved, count hs status.Waiting)) <$> forky_header_slices s)
    | _ => None end = Some (Progress 191 true, Some (1, 514))) as Hr by (vm_compute; reflexivity).
  destruct near_run as [[[[[output [s|]] told] t']|]| |] eqn:E; try discriminate Hr.
  injection Hr as -> Hc. exists s, told, t'. split; [reflexivity|]. split; [exact Hc|].
  refine (downloader_state_counted 100 2 config {| hashes := [] |} 1000000 100000 near_inputs _ (Some near_top)
    tables _ _ _ _ _ _ E); [by split|by vm_compute].
Defined.

End witness.
